(* ===== verification/_CoqProject ===== *)
-Q . S2P
Prelude.v
Errors.v
Hash.v
Text.v
Cbor.v
Master.v
Index.v
FsObject.v
FsArchive.v
TarProfile.v
TarExtract.v
TarRoundTrip.v
FsManifest.v
JsonToy.v
FsManifestOps.v
Json.v
Identity.v
Subjects.v
Graph.v
GraphToy.v
Posix.v
Tasks.v
Store.v
StoreInvariant.v
StoreSafety.v
StorePool.v
StoreRefs.v
StoreToy.v
Fibers.v
FiberSafety.v
FiberLiveness.v
Resolver.v
Answers.v
ResolverSafety.v
Realizer.v
Product.v
RealizerSafety.v
RealizerLiveness.v
RealizerToy.v
Elf.v
BundleConfig.v
BundleLaunch.v
Reading.v
BundleSafety.v
SandboxProtocol.v
SandboxKernel.v
SandboxEvents.v
SandboxRunner.v
SandboxLauncher.v
SandboxCalls.v
SandboxIsolation.v
SandboxReport.v
SandboxLayer.v
SandboxAdditive.v
SandboxConfig.v
SandboxConfigFacts.v
SandboxHost.v
SandboxHostFacts.v
SandboxToy.v
Publisher.v
PublisherFacts.v
Reader.v
ReaderFacts.v
RemoteProvider.v
Content.v
ContentFacts.v
RepositoryToy.v
OciExtract.v
OciOverlay.v
OciFacts.v
HostBundle.v
BundleVerify.v
BundleVerifyFacts.v
BundleLaunches.v
BundleToy.v
Http.v
Network.v
NetworkPool.v
NetworkWalk.v
NetworkToy.v
