(* ===== verification/Prelude.v ===== *)
(** * Verification of bobr, a content-addressed build system

    bobr realizes build requests into objects named by the hash of their
    content, keeps them in a local store, and exchanges them with signed
    remote repositories.  This library models the parts that decide what an
    object is, how it is named, which bytes are accepted from outside, how
    objects are published and how a request is realized, and proves that they
    do what they promise.

    ** The program and the files

    - [fsobj-hash] names a file-system object (file, symlink or directory).
      [FsObject] models [node.rs], [hash.rs] and the entry points of [lib.rs]:
      tagged hashing of nodes, directory hashes from parts, the leaf index.
      [FsArchive] models [normalize.rs], [tar_source.rs] and
      [path_source.rs]: loading the node of a tar stream or of a path.
      [Hash] models [hex_hash.rs] and the digest text of
      [bobr-repo/src/format.rs].
    - [bobr-repo] is the repository format.  [Cbor] models [cbor.rs]
      (Modules [Encoder] and [Decoder], state passed explicitly), [Master]
      models [master.rs] (the signed root: payload codec, validation, active
      slot, verification against pinned keys), [Index] models [index.rs]
      (Modules [MappingIndex] and [ContentList], binary searches over fixed
      records), [TarProfile] models [tar_profile.rs] (writer and extractor of
      the canonical directory archive), with its theorems in [TarExtract] and
      [TarRoundTrip].  [Publisher] models [publisher.rs] (slots, the three
      modes of publication, tables and their restoration, expiry), with
      [PublisherFacts]; [Reader] models [reader.rs] and [cache.rs] (fetching of
      the master and of tables into a cache, snapshots and their lookups) as
      programs over the calls of [Posix], with [ReaderFacts] and the examples of
      [RepositoryToy].  [Content] models [content.rs] and [encoding.rs] (the
      envelopes of objects and files, encoder and verifying decoder), with
      [ContentFacts].  [Errors] holds the error values of [bobr-repo] and
      [bobr-store].
    - [bobr-store] is the local store.  [FsManifest] models the manifest
      format of [fs_tree.rs] (entries, validation, canonical JSON lines, strict
      parser, marked reads) and [FsManifestOps] its pure operations (subset,
      merge, re-rooting, install rules, the hash of a file with metadata).
      [Text] has the facts on UTF-8, decimals and lines these rely on.
      [Posix] has the file system calls as a free monad over a tree of files,
      directories and symbolic links, each call with its failures; [Tasks] the
      interleaving of programs and a rely-guarantee logic.  [Store] models
      [store.rs], [record.rs], [refs.rs], [object.rs], [source.rs] and the
      helpers of [bobr-core/src/fsutil.rs] as programs over these calls;
      [StoreInvariant], [StoreSafety], [StorePool], [StoreRefs] and [StoreToy]
      have its invariant, its proofs and its examples.
    - [bobr-core] plans builds.  [Identity] models [identity.rs] (canonical
      JSON of a configuration, configuration digests, build and reuse keys)
      over the JSON values of [Json]; [Subjects] models the planned subjects
      of [ref_name.rs], [builder.rs], [subject.rs] and of [bobr-source]
      ([lib.rs], [origins.rs]); [Graph] models [graph.rs], the planner that
      unfolds a request into a keyed graph of builds.  [GraphToy] holds their
      concrete instances and examples.
    - [bobr-source] realizes the graph.  [Fibers] has its asynchronous layer
      (tokio tasks, join sets, once-cells, shared state, panics) on top of
      [Posix], [FiberSafety] and [FiberLiveness] a logic for safety and one for
      inevitability.  [Resolver] models [secondary_resolver.rs] (asking mapping
      providers, acquiring objects and the files of a manifest from content
      providers, promotion), with [Answers] and [ResolverSafety]; [Realizer]
      models [dynamic_realizer.rs], [execute_builder_miss] of [realizer.rs] and
      the job and publication of [build_executor.rs], with [Product],
      [RealizerSafety], [RealizerLiveness] and the examples of [RealizerToy].
      [RemoteProvider] models the queries of [remote_provider.rs], which put a
      repository of [Reader] behind the interface [Resolver] asks.  [Http] models
      [http.rs] (errors, the retry policy, origins, one download, zip archives);
      [Network] models [network.rs], [limits.rs] and the programs of the acquisition
      engine that use them (the walk over mirrors, the scheduled transport, the pull
      of an image) as trees of the operations at which a task meets the world;
      [NetworkPool] runs any number of them on shared semaphores, [NetworkWalk] says
      what one of them does, and [NetworkToy] has the examples.
    - [bobr-builder] has the builders.  [OciExtract] models [oci_extract.rs] (the
      layers of an image applied to an extraction root that is a tree of nodes, with
      records and deferred metadata), [OciOverlay] is what that is to produce, a
      fold over one map, and [OciFacts] proves that it does; there the calls of a
      whiteout are modelled on a whole file system, too, where links are followed.  [HostBundle] models the
      declaration of a bundle and its lowering ([host_bundle.rs]), [BundleVerify]
      [host_bundle_verify.rs], the checks a bundle must pass before it is published
      (layout, and the audit of what starting its tools needs), with its theorems in
      [BundleVerifyFacts]; [BundleLaunches] composes it with the launcher, and
      [BundleToy] has the examples.
    - [bobr-bundle-launcher] starts a tool of an installed bundle.  [Elf] models
      [elf.rs] and [script.rs] (what an executable is), [BundleConfig] models
      [config.rs], [platform.rs], [invocation.rs] and [location.rs],
      [BundleLaunch] the resolution of the tool, its environment, the dispatch
      over scripts and loaders and [main.rs].  [Reading] is a logic for programs
      over [Posix] that only read; [BundleSafety] and [BundleToy] have the
      theorems and examples.
    - [bobr-sandbox-launcher] and [bobr-sandbox] run the steps of a build.
      [SandboxProtocol] models [protocol.rs]; [SandboxKernel] has the kernel
      calls as a free monad, the state of a process and a logic over all
      answers; [SandboxRunner] and [SandboxLauncher] model [runner.rs],
      [launcher.rs] and [main.rs], with [SandboxCalls], [SandboxIsolation],
      [SandboxReport], [SandboxEvents] and [SandboxToy].  [SandboxConfig]
      models the recipe and the configurations made from it ([lib.rs],
      [mounts.rs]), with [SandboxConfigFacts];
      [SandboxLayer] the capture of the overlay ([lib.rs]), with
      [SandboxAdditive]; [SandboxHost] models
      [lifecycle.rs] and [reports.rs], with [SandboxHostFacts].  The examples of all
      are in [SandboxToy].
    - This file holds what all share: the [result] monad and its notation (the
      [?] operator), fallible loops, machine integers, byte strings with their
      order, sorting, splitting and UTF-8, and the tactics [inv_res] (inversion
      of a computation that returned [Ok]) and [bools].

    Bytes are [Z] values and strings are byte lists; widths and wrap-around
    are written out where they matter.  A Rust map is a [gmap], a file tree is
    a map from paths, an inductive tree or the tree of [Posix], an error is a value of the error
    type of the crate with its message.  [Path] display is the byte string.

    ** Code outside the repository

    SHA-256 ([Sha256Api]: the digest has 32 bytes; theorems that need more ask
    for the absence of collisions among the messages actually hashed, or that
    hashes identify the nodes that occur, [hashes_identify]), COSE
    and Ed25519 ([CoseApi]), the URL parser ([UrlApi]), [serde_json]
    ([JsonApi] with [JsonObjectLaw]: a flat object text parses to its members;
    [ScalarWriter] with [ScalarLaw]: the texts written for numbers and strings
    can be read back without looking past them), [zstd] ([ZstdApi] with [ZstdLaw]:
    what is compressed is one standard frame that decompresses to it) and [globset]
    ([GlobApi], nothing assumed) are type classes.  The entries of a layer are what
    the [tar] crate says, any list.
    The store takes the JSON text of a record and the text of a time stamp (no
    slash in it) as functions; the resolver takes its providers as records of
    programs ([MappingContract], [ContentContract]: they keep the store well
    formed and vouch for their mappings); the realizer takes the executor's
    run of a builder, the source engine's acquisition, the materialiser of
    fs-trees and the local permit as the record [Workers] ([WorkerContract]:
    what is staged is below the task's own scratch directory and is what the
    keys stand for).  The transport of a repository is any program from requests
    to answers, temporary files ([TempFiles]) and the joining of URLs
    ([UrlJoin]) are arguments; nothing is assumed of them.  The TOML of a bundle and the release of the running kernel
    are arguments, as are the answers of servers and files to a download and, for the
    jitter of waits, the hasher of the Standard Library and the product of a duration
    and a float ([JitterApi]: the product is rounded to a nanosecond).  So is the ELF parser of the bundle audit ([goblin]: nothing is
    assumed of it); the JSON of sandbox events ([EventJson] with [EventJsonLaw]:
    what is written is read back), of their reports and configurations are
    classes.  The kernel below the sandbox may give any answer to any call: only
    the documented effect of a call that succeeded on the process that made it
    ([after]) is taken for granted.  Each of these stands for an operation that
    ends.  Each has a
    concrete instance ([ToySha], the instances of [Master], [JsonToy],
    [GraphToy], [OpsExamples]) on which the witnesses evaluate.

    ** What the theorems show

    - Naming: equal object hashes mean equal trees ([object_hash_identifies]),
      a directory and any archive of it have one hash
      ([archive_hash_matches_path]), archive order is irrelevant
      ([tar_order_insensitive]), the helper routes to a hash agree
      ([fs_tree_object_hash_agrees]), digest text is
      canonical ([hex_text_canonical]); and the one gap the design leaves
      ([plain_file_masquerades]).
    - Archives: [tar_round_trip] (what is written is what is extracted),
      [extraction_confined] (on any input the extractor terminates, stays below
      its root and within its limits).
    - Content: what is decoded is authentic and the representation canonical
      ([decoded_content_authentic]), what is encoded decodes to the source
      ([content_round_trip]).
    - Images: extraction computes the overlay of the layers ([oci_layers_overlay]);
      through a symbolic link of the image, a whiteout removes what lies in any
      directory of the file system ([whiteout_escapes]).
    - Repository metadata: which documents are accepted as masters, exactly
      ([verify_authenticates]), the payload codec ([master_payload_roundtrip], [master_payload_canonical]),
      [master_active_slot], and the searches and
      encoders of the indexes against their lists of records.
    - Repositories: a publication changes the answers clients get as its mode
      says ([publication_refines]), clients see the answers of the publication
      whatever the cache and the network do ([snapshot_sees_publication]), and the
      next writer starts from exactly what was published ([writer_continues]);
      so do the providers that a build asks ([remote_answers_published]).
    - Network: connections stay within the limits and no task holds a slot while it
      waits ([connection_limits_hold]), everything scheduled ends
      ([scheduled_tasks_end]), mirrors are walked as the program means to
      ([mirror_walk_schedule], against a description of the passes that does not use
      the program's records), cancellation stops the walk ([cancelled_walk_stops]),
      waits double up to thirty seconds and are bounded ([retry_delay_bounds]) and
      failures are classified as documented ([download_outcome]).
    - Manifests: [from_entries_spec] (exactly the closed trees),
      [manifest_text_roundtrip] and [parse_only_canonical] (one text per
      manifest), [merge_manifests_union], [subset_manifest_spec],
      [strip_prefix_manifest_spec], [install_last_match_wins].
    - Publication: in every interleaving of store operations, with failing
      calls and tasks that stop anywhere, references lead to complete recorded
      objects of the content they name and reports stay true
      ([publication_safe]); alone, references read back and keep their history
      ([build_ref_roundtrip], [object_ref_history]).
    - Planning: equal keys mean equal build descriptions ([keys_identify],
      [config_digest_identifies]), a subject is planned exactly when its inputs
      obey the specification ([builder_subject_spec],
      [ordered_inputs_complete]), the planner implements the finite unfolding
      of the request ([plan_graph_refines]) and its graphs are closed and
      acyclic ([plan_graph_closed_dag]).
    - Realization: whatever the schedule, the goals reported are published
      objects their keys map to ([realization_sound]), and every run comes to
      its end ([realization_ends]); the candidate product of reuse lookups is
      exact ([candidate_product_exact]), and so is the combination of provider
      answers ([combine_index_results_exact]).  The safety proofs need that
      scratch directories of tasks are apart, that mappings recorded in
      advance hold ([mappings_sound]) and, for the end, that build keys
      identify the inputs of nodes ([build_keys_identify]).

    - Bundles: the launcher executes nothing but checked files of its bundle and
      changes nothing ([launch_confined]), ELF inspection is exact and stays
      inside the file ([elf_inspection_exact]), every variable has an accounted
      origin ([environment_accounted]).  The builder's audit ends
      ([startup_audit_ends]), a bundle that passes it contains what starting its tools
      needs, every library where the documented search order finds it first with the
      run paths it inherits ([startup_closure_sound]), lowering gives the declared, typed
      configuration ([lowered_config_typed]), and the launcher of a bundle that was
      verified comes to executing any of its tools ([verified_bundle_runs];
      [launchable] lists what the launcher asks beyond the verification).
    - Sandbox: every program that is executed is a configured step, isolated as
      configured ([steps_isolated]), with the command, environment, directory and
      user that the recipe asks for ([build_runs_as_configured],
      [interpolation_exact]); events and exit code tell what the kernel answered about
      the processes of the steps, whatever the chunks ([runner_tells_truth],
      [event_stream_round_trip]); the host leaves no launcher behind and counts a
      build as completed only with all of its events
      ([launcher_reaped_and_forwarded]); the captured layer laid over the rootfs
      is what the build saw ([captured_layer_exact]).

    ** Fuel

    The loops that are not structural carry fuel: the tar extractor gets the
    length of its input plus one (each round consumes a block), the tar writer
    recurses on the tree, UTF-8 decoding and [chunks_exact] get the length of
    the list, the parent walk of a subset gets the length of the path (each
    round drops a byte), the graph planner gets the number of request nodes
    plus two (the path it descends never repeats a node), decimal printing gets twenty digits, enough for any
    [u64], the candidate product gets the number of combinations plus one.  The
    theorems are about the results, so they show that the fuel is enough.
    Walks of a tree on disk ([make_tree_writable], [transferred_path_stats])
    stop at depth 2048, the deepest path that fits [PATH_MAX]; the search for a
    free staging name takes any fuel, as other processes may take the names.
    The dispatch over script interpreters gets the limit of the code
    ([MAX_SCRIPT_DEPTH]); the audit of a bundle one more than the states it may
    visit ([MAX_STARTUP_NODES]; [startup_audit_ends]); the event decoder the length of its input plus one; the
    interpolation the length of the string.  The loops of the sandbox that wait
    or retry may go on for ever in the code: a run that uses up their fuel is
    [SSpin], the state of a loop still running, and the theorems hold for every
    fuel.
    The process-wide counters of temporary names are unbounded; a fiber's
    number stands for the serial of its scratch directory.

    ** Not modelled

    The HTTP client, registry clients, rendering of logs and command lines, and the
    namespace runtime are input and output around external systems.  Of downloads,
    the synchronous copy of the walk (reached by tests only), the unpacking that the
    [tar] crate does and the removal of old staging trees are left out, and of the
    remote provider the staging and import of content.  Of the realizer, the
    dispatcher of the executor, the source engine with its own cancellation,
    and the text of panics are left to the records above.  Of the sandbox,
    preparing the workspace and finding the launcher executable are left out.
    Left out, each input and output around the parts above: scanning and
    materialising trees (the rest of [fs_tree.rs]), local and copying secondary
    stores ([secondary.rs], [local_content.rs], [copy_content.rs]), moving decoded
    files into the pool ([fs_file_import.rs]), the executor's dispatcher, the stages
    of a source task around its download and request parsing. *)

From stdpp Require Export base gmap list strings countable sorting pretty.
From Stdlib Require Export ZArith Lia Ascii.

#[global] Set Default Goal Selector "!".

(** ** Results

    Rust's [Result<T, E>].  The notation [x <- m ;; k] is the [?] operator:
    it is a plain [match], so that proofs can split on the sub-computation. *)

Inductive result (E A : Type) : Type :=
| Ok (a : A)
| Err (e : E).
Arguments Ok {E A} a.
Arguments Err {E A} e.

Declare Scope bobr_scope.
Delimit Scope bobr_scope with bobr.
Open Scope bobr_scope.

Notation "x <- m ;; k" :=
  (match m with Ok x => k | Err e => Err e end)
    (at level 100, m at next level, right associativity,
     format "'[v' x  <-  m ;; '/' k ']'") : bobr_scope.
Notation "'let*' p ':=' m 'in' k" :=
  (match m with Ok p => k | Err e => Err e end)
    (at level 100, p strict pattern, m at next level, right associativity) : bobr_scope.
Notation "m ;;; k" :=
  (match m with Ok _ => k | Err e => Err e end)
    (at level 100, right associativity) : bobr_scope.

(** [guard b e] is [if !b { return Err(e) }]. *)
Definition guard {E : Type} (b : bool) (e : E) : result E unit :=
  if b then Ok tt else Err e.

Definition ok_or {E A : Type} (o : option A) (e : E) : result E A :=
  match o with Some a => Ok a | None => Err e end.

Definition and_then {A B : Type} (o : option A) (f : A -> option B) : option B :=
  match o with Some a => f a | None => None end.

Definition map_err {E F A : Type} (f : E -> F) (r : result E A) : result F A :=
  match r with Ok a => Ok a | Err e => Err (f e) end.

Definition is_ok {E A : Type} (r : result E A) : bool :=
  match r with Ok _ => true | Err _ => false end.

#[export] Instance result_eq_dec {E A} `{EqDecision E, EqDecision A} :
  EqDecision (result E A).
Proof. solve_decision. Defined.

(** [Iterator::map(f).collect::<Result<Vec<_>, _>>()]. *)
Fixpoint try_map {E A B : Type} (f : A -> result E B) (l : list A) : result E (list B) :=
  match l with
  | [] => Ok []
  | x :: l' => y <- f x ;; ys <- try_map f l' ;; Ok (y :: ys)
  end.

(** A [for] loop whose body may return early with [?]. *)
Fixpoint try_fold {E A S : Type} (f : S -> A -> result E S) (s : S) (l : list A)
  : result E S :=
  match l with
  | [] => Ok s
  | x :: l' => s' <- f s x ;; try_fold f s' l'
  end.

(** ** Machine integers

    Unsigned machine integers are [Z] values; a cast or an arithmetic
    operation of a fixed width is written out where it happens. *)

Abbreviation u8 := Z (only parsing).
Abbreviation u32 := Z (only parsing).
Abbreviation u64 := Z (only parsing).
Abbreviation usize := Z (only parsing).
Abbreviation bytes := (list Z).

Definition U64_MAX : Z := 2 ^ 64 - 1.
Definition is_u8 (z : Z) : Prop := (0 <= z < 256)%Z.
Definition is_u32 (z : Z) : Prop := (0 <= z < 2 ^ 32)%Z.
Definition is_u64 (z : Z) : Prop := (0 <= z < 2 ^ 64)%Z.
Definition wf_bytes (l : bytes) : Prop := Forall is_u8 l.
Definition wf_bytesb (l : bytes) : bool :=
  forallb (fun z => (0 <=? z)%Z && (z <? 256)%Z) l.

Definition checked_add (a b : u64) : option u64 :=
  if (a + b <=? U64_MAX)%Z then Some (a + b)%Z else None.
Definition checked_mul (a b : u64) : option u64 :=
  if (a * b <=? U64_MAX)%Z then Some (a * b)%Z else None.
Definition saturating_add (a b : u64) : u64 := Z.min (a + b) U64_MAX.

(** [Vec::len() as u64]. *)
Definition len {A : Type} (l : list A) : Z := Z.of_nat (length l).

(** Byte-string literals [b"..."] and [str] literals (both are bytes here;
    a Rust [str] is a byte list that is valid UTF-8). *)
Definition lit (s : string) : bytes :=
  map (fun a => Z.of_nat (nat_of_ascii a)) (String.list_ascii_of_string s).

(** [uN::to_be_bytes] and [uN::from_be_bytes], [n] bytes wide. *)
Fixpoint be_bytes (n : nat) (v : Z) : bytes :=
  match n with
  | O => []
  | S n' => (v / 256 ^ Z.of_nat n') mod 256 :: be_bytes n' v
  end%Z.

Definition from_be_bytes (l : bytes) : Z :=
  fold_left (fun acc b => acc * 256 + b)%Z l 0%Z.

(** ** Orders on byte strings

    [Ord] of [[u8]], [Vec<u8>], [str] and fixed arrays: lexicographic. *)

Fixpoint lex_cmp (a b : bytes) : comparison :=
  match a, b with
  | [], [] => Eq
  | [], _ :: _ => Lt
  | _ :: _, [] => Gt
  | x :: a', y :: b' =>
      match Z.compare x y with
      | Eq => lex_cmp a' b'
      | c => c
      end
  end.

Definition lex_lt (a b : bytes) : Prop := lex_cmp a b = Lt.
Definition lex_le (a b : bytes) : Prop := lex_cmp a b <> Gt.
Definition lex_ltb (a b : bytes) : bool :=
  match lex_cmp a b with Lt => true | _ => false end.
Definition lex_leb (a b : bytes) : bool :=
  match lex_cmp a b with Gt => false | _ => true end.
Definition bytes_eqb (a b : bytes) : bool := bool_decide (a = b).

(** ** Stable sorting ([slice::sort_by] with a key comparison). *)

Section Sorting.
Context {A : Type} (key : A -> bytes).

Fixpoint insert_by (x : A) (l : list A) : list A :=
  match l with
  | [] => [x]
  | y :: l' =>
      if lex_leb (key x) (key y) then x :: y :: l' else y :: insert_by x l'
  end.

Definition sort_by (l : list A) : list A := foldr insert_by [] l.
End Sorting.

(** ** Splitting

    [slice::split(|b| b == sep)] and [str::split(sep)]: always at least one
    piece, empty pieces kept. *)

Fixpoint split_on (sep : Z) (l : bytes) : list bytes :=
  match l with
  | [] => [[]]
  | x :: l' =>
      if (x =? sep)%Z then [] :: split_on sep l'
      else match split_on sep l' with
           | [] => [[x]]
           | p :: ps => (x :: p) :: ps
           end
  end.

Fixpoint join_with (sep : bytes) (parts : list bytes) : bytes :=
  match parts with
  | [] => []
  | [p] => p
  | p :: ps => p ++ sep ++ join_with sep ps
  end.

(** [bytes[start..end]]. *)
Definition slice (b : bytes) (start end_ : nat) : bytes := take (end_ - start) (drop start b).

(** [buffer[start..start + b.len()].copy_from_slice(b)] within bounds. *)
Definition put (buffer : bytes) (start : nat) (b : bytes) : bytes :=
  take start buffer ++ b ++ drop (start + length b) buffer.

(** [strip_prefix] and [strip_suffix]. *)
Fixpoint strip_prefix (p l : bytes) : option bytes :=
  match p, l with
  | [], _ => Some l
  | x :: p', y :: l' => if (x =? y)%Z then strip_prefix p' l' else None
  | _ :: _, [] => None
  end.

Definition starts_with (p l : bytes) : bool :=
  match strip_prefix p l with Some _ => true | None => false end.

Definition strip_suffix (s l : bytes) : option bytes :=
  match strip_prefix (rev s) (rev l) with
  | Some r => Some (rev r)
  | None => None
  end.

Definition ends_with (s l : bytes) : bool :=
  match strip_suffix s l with Some _ => true | None => false end.

(** [str::rsplit_once(sep)]: split at the last separator. *)
Fixpoint rsplit_once (sep : Z) (l : bytes) : option (bytes * bytes) :=
  match l with
  | [] => None
  | x :: l' =>
      match rsplit_once sep l' with
      | Some (a, b) => Some (x :: a, b)
      | None => if (x =? sep)%Z then Some ([], l') else None
      end
  end.

(** [slice::chunks_exact(n)] for [n > 0]: the trailing partial chunk is
    dropped.  The fuel is the length of the list. *)
Fixpoint chunks_fuel {A : Type} (fuel n : nat) (l : list A) : list (list A) :=
  match fuel with
  | O => []
  | S fuel' =>
      if (length l <? n)%nat then []
      else take n l :: chunks_fuel fuel' n (drop n l)
  end.
Definition chunks_exact {A : Type} (n : nat) (l : list A) : list (list A) :=
  chunks_fuel (length l) n l.

(** ** UTF-8

    [std::str::from_utf8] and [str::chars]: the decoder of well-formed UTF-8
    (no overlong forms, no surrogates, at most U+10FFFF). *)

Definition is_cont (b : Z) : bool := (128 <=? b)%Z && (b <=? 191)%Z.

Fixpoint utf8_chars_fuel (fuel : nat) (l : bytes) : option (list Z) :=
  match fuel with
  | O => match l with [] => Some [] | _ => None end
  | S fuel' =>
      match l with
      | [] => Some []
      | b0 :: r0 =>
          if (0 <=? b0)%Z && (b0 <? 128)%Z then
            option_map (cons b0) (utf8_chars_fuel fuel' r0)
          else if (194 <=? b0)%Z && (b0 <=? 223)%Z then
            match r0 with
            | b1 :: r1 =>
                if is_cont b1 then
                  option_map (cons ((b0 - 192) * 64 + (b1 - 128))%Z)
                             (utf8_chars_fuel fuel' r1)
                else None
            | _ => None
            end
          else if (224 <=? b0)%Z && (b0 <=? 239)%Z then
            match r0 with
            | b1 :: b2 :: r2 =>
                let c := ((b0 - 224) * 4096 + (b1 - 128) * 64 + (b2 - 128))%Z in
                if is_cont b1 && is_cont b2 && (2048 <=? c)%Z
                   && negb ((55296 <=? c)%Z && (c <=? 57343)%Z)
                then option_map (cons c) (utf8_chars_fuel fuel' r2)
                else None
            | _ => None
            end
          else if (240 <=? b0)%Z && (b0 <=? 244)%Z then
            match r0 with
            | b1 :: b2 :: b3 :: r3 =>
                let c := ((b0 - 240) * 262144 + (b1 - 128) * 4096
                          + (b2 - 128) * 64 + (b3 - 128))%Z in
                if is_cont b1 && is_cont b2 && is_cont b3 && (65536 <=? c)%Z
                   && (c <=? 1114111)%Z
                then option_map (cons c) (utf8_chars_fuel fuel' r3)
                else None
            | _ => None
            end
          else None
      end
  end.

Definition utf8_chars (l : bytes) : option (list Z) := utf8_chars_fuel (length l) l.
Definition is_utf8 (l : bytes) : bool :=
  match utf8_chars l with Some _ => true | None => false end.

(** [char::is_control]: Unicode general category Cc. *)
Definition char_is_control (c : Z) : bool :=
  ((0 <=? c)%Z && (c <=? 31)%Z) || ((127 <=? c)%Z && (c <=? 159)%Z).

Definition has_control (l : bytes) : bool :=
  match utf8_chars l with Some cs => existsb char_is_control cs | None => false end.

(** ** Automation

    [inv_res] splits every [match] on a [result] or an option inside a
    hypothesis that equates a computation with [Ok _], keeping the equation
    of each sub-computation. *)

Lemma map_err_ok {E F A} (f : E -> F) (r : result E A) a : map_err f r = Ok a -> r = Ok a.
Proof. destruct r; simpl; congruence. Qed.

Lemma ok_or_ok {E A} (o : option A) (e : E) a : ok_or o e = Ok a -> o = Some a.
Proof. destruct o; simpl; congruence. Qed.

Lemma try_fold_app {E A S} (f : S -> A -> result E S) s l k :
  try_fold f s (l ++ k) = (s' <- try_fold f s l ;; try_fold f s' k).
Proof. revert s. induction l as [|x l IH]; intros s; simpl; [done|]. by destruct (f s x). Qed.

Lemma try_map_app {E A B} (f : A -> result E B) l k :
  try_map f (l ++ k) = (a <- try_map f l ;; b <- try_map f k ;; Ok (a ++ b)).
Proof.
  induction l as [|x l IH]; simpl; [by destruct (try_map f k)|].
  destruct (f x); [|done]. rewrite IH. by destruct (try_map f l), (try_map f k).
Qed.

Ltac inv_res_step :=
  match goal with
  | H : map_err _ _ = Ok _ |- _ => apply map_err_ok in H
  | H : ok_or _ _ = Ok _ |- _ => apply ok_or_ok in H
  | H : Ok _ = Ok _ |- _ => injection H; clear H; intros; try subst
  | H : Err _ = Err _ |- _ => injection H; clear H; intros; try subst
  | H : Ok _ = Err _ |- _ => discriminate H
  | H : Err _ = Ok _ |- _ => discriminate H
  | H : Some _ = None |- _ => discriminate H
  | H : None = Some _ |- _ => discriminate H
  | H : Some _ = Some _ |- _ => injection H; clear H; intros; try subst
  | H : (let (_, _) := ?p in _) = Ok _ |- _ => destruct p
  | H : guard ?b _ = Ok _ |- _ =>
      let E := fresh "G" in destruct b eqn:E; [clear H | discriminate H]
  | H : match ?m with Ok _ => _ | Err _ => _ end = Ok _ |- _ =>
      let E := fresh "E" in destruct m eqn:E; [| discriminate H]
  | H : match ?m with Ok _ => Err _ | Err _ => _ end = Ok _ |- _ =>
      let E := fresh "E" in destruct m eqn:E; [discriminate H |]
  | H : match ?m with Some _ => _ | None => Err _ end = Ok _ |- _ =>
      let E := fresh "E" in destruct m eqn:E; [| discriminate H]
  | H : match ?m with Some _ => Err _ | None => _ end = Ok _ |- _ =>
      let E := fresh "E" in destruct m eqn:E; [discriminate H |]
  | H : (if ?b then Err _ else _) = Ok _ |- _ =>
      let E := fresh "G" in destruct b eqn:E; [discriminate H |]
  | H : (if ?b then _ else Err _) = Ok _ |- _ =>
      let E := fresh "G" in destruct b eqn:E; [| discriminate H]
  end.
Ltac inv_res := repeat inv_res_step.

(** Boolean tests of the code, turned into propositions. *)
Ltac bools :=
  repeat match goal with
  | H : _ && _ = true |- _ => apply andb_prop in H as [? ?]
  | H : _ || _ = false |- _ => apply orb_false_elim in H as [? ?]
  | H : negb _ = true |- _ => apply negb_true_iff in H
  | H : negb _ = false |- _ => apply negb_false_iff in H
  | H : bool_decide _ = true |- _ => apply bool_decide_eq_true_1 in H
  | H : bool_decide _ = false |- _ => apply bool_decide_eq_false_1 in H
  | H : bytes_eqb _ _ = true |- _ => apply bool_decide_eq_true_1 in H
  | H : bytes_eqb _ _ = false |- _ => apply bool_decide_eq_false_1 in H
  | H : (_ <=? _)%Z = true |- _ => apply Z.leb_le in H
  | H : (_ <=? _)%Z = false |- _ => apply Z.leb_gt in H
  | H : (_ <? _)%Z = true |- _ => apply Z.ltb_lt in H
  | H : (_ <? _)%Z = false |- _ => apply Z.ltb_ge in H
  | H : (_ =? _)%Z = true |- _ => apply Z.eqb_eq in H
  | H : (_ =? _)%Z = false |- _ => apply Z.eqb_neq in H
  | H : (_ <=? _)%nat = true |- _ => apply Nat.leb_le in H
  | H : (_ <=? _)%nat = false |- _ => apply Nat.leb_gt in H
  | H : (_ <? _)%nat = true |- _ => apply Nat.ltb_lt in H
  | H : (_ <? _)%nat = false |- _ => apply Nat.ltb_ge in H
  | H : (_ =? _)%nat = true |- _ => apply Nat.eqb_eq in H
  | H : (_ =? _)%nat = false |- _ => apply Nat.eqb_neq in H
  end.

Create HintDb bobr discriminated.
Create Rewrite HintDb bobr.

(** ** Lemmas: integers and byte encodings *)

Lemma len_nonneg {A} (l : list A) : (0 <= len l)%Z.
Proof. unfold len. lia. Qed.

Lemma len_app {A} (l k : list A) : len (l ++ k) = (len l + len k)%Z.
Proof. unfold len. rewrite length_app. lia. Qed.

Lemma len_cons {A} (x : A) l : len (x :: l) = (1 + len l)%Z.
Proof. unfold len. simpl. lia. Qed.

Lemma len_nil {A} : len (@nil A) = 0%Z.
Proof. reflexivity. Qed.

#[export] Hint Rewrite @len_app @len_cons @len_nil : bobr.
#[export] Hint Resolve len_nonneg : bobr.

Lemma wf_bytesb_spec l : wf_bytesb l = true <-> wf_bytes l.
Proof.
  unfold wf_bytesb, wf_bytes. rewrite forallb_forall, Forall_forall.
  setoid_rewrite list_elem_of_In.
  split; intros H x Hx; specialize (H x Hx); unfold is_u8 in *; bools;
    [lia | apply andb_true_intro; split; [apply Z.leb_le | apply Z.ltb_lt]; lia].
Qed.

Lemma wf_bytes_app l k : wf_bytes (l ++ k) <-> wf_bytes l /\ wf_bytes k.
Proof. apply Forall_app. Qed.

Lemma wf_lit s : wf_bytes (lit s).
Proof.
  unfold wf_bytes, lit. apply Forall_forall. intros x Hx.
  apply list_elem_of_In, in_map_iff in Hx as (a & <- & _).
  unfold is_u8. pose proof (nat_ascii_bounded a). lia.
Qed.

Lemma length_be_bytes n v : length (be_bytes n v) = n.
Proof. induction n; simpl; congruence. Qed.

Lemma wf_be_bytes n v : wf_bytes (be_bytes n v).
Proof.
  induction n; simpl; constructor; auto.
  unfold is_u8. apply Z.mod_pos_bound. lia.
Qed.

#[export] Hint Resolve wf_lit wf_be_bytes : bobr.
#[export] Hint Rewrite length_be_bytes : bobr.

Lemma fold_be_bytes n v acc :
  fold_left (fun a b => a * 256 + b)%Z (be_bytes n v) acc
  = (acc * 256 ^ Z.of_nat n + v mod 256 ^ Z.of_nat n)%Z.
Proof.
  revert acc. induction n as [|n IH]; intros acc.
  - simpl. rewrite Z.mod_1_r. lia.
  - cbn [be_bytes fold_left]. rewrite IH.
    assert (0 < 256 ^ Z.of_nat n)%Z by (apply Z.pow_pos_nonneg; lia).
    replace (Z.of_nat (S n)) with (Z.of_nat n + 1)%Z by lia.
    rewrite (Z.pow_add_r 256), Z.pow_1_r by lia.
    rewrite (Z.rem_mul_r v) by lia. lia.
Qed.

Lemma from_be_bytes_be_bytes n v :
  (0 <= v < 256 ^ Z.of_nat n)%Z -> from_be_bytes (be_bytes n v) = v.
Proof.
  intros Hv. unfold from_be_bytes. rewrite fold_be_bytes, Z.mod_small by lia. lia.
Qed.

Lemma fold_be_bound l acc :
  wf_bytes l -> (0 <= acc)%Z ->
  (acc * 256 ^ len l <= fold_left (fun a b => a * 256 + b) l acc
   < (acc + 1) * 256 ^ len l)%Z.
Proof.
  revert acc. induction l as [|x l IH]; intros acc Hl Hacc.
  - simpl. unfold len. simpl. lia.
  - inversion_clear Hl as [|? ? Hx Hl']. unfold is_u8 in Hx.
    cbn [fold_left]. specialize (IH (acc * 256 + x)%Z Hl' ltac:(lia)).
    rewrite len_cons, Z.pow_add_r, Z.pow_1_r by (pose proof (len_nonneg l); lia).
    assert (0 < 256 ^ len l)%Z by (apply Z.pow_pos_nonneg; pose proof (len_nonneg l); lia).
    nia.
Qed.

Lemma from_be_bytes_bound l :
  wf_bytes l -> (0 <= from_be_bytes l < 256 ^ len l)%Z.
Proof. intros H. pose proof (fold_be_bound l 0 H ltac:(lia)). unfold from_be_bytes. lia. Qed.

Lemma be_bytes_fold l acc :
  wf_bytes l -> (0 <= acc)%Z ->
  be_bytes (length l) (fold_left (fun a b => a * 256 + b)%Z l acc) = l.
Proof.
  revert acc. induction l as [|x l IH]; intros acc Hl Hacc; [reflexivity|].
  inversion_clear Hl as [|? ? Hx Hl']. unfold is_u8 in Hx.
  cbn [length be_bytes fold_left]. f_equal; [|apply IH; [assumption|lia]].
  pose proof (fold_be_bound l (acc * 256 + x)%Z Hl' ltac:(lia)) as Hb.
  fold (len l).
  assert (0 < 256 ^ len l)%Z by (apply Z.pow_pos_nonneg; pose proof (len_nonneg l); lia).
  replace (fold_left _ l _ / 256 ^ len l)%Z with (acc * 256 + x)%Z.
  - rewrite Z.add_comm, Z.mod_add by lia. apply Z.mod_small. lia.
  - apply Z.div_unique with
      (fold_left (fun a b => a * 256 + b) l (acc * 256 + x) - (acc * 256 + x) * 256 ^ len l)%Z;
      lia.
Qed.

(** Decoding big-endian bytes and encoding the value again is the identity. *)
Lemma be_bytes_from_be_bytes l : wf_bytes l -> be_bytes (length l) (from_be_bytes l) = l.
Proof. intros H. apply be_bytes_fold; [assumption|lia]. Qed.

Lemma be_bytes_inj n v w :
  (0 <= v < 256 ^ Z.of_nat n)%Z -> (0 <= w < 256 ^ Z.of_nat n)%Z ->
  be_bytes n v = be_bytes n w -> v = w.
Proof.
  intros Hv Hw E. apply (f_equal from_be_bytes) in E.
  rewrite !from_be_bytes_be_bytes in E by assumption. exact E.
Qed.

(** ** Lemmas: the lexicographic order is a decidable total order *)

Lemma lex_cmp_refl a : lex_cmp a a = Eq.
Proof. induction a; simpl; [reflexivity|]. rewrite Z.compare_refl. assumption. Qed.

Lemma lex_cmp_eq a b : lex_cmp a b = Eq <-> a = b.
Proof.
  split; [|intros ->; apply lex_cmp_refl].
  revert b. induction a as [|x a IH]; intros [|y b] H; simpl in H; try discriminate; [done|].
  destruct (Z.compare_spec x y); try discriminate. subst. f_equal. auto.
Qed.

Lemma lex_cmp_antisym a b : lex_cmp b a = CompOpp (lex_cmp a b).
Proof.
  revert b. induction a as [|x a IH]; intros [|y b]; simpl; try reflexivity.
  rewrite Z.compare_antisym. destruct (Z.compare x y); simpl; auto.
Qed.

Lemma lex_lt_trans a b c : lex_lt a b -> lex_lt b c -> lex_lt a c.
Proof.
  unfold lex_lt. revert b c.
  induction a as [|x a IH]; intros [|y b] [|z c] H1 H2; simpl in *; try discriminate; auto.
  destruct (Z.compare_spec x y), (Z.compare_spec y z); try discriminate; subst;
    try (rewrite (proj2 (Z.compare_lt_iff _ _)) by lia; reflexivity).
  rewrite Z.compare_refl. eauto.
Qed.

Lemma lex_lt_irrefl a : ~ lex_lt a a.
Proof. unfold lex_lt. rewrite lex_cmp_refl. discriminate. Qed.

Lemma lex_lt_total a b : lex_lt a b \/ a = b \/ lex_lt b a.
Proof.
  unfold lex_lt. destruct (lex_cmp a b) eqn:E; auto.
  - right. left. apply lex_cmp_eq. assumption.
  - right. right. rewrite lex_cmp_antisym, E. reflexivity.
Qed.

Lemma lex_le_lt_or_eq a b : lex_le a b <-> lex_lt a b \/ a = b.
Proof.
  unfold lex_le, lex_lt. split.
  - intros H. destruct (lex_cmp a b) eqn:E; auto; [|congruence].
    right. apply lex_cmp_eq. assumption.
  - intros [H| ->]; [congruence|]. rewrite lex_cmp_refl. discriminate.
Qed.

Lemma lex_le_trans a b c : lex_le a b -> lex_le b c -> lex_le a c.
Proof.
  rewrite !lex_le_lt_or_eq. intros [H1| ->] [H2| ->]; eauto using lex_lt_trans.
Qed.

Lemma lex_le_not_lt a b : lex_le a b <-> ~ lex_lt b a.
Proof.
  unfold lex_le, lex_lt. rewrite (lex_cmp_antisym a b).
  destruct (lex_cmp a b); simpl; split; congruence.
Qed.

Lemma lex_leb_le a b : lex_leb a b = true <-> lex_le a b.
Proof. unfold lex_leb, lex_le. destruct (lex_cmp a b); split; congruence. Qed.

Lemma lex_leb_gt a b : lex_leb a b = false <-> lex_lt b a.
Proof.
  unfold lex_leb, lex_lt. rewrite (lex_cmp_antisym a b).
  destruct (lex_cmp a b); simpl; split; congruence.
Qed.

Lemma lex_ltb_lt a b : lex_ltb a b = true <-> lex_lt a b.
Proof. unfold lex_ltb, lex_lt. destruct (lex_cmp a b); split; congruence. Qed.

Lemma lex_ltb_ge a b : lex_ltb a b = false <-> lex_le b a.
Proof.
  unfold lex_ltb, lex_le. rewrite (lex_cmp_antisym a b).
  destruct (lex_cmp a b); simpl; split; congruence.
Qed.

Lemma lex_le_refl a : lex_le a a.
Proof. unfold lex_le. rewrite lex_cmp_refl. discriminate. Qed.

Lemma lex_lt_le a b : lex_lt a b -> lex_le a b.
Proof. intros H. apply lex_le_lt_or_eq. auto. Qed.

Lemma lex_le_antisym a b : lex_le a b -> lex_le b a -> a = b.
Proof.
  rewrite lex_le_not_lt. intros H1 H2. apply lex_le_lt_or_eq in H2 as [H2|H2]; [done|auto].
Qed.

Lemma lex_lt_le_trans a b c : lex_lt a b -> lex_le b c -> lex_lt a c.
Proof. rewrite lex_le_lt_or_eq. intros H [H'| <-]; eauto using lex_lt_trans. Qed.

Lemma lex_le_lt_trans a b c : lex_le a b -> lex_lt b c -> lex_lt a c.
Proof. rewrite lex_le_lt_or_eq. intros [H'| ->]; eauto using lex_lt_trans. Qed.

(** A proper prefix is smaller than its extensions. *)
Lemma lex_lt_app_r a x b : lex_lt a (a ++ x :: b).
Proof.
  unfold lex_lt. induction a; simpl; [reflexivity|]. rewrite Z.compare_refl. assumption.
Qed.

#[export] Hint Resolve lex_le_refl lex_lt_le lex_lt_trans lex_le_trans : bobr.

(** ** Lemmas: sorting *)

Section SortingFacts.
Context {A : Type} (key : A -> bytes).

Definition key_le (x y : A) : Prop := lex_le (key x) (key y).
Definition key_lt (x y : A) : Prop := lex_lt (key x) (key y).

Lemma insert_by_perm x l : insert_by key x l ≡ₚ x :: l.
Proof.
  induction l as [|y l IH]; simpl; [done|].
  destruct (lex_leb (key x) (key y)); [done|]. rewrite IH. apply Permutation_swap.
Qed.

Lemma sort_by_perm l : sort_by key l ≡ₚ l.
Proof.
  induction l as [|x l IH]; simpl; [done|]. rewrite insert_by_perm. by constructor.
Qed.

Lemma insert_by_sorted x l :
  StronglySorted key_le l -> StronglySorted key_le (insert_by key x l).
Proof.
  induction 1 as [|y l Hl IH Hy]; simpl; [repeat constructor|].
  destruct (lex_leb (key x) (key y)) eqn:E.
  - apply lex_leb_le in E. constructor; [by constructor|].
    constructor; [exact E|]. eapply Forall_impl; [exact Hy|].
    intros z Hz. unfold key_le in *. eauto with bobr.
  - apply lex_leb_gt in E. constructor; [assumption|].
    rewrite insert_by_perm. constructor; [|assumption]. unfold key_le. eauto with bobr.
Qed.

Lemma sort_by_sorted l : StronglySorted key_le (sort_by key l).
Proof. induction l; simpl; [constructor|]. by apply insert_by_sorted. Qed.

Lemma sort_by_id l : StronglySorted key_le l -> sort_by key l = l.
Proof.
  induction 1 as [|y l Hl IH Hy]; simpl; [done|]. rewrite IH.
  destruct Hy as [|z l Hz _]; simpl; [done|].
  apply lex_leb_le in Hz. by rewrite Hz.
Qed.

(** With distinct keys the sorted order is strict, so that sorting is
    insensitive to the input order. *)
Lemma sorted_strict l :
  StronglySorted key_le l -> NoDup (map key l) -> StronglySorted key_lt l.
Proof.
  induction 1 as [|y l Hl IH Hy]; simpl; intros Hnd; constructor.
  - apply IH. by inversion Hnd.
  - inversion_clear Hnd as [|? ? Hni _]. rewrite Forall_forall in Hy |- *.
    intros z Hz. specialize (Hy z Hz). unfold key_le, key_lt in *.
    apply lex_le_lt_or_eq in Hy as [|Heq]; [assumption|].
    exfalso. apply Hni. rewrite Heq. by apply list_elem_of_fmap_2.
Qed.

Lemma sorted_perm_unique l k :
  StronglySorted key_lt l -> StronglySorted key_lt k -> l ≡ₚ k -> l = k.
Proof.
  intros Hl. revert k. induction Hl as [|x l Hl IH Hx]; intros k Hk Hp.
  - by apply Permutation_nil_l in Hp.
  - destruct Hk as [|y k Hk Hy]; [by apply Permutation_nil_r in Hp|].
    assert (x = y) as ->.
    { assert (Hxk : x ∈ y :: k) by (rewrite <- Hp; left).
      assert (Hyl : y ∈ x :: l) by (rewrite Hp; left).
      apply elem_of_cons in Hxk as [|Hxk]; [assumption|].
      apply elem_of_cons in Hyl as [|Hyl]; [congruence|].
      rewrite Forall_forall in Hx, Hy. specialize (Hx _ Hyl). specialize (Hy _ Hxk).
      unfold key_lt in *. exfalso. eapply lex_lt_irrefl, lex_lt_trans; eassumption. }
    f_equal. apply IH; [assumption|]. by apply Permutation_cons_inv in Hp.
Qed.

Lemma sort_by_unique l k :
  NoDup (map key l) -> l ≡ₚ k -> sort_by key l = sort_by key k.
Proof.
  intros Hnd Hp. apply sorted_perm_unique.
  - apply sorted_strict; [apply sort_by_sorted|]. by rewrite sort_by_perm.
  - apply sorted_strict; [apply sort_by_sorted|]. by rewrite sort_by_perm, <- Hp.
  - by rewrite !sort_by_perm.
Qed.
End SortingFacts.

Lemma strongly_sorted_key_le {A} (key : A -> bytes) l :
  StronglySorted (key_lt key) l -> StronglySorted (key_le key) l.
Proof.
  induction 1 as [|x l Hl IH Hx]; constructor; [assumption|].
  eapply Forall_impl; [exact Hx|]. intros y. apply lex_lt_le.
Qed.

Lemma sorted_lt_NoDup {A} (key : A -> bytes) l :
  StronglySorted (key_lt key) l -> NoDup (map key l).
Proof.
  induction 1 as [|x l Hl IH Hx]; simpl; constructor; [|assumption].
  intros Hin. apply list_elem_of_In, in_map_iff in Hin as (y & E & Hy).
  apply list_elem_of_In in Hy. rewrite Forall_forall in Hx. specialize (Hx y Hy).
  unfold key_lt in Hx. rewrite E in Hx. by apply lex_lt_irrefl in Hx.
Qed.

(** ** Lemmas: fixed-size chunks *)

Section Chunks.
Context {A : Type} (n : nat) (Hn : (0 < n)%nat).
Implicit Types (l : list A) (ps : list (list A)).

Definition all_len ps : Prop := Forall (fun p => length p = n) ps.

Lemma chunks_fuel_concat ps fuel :
  all_len ps -> (length (concat ps) <= fuel)%nat -> chunks_fuel fuel n (concat ps) = ps.
Proof.
  intros Hps. revert fuel. induction Hps as [|p ps Hp Hps IH]; intros fuel Hf; simpl in *.
  - destruct fuel; simpl; [reflexivity|]. destruct n; [lia|reflexivity].
  - rewrite length_app in Hf. destruct fuel; [lia|]. simpl.
    rewrite length_app, (proj2 (Nat.ltb_ge _ _)) by lia.
    rewrite take_app_length', drop_app_length' by lia.
    f_equal. apply IH. lia.
Qed.

Lemma chunks_exact_concat ps : all_len ps -> chunks_exact n (concat ps) = ps.
Proof. intros H. by apply chunks_fuel_concat. Qed.

Lemma multiple_is_concat l :
  (length l mod n = 0)%nat -> exists ps, all_len ps /\ l = concat ps.
Proof.
  intros Hl. apply Nat.Div0.div_exact in Hl. remember (length l / n)%nat as k eqn:Hk. clear Hk.
  revert l Hl. induction k as [|k IH]; intros l Hl.
  - exists []. split; [constructor|]. apply nil_length_inv. lia.
  - destruct (IH (drop n l)) as (ps & Hps & Hd); [rewrite length_drop; lia|].
    exists (take n l :: ps). split.
    + constructor; [rewrite length_take; lia|assumption].
    + simpl. by rewrite <- Hd, take_drop.
Qed.

Lemma length_concat_all_len ps : all_len ps -> length (concat ps) = (length ps * n)%nat.
Proof.
  induction 1 as [|p ps Hp Hps IH]; simpl; [reflexivity|]. rewrite length_app. lia.
Qed.

Lemma drop_concat_all_len ps i :
  all_len ps -> drop (i * n) (concat ps) = concat (drop i ps).
Proof.
  intros Hps. revert i. induction Hps as [|p ps Hp Hps IH]; intros i; simpl.
  - by rewrite !drop_nil.
  - destruct i as [|i]; simpl; [reflexivity|].
    rewrite drop_app_ge by lia. rewrite <- IH. f_equal. lia.
Qed.

Lemma all_len_drop ps i : all_len ps -> all_len (drop i ps).
Proof. apply Forall_drop. Qed.
End Chunks.

(** ** Lemmas: splitting and joining *)

Lemma split_on_pieces sep l : Forall (fun p => sep ∉ p) (split_on sep l).
Proof.
  induction l as [|x l IH]; simpl.
  - constructor; [apply not_elem_of_nil|constructor].
  - destruct (x =? sep)%Z eqn:E; bools.
    + constructor; [apply not_elem_of_nil|assumption].
    + destruct (split_on sep l) as [|p ps]; inversion_clear IH; constructor; auto.
      * apply not_elem_of_cons. split; [congruence|apply not_elem_of_nil].
      * apply not_elem_of_cons. split; [congruence|assumption].
Qed.

Lemma split_on_none sep l : sep ∉ l -> split_on sep l = [l].
Proof.
  induction l as [|x l IH]; simpl; [done|]. intros [Hx Hl]%not_elem_of_cons.
  destruct (x =? sep)%Z eqn:E; bools; [congruence|]. by rewrite IH.
Qed.

Lemma split_on_app sep p l : sep ∉ p -> split_on sep (p ++ sep :: l) = p :: split_on sep l.
Proof.
  induction p as [|x p IH]; simpl; [by rewrite Z.eqb_refl|]. intros [Hx Hp]%not_elem_of_cons.
  destruct (x =? sep)%Z eqn:E; bools; [congruence|]. by rewrite IH.
Qed.

Lemma split_on_join sep ps :
  ps <> [] -> Forall (fun p => sep ∉ p) ps -> split_on sep (join_with [sep] ps) = ps.
Proof.
  intros Hne Hps. induction Hps as [|p ps Hp Hps IH]; [done|]. destruct ps as [|q ps].
  - by apply split_on_none.
  - change (join_with [sep] (p :: q :: ps)) with (p ++ sep :: join_with [sep] (q :: ps)).
    rewrite split_on_app by done. by rewrite IH.
Qed.

Lemma split_on_cons sep l : exists p ps, split_on sep l = p :: ps.
Proof.
  destruct l as [|x l]; simpl; [by eexists _, _|]. destruct (x =? sep)%Z; [by eexists _, _|].
  destruct (split_on sep l); by eexists _, _.
Qed.

Lemma join_split_on sep l : join_with [sep] (split_on sep l) = l.
Proof.
  induction l as [|x l IH]; [done|]. cbn [split_on].
  destruct (split_on_cons sep l) as (p & ps & Es). rewrite Es in *.
  destruct (x =? sep)%Z eqn:E; bools.
  - subst x. change (join_with [sep] ([] :: p :: ps)) with (sep :: join_with [sep] (p :: ps)).
    by rewrite IH.
  - destruct ps as [|q ps]; [simpl in *; by rewrite IH|].
    change (x :: join_with [sep] (p :: q :: ps) = x :: l). by rewrite IH.
Qed.

Lemma join_snoc prefix name :
  join_with [47]%Z (prefix ++ [name]) =
  match prefix with [] => name | _ => join_with [47]%Z prefix ++ [47]%Z ++ name end.
Proof.
  induction prefix as [|a [|b prefix] IH]; [reflexivity..|].
  change (a ++ [47]%Z ++ join_with [47]%Z ((b :: prefix) ++ [name]) =
          (a ++ [47]%Z ++ join_with [47]%Z (b :: prefix)) ++ [47]%Z ++ name).
  rewrite IH. by rewrite <- !app_assoc.
Qed.

Lemma join_nonempty prefix :
  Forall (fun c => c <> []) prefix -> join_with [47]%Z prefix = [] -> prefix = [].
Proof.
  destruct 1 as [|a prefix Ha _]; [done|]. destruct prefix; simpl; [done|].
  by destruct a.
Qed.

(** A path component that names a child. *)
Definition valid_name (name : bytes) : Prop :=
  name <> [] /\ 47%Z ∉ name /\ name <> [46]%Z /\ name <> [46; 46]%Z.

(** ** Lemmas: fallible traversals *)

Lemma try_map_length {E A B} (f : A -> result E B) l r : try_map f l = Ok r -> length r = length l.
Proof.
  revert r. induction l as [|x l IH]; intros r H; simpl in H; inv_res; [done|].
  simpl. f_equal. by apply IH.
Qed.

Lemma try_map_Forall2 {E A B} (f : A -> result E B) l r :
  try_map f l = Ok r <-> Forall2 (fun x y => f x = Ok y) l r.
Proof.
  revert r. induction l as [|x l IH]; intros r; simpl.
  - split; [intros; inv_res; constructor|]. intros H. by inversion H.
  - split.
    + intros H. inv_res. constructor; [done|]. by apply IH.
    + intros H. inversion_clear H as [|? y ? ys Hy Hys]. rewrite Hy. apply IH in Hys.
      by rewrite Hys.
Qed.

Lemma try_map_perm {E A B} (f : A -> result E B) l k r :
  l ≡ₚ k -> try_map f l = Ok r -> exists r', try_map f k = Ok r' /\ r ≡ₚ r'.
Proof.
  intros Hp H. apply try_map_Forall2 in H. destruct (Permutation_Forall2 Hp H) as (r' & Hr & Hk).
  exists r'. split; [|done]. by apply try_map_Forall2.
Qed.

(** ** Lemmas: slices of a buffer *)

(** A loop that only checks. *)
Lemma try_fold_unit {E A} (f : A -> result E unit) l :
  try_fold (fun _ x => f x) tt l = Ok tt <-> Forall (fun x => f x = Ok tt) l.
Proof.
  induction l as [|x l IH]; simpl; [split; [constructor|done]|].
  destruct (f x) as [[]|] eqn:Ef.
  - rewrite IH, Forall_cons. tauto.
  - split; [done|]. intros H. inversion H. congruence.
Qed.

Lemma length_put buf s b : (s + length b <= length buf)%nat -> length (put buf s b) = length buf.
Proof. intros H. unfold put. rewrite !length_app, length_take, length_drop. lia. Qed.

Lemma length_slice b s e : (s <= e <= length b)%nat -> length (slice b s e) = (e - s)%nat.
Proof. intros H. unfold slice. rewrite length_take, length_drop. lia. Qed.

(** A write at the start of the window shows, followed by the old contents. *)
Lemma slice_put_at buf s b e :
  (s + length b <= e)%nat -> (e <= length buf)%nat ->
  slice (put buf s b) s e = b ++ slice buf (s + length b) e.
Proof.
  intros H1 H2. unfold slice, put. rewrite drop_app_length' by (rewrite length_take; lia).
  rewrite take_app, (take_ge b) by lia. f_equal. f_equal. lia.
Qed.

(** A write outside the window does not. *)
Lemma slice_put_out buf o b s e :
  (e <= o \/ o + length b <= s)%nat -> (s <= e)%nat -> (o + length b <= length buf)%nat ->
  slice (put buf o b) s e = slice buf s e.
Proof.
  intros H1 H2 H3. unfold slice, put. destruct H1 as [H1|H1].
  - destruct (decide (s <= o)%nat); [|lia].
    rewrite drop_app_le by (rewrite length_take; lia).
    rewrite take_app_le by (rewrite length_drop, length_take; lia).
    rewrite skipn_firstn_comm, take_take. f_equal. lia.
  - rewrite drop_app_ge by (rewrite length_take; lia). rewrite length_take.
    rewrite drop_app_ge by lia. rewrite drop_drop. do 2 f_equal. lia.
Qed.

Lemma take_repeat {A} (x : A) k n : take k (repeat x n) = repeat x (Nat.min k n).
Proof. revert n. induction k as [|k IH]; intros [|n]; simpl; auto. by rewrite IH. Qed.

Lemma drop_repeat {A} (x : A) k n : drop k (repeat x n) = repeat x (n - k).
Proof. revert n. induction k as [|k IH]; intros [|n]; simpl; auto. Qed.

Lemma slice_repeat (x : Z) n s e : (e <= n)%nat -> slice (repeat x n) s e = repeat x (e - s).
Proof. intros H. unfold slice. rewrite drop_repeat, take_repeat. f_equal. lia. Qed.

Lemma wf_put buf s b : wf_bytes buf -> wf_bytes b -> wf_bytes (put buf s b).
Proof.
  intros Hbuf Hb. unfold put. rewrite !wf_bytes_app. repeat split; [|done|].
  - by apply Forall_take.
  - by apply Forall_drop.
Qed.

Lemma wf_repeat x n : is_u8 x -> wf_bytes (repeat x n).
Proof. intros Hx. induction n; simpl; by constructor. Qed.

(** The three parts of a buffer around a window. *)
Lemma slice_split b s e :
  (s <= e <= length b)%nat -> b = take s b ++ slice b s e ++ drop e b.
Proof.
  intros H. unfold slice. rewrite <- (take_drop s b) at 1. f_equal.
  rewrite <- (take_drop (e - s) (drop s b)) at 1. rewrite drop_drop. do 2 f_equal. lia.
Qed.

(** ** Association lists *)

Fixpoint assoc {B : Type} (name : bytes) (es : list (bytes * B)) : option B :=
  match es with
  | [] => None
  | (n, v) :: es' => if bytes_eqb n name then Some v else assoc name es'
  end.

Lemma assoc_in {B} name (es : list (bytes * B)) v :
  NoDup (map fst es) -> assoc name es = Some v <-> (name, v) ∈ es.
Proof.
  induction es as [|[n w] es IH]; cbn [assoc map fst]; intros Hn.
  { split; [done|]. intros H. inversion H. }
  apply NoDup_cons in Hn as [Hni Hn]. rewrite elem_of_cons.
  destruct (bytes_eqb n name) eqn:E; bools.
  - subst n. split.
    + intros [= ->]. by left.
    + intros [[= ->]|Hin]; [done|]. destruct Hni. by apply (list_elem_of_fmap_2 fst) in Hin.
  - rewrite (IH Hn). split; [by right|]. intros [[=]|]; congruence || done.
Qed.

Lemma assoc_none {B} name (es : list (bytes * B)) :
  assoc name es = None <-> name ∉ map fst es.
Proof.
  induction es as [|[n w] es IH]; cbn [assoc map fst].
  { split; [|done]. intros _ H. inversion H. }
  rewrite not_elem_of_cons. destruct (bytes_eqb n name) eqn:E; bools.
  - split; [done|]. intros [? _]. congruence.
  - rewrite IH. split; [|tauto]. intros ?. split; [congruence|done].
Qed.

