(* ===== verification/Errors.v ===== *)
(** * Error values

    [bobr-repo/src/error.rs] ([RepositoryError]) and
    [bobr-store/src/error.rs] ([StoreError]): a policy category and a
    human-readable message. *)

From S2P Require Import Prelude.

(** [RepositoryErrorKind]. *)
Inductive RepositoryErrorKind :=
| Configuration
| Transport (retryable : bool)
| Authentication
| InvalidRepository
| LocalIo
| Runtime
| Cancelled.

(** [RepositoryError]; [retry_after] is a duration in milliseconds. *)
Record RepositoryError := mkRepositoryError {
  re_kind : RepositoryErrorKind;
  re_message : string;
  re_retry_after : option Z;
}.

Definition with_kind (kind : RepositoryErrorKind) (message : string) : RepositoryError :=
  {| re_kind := kind; re_message := message; re_retry_after := None |}.
Definition repo_configuration (message : string) : RepositoryError :=
  with_kind Configuration message.
Definition repo_transport (message : string) (retryable : bool) : RepositoryError :=
  with_kind (Transport retryable) message.
Definition retryable_transport (message : string) (retry_after : option Z) : RepositoryError :=
  {| re_kind := Transport true; re_message := message; re_retry_after := retry_after |}.
Definition repo_authentication (message : string) : RepositoryError :=
  with_kind Authentication message.
Definition invalid_repository (message : string) : RepositoryError :=
  with_kind InvalidRepository message.
Definition repo_local_io (message : string) : RepositoryError := with_kind LocalIo message.
Definition repo_runtime (message : string) : RepositoryError := with_kind Runtime message.
Definition repo_cancelled (message : string) : RepositoryError := with_kind Cancelled message.

(** [RepositoryError::new]. *)
Definition repo_error (message : string) : RepositoryError := invalid_repository message.

Definition is_retryable (e : RepositoryError) : bool :=
  match re_kind e with Transport true => true | _ => false end.

(** [StoreError]. *)
Inductive StoreError :=
| SE_InvalidInput (message : string)
| SE_InvalidData (message : string)
| SE_Unsupported (message : string)
| SE_Io (message : string)
| SE_Hashing (message : string).

(** [impl Display for StoreError]. *)
Definition store_error_message (e : StoreError) : string :=
  match e with
  | SE_InvalidInput m | SE_InvalidData m | SE_Unsupported m | SE_Io m | SE_Hashing m => m
  end.

#[export] Instance RepositoryErrorKind_eq_dec : EqDecision RepositoryErrorKind.
Proof. solve_decision. Defined.
#[export] Instance RepositoryError_eq_dec : EqDecision RepositoryError.
Proof. solve_decision. Defined.
#[export] Instance StoreError_eq_dec : EqDecision StoreError.
Proof. solve_decision. Defined.

(** Bytes shown in a message ([{}] of a [str] or of a path). *)
Definition show (l : bytes) : string :=
  String.string_of_list_ascii (map (fun z => ascii_of_nat (Z.to_nat z)) l).
