(* ===== verification/Hash.v ===== *)
(** * Digests and their text form

    [fsobj-hash/src/hex_hash.rs] (the macro behind [ObjectHash], [BuildKey],
    [ReuseKey] and [FsFileHash]) and the digest codec of
    [bobr-repo/src/format.rs] ([MetadataHash]).  A digest is 32 raw bytes and
    its text is 64 lowercase hexadecimal digits.  SHA-256 itself is external:
    a parameter of which only the output width is used. *)

From S2P Require Import Prelude Errors.

(** A typed digest is 32 raw bytes. *)
Definition wf_hash (h : bytes) : Prop := wf_bytes h /\ length h = 32%nat.

(** [sha2::Sha256]. *)
Class Sha256Api := {
  sha256 : bytes -> bytes;
  sha256_wf : forall b, wf_hash (sha256 b);
}.

(** SHA-256 has no collision among the messages of [M]. *)
Definition collision_free `{Sha256Api} (M : bytes -> Prop) : Prop :=
  forall x y, M x -> M y -> sha256 x = sha256 y -> x = y.

(** [ParseHexHashError]. *)
Inductive ParseHexHashError := InvalidLength | InvalidHex.

#[export] Instance ParseHexHashError_eq_dec : EqDecision ParseHexHashError.
Proof. solve_decision. Defined.

(** The byte string [b"0123456789abcdef"] and its indexing. *)
Definition HEX : bytes := lit "0123456789abcdef".
Definition hex_digit (n : Z) : u8 := nth (Z.to_nat n) HEX 0%Z.

(** [to_hex] of the macro. *)
Definition to_hex (h : bytes) : bytes :=
  flat_map (fun byte => [hex_digit (Z.shiftr byte 4); hex_digit (Z.land byte 0x0f)]) h.

(** [Display] of the macro: [{byte:02x}] pads the hexadecimal value to two
    digits, most significant first. *)
Definition fmt_02x (byte : u8) : bytes := [hex_digit (byte / 16); hex_digit (byte mod 16)].
Definition display (h : bytes) : bytes := flat_map fmt_02x h.

Definition decode_nibble (byte : u8) : option u8 :=
  if (48 <=? byte)%Z && (byte <=? 57)%Z then Some (byte - 48)%Z
  else if (97 <=? byte)%Z && (byte <=? 102)%Z then Some (byte - 97 + 10)%Z
  else None.

(** [b.is_ascii_digit() || (b'a'..=b'f').contains(&b)]. *)
Definition is_lower_hex (b : u8) : bool :=
  ((48 <=? b)%Z && (b <=? 57)%Z) || ((97 <=? b)%Z && (b <=? 102)%Z).

(** One [chunk] of the decoding loop of [from_str]. *)
Definition from_str_chunk (chunk : bytes) : result ParseHexHashError u8 :=
  hi <- ok_or (decode_nibble (nth 0 chunk 0%Z)) InvalidHex ;;
  lo <- ok_or (decode_nibble (nth 1 chunk 0%Z)) InvalidHex ;;
  Ok (Z.lor (Z.shiftl hi 4) lo).

Definition from_str (value : bytes) : result ParseHexHashError bytes :=
  if negb (length value =? 64)%nat then Err InvalidLength
  else if negb (forallb is_lower_hex value) then Err InvalidHex
  else try_map from_str_chunk (chunks_exact 2 value).

(** [hex_encode], [hex_decode] and [hex_nibble] of [format.rs]. *)
Definition hex_encode (h : bytes) : bytes :=
  flat_map (fun byte => [hex_digit (Z.shiftr byte 4); hex_digit (Z.land byte 0x0f)]) h.

Definition hex_nibble (byte : u8) : result RepositoryError u8 :=
  if (48 <=? byte)%Z && (byte <=? 57)%Z then Ok (byte - 48)%Z
  else if (97 <=? byte)%Z && (byte <=? 102)%Z then Ok (byte - 97 + 10)%Z
  else Err (repo_error "metadata hash must contain only lowercase hexadecimal digits").

Definition hex_decode_pair (pair : bytes) : result RepositoryError u8 :=
  hi <- hex_nibble (nth 0 pair 0%Z) ;;
  lo <- hex_nibble (nth 1 pair 0%Z) ;;
  Ok (Z.lor (Z.shiftl hi 4) lo).

Definition hex_decode (value : bytes) : result RepositoryError bytes :=
  if negb (length value =? 64)%nat then
    Err (repo_error "metadata hash must contain 64 lowercase hexadecimal digits")
  else try_map hex_decode_pair (chunks_exact 2 value).

(** ** One byte as two digits *)

Definition pair_of (byte : u8) : bytes :=
  [hex_digit (Z.shiftr byte 4); hex_digit (Z.land byte 0x0f)].

Lemma to_hex_concat h : to_hex h = concat (map pair_of h).
Proof. unfold to_hex. by rewrite flat_map_concat_map. Qed.

(** Exhaustive facts over the 256 byte values and the 16 digit values. *)
Definition all_bytes : list Z := map Z.of_nat (seq 0 256).

Lemma all_bytes_spec z : is_u8 z -> In z all_bytes.
Proof.
  intros Hz. unfold is_u8 in Hz. apply in_map_iff. exists (Z.to_nat z). split; [lia|].
  apply in_seq. lia.
Qed.

Lemma byte_forall (P : Z -> bool) :
  forallb P all_bytes = true -> forall z, is_u8 z -> P z = true.
Proof. intros H z Hz. rewrite forallb_forall in H. by apply H, all_bytes_spec. Qed.

Definition pair_ok (byte : Z) : bool :=
  bool_decide (from_str_chunk (pair_of byte) = Ok byte) &&
  bool_decide (hex_decode_pair (pair_of byte) = Ok byte) &&
  forallb is_lower_hex (pair_of byte) && bytes_eqb (fmt_02x byte) (pair_of byte).

Lemma pair_decodes byte :
  is_u8 byte ->
  from_str_chunk (pair_of byte) = Ok byte /\ hex_decode_pair (pair_of byte) = Ok byte /\
  forallb is_lower_hex (pair_of byte) = true /\ fmt_02x byte = pair_of byte.
Proof.
  intros Hb. assert (H : pair_ok byte = true).
  { revert byte Hb. apply byte_forall. vm_compute. reflexivity. }
  unfold pair_ok in H. bools. tauto.
Qed.

(** A nibble decodes only from its own digit. *)
Lemma nibble_inv b v :
  decode_nibble b = Some v -> (0 <= v < 16)%Z /\ hex_digit v = b.
Proof.
  unfold decode_nibble. intros H.
  destruct ((48 <=? b)%Z && (b <=? 57)%Z) eqn:E1; [|destruct ((97 <=? b)%Z && (b <=? 102)%Z) eqn:E2];
    inv_res; bools; (split; [lia|]).
  - assert (Hc : In b (map Z.of_nat (seq 48 10))).
    { apply in_map_iff. exists (Z.to_nat b). split; [lia|]. apply in_seq. lia. }
    simpl in Hc. decompose [or] Hc; subst; try reflexivity; contradiction.
  - assert (Hc : In b (map Z.of_nat (seq 97 6))).
    { apply in_map_iff. exists (Z.to_nat b). split; [lia|]. apply in_seq. lia. }
    simpl in Hc. decompose [or] Hc; subst; try reflexivity; contradiction.
Qed.

Lemma hex_nibble_spec b : hex_nibble b = ok_or (decode_nibble b)
  (repo_error "metadata hash must contain only lowercase hexadecimal digits").
Proof. unfold hex_nibble, decode_nibble. by repeat case_match. Qed.

Definition nibbles : list Z := map Z.of_nat (seq 0 16).
Definition nibbles_ok (hi lo : Z) : bool :=
  let v := Z.lor (Z.shiftl hi 4) lo in
  (0 <=? v)%Z && (v <? 256)%Z && bytes_eqb (pair_of v) [hex_digit hi; hex_digit lo].

Lemma nibbles_spec z : (0 <= z < 16)%Z -> In z nibbles.
Proof. intros Hz. apply in_map_iff. exists (Z.to_nat z). split; [lia|]. apply in_seq. lia. Qed.

Lemma nibbles_pair hi lo :
  (0 <= hi < 16)%Z -> (0 <= lo < 16)%Z ->
  is_u8 (Z.lor (Z.shiftl hi 4) lo) /\
  pair_of (Z.lor (Z.shiftl hi 4) lo) = [hex_digit hi; hex_digit lo].
Proof.
  intros Hh Hl. assert (H : nibbles_ok hi lo = true).
  { revert hi lo Hh Hl. enough (forallb (fun hi => forallb (nibbles_ok hi) nibbles) nibbles = true) as H.
    - intros hi lo Hh Hl. rewrite forallb_forall in H.
      specialize (H hi (nibbles_spec hi Hh)). cbv beta in H. rewrite forallb_forall in H.
      exact (H lo (nibbles_spec lo Hl)).
    - vm_compute. reflexivity. }
  unfold nibbles_ok in H. bools. unfold is_u8. repeat split; assumption.
Qed.

Lemma chunk_inv chunk byte :
  length chunk = 2%nat ->
  from_str_chunk chunk = Ok byte -> is_u8 byte /\ chunk = pair_of byte.
Proof.
  destruct chunk as [|a [|b [|]]]; try discriminate. intros _ H.
  unfold from_str_chunk in H. cbn [nth] in H. inv_res.
  apply nibble_inv in E as [Ha <-], E0 as [Hb <-].
  destruct (nibbles_pair _ _ Ha Hb) as [? ->]. by split.
Qed.

Lemma decode_pair_chunk pair byte : hex_decode_pair pair = Ok byte <-> from_str_chunk pair = Ok byte.
Proof.
  unfold hex_decode_pair, from_str_chunk. rewrite !hex_nibble_spec. unfold ok_or.
  destruct (decode_nibble (nth 0 pair 0%Z)), (decode_nibble (nth 1 pair 0%Z)); split; intros; by inv_res.
Qed.

(** ** Whole digests *)

Lemma pairs_all_len h : all_len 2 (map pair_of h).
Proof. apply Forall_fmap, Forall_forall. by intros x _. Qed.

Lemma try_map_ext {E F A B} (f : A -> result E B) (g : A -> result F B) l r :
  (forall x y, f x = Ok y <-> g x = Ok y) -> try_map f l = Ok r <-> try_map g l = Ok r.
Proof.
  intros Hfg. revert r. induction l as [|x l IH]; intros r; simpl; [split; intros; inv_res; done|].
  split; intros H; inv_res.
  - rewrite (proj1 (Hfg _ _) E0). by rewrite (proj1 (IH _) eq_refl).
  - rewrite (proj2 (Hfg _ _) E0). by rewrite (proj2 (IH _) eq_refl).
Qed.

Lemma decode_encoded h :
  wf_bytes h -> try_map from_str_chunk (map pair_of h) = Ok h.
Proof.
  induction 1 as [|b h Hb Hh IH]; [reflexivity|]. cbn [map try_map].
  destruct (pair_decodes b Hb) as (-> & _). by rewrite IH.
Qed.

Lemma decoded_inv ps h :
  all_len 2 ps -> try_map from_str_chunk ps = Ok h -> wf_bytes h /\ ps = map pair_of h.
Proof.
  intros Hps. revert h. induction Hps as [|p ps Hp Hps IH]; intros h H; cbn [try_map] in H.
  - inv_res. split; [constructor|reflexivity].
  - inv_res. apply chunk_inv in E as [Hb ->]; [|assumption].
    destruct (IH _ eq_refl) as [Hw ->]. split; [by constructor|reflexivity].
Qed.

Lemma decode_chunks value h :
  length value = 64%nat ->
  try_map from_str_chunk (chunks_exact 2 value) = Ok h <-> wf_hash h /\ value = to_hex h.
Proof.
  intros Hv. rewrite to_hex_concat. split.
  - destruct (multiple_is_concat 2 ltac:(lia) value) as (ps & Hps & ->); [by rewrite Hv|].
    rewrite (chunks_exact_concat 2) by (assumption || lia).
    intros [Hw ->]%decoded_inv; [|assumption]. split; [|reflexivity]. split; [assumption|].
    rewrite (length_concat_all_len 2), length_map in Hv by (apply pairs_all_len || lia). lia.
  - intros [[Hw Hl] ->]. rewrite (chunks_exact_concat 2) by (apply pairs_all_len || lia).
    by apply decode_encoded.
Qed.

Lemma length_to_hex h : length (to_hex h) = (length h * 2)%nat.
Proof.
  rewrite to_hex_concat, (length_concat_all_len 2), length_map; [lia|lia|apply pairs_all_len].
Qed.

Lemma to_hex_lower h : wf_bytes h -> forallb is_lower_hex (to_hex h) = true.
Proof.
  intros Hh. rewrite to_hex_concat. induction Hh as [|b h Hb Hh IH]; [reflexivity|].
  cbn [map concat]. rewrite forallb_app, IH. by destruct (pair_decodes b Hb) as (_ & _ & -> & _).
Qed.

Lemma from_str_ok value h : from_str value = Ok h <-> wf_hash h /\ value = to_hex h.
Proof.
  unfold from_str. destruct (length value =? 64)%nat eqn:El; bools; simpl negb; cbn iota.
  2: { split; [discriminate|]. intros [[_ Hl] ->]. by rewrite length_to_hex, Hl in El. }
  destruct (forallb is_lower_hex value) eqn:Eh; simpl negb; cbn iota; [by apply decode_chunks|].
  split; [discriminate|]. intros [[Hw _] ->]. by rewrite to_hex_lower in Eh.
Qed.

Lemma hex_decode_ok value h : hex_decode value = Ok h <-> wf_hash h /\ value = hex_encode h.
Proof.
  unfold hex_decode. destruct (length value =? 64)%nat eqn:El; bools; simpl negb; cbn iota.
  - rewrite (try_map_ext _ from_str_chunk) by apply decode_pair_chunk. by apply decode_chunks.
  - split; [discriminate|]. intros [[_ Hl] ->]. change (hex_encode h) with (to_hex h) in El.
    by rewrite length_to_hex, Hl in El.
Qed.

(** Digest text is canonical: both parsers ([FromStr] of the macro-defined
    hashes and of [MetadataHash]) accept a string exactly when it is the
    64-digit lowercase spelling of a 32-byte digest, which they return; every
    digest therefore has one spelling and round-trips, and parsing rejects
    every other string. *)
Theorem hex_text_canonical value h :
  (from_str value = Ok h <-> wf_hash h /\ value = to_hex h) /\
  (hex_decode value = Ok h <-> wf_hash h /\ value = hex_encode h).
Proof. split; [apply from_str_ok|apply hex_decode_ok]. Qed.

(** [Display] and [to_hex] print the same text. *)
Lemma display_to_hex h : wf_bytes h -> display h = to_hex h.
Proof.
  induction 1 as [|b h Hb Hh IH]; [reflexivity|].
  change (fmt_02x b ++ display h = pair_of b ++ to_hex h).
  rewrite IH. by destruct (pair_decodes b Hb) as (_ & _ & _ & ->).
Qed.

Lemma to_hex_inj h k : wf_hash h -> wf_hash k -> to_hex h = to_hex k -> h = k.
Proof.
  intros Hh Hk E.
  assert (E1 : from_str (to_hex h) = Ok h) by (by apply from_str_ok).
  assert (E2 : from_str (to_hex h) = Ok k) by (by apply from_str_ok).
  congruence.
Qed.

(** A digest function of the right width, for concrete runs. *)
Module ToySha.
#[export] Instance sha256_api : Sha256Api := {|
  sha256 b := be_bytes 32 (fold_left (fun acc x => (acc * 257 + x + 1) mod 2 ^ 256)%Z b 0%Z);
  sha256_wf b := conj (wf_be_bytes 32 _) (length_be_bytes 32 _);
|}.
End ToySha.
