(* ===== verification/Text.v ===== *)
(** * Text

    Facts on the Rust [str] values the manifests are made of: the structure of
    UTF-8 byte strings, decimal numbers as [to_string] prints them, the
    characters [char::escape_default] prints, and [str::split_inclusive]. *)

From S2P Require Import Prelude.

(** [u32::to_string] and [u64::to_string]; twenty digits hold any [u64]. *)
Fixpoint decimal_fuel (fuel : nat) (n : Z) : bytes :=
  match fuel with
  | O => []
  | S fuel' =>
      if (n <? 10)%Z then [48 + n]%Z
      else decimal_fuel fuel' (n / 10) ++ [48 + n mod 10]%Z
  end.
Definition to_decimal (n : Z) : bytes := decimal_fuel 20 n.

(** The value of a string of decimal digits. *)
Definition read_decimal (l : bytes) : Z := fold_left (fun acc b => acc * 10 + (b - 48))%Z l 0%Z.

(** [text.split_inclusive('\n')]: every piece keeps its newline. *)
Fixpoint split_inclusive (sep : Z) (l : bytes) : list bytes :=
  match l with
  | [] => []
  | x :: l' =>
      if (x =? sep)%Z then [x] :: split_inclusive sep l'
      else match split_inclusive sep l' with
           | [] => [[x]]
           | p :: ps => (x :: p) :: ps
           end
  end.

(** Lowercase hexadecimal without padding, for [\u{...}]. *)
Fixpoint hex_fuel (fuel : nat) (n : Z) : bytes :=
  match fuel with
  | O => []
  | S fuel' =>
      let digit := if (n mod 16 <? 10)%Z then (48 + n mod 16)%Z else (87 + n mod 16)%Z in
      if (n <? 16)%Z then [digit] else hex_fuel fuel' (n / 16) ++ [digit]
  end.

(** [char::escape_default]. *)
Definition escape_default (c : Z) : bytes :=
  if (c =? 9)%Z then [92; 116]%Z
  else if (c =? 13)%Z then [92; 114]%Z
  else if (c =? 10)%Z then [92; 110]%Z
  else if (c =? 39)%Z || (c =? 34)%Z || (c =? 92)%Z then [92; c]%Z
  else if (32 <=? c)%Z && (c <=? 126)%Z then [c]
  else [92; 117; 123]%Z ++ hex_fuel 6 c ++ [125]%Z.

(** ** Decimal numbers *)

Definition is_digit (b : Z) : bool := (48 <=? b)%Z && (b <=? 57)%Z.

Lemma decimal_fuel_ok fuel n :
  (0 <= n < 10 ^ Z.of_nat fuel)%Z ->
  read_decimal (decimal_fuel fuel n) = n /\ forallb is_digit (decimal_fuel fuel n) = true.
Proof.
  revert n. induction fuel as [|fuel IH]; intros n Hn;
    [split; [unfold read_decimal; simpl in *; lia|done]|].
  rewrite Nat2Z.inj_succ, Z.pow_succ_r in Hn by lia. cbn [decimal_fuel].
  destruct (n <? 10)%Z eqn:E; bools.
  - unfold read_decimal, is_digit. simpl. split; [lia|].
    apply andb_true_intro. split; [|reflexivity]. apply andb_true_intro. split; apply Z.leb_le; lia.
  - destruct (IH (n / 10)%Z) as [Hr Hd].
    { split; [apply Z.div_pos; lia|]. apply Z.div_lt_upper_bound; lia. }
    pose proof (Z.mod_pos_bound n 10 ltac:(lia)). split.
    + unfold read_decimal in *. rewrite fold_left_app, Hr. simpl.
      pose proof (Z.div_mod n 10 ltac:(lia)). lia.
    + rewrite forallb_app, Hd. simpl. unfold is_digit.
      apply andb_true_intro. split; [|reflexivity]. apply andb_true_intro. split; apply Z.leb_le; lia.
Qed.

Lemma decimal_fuel_nonempty fuel n : (0 < fuel)%nat -> decimal_fuel fuel n <> [].
Proof.
  destruct fuel as [|fuel]; [lia|]. intros _. cbn [decimal_fuel].
  destruct (n <? 10)%Z; [done|]. by destruct (decimal_fuel fuel (n / 10)).
Qed.

Lemma to_decimal_ok n :
  is_u64 n -> read_decimal (to_decimal n) = n /\ forallb is_digit (to_decimal n) = true.
Proof. intros Hn. apply decimal_fuel_ok. unfold is_u64 in Hn. lia. Qed.

Lemma to_decimal_nonempty n : to_decimal n <> [].
Proof. by apply decimal_fuel_nonempty; lia. Qed.

Lemma is_digit_range b : is_digit b = true -> (48 <= b <= 57)%Z.
Proof. unfold is_digit. intros H. bools. lia. Qed.

(** ** UTF-8

    A UTF-8 text is a sequence of ASCII bytes and of multi-byte sequences
    whose bytes are all at least 128. *)

Definition multi (s : bytes) (c : Z) : Prop :=
  s <> [] /\ Forall (fun b => 128 <= b)%Z s /\
  forall fuel l, utf8_chars_fuel (S fuel) (s ++ l) = option_map (cons c) (utf8_chars_fuel fuel l).

Inductive utf8 : bytes -> list Z -> Prop :=
| utf8_nil : utf8 [] []
| utf8_ascii b l cs : (0 <= b < 128)%Z -> utf8 l cs -> utf8 (b :: l) (b :: cs)
| utf8_multi s c l cs : multi s c -> utf8 l cs -> utf8 (s ++ l) (c :: cs).

Lemma decode_ascii fuel b l :
  (0 <= b < 128)%Z -> utf8_chars_fuel (S fuel) (b :: l) = option_map (cons b) (utf8_chars_fuel fuel l).
Proof.
  intros Hb. cbn [utf8_chars_fuel].
  destruct ((0 <=? b)%Z && (b <? 128)%Z) eqn:E; [done|]. apply andb_false_iff in E. lia.
Qed.

Lemma option_map_cons_inv {A} (c : A) o cs :
  option_map (cons c) o = Some cs -> exists cs', o = Some cs' /\ cs = c :: cs'.
Proof. destruct o; simpl; [intros [= <-]; by eexists|done]. Qed.

(** One branch of the decoder that consumed the bytes [s]. *)
Ltac multi_branch s r IH :=
  match goal with
  | H : option_map (cons ?c) _ = Some _ |- _ =>
      apply option_map_cons_inv in H as (cs' & H & ->);
      apply (utf8_multi s c r cs'); [|by eapply IH];
      unfold is_cont in *; bools; split; [done|]; split;
      [repeat constructor; lia|];
      intros fuel' l'; cbn [app utf8_chars_fuel];
      repeat match goal with
      | |- context [if ?b then _ else _] =>
          let E := fresh in destruct b eqn:E; unfold is_cont in *;
          [try reflexivity; try (exfalso; bools; lia)|];
          try (exfalso; rewrite ?andb_false_iff, ?negb_false_iff, ?andb_true_iff in *; lia)
      end; try reflexivity
  end.

Lemma utf8_of_chars fuel l cs : utf8_chars_fuel fuel l = Some cs -> utf8 l cs.
Proof.
  revert l cs. induction fuel as [|fuel IH]; intros l cs H.
  - destruct l; simpl in H; inv_res; constructor.
  - destruct l as [|b0 r0]; cbn [utf8_chars_fuel] in H; [inv_res; constructor|].
    destruct ((0 <=? b0)%Z && (b0 <? 128)%Z) eqn:E0.
    { apply option_map_cons_inv in H as (cs' & H & ->). bools. constructor; [lia|by apply IH]. }
    destruct ((194 <=? b0)%Z && (b0 <=? 223)%Z) eqn:E1.
    { destruct r0 as [|b1 r1]; [done|]. destruct (is_cont b1) eqn:C1; [|done].
      multi_branch [b0; b1] r1 IH. }
    destruct ((224 <=? b0)%Z && (b0 <=? 239)%Z) eqn:E2.
    { destruct r0 as [|b1 [|b2 r2]]; [done..|].
      match type of H with (if ?b then _ else _) = _ => destruct b eqn:C1; [|done] end.
      multi_branch [b0; b1; b2] r2 IH. }
    destruct ((240 <=? b0)%Z && (b0 <=? 244)%Z) eqn:E3; [|done].
    destruct r0 as [|b1 [|b2 [|b3 r3]]]; [done..|].
    match type of H with (if ?b then _ else _) = _ => destruct b eqn:C1; [|done] end.
    multi_branch [b0; b1; b2; b3] r3 IH.
Qed.

Lemma chars_of_utf8 l cs : utf8 l cs -> forall fuel, (length l <= fuel)%nat -> utf8_chars_fuel fuel l = Some cs.
Proof.
  induction 1 as [|b l cs Hb _ IH|s c l cs (Hne & _ & Hm) _ IH]; intros fuel Hf.
  - by destruct fuel.
  - destruct fuel as [|fuel]; simpl in Hf; [lia|]. rewrite decode_ascii by done. rewrite IH by lia. done.
  - rewrite length_app in Hf. destruct s as [|x s]; [done|]. simpl in Hf.
    destruct fuel as [|fuel]; [lia|]. rewrite Hm, IH by lia. done.
Qed.

Lemma utf8_chars_iff l cs : utf8_chars l = Some cs <-> utf8 l cs.
Proof. split; [apply utf8_of_chars|]. intros H. by apply chars_of_utf8. Qed.

Lemma is_utf8_iff l : is_utf8 l = true <-> exists cs, utf8 l cs.
Proof.
  unfold is_utf8. destruct (utf8_chars l) as [cs|] eqn:E; split; try done.
  - intros _. exists cs. by apply utf8_chars_iff.
  - intros (cs & H). apply utf8_chars_iff in H. congruence.
Qed.

Lemma utf8_app l cs k ds : utf8 l cs -> utf8 k ds -> utf8 (l ++ k) (cs ++ ds).
Proof.
  intros H Hk. induction H; simpl; [done|by constructor|]. rewrite <- app_assoc. by constructor.
Qed.

Lemma is_utf8_app l k : is_utf8 l = true -> is_utf8 k = true -> is_utf8 (l ++ k) = true.
Proof.
  rewrite !is_utf8_iff. intros [cs Hl] [ds Hk]. eexists. by eapply utf8_app.
Qed.

Lemma is_utf8_ascii l : Forall (fun b => 0 <= b < 128)%Z l -> is_utf8 l = true.
Proof.
  intros H. apply is_utf8_iff. exists l. induction H; by constructor.
Qed.

Lemma utf8_ascii_char l cs b : utf8 l cs -> b ∈ l -> (b < 128)%Z -> b ∈ cs.
Proof.
  induction 1 as [|x l cs Hx _ IH|s c l cs (_ & Hs & _) _ IH]; intros Hb Hlt.
  - by apply not_elem_of_nil in Hb.
  - apply elem_of_cons in Hb as [->|Hb]; [left|]. right. by apply IH.
  - apply elem_of_app in Hb as [Hb|Hb].
    + rewrite Forall_forall in Hs. specialize (Hs _ Hb). lia.
    + right. by apply IH.
Qed.

(** A text without control characters has no newline byte. *)
Lemma no_control_byte l b :
  is_utf8 l = true -> has_control l = false -> (0 <= b < 32)%Z -> b ∉ l.
Proof.
  intros Hu Hc Hb Hin. apply is_utf8_iff in Hu as [cs Hu]. pose proof Hu as Hd.
  apply utf8_chars_iff in Hd. unfold has_control in Hc. rewrite Hd in Hc.
  assert (Hx : b ∈ cs) by (eapply utf8_ascii_char; [eassumption..|lia]).
  apply list_elem_of_In in Hx.
  assert (existsb char_is_control cs = true); [|congruence].
  apply existsb_exists. exists b. split; [assumption|]. unfold char_is_control.
  apply orb_true_iff. left. apply andb_true_iff. lia.
Qed.

(** ** Lines *)

Lemma split_inclusive_line sep l k :
  sep ∉ l -> split_inclusive sep (l ++ sep :: k) = (l ++ [sep]) :: split_inclusive sep k.
Proof.
  induction l as [|x l IH]; simpl; [by rewrite Z.eqb_refl|].
  intros [Hx Hl]%not_elem_of_cons. destruct (x =? sep)%Z eqn:E; bools; [congruence|].
  by rewrite IH.
Qed.

Lemma split_inclusive_lines sep ls :
  Forall (fun l => sep ∉ l) ls ->
  split_inclusive sep (concat (map (fun l => l ++ [sep]) ls)) = map (fun l => l ++ [sep]) ls.
Proof.
  induction 1 as [|l ls Hl _ IH]; [done|]. simpl. rewrite <- app_assoc. simpl.
  rewrite split_inclusive_line by done. by rewrite IH.
Qed.

Lemma strip_prefix_app p l : strip_prefix p (p ++ l) = Some l.
Proof. induction p as [|x p IH]; simpl; [done|]. by rewrite Z.eqb_refl. Qed.

Lemma strip_prefix_some p l r : strip_prefix p l = Some r <-> l = p ++ r.
Proof.
  split; [|intros ->; apply strip_prefix_app].
  revert l. induction p as [|x p IH]; intros l H; simpl in *; [congruence|].
  destruct l as [|y l]; [done|]. destruct (x =? y)%Z eqn:E; bools; [|done].
  subst. f_equal. by apply IH.
Qed.

Lemma strip_suffix_some s l r : strip_suffix s l = Some r <-> l = r ++ s.
Proof.
  unfold strip_suffix. split.
  - destruct (strip_prefix (rev s) (rev l)) eqn:E; [|done]. intros [= <-].
    apply strip_prefix_some in E. apply (f_equal (@rev Z)) in E.
    by rewrite rev_involutive, rev_app_distr, rev_involutive in E.
  - intros ->. rewrite rev_app_distr, strip_prefix_app. by rewrite rev_involutive.
Qed.
