(* ===== verification/Cbor.v ===== *)
(** * Deterministic CBOR codec

    [bobr-repo/src/cbor.rs].  [Encoder] appends to a byte buffer; [Decoder]
    is a cursor into an immutable byte slice and only accepts the shortest
    encoding of every head. *)

From S2P Require Import Prelude Errors.

Create Rewrite HintDb cbor.

Module Encoder.
Record t := mk { buf : bytes }.

Definition new : t := {| buf := [] |}.
Definition push (e : t) (b : u8) : t := {| buf := buf e ++ [b] |}.
Definition extend (e : t) (l : bytes) : t := {| buf := buf e ++ l |}.

(** [Encoder::head]: [value] is a [u64], [major] a CBOR major type. *)
Definition head (e : t) (major : u8) (value : u64) : t :=
  let prefix := (Z.shiftl major 5 mod 256)%Z in
  if (value <=? 23)%Z then push e (Z.lor prefix (value mod 256))
  else if (value <=? 0xff)%Z then extend e [Z.lor prefix 24; value mod 256]%Z
  else if (value <=? 0xffff)%Z then
    extend (push e (Z.lor prefix 25)) (be_bytes 2 (value mod 2 ^ 16))
  else if (value <=? 0xffffffff)%Z then
    extend (push e (Z.lor prefix 26)) (be_bytes 4 (value mod 2 ^ 32))
  else extend (push e (Z.lor prefix 27)) (be_bytes 8 value).

Definition array (e : t) (length : u64) : t := head e 4 length.
Definition map (e : t) (length : u64) : t := head e 5 length.
Definition uint (e : t) (value : u64) : t := head e 0 value.
Definition bytes (e : t) (value : list Z) : t := extend (head e 2 (len value)) value.
Definition text (e : t) (value : list Z) : t := extend (head e 3 (len value)) value.
Definition null (e : t) : t := push e 0xf6.
Definition finish (e : t) : list Z := buf e.
End Encoder.

Module Decoder.
Record t := mk { src : bytes; offset : nat }.

Definition new (b : bytes) : t := {| src := b; offset := 0 |}.
Definition remaining_bytes (d : t) : usize := (len (src d) - Z.of_nat (offset d))%Z.
Definition advance (d : t) (n : nat) : t := {| src := src d; offset := offset d + n |}.

Definition truncated : RepositoryError := repo_error "truncated CBOR value".
Definition non_shortest : RepositoryError :=
  repo_error "CBOR integer or length is not shortest-encoded".

Definition peek (d : t) : result RepositoryError u8 :=
  ok_or (src d !! offset d) truncated.

Definition byte (d : t) : result RepositoryError (u8 * t) :=
  b <- peek d ;; Ok (b, advance d 1).

(** [Decoder::take]: on a 64-bit target [usize::try_from(u64)] cannot fail. *)
Definition take (d : t) (length : u64) : result RepositoryError (bytes * t) :=
  end_ <- ok_or (checked_add (Z.of_nat (offset d)) length)
                (repo_error "CBOR length overflow") ;;
  if (end_ <=? len (src d))%Z then
    let n := Z.to_nat length in
    Ok (list.take n (drop (offset d) (src d)), advance d n)
  else Err truncated.

Definition take_array (d : t) (n : nat) : result RepositoryError (bytes * t) :=
  let* (v, d') := take d (Z.of_nat n) in
  if (length v =? n)%nat then Ok (v, d')
  else Err (repo_error "truncated CBOR integer").

(** [Decoder::head]. *)
Definition head (d : t) (expected_major : u8) (expected : string)
  : result RepositoryError (u64 * t) :=
  let* (initial, d1) := byte d in
  let major := Z.shiftr initial 5 in
  let additional := Z.land initial 0x1f in
  if negb (major =? expected_major)%Z then
    Err (repo_error ("expected a CBOR " +:+ expected))
  else if (additional <=? 23)%Z then Ok (additional, d1)
  else if (additional =? 24)%Z then
    let* (value, d2) := byte d1 in
    if (value <? 24)%Z then Err non_shortest else Ok (value, d2)
  else if (additional =? 25)%Z then
    let* (raw, d2) := take_array d1 2 in
    let value := from_be_bytes raw in
    if (value <=? 0xff)%Z then Err non_shortest else Ok (value, d2)
  else if (additional =? 26)%Z then
    let* (raw, d2) := take_array d1 4 in
    let value := from_be_bytes raw in
    if (value <=? 0xffff)%Z then Err non_shortest else Ok (value, d2)
  else if (additional =? 27)%Z then
    let* (raw, d2) := take_array d1 8 in
    let value := from_be_bytes raw in
    if (value <=? 0xffffffff)%Z then Err non_shortest else Ok (value, d2)
  else if (additional =? 31)%Z then
    Err (repo_error "indefinite-length CBOR is forbidden")
  else Err (repo_error "reserved CBOR additional information").

Definition array (d : t) := head d 4 "array".
Definition map (d : t) := head d 5 "map".
Definition uint (d : t) := head d 0 "unsigned integer".

Definition bytes (d : t) : result RepositoryError (list Z * t) :=
  let* (length, d') := head d 2 "byte string" in take d' length.

Definition text (d : t) : result RepositoryError (list Z * t) :=
  let* (length, d1) := head d 3 "text string" in
  let* (raw, d2) := take d1 length in
  if is_utf8 raw then Ok (raw, d2)
  else Err (repo_error "CBOR text string is not valid UTF-8").

Definition null_or_uint (d : t) : result RepositoryError (option u64 * t) :=
  b <- peek d ;;
  if (b =? 0xf6)%Z then Ok (None, advance d 1)
  else let* (v, d') := uint d in Ok (Some v, d').

Definition null_or_bytes (d : t) : result RepositoryError (option (list Z) * t) :=
  b <- peek d ;;
  if (b =? 0xf6)%Z then Ok (None, advance d 1)
  else let* (v, d') := bytes d in Ok (Some v, d').

Definition finish (d : t) : result RepositoryError unit :=
  guard (offset d =? length (src d))%nat
        (repo_error "trailing bytes after CBOR value").
End Decoder.

(** ** Specification

    [head_bytes major value] is the shortest CBOR head: the byte string every
    encoder call appends and the only one the decoder accepts. *)

Definition head_bytes (major value : Z) : bytes :=
  if (value <=? 23)%Z then [major * 32 + value]%Z
  else if (value <=? 0xff)%Z then [major * 32 + 24; value]%Z
  else if (value <=? 0xffff)%Z then (major * 32 + 25)%Z :: be_bytes 2 value
  else if (value <=? 0xffffffff)%Z then (major * 32 + 26)%Z :: be_bytes 4 value
  else (major * 32 + 27)%Z :: be_bytes 8 value.

Definition str_bytes (major : Z) (v : bytes) : bytes := head_bytes major (len v) ++ v.

(** [Reads d l]: the unread input of [d] is [l]. *)
Definition Reads (d : Decoder.t) (l : bytes) : Prop :=
  drop (Decoder.offset d) (Decoder.src d) = l /\
  (Decoder.offset d <= length (Decoder.src d))%nat /\
  (len (Decoder.src d) <= U64_MAX)%Z.

(** The contract a decoding routine offers its callers: it accepts exactly the
    encodings of valid values, consumes exactly that many bytes, and the
    encoding is determined by the value. *)
Class ItemCodec {A : Type} (dec : Decoder.t -> result RepositoryError (A * Decoder.t))
    (enc : A -> bytes) (valid : A -> Prop) : Prop := {
  item_complete : forall d a l, valid a -> Reads d (enc a ++ l) ->
    dec d = Ok (a, Decoder.advance d (length (enc a)));
  item_sound : forall d a d' l, Reads d l -> wf_bytes l -> dec d = Ok (a, d') ->
    valid a /\ d' = Decoder.advance d (length (enc a)) /\
    exists l', l = enc a ++ l' /\ Reads d' l';
}.

(** ** Lemmas: cursor movement *)

Lemma reads_advance d x l :
  Reads d (x ++ l) -> Reads (Decoder.advance d (length x)) l.
Proof.
  intros (Hd & Ho & Hm). unfold Reads. simpl. split; [|split; [|assumption]].
  - rewrite <- drop_drop, Hd, drop_app_length. reflexivity.
  - apply (f_equal length) in Hd. rewrite length_drop, length_app in Hd. lia.
Qed.

Lemma reads_len d l : Reads d l ->
  (len (Decoder.src d) = Z.of_nat (Decoder.offset d) + len l)%Z.
Proof.
  intros (Hd & Ho & _). apply (f_equal length) in Hd. rewrite length_drop in Hd.
  unfold len. lia.
Qed.

Lemma reads_new b : (len b <= U64_MAX)%Z -> Reads (Decoder.new b) b.
Proof. intros H. split; [apply drop_0|]. simpl. split; [lia|assumption]. Qed.

Lemma reads_cons_lookup d x l :
  Reads d (x :: l) -> Decoder.src d !! Decoder.offset d = Some x.
Proof.
  intros (Hd & _). rewrite <- (Nat.add_0_r (Decoder.offset d)), <- lookup_drop, Hd.
  reflexivity.
Qed.

Lemma peek_cons d x l : Reads d (x :: l) -> Decoder.peek d = Ok x.
Proof. intros H. unfold Decoder.peek. by rewrite (reads_cons_lookup _ _ _ H). Qed.

Lemma peek_ok d b l : Reads d l -> Decoder.peek d = Ok b -> exists l', l = b :: l'.
Proof.
  intros (Hd & _) H. unfold Decoder.peek, ok_or in H.
  destruct (Decoder.src d !! Decoder.offset d) eqn:E; inversion H; subst.
  rewrite <- (Nat.add_0_r (Decoder.offset d)), <- lookup_drop in E.
  destruct (drop _ _); inversion E; subst. eauto.
Qed.

Lemma byte_cons d x l : Reads d (x :: l) -> Decoder.byte d = Ok (x, Decoder.advance d 1).
Proof. intros H. unfold Decoder.byte. by rewrite (peek_cons _ _ _ H). Qed.

Lemma byte_ok d b d' l :
  Reads d l -> Decoder.byte d = Ok (b, d') ->
  d' = Decoder.advance d 1 /\ exists l', l = b :: l' /\ Reads d' l'.
Proof.
  intros HR H. unfold Decoder.byte in H. inv_res.
  destruct (peek_ok _ _ _ HR E) as [l' ->]. split; [reflexivity|].
  exists l'. split; [reflexivity|]. by apply (reads_advance d [b]).
Qed.

Lemma take_app d x l n :
  Reads d (x ++ l) -> n = len x ->
  Decoder.take d n = Ok (x, Decoder.advance d (length x)).
Proof.
  intros HR ->. pose proof (reads_len _ _ HR) as HL. destruct HR as (Hd & Ho & Hm).
  rewrite len_app in HL. unfold Decoder.take, checked_add, ok_or.
  pose proof (len_nonneg l).
  rewrite (proj2 (Z.leb_le _ _)) by lia. rewrite (proj2 (Z.leb_le _ _)) by lia.
  rewrite Hd. unfold len. rewrite Nat2Z.id, take_app_length. reflexivity.
Qed.

Lemma take_ok d n v d' l :
  Reads d l -> (0 <= n)%Z -> Decoder.take d n = Ok (v, d') ->
  len v = n /\ d' = Decoder.advance d (length v) /\ exists l', l = v ++ l' /\ Reads d' l'.
Proof.
  intros HR Hn H. pose proof (reads_len _ _ HR) as HL.
  unfold Decoder.take, checked_add, ok_or in H.
  destruct (_ + n <=? U64_MAX)%Z eqn:E; [|discriminate H]. inv_res.
  bools. pose proof HR as (Hd & Ho & Hm). rewrite Hd.
  assert (Hlen : length (take (Z.to_nat n) l) = Z.to_nat n).
  { rewrite length_take. unfold len in *. lia. }
  split; [unfold len; rewrite Hlen; lia|].
  split; [by rewrite Hlen|].
  exists (drop (Z.to_nat n) l). split; [by rewrite take_drop|].
  rewrite <- Hlen. apply reads_advance. rewrite Hlen, take_drop. exact HR.
Qed.

Lemma take_array_app d x l :
  Reads d (x ++ l) ->
  Decoder.take_array d (length x) = Ok (x, Decoder.advance d (length x)).
Proof.
  intros HR. unfold Decoder.take_array.
  rewrite (take_app d x l) by (assumption || reflexivity). by rewrite Nat.eqb_refl.
Qed.

Lemma take_array_ok d n v d' l :
  Reads d l -> Decoder.take_array d n = Ok (v, d') ->
  length v = n /\ d' = Decoder.advance d (length v) /\ exists l', l = v ++ l' /\ Reads d' l'.
Proof.
  intros HR H. unfold Decoder.take_array in H. inv_res.
  bools. eapply take_ok in E as (_ & ? & ?); [|eassumption|lia]. auto.
Qed.

Lemma advance_advance d m n :
  Decoder.advance (Decoder.advance d m) n = Decoder.advance d (m + n).
Proof. unfold Decoder.advance. simpl. f_equal. lia. Qed.

(** ** Heads

    Splitting the initial byte into major type and additional information. *)

Definition initial_ok (b : Z) : bool :=
  let m := (b / 32)%Z in let a := (b mod 32)%Z in
  (Z.shiftr b 5 =? m)%Z && (Z.land b 0x1f =? a)%Z
  && (Z.lor (Z.shiftl m 5 mod 256) a =? b)%Z.

Lemma initial_ok_all b : (0 <= b < 256)%Z -> initial_ok b = true.
Proof.
  intros Hb. assert (H : forallb initial_ok (seqZ 0 256) = true) by (vm_compute; reflexivity).
  rewrite forallb_forall in H. apply H. apply list_elem_of_In, elem_of_seqZ. lia.
Qed.

Lemma initial_byte m a : (0 <= m < 8)%Z -> (0 <= a < 32)%Z ->
  Z.shiftr (m * 32 + a) 5 = m /\ Z.land (m * 32 + a) 0x1f = a /\
  Z.lor (Z.shiftl m 5 mod 256) a = (m * 32 + a)%Z.
Proof.
  intros Hm Ha. pose proof (initial_ok_all (m * 32 + a) ltac:(lia)) as H.
  unfold initial_ok in H.
  replace ((m * 32 + a) / 32)%Z with m in H by (Z.to_euclidean_division_equations; lia).
  replace ((m * 32 + a) mod 32)%Z with a in H by (Z.to_euclidean_division_equations; lia). bools. auto.
Qed.

Lemma initial_split b : is_u8 b ->
  b = (Z.shiftr b 5 * 32 + Z.land b 0x1f)%Z /\ (0 <= Z.shiftr b 5 < 8)%Z /\
  (0 <= Z.land b 0x1f < 32)%Z.
Proof.
  intros Hb. pose proof (initial_ok_all b Hb) as H. unfold initial_ok in H. bools.
  unfold is_u8 in Hb. Z.to_euclidean_division_equations. lia.
Qed.

Lemma length_head_bytes_pos m v : (1 <= length (head_bytes m v))%nat.
Proof. unfold head_bytes. repeat case_match; simpl; lia. Qed.

(** [Encoder::head] appends exactly the shortest head. *)
Lemma enc_head_spec e m v : (0 <= m < 8)%Z -> is_u64 v ->
  Encoder.buf (Encoder.head e m v) = Encoder.buf e ++ head_bytes m v.
Proof.
  intros Hm Hv. unfold is_u64 in Hv. unfold Encoder.head, head_bytes.
  repeat case_match; bools; simpl; rewrite <- ?app_assoc; simpl; f_equal;
    repeat (rewrite (Z.mod_small v) by lia);
    repeat match goal with
    | |- context [Z.lor _ ?a] =>
        destruct (initial_byte m a Hm ltac:(lia)) as (_ & _ & ->)
    end; reflexivity.
Qed.

Lemma wf_head_bytes m v : (0 <= m < 8)%Z -> is_u64 v -> wf_bytes (head_bytes m v).
Proof.
  intros Hm Hv. unfold is_u64 in Hv. unfold head_bytes, wf_bytes.
  repeat case_match; bools; repeat (apply Forall_cons_2; [unfold is_u8; lia|]);
    first [apply wf_be_bytes | apply Forall_nil_2].
Qed.

(** The decoder reads back every shortest head ... *)
Lemma dec_head_complete d m v l name :
  (0 <= m < 8)%Z -> is_u64 v -> Reads d (head_bytes m v ++ l) ->
  Decoder.head d m name = Ok (v, Decoder.advance d (length (head_bytes m v))).
Proof.
  intros Hm Hv HR. unfold is_u64 in Hv. unfold Decoder.head.
  unfold head_bytes in *.
  destruct (v <=? 23)%Z eqn:E0; [|destruct (v <=? 0xff)%Z eqn:E1;
    [|destruct (v <=? 0xffff)%Z eqn:E2; [|destruct (v <=? 0xffffffff)%Z eqn:E3]]];
    bools; simpl app in HR; rewrite (byte_cons _ _ _ HR);
    match type of HR with Reads _ ((m * 32 + ?a)%Z :: _) =>
      destruct (initial_byte m a Hm ltac:(lia)) as (-> & -> & _);
      apply (reads_advance d [m * 32 + a]%Z) in HR; simpl in HR
    end; rewrite Z.eqb_refl; cbn -[Z.leb Z.ltb Decoder.byte Decoder.take_array be_bytes].
  - by rewrite (proj2 (Z.leb_le v 23)) by lia.
  - rewrite (byte_cons _ _ _ HR). rewrite (proj2 (Z.ltb_ge v 24)) by lia.
    by rewrite advance_advance.
  - change 2%nat with (length (be_bytes 2 v)) at 1.
    rewrite (take_array_app _ (be_bytes 2 v) l HR).
    rewrite from_be_bytes_be_bytes by (simpl; lia).
    rewrite (proj2 (Z.leb_gt v _)) by lia. rewrite advance_advance. reflexivity.
  - change 4%nat with (length (be_bytes 4 v)) at 1.
    rewrite (take_array_app _ (be_bytes 4 v) l HR).
    rewrite from_be_bytes_be_bytes by (simpl; lia).
    rewrite (proj2 (Z.leb_gt v _)) by lia. rewrite advance_advance. reflexivity.
  - change 8%nat with (length (be_bytes 8 v)) at 1.
    rewrite (take_array_app _ (be_bytes 8 v) l HR).
    rewrite from_be_bytes_be_bytes by (simpl; lia).
    rewrite (proj2 (Z.leb_gt v _)) by lia. rewrite advance_advance. reflexivity.
Qed.

Lemma take_array_value d n raw d' l :
  Reads d l -> wf_bytes l -> Decoder.take_array d n = Ok (raw, d') ->
  (0 <= from_be_bytes raw < 256 ^ Z.of_nat n)%Z /\ d' = Decoder.advance d n /\
  exists l', l = be_bytes n (from_be_bytes raw) ++ l'.
Proof.
  intros HR Hwf H. destruct (take_array_ok _ _ _ _ _ HR H) as (<- & -> & l' & -> & _).
  apply wf_bytes_app in Hwf as [Hw _]. split; [apply (from_be_bytes_bound raw Hw)|].
  split; [reflexivity|]. exists l'. by rewrite be_bytes_from_be_bytes.
Qed.

(** ... and nothing else: an accepted head is the shortest one of its value. *)
Lemma dec_head_sound d m v d' l name :
  (0 <= m < 8)%Z -> Reads d l -> wf_bytes l ->
  Decoder.head d m name = Ok (v, d') ->
  is_u64 v /\ d' = Decoder.advance d (length (head_bytes m v)) /\
  exists l', l = head_bytes m v ++ l' /\ Reads d' l'.
Proof.
  intros Hm HR Hwf H.
  assert (HX : is_u64 v /\ exists x l', l = x ++ l' /\ x = head_bytes m v /\
                 d' = Decoder.advance d (length x)).
  { unfold Decoder.head in H. inv_res.
    destruct (byte_ok _ _ _ _ HR E) as (-> & l1 & -> & HR1).
    inversion_clear Hwf as [|? ? Hz Hwf1].
    destruct (initial_split _ Hz) as (Hz1 & Hz2 & Hz3). bools. subst m.
    set (a := Z.land z 0x1f) in *. unfold is_u64, head_bytes.
    repeat match type of H with (if ?b then _ else _) = _ => destruct b eqn:?; bools end;
      inv_res; bools.
    - split; [lia|]. exists [z], l1. rewrite (proj2 (Z.leb_le _ _)) by lia.
      split; [reflexivity|]. split; [f_equal; lia|reflexivity].
    - destruct (byte_ok _ _ _ _ HR1 E0) as (-> & l2 & -> & HR2).
      inversion_clear Hwf1 as [|? ? Hv Hwf2]. unfold is_u8 in Hv.
      split; [lia|]. exists [z; v], l2. rewrite (proj2 (Z.leb_gt v 23)) by lia.
      rewrite (proj2 (Z.leb_le v _)) by lia.
      split; [reflexivity|]. split; [repeat f_equal; lia|]. apply advance_advance.
    - destruct (take_array_value _ _ _ _ _ HR1 Hwf1 E0) as (Hb & -> & l2 & ->).
      split; [lia|]. eexists (z :: be_bytes 2 _), l2. split; [reflexivity|].
      repeat rewrite (proj2 (Z.leb_gt (from_be_bytes _) _)) by lia.
      rewrite (proj2 (Z.leb_le (from_be_bytes _) _)) by lia.
      split; [f_equal; lia|]. simpl length. apply advance_advance.
    - destruct (take_array_value _ _ _ _ _ HR1 Hwf1 E0) as (Hb & -> & l2 & ->).
      split; [lia|]. eexists (z :: be_bytes 4 _), l2. split; [reflexivity|].
      repeat rewrite (proj2 (Z.leb_gt (from_be_bytes _) _)) by lia.
      rewrite (proj2 (Z.leb_le (from_be_bytes _) _)) by lia.
      split; [f_equal; lia|]. simpl length. apply advance_advance.
    - destruct (take_array_value _ _ _ _ _ HR1 Hwf1 E0) as (Hb & -> & l2 & ->).
      split; [lia|]. eexists (z :: be_bytes 8 _), l2. split; [reflexivity|].
      repeat rewrite (proj2 (Z.leb_gt (from_be_bytes _) _)) by lia.
      split; [f_equal; lia|]. simpl length. apply advance_advance. }
  destruct HX as (Hv & x & l' & -> & -> & ->). split; [assumption|].
  split; [reflexivity|]. exists l'. split; [reflexivity|]. by apply reads_advance.
Qed.

(** ** Items: every decoding routine meets [ItemCodec] *)

#[export] Instance head_codec m name : (0 <= m < 8)%Z ->
  ItemCodec (fun d => Decoder.head d m name) (head_bytes m) is_u64.
Proof.
  intros Hm. split.
  - intros d a l Ha HR. by apply dec_head_complete with l.
  - intros d a d' l HR Hwf H. by apply (dec_head_sound d m a d' l name).
Qed.

#[export] Instance uint_codec : ItemCodec Decoder.uint (head_bytes 0) is_u64.
Proof. apply head_codec. lia. Qed.

Definition short_bytes (v : bytes) : Prop := wf_bytes v /\ is_u64 (len v).

Lemma str_take_complete d m name v l :
  (0 <= m < 8)%Z -> is_u64 (len v) -> Reads d (str_bytes m v ++ l) ->
  exists d1, Decoder.head d m name = Ok (len v, d1) /\
    Decoder.take d1 (len v) = Ok (v, Decoder.advance d (length (str_bytes m v))).
Proof.
  intros Hm Hv HR. unfold str_bytes in *. rewrite <- app_assoc in HR.
  eexists. split; [apply (dec_head_complete d m (len v) (v ++ l) name Hm Hv HR)|].
  rewrite (take_app _ v l) by (apply reads_advance in HR; assumption || reflexivity).
  by rewrite advance_advance, length_app.
Qed.

Lemma str_take_sound d m name n d1 v d2 l :
  (0 <= m < 8)%Z -> Reads d l -> wf_bytes l ->
  Decoder.head d m name = Ok (n, d1) -> Decoder.take d1 n = Ok (v, d2) ->
  short_bytes v /\ d2 = Decoder.advance d (length (str_bytes m v)) /\
  exists l', l = str_bytes m v ++ l' /\ Reads d2 l'.
Proof.
  intros Hm HR Hwf H1 H2.
  destruct (dec_head_sound _ _ _ _ _ _ Hm HR Hwf H1) as (Hn & -> & l1 & -> & HR1).
  destruct (take_ok _ _ _ _ _ HR1 (proj1 Hn) H2) as (<- & -> & l2 & -> & HR2).
  apply wf_bytes_app in Hwf as [_ Hwf]. apply wf_bytes_app in Hwf as [Hwf _].
  split; [split; assumption|]. unfold str_bytes.
  rewrite advance_advance, length_app. split; [reflexivity|].
  exists l2. rewrite <- app_assoc. split; [reflexivity|].
  rewrite advance_advance in HR2. exact HR2.
Qed.

#[export] Instance bytes_codec : ItemCodec Decoder.bytes (str_bytes 2) short_bytes.
Proof.
  split.
  - intros d v l [_ Hv] HR. unfold Decoder.bytes.
    destruct (str_take_complete d 2 "byte string" v l ltac:(lia) Hv HR) as (d1 & -> & ->).
    reflexivity.
  - intros d v d' l HR Hwf H. unfold Decoder.bytes in H. inv_res.
    eapply str_take_sound; eauto. lia.
Qed.

#[export] Instance text_codec :
  ItemCodec Decoder.text (str_bytes 3) (fun v => short_bytes v /\ is_utf8 v = true).
Proof.
  split.
  - intros d v l [[_ Hv] Hu] HR. unfold Decoder.text.
    destruct (str_take_complete d 3 "text string" v l ltac:(lia) Hv HR) as (d1 & -> & ->).
    by rewrite Hu.
  - intros d v d' l HR Hwf H. unfold Decoder.text in H. inv_res.
    eapply str_take_sound in E0 as (? & ? & ?); eauto. lia.
Qed.

(** [null] or a value: the null byte [0xf6] is no head of major type 0 or 2. *)
Definition nullable (enc : Z -> bytes) (o : option Z) : bytes :=
  match o with Some v => enc v | None => [0xf6]%Z end.
Definition nullable_bytes (o : option bytes) : bytes :=
  match o with Some v => str_bytes 2 v | None => [0xf6]%Z end.

Lemma head_bytes_not_null m v l x :
  (0 <= m < 7)%Z -> is_u64 v -> head_bytes m v ++ l = x :: drop 1 (head_bytes m v ++ l) ->
  (x =? 0xf6)%Z = false.
Proof.
  intros Hm Hv. unfold is_u64 in Hv. unfold head_bytes.
  repeat case_match; bools; simpl; intros E; injection E as <-; apply Z.eqb_neq; lia.
Qed.

Lemma peek_head d m v l :
  (0 <= m < 7)%Z -> is_u64 v -> Reads d (head_bytes m v ++ l) ->
  exists x, Decoder.peek d = Ok x /\ (x =? 0xf6)%Z = false.
Proof.
  intros Hm Hv HR. pose proof (head_bytes_not_null m v l) as HN.
  pose proof (length_head_bytes_pos m v).
  destruct (head_bytes m v ++ l) as [|x k] eqn:E.
  { apply (f_equal length) in E. rewrite length_app in E. simpl in E. lia. }
  exists x. split; [by apply peek_cons with k|]. by apply HN.
Qed.

Lemma null_sound d l : Reads d l -> Decoder.peek d = Ok 0xf6%Z ->
  exists l', l = [0xf6]%Z ++ l' /\ Reads (Decoder.advance d 1) l'.
Proof.
  intros HR H. destruct (peek_ok _ _ _ HR H) as [l' ->].
  exists l'. split; [reflexivity|]. by apply (reads_advance d [0xf6]%Z).
Qed.

#[export] Instance null_or_uint_codec :
  ItemCodec Decoder.null_or_uint (nullable (head_bytes 0))
            (fun o => forall v, o = Some v -> is_u64 v).
Proof.
  split.
  - intros d [v|] l Hv HR; unfold Decoder.null_or_uint; simpl in HR |- *.
    + specialize (Hv v eq_refl). destruct (peek_head d 0 v l ltac:(lia) Hv HR) as (x & -> & ->).
      by rewrite (item_complete d v l Hv HR).
    + by rewrite (peek_cons _ _ _ HR).
  - intros d o d' l HR Hwf H. unfold Decoder.null_or_uint in H. inv_res.
    destruct (a =? 0xf6)%Z eqn:G; inv_res; bools; subst.
    + split; [done|]. split; [reflexivity|]. by apply null_sound.
    + destruct (item_sound _ _ _ _ HR Hwf E0) as (Hv & ? & ?).
      split; [intros ? [= <-]; assumption|]. auto.
Qed.

#[export] Instance null_or_bytes_codec :
  ItemCodec Decoder.null_or_bytes nullable_bytes
            (fun o => forall v, o = Some v -> short_bytes v).
Proof.
  split.
  - intros d [v|] l Hv HR; unfold Decoder.null_or_bytes; simpl in HR |- *.
    + specialize (Hv v eq_refl). pose proof HR as HR'. unfold str_bytes in HR'.
      rewrite <- app_assoc in HR'.
      destruct (peek_head d 2 (len v) (v ++ l) ltac:(lia) (proj2 Hv) HR') as (x & -> & ->).
      by rewrite (item_complete d v l Hv HR).
    + by rewrite (peek_cons _ _ _ HR).
  - intros d o d' l HR Hwf H. unfold Decoder.null_or_bytes in H. inv_res.
    destruct (a =? 0xf6)%Z eqn:G; inv_res; bools; subst.
    + split; [done|]. split; [reflexivity|]. by apply null_sound.
    + destruct (item_sound _ _ _ _ HR Hwf E0) as (Hv & ? & ?).
      split; [intros ? [= <-]; assumption|]. auto.
Qed.

(** What each encoder call appends. *)
Lemma enc_array_spec e n : is_u64 n ->
  Encoder.buf (Encoder.array e n) = Encoder.buf e ++ head_bytes 4 n.
Proof. apply enc_head_spec. lia. Qed.
Lemma enc_map_spec e n : is_u64 n ->
  Encoder.buf (Encoder.map e n) = Encoder.buf e ++ head_bytes 5 n.
Proof. apply enc_head_spec. lia. Qed.
Lemma enc_uint_spec e n : is_u64 n ->
  Encoder.buf (Encoder.uint e n) = Encoder.buf e ++ head_bytes 0 n.
Proof. apply enc_head_spec. lia. Qed.
Lemma enc_bytes_spec e v : is_u64 (len v) ->
  Encoder.buf (Encoder.bytes e v) = Encoder.buf e ++ str_bytes 2 v.
Proof.
  intros H. unfold Encoder.bytes. simpl. rewrite enc_head_spec by (assumption || lia).
  unfold str_bytes. by rewrite app_assoc.
Qed.
Lemma enc_text_spec e v : is_u64 (len v) ->
  Encoder.buf (Encoder.text e v) = Encoder.buf e ++ str_bytes 3 v.
Proof.
  intros H. unfold Encoder.text. simpl. rewrite enc_head_spec by (assumption || lia).
  unfold str_bytes. by rewrite app_assoc.
Qed.
Lemma enc_null_spec e : Encoder.buf (Encoder.null e) = Encoder.buf e ++ [0xf6]%Z.
Proof. reflexivity. Qed.

#[export] Hint Rewrite enc_array_spec enc_map_spec enc_uint_spec enc_bytes_spec
  enc_text_spec enc_null_spec using (unfold is_u64, len in *; simpl; lia) : cbor.

(** Deterministic CBOR: a decoded head (of any major type, hence every
    integer and every length of the repository formats) consumed exactly the
    bytes that [Encoder::head] writes for the returned value.  No other
    spelling of a value is accepted: each value has one encoding. *)
Theorem cbor_head_canonical d m name v d' l :
  (0 <= m < 8)%Z -> Reads d l -> wf_bytes l ->
  Decoder.head d m name = Ok (v, d') ->
  is_u64 v /\
  exists rest, l = Encoder.finish (Encoder.head Encoder.new m v) ++ rest /\ Reads d' rest.
Proof.
  intros Hm HR Hwf H. destruct (dec_head_sound _ _ _ _ _ _ Hm HR Hwf H) as (Hv & -> & l' & -> & HR').
  split; [assumption|]. exists l'. unfold Encoder.finish.
  rewrite enc_head_spec by assumption. auto.
Qed.

Lemma cbor_head_canonical_witness :
  exists d', Decoder.head (Decoder.new [0x19; 1; 0; 7]%Z) 0 "unsigned integer"
             = Ok (256%Z, d') /\ Reads d' [7]%Z.
Proof.
  eexists. split; [vm_compute; reflexivity|].
  destruct (cbor_head_canonical (Decoder.new [0x19; 1; 0; 7]%Z) 0 "unsigned integer" 256%Z
              (Decoder.mk [0x19; 1; 0; 7]%Z 3) [0x19; 1; 0; 7]%Z) as (_ & rest & E & HR).
  - lia.
  - apply reads_new. vm_compute. discriminate.
  - apply wf_bytesb_spec. reflexivity.
  - vm_compute. reflexivity.
  - vm_compute in E. injection E as <-. exact HR.
Defined.
