(* ===== verification/Master.v ===== *)
(** * The authenticated repository master

    [bobr-repo/src/master.rs] and the limits of [bobr-repo/src/format.rs].
    A master is a deterministic CBOR payload that lists the immutable slot
    states of a repository, signed as a tagged [COSE_Sign1] object. *)

From S2P Require Import Prelude Errors Hash Cbor.

(** ** Format constants ([format.rs]) *)

Definition REPOSITORY_FORMAT : u64 := 1.
Definition MAX_MASTER_BYTES : u64 := 4 * 1024 * 1024.
Definition MIN_ENCODED_SLOT_BYTES : usize := 193.
Definition MASTER_CONTENT_TYPE : bytes := lit "application/vnd.bobr.repository-master+cbor".

(** ** What the master code uses of the [url] crate *)

Class UrlApi := {
  Url : Type;
  url_parse : bytes -> result string Url;
  url_as_str : Url -> bytes;
  url_scheme : Url -> bytes;
  url_cannot_be_a_base : Url -> bool;
  url_username : Url -> bytes;
  url_password : Url -> option bytes;
  url_query : Url -> option bytes;
  url_fragment : Url -> option bytes;
  url_path : Url -> bytes;
}.

(** Documented behaviour of the [url] crate: the serialization of a URL is a
    UTF-8 string that parses back to the same URL. *)
Class UrlLaws `{UrlApi} : Prop := {
  url_parse_as_str : forall u, url_parse (url_as_str u) = Ok u;
  url_as_str_wf : forall u, wf_bytes (url_as_str u);
  url_as_str_utf8 : forall u, is_utf8 (url_as_str u) = true;
}.

(** [Slot]. *)
Record Slot := mkSlot {
  serial : u64;
  build : bytes;
  reuse : bytes;
  object_list : bytes;
  file_list : bytes;
  retain_until : option u64;
}.

#[export] Instance Slot_eq_dec : EqDecision Slot.
Proof. solve_decision. Defined.

Record wf_slot (s : Slot) : Prop := {
  wf_serial : is_u64 (serial s);
  wf_build : wf_hash (build s);
  wf_reuse : wf_hash (reuse s);
  wf_object_list : wf_hash (object_list s);
  wf_file_list : wf_hash (file_list s);
  wf_retain : forall v, retain_until s = Some v -> is_u64 v;
}.

Definition require_hash (b : bytes) : result RepositoryError bytes :=
  if (length b =? 32)%nat then Ok b
  else Err (repo_error "master metadata digest must contain 32 bytes").

Definition require_text (d : Decoder.t) (expected : string)
  : result RepositoryError Decoder.t :=
  let* (t, d') := Decoder.text d in
  if bytes_eqb t (lit expected) then Ok d'
  else Err (repo_error ("unexpected or incorrectly ordered CBOR map key; expected '"
                         +:+ expected +:+ "'")).

Definition require_length (actual expected : u64) (what : string)
  : result RepositoryError unit :=
  if (actual =? expected)%Z then Ok tt
  else Err (repo_error (what +:+ " must contain exactly " +:+ pretty expected +:+ " entries")).

Definition encode_slot (e : Encoder.t) (slot : Slot) : Encoder.t :=
  let e := Encoder.map e 6 in
  let e := Encoder.text e (lit "build") in
  let e := Encoder.bytes e (build slot) in
  let e := Encoder.text e (lit "reuse") in
  let e := Encoder.bytes e (reuse slot) in
  let e := Encoder.text e (lit "serial") in
  let e := Encoder.uint e (serial slot) in
  let e := Encoder.text e (lit "file_list") in
  let e := Encoder.bytes e (file_list slot) in
  let e := Encoder.text e (lit "object_list") in
  let e := Encoder.bytes e (object_list slot) in
  let e := Encoder.text e (lit "retain_until") in
  match retain_until slot with
  | Some value => Encoder.uint e value
  | None => Encoder.null e
  end.

(** [require_hash(decoder.bytes()?)?]. *)
Definition decode_hash (d : Decoder.t) : result RepositoryError (bytes * Decoder.t) :=
  let* (b, d') := Decoder.bytes d in
  h <- require_hash b ;; Ok (h, d').

Definition decode_slot (d : Decoder.t) : result RepositoryError (Slot * Decoder.t) :=
  let* (n, d) := Decoder.map d in
  require_length n 6 "slot map" ;;;
  d <- require_text d "build" ;;
  let* (build, d) := decode_hash d in
  d <- require_text d "reuse" ;;
  let* (reuse, d) := decode_hash d in
  d <- require_text d "serial" ;;
  let* (serial, d) := Decoder.uint d in
  d <- require_text d "file_list" ;;
  let* (file_list, d) := decode_hash d in
  d <- require_text d "object_list" ;;
  let* (object_list, d) := decode_hash d in
  d <- require_text d "retain_until" ;;
  let* (retain_until, d) := Decoder.null_or_uint d in
  Ok ({| serial := serial; build := build; reuse := reuse;
         object_list := object_list; file_list := file_list;
         retain_until := retain_until |}, d).

(** [for _ in 0..slot_count { slots.push(decode_slot(..)?) }]. *)
Fixpoint decode_slots (n : nat) (d : Decoder.t)
  : result RepositoryError (list Slot * Decoder.t) :=
  match n with
  | O => Ok ([], d)
  | S n' =>
      let* (s, d) := decode_slot d in
      let* (ss, d) := decode_slots n' d in
      Ok (s :: ss, d)
  end.

Section Master.
Context `{UrlApi}.

(** [Master]. *)
Record Master := mkMaster {
  previous_master_hash : option bytes;
  data_base_url : Url;
  slots : list Slot;
}.

Definition validate_data_base_url (url : Url) : result RepositoryError unit :=
  if negb (bytes_eqb (url_scheme url) (lit "https"))
     || url_cannot_be_a_base url
     || negb (bytes_eqb (url_username url) [])
     || bool_decide (is_Some (url_password url))
     || bool_decide (is_Some (url_query url))
     || bool_decide (is_Some (url_fragment url))
     || negb (ends_with (lit "/") (url_path url))
  then Err (repo_error "data_base_url must be an absolute HTTPS base URL ending in '/'")
  else Ok tt.

(** One iteration of the loop of [Master::validate]: the state is
    [(previous, has_current)]. *)
Definition validate_slot (st : option u64 * bool) (slot : Slot)
  : result RepositoryError (option u64 * bool) :=
  let '(previous, has_current) := st in
  if (match previous with Some p => (serial slot <=? p)%Z | None => false end)
  then Err (repo_error "slot serials must be strictly increasing")
  else Ok (Some (serial slot),
           has_current || bool_decide (retain_until slot = None)).

Definition validate (m : Master) : result RepositoryError unit :=
  validate_data_base_url (data_base_url m) ;;;
  if bool_decide (slots m = []) then
    Err (repo_error "master must contain at least one slot")
  else
    let* (_, has_current) := try_fold validate_slot (None, false) (slots m) in
    if has_current then Ok tt
    else Err (repo_error "master must contain at least one current slot").

Definition new (previous_master_hash : option bytes) (data_base_url : Url)
    (slots : list Slot) : result RepositoryError Master :=
  let master := mkMaster previous_master_hash data_base_url slots in
  validate master ;;; Ok master.

Definition current_slots_newest_first (m : Master) : list Slot :=
  List.filter (fun s => bool_decide (retain_until s = None)) (rev (slots m)).

(** [active_slot]; the [expect] is the [None] case. *)
Definition active_slot (m : Master) : option Slot :=
  head (current_slots_newest_first m).

Definition encode_payload (m : Master) : bytes :=
  let e := Encoder.new in
  let e := Encoder.map e 4 in
  let e := Encoder.text e (lit "slots") in
  let e := Encoder.array e (len (slots m)) in
  let e := fold_left encode_slot (slots m) e in
  let e := Encoder.text e (lit "data_base_url") in
  let e := Encoder.text e (url_as_str (data_base_url m)) in
  let e := Encoder.text e (lit "repository_format") in
  let e := Encoder.uint e REPOSITORY_FORMAT in
  let e := Encoder.text e (lit "previous_master_hash") in
  let e := match previous_master_hash m with
           | Some hash => Encoder.bytes e hash
           | None => Encoder.null e
           end in
  Encoder.finish e.

(** [decoder.null_or_bytes()?.map(require_hash).transpose()?]. *)
Definition decode_previous (d : Decoder.t)
  : result RepositoryError (option bytes * Decoder.t) :=
  let* (o, d) := Decoder.null_or_bytes d in
  match o with
  | Some b => h <- require_hash b ;; Ok (Some h, d)
  | None => Ok (None, d)
  end.

(** [Master::decode_payload].  [try_reserve_exact] cannot fail for a count
    bounded by the payload size. *)
Definition decode_payload (b : bytes) : result RepositoryError Master :=
  if (MAX_MASTER_BYTES <? len b)%Z then
    Err (repo_error "master payload exceeds the format limit")
  else
    let d := Decoder.new b in
    let* (n, d) := Decoder.map d in
    require_length n 4 "master map" ;;;
    d <- require_text d "slots" ;;
    let* (slot_count, d) := Decoder.array d in
    if (Decoder.remaining_bytes d / MIN_ENCODED_SLOT_BYTES <? slot_count)%Z then
      Err (repo_error "slot count exceeds the remaining payload size")
    else
      let* (slots, d) := decode_slots (Z.to_nat slot_count) d in
      d <- require_text d "data_base_url" ;;
      let* (text, d) := Decoder.text d in
      url <- map_err (fun error => repo_error ("invalid data_base_url: " +:+ error))
                     (url_parse text) ;;
      d <- require_text d "repository_format" ;;
      let* (repository_format, d) := Decoder.uint d in
      if negb (repository_format =? REPOSITORY_FORMAT)%Z then
        Err (repo_error ("unsupported repository format " +:+ pretty repository_format))
      else
        d <- require_text d "previous_master_hash" ;;
        let* (previous, d) := decode_previous d in
        Decoder.finish d ;;;
        new previous url slots.
End Master.

(** ** The wire form of a slot and of a payload *)

Definition key_bytes (k : string) : bytes := str_bytes 3 (lit k).

Definition slot_bytes (s : Slot) : bytes :=
  head_bytes 5 6 ++ key_bytes "build" ++ str_bytes 2 (build s)
  ++ key_bytes "reuse" ++ str_bytes 2 (reuse s)
  ++ key_bytes "serial" ++ head_bytes 0 (serial s)
  ++ key_bytes "file_list" ++ str_bytes 2 (file_list s)
  ++ key_bytes "object_list" ++ str_bytes 2 (object_list s)
  ++ key_bytes "retain_until" ++ nullable (head_bytes 0) (retain_until s).

Definition slots_bytes (ss : list Slot) : bytes := concat (map slot_bytes ss).

(** The payload of [m] with the data-base-URL spelled [text]. *)
Definition payload_bytes `{UrlApi} (m : Master) (text : bytes) : bytes :=
  head_bytes 5 4 ++ key_bytes "slots" ++ head_bytes 4 (len (slots m))
  ++ slots_bytes (slots m)
  ++ key_bytes "data_base_url" ++ str_bytes 3 text
  ++ key_bytes "repository_format" ++ head_bytes 0 REPOSITORY_FORMAT
  ++ key_bytes "previous_master_hash" ++ nullable_bytes (previous_master_hash m).

Lemma slots_bytes_cons s ss : slots_bytes (s :: ss) = slot_bytes s ++ slots_bytes ss.
Proof. reflexivity. Qed.

(** ** Lemmas: decoding keys, digests and slots *)

Lemma require_text_complete d k l :
  is_utf8 (lit k) = true -> is_u64 (len (lit k)) -> Reads d (key_bytes k ++ l) ->
  require_text d k = Ok (Decoder.advance d (length (key_bytes k))).
Proof.
  intros Hu Hl HR. unfold require_text.
  rewrite (item_complete d (lit k) l (conj (conj (wf_lit k) Hl) Hu) HR).
  unfold bytes_eqb. by rewrite bool_decide_eq_true_2.
Qed.

Lemma require_text_sound d k d' l :
  Reads d l -> wf_bytes l -> require_text d k = Ok d' ->
  exists l', l = key_bytes k ++ l' /\ Reads d' l'.
Proof.
  intros HR Hwf H. unfold require_text in H. inv_res. bools. subst.
  by destruct (item_sound _ _ _ _ HR Hwf E) as (_ & _ & ?).
Qed.

Lemma require_length_ok a e what u : require_length a e what = Ok u -> a = e.
Proof. unfold require_length. intros. inv_res. bools. assumption. Qed.

Lemma require_length_refl a what : require_length a a what = Ok tt.
Proof. unfold require_length. by rewrite Z.eqb_refl. Qed.

Lemma wf_hash_short h : wf_hash h -> short_bytes h.
Proof. intros [Hw Hl]. split; [assumption|]. unfold is_u64, len. rewrite Hl. lia. Qed.

Lemma require_hash_ok b h : require_hash b = Ok h -> h = b /\ length b = 32%nat.
Proof. unfold require_hash. intros. inv_res. bools. auto. Qed.

Lemma require_hash_wf h : wf_hash h -> require_hash h = Ok h.
Proof. intros [_ Hl]. unfold require_hash. by rewrite Hl. Qed.

#[export] Instance decode_hash_codec : ItemCodec decode_hash (str_bytes 2) wf_hash.
Proof.
  split.
  - intros d h l Hh HR. unfold decode_hash.
    rewrite (item_complete d h l (wf_hash_short _ Hh) HR). by rewrite require_hash_wf.
  - intros d h d' l HR Hwf H. unfold decode_hash in H. inv_res.
    apply require_hash_ok in E0 as [-> Hl].
    destruct (item_sound _ _ _ _ HR Hwf E) as ([Hw _] & ? & ?).
    split; [split; assumption|auto].
Qed.

#[export] Instance map_codec : ItemCodec Decoder.map (head_bytes 5) is_u64.
Proof. apply (head_codec 5). lia. Qed.
#[export] Instance array_codec : ItemCodec Decoder.array (head_bytes 4) is_u64.
Proof. apply (head_codec 4). lia. Qed.

(** [dec_key] and [dec_item] run one decoding routine on input known to start with its
    encoding; [dec_inv] inverts one successful routine. *)
Ltac dec_key HR :=
  match type of HR with
  | Reads ?d (key_bytes ?k ++ ?l) =>
      rewrite (require_text_complete d k l ltac:(reflexivity)
                 ltac:(vm_compute; split; discriminate || reflexivity) HR);
      apply reads_advance in HR
  end.
Ltac dec_item HR f x :=
  let C := fresh "C" in
  pose proof (fun V => item_complete (dec := f) _ x _ V HR) as C;
  rewrite C by (cbv beta; first [assumption | vm_compute; split; discriminate || reflexivity]);
  clear C; apply reads_advance in HR.

Ltac dec_inv :=
  match goal with
  | HR : Reads ?d ?l, W : wf_bytes ?l, E : require_text ?d _ = Ok _ |- _ =>
      let l' := fresh "l" in
      destruct (require_text_sound _ _ _ _ HR W E) as (l' & -> & ?);
      apply wf_bytes_app in W as [_ ?]; clear HR E
  | HR : Reads ?d ?l, W : wf_bytes ?l, E : _ ?d = Ok (_, _) |- _ =>
      let l' := fresh "l" in
      destruct (item_sound _ _ _ _ HR W E) as (? & _ & l' & -> & ?);
      apply wf_bytes_app in W as [_ ?]; clear HR E
  end.

Lemma decode_slot_complete d s l :
  wf_slot s -> Reads d (slot_bytes s ++ l) ->
  decode_slot d = Ok (s, Decoder.advance d (length (slot_bytes s))).
Proof.
  intros [? ? ? ? ? ?] HR. unfold slot_bytes in HR |- *. repeat rewrite <- app_assoc in HR.
  unfold decode_slot.
  dec_item HR Decoder.map 6%Z. rewrite require_length_refl. dec_key HR.
  dec_item HR decode_hash (build s). dec_key HR.
  dec_item HR decode_hash (reuse s). dec_key HR.
  dec_item HR Decoder.uint (serial s). dec_key HR.
  dec_item HR decode_hash (file_list s). dec_key HR.
  dec_item HR decode_hash (object_list s). dec_key HR.
  dec_item HR Decoder.null_or_uint (retain_until s).
  rewrite !advance_advance, !length_app. destruct s; cbn [build reuse serial file_list
    object_list retain_until]. do 3 f_equal.
Qed.

Lemma decode_slot_sound d s d' l :
  Reads d l -> wf_bytes l -> decode_slot d = Ok (s, d') ->
  wf_slot s /\ exists l', l = slot_bytes s ++ l' /\ Reads d' l'.
Proof.
  intros HR Hwf H. unfold decode_slot in H. inv_res.
  apply require_length_ok in E0 as ->. repeat dec_inv.
  split; [by split|]. eexists. unfold slot_bytes.
  cbn [build reuse serial file_list object_list retain_until].
  repeat rewrite <- app_assoc. split; [reflexivity|assumption].
Qed.

#[export] Instance decode_slot_codec : ItemCodec decode_slot slot_bytes wf_slot.
Proof.
  split; [intros; by apply decode_slot_complete with l|].
  intros d s d' l HR Hwf H. destruct (decode_slot_sound _ _ _ _ HR Hwf H) as (Hs & l' & -> & HR').
  split; [assumption|]. pose proof (decode_slot_complete d s l' Hs HR) as HC.
  rewrite H in HC. injection HC as ->. eauto.
Qed.

Lemma decode_slots_complete ss d l :
  Forall wf_slot ss -> Reads d (slots_bytes ss ++ l) ->
  decode_slots (length ss) d = Ok (ss, Decoder.advance d (length (slots_bytes ss))).
Proof.
  intros Hss. revert d. induction Hss as [|s ss Hs Hss IH]; intros d HR.
  - destruct d; simpl. unfold Decoder.advance. simpl. by rewrite Nat.add_0_r.
  - rewrite slots_bytes_cons in HR |- *. rewrite <- app_assoc in HR. cbn [length decode_slots].
    dec_item HR decode_slot s. rewrite (IH _ HR), advance_advance, length_app. reflexivity.
Qed.

Lemma decode_slots_sound n d ss d' l :
  Reads d l -> wf_bytes l -> decode_slots n d = Ok (ss, d') ->
  length ss = n /\ Forall wf_slot ss /\ exists l', l = slots_bytes ss ++ l' /\ Reads d' l'.
Proof.
  revert d ss l. induction n as [|n IH]; intros d ss l HR Hwf H; simpl in H; inv_res.
  - split; [done|]. split; [constructor|]. exists l. auto.
  - dec_inv. destruct (IH _ _ _ ltac:(eassumption) ltac:(eassumption) E0) as (<- & Hss & l' & -> & HR').
    split; [done|]. split; [by constructor|]. exists l'.
    by rewrite slots_bytes_cons, <- app_assoc.
Qed.

(** The smallest slot encoding takes [MIN_ENCODED_SLOT_BYTES] bytes: the bound
    on the slot count never rejects a payload that holds that many slots. *)
Lemma slot_bytes_min s : wf_slot s -> (MIN_ENCODED_SLOT_BYTES <= len (slot_bytes s))%Z.
Proof.
  intros [? [_ Hb] [_ Hr] [_ Ho] [_ Hf] ?]. unfold slot_bytes, str_bytes, MIN_ENCODED_SLOT_BYTES.
  assert (H32 : forall h : bytes, length h = 32%nat -> len (head_bytes 2 (len h) ++ h) = 34%Z).
  { intros h Hh. rewrite len_app. unfold len at 2 3. by rewrite Hh. }
  assert (H1 : forall m v, (1 <= len (head_bytes m v))%Z).
  { intros m v. pose proof (length_head_bytes_pos m v). unfold len. lia. }
  assert (Hn : (1 <= len (nullable (head_bytes 0) (retain_until s)))%Z).
  { destruct (retain_until s); [apply H1|]. vm_compute. discriminate. }
  pose proof (H1 0%Z (serial s)). pose proof (H1 5%Z 6%Z).
  rewrite !len_app.
  rewrite <- !(len_app (head_bytes 2 _)), !H32 by assumption.
  change (len (key_bytes "build")) with 6%Z. change (len (key_bytes "reuse")) with 6%Z.
  change (len (key_bytes "serial")) with 7%Z. change (len (key_bytes "file_list")) with 10%Z.
  change (len (key_bytes "object_list")) with 12%Z.
  change (len (key_bytes "retain_until")) with 13%Z. lia.
Qed.

(** ** The payload as a whole *)

Section MasterFacts.
Context `{UrlLaws}.

(** What the Rust types guarantee of a [Master] value: digests are 32 bytes
    wide, integers fit in a [u64], a URL string fits in memory. *)
Record wf_master (m : Master) : Prop := {
  wf_slots : Forall wf_slot (slots m);
  wf_previous : forall h, previous_master_hash m = Some h -> wf_hash h;
  wf_slot_count : is_u64 (len (slots m));
  wf_url : is_u64 (len (url_as_str (data_base_url m)));
}.

Lemma encode_slot_spec e s :
  wf_slot s -> Encoder.buf (encode_slot e s) = Encoder.buf e ++ slot_bytes s.
Proof.
  intros [? Hb Hr Ho Hf Hret]. apply wf_hash_short in Hb as [_ Hb], Hr as [_ Hr],
    Ho as [_ Ho], Hf as [_ Hf].
  unfold encode_slot, slot_bytes, key_bytes.
  destruct (retain_until s) as [v|]; [specialize (Hret v eq_refl)|];
    rewrite ?enc_uint_spec, ?enc_null_spec by assumption;
    repeat (first [rewrite enc_text_spec by (vm_compute; split; discriminate || reflexivity)
                  | rewrite enc_bytes_spec by assumption
                  | rewrite enc_uint_spec by assumption
                  | rewrite enc_map_spec by (vm_compute; split; discriminate || reflexivity)]);
    repeat rewrite <- app_assoc; reflexivity.
Qed.

Lemma encode_slots_spec ss e :
  Forall wf_slot ss ->
  Encoder.buf (fold_left encode_slot ss e) = Encoder.buf e ++ slots_bytes ss.
Proof.
  intros Hss. revert e. induction Hss as [|s ss Hs Hss IH]; intros e; cbn [fold_left].
  - unfold slots_bytes. simpl. by rewrite app_nil_r.
  - rewrite IH, encode_slot_spec, slots_bytes_cons, app_assoc by assumption. reflexivity.
Qed.

Lemma encode_payload_spec m :
  wf_master m -> encode_payload m = payload_bytes m (url_as_str (data_base_url m)).
Proof.
  intros [Hs Hp Hc Hu]. unfold encode_payload, payload_bytes, Encoder.finish, key_bytes.
  destruct (previous_master_hash m) as [h|]; cbn [nullable_bytes];
    [specialize (Hp h eq_refl); apply wf_hash_short in Hp as [_ Hp];
     rewrite enc_bytes_spec by assumption | rewrite enc_null_spec];
    repeat (first [rewrite enc_text_spec by (assumption || (vm_compute; split; discriminate || reflexivity))
                  | rewrite enc_uint_spec by (vm_compute; split; discriminate || reflexivity)
                  | rewrite encode_slots_spec by assumption
                  | rewrite enc_array_spec by assumption
                  | rewrite enc_map_spec by (vm_compute; split; discriminate || reflexivity)]);
    repeat rewrite <- app_assoc; reflexivity.
Qed.

Lemma slots_bytes_min ss :
  Forall wf_slot ss -> (MIN_ENCODED_SLOT_BYTES * len ss <= len (slots_bytes ss))%Z.
Proof.
  induction 1 as [|s ss Hs Hss IH]; [vm_compute; discriminate|].
  rewrite slots_bytes_cons, len_app, len_cons. pose proof (slot_bytes_min s Hs). lia.
Qed.

Lemma decode_previous_complete d o l :
  (forall h, o = Some h -> wf_hash h) -> Reads d (nullable_bytes o ++ l) ->
  decode_previous d = Ok (o, Decoder.advance d (length (nullable_bytes o))).
Proof.
  intros Ho HR. unfold decode_previous.
  rewrite (item_complete (dec := Decoder.null_or_bytes) d o l (fun h E => wf_hash_short h (Ho h E)) HR).
  destruct o as [h|]; [|reflexivity]. by rewrite require_hash_wf by auto.
Qed.

Lemma decode_previous_sound d o d' l :
  Reads d l -> wf_bytes l -> decode_previous d = Ok (o, d') ->
  (forall h, o = Some h -> wf_hash h) /\ exists l', l = nullable_bytes o ++ l' /\ Reads d' l'.
Proof.
  intros HR Hwf D. unfold decode_previous in D. inv_res.
  destruct (item_sound _ _ _ _ HR Hwf E) as (Hs & _ & l' & -> & HR').
  destruct o0 as [h|]; inv_res.
  - apply require_hash_ok in E0 as [-> Hl]. split; [|eauto].
    intros ? [= <-]. split; [apply (Hs h eq_refl)|assumption].
  - split; [done|eauto].
Qed.

Lemma finish_reads d l u : Reads d l -> Decoder.finish d = Ok u -> l = [].
Proof.
  intros HR D. unfold Decoder.finish in D. inv_res. bools.
  pose proof (reads_len _ _ HR) as HL. rewrite G in HL. unfold len in HL.
  destruct l; [reflexivity|]. simpl in HL. lia.
Qed.

Lemma reads_nil_finish d : Reads d [] -> Decoder.finish d = Ok tt.
Proof.
  intros HR. pose proof (reads_len _ _ HR) as HL. unfold len in HL. simpl in HL.
  unfold Decoder.finish, guard. rewrite (proj2 (Nat.eqb_eq _ _)) by lia. reflexivity.
Qed.

Lemma decode_payload_complete m :
  wf_master m -> validate m = Ok tt ->
  (len (encode_payload m) <= MAX_MASTER_BYTES)%Z ->
  decode_payload (encode_payload m) = Ok m.
Proof.
  intros Hm Hv Hlen. unfold decode_payload. rewrite (proj2 (Z.ltb_ge _ _)) by assumption.
  rewrite (encode_payload_spec m Hm) in *. pose proof Hm as [Hs Hp Hc Hu].
  assert (HR : Reads (Decoder.new (payload_bytes m (url_as_str (data_base_url m))))
                 (payload_bytes m (url_as_str (data_base_url m)))).
  { apply reads_new. unfold MAX_MASTER_BYTES, U64_MAX in *. lia. }
  rewrite <- (app_nil_r (payload_bytes m _)) in HR at 2.
  unfold payload_bytes in HR at 2. repeat rewrite <- app_assoc in HR.
  generalize dependent (Decoder.new (payload_bytes m (url_as_str (data_base_url m)))).
  intros d HR.
  dec_item HR Decoder.map 4%Z. rewrite require_length_refl. dec_key HR.
  dec_item HR Decoder.array (len (slots m)).
  rewrite (proj2 (Z.ltb_ge _ _)); swap 1 2.
  { unfold Decoder.remaining_bytes. rewrite (reads_len _ _ HR), len_app.
    pose proof (slots_bytes_min _ Hs). apply Z.div_le_lower_bound; [reflexivity|].
    pose proof (len_nonneg (key_bytes "data_base_url" ++ str_bytes 3 (url_as_str (data_base_url m)) ++
      key_bytes "repository_format" ++ head_bytes 0 REPOSITORY_FORMAT ++
      key_bytes "previous_master_hash" ++ nullable_bytes (previous_master_hash m) ++ [])). lia. }
  unfold len at 1. rewrite Nat2Z.id.
  rewrite (decode_slots_complete _ _ _ Hs HR). apply reads_advance in HR. dec_key HR.
  pose proof (conj (conj (url_as_str_wf (data_base_url m)) Hu) (url_as_str_utf8 (data_base_url m))).
  dec_item HR Decoder.text (url_as_str (data_base_url m)).
  rewrite url_parse_as_str. cbn [map_err]. dec_key HR.
  dec_item HR Decoder.uint REPOSITORY_FORMAT. rewrite Z.eqb_refl. cbn [negb]. dec_key HR.
  rewrite (decode_previous_complete _ _ _ Hp HR). apply reads_advance in HR.
  rewrite (reads_nil_finish _ HR). unfold new. destruct m; cbn [previous_master_hash data_base_url slots] in *.
  by rewrite Hv.
Qed.
End MasterFacts.

Section MasterSound.
Context `{UrlApi}.

Lemma decode_payload_sound b m :
  wf_bytes b -> decode_payload b = Ok m ->
  validate m = Ok tt /\ Forall wf_slot (slots m) /\
  (forall h, previous_master_hash m = Some h -> wf_hash h) /\
  exists text, url_parse text = Ok (data_base_url m) /\ b = payload_bytes m text.
Proof.
  intros Hwf D. unfold decode_payload in D. inv_res. bools.
  assert (HR : Reads (Decoder.new b) b).
  { apply reads_new. unfold MAX_MASTER_BYTES, U64_MAX in *. lia. }
  apply require_length_ok in E0 as ->. repeat dec_inv.
  match goal with
  | HR : Reads ?d ?l, W : wf_bytes ?l, E : decode_slots _ ?d = Ok _ |- _ =>
      destruct (decode_slots_sound _ _ _ _ _ HR W E) as (Hn & Hss & l' & -> & HR');
      apply wf_bytes_app in W as [_ W']; clear HR E
  end.
  repeat dec_inv.
  match goal with
  | HR : Reads ?d ?l, W : wf_bytes ?l, E : decode_previous ?d = Ok _ |- _ =>
      destruct (decode_previous_sound _ _ _ _ HR W E) as (Hp & l'' & -> & HR'')
  end.
  match goal with
  | HR : Reads ?d ?l, E : Decoder.finish ?d = Ok _ |- _ => apply (finish_reads _ _ _ HR) in E as ->
  end.
  unfold new in D. inv_res.
  match goal with E : validate _ = Ok ?u |- _ => destruct u end.
  cbn [previous_master_hash data_base_url slots].
  split; [assumption|]. split; [assumption|]. split; [assumption|].
  exists l0. split.
  - assumption.
  - unfold payload_bytes. cbn [previous_master_hash data_base_url slots].
    rewrite app_nil_r. unfold len. rewrite Hn, Z2Nat.id by (unfold is_u64 in *; lia).
    reflexivity.
Qed.

(** ** Validation *)

(** Serial numbers strictly increase along the slot list. *)
Definition serial_lt (a b : Slot) : Prop := (serial a < serial b)%Z.
Definition is_current (s : Slot) : bool := bool_decide (retain_until s = None).

Lemma validate_slots_spec ss p c p' c' :
  try_fold validate_slot (p, c) ss = Ok (p', c') ->
  StronglySorted serial_lt ss /\
  (forall q, p = Some q -> Forall (fun s => (q < serial s)%Z) ss) /\
  c' = c || existsb is_current ss.
Proof.
  revert p c. induction ss as [|s ss IH]; intros p c V; cbn [try_fold] in V; inv_res.
  - split; [constructor|]. split; [constructor|]. by rewrite orb_false_r.
  - unfold validate_slot in E. inv_res. destruct (IH _ _ V) as (Hs & Hq & Hc).
    specialize (Hq _ eq_refl). split; [by constructor|]. split.
    + intros q ->. bools. constructor; [assumption|].
      eapply Forall_impl; [exact Hq|]. simpl. lia.
    + rewrite Hc. unfold is_current at 2. simpl. by rewrite orb_assoc.
Qed.

Lemma validate_slots_ok ss p c :
  StronglySorted serial_lt ss ->
  (forall q, p = Some q -> Forall (fun s => (q < serial s)%Z) ss) ->
  exists p', try_fold validate_slot (p, c) ss = Ok (p', c || existsb is_current ss).
Proof.
  revert p c. induction ss as [|s ss IH]; intros p c Hs Hq; simpl.
  - rewrite orb_false_r. eauto.
  - inversion_clear Hs as [|? ? Hss Hlt].
    assert ((match p with Some q => (serial s <=? q)%Z | None => false end) = false) as ->.
    { destruct p as [q|]; [|reflexivity]. specialize (Hq q eq_refl).
      inversion_clear Hq. apply Z.leb_gt. assumption. }
    destruct (IH (Some (serial s)) (c || bool_decide (retain_until s = None)) Hss) as [p' ->].
    { intros q [= <-]. exact Hlt. }
    exists p'. unfold is_current at 2. by rewrite orb_assoc.
Qed.

Lemma validate_iff m :
  validate m = Ok tt <->
  validate_data_base_url (data_base_url m) = Ok tt /\
  StronglySorted serial_lt (slots m) /\ existsb is_current (slots m) = true.
Proof.
  unfold validate. split.
  - intros V. inv_res. destruct a. destruct (validate_slots_spec _ _ _ _ _ E0) as (Hs & _ & Hc).
    simpl in Hc. by rewrite <- Hc.
  - intros (-> & Hs & Hc). destruct (slots m) as [|s ss] eqn:Es; [discriminate Hc|].
    rewrite bool_decide_eq_false_2 by discriminate.
    destruct (validate_slots_ok (s :: ss) None false Hs ltac:(discriminate)) as [p' ->].
    by rewrite Hc.
Qed.

Lemma active_of_sorted ss :
  StronglySorted serial_lt ss -> existsb is_current ss = true ->
  exists s, head (List.filter is_current (rev ss)) = Some s /\ s ∈ ss /\
    is_current s = true /\
    forall s', s' ∈ ss -> is_current s' = true -> (serial s' <= serial s)%Z.
Proof.
  induction 1 as [|s ss Hs IH Hlt]; intros Hc; [discriminate Hc|]. simpl.
  rewrite List.filter_app. destruct (existsb is_current ss) eqn:E.
  - destruct (IH eq_refl) as (a & Ha & Hin & Hca & Hmax). exists a.
    destruct (List.filter is_current (rev ss)) eqn:F; [discriminate Ha|].
    injection Ha as ->. split; [reflexivity|]. split; [by right|]. split; [assumption|].
    intros s' [-> | Hs']%elem_of_cons Hc'; [|auto].
    rewrite Forall_forall in Hlt. specialize (Hlt _ Hin). unfold serial_lt in Hlt. lia.
  - simpl in Hc. rewrite E, orb_false_r in Hc. exists s.
    assert (F : List.filter is_current (rev ss) = []).
    { destruct (List.filter is_current (rev ss)) as [|x l] eqn:F; [reflexivity|].
      assert (In x (List.filter is_current (rev ss))) as Hx by (rewrite F; left; reflexivity).
      apply filter_In in Hx as [Hx Hcx]. apply in_rev in Hx.
      assert (existsb is_current ss = true) by (apply existsb_exists; eauto). congruence. }
    rewrite F. simpl. rewrite Hc. split; [reflexivity|]. split; [left|]. split; [reflexivity|].
    intros s' [-> | Hs']%elem_of_cons Hc'; [lia|].
    assert (existsb is_current ss = true)
      by (apply existsb_exists; exists s'; split; [by apply list_elem_of_In|exact Hc']).
    congruence.
Qed.
End MasterSound.

(** ** Trusted keys and the signed envelope

    [TrustedKeys] pins Ed25519 keys by their opaque COSE key identifier.  The
    COSE codec, the signature check and SHA-256 are third-party code. *)

(** The fields of [coset]'s header that the code inspects. *)
Record CoseHeader := {
  alg_is_eddsa : bool;
  content_type : option bytes;
  key_id : bytes;
  crit_empty : bool;
  iv : bytes;
  partial_iv : bytes;
  counter_signatures_empty : bool;
  rest_empty : bool;
}.

Record CoseSign1 := {
  protected : CoseHeader;
  original_data : option bytes;
  unprotected_empty : bool;
  payload : option bytes;
  signature : bytes;
}.

Class CoseApi := {
  VerifyingKey : Type;
  from_tagged_slice : bytes -> result string CoseSign1;
  to_tagged_vec : CoseSign1 -> result string bytes;
  verify_signature : CoseSign1 -> VerifyingKey -> result string unit;
}.

Definition validate_cose_headers (cose : CoseSign1) : result RepositoryError unit :=
  let p := protected cose in
  if negb (alg_is_eddsa p) then
    Err (repo_error "master COSE algorithm is not EdDSA")
  else if negb (bool_decide (content_type p = Some MASTER_CONTENT_TYPE)) then
    Err (repo_error "invalid master COSE content type")
  else if bool_decide (key_id p = []) then
    Err (repo_error "master COSE kid is missing")
  else if negb (crit_empty p) || negb (bool_decide (iv p = []))
          || negb (bool_decide (partial_iv p = []))
          || negb (counter_signatures_empty p) || negb (rest_empty p) then
    Err (repo_error "unknown protected COSE header")
  else if negb (unprotected_empty cose) then
    Err (repo_error "unprotected COSE headers must be empty")
  else if bool_decide (payload cose = None) then
    Err (repo_error "detached master payload is forbidden")
  else if negb (length (signature cose) =? 64)%nat then
    Err (repo_error "Ed25519 signature must contain 64 bytes")
  else Ok tt.

Section Trusted.
Context `{UrlApi, CoseApi, Sha256Api}.

(** [TrustedKeys::insert]: the new map is returned next to the result,
    because the insertion happens before the duplicate test. *)
Definition trusted_insert (keys : gmap bytes VerifyingKey) (kid : bytes)
    (key : VerifyingKey) : result RepositoryError unit * gmap bytes VerifyingKey :=
  if bool_decide (kid = []) then
    (Err (repo_configuration "pinned key id must not be empty"), keys)
  else
    (if bool_decide (is_Some (keys !! kid))
     then Err (repo_configuration "duplicate pinned key id") else Ok tt,
     <[kid := key]> keys).

(** [TrustedKeys::new]. *)
Fixpoint trusted_new_from (acc : gmap bytes VerifyingKey)
    (l : list (bytes * VerifyingKey)) : result RepositoryError (gmap bytes VerifyingKey) :=
  match l with
  | [] => Ok acc
  | (kid, key) :: l' =>
      match trusted_insert acc kid key with
      | (Ok _, acc') => trusted_new_from acc' l'
      | (Err e, _) => Err e
      end
  end.
Definition trusted_new (l : list (bytes * VerifyingKey)) := trusted_new_from ∅ l.

Record VerifiedMaster := mkVerifiedMaster {
  vm_master : Master;
  vm_key_id : bytes;
  vm_signed_bytes : bytes;
  vm_signed_hash : bytes;
}.

(** [TrustedKeys::verify]. *)
Definition trusted_verify (keys : gmap bytes VerifyingKey) (b : bytes)
  : result RepositoryError VerifiedMaster :=
  if (MAX_MASTER_BYTES <? len b)%Z then
    Err (repo_error "encoded master exceeds the format limit")
  else
    cose <- map_err (fun e => repo_error ("invalid COSE_Sign1: " +:+ e))
                    (from_tagged_slice b) ;;
    validate_cose_headers cose ;;;
    let kid := key_id (protected cose) in
    key <- ok_or (keys !! kid)
                 (repo_authentication "master uses an untrusted COSE kid") ;;
    map_err (fun e => repo_authentication ("invalid master signature: " +:+ e))
            (verify_signature cose key) ;;;
    payload_ <- ok_or (payload cose) (repo_error "detached master payload is forbidden") ;;
    master <- decode_payload payload_ ;;
    canonical <- map_err
      (fun e => repo_error ("failed to check deterministic COSE encoding: " +:+ e))
      (to_tagged_vec {| protected := protected cose; original_data := None;
                        unprotected_empty := unprotected_empty cose;
                        payload := payload cose; signature := signature cose |}) ;;
    if bool_decide (canonical <> b) then
      Err (repo_error "master COSE object does not use deterministic CBOR")
    else Ok (mkVerifiedMaster master kid b (sha256 b)).
End Trusted.

(** ** A concrete instance of the third-party interfaces, for the witnesses *)

Module Toy.
Definition base : bytes := lit "https://repo.example/".

#[export] Instance url_api : UrlApi := {|
  Url := unit;
  url_parse t := if bytes_eqb t base then Ok tt else Err "relative URL without a base"%string;
  url_as_str _ := base;
  url_scheme _ := lit "https";
  url_cannot_be_a_base _ := false;
  url_username _ := [];
  url_password _ := None;
  url_query _ := None;
  url_fragment _ := None;
  url_path _ := lit "/";
|}.

#[export] Instance url_laws : UrlLaws.
Proof.
  split; [intros []; reflexivity|intros; apply wf_lit|intros; vm_compute; reflexivity].
Qed.

Definition h (z : Z) : bytes := repeat z 32.
Definition slot1 : Slot := mkSlot 3 (h 1) (h 2) (h 3) (h 4) (Some 1700000000%Z).
Definition slot2 : Slot := mkSlot 300 (h 5) (h 6) (h 7) (h 8) None.
Definition master : Master := mkMaster (Some (h 9)) tt [slot1; slot2].

Definition header : CoseHeader :=
  {| alg_is_eddsa := true; content_type := Some MASTER_CONTENT_TYPE; key_id := [7]%Z;
     crit_empty := true; iv := []; partial_iv := []; counter_signatures_empty := true;
     rest_empty := true |}.
Definition cose : CoseSign1 :=
  {| protected := header; original_data := Some [1]%Z; unprotected_empty := true;
     payload := Some (encode_payload master); signature := repeat 5%Z 64 |}.

(** The signed object is spelled by its payload; one key verifies. *)
#[export] Instance cose_api : CoseApi := {|
  VerifyingKey := bool;
  from_tagged_slice b :=
    if bytes_eqb b (encode_payload master) then Ok cose else Err "bad"%string;
  to_tagged_vec c := ok_or (payload c) "no payload"%string;
  verify_signature _ key := if key then Ok tt else Err "signature mismatch"%string;
|}.

Lemma wf_h z : is_u8 z -> wf_hash (h z).
Proof.
  intros Hz. split; [|reflexivity]. apply Forall_forall. intros x Hx.
  apply list_elem_of_In, repeat_spec in Hx as ->. exact Hz.
Qed.

Lemma wf_toy : wf_master master.
Proof.
  split.
  - apply Forall_cons_2; [|apply Forall_cons_2; [|apply Forall_nil_2]]; split; cbn;
      try (apply wf_h; unfold is_u8; lia); try (unfold is_u64; lia);
      intros v E; inversion E; unfold is_u64; lia.
  - intros x E. injection E as <-. apply wf_h. unfold is_u8. lia.
  - vm_compute. split; discriminate || reflexivity.
  - vm_compute. split; discriminate || reflexivity.
Qed.

Lemma url_wf : wf_bytes (encode_payload master).
Proof. apply wf_bytesb_spec. vm_compute. reflexivity. Qed.
End Toy.

#[local] Existing Instance Toy.url_api.
#[local] Existing Instance Toy.url_laws.
#[local] Existing Instance Toy.cose_api.
#[local] Existing Instance ToySha.sha256_api.

(** Round trip of the master payload: for every master that passes
    validation and whose payload respects the 4 MiB limit, decoding its
    deterministic encoding returns that master -- in particular neither the
    slot-count bound nor the shortest-form checks reject an honest payload. *)
Theorem master_payload_roundtrip `{UrlLaws} (m : Master) :
  wf_master m -> validate m = Ok tt ->
  (len (encode_payload m) <= MAX_MASTER_BYTES)%Z ->
  decode_payload (encode_payload m) = Ok m.
Proof. apply decode_payload_complete. Qed.

Lemma master_payload_roundtrip_witness :
  decode_payload (encode_payload Toy.master) = Ok Toy.master.
Proof.
  apply (master_payload_roundtrip Toy.master Toy.wf_toy);
    [vm_compute; reflexivity|vm_compute; discriminate].
Defined.

(** The payload decoder is strict: accepted bytes are the encoding of the
    returned master (up to the spelling of the data-base URL, which only has to
    parse to the recorded URL), with sorted keys, shortest integers and no
    trailing byte, and the returned master passed validation. *)
Theorem master_payload_canonical `{UrlApi} (b : bytes) (m : Master) :
  wf_bytes b -> decode_payload b = Ok m ->
  validate m = Ok tt /\ Forall wf_slot (slots m) /\
  (forall h, previous_master_hash m = Some h -> wf_hash h) /\
  exists text, url_parse text = Ok (data_base_url m) /\ b = payload_bytes m text.
Proof. apply decode_payload_sound. Qed.

Lemma master_payload_canonical_witness :
  exists text, url_parse text = Ok tt /\ encode_payload Toy.master = payload_bytes Toy.master text.
Proof.
  destruct (master_payload_canonical (encode_payload Toy.master) Toy.master Toy.url_wf) as (_ & _ & _ & t & E & E').
  - vm_compute. reflexivity.
  - exists t. split; [exact E|exact E'].
Defined.

(** Every decoded master has an active slot: the [expect] of
    [Master::active_slot] cannot fail, and the slot it returns is a current
    one with the largest serial among the current slots. *)
Theorem master_active_slot `{UrlApi} (b : bytes) (m : Master) :
  wf_bytes b -> decode_payload b = Ok m ->
  exists s, active_slot m = Some s /\ s ∈ slots m /\ retain_until s = None /\
    forall s', s' ∈ slots m -> retain_until s' = None -> (serial s' <= serial s)%Z.
Proof.
  intros Hwf D. destruct (decode_payload_sound b m Hwf D) as (V & _).
  apply validate_iff in V as (_ & Hs & Hc).
  destruct (active_of_sorted _ Hs Hc) as (s & Ha & Hin & Hcs & Hmax).
  exists s. unfold is_current in *. bools. split; [exact Ha|]. split; [assumption|].
  split; [assumption|]. intros s' Hs' Hc'. apply Hmax; [assumption|].
  by apply bool_decide_eq_true_2.
Qed.

Lemma master_active_slot_witness : active_slot Toy.master = Some Toy.slot2.
Proof.
  destruct (master_active_slot (encode_payload Toy.master) Toy.master Toy.url_wf)
    as (s & E & _).
  - vm_compute. reflexivity.
  - rewrite E. vm_compute in E. exact (eq_sym E).
Defined.

(** [TrustedKeys::new] accepts exactly the key lists with distinct
    non-empty identifiers, and then pins every listed key under its own
    identifier and nothing else. *)
Theorem trusted_new_spec `{CoseApi} (l : list (bytes * VerifyingKey)) :
  match trusted_new l with
  | Ok keys => NoDup l.*1 /\ ([] ∉ l.*1) /\ keys = list_to_map l
  | Err _ => ~ (NoDup l.*1 /\ ([] ∉ l.*1))
  end.
Proof.
  enough (G : forall l acc,
    match trusted_new_from acc l with
    | Ok keys => NoDup l.*1 /\ ([] ∉ l.*1) /\ (forall k, k ∈ l.*1 -> acc !! k = None) /\
                 keys = list_to_map l ∪ acc
    | Err _ => ~ (NoDup l.*1 /\ ([] ∉ l.*1) /\ (forall k, k ∈ l.*1 -> acc !! k = None))
    end).
  { specialize (G l ∅). unfold trusted_new. destruct (trusted_new_from ∅ l).
    - destruct G as (? & ? & _ & ->). by rewrite map_union_empty.
    - intros [? ?]. apply G. split; [assumption|]. split; [assumption|]. done. }
  clear l. induction l as [|[kid key] l IH]; intros acc; cbn [trusted_new_from].
  { split; [constructor|]. split; [set_solver|]. split; [set_solver|].
    simpl. by rewrite map_empty_union. }
  unfold trusted_insert. destruct (decide (kid = [])) as [->|Hk].
  { rewrite bool_decide_eq_true_2 by done. simpl. set_solver. }
  rewrite bool_decide_eq_false_2 by done. case_bool_decide as Hs.
  { intros (_ & _ & Hf). destruct Hs as [x Hx]. simpl in Hf. rewrite Hf in Hx by set_solver.
    discriminate. }
  apply eq_None_not_Some in Hs. specialize (IH (<[kid := key]> acc)).
  destruct (trusted_new_from _ l); simpl.
  - destruct IH as (Hnd & Hne & Hf & ->).
    assert (kid ∉ l.*1) by (intros Hin; specialize (Hf _ Hin); by rewrite lookup_insert_eq in Hf).
    split; [by constructor|]. split; [set_solver|]. split.
    + intros k [-> | Hin]%elem_of_cons; [assumption|]. specialize (Hf _ Hin).
      rewrite lookup_insert_ne in Hf; [assumption|set_solver].
    + rewrite <- insert_union_l, insert_union_r; [reflexivity|].
      by apply not_elem_of_list_to_map_1.
  - intros (Hnd & Hne & Hf). apply IH. inversion_clear Hnd. split; [assumption|].
    split; [set_solver|]. intros k Hin. rewrite lookup_insert_ne; [set_solver|].
    intros ->. contradiction.
Qed.

(** *** What is accepted *)

(** The header that a master must have: EdDSA, the content type of masters and a key
    identifier, and nothing else. *)
Definition master_header (kid : bytes) : CoseHeader :=
  {| alg_is_eddsa := true; content_type := Some (lit "application/vnd.bobr.repository-master+cbor");
     key_id := kid; crit_empty := true; iv := []; partial_iv := []; counter_signatures_empty := true;
     rest_empty := true |}.

(** The object that stands for a master: with this header protected, no other header, the
    payload in place and an Ed25519 signature. *)
Definition master_object (kid p sig : bytes) (original : option bytes) : CoseSign1 :=
  {| protected := master_header kid; original_data := original; unprotected_empty := true;
     payload := Some p; signature := sig |}.

Lemma validate_cose_headers_iff c :
  validate_cose_headers c = Ok tt <->
  exists kid p sig original, c = master_object kid p sig original /\ kid <> [] /\ length sig = 64%nat.
Proof.
  destruct c as [[alg ct kid crit iv0 piv counter rest] original unprot p sig].
  unfold validate_cose_headers, master_object, master_header. cbn. split.
  - intros V. repeat (case_match; [done|]). bools. destruct p as [p|]; [|done].
    exists kid, p, sig, original. split; [|done].
    by subst.
  - intros (kid' & p' & sig' & original' & [= -> -> -> -> -> -> -> -> -> -> -> ->] & Hk & Hl).
    rewrite Hl, (bool_decide_eq_false_2 (kid' = [])), (bool_decide_eq_false_2 (Some p' = None)) by done.
    by rewrite (bool_decide_eq_true_2 (Some _ = Some _)), !(bool_decide_eq_true_2 ([] = [])).
Qed.

Lemma trusted_keys_pinned `{CoseApi} l keys kid key :
  trusted_new l = Ok keys -> keys !! kid = Some key <-> (kid, key) ∈ l.
Proof.
  intros E. pose proof (trusted_new_spec l) as Hl. rewrite E in Hl. destruct Hl as (Hnd & _ & ->).
  symmetry. by apply elem_of_list_to_map.
Qed.

(** C34. Authentication, exactly: with the keys that a configuration lists, a document is
    accepted as a master if and only if it has at most 4 MiB, is the canonical encoding of
    a COSE object with just the headers of a master, a payload and 64 bytes of signature,
    the signature verifies under the one key listed with the identifier in the header,
    and the payload decodes to the master that is returned, along with that identifier,
    the document and its digest.  And that payload is then the one encoding of the
    master: its slots have growing serials, one of them is current, and its data lie
    below an HTTPS URL. *)
Theorem verify_authenticates `{UrlApi, CoseApi, Sha256Api} listed keys (b : bytes) vm :
  trusted_new listed = Ok keys ->
  let accepted kid key p sig original :=
    from_tagged_slice b = Ok (master_object kid p sig original) /\
    to_tagged_vec (master_object kid p sig None) = Ok b /\
    kid <> [] /\ length sig = 64%nat /\ (kid, key) ∈ listed /\
    verify_signature (master_object kid p sig original) key = Ok tt /\
    decode_payload p = Ok (vm_master vm) /\
    vm = mkVerifiedMaster (vm_master vm) kid b (sha256 b) in
  (trusted_verify keys b = Ok vm <->
     (len b <= 4 * 1024 * 1024)%Z /\ exists kid key p sig original, accepted kid key p sig original) /\
  (forall kid key p sig original, accepted kid key p sig original -> wf_bytes p ->
     (forall key', (kid, key') ∈ listed -> key' = key) /\
     StronglySorted serial_lt (slots (vm_master vm)) /\
     (exists s, s ∈ slots (vm_master vm) /\ retain_until s = None) /\
     validate_data_base_url (data_base_url (vm_master vm)) = Ok tt /\
     exists text, url_parse text = Ok (data_base_url (vm_master vm)) /\ p = payload_bytes (vm_master vm) text).
Proof.
  intros Hl accepted. split; [split|].
  - intros V. unfold trusted_verify in V. inv_res. bools.
    match goal with G : ~ (_ <> _) |- _ => apply dec_stable in G as -> end.
    repeat match goal with u : unit |- _ => destruct u end.
    match goal with G : validate_cose_headers _ = _ |- _ =>
      apply validate_cose_headers_iff in G as (kid & p & sig & original & -> & Hk & Hs) end.
    cbn in *. simplify_eq. split; [unfold MAX_MASTER_BYTES in *; lia|].
    do 5 eexists. repeat (split; [eassumption|]).
    split; [by eapply trusted_keys_pinned|]. by repeat (split; [eassumption|]).
  - intros (Hb & kid & key & p & sig & original & Hf & Ht & Hk & Hs & Hin & Hv & Hd & ->).
    unfold trusted_verify. rewrite (proj2 (Z.ltb_ge _ _)) by (unfold MAX_MASTER_BYTES; lia). rewrite Hf.
    cbn -[validate_cose_headers]. rewrite (proj2 (validate_cose_headers_iff _)) by (by eexists _, _, _, _). cbn.
    rewrite (proj2 (trusted_keys_pinned _ _ _ _ Hl) Hin). cbn. rewrite Hv. cbn. rewrite Hd. cbn.
    unfold master_object in Ht. rewrite Ht. cbn. rewrite bool_decide_eq_false_2 by tauto. done.
  - intros kid key p sig original (_ & _ & _ & _ & Hin & _ & Hd & _) Hwf. split.
    + intros key' Hin'. apply (trusted_keys_pinned _ _ _ _ Hl) in Hin, Hin'. congruence.
    + destruct (decode_payload_sound _ _ Hwf Hd) as (V & _ & _ & Ht). apply validate_iff in V as (Hu & Hsort & Hc).
      split_and!; try done. apply existsb_exists in Hc as (s & Hs & Hc).
      exists s. split; [by apply list_elem_of_In|]. unfold is_current in Hc. by bools.
Qed.

Lemma verify_authenticates_witness :
  exists p, p = encode_payload Toy.master /\ StronglySorted serial_lt (slots Toy.master).
Proof.
  pose (vm := mkVerifiedMaster Toy.master [7]%Z (encode_payload Toy.master)
                (@sha256 ToySha.sha256_api (encode_payload Toy.master))).
  destruct (verify_authenticates ([([7]%Z, true)] : list (bytes * @VerifyingKey Toy.cose_api)) ({[ [7]%Z := true ]} : gmap bytes (@VerifyingKey Toy.cose_api))
    (encode_payload Toy.master) vm) as [Hiff Hacc]; [vm_compute; reflexivity|].
  assert (Hv : trusted_verify ({[ [7]%Z := true ]} : gmap bytes (@VerifyingKey Toy.cose_api))
                 (encode_payload Toy.master) = Ok vm) by (vm_compute; reflexivity).
  apply Hiff in Hv as (_ & kid & key & p & sig & original & Ha).
  assert (p = encode_payload Toy.master) as ->.
  { destruct Ha as (Hf & _). vm_compute in Hf. vm_compute. congruence. }
  exists (encode_payload Toy.master). split; [reflexivity|].
  exact (proj1 (proj2 (Hacc kid key _ sig original Ha Toy.url_wf))).
Defined.
