(* ===== verification/Index.v ===== *)
(** * Fixed-width mapping indexes and content lists

    [bobr-repo/src/index.rs].  A mapping index is a sorted sequence of
    64-byte records (32-byte key, 32-byte object hash); a content list is a
    strictly increasing sequence of 32-byte hashes.  Both are searched with
    one binary search, [lower_bound]. *)

From S2P Require Import Prelude Errors Hash.

Definition MAX_METADATA_BYTES : u64 := 1024 * 1024 * 1024.

Definition check_metadata_size (size : usize) : result RepositoryError unit :=
  if (MAX_METADATA_BYTES <? size)%Z then
    Err (repo_error ("immutable metadata exceeds the format limit of "
                     +:+ pretty MAX_METADATA_BYTES +:+ " bytes"))
  else Ok tt.

(** [impl From<std::io::Error> for RepositoryError]. *)
Definition from_io_error (e : string) : RepositoryError :=
  repo_local_io ("I/O error: " +:+ e).

(** [check_metadata_size_before_read]; [meta] is the outcome of
    [std::fs::metadata(path)?.len()]. *)
Definition check_metadata_size_before_read (meta : result string u64)
  : result RepositoryError unit :=
  size <- map_err from_io_error meta ;;
  if (MAX_METADATA_BYTES <? size)%Z then
    Err (repo_error ("immutable metadata exceeds the format limit of "
                     +:+ pretty MAX_METADATA_BYTES +:+ " bytes"))
  else Ok tt.

(** [lower_bound]: the loop state is [(base, len)]; [compare] is called on
    [base + len / 2].  [len] strictly decreases, so [len] iterations suffice. *)
Fixpoint lower_bound_loop (fuel base len : nat) (compare : nat -> comparison) : nat :=
  match fuel with
  | O => base
  | S fuel' =>
      if (0 <? len)%nat then
        let half := (len / 2)%nat in
        let middle := (base + half)%nat in
        match compare middle with
        | Lt => lower_bound_loop fuel' (middle + 1) (len - (half + 1)) compare
        | _ => lower_bound_loop fuel' base half compare
        end
      else base
  end.
Definition lower_bound (len : nat) (compare : nat -> comparison) : nat :=
  lower_bound_loop len 0 len compare.

Module MappingIndex.
(** The loop of [MappingIndex::from_bytes]; the state is the previous key
    and the set of hashes already seen for it. *)
Definition check_record (st : option bytes * gset bytes) (record : bytes)
  : result RepositoryError (option bytes * gset bytes) :=
  let '(previous_key, hashes_for_key) := st in
  let key := take 32 record in
  let hash := drop 32 record in
  hashes_for_key <-
    match previous_key with
    | Some previous =>
        if lex_ltb key previous then
          Err (repo_error "mapping index keys are not in nondecreasing order")
        else if negb (bytes_eqb key previous) then Ok ∅
        else Ok hashes_for_key
    | None => Ok hashes_for_key
    end ;;
  if bool_decide (hash ∈ hashes_for_key) then
    Err (repo_error "mapping index contains a duplicate key/object pair")
  else Ok (Some key, {[hash]} ∪ hashes_for_key).

Definition from_bytes (b : bytes) : result RepositoryError bytes :=
  check_metadata_size (len b) ;;;
  if negb (length b mod 64 =? 0)%nat then
    Err (repo_error "mapping index size is not divisible by 64")
  else
    try_fold check_record (None, ∅) (chunks_exact 64 b) ;;;
    Ok b.

(** [MappingIndex::open]: [read] is the outcome of [std::fs::read(path)]. *)
Definition open `{Sha256Api} (path : bytes) (meta : result string u64)
    (read : result string bytes) (expected : bytes) : result RepositoryError bytes :=
  check_metadata_size_before_read meta ;;;
  b <- map_err from_io_error read ;;
  if negb (bytes_eqb (sha256 b) expected) then
    Err (repo_error ("metadata hash mismatch while opening '" +:+ show path +:+ "'"))
  else from_bytes b.

Definition encode (records : list (bytes * bytes)) : result RepositoryError bytes :=
  let b := concat (map (fun '(key, hash) => key ++ hash) records) in
  from_bytes b ;;; Ok b.

(** The [for record in ... { break }] loop of [candidates]. *)
Fixpoint candidates_loop (key : bytes) (acc : list bytes) (records : list bytes) : list bytes :=
  match records with
  | [] => acc
  | record :: rest =>
      if negb (bytes_eqb (take 32 record) key) then acc
      else
        let hash := drop 32 record in
        let acc := if bool_decide (hash ∈ acc) then acc else acc ++ [hash] in
        candidates_loop key acc rest
  end.

Definition candidates (b : bytes) (key : bytes) : list bytes :=
  let records := (length b / 64)%nat in
  let start := lower_bound records
    (fun index => lex_cmp (slice b (index * 64) (index * 64 + 32)) key) in
  candidates_loop key [] (chunks_exact 64 (drop (start * 64) b)).

Definition records (b : bytes) : list (bytes * bytes) :=
  map (fun record => (take 32 record, drop 32 record)) (chunks_exact 64 b).
End MappingIndex.

Module ContentList.
Definition check_hash (previous : option bytes) (current : bytes)
  : result RepositoryError (option bytes) :=
  if (match previous with Some p => lex_leb current p | None => false end) then
    Err (repo_error "content list hashes are not strictly increasing")
  else Ok (Some current).

Definition from_bytes (b : bytes) : result RepositoryError bytes :=
  check_metadata_size (len b) ;;;
  if negb (length b mod 32 =? 0)%nat then
    Err (repo_error "content list size is not divisible by 32")
  else
    try_fold check_hash None (chunks_exact 32 b) ;;;
    Ok b.

Definition open `{Sha256Api} (path : bytes) (meta : result string u64)
    (read : result string bytes) (expected : bytes) : result RepositoryError bytes :=
  check_metadata_size_before_read meta ;;;
  b <- map_err from_io_error read ;;
  if negb (bytes_eqb (sha256 b) expected) then
    Err (repo_error ("metadata hash mismatch while opening '" +:+ show path +:+ "'"))
  else from_bytes b.

(** [Vec::dedup]: consecutive equal elements. *)
Fixpoint dedup (l : list bytes) : list bytes :=
  match l with
  | [] => []
  | x :: l' =>
      match l' with
      | [] => [x]
      | y :: _ => if bytes_eqb x y then dedup l' else x :: dedup l'
      end
  end.

Definition encode (hashes : list bytes) : bytes :=
  concat (dedup (sort_by id hashes)).

Definition contains (b : bytes) (hash : bytes) : bool :=
  let records := (length b / 32)%nat in
  let index := lower_bound records
    (fun index => lex_cmp (slice b (index * 32) (index * 32 + 32)) hash) in
  (index <? records)%nat
  && bytes_eqb (slice b (index * 32) (index * 32 + 32)) hash.

Definition iter (b : bytes) : list bytes := chunks_exact 32 b.
End ContentList.

(** ** Binary search *)

Section LowerBound.
Context (compare : nat -> comparison) (total : nat).
(** The probed sequence is partitioned: "less" entries come first. *)
Hypothesis mono : forall i j, (i <= j)%nat -> (j < total)%nat ->
  compare j = Lt -> compare i = Lt.

Lemma lower_bound_loop_spec fuel base len :
  (len <= fuel)%nat -> (base + len <= total)%nat ->
  (forall i, (i < base)%nat -> compare i = Lt) ->
  (forall i, (base + len <= i)%nat -> (i < total)%nat -> compare i <> Lt) ->
  let r := lower_bound_loop fuel base len compare in
  (r <= total)%nat /\ (forall i, (i < r)%nat -> compare i = Lt) /\
  (forall i, (r <= i)%nat -> (i < total)%nat -> compare i <> Lt).
Proof.
  revert base len. induction fuel as [|fuel IH]; intros base len Hf Ht Hl Hg; cbn [lower_bound_loop]; cbv zeta.
  - replace len with 0%nat in * by lia. rewrite Nat.add_0_r in *. auto.
  - destruct (0 <? len)%nat eqn:E; bools.
    + assert (Hh : (len / 2 < len)%nat) by (apply Nat.div_lt; lia).
      destruct (compare (base + len / 2)) eqn:C.
      * apply IH; [lia|lia|assumption|]. intros i Hi Hi2 HC.
        rewrite (mono _ _ Hi Hi2 HC) in C. discriminate.
      * apply IH; [lia|lia| |].
        -- intros i Hi. apply mono with (base + len / 2)%nat; [lia|lia|assumption].
        -- intros i Hi. apply Hg. lia.
      * apply IH; [lia|lia|assumption|]. intros i Hi Hi2 HC.
        rewrite (mono _ _ Hi Hi2 HC) in C. discriminate.
    + replace len with 0%nat in * by lia. rewrite Nat.add_0_r in *. auto.
Qed.

Lemma lower_bound_spec :
  (lower_bound total compare <= total)%nat /\
  (forall i, (i < lower_bound total compare)%nat -> compare i = Lt) /\
  (forall i, (lower_bound total compare <= i)%nat -> (i < total)%nat -> compare i <> Lt).
Proof. apply lower_bound_loop_spec; lia. Qed.
End LowerBound.

(** ** Wire chunks *)

Lemma slice_concat n ps i p k :
  (0 < n)%nat -> all_len n ps -> ps !! i = Some p -> (k <= n)%nat ->
  slice (concat ps) (i * n) (i * n + k) = take k p.
Proof.
  intros Hn Hps Hi Hk. unfold slice. replace (i * n + k - i * n)%nat with k by lia.
  rewrite (drop_concat_all_len n Hn) by assumption.
  apply drop_S in Hi as Hd. rewrite Hd. simpl.
  rewrite take_app_le; [reflexivity|].
  unfold all_len in Hps. rewrite Forall_lookup in Hps. rewrite (Hps _ _ Hi). lia.
Qed.

Lemma check_metadata_size_ok n : check_metadata_size n = Ok tt <-> (n <= MAX_METADATA_BYTES)%Z.
Proof.
  unfold check_metadata_size. destruct (MAX_METADATA_BYTES <? n)%Z eqn:E; bools; split; intros; (lia || congruence).
Qed.

(** Ordered by a byte key, with the first element bounded from below. *)
Lemma sorted_lookup_le {A} (key : A -> bytes) l i j x y :
  StronglySorted (key_le key) l -> (i <= j)%nat -> l !! i = Some x -> l !! j = Some y ->
  lex_le (key x) (key y).
Proof.
  intros Hs. revert i j. induction Hs as [|z l Hs IH Hz]; intros i j Hij Hi Hj; [done|].
  destruct i as [|i], j as [|j]; simpl in *; simplify_eq; [apply lex_le_refl| |lia|].
  - rewrite Forall_forall in Hz. apply Hz. by eapply list_elem_of_lookup_2.
  - apply IH with i j; [lia|assumption|assumption].
Qed.

Lemma filter_none {A} (P : A -> Prop) `{!forall x, Decision (P x)} l :
  Forall (fun x => ~ P x) l -> filter P l = [].
Proof.
  induction 1 as [|x l Hx Hl IH]; [reflexivity|]. by rewrite filter_cons_False.
Qed.

Lemma map_drop' {A B} (f : A -> B) n l : drop n (map f l) = map f (drop n l).
Proof. revert n. induction l as [|x l IH]; intros [|n]; simpl; auto. Qed.

Lemma StronglySorted_drop' {A} (R : relation A) n l :
  StronglySorted R l -> StronglySorted R (drop n l).
Proof.
  intros H. revert n. induction H as [|x l Hl IH Hx]; intros [|n]; simpl; [constructor..| |apply IH].
  by constructor.
Qed.

Module MappingFacts.
Import MappingIndex.

(** What a mapping index promises of its records: keys in nondecreasing
    order and no repeated (key, object) pair. *)
Definition wf_records (rs : list (bytes * bytes)) : Prop :=
  StronglySorted (key_le fst) rs /\ NoDup rs.

Definition wide (r : bytes * bytes) : Prop := length r.1 = 32%nat /\ length r.2 = 32%nat.

Definition split_record (record : bytes) : bytes * bytes := (take 32 record, drop 32 record).
Definition join_record (r : bytes * bytes) : bytes := r.1 ++ r.2.

Lemma split_join r : wide r -> split_record (join_record r) = r.
Proof.
  destruct r as [k h]. intros [Hk Hh]. simpl in *. unfold split_record, join_record. simpl.
  by rewrite take_app_length', drop_app_length' by lia.
Qed.

Lemma join_all_len rs : Forall wide rs -> all_len 64 (map join_record rs).
Proof.
  intros H. apply Forall_fmap. eapply Forall_impl; [exact H|].
  intros [k h] [Hk Hh]. unfold join_record. simpl in *. rewrite length_app. lia.
Qed.

Lemma map_split_join rs : Forall wide rs -> map split_record (map join_record rs) = rs.
Proof.
  induction 1 as [|r rs Hr Hrs IH]; [reflexivity|]. cbn [map]. by rewrite IH, split_join.
Qed.

(** A state of the validation loop after some records: the next records
    must not precede [k] nor repeat a pair [(k, h)] with [h] in [seen]. *)
Definition admits (k : bytes) (seen : gset bytes) (rs : list (bytes * bytes)) : Prop :=
  wf_records rs /\ Forall (fun r => lex_le k r.1) rs /\ forall h, h ∈ seen -> (k, h) ∉ rs.

Lemma admits_same_key k h seen rs :
  h ∉ seen -> admits k seen ((k, h) :: rs) <-> admits k ({[h]} ∪ seen) rs.
Proof.
  intros Hh. unfold admits, wf_records. rewrite NoDup_cons, Forall_cons. split.
  - intros ((Hs & Hn & Hd) & (_ & Hf) & Hseen). inversion_clear Hs.
    repeat split; try assumption. intros h' Hh' Hin.
    apply elem_of_union in Hh' as [Heq|Hh'].
    + apply elem_of_singleton in Heq as ->. contradiction.
    + apply (Hseen _ Hh'). by right.
  - intros ((Hs & Hd) & Hf & Hseen). repeat split; try assumption.
    + by constructor.
    + apply Hseen. set_solver.
    + apply lex_le_refl.
    + intros h' Hh' [[= ->]|Hin]%elem_of_cons; [contradiction|].
      by apply (Hseen h'); [set_solver|].
Qed.

Lemma admits_next_key k k' h seen rs :
  lex_lt k k' -> admits k seen ((k', h) :: rs) <-> admits k' {[h]} rs.
Proof.
  intros Hk. unfold admits, wf_records. rewrite NoDup_cons, Forall_cons. split.
  - intros ((Hs & Hn & Hd) & (_ & Hf) & Hseen). inversion_clear Hs.
    repeat split; try assumption. intros h' ->%elem_of_singleton. assumption.
  - intros ((Hs & Hd) & Hf & Hseen). repeat split; try assumption.
    + by constructor.
    + apply Hseen. set_solver.
    + by apply lex_lt_le.
    + eapply Forall_impl; [exact Hf|]. intros r Hr. cbn beta in *. eauto with bobr.
    + intros h' _ [[= -> _]|Hin]%elem_of_cons; [by apply lex_lt_irrefl in Hk|].
      rewrite Forall_forall in Hf. apply Hf in Hin. simpl in Hin.
      by apply lex_le_not_lt in Hin.
Qed.

Lemma mapping_fold_ok ps k seen :
  is_ok (try_fold check_record (Some k, seen) ps) = true <->
  admits k seen (map split_record ps).
Proof.
  revert k seen. induction ps as [|p ps IH]; intros k seen.
  { split; [|reflexivity]. intros _. repeat constructor. set_solver. }
  cbn [try_fold map]. unfold check_record at 1. unfold split_record at 1.
  destruct (lex_ltb (take 32 p) k) eqn:El.
  { split; [discriminate|]. intros (_ & Hf & _). apply Forall_cons_1 in Hf as [Hf _].
    simpl in Hf. apply lex_ltb_lt in El. by apply lex_le_not_lt in Hf. }
  apply lex_ltb_ge in El. destruct (bytes_eqb (take 32 p) k) eqn:Ek; bools; simpl negb; cbn iota.
  - subst k. destruct (bool_decide (drop 32 p ∈ seen)) eqn:Eh; bools.
    + split; [discriminate|]. intros (_ & _ & H). destruct (H _ Eh). left.
    + by rewrite IH, admits_same_key.
  - rewrite bool_decide_false by set_solver. rewrite (right_id_L ∅ (∪)).
    rewrite IH, admits_next_key; [done|].
    apply lex_le_lt_or_eq in El as [|]; congruence.
Qed.

(** The validation loop accepts exactly the well-formed record sequences. *)
Lemma validation_ok ps :
  is_ok (try_fold check_record (None, ∅) ps) = true <-> wf_records (map split_record ps).
Proof.
  destruct ps as [|p ps]; [split; [|done]; intros _; split; constructor|].
  cbn [try_fold map]. unfold check_record at 1. unfold split_record at 1.
  rewrite bool_decide_false by set_solver. rewrite (right_id_L ∅ (∪)).
  rewrite mapping_fold_ok. unfold admits, wf_records. rewrite NoDup_cons. split.
  - intros ((Hs & Hd) & Hf & Hseen). repeat split; try assumption; [by constructor|].
    apply Hseen. set_solver.
  - intros (Hs & Hn & Hd). inversion_clear Hs. repeat split; try assumption.
    intros h ->%elem_of_singleton. assumption.
Qed.

Lemma mapping_from_bytes_ok b :
  from_bytes b = Ok b <->
  (len b <= MAX_METADATA_BYTES)%Z /\ (length b mod 64 = 0)%nat /\ wf_records (records b).
Proof.
  unfold from_bytes. pose proof (check_metadata_size_ok (len b)) as Hc.
  pose proof (validation_ok (chunks_exact 64 b)) as Hv. unfold records.
  change (fun record => (take 32 record, drop 32 record)) with split_record.
  destruct (check_metadata_size (len b)) as [[]|] eqn:E.
  2: { split; [discriminate|]. intros [H _]. apply Hc in H. discriminate. }
  destruct (length b mod 64 =? 0)%nat eqn:Em; bools; simpl negb; cbn iota.
  2: { split; [discriminate|]. tauto. }
  destruct (try_fold _ _ _) as [?|?] eqn:Ef; simpl in Hv.
  - split; [|done]. intros _. pose proof (proj1 Hc eq_refl). tauto.
  - split; [done|]. intros (_ & _ & H). apply Hv in H. discriminate.
Qed.

Lemma mapping_from_bytes_id b b' : from_bytes b = Ok b' -> b' = b.
Proof. unfold from_bytes. intros H. inv_res. reflexivity. Qed.

(** [candidates]'s scan from the lower bound. *)
Lemma candidates_loop_spec key acc ps :
  let rs := map split_record ps in
  StronglySorted (key_le fst) rs -> Forall (fun r => lex_le key r.1) rs ->
  NoDup (acc ++ map snd (filter (fun r => r.1 = key) rs)) ->
  candidates_loop key acc ps = acc ++ map snd (filter (fun r => r.1 = key) rs).
Proof.
  revert acc. induction ps as [|p ps IH]; intros acc; cbn [map candidates_loop].
  { intros. by rewrite app_nil_r. }
  intros Hs Hf Hn. inversion_clear Hs as [|? ? Hs' Hp]. apply Forall_cons_1 in Hf as [Hk Hf].
  cbn [split_record fst] in Hk, Hp.
  destruct (bytes_eqb (take 32 p) key) eqn:E; bools; simpl negb; cbn iota.
  - rewrite filter_cons_True in Hn |- * by done. cbn [map snd split_record] in Hn |- *.
    rewrite bool_decide_false.
    2: { intros Hin. rewrite NoDup_app in Hn. destruct Hn as (_ & Hx & _).
         apply (Hx _ Hin). left. }
    rewrite IH; [by rewrite <- app_assoc|assumption|assumption|by rewrite <- app_assoc].
  - rewrite filter_cons_False by done.
    assert (Hlt : lex_lt key (take 32 p)) by (apply lex_le_lt_or_eq in Hk as [|]; congruence).
    rewrite filter_none; [by rewrite app_nil_r|].
    eapply Forall_impl; [exact Hp|]. intros r Hr Heq. unfold key_le in Hr. cbn in Hr.
    rewrite Heq in Hr. by apply lex_le_not_lt in Hr.
Qed.

Lemma filter_snd_NoDup key rs :
  NoDup rs -> NoDup (map snd (filter (fun r : bytes * bytes => r.1 = key) rs)).
Proof.
  induction 1 as [|[k h] rs Hni Hd IH]; [constructor|].
  destruct (decide (k = key)) as [->|Hk].
  - rewrite filter_cons_True by done. cbn [map snd]. constructor; [|assumption].
    intros Hin. apply list_elem_of_fmap in Hin as ([k' h'] & -> & Hin).
    apply list_elem_of_filter in Hin as [Hk Hin]. simpl in *. by subst.
  - by rewrite filter_cons_False.
Qed.

(** The key probed by the binary search. *)
Lemma probe_key ps i :
  all_len 64 ps -> (i < length ps)%nat ->
  exists p, ps !! i = Some p /\
    slice (concat ps) (i * 64) (i * 64 + 32) = (split_record p).1.
Proof.
  intros Hps Hi. apply lookup_lt_is_Some_2 in Hi as [p Hp]. exists p. split; [assumption|].
  apply slice_concat; [lia|assumption..|lia].
Qed.

Lemma candidates_concat ps key :
  all_len 64 ps -> wf_records (map split_record ps) ->
  candidates (concat ps) key =
  map snd (filter (fun r => r.1 = key) (map split_record ps)).
Proof.
  intros Hps [Hs Hd]. unfold candidates.
  rewrite (length_concat_all_len 64) by (assumption || lia). rewrite Nat.div_mul by lia.
  match goal with |- context [lower_bound _ ?c] => set (cmp := c) end.
  destruct (lower_bound_spec cmp (length ps)) as (Hle & Hlt & Hge).
  { intros i j Hij Hj. unfold cmp.
    destruct (probe_key ps j Hps Hj) as (q & Hq & ->).
    destruct (probe_key ps i Hps) as (p & Hp & ->); [lia|]. intros Hc.
    eapply lex_le_lt_trans; [|exact Hc].
    eapply (sorted_lookup_le fst _ i j); [exact Hs|lia|..]; by rewrite list_lookup_fmap, ?Hp, ?Hq. }
  set (s := lower_bound (length ps) cmp) in *.
  rewrite (drop_concat_all_len 64) by (assumption || lia).
  rewrite (chunks_exact_concat 64); [|lia|by apply all_len_drop].
  rewrite candidates_loop_spec.
  - simpl app. rewrite <- (take_drop s ps) at 2. rewrite map_app, filter_app.
    rewrite (filter_none _ (map split_record (take s ps))); [reflexivity|].
    rewrite Forall_lookup. intros i r Hi. rewrite list_lookup_fmap, fmap_Some in Hi.
    destruct Hi as (p & Hp & ->). apply lookup_take_Some in Hp as [Hp Hi].
    specialize (Hlt i Hi). unfold cmp in Hlt.
    destruct (probe_key ps i Hps) as (q & Hq & Eq); [by eapply lookup_lt_Some|].
    rewrite Eq in Hlt. rewrite Hp in Hq. injection Hq as <-. intros E.
    rewrite E in Hlt. by apply lex_lt_irrefl in Hlt.
  - rewrite <- map_drop'. by apply StronglySorted_drop'.
  - rewrite Forall_lookup. intros i r Hi. rewrite list_lookup_fmap, fmap_Some in Hi.
    destruct Hi as (p & Hp & ->). rewrite lookup_drop in Hp.
    assert (Hi : (s + i < length ps)%nat) by (by eapply lookup_lt_Some).
    specialize (Hge (s + i)%nat ltac:(lia) Hi). unfold cmp in Hge.
    destruct (probe_key ps (s + i) Hps Hi) as (q & Hq & Eq).
    rewrite Eq in Hge. rewrite Hp in Hq. injection Hq as <-. by apply lex_le_not_lt.
  - rewrite app_nil_l, <- map_drop'. apply filter_snd_NoDup.
    rewrite <- (take_drop s (map split_record ps)) in Hd. by apply NoDup_app in Hd as (_ & _ & ?).
Qed.

(** The binary search of [MappingIndex::candidates] is a linear scan:
    for every index that validation accepts and every key, the candidates
    are exactly the object hashes recorded under that key, all of them, in
    wire order. *)
Theorem mapping_candidates_scan b key :
  from_bytes b = Ok b ->
  candidates b key = map snd (filter (fun r => r.1 = key) (records b)).
Proof.
  intros (_ & Hm & Hw)%mapping_from_bytes_ok.
  destruct (multiple_is_concat 64 ltac:(lia) b Hm) as (ps & Hps & ->).
  unfold records in *. rewrite (chunks_exact_concat 64) in * by (assumption || lia).
  by apply candidates_concat.
Qed.

(** [MappingIndex::encode] accepts exactly the record lists with keys in
    nondecreasing order, no repeated pair and at most the format's size
    limit; [records] then reads the list back unchanged. *)
Theorem mapping_encode_roundtrip rs b :
  Forall wide rs ->
  encode rs = Ok b <->
  b = concat (map join_record rs) /\ records b = rs /\ wf_records rs
  /\ (64 * len rs <= MAX_METADATA_BYTES)%Z.
Proof.
  intros Hw. pose proof (join_all_len rs Hw) as Hl. unfold encode.
  replace (concat (map (fun '(key, hash) => key ++ hash) rs)) with (concat (map join_record rs))
    by (f_equal; apply map_ext; by intros [? ?]).
  assert (Hr : records (concat (map join_record rs)) = rs).
  { unfold records. rewrite (chunks_exact_concat 64) by (assumption || lia). by apply map_split_join. }
  pose proof (mapping_from_bytes_ok (concat (map join_record rs))) as Hok. rewrite Hr in Hok.
  unfold len in Hok at 1. rewrite (length_concat_all_len 64), length_map in Hok by (assumption || lia).
  rewrite Nat.Div0.mod_mul in Hok. unfold len.
  destruct (from_bytes (concat (map join_record rs))) as [b'|e] eqn:E.
  - apply mapping_from_bytes_id in E as ->. pose proof (proj1 Hok eq_refl) as (Hz & _ & Hwf).
    split; [intros H; inv_res|intros (-> & _); reflexivity]. repeat split; try assumption; try lia; apply Hwf.
  - split; [discriminate|]. intros (_ & _ & Hwf & Hz).
    discriminate (proj2 Hok). repeat split; [lia|apply Hwf..].
Qed.
End MappingFacts.

Module ContentFacts.
Import ContentList.

Abbreviation increasing := (StronglySorted (key_lt (@id bytes))).

Lemma content_fold_ok ps prev :
  is_ok (try_fold check_hash prev ps) = true <->
  increasing ps /\ match prev with Some p => Forall (lex_lt p) ps | None => True end.
Proof.
  revert prev. induction ps as [|h ps IH]; intros prev.
  { split; [|done]. intros _. split; [constructor|]. by destruct prev. }
  cbn [try_fold]. unfold check_hash at 1.
  destruct (match prev with Some p => lex_leb h p | None => false end) eqn:E.
  - destruct prev as [p|]; [|discriminate]. split; [discriminate|]. intros [_ Hf].
    apply Forall_cons_1 in Hf as [Hf _]. apply lex_leb_le in E. by apply lex_le_not_lt in E.
  - rewrite IH. split.
    + intros [Hs Hf]. split; [by constructor|]. destruct prev as [p|]; [|done].
      apply lex_leb_gt in E. constructor; [assumption|].
      eapply Forall_impl; [exact Hf|]. intros x Hx. cbn beta in *. eauto with bobr.
    + intros [Hs Hf]. by inversion_clear Hs.
Qed.

Lemma content_from_bytes_ok b :
  from_bytes b = Ok b <->
  (len b <= MAX_METADATA_BYTES)%Z /\ (length b mod 32 = 0)%nat /\ increasing (iter b).
Proof.
  unfold from_bytes. pose proof (check_metadata_size_ok (len b)) as Hc.
  pose proof (content_fold_ok (chunks_exact 32 b) None) as Hv. unfold iter.
  destruct (check_metadata_size (len b)) as [[]|] eqn:E.
  2: { split; [discriminate|]. intros [H _]. apply Hc in H. discriminate. }
  pose proof (proj1 Hc eq_refl).
  destruct (length b mod 32 =? 0)%nat eqn:Em; bools; simpl negb; cbn iota.
  2: { split; [discriminate|]. tauto. }
  destruct (try_fold _ _ _) as [?|?] eqn:Ef; simpl in Hv.
  - tauto.
  - split; [done|]. intros (_ & _ & Hi). discriminate (proj2 Hv). tauto.
Qed.

Lemma contains_concat ps h :
  all_len 32 ps -> increasing ps -> contains (concat ps) h = true <-> h ∈ ps.
Proof.
  intros Hps Hs. unfold contains.
  rewrite (length_concat_all_len 32), Nat.div_mul by (assumption || lia).
  match goal with |- context [lower_bound _ ?c] => set (cmp := c) end.
  assert (Hcmp : forall i p, ps !! i = Some p -> slice (concat ps) (i * 32) (i * 32 + 32) = p).
  { intros i p Hp. rewrite (slice_concat 32 ps i p) by (assumption || lia).
    apply take_ge. unfold all_len in Hps. rewrite Forall_lookup in Hps. by rewrite (Hps _ _ Hp). }
  assert (Hmono : StronglySorted (key_le (@id bytes)) ps) by (by apply strongly_sorted_key_le).
  destruct (lower_bound_spec cmp (length ps)) as (Hle & Hlt & Hge).
  { intros i j Hij Hj. unfold cmp.
    destruct (lookup_lt_is_Some_2 ps j Hj) as [q Hq].
    destruct (lookup_lt_is_Some_2 ps i ltac:(lia)) as [p Hp].
    rewrite (Hcmp _ _ Hp), (Hcmp _ _ Hq). intros Hc.
    eapply lex_le_lt_trans; [|exact Hc]. by apply (sorted_lookup_le id ps i j). }
  set (s := lower_bound (length ps) cmp) in *. rewrite andb_true_iff, Nat.ltb_lt. split.
  - intros [Hi He]. destruct (lookup_lt_is_Some_2 ps s Hi) as [p Hp].
    rewrite (Hcmp _ _ Hp) in He. bools. subst. by eapply list_elem_of_lookup_2.
  - intros [i Hi]%list_elem_of_lookup. pose proof (lookup_lt_Some _ _ _ Hi) as Hil.
    assert (Hsi : (s <= i)%nat).
    { destruct (decide (s <= i)%nat); [assumption|]. specialize (Hlt i ltac:(lia)).
      unfold cmp in Hlt. rewrite (Hcmp _ _ Hi), lex_cmp_refl in Hlt. discriminate. }
    split; [lia|]. destruct (lookup_lt_is_Some_2 ps s ltac:(lia)) as [p Hp].
    specialize (Hge s ltac:(lia) ltac:(lia)). unfold cmp in Hge.
    rewrite (Hcmp _ _ Hp) in Hge |- *. apply bool_decide_eq_true_2.
    apply lex_le_antisym; [by apply (sorted_lookup_le id ps s i)|by apply lex_le_not_lt].
Qed.

Lemma dedup_elem l x : x ∈ dedup l <-> x ∈ l.
Proof.
  induction l as [|y [|z l] IH]; [done..|]. cbn [dedup] in *.
  destruct (bytes_eqb y z) eqn:E; bools; [subst|]; rewrite ?elem_of_cons, IH, ?elem_of_cons; tauto.
Qed.

Lemma dedup_increasing l : StronglySorted (key_le (@id bytes)) l -> increasing (dedup l).
Proof.
  induction 1 as [|y l Hl IH Hy]; [constructor|]. destruct l as [|z l]; [repeat constructor|].
  change (increasing (if bytes_eqb y z then dedup (z :: l) else y :: dedup (z :: l))).
  destruct (bytes_eqb y z) eqn:E; bools; [assumption|]. constructor; [assumption|].
  rewrite Forall_forall. intros x Hx%(proj1 (dedup_elem _ _)).
  apply Forall_cons_1 in Hy as [Hyz _]. inversion_clear Hl as [|? ? _ Hz].
  assert (lex_lt y z) by (apply lex_le_lt_or_eq in Hyz as [|]; [assumption|]; congruence).
  apply elem_of_cons in Hx as [->|Hx]; [assumption|].
  rewrite Forall_forall in Hz. eapply lex_lt_le_trans; [eassumption|]. by apply Hz.
Qed.

Lemma length_dedup l : (length (dedup l) <= length l)%nat.
Proof.
  induction l as [|y [|z l] IH]; [done..|].
  change (dedup (y :: z :: l)) with (if bytes_eqb y z then dedup (z :: l) else y :: dedup (z :: l)).
  destruct (bytes_eqb y z); simpl length in *; lia.
Qed.

Lemma increasing_NoDup l : increasing l -> NoDup l.
Proof. intros H%sorted_lt_NoDup. by rewrite map_id in H. Qed.

(** [ContentList::contains] decides membership: on a list that validation
    accepts, the binary search answers [true] exactly for the listed hashes. *)
Theorem content_contains_mem b h :
  from_bytes b = Ok b -> contains b h = true <-> h ∈ iter b.
Proof.
  intros (_ & Hm & Hi)%content_from_bytes_ok.
  destruct (multiple_is_concat 32 ltac:(lia) b Hm) as (ps & Hps & ->).
  unfold iter in *. rewrite (chunks_exact_concat 32) in * by (assumption || lia).
  by apply contains_concat.
Qed.

Lemma encode_chunks hs :
  Forall (fun h => length h = 32%nat) hs -> all_len 32 (dedup (sort_by id hs)).
Proof.
  rewrite !Forall_forall. intros Hw. unfold all_len. rewrite Forall_forall.
  intros h Hh%(proj1 (dedup_elem _ _)). apply Hw. by rewrite sort_by_perm in Hh.
Qed.

(** [ContentList::encode] canonically represents a finite set of hashes:
    any list of 32-byte hashes within the size limit encodes to bytes that
    validation accepts, whose entries strictly increase and are exactly the
    given hashes, and two lists with the same elements encode identically. *)
Theorem content_encode_set hs hs' :
  Forall (fun h => length h = 32%nat) hs -> (32 * len hs <= MAX_METADATA_BYTES)%Z ->
  (forall h, h ∈ hs <-> h ∈ hs') ->
  from_bytes (encode hs) = Ok (encode hs) /\
  (forall h, contains (encode hs) h = true <-> h ∈ hs) /\
  encode hs = encode hs'.
Proof.
  intros Hw Hz Heq. pose proof (encode_chunks hs Hw) as Hl.
  pose proof (dedup_increasing _ (sort_by_sorted id hs)) as Hi.
  assert (Hit : iter (encode hs) = dedup (sort_by id hs)).
  { unfold iter, encode. by rewrite (chunks_exact_concat 32) by (assumption || lia). }
  pose proof (length_concat_all_len 32 ltac:(lia) _ Hl) as Hc.
  assert (Hlen : (length (dedup (sort_by id hs)) <= length hs)%nat).
  { rewrite length_dedup. by rewrite (sort_by_perm id hs). }
  split; [|split].
  - apply content_from_bytes_ok. rewrite Hit. unfold encode, len in *. rewrite Hc.
    repeat split; [lia|apply Nat.Div0.mod_mul|assumption].
  - intros h. unfold encode. rewrite contains_concat, dedup_elem by assumption.
    by rewrite sort_by_perm.
  - unfold encode. f_equal. apply sorted_perm_unique with (key := id); [assumption| |].
    + apply dedup_increasing, sort_by_sorted.
    + apply NoDup_Permutation; [apply increasing_NoDup, dedup_increasing, sort_by_sorted..|].
      intros h. rewrite !dedup_elem, !sort_by_perm. apply Heq.
Qed.
End ContentFacts.

(** ** Concrete indexes *)

Module IndexExamples.
(** Two records under one key and one under a later key. *)
Definition key (n : Z) : bytes := replicate 31 0%Z ++ [n].
Definition pairs : list (bytes * bytes) := [(key 1, key 9); (key 1, key 8); (key 2, key 9)].
Definition index : bytes := concat (map MappingFacts.join_record pairs).
Definition listed : list bytes := [key 3; key 1; key 3].

Lemma mapping_candidates_scan_witness :
  MappingIndex.from_bytes index = Ok index /\
  MappingIndex.candidates index (key 1) = [key 9; key 8].
Proof.
  assert (H : MappingIndex.from_bytes index = Ok index) by (vm_compute; reflexivity).
  split; [exact H|]. rewrite (MappingFacts.mapping_candidates_scan index (key 1) H).
  vm_compute. reflexivity.
Defined.

Lemma mapping_encode_roundtrip_witness :
  MappingIndex.encode pairs = Ok index /\ MappingIndex.records index = pairs.
Proof.
  assert (Hw : Forall MappingFacts.wide pairs) by (repeat constructor).
  assert (H : MappingIndex.encode pairs = Ok index) by (vm_compute; reflexivity).
  split; [exact H|]. by apply (MappingFacts.mapping_encode_roundtrip pairs index Hw).
Defined.

Lemma content_contains_mem_witness :
  ContentList.from_bytes (ContentList.encode listed) = Ok (ContentList.encode listed) /\
  key 3 ∈ ContentList.iter (ContentList.encode listed).
Proof.
  assert (H : ContentList.from_bytes (ContentList.encode listed)
              = Ok (ContentList.encode listed)) by (vm_compute; reflexivity).
  split; [exact H|].
  apply (proj1 (ContentFacts.content_contains_mem _ (key 3) H)). vm_compute. reflexivity.
Defined.

Lemma content_encode_set_witness :
  ContentList.encode listed = ContentList.encode [key 1; key 3].
Proof.
  apply (ContentFacts.content_encode_set listed [key 1; key 3]).
  - repeat constructor.
  - vm_compute. discriminate.
  - intros h. unfold listed. rewrite !elem_of_cons. tauto.
Defined.
End IndexExamples.
