(* ===== verification/FsObject.v ===== *)
(** * Content-addressed filesystem objects

    [fsobj-hash/src/node.rs], [hash.rs] and the node-level entry points of
    [lib.rs]: the tree of a filesystem object and its [ObjectHash]. *)

From S2P Require Import Prelude Errors Hash.

(** [EntryKind] ([error.rs]). *)
Inductive EntryKind := KFile | KDirectory | KSymlink.

#[export] Instance EntryKind_eq_dec : EqDecision EntryKind.
Proof. solve_decision. Defined.

Record FileNode := mkFileNode {
  executable : bool;
  content_hash : bytes;
  size : u64;
}.

(** [Node]; a [DirectoryEntry] is a [(name, node)] pair. *)
Inductive Node :=
| NFile (file : FileNode)
| NDirectory (entries : list (bytes * Node))
| NSymlink (target : bytes).

Definition node_kind (n : Node) : EntryKind :=
  match n with
  | NFile _ => KFile
  | NDirectory _ => KDirectory
  | NSymlink _ => KSymlink
  end.

Definition FILE_TAG : bytes := lit "fsobj:file:v1" ++ [0]%Z.
Definition DIR_TAG : bytes := lit "fsobj:dir:v1" ++ [0]%Z.
Definition SYMLINK_TAG : bytes := lit "fsobj:symlink:v1" ++ [0]%Z.

Definition kind_byte (k : EntryKind) : u8 :=
  match k with KFile => 102 | KDirectory => 100 | KSymlink => 108 end.

(** A [DirectoryHashEntry]. *)
Record DirectoryHashEntry := mkDirectoryHashEntry {
  he_kind : EntryKind;
  he_name : bytes;
  he_hash : bytes;
}.

(** A [LeafIndexEntry]. *)
Record LeafIndexEntry := mkLeafIndexEntry {
  leaf_path : bytes;
  leaf_kind : EntryKind;
  leaf_hash : bytes;
}.

Section Hashing.
Context `{Sha256Api}.

(** The successive [hasher.update] calls append to the hashed message. *)
Definition file_message (file : FileNode) : bytes :=
  FILE_TAG ++ [if executable file then 1 else 0]%Z ++ be_bytes 8 (size file)
  ++ content_hash file.

Definition hash_file (file : FileNode) : bytes :=
  if negb (executable file) then content_hash file
  else sha256 (file_message file).

Definition symlink_message (target : bytes) : bytes :=
  SYMLINK_TAG ++ be_bytes 8 (len target) ++ target.

Definition hash_symlink (target : bytes) : bytes := sha256 (symlink_message target).

(** The bytes one directory entry contributes. *)
Definition entry_message (kind : EntryKind) (name hash : bytes) : bytes :=
  [kind_byte kind] ++ be_bytes 8 (len name) ++ name ++ hash.

Fixpoint hash_node (node : Node) : bytes :=
  match node with
  | NFile file => hash_file file
  | NDirectory entries =>
      sha256 (DIR_TAG ++
        flat_map (fun entry =>
          entry_message (node_kind entry.2) entry.1 (hash_node entry.2)) entries)
  | NSymlink target => hash_symlink target
  end.

Definition hash_directory_entry (entry : bytes * Node) : bytes :=
  entry_message (node_kind entry.2) entry.1 (hash_node entry.2).

Definition hash_directory (entries : list (bytes * Node)) : bytes :=
  sha256 (DIR_TAG ++ flat_map hash_directory_entry entries).

Definition hash_directory_entries (entries : list DirectoryHashEntry) : bytes :=
  sha256 (DIR_TAG ++
    flat_map (fun e => entry_message (he_kind e) (he_name e) (he_hash e)) entries).

Definition sha256_bytes (b : bytes) : bytes := sha256 b.

(** ** [lib.rs] *)

Definition hash_file_node (executable : bool) (size : u64) (content_hash : bytes) : bytes :=
  hash_file (mkFileNode executable content_hash size).

Definition hash_file_bytes (executable : bool) (b : bytes) : bytes :=
  hash_file_node executable (len b) (sha256_bytes b).

Definition hash_symlink_node (target : bytes) : bytes := hash_symlink target.

(** [DirectoryEntryHash] has the fields of [DirectoryHashEntry]; the entries
    are stably sorted by name. *)
Definition hash_directory_node (entries : list DirectoryHashEntry) : bytes :=
  hash_directory_entries (sort_by he_name entries).

Definition hash_fs_tree_object_from_hashes (manifest_file_hash root_hash : bytes) : bytes :=
  hash_directory_node
    [mkDirectoryHashEntry KFile (lit "manifest.jsonl") manifest_file_hash;
     mkDirectoryHashEntry KDirectory (lit "root") root_hash].

Definition content_file (content : bytes) : Node :=
  NFile (mkFileNode false (sha256_bytes content) (len content)).

(** [hash_fs_tree_object_with_extra_files]; [root] is the outcome of
    [load_directory_path(root_dir)]. *)
Definition hash_fs_tree_object_with_extra_files {E : Type} (manifest_bytes : bytes)
    (root : result E Node) (extra_files : list (bytes * bytes)) : result E bytes :=
  root <- root ;;
  let entries :=
    [(lit "manifest.jsonl", content_file manifest_bytes); (lit "root", root)]
    ++ map (fun '(name, content) => (name, content_file content)) extra_files in
  Ok (hash_node (NDirectory (sort_by fst entries))).

Definition hash_fs_tree_object {E : Type} (manifest_bytes : bytes) (root : result E Node)
  : result E bytes :=
  hash_fs_tree_object_with_extra_files manifest_bytes root [].

(** [collect_leaf_index]: [path] is the shared path buffer, extended before
    the recursive call and truncated after it; [acc] is the output vector. *)
Fixpoint collect_leaf_index (node : Node) (path : bytes) (acc : list LeafIndexEntry)
  : bytes * list LeafIndexEntry :=
  match node with
  | NFile _ | NSymlink _ =>
      (path, acc ++ [mkLeafIndexEntry path (node_kind node) (hash_node node)])
  | NDirectory entries =>
      fold_left (fun '(path, acc) entry =>
        let original_len := length path in
        let path := if negb (bool_decide (path = [])) then path ++ [47]%Z else path in
        let path := path ++ entry.1 in
        let '(path, acc) := collect_leaf_index entry.2 path acc in
        (take original_len path, acc)) entries (path, acc)
  end.
End Hashing.

(** ** Induction over nodes *)

Lemma Node_nested_ind (P : Node -> Prop) :
  (forall f, P (NFile f)) -> (forall t, P (NSymlink t)) ->
  (forall es, Forall (fun e => P e.2) es -> P (NDirectory es)) -> forall n, P n.
Proof.
  intros Hf Hs Hd. fix IH 1. intros [f|es|t]; [apply Hf| |apply Hs]. apply Hd.
  induction es as [|[name n] es IHes]; constructor; [apply IH|apply IHes].
Qed.

Lemma starts_with_app p l : starts_with p (p ++ l) = true.
Proof.
  unfold starts_with. enough (strip_prefix p (p ++ l) = Some l) as -> by reflexivity.
  induction p as [|x p IH]; [reflexivity|]. simpl. by rewrite Z.eqb_refl.
Qed.

Section HashFacts.
Context `{Sha256Api}.

Lemma hash_node_directory es : hash_node (NDirectory es) = hash_directory es.
Proof. reflexivity. Qed.

(** The recursive hash and the hash assembled from known child hashes agree. *)
Lemma hash_directory_as_entries es :
  hash_directory es =
  hash_directory_entries
    (map (fun e => mkDirectoryHashEntry (node_kind e.2) e.1 (hash_node e.2)) es).
Proof.
  unfold hash_directory, hash_directory_entries. do 2 f_equal.
  induction es as [|e es IH]; [reflexivity|]. cbn [map flat_map]. by rewrite IH.
Qed.

(** File contents that begin with one of the structural tags. *)
Definition tagged (c : bytes) : bool :=
  starts_with FILE_TAG c || starts_with DIR_TAG c || starts_with SYMLINK_TAG c.

Variable M : bytes -> Prop.

(** Nodes read from real contents: digests are those of the contents, lengths
    fit their fields, no plain file starts with a structural tag, and every
    message that is hashed on the way is in [M]. *)
Inductive honest : Node -> Prop :=
| honest_file f c :
    content_hash f = sha256 c -> size f = len c -> is_u64 (len c) -> M c ->
    (executable f = true -> M (file_message f)) ->
    (executable f = false -> tagged c = false) -> honest (NFile f)
| honest_symlink t : is_u64 (len t) -> M (symlink_message t) -> honest (NSymlink t)
| honest_directory es :
    Forall (fun e => is_u64 (len e.1) /\ honest e.2) es ->
    M (DIR_TAG ++ flat_map hash_directory_entry es) -> honest (NDirectory es).

Lemma length_hash_node n : honest n -> length (hash_node n) = 32%nat.
Proof.
  destruct 1 as [f c Hc _ _ _ _ _|t _|es _]; cbn [hash_node]; [|apply sha256_wf..].
  unfold hash_file. destruct (executable f); simpl; [apply sha256_wf|]. rewrite Hc. apply sha256_wf.
Qed.

Lemma entry_message_inj k1 n1 h1 r1 k2 n2 h2 r2 :
  is_u64 (len n1) -> is_u64 (len n2) -> length h1 = length h2 ->
  entry_message k1 n1 h1 ++ r1 = entry_message k2 n2 h2 ++ r2 ->
  k1 = k2 /\ n1 = n2 /\ h1 = h2 /\ r1 = r2.
Proof.
  intros Hn1 Hn2 Hh. unfold entry_message. rewrite <- !app_assoc.
  intros [Ek E]%app_inj_1; [|reflexivity].
  assert (k1 = k2) as -> by (by destruct k1, k2).
  apply app_inj_1 in E as [El E]; [|by rewrite !length_be_bytes].
  apply be_bytes_inj in El; [|done|done]. unfold len in El.
  apply app_inj_1 in E as [-> E]; [|lia]. apply app_inj_1 in E as [-> E]; [|assumption]. done.
Qed.

(** Equal directory messages have the same names, kinds and child hashes. *)
Lemma entries_message_inj es1 es2 :
  Forall (fun e => is_u64 (len e.1) /\ honest e.2) es1 ->
  Forall (fun e => is_u64 (len e.1) /\ honest e.2) es2 ->
  flat_map hash_directory_entry es1 = flat_map hash_directory_entry es2 ->
  Forall2 (fun e1 e2 => e1.1 = e2.1 /\ node_kind e1.2 = node_kind e2.2
                        /\ hash_node e1.2 = hash_node e2.2) es1 es2.
Proof.
  intros H1. revert es2. induction H1 as [|e1 es1 [Hn1 Hh1] H1 IH];
    intros es2 H2; destruct H2 as [|e2 es2 [Hn2 Hh2] H2]; cbn [flat_map]; [constructor|done..|].
  intros E. unfold hash_directory_entry at 1 3 in E.
  apply entry_message_inj in E as (Hk & Hn & Hh & E);
    [|done|done|by rewrite !length_hash_node].
  constructor; [done|]. by apply IH.
Qed.

Hypothesis HM : collision_free M.

Lemma hash_file_inj f1 f2 :
  honest (NFile f1) -> honest (NFile f2) -> hash_file f1 = hash_file f2 -> f1 = f2.
Proof.
  intros H1 H2. inversion_clear H1 as [? c1 Hc1 Hs1 Hu1 Hi1 Hx1 Ht1| |].
  inversion_clear H2 as [? c2 Hc2 Hs2 Hu2 Hi2 Hx2 Ht2| |].
  destruct f1 as [x1 h1 s1], f2 as [x2 h2 s2]. unfold hash_file. simpl in *. subst h1 h2 s1 s2.
  destruct x1, x2; simpl; intros E%HM; auto.
  - unfold file_message in E. cbn [executable size content_hash] in E.
    do 2 (apply app_inj_1 in E as [_ E]; [|reflexivity]).
    apply app_inj_1 in E as [Es E]; [|by rewrite !length_be_bytes].
    apply be_bytes_inj in Es; [|done|done]. congruence.
  - specialize (Ht2 eq_refl). unfold tagged in Ht2. rewrite <- E in Ht2.
    unfold file_message in Ht2. by rewrite starts_with_app in Ht2.
  - specialize (Ht1 eq_refl). unfold tagged in Ht1. rewrite E in Ht1.
    unfold file_message in Ht1. by rewrite starts_with_app in Ht1.
  - by rewrite E.
Qed.

(** A message that starts with a tag is not the content of an honest plain
    file, and not the message of a file of any kind. *)
Lemma hash_file_vs_tagged f m :
  honest (NFile f) -> M m -> tagged m = true -> starts_with FILE_TAG m = false ->
  hash_file f <> sha256 m.
Proof.
  intros Hf Hi Hm Hnf. inversion_clear Hf as [? c Hc Hs Hu Hic Hx Ht| |]. unfold hash_file.
  destruct (executable f); simpl.
  - intros <-%HM; [|auto..]. unfold file_message in Hnf. by rewrite starts_with_app in Hnf.
  - rewrite Hc. intros <-%HM; [|auto..]. by rewrite Ht in Hm.
Qed.

Lemma dir_message_tagged x : tagged (DIR_TAG ++ x) = true /\ starts_with FILE_TAG (DIR_TAG ++ x) = false.
Proof.
  split; [|reflexivity]. unfold tagged. rewrite starts_with_app. by rewrite orb_true_r.
Qed.

Lemma symlink_message_tagged t :
  tagged (symlink_message t) = true /\ starts_with FILE_TAG (symlink_message t) = false.
Proof.
  split; [|reflexivity]. unfold tagged, symlink_message. rewrite starts_with_app. by rewrite !orb_true_r.
Qed.

Lemma dir_vs_symlink x t :
  M (DIR_TAG ++ x) -> M (symlink_message t) -> sha256 (DIR_TAG ++ x) <> hash_symlink t.
Proof. by intros H1 H2 E%HM. Qed.

Lemma hash_symlink_inj t1 t2 :
  honest (NSymlink t1) -> honest (NSymlink t2) -> hash_symlink t1 = hash_symlink t2 -> t1 = t2.
Proof.
  intros H1 H2 E. inversion_clear H1; inversion_clear H2. apply HM in E; [|done..].
  unfold symlink_message in E. apply app_inj_1 in E as [_ E]; [|reflexivity].
  apply app_inj_1 in E as [_ E]; [done|by rewrite !length_be_bytes].
Qed.

Lemma hash_file_vs_directory f es :
  honest (NFile f) -> honest (NDirectory es) -> hash_node (NFile f) <> hash_node (NDirectory es).
Proof.
  intros Hf Hd. inversion_clear Hd. destruct (dir_message_tagged (flat_map hash_directory_entry es)).
  rewrite hash_node_directory. by apply hash_file_vs_tagged.
Qed.

Lemma hash_file_vs_symlink f t :
  honest (NFile f) -> honest (NSymlink t) -> hash_node (NFile f) <> hash_node (NSymlink t).
Proof.
  intros Hf Hd. inversion_clear Hd. destruct (symlink_message_tagged t). by apply hash_file_vs_tagged.
Qed.

Lemma hash_directory_vs_symlink es t :
  honest (NDirectory es) -> honest (NSymlink t) -> hash_node (NDirectory es) <> hash_node (NSymlink t).
Proof.
  intros Hd Hs. inversion_clear Hd. inversion_clear Hs. rewrite hash_node_directory.
  by apply dir_vs_symlink.
Qed.
End HashFacts.

(** C32. The object hash identifies the object: two trees of real contents with
    the same [ObjectHash] are the same tree (same kinds, executable bits,
    names, targets and content digests throughout), provided SHA-256 has no
    collision among the messages hashed on the way.  Plain files that begin
    with a structural tag are excluded. *)
Theorem object_hash_identifies `{Sha256Api} M n1 n2 :
  collision_free M -> honest M n1 -> honest M n2 -> hash_node n1 = hash_node n2 -> n1 = n2.
Proof.
  intros HM. revert n2. induction n1 as [f1|t1|es1 IH] using Node_nested_ind; intros n2 H1 H2 E;
    destruct n2 as [f2|es2|t2]; try (symmetry in E);
    try by (exfalso; revert E; first
      [eapply hash_file_vs_directory|eapply hash_file_vs_symlink|eapply hash_directory_vs_symlink]).
  all: try symmetry in E;
    try by (exfalso; revert E; first
      [eapply hash_file_vs_directory|eapply hash_file_vs_symlink|eapply hash_directory_vs_symlink]).
  - f_equal. by apply (hash_file_inj M HM).
  - f_equal. by apply (hash_symlink_inj M HM).
  - inversion_clear H1 as [| |? Hs1 M1]; inversion_clear H2 as [| |? Hs2 M2].
    rewrite !hash_node_directory in E. apply HM in E; [|done..]. apply app_inv_head in E.
    apply (entries_message_inj M) in E; [|assumption..]. f_equal.
    clear -E IH Hs1 Hs2. induction E as [|[a1 b1] [a2 b2] es1 es2 (Hn & _ & Hh) E IHE]; [done|].
    inversion_clear IH as [|? ? IH1 IH2]. inversion_clear Hs1 as [|? ? [_ Hb1] Hs1'].
    inversion_clear Hs2 as [|? ? [_ Hb2] Hs2']. simpl in *.
    f_equal; [by rewrite Hn, (IH1 _ Hb1 Hb2 Hh)|by apply IHE].
Qed.

(** ** Entry points of the library *)

Section EntryPoints.
Context `{Sha256Api}.

(** The message whose digest is the hash of a directory, a symlink or an
    executable file. *)
Definition node_message (n : Node) : bytes :=
  match n with
  | NFile f => file_message f
  | NDirectory es => DIR_TAG ++ flat_map hash_directory_entry es
  | NSymlink t => symlink_message t
  end.

Lemma hash_node_message n :
  (forall f, n = NFile f -> executable f = true) -> hash_node n = sha256 (node_message n).
Proof.
  destruct n as [f|es|t]; intros Hx; [|reflexivity..]. cbn [hash_node]. unfold hash_file.
  by rewrite (Hx f eq_refl).
Qed.

(** The leaves below [prefix], in tree order, with their path components. *)
Fixpoint leaves (prefix : list bytes) (n : Node) : list (list bytes * Node) :=
  match n with
  | NDirectory es => flat_map (fun e => leaves (prefix ++ [e.1]) e.2) es
  | _ => [(prefix, n)]
  end.

Inductive named : Node -> Prop :=
| named_file f : named (NFile f)
| named_symlink t : named (NSymlink t)
| named_directory es : Forall (fun e => e.1 <> [] /\ named e.2) es -> named (NDirectory es).

Definition leaf_entry (l : list bytes * Node) : LeafIndexEntry :=
  mkLeafIndexEntry (join_with [47]%Z l.1) (node_kind l.2) (hash_node l.2).

Lemma collect_leaf_index_spec n prefix acc :
  named n -> Forall (fun c => c <> []) prefix ->
  collect_leaf_index n (join_with [47]%Z prefix) acc =
  (join_with [47]%Z prefix, acc ++ map leaf_entry (leaves prefix n)).
Proof.
  revert prefix acc. induction n as [f|t|es IH] using Node_nested_ind;
    intros prefix acc Hn Hp; [reflexivity..|]. cbn [collect_leaf_index leaves].
  inversion_clear Hn as [| |? Hes]. revert acc.
  induction IH as [|[name n] es IHn IHes IH]; intros acc; simpl; [by rewrite app_nil_r|].
  apply Forall_cons_1 in Hes as [[Hname Hn] Hes]. simpl in *.
  assert (Hpath : (if negb (bool_decide (join_with [47]%Z prefix = []))
                   then join_with [47]%Z prefix ++ [47]%Z else join_with [47]%Z prefix) ++ name
                  = join_with [47]%Z (prefix ++ [name])).
  { rewrite join_snoc. destruct (bool_decide _) eqn:E; bools; simpl.
    - by rewrite (join_nonempty prefix Hp E).
    - destruct prefix; [done|]. by rewrite <- app_assoc. }
  rewrite Hpath, IHn; [|assumption|apply Forall_app; by repeat constructor].
  rewrite (join_snoc prefix name).
  replace (take _ _) with (join_with [47]%Z prefix).
  - rewrite IH by assumption. rewrite map_app. by rewrite app_assoc.
  - destruct prefix; [reflexivity|]. by rewrite take_app_length.
Qed.
End EntryPoints.

(** A plain file can carry the object hash of any directory, symlink or
    executable file: the file whose content is the tagged message of the
    object hashes to the object's own hash, so the tags do not separate file
    hashes from the others. *)
Theorem plain_file_masquerades `{Sha256Api} n :
  (forall f, n = NFile f -> executable f = true) ->
  hash_file_bytes false (node_message n) = hash_node n.
Proof. intros Hx. by rewrite hash_node_message. Qed.

(** [hash_directory_node] is insensitive to the order of its entries and
    agrees with the recursive directory hash: for entries with distinct names,
    any permutation of the (name, kind, hash) triples of a directory whose
    entries are in name order gives the directory's object hash. *)
Theorem directory_node_order `{Sha256Api} es hashed :
  StronglySorted (key_lt fst) es ->
  hashed ≡ₚ map (fun e => mkDirectoryHashEntry (node_kind e.2) e.1 (hash_node e.2)) es ->
  hash_directory_node hashed = hash_node (NDirectory es).
Proof.
  intros Hs Hp. rewrite hash_node_directory, hash_directory_as_entries.
  unfold hash_directory_node. f_equal.
  set (f := fun e : bytes * Node => mkDirectoryHashEntry (node_kind e.2) e.1 (hash_node e.2)) in *.
  assert (Hf : StronglySorted (key_lt he_name) (map f es)).
  { clear Hp. induction Hs as [|e es Hs IH He]; [constructor|]. cbn [map]. constructor; [assumption|].
    apply Forall_fmap. eapply Forall_impl; [exact He|]. by intros x Hx. }
  apply sorted_perm_unique with (key := he_name); [|assumption|by rewrite sort_by_perm].
  apply sorted_strict; [apply sort_by_sorted|].
  rewrite sort_by_perm, Hp. by apply sorted_lt_NoDup.
Qed.

(** The two ways to compute an fs-tree object's hash agree: hashing the
    object assembled from the manifest bytes and the loaded [root] tree gives
    the hash built from the manifest file hash and the root hash, and it is
    the hash of the directory [{manifest.jsonl, root}]. *)
Theorem fs_tree_object_hash_agrees `{Sha256Api} {E : Type} manifest root :
  hash_fs_tree_object manifest (Ok root : result E Node) =
    Ok (hash_node (NDirectory [(lit "manifest.jsonl", content_file manifest); (lit "root", root)]))
  /\ (node_kind root = KDirectory ->
      hash_fs_tree_object manifest (Ok root : result E Node) =
      Ok (hash_fs_tree_object_from_hashes (hash_file_bytes false manifest) (hash_node root))).
Proof.
  split; [reflexivity|]. intros Hk. unfold hash_fs_tree_object, hash_fs_tree_object_with_extra_files.
  cbn [map app]. change (sort_by fst _) with
    [(lit "manifest.jsonl", content_file manifest); (lit "root", root)].
  rewrite hash_node_directory, hash_directory_as_entries. cbn [map fst snd]. by rewrite Hk.
Qed.

(** The leaf index lists exactly the files and symlinks of the tree, in
    tree order, each with its full ['/']-joined path, kind and own hash; the
    shared path buffer is restored to its initial contents. *)
Theorem leaf_index_complete `{Sha256Api} n :
  named n -> collect_leaf_index n [] [] = ([], map leaf_entry (leaves [] n)).
Proof. intros Hn. by apply (collect_leaf_index_spec n [] []). Qed.

(** ** A concrete tree *)

Module FsObjectExamples.
#[local] Existing Instance ToySha.sha256_api.

(** [bin/run] (executable), [link -> bin/run] and [readme]. *)
Definition run : Node := NFile (mkFileNode true (sha256 [1; 2]%Z) 2).
Definition readme : Node := content_file (lit "hi").
Definition entries : list (bytes * Node) :=
  [(lit "bin", NDirectory [(lit "run", run)]); (lit "link", NSymlink (lit "bin/run"));
   (lit "readme", readme)].
Definition tree : Node := NDirectory entries.
Definition hash_entry (e : bytes * Node) : DirectoryHashEntry :=
  mkDirectoryHashEntry (node_kind e.2) e.1 (hash_node e.2).

(** The messages hashed for [tree]. *)
Definition messages : list bytes :=
  [[1; 2]%Z; node_message run; lit "hi"; node_message (NSymlink (lit "bin/run"));
   node_message (NDirectory [(lit "run", run)]); node_message tree].
Definition M (x : bytes) : Prop := bool_decide (x ∈ messages) = true.

Lemma messages_digests : forallb (fun x => forallb (fun y =>
  negb (bool_decide (sha256 x = sha256 y)) || bool_decide (x = y)) messages) messages = true.
Proof. vm_compute. reflexivity. Qed.

Lemma messages_free : collision_free M.
Proof.
  intros x y Hx Hy E. unfold M in *. bools. pose proof messages_digests as H.
  rewrite forallb_forall in H. specialize (H x). rewrite <- list_elem_of_In in H. specialize (H Hx).
  rewrite forallb_forall in H. specialize (H y). rewrite <- list_elem_of_In in H. specialize (H Hy).
  rewrite (bool_decide_eq_true_2 (sha256 x = sha256 y)) in H by done. by apply bool_decide_eq_true in H.
Qed.

Lemma honest_tree : honest M tree.
Proof.
  unfold tree, entries, run, readme. repeat first
    [ apply honest_directory
    | apply honest_symlink
    | eapply honest_file; [reflexivity|reflexivity| | | |]
    | apply Forall_cons_2 | apply Forall_nil_2 | split ];
    try (intros; vm_compute; reflexivity); done.
Qed.

Lemma named_tree : named tree.
Proof. by repeat constructor. Qed.

Lemma object_hash_identifies_witness : tree = NDirectory (sort_by fst (reverse entries)).
Proof.
  apply (object_hash_identifies M tree _ messages_free honest_tree honest_tree). reflexivity.
Defined.

Lemma plain_file_masquerades_witness :
  exists content, hash_file_bytes false content = hash_node tree.
Proof. exists (node_message tree). apply (plain_file_masquerades tree). discriminate. Defined.

Lemma directory_node_order_witness :
  hash_directory_node (map hash_entry (reverse entries)) = hash_node tree.
Proof.
  apply (directory_node_order entries).
  - repeat constructor.
  - apply Permutation_map, reverse_Permutation.
Defined.

Lemma fs_tree_object_hash_agrees_witness :
  hash_fs_tree_object (lit "[]") (Ok tree : result unit Node) =
  Ok (hash_fs_tree_object_from_hashes (hash_file_bytes false (lit "[]")) (hash_node tree)).
Proof. apply (fs_tree_object_hash_agrees (E := unit) (lit "[]") tree). reflexivity. Defined.

Lemma leaf_index_complete_witness :
  map leaf_path (collect_leaf_index tree [] []).2 = [lit "bin/run"; lit "link"; lit "readme"].
Proof. rewrite (leaf_index_complete tree named_tree). vm_compute. reflexivity. Defined.
End FsObjectExamples.
