(* ===== verification/FsArchive.v ===== *)
(** * Loading filesystem objects from archives and paths

    [fsobj-hash/src/normalize.rs], [tar_source.rs] and [path_source.rs]: the
    three routes by which a [Node] is built.  The tar reader (crate [tar]) and
    the operating system are external: an archive is the sequence of entries
    the reader yields, a path is the tree of answers the system calls give. *)

From S2P Require Import Prelude Errors Hash FsObject.

Inductive InvalidPathReason := AbsolutePath | ParentTraversal | EmptyPath.
Inductive TarEntryKind := HardLink | BlockDevice | CharDevice | Fifo | Socket | Other.

(** [fsobj_hash::Error]; a path in an error is the raw byte path (its lossy
    UTF-8 rendering is display only). *)
Inductive FsError :=
| FIo (error : string)
| IoAtPath (path : bytes) (action : string) (error : string)
| UnsupportedRootSymlink (path : bytes)
| UnsupportedFileType (path : bytes)
| TarRead (error : string)
| InvalidArchivePath (path : bytes) (reason : InvalidPathReason)
| DuplicateEntry (path : bytes)
| KindConflict (path : bytes) (existing new : EntryKind)
| UnsupportedTarEntry (path : bytes) (kind : TarEntryKind).

(** ** [normalize.rs] *)

Abbreviation PathComponents := (list bytes).

Inductive PendingEntry :=
| PFile (file : FileNode)
| PDirectory
| PSymlink (target : bytes).

Definition pending_kind (e : PendingEntry) : EntryKind :=
  match e with PFile _ => KFile | PDirectory => KDirectory | PSymlink _ => KSymlink end.

Definition path_buf_from_components (components : PathComponents) : bytes :=
  join_with [47]%Z components.

(** One iteration of the component loop of [normalize_archive_path]. *)
Definition push_component (original : bytes) (components : PathComponents) (component : bytes)
  : result FsError PathComponents :=
  if bytes_eqb component [] || bytes_eqb component [46]%Z then Ok components
  else if bytes_eqb component [46; 46]%Z then Err (InvalidArchivePath original ParentTraversal)
  else Ok (components ++ [component]).

Definition normalize_archive_path (raw : bytes) : result FsError PathComponents :=
  let normalized_raw := match strip_prefix [46; 47]%Z raw with Some s => s | None => raw end in
  if bytes_eqb normalized_raw [] then Err (InvalidArchivePath raw EmptyPath)
  else if starts_with [47]%Z normalized_raw then Err (InvalidArchivePath raw AbsolutePath)
  else
    components <- try_fold (push_component raw) [] (split_on 47 normalized_raw) ;;
    if bool_decide (components = []) then Err (InvalidArchivePath raw EmptyPath)
    else Ok components.

(** [BTreeMap<PathComponents, PendingEntry>]. *)
Abbreviation Entries := (gmap PathComponents PendingEntry).

Definition insert_parent (components : PathComponents) (entries : Entries) (depth : nat)
  : result FsError Entries :=
  let parent := take depth components in
  match entries !! parent with
  | None => Ok (<[parent := PDirectory]> entries)
  | Some PDirectory => Ok entries
  | Some existing =>
      Err (KindConflict (path_buf_from_components parent) (pending_kind existing) KDirectory)
  end.

(** [for depth in 1..components.len()]. *)
Definition insert_implicit_parents (entries : Entries) (components : PathComponents)
  : result FsError Entries :=
  try_fold (insert_parent components) entries (seq 1 (length components - 1)).

Definition insert_entry (entries : Entries) (components : PathComponents)
    (pending : PendingEntry) : result FsError Entries :=
  entries <- insert_implicit_parents entries components ;;
  match entries !! components with
  | None => Ok (<[components := pending]> entries)
  | Some existing =>
      match existing, pending with
      | PDirectory, PDirectory => Ok entries
      | _, _ =>
          if bool_decide (pending_kind existing = pending_kind pending) then
            Err (DuplicateEntry (path_buf_from_components components))
          else
            Err (KindConflict (path_buf_from_components components)
                   (pending_kind existing) (pending_kind pending))
      end
  end.

(** [child_names]: for every parent, the names of its children. *)
Definition child_names (entries : Entries) : gmap PathComponents (gset bytes) :=
  map_fold (fun path _ acc =>
    let parent := take (length path - 1) path in
    match last path with
    | Some name => <[parent := {[name]} ∪ default ∅ (acc !! parent)]> acc
    | None => acc
    end) ∅ entries.

(** A [BTreeSet<Vec<u8>>] iterates in byte order. *)
Definition set_iter (s : gset bytes) : list bytes := sort_by id (elements s).

Fixpoint try_collect {A B : Type} (f : A -> option B) (l : list A) : option (list B) :=
  match l with
  | [] => Some []
  | x :: l' =>
      match f x, try_collect f l' with
      | Some y, Some ys => Some (y :: ys)
      | _, _ => None
      end
  end.

(** [build_directory]; [None] is the [expect] panic (or exhausted fuel, which
    bounds the depth of the recursion). *)
Fixpoint build_directory (fuel : nat) (entries : Entries)
    (names : gmap PathComponents (gset bytes)) (prefix : PathComponents) : option Node :=
  match fuel with
  | O => None
  | S fuel' =>
      match names !! prefix with
      | None => Some (NDirectory [])
      | Some children =>
          option_map NDirectory
            (try_collect (fun name =>
               let child_path := prefix ++ [name] in
               match entries !! child_path with
               | None => None
               | Some (PFile file) => Some (name, NFile file)
               | Some (PSymlink link) => Some (name, NSymlink link)
               | Some PDirectory =>
                   option_map (fun node => (name, node))
                     (build_directory fuel' entries names child_path)
               end) (set_iter children))
      end
  end.

Definition max_depth (entries : Entries) : nat :=
  map_fold (fun path _ n => Nat.max (length path) n) 0%nat entries.

Definition build_tree (entries : Entries) : option Node :=
  build_directory (S (max_depth entries)) entries (child_names entries) [].

(** ** [tar_source.rs] *)

(** [tar::EntryType], as far as the reader distinguishes it. *)
Inductive TarType :=
| TRegular | TLink | TSymlink | TChar | TBlock | TDirectory | TFifo | TOther (byte : u8).

(** What the reader answers about one entry. *)
Record TarEntry := mkTarEntry {
  te_type : TarType;
  te_path : bytes;
  te_mode : result string Z;
  te_data : result string bytes;
  te_link : option bytes;
}.

Definition classify_other (byte : u8) : TarEntryKind :=
  if (byte =? 115)%Z then Socket else Other.

Section Tar.
Context `{Sha256Api}.

(** [0x49] is the source's octal [0o111]. *)
Definition tar_pending (entry : TarEntry) (path : PathComponents)
  : result FsError PendingEntry :=
  let unsupported kind := Err (UnsupportedTarEntry (path_buf_from_components path) kind) in
  match te_type entry with
  | TRegular =>
      mode <- map_err TarRead (te_mode entry) ;;
      b <- map_err TarRead (te_data entry) ;;
      Ok (PFile (mkFileNode (negb (Z.land mode 0x49 =? 0)%Z) (sha256_bytes b) (len b)))
  | TDirectory => Ok PDirectory
  | TSymlink =>
      target <- ok_or (te_link entry)
                  (UnsupportedTarEntry (path_buf_from_components path) Other) ;;
      Ok (PSymlink target)
  | TLink => unsupported HardLink
  | TBlock => unsupported BlockDevice
  | TChar => unsupported CharDevice
  | TFifo => unsupported Fifo
  | TOther byte => unsupported (classify_other byte)
  end.

Definition load_tar_entry (entries : Entries) (entry_result : result string TarEntry)
  : result FsError Entries :=
  entry <- map_err TarRead entry_result ;;
  path <- normalize_archive_path (te_path entry) ;;
  pending <- tar_pending entry path ;;
  insert_entry entries path pending.

(** [load_tar_reader]; [None] is a panic of [build_tree]. *)
Definition load_tar_reader (archive : result string (list (result string TarEntry)))
  : result FsError (option Node) :=
  archive <- map_err TarRead archive ;;
  entries <- try_fold load_tar_entry ∅ archive ;;
  Ok (build_tree entries).

Definition hash_tar_reader (archive : result string (list (result string TarEntry)))
  : result FsError (option bytes) :=
  node <- load_tar_reader archive ;;
  Ok (option_map hash_node node).

(** ** [path_source.rs] *)

(** One answer of [reader.read(&mut buffer)]; an empty chunk is end of file. *)
Inductive ReadEvent := Chunk (b : bytes) | Interrupted | ReadError (error : string).

Fixpoint sha256_reader_loop (hashed : bytes) (size : u64) (events : list ReadEvent)
  : result string (bytes * u64) :=
  match events with
  | [] => Ok (sha256 hashed, size)
  | Chunk [] :: _ => Ok (sha256 hashed, size)
  | Chunk b :: rest => sha256_reader_loop (hashed ++ b) (size + len b) rest
  | Interrupted :: rest => sha256_reader_loop hashed size rest
  | ReadError error :: _ => Err error
  end.
Definition sha256_reader (events : list ReadEvent) : result string (bytes * u64) :=
  sha256_reader_loop [] 0 events.

(** The answers of the system calls about one path: its file type, and what
    opening, reading, listing or [readlink] gives. *)
Inductive FsObj :=
| FRegular (mode : Z) (open_ : result string (list ReadEvent))
| FDir (read_dir : result string (list (result string (bytes * FsObj))))
| FSymlink (read_link : result string bytes)
| FSpecial
| FNoMetadata (error : string).

Definition is_executable (mode : Z) : bool := negb (Z.land mode 0x49 =? 0)%Z.

Definition read_file_node (path : bytes) (mode : Z) (open_ : result string (list ReadEvent))
  : result FsError Node :=
  file <- map_err (IoAtPath path "opening file") open_ ;;
  let* (content_hash, size) := map_err (IoAtPath path "reading file") (sha256_reader file) in
  Ok (NFile (mkFileNode (is_executable mode) content_hash size)).

Definition read_symlink_node (path : bytes) (read_link : result string bytes)
  : result FsError Node :=
  target <- map_err (IoAtPath path "reading symlink") read_link ;;
  Ok (NSymlink target).

(** [entry.path()]. *)
Definition child_path (path name : bytes) : bytes := path ++ [47]%Z ++ name.

(** The per-entry part of [read_directory_node]; the recursive case is
    [read_directory_node] itself. *)
Fixpoint read_child (obj : FsObj) (path : bytes) : result FsError Node :=
  match obj with
  | FRegular mode open_ => read_file_node path mode open_
  | FDir read_dir =>
      match read_dir with
      | Err error => Err (IoAtPath path "reading directory" error)
      | Ok listing =>
          entries <- try_map (fun entry =>
            match entry with
            | Err error => Err (IoAtPath path "reading directory entry" error)
            | Ok (name, child) =>
                node <- read_child child (child_path path name) ;;
                Ok (name, node)
            end) listing ;;
          Ok (NDirectory (sort_by fst entries))
      end
  | FSymlink read_link => read_symlink_node path read_link
  | FSpecial => Err (UnsupportedFileType path)
  | FNoMetadata error => Err (IoAtPath path "reading metadata" error)
  end.

Definition load_path (path : bytes) (obj : FsObj) : result FsError Node :=
  match obj with
  | FSymlink _ => Err (UnsupportedRootSymlink path)
  | _ => read_child obj path
  end.

Definition load_directory_path (path : bytes) (obj : FsObj) : result FsError Node :=
  match obj with
  | FNoMetadata error => Err (IoAtPath path "reading metadata" error)
  | FDir _ => read_child obj path
  | _ => Err (UnsupportedFileType path)
  end.

Definition hash_path (path : bytes) (obj : FsObj) : result FsError bytes :=
  node <- load_path path obj ;;
  Ok (hash_node node).
End Tar.

(** ** The tree an entry map describes *)

Definition pending_of (n : Node) : PendingEntry :=
  match n with
  | NFile f => PFile f
  | NDirectory _ => PDirectory
  | NSymlink t => PSymlink t
  end.

(** What a tree holds at a path. *)
Fixpoint node_at (n : Node) (p : PathComponents) : option PendingEntry :=
  match p with
  | [] => Some (pending_of n)
  | name :: p' =>
      match n with
      | NDirectory es => match assoc name es with Some c => node_at c p' | None => None end
      | _ => None
      end
  end.

(** Directories list their entries in strict name order. *)
Inductive canonical : Node -> Prop :=
| canonical_file f : canonical (NFile f)
| canonical_symlink t : canonical (NSymlink t)
| canonical_directory es :
    StronglySorted (key_lt fst) es -> Forall (fun e => canonical e.2) es ->
    canonical (NDirectory es).

(** Every entry below the root lies in a directory of the map. *)
Definition parent_closed (m : Entries) : Prop :=
  m !! [] = None /\
  forall p name, p <> [] -> is_Some (m !! (p ++ [name])) -> m !! p = Some PDirectory.

Lemma canonical_NoDup es : canonical (NDirectory es) -> NoDup (map fst es).
Proof. inversion_clear 1. by apply sorted_lt_NoDup. Qed.

(** A canonical tree is determined by what it holds at each path. *)
Lemma canonical_ext n1 n2 :
  canonical n1 -> canonical n2 -> (forall p, node_at n1 p = node_at n2 p) -> n1 = n2.
Proof.
  revert n2. induction n1 as [f|t|es1 IH] using Node_nested_ind; intros n2 H1 H2 Hp;
    pose proof (Hp []) as H0; destruct n2 as [f2|es2|t2]; try discriminate H0;
    try (injection H0 as ->; reflexivity).
  f_equal. pose proof (canonical_NoDup _ H1) as Hd1. pose proof (canonical_NoDup _ H2) as Hd2.
  inversion_clear H1 as [| |? Hs1 Hc1]. inversion_clear H2 as [| |? Hs2 Hc2].
  apply sorted_perm_unique with (key := fst); [assumption..|].
  rewrite Forall_forall in IH, Hc1, Hc2.
  assert (Hchild : forall name c1 c2, (name, c1) ∈ es1 -> (name, c2) ∈ es2 -> c1 = c2).
  { intros name c1 c2 Hi1 Hi2. apply (IH _ Hi1); [exact (Hc1 _ Hi1)|exact (Hc2 _ Hi2)|].
    intros p. specialize (Hp (name :: p)). cbn [node_at] in Hp.
    by rewrite (proj2 (assoc_in _ _ _ Hd1) Hi1), (proj2 (assoc_in _ _ _ Hd2) Hi2) in Hp. }
  apply NoDup_Permutation; [by eapply NoDup_fmap_1..|]. intros [name c].
  specialize (Hp [name]). cbn [node_at] in Hp.
  split; intros Hin; [rewrite (proj2 (assoc_in _ _ _ Hd1) Hin) in Hp
                     |rewrite (proj2 (assoc_in _ _ _ Hd2) Hin) in Hp].
  - destruct (assoc name es2) as [c2|] eqn:E; [|discriminate]. apply assoc_in in E; [|done].
    by rewrite (Hchild _ _ _ Hin E).
  - destruct (assoc name es1) as [c1|] eqn:E; [|discriminate]. apply assoc_in in E; [|done].
    by rewrite <- (Hchild _ _ _ E Hin).
Qed.

(** ** [build_tree] *)

Lemma take_last_snoc (p : PathComponents) name :
  last p = Some name -> p = take (length p - 1) p ++ [name].
Proof.
  intros [l ->]%last_Some. rewrite length_app. simpl.
  replace (length l + 1 - 1)%nat with (length l) by lia. by rewrite take_app_length.
Qed.

Lemma child_names_spec (m : Entries) prefix name :
  name ∈ default ∅ (child_names m !! prefix) <-> is_Some (m !! (prefix ++ [name])).
Proof.
  unfold child_names. revert m. apply (map_fold_weak_ind (fun acc m =>
    name ∈ default ∅ (acc !! prefix) <-> is_Some (m !! (prefix ++ [name])))).
  - rewrite !lookup_empty. simpl. split; [set_solver|]. by intros [? [=]].
  - intros path e m acc Hnone IH. destruct (last path) as [last_name|] eqn:El.
    2: { apply last_None in El as ->. rewrite lookup_insert_ne by (by destruct prefix). done. }
    pose proof (take_last_snoc _ _ El) as Hpath.
    destruct (decide (take (length path - 1) path = prefix)) as [Hpre|Hpre].
    + rewrite Hpre, lookup_insert_eq. simpl. rewrite elem_of_union, elem_of_singleton.
      rewrite Hpre in Hpath. destruct (decide (name = last_name)) as [->|Hne].
      * rewrite <- Hpath, lookup_insert_eq. split; [by eexists|by left].
      * rewrite IH, lookup_insert_ne; [tauto|]. rewrite Hpath. intros E.
        apply app_inj_2 in E as [_ [= ?]]; [congruence|done].
    + rewrite lookup_insert_ne by done. rewrite IH, lookup_insert_ne; [done|].
      intros Heq. apply Hpre. rewrite Heq in Hpath.
      apply app_inj_2 in Hpath as [? _]; [|done]. rewrite Heq. congruence.
Qed.

Lemma max_depth_spec (m : Entries) p e : m !! p = Some e -> (length p <= max_depth m)%nat.
Proof.
  unfold max_depth. revert m. apply (map_fold_weak_ind (fun n m =>
    m !! p = Some e -> (length p <= n)%nat)); [by rewrite lookup_empty|].
  intros q e' m n Hq IH. destruct (decide (q = p)) as [->|Hne]; [lia|].
  rewrite lookup_insert_ne by done. intros Hp. specialize (IH Hp). lia.
Qed.

Lemma set_iter_spec (s : gset bytes) :
  StronglySorted (key_lt id) (set_iter s) /\ forall x, x ∈ set_iter s <-> x ∈ s.
Proof.
  unfold set_iter. split.
  - apply sorted_strict; [apply sort_by_sorted|]. rewrite map_id, sort_by_perm. apply NoDup_elements.
  - intros x. rewrite sort_by_perm. apply elem_of_elements.
Qed.

Lemma parent_closed_prefix m p q :
  parent_closed m -> p <> [] -> q <> [] -> is_Some (m !! (p ++ q)) -> m !! p = Some PDirectory.
Proof.
  intros [_ Hc] Hp Hq. induction q as [|x q IH] using rev_ind; [done|].
  rewrite app_assoc. intros Hs. destruct (decide (q = [])) as [->|Hne].
  - rewrite app_nil_r in Hs. by eapply Hc.
  - apply (IH Hne). exists PDirectory. eapply Hc; [|exact Hs]. by destruct p.
Qed.

Lemma try_collect_total {A B} (f : A -> option B) (P : A -> B -> Prop) l :
  (forall x, x ∈ l -> exists y, f x = Some y /\ P x y) ->
  exists ys, try_collect f l = Some ys /\ Forall2 P l ys.
Proof.
  induction l as [|x l IH]; intros Hf; [by exists []; split|]. cbn [try_collect].
  destruct (Hf x) as (y & -> & Hy); [left|].
  destruct IH as (ys & -> & Hys); [intros z Hz; apply Hf; by right|].
  exists (y :: ys). split; [reflexivity|]. by constructor.
Qed.

Section BuildDirectory.
Context (m : Entries) (Hclosed : parent_closed m).

(** A built child [(name, node)] of [prefix]. *)
Definition built (prefix : PathComponents) (name : bytes) (child : bytes * Node) : Prop :=
  child.1 = name /\ canonical child.2 /\
  forall q, node_at child.2 q = m !! (prefix ++ name :: q).

(** Nothing lies below an entry that is not a directory. *)
Lemma leaf_built prefix name n :
  m !! (prefix ++ [name]) = Some (pending_of n) -> node_kind n <> KDirectory ->
  canonical n -> built prefix name (name, n).
Proof.
  intros Hm Hk Hc. split; [done|]. split; [done|]. intros [|x q].
  - by rewrite Hm.
  - assert (Hnone : m !! ((prefix ++ [name]) ++ x :: q) = None).
    { destruct (m !! ((prefix ++ [name]) ++ x :: q)) eqn:E; [|done].
      rewrite (parent_closed_prefix m (prefix ++ [name]) (x :: q)) in Hm;
        [by destruct n|done|by destruct prefix|done|by eexists]. }
    rewrite <- app_assoc in Hnone. simpl in Hnone. rewrite Hnone. by destruct n.
Qed.

Lemma names_built prefix names es :
  Forall2 (built prefix) names es -> map fst es = names.
Proof. induction 1 as [|name e names es [Hn _] _ IH]; [done|]. simpl. by rewrite Hn, IH. Qed.

Lemma built_directory prefix names es :
  StronglySorted (key_lt id) names ->
  (forall name, name ∈ names <-> is_Some (m !! (prefix ++ [name]))) ->
  Forall2 (built prefix) names es ->
  canonical (NDirectory es) /\
  forall q, q <> [] -> node_at (NDirectory es) q = m !! (prefix ++ q).
Proof.
  intros Hs Hn Hb. pose proof (names_built _ _ _ Hb) as Hnames.
  assert (Hc : canonical (NDirectory es)).
  { constructor.
    - rewrite <- Hnames in Hs. clear -Hs. induction es as [|e es IH]; [constructor|].
      inversion_clear Hs as [|? ? Hs' He]. constructor; [by apply IH|]. apply (proj1 (Forall_fmap _ _ _)) in He. exact He.
    - clear -Hb. induction Hb as [|? ? ? ? (_ & ? & _)]; by constructor. }
  split; [done|]. intros [|name q] Hq; [done|]. cbn [node_at].
  destruct (assoc name es) as [c|] eqn:E.
  - apply assoc_in in E; [|by apply canonical_NoDup]. apply list_elem_of_lookup in E as [i Hi].
    destruct (Forall2_lookup_r _ _ _ _ _ Hb Hi) as (n' & Hn' & Hname & _ & Hat).
    simpl in Hname. subst n'. apply Hat.
  - apply assoc_none in E. rewrite Hnames, Hn in E. symmetry.
    destruct (m !! (prefix ++ name :: q)) eqn:Em; [|done]. destruct E.
    destruct q as [|x q]; [by eexists|]. exists PDirectory.
    apply (parent_closed_prefix m (prefix ++ [name]) (x :: q));
      [done|by destruct prefix|done|]. rewrite <- app_assoc. by eexists.
Qed.

Lemma build_directory_spec fuel prefix :
  (length prefix <= max_depth m)%nat -> (max_depth m < fuel + length prefix)%nat ->
  exists es, build_directory fuel m (child_names m) prefix = Some (NDirectory es) /\
    canonical (NDirectory es) /\
    forall q, q <> [] -> node_at (NDirectory es) q = m !! (prefix ++ q).
Proof.
  revert prefix. induction fuel as [|fuel IH]; intros prefix Hp Hf; [lia|]. cbn [build_directory].
  pose proof (child_names_spec m prefix) as Hn.
  destruct (child_names m !! prefix) as [children|]; simpl in Hn.
  2: { exists []. split; [done|]. apply (built_directory prefix [] []); [constructor| |constructor].
       intros name. rewrite <- Hn. set_solver. }
  destruct (set_iter_spec children) as [Hs Hi].
  assert (Hn' : forall name, name ∈ set_iter children <-> is_Some (m !! (prefix ++ [name])))
    by (intros name; by rewrite Hi).
  match goal with |- context [try_collect ?f (set_iter children)] =>
    destruct (try_collect_total f (built prefix) (set_iter children)) as (es & -> & Hes) end.
  2: { exists es. split; [done|]. by eapply built_directory. }
  intros name [e He]%Hn'. cbv beta zeta. rewrite He. destruct e as [f| |t].
  - eexists. split; [done|]. apply leaf_built; [done..|constructor].
  - pose proof (max_depth_spec m _ _ He) as Hd. rewrite length_app in Hd. simpl in Hd.
    destruct (IH (prefix ++ [name])) as (es & -> & Hc & Hat); [rewrite length_app; simpl; lia..|].
    eexists. split; [reflexivity|]. split; [done|]. split; [done|]. intros [|x q].
    + by rewrite He.
    + cbn [snd]. rewrite Hat by done. by rewrite <- app_assoc.
  - eexists. split; [done|]. apply leaf_built; [done..|constructor].
Qed.
End BuildDirectory.

(** Totality and functional correctness of [build_tree]. *)
Lemma build_tree_spec m :
  parent_closed m ->
  exists n, build_tree m = Some n /\ canonical n /\ node_kind n = KDirectory /\
    forall p, p <> [] -> node_at n p = m !! p.
Proof.
  intros Hc. destruct (build_directory_spec m Hc (S (max_depth m)) []) as (es & E & Hcan & Hat);
    [simpl; lia..|]. exists (NDirectory es). split; [exact E|]. split; [done|]. split; [done|].
  exact Hat.
Qed.

(** ** What a sequence of entries describes *)

Definition insert_all (m : Entries) (l : list (PathComponents * PendingEntry))
  : result FsError Entries :=
  try_fold (fun m x => insert_entry m x.1 x.2) m l.

(** [q] is a proper, non-root ancestor of [p]. *)
Definition ancestor (q p : PathComponents) : Prop :=
  q <> [] /\ exists s, s <> [] /\ p = q ++ s.

(** The abstract meaning of a list of entries: the entries themselves and a
    directory at every ancestor. *)
Definition described (l : list (PathComponents * PendingEntry)) (p : PathComponents)
    (e : PendingEntry) : Prop :=
  (p, e) ∈ l \/ (e = PDirectory /\ exists p' e', (p', e') ∈ l /\ ancestor p p').

Definition represents (m : Entries) (l : list (PathComponents * PendingEntry)) : Prop :=
  forall p e, m !! p = Some e <-> described l p e.

Definition is_leaf (x : PathComponents * PendingEntry) : bool :=
  match x.2 with PDirectory => false | _ => true end.

Lemma ancestor_take q p :
  ancestor q p <-> exists d, (1 <= d <= length p - 1)%nat /\ q = take d p.
Proof.
  split.
  - intros (Hq & s & Hs & ->). exists (length q). rewrite take_app_length, length_app.
    destruct q, s; try done. simpl. split; [lia|done].
  - intros (d & Hd & ->). split; [destruct p, d; simpl in *; (lia || done)|].
    exists (drop d p). rewrite take_drop. split; [|done]. intros E%(f_equal length).
    rewrite length_drop in E. simpl in E. lia.
Qed.

Lemma ancestor_irrefl p : ~ ancestor p p.
Proof.
  intros (_ & s & Hs & E%(f_equal length)). rewrite length_app in E. destruct s; [done|].
  simpl in E. lia.
Qed.

(** [insert_implicit_parents] up to depth [k]. *)
Lemma parents_sound p k m m' :
  (k <= length p - 1)%nat -> try_fold (insert_parent p) m (seq 1 k) = Ok m' ->
  forall q e, m' !! q = Some e <->
    m !! q = Some e \/ (e = PDirectory /\ exists d, (1 <= d <= k)%nat /\ q = take d p).
Proof.
  revert m'. induction k as [|k IH]; intros m' Hk.
  { simpl. intros [= <-] q e. split; [by left|]. intros [|(_ & d & Hd & _)]; [done|lia]. }
  rewrite seq_S, try_fold_app. intros H q e. inv_res. specialize (IH a ltac:(lia) eq_refl).
  cbn [try_fold] in H. inv_res. unfold insert_parent in E0.
  assert (Hcase : (exists d, (1 <= d <= S k)%nat /\ q = take d p) <->
                  (exists d, (1 <= d <= k)%nat /\ q = take d p) \/ q = take (1 + k) p).
  { split.
    - intros (d & Hd & ->). destruct (decide (d = 1 + k)%nat) as [->|]; [by right|].
      left. exists d. split; [lia|done].
    - intros [(d & Hd & ->)| ->]; eexists; (split; [|reflexivity]); lia. }
  rewrite Hcase. clear Hcase.
  destruct (a !! take (1 + k) p) as [x|] eqn:Ex.
  - destruct x; inv_res. rewrite IH. split; [tauto|].
    intros [?|(-> & [?|Hq])]; [tauto..|]. rewrite <- IH. by rewrite Hq.
  - inv_res. destruct (decide (q = take (1 + k) p)) as [->|Hne].
    + rewrite lookup_insert_eq. split; [intros [= <-]; tauto|].
      intros [Hm|(-> & _)]; [|done]. assert (Ha : a !! take (1 + k) p = Some e) by (apply IH; tauto).
      by rewrite Ex in Ha.
    + rewrite lookup_insert_ne by done. rewrite IH. tauto.
Qed.

Lemma parents_complete p k m :
  (k <= length p - 1)%nat ->
  (forall d e, (1 <= d <= k)%nat -> m !! take d p = Some e -> e = PDirectory) ->
  exists m', try_fold (insert_parent p) m (seq 1 k) = Ok m'.
Proof.
  induction k as [|k IH]; intros Hk Hm; [by eexists|].
  destruct IH as [a Ha]; [lia|intros d e Hd; apply Hm; lia|].
  rewrite seq_S, try_fold_app, Ha. cbn [try_fold]. unfold insert_parent.
  destruct (a !! take (1 + k) p) as [x|] eqn:Ex; [|by eexists].
  apply (parents_sound p k m a ltac:(lia) Ha) in Ex as [Hx|(-> & _)]; [|by eexists].
  rewrite (Hm (1 + k)%nat x ltac:(lia) Hx). by eexists.
Qed.

Lemma insert_entry_sound m p e m' l :
  represents m l -> insert_entry m p e = Ok m' ->
  represents m' (l ++ [(p, e)]) /\ (is_leaf (p, e) = true -> m !! p = None).
Proof.
  intros Hr H. unfold insert_entry, insert_implicit_parents in H. inv_res.
  pose proof (parents_sound p (length p - 1) m a ltac:(lia) E) as Ha.
  assert (Hpa : a !! p = m !! p).
  { apply option_eq. intros x. rewrite Ha, <- ancestor_take. split; [|tauto].
    intros [?|(_ & Hx)]; [done|]. by apply ancestor_irrefl in Hx. }
  assert (Hm' : forall q x, m' !! q = Some x <-> (q, x) = (p, e) \/ a !! q = Some x).
  { intros q x. destruct (a !! p) as [y|] eqn:Ey.
    - destruct y, e; inv_res; try (destruct (bool_decide _); inv_res).
      split; [tauto|]. intros [[= -> ->]|]; done.
    - inv_res. destruct (decide (q = p)) as [->|Hne].
      + rewrite lookup_insert_eq. split; [intros [= <-]; by left|].
        intros [[= ->]|Hx]; [done|]. by rewrite Ey in Hx.
      + rewrite lookup_insert_ne by done. split; [tauto|]. intros [[= -> _]|]; done. }
  split.
  - intros q x. rewrite Hm', Ha, (Hr q x), <- ancestor_take. unfold described.
    setoid_rewrite elem_of_app. setoid_rewrite list_elem_of_singleton. split.
    + intros [?|[[?|(-> & p' & e' & Hin & Hanc)]|(-> & Hanc)]]; [tauto|tauto| |]; right.
      * split; [done|]. exists p', e'. tauto.
      * split; [done|]. exists p, e. tauto.
    + intros [[?|?]|(-> & p' & e' & [Hin|[= -> ->]] & Hanc)]; [tauto|tauto| |tauto].
      right. left. right. split; [done|]. by exists p', e'.
  - intros Hleaf. rewrite <- Hpa. destruct (a !! p) as [y|] eqn:Ey; [|done].
    destruct y, e; inv_res; try (destruct (bool_decide _); inv_res). discriminate.
Qed.

(** The meaning is a partial function of the path. *)
Definition functional (l : list (PathComponents * PendingEntry)) : Prop :=
  forall p e1 e2, described l p e1 -> described l p e2 -> e1 = e2.

Lemma insert_entry_complete m p e l :
  represents m l -> functional (l ++ [(p, e)]) ->
  (is_leaf (p, e) = true -> (p, e) ∉ l) -> exists m', insert_entry m p e = Ok m'.
Proof.
  intros Hr Hf Hl. unfold insert_entry, insert_implicit_parents.
  assert (Hold : forall q x, m !! q = Some x -> described (l ++ [(p, e)]) q x).
  { intros q x Hx. apply Hr in Hx as [Hx|(-> & p' & e' & Hin & Hanc)].
    - left. rewrite elem_of_app. by left.
    - right. split; [done|]. exists p', e'. rewrite elem_of_app. tauto. }
  destruct (parents_complete p (length p - 1) m ltac:(lia)) as [a Ha].
  { intros d x Hd Hx. apply (Hf (take d p)); [by apply Hold|]. right. split; [done|].
    exists p, e. rewrite elem_of_app, list_elem_of_singleton. split; [by right|].
    apply ancestor_take. by exists d. }
  rewrite Ha. pose proof (parents_sound p (length p - 1) m a ltac:(lia) Ha) as Hs.
  destruct (a !! p) as [y|] eqn:Ey; [|by eexists].
  apply Hs in Ey as [Ey|(_ & Hanc%ancestor_take)]; [|by apply ancestor_irrefl in Hanc].
  assert (y = e) as ->.
  { apply (Hf p); [by apply Hold|]. left. rewrite elem_of_app, list_elem_of_singleton. by right. }
  destruct e as [f| |t]; [|by eexists|]; exfalso;
    apply Hr in Ey as [Ey|([=] & _)]; by apply Hl in Ey.
Qed.

Abbreviation leaf_items l := (filter (fun x => is_leaf x = true) l).

Lemma represents_nil : represents ∅ [].
Proof.
  intros p e. rewrite lookup_empty. split; [done|].
  intros [H|(_ & ? & ? & H & _)]; inversion H.
Qed.

Lemma insert_all_sound l m :
  insert_all ∅ l = Ok m -> represents m l /\ NoDup (leaf_items l).
Proof.
  revert m. induction l as [|[p e] l IH] using rev_ind; intros m H.
  { injection H as <-. split; [apply represents_nil|constructor]. }
  unfold insert_all in H. rewrite try_fold_app in H. inv_res. cbn [try_fold] in H. inv_res.
  destruct (IH _ E) as [Hr Hd]. destruct (insert_entry_sound _ _ _ _ _ Hr E0) as [Hr' Hl].
  split; [done|]. rewrite filter_app, NoDup_app. split; [done|].
  destruct (is_leaf (p, e)) eqn:El.
  - rewrite filter_cons_True, filter_nil by done. split; [|repeat constructor; by intros ?%elem_of_nil].
    intros x Hx ->%list_elem_of_singleton. apply list_elem_of_filter in Hx as [_ Hx].
    specialize (Hl El). simpl in Hl. by rewrite (proj2 (Hr p e) (or_introl Hx)) in Hl.
  - rewrite filter_cons_False, filter_nil by (by rewrite El). split; [|constructor].
    intros x _ Hx. inversion Hx.
Qed.

Lemma described_mono l k p e : (forall x, x ∈ l -> x ∈ k) -> described l p e -> described k p e.
Proof.
  intros Hlk [H|(-> & p' & e' & H & Ha)]; [left; by apply Hlk|].
  right. split; [done|]. exists p', e'. split; [by apply Hlk|done].
Qed.

Lemma insert_all_complete l :
  functional l -> NoDup (leaf_items l) -> exists m, insert_all ∅ l = Ok m.
Proof.
  induction l as [|[p e] l IH] using rev_ind; intros Hf Hd; [by eexists|].
  rewrite filter_app, NoDup_app in Hd. destruct Hd as (Hd & Hdisj & _).
  destruct IH as [m Hm]; [|done|].
  { intros q e1 e2 H1 H2. apply (Hf q); (eapply described_mono; [|eassumption]);
      intros x Hx; rewrite elem_of_app; by left. }
  destruct (insert_all_sound _ _ Hm) as [Hr _].
  destruct (insert_entry_complete m p e l Hr Hf) as [m' Hm'].
  { intros El Hin. apply (Hdisj (p, e)).
    - by apply list_elem_of_filter.
    - apply list_elem_of_filter. split; [done|]. by apply list_elem_of_singleton. }
  exists m'. unfold insert_all in *. rewrite try_fold_app, Hm. cbn [try_fold]. simpl. by rewrite Hm'.
Qed.

Lemma represents_functional m l : represents m l -> functional l.
Proof. intros Hr p e1 e2 H1%Hr H2%Hr. congruence. Qed.

Lemma represents_unique m m' l k :
  (forall x, x ∈ l <-> x ∈ k) -> represents m l -> represents m' k -> m = m'.
Proof.
  intros Hlk Hm Hm'. apply map_eq. intros p. apply option_eq. intros e.
  rewrite (Hm p e), (Hm' p e). split; apply described_mono; apply Hlk.
Qed.

(** Insertion does not depend on the order of the entries. *)
Lemma insert_all_perm l k m : l ≡ₚ k -> insert_all ∅ l = Ok m -> insert_all ∅ k = Ok m.
Proof.
  intros Hp H. destruct (insert_all_sound _ _ H) as [Hr Hd].
  assert (Hlk : forall x, x ∈ l <-> x ∈ k) by (intros x; by rewrite Hp).
  destruct (insert_all_complete k) as [m' Hm'].
  - intros p e1 e2 H1 H2. apply (represents_functional _ _ Hr p);
      (eapply described_mono; [|eassumption]); apply Hlk.
  - by rewrite <- Hp.
  - destruct (insert_all_sound _ _ Hm') as [Hr' _]. by rewrite (represents_unique m m' l k).
Qed.

Lemma represents_closed m l :
  Forall (fun x => x.1 <> []) l -> represents m l -> parent_closed m.
Proof.
  intros Hne Hr. rewrite Forall_forall in Hne. split.
  - destruct (m !! []) as [e|] eqn:E; [|done].
    apply Hr in E as [E|(_ & _ & _ & _ & E & _)]; [|done]. by apply Hne in E.
  - intros p name Hp [e He]. apply Hr. right. split; [done|].
    apply Hr in He as [He|(_ & p' & e' & Hin & _ & s & Hs & ->)].
    + exists (p ++ [name]), e. split; [done|]. split; [done|]. by exists [name].
    + exists ((p ++ [name]) ++ s), e'. split; [done|]. split; [done|].
      exists ([name] ++ s). by rewrite <- app_assoc.
Qed.

(** ** Archive paths *)

Lemma push_components_sound raw acc pieces r :
  Forall (fun p => 47%Z ∉ p) pieces -> Forall valid_name acc ->
  try_fold (push_component raw) acc pieces = Ok r -> Forall valid_name r.
Proof.
  intros Hp. revert acc. induction Hp as [|p pieces Hs Hp IH]; intros acc Ha H; cbn [try_fold] in H.
  - by inv_res.
  - inv_res. apply (IH a); [|done]. unfold push_component in E.
    destruct (bytes_eqb p [] || bytes_eqb p [46]%Z) eqn:E1; [by inv_res|].
    destruct (bytes_eqb p [46; 46]%Z) eqn:E2; inv_res. bools.
    apply Forall_app. split; [done|]. repeat constructor; done.
Qed.

Lemma push_components_valid raw acc pieces :
  Forall valid_name pieces -> try_fold (push_component raw) acc pieces = Ok (acc ++ pieces).
Proof.
  intros Hp. revert acc. induction Hp as [|p pieces (Hne & _ & Hd & Hdd) Hp IH]; intros acc;
    cbn [try_fold]; [by rewrite app_nil_r|].
  unfold push_component at 1, bytes_eqb. rewrite !bool_decide_false by done. simpl.
  by rewrite IH, <- app_assoc.
Qed.

Lemma normalize_sound raw p :
  normalize_archive_path raw = Ok p -> p <> [] /\ Forall valid_name p.
Proof.
  unfold normalize_archive_path. intros H. inv_res. bools. split; [done|].
  eapply push_components_sound; [apply split_on_pieces|constructor|exact E].
Qed.

Lemma valid_join_head name p :
  Forall valid_name (name :: p) ->
  exists x rest, join_with [47]%Z (name :: p) = x :: rest /\ x <> 47%Z /\
    strip_prefix [46; 47]%Z (x :: rest) = None.
Proof.
  intros [(Hne & Hs & Hd & Hdd) Hp]%Forall_cons_1. destruct name as [|x name]; [done|].
  apply not_elem_of_cons in Hs as [Hx Hs].
  assert (Hj : exists rest, join_with [47]%Z ((x :: name) :: p) = x :: name ++ rest).
  { destruct p as [|q p]; [exists []; simpl; by rewrite app_nil_r|]. by eexists. }
  destruct Hj as [rest ->]. exists x, (name ++ rest). split; [done|]. split; [done|].
  cbn [strip_prefix]. destruct (46 =? x)%Z eqn:E; bools; [|done]. subst x.
  destruct name as [|y name]; [done|]. simpl. apply not_elem_of_cons in Hs as [Hy _].
  destruct y; simpl; try done. repeat (destruct p0; try done).
Qed.

Lemma normalize_join p :
  p <> [] -> Forall valid_name p -> normalize_archive_path (join_with [47]%Z p) = Ok p.
Proof.
  intros Hne Hp. destruct p as [|name p]; [done|].
  destruct (valid_join_head name p Hp) as (x & rest & Ej & Hx & Es).
  assert (Hst : starts_with [47]%Z (x :: rest) = false).
  { unfold starts_with. cbn [strip_prefix]. by rewrite (proj2 (Z.eqb_neq 47 x)) by congruence. }
  unfold normalize_archive_path. rewrite Ej. cbv zeta. rewrite Es, Hst. unfold bytes_eqb at 1.
  rewrite bool_decide_false by done. rewrite <- Ej, split_on_join by
    (done || (eapply Forall_impl; [exact Hp|]; by intros ? (_ & ? & _))).
  by rewrite push_components_valid by done.
Qed.

(** ** Loading an archive *)

Section TarFacts.
Context `{Sha256Api}.

(** One archive entry, before insertion. *)
Definition tar_item (er : result string TarEntry) : result FsError (PathComponents * PendingEntry) :=
  entry <- map_err TarRead er ;;
  path <- normalize_archive_path (te_path entry) ;;
  pending <- tar_pending entry path ;;
  Ok (path, pending).

Lemma load_tar_items archive m m' :
  try_fold load_tar_entry m archive = Ok m' <->
  exists items, try_map tar_item archive = Ok items /\ insert_all m items = Ok m'.
Proof.
  revert m. induction archive as [|er archive IH]; intros m; cbn [try_fold try_map].
  { split; [by exists []|]. intros (items & [= <-] & ?). done. }
  unfold load_tar_entry at 1, tar_item at 1.
  destruct (map_err TarRead er) as [entry|]; [|split; [done|by intros (? & ? & _)]].
  destruct (normalize_archive_path (te_path entry)) as [path|]; [|split; [done|by intros (? & ? & _)]].
  destruct (tar_pending entry path) as [pending|]; [|split; [done|by intros (? & ? & _)]]. split.
  - intros H1. inv_res. apply IH in H1 as (items & -> & Hi). eexists. split; [done|].
    unfold insert_all in *. cbn [try_fold fst snd]. by rewrite E.
  - intros (items & Hm & Hi). inv_res. unfold insert_all in Hi. cbn [try_fold fst snd] in Hi.
    inv_res. apply IH. by eexists.
Qed.

Lemma tar_items_paths archive items :
  try_map tar_item archive = Ok items ->
  Forall (fun x => x.1 <> [] /\ Forall valid_name x.1) items.
Proof.
  intros Hi%try_map_Forall2. induction Hi as [|er x archive items Hx _ IH]; constructor; [|done].
  unfold tar_item in Hx. inv_res. by eapply normalize_sound.
Qed.

Lemma load_tar_reader_ok archive on :
  load_tar_reader (Ok archive) = Ok on ->
  exists items m n, try_map tar_item archive = Ok items /\ insert_all ∅ items = Ok m /\
    on = Some n /\ build_tree m = Some n /\ canonical n /\ node_kind n = KDirectory /\
    forall p e, p <> [] -> node_at n p = Some e <-> described items p e.
Proof.
  unfold load_tar_reader. simpl. destruct (try_fold _ _ _) as [m|] eqn:E; [|done].
  intros [= <-]. apply load_tar_items in E as (items & Hi & Hm).
  pose proof (tar_items_paths _ _ Hi) as Hp. destruct (insert_all_sound _ _ Hm) as [Hr _].
  destruct (build_tree_spec m) as (n & Hb & Hc & Hk & Hat).
  { eapply represents_closed; [|exact Hr]. eapply Forall_impl; [exact Hp|]. by intros x [? _]. }
  exists items, m, n. repeat split; try done; rewrite Hat by done; apply Hr.
Qed.
End TarFacts.

(** Loading an archive never panics and builds exactly the tree the archive
    describes: the result is a directory in canonical order that holds, at
    every non-root path, each archived entry and a directory at each of its
    ancestors, and nothing else; every path component is a plain name (not
    empty, ["."], [".."] and without ["/"]). *)
Theorem tar_tree_described `{Sha256Api} archive on :
  load_tar_reader (Ok archive) = Ok on ->
  exists items n, try_map tar_item archive = Ok items /\ on = Some n /\
    canonical n /\ node_kind n = KDirectory /\
    Forall (fun x => Forall valid_name x.1) items /\
    forall p e, p <> [] -> node_at n p = Some e <-> described items p e.
Proof.
  intros Hl. destruct (load_tar_reader_ok _ _ Hl) as (items & m & n & Hi & Hm & -> & Hb & Hc & Hk & Hat).
  exists items, n. repeat split; try done; [|by apply Hat..].
  eapply Forall_impl; [by eapply tar_items_paths|]. by intros x [_ ?].
Qed.

(** The hash of an archive does not depend on the order of its entries: a
    permutation of an archive that loads also loads, to the same tree. *)
Theorem tar_order_insensitive `{Sha256Api} archive archive' on :
  archive ≡ₚ archive' -> load_tar_reader (Ok archive) = Ok on ->
  load_tar_reader (Ok archive') = Ok on /\
  hash_tar_reader (Ok archive') = hash_tar_reader (Ok archive).
Proof.
  intros Hp Hl. enough (load_tar_reader (Ok archive') = Ok on) as Hl'
    by (split; [done|]; unfold hash_tar_reader; by rewrite Hl, Hl').
  destruct (load_tar_reader_ok _ _ Hl) as (items & m & n & Hi & Hm & -> & Hb & _).
  destruct (try_map_perm _ _ _ _ Hp Hi) as (items' & Hi' & Hpi).
  assert (Hf : try_fold load_tar_entry ∅ archive' = Ok m).
  { apply load_tar_items. exists items'. split; [done|]. by eapply insert_all_perm. }
  unfold load_tar_reader. simpl. by rewrite Hf, Hb.
Qed.

(** ** Hashing a path and hashing its archive *)

(** The entries below [prefix], parents first. *)
Fixpoint listing (prefix : PathComponents) (n : Node) : list (PathComponents * PendingEntry) :=
  match n with
  | NDirectory es =>
      flat_map (fun e => (prefix ++ [e.1], pending_of e.2) :: listing (prefix ++ [e.1]) e.2) es
  | _ => []
  end.

(** Plain, pairwise distinct names in every directory. *)
Inductive proper : Node -> Prop :=
| proper_file f : proper (NFile f)
| proper_symlink t : proper (NSymlink t)
| proper_directory es :
    NoDup (map fst es) -> Forall (fun e => valid_name e.1 /\ proper e.2) es ->
    proper (NDirectory es).

Lemma listing_spec n prefix p e :
  proper n ->
  (p, e) ∈ listing prefix n <-> exists q, q <> [] /\ p = prefix ++ q /\ node_at n q = Some e.
Proof.
  revert prefix. induction n as [f|t|es IH] using Node_nested_ind; intros prefix Hp.
  1, 2: split; [intros Hx; inversion Hx|intros ([|x q] & Hq & _ & Hn); done].
  inversion_clear Hp as [| |? Hd Hes]. cbn [listing]. rewrite list_elem_of_In, in_flat_map.
  setoid_rewrite <- list_elem_of_In. split.
  - intros ([name c] & Hin & Hx). cbn [fst snd] in Hx.
    pose proof (proj2 (assoc_in name es c Hd) Hin) as Ha.
    apply elem_of_cons in Hx as [[= -> ->]|Hx].
    + exists [name]. cbn [node_at]. by rewrite Ha.
    + rewrite Forall_forall in IH, Hes. destruct (Hes _ Hin) as [_ Hc].
      apply (IH _ Hin) in Hx as (q & Hq & -> & Hn); [|done].
      exists (name :: q). cbn [node_at]. rewrite Ha, <- app_assoc. done.
  - intros ([|name q] & Hq & -> & Hn); [done|]. cbn [node_at] in Hn.
    destruct (assoc name es) as [c|] eqn:Ha; [|done]. apply assoc_in in Ha as Hin; [|done].
    exists (name, c). split; [done|]. cbn [fst snd]. rewrite elem_of_cons.
    destruct q as [|x q]; [left; by injection Hn as <-|]. right.
    rewrite Forall_forall in IH, Hes. destruct (Hes _ Hin) as [_ Hc].
    apply (IH _ Hin); [done|]. exists (x :: q). rewrite <- app_assoc. done.
Qed.

Lemma listing_NoDup n prefix : proper n -> NoDup (map fst (listing prefix n)).
Proof.
  revert prefix. induction n as [f|t|es IH] using Node_nested_ind; intros prefix Hp; [constructor..|].
  inversion_clear Hp as [| |? Hd Hes]. cbn [listing].
  induction es as [|[name c] es IHes]; cbn [flat_map fst snd]; [constructor|].
  apply Forall_cons_1 in IH as [IHc IH], Hes as [[Hv Hc] Hes]. cbn [map fst] in Hd.
  apply NoDup_cons in Hd as [Hni Hd]. simpl in Hv, Hc, IHc.
  assert (Hbelow : forall p', p' ∈ map fst (listing (prefix ++ [name]) c) ->
                   exists q, q <> [] /\ p' = (prefix ++ [name]) ++ q).
  { intros p' Hx. apply list_elem_of_fmap in Hx as ([p'' x] & -> & Hx).
    apply listing_spec in Hx as (q & Hq & -> & _); [|done]. by exists q. }
  assert (Hrest : forall p', p' ∈ map fst (flat_map (fun e : bytes * Node =>
              (prefix ++ [e.1], pending_of e.2) :: listing (prefix ++ [e.1]) e.2) es) ->
            exists name' q, name' ∈ map fst es /\ p' = prefix ++ name' :: q).
  { intros p' Hx. apply list_elem_of_fmap in Hx as ([p'' x] & -> & Hx).
    apply (listing_spec (NDirectory es) prefix) in Hx as (q & Hq & -> & Hn);
      [|by constructor]. destruct q as [|name' q]; [done|]. exists name', q. split; [|done].
    cbn [node_at] in Hn. destruct (assoc name' es) as [c'|] eqn:Ha; [|done].
    apply assoc_in in Ha; [|done]. by apply (list_elem_of_fmap_2 fst) in Ha. }
  rewrite map_app. cbn [map fst]. rewrite <- app_comm_cons, NoDup_cons, NoDup_app, elem_of_app. repeat split.
  - intros [(q & Hq & E)%Hbelow|(name' & q & Hin & E)%Hrest].
    + apply (f_equal length) in E. rewrite (length_app (prefix ++ [name])) in E. by destruct q; simpl in E; [|lia].
    + apply app_inj_1 in E as [_ [= -> _]]; [|done]. done.
  - by apply IHc.
  - intros p' (q & Hq & ->)%Hbelow (name' & q' & Hin & E)%Hrest.
    rewrite <- app_assoc in E. apply app_inj_1 in E as [_ [= -> _]]; done.
  - by apply IHes.
Qed.

(** Entries listed by a proper tree describe exactly that tree. *)
Lemma listing_described n p e :
  proper n -> described (listing [] n) p e <-> p <> [] /\ node_at n p = Some e.
Proof.
  intros Hn. unfold described. setoid_rewrite (listing_spec n []); [|done..]. split.
  - intros [(q & Hq & -> & Hat)|(-> & p' & e' & (q & Hq & -> & Hat) & Hp & s & Hs & E)]; [done|].
    simpl in E. subst q. split; [done|]. clear Hq. revert n Hn Hat. induction p as [|name p IH]; [done|]. intros n Hn Hat.
    simpl app in Hat. cbn [node_at] in *. destruct n as [|es|]; try done.
    destruct (assoc name es) as [c|] eqn:Ha; [|done]. destruct p as [|name' p].
    + destruct s as [|x s]; [done|]. simpl in Hat. by destruct c.
    + inversion_clear Hn as [| |? Hd Hes]. apply assoc_in in Ha; [|done].
      rewrite Forall_forall in Hes. destruct (Hes _ Ha). by apply IH.
  - intros [Hp Hat]. left. exists p. done.
Qed.

Lemma proper_rebuilds n l m :
  proper n -> canonical n -> node_kind n = KDirectory -> l ≡ₚ listing [] n ->
  insert_all ∅ l = Ok m -> build_tree m = Some n.
Proof.
  intros Hp Hc Hk Hl Hm. apply (insert_all_perm l (listing [] n)) in Hm; [|done].
  destruct (insert_all_sound _ _ Hm) as [Hr _].
  destruct (build_tree_spec m) as (n' & Hb & Hc' & Hk' & Hat).
  { eapply represents_closed; [|exact Hr]. apply Forall_forall. intros [q x] Hx.
    apply listing_spec in Hx as (q' & Hq & -> & _); done. }
  rewrite Hb. f_equal. apply canonical_ext; [done..|]. intros [|name p].
  - simpl. by destruct n, n'.
  - rewrite Hat by done. apply option_eq. intros e. rewrite (Hr _ e), listing_described by done.
    split; [by intros [_ ?]|]. by split.
Qed.

Lemma proper_inserts n : proper n -> exists m, insert_all ∅ (listing [] n) = Ok m.
Proof.
  intros Hp. apply insert_all_complete.
  - intros p e1 e2 H1 H2. apply listing_described in H1 as [_ H1], H2 as [_ H2]; [|done..]. congruence.
  - apply NoDup_filter. eapply NoDup_fmap_1. by apply listing_NoDup.
Qed.

Lemma FsObj_nested_ind (P : FsObj -> Prop) :
  (forall mode o, P (FRegular mode o)) -> (forall e, P (FDir (Err e))) ->
  (forall l, Forall (fun er => match er with Ok x => P x.2 | Err _ => True end) l ->
             P (FDir (Ok l))) ->
  (forall r, P (FSymlink r)) -> P FSpecial -> (forall e, P (FNoMetadata e)) ->
  forall o, P o.
Proof.
  intros Hf Hde Hd Hl Hs Hm. fix IH 1. intros [mode o|[l|e]|r| |e];
    [apply Hf|apply Hd|apply Hde|apply Hl|apply Hs|apply Hm].
  induction l as [|[[name c]|e] l IHl]; constructor; [apply IH|apply IHl|exact I|apply IHl].
Qed.

Section PathFacts.
Context `{Sha256Api}.

(** The bytes a successful read delivers: chunks up to end of file. *)
Fixpoint read_data (events : list ReadEvent) : bytes :=
  match events with
  | [] | Chunk [] :: _ | ReadError _ :: _ => []
  | Chunk b :: rest => b ++ read_data rest
  | Interrupted :: rest => read_data rest
  end.

Lemma sha256_reader_loop_spec events hashed size r :
  sha256_reader_loop hashed size events = Ok r ->
  r = (sha256 (hashed ++ read_data events), (size + len (read_data events))%Z).
Proof.
  revert hashed size. induction events as [|[[|x b]| |e] events IH]; intros hashed size;
    cbn [sha256_reader_loop read_data].
  - intros [= <-]. by rewrite app_nil_r, len_nil, Z.add_0_r.
  - intros [= <-]. by rewrite app_nil_r, len_nil, Z.add_0_r.
  - intros E%IH. rewrite E, <- app_assoc, len_app. f_equal. lia.
  - apply IH.
  - discriminate.
Qed.

(** The archive entry of one object, and the archive of a tree in [read_dir]
    order (parents first). *)
Definition tar_of (path : PathComponents) (o : FsObj) : TarEntry :=
  let raw := join_with [47]%Z path in
  match o with
  | FRegular mode (Ok events) => mkTarEntry TRegular raw (Ok mode) (Ok (read_data events)) None
  | FSymlink (Ok target) => mkTarEntry TSymlink raw (Ok 0%Z) (Ok []) (Some target)
  | FDir _ => mkTarEntry TDirectory raw (Ok 0%Z) (Ok []) None
  | _ => mkTarEntry (TOther 0) raw (Ok 0%Z) (Ok []) None
  end.

Fixpoint archive_of (prefix : PathComponents) (o : FsObj) : list TarEntry :=
  match o with
  | FDir (Ok l) =>
      flat_map (fun er =>
        match er with
        | Ok x => tar_of (prefix ++ [x.1]) x.2 :: archive_of (prefix ++ [x.1]) x.2
        | Err _ => []
        end) l
  | _ => []
  end.

Lemma read_child_dir l path :
  read_child (FDir (Ok l)) path =
  (entries <- try_map (fun entry =>
     match entry with
     | Err error => Err (IoAtPath path "reading directory entry" error)
     | Ok (name, child) =>
         node <- read_child child (child_path path name) ;; Ok (name, node)
     end) l ;;
   Ok (NDirectory (sort_by fst entries))).
Proof. reflexivity. Qed.

Lemma read_leaf o path n :
  (forall l, o <> FDir (Ok l)) -> read_child o path = Ok n ->
  canonical n /\ forall prefix, listing prefix n = []
  /\ archive_of prefix o = [].
Proof.
  intros Ho Hr. destruct o as [mode open|[l|]|r| |]; try discriminate Hr.
  - unfold read_child, read_file_node in Hr. inv_res. repeat split. constructor.
  - by destruct (Ho l).
  - unfold read_child, read_symlink_node in Hr. inv_res. repeat split. constructor.
Qed.

Lemma proper_canonical o path n : read_child o path = Ok n -> proper n -> canonical n.
Proof.
  revert path n. induction o as [mode open|e|l IH|r| |e] using FsObj_nested_ind; intros path n;
    try (intros Hr _; by apply read_leaf in Hr as [? _]).
  rewrite read_child_dir. intros Hr Hp. inv_res. inversion_clear Hp as [| |? Hd Hes].
  constructor; [by apply sorted_strict; [apply sort_by_sorted|]|].
  rewrite sort_by_perm in Hes |- *. clear Hd. apply try_map_Forall2 in E.
  induction E as [|er [name c] l entries Her E IHE]; [constructor|].
  apply Forall_cons_1 in IH as [IHc IH], Hes as [[_ Hc] Hes]. constructor; [|by apply IHE].
  destruct er as [[name' child]|]; [|done]. inv_res. by eapply IHc.
Qed.

Lemma tar_of_item o path raw_path n :
  path <> [] -> Forall valid_name path -> read_child o raw_path = Ok n ->
  tar_item (Ok (tar_of path o)) = Ok (path, pending_of n).
Proof.
  intros Hne Hv Hr. pose proof (normalize_join path Hne Hv) as Hn.
  destruct o as [mode [events|]|[l|]|[t|]| |]; try discriminate Hr;
    unfold tar_item, tar_of; cbv zeta; cbn [map_err te_path]; rewrite Hn; cbn -[sha256 Z.land].
  - unfold read_child, read_file_node in Hr. cbn [map_err] in Hr. inv_res.
    unfold sha256_reader in E. apply sha256_reader_loop_spec in E. injection E as -> ->.
    reflexivity.
  - rewrite read_child_dir in Hr. by inv_res.
  - by injection Hr as <-.
Qed.

Lemma archive_items o prefix raw_path n :
  Forall valid_name prefix -> read_child o raw_path = Ok n -> proper n ->
  exists items, try_map tar_item (map Ok (archive_of prefix o)) = Ok items /\
    items ≡ₚ listing prefix n.
Proof.
  revert prefix raw_path n. induction o as [mode open|e|l IH|r| |e] using FsObj_nested_ind;
    intros prefix raw_path n Hv;
    try (intros Hr _; apply read_leaf in Hr as [_ Hl]; [|done];
         destruct (Hl prefix) as [-> ->]; by exists []).
  rewrite read_child_dir. intros Hr Hp. inv_res. inversion_clear Hp as [| |? Hd Hes].
  cbn [archive_of listing].
  setoid_rewrite <- (Permutation_flat_map _ (symmetry (sort_by_perm fst a))).
  rewrite sort_by_perm in Hes. clear Hd. apply try_map_Forall2 in E.
  induction E as [|er [name c] l entries Her E IHE]; [by exists []|].
  apply Forall_cons_1 in IH as [IHc IH], Hes as [[Hname Hc] Hes].
  destruct (IHE IH Hes) as (rest & Hrest & Hprest). clear IHE. cbn [flat_map fst snd] in *.
  destruct er as [[name' child]|]; [|done]. inv_res. cbn [fst snd] in *.
  assert (Hv' : Forall valid_name (prefix ++ [name])) by (apply Forall_app_2; [done|by apply Forall_singleton]).
  destruct (IHc (prefix ++ [name]) _ _ Hv' E0 Hc) as (items & Hitems & Hpitems).
  exists (((prefix ++ [name], pending_of c) :: items) ++ rest). rewrite map_app, try_map_app.
  cbn [map try_map]. rewrite (tar_of_item _ (prefix ++ [name]) _ _ ltac:(by destruct prefix) Hv' E0).
  cbv iota beta. rewrite Hitems, Hrest. split; [done|]. by rewrite Hpitems, Hprest.
Qed.
End PathFacts.

(** C35. Hashing a directory and hashing an archive of it agree: if a path loads
    and its names are plain and distinct per directory, then any archive of
    the tree, in any entry order, loads to the same tree and has the same
    hash. *)
Theorem archive_hash_matches_path `{Sha256Api} path o n archive :
  load_path path o = Ok n -> node_kind n = KDirectory -> proper n ->
  archive ≡ₚ map Ok (archive_of [] o) ->
  hash_path path o = Ok (hash_node n) /\
  hash_tar_reader (Ok archive) = Ok (Some (hash_node n)).
Proof.
  intros Hl Hk Hp Ha. split; [unfold hash_path; by rewrite Hl|].
  assert (Hr : read_child o path = Ok n) by (by destruct o).
  destruct (archive_items o [] path n) as (items & Hi & Hpi); [constructor|done..|].
  destruct (try_map_perm _ _ _ _ (symmetry Ha) Hi) as (items' & Hi' & Hpi').
  destruct (proper_inserts n Hp) as (m & Hm).
  assert (Hlist : listing [] n ≡ₚ items') by (by rewrite <- Hpi', Hpi).
  apply (insert_all_perm _ _ _ Hlist) in Hm as Hm'.
  unfold hash_tar_reader, load_tar_reader. cbn [map_err].
  rewrite (proj2 (load_tar_items archive ∅ m)) by (by exists items').
  cbn -[build_tree]. rewrite (proper_rebuilds n items' m); [done|done| |done|by symmetry|done].
  by eapply proper_canonical.
Qed.

(** ** A concrete tree and its archive *)

Module FsArchiveExamples.
#[local] Existing Instance ToySha.sha256_api.

(** [z] (executable) and [d/l -> ../z], listed out of order, read in pieces. *)
Definition obj : FsObj :=
  FDir (Ok [Ok (lit "z", FRegular 0x1ed (Ok [Chunk [1; 2]%Z; Interrupted; Chunk [3]%Z; Chunk []]));
            Ok (lit "d", FDir (Ok [Ok (lit "l", FSymlink (Ok (lit "../z")))]))]).
Definition node : Node :=
  NDirectory [(lit "d", NDirectory [(lit "l", NSymlink (lit "../z"))]);
              (lit "z", NFile (mkFileNode true (sha256 [1; 2; 3]%Z) 3))].
Definition archive : list (result string TarEntry) := map Ok (archive_of [] obj).

Lemma valid_obj_name name :
  bool_decide (name <> []) && bool_decide (47%Z ∉ name) && bool_decide (name <> [46]%Z)
  && bool_decide (name <> [46; 46]%Z) = true -> valid_name name.
Proof. intros H. bools. done. Qed.

Lemma proper_node : proper node.
Proof.
  assert (Hd : forall es, bool_decide (NoDup (map fst es)) = true ->
               Forall (fun e => valid_name e.1 /\ proper e.2) es -> proper (NDirectory es)).
  { intros es H ?. bools. by constructor. }
  repeat first
    [ exact (proper_symlink _) | exact (proper_file _)
    | apply Hd; [vm_compute; reflexivity|]
    | apply Forall_cons_2 | apply Forall_nil_2
    | split; [apply valid_obj_name; vm_compute; reflexivity|] ].
Qed.

Lemma archive_hash_matches_path_witness :
  load_path (lit "/x") obj = Ok node /\
  hash_tar_reader (Ok (reverse archive)) = Ok (Some (hash_node node)).
Proof.
  assert (Hl : load_path (lit "/x") obj = Ok node) by (vm_compute; reflexivity).
  split; [exact Hl|].
  apply (archive_hash_matches_path (lit "/x") obj node (reverse archive) Hl eq_refl proper_node).
  apply reverse_Permutation.
Defined.

Lemma tar_order_insensitive_witness :
  load_tar_reader (Ok (reverse archive)) = Ok (Some node).
Proof.
  apply (tar_order_insensitive archive (reverse archive) (Some node)).
  - by rewrite reverse_Permutation.
  - vm_compute. reflexivity.
Defined.

Lemma tar_tree_described_witness :
  exists items n, try_map tar_item archive = Ok items /\ Some node = Some n /\
    forall p e, p <> [] -> node_at n p = Some e <-> described items p e.
Proof.
  destruct (tar_tree_described archive (Some node)) as (items & n & Hi & Hn & _ & _ & _ & Hat).
  - vm_compute. reflexivity.
  - by exists items, n.
Defined.
End FsArchiveExamples.
