(* ===== verification/TarProfile.v ===== *)
(** * The repository tar profile

    [bobr-repo/src/tar_profile.rs]: the restricted ustar format in which
    directory objects travel, its writer and its streaming extractor.  The
    reader is the list of bytes still to come; the destination tree is an
    explicit finite map from path components to nodes, so that every file
    system access of the extractor is visible. *)

From S2P Require Import Prelude Errors Hash.

Definition BLOCK : nat := 512.
Definition GNU_LONG_PATH : bytes := lit "././@LongLink".
Definition MAX_TAR_ENTRIES : u64 := 4 * 1024 * 1024.
Definition MAX_TAR_PATH_BYTES : usize := 64 * 1024.
Definition MAX_TAR_COMPONENT_BYTES : usize := 255.
Definition MAX_TAR_SYMLINK_TARGET_BYTES : usize := 4095.
Definition MAX_TAR_DEPTH : usize := 1024.
Definition MAX_TAR_STRUCTURAL_BYTES : u64 := 256 * 1024 * 1024.
Definition CANONICAL_TIMESTAMP : Z := 315532800.

Inductive NodeKind := Directory | File | Symlink.

#[export] Instance NodeKind_eq_dec : EqDecision NodeKind.
Proof. solve_decision. Defined.

(** Type flags. *)
Definition FLAG_NUL : u8 := 0.
Definition FLAG_FILE : u8 := 48.
Definition FLAG_LINK : u8 := 50.
Definition FLAG_DIR : u8 := 53.
Definition FLAG_LONGLINK : u8 := 75.
Definition FLAG_LONGNAME : u8 := 76.

(** [MODE_755], [MODE_644], [MODE_777] and [MODE_X] are the octal literals
    [0o755], [0o644], [0o777] and [0o111] of the source. *)
Definition MODE_755 : Z := 493.
Definition MODE_644 : Z := 420.
Definition MODE_777 : Z := 511.
Definition MODE_700 : Z := 448.
Definition MODE_X : Z := 73.

(** ** Numeric and text fields *)

(** One byte of [parse_octal]; the state is [(value, saw_digit, ended)]. *)
Definition parse_octal_byte (name : string) (st : u64 * bool * bool) (byte : u8)
  : result RepositoryError (u64 * bool * bool) :=
  let '(value, saw_digit, ended) := st in
  if (byte =? 32)%Z && negb saw_digit then Ok st
  else if (48 <=? byte)%Z && (byte <=? 55)%Z && negb ended then
    value <- ok_or (and_then (checked_mul value 8) (fun v => checked_add v (byte - 48)%Z))
               (repo_error ("tar " +:+ name +:+ " overflows u64")) ;;
    Ok (value, true, ended)
  else if ((byte =? 0)%Z || (byte =? 32)%Z) && saw_digit then Ok (value, saw_digit, true)
  else Err (repo_error ("invalid tar " +:+ name +:+ " field")).

Definition parse_octal (field : bytes) (name : string) : result RepositoryError u64 :=
  let* (value, saw_digit, _) := try_fold (parse_octal_byte name) (0%Z, false, false) field in
  if (saw_digit : bool) then Ok value
  else Err (repo_error ("empty tar " +:+ name +:+ " field")).

Definition parse_octal_empty (field : bytes) (name : string) : result RepositoryError unit :=
  if forallb (fun byte => (byte =? 0)%Z || (byte =? 32)%Z) field then Ok tt
  else parse_octal field name ;;; Ok tt.

Definition parse_size (field : bytes) : result RepositoryError u64 :=
  let first := nth 0 field 0%Z in
  if (Z.land first 0x80 =? 0)%Z then parse_octal field "size"
  else if negb (Z.land first 0x40 =? 0)%Z then Err (repo_error "negative base-256 tar size")
  else
    value <- try_fold (fun value byte =>
               ok_or (and_then (checked_mul value 256) (fun v => checked_add v byte))
                 (repo_error "base-256 tar size overflows u64"))
               (Z.land first 0x3f) (drop 1 field) ;;
    let octal_max := (Z.shiftl 1 (3 * (len field - 1)) - 1)%Z in
    if (value <=? octal_max)%Z then
      Err (repo_error "base-256 tar size is forbidden when octal encoding fits")
    else Ok value.

(** The position of the first NUL, or the field's length. *)
Fixpoint nul_position (field : bytes) : nat :=
  match field with
  | [] => 0
  | byte :: rest => if (byte =? 0)%Z then 0 else S (nul_position rest)
  end.

Definition nul_field (field : bytes) (name : string) : result RepositoryError bytes :=
  let end_ := nul_position field in
  if existsb (fun byte => negb (byte =? 0)%Z) (drop end_ field) then
    Err (repo_error ("tar " +:+ name +:+ " contains bytes after NUL"))
  else Ok (take end_ field).

(** [format!("{value:0width$o}")]: octal, zero-padded to at least [width]. *)
Fixpoint octal_width (fuel : nat) (value : Z) : nat :=
  match fuel with
  | O => 1
  | S fuel' => if (value <? 8)%Z then 1 else S (octal_width fuel' (value / 8))
  end.
Fixpoint octal_fixed (n : nat) (value : Z) : bytes :=
  match n with
  | O => []
  | S n' => (48 + (value / 8 ^ Z.of_nat n') mod 8)%Z :: octal_fixed n' value
  end.
Definition fmt_octal (width : nat) (value : u64) : bytes :=
  octal_fixed (Nat.max width (octal_width 22 value)) value.

(** [write_octal(&mut field, value)] on a field of [n] bytes. *)
Definition write_octal (n : nat) (value : u64) : result RepositoryError bytes :=
  let digits := (n - 1)%nat in
  let text := fmt_octal digits value in
  if (digits <? length text)%nat then
    Err (repo_error "value does not fit in ustar octal field")
  else Ok (text ++ [0]%Z).

(** [write_size(&mut field, value)] on a field of [n] bytes. *)
Definition write_size (n : nat) (value : u64) : result RepositoryError bytes :=
  let octal_max := (Z.shiftl 1 (3 * (Z.of_nat n - 1)) - 1)%Z in
  if (value <=? octal_max)%Z then write_octal n value
  else
    let b := be_bytes 8 value in
    if (n <? length b)%nat then Err (repo_error "file is too large for tar size field")
    else
      match repeat 0%Z (n - length b) ++ b with
      | first :: rest => Ok (Z.lor first 0x80 :: rest)
      | [] => Ok []
      end.

(** [ustar_path_fields]: the rightmost ['/'] that leaves a name of at most 100
    bytes and a prefix of at most 155. *)
Fixpoint find_rev {A : Type} (p : nat -> A -> bool) (i : nat) (l : list A) : option nat :=
  match l with
  | [] => None
  | x :: l' =>
      match find_rev p (S i) l' with
      | Some j => Some j
      | None => if p i x then Some i else None
      end
  end.

Definition ustar_path_fields (path : bytes) : option (bytes * bytes) :=
  if (length path <=? 100)%nat then Some (path, [])
  else if (256 <? length path)%nat then None
  else
    option_map (fun index => (drop (index + 1) path, take index path))
      (find_rev (fun index byte =>
         (byte =? 47)%Z && (index <=? 155)%nat && (length path - index - 1 <=? 100)%nat) 0 path).

(** ** Headers *)

Record ParsedHeader := mkParsedHeader {
  h_path : bytes;
  h_link : bytes;
  h_mode : u64;
  h_size : u64;
  h_kind : u8;
}.

Definition sum_bytes (b : bytes) : Z := fold_left Z.add b 0%Z.

Definition validate_checksum (header : bytes) : result RepositoryError unit :=
  expected <- parse_octal (slice header 148 156) "checksum" ;;
  let actual := sum_bytes (imap (fun index byte =>
    if (148 <=? index)%nat && (index <? 156)%nat then 32%Z else byte) header) in
  if negb (actual =? expected)%Z then Err (repo_error "invalid tar header checksum")
  else Ok tt.

Definition parse_header (header : bytes) : result RepositoryError ParsedHeader :=
  validate_checksum header ;;;
  if negb (bytes_eqb (slice header 257 263) (lit "ustar" ++ [0]%Z))
     || negb (bytes_eqb (slice header 263 265) (lit "00")) then
    Err (repo_error "tar entry is not POSIX ustar")
  else
    name <- nul_field (slice header 0 100) "name" ;;
    mode <- parse_octal (slice header 100 108) "mode" ;;
    parse_octal (slice header 108 116) "uid" ;;;
    parse_octal (slice header 116 124) "gid" ;;;
    size <- parse_size (slice header 124 136) ;;
    parse_octal (slice header 136 148) "mtime" ;;;
    let kind := nth 156 header 0%Z in
    link <- nul_field (slice header 157 257) "linkname" ;;
    prefix <- nul_field (slice header 345 500) "prefix" ;;
    parse_octal_empty (slice header 329 337) "device major" ;;;
    parse_octal_empty (slice header 337 345) "device minor" ;;;
    let path := if bytes_eqb prefix [] then name else prefix ++ [47]%Z ++ name in
    Ok (mkParsedHeader path link mode size kind).

(** [write_raw_header]: the block written. *)
Definition write_raw_header (path : bytes) (kind : u8) (mode size : u64) (link : bytes)
  : result RepositoryError bytes :=
  let '(name, prefix) :=
    match ustar_path_fields path with Some f => f | None => (lit "placeholder", []) end in
  let header := repeat 0%Z BLOCK in
  let header := put header 0 name in
  mode <- write_octal 8 mode ;;
  let header := put header 100 mode in
  uid <- write_octal 8 0 ;;
  let header := put header 108 uid in
  gid <- write_octal 8 0 ;;
  let header := put header 116 gid in
  size <- write_size 12 size ;;
  let header := put header 124 size in
  mtime <- write_octal 12 CANONICAL_TIMESTAMP ;;
  let header := put header 136 mtime in
  let header := put header 148 (repeat 32%Z 8) in
  let header := put header 156 [kind] in
  let header :=
    if (length link <=? 100)%nat then put header 157 link
    else put header 157 (lit "placeholder") in
  let header := put header 257 (lit "ustar" ++ [0]%Z) in
  let header := put header 263 (lit "00") in
  let header := put header 345 prefix in
  let checksum := sum_bytes header in
  let checksum_text := fmt_octal 6 checksum ++ [0; 32]%Z in
  Ok (put header 148 checksum_text).

Definition padding_of (size : u64) : u64 := ((512 - size mod 512) mod 512)%Z.

Definition write_zero_padding (size : u64) : bytes := repeat 0%Z (Z.to_nat (padding_of size)).

(** ** Paths *)

Fixpoint strip_trailing_slashes (fuel : nat) (path : bytes) : bytes :=
  match fuel with
  | O => path
  | S fuel' =>
      match last path with
      | Some c => if (c =? 47)%Z then strip_trailing_slashes fuel' (removelast path) else path
      | None => path
      end
  end.

(** One component of [normalize_path]; the state is [(normalized, depth)]. *)
Definition normalize_component (st : bytes * usize) (component : bytes)
  : result RepositoryError (bytes * usize) :=
  let '(normalized, depth) := st in
  if bytes_eqb component [] || bytes_eqb component [46]%Z then Ok st
  else if bytes_eqb component [46; 46]%Z then Err (repo_error "parent component in tar path")
  else if (MAX_TAR_COMPONENT_BYTES <? len component)%Z then
    Err (repo_error "tar path component is too long")
  else
    let normalized := if bytes_eqb normalized [] then normalized else normalized ++ [47]%Z in
    Ok (normalized ++ component, (depth + 1)%Z).

Definition normalize_path (path : bytes) (directory : bool) : result RepositoryError bytes :=
  if starts_with [47]%Z path then Err (repo_error "absolute tar path is forbidden")
  else
    let path := if directory then strip_trailing_slashes (length path) path else path in
    let* (normalized, depth) := try_fold normalize_component ([], 0%Z) (split_on 47 path) in
    if bytes_eqb normalized [] then Err (repo_error "tar path normalizes to empty")
    else if (MAX_TAR_PATH_BYTES <? len normalized)%Z || (MAX_TAR_DEPTH <? depth)%Z then
      Err (repo_error "normalized tar path exceeds format limits")
    else Ok normalized.

(** [join_raw(root, relative)], relative to [root]. *)
Definition join_raw (relative : bytes) : list bytes :=
  List.filter (fun c => negb (bytes_eqb c [])) (split_on 47 relative).

(** ** The destination tree

    A node has its kind and data, permission bits and, once set, its
    timestamp.  An access whose path runs through a symbolic link leaves the
    tree: the operations answer [FollowsLink], which is not an outcome of the
    real calls but marks accesses whose effect would depend on the link. *)

Inductive XKind := XDir | XFile (content : bytes) | XLink (target : bytes).
Record XNode := mkXNode { x_kind : XKind; x_mode : Z; x_time : option Z }.
Abbreviation Tree := (gmap (list bytes) XNode).

Inductive ExtractError :=
| Rejected (error : RepositoryError)
| IoError (error : string)
| FollowsLink (path : list bytes).

Definition reject {A : Type} (message : string) : result ExtractError A :=
  Err (Rejected (repo_error message)).
Definition lift {A : Type} (r : result RepositoryError A) : result ExtractError A :=
  map_err Rejected r.

(** The lookup of each proper ancestor during path resolution. *)
Definition resolve_step (t : Tree) (p : list bytes) (depth : nat) : result ExtractError unit :=
  match t !! take depth p with
  | None => Err (IoError "No such file or directory")
  | Some n =>
      match x_kind n with
      | XDir => Ok tt
      | XFile _ => Err (IoError "Not a directory")
      | XLink _ => Err (FollowsLink (take depth p))
      end
  end.
Definition resolve_parent (t : Tree) (p : list bytes) : result ExtractError unit :=
  try_fold (fun _ => resolve_step t p) tt (seq 1 (length p - 1)).

Section Extract.
(** The mode [mkdir] and [open] give a new node (it depends on the umask). *)
Context (mkdir_mode open_mode : Z).

(** [fs::create_dir_all]. *)
Definition create_dir_step (p : list bytes) (t : Tree) (depth : nat) : result ExtractError Tree :=
  let q := take depth p in
  match t !! q with
  | None => Ok (<[q := mkXNode XDir mkdir_mode None]> t)
  | Some n =>
      match x_kind n with
      | XDir => Ok t
      | XFile _ => Err (IoError "File exists")
      | XLink _ => Err (FollowsLink q)
      end
  end.
Definition create_dir_all (t : Tree) (p : list bytes) : result ExtractError Tree :=
  try_fold (create_dir_step p) t (seq 1 (length p)).

(** [OpenOptions::create_new(true)] and [symlink]. *)
Definition create_new (t : Tree) (p : list bytes) (kind : XKind) (mode : Z)
  : result ExtractError Tree :=
  resolve_parent t p ;;;
  match t !! p with
  | Some _ => Err (IoError "File exists")
  | None => Ok (<[p := mkXNode kind mode None]> t)
  end.

(** Writing through the handle of the file just created. *)
Definition write_open_file (t : Tree) (p : list bytes) (content : bytes) : Tree :=
  alter (fun n => mkXNode (XFile content) (x_mode n) (x_time n)) p t.

(** [fs::set_permissions], which follows links. *)
Definition set_permissions (t : Tree) (p : list bytes) (mode : Z) : result ExtractError Tree :=
  resolve_parent t p ;;;
  match t !! p with
  | None => Err (IoError "No such file or directory")
  | Some n =>
      match x_kind n with
      | XLink _ => Err (FollowsLink p)
      | _ => Ok (<[p := mkXNode (x_kind n) mode (x_time n)]> t)
      end
  end.

(** ** Reading *)

Record ExtractState := mkExtractState {
  nodes : gmap bytes NodeKind;
  pending_name : option bytes;
  pending_link : option bytes;
  entries : u64;
  structural_bytes : u64;
  decoded : u64;
  tree : Tree;
  input : bytes;
}.

Definition set_nodes (s : ExtractState) n := mkExtractState n (pending_name s) (pending_link s)
  (entries s) (structural_bytes s) (decoded s) (tree s) (input s).
Definition set_pending_name (s : ExtractState) n := mkExtractState (nodes s) n (pending_link s)
  (entries s) (structural_bytes s) (decoded s) (tree s) (input s).
Definition set_pending_link (s : ExtractState) l := mkExtractState (nodes s) (pending_name s) l
  (entries s) (structural_bytes s) (decoded s) (tree s) (input s).
Definition set_entries (s : ExtractState) e := mkExtractState (nodes s) (pending_name s)
  (pending_link s) e (structural_bytes s) (decoded s) (tree s) (input s).
Definition set_structural (s : ExtractState) b := mkExtractState (nodes s) (pending_name s)
  (pending_link s) (entries s) b (decoded s) (tree s) (input s).
Definition set_tree (s : ExtractState) t := mkExtractState (nodes s) (pending_name s)
  (pending_link s) (entries s) (structural_bytes s) (decoded s) t (input s).
Definition set_reader (s : ExtractState) d i := mkExtractState (nodes s) (pending_name s)
  (pending_link s) (entries s) (structural_bytes s) d (tree s) i.

(** [input.read_exact]. *)
Definition read_exact (inp : bytes) (n : nat) : result ExtractError (bytes * bytes) :=
  if (length inp <? n)%nat then Err (IoError "failed to fill whole buffer")
  else Ok (take n inp, drop n inp).

Definition count (decoded size : u64) : result ExtractError u64 :=
  ok_or (checked_add decoded size) (Rejected (repo_error "decoded tar size overflow")).

Definition read_block (inp : bytes) (decoded : u64) : result ExtractError (bytes * u64 * bytes) :=
  let* (block, inp) := read_exact inp BLOCK in
  decoded <- count decoded 512 ;;
  Ok (block, decoded, inp).

(** [read_padding]: the padding is shorter than a block, so the [while] loop
    reads it in one round. *)
Definition read_padding (inp : bytes) (size decoded : u64) : result ExtractError (u64 * bytes) :=
  let padding := padding_of size in
  inp <- (if (0 <? padding)%Z then
            let take_ := Z.to_nat (Z.min padding 512) in
            let* (buffer, inp) := read_exact inp take_ in
            if existsb (fun byte => negb (byte =? 0)%Z) buffer then
              reject "nonzero tar entry padding"
            else Ok inp
          else Ok inp) ;;
  decoded <- count decoded padding ;;
  Ok (decoded, inp).

Definition read_entry_bytes (inp : bytes) (size : u64) (limit : usize) (decoded : u64)
  : result ExtractError (bytes * u64 * bytes) :=
  if (limit <? size)%Z then reject "tar extension value exceeds format limit"
  else
    let* (b, inp) := read_exact inp (Z.to_nat size) in
    let* (decoded, inp) := read_padding inp size decoded in
    decoded <- count decoded size ;;
    Ok (b, decoded, inp).

(** [copy_entry_bytes]: the bytes copied to the output are returned. *)
Definition copy_entry_bytes (inp : bytes) (size decoded : u64)
  : result ExtractError (bytes * u64 * bytes) :=
  let copied := take (Z.to_nat size) inp in
  let inp := drop (Z.to_nat size) inp in
  if negb (len copied =? size)%Z then reject "truncated tar entry data"
  else
    decoded <- count decoded size ;;
    let* (decoded, inp) := read_padding inp size decoded in
    Ok (copied, decoded, inp).

Definition skip_entry_bytes (inp : bytes) (size decoded : u64) : result ExtractError (u64 * bytes) :=
  let copied := take (Z.to_nat size) inp in
  let inp := drop (Z.to_nat size) inp in
  if negb (len copied =? size)%Z then reject "truncated tar entry data"
  else
    decoded <- count decoded size ;;
    read_padding inp size decoded.

Definition read_long (s : ExtractState) (header : ParsedHeader) : result ExtractError ExtractState :=
  if negb (bytes_eqb (h_path header) GNU_LONG_PATH) then
    reject "GNU long-name extension has an invalid header path"
  else
    let is_name := (h_kind header =? FLAG_LONGNAME)%Z in
    (if is_name then
       if bool_decide (is_Some (pending_name s)) || bool_decide (is_Some (pending_link s)) then
         reject "duplicate or incorrectly ordered GNU LongName entry"
       else Ok tt
     else if bool_decide (is_Some (pending_link s)) then reject "duplicate GNU LongLink entry"
     else Ok tt) ;;;
    let limit := if is_name then MAX_TAR_PATH_BYTES else MAX_TAR_SYMLINK_TARGET_BYTES in
    let* (value, decoded', inp) :=
      read_entry_bytes (input s) (h_size header) (limit + 1) (decoded s) in
    let s := set_reader s decoded' inp in
    if (length value <? 2)%nat || negb (bool_decide (last value = Some 0%Z))
       || bool_decide (0%Z ∈ removelast value) then
      reject "GNU long-name data must end in exactly one NUL"
    else
      let value := removelast value in
      if is_name then
        if bool_decide (is_Some (ustar_path_fields value)) then
          reject "GNU LongName is forbidden when the path fits in ustar fields"
        else Ok (set_pending_name s (Some value))
      else if (length value <=? 100)%nat then
        reject "GNU LongLink is forbidden when the target fits in ustar linkname"
      else Ok (set_pending_link s (Some value)).

(** One parent of [insert_path]; the state is the [parent] buffer, the node
    map and the tree. *)
Definition insert_parent_dir (st : bytes * gmap bytes NodeKind * Tree) (component : bytes)
  : result ExtractError (bytes * gmap bytes NodeKind * Tree) :=
  let '(parent, ns, t) := st in
  let parent := if bytes_eqb parent [] then parent else parent ++ [47]%Z in
  let parent := parent ++ component in
  match ns !! parent with
  | Some Directory => Ok (parent, ns, t)
  | Some _ => reject "tar path has a non-directory parent"
  | None =>
      t <- create_dir_all t (join_raw parent) ;;
      Ok (parent, <[parent := Directory]> ns, t)
  end.

Definition insert_path (s : ExtractState) (path : bytes) (kind : NodeKind)
  : result ExtractError ExtractState :=
  let components := split_on 47 path in
  let* (_, ns, t) := try_fold insert_parent_dir ([], nodes s, tree s) (removelast components) in
  let s := set_tree (set_nodes s ns) t in
  match ns !! path with
  | Some Directory =>
      if bool_decide (kind = Directory) then Ok s else reject "duplicate or conflicting tar path"
  | Some _ => reject "duplicate or conflicting tar path"
  | None => Ok (set_nodes s (<[path := kind]> ns))
  end.

(** [unreachable!()] for other flags: the caller dispatches on the same flags. *)
Definition kind_of_flag (flag : u8) : NodeKind :=
  if (flag =? FLAG_LINK)%Z then Symlink
  else if (flag =? FLAG_DIR)%Z then Directory else File.

Definition extract_logical (s : ExtractState) (header : ParsedHeader)
  : result ExtractError ExtractState :=
  let s := set_entries s (entries s + 1)%Z in
  if (MAX_TAR_ENTRIES <? entries s)%Z then reject "repository tar contains too many entries"
  else
    path <- lift (normalize_path (default (h_path header) (pending_name s))
                    (h_kind header =? FLAG_DIR)%Z) ;;
    let s := set_pending_name s None in
    let link := default (h_link header) (pending_link s) in
    let s := set_pending_link s None in
    let kind := kind_of_flag (h_kind header) in
    if bool_decide (kind <> Symlink) && negb (bytes_eqb link []) then
      reject "non-symlink tar entry has a link target"
    else if bool_decide (kind = Symlink) && bytes_eqb link [] then
      reject "tar symlink target is empty"
    else if bool_decide (kind = Symlink) && (MAX_TAR_SYMLINK_TARGET_BYTES <? len link)%Z then
      reject "tar symlink target is too long"
    else
      sb <- ok_or (and_then (checked_add (structural_bytes s) (len path))
                     (fun size => checked_add size (len link)))
              (Rejected (repo_error "tar structural size overflow")) ;;
      let s := set_structural s sb in
      if (MAX_TAR_STRUCTURAL_BYTES <? sb)%Z then
        reject "repository tar structural metadata exceeds format limit"
      else if bool_decide (kind <> File) && negb (h_size header =? 0)%Z then
        reject "directory or symbolic-link tar entry has nonzero size"
      else
        s <- insert_path s path kind ;;
        let destination := join_raw path in
        match kind with
        | Directory =>
            t <- create_dir_all (tree s) destination ;;
            let* (d, inp) := skip_entry_bytes (input s) (h_size header) (decoded s) in
            Ok (set_reader (set_tree s t) d inp)
        | File =>
            t <- create_new (tree s) destination (XFile []) open_mode ;;
            let* (content, d, inp) := copy_entry_bytes (input s) (h_size header) (decoded s) in
            let t := write_open_file t destination content in
            let mode := if negb (Z.land (h_mode header) MODE_X =? 0)%Z then MODE_755 else MODE_644 in
            t <- set_permissions t destination mode ;;
            Ok (set_reader (set_tree s t) d inp)
        | Symlink =>
            t <- create_new (tree s) destination (XLink link) MODE_777 ;;
            let* (d, inp) := skip_entry_bytes (input s) (h_size header) (decoded s) in
            Ok (set_reader (set_tree s t) d inp)
        end.

(** The result of one round of the extraction loop. *)
Inductive LoopStep := Continue (s : ExtractState) | Finished (s : ExtractState).

Definition extract_step (s : ExtractState) : result ExtractError LoopStep :=
  let* (header, d, inp) := read_block (input s) (decoded s) in
  let s := set_reader s d inp in
  if bytes_eqb header (repeat 0%Z BLOCK) then
    let* (second, d, inp) := read_block (input s) (decoded s) in
    let s := set_reader s d inp in
    if negb (bytes_eqb second (repeat 0%Z BLOCK)) then
      reject "tar archive has only one terminating zero block"
    else if negb (bytes_eqb inp []) then reject "tar archive contains bytes after its terminator"
    else Ok (Finished s)
  else
    parsed <- lift (parse_header header) ;;
    let kind := h_kind parsed in
    if (kind =? FLAG_LONGNAME)%Z || (kind =? FLAG_LONGLINK)%Z then
      s <- read_long s parsed ;; Ok (Continue s)
    else if (kind =? FLAG_NUL)%Z || (kind =? FLAG_FILE)%Z || (kind =? FLAG_LINK)%Z
            || (kind =? FLAG_DIR)%Z then
      s <- extract_logical s parsed ;; Ok (Continue s)
    else reject ("unsupported repository tar type flag 0x" +:+ show (fmt_02x kind)).

(** [None] is exhausted fuel: every round consumes at least one block. *)
Fixpoint extract_loop (fuel : nat) (s : ExtractState) : option (result ExtractError ExtractState) :=
  match fuel with
  | O => None
  | S fuel' =>
      match extract_step s with
      | Err e => Some (Err e)
      | Ok (Finished s') => Some (Ok s')
      | Ok (Continue s') => extract_loop fuel' s'
      end
  end.

(** [collect_paths]: [root], then the children in name order, directories
    expanded in place. *)
Definition children_of (t : Tree) (root : list bytes) : list bytes :=
  sort_by id (omap (fun q => if bool_decide (removelast q = root) then last q else None)
                (map fst (map_to_list t))).

Fixpoint collect_paths (fuel : nat) (t : Tree) (root : list bytes) : list (list bytes) :=
  match fuel with
  | O => [root]
  | S fuel' =>
      root :: flat_map (fun name =>
        let path := root ++ [name] in
        match t !! path with
        | Some (mkXNode XDir _ _) => collect_paths fuel' t path
        | _ => [path]
        end) (children_of t root)
  end.

Definition set_dir_mode (t : Tree) (p : list bytes) : Tree :=
  alter (fun n => match x_kind n with
                  | XDir => mkXNode XDir MODE_755 (x_time n)
                  | _ => n
                  end) p t.
Definition set_canonical_times (t : Tree) (p : list bytes) : Tree :=
  alter (fun n => mkXNode (x_kind n) (x_mode n) (Some CANONICAL_TIMESTAMP)) p t.

(** [sort_by_key(Reverse(depth))]: deepest paths first, stable. *)
Fixpoint insert_deepest (p : list bytes) (l : list (list bytes)) : list (list bytes) :=
  match l with
  | [] => [p]
  | q :: l' => if (length q <=? length p)%nat then p :: l else q :: insert_deepest p l'
  end.
Definition sort_deepest (l : list (list bytes)) : list (list bytes) :=
  foldr insert_deepest [] l.

Definition tree_depth (t : Tree) : nat := map_fold (fun p _ n => Nat.max (length p) n) 0%nat t.

Definition normalize_tree (t : Tree) : Tree :=
  let paths := collect_paths (S (tree_depth t)) t [] in
  let t := fold_left set_dir_mode paths t in
  fold_left set_canonical_times (sort_deepest paths) t.

(** [extract_directory_tar]: the destination root itself is the node at []. *)
Definition extract_directory_tar (inp : bytes)
  : option (result ExtractError (u64 * ExtractState)) :=
  let root := {[ [] := mkXNode XDir MODE_700 None ]} in
  let s := mkExtractState ∅ None None 0 0 0 root inp in
  match extract_loop (S (length inp)) s with
  | None => None
  | Some (Err e) => Some (Err e)
  | Some (Ok s) =>
      Some (if bool_decide (is_Some (pending_name s)) || bool_decide (is_Some (pending_link s)) then
              reject "GNU long-name extension has no following logical entry"
            else Ok (decoded s, set_tree s (normalize_tree (tree s))))
  end.
End Extract.

(** ** Writing *)

(** What the system calls answer about one source path. *)
Inductive WObj :=
| WDir (read_dir : result string (list (bytes * WObj)))
| WFile (mode size : Z) (content : result string bytes)
| WLink (target : result string bytes)
| WSpecial
| WUnknown
| WNoMetadata (error : string).

(** The output of a writing call: the bytes appended; [*written] grows by the
    amounts the code adds. *)
Record Output := mkOutput { out : bytes; written : u64; entry_count : u64; structural : u64 }.

Definition emit (o : Output) (b : bytes) (n : u64) : Output :=
  mkOutput (out o ++ b) (written o + n) (entry_count o) (structural o).

Definition emit_padding (o : Output) (size : u64) : Output :=
  emit o (write_zero_padding size) (padding_of size).

(** The ['L'] or ['K'] extension record carrying [value]. *)
Definition write_long (o : Output) (kind : u8) (value : bytes) : result RepositoryError Output :=
  let value := value ++ [0]%Z in
  h <- write_raw_header GNU_LONG_PATH kind MODE_644 (len value) [] ;;
  let o := emit o (h ++ value) (512 + len value) in
  Ok (emit_padding o (len value)).

Definition write_header (o : Output) (path : bytes) (kind : u8) (mode size : u64) (link : bytes)
  : result RepositoryError Output :=
  o <- (if bool_decide (ustar_path_fields path = None) then write_long o FLAG_LONGNAME path
        else Ok o) ;;
  o <- (if (100 <? length link)%nat then write_long o FLAG_LONGLINK link else Ok o) ;;
  h <- write_raw_header path kind mode size link ;;
  Ok (emit o h 512).

Definition write_header_and_data (o : Output) (path : bytes) (kind : u8) (mode : u64)
    (link data : bytes) : result RepositoryError Output :=
  o <- write_header o path kind mode (len data) link ;;
  if bytes_eqb data [] then Ok o
  else Ok (emit_padding (emit o data (len data)) (len data)).

Definition io_err {A : Type} (e : string) : result RepositoryError A :=
  Err (repo_local_io ("I/O error: " +:+ e)).

(** The bookkeeping of one entry, before its kind is dispatched on. *)
Definition account_entry (o : Output) (path : bytes) (obj : WObj) : result RepositoryError Output :=
  normalize_path path false ;;;
  let entry_count' := (entry_count o + 1)%Z in
  if (MAX_TAR_ENTRIES <? entry_count')%Z then
    Err (repo_error "repository tar contains too many entries")
  else
    link_target <- match obj with
                   | WNoMetadata e => io_err e
                   | WLink (Err e) => io_err e
                   | WLink (Ok target) => Ok (Some target)
                   | _ => Ok None
                   end ;;
    if (match link_target with
        | Some target => (MAX_TAR_SYMLINK_TARGET_BYTES <? len target)%Z
        | None => false
        end) then Err (repo_error "tar symlink target is too long")
    else
      structural' <- ok_or (and_then (checked_add (structural o) (len path))
                        (fun size => checked_add size
                           (match link_target with Some target => len target | None => 0%Z end)))
                     (repo_error "tar structural size overflow") ;;
      if (MAX_TAR_STRUCTURAL_BYTES <? structural')%Z then
        Err (repo_error "repository tar structural metadata exceeds format limit")
      else Ok (mkOutput (out o) (written o) entry_count' structural').

Definition child_raw (relative name : bytes) : bytes :=
  (if bytes_eqb relative [] then relative else relative ++ [47]%Z) ++ name.

(** One entry of [write_children]; a directory recurses into its own
    children, sorted by name. *)
Fixpoint write_entry (obj : WObj) (path : bytes) (o : Output) : result RepositoryError Output :=
  o <- account_entry o path obj ;;
  match obj with
  | WDir read_dir =>
      o <- write_header_and_data o path FLAG_DIR MODE_755 [] [] ;;
      match read_dir with
      | Err e => io_err e
      | Ok listing =>
          try_fold (fun o write => write o) o
            (map snd (sort_by fst
              (map (fun e => (e.1, write_entry e.2 (child_raw path e.1))) listing)))
      end
  | WFile mode size content =>
      let mode := if negb (Z.land mode MODE_X =? 0)%Z then MODE_755 else MODE_644 in
      o <- write_header o path FLAG_FILE mode size [] ;;
      match content with
      | Err e => io_err e
      | Ok content =>
          if negb (len content =? size)%Z then Err (repo_error "file changed while writing tar")
          else Ok (emit_padding (emit o content (len content)) size)
      end
  | WLink (Ok target) => write_header_and_data o path FLAG_LINK MODE_777 target []
  | WLink (Err e) | WNoMetadata e => io_err e
  | WSpecial => Err (repo_error "unsupported filesystem kind in directory object")
  | WUnknown => Ok o
  end.

Definition write_children (read_dir : result string (list (bytes * WObj))) (relative : bytes)
    (o : Output) : result RepositoryError Output :=
  match read_dir with
  | Err e => io_err e
  | Ok listing =>
      try_fold (fun o e => write_entry e.2 (child_raw relative e.1) o) o (sort_by fst listing)
  end.

Definition write_directory_tar (source : WObj) : result RepositoryError Output :=
  match source with
  | WNoMetadata e => io_err e
  | WDir read_dir =>
      o <- write_children read_dir [] (mkOutput [] 0 0 0) ;;
      Ok (emit o (repeat 0%Z (BLOCK * 2)) (512 * 2))
  | _ => Err (repo_error "directory tar source is not a directory")
  end.

(** ** Octal and base-256 fields *)

Lemma checked_add_some a b : (0 <= a)%Z -> (0 <= b)%Z -> (a + b < 2 ^ 64)%Z ->
  checked_add a b = Some (a + b)%Z.
Proof.
  intros Ha Hb H. unfold checked_add, U64_MAX. destruct (_ <=? _)%Z eqn:E; bools; [done|lia].
Qed.

Lemma checked_mul_some a b : (0 <= a)%Z -> (0 <= b)%Z -> (a * b < 2 ^ 64)%Z ->
  checked_mul a b = Some (a * b)%Z.
Proof.
  intros Ha Hb H. unfold checked_mul, U64_MAX. destruct (_ <=? _)%Z eqn:E; bools; [done|lia].
Qed.

Lemma mod_pow_succ b v n : (0 < b)%Z ->
  (v mod b ^ Z.of_nat (S n) = (v / b ^ Z.of_nat n) mod b * b ^ Z.of_nat n + v mod b ^ Z.of_nat n)%Z.
Proof.
  intros Hb. rewrite Nat2Z.inj_succ, Z.pow_succ_r, (Z.mul_comm b) by lia.
  rewrite Z.rem_mul_r by (try apply Z.pow_nonzero; lia). lia.
Qed.

Lemma octal_digit_step name acc saw d :
  (0 <= d < 8)%Z -> (0 <= acc)%Z -> (acc * 8 + d < 2 ^ 64)%Z ->
  parse_octal_byte name (acc, saw, false) (48 + d) = Ok ((acc * 8 + d)%Z, true, false).
Proof.
  intros Hd Ha Ho. unfold parse_octal_byte.
  rewrite (proj2 (Z.eqb_neq (48 + d) 32)) by lia. cbn [andb].
  rewrite (proj2 (Z.leb_le 48 (48 + d))), (proj2 (Z.leb_le (48 + d) 55)) by lia. cbn [andb negb].
  rewrite checked_mul_some by lia. cbn [and_then].
  rewrite checked_add_some by lia. cbn. do 3 f_equal. lia.
Qed.

Lemma octal_fixed_step name n v acc saw :
  (0 <= v)%Z -> (0 <= acc)%Z -> (acc * 8 ^ Z.of_nat n + v mod 8 ^ Z.of_nat n < 2 ^ 64)%Z ->
  try_fold (parse_octal_byte name) (acc, saw, false) (octal_fixed n v) =
  Ok ((acc * 8 ^ Z.of_nat n + v mod 8 ^ Z.of_nat n)%Z, saw || (0 <? n)%nat, false).
Proof.
  intros Hv. revert acc saw. induction n as [|n IH]; intros acc saw Ha Ho.
  - cbn. rewrite Z.mod_1_r, orb_false_r. do 3 f_equal. lia.
  - cbn [octal_fixed try_fold].
    assert (Hd : (0 <= (v / 8 ^ Z.of_nat n) mod 8 < 8)%Z) by (apply Z.mod_pos_bound; lia).
    assert (Hm : (0 <= v mod 8 ^ Z.of_nat n)%Z) by (apply Z.mod_pos_bound; lia).
    assert (Hp : (1 <= 8 ^ Z.of_nat n)%Z) by lia.
    rewrite mod_pow_succ in Ho |- * by lia.
    assert (Hs : (8 ^ Z.of_nat (S n) = 8 * 8 ^ Z.of_nat n)%Z)
      by (rewrite Nat2Z.inj_succ, Z.pow_succ_r; lia).
    rewrite Hs in Ho |- *. rewrite octal_digit_step by (assumption || nia).
    cbn iota beta. rewrite IH by nia.
    change (0 <? S n)%nat with true. rewrite orb_true_r. cbn [orb]. do 3 f_equal. lia.
Qed.

Lemma length_octal_fixed n v : length (octal_fixed n v) = n.
Proof. induction n as [|n IH]; simpl; by f_equal. Qed.

Lemma wf_octal_fixed n v : wf_bytes (octal_fixed n v).
Proof.
  induction n as [|n IH]; simpl; constructor; [|done].
  pose proof (Z.mod_pos_bound (v / 8 ^ Z.of_nat n) 8). unfold is_u8. lia.
Qed.

(** A zero-padded octal field with its terminator. *)
Lemma parse_octal_fixed name n v tail :
  (0 < n)%nat -> (0 <= v < 8 ^ Z.of_nat n)%Z -> (v < 2 ^ 64)%Z ->
  tail = [0]%Z \/ tail = [0; 32]%Z ->
  parse_octal (octal_fixed n v ++ tail) name = Ok v.
Proof.
  intros Hn Hv Hu Ht. unfold parse_octal. rewrite try_fold_app, octal_fixed_step.
  2-4: rewrite ?Z.mod_small; lia.
  rewrite Z.mod_small by lia. rewrite (proj2 (Nat.ltb_lt 0 n)) by lia. cbn [orb].
  by destruct Ht as [-> | ->].
Qed.

Lemma octal_width_bound fuel v :
  (0 <= v < 8 ^ Z.of_nat (S fuel))%Z -> (v < 8 ^ Z.of_nat (octal_width fuel v))%Z.
Proof.
  revert v. induction fuel as [|fuel IH]; intros v Hv; cbn [octal_width]; [lia|].
  destruct (v <? 8)%Z eqn:E; bools; [lia|].
  assert (Hq : (0 <= v / 8 < 8 ^ Z.of_nat (S fuel))%Z).
  { split; [apply Z.div_pos; lia|]. apply Z.div_lt_upper_bound; [lia|].
    replace (8 * 8 ^ Z.of_nat (S fuel))%Z with (8 ^ Z.of_nat (S (S fuel)))%Z; [lia|].
    by rewrite (Nat2Z.inj_succ (S fuel)), Z.pow_succ_r by lia. }
  specialize (IH _ Hq). rewrite Nat2Z.inj_succ, Z.pow_succ_r by lia.
  pose proof (Z.div_mod v 8). pose proof (Z.mod_pos_bound v 8). lia.
Qed.

Lemma octal_width_min fuel v n :
  (0 < n)%nat -> (0 <= v < 8 ^ Z.of_nat n)%Z -> (octal_width fuel v <= n)%nat.
Proof.
  revert v n. induction fuel as [|fuel IH]; intros v n Hn Hv; cbn [octal_width]; [lia|].
  destruct (v <? 8)%Z eqn:E; bools; [lia|]. destruct n as [|[|n]]; [lia|simpl in Hv; lia|].
  apply le_n_S, IH; [lia|]. split; [apply Z.div_pos; lia|]. apply Z.div_lt_upper_bound; [lia|].
  replace (8 * 8 ^ Z.of_nat (S n))%Z with (8 ^ Z.of_nat (S (S n)))%Z; [lia|].
  by rewrite (Nat2Z.inj_succ (S n)), Z.pow_succ_r by lia.
Qed.

Lemma fmt_octal_fits width v :
  (0 < width)%nat -> (0 <= v < 8 ^ Z.of_nat width)%Z -> fmt_octal width v = octal_fixed width v.
Proof.
  intros Hw Hv. unfold fmt_octal. pose proof (octal_width_min 22 v width Hw Hv).
  by rewrite Nat.max_l by lia.
Qed.

Lemma write_octal_ok n v :
  (1 < n)%nat -> (0 <= v < 8 ^ Z.of_nat (n - 1))%Z ->
  write_octal n v = Ok (octal_fixed (n - 1) v ++ [0]%Z).
Proof.
  intros Hn Hv. unfold write_octal. cbv zeta.
  rewrite fmt_octal_fits, length_octal_fixed, Nat.ltb_irrefl by lia. done.
Qed.

Lemma fold_base256 (e : RepositoryError) l acc :
  wf_bytes l -> (0 <= acc)%Z -> (fold_left (fun a x => a * 256 + x) l acc < 2 ^ 64)%Z ->
  try_fold (fun value byte =>
    ok_or (and_then (checked_mul value 256) (fun v => checked_add v byte)) e) acc l =
  Ok (fold_left (fun a x => a * 256 + x)%Z l acc).
Proof.
  intros Hl. revert acc. induction Hl as [|x l Hx Hl IH]; intros acc Ha Ho; [done|].
  cbn [try_fold fold_left] in *. unfold is_u8 in Hx.
  pose proof (fold_be_bound l (acc * 256 + x) Hl ltac:(lia)) as Hb.
  assert (Hp : (0 < 256 ^ len l)%Z) by (apply Z.pow_pos_nonneg; pose proof (len_nonneg l); lia).
  assert (Hlt : (acc * 256 + x < 2 ^ 64)%Z) by nia.
  rewrite checked_mul_some by lia. cbn [and_then]. rewrite checked_add_some by lia.
  cbn iota beta. apply IH; lia.
Qed.

Lemma shiftl_octal n : (0 <= n)%Z -> (Z.shiftl 1 (3 * n) = 8 ^ n)%Z.
Proof.
  intros Hn. rewrite Z.shiftl_1_l, Z.pow_mul_r by lia. done.
Qed.

Lemma octal_digit_low d : (0 <= d < 8)%Z -> Z.land (48 + d) 0x80 = 0%Z.
Proof.
  intros Hd. assert (Hc : In d (map Z.of_nat (seq 0 8))).
  { apply in_map_iff. exists (Z.to_nat d). split; [lia|]. apply in_seq. lia. }
  simpl in Hc. decompose [or] Hc; subst; try reflexivity; contradiction.
Qed.

(** The size field round-trips over the whole [u64] range, octal below
    [8^11] and base-256 above. *)
Lemma write_size_parses v :
  is_u64 v -> exists f, write_size 12 v = Ok f /\ length f = 12%nat /\ wf_bytes f /\
    parse_size f = Ok v.
Proof.
  intros Hv. unfold is_u64 in Hv. unfold write_size.
  change (Z.of_nat 12 - 1)%Z with 11%Z. rewrite shiftl_octal by lia. cbv zeta.
  destruct (v <=? 8 ^ 11 - 1)%Z eqn:E; bools.
  - assert (Hb : (0 <= v < 8 ^ Z.of_nat (12 - 1))%Z) by (change (Z.of_nat (12 - 1)) with 11%Z; lia).
    rewrite write_octal_ok by lia. eexists. split; [done|].
    rewrite length_app, length_octal_fixed. split; [done|]. split.
    { apply wf_bytes_app. split; [apply wf_octal_fixed|by repeat constructor]. }
    unfold parse_size. replace (nth 0 (octal_fixed (12 - 1) v ++ [0%Z]) 0%Z)
      with (48 + (v / 8 ^ Z.of_nat 10) mod 8)%Z by reflexivity.
    rewrite octal_digit_low by (apply Z.mod_pos_bound; lia). cbn [Z.eqb].
    apply parse_octal_fixed; [lia|lia|lia|by left].
  - assert (Hl : length (be_bytes 8 v) = 8%nat) by apply length_be_bytes.
    rewrite Hl. change (12 <? 8)%nat with false. change (12 - 8)%nat with 4%nat. cbn [repeat app].
    change (Z.lor 0 128) with 128%Z. eexists. split; [done|]. cbn [length]. rewrite Hl.
    split; [done|]. split.
    { repeat (constructor; [unfold is_u8; lia|]). apply wf_be_bytes. }
    unfold parse_size. cbn [nth]. change (Z.land 128 128 =? 0)%Z with false.
    change (Z.land 128 64 =? 0)%Z with true. change (Z.land 128 63) with 0%Z. cbn [negb drop].
    rewrite fold_base256.
    + cbn [fold_left]. change (((0 * 256 + 0) * 256 + 0) * 256 + 0)%Z with 0%Z.
      rewrite fold_be_bytes, Z.mod_small by (change (256 ^ Z.of_nat 8)%Z with (2 ^ 64)%Z; lia).
      rewrite !len_cons. unfold len. rewrite Hl. cbn [Z.of_nat Z.add]. 
      change (Z.shiftl 1 _) with (8 ^ 11)%Z. cbv zeta.
      destruct (0 * 256 ^ Z.of_nat 8 + v <=? 8 ^ 11 - 1)%Z eqn:E2; bools; [lia|]. f_equal.
    + repeat (constructor; [unfold is_u8; lia|]). apply wf_be_bytes.
    + lia.
    + cbn [fold_left]. change (((0 * 256 + 0) * 256 + 0) * 256 + 0)%Z with 0%Z.
      rewrite fold_be_bytes, Z.mod_small by (change (256 ^ Z.of_nat 8)%Z with (2 ^ 64)%Z; lia). lia.
Qed.

(** ** Header round trip *)

Lemma nul_field_padded b k name : 0%Z ∉ b -> nul_field (b ++ repeat 0%Z k) name = Ok b.
Proof.
  intros Hb. unfold nul_field.
  assert (Hp : nul_position (b ++ repeat 0%Z k) = length b).
  { induction b as [|x b IH]; [by destruct k|]. simpl. apply not_elem_of_cons in Hb as [Hx Hb].
    rewrite (proj2 (Z.eqb_neq x 0)) by congruence. by rewrite IH. }
  rewrite Hp. cbv zeta. rewrite drop_app_length, take_app_length.
  assert (He : existsb (fun byte => negb (byte =? 0)%Z) (repeat 0%Z k) = false)
    by (clear; induction k as [|k IH]; [done|exact IH]). by rewrite He.
Qed.

Lemma find_rev_spec {A} (p : nat -> A -> bool) i l j :
  find_rev p i l = Some j -> exists x, (i <= j)%nat /\ l !! (j - i)%nat = Some x /\ p j x = true.
Proof.
  revert i. induction l as [|x l IH]; intros i; cbn [find_rev]; [done|].
  destruct (find_rev p (S i) l) as [j'|] eqn:E.
  - intros [= ->]. destruct (IH _ E) as (y & Hle & Hy & Hp). exists y. split; [lia|]. split; [|done].
    replace (j - i)%nat with (S (j - S i)) by lia. done.
  - destruct (p i x) eqn:Ep; [|done]. intros [= ->]. exists x. rewrite Nat.sub_diag. done.
Qed.

Lemma ustar_fields_spec path name prefix :
  ustar_path_fields path = Some (name, prefix) -> starts_with [47]%Z path = false ->
  (length name <= 100)%nat /\ (length prefix <= 155)%nat /\
  path = (if bytes_eqb prefix [] then name else prefix ++ [47]%Z ++ name).
Proof.
  unfold ustar_path_fields. intros H Hs.
  destruct (length path <=? 100)%nat eqn:E1; bools.
  { injection H as <- <-. split; [done|]. split; [simpl; lia|done]. }
  destruct (256 <? length path)%nat eqn:E2; [done|].
  destruct (find_rev _ 0 path) as [index|] eqn:E3; [|done]. injection H as <- <-.
  apply find_rev_spec in E3 as (x & _ & Hx & Hp). rewrite Nat.sub_0_r in Hx. bools. subst x.
  pose proof (lookup_lt_Some _ _ _ Hx). rewrite length_drop, length_take. split; [lia|]. split; [lia|].
  assert (Hsplit : path = take index path ++ [47]%Z ++ drop (index + 1) path).
  { rewrite <- (take_drop index path) at 1. f_equal. rewrite (drop_S _ _ _ Hx), Nat.add_1_r. done. }
  destruct (bytes_eqb (take index path) []) eqn:E; bools; [|done].
  rewrite E in Hsplit. rewrite Hsplit in Hs. discriminate.
Qed.

Lemma sum_bytes_acc b acc : fold_left Z.add b acc = (acc + sum_bytes b)%Z.
Proof.
  unfold sum_bytes. revert acc. induction b as [|x b IH]; intros acc; cbn [fold_left]; [lia|].
  rewrite (IH (acc + x)%Z), (IH (0 + x)%Z). lia.
Qed.

Lemma sum_bytes_bound b : wf_bytes b -> (0 <= sum_bytes b <= 255 * len b)%Z.
Proof.
  induction 1 as [|x b Hx Hb IH]; [unfold sum_bytes, len; simpl; lia|].
  unfold sum_bytes. cbn [fold_left]. rewrite sum_bytes_acc, len_cons. unfold is_u8 in Hx. lia.
Qed.

Lemma imap_id_low (f : nat -> Z -> Z) b :
  (forall i x, (i < length b)%nat -> f i x = x) -> imap f b = b.
Proof.
  intros Hf. apply list_eq. intros i. rewrite list_lookup_imap.
  destruct (b !! i) as [x|] eqn:E; [|done]. simpl. f_equal. apply Hf. by eapply lookup_lt_Some.
Qed.

(** The checksum is taken with the checksum field read as spaces. *)
Lemma checksum_masked h chk :
  length h = 512%nat -> length chk = 8%nat -> slice h 148 156 = repeat 32%Z 8 ->
  imap (fun index byte => if (148 <=? index)%nat && (index <? 156)%nat then 32%Z else byte)
    (put h 148 chk) = h.
Proof.
  intros Hl Hc Hs. unfold put. rewrite Hc. change (148 + 8)%nat with 156%nat.
  assert (Hl1 : length (take 148 h) = 148%nat) by (rewrite length_take; lia).
  rewrite !imap_app. rewrite (slice_split h 148 156) at 3 by lia. rewrite Hs. f_equal; [|f_equal].
  - apply imap_id_low. intros i x Hi. by rewrite (proj2 (Nat.leb_gt 148 i)) by lia.
  - do 8 (destruct chk as [|? chk]; [done|]). destruct chk; [|done]. simpl imap.
    rewrite Hl1. done.
  - apply imap_id_low. intros i x Hi. simpl. rewrite Hl1, Hc.
    rewrite (proj2 (Nat.ltb_ge (148 + (8 + i)) 156)) by lia. by rewrite andb_false_r.
Qed.

(** The header before its checksum, from its fields. *)
Definition header_body (name mode size mtime link prefix : bytes) (kind : u8) : bytes :=
  let zero := octal_fixed 7 0 ++ [0]%Z in
  put (put (put (put (put (put (put (put (put (put (put (put (repeat 0%Z BLOCK)
    0 name) 100 mode) 108 zero) 116 zero) 124 size) 136 mtime) 148 (repeat 32%Z 8))
    156 [kind]) 157 link) 257 (lit "ustar" ++ [0]%Z)) 263 (lit "00")) 345 prefix.

Ltac name_write h E L :=
  match goal with
  | |- context [put ?b ?o ?x] =>
      is_var b; 
      destruct (ex_intro (fun h => h = put b o x) _ eq_refl) as [h E]; rewrite <- E in *;
      assert (L : length h = 512%nat)
        by (rewrite E, length_put; simpl length; rewrite ?repeat_length; lia)
  end.

Ltac window :=
  repeat match goal with
  | E : ?h = put _ _ _ |- context [slice ?h _ _] =>
      rewrite E; first [ rewrite slice_put_out by (simpl length; rewrite ?repeat_length; lia)
                       | rewrite slice_put_at by (simpl length; rewrite ?repeat_length; lia) ]
  | E : ?h = repeat _ _ |- context [slice ?h _ _] => rewrite E, slice_repeat by (unfold BLOCK; lia)
  end.

Lemma header_windows name mode size mtime link prefix kind :
  (length name <= 100)%nat -> length mode = 8%nat -> length size = 12%nat ->
  length mtime = 12%nat -> (length link <= 100)%nat -> (length prefix <= 155)%nat ->
  let h := header_body name mode size mtime link prefix kind in
  length h = 512%nat /\
  slice h 0 100 = name ++ repeat 0%Z (100 - length name) /\
  slice h 100 108 = mode /\ slice h 108 116 = octal_fixed 7 0 ++ [0]%Z /\
  slice h 116 124 = octal_fixed 7 0 ++ [0]%Z /\ slice h 124 136 = size /\
  slice h 136 148 = mtime /\ slice h 148 156 = repeat 32%Z 8 /\ slice h 156 157 = [kind] /\
  slice h 157 257 = link ++ repeat 0%Z (100 - length link) /\
  slice h 257 263 = lit "ustar" ++ [0]%Z /\ slice h 263 265 = lit "00" /\
  slice h 329 337 = repeat 0%Z 8 /\ slice h 337 345 = repeat 0%Z 8 /\
  slice h 345 500 = prefix ++ repeat 0%Z (155 - length prefix).
Proof.
  intros Hn Hm Hs Ht Hl Hp. unfold header_body. cbv zeta.
  assert (Hz : length (octal_fixed 7 0 ++ [0]%Z) = 8%nat) by reflexivity.
  assert (Hu : length (lit "ustar" ++ [0]%Z) = 6%nat) by reflexivity.
  assert (H0 : length (lit "00") = 2%nat) by reflexivity.
  set (zero := octal_fixed 7 0 ++ [0]%Z) in *. clearbody zero.
  set (magic := lit "ustar" ++ [0]%Z) in *. clearbody magic.
  set (version := lit "00") in *. clearbody version.
  destruct (ex_intro (fun h => h = repeat 0%Z BLOCK) _ eq_refl) as [h0 E0]. rewrite <- E0.
  assert (L0 : length h0 = 512%nat) by (by rewrite E0, repeat_length).
  name_write h1 E1 L1. name_write h2 E2 L2. name_write h3 E3 L3. name_write h4 E4 L4.
  name_write h5 E5 L5. name_write h6 E6 L6. name_write h7 E7 L7. name_write h8 E8 L8.
  name_write h9 E9 L9. name_write h10 E10 L10. name_write h11 E11 L11. name_write h12 E12 L12.
  repeat split; [done|..]; window; simpl length;
    try (match goal with |- ?a ++ repeat 0%Z ?k = ?a =>
           replace k with 0%nat by lia; apply app_nil_r end);
    try done; do 2 f_equal; lia.
Qed.

Lemma nth_slice b i x : slice b i (i + 1) = [x] -> nth i b 0%Z = x.
Proof.
  unfold slice. replace (i + 1 - i)%nat with 1%nat by lia. intros H.
  rewrite <- (take_drop i b). destruct (drop i b) as [|y rest] eqn:E; [done|].
  injection H as ->. assert (Hi : length (take i b) = i).
  { apply (f_equal length) in E. rewrite length_drop in E. simpl in E. rewrite length_take. lia. }
  rewrite app_nth2 by lia. by rewrite Hi, Nat.sub_diag.
Qed.

Lemma wf_header_body name mode size mtime link prefix kind :
  wf_bytes name -> wf_bytes mode -> wf_bytes size -> wf_bytes mtime -> wf_bytes link ->
  wf_bytes prefix -> is_u8 kind -> wf_bytes (header_body name mode size mtime link prefix kind).
Proof.
  intros. unfold header_body. cbv zeta.
  assert (wf_bytes (octal_fixed 7 0 ++ [0]%Z)) by (by repeat constructor).
  assert (wf_bytes (lit "ustar" ++ [0]%Z))
    by (apply wf_bytes_app; split; [apply wf_lit|by repeat constructor]).
  repeat apply wf_put; try done; try apply wf_lit; try (apply wf_repeat; unfold is_u8; lia).
  by apply Forall_singleton.
Qed.

(** The fields a header is written with: the (name, prefix) pair of the path
    and the link, each replaced by a placeholder when it does not fit. *)
Definition path_fields (path : bytes) : bytes * bytes :=
  match ustar_path_fields path with Some f => f | None => (lit "placeholder", []) end.
Definition link_field (link : bytes) : bytes :=
  if (length link <=? 100)%nat then link else lit "placeholder".

Definition text_field (limit : nat) (b : bytes) : Prop :=
  wf_bytes b /\ 0%Z ∉ b /\ (length b <= limit)%nat.

Lemma write_raw_header_body path kind mode size link :
  (0 <= mode < 8 ^ 7)%Z -> is_u64 size ->
  exists size_field, length size_field = 12%nat /\ wf_bytes size_field /\
    parse_size size_field = Ok size /\
    let h := header_body (path_fields path).1 (octal_fixed 7 mode ++ [0]%Z) size_field
               (octal_fixed 11 CANONICAL_TIMESTAMP ++ [0]%Z) (link_field link)
               (path_fields path).2 kind in
    write_raw_header path kind mode size link = Ok (put h 148 (fmt_octal 6 (sum_bytes h) ++ [0; 32]%Z)).
Proof.
  intros Hm Hs. destruct (write_size_parses size Hs) as (f & Hf & Hl & Hw & Hp).
  exists f. split; [done|]. split; [done|]. split; [done|].
  unfold write_raw_header, path_fields, link_field.
  destruct (match ustar_path_fields path with Some f => f | None => _ end) as [name prefix].
  rewrite (write_octal_ok 8 mode) by (simpl; lia). cbn [Nat.sub].
  rewrite (write_octal_ok 8 0) by (simpl; lia). rewrite Hf.
  rewrite (write_octal_ok 12 CANONICAL_TIMESTAMP) by (unfold CANONICAL_TIMESTAMP; simpl; lia).
  cbv zeta iota beta. unfold header_body. cbn [fst snd].
  by destruct (length link <=? 100)%nat.
Qed.

Lemma raw_header_parses path kind mode size link :
  (0 <= mode < 8 ^ 7)%Z -> is_u64 size -> is_u8 kind ->
  text_field 100 (path_fields path).1 -> text_field 155 (path_fields path).2 ->
  text_field 100 (link_field link) ->
  exists block, write_raw_header path kind mode size link = Ok block /\
    length block = 512%nat /\ block <> repeat 0%Z BLOCK /\
    parse_header block = Ok (mkParsedHeader
      (if bytes_eqb (path_fields path).2 [] then (path_fields path).1
       else (path_fields path).2 ++ [47]%Z ++ (path_fields path).1)
      (link_field link) mode size kind).
Proof.
  intros Hm Hs Hk (Wn & Zn & Ln) (Wp & Zp & Lp) (Wl & Zl & Ll).
  destruct (write_raw_header_body path kind mode size link Hm Hs) as (f & Lf & Wf & Hf & Hw).
  cbv zeta in Hw. set (h := header_body _ _ _ _ _ _ _) in Hw. rewrite Hw.
  assert (Lm : length (octal_fixed 7 mode ++ [0]%Z) = 8%nat) by reflexivity.
  assert (Lt : length (octal_fixed 11 CANONICAL_TIMESTAMP ++ [0]%Z) = 12%nat) by reflexivity.
  destruct (header_windows (path_fields path).1 _ f _ (link_field link) (path_fields path).2 kind
    Ln Lm Lf Lt Ll Lp) as (HL & S1 & S2 & S3 & S4 & S5 & S6 & S7 & S8 & S9 & S10 & S11 & S12 & S13 & S14).
  fold h in HL, S1, S2, S3, S4, S5, S6, S7, S8, S9, S10, S11, S12, S13, S14.
  assert (Hsum : (0 <= sum_bytes h < 8 ^ 6)%Z).
  { assert (wf_bytes h) as W.
    { apply wf_header_body; try done; apply wf_bytes_app;
        (split; [apply wf_octal_fixed|by repeat constructor]). }
    pose proof (sum_bytes_bound h W). unfold len in *. rewrite HL in *. lia. }
  clearbody h. rewrite (fmt_octal_fits 6) by (simpl; lia).
  set (chk := octal_fixed 6 (sum_bytes h) ++ [0; 32]%Z).
  assert (Lc : length chk = 8%nat) by reflexivity.
  assert (Hout : forall s e, (s <= e)%nat -> (e <= 148 \/ 156 <= s)%nat ->
                 slice (put h 148 chk) s e = slice h s e).
  { intros s e Hse Hr. apply slice_put_out; lia. }
  assert (Hc : slice (put h 148 chk) 148 156 = chk).
  { rewrite slice_put_at by lia. rewrite Lc. unfold slice. rewrite Nat.sub_diag. apply app_nil_r. }
  eexists. split; [reflexivity|]. split; [rewrite length_put; lia|]. split.
  { intros E. assert (S10' : slice (put h 148 chk) 257 263 = repeat 0%Z 6)
      by (rewrite E; by rewrite slice_repeat by (unfold BLOCK; lia)).
    rewrite Hout, S10 in S10' by lia. discriminate. }
  unfold parse_header, validate_checksum. rewrite Hc. unfold chk at 1.
  rewrite parse_octal_fixed by (simpl; lia || by right). cbv iota beta zeta.
  rewrite checksum_masked, Z.eqb_refl by (done || lia). cbn [negb].
  rewrite !Hout by lia. rewrite S1, S2, S3, S4, S5, S6, S9, S10, S11, S12, S13, S14.
  unfold bytes_eqb at 1 2. rewrite !bool_decide_true by done. cbn [negb orb].
  rewrite !nul_field_padded by done. rewrite !parse_octal_fixed by (unfold CANONICAL_TIMESTAMP; simpl; lia || by left).
  rewrite Hf. cbn [parse_octal_empty]. 
  rewrite (nth_slice _ 156 kind) by (rewrite Hout by lia; done). done.
Qed.
