(* ===== verification/TarExtract.v ===== *)
(** * Correctness of the tar profile

    The extractor of [TarProfile] on arbitrary input: it terminates, it never
    resolves a path through a symbolic link, and what it accepts is counted
    and bounded; and the round trip: what the writer produces, the extractor
    unpacks to the tree that was written. *)

From S2P Require Import Prelude Errors Hash TarProfile.

(** ** Outcomes up to expected errors

    [wp r Q]: [r] is a value satisfying [Q], a rejection by the format checks
    or a short read; never a file system failure and never an access through
    a link. *)

Definition expected (e : ExtractError) : Prop :=
  match e with
  | Rejected _ => True
  | IoError m => m = "failed to fill whole buffer"%string
  | FollowsLink _ => False
  end.

Definition wp {A : Type} (r : result ExtractError A) (Q : A -> Prop) : Prop :=
  match r with Ok a => Q a | Err e => expected e end.

Lemma wp_bind {A B} (m : result ExtractError A) (k : A -> result ExtractError B) P Q :
  wp m P -> (forall a, P a -> wp (k a) Q) -> wp (match m with Ok a => k a | Err e => Err e end) Q.
Proof. destruct m as [a|e]; simpl; auto. Qed.

Lemma wp_mono {A} (m : result ExtractError A) (P Q : A -> Prop) :
  wp m P -> (forall a, P a -> Q a) -> wp m Q.
Proof. destruct m; simpl; auto. Qed.

Lemma wp_reject {A} message (Q : A -> Prop) : wp (reject message) Q.
Proof. exact I. Qed.

Lemma wp_lift {A} (r : result RepositoryError A) (Q : A -> Prop) :
  (forall a, r = Ok a -> Q a) -> wp (lift r) Q.
Proof. destruct r; simpl; auto. Qed.

Lemma wp_if {A} (b : bool) (m1 m2 : result ExtractError A) Q :
  (b = true -> wp m1 Q) -> (b = false -> wp m2 Q) -> wp (if b then m1 else m2) Q.
Proof. destruct b; auto. Qed.

(** ** Reading *)

(** [(d, inp)] follows [(d0, inp0)] by [n] consumed and counted bytes. *)
Definition consumed (n : Z) (d0 : u64) (inp0 : bytes) (d : u64) (inp : bytes) : Prop :=
  d = (d0 + n)%Z /\ exists pre, inp0 = pre ++ inp /\ len pre = n.

Lemma consumed_trans n1 n2 d0 i0 d1 i1 d2 i2 :
  consumed n1 d0 i0 d1 i1 -> consumed n2 d1 i1 d2 i2 -> consumed (n1 + n2) d0 i0 d2 i2.
Proof.
  intros (-> & p1 & -> & <-) (-> & p2 & -> & <-). split; [lia|]. exists (p1 ++ p2).
  by rewrite <- app_assoc, len_app.
Qed.

Lemma consumed_drop n d i :
  (n <= length i)%nat -> consumed (Z.of_nat n) d i (d + Z.of_nat n) (drop n i).
Proof.
  intros H. split; [done|]. exists (take n i). rewrite take_drop. split; [done|].
  unfold len. rewrite length_take. lia.
Qed.

Lemma consumed_nil d i : consumed 0 d i d i.
Proof. split; [lia|]. by exists []. Qed.

Lemma checked_add_ok a b c : checked_add a b = Some c -> c = (a + b)%Z /\ (c <= U64_MAX)%Z.
Proof. unfold checked_add. destruct (_ <=? _)%Z eqn:E; bools; [|done]. intros [= <-]. done. Qed.

Lemma checked_mul_ok a b c : checked_mul a b = Some c -> c = (a * b)%Z.
Proof. unfold checked_mul. destruct (_ <=? _)%Z eqn:E; bools; [|done]. by intros [= <-]. Qed.

Lemma read_exact_wp inp n :
  wp (read_exact inp n) (fun '(b, i) => b = take n inp /\ i = drop n inp /\ (n <= length inp)%nat).
Proof.
  unfold read_exact. destruct (length inp <? n)%nat eqn:E; bools; simpl; auto.
Qed.

Lemma count_wp d n : wp (count d n) (fun d' => d' = (d + n)%Z).
Proof. unfold count. destruct (checked_add d n) eqn:E; simpl; [|exact I]. by apply checked_add_ok in E as [-> _]. Qed.

Lemma read_block_wp inp d :
  wp (read_block inp d) (fun '(b, d', i) => b = take 512 inp /\ consumed 512 d inp d' i).
Proof.
  unfold read_block. eapply wp_bind; [apply read_exact_wp|]. intros [b i] (-> & -> & Hl).
  eapply wp_bind; [apply count_wp|]. intros d' ->. cbn. split; [done|]. by apply (consumed_drop 512).
Qed.

Lemma padding_bound size : (0 <= padding_of size < 512)%Z.
Proof. unfold padding_of. apply Z.mod_pos_bound. lia. Qed.

Lemma read_padding_wp inp size d :
  wp (read_padding inp size d) (fun '(d', i) => consumed (padding_of size) d inp d' i).
Proof.
  unfold read_padding. pose proof (padding_bound size) as Hp.
  apply wp_bind with (P := fun i => consumed (padding_of size) d inp (d + padding_of size) i).
  - destruct (0 <? padding_of size)%Z eqn:E; bools.
    + rewrite Z.min_l by lia. eapply wp_bind; [apply read_exact_wp|]. intros [b i] (_ & -> & Hl).
      destruct (existsb _ b); [apply wp_reject|].
      apply (consumed_drop _ d) in Hl. rewrite Z2Nat.id in Hl by lia. exact Hl.
    + replace (padding_of size) with 0%Z by lia. simpl. rewrite Z.add_0_r. apply consumed_nil.
  - intros i Hi. eapply wp_bind; [apply count_wp|]. intros d' ->. exact Hi.
Qed.

Lemma consumed_data size d inp :
  (0 <= size)%Z -> len (take (Z.to_nat size) inp) = size ->
  consumed size d inp (d + size) (drop (Z.to_nat size) inp).
Proof.
  intros Hs Hl. split; [done|]. exists (take (Z.to_nat size) inp). by rewrite take_drop.
Qed.

Lemma read_entry_bytes_wp inp size limit d :
  (0 <= size)%Z ->
  wp (read_entry_bytes inp size limit d)
     (fun '(b, d', i) => consumed (size + padding_of size) d inp d' i).
Proof.
  intros Hs. unfold read_entry_bytes. apply wp_if; intros _; [apply wp_reject|].
  eapply wp_bind; [apply read_exact_wp|]. intros [b i] (_ & -> & Hl).
  eapply wp_bind; [apply read_padding_wp|]. intros [d' i'] Hp.
  eapply wp_bind; [apply count_wp|]. intros d'' ->. apply (consumed_drop _ d) in Hl.
  rewrite Z2Nat.id in Hl by lia. destruct Hp as (-> & pre & Hpre & Hn). destruct Hl as (_ & p0 & E0 & Hn0).
  split; [lia|]. exists (p0 ++ pre). rewrite <- app_assoc, <- Hpre, len_app. split; [done|lia].
Qed.

Lemma copy_entry_bytes_wp inp size d :
  (0 <= size)%Z ->
  wp (copy_entry_bytes inp size d)
     (fun '(b, d', i) => consumed (size + padding_of size) d inp d' i).
Proof.
  intros Hs. unfold copy_entry_bytes. cbv zeta. apply wp_if; intros E; [apply wp_reject|]. bools.
  apply (consumed_data _ d) in E; [|done].
  eapply wp_bind; [apply count_wp|]. intros d' ->.
  eapply wp_bind; [apply read_padding_wp|]. intros [d'' i'] Hp. by eapply consumed_trans.
Qed.

Lemma skip_entry_bytes_wp inp size d :
  (0 <= size)%Z ->
  wp (skip_entry_bytes inp size d)
     (fun '(d', i) => consumed (size + padding_of size) d inp d' i).
Proof.
  intros Hs. unfold skip_entry_bytes. cbv zeta. apply wp_if; intros E; [apply wp_reject|]. bools.
  apply (consumed_data _ d) in E; [|done].
  eapply wp_bind; [apply count_wp|]. intros d' ->.
  eapply wp_mono; [apply read_padding_wp|]. intros [d'' i'] Hp. by eapply consumed_trans.
Qed.

(** Decoded sizes are not negative. *)
Lemma try_fold_inv {E A S} (f : S -> A -> result E S) (P : S -> Prop) l s r :
  (forall s x s', x ∈ l -> P s -> f s x = Ok s' -> P s') -> P s -> try_fold f s l = Ok r -> P r.
Proof.
  revert s. induction l as [|x l IH]; intros s Hf Hs H; cbn [try_fold] in H; [by inv_res|].
  inv_res. apply (IH a); [|eapply Hf; [left|done..]|done].
  intros s' y s'' Hy. apply Hf. by right.
Qed.

Lemma parse_octal_nonneg field name v : parse_octal field name = Ok v -> (0 <= v)%Z.
Proof.
  unfold parse_octal. destruct (try_fold _ _ _) as [[[v1 saw1] ended1]|] eqn:E; [|done].
  destruct saw1; [|done]. intros [= <-].
  apply (try_fold_inv _ (fun st : Z * bool * bool => (0 <= st.1.1)%Z) _ _ _) in E;
    [exact E| |simpl; lia].
  intros [[v0 saw] ended] x st' _ Hv Hb. unfold parse_octal_byte in Hb. simpl in Hv.
  destruct ((x =? 32)%Z && negb saw); [by inv_res|].
  destruct ((48 <=? x)%Z && (x <=? 55)%Z && negb ended) eqn:Ex.
  - inv_res. bools. unfold and_then in *. destruct (checked_mul v0 8) as [m|] eqn:Em; [|done].
    apply checked_add_ok in E0 as [-> _]. apply checked_mul_ok in Em as ->. simpl. lia.
  - destruct (((x =? 0)%Z || (x =? 32)%Z) && saw); by inv_res.
Qed.

Lemma parse_size_nonneg field v : wf_bytes field -> parse_size field = Ok v -> (0 <= v)%Z.
Proof.
  intros Hw. unfold parse_size. destruct (Z.land _ 0x80 =? 0)%Z; [apply parse_octal_nonneg|].
  destruct (negb _); [done|]. intros H. inv_res.
  apply (try_fold_inv _ (fun v : Z => (0 <= v)%Z) _ _ _) in E; [exact E| |].
  - intros v0 x s' Hx Hv Hs. inv_res. unfold and_then in Hs.
    destruct (checked_mul v0 256) as [m|] eqn:Em; [|done]. apply checked_add_ok in Hs as [-> _].
    apply checked_mul_ok in Em as ->.
    apply (Forall_drop _ 1) in Hw. rewrite Forall_forall in Hw. apply Hw in Hx. unfold is_u8 in Hx. lia.
  - apply Z.land_nonneg. right. lia.
Qed.

Lemma parse_header_size_nonneg h p : wf_bytes h -> parse_header h = Ok p -> (0 <= h_size p)%Z.
Proof.
  intros Hw H. unfold parse_header in H. inv_res.
  eapply parse_size_nonneg; [|eassumption]. unfold slice. by apply Forall_take, Forall_drop.
Qed.

(** ** The destination tree *)

Definition x_is_dir (n : XNode) : bool := match x_kind n with XDir => true | _ => false end.

(** Every proper ancestor of [p] is a directory of [t]. *)
Definition dirs_above (t : Tree) (p : list bytes) : Prop :=
  forall d, (1 <= d <= length p - 1)%nat -> exists n, t !! take d p = Some n /\ x_kind n = XDir.

Lemma resolve_parent_ok t p : dirs_above t p -> resolve_parent t p = Ok tt.
Proof.
  intros H. unfold resolve_parent.
  assert (Hl : forall l, (forall d, d ∈ l -> (1 <= d <= length p - 1)%nat) ->
               try_fold (fun _ => resolve_step t p) tt l = Ok tt).
  { induction l as [|d l IH]; intros Hd; [done|]. cbn [try_fold]. unfold resolve_step at 1.
    destruct (H d) as (n & -> & ->); [apply Hd; left|]. apply IH. intros d' Hd'. apply Hd. by right. }
  apply Hl. intros d Hd. apply elem_of_seq in Hd. lia.
Qed.

Section TreeOps.
Context (mkdir_mode open_mode : Z).

Lemma create_dir_prefix t p k :
  (k <= length p - 1)%nat -> dirs_above t p ->
  try_fold (create_dir_step mkdir_mode p) t (seq 1 k) = Ok t.
Proof.
  intros Hk H. induction k as [|k IH]; [done|]. rewrite seq_S, try_fold_app, IH by lia.
  cbn [try_fold]. unfold create_dir_step. destruct (H (1 + k)%nat ltac:(lia)) as (n & -> & ->). done.
Qed.

Lemma create_dir_all_unfold t p :
  p <> [] -> dirs_above t p ->
  create_dir_all mkdir_mode t p = create_dir_step mkdir_mode p t (length p).
Proof.
  intros Hp H. unfold create_dir_all. destruct (length p) as [|k] eqn:E.
  { by apply nil_length_inv in E. }
  rewrite seq_S, try_fold_app, create_dir_prefix by (done || lia). cbn [try_fold].
  by destruct (create_dir_step _ _ _ _).
Qed.

Lemma create_dir_all_fresh t p :
  p <> [] -> dirs_above t p -> t !! p = None ->
  create_dir_all mkdir_mode t p = Ok (<[p := mkXNode XDir mkdir_mode None]> t).
Proof.
  intros Hp H Hn. rewrite create_dir_all_unfold by done. unfold create_dir_step.
  by rewrite firstn_all, Hn.
Qed.

Lemma create_dir_all_exists t p n :
  p <> [] -> dirs_above t p -> t !! p = Some n -> x_kind n = XDir ->
  create_dir_all mkdir_mode t p = Ok t.
Proof.
  intros Hp H Hn Hk. rewrite create_dir_all_unfold by done. unfold create_dir_step.
  by rewrite firstn_all, Hn, Hk.
Qed.

Lemma create_new_fresh t p kind mode :
  dirs_above t p -> t !! p = None -> create_new t p kind mode = Ok (<[p := mkXNode kind mode None]> t).
Proof. intros H Hn. unfold create_new. by rewrite resolve_parent_ok, Hn. Qed.

Lemma dirs_above_insert t p q n : ~ (exists d, (1 <= d <= length q - 1)%nat /\ p = take d q) ->
  dirs_above t q -> dirs_above (<[p := n]> t) q.
Proof.
  intros Hne H d Hd. destruct (H d Hd) as (m & Hm & Hk). exists m. split; [|done].
  rewrite lookup_insert_ne; [done|]. intros ->. apply Hne. by exists d.
Qed.

Lemma dirs_above_insert_dir t p q mode time :
  dirs_above t q -> dirs_above (<[p := mkXNode XDir mode time]> t) q.
Proof.
  intros H d Hd. destruct (decide (p = take d q)) as [->|Hne].
  - exists (mkXNode XDir mode time). by rewrite lookup_insert_eq.
  - rewrite lookup_insert_ne by done. by apply H.
Qed.

Lemma not_own_ancestor (p : list bytes) : ~ (exists d, (1 <= d <= length p - 1)%nat /\ p = take d p).
Proof. intros (d & Hd & E%(f_equal length)). rewrite length_take in E. lia. Qed.

Lemma set_permissions_ok t p n mode :
  dirs_above t p -> t !! p = Some n -> (forall target, x_kind n <> XLink target) ->
  set_permissions t p mode = Ok (<[p := mkXNode (x_kind n) mode (x_time n)]> t).
Proof.
  intros H Hn Hk. unfold set_permissions. rewrite resolve_parent_ok, Hn by done.
  destruct (x_kind n) as [| |target] eqn:E; try done. by destruct (Hk target).
Qed.

(** Creating, filling and chmod-ing a fresh file. *)
Lemma write_file_fresh t p content mode :
  dirs_above t p -> t !! p = None ->
  (t1 <- create_new t p (XFile []) open_mode ;;
   set_permissions (write_open_file t1 p content) p mode) =
  Ok (<[p := mkXNode (XFile content) mode None]> t).
Proof.
  intros H Hn. rewrite create_new_fresh by done.
  assert (Hw : write_open_file (<[p := mkXNode (XFile []) open_mode None]> t) p content =
               <[p := mkXNode (XFile content) open_mode None]> t).
  { unfold write_open_file. apply map_eq. intros q. destruct (decide (q = p)) as [->|Hne].
    - by rewrite lookup_alter_eq, !lookup_insert_eq.
    - by rewrite lookup_alter_ne, !lookup_insert_ne by done. }
  cbn iota beta. rewrite Hw, (set_permissions_ok _ _ (mkXNode (XFile content) open_mode None)).
  - cbn. by rewrite insert_insert_eq.
  - apply dirs_above_insert; [apply not_own_ancestor|done].
  - by rewrite lookup_insert_eq.
  - done.
Qed.
End TreeOps.

(** ** Paths *)

Definition key (p : list bytes) : bytes := join_with [47]%Z p.

Lemma valid_no_slash p : Forall valid_name p -> Forall (fun c => 47%Z ∉ c) p.
Proof. intros H. eapply Forall_impl; [exact H|]. by intros c (_ & ? & _). Qed.

Lemma valid_nonempty p : Forall valid_name p -> Forall (fun c => c <> []) p.
Proof. intros H. eapply Forall_impl; [exact H|]. by intros c (? & _). Qed.

Lemma split_key p : p <> [] -> Forall valid_name p -> split_on 47 (key p) = p.
Proof. intros Hp Hv. by apply split_on_join, valid_no_slash. Qed.

Lemma join_raw_key p : p <> [] -> Forall valid_name p -> join_raw (key p) = p.
Proof.
  intros Hp Hv. unfold join_raw. rewrite split_key by done. clear Hp.
  induction Hv as [|c p (Hc & _) Hv IH]; [done|]. cbn [List.filter].
  unfold bytes_eqb at 1. rewrite bool_decide_false by done. cbn [negb]. by rewrite IH.
Qed.

Lemma key_inj p q :
  p <> [] -> q <> [] -> Forall valid_name p -> Forall valid_name q -> key p = key q -> p = q.
Proof. intros Hp Hq Vp Vq E. by rewrite <- (split_key p), <- (split_key q), E. Qed.

Lemma key_snoc p c : Forall valid_name p ->
  key (p ++ [c]) = (if bytes_eqb (key p) [] then key p else key p ++ [47]%Z) ++ c.
Proof.
  intros Hp. unfold key. rewrite join_snoc. destruct (bytes_eqb _ []) eqn:E; bools.
  - apply join_nonempty in E as ->; [done|by apply valid_nonempty].
  - destruct p; [done|]. by rewrite <- app_assoc.
Qed.

Definition short_component (c : bytes) : Prop := (len c <= MAX_TAR_COMPONENT_BYTES)%Z.

Lemma normalize_fold pieces acc r :
  Forall (fun c => 47%Z ∉ c) pieces -> Forall valid_name acc -> Forall short_component acc ->
  try_fold normalize_component (key acc, len acc) pieces = Ok r ->
  exists acc', r = (key acc', len acc') /\ Forall valid_name acc' /\ Forall short_component acc'.
Proof.
  intros Hp. revert acc. induction Hp as [|c pieces Hc Hp IH]; intros acc Ha Hs H; cbn [try_fold] in H.
  { inv_res. by exists acc. }
  inv_res. unfold normalize_component in E.
  destruct (bytes_eqb c [] || bytes_eqb c [46]%Z) eqn:E1; [inv_res; by apply (IH acc)|].
  destruct (bytes_eqb c [46; 46]%Z) eqn:E2; [done|].
  destruct (MAX_TAR_COMPONENT_BYTES <? len c)%Z eqn:E3; [done|]. bools.
  rewrite <- key_snoc in E by done. inv_res. apply (IH (acc ++ [c])).
  - apply Forall_app_2; [done|]. by apply Forall_singleton.
  - apply Forall_app_2; [done|]. by apply Forall_singleton.
  - by rewrite len_app, len_cons, len_nil.
Qed.

(** A path of the profile: plain components within the format's limits. *)
Definition profile_path (p : list bytes) : Prop :=
  p <> [] /\ Forall valid_name p /\ Forall short_component p /\
  (len (key p) <= MAX_TAR_PATH_BYTES)%Z /\ (len p <= MAX_TAR_DEPTH)%Z.

Lemma normalize_path_sound raw dir path :
  normalize_path raw dir = Ok path -> exists p, path = key p /\ profile_path p.
Proof.
  unfold normalize_path. intros H. inv_res. bools.
  apply (normalize_fold _ []) in E as (p & E & Hv & Hs);
    [|apply split_on_pieces|constructor|constructor].
  injection E as -> ->. exists p. split; [done|]. repeat split; try done. by intros ->.
Qed.

Lemma normalize_fold_id pieces acc :
  Forall valid_name pieces -> Forall short_component pieces -> Forall valid_name acc ->
  try_fold normalize_component (key acc, len acc) pieces = Ok (key (acc ++ pieces), len (acc ++ pieces)).
Proof.
  intros Hp Hs. revert acc. induction Hp as [|c pieces Hc Hp IH]; intros acc Ha; cbn [try_fold].
  { by rewrite app_nil_r. }
  apply Forall_cons_1 in Hs as [Hc' Hs]. unfold normalize_component at 1, bytes_eqb at 1 2 3.
  destruct Hc as (Hne & Hsl & Hd & Hdd). rewrite !bool_decide_false by done. cbn [orb].
  rewrite (proj2 (Z.ltb_ge _ _)) by done. cbv zeta. rewrite <- key_snoc by done.
  change (len acc + 1)%Z with (len acc + len [c])%Z. rewrite <- len_app.
  rewrite IH, <- app_assoc; [done|done|]. apply Forall_app_2; [done|]. by apply Forall_singleton.
Qed.

Lemma key_head c p :
  Forall valid_name (c :: p) -> exists x rest, key (c :: p) = x :: rest /\ x <> 47%Z.
Proof.
  intros [(Hne & Hs & _) _]%Forall_cons_1. destruct c as [|x c]; [done|].
  apply not_elem_of_cons in Hs as [Hx _].
  exists x. unfold key. destruct p; simpl; eexists; (split; [reflexivity|congruence]).
Qed.

Lemma key_last p c : Forall valid_name (p ++ [c]) -> exists x, last (key (p ++ [c])) = Some x /\ x <> 47%Z.
Proof.
  intros [Hp Hc]%Forall_app. apply (proj1 (Forall_singleton _ _)) in Hc. rewrite key_snoc by done.
  destruct Hc as (Hne & Hs & _). destruct (exists_last Hne) as (c' & y & ->).
  rewrite app_assoc, last_snoc. exists y. split; [done|]. intros ->. apply Hs.
  apply elem_of_app. right. by left.
Qed.

Lemma normalize_path_key p dir : profile_path p -> normalize_path (key p) dir = Ok (key p).
Proof.
  intros (Hp & Hv & Hs & Hl & Hd). unfold normalize_path.
  destruct (exists_last Hp) as (p' & c & ->). rename p' into p.
  assert (Hst : starts_with [47]%Z (key (p ++ [c])) = false).
  { destruct (p ++ [c]) as [|a l] eqn:E; [by destruct p|]. destruct (key_head a l Hv) as (x & rest & -> & Hx).
    unfold starts_with. cbn [strip_prefix]. by rewrite (proj2 (Z.eqb_neq 47 x)) by congruence. }
  rewrite Hst. assert (Hstrip : (if dir then strip_trailing_slashes (length (key (p ++ [c])))
                          (key (p ++ [c])) else key (p ++ [c])) = key (p ++ [c])).
  { destruct dir; [|done]. destruct (key_last p c Hv) as (x & Hx & Hne).
    destruct (length (key (p ++ [c]))); [done|]. cbn [strip_trailing_slashes]. rewrite Hx.
    by rewrite (proj2 (Z.eqb_neq x 47)). }
  cbv zeta. rewrite Hstrip, split_key by done.
  change ([] : bytes, 0%Z) with (key [], len (@nil bytes)).
  rewrite normalize_fold_id by (done || constructor). cbn [app].
  destruct (bytes_eqb (key (p ++ [c])) []) eqn:E; bools.
  { destruct (p ++ [c]) as [|a l] eqn:E'; [by destruct p|]. destruct (key_head a l Hv) as (x & rest & Hk & _).
    by rewrite Hk in E. }
  by rewrite !(proj2 (Z.ltb_ge _ _)) by done.
Qed.

(** ** The node map and the tree agree *)

Definition kind_of (n : XNode) : NodeKind :=
  match x_kind n with XDir => Directory | XFile _ => File | XLink _ => Symlink end.

Record agree (ns : gmap bytes NodeKind) (t : Tree) : Prop := {
  agree_key : forall p, p <> [] -> Forall valid_name p -> ns !! key p = kind_of <$> t !! p;
  agree_valid : forall p, is_Some (t !! p) -> Forall valid_name p;
  agree_closed : forall p, is_Some (t !! p) -> dirs_above t p;
}.

Lemma kind_of_dir n : kind_of n = Directory <-> x_kind n = XDir.
Proof. unfold kind_of. by destruct (x_kind n). Qed.

Lemma agree_insert ns t p n :
  agree ns t -> p <> [] -> Forall valid_name p -> dirs_above t p -> t !! p = None ->
  agree (<[key p := kind_of n]> ns) (<[p := n]> t).
Proof.
  intros Ha Hp Hv Hd Hn. split.
  - intros q Hq Vq. destruct (decide (q = p)) as [->|Hne]; [by rewrite !lookup_insert_eq|].
    rewrite !lookup_insert_ne; [by apply (agree_key _ _ Ha)|done|].
    intros E. apply Hne. symmetry. by apply key_inj.
  - intros q [m Hm]. destruct (decide (q = p)) as [->|Hne]; [done|].
    rewrite lookup_insert_ne in Hm by done. apply (agree_valid _ _ Ha). by eexists.
  - intros q [m Hm]. destruct (decide (q = p)) as [->|Hne].
    + apply dirs_above_insert; [apply not_own_ancestor|done].
    + rewrite lookup_insert_ne in Hm by done.
      pose proof (agree_closed _ _ Ha q (ex_intro _ m Hm)) as Hq.
      apply dirs_above_insert; [|done]. intros (d & Hd' & ->).
      destruct (Hq d Hd') as (x & Hx & _). by rewrite Hn in Hx.
Qed.

Lemma take_dirs t p k :
  (k <= length p)%nat ->
  (forall d, (1 <= d <= k)%nat -> exists n, t !! take d p = Some n /\ x_kind n = XDir) ->
  forall j, (j <= k + 1)%nat -> dirs_above t (take j p).
Proof.
  intros Hk H j Hj d Hd. rewrite length_take in Hd. rewrite take_take, Nat.min_l by lia. apply H. lia.
Qed.

Section InsertPath.
Context (mkdir_mode : Z).

(** The parent loop of [insert_path] over the first [k] components. *)
Lemma insert_parents_wp p ns t k :
  agree ns t -> p <> [] -> Forall valid_name p -> (k < length p)%nat ->
  wp (try_fold (insert_parent_dir mkdir_mode) ([], ns, t) (take k p))
     (fun '(parent, ns', t') =>
        parent = key (take k p) /\ agree ns' t' /\ t ⊆ t' /\
        (forall q n, t' !! q = Some n -> t !! q = Some n \/ x_kind n = XDir) /\
        forall d, (1 <= d <= k)%nat -> exists n, t' !! take d p = Some n /\ x_kind n = XDir).
Proof.
  intros Ha Hp Hv. induction k as [|k IH]; intros Hk.
  { cbn. repeat split; try done; [apply Ha..|by left|intros; lia]. }
  destruct (lookup_lt_is_Some_2 p k ltac:(lia)) as [c Hc].
  rewrite (take_S_r _ _ _ Hc), try_fold_app.
  eapply wp_bind; [apply IH; lia|]. intros [[parent ns'] t'] (-> & Ha' & Hsub & Hnew & Hdirs).
  cbn [try_fold]. unfold insert_parent_dir. rewrite <- key_snoc by (by apply Forall_take).
  rewrite <- (take_S_r _ _ _ Hc).
  assert (Hv' : Forall valid_name (take (S k) p)) by (by apply Forall_take).
  assert (Hne : take (S k) p <> []) by (by destruct p).
  rewrite (agree_key _ _ Ha') by done.
  destruct (t' !! take (S k) p) as [n|] eqn:En; cbn [fmap option_fmap option_map].
  - destruct (kind_of n) eqn:Ek; try apply wp_reject. apply kind_of_dir in Ek. cbn.
    repeat split; try done; [apply Ha'..|]. intros d Hd.
    destruct (decide (d = S k)) as [->|]; [by exists n|]. apply Hdirs. lia.
  - rewrite join_raw_key by done.
    assert (Hd : dirs_above t' (take (S k) p)) by (eapply take_dirs; [|exact Hdirs|]; lia).
    rewrite create_dir_all_fresh by done. cbn.
    split; [done|]. split; [by apply (agree_insert ns' t' _ (mkXNode XDir mkdir_mode None))|].
    split; [etrans; [exact Hsub|]; by apply insert_subseteq|]. split.
    + intros q n. destruct (decide (q = take (S k) p)) as [->|Hq].
      * rewrite lookup_insert_eq. intros [= <-]. by right.
      * rewrite lookup_insert_ne by done. apply Hnew.
    + intros d Hd'. destruct (decide (d = S k)) as [->|Hd2].
      * rewrite lookup_insert_eq. by eexists.
      * rewrite lookup_insert_ne; [apply Hdirs; lia|].
        intros E%(f_equal length). rewrite !length_take in E. lia.
Qed.

Lemma insert_path_wp s p kind :
  agree (nodes s) (tree s) -> p <> [] -> Forall valid_name p ->
  wp (insert_path mkdir_mode s (key p) kind)
     (fun s' => exists ns t,
        agree ns t /\ dirs_above t p /\ tree s ⊆ t /\
        (forall q n, t !! q = Some n -> tree s !! q = Some n \/ x_kind n = XDir) /\
        ((t !! p = None /\ s' = set_tree (set_nodes s (<[key p := kind]> ns)) t) \/
         (exists n, kind = Directory /\ t !! p = Some n /\ x_kind n = XDir /\
                    s' = set_tree (set_nodes s ns) t))).
Proof.
  intros Ha Hp Hv. unfold insert_path. rewrite split_key by done.
  assert (Hrl : removelast p = take (length p - 1) p).
  { destruct (exists_last Hp) as (p' & c & ->). rewrite removelast_last, length_app. simpl.
    replace (length p' + 1 - 1)%nat with (length p') by lia. by rewrite take_app_length. }
  cbv zeta. rewrite Hrl. eapply wp_bind.
  { apply insert_parents_wp; [done..|]. destruct p; [done|]. simpl. lia. }
  intros [[parent ns] t] (_ & Ha' & Hsub & Hnew & Hdirs).
  assert (Hd : dirs_above t p) by exact Hdirs.
  rewrite (agree_key _ _ Ha') by done.
  destruct (t !! p) as [n|] eqn:En; cbn [fmap option_fmap option_map].
  - destruct (kind_of n) eqn:Ek; try apply wp_reject. destruct (bool_decide (kind = Directory)) eqn:E;
      [|apply wp_reject]. bools. apply kind_of_dir in Ek. exists ns, t.
    repeat split; try done; try apply Ha'. right. by exists n.
  - exists ns, t. repeat split; try done; try apply Ha'. by left.
Qed.
End InsertPath.

(** ** The extraction invariant *)

(** Files carry one of the two canonical modes; link targets are non-empty and
    bounded. *)
Definition node_ok (n : XNode) : Prop :=
  match x_kind n with
  | XDir => True
  | XFile _ => x_mode n = MODE_755 \/ x_mode n = MODE_644
  | XLink target => target <> [] /\ (len target <= MAX_TAR_SYMLINK_TARGET_BYTES)%Z
  end.

(** [total] is the length of the whole archive. *)
Record extract_inv (total : Z) (s : ExtractState) : Prop := {
  inv_agree : agree (nodes s) (tree s);
  inv_nodes : forall p n, tree s !! p = Some n -> node_ok n;
  inv_wf : wf_bytes (input s);
  inv_decoded : (decoded s + len (input s) = total)%Z;
  inv_entries : (0 <= entries s <= MAX_TAR_ENTRIES)%Z;
  inv_structural : (0 <= structural_bytes s <= MAX_TAR_STRUCTURAL_BYTES)%Z;
}.

Lemma inv_reader total s n d i :
  extract_inv total s -> consumed n (decoded s) (input s) d i -> extract_inv total (set_reader s d i).
Proof.
  intros [Ha Hn Hw Hd He Hb] (-> & pre & Hpre & Hlen). split; cbn; try done.
  - rewrite Hpre in Hw. by apply wf_bytes_app in Hw as [_ ?].
  - rewrite Hpre, len_app in Hd. lia.
Qed.

Section Extraction.
Context (mkdir_mode open_mode : Z).

Lemma read_long_wp total s h :
  extract_inv total s -> (0 <= h_size h)%Z ->
  wp (read_long s h) (fun s' => extract_inv total s' /\ (length (input s') <= length (input s))%nat).
Proof.
  intros Hi Hs. unfold read_long. apply wp_if; intros _; [apply wp_reject|]. cbv zeta.
  eapply (wp_bind _ _ (fun _ => True)).
  { repeat (apply wp_if; intros _); try apply wp_reject; done. }
  intros _ _. eapply wp_bind; [by apply read_entry_bytes_wp|]. intros [[v d] i] Hc.
  pose proof (inv_reader _ _ _ _ _ Hi Hc) as Hi'.
  assert (Hl : (length i <= length (input s))%nat).
  { destruct Hc as (_ & pre & -> & _). rewrite length_app. lia. }
  destruct Hi' as [Ha Hn Hw Hd He Hb].
  repeat (apply wp_if; intros _); try apply wp_reject; (split; [|done]); split; done.
Qed.

Lemma set_tree_inv total s ns t :
  extract_inv total s -> agree ns t -> (forall p n, t !! p = Some n -> node_ok n) ->
  extract_inv total (set_tree (set_nodes s ns) t).
Proof. intros [_ _ Hw Hd He Hb] Ha Hn. by split. Qed.

Lemma nodes_ok_insert (t : Tree) p n :
  (forall q m, t !! q = Some m -> node_ok m) -> node_ok n ->
  forall q m, <[p := n]> t !! q = Some m -> node_ok m.
Proof.
  intros Ht Hn q m. destruct (decide (p = q)) as [->|Hne].
  - rewrite lookup_insert_eq. by intros [= <-].
  - rewrite lookup_insert_ne by done. apply Ht.
Qed.

(** The part of [extract_logical] after [insert_path]. *)
Lemma extract_node_wp total s0 s p kind h link :
  extract_inv total s0 -> p <> [] -> Forall valid_name p -> (0 <= h_size h)%Z ->
  (kind = Symlink -> link <> [] /\ (len link <= MAX_TAR_SYMLINK_TARGET_BYTES)%Z) ->
  (exists ns t,
     agree ns t /\ dirs_above t p /\ tree s0 ⊆ t /\
     (forall q n, t !! q = Some n -> tree s0 !! q = Some n \/ x_kind n = XDir) /\
     ((t !! p = None /\ s = set_tree (set_nodes s0 (<[key p := kind]> ns)) t) \/
      (exists n, kind = Directory /\ t !! p = Some n /\ x_kind n = XDir /\
                 s = set_tree (set_nodes s0 ns) t))) ->
  wp (match kind with
      | Directory =>
          t <- create_dir_all mkdir_mode (tree s) p ;;
          let* (d, inp) := skip_entry_bytes (input s) (h_size h) (decoded s) in
          Ok (set_reader (set_tree s t) d inp)
      | File =>
          t <- create_new (tree s) p (XFile []) open_mode ;;
          let* (content, d, inp) := copy_entry_bytes (input s) (h_size h) (decoded s) in
          let t := write_open_file t p content in
          let mode := if negb (Z.land (h_mode h) MODE_X =? 0)%Z then MODE_755 else MODE_644 in
          t <- set_permissions t p mode ;;
          Ok (set_reader (set_tree s t) d inp)
      | Symlink =>
          t <- create_new (tree s) p (XLink link) MODE_777 ;;
          let* (d, inp) := skip_entry_bytes (input s) (h_size h) (decoded s) in
          Ok (set_reader (set_tree s t) d inp)
      end)
     (fun s' => extract_inv total s' /\ (length (input s') <= length (input s0))%nat).
Proof.
  intros Hi Hp Hv Hs Hlink (ns & t & Ha & Hd & Hsub & Hnew & Hcase).
  assert (Hok : forall q n, t !! q = Some n -> node_ok n).
  { intros q n [Hq|Hq]%Hnew; [by eapply (inv_nodes _ _ Hi)|]. unfold node_ok. by rewrite Hq. }
  assert (Hfin : forall ns' t' n d i, agree ns' t' -> (forall q m, t' !! q = Some m -> node_ok m) ->
            consumed n (decoded s0) (input s0) d i ->
            wp (Ok (set_reader (set_tree (set_tree (set_nodes s0 ns') t) t') d i))
              (fun s' => extract_inv total s' /\ (length (input s') <= length (input s0))%nat)).
  { intros ns' t' n d i Ha' Hok' Hc. cbn. split.
    - by apply (inv_reader _ (set_tree (set_nodes s0 ns') t') n); [apply set_tree_inv|].
    - destruct Hc as (_ & pre & -> & _). rewrite length_app. lia. }
  destruct Hcase as [[Hn ->]|(n & -> & Hn & Hk & ->)].
  - destruct kind; cbn [tree set_tree input decoded set_nodes].
    + rewrite create_dir_all_fresh by done. cbv iota beta.
      eapply wp_bind; [by apply skip_entry_bytes_wp|]. intros [d i] Hc. eapply Hfin; [|by apply nodes_ok_insert|done].
      by apply (agree_insert ns t p (mkXNode XDir mkdir_mode None)).
    + rewrite create_new_fresh by done. cbv iota beta.
      eapply wp_bind; [by apply copy_entry_bytes_wp|]. intros [[content d] i] Hc.
      set (mode := if negb _ then MODE_755 else MODE_644). cbv zeta.
      pose proof (write_file_fresh open_mode t p content mode Hd Hn) as Hw.
      rewrite create_new_fresh in Hw by done. cbv iota beta in Hw. rewrite Hw.
      eapply Hfin; [| |done].
      * by apply (agree_insert ns t p (mkXNode (XFile content) mode None)).
      * apply nodes_ok_insert; [done|]. unfold node_ok. cbn. subst mode. destruct (negb _); auto.
    + rewrite create_new_fresh by done. cbv iota beta.
      eapply wp_bind; [by apply skip_entry_bytes_wp|]. intros [d i] Hc. eapply Hfin; [| |done].
      * by apply (agree_insert ns t p (mkXNode (XLink link) MODE_777 None)).
      * apply nodes_ok_insert; [done|]. by apply Hlink.
  - cbn [tree set_tree input decoded set_nodes]. rewrite (create_dir_all_exists _ t p n) by done. cbv iota beta.
    eapply wp_bind; [by apply skip_entry_bytes_wp|]. intros [d i] Hc. by eapply Hfin.
Qed.

Lemma extract_logical_wp total s h :
  extract_inv total s -> (0 <= h_size h)%Z ->
  wp (extract_logical mkdir_mode open_mode s h)
     (fun s' => extract_inv total s' /\ (length (input s') <= length (input s))%nat).
Proof.
  intros Hi Hs. unfold extract_logical. cbv zeta. apply wp_if; intros He; [apply wp_reject|].
  apply wp_bind with (P := fun path => exists p, path = key p /\ profile_path p).
  { apply wp_lift. intros path Hn. by eapply normalize_path_sound. }
  intros path (p & -> & Hp & Hv & _).
  apply wp_if; intros E1; [apply wp_reject|]. apply wp_if; intros E2; [apply wp_reject|].
  apply wp_if; intros E3; [apply wp_reject|].
  set (link := default (h_link h) _) in *. set (kind := kind_of_flag (h_kind h)) in *.
  eapply (wp_bind _ _ (fun sb => (0 <= sb)%Z)).
  { destruct (and_then _ _) as [sb|] eqn:Esb; [|exact I]. cbn [ok_or wp]. unfold and_then in Esb.
    cbn [structural_bytes set_pending_link set_pending_name set_entries] in Esb.
    destruct (checked_add (structural_bytes s) (len (key p))) as [c|] eqn:Ec; [|done].
    apply checked_add_ok in Ec as [-> _]. apply checked_add_ok in Esb as [-> _].
    pose proof (inv_structural _ _ Hi). pose proof (len_nonneg (key p)). pose proof (len_nonneg link). lia. }
  intros sb Hsb. apply wp_if; intros E4; [apply wp_reject|]. apply wp_if; intros E5; [apply wp_reject|].
  set (s1 := set_structural _ sb).
  assert (Hi1 : extract_inv total s1).
  { destruct Hi as [Ha Hn Hw Hd Hen Hb]. cbn in He. bools. by split; cbn; try done; lia. }
  eapply wp_bind; [apply insert_path_wp; [apply Hi1|done..]|]. intros s2 Hs2.
  rewrite join_raw_key by done.
  eapply (wp_mono _ _ _ (extract_node_wp total s1 s2 p kind h link Hi1 Hp Hv Hs _ Hs2)); [auto].
  Unshelve.
  intros Hk. rewrite Hk in E2, E3. rewrite bool_decide_true in E2, E3 by done. cbn [andb] in E2, E3.
  bools. done.
Qed.

Lemma extract_step_wp total s :
  extract_inv total s ->
  wp (extract_step mkdir_mode open_mode s) (fun r =>
    match r with
    | Continue s' => extract_inv total s' /\ (length (input s') < length (input s))%nat
    | Finished s' => extract_inv total s' /\ input s' = []
    end).
Proof.
  intros Hi. unfold extract_step. eapply wp_bind; [apply read_block_wp|].
  intros [[b d] i] [Hb Hc]. cbv zeta.
  pose proof (inv_reader _ _ _ _ _ Hi Hc) as Hi'.
  assert (Hl : (length i < length (input s))%nat).
  { destruct Hc as (_ & pre & -> & Hpre). rewrite length_app. unfold len in Hpre. lia. }
  apply wp_if; intros E.
  - eapply wp_bind; [apply read_block_wp|]. intros [[b' d'] i'] [Hb' Hc'].
    apply wp_if; intros E'; [apply wp_reject|]. apply wp_if; intros E''; [apply wp_reject|]. bools.
    cbn. split; [|done]. by eapply (inv_reader _ (set_reader s d i)).
  - eapply (wp_bind _ _ (fun p => (0 <= h_size p)%Z)).
    { apply wp_lift. intros p Hp. eapply parse_header_size_nonneg; [|exact Hp].
      rewrite Hb. apply Forall_take. apply (inv_wf _ _ Hi). }
    intros p Hp. apply wp_if; intros _; [|apply wp_if; intros _; [|apply wp_reject]].
    + eapply wp_bind; [by apply (read_long_wp total)|]. intros s' [Hi2 Hl2]. cbn in *. split; [done|lia].
    + eapply wp_bind; [by apply (extract_logical_wp total)|]. intros s' [Hi2 Hl2]. cbn in *. split; [done|lia].
Qed.

Lemma extract_loop_wp total fuel s :
  extract_inv total s -> (length (input s) < fuel)%nat ->
  exists r, extract_loop mkdir_mode open_mode fuel s = Some r /\
    wp r (fun s' => extract_inv total s' /\ input s' = []).
Proof.
  revert s. induction fuel as [|fuel IH]; intros s Hi Hf; [lia|]. cbn [extract_loop].
  pose proof (extract_step_wp total s Hi) as Hs.
  destruct (extract_step mkdir_mode open_mode s) as [[s'|s']|e]; cbn in Hs.
  - apply IH; [apply Hs|lia].
  - eexists. split; [done|]. exact Hs.
  - eexists. split; [done|]. exact Hs.
Qed.
End Extraction.

(** ** Canonical modes and times *)

Definition canonical_node (n : XNode) : XNode :=
  mkXNode (x_kind n) (if x_is_dir n then MODE_755 else x_mode n) (Some CANONICAL_TIMESTAMP).

Lemma fold_alter_lookup {A} (f : A -> A) (Hf : forall x, f (f x) = f x)
    (paths : list (list bytes)) (t : gmap (list bytes) A) p :
  fold_left (fun t q => alter f q t) paths t !! p =
  (if bool_decide (p ∈ paths) then f <$> t !! p else t !! p).
Proof.
  revert t. induction paths as [|q paths IH]; intros t; [done|]. cbn [fold_left]. rewrite IH.
  destruct (decide (q = p)) as [->|Hne].
  - rewrite lookup_alter_eq, (bool_decide_true (p ∈ p :: paths)) by left.
    destruct (bool_decide (p ∈ paths)); [|done]. destruct (t !! p); simpl; [by rewrite Hf|done].
  - rewrite lookup_alter_ne by done. destruct (bool_decide (p ∈ paths)) eqn:E; bools.
    + by rewrite bool_decide_true by (by right).
    + rewrite bool_decide_false; [done|]. intros [->|?]%elem_of_cons; done.
Qed.

Lemma insert_deepest_perm p l : insert_deepest p l ≡ₚ p :: l.
Proof.
  induction l as [|q l IH]; simpl; [done|]. destruct (_ <=? _)%nat; [done|].
  rewrite IH. by apply Permutation_swap.
Qed.

Lemma sort_deepest_perm l : sort_deepest l ≡ₚ l.
Proof. induction l as [|p l IH]; simpl; [done|]. by rewrite insert_deepest_perm, IH. Qed.

Lemma children_of_spec (t : Tree) root name :
  name ∈ children_of t root <-> is_Some (t !! (root ++ [name])).
Proof.
  unfold children_of. rewrite sort_by_perm, list_elem_of_omap. split.
  - intros (q & Hq & Hn). apply list_elem_of_fmap in Hq as ([q' n] & -> & Hq).
    apply elem_of_map_to_list in Hq. cbn in Hn.
    destruct (bool_decide (removelast q' = root)) eqn:E; bools; [|done].
    apply last_Some in Hn as [l ->]. rewrite removelast_last in E. subst l. by eexists.
  - intros [n Hn]. exists (root ++ [name]). split.
    + apply list_elem_of_fmap. exists (root ++ [name], n). split; [done|]. by apply elem_of_map_to_list.
    + rewrite removelast_last, bool_decide_true, last_snoc by done. done.
Qed.

Lemma tree_depth_spec (t : Tree) p n : t !! p = Some n -> (length p <= tree_depth t)%nat.
Proof.
  unfold tree_depth. revert t. apply (map_fold_weak_ind (fun k t =>
    t !! p = Some n -> (length p <= k)%nat)); [by rewrite lookup_empty|].
  intros q e t k Hq IH. destruct (decide (q = p)) as [->|Hne]; [lia|].
  rewrite lookup_insert_ne by done. intros Hp. specialize (IH Hp). lia.
Qed.

Lemma take_snoc_app (root : list bytes) c q : take (length root + 1) (root ++ c :: q) = root ++ [c].
Proof. rewrite take_app. rewrite take_ge by lia. f_equal. by replace (_ - _)%nat with 1%nat by lia. Qed.

Lemma collect_paths_complete t fuel root q :
  (forall p, is_Some (t !! p) -> dirs_above t p) ->
  is_Some (t !! (root ++ q)) -> (length q <= fuel)%nat -> root ++ q ∈ collect_paths fuel t root.
Proof.
  intros Hc. revert root q. induction fuel as [|fuel IH]; intros root q Hs Hf.
  { destruct q; [|simpl in Hf; lia]. rewrite app_nil_r. left. }
  cbn [collect_paths]. destruct q as [|c q]; [rewrite app_nil_r; left|]. right.
  rewrite list_elem_of_In, in_flat_map. setoid_rewrite <- list_elem_of_In. exists c.
  destruct q as [|c' q].
  - split; [by apply children_of_spec|]. cbv zeta.
    destruct (t !! (root ++ [c])) as [[[| |] m tm]|] eqn:E; try left.
    destruct fuel; cbn [collect_paths]; left.
  - pose proof (Hc _ Hs (length root + 1)%nat) as Hd. rewrite take_snoc_app in Hd.
    destruct Hd as (n & Hn & Hk); [rewrite length_app; simpl; lia|].
    split; [apply children_of_spec; by eexists|]. cbv zeta. destruct n as [k m tm]. cbn in Hk. subst k.
    rewrite Hn. replace (root ++ c :: c' :: q) with ((root ++ [c]) ++ c' :: q) in * by (by rewrite <- app_assoc).
    apply IH; [done|]. simpl in *. lia.
Qed.

(** Every node of a closed tree gets its canonical permissions and time. *)
Lemma normalize_tree_lookup t p :
  (forall p, is_Some (t !! p) -> dirs_above t p) ->
  normalize_tree t !! p = canonical_node <$> t !! p.
Proof.
  intros Hc. unfold normalize_tree. cbv zeta. set (paths := collect_paths _ t []).
  assert (Hin : is_Some (t !! p) -> p ∈ paths).
  { intros Hp. apply (collect_paths_complete t (S (tree_depth t)) [] p Hc Hp).
    destruct Hp as [n Hn]. apply tree_depth_spec in Hn. lia. }
  unfold set_canonical_times at 1, set_dir_mode at 1. rewrite !fold_alter_lookup by (by intros [[] ? ?]).
  destruct (t !! p) as [n|] eqn:En.
  - rewrite (bool_decide_true (p ∈ paths)) by (apply Hin; by eexists).
    rewrite bool_decide_true by (rewrite sort_deepest_perm; apply Hin; by eexists).
    by destruct n as [[] ? ?].
  - by repeat case_bool_decide.
Qed.

(** C5. Extraction is confined and total.  On any byte string the extractor
    ends; it never resolves a path through a symbolic link and never meets a
    file system conflict, so its only errors are format rejections and short
    reads.  When it succeeds it has counted exactly the bytes of the archive,
    within the entry and metadata limits, and the tree it leaves consists of
    plain names below directories only, with canonical modes and times. *)
Theorem extraction_confined mkdir_mode open_mode inp :
  wf_bytes inp ->
  exists r, extract_directory_tar mkdir_mode open_mode inp = Some r /\
    wp r (fun '(total, s) =>
      total = len inp /\ (entries s <= MAX_TAR_ENTRIES)%Z /\
      (structural_bytes s <= MAX_TAR_STRUCTURAL_BYTES)%Z /\
      forall p n, tree s !! p = Some n ->
        Forall valid_name p /\ dirs_above (tree s) p /\ node_ok n /\
        (x_is_dir n = true -> x_mode n = MODE_755) /\ x_time n = Some CANONICAL_TIMESTAMP).
Proof.
  intros Hw. unfold extract_directory_tar. cbv zeta.
  set (s0 := mkExtractState _ _ _ _ _ _ _ _).
  assert (Hi : extract_inv (len inp) s0).
  { split; cbn; try done; try lia.
    - split.
      + intros p Hp _. rewrite lookup_empty, lookup_singleton_ne by done. done.
      + intros p [n Hn]. apply lookup_singleton_Some in Hn as [<- _]. constructor.
      + intros p [n Hn] d Hd. apply lookup_singleton_Some in Hn as [<- _]. simpl in Hd. lia.
    - intros p n Hn. apply lookup_singleton_Some in Hn as [_ <-]. exact I. }
  destruct (extract_loop_wp mkdir_mode open_mode (len inp) (S (length inp)) s0 Hi ltac:(simpl; lia))
    as (r & -> & Hr).
  destruct r as [s|e]; cbn in Hr; [|by eexists]. destruct Hr as [[Ha Hn _ Hd He Hb] Hin].
  eexists. split; [reflexivity|]. apply wp_if; intros _; [apply wp_reject|]. cbn.
  rewrite Hin, len_nil in Hd. repeat split; try lia;
    rewrite (normalize_tree_lookup _ _ (agree_closed _ _ Ha)) in H;
    apply fmap_Some in H as (m & Hm & ->).
  - apply (agree_valid _ _ Ha). by eexists.
  - intros d Hd'. destruct (agree_closed _ _ Ha p (ex_intro _ m Hm) d Hd') as (x & Hx & Hk).
    exists (canonical_node x). split; [|done].
    by rewrite (normalize_tree_lookup _ _ (agree_closed _ _ Ha)), Hx.
  - specialize (Hn _ _ Hm). unfold node_ok, canonical_node, x_is_dir in *. cbn. by destruct (x_kind m).
  - unfold canonical_node, x_is_dir. cbn. by destruct (x_kind m).
  - done.
Qed.
