(* ===== verification/TarRoundTrip.v ===== *)
(** * Round trip of the tar profile

    The archive that [write_directory_tar] produces for a directory is
    accepted by [extract_directory_tar], which unpacks exactly that directory:
    a simulation between the writer, entry by entry, and the extraction
    loop. *)

From S2P Require Import Prelude Errors Hash TarProfile TarExtract.

(** ** Exact reads *)

Lemma to_nat_len {A} (l : list A) : Z.to_nat (len l) = length l.
Proof. unfold len. lia. Qed.

Lemma read_exact_app b r : read_exact (b ++ r) (length b) = Ok (b, r).
Proof.
  unfold read_exact. rewrite length_app, (proj2 (Nat.ltb_ge _ _)) by lia.
  by rewrite take_app_length, drop_app_length.
Qed.

Lemma count_ok d n : (0 <= d)%Z -> (0 <= n)%Z -> (d + n <= U64_MAX)%Z -> count d n = Ok (d + n)%Z.
Proof. intros Hd Hn H. unfold count. by rewrite checked_add_some by (unfold U64_MAX in H; lia). Qed.

Lemma read_block_app b r d :
  length b = 512%nat -> (0 <= d)%Z -> (d + 512 <= U64_MAX)%Z ->
  read_block (b ++ r) d = Ok (b, (d + 512)%Z, r).
Proof.
  intros Hb Hd H. unfold read_block, BLOCK. rewrite <- Hb, read_exact_app.
  by rewrite count_ok by lia.
Qed.

Lemma write_zero_padding_len size : len (write_zero_padding size) = padding_of size.
Proof.
  unfold write_zero_padding, len. rewrite repeat_length. pose proof (padding_bound size). lia.
Qed.

Lemma existsb_zeros k : existsb (fun byte => negb (byte =? 0)%Z) (repeat 0%Z k) = false.
Proof. induction k as [|k IH]; [done|exact IH]. Qed.

Lemma read_padding_app r size d :
  (0 <= d)%Z -> (d + padding_of size <= U64_MAX)%Z ->
  read_padding (write_zero_padding size ++ r) size d = Ok ((d + padding_of size)%Z, r).
Proof.
  intros Hd H. unfold read_padding. pose proof (padding_bound size) as Hp. cbv zeta.
  destruct (0 <? padding_of size)%Z eqn:E; bools.
  - rewrite Z.min_l by lia.
    replace (Z.to_nat (padding_of size)) with (length (write_zero_padding size))
      by (unfold write_zero_padding; by rewrite repeat_length).
    rewrite read_exact_app. unfold write_zero_padding at 1. rewrite existsb_zeros.
    by rewrite count_ok by lia.
  - unfold write_zero_padding. replace (Z.to_nat (padding_of size)) with 0%nat by lia.
    cbn [repeat app]. by rewrite count_ok by lia.
Qed.

Lemma copy_entry_bytes_app c r d :
  (0 <= d)%Z -> (d + len c + padding_of (len c) <= U64_MAX)%Z ->
  copy_entry_bytes (c ++ write_zero_padding (len c) ++ r) (len c) d =
  Ok (c, (d + len c + padding_of (len c))%Z, r).
Proof.
  intros Hd H. unfold copy_entry_bytes. pose proof (padding_bound (len c)). pose proof (len_nonneg c).
  rewrite to_nat_len, take_app_length, drop_app_length. cbv zeta. rewrite Z.eqb_refl. cbn [negb]. rewrite count_ok by lia. rewrite read_padding_app by lia. done.
Qed.

Lemma skip_entry_bytes_nil r d :
  (0 <= d <= U64_MAX)%Z -> skip_entry_bytes r 0 d = Ok (d, r).
Proof.
  intros Hd. unfold skip_entry_bytes. cbv zeta.
  change (drop (Z.to_nat 0) r) with r. change (len (take (Z.to_nat 0) r) =? 0)%Z with true.
  cbn [negb]. rewrite count_ok by lia. rewrite Z.add_0_r.
  pose proof (read_padding_app r 0 d) as Hp. change (write_zero_padding 0 ++ r) with r in Hp.
  change (padding_of 0) with 0%Z in Hp. rewrite Hp by lia. by rewrite Z.add_0_r.
Qed.

Lemma read_entry_bytes_app v r limit d :
  (0 <= d)%Z -> (len v <= limit)%Z -> (d + len v + padding_of (len v) <= U64_MAX)%Z ->
  read_entry_bytes (v ++ write_zero_padding (len v) ++ r) (len v) limit d =
  Ok (v, (d + len v + padding_of (len v))%Z, r).
Proof.
  intros Hd Hl H. unfold read_entry_bytes. pose proof (padding_bound (len v)). pose proof (len_nonneg v).
  rewrite (proj2 (Z.ltb_ge _ _)) by done. rewrite to_nat_len, read_exact_app.
  rewrite read_padding_app by lia. rewrite count_ok by lia. do 3 f_equal. lia.
Qed.

(** ** Runs of the extraction loop *)

Section Runs.
Context (mkdir_mode open_mode : Z).
Abbreviation step := (extract_step mkdir_mode open_mode).
Abbreviation loop := (extract_loop mkdir_mode open_mode).

Inductive runs : ExtractState -> ExtractState -> Prop :=
| runs_refl s : runs s s
| runs_step s s1 s2 : step s = Ok (Continue s1) -> runs s1 s2 -> runs s s2.

Lemma runs_trans s1 s2 s3 : runs s1 s2 -> runs s2 s3 -> runs s1 s3.
Proof. induction 1 as [|s s1 s2 Hs _ IH]; [done|]. intros H. eapply runs_step; [done|]. by apply IH. Qed.

Lemma runs_once s s1 : step s = Ok (Continue s1) -> runs s s1.
Proof. intros H. eapply runs_step; [done|]. apply runs_refl. Qed.

Lemma loop_mono f f' s r : loop f s = Some r -> (f <= f')%nat -> loop f' s = Some r.
Proof.
  revert f' s. induction f as [|f IH]; intros f' s H Hf; [done|]. destruct f' as [|f']; [lia|].
  cbn [extract_loop] in *. destruct (step s) as [[s'|s']|e]; [|done..]. apply IH; [done|lia].
Qed.

Lemma runs_loop s s' r f : runs s s' -> loop f s' = Some r -> exists f', loop f' s = Some r.
Proof.
  induction 1 as [s|s s1 s2 Hs _ IH]; intros H; [by exists f|].
  destruct (IH H) as [f' Hf']. exists (S f'). cbn [extract_loop]. by rewrite Hs.
Qed.

(** Every continuing round shortens the input, so the loop never exhausts a
    fuel above its length. *)
Lemma read_exact_le i n b i' : read_exact i n = Ok (b, i') -> (length i' <= length i)%nat.
Proof. unfold read_exact. intros H. inv_res. rewrite length_drop. lia. Qed.

Lemma read_padding_le i z d d' i' : read_padding i z d = Ok (d', i') -> (length i' <= length i)%nat.
Proof.
  unfold read_padding. cbv zeta. intros H.
  destruct (0 <? padding_of z)%Z; [|by inv_res].
  destruct (read_exact _ _) as [[buf j]|] eqn:E; [|done]. apply read_exact_le in E.
  destruct (existsb _ _); [done|]. inv_res. done.
Qed.

Lemma skip_le i z d d' i' : skip_entry_bytes i z d = Ok (d', i') -> (length i' <= length i)%nat.
Proof.
  unfold skip_entry_bytes. cbv zeta. intros H. destruct (negb _); [done|]. inv_res.
  apply read_padding_le in H. rewrite length_drop in H. lia.
Qed.

Lemma copy_le i z d b d' i' : copy_entry_bytes i z d = Ok (b, d', i') -> (length i' <= length i)%nat.
Proof.
  unfold copy_entry_bytes. cbv zeta. intros H. destruct (negb _); [done|].
  destruct (count d z) as [d1|]; [|done].
  destruct (read_padding _ _ _) as [[d2 j]|] eqn:E; [|done]. inv_res.
  apply read_padding_le in E. rewrite length_drop in E. lia.
Qed.

Lemma read_long_le s h s' : read_long s h = Ok s' -> (length (input s') <= length (input s))%nat.
Proof.
  unfold read_long. cbv zeta. intros H. destruct (negb _); [done|].
  destruct (if (h_kind h =? FLAG_LONGNAME)%Z then _ else _) as [[]|]; [|done].
  destruct (read_entry_bytes _ _ _ _) as [[[v d] i]|] eqn:E; [|done].
  assert (Hi : (length i <= length (input s))%nat).
  { unfold read_entry_bytes in E. destruct (_ <? _)%Z; [done|].
    destruct (read_exact _ _) as [[b j]|] eqn:E1; [|done].
    destruct (read_padding _ _ _) as [[d1 k]|] eqn:E2; [|done]. inv_res.
    apply read_exact_le in E1. apply read_padding_le in E2. lia. }
  repeat (match type of H with (if ?c then _ else _) = _ => destruct c end); try done; by injection H as <-.
Qed.

Lemma insert_path_input s path kind s' :
  insert_path mkdir_mode s path kind = Ok s' -> input s' = input s /\ decoded s' = decoded s.
Proof.
  unfold insert_path. cbv zeta. destruct (try_fold _ _ _) as [[[par ns] t]|]; [|done].
  destruct (ns !! path) as [[]|]; try done; [destruct (bool_decide _); [|done]|]; by intros [= <-].
Qed.

Lemma extract_logical_le s h s' :
  extract_logical mkdir_mode open_mode s h = Ok s' -> (length (input s') <= length (input s))%nat.
Proof.
  unfold extract_logical. cbv zeta. intros H.
  repeat (match type of H with
          | (if ?c then reject _ else _) = _ => destruct c; [done|]
          | (match ?m with Ok _ => _ | Err _ => _ end) = _ =>
              lazymatch m with
              | insert_path _ _ _ _ => fail
              | _ => destruct m eqn:?; [|done]
              end
          end).
  destruct (insert_path _ _ _ _) as [s1|] eqn:E; [|done]. apply insert_path_input in E as [Ei Ed].
  cbn [input set_structural set_pending_link set_pending_name set_entries] in Ei. rewrite <- Ei.
  destruct (kind_of_flag (h_kind h)).
  - destruct (create_dir_all _ _ _); [|done].
    destruct (skip_entry_bytes _ _ _) as [[d i]|] eqn:Es; [|done]. injection H as <-. by apply skip_le in Es.
  - destruct (create_new _ _ _ _); [|done].
    destruct (copy_entry_bytes _ _ _) as [[[c d] i]|] eqn:Es; [|done].
    destruct (set_permissions _ _ _); [|done]. injection H as <-. by apply copy_le in Es.
  - destruct (create_new _ _ _ _); [|done].
    destruct (skip_entry_bytes _ _ _) as [[d i]|] eqn:Es; [|done]. injection H as <-. by apply skip_le in Es.
Qed.

Lemma step_shrinks s s' : step s = Ok (Continue s') -> (length (input s') < length (input s))%nat.
Proof.
  unfold extract_step. intros H. destruct (read_block _ _) as [[[b d] i]|] eqn:E; [|done].
  assert (Hi : (length i < length (input s))%nat).
  { unfold read_block, read_exact in E. destruct (_ <? _)%nat eqn:El; [done|]. bools. inv_res.
    rewrite length_drop. unfold BLOCK in *. lia. }
  clear E. cbv zeta in H. destruct (bytes_eqb b _).
  { destruct (read_block _ _) as [[[b' d'] i']|]; [|done].
    destruct (negb (bytes_eqb b' _)); [done|]. destruct (negb (bytes_eqb i' [])); done. }
  destruct (lift _) as [h|]; [|done]. destruct (_ || _).
  - destruct (read_long _ _) as [s1|] eqn:El; [|done]. injection H as <-. apply read_long_le in El. cbn in El. lia.
  - destruct (_ || _); [|done]. destruct (extract_logical _ _ _ _) as [s1|] eqn:El; [|done].
    injection H as <-. apply extract_logical_le in El. cbn in El. lia.
Qed.

Lemma loop_total fuel s : (length (input s) < fuel)%nat -> loop fuel s <> None.
Proof.
  revert s. induction fuel as [|fuel IH]; intros s Hf; [lia|]. cbn [extract_loop].
  destruct (step s) as [[s'|s']|e] eqn:E; [|done..]. apply step_shrinks in E. apply IH. lia.
Qed.

(** ** Single rounds *)

(** The state between two logical entries. *)
Definition settled (s : ExtractState) : Prop := pending_name s = None /\ pending_link s = None.

Definition text (b : bytes) : Prop := wf_bytes b /\ 0%Z ∉ b.

Lemma text_field_of limit b : text b -> (length b <= limit)%nat -> text_field limit b.
Proof. intros [Hw Hz] Hl. done. Qed.

Lemma text_take n b : text b -> text (take n b).
Proof.
  intros [Hw Hz]. split; [by apply Forall_take|]. intros Hin. apply Hz.
  rewrite <- (take_drop n b). apply elem_of_app. by left.
Qed.

Lemma text_drop n b : text b -> text (drop n b).
Proof.
  intros [Hw Hz]. split; [by apply Forall_drop|]. intros Hin. apply Hz.
  rewrite <- (take_drop n b). apply elem_of_app. by right.
Qed.

Lemma text_placeholder : text (lit "placeholder").
Proof. split; [apply wf_lit|].
  assert (H : bool_decide (0%Z ∉ lit "placeholder") = true) by (vm_compute; reflexivity). by bools.
Qed.

Lemma text_nil : text [].
Proof. split; [constructor|]. apply not_elem_of_nil. Qed.

(** The written path fields are text of the right width, and spell the path
    unless it was replaced. *)
Lemma path_fields_text path :
  text path -> starts_with [47]%Z path = false ->
  text_field 100 (path_fields path).1 /\ text_field 155 (path_fields path).2 /\
  (ustar_path_fields path <> None ->
   (if bytes_eqb (path_fields path).2 [] then (path_fields path).1
    else (path_fields path).2 ++ [47]%Z ++ (path_fields path).1) = path).
Proof.
  intros Ht Hs. unfold path_fields. destruct (ustar_path_fields path) as [[name prefix]|] eqn:E.
  - pose proof E as E'. apply ustar_fields_spec in E' as (Hn & Hp & Heq); [|done].
    assert (text name /\ text prefix) as [? ?].
    { unfold ustar_path_fields in E. destruct (_ <=? _)%nat; [injection E as <- <-; split; [done|apply text_nil]|].
      destruct (_ <? _)%nat; [done|]. destruct (find_rev _ _ _); [|done]. injection E as <- <-.
      split; [by apply text_drop|by apply text_take]. }
    split; [by apply text_field_of|]. split; [by apply text_field_of|]. done.
  - split; [apply text_field_of; [apply text_placeholder|simpl; lia]|].
    split; [apply text_field_of; [apply text_nil|simpl; lia]|]. done.
Qed.

Lemma link_field_text link : text link -> text_field 100 (link_field link).
Proof.
  intros Ht. unfold link_field. destruct (_ <=? _)%nat eqn:E; bools; [by apply text_field_of|].
  apply text_field_of; [apply text_placeholder|simpl; lia].
Qed.

Lemma mode_range m : m = MODE_755 \/ m = MODE_644 \/ m = MODE_777 -> (0 <= m < 8 ^ 7)%Z.
Proof. intros [-> |[-> | ->]]; vm_compute; split; discriminate || reflexivity. Qed.

(** Reading back a header block. *)
Lemma header_round path kind mode size link s r :
  text path -> starts_with [47]%Z path = false -> text link ->
  mode = MODE_755 \/ mode = MODE_644 \/ mode = MODE_777 -> is_u64 size -> is_u8 kind ->
  forall block, write_raw_header path kind mode size link = Ok block ->
  input s = block ++ r -> (0 <= decoded s)%Z -> (decoded s + 512 <= U64_MAX)%Z ->
  len block = 512%Z /\
  exists h, h_kind h = kind /\ h_mode h = mode /\ h_size h = size /\ h_link h = link_field link /\
    (ustar_path_fields path <> None -> h_path h = path) /\
    step s =
      (let s := set_reader s (decoded s + 512)%Z r in
       if (kind =? FLAG_LONGNAME)%Z || (kind =? FLAG_LONGLINK)%Z then
         s <- read_long s h ;; Ok (Continue s)
       else if (kind =? FLAG_NUL)%Z || (kind =? FLAG_FILE)%Z || (kind =? FLAG_LINK)%Z
               || (kind =? FLAG_DIR)%Z then
         s <- extract_logical mkdir_mode open_mode s h ;; Ok (Continue s)
       else reject ("unsupported repository tar type flag 0x" +:+ show (fmt_02x kind))).
Proof.
  intros Ht Hs Hl Hm Hz Hk block Hw Hin Hd0 Hd.
  destruct (path_fields_text path Ht Hs) as (Hf1 & Hf2 & Hpath).
  destruct (raw_header_parses path kind mode size link (mode_range _ Hm) Hz Hk Hf1 Hf2 (link_field_text _ Hl))
    as (block' & Hw' & Hlen & Hne & Hp).
  rewrite Hw in Hw'. injection Hw' as <-. split; [unfold len; by rewrite Hlen|].
  match type of Hp with _ = Ok ?h => exists h end. do 4 (split; [done|]). split.
  - exact Hpath.
  - unfold extract_step. rewrite Hin, read_block_app by (done || lia).
    cbv zeta iota beta. destruct (bytes_eqb block (repeat 0%Z BLOCK)) eqn:E; bools; [done|].
    by rewrite Hp.
Qed.

(** What a writing call appends. *)
Definition appends (o o' : Output) (b : bytes) : Prop :=
  out o' = out o ++ b /\ written o' = (written o + len b)%Z.

Lemma appends_trans o1 o2 o3 b1 b2 :
  appends o1 o2 b1 -> appends o2 o3 b2 -> appends o1 o3 (b1 ++ b2).
Proof.
  intros [E1 W1] [E2 W2]. split; [by rewrite E2, E1, app_assoc|]. rewrite W2, W1, len_app. lia.
Qed.

Lemma appends_nil o : appends o o [].
Proof. split; [by rewrite app_nil_r|]. rewrite len_nil. lia. Qed.

(** Room for [b] in the byte counter. *)
Definition room (s : ExtractState) (b : bytes) : Prop :=
  (0 <= decoded s)%Z /\ (decoded s + len b <= U64_MAX)%Z.

Lemma removelast_snoc_last (v : bytes) x : removelast (v ++ [x]) = v /\ last (v ++ [x]) = Some x.
Proof. split; [apply removelast_last|apply last_snoc]. Qed.

Lemma long_path_ok : text GNU_LONG_PATH /\ starts_with [47]%Z GNU_LONG_PATH = false /\
  ustar_path_fields GNU_LONG_PATH <> None.
Proof.
  split; [split; [apply wf_lit|]|done].
  assert (H : bool_decide (0%Z ∉ GNU_LONG_PATH) = true) by (vm_compute; reflexivity). by bools.
Qed.

(** The extension record for [value], and what reading it leaves pending. *)
Lemma long_round o o' kind value s r :
  write_long o kind value = Ok o' -> text value -> value <> [] ->
  (kind = FLAG_LONGNAME /\ ustar_path_fields value = None /\
   (len value <= MAX_TAR_PATH_BYTES)%Z /\ settled s) \/
  (kind = FLAG_LONGLINK /\ (100 < length value)%nat /\
   (len value <= MAX_TAR_SYMLINK_TARGET_BYTES)%Z /\ pending_link s = None) ->
  exists b, appends o o' b /\ entry_count o' = entry_count o /\ structural o' = structural o /\
    (input s = b ++ r -> room s b ->
     let s1 := set_reader s (decoded s + len b)%Z r in
     step s = Ok (Continue (if (kind =? FLAG_LONGNAME)%Z then set_pending_name s1 (Some value)
                            else set_pending_link s1 (Some value)))).
Proof.
  intros Hw [Wv Zv] Hne Hk. unfold write_long in Hw. inv_res.
  assert (Hlen : (1 <= len value <= 65536)%Z).
  { split; [destruct value; [done|]; rewrite len_cons; pose proof (len_nonneg value); lia|].
    unfold MAX_TAR_PATH_BYTES, MAX_TAR_SYMLINK_TARGET_BYTES in Hk. lia. }
  set (v0 := value ++ [0]%Z) in *.
  assert (Hv0 : len v0 = (len value + 1)%Z) by (unfold v0; by rewrite len_app).
  destruct long_path_ok as (Ht & Hs & Hu).
  exists (a ++ v0 ++ write_zero_padding (len v0)).
  assert (Hlena : len a = 512%Z).
  { destruct (path_fields_text GNU_LONG_PATH Ht Hs) as (Hf1 & Hf2 & _).
    destruct (raw_header_parses GNU_LONG_PATH kind MODE_644 (len v0) [] (mode_range _ (or_intror (or_introl eq_refl)))
      ltac:(unfold is_u64; lia) ltac:(unfold is_u8; destruct Hk as [(-> & _)|(-> & _)]; vm_compute; split; discriminate || reflexivity)
      Hf1 Hf2 (link_field_text _ text_nil)) as (block & Hb & Hl & _).
    rewrite E in Hb. injection Hb as ->. unfold len. by rewrite Hl. }
  pose proof (padding_bound (len v0)).
  split; [|split; [done|split; [done|]]].
  { unfold appends. cbn. rewrite !len_app, write_zero_padding_len. split; [by rewrite <- !app_assoc|lia]. }
  intros Hin [Hd Hr]. rewrite !len_app, write_zero_padding_len in Hr |- *. rewrite <- app_assoc in Hin.
  destruct (header_round GNU_LONG_PATH kind MODE_644 (len v0) [] s _ Ht Hs text_nil
    (or_intror (or_introl eq_refl)) ltac:(unfold is_u64; lia)
    ltac:(unfold is_u8; destruct Hk as [(-> & _)|(-> & _)]; vm_compute; split; discriminate || reflexivity)
    a E Hin Hd ltac:(lia)) as (_ & h & Hhk & Hhm & Hhs & _ & Hhp & Hstep).
  specialize (Hhp Hu). cbv zeta. rewrite Hstep. clear Hstep. cbv zeta.
  destruct (removelast_snoc_last value 0%Z) as [Hrl Hla].
  unfold read_long. rewrite Hhp, Hhk, Hhs. unfold bytes_eqb at 1. rewrite bool_decide_true by done.
  cbn [negb]. cbv zeta. cbn [pending_name pending_link set_reader].
  destruct Hk as [(-> & Hnone & Hmax & Hp1 & Hp2)|(-> & H100 & Hmax & Hp2)].
  - rewrite Hp1, Hp2. change (bool_decide (is_Some (@None bytes))) with false.
    cbn [Z.eqb Pos.eqb FLAG_LONGNAME orb]. rewrite <- app_assoc.
    cbn [input decoded set_reader]. rewrite read_entry_bytes_app by lia.
    fold v0 in Hrl, Hla. rewrite Hrl, Hla.
    rewrite (proj2 (Nat.ltb_ge (length v0) 2)) by (unfold len in *; lia).
    rewrite (bool_decide_true (Some 0%Z = Some 0%Z)), (bool_decide_false (0%Z ∈ value)) by done.
    cbn [negb orb]. rewrite Hnone.
    change (bool_decide (is_Some (@None (bytes * bytes)))) with false.
    cbn. do 3 f_equal. unfold set_pending_name, set_reader. cbn. f_equal. lia.
  - rewrite Hp2. change (bool_decide (is_Some (@None bytes))) with false.
    change (FLAG_LONGLINK =? FLAG_LONGNAME)%Z with false. change (FLAG_LONGLINK =? FLAG_LONGLINK)%Z with true.
    cbn [orb]. cbv iota. rewrite <- app_assoc.
    cbn [input decoded set_reader]. rewrite read_entry_bytes_app by lia.
    fold v0 in Hrl, Hla. rewrite Hrl, Hla.
    rewrite (proj2 (Nat.ltb_ge (length v0) 2)) by (unfold len in *; lia).
    rewrite (bool_decide_true (Some 0%Z = Some 0%Z)), (bool_decide_false (0%Z ∈ value)) by done.
    cbn [negb orb]. rewrite (proj2 (Nat.leb_gt (length value) 100)) by lia.
    cbn. do 3 f_equal. unfold set_pending_link, set_reader. cbn. f_equal. lia.
Qed.

(** The parts of the state a header read leaves alone. *)
Definition same_core (s s' : ExtractState) : Prop :=
  nodes s' = nodes s /\ entries s' = entries s /\ structural_bytes s' = structural_bytes s /\
  tree s' = tree s.

Definition logical_flag (kind : u8) : Prop :=
  kind = FLAG_FILE \/ kind = FLAG_LINK \/ kind = FLAG_DIR.

Lemma logical_dispatch kind : logical_flag kind ->
  is_u8 kind /\ (kind =? FLAG_LONGNAME)%Z || (kind =? FLAG_LONGLINK)%Z = false /\
  (kind =? FLAG_NUL)%Z || (kind =? FLAG_FILE)%Z || (kind =? FLAG_LINK)%Z || (kind =? FLAG_DIR)%Z = true.
Proof. intros [-> |[-> | ->]]; (split; [by vm_compute; split|done]). Qed.

(** The last header of an entry, with long values pending. *)
Lemma main_header_round path kind mode size link block s r :
  text path -> starts_with [47]%Z path = false -> text link -> logical_flag kind ->
  mode = MODE_755 \/ mode = MODE_644 \/ mode = MODE_777 -> is_u64 size ->
  write_raw_header path kind mode size link = Ok block ->
  pending_name s = (if bool_decide (ustar_path_fields path = None) then Some path else None) ->
  pending_link s = (if (100 <? length link)%nat then Some link else None) ->
  input s = block ++ r -> room s block -> len block = 512%Z ->
  exists h s2,
    step s = (s' <- extract_logical mkdir_mode open_mode s2 h ;; Ok (Continue s')) /\
    same_core s s2 /\ input s2 = r /\ decoded s2 = (decoded s + 512)%Z /\
    default (h_path h) (pending_name s2) = path /\ default (h_link h) (pending_link s2) = link /\
    h_kind h = kind /\ h_mode h = mode /\ h_size h = size.
Proof.
  intros Ht Hs Hl Hk Hm Hz Hw Hpn Hpl Hin [Hd Hr] Hlen.
  destruct (logical_dispatch kind Hk) as (Hu & Hf1 & Hf2).
  destruct (header_round path kind mode size link s r Ht Hs Hl Hm Hz Hu block Hw Hin Hd ltac:(lia))
    as (_ & h & Hhk & Hhm & Hhs & Hhl & Hhp & Hstep).
  rewrite Hf1, Hf2 in Hstep. exists h, (set_reader s (decoded s + 512) r).
  split; [exact Hstep|]. split; [done|]. split; [done|]. split; [done|].
  cbn [pending_name pending_link set_reader]. rewrite Hpn, Hpl, Hhl. repeat split; try done.
  - destruct (bool_decide (ustar_path_fields path = None)) eqn:E; bools; [done|]. by apply Hhp.
  - unfold link_field. destruct (100 <? length link)%nat eqn:E; bools; [done|].
    by rewrite (proj2 (Nat.leb_le _ _)) by lia.
Qed.

Lemma raw_header_len path kind mode size link block :
  text path -> starts_with [47]%Z path = false -> text link -> is_u8 kind ->
  mode = MODE_755 \/ mode = MODE_644 \/ mode = MODE_777 -> is_u64 size ->
  write_raw_header path kind mode size link = Ok block -> len block = 512%Z.
Proof.
  intros Ht Hs Hl Hu Hm Hz Hw. destruct (path_fields_text path Ht Hs) as (Hf1 & Hf2 & _).
  destruct (raw_header_parses path kind mode size link (mode_range _ Hm) Hz Hu Hf1 Hf2 (link_field_text _ Hl))
    as (block' & Hw' & Hlen & _). rewrite Hw in Hw'. injection Hw' as <-. unfold len. by rewrite Hlen.
Qed.

(** An optional extension record. *)
Lemma long_opt_round (c : bool) o o' kind value :
  (if c then write_long o kind value else Ok o) = Ok o' -> (c = true -> text value /\ value <> []) ->
  (c = true ->
   (kind = FLAG_LONGNAME /\ ustar_path_fields value = None /\ (len value <= MAX_TAR_PATH_BYTES)%Z) \/
   (kind = FLAG_LONGLINK /\ (100 < length value)%nat /\
    (len value <= MAX_TAR_SYMLINK_TARGET_BYTES)%Z)) ->
  exists b, appends o o' b /\ entry_count o' = entry_count o /\ structural o' = structural o /\
    forall s r, pending_link s = None -> (kind = FLAG_LONGNAME -> settled s) ->
      input s = b ++ r -> room s b ->
      exists s', runs s s' /\ same_core s s' /\ input s' = r /\
        decoded s' = (decoded s + len b)%Z /\
        (kind = FLAG_LONGNAME -> pending_name s' = (if c then Some value else None) /\ pending_link s' = None) /\
        (kind = FLAG_LONGLINK -> pending_name s' = pending_name s /\
                                 pending_link s' = (if c then Some value else None)).
Proof.
  intros Hw Ht Hk. destruct c.
  - destruct (Ht eq_refl) as [Htext Hne].
    assert (Hcase : forall s, pending_link s = None -> (kind = FLAG_LONGNAME -> settled s) ->
      (kind = FLAG_LONGNAME /\ ustar_path_fields value = None /\
       (len value <= MAX_TAR_PATH_BYTES)%Z /\ settled s) \/
      (kind = FLAG_LONGLINK /\ (100 < length value)%nat /\
       (len value <= MAX_TAR_SYMLINK_TARGET_BYTES)%Z /\ pending_link s = None)).
    { intros s Hl Hs. destruct (Hk eq_refl) as [(-> & ? & ?)|(-> & ? & ?)]; [left|right]; auto. }
    set (s0 := mkExtractState ∅ None None 0 0 0 ∅ []).
    destruct (long_round o o' kind value s0 [] Hw Htext Hne (Hcase s0 eq_refl (fun _ => conj eq_refl eq_refl)))
      as (b & Happ & He & Hst & _).
    exists b. split; [done|]. split; [done|]. split; [done|]. intros s r Hpl Hset Hin Hroom.
    destruct (long_round o o' kind value s r Hw Htext Hne (Hcase s Hpl Hset)) as (b' & Happ' & _ & _ & Hstep).
    assert (b' = b) as ->.
    { destruct Happ as [Ha _], Happ' as [Ha' _]. rewrite Ha in Ha'. by apply app_inv_head in Ha'. }
    specialize (Hstep Hin Hroom). cbv zeta in Hstep. eexists. split; [by apply runs_once|].
    destruct (Hk eq_refl) as [(-> & _)|(-> & _)]; cbn; repeat split; try done; by destruct (Hset eq_refl).
  - injection Hw as <-. exists []. split; [apply appends_nil|]. split; [done|]. split; [done|].
    intros s r Hpl Hset Hin Hroom. exists s. split; [apply runs_refl|]. rewrite len_nil, Z.add_0_r.
    repeat split; try done; by destruct (Hset H).
Qed.

(** All the headers of one entry, up to the logical record. *)
Lemma write_header_round o o' path kind mode size link :
  write_header o path kind mode size link = Ok o' ->
  text path -> starts_with [47]%Z path = false -> path <> [] ->
  (len path <= MAX_TAR_PATH_BYTES)%Z -> text link ->
  (len link <= MAX_TAR_SYMLINK_TARGET_BYTES)%Z -> logical_flag kind ->
  mode = MODE_755 \/ mode = MODE_644 \/ mode = MODE_777 -> is_u64 size ->
  exists b, appends o o' b /\ entry_count o' = entry_count o /\ structural o' = structural o /\
    forall s r, settled s -> input s = b ++ r -> room s b ->
      exists s1 h s2, runs s s1 /\
        step s1 = (s' <- extract_logical mkdir_mode open_mode s2 h ;; Ok (Continue s')) /\
        same_core s s2 /\ input s2 = r /\ decoded s2 = (decoded s + len b)%Z /\
        default (h_path h) (pending_name s2) = path /\ default (h_link h) (pending_link s2) = link /\
        h_kind h = kind /\ h_mode h = mode /\ h_size h = size.
Proof.
  intros Hw Ht Hs Hne Hpl Hlt Hll Hk Hm Hz. unfold write_header in Hw.
  destruct (if bool_decide _ then write_long o FLAG_LONGNAME path else Ok o) as [o1|] eqn:E1; [|done].
  destruct (if (100 <? length link)%nat then write_long o1 FLAG_LONGLINK link else Ok o1) as [o2|] eqn:E2; [|done].
  destruct (write_raw_header path kind mode size link) as [blk|] eqn:E3; [|done]. injection Hw as <-.
  apply long_opt_round in E1 as (b1 & Ha1 & He1 & Hst1 & Hr1); [|done|intros Hc; bools; by left].
  apply long_opt_round in E2 as (b2 & Ha2 & He2 & Hst2 & Hr2).
  2: { intros Hc; bools. split; [done|]. by destruct link; [simpl in Hc; lia|]. }
  2: { intros Hc; bools. by right. }
  destruct (logical_dispatch kind Hk) as (Hu & _).
  pose proof (raw_header_len _ _ _ _ _ _ Ht Hs Hlt Hu Hm Hz E3) as Hlen.
  exists (b1 ++ b2 ++ blk). split; [|split; [cbn; congruence|split; [cbn; congruence|]]].
  { eapply appends_trans; [done|]. eapply appends_trans; [done|]. split; cbn; [done|lia]. }
  intros s r Hset Hin Hroom. rewrite <- !app_assoc in Hin.
  unfold room in Hroom. rewrite !len_app in Hroom.
  pose proof (len_nonneg b1). pose proof (len_nonneg b2).
  destruct (Hr1 s (b2 ++ blk ++ r)) as (s1 & R1 & C1 & I1 & D1 & P1 & _); [apply Hset|done|done|unfold room; lia|].
  destruct (P1 eq_refl) as [N1 L1].
  destruct (Hr2 s1 (blk ++ r)) as (s2 & R2 & C2 & I2 & D2 & _ & P2); [done|done|done|unfold room; lia|].
  destruct (P2 eq_refl) as [N2 L2].
  destruct (main_header_round path kind mode size link blk s2 r) as (h & s3 & Hstep & C3 & I3 & D3 & Hp & Hl & Hrest);
    try done; [congruence|unfold room; lia|].
  exists s2, h, s3. split; [by eapply runs_trans|]. split; [done|]. split.
  { destruct C1 as (? & ? & ? & ?), C2 as (? & ? & ? & ?), C3 as (? & ? & ? & ?). repeat split; congruence. }
  split; [done|]. split; [rewrite !len_app; lia|]. done.
Qed.

(** ** The logical record *)

Lemma insert_parents_exact ns t p k :
  agree ns t -> p <> [] -> Forall valid_name p -> dirs_above t p -> (k < length p)%nat ->
  try_fold (insert_parent_dir mkdir_mode) ([], ns, t) (take k p) = Ok (key (take k p), ns, t).
Proof.
  intros Ha Hp Hv Hd. induction k as [|k IH]; intros Hk; [done|].
  destruct (lookup_lt_is_Some_2 p k ltac:(lia)) as [c Hc].
  rewrite (take_S_r _ _ _ Hc), try_fold_app, IH by lia. cbn [try_fold]. unfold insert_parent_dir.
  rewrite <- key_snoc by (by apply Forall_take). rewrite <- (take_S_r _ _ _ Hc).
  rewrite (agree_key _ _ Ha) by (by apply Forall_take || by destruct p).
  destruct (Hd (S k) ltac:(lia)) as (n & -> & Hn). cbn [fmap option_fmap option_map].
  by rewrite (proj2 (kind_of_dir n) Hn).
Qed.

Lemma insert_path_fresh s p kind :
  agree (nodes s) (tree s) -> p <> [] -> Forall valid_name p -> dirs_above (tree s) p ->
  tree s !! p = None ->
  insert_path mkdir_mode s (key p) kind = Ok (set_nodes s (<[key p := kind]> (nodes s))).
Proof.
  intros Ha Hp Hv Hd Hn. unfold insert_path. rewrite split_key by done. cbv zeta.
  assert (Hrl : removelast p = take (length p - 1) p).
  { destruct (exists_last Hp) as (p' & c & ->). rewrite removelast_last, length_app. simpl.
    replace (length p' + 1 - 1)%nat with (length p') by lia. by rewrite take_app_length. }
  rewrite Hrl, insert_parents_exact by first [done | destruct p; [done|simpl; lia]]. cbv iota beta.
  rewrite (agree_key _ _ Ha), Hn by done. cbn [fmap option_fmap option_map]. by destruct s.
Qed.

(** The node each flag creates. *)
Definition made_node (kind : u8) (mode : Z) (link content : bytes) : XNode :=
  if (kind =? FLAG_LINK)%Z then mkXNode (XLink link) MODE_777 None
  else if (kind =? FLAG_DIR)%Z then mkXNode XDir mkdir_mode None
  else mkXNode (XFile content) (if negb (Z.land mode MODE_X =? 0)%Z then MODE_755 else MODE_644) None.

Lemma extract_logical_exact s h p kind mode size link content r :
  agree (nodes s) (tree s) -> profile_path p -> dirs_above (tree s) p -> tree s !! p = None ->
  logical_flag kind -> h_kind h = kind -> h_mode h = mode -> h_size h = size ->
  default (h_path h) (pending_name s) = key p -> default (h_link h) (pending_link s) = link ->
  (0 <= entries s < MAX_TAR_ENTRIES)%Z -> (0 <= structural_bytes s)%Z ->
  (structural_bytes s + len (key p) + len link <= MAX_TAR_STRUCTURAL_BYTES)%Z ->
  (kind = FLAG_LINK -> link <> [] /\ (len link <= MAX_TAR_SYMLINK_TARGET_BYTES)%Z) ->
  (kind <> FLAG_LINK -> link = []) ->
  (if (kind =? FLAG_FILE)%Z then size = len content /\ input s = content ++ write_zero_padding size ++ r
   else size = 0%Z /\ content = [] /\ input s = r) ->
  room s (content ++ write_zero_padding size) ->
  exists s', extract_logical mkdir_mode open_mode s h = Ok s' /\
    nodes s' = <[key p := kind_of (made_node kind mode link content)]> (nodes s) /\
    tree s' = <[p := made_node kind mode link content]> (tree s) /\
    settled s' /\ entries s' = (entries s + 1)%Z /\
    structural_bytes s' = (structural_bytes s + len (key p) + len link)%Z /\
    decoded s' = (decoded s + len (content ++ write_zero_padding size))%Z /\ input s' = r.
Proof.
  intros Ha Hpp Hd Hn Hk Hhk Hhm Hhs Hhp Hhl He Hs0 Hs Hlink Hnolink Hin [Hd0 Hr].
  pose proof Hpp as (Hp & Hv & _).
  pose proof (len_nonneg (key p)). pose proof (len_nonneg link).
  unfold extract_logical. cbv zeta.
  rewrite (proj2 (Z.ltb_ge MAX_TAR_ENTRIES _)) by (cbn; lia).
  cbn [pending_name pending_link set_entries set_pending_name set_pending_link]. rewrite Hhp.
  rewrite normalize_path_key by done. cbn [lift map_err]. rewrite Hhl, Hhk, Hhs.
  cbn [structural_bytes set_entries set_pending_name set_pending_link].
  rewrite (checked_add_some (structural_bytes s)) by (unfold MAX_TAR_STRUCTURAL_BYTES in *; lia).
  cbn [and_then]. rewrite checked_add_some by (unfold MAX_TAR_STRUCTURAL_BYTES in *; lia). cbn [ok_or].
  rewrite (proj2 (Z.ltb_ge MAX_TAR_STRUCTURAL_BYTES _)) by lia.
  set (s1 := set_structural _ _).
  assert (Hins : forall kd, insert_path mkdir_mode s1 (key p) kd =
                   Ok (set_nodes s1 (<[key p := kd]> (nodes s1)))) by (intros; by apply insert_path_fresh).
  rewrite len_app, write_zero_padding_len in Hr |- *.
  destruct Hk as [-> |[-> | ->]]; change (kind_of_flag FLAG_FILE) with File in *;
    change (kind_of_flag FLAG_LINK) with Symlink in *; change (kind_of_flag FLAG_DIR) with Directory in *.
  - rewrite Hnolink in * by done. cbn [Z.eqb Pos.eqb FLAG_FILE] in Hin. destruct Hin as [Hsz Hin].
    unfold bytes_eqb. rewrite (bool_decide_true (@nil Z = [])) by done. rewrite ?andb_false_r.
    rewrite !(bool_decide_false (File = Symlink)), (bool_decide_false (File <> File)) by (done || tauto).
    cbn [andb negb]. rewrite Hins, join_raw_key by done.
    change (tree (set_nodes s1 (<[key p:=File]> (nodes s1)))) with (tree s).
    change (input (set_nodes s1 (<[key p:=File]> (nodes s1)))) with (input s).
    change (decoded (set_nodes s1 (<[key p:=File]> (nodes s1)))) with (decoded s).
    pose proof (write_file_fresh open_mode (tree s) p content
      (if negb (Z.land mode MODE_X =? 0)%Z then MODE_755 else MODE_644) Hd Hn) as Hwf.
    rewrite create_new_fresh in Hwf |- * by done. cbv iota beta in Hwf |- *.
    rewrite Hin. rewrite Hsz, copy_entry_bytes_app by (rewrite <- ?Hsz; lia).
    rewrite Hhm, Hwf. eexists. split; [reflexivity|]. cbn. rewrite <- Hsz, ?Hnolink by done.
    repeat split; try done; lia.
  - destruct (Hlink eq_refl) as [Hlne Hlmax]. destruct Hin as (-> & -> & Hin). change (len []) with 0%Z in *.
    rewrite (bool_decide_false (Symlink <> Symlink)) by tauto. rewrite (bool_decide_true (Symlink = Symlink)) by done.
    cbn [andb]. unfold bytes_eqb. rewrite bool_decide_false by done.
    rewrite (proj2 (Z.ltb_ge MAX_TAR_SYMLINK_TARGET_BYTES _)) by done.
    cbn [andb negb Z.eqb]. rewrite ?andb_false_r. rewrite Hins, join_raw_key by done.
    change (tree (set_nodes s1 (<[key p:=Symlink]> (nodes s1)))) with (tree s).
    rewrite create_new_fresh by done. cbv iota beta.
    change (input (set_nodes s1 (<[key p:=Symlink]> (nodes s1)))) with (input s).
    change (decoded (set_nodes s1 (<[key p:=Symlink]> (nodes s1)))) with (decoded s).
    change (padding_of 0) with 0%Z in *. rewrite skip_entry_bytes_nil by lia.
    eexists. split; [reflexivity|]. cbn. repeat split; try done; lia.
  - rewrite Hnolink in * by done. destruct Hin as (-> & -> & Hin). change (len []) with 0%Z in *.
    unfold bytes_eqb. rewrite (bool_decide_true (@nil Z = [])) by done. rewrite ?andb_false_r.
    rewrite !(bool_decide_false (Directory = Symlink)) by done. cbn [andb negb Z.eqb]. rewrite ?andb_false_r.
    rewrite Hins, join_raw_key by done.
    change (tree (set_nodes s1 (<[key p:=Directory]> (nodes s1)))) with (tree s).
    rewrite create_dir_all_fresh by done. cbv iota beta.
    change (input (set_nodes s1 (<[key p:=Directory]> (nodes s1)))) with (input s).
    change (decoded (set_nodes s1 (<[key p:=Directory]> (nodes s1)))) with (decoded s).
    change (padding_of 0) with 0%Z in *. rewrite skip_entry_bytes_nil by lia.
    eexists. split; [reflexivity|]. cbn. rewrite ?Hnolink by done.
    repeat split; try done; lia.
Qed.

(** ** The tree a source describes *)

Definition good_name (name : bytes) : Prop := valid_name name /\ text name.

(** Sources the profile can carry: readable directories with distinct plain
    names, readable files, and links with a non-empty target. *)
Inductive good : WObj -> Prop :=
| good_dir l : NoDup (map fst l) -> Forall (fun e => good_name e.1 /\ good e.2) l ->
               good (WDir (Ok l))
| good_file mode size c : is_u64 size -> good (WFile mode size (Ok c))
| good_link t : t <> [] -> text t -> good (WLink (Ok t)).

Definition x_node (obj : WObj) : option XNode :=
  match obj with
  | WDir _ => Some (mkXNode XDir mkdir_mode None)
  | WFile mode _ (Ok c) =>
      Some (mkXNode (XFile c) (if negb (Z.land mode MODE_X =? 0)%Z then MODE_755 else MODE_644) None)
  | WLink (Ok t) => Some (mkXNode (XLink t) MODE_777 None)
  | _ => None
  end.

Fixpoint x_at (obj : WObj) (q : list bytes) : option XNode :=
  match q with
  | [] => x_node obj
  | name :: q' =>
      match obj with
      | WDir (Ok l) => match assoc name l with Some c => x_at c q' | None => None end
      | _ => None
      end
  end.

Record sim (o : Output) (s : ExtractState) : Prop := {
  sim_agree : agree (nodes s) (tree s);
  sim_settled : settled s;
  sim_entries : entries s = entry_count o;
  sim_structural : structural_bytes s = structural o;
  sim_nonneg : (0 <= entries s)%Z /\ (0 <= structural_bytes s)%Z;
}.

Lemma text_app a b : text a -> text b -> text (a ++ b).
Proof.
  intros [Wa Za] [Wb Zb]. split; [by apply wf_bytes_app|]. intros [?|?]%elem_of_app; done.
Qed.

Lemma text_slash : text [47]%Z.
Proof. split; [by repeat constructor|]. intros H%list_elem_of_singleton. done. Qed.

Lemma text_key p : Forall good_name p -> text (key p).
Proof.
  intros Hp. unfold key. induction Hp as [|c p [_ Hc] Hp IH]; [apply text_nil|].
  destruct p as [|c' p]; [done|]. apply text_app; [done|]. apply text_app; [apply text_slash|done].
Qed.

Lemma good_valid p : Forall good_name p -> Forall valid_name p.
Proof. intros H. eapply Forall_impl; [exact H|]. by intros c [? _]. Qed.

Lemma key_plain p : p <> [] -> Forall valid_name p -> starts_with [47]%Z (key p) = false /\ key p <> [].
Proof.
  intros Hp Hv. destruct p as [|c p]; [done|]. destruct (key_head c p Hv) as (x & rest & -> & Hx).
  split; [|done]. unfold starts_with. cbn [strip_prefix].
  by rewrite (proj2 (Z.eqb_neq 47 x)) by congruence.
Qed.

Lemma normalize_fold_short pieces acc r :
  Forall valid_name pieces -> Forall valid_name acc ->
  try_fold normalize_component (key acc, len acc) pieces = Ok r ->
  Forall short_component pieces /\ r = (key (acc ++ pieces), len (acc ++ pieces)).
Proof.
  intros Hp. revert acc. induction Hp as [|c pieces Hc Hp IH]; intros acc Ha H; cbn [try_fold] in H.
  { inv_res. rewrite app_nil_r. by split. }
  destruct Hc as (Hne & Hsl & Hd & Hdd). inv_res. unfold normalize_component, bytes_eqb in E.
  rewrite !(bool_decide_false (c = _)) in E by done. cbn [orb] in E.
  destruct (MAX_TAR_COMPONENT_BYTES <? len c)%Z eqn:E3; [done|]. bools.
  fold (bytes_eqb (key acc) []) in E. rewrite <- key_snoc in E by done. inv_res.
  change (len acc + 1)%Z with (len acc + len [c])%Z in H. rewrite <- len_app in H.
  apply IH in H as [Hs ->]; [|apply Forall_app_2; [done|]; by apply Forall_singleton].
  rewrite <- app_assoc. split; [by constructor|done].
Qed.

Lemma normalize_key_profile p q :
  p <> [] -> Forall valid_name p -> normalize_path (key p) false = Ok q -> profile_path p.
Proof.
  intros Hp Hv. unfold normalize_path. destruct (key_plain p Hp Hv) as [-> _]. cbv zeta.
  rewrite split_key by done. intros H. inv_res. bools.
  change ([] : bytes, 0%Z) with (key [], len (@nil bytes)) in E.
  apply normalize_fold_short in E as [Hs [= -> ->]]; [|done|constructor]. done.
Qed.

Definition target_len (obj : WObj) : Z := match obj with WLink (Ok t) => len t | _ => 0 end.

Lemma account_entry_ok o o1 p obj :
  p <> [] -> Forall valid_name p -> good obj -> account_entry o (key p) obj = Ok o1 ->
  profile_path p /\ out o1 = out o /\ written o1 = written o /\
  entry_count o1 = (entry_count o + 1)%Z /\ (entry_count o1 <= MAX_TAR_ENTRIES)%Z /\
  structural o1 = (structural o + len (key p) + target_len obj)%Z /\
  (structural o1 <= MAX_TAR_STRUCTURAL_BYTES)%Z /\
  (target_len obj <= MAX_TAR_SYMLINK_TARGET_BYTES)%Z.
Proof.
  intros Hp Hv Hg H. unfold account_entry in H.
  destruct (normalize_path (key p) false) as [q|] eqn:En; [|done].
  apply normalize_key_profile in En; [|done..]. cbv zeta in H.
  destruct (MAX_TAR_ENTRIES <? entry_count o + 1)%Z eqn:Ee; [done|]. bools.
  assert (Hlink : exists lt, match obj with
                   | WNoMetadata e => io_err e
                   | WLink (Err e) => io_err e
                   | WLink (Ok target) => Ok (Some target)
                   | _ => Ok None
                   end = Ok lt /\ (match lt with Some target => len target | None => 0%Z end) = target_len obj).
  { destruct Hg; by eexists. }
  destruct Hlink as (lt & Elt & Hlt). rewrite Elt in H. rewrite Hlt in H.
  destruct (match lt with Some target => (MAX_TAR_SYMLINK_TARGET_BYTES <? len target)%Z | None => false end)
    eqn:Em; [done|].
  assert (Hmax : (target_len obj <= MAX_TAR_SYMLINK_TARGET_BYTES)%Z).
  { rewrite <- Hlt. destruct lt; bools; [done|]. vm_compute. discriminate. }
  destruct (and_then _ _) as [sb|] eqn:Es; [|done]. cbn [ok_or] in H. unfold and_then in Es.
  destruct (checked_add (structural o) (len (key p))) as [c|] eqn:Ec; [|done].
  apply checked_add_ok in Ec as [-> _]. apply checked_add_ok in Es as [-> _].
  destruct (MAX_TAR_STRUCTURAL_BYTES <? _)%Z eqn:Eb; [done|]. bools. injection H as <-. cbn.
  split; [done|]. repeat split; try done; lia.
Qed.

(** ** Simulation of the writer by the extractor *)

Definition entry_sim (obj : WObj) (p : list bytes) : Prop :=
  forall o o', write_entry obj (key p) o = Ok o' ->
  exists b, appends o o' b /\
    forall s r, sim o s -> input s = b ++ r -> room s b -> dirs_above (tree s) p ->
      (forall q, tree s !! (p ++ q) = None) ->
      exists s', runs s s' /\ sim o' s' /\ input s' = r /\ decoded s' = (decoded s + len b)%Z /\
        (forall q, tree s' !! (p ++ q) = x_at obj q) /\
        (forall q, (forall q', q <> p ++ q') -> tree s' !! q = tree s !! q).

(** Header, data and bookkeeping of one entry, for the node it makes. *)
Lemma entry_round o o1 o2 p obj kind mode size link content :
  p <> [] -> Forall good_name p -> good obj -> account_entry o (key p) obj = Ok o1 ->
  write_header o1 (key p) kind mode size link = Ok o2 ->
  text link -> len link = target_len obj -> logical_flag kind ->
  mode = MODE_755 \/ mode = MODE_644 \/ mode = MODE_777 -> is_u64 size ->
  (kind = FLAG_LINK -> link <> []) -> (kind <> FLAG_LINK -> link = []) ->
  (if (kind =? FLAG_FILE)%Z then size = len content else size = 0%Z /\ content = []) ->
  exists b, appends o (emit_padding (emit o2 content (len content)) size) b /\
    forall s r, sim o s -> input s = b ++ r -> room s b -> dirs_above (tree s) p ->
      tree s !! p = None ->
      exists s', runs s s' /\ sim o2 s' /\ input s' = r /\ decoded s' = (decoded s + len b)%Z /\
        tree s' = <[p := made_node kind mode link content]> (tree s).
Proof.
  intros Hp Hg Hobj Hacc Hw Htl Hll Hk Hm Hz Hlink Hnolink Hc.
  pose proof (good_valid p Hg) as Hv. destruct (key_plain p Hp Hv) as [Hplain Hkne].
  destruct (account_entry_ok o o1 p obj Hp Hv Hobj Hacc) as (Hpp & Ho & Hwr & He & Hemax & Hs & Hsmax & Htmax).
  destruct (write_header_round o1 o2 (key p) kind mode size link Hw (text_key p Hg) Hplain Hkne
    ltac:(apply Hpp) Htl ltac:(lia) Hk Hm Hz) as (b & Happ & He2 & Hs2 & Hround).
  exists (b ++ content ++ write_zero_padding size). split.
  { destruct Happ as [Hout Hwri]. unfold appends, emit_padding, emit. cbn.
    rewrite Hout, Hwri, Ho, Hwr, <- !app_assoc, !len_app, write_zero_padding_len. split; [done|lia]. }
  intros s r Hsim Hin Hroom Hd Hn. rewrite <- !app_assoc in Hin. destruct Hroom as [Hd0 Hr].
  rewrite (len_app b) in Hr. pose proof (len_nonneg b).
  pose proof (len_nonneg (content ++ write_zero_padding size)).
  destruct (Hround s (content ++ write_zero_padding size ++ r) (sim_settled _ _ Hsim) Hin
    ltac:(unfold room; lia)) as (s1 & h & s2 & R1 & Hstep & (Cn & Ce & Cs & Ct) & I2 & D2 & Hhp & Hhl & Hhk & Hhm & Hhs).
  destruct (sim_nonneg _ _ Hsim) as [Hn1 Hn2].
  pose proof (sim_entries _ _ Hsim). pose proof (sim_structural _ _ Hsim).
  destruct (extract_logical_exact s2 h p kind mode size link content r) as
    (s' & Hex & Nn & Nt & Nset & Ne & Ns & Nd & Ni); try done;
    rewrite ?Cn, ?Ct, ?Ce, ?Cs; try done; try lia.
  - apply (sim_agree _ _ Hsim).
  - intros Hl. split; [by apply Hlink|lia].
  - destruct (kind =? FLAG_FILE)%Z eqn:Ek; [done|]. destruct Hc as [-> ->]. rewrite I2. done.
  - unfold room. lia.
  - exists s'. split; [eapply runs_trans; [done|]; apply runs_once; by rewrite Hstep, Hex|].
    split; [split|].
    + rewrite Nn, Nt, Cn, Ct. apply agree_insert; [apply (sim_agree _ _ Hsim)|done..].
    + done.
    + rewrite Ne, Ce, He2, He. lia.
    + rewrite Ns, Cs, Hs2, Hs. lia.
    + rewrite Ne, Ns, Ce, Cs. pose proof (len_nonneg (key p)). pose proof (len_nonneg link). lia.
    + split; [done|]. split; [rewrite Nd, D2, (len_app b); lia|]. by rewrite Nt, Ct.
Qed.

Lemma insert_lookups (t : Tree) p n :
  (forall q, t !! (p ++ q) = None) ->
  (forall q, <[p := n]> t !! (p ++ q) = if bool_decide (q = []) then Some n else None) /\
  (forall q, (forall q', q <> p ++ q') -> <[p := n]> t !! q = t !! q).
Proof.
  intros Hn. split.
  - intros q. destruct (bool_decide (q = [])) eqn:E; bools.
    + subst q. by rewrite app_nil_r, lookup_insert_eq.
    + rewrite lookup_insert_ne; [done|]. intros Heq. apply E.
      rewrite <- (app_nil_r p) in Heq at 1. by apply app_inv_head in Heq.
  - intros q Hq. rewrite lookup_insert_ne; [done|]. intros <-. apply (Hq []). by rewrite app_nil_r.
Qed.

Lemma x_at_leaf obj q : (forall l, obj <> WDir (Ok l)) ->
  x_at obj q = if bool_decide (q = []) then x_node obj else None.
Proof. destruct q as [|name q]; [done|]. destruct obj as [[l|]| | | | |]; intros H; try done. by destruct (H l). Qed.

Lemma emit_nil o : emit_padding (emit o [] 0) 0 = o.
Proof. unfold emit_padding, emit. cbn. rewrite !app_nil_r, !Z.add_0_r. by destruct o. Qed.

Lemma file_sim mode size c p :
  p <> [] -> Forall good_name p -> is_u64 size -> entry_sim (WFile mode size (Ok c)) p.
Proof.
  intros Hp Hg Hz o o' Hw. cbn [write_entry] in Hw.
  destruct (account_entry o (key p) _) as [o1|] eqn:Ea; [|done].
  set (m := if negb (Z.land mode MODE_X =? 0)%Z then MODE_755 else MODE_644) in Hw.
  destruct (write_header o1 (key p) FLAG_FILE m size []) as [o2|] eqn:Eh; [|done].
  destruct (negb (len c =? size)%Z) eqn:El; [done|]. bools. injection Hw as <-.
  destruct (entry_round o o1 o2 p (WFile mode size (Ok c)) FLAG_FILE m size [] c) as (b & Happ & Hr);
    try done; [by constructor|apply text_nil|by left|subst m; destruct (negb _); auto|].
  exists b. split; [done|]. intros s r Hsim Hin Hroom Hd Hn.
  destruct (Hr s r Hsim Hin Hroom Hd) as (s' & R & Hs' & Hi & Hdec & Ht).
  { rewrite <- (app_nil_r p). apply Hn. }
  exists s'. split; [done|]. split; [by destruct Hs'; split|]. split; [done|]. split; [done|]. rewrite Ht.
  destruct (insert_lookups (tree s) p (made_node FLAG_FILE m [] c) Hn) as [H1 H2]. split; [|done].
  intros q. rewrite H1, x_at_leaf by done. cbn. unfold made_node. cbn.
  subst m. by destruct (Z.land mode MODE_X =? 0)%Z.
Qed.

Lemma link_sim t p : p <> [] -> Forall good_name p -> t <> [] -> text t -> entry_sim (WLink (Ok t)) p.
Proof.
  intros Hp Hg Hne Ht o o' Hw. cbn [write_entry] in Hw.
  destruct (account_entry o (key p) _) as [o1|] eqn:Ea; [|done].
  unfold write_header_and_data in Hw. change (len []) with 0%Z in Hw.
  destruct (write_header o1 (key p) FLAG_LINK MODE_777 0 t) as [o2|] eqn:Eh; [|done]. injection Hw as <-.
  destruct (entry_round o o1 o2 p (WLink (Ok t)) FLAG_LINK MODE_777 0 t []) as (b & Happ & Hr);
    try done; [by constructor|by right; left|by right; right|].
  exists b. change (len []) with 0%Z in Happ. rewrite emit_nil in Happ. split; [done|].
  intros s r Hsim Hin Hroom Hd Hn.
  destruct (Hr s r Hsim Hin Hroom Hd) as (s' & R & Hs' & Hi & Hdec & Htr).
  { rewrite <- (app_nil_r p). apply Hn. }
  exists s'. split; [done|]. split; [done|]. split; [done|]. split; [done|]. rewrite Htr.
  destruct (insert_lookups (tree s) p (made_node FLAG_LINK MODE_777 t []) Hn) as [H1 H2]. split; [|done].
  intros q. by rewrite H1, x_at_leaf by done.
Qed.

Lemma child_neq (p : list bytes) a b q q' : a <> b -> p ++ a :: q <> p ++ b :: q'.
Proof. intros Hne E. apply app_inv_head in E. by injection E as ->. Qed.

Lemma dirs_above_child (t t' : Tree) p name :
  dirs_above t (p ++ [name]) ->
  (forall q, (length q <= length p)%nat -> t' !! q = t !! q) -> dirs_above t' (p ++ [name]).
Proof.
  intros H Ht d Hd. destruct (H d Hd) as (n & Hn & Hk). exists n. split; [|done].
  rewrite Ht; [done|]. rewrite length_take. rewrite length_app in Hd. simpl in Hd. lia.
Qed.

Lemma list_sim es p o o' :
  Forall (fun e => entry_sim e.2 (p ++ [e.1])) es -> NoDup (map fst es) ->
  try_fold (fun o e => write_entry e.2 (key (p ++ [e.1])) o) o es = Ok o' ->
  exists b, appends o o' b /\
    forall s r, sim o s -> input s = b ++ r -> room s b ->
      (forall e, e ∈ es -> dirs_above (tree s) (p ++ [e.1])) ->
      (forall e q, e ∈ es -> tree s !! (p ++ e.1 :: q) = None) ->
      exists s', runs s s' /\ sim o' s' /\ input s' = r /\ decoded s' = (decoded s + len b)%Z /\
        (forall e q, e ∈ es -> tree s' !! (p ++ e.1 :: q) = x_at e.2 q) /\
        (forall q, (forall e q', e ∈ es -> q <> p ++ e.1 :: q') -> tree s' !! q = tree s !! q).
Proof.
  intros Hes. revert o. induction Hes as [|[name c] es He Hes IH]; intros o Hnd Hw; cbn [try_fold] in Hw.
  { injection Hw as <-. exists []. split; [apply appends_nil|]. intros s r Hsim Hin _ _ _. exists s.
    rewrite len_nil, Z.add_0_r. repeat split; try done; try apply Hsim; [apply runs_refl|].
    intros e q Hx. inversion Hx. }
  cbn [map fst snd] in *. apply NoDup_cons in Hnd as [Hni Hnd].
  destruct (write_entry c (key (p ++ [name])) o) as [o1|] eqn:E; [|done].
  destruct (He o o1 E) as (b1 & Ha1 & H1). destruct (IH o1 Hnd Hw) as (b2 & Ha2 & H2).
  exists (b1 ++ b2). split; [by eapply appends_trans|].
  intros s r Hsim Hin [Hd0 Hr] Habove Hfresh. rewrite <- app_assoc in Hin. rewrite len_app in Hr |- *.
  pose proof (len_nonneg b1). pose proof (len_nonneg b2).
  assert (Hassoc : forall q : list bytes, (p ++ [name]) ++ q = p ++ name :: q) by (intros; by rewrite <- app_assoc).
  destruct (H1 s (b2 ++ r) Hsim Hin ltac:(unfold room; lia)) as (s1 & R1 & S1 & I1 & D1 & T1 & F1).
  { apply (Habove (name, c)). left. }
  { intros q. rewrite Hassoc. apply (Hfresh (name, c)). left. }
  assert (F1' : forall q, (forall q', q <> p ++ name :: q') -> tree s1 !! q = tree s !! q).
  { intros q Hq. apply F1. intros q'. rewrite Hassoc. apply Hq. }
  destruct (H2 s1 r S1 I1 ltac:(unfold room; lia)) as (s2 & R2 & S2 & I2 & D2 & T2 & F2).
  { intros e Hin'. eapply dirs_above_child; [apply Habove; by right|]. intros q Hq. apply F1'.
    intros q' ->. rewrite length_app in Hq. simpl in Hq. lia. }
  { intros e q Hin'. rewrite F1'; [apply Hfresh; by right|]. intros q'. apply child_neq. intros Ee.
    apply Hni. rewrite <- Ee. by apply (list_elem_of_fmap_2 fst). }
  exists s2. split; [by eapply runs_trans|]. split; [done|]. split; [done|]. split; [lia|]. split.
  - intros e q Hin'. apply elem_of_cons in Hin' as [->|Hin']; [|by apply T2]. cbn [fst snd].
    rewrite F2; [rewrite <- Hassoc; apply T1|]. intros e' q' He'. apply child_neq. intros Ee.
    apply Hni. rewrite Ee. by apply (list_elem_of_fmap_2 fst).
  - intros q Hq. rewrite F2 by (intros e q' He'; apply Hq; by right). apply F1'.
    intros q'. apply (Hq (name, c)). left.
Qed.

Lemma sort_by_map_key {B C} (g : bytes * B -> C) (l : list (bytes * B)) :
  sort_by fst (map (fun e => (e.1, g e)) l) = map (fun e => (e.1, g e)) (sort_by fst l).
Proof.
  assert (Hins : forall x k, insert_by fst (x.1, g x) (map (fun e => (e.1, g e)) k) =
                        map (fun e => (e.1, g e)) (insert_by fst x k)).
  { intros x k. induction k as [|y k IH]; [done|]. cbn [map insert_by fst].
    destruct (lex_leb x.1 y.1); [done|]. cbn [map]. by rewrite IH. }
  induction l as [|x l IH]; [done|]. cbn [map]. unfold sort_by in *. cbn [foldr]. by rewrite IH, Hins.
Qed.

Lemma try_fold_apply {E S A} (f : A -> S -> result E S) s l :
  try_fold (fun s w => w s) s (map f l) = try_fold (fun s a => f a s) s l.
Proof. revert s. induction l as [|x l IH]; intros s; [done|]. cbn. destruct (f x s); [apply IH|done]. Qed.

Lemma child_raw_key p name : Forall valid_name p -> child_raw (key p) name = key (p ++ [name]).
Proof. intros Hp. by rewrite key_snoc. Qed.

Lemma children_fold l p o :
  Forall valid_name p ->
  try_fold (fun o write => write o) o
    (map snd (sort_by fst (map (fun e => (e.1, write_entry e.2 (child_raw (key p) e.1))) l))) =
  try_fold (fun o e => write_entry e.2 (key (p ++ [e.1])) o) o (sort_by fst l).
Proof.
  intros Hp. rewrite (sort_by_map_key (fun e => write_entry e.2 (child_raw (key p) e.1))), map_map. cbn [snd].
  rewrite try_fold_apply. generalize (sort_by fst l). intros k. revert o.
  induction k as [|e k IH]; intros o; [done|]. cbn [try_fold]. rewrite child_raw_key by done.
  by destruct (write_entry e.2 _ o).
Qed.

Lemma WObj_nested_ind (P : WObj -> Prop) :
  (forall e, P (WDir (Err e))) -> (forall l, Forall (fun e => P e.2) l -> P (WDir (Ok l))) ->
  (forall m z c, P (WFile m z c)) -> (forall t, P (WLink t)) -> P WSpecial -> P WUnknown ->
  (forall e, P (WNoMetadata e)) -> forall o, P o.
Proof.
  intros He Hd Hf Hl Hs Hu Hm. fix IH 1. intros [[l|e]|m z c|t| | |e];
    [apply Hd|apply He|apply Hf|apply Hl|apply Hs|apply Hu|apply Hm].
  induction l as [|[name c] l IHl]; constructor; [apply IH|apply IHl].
Qed.

Lemma write_entry_sim obj p : p <> [] -> Forall good_name p -> good obj -> entry_sim obj p.
Proof.
  revert p. induction obj as [e|l IH|m z c|t| | |e] using WObj_nested_ind; intros p Hp Hg Hobj;
    try (by inversion Hobj).
  2: { inversion_clear Hobj. by apply file_sim. }
  2: { inversion_clear Hobj. by apply link_sim. }
  inversion Hobj as [l' Hnd Hl El| |]. subst l'.
  intros o o' Hw. cbn [write_entry] in Hw.
  destruct (account_entry o (key p) (WDir (Ok l))) as [o1|] eqn:Ea; [|done].
  unfold write_header_and_data in Hw. change (len []) with 0%Z in Hw.
  destruct (write_header o1 (key p) FLAG_DIR MODE_755 0 []) as [o2|] eqn:Eh; [|done].
  cbn [bytes_eqb] in Hw. change (bytes_eqb [] []) with true in Hw. cbv iota in Hw.
  rewrite (children_fold l p o2 (good_valid p Hg)) in Hw.
  destruct (entry_round o o1 o2 p (WDir (Ok l)) FLAG_DIR MODE_755 0 [] []) as (b1 & Ha1 & Hr1);
    try done; [apply text_nil|by right; right|by left|].
  change (len []) with 0%Z in Ha1. rewrite emit_nil in Ha1.
  apply (list_sim (sort_by fst l) p) in Hw as (b2 & Ha2 & Hr2).
  2: { rewrite sort_by_perm. rewrite Forall_forall in IH, Hl |- *. intros e He. destruct (Hl e He) as [Hname Hc].
       apply IH; [done|by destruct p|apply Forall_app_2; [done|by apply Forall_singleton]|done]. }
  2: { by rewrite sort_by_perm. }
  exists (b1 ++ b2). split; [by eapply appends_trans|].
  intros s r Hsim Hin [Hd0 Hroom] Habove Hfresh. rewrite <- app_assoc in Hin. rewrite len_app in Hroom |- *.
  pose proof (len_nonneg b1). pose proof (len_nonneg b2).
  assert (Hpn : tree s !! p = None) by (rewrite <- (app_nil_r p); apply Hfresh).
  destruct (Hr1 s (b2 ++ r) Hsim Hin ltac:(unfold room; lia) Habove Hpn) as (s1 & R1 & S1 & I1 & D1 & T1).
  destruct (insert_lookups (tree s) p (made_node FLAG_DIR MODE_755 [] []) Hfresh) as [L1 L2].
  rewrite <- T1 in L1, L2.
  destruct (Hr2 s1 r S1 I1 ltac:(unfold room; lia)) as (s2 & R2 & S2 & I2 & D2 & T2 & F2).
  { intros e _ d Hd. rewrite length_app in Hd. simpl in Hd. rewrite take_app_le by lia.
    destruct (decide (d = length p)) as [->|Hne].
    - rewrite firstn_all. exists (made_node FLAG_DIR MODE_755 [] []). split; [|done].
      pose proof (L1 []) as Hroot. by rewrite app_nil_r in Hroot.
    - destruct (Habove d ltac:(lia)) as (n & Hn & Hk). exists n. split; [|done]. rewrite L2; [done|].
      intros q' E%(f_equal length). rewrite length_app, length_take in E. lia. }
  { intros e q _. apply L1. }
  exists s2. split; [by eapply runs_trans|]. split; [done|]. split; [done|]. split; [lia|]. split.
  - intros [|name q].
    + rewrite F2; [by rewrite L1|]. intros e q' _ E. apply app_inv_head in E. done.
    + cbn [x_at]. destruct (assoc name l) as [c|] eqn:Ec.
      * apply assoc_in in Ec; [|done]. apply (T2 (name, c) q). by rewrite sort_by_perm.
      * rewrite F2; [by rewrite L1|]. intros e q' He'. apply child_neq. intros Ee.
        rewrite sort_by_perm in He'. apply assoc_none in Ec. apply Ec. rewrite Ee.
        by apply (list_elem_of_fmap_2 fst).
  - intros q Hq. rewrite F2 by (intros e q' _; apply Hq). by apply L2.
Qed.
End Runs.

Lemma archive_read_back mkdir_mode open_mode listing o :
  good (WDir (Ok listing)) -> write_directory_tar (WDir (Ok listing)) = Ok o ->
  (written o <= U64_MAX)%Z ->
  written o = len (out o) /\
  exists s, extract_directory_tar mkdir_mode open_mode (out o) = Some (Ok (written o, s)) /\
    forall p, tree s !! p = canonical_node <$> x_at mkdir_mode (WDir (Ok listing)) p.
Proof.
  intros Hg Hw Hmax. inversion Hg as [l Hnd Hl El| |]. subst l.
  unfold write_directory_tar in Hw. destruct (write_children (Ok listing) [] _) as [o1|] eqn:Ec; [|done].
  remember (repeat 0%Z (BLOCK * 2)) as zeros eqn:Ez in Hw. injection Hw as <-.
  unfold write_children in Ec.
  assert (Hfold : try_fold (fun o e => write_entry e.2 (key ([] ++ [e.1])) o) (mkOutput [] 0 0 0)
                    (sort_by fst listing) = Ok o1) by exact Ec.
  apply (list_sim mkdir_mode open_mode) in Hfold as (b & [Hout Hwr] & Hsim).
  2: { rewrite sort_by_perm. rewrite Forall_forall in Hl |- *. intros e He. destruct (Hl e He).
       apply write_entry_sim; [done|by apply Forall_singleton|done]. }
  2: { by rewrite sort_by_perm. }
  cbn in Hout, Hwr.
  assert (Hzl : len zeros = 1024%Z) by (rewrite Ez; reflexivity).
  cbn [emit out written] in Hmax |- *. rewrite Hout in *. rewrite Hwr in *. rewrite len_app, Hzl. split; [lia|].
  set (s0 := mkExtractState ∅ None None 0 0 0 {[ [] := mkXNode XDir MODE_700 None ]} (b ++ zeros)).
  pose proof (len_nonneg b) as Hb.
  destruct (Hsim s0 zeros) as (s1 & R1 & S1 & I1 & D1 & T1 & F1).
  - split; try done. cbn. split.
    + intros p Hp _. rewrite lookup_empty, lookup_singleton_ne by done. done.
    + intros p [n Hn]. apply lookup_singleton_Some in Hn as [<- _]. constructor.
    + intros p [n Hn] d Hd. apply lookup_singleton_Some in Hn as [<- _]. simpl in Hd. lia.
  - done.
  - unfold room. cbn. change (512 * 2)%Z with 1024%Z in Hmax. lia.
  - intros e _ d Hd. simpl in Hd. lia.
  - intros e q _. cbn. by rewrite lookup_singleton_ne.
  - set (s2 := set_reader s1 (decoded s1 + 512 + 512)%Z []).
    assert (Hfin : extract_loop mkdir_mode open_mode 1 s1 = Some (Ok s2)).
    { cbn [extract_loop]. unfold extract_step. rewrite I1.
      replace zeros with (repeat 0%Z BLOCK ++ repeat 0%Z BLOCK ++ []) by (rewrite Ez; reflexivity).
      cbn [decoded s0] in D1. change (512 * 2)%Z with 1024%Z in Hmax.
      rewrite read_block_app by (reflexivity || lia). cbv zeta iota beta.
      unfold bytes_eqb at 1. rewrite bool_decide_true by done. cbn [input decoded set_reader].
      rewrite read_block_app by (reflexivity || lia). cbv iota beta. unfold bytes_eqb.
      by rewrite !bool_decide_true by done. }
    destruct (runs_loop _ _ _ _ _ _ R1 Hfin) as [f Hf].
    assert (Hloop : extract_loop mkdir_mode open_mode (S (length (b ++ zeros))) s0 = Some (Ok s2)).
    { destruct (Nat.le_ge_cases f (S (length (b ++ zeros)))) as [Hle|Hge]; [by eapply loop_mono|].
      destruct (extract_loop mkdir_mode open_mode (S (length (b ++ zeros))) s0) as [r|] eqn:E.
      - rewrite (loop_mono _ _ _ f _ _ E) in Hf by done. done.
      - exfalso. eapply loop_total; [|exact E]. cbn. lia. }
    destruct (sim_settled _ _ S1) as [P1 P2].
    exists (set_tree s2 (normalize_tree (tree s2))). split.
    + unfold extract_directory_tar. cbv zeta. fold s0. rewrite Hloop.
      change (pending_name s2) with (pending_name s1). change (pending_link s2) with (pending_link s1).
      rewrite P1, P2. change (bool_decide (is_Some (@None bytes))) with false. cbn [orb].
      do 4 f_equal. cbn. cbn in D1. lia.
    + intros p. cbn [tree set_tree]. change (tree s2) with (tree s1).
      rewrite (normalize_tree_lookup _ _ (agree_closed _ _ (sim_agree _ _ S1))).
      destruct p as [|name q]; [by rewrite F1 by done|]. f_equal. cbn [x_at]. destruct (assoc name listing) as [c|] eqn:Ea.
      * apply assoc_in in Ea; [|done]. apply (T1 (name, c) q). by rewrite sort_by_perm.
      * rewrite F1; [cbn; by rewrite lookup_singleton_ne|]. intros e q' He' [= -> _].
        rewrite sort_by_perm in He'. apply assoc_none in Ea. apply Ea.
        by apply (list_elem_of_fmap_2 fst).
Qed.

(** C1. Round trip of the tar profile.  If the writer accepts a directory (of
    readable files, links with non-empty targets and directories, with plain
    distinct names, long paths and long link targets included), its byte
    count is the length of the archive, and the extractor accepts the archive
    and rebuilds exactly that directory: the same paths, kinds, contents and
    link targets, with canonical modes and times, and nothing else. *)
Theorem tar_round_trip mkdir_mode open_mode listing o :
  good (WDir (Ok listing)) -> write_directory_tar (WDir (Ok listing)) = Ok o ->
  (written o <= U64_MAX)%Z ->
  written o = len (out o) /\
  exists s, extract_directory_tar mkdir_mode open_mode (out o) = Some (Ok (written o, s)) /\
    forall p, tree s !! p = canonical_node <$> x_at mkdir_mode (WDir (Ok listing)) p.
Proof. apply archive_read_back. Qed.

(** ** A concrete archive *)

Module TarExamples.
(** [a/l -> ../b] and the executable [b]. *)
Definition listing : list (bytes * WObj) :=
  [(lit "b", WFile 493 3 (Ok [1; 2; 3]%Z)); (lit "a", WDir (Ok [(lit "l", WLink (Ok (lit "../b")))]))].
Definition archive : Output :=
  match write_directory_tar (WDir (Ok listing)) with Ok o => o | Err _ => mkOutput [] 0 0 0 end.

Lemma good_name_dec name :
  bool_decide (name <> []) && bool_decide (47%Z ∉ name) && bool_decide (name <> [46]%Z)
  && bool_decide (name <> [46; 46]%Z) && wf_bytesb name && bool_decide (0%Z ∉ name) = true ->
  good_name name.
Proof. intros H. bools. split; [done|]. split; [by apply wf_bytesb_spec|done]. Qed.

Lemma good_name_dec_text b : wf_bytesb b && bool_decide (0%Z ∉ b) = true -> text b.
Proof. intros H. bools. split; [by apply wf_bytesb_spec|done]. Qed.

Lemma good_listing : good (WDir (Ok listing)).
Proof.
  assert (Hd : forall es, bool_decide (NoDup (map fst es)) = true ->
               Forall (fun e => good_name e.1 /\ good e.2) es -> good (WDir (Ok es))).
  { intros es H ?. bools. by constructor. }
  repeat first
    [ apply Hd; [vm_compute; reflexivity|]
    | apply good_file; vm_compute; split; [discriminate|reflexivity]
    | apply good_link; [discriminate|apply good_name_dec_text; vm_compute; reflexivity]
    | apply Forall_cons_2 | apply Forall_nil_2
    | split; [apply good_name_dec; vm_compute; reflexivity|] ].
Qed.

Lemma tar_round_trip_witness :
  exists s, extract_directory_tar 493 420 (out archive) = Some (Ok (written archive, s)) /\
    tree s !! [lit "a"; lit "l"] =
      Some (mkXNode (XLink (lit "../b")) MODE_777 (Some CANONICAL_TIMESTAMP)).
Proof.
  destruct (tar_round_trip 493 420 listing archive good_listing) as (_ & s & Hs & Ht).
  - vm_compute. reflexivity.
  - vm_compute. discriminate.
  - exists s. split; [exact Hs|]. rewrite Ht. vm_compute. reflexivity.
Defined.

Lemma extraction_confined_witness :
  exists r, extract_directory_tar 493 420 (repeat 0%Z 1024) = Some r /\
    wp r (fun '(total, s) => total = 1024%Z).
Proof.
  destruct (extraction_confined 493 420 (repeat 0%Z 1024)) as (r & Hr & Hw).
  - apply wf_repeat. unfold is_u8. lia.
  - exists r. split; [exact Hr|]. eapply wp_mono; [exact Hw|]. intros [total s] [-> _]. reflexivity.
Defined.
End TarExamples.
