(* ===== verification/FsManifest.v ===== *)
(** * Filesystem-tree manifests

    The manifest format of [bobr-store/src/fs_tree.rs]: entries, their
    validation, the canonical JSON-lines writer and the strict parser.
    [serde_json] is external: its parser and the accessors of [Value] are the
    operations of [JsonApi], and [JsonObjectLaw] states what the reader relies
    on, namely that the text of a flat JSON object parses to its members. *)

From S2P Require Import Prelude Errors Hash Text.

Definition FsFileHash : Type := bytes.

Inductive FsTreeEntry :=
| EFile (path : bytes) (hash : FsFileHash)
| EDirectory (path : bytes) (uid gid mode : u32)
| ESymlink (path : bytes) (uid gid : u32) (target : bytes).

Inductive FsTreeEntryKind := KindFile | KindDirectory | KindSymlink.

(** [FsTreeManifest]. *)
Record FsTreeManifest := mkFsTreeManifest { entries : list FsTreeEntry }.

#[export] Instance FsTreeEntry_eq_dec : EqDecision FsTreeEntry.
Proof. solve_decision. Defined.
#[export] Instance FsTreeEntryKind_eq_dec : EqDecision FsTreeEntryKind.
Proof. solve_decision. Defined.
#[export] Instance FsTreeManifest_eq_dec : EqDecision FsTreeManifest.
Proof. solve_decision. Defined.

Definition path (e : FsTreeEntry) : bytes :=
  match e with EFile p _ | EDirectory p _ _ _ | ESymlink p _ _ _ => p end.

Definition kind (e : FsTreeEntry) : FsTreeEntryKind :=
  match e with
  | EFile _ _ => KindFile
  | EDirectory _ _ _ _ => KindDirectory
  | ESymlink _ _ _ _ => KindSymlink
  end.

(** [FsFileHash]: [Display] and [from_str] are the code of the hash macro
    ([Hash.display], [Hash.from_str]) with its own error type. *)
Definition ParseFsFileHashError_message (e : ParseHexHashError) : string :=
  match e with
  | InvalidLength => "hash must contain 64 lowercase hex digits"
  | InvalidHex => "hash must contain only lowercase hex digits"
  end.

Definition file_hash_to_string (h : FsFileHash) : bytes := display h.

Definition file_hash_from_str (s : bytes) : result ParseHexHashError FsFileHash :=
  if negb (length s =? 64)%nat then Err InvalidLength
  else if negb (forallb is_lower_hex s) then Err InvalidHex
  else try_map (fun chunk =>
         hi <- ok_or (decode_nibble (nth 0 chunk 0%Z)) InvalidHex ;;
         lo <- ok_or (decode_nibble (nth 1 chunk 0%Z)) InvalidHex ;;
         Ok (Z.lor (Z.shiftl hi 4) lo)) (chunks_exact 2 s).

(** ** Validation *)

Definition printable_path (path : bytes) : string :=
  show (match utf8_chars path with Some cs => flat_map escape_default cs | None => path end).

(** One component of the loop of [validate_path]. *)
Definition validate_component (path component : bytes) : result StoreError unit :=
  if bool_decide (component = []) then
    Err (SE_InvalidInput ("fs-tree path contains an empty component: '" +:+ show path +:+ "'"))
  else if bool_decide (component = lit ".") || bool_decide (component = lit "..") then
    Err (SE_InvalidInput ("fs-tree path contains forbidden component '" +:+ show component
                          +:+ "': '" +:+ show path +:+ "'"))
  else Ok tt.

Definition validate_path (path : bytes) : result StoreError unit :=
  if has_control path then
    Err (SE_InvalidInput ("fs-tree path contains a control character: '"
                          +:+ printable_path path +:+ "'"))
  else if bool_decide (path = []) then Ok tt
  else if starts_with [47]%Z path then
    Err (SE_InvalidInput ("fs-tree path must be relative: '" +:+ show path +:+ "'"))
  else if ends_with [47]%Z path then
    Err (SE_InvalidInput ("fs-tree path must not end with '/': '" +:+ show path +:+ "'"))
  else try_fold (fun _ component => validate_component path component) tt (split_on 47 path).

Definition validate_canonical_string (label : string) (value : bytes) : result StoreError unit :=
  if has_control value then
    Err (SE_InvalidInput (label +:+ " contains a control character: '"
                          +:+ printable_path value +:+ "'"))
  else Ok tt.

Definition validate_entry_strings (entry : FsTreeEntry) : result StoreError unit :=
  match entry with
  | ESymlink _ _ _ target => validate_canonical_string "fs-tree symlink target" target
  | _ => Ok tt
  end.

(** [0o7777]. *)
Definition MODE_MAX : Z := 4095.

Definition validate_entry_numbers (entry : FsTreeEntry) : result StoreError unit :=
  match entry with
  | EDirectory path _ _ mode =>
      if (MODE_MAX <? mode)%Z then
        Err (SE_InvalidInput ("fs-tree mode for '" +:+ show path +:+ "' is out of range: "
                              +:+ pretty mode))
      else Ok tt
  | _ => Ok tt
  end.

Definition parent_path (path : bytes) : bytes :=
  match rsplit_once 47 path with Some (parent, _) => parent | None => [] end.

(** The state of the first loop of [validate_entries]: [previous_path] and
    [kinds]. *)
Definition validate_entry_step (st : option bytes * gmap bytes FsTreeEntryKind)
  (entry : FsTreeEntry) : result StoreError (option bytes * gmap bytes FsTreeEntryKind) :=
  let (previous_path, kinds) := st in
  validate_path (path entry) ;;;
  validate_entry_strings entry ;;;
  validate_entry_numbers entry ;;;
  if bool_decide (previous_path = Some (path entry)) then
    Err (SE_InvalidInput ("duplicate fs-tree path '" +:+ show (path entry) +:+ "'"))
  else Ok (Some (path entry), <[path entry := kind entry]> kinds).

Definition validate_root (entries : list FsTreeEntry) : result StoreError unit :=
  match entries with
  | EDirectory [] _ _ _ :: _ => Ok tt
  | entry :: _ =>
      if bool_decide (path entry = []) then
        Err (SE_InvalidInput "fs-tree root path must be a directory")
      else Err (SE_InvalidInput "fs-tree manifest must contain the root directory")
  | [] => Err (SE_InvalidInput "fs-tree manifest must contain the root directory")
  end.

(** The body of the second loop of [validate_entries]. *)
Definition validate_parent (kinds : gmap bytes FsTreeEntryKind) (entry : FsTreeEntry)
  : result StoreError unit :=
  if bool_decide (path entry = []) then Ok tt
  else
    let parent := parent_path (path entry) in
    match kinds !! parent with
    | Some KindDirectory => Ok tt
    | Some _ =>
        Err (SE_InvalidInput ("parent '" +:+ show parent +:+ "' for fs-tree path '"
                              +:+ show (path entry) +:+ "' is not a directory"))
    | None =>
        Err (SE_InvalidInput ("missing parent directory '" +:+ show parent
                              +:+ "' for fs-tree path '" +:+ show (path entry) +:+ "'"))
    end.

Definition validate_entries (entries : list FsTreeEntry) : result StoreError unit :=
  if bool_decide (entries = []) then
    Err (SE_InvalidInput "fs-tree manifest must contain at least the root directory")
  else
    st <- try_fold validate_entry_step (None, ∅) entries ;;
    validate_root entries ;;;
    try_fold (fun _ entry => validate_parent st.2 entry) tt entries.

Definition from_entries (es : list FsTreeEntry) : result StoreError FsTreeManifest :=
  let es := sort_by path es in
  validate_entries es ;;;
  Ok (mkFsTreeManifest es).

(** ** The canonical writer *)

(** The double quote and the line separator. *)
Definition q : bytes := [34]%Z.
Definition nl : bytes := [10]%Z.

Definition CANONICAL_SCHEMA_LINE : bytes :=
  lit "{" ++ q ++ lit "schema" ++ q ++ lit ":" ++ q ++ lit "bobr-fs-tree-manifest" ++ q
  ++ lit "}" ++ nl.
Definition SCHEMA : bytes := lit "bobr-fs-tree-manifest".

(** The [match byte] of [write_canonical_string]. *)
Definition escape_byte (byte : u8) : bytes :=
  if (byte =? 34)%Z then [92; 34]%Z else if (byte =? 92)%Z then [92; 92]%Z else [byte].

Definition write_canonical_string (value out : bytes) : result StoreError bytes :=
  if has_control value then
    Err (SE_InvalidInput ("fs-tree string contains a control character: '"
                          +:+ printable_path value +:+ "'"))
  else Ok (fold_left (fun out byte => out ++ escape_byte byte) value out ++ q).

Definition write_u32 (value : u32) (out : bytes) : bytes := out ++ to_decimal value.

Definition write_canonical_entry (entry : FsTreeEntry) (out : bytes) : result StoreError bytes :=
  match entry with
  | EFile path hash =>
      let out := out ++ lit "{" ++ q ++ lit "p" ++ q ++ lit ":" ++ q in
      out <- write_canonical_string path out ;;
      let out := out ++ lit "," ++ q ++ lit "t" ++ q ++ lit ":" ++ q ++ lit "f" ++ q
                 ++ lit "," ++ q ++ lit "h" ++ q ++ lit ":" ++ q in
      let out := out ++ file_hash_to_string hash in
      let out := out ++ q in
      Ok (out ++ lit "}" ++ nl)
  | EDirectory path uid gid mode =>
      let out := out ++ lit "{" ++ q ++ lit "p" ++ q ++ lit ":" ++ q in
      out <- write_canonical_string path out ;;
      let out := out ++ lit "," ++ q ++ lit "t" ++ q ++ lit ":" ++ q ++ lit "d" ++ q
                 ++ lit "," ++ q ++ lit "u" ++ q ++ lit ":" in
      let out := write_u32 uid out in
      let out := out ++ lit "," ++ q ++ lit "g" ++ q ++ lit ":" in
      let out := write_u32 gid out in
      let out := out ++ lit "," ++ q ++ lit "m" ++ q ++ lit ":" in
      let out := write_u32 mode out in
      Ok (out ++ lit "}" ++ nl)
  | ESymlink path uid gid target =>
      let out := out ++ lit "{" ++ q ++ lit "p" ++ q ++ lit ":" ++ q in
      out <- write_canonical_string path out ;;
      let out := out ++ lit "," ++ q ++ lit "t" ++ q ++ lit ":" ++ q ++ lit "l" ++ q
                 ++ lit "," ++ q ++ lit "u" ++ q ++ lit ":" in
      let out := write_u32 uid out in
      let out := out ++ lit "," ++ q ++ lit "g" ++ q ++ lit ":" in
      let out := write_u32 gid out in
      let out := out ++ lit "," ++ q ++ lit "x" ++ q ++ lit ":" ++ q in
      out <- write_canonical_string target out ;;
      Ok (out ++ lit "}" ++ nl)
  end.

Definition canonical_entry_bytes (entry : FsTreeEntry) : result StoreError bytes :=
  write_canonical_entry entry [].

Definition to_canonical_bytes (m : FsTreeManifest) : result StoreError bytes :=
  validate_entries (entries m) ;;;
  try_fold (fun out entry => write_canonical_entry entry out) CANONICAL_SCHEMA_LINE (entries m).

(** ** The parser *)

(** [serde_json]: [from_str::<Value>], [Value::as_object], [Value::as_str],
    [Value::as_u64] and the map operations of [Map<String, Value>]. *)
Class JsonApi := {
  Value : Type;
  Map : Type;
  json_from_str : bytes -> result string Value;
  as_object : Value -> option Map;
  as_str : Value -> option bytes;
  as_u64 : Value -> option u64;
  map_get : Map -> bytes -> option Value;
  map_keys : Map -> list bytes;
}.

Definition on_line (line_number : Z) : string :=
  " on fs-tree manifest line " +:+ pretty line_number.

Section Parser.
Context {json : JsonApi}.

Definition require_exact_keys (object : Map) (expected : list bytes) (line_number : usize)
  : result StoreError unit :=
  try_fold (fun _ key =>
    match map_get object key with
    | Some _ => Ok tt
    | None => Err (SE_InvalidData ("missing key '" +:+ show key +:+ "'" +:+ on_line line_number))
    end) tt expected ;;;
  try_fold (fun _ key =>
    if bool_decide (key ∈ expected) then Ok tt
    else Err (SE_InvalidData ("unknown key '" +:+ show key +:+ "'" +:+ on_line line_number)))
    tt (map_keys object) ;;;
  if negb (length (map_keys object) =? length expected)%nat then
    Err (SE_InvalidData ("invalid field set" +:+ on_line line_number))
  else Ok tt.

Definition required_string (object : Map) (key : bytes) (line_number : usize)
  : result StoreError bytes :=
  ok_or (and_then (map_get object key) as_str)
    (SE_InvalidData ("key '" +:+ show key +:+ "'" +:+ on_line line_number
                     +:+ " must be a string")).

Definition required_u64 (object : Map) (key : bytes) (line_number : usize)
  : result StoreError u64 :=
  ok_or (and_then (map_get object key) as_u64)
    (SE_InvalidData ("key '" +:+ show key +:+ "'" +:+ on_line line_number
                     +:+ " must be an unsigned integer")).

Definition required_u32 (object : Map) (key : bytes) (line_number : usize)
  : result StoreError u32 :=
  raw <- required_u64 object key line_number ;;
  if (raw <? 2 ^ 32)%Z then Ok raw
  else Err (SE_InvalidData ("key '" +:+ show key +:+ "'" +:+ on_line line_number
                            +:+ " is out of u32 range")).

Definition required_mode (object : Map) (key : bytes) (line_number : usize)
  : result StoreError u32 :=
  mode <- required_u64 object key line_number ;;
  if (MODE_MAX <? mode)%Z then
    Err (SE_InvalidData ("key '" +:+ show key +:+ "'" +:+ on_line line_number
                         +:+ " is out of mode range"))
  else Ok (mode mod 2 ^ 32)%Z.

Definition required_file_hash (object : Map) (key : bytes) (line_number : usize)
  : result StoreError FsFileHash :=
  raw <- required_string object key line_number ;;
  map_err (fun error =>
    SE_InvalidData ("key '" +:+ show key +:+ "'" +:+ on_line line_number
                    +:+ " must be a lowercase fs-file hash: "
                    +:+ ParseFsFileHashError_message error))
    (file_hash_from_str raw).

Definition parse_entry_line (line : bytes) (line_number : usize) : result StoreError FsTreeEntry :=
  value <- map_err (fun error =>
             SE_InvalidData ("failed to parse line " +:+ pretty line_number +:+ ": " +:+ error))
             (json_from_str line) ;;
  object <- ok_or (as_object value)
              (SE_InvalidData ("fs-tree manifest line " +:+ pretty line_number
                               +:+ " is not an object")) ;;
  path <- required_string object (lit "p") line_number ;;
  entry_type <- required_string object (lit "t") line_number ;;
  if bool_decide (entry_type = lit "f") then
    require_exact_keys object [lit "p"; lit "t"; lit "h"] line_number ;;;
    hash <- required_file_hash object (lit "h") line_number ;;
    Ok (EFile path hash)
  else if bool_decide (entry_type = lit "d") then
    require_exact_keys object [lit "p"; lit "t"; lit "u"; lit "g"; lit "m"] line_number ;;;
    uid <- required_u32 object (lit "u") line_number ;;
    gid <- required_u32 object (lit "g") line_number ;;
    mode <- required_mode object (lit "m") line_number ;;
    Ok (EDirectory path uid gid mode)
  else if bool_decide (entry_type = lit "l") then
    require_exact_keys object [lit "p"; lit "t"; lit "u"; lit "g"; lit "x"] line_number ;;;
    uid <- required_u32 object (lit "u") line_number ;;
    gid <- required_u32 object (lit "g") line_number ;;
    target <- required_string object (lit "x") line_number ;;
    Ok (ESymlink path uid gid target)
  else
    Err (SE_InvalidData ("invalid fs-tree entry type on line " +:+ pretty line_number +:+ ": '"
                         +:+ show entry_type +:+ "'")).

Definition validate_schema_header (raw_line : bytes) : result StoreError unit :=
  if bool_decide (raw_line = CANONICAL_SCHEMA_LINE) then Ok tt
  else
    let line := default raw_line (strip_suffix nl raw_line) in
    value <- map_err (fun error =>
               SE_InvalidData ("failed to parse fs-tree schema header: " +:+ error))
               (json_from_str line) ;;
    object <- ok_or (as_object value)
                (SE_InvalidData "fs-tree schema header must be an object") ;;
    require_exact_keys object [lit "schema"] 1 ;;;
    schema <- required_string object (lit "schema") 1 ;;
    if negb (bool_decide (schema = SCHEMA)) then
      Err (SE_InvalidData ("unsupported fs-tree manifest schema '" +:+ show schema +:+ "'"))
    else Err (SE_InvalidData "fs-tree schema header is not canonical").

(** The outcome of [expect("split line has suffix")] on [None]; the lines of
    a text that ends in a newline never reach it. *)
Definition split_line_panic : StoreError := SE_InvalidData "split line has suffix".

(** The body of the loop over the entry lines; the state is the line number
    and the entries pushed so far. *)
Definition parse_line (st : usize * list FsTreeEntry) (raw_line : bytes)
  : result StoreError (usize * list FsTreeEntry) :=
  let (line_number, entries) := st in
  line <- ok_or (strip_suffix nl raw_line) split_line_panic ;;
  if bool_decide (line = []) then
    Err (SE_InvalidData ("fs-tree manifest line " +:+ pretty line_number +:+ " is empty"))
  else
    entry <- parse_entry_line line line_number ;;
    canonical <- canonical_entry_bytes entry ;;
    if negb (bool_decide (canonical = raw_line)) then
      Err (SE_InvalidData ("fs-tree manifest line " +:+ pretty line_number +:+ " is not canonical"))
    else Ok (line_number + 1, entries ++ [entry])%Z.

(** The text of the [Utf8Error] is not part of the message here. *)
Definition parse_canonical_bytes (bytes : bytes) : result StoreError FsTreeManifest :=
  if bool_decide (bytes = []) then Err (SE_InvalidData "fs-tree manifest must not be empty")
  else if negb (ends_with nl bytes) then
    Err (SE_InvalidData "fs-tree manifest must end with a newline")
  else if negb (is_utf8 bytes) then Err (SE_InvalidData "fs-tree manifest is not UTF-8")
  else match split_inclusive 10 bytes with
  | [] => Err (SE_InvalidData "fs-tree manifest is missing schema header")
  | schema_line :: lines =>
      validate_schema_header schema_line ;;;
      st <- try_fold parse_line (2%Z, []) lines ;;
      manifest <- map_err (fun error => SE_InvalidData (store_error_message error))
                    (from_entries st.2) ;;
      canonical <- to_canonical_bytes manifest ;;
      if negb (bool_decide (canonical = bytes)) then
        Err (SE_InvalidData "fs-tree manifest entries are not in canonical order")
      else Ok manifest
  end.

(** The file operations of [read_manifest_if_marked]: [symlink_metadata]
    (whether the path is a regular file), opening it, which yields the bytes
    the handle reads or a read error, and [fs::read]. *)
Record ManifestFs := mkManifestFs {
  fs_is_file : bytes -> result string bool;
  fs_open : bytes -> result string (result string bytes);
  fs_read : bytes -> result string bytes;
}.

Definition read_canonical (fs : ManifestFs) (p : bytes) : result StoreError FsTreeManifest :=
  bytes <- map_err (fun error =>
             SE_Io ("failed to read fs-tree manifest '" +:+ show p +:+ "': " +:+ error))
             (fs_read fs p) ;;
  parse_canonical_bytes bytes.

Definition read_manifest_if_marked (fs : ManifestFs) (p : bytes)
  : result StoreError (option FsTreeManifest) :=
  is_file <- map_err (fun error =>
               SE_Io ("failed to inspect possible fs-tree manifest '" +:+ show p +:+ "': "
                      +:+ error)) (fs_is_file fs p) ;;
  if negb is_file then Ok None
  else
    file <- map_err (fun error =>
              SE_Io ("failed to open possible fs-tree manifest '" +:+ show p +:+ "': " +:+ error))
              (fs_open fs p) ;;
    match file with
    | Ok content =>
        if (length content <? length CANONICAL_SCHEMA_LINE)%nat then Ok None
        else if bool_decide (take (length CANONICAL_SCHEMA_LINE) content = CANONICAL_SCHEMA_LINE)
        then m <- read_canonical fs p ;; Ok (Some m)
        else Ok None
    | Err error =>
        Err (SE_Io ("failed to read possible fs-tree manifest '" +:+ show p +:+ "': " +:+ error))
    end.
End Parser.

(** ** What validation accepts *)

(** A path is empty (the root) or a [/]-separated list of proper names. *)
Definition path_ok (p : bytes) : Prop :=
  has_control p = false /\ (p = [] \/ Forall valid_name (split_on 47 p)).

Definition entry_ok (e : FsTreeEntry) : Prop :=
  path_ok (path e) /\
  match e with
  | EFile _ _ => True
  | EDirectory _ _ _ mode => (mode <= MODE_MAX)%Z
  | ESymlink _ _ _ target => has_control target = false
  end.

Definition is_dir (es : list FsTreeEntry) (p : bytes) : Prop :=
  exists uid gid mode, EDirectory p uid gid mode ∈ es.

(** Acceptable sets of entries: each entry is acceptable on its own, paths are
    unique, the root is a directory and every parent is a directory. *)
Definition closed_tree (es : list FsTreeEntry) : Prop :=
  Forall entry_ok es /\ NoDup (map path es) /\ is_dir es [] /\
  forall e, e ∈ es -> path e <> [] -> is_dir es (parent_path (path e)).

Definition wf_manifest (m : FsTreeManifest) : Prop :=
  StronglySorted (key_lt path) (entries m) /\ closed_tree (entries m).

Lemma validate_component_ok p c :
  validate_component p c = Ok tt <-> c <> [] /\ c <> lit "." /\ c <> lit "..".
Proof.
  unfold validate_component.
  destruct (bool_decide (c = [])) eqn:E1; [apply bool_decide_eq_true in E1; split; [done|tauto]|].
  destruct (bool_decide (c = lit ".")) eqn:E2; [apply bool_decide_eq_true in E2; split; [done|tauto]|].
  destruct (bool_decide (c = lit "..")) eqn:E3; [apply bool_decide_eq_true in E3; split; [done|tauto]|].
  apply bool_decide_eq_false in E1, E2, E3. done.
Qed.

Lemma split_on_first_slash p : starts_with [47]%Z p = true -> [] ∈ split_on 47 p.
Proof.
  unfold starts_with. destruct (strip_prefix [47]%Z p) as [r|] eqn:E; [|done].
  apply strip_prefix_some in E as ->. intros _. simpl. left.
Qed.

Lemma split_on_snoc l : exists ps, split_on 47 (l ++ [47]%Z) = ps ++ [[]].
Proof.
  induction l as [|x l [ps IH]]; [by exists [[]]|]. cbn [app split_on]. rewrite IH.
  destruct (x =? 47)%Z; [by exists ([] :: ps)|].
  destruct ps as [|p ps]; [|by exists ((x :: p) :: ps)].
  pose proof (join_split_on 47 (l ++ [47]%Z)) as Hj. rewrite IH in Hj. by destruct l.
Qed.

Lemma split_on_last_slash p : ends_with [47]%Z p = true -> [] ∈ split_on 47 p.
Proof.
  unfold ends_with. destruct (strip_suffix [47]%Z p) as [r|] eqn:E; [|done].
  apply strip_suffix_some in E as ->. intros _. destruct (split_on_snoc r) as [ps ->].
  apply elem_of_app. right. left.
Qed.

Lemma valid_names_iff p :
  Forall valid_name (split_on 47 p) <->
  Forall (fun c => c <> [] /\ c <> lit "." /\ c <> lit "..") (split_on 47 p).
Proof.
  pose proof (split_on_pieces 47 p) as Hp. split; intros H.
  - eapply Forall_impl; [exact H|]. intros c (H1 & _ & H2 & H3). done.
  - rewrite Forall_forall in *. intros c Hc. specialize (H c Hc). specialize (Hp c Hc).
    destruct H as (H1 & H2 & H3). done.
Qed.

Lemma validate_path_ok p : validate_path p = Ok tt <-> path_ok p.
Proof.
  unfold validate_path, path_ok. destruct (has_control p); [split; [done|by intros []]|].
  destruct (bool_decide (p = [])) eqn:E; [apply bool_decide_eq_true in E; tauto|].
  apply bool_decide_eq_false in E. rewrite valid_names_iff.
  destruct (starts_with [47]%Z p) eqn:Es.
  { split; [done|]. intros [_ [?|H]]; [done|]. apply split_on_first_slash in Es.
    rewrite Forall_forall in H. by destruct (H _ Es). }
  destruct (ends_with [47]%Z p) eqn:Ee.
  { split; [done|]. intros [_ [?|H]]; [done|]. apply split_on_last_slash in Ee.
    rewrite Forall_forall in H. by destruct (H _ Ee). }
  rewrite try_fold_unit. split.
  - intros H. split; [done|]. right. eapply Forall_impl; [exact H|]. intros c. apply validate_component_ok.
  - intros [_ [?|H]]; [done|]. eapply Forall_impl; [exact H|]. intros c. apply validate_component_ok.
Qed.

Lemma validate_entry_ok e :
  (validate_path (path e) = Ok tt /\ validate_entry_strings e = Ok tt /\
   validate_entry_numbers e = Ok tt) <-> entry_ok e.
Proof.
  unfold entry_ok. rewrite validate_path_ok. apply and_iff_compat_l.
  destruct e as [p h|p u g m|p u g t]; simpl; [tauto| |].
  - destruct (MODE_MAX <? m)%Z eqn:E; bools; [split; [by intros []|lia]|tauto].
  - unfold validate_canonical_string. destruct (has_control t); [split; [by intros []|done]|tauto].
Qed.

(** The first loop accepts exactly the lists of acceptable entries in which no
    two neighbours share a path, and collects the kind of every path. *)
Fixpoint neighbours_differ (prev : option bytes) (es : list FsTreeEntry) : Prop :=
  match es with
  | [] => True
  | e :: es' => prev <> Some (path e) /\ neighbours_differ (Some (path e)) es'
  end.

Definition kinds_of (es : list FsTreeEntry) (kinds : gmap bytes FsTreeEntryKind)
  : gmap bytes FsTreeEntryKind :=
  fold_left (fun ks e => <[path e := kind e]> ks) es kinds.

Lemma validate_loop prev kinds es st :
  try_fold validate_entry_step (prev, kinds) es = Ok st <->
  Forall entry_ok es /\ neighbours_differ prev es /\
  st = (match last es with Some e => Some (path e) | None => prev end, kinds_of es kinds).
Proof.
  revert prev kinds. induction es as [|e es IH]; intros prev kinds.
  { simpl. split; [intros [= <-]; repeat constructor|by intros (_ & _ & ->)]. }
  cbn [try_fold neighbours_differ]. rewrite Forall_cons, <- validate_entry_ok.
  unfold validate_entry_step at 1.
  destruct (validate_path (path e)) as [[]|]; [|split; [done|intros ([(? & ?) _] & _); done]].
  destruct (validate_entry_strings e) as [[]|]; [|split; [done|intros ([(? & ? & ?) _] & _); done]].
  destruct (validate_entry_numbers e) as [[]|]; [|split; [done|intros ([(? & ? & ?) _] & _); done]].
  destruct (bool_decide (prev = Some (path e))) eqn:E.
  { apply bool_decide_eq_true in E. split; [done|]. by intros (_ & [] & _). }
  apply bool_decide_eq_false in E. rewrite IH.
  assert (El : match last es with Some e0 => Some (path e0) | None => Some (path e) end =
               match last (e :: es) with Some e0 => Some (path e0) | None => prev end).
  { destruct es as [|e' es']; [done|]. rewrite last_cons_cons.
    destruct (last (e' :: es')) eqn:El; [done|]. by apply last_None in El. }
  rewrite El. change (kinds_of (e :: es) kinds) with (kinds_of es (<[path e:=kind e]> kinds)). tauto.
Qed.

(** On sorted lists equal paths are neighbours. *)
Lemma neighbours_nodup es prev :
  StronglySorted (key_le path) es ->
  (match prev with Some p => Forall (fun e => lex_le p (path e)) es | None => True end) ->
  neighbours_differ prev es <->
  NoDup (map path es) /\ match prev with Some p => p ∉ map path es | None => True end.
Proof.
  intros Hs. revert prev. induction Hs as [|e es Hs IH He]; intros prev Hp; simpl.
  { split; [|done]. intros _. split; [constructor|]. destruct prev; [apply not_elem_of_nil|done]. }
  rewrite (IH (Some (path e)) He), NoDup_cons. split.
  - intros (Hne & Hnd & Hni). split; [done|]. destruct prev as [p|]; [|done].
    apply not_elem_of_cons. split; [congruence|]. intros Hin.
    apply list_elem_of_fmap in Hin as (x & -> & Hx).
    inversion Hp as [|? ? Hpe Hpr]; subst.
    rewrite Forall_forall in He. specialize (He _ Hx).
    apply Hne. f_equal. symmetry. by apply lex_le_antisym.
  - intros ([Hni Hnd] & Hp'). split; [|done]. destruct prev as [p|]; [|done].
    apply not_elem_of_cons in Hp' as [? _]. congruence.
Qed.

Lemma kinds_of_spec es kinds p :
  NoDup (map path es) ->
  (forall e, e ∈ es -> path e = p -> kinds_of es kinds !! p = Some (kind e)) /\
  (p ∉ map path es -> kinds_of es kinds !! p = kinds !! p).
Proof.
  revert kinds. induction es as [|e es IH]; intros kinds Hnd; cbn [map] in *.
  { split; [|done]. intros e He. by apply not_elem_of_nil in He. }
  apply NoDup_cons in Hnd as [Hni Hnd]. destruct (IH (<[path e:=kind e]> kinds) Hnd) as [IH1 IH2].
  change (kinds_of (e :: es) kinds) with (kinds_of es (<[path e:=kind e]> kinds)). split.
  - intros x Hx Ex. apply elem_of_cons in Hx as [->|Hx]; [|by apply IH1].
    subst p. rewrite IH2 by done. by rewrite lookup_insert_eq.
  - intros Hp. apply not_elem_of_cons in Hp as [H1 H2]. rewrite IH2 by done.
    by rewrite lookup_insert_ne by congruence.
Qed.

Lemma kinds_directory es p :
  NoDup (map path es) -> kinds_of es ∅ !! p = Some KindDirectory <-> is_dir es p.
Proof.
  intros Hnd. destruct (kinds_of_spec es ∅ p Hnd) as [H1 H2]. split.
  - intros Hk. destruct (decide (p ∈ map path es)) as [Hin|Hni].
    + apply list_elem_of_fmap in Hin as (e & -> & He). rewrite (H1 e He eq_refl) in Hk.
      destruct e; try done. by eexists _, _, _.
    + rewrite (H2 Hni) in Hk. by rewrite lookup_empty in Hk.
  - intros (u & g & m & Hin). by apply (H1 _ Hin).
Qed.

Lemma validate_parent_ok es e :
  NoDup (map path es) ->
  validate_parent (kinds_of es ∅) e = Ok tt <->
  (path e <> [] -> is_dir es (parent_path (path e))).
Proof.
  intros Hnd. rewrite <- kinds_directory by done. unfold validate_parent.
  destruct (bool_decide (path e = [])) eqn:E.
  - apply bool_decide_eq_true in E. tauto.
  - apply bool_decide_eq_false in E.
    destruct (kinds_of es ∅ !! parent_path (path e)) as [[]|]; split; try done; intros H;
      by specialize (H E).
Qed.

Lemma is_dir_path es p : is_dir es p -> p ∈ map path es.
Proof. intros (u & g & m & H). apply list_elem_of_fmap. by exists (EDirectory p u g m). Qed.

(** A sorted closed tree starts with its root. *)
Lemma validate_root_ok es :
  StronglySorted (key_lt path) es -> validate_root es = Ok tt <-> is_dir es [].
Proof.
  intros Hs. split.
  - destruct es as [|[p h|p u g m|p u g t] es]; simpl; try done; try by case_bool_decide.
    destruct p as [|x p]; simpl; [|done].
    intros _. exists u, g, m. left.
  - intros (u & g & m & Hin). destruct Hs as [|e es Hs He]; [by apply not_elem_of_nil in Hin|].
    apply elem_of_cons in Hin as [<-|Hin]; [done|]. rewrite Forall_forall in He.
    specialize (He _ Hin). unfold key_lt, lex_lt in He. simpl in He. by destruct (path e).
Qed.

Lemma validate_entries_ok es :
  StronglySorted (key_le path) es -> validate_entries es = Ok tt <-> closed_tree es.
Proof.
  intros Hs. unfold validate_entries, closed_tree.
  destruct (bool_decide (es = [])) eqn:E.
  { apply bool_decide_eq_true in E. subst. split; [done|].
    intros (_ & _ & (? & ? & ? & H) & _). by apply not_elem_of_nil in H. }
  assert (Hn : neighbours_differ None es <-> NoDup (map path es)).
  { rewrite (neighbours_nodup es None Hs I). tauto. }
  destruct (try_fold validate_entry_step (None, ∅) es) as [st|] eqn:Ef.
  - apply validate_loop in Ef as (He & Hd & ->). apply Hn in Hd.
    assert (Hlt : StronglySorted (key_lt path) es) by by apply sorted_strict.
    rewrite <- (validate_root_ok es Hlt).
    destruct (validate_root es) as [[]|]; [|split; [done|by intros (_ & _ & ? & _)]].
    rewrite try_fold_unit, Forall_forall. simpl. setoid_rewrite (validate_parent_ok es); [|done].
    tauto.
  - split; [done|]. intros (He & Hd & _). rewrite <- Hn in Hd.
    assert (Hx : try_fold validate_entry_step (None, ∅) es =
                 Ok (match last es with Some e => Some (path e) | None => None end, kinds_of es ∅)).
    { by apply validate_loop. }
    congruence.
Qed.

(** [closed_tree] only depends on the set of entries. *)
Lemma closed_tree_perm es es' : es ≡ₚ es' -> closed_tree es -> closed_tree es'.
Proof.
  intros Hp (H1 & H2 & (u & g & m & H3) & H4). repeat split.
  - by rewrite <- Hp.
  - by rewrite <- Hp.
  - exists u, g, m. by rewrite <- Hp.
  - intros e He Hne. rewrite <- Hp in He. destruct (H4 e He Hne) as (u' & g' & m' & H).
    exists u', g', m'. by rewrite <- Hp.
Qed.

#[export] Instance closed_tree_proper : Proper ((≡ₚ) ==> iff) closed_tree.
Proof. intros es es' Hp. split; by apply closed_tree_perm. Qed.

Lemma from_entries_iff es m :
  from_entries es = Ok m <-> closed_tree es /\ entries m = sort_by path es.
Proof.
  unfold from_entries.
  assert (Hv : validate_entries (sort_by path es) = Ok tt <-> closed_tree es).
  { rewrite (validate_entries_ok _ (sort_by_sorted path es)). by rewrite sort_by_perm. }
  destruct (validate_entries (sort_by path es)) as [[]|].
  - split.
    + intros [= <-]. split; [by apply Hv|done].
    + intros [_ Hm]. destruct m; simpl in *. by subst.
  - split; [done|]. intros [Hc _]. by apply Hv in Hc.
Qed.

Lemma from_entries_wf es m : from_entries es = Ok m -> wf_manifest m /\ entries m ≡ₚ es.
Proof.
  rewrite from_entries_iff. intros [Hc Hm]. unfold wf_manifest. rewrite Hm.
  split; [split|apply sort_by_perm]; [|by rewrite sort_by_perm].
  apply sorted_strict; [apply sort_by_sorted|]. rewrite sort_by_perm. apply Hc.
Qed.

Lemma from_entries_of_perm es m :
  wf_manifest m -> entries m ≡ₚ es -> from_entries es = Ok m.
Proof.
  intros [Hs Hc] Hp. apply from_entries_iff. split; [by rewrite <- Hp|].
  rewrite <- (sort_by_unique path (entries m) es); [|apply Hc|done].
  symmetry. by apply sort_by_id, strongly_sorted_key_le.
Qed.

Lemma from_entries_id m : wf_manifest m -> from_entries (entries m) = Ok m.
Proof.
  intros Hm. by apply from_entries_of_perm.
Qed.

(** ** Canonical text *)

(** The values a Rust [FsTreeEntry] can hold: UTF-8 strings, [u32] numbers
    and 32-byte hashes. *)
Definition typed_entry (e : FsTreeEntry) : Prop :=
  is_utf8 (path e) = true /\
  match e with
  | EFile _ h => wf_hash h
  | EDirectory _ u g m => is_u32 u /\ is_u32 g /\ is_u32 m
  | ESymlink _ u g t => is_u32 u /\ is_u32 g /\ is_utf8 t = true
  end.

(** Flat JSON objects: the members of an entry line and their text. *)
Inductive JsonLit := JStr (s : bytes) | JNum (n : Z).

(** The JSON spelling of a byte inside a string: the quote and the backslash
    are preceded by a backslash. *)
Definition json_byte (b : Z) : bytes :=
  if (b =? 34)%Z || (b =? 92)%Z then [92; b]%Z else [b].
Definition escape (s : bytes) : bytes := flat_map json_byte s.
Definition quoted (s : bytes) : bytes := q ++ escape s ++ q.
Definition lit_text (l : JsonLit) : bytes :=
  match l with JStr s => quoted s | JNum n => to_decimal n end.
Definition member_text (f : bytes * JsonLit) : bytes := quoted f.1 ++ lit ":" ++ lit_text f.2.
Definition object_text (fs : list (bytes * JsonLit)) : bytes :=
  lit "{" ++ join_with (lit ",") (map member_text fs) ++ lit "}".

(** Text that needs no escape but those of the quote and the backslash. *)
Definition plain_text (s : bytes) : Prop := is_utf8 s = true /\ has_control s = false.
Definition lit_ok (l : JsonLit) : Prop :=
  match l with JStr s => plain_text s | JNum n => is_u64 n end.

(** What the manifest reader needs of [serde_json]: an object text with
    distinct keys parses to the object of its members. *)
Definition holds `{JsonApi} (v : Value) (l : JsonLit) : Prop :=
  match l with JStr s => as_str v = Some s | JNum n => as_u64 v = Some n end.

Class JsonObjectLaw `{JsonApi} : Prop :=
  json_object fs :
    NoDup (map fst fs) -> Forall (fun f => plain_text f.1 /\ lit_ok f.2) fs ->
    exists v m, json_from_str (object_text fs) = Ok v /\ as_object v = Some m /\
      map_keys m ≡ₚ map fst fs /\
      forall k l, (k, l) ∈ fs -> exists w, map_get m k = Some w /\ holds w l.

Definition members (e : FsTreeEntry) : list (bytes * JsonLit) :=
  match e with
  | EFile p h => [(lit "p", JStr p); (lit "t", JStr (lit "f")); (lit "h", JStr (display h))]
  | EDirectory p u g m =>
      [(lit "p", JStr p); (lit "t", JStr (lit "d")); (lit "u", JNum u); (lit "g", JNum g);
       (lit "m", JNum m)]
  | ESymlink p u g t =>
      [(lit "p", JStr p); (lit "t", JStr (lit "l")); (lit "u", JNum u); (lit "g", JNum g);
       (lit "x", JStr t)]
  end.

Definition line (e : FsTreeEntry) : bytes := object_text (members e).

Lemma escape_byte_json b : escape_byte b = json_byte b.
Proof.
  unfold escape_byte, json_byte. destruct (b =? 34)%Z eqn:E1; [bools; by subst|].
  destruct (b =? 92)%Z eqn:E2; [bools; by subst|done].
Qed.

Lemma fold_escape value out :
  fold_left (fun out byte => out ++ escape_byte byte) value out = out ++ escape value.
Proof.
  revert out. induction value as [|b value IH]; intros out; simpl; [by rewrite app_nil_r|].
  rewrite IH, escape_byte_json. by rewrite <- app_assoc.
Qed.

Lemma write_canonical_string_ok value out :
  has_control value = false -> write_canonical_string value out = Ok (out ++ escape value ++ q).
Proof.
  intros H. unfold write_canonical_string. rewrite H, fold_escape. by rewrite <- app_assoc.
Qed.

Lemma escape_plain s : forallb (fun b => negb (b =? 34)%Z && negb (b =? 92)%Z) s = true -> escape s = s.
Proof.
  induction s as [|b s IH]; simpl; [done|]. intros H. bools.
  unfold json_byte. destruct (b =? 34)%Z eqn:E1; [bools; lia|].
  destruct (b =? 92)%Z eqn:E2; [bools; lia|]. simpl. by rewrite IH.
Qed.

Lemma display_lower h : wf_hash h -> forallb is_lower_hex (display h) = true.
Proof. intros [Hb _]. rewrite display_to_hex by done. by apply to_hex_lower. Qed.

Lemma lower_hex_range b : is_lower_hex b = true -> (48 <= b <= 57)%Z \/ (97 <= b <= 102)%Z.
Proof. unfold is_lower_hex. intros H. apply orb_true_iff in H as [H|H]; bools; lia. Qed.

Lemma escape_display h : wf_hash h -> escape (display h) = display h.
Proof.
  intros Hh. apply escape_plain. pose proof (display_lower h Hh) as H.
  rewrite forallb_forall in H |- *. intros b Hb. specialize (H b Hb). apply lower_hex_range in H.
  apply andb_true_intro. split; apply negb_true_iff, Z.eqb_neq; lia.
Qed.

(** The short literals of the format need no escape. *)
Lemma escape_lit s :
  forallb (fun b => negb (b =? 34)%Z && negb (b =? 92)%Z) (lit s) = true -> escape (lit s) = lit s.
Proof. apply escape_plain. Qed.

Lemma canonical_line e out :
  entry_ok e -> typed_entry e -> write_canonical_entry e out = Ok (out ++ line e ++ nl).
Proof.
  intros [[Hc _] Hk] [_ Ht]. unfold write_canonical_entry, line, object_text, write_u32.
  destruct e as [p h|p u g m|p u g t]; cbn [path] in Hc;
    rewrite (write_canonical_string_ok p) by done; unfold members; cbn [map join_with];
    unfold member_text; cbn [fst snd lit_text]; unfold quoted;
    rewrite ?(escape_display h), ?(write_canonical_string_ok t) by done;
    unfold file_hash_to_string; rewrite !escape_lit by done; f_equal; rewrite <- !app_assoc; reflexivity.
Qed.

Lemma write_entries es out :
  Forall entry_ok es -> Forall typed_entry es ->
  try_fold (fun out entry => write_canonical_entry entry out) out es =
  Ok (out ++ concat (map (fun l => l ++ nl) (map line es))).
Proof.
  intros He Ht. revert out. induction es as [|e es IH]; intros out; cbn [try_fold map concat]; [by rewrite app_nil_r|].
  apply Forall_cons in He as [He Hes]. apply Forall_cons in Ht as [Ht Hts].
  rewrite canonical_line by done. rewrite IH by done. by rewrite <- !app_assoc.
Qed.

(** The canonical text of a list of entries. *)
Definition canonical_text (es : list FsTreeEntry) : bytes :=
  CANONICAL_SCHEMA_LINE ++ concat (map (fun l => l ++ nl) (map line es)).

Lemma to_canonical_bytes_ok m :
  wf_manifest m -> Forall typed_entry (entries m) ->
  to_canonical_bytes m = Ok (canonical_text (entries m)).
Proof.
  intros [Hs Hc] Ht. unfold to_canonical_bytes.
  assert (validate_entries (entries m) = Ok tt) as ->.
  { by apply validate_entries_ok; [apply strongly_sorted_key_le|]. }
  apply write_entries; [apply Hc|done].
Qed.

(** *** Bytes of a line *)

Lemma escape_byte_multi s : Forall (fun b => 128 <= b)%Z s -> escape s = s.
Proof.
  intros H. apply escape_plain, forallb_forall. intros b Hb. rewrite Forall_forall in H.
  apply list_elem_of_In, H in Hb. apply andb_true_intro. split; apply negb_true_iff, Z.eqb_neq; lia.
Qed.

Lemma escape_utf8 s : is_utf8 s = true -> is_utf8 (escape s) = true.
Proof.
  intros Hs. apply is_utf8_iff in Hs as [cs Hs].
  induction Hs as [|b l cs Hb Hs IH|s c l cs Hm Hs IH]; [done| |].
  - apply (is_utf8_app (json_byte b)); [|done]. apply is_utf8_ascii. unfold json_byte.
    destruct (_ || _); repeat constructor; lia.
  - unfold escape. rewrite flat_map_app. apply is_utf8_app; [|done].
    change (flat_map json_byte s) with (escape s). rewrite escape_byte_multi by apply Hm.
    apply is_utf8_iff. exists [c]. rewrite <- (app_nil_r s). by apply utf8_multi; [|constructor].
Qed.

Lemma escape_no_newline s : 10%Z ∉ s -> 10%Z ∉ escape s.
Proof.
  intros Hs Hin. apply list_elem_of_In, in_flat_map in Hin as (b & Hb & Hin).
  apply Hs, list_elem_of_In. unfold json_byte in Hin.
  destruct (_ || _); [destruct Hin as [?|[->|[]]]; [lia|done]|by destruct Hin as [->|[]]].
Qed.

(** A line of text: valid UTF-8 without a newline. *)
Definition one_line (s : bytes) : Prop := is_utf8 s = true /\ 10%Z ∉ s.

Lemma one_line_app s t : one_line s -> one_line t -> one_line (s ++ t).
Proof.
  intros [Hs Ns] [Ht Nt]. split; [by apply is_utf8_app|]. apply not_elem_of_app. by split.
Qed.

Lemma one_line_ascii s : Forall (fun b => 32 <= b < 128)%Z s -> one_line s.
Proof.
  intros H. split.
  - apply is_utf8_ascii. eapply Forall_impl; [exact H|]. intros b. simpl. lia.
  - intros Hin. rewrite Forall_forall in H. apply H in Hin. lia.
Qed.

Lemma one_line_const s :
  forallb (fun b => (32 <=? b)%Z && (b <? 128)%Z) s = true -> one_line s.
Proof.
  intros H. apply one_line_ascii, Forall_forall. intros b Hb. rewrite forallb_forall in H.
  apply list_elem_of_In, H in Hb. bools. lia.
Qed.

Lemma one_line_quoted s : plain_text s -> one_line (quoted s).
Proof.
  intros [Hu Hc]. repeat apply one_line_app; [by apply one_line_const| |by apply one_line_const].
  split; [by apply escape_utf8|]. apply escape_no_newline. apply no_control_byte; [done..|lia].
Qed.

Lemma one_line_lit_text l : lit_ok l -> one_line (lit_text l).
Proof.
  destruct l as [s|n]; simpl; [apply one_line_quoted|]. intros Hn.
  destruct (to_decimal_ok n Hn) as [_ Hd]. apply one_line_ascii, Forall_forall. intros b Hb.
  rewrite forallb_forall in Hd. apply list_elem_of_In, Hd, is_digit_range in Hb. lia.
Qed.

Lemma one_line_members fs :
  Forall (fun f => plain_text f.1 /\ lit_ok f.2) fs -> one_line (object_text fs).
Proof.
  intros H. unfold object_text. apply one_line_app; [by apply one_line_const|].
  apply one_line_app; [|by apply one_line_const].
  induction H as [|f fs [Hf1 Hf2] Hfs IH]; [apply one_line_ascii; constructor|].
  assert (Hm : one_line (member_text f)).
  { apply one_line_app; [by apply one_line_quoted|].
    apply one_line_app; [by apply one_line_const|by apply one_line_lit_text]. }
  destruct fs as [|g fs]; [exact Hm|].
  change (one_line (member_text f ++ lit "," ++ join_with (lit ",") (map member_text (g :: fs)))).
  apply one_line_app; [done|]. apply one_line_app; [by apply one_line_const|done].
Qed.

Lemma plain_lower_hex s : forallb is_lower_hex s = true -> plain_text s.
Proof.
  intros H. assert (Hr : Forall (fun b => 48 <= b < 127)%Z s).
  { apply Forall_forall. intros b Hb. rewrite forallb_forall in H.
    apply list_elem_of_In, H, lower_hex_range in Hb. lia. }
  assert (Hu : utf8 s s).
  { clear H. induction Hr; constructor; [lia|done]. }
  split; [apply is_utf8_iff; by eexists|]. unfold has_control.
  apply utf8_chars_iff in Hu. rewrite Hu. apply not_true_iff_false. intros Hx.
  apply existsb_exists in Hx as (b & Hb & Hx). rewrite Forall_forall in Hr.
  apply list_elem_of_In, Hr in Hb. unfold char_is_control in Hx.
  apply orb_true_iff in Hx as [Hx|Hx]; bools; lia.
Qed.

Lemma u32_u64 n : is_u32 n -> is_u64 n.
Proof. unfold is_u32, is_u64. lia. Qed.

Lemma members_ok e :
  entry_ok e -> typed_entry e -> Forall (fun f => plain_text f.1 /\ lit_ok f.2) (members e).
Proof.
  intros [[Hc _] Hk] [Hu Ht].
  destruct e as [p h|p u g m|p u g t]; cbn [path] in *; unfold members;
    repeat constructor; cbn [fst snd lit_ok]; try reflexivity; try done;
    try (apply u32_u64; tauto); try tauto.
  all: by apply plain_lower_hex, display_lower.
Qed.

Lemma line_one_line e : entry_ok e -> typed_entry e -> one_line (line e).
Proof. intros. by apply one_line_members, members_ok. Qed.

Lemma schema_one_line : exists s, CANONICAL_SCHEMA_LINE = s ++ nl /\ one_line s.
Proof.
  eexists. split; [unfold CANONICAL_SCHEMA_LINE; by rewrite !app_assoc|].
  by apply one_line_const.
Qed.

Lemma lines_utf8 ls : Forall one_line ls -> is_utf8 (concat (map (fun l => l ++ nl) ls)) = true.
Proof.
  induction 1 as [|l ls [Hl _] _ IH]; [done|]. cbn [map concat].
  apply is_utf8_app; [by apply is_utf8_app|done].
Qed.

Lemma line_nonempty e : line e <> [].
Proof. done. Qed.

(** *** Reading a line back *)

Section ReadBack.
Context `{law : JsonObjectLaw}.

Lemma require_exact_keys_ok object expected n :
  map_keys object ≡ₚ expected -> (forall k, k ∈ expected -> is_Some (map_get object k)) ->
  require_exact_keys object expected n = Ok tt.
Proof.
  intros Hp Hg. unfold require_exact_keys.
  assert (Hx : forall f : bytes -> result StoreError unit, forall l,
            (forall k, k ∈ l -> f k = Ok tt) -> try_fold (fun _ k => f k) tt l = Ok tt).
  { intros f l Hf. apply try_fold_unit, Forall_forall. exact Hf. }
  rewrite Hx; [rewrite Hx|].
  - by rewrite Hp, Nat.eqb_refl.
  - intros k Hk. rewrite Hp in Hk. by rewrite bool_decide_eq_true_2.
  - intros k Hk. by destruct (Hg k Hk) as [v ->].
Qed.

Lemma required_string_ok object k w s n :
  map_get object k = Some w -> as_str w = Some s -> required_string object k n = Ok s.
Proof. intros Hk Hw. unfold required_string. rewrite Hk. simpl. by rewrite Hw. Qed.

Lemma required_u32_ok object k w v n :
  map_get object k = Some w -> as_u64 w = Some v -> is_u32 v -> required_u32 object k n = Ok v.
Proof.
  intros Hk Hw Hv. unfold required_u32, required_u64. rewrite Hk. simpl. rewrite Hw. simpl.
  unfold is_u32 in Hv. destruct (v <? 2 ^ 32)%Z eqn:E; [done|]. apply Z.ltb_ge in E. lia.
Qed.

Lemma required_mode_ok object k w v n :
  map_get object k = Some w -> as_u64 w = Some v -> is_u32 v -> (v <= MODE_MAX)%Z ->
  required_mode object k n = Ok v.
Proof.
  intros Hk Hw Hv Hm. unfold required_mode, required_u64. rewrite Hk. simpl. rewrite Hw. simpl.
  destruct (MODE_MAX <? v)%Z eqn:E; [apply Z.ltb_lt in E; lia|].
  f_equal. apply Z.mod_small. exact Hv.
Qed.

Lemma file_hash_display h : wf_hash h -> file_hash_from_str (display h) = Ok h.
Proof.
  intros Hh. rewrite display_to_hex by apply Hh. change (from_str (to_hex h) = Ok h).
  by apply from_str_ok.
Qed.

(** The member of an entry read under its key. *)
Ltac member Hm k v w :=
  let Hk := fresh "Hk" in let Hw := fresh "Hw" in
  destruct (Hm (lit k) v) as (w & Hk & Hw); [set_solver|]; cbn [holds] in Hw.

Lemma parse_entry_line_ok e n :
  entry_ok e -> typed_entry e -> parse_entry_line (line e) n = Ok e.
Proof.
  intros He Ht. pose proof (members_ok e He Ht) as Hf. unfold line.
  destruct (law (members e)) as (v & m & Hj & Ho & Hkeys & Hm); [|done|].
  { destruct e; apply (bool_decide_unpack (NoDup _)); vm_compute; exact I. }
  unfold parse_entry_line. rewrite Hj. cbn [map_err]. rewrite Ho. cbn [ok_or].
  assert (Hall : forall k, k ∈ map fst (members e) -> is_Some (map_get m k)).
  { intros k Hk. apply list_elem_of_fmap in Hk as ([k' l] & -> & Hk).
    destruct (Hm _ _ Hk) as (w & Hw & _). by exists w. }
  destruct He as [_ Hk]. destruct Ht as [_ Ht].
  destruct e as [p h|p u g md|p u g t]; cbn [members] in *.
  - member Hm "p" (JStr p) wp. member Hm "t" (JStr (lit "f")) wt. member Hm "h" (JStr (display h)) wh.
    rewrite (required_string_ok m _ wp p), (required_string_ok m _ wt (lit "f")) by done.
    rewrite bool_decide_eq_true_2 by done.
    rewrite (require_exact_keys_ok m) by (exact Hkeys || exact Hall). unfold required_file_hash.
    rewrite (required_string_ok m _ wh (display h)) by done. by rewrite file_hash_display.
  - member Hm "p" (JStr p) wp. member Hm "t" (JStr (lit "d")) wt. member Hm "u" (JNum u) wu.
    member Hm "g" (JNum g) wg. member Hm "m" (JNum md) wm.
    rewrite (required_string_ok m _ wp p), (required_string_ok m _ wt (lit "d")) by done.
    rewrite bool_decide_eq_false_2, bool_decide_eq_true_2 by done.
    rewrite (require_exact_keys_ok m) by (exact Hkeys || exact Hall).
    rewrite (required_u32_ok m _ wu u), (required_u32_ok m _ wg g) by tauto.
    by rewrite (required_mode_ok m _ wm md) by tauto.
  - member Hm "p" (JStr p) wp. member Hm "t" (JStr (lit "l")) wt. member Hm "u" (JNum u) wu.
    member Hm "g" (JNum g) wg. member Hm "x" (JStr t) wx.
    rewrite (required_string_ok m _ wp p), (required_string_ok m _ wt (lit "l")) by done.
    do 2 rewrite bool_decide_eq_false_2 by done. rewrite bool_decide_eq_true_2 by done.
    rewrite (require_exact_keys_ok m) by (exact Hkeys || exact Hall).
    rewrite (required_u32_ok m _ wu u), (required_u32_ok m _ wg g) by tauto.
    by rewrite (required_string_ok m _ wx t).
Qed.

Lemma parse_lines_ok es n acc :
  Forall entry_ok es -> Forall typed_entry es ->
  try_fold parse_line (n, acc) (map (fun l => l ++ nl) (map line es)) =
  Ok (n + len es, acc ++ es)%Z.
Proof.
  intros He Ht. revert n acc. induction es as [|e es IH]; intros n acc; cbn [map try_fold].
  { rewrite app_nil_r. by rewrite len_nil, Z.add_0_r. }
  apply Forall_cons in He as [He Hes]. apply Forall_cons in Ht as [Ht Hts].
  unfold parse_line at 1. rewrite (proj2 (strip_suffix_some nl (line e ++ nl) (line e)) eq_refl).
  cbn [ok_or]. rewrite (bool_decide_eq_false_2 (line e = [])) by apply line_nonempty.
  rewrite parse_entry_line_ok by done. unfold canonical_entry_bytes.
  rewrite canonical_line by done. rewrite bool_decide_eq_true_2 by done. cbn [negb].
  rewrite IH by done. rewrite len_cons, <- app_assoc. do 2 f_equal. lia.
Qed.

Lemma parse_canonical_text m :
  wf_manifest m -> Forall typed_entry (entries m) ->
  parse_canonical_bytes (canonical_text (entries m)) = Ok m.
Proof.
  intros Hwf Ht. pose proof Hwf as [Hs [He Hc]]. set (es := entries m) in *.
  assert (Hls : Forall one_line (map line es)).
  { apply Forall_fmap. apply Forall_forall. intros e Hin. rewrite Forall_forall in He, Ht.
    apply line_one_line; auto. }
  destruct schema_one_line as (s & Es & Hs1).
  assert (Htext : canonical_text es = concat (map (fun l => l ++ nl) (s :: map line es))).
  { unfold canonical_text. by rewrite Es. }
  assert (Hend : exists r, canonical_text es = r ++ nl).
  { rewrite Htext. destruct (exists_last (l := s :: map line es)) as (ls & l & ->); [done|].
    rewrite map_app, concat_app. simpl. rewrite app_nil_r, app_assoc. by eexists. }
  unfold parse_canonical_bytes. destruct Hend as [r Hr].
  rewrite bool_decide_eq_false_2; [|rewrite Hr; by destruct r].
  unfold ends_with. rewrite (proj2 (strip_suffix_some nl _ r) Hr). cbn [negb].
  assert (is_utf8 (canonical_text es) = true) as ->.
  { rewrite Htext. apply lines_utf8. by constructor. }
  cbn [negb]. assert (split_inclusive 10 (canonical_text es) =
                      CANONICAL_SCHEMA_LINE :: map (fun l => l ++ nl) (map line es)) as ->.
  { rewrite Htext, (split_inclusive_lines 10); [by rewrite Es|].
    constructor; [apply Hs1|]. eapply Forall_impl; [exact Hls|]. intros l Hl. apply Hl. }
  unfold validate_schema_header. rewrite bool_decide_eq_true_2 by done.
  rewrite parse_lines_ok by done. cbn [snd app]. unfold es.
  rewrite from_entries_id by done. cbn [map_err].
  rewrite to_canonical_bytes_ok by done. by rewrite bool_decide_eq_true_2.
Qed.
End ReadBack.

Lemma parse_canonical_inv `{JsonApi} b m :
  parse_canonical_bytes b = Ok m -> wf_manifest m /\ to_canonical_bytes m = Ok b.
Proof.
  unfold parse_canonical_bytes. intros Hp. inv_res.
  destruct (split_inclusive 10 b) as [|l ls]; inv_res. bools.
  subst. split; [|done]. by eapply from_entries_wf.
Qed.

(** ** Properties *)

(** [FsTreeManifest::from_entries] accepts exactly the closed trees (valid
    entries, unique paths, a root directory, every parent present and a
    directory), in any order of the entries, and its result is the one list
    of these entries in strictly increasing path order. *)
Theorem from_entries_spec es m :
  from_entries es = Ok m <->
  closed_tree es /\ StronglySorted (key_lt path) (entries m) /\ entries m ≡ₚ es.
Proof.
  split.
  - intros H. destruct (from_entries_wf es m H) as [[Hs Hc] Hp]. by rewrite <- Hp.
  - intros (Hc & Hs & Hp). apply from_entries_of_perm; [|done]. split; [done|]. by rewrite Hp.
Qed.

(** C31. A manifest built from well-typed entries has a canonical text which
    parses back to the manifest, and no other byte string parses to it. *)
Theorem manifest_text_roundtrip `{JsonObjectLaw} es m :
  Forall typed_entry es -> from_entries es = Ok m ->
  exists b, to_canonical_bytes m = Ok b /\ parse_canonical_bytes b = Ok m /\
    forall b', parse_canonical_bytes b' = Ok m -> b' = b.
Proof.
  intros Ht Hm. destruct (from_entries_wf es m Hm) as [Hwf Hp]. rewrite <- Hp in Ht.
  pose proof (to_canonical_bytes_ok m Hwf Ht) as Hb.
  eexists. split; [exact Hb|]. split; [by apply parse_canonical_text|].
  intros b' Hb'. apply parse_canonical_inv in Hb' as [_ Hb']. congruence.
Qed.

(** Whatever the JSON parser does, [parse_canonical_bytes] only accepts a
    byte string that is the canonical text of the closed, sorted manifest it
    returns: whitespace, field order, entry order, duplicates and a missing
    final newline are all rejected. *)
Theorem parse_only_canonical `{JsonApi} b m :
  parse_canonical_bytes b = Ok m -> wf_manifest m /\ to_canonical_bytes m = Ok b.
Proof. apply parse_canonical_inv. Qed.

(** On a regular file [read_manifest_if_marked] returns [None] exactly when
    the schema line is not a prefix of the content, and otherwise the outcome of
    parsing the whole content, so a marked but malformed file is an error. *)
Theorem marked_manifest_read `{JsonApi} fs p content :
  fs_is_file fs p = Ok true -> fs_open fs p = Ok (Ok content) -> fs_read fs p = Ok content ->
  read_manifest_if_marked fs p =
  match strip_prefix CANONICAL_SCHEMA_LINE content with
  | Some _ => m <- parse_canonical_bytes content ;; Ok (Some m)
  | None => Ok None
  end.
Proof.
  intros Hf Ho Hr. unfold read_manifest_if_marked, read_canonical. rewrite Hf, Ho, Hr. cbn [map_err negb].
  set (k := CANONICAL_SCHEMA_LINE) in *.
  destruct (strip_prefix k content) as [r|] eqn:E.
  - apply strip_prefix_some in E. subst content. rewrite length_app, take_app_length.
    destruct (Nat.ltb_spec (length k + length r) (length k)); [lia|].
    by rewrite bool_decide_eq_true_2.
  - destruct (length content <? length k)%nat; [done|].
    rewrite bool_decide_eq_false_2; [done|]. intros Ht.
    rewrite <- (take_drop (length k) content), Ht, strip_prefix_app in E. done.
Qed.
