(* ===== verification/JsonToy.v ===== *)
(** * A JSON parser for flat objects

    An instance of [JsonApi] that satisfies [JsonObjectLaw]: it reads objects
    whose members are strings and unsigned integers.  The witnesses of the
    manifest properties evaluate the model with it. *)

From S2P Require Import Prelude Errors Hash Text FsManifest.

Inductive JVal := VStr (s : bytes) | VNum (n : Z) | VObj (ms : list (bytes * JVal)).

(** The rest of a string after its opening quote. *)
Fixpoint unquote (l : bytes) : option (bytes * bytes) :=
  match l with
  | [] => None
  | x :: r =>
      if (x =? 34)%Z then Some ([], r)
      else if (x =? 92)%Z then
        match r with
        | c :: r' => option_map (prod_map (cons c) id) (unquote r')
        | [] => None
        end
      else option_map (prod_map (cons x) id) (unquote r)
  end.

Fixpoint span_digits (l : bytes) : bytes * bytes :=
  match l with
  | x :: r => if is_digit x then prod_map (cons x) id (span_digits r) else ([], l)
  | [] => ([], [])
  end.

Definition value_of (l : bytes) : option (JVal * bytes) :=
  match l with
  | x :: r =>
      if (x =? 34)%Z then option_map (prod_map VStr id) (unquote r)
      else match span_digits l with
           | ([], _) => None
           | (ds, r') => Some (VNum (read_decimal ds), r')
           end
  | [] => None
  end.

(** One member; the fuel of [members_of] bounds their number. *)
Definition member_of (l : bytes) : option ((bytes * JVal) * bytes) :=
  match l with
  | x :: r =>
      if (x =? 34)%Z then
        match unquote r with
        | Some (k, c :: r2) =>
            if (c =? 58)%Z then option_map (prod_map (pair k) id) (value_of r2) else None
        | _ => None
        end
      else None
  | [] => None
  end.

Fixpoint members_of (fuel : nat) (l : bytes) : option (list (bytes * JVal)) :=
  match fuel with
  | O => None
  | S fuel' =>
      match member_of l with
      | Some (m, c :: r) =>
          if (c =? 44)%Z then option_map (cons m) (members_of fuel' r)
          else if (c =? 125)%Z && bool_decide (r = []) then Some [m]
          else None
      | _ => None
      end
  end.

Definition toy_from_str (l : bytes) : result string JVal :=
  match l with
  | x :: r =>
      if (x =? 123)%Z then
        if bool_decide (r = [125]%Z) then Ok (VObj [])
        else match members_of (length r) r with
             | Some ms => Ok (VObj ms)
             | None => Err "expected an object"
             end
      else Err "expected an object"
  | [] => Err "EOF while parsing a value"
  end.

#[export] Instance toy_json : JsonApi := {
  Value := JVal;
  Map := list (bytes * JVal);
  json_from_str := toy_from_str;
  as_object v := match v with VObj ms => Some ms | _ => None end;
  as_str v := match v with VStr s => Some s | _ => None end;
  as_u64 v := match v with VNum n => Some n | _ => None end;
  map_get ms k := assoc k ms;
  map_keys ms := map fst ms;
}.

Definition val_of (l : JsonLit) : JVal := match l with JStr s => VStr s | JNum n => VNum n end.

Lemma unquote_escape s r : unquote (escape s ++ 34%Z :: r) = Some (s, r).
Proof.
  induction s as [|b s IH]; [done|]. change (escape (b :: s)) with (json_byte b ++ escape s).
  rewrite <- app_assoc. unfold json_byte.
  destruct (b =? 34)%Z eqn:E1; [bools; subst; cbn; by rewrite IH|].
  destruct (b =? 92)%Z eqn:E2; [bools; subst; cbn; by rewrite IH|].
  cbn [orb app unquote]. by rewrite E1, E2, IH.
Qed.

Lemma span_digits_app ds x r :
  forallb is_digit ds = true -> is_digit x = false -> span_digits (ds ++ x :: r) = (ds, x :: r).
Proof.
  intros Hd Hx. induction ds as [|d ds IH]; simpl in *; [by rewrite Hx|]. bools.
  rewrite H, IH by done. done.
Qed.

(** Every literal is followed by a comma or a brace. *)
Lemma value_of_text l x r :
  lit_ok l -> x = 44%Z \/ x = 125%Z -> value_of (lit_text l ++ x :: r) = Some (val_of l, x :: r).
Proof.
  intros Hl Hx. destruct l as [s|n]; simpl in *.
  - unfold quoted, q. rewrite <- app_assoc. simpl. by rewrite unquote_escape.
  - destruct (to_decimal_ok n Hl) as [Hr Hd]. pose proof (to_decimal_nonempty n) as Hne.
    assert (Hs : span_digits (to_decimal n ++ x :: r) = (to_decimal n, x :: r)).
    { apply span_digits_app; [done|]. by destruct Hx as [->| ->]. }
    unfold value_of. destruct (to_decimal n) as [|d ds] eqn:E; [done|]. cbn [app] in *.
    simpl in Hd. bools. apply is_digit_range in H.
    destruct (d =? 34)%Z eqn:E2; [bools; lia|]. rewrite Hs. by rewrite Hr.
Qed.

Lemma member_of_text f x r :
  lit_ok f.2 -> x = 44%Z \/ x = 125%Z ->
  member_of (member_text f ++ x :: r) = Some ((f.1, val_of f.2), x :: r).
Proof.
  intros Hl Hx. destruct f as [k l]. unfold member_text, quoted, q. cbn [fst snd] in *.
  rewrite <- !app_assoc. cbn. rewrite unquote_escape. cbn. by rewrite value_of_text.
Qed.

Lemma members_of_text fs fuel :
  fs <> [] -> Forall (fun f => lit_ok f.2) fs -> (length fs <= fuel)%nat ->
  members_of fuel (join_with (lit ",") (map member_text fs) ++ [125]%Z) =
  Some (map (fun f => (f.1, val_of f.2)) fs).
Proof.
  intros Hne Hok. revert fuel. induction Hok as [|f fs Hf Hfs IH]; [done|]. intros fuel Hfuel.
  simpl in Hfuel. destruct fuel as [|fuel]; [lia|]. cbn [members_of].
  destruct fs as [|g fs].
  - cbn [map join_with]. rewrite member_of_text by tauto. by simpl.
  - change (join_with (lit ",") (map member_text (f :: g :: fs)))
      with (member_text f ++ 44%Z :: join_with (lit ",") (map member_text (g :: fs))).
    rewrite <- app_assoc. cbn [app]. rewrite member_of_text by tauto.
    rewrite Z.eqb_refl, IH; [done|done|lia].
Qed.

Lemma member_text_length f : (1 <= length (member_text f))%nat.
Proof. unfold member_text, quoted, q. rewrite !length_app. simpl. lia. Qed.

Lemma join_length fs : (length fs <= length (join_with (lit ",") (map member_text fs)))%nat.
Proof.
  induction fs as [|f fs IH]; [simpl; lia|]. pose proof (member_text_length f).
  destruct fs as [|g fs]; [simpl in *; lia|].
  change (join_with (lit ",") (map member_text (f :: g :: fs)))
    with (member_text f ++ 44%Z :: join_with (lit ",") (map member_text (g :: fs))).
  rewrite length_app. cbn [length] in *. lia.
Qed.

#[export] Instance toy_json_law : JsonObjectLaw.
Proof.
  intros fs Hnd Hok.
  assert (Hl : Forall (fun f => lit_ok f.2) fs) by (eapply Forall_impl; [exact Hok|by intros f []]).
  exists (VObj (map (fun f => (f.1, val_of f.2)) fs)), (map (fun f => (f.1, val_of f.2)) fs).
  assert (Hk : map fst (map (fun f : bytes * JsonLit => (f.1, val_of f.2)) fs) = map fst fs).
  { rewrite map_map. apply map_ext. done. }
  split; [|split; [done|split]].
  - unfold json_from_str, toy_json, object_text. cbn [lit]. simpl app. unfold toy_from_str. rewrite Z.eqb_refl.
    change (map (fun a => Z.of_nat (nat_of_ascii a)) (String.list_ascii_of_string "}")) with [125%Z].
    destruct fs as [|f fs]; [by rewrite bool_decide_eq_true_2|].
    rewrite bool_decide_eq_false_2.
    + rewrite members_of_text; [done..|]. rewrite length_app.
      pose proof (join_length (f :: fs)). lia.
    + intros E. apply (f_equal length) in E. rewrite length_app in E.
      pose proof (join_length (f :: fs)). simpl in *. lia.
  - simpl. by rewrite Hk.
  - intros k l Hin. exists (val_of l). split; [|by destruct l]. cbn.
    apply assoc_in; [by rewrite Hk|]. apply list_elem_of_fmap. by exists (k, l).
Qed.

Module ManifestExamples.
Definition hash : bytes := repeat 171%Z 32.
Definition es : list FsTreeEntry :=
  [ESymlink (lit "usr/link") 0 5 (lit "a b"); EFile (lit "usr/bin") hash;
   EDirectory (lit "usr") 0 5 493; EDirectory [] 0 0 493].
Definition m : FsTreeManifest := mkFsTreeManifest
  [EDirectory [] 0 0 493; EDirectory (lit "usr") 0 5 493; EFile (lit "usr/bin") hash;
   ESymlink (lit "usr/link") 0 5 (lit "a b")].
Definition text : bytes := canonical_text (entries m).

Lemma from_es : from_entries es = Ok m.
Proof. vm_compute. reflexivity. Qed.

Lemma typed_es : Forall typed_entry es.
Proof.
  repeat constructor; try reflexivity; unfold is_u32, is_u8; try lia; vm_compute; try lia; discriminate.
Qed.

Lemma parse_text : parse_canonical_bytes text = Ok m.
Proof. vm_compute. reflexivity. Qed.

Lemma manifest_text_roundtrip_witness :
  exists b, to_canonical_bytes m = Ok b /\ parse_canonical_bytes b = Ok m /\
    forall b', parse_canonical_bytes b' = Ok m -> b' = b.
Proof. exact (manifest_text_roundtrip es m typed_es from_es). Defined.

Lemma parse_only_canonical_witness : wf_manifest m /\ to_canonical_bytes m = Ok text.
Proof. exact (parse_only_canonical text m parse_text). Defined.

Definition fs : ManifestFs :=
  mkManifestFs (fun _ => Ok true) (fun _ => Ok (Ok text)) (fun _ => Ok text).

Lemma marked_manifest_read_witness :
  read_manifest_if_marked fs (lit "m") = Ok (Some m).
Proof.
  rewrite (marked_manifest_read fs (lit "m") text eq_refl eq_refl eq_refl). vm_compute. reflexivity.
Defined.
End ManifestExamples.
