(* ===== verification/FsManifestOps.v ===== *)
(** * Operations on filesystem-tree manifests

    The pure manifest operations of [bobr-store/src/fs_tree.rs]: selecting a
    subset by glob patterns, merging, re-rooting, resolving install rules, and
    the hash of a regular file with its metadata.  [globset] is external: its
    compiler and matcher are the operations of [GlobApi], about which nothing
    is assumed. *)

From S2P Require Import Prelude Errors Hash Text FsObject FsManifest.

(** [globset]: [Glob::new], [Glob::compile_matcher], [GlobMatcher::is_match]. *)
Class GlobApi := {
  Glob : Type;
  GlobMatcher : Type;
  glob_new : bytes -> result string Glob;
  compile_matcher : Glob -> GlobMatcher;
  is_match : GlobMatcher -> bytes -> bool;
}.

Definition validate_mode (label : string) (mode : u32) : result StoreError unit :=
  if (mode <=? MODE_MAX)%Z then Ok tt
  else Err (SE_InvalidInput (label +:+ " is out of range: " +:+ pretty mode)).

Definition validate_fs_file_mode (mode : u32) : result StoreError unit :=
  validate_mode "fs-file mode" mode.

Definition FS_FILE_HASH_TAG : bytes := lit "bobr:fs-file:v1" ++ [0]%Z.

(** The bytes fed to the hasher by [hash_fs_file_parts]. *)
Definition fs_file_message (uid gid mode : u32) (size : u64) (content_sha256 : bytes) : bytes :=
  FS_FILE_HASH_TAG ++ be_bytes 4 uid ++ be_bytes 4 gid ++ be_bytes 4 mode ++ be_bytes 8 size
  ++ content_sha256.

Definition hash_fs_file_parts `{Sha256Api} (uid gid mode : u32) (size : u64)
  (content_sha256 : bytes) : result StoreError FsFileHash :=
  validate_fs_file_mode mode ;;;
  Ok (sha256 (fs_file_message uid gid mode size content_sha256)).

(** ** Subset *)

Section Subset.
Context {glob : GlobApi}.

Record CompiledFsTreeSubsetPattern := mkSubsetPattern {
  sp_pattern : bytes;
  sp_matcher : GlobMatcher;
}.

(** [Path::components] drops empty components and [.]; a component is
    [ParentDir] when it is [..]. *)
Definition has_parent_dir (pattern : bytes) : bool :=
  existsb (fun c => bytes_eqb c (lit "..")) (split_on 47 pattern).

Definition validate_fs_tree_subset_pattern (pattern : bytes) : result StoreError unit :=
  if bool_decide (pattern = []) then
    Err (SE_InvalidInput "fs-tree subset include pattern must not be empty")
  else if starts_with [47]%Z pattern then
    Err (SE_InvalidInput ("fs-tree subset include pattern '" +:+ show pattern
                          +:+ "' must be relative"))
  else if bool_decide (92%Z ∈ pattern) then
    Err (SE_InvalidInput ("fs-tree subset include pattern '" +:+ show pattern
                          +:+ "' must use '/' separators"))
  else if has_parent_dir pattern then
    Err (SE_InvalidInput ("fs-tree subset include pattern '" +:+ show pattern
                          +:+ "' must not contain '..'"))
  else Ok tt.

Definition compile_fs_tree_subset_pattern (pattern : bytes)
  : result StoreError CompiledFsTreeSubsetPattern :=
  validate_fs_tree_subset_pattern pattern ;;;
  g <- map_err (fun error =>
         SE_InvalidInput ("invalid fs-tree subset include pattern '" +:+ show pattern +:+ "': "
                          +:+ error)) (glob_new pattern) ;;
  Ok (mkSubsetPattern pattern (compile_matcher g)).

Definition compile_fs_tree_subset_patterns (patterns : list bytes)
  : result StoreError (list CompiledFsTreeSubsetPattern) :=
  if bool_decide (patterns = []) then
    Err (SE_InvalidInput "fs-tree subset include patterns must contain at least one pattern")
  else try_map compile_fs_tree_subset_pattern patterns.

Definition fs_tree_subset_path_matches (p : bytes) (patterns : list CompiledFsTreeSubsetPattern)
  : bool :=
  existsb (fun pattern =>
    is_match (sp_matcher pattern) p ||
    match strip_suffix (lit "/**") (sp_pattern pattern) with
    | Some prefix => bytes_eqb p prefix
    | None => false
    end) patterns.

(** [collect::<BTreeMap<_, _>>()] of the entries by path. *)
Definition collect_by_path (es : list FsTreeEntry) : gmap bytes FsTreeEntry :=
  fold_left (fun m e => <[path e := e]> m) es ∅.

(** The [while let] loop of [add_fs_tree_subset_parent_dirs]: each round drops
    at least one byte of [remainder], so its length is enough fuel. *)
Fixpoint add_parents_loop (fuel : nat) (p : bytes) (by_path : gmap bytes FsTreeEntry)
  (remainder : bytes) (selected : gset bytes) : result StoreError (gset bytes) :=
  match fuel with
  | O => Ok selected
  | S fuel' =>
      match rsplit_once 47 remainder with
      | None => Ok selected
      | Some (parent, _) =>
          match by_path !! parent with
          | None =>
              Err (SE_InvalidData ("fs-tree manifest is missing parent directory '"
                                   +:+ show parent +:+ "' for '" +:+ show p +:+ "'"))
          | Some (EDirectory _ _ _ _) =>
              add_parents_loop fuel' p by_path parent ({[parent]} ∪ selected)
          | Some _ =>
              Err (SE_InvalidData ("fs-tree manifest parent '" +:+ show parent +:+ "' for '"
                                   +:+ show p +:+ "' is not a directory"))
          end
      end
  end.

Definition add_fs_tree_subset_parent_dirs (p : bytes) (by_path : gmap bytes FsTreeEntry)
  (selected : gset bytes) : result StoreError (gset bytes) :=
  add_parents_loop (length p) p by_path p ({[ [] ]} ∪ selected).

(** The body of the selection loop of [subset_manifest]. *)
Definition subset_step (patterns : list CompiledFsTreeSubsetPattern)
  (by_path : gmap bytes FsTreeEntry) (selected : gset bytes) (entry : FsTreeEntry)
  : result StoreError (gset bytes) :=
  let p := path entry in
  if bool_decide (p = []) then Ok selected
  else if fs_tree_subset_path_matches p patterns then
    add_fs_tree_subset_parent_dirs p by_path ({[p]} ∪ selected)
  else Ok selected.

Definition subset_manifest (manifest : FsTreeManifest) (include : list bytes)
  : result StoreError FsTreeManifest :=
  patterns <- compile_fs_tree_subset_patterns include ;;
  let by_path := collect_by_path (entries manifest) in
  selected <- try_fold (subset_step patterns by_path) ∅ (entries manifest) ;;
  if negb (existsb (fun p => negb (bool_decide (p = []))) (elements selected)) then
    Err (SE_InvalidInput "fs-tree subset include patterns selected no paths")
  else
    from_entries (filter (fun entry => path entry ∈ selected) (entries manifest)).
End Subset.

(** ** Merge *)

Definition fs_tree_entry_kind_name (k : FsTreeEntryKind) : string :=
  match k with KindFile => "file" | KindDirectory => "directory" | KindSymlink => "symlink" end.

(** [{:o}]. *)
Fixpoint octal_fuel (fuel : nat) (n : Z) : bytes :=
  match fuel with
  | O => []
  | S fuel' =>
      if (n <? 8)%Z then [48 + n]%Z else octal_fuel fuel' (n / 8) ++ [48 + n mod 8]%Z
  end.
Definition show_octal (n : u32) : string := show (octal_fuel 11 n).

Definition fs_tree_merge_conflict_reason (existing new : FsTreeEntry) : string :=
  if negb (bool_decide (kind existing = kind new)) then
    "entry kind differs (existing " +:+ fs_tree_entry_kind_name (kind existing) +:+ ", new "
    +:+ fs_tree_entry_kind_name (kind new) +:+ ")"
  else match existing, new with
  | EFile _ existing_hash, EFile _ new_hash =>
      "file hash differs (" +:+ show (display existing_hash) +:+ " vs "
      +:+ show (display new_hash) +:+ ")"
  | EDirectory _ existing_uid existing_gid existing_mode, EDirectory _ new_uid new_gid new_mode =>
      "directory metadata differs (" +:+ pretty existing_uid +:+ ":" +:+ pretty existing_gid
      +:+ " " +:+ show_octal existing_mode +:+ " vs " +:+ pretty new_uid +:+ ":"
      +:+ pretty new_gid +:+ " " +:+ show_octal new_mode +:+ ")"
  | ESymlink _ existing_uid existing_gid existing_target, ESymlink _ new_uid new_gid new_target =>
      "symlink metadata differs (" +:+ pretty existing_uid +:+ ":" +:+ pretty existing_gid
      +:+ " '" +:+ show existing_target +:+ "' vs " +:+ pretty new_uid +:+ ":"
      +:+ pretty new_gid +:+ " '" +:+ show new_target +:+ "')"
  | _, _ => "entry differs"
  end.

Definition merge_entry (by_path : gmap bytes FsTreeEntry) (entry : FsTreeEntry)
  : result StoreError (gmap bytes FsTreeEntry) :=
  match by_path !! path entry with
  | Some existing =>
      if bool_decide (existing = entry) then Ok by_path
      else Err (SE_InvalidInput ("conflicting fs-tree entries at '" +:+ show (path entry) +:+ "': "
                                 +:+ fs_tree_merge_conflict_reason existing entry))
  | None => Ok (<[path entry := entry]> by_path)
  end.

(** [BTreeMap::into_values]: the values in key order. *)
Definition into_values (by_path : gmap bytes FsTreeEntry) : list FsTreeEntry :=
  map snd (sort_by fst (map_to_list by_path)).

Definition merge_manifests (manifests : list FsTreeManifest) : result StoreError FsTreeManifest :=
  if bool_decide (manifests = []) then
    Err (SE_InvalidInput "fs-tree merge requires at least one manifest")
  else
    by_path <- try_fold (fun by_path manifest => try_fold merge_entry by_path (entries manifest))
                 ∅ manifests ;;
    from_entries (into_values by_path).

(** ** Re-rooting *)

Definition reparent_entry (entry : FsTreeEntry) (p : bytes) : FsTreeEntry :=
  match entry with
  | EFile _ hash => EFile p hash
  | EDirectory _ uid gid mode => EDirectory p uid gid mode
  | ESymlink _ uid gid target => ESymlink p uid gid target
  end.

(** The body of the loop of [strip_prefix_manifest]; the state is [entries]
    and [moved_any]. *)
Definition strip_step (prefix : bytes) (st : list FsTreeEntry * bool) (entry : FsTreeEntry)
  : result StoreError (list FsTreeEntry * bool) :=
  let (es, moved_any) := st in
  let p := path entry in
  if bool_decide (p = []) then Ok (es ++ [entry], moved_any)
  else if bool_decide (prefix = p) || starts_with (p ++ [47]%Z) prefix then Ok (es, moved_any)
  else match strip_prefix (prefix ++ [47]%Z) p with
  | Some rest => Ok (es ++ [reparent_entry entry rest], true)
  | None =>
      Err (SE_InvalidInput ("fs-tree move: entry '" +:+ show p +:+ "' is outside strip_prefix '"
                            +:+ show prefix +:+ "'"))
  end.

Definition strip_prefix_manifest (manifest : FsTreeManifest) (prefix : bytes)
  : result StoreError FsTreeManifest :=
  if bool_decide (prefix = []) || starts_with [47]%Z prefix || ends_with [47]%Z prefix
     || existsb (fun c => bytes_eqb c [] || bytes_eqb c (lit ".") || bytes_eqb c (lit ".."))
          (split_on 47 prefix) then
    Err (SE_InvalidInput ("fs-tree move strip_prefix must be a non-empty relative path "
                          +:+ "without empty, '.', or '..' components: '" +:+ show prefix +:+ "'"))
  else
    let* (es, moved_any) := try_fold (strip_step prefix) ([], false) (entries manifest) in
    if negb moved_any then
      Err (SE_InvalidInput ("fs-tree move strip_prefix '" +:+ show prefix +:+ "' selected no paths"))
    else from_entries es.

(** ** Install rules *)

Record FsTreeInstallAttrs := mkInstallAttrs {
  ia_uid : option u32;
  ia_gid : option u32;
  directory_mode : option u32;
  regular_file_mode : option u32;
  executable_file_mode : option u32;
}.

(** [FsTreeInstallAttrs::default]. *)
Definition default_attrs : FsTreeInstallAttrs := mkInstallAttrs None None None None None.

Record FsTreeInstallRule := mkInstallRule { ir_path : bytes; ir_attrs : FsTreeInstallAttrs }.

(** [FsTreeInstall] is its list of rules. *)
Record FsTreeInstall := mkInstall { rules : list FsTreeInstallRule }.

(** [if let Some(x) = new { self.field = Some(x) }]. *)
Definition overlay_field (new old : option u32) : option u32 :=
  match new with Some x => Some x | None => old end.

Definition overlay (self attrs : FsTreeInstallAttrs) : FsTreeInstallAttrs :=
  {| ia_uid := overlay_field (ia_uid attrs) (ia_uid self);
     ia_gid := overlay_field (ia_gid attrs) (ia_gid self);
     directory_mode := overlay_field (directory_mode attrs) (directory_mode self);
     regular_file_mode := overlay_field (regular_file_mode attrs) (regular_file_mode self);
     executable_file_mode :=
       overlay_field (executable_file_mode attrs) (executable_file_mode self) |}.

Definition validate_optional_mode (label : string) (mode : option u32) : result StoreError unit :=
  match mode with Some mode => validate_mode label mode | None => Ok tt end.

Definition validate_install_rule_attrs (rule : FsTreeInstallRule) : result StoreError unit :=
  let in_rule := " in install rule '" +:+ show (ir_path rule) +:+ "'" in
  validate_optional_mode ("directory_mode" +:+ in_rule) (directory_mode (ir_attrs rule)) ;;;
  validate_optional_mode ("regular_file_mode" +:+ in_rule) (regular_file_mode (ir_attrs rule)) ;;;
  validate_optional_mode ("executable_file_mode" +:+ in_rule)
    (executable_file_mode (ir_attrs rule)) ;;;
  Ok tt.

Definition required_install_attr (value : option u32) (rel_path : bytes) (name : string)
  : result StoreError u32 :=
  ok_or value (SE_InvalidInput ("fs-tree path '" +:+ show rel_path +:+ "' is missing resolved "
                                +:+ name)).

Section Install.
Context {glob : GlobApi}.

Record CompiledFsTreeInstallRule := mkCompiledRule {
  cr_pattern : bytes;
  cr_matcher : GlobMatcher;
  cr_attrs : FsTreeInstallAttrs;
}.

Definition compile_fs_tree_install_rule (rule : FsTreeInstallRule)
  : result StoreError CompiledFsTreeInstallRule :=
  validate_install_rule_attrs rule ;;;
  g <- map_err (fun error =>
         SE_InvalidInput ("invalid fs-tree install rule pattern '" +:+ show (ir_path rule)
                          +:+ "': " +:+ error)) (glob_new (ir_path rule)) ;;
  Ok (mkCompiledRule (ir_path rule) (compile_matcher g) (ir_attrs rule)).

Definition compile_fs_tree_install_rules (install : FsTreeInstall)
  : result StoreError (list CompiledFsTreeInstallRule) :=
  if bool_decide (rules install = []) then
    Err (SE_InvalidInput "fs-tree install rules must contain at least one rule")
  else try_map compile_fs_tree_install_rule (rules install).

Definition install_rule_matches (rule : CompiledFsTreeInstallRule) (rel_path : bytes) : bool :=
  if is_match (cr_matcher rule) rel_path then true
  else if bool_decide (rel_path = []) && bytes_eqb (cr_pattern rule) (lit "**") then true
  else match strip_suffix (lit "/**") (cr_pattern rule) with
  | Some prefix => bytes_eqb rel_path prefix
  | None => false
  end.

(** The loop of [resolve_fs_tree_install_attrs]; the state is [resolved] and
    [matched_any]. *)
Definition resolve_step (rel_path : bytes) (st : FsTreeInstallAttrs * bool)
  (rule : CompiledFsTreeInstallRule) : FsTreeInstallAttrs * bool :=
  if install_rule_matches rule rel_path then (overlay st.1 (cr_attrs rule), true) else st.

Definition resolve_fs_tree_install_attrs (rel_path : bytes)
  (rules : list CompiledFsTreeInstallRule) : result StoreError FsTreeInstallAttrs :=
  let (resolved, matched_any) := fold_left (resolve_step rel_path) rules (default_attrs, false) in
  if matched_any then Ok resolved
  else
    let known := show (join_with (lit ", ") (map cr_pattern rules)) in
    Err (SE_InvalidInput ("fs-tree path '" +:+ show rel_path
                          +:+ "' is not covered by any install rule (known patterns: " +:+ known
                          +:+ ")")).
End Install.

(** ** Entries by path *)

Lemma path_unique es e f :
  NoDup (map path es) -> e ∈ es -> f ∈ es -> path e = path f -> e = f.
Proof.
  intros Hnd He Hf Hp. induction es as [|x es IH]; [by apply not_elem_of_nil in He|].
  cbn [map] in Hnd. apply NoDup_cons in Hnd as [Hni Hnd].
  apply elem_of_cons in He as [->|He]; apply elem_of_cons in Hf as [->|Hf]; auto.
  - destruct Hni. rewrite Hp. by apply list_elem_of_fmap_2.
  - destruct Hni. rewrite <- Hp. by apply list_elem_of_fmap_2.
Qed.

Lemma nodup_of_paths es : NoDup (map path es) -> NoDup es.
Proof. apply NoDup_fmap_1. Qed.

(** Two manifests with the same entries are equal. *)
Lemma manifest_ext m m' :
  wf_manifest m -> wf_manifest m' -> (forall e, e ∈ entries m <-> e ∈ entries m') -> m = m'.
Proof.
  intros [Hs Hc] [Hs' Hc'] H. destruct m as [es], m' as [es']. simpl in *. f_equal.
  apply (sorted_perm_unique path); [done..|].
  apply NoDup_Permutation; [apply nodup_of_paths, Hc|apply nodup_of_paths, Hc'|done].
Qed.

(** [from_entries] on a list without repetition, told by its elements. *)
Lemma from_entries_set es m :
  NoDup es ->
  from_entries es = Ok m <-> wf_manifest m /\ forall e, e ∈ entries m <-> e ∈ es.
Proof.
  intros Hnd. split.
  - intros H. destruct (from_entries_wf es m H) as [Hw Hp]. split; [done|].
    intros e. by rewrite Hp.
  - intros [[Hs Hc] H].
    assert (Hp : entries m ≡ₚ es).
    { apply NoDup_Permutation; [apply nodup_of_paths, Hc|done|done]. }
    by apply from_entries_of_perm.
Qed.

(** ** Merge *)

(** Every key of the map is the path of its entry. *)
Definition keyed (by_path : gmap bytes FsTreeEntry) : Prop :=
  forall p e, by_path !! p = Some e -> path e = p.

Lemma into_values_elem by_path e :
  keyed by_path -> e ∈ into_values by_path <-> by_path !! path e = Some e.
Proof.
  intros Hk. unfold into_values. rewrite sort_by_perm. split.
  - intros Hin. apply list_elem_of_fmap in Hin as ([p x] & -> & Hin).
    apply elem_of_map_to_list in Hin. simpl. by rewrite (Hk _ _ Hin).
  - intros Hl. apply list_elem_of_fmap. exists (path e, e). split; [done|].
    by apply elem_of_map_to_list.
Qed.

Lemma into_values_nodup by_path : keyed by_path -> NoDup (into_values by_path).
Proof.
  intros Hk. apply nodup_of_paths. unfold into_values. rewrite sort_by_perm.
  assert (E : map path (map snd (map_to_list by_path)) = map fst (map_to_list by_path)).
  { rewrite map_map. apply map_ext_in. intros [p e] Hin. simpl. apply Hk.
    apply elem_of_map_to_list. by apply list_elem_of_In. }
  rewrite E. apply NoDup_fst_map_to_list.
Qed.

(** [agrees by_path es]: no entry of [es] conflicts with the map or with
    another entry of [es]. *)
Definition compatible (es : list FsTreeEntry) : Prop :=
  forall e f, e ∈ es -> f ∈ es -> path e = path f -> e = f.

(** The map holds exactly the entries of [es]. *)
Definition represents (by_path : gmap bytes FsTreeEntry) (es : list FsTreeEntry) : Prop :=
  keyed by_path /\ forall e, by_path !! path e = Some e <-> e ∈ es.

Lemma merge_entry_represents by_path done_ e :
  represents by_path done_ ->
  match merge_entry by_path e with
  | Ok by_path' => represents by_path' (done_ ++ [e])
  | Err _ => ~ compatible (done_ ++ [e])
  end.
Proof.
  intros [Hk Hr]. unfold merge_entry. destruct (by_path !! path e) as [x|] eqn:E.
  - destruct (bool_decide (x = e)) eqn:Ex; bools.
    + subst x. split; [done|]. intros f. rewrite Hr. rewrite elem_of_app, list_elem_of_singleton.
      split; [tauto|]. intros [?| ->]; [done|by apply Hr].
    + intros Hc. apply Ex. apply Hc.
      * apply elem_of_app. left. apply Hr. by rewrite (Hk _ _ E).
      * apply elem_of_app. right. by apply list_elem_of_singleton.
      * by apply Hk.
  - split.
    + intros p f Hl. destruct (decide (p = path e)) as [->|Hne].
      * rewrite lookup_insert_eq in Hl. congruence.
      * rewrite lookup_insert_ne in Hl by congruence. by apply Hk.
    + intros f. rewrite elem_of_app, list_elem_of_singleton, <- Hr.
      destruct (decide (path f = path e)) as [Hp|Hne].
      * rewrite Hp, lookup_insert_eq, E. split; [intros [= ->]; by right|]. by intros [?| ->].
      * rewrite lookup_insert_ne by congruence. split; [tauto|]. intros [?| ->]; [done|congruence].
Qed.

Lemma merge_entries_represents by_path done_ es :
  represents by_path done_ ->
  match try_fold merge_entry by_path es with
  | Ok by_path' => represents by_path' (done_ ++ es)
  | Err _ => ~ compatible (done_ ++ es)
  end.
Proof.
  revert by_path done_. induction es as [|e es IH]; intros by_path done_ Hr; simpl.
  { by rewrite app_nil_r. }
  pose proof (merge_entry_represents by_path done_ e Hr) as H.
  replace (done_ ++ e :: es) with ((done_ ++ [e]) ++ es) by by rewrite <- app_assoc.
  destruct (merge_entry by_path e) as [by_path'|]; [by apply IH|].
  intros Hc. apply H. intros x y Hx Hy. apply Hc; apply elem_of_app; by left.
Qed.

Lemma merge_loop by_path ms :
  try_fold (fun by_path manifest => try_fold merge_entry by_path (entries manifest)) by_path ms =
  try_fold merge_entry by_path (concat (map entries ms)).
Proof.
  revert by_path. induction ms as [|m ms IH]; intros by_path; simpl; [done|].
  rewrite try_fold_app. destruct (try_fold merge_entry by_path (entries m)); [apply IH|done].
Qed.

Lemma represents_empty : represents ∅ [].
Proof.
  split; [intros p e; by rewrite lookup_empty|]. intros e. rewrite lookup_empty.
  split; [done|]. intros H. by apply not_elem_of_nil in H.
Qed.

Lemma represents_compatible by_path es : represents by_path es -> compatible es.
Proof.
  intros [Hk Hr] e f He Hf Hp. apply Hr in He. apply Hr in Hf. congruence.
Qed.

Lemma elem_of_inputs ms e :
  e ∈ concat (map entries ms) <-> exists mi, mi ∈ ms /\ e ∈ entries mi.
Proof.
  rewrite list_elem_of_In, in_concat. split.
  - intros (l & Hl & He). apply in_map_iff in Hl as (mi & <- & Hmi).
    exists mi. by rewrite !list_elem_of_In.
  - intros (mi & Hmi & He). exists (entries mi). rewrite <- !list_elem_of_In in *.
    split; [by apply list_elem_of_fmap_2|done].
Qed.

Lemma is_dir_union (ms : list FsTreeManifest) es mi p :
  (forall e, e ∈ es <-> exists mi, mi ∈ ms /\ e ∈ entries mi) ->
  mi ∈ ms -> is_dir (entries mi) p -> is_dir es p.
Proof. intros Hes Hmi (u & g & md & H). exists u, g, md. apply Hes. by exists mi. Qed.

(** The union of compatible closed trees is a closed tree. *)
Lemma union_closed (ms : list FsTreeManifest) es :
  ms <> [] -> Forall wf_manifest ms -> NoDup es -> compatible es ->
  (forall e, e ∈ es <-> exists mi, mi ∈ ms /\ e ∈ entries mi) -> closed_tree es.
Proof.
  intros Hne Hwf Hnd Hcomp Hes. rewrite Forall_forall in Hwf. split; [|split; [|split]].
  - apply Forall_forall. intros e He. apply Hes in He as (mi & Hmi & He).
    destruct (Hwf _ Hmi) as [_ [Hok _]]. rewrite Forall_forall in Hok. auto.
  - clear -Hnd Hcomp. induction Hnd as [|e es Hni Hnd IH]; cbn [map]; constructor.
    + intros Hin. apply list_elem_of_fmap in Hin as (f & Hp & Hf).
      assert (e = f) as -> by (apply Hcomp; [left|by right|done]). done.
    + apply IH. intros x y Hx Hy. apply Hcomp; by right.
  - destruct ms as [|mi ms]; [done|]. assert (Hmi : mi ∈ mi :: ms) by left.
    destruct (Hwf _ Hmi) as [_ (_ & _ & Hroot & _)]. by eapply is_dir_union.
  - intros e He Hp. apply Hes in He as (mi & Hmi & He).
    destruct (Hwf _ Hmi) as [_ (_ & _ & _ & Hpar)]. eapply is_dir_union; eauto.
Qed.

(** [merge_manifests] computes the union of well-formed manifests: it
    succeeds exactly when there is a manifest to merge and no two inputs hold
    different entries at one path, and the entries of the well-formed result
    are those of the inputs, whatever their order and repetition. *)
Theorem merge_manifests_union ms :
  Forall wf_manifest ms ->
  let compatible_inputs := forall mi mj e f, mi ∈ ms -> mj ∈ ms -> e ∈ entries mi ->
                             f ∈ entries mj -> path e = path f -> e = f in
  match merge_manifests ms with
  | Ok m => compatible_inputs /\ wf_manifest m /\
            forall e, e ∈ entries m <-> exists mi, mi ∈ ms /\ e ∈ entries mi
  | Err _ => ms = [] \/ ~ compatible_inputs
  end.
Proof.
  intros Hwf ci. unfold merge_manifests. destruct (bool_decide (ms = [])) eqn:E; bools; [by left|].
  rewrite merge_loop.
  pose proof (merge_entries_represents ∅ [] (concat (map entries ms)) represents_empty) as Hm.
  simpl in Hm. pose proof (elem_of_inputs ms) as Hes. set (es := concat (map entries ms)) in *.
  assert (Hci : compatible es <-> ci).
  { split.
    - intros H mi mj e f Hi Hj He Hf. apply H; apply Hes; [by exists mi|by exists mj].
    - intros H e f He Hf. apply Hes in He as (mi & ? & ?), Hf as (mj & ? & ?). by apply (H mi mj). }
  destruct (try_fold merge_entry ∅ es) as [by_path|]; [|right; by rewrite <- Hci].
  pose proof (represents_compatible _ _ Hm) as Hcomp. destruct Hm as [Hk Hr].
  assert (Hv : forall e, e ∈ into_values by_path <-> exists mi, mi ∈ ms /\ e ∈ entries mi).
  { intros e. by rewrite into_values_elem, Hr, Hes. }
  assert (Hc : closed_tree (into_values by_path)).
  { apply (union_closed ms); [done|done|by apply into_values_nodup| |done].
    intros e f He Hf. apply Hcomp; apply Hes, Hv; done. }
  destruct (from_entries (into_values by_path)) as [m|err] eqn:Ef.
  - split; [by apply Hci|]. apply from_entries_set in Ef as [Hm Hme]; [|by apply into_values_nodup].
    split; [done|]. intros e. by rewrite Hme, Hv.
  - pose proof (proj2 (from_entries_iff _ (mkFsTreeManifest _)) (conj Hc eq_refl)). congruence.
Qed.

(** ** Ancestors of a path *)

(** [a] is a proper ancestor of [p]: [p] starts with [a/]. *)
Definition under (a p : bytes) : Prop := exists r, p = a ++ 47%Z :: r.

Lemma rsplit_once_none l : rsplit_once 47 l = None <-> 47%Z ∉ l.
Proof.
  induction l as [|x l IH]; cbn [rsplit_once]; [split; [intros _; apply not_elem_of_nil|done]|].
  rewrite not_elem_of_cons, <- IH. destruct (rsplit_once 47 l) as [[a b]|]; [split; [done|by intros []]|].
  destruct (x =? 47)%Z eqn:E; bools.
  - subst. split; [done|by intros []].
  - split; [|done]. intros _. split; congruence.
Qed.

Lemma rsplit_once_app a b : 47%Z ∉ b -> rsplit_once 47 (a ++ 47%Z :: b) = Some (a, b).
Proof.
  intros Hb. induction a as [|x a IH]; cbn [app rsplit_once].
  - apply rsplit_once_none in Hb. by rewrite Hb.
  - by rewrite IH.
Qed.

Lemma rsplit_once_some l a b : rsplit_once 47 l = Some (a, b) -> l = a ++ 47%Z :: b /\ 47%Z ∉ b.
Proof.
  revert a. induction l as [|x l IH]; intros a; cbn [rsplit_once]; [done|].
  destruct (rsplit_once 47 l) as [[a' b']|] eqn:E.
  - intros [= <- <-]. destruct (IH a' eq_refl) as [-> Hb]. done.
  - destruct (x =? 47)%Z eqn:Ex; [|done]. bools. intros [= <- <-]. subst x.
    split; [done|]. by apply rsplit_once_none.
Qed.

Lemma not_under_none p a : rsplit_once 47 p = None -> ~ under a p.
Proof.
  intros Hn [r ->]. apply rsplit_once_none in Hn. apply Hn, elem_of_app. right. left.
Qed.

(** The ancestors of a path are its parent and the ancestors of its parent. *)
Lemma under_parent p a b c :
  rsplit_once 47 p = Some (a, b) -> under c p <-> c = a \/ under c a.
Proof.
  intros Hr. apply rsplit_once_some in Hr as [-> Hb]. split.
  - intros [r Hr]. destruct (app_eq_app _ _ _ _ Hr) as (l & [[-> Hl]|[-> Hl]]).
    + destruct l as [|y l]; simpl in Hl; [left; by rewrite app_nil_r|].
      right. injection Hl as <- _. exists l. done.
    + destruct l as [|y l]; simpl in Hl; [left; by rewrite app_nil_r|].
      injection Hl as <- ->. destruct Hb. apply elem_of_app. right. left.
  - intros [->|[r ->]]; [by eexists|]. exists (r ++ 47%Z :: b). by rewrite <- app_assoc.
Qed.

Lemma parent_path_some p a b : rsplit_once 47 p = Some (a, b) -> parent_path p = a.
Proof. unfold parent_path. by intros ->. Qed.

(** In a closed tree every ancestor of an entry is a directory. *)
Lemma ancestors_are_dirs es p a :
  closed_tree es -> p ∈ map path es -> under a p -> is_dir es a.
Proof.
  intros (_ & _ & Hroot & Hpar).
  assert (Hgen : forall n p, (length p <= n)%nat -> p ∈ map path es -> under a p -> is_dir es a).
  { induction n as [|n IH]; intros p' Hn Hp Hu.
    - destruct p'; [|simpl in Hn; lia]. destruct Hu as [r Hr]. by destruct a.
    - destruct (rsplit_once 47 p') as [[pa pb]|] eqn:E; [|by apply not_under_none with (a := a) in E].
      pose proof (rsplit_once_some _ _ _ E) as [Ep _].
      apply list_elem_of_fmap in Hp as (e & Ee & He).
      assert (Hd : is_dir es pa).
      { rewrite <- (parent_path_some _ _ _ E), Ee. apply Hpar; [done|].
        rewrite <- Ee, Ep. by destruct pa. }
      destruct (proj1 (under_parent _ _ _ a E) Hu) as [Ha|Hu']; [by rewrite Ha|].
      apply (IH pa); [|by apply is_dir_path|done].
      rewrite Ep, length_app in Hn. simpl in Hn. lia. }
  by apply (Hgen (length p)).
Qed.

(** ** Subset *)

Lemma collect_by_path_spec (es : list FsTreeEntry) (acc : gmap bytes FsTreeEntry) p e :
  NoDup (map path es) -> e ∈ es -> path e = p ->
  fold_left (fun m e => <[path e := e]> m) es acc !! p = Some e.
Proof.
  intros Hnd He <-. assert (Hout : forall l (m : gmap bytes FsTreeEntry), path e ∉ map path l ->
    fold_left (fun m e => <[path e := e]> m) l m !! path e = m !! path e).
  { induction l as [|x l IH]; intros m Hni; cbn [fold_left map] in *; [done|].
    apply not_elem_of_cons in Hni as [Hx Hl]. rewrite IH by done.
    by rewrite lookup_insert_ne by congruence. }
  revert acc. induction es as [|x es IH]; intros acc; [by apply not_elem_of_nil in He|].
  cbn [fold_left map] in *. apply NoDup_cons in Hnd as [Hni Hnd].
  apply elem_of_cons in He as [->|He]; [|by apply IH].
  rewrite Hout by done. by rewrite lookup_insert_eq.
Qed.

Section SubsetFacts.
Context {glob : GlobApi}.

Lemma add_parents_loop_ok es p fuel remainder selected :
  closed_tree es -> (length remainder <= fuel)%nat -> remainder ∈ map path es ->
  exists selected', add_parents_loop fuel p (collect_by_path es) remainder selected = Ok selected' /\
    forall x, x ∈ selected' <-> x ∈ selected \/ under x remainder.
Proof.
  intros Hc. revert remainder selected. induction fuel as [|fuel IH]; intros remainder selected Hf Hin.
  { destruct remainder; [|simpl in Hf; lia]. exists selected. split; [done|]. intros x.
    split; [tauto|]. intros [?|[r Hr]]; [done|]. by destruct x. }
  cbn [add_parents_loop]. destruct (rsplit_once 47 remainder) as [[a b]|] eqn:E.
  2:{ exists selected. split; [done|]. intros x. split; [tauto|].
      intros [?|Hu]; [done|]. by apply not_under_none in Hu. }
  assert (Hd : is_dir es a).
  { eapply ancestors_are_dirs; [done..|]. apply (under_parent _ _ _ _ E). by left. }
  pose proof (is_dir_path _ _ Hd) as Ha. destruct Hd as (u & g & m & Hd).
  unfold collect_by_path. rewrite (collect_by_path_spec es ∅ a _ (proj1 (proj2 Hc)) Hd eq_refl).
  pose proof (rsplit_once_some _ _ _ E) as [Er _].
  destruct (IH a ({[a]} ∪ selected)) as (sel & Hsel & Hx); [|done|].
  { rewrite Er, length_app in Hf. simpl in Hf. lia. }
  exists sel. split; [done|]. intros x. rewrite Hx, elem_of_union, elem_of_singleton.
  rewrite (under_parent _ _ _ x E). tauto.
Qed.

(** The entries the patterns select: [subset_manifest] never selects the root
    as payload. *)
Definition payload (ps : list CompiledFsTreeSubsetPattern) (e : FsTreeEntry) : Prop :=
  path e <> [] /\ fs_tree_subset_path_matches (path e) ps = true.

Lemma subset_step_ok es ps selected e :
  closed_tree es -> e ∈ es ->
  exists selected', subset_step ps (collect_by_path es) selected e = Ok selected' /\
    forall x, x ∈ selected' <->
      x ∈ selected \/ (payload ps e /\ (x = [] \/ x = path e \/ under x (path e))).
Proof.
  intros Hc He. unfold subset_step, payload. destruct (bool_decide (path e = [])) eqn:E; bools.
  { exists selected. split; [done|]. intros x. tauto. }
  destruct (fs_tree_subset_path_matches (path e) ps).
  - unfold add_fs_tree_subset_parent_dirs.
    destruct (add_parents_loop_ok es (path e) (length (path e)) (path e)
      ({[ [] ]} ∪ ({[path e]} ∪ selected)) Hc) as (sel & Hsel & Hx); [lia|by apply list_elem_of_fmap_2|].
    exists sel. split; [done|]. intros x.
    rewrite Hx, !elem_of_union, !elem_of_singleton. tauto.
  - exists selected. split; [done|]. intros x. split; [tauto|]. by intros [?|[[_ ?] _]].
Qed.

Lemma subset_loop_ok es ps l selected :
  closed_tree es -> (forall e, e ∈ l -> e ∈ es) ->
  exists selected', try_fold (subset_step ps (collect_by_path es)) selected l = Ok selected' /\
    forall x, x ∈ selected' <->
      x ∈ selected \/
      exists e, e ∈ l /\ payload ps e /\ (x = [] \/ x = path e \/ under x (path e)).
Proof.
  intros Hc. revert selected. induction l as [|e l IH]; intros selected Hl; cbn [try_fold].
  { exists selected. split; [done|]. intros x. split; [tauto|].
    intros [?|(e & He & _)]; [done|]. by apply not_elem_of_nil in He. }
  destruct (subset_step_ok es ps selected e Hc) as (s1 & -> & H1); [apply Hl; left|].
  destruct (IH s1) as (s2 & -> & H2); [intros; apply Hl; by right|].
  exists s2. split; [done|]. intros x. rewrite H2, H1. setoid_rewrite elem_of_cons. naive_solver.
Qed.

(** The selected entries of a closed tree, with their ancestors, are closed. *)
Definition kept (es : list FsTreeEntry) (ps : list CompiledFsTreeSubsetPattern) (x : bytes) : Prop :=
  exists e, e ∈ es /\ payload ps e /\ (x = [] \/ x = path e \/ under x (path e)).

Lemma kept_parent es ps e :
  closed_tree es -> path e <> [] -> kept es ps (path e) -> kept es ps (parent_path (path e)).
Proof.
  intros Hc Hne (f & Hf & Hp & [?|Hu]); [done|]. exists f. split; [done|]. split; [done|].
  unfold parent_path. destruct (rsplit_once 47 (path e)) as [[a b]|] eqn:E; [|by left].
  pose proof (proj2 (under_parent _ _ _ a E) (or_introl eq_refl)) as Ha.
  right. right. destruct Hu as [<-|[r Hr]]; [done|]. destruct Ha as [r' Hr'].
  exists (r' ++ 47%Z :: r). by rewrite Hr, Hr', <- app_assoc.
Qed.

Lemma kept_closed (es : list FsTreeEntry) (ps : list CompiledFsTreeSubsetPattern) (sel : gset bytes) :
  closed_tree es -> (forall x, x ∈ sel <-> kept es ps x) -> sel ≢ ∅ ->
  closed_tree (filter (fun e => path e ∈ sel) es).
Proof.
  intros Hc Hsel Hne. pose proof Hc as (He & Hnd & Hroot & Hpar).
  assert (Hdir : forall p, p ∈ sel -> is_dir es p -> is_dir (filter (fun e => path e ∈ sel) es) p).
  { intros p Hp (u & g & m & Hin). exists u, g, m. by apply list_elem_of_filter. }
  split; [|split; [|split]].
  - rewrite Forall_forall in He |- *. intros e Hin. apply list_elem_of_filter in Hin as [_ Hin]. auto.
  - clear -Hnd. induction es as [|e es IH]; [constructor|]. cbn [map] in Hnd.
    apply NoDup_cons in Hnd as [Hni Hnd]. rewrite filter_cons. destruct (decide _); [|auto].
    cbn [map]. apply NoDup_cons. split; [|auto]. intros Hin. apply Hni.
    apply list_elem_of_fmap in Hin as (x & -> & Hx). apply list_elem_of_filter in Hx as [_ Hx].
    by apply list_elem_of_fmap_2.
  - apply Hdir; [|done]. apply Hsel. apply set_choose in Hne as [x Hx].
    apply Hsel in Hx as (e & ? & ? & _). exists e. tauto.
  - intros e Hin Hp. apply list_elem_of_filter in Hin as [Hs Hin]. apply Hdir; [|auto].
    apply Hsel. apply Hsel in Hs. by apply kept_parent.
Qed.
End SubsetFacts.

Lemma kept_iff `{GlobApi} es ps e :
  closed_tree es -> e ∈ es -> (exists f, f ∈ es /\ payload ps f) ->
  kept es ps (path e) <->
  path e = [] \/ payload ps e \/ exists f, f ∈ es /\ payload ps f /\ under (path e) (path f).
Proof.
  intros (_ & Hnd & _) He (f0 & Hf0 & Hp0). split.
  - intros (f & Hf & Hp & [?|[Hpe|Hu]]); [by left| |right; right; by exists f].
    right. left. by rewrite (path_unique es e f).
  - intros [Hr|[Hp|(f & Hf & Hp & Hu)]].
    + exists f0. tauto.
    + exists e. tauto.
    + exists f. tauto.
Qed.

(** On a well-formed manifest with compiled include patterns,
    [subset_manifest] succeeds exactly when the patterns select some non-root
    path, and then its result is the well-formed manifest whose entries are
    the selected ones, all their ancestor directories and the root, unchanged. *)
Theorem subset_manifest_spec `{GlobApi} m include ps :
  wf_manifest m -> compile_fs_tree_subset_patterns include = Ok ps ->
  match subset_manifest m include with
  | Ok m' =>
      (exists e, e ∈ entries m /\ payload ps e) /\ wf_manifest m' /\
      forall e, e ∈ entries m' <->
        e ∈ entries m /\
        (path e = [] \/ payload ps e \/
         exists f, f ∈ entries m /\ payload ps f /\ under (path e) (path f))
  | Err _ => ~ exists e, e ∈ entries m /\ payload ps e
  end.
Proof.
  intros [Hs Hc] Hps. unfold subset_manifest. rewrite Hps. set (es := entries m) in *.
  destruct (subset_loop_ok es ps es ∅ Hc) as (sel & -> & Hsel); [done|].
  assert (Hk : forall x, x ∈ sel <-> kept es ps x).
  { intros x. rewrite Hsel. split; [by intros [?%elem_of_empty|]|by right]. }
  clear Hsel. destruct (existsb _ (elements sel)) eqn:Ex; cbn [negb].
  - apply existsb_exists in Ex as (x & Hx & _). apply list_elem_of_In, elem_of_elements in Hx.
    assert (Hex : exists e, e ∈ es /\ payload ps e).
    { apply Hk in Hx. destruct Hx as (e & ? & ? & _). by exists e. }
    pose proof (kept_closed es ps sel Hc Hk ltac:(set_solver)) as Hcl.
    destruct (from_entries _) as [m'|err] eqn:Ef.
    + apply from_entries_set in Ef as [Hm Hme]; [|apply NoDup_filter, nodup_of_paths, Hc].
      split; [done|]. split; [done|]. intros e. rewrite Hme, list_elem_of_filter, Hk.
      pose proof (fun He => kept_iff es ps e Hc He Hex). tauto.
    + pose proof (proj2 (from_entries_iff _ (mkFsTreeManifest _)) (conj Hcl eq_refl)). congruence.
  - intros (e & He & Hp).
    assert (Hin : In (path e) (elements sel)).
    { apply list_elem_of_In, elem_of_elements, Hk. exists e. tauto. }
    assert (existsb (fun p => negb (bool_decide (p = []))) (elements sel) = true); [|congruence].
    apply existsb_exists. exists (path e). split; [done|].
    rewrite bool_decide_eq_false_2; [done|apply Hp].
Qed.

(** ** Re-rooting *)

Lemma reparent_path e p : path (reparent_entry e p) = p.
Proof. by destruct e. Qed.

Lemma reparent_dir e p u g m :
  reparent_entry e p = EDirectory p u g m <-> e = EDirectory (path e) u g m.
Proof. destruct e; simpl; split; congruence. Qed.

(** [utf8] texts split at an ASCII byte. *)
Lemma utf8_split l r b cs :
  (0 <= b < 128)%Z -> utf8 (l ++ b :: r) cs ->
  exists cs1 cs2, cs = cs1 ++ b :: cs2 /\ utf8 l cs1 /\ utf8 r cs2.
Proof.
  intros Hb H. remember (l ++ b :: r) as t eqn:Et. revert l Et.
  induction H as [|x t cs Hx Ht IH|s c t cs Hm Ht IH]; intros l Et.
  - by destruct l.
  - destruct l as [|y l]; simpl in Et; injection Et as -> ->.
    + exists [], cs. split; [done|]. split; [apply utf8_nil|done].
    + destruct (IH l eq_refl) as (cs1 & cs2 & -> & H1 & H2).
      exists (y :: cs1), cs2. split; [done|]. split; [by apply utf8_ascii|done].
  - destruct (app_eq_app _ _ _ _ Et) as (k & [[-> Hk]|[-> Hk]]).
    + destruct k as [|y k]; simpl in Hk.
      * rewrite app_nil_r in *. subst t. destruct (IH [] eq_refl) as (cs1 & cs2 & -> & H1 & H2).
        apply utf8_chars_iff in H1. cbn in H1. injection H1 as <-.
        exists [c], cs2. split; [done|]. split; [|done].
        rewrite <- (app_nil_r l). apply utf8_multi; [done|apply utf8_nil].
      * injection Hk as -> _. destruct Hm as (_ & Hm & _). apply Forall_app in Hm as [_ Hm].
        apply Forall_cons in Hm as [? _]. lia.
    + destruct (IH k Hk) as (cs1 & cs2 & -> & H1 & H2). exists (c :: cs1), cs2.
      split; [done|]. split; [by apply utf8_multi|done].
Qed.

Lemma plain_suffix a r : plain_text (a ++ 47%Z :: r) -> plain_text r.
Proof.
  intros [Hu Hc]. apply is_utf8_iff in Hu as [cs Hu].
  pose proof (proj2 (utf8_chars_iff _ _) Hu) as Hd. unfold has_control in Hc. rewrite Hd in Hc.
  apply (utf8_split a r 47 cs) in Hu as (cs1 & cs2 & -> & H1 & H2); [|lia].
  rewrite existsb_app in Hc. simpl in Hc. bools.
  split; [apply is_utf8_iff; by exists cs2|].
  apply utf8_chars_iff in H2. unfold has_control. by rewrite H2.
Qed.

Section Strip.
Variable prefix : bytes.

(** The entries a well-formed stage may hold: the root, the prefix and its
    ancestors, and what lies under the prefix. *)
Definition inside (e : FsTreeEntry) : Prop :=
  path e = [] \/ path e = prefix \/ under (path e) prefix \/ under prefix (path e).

(** What the loop does with one entry. *)
Definition moved (e : FsTreeEntry) : option FsTreeEntry :=
  if bool_decide (path e = []) then Some e
  else if bool_decide (prefix = path e) || starts_with (path e ++ [47]%Z) prefix then None
  else match strip_prefix (prefix ++ [47]%Z) (path e) with
       | Some rest => Some (reparent_entry e rest)
       | None => None
       end.

Lemma starts_with_under p l : starts_with (p ++ [47]%Z) l = true <-> under p l.
Proof.
  unfold starts_with, under. destruct (strip_prefix (p ++ [47]%Z) l) as [r|] eqn:E.
  - apply strip_prefix_some in E. rewrite <- app_assoc in E. split; [|done]. intros _. by exists r.
  - split; [done|]. intros [r ->].
    replace (p ++ 47%Z :: r) with ((p ++ [47]%Z) ++ r) in E by by rewrite <- app_assoc.
    by rewrite strip_prefix_app in E.
Qed.

Lemma under_asym a b : under a b -> ~ under b a.
Proof.
  intros [r Hr] [r' Hr']. apply (f_equal length) in Hr, Hr'.
  rewrite !length_app in *. simpl in *. lia.
Qed.

Lemma under_irrefl a : ~ under a a.
Proof. intros H. by apply (under_asym a a). Qed.

Lemma moved_nested e rest :
  path e = prefix ++ 47%Z :: rest -> moved e = Some (reparent_entry e rest).
Proof.
  intros Hp. unfold moved. rewrite bool_decide_eq_false_2 by (rewrite Hp; by destruct prefix).
  assert (Hu : under prefix (path e)) by by exists rest.
  rewrite bool_decide_eq_false_2 by (intros E; rewrite <- E in Hu; by apply under_irrefl in Hu).
  destruct (starts_with (path e ++ [47]%Z) prefix) eqn:E.
  { apply starts_with_under in E. by apply under_asym in E. }
  cbn [orb]. by rewrite (proj2 (strip_prefix_some (prefix ++ [47]%Z) (path e) rest))
    by by rewrite <- app_assoc.
Qed.

Lemma strip_step_spec st e :
  match strip_step prefix st e with
  | Ok st' => inside e /\ st'.1 = st.1 ++ (match moved e with Some x => [x] | None => [] end) /\
              (st'.2 = true <-> st.2 = true \/ under prefix (path e))
  | Err _ => ~ inside e
  end.
Proof.
  destruct st as [acc flag]. unfold strip_step, moved, inside.
  destruct (bool_decide (path e = [])) eqn:E0; bools.
  { rewrite E0. cbn [fst snd]. split; [tauto|]. split; [done|]. split; [tauto|].
    intros [?|[r Hr]]; [done|]. by destruct prefix. }
  destruct (bool_decide (prefix = path e)) eqn:E1; cbn [orb]; bools.
  { rewrite app_nil_r. cbn [fst snd]. split; [right; left; congruence|]. split; [done|].
    split; [tauto|]. intros [?|Hu]; [done|]. rewrite <- E1 in Hu. by apply under_irrefl in Hu. }
  destruct (starts_with (path e ++ [47]%Z) prefix) eqn:E2.
  { apply starts_with_under in E2. rewrite app_nil_r. cbn [fst snd]. split; [tauto|].
    split; [done|]. split; [tauto|]. intros [?|Hu]; [done|]. by apply under_asym in Hu. }
  destruct (strip_prefix (prefix ++ [47]%Z) (path e)) as [rest|] eqn:E3.
  - apply strip_prefix_some in E3. rewrite <- app_assoc in E3. cbn [fst snd].
    assert (under prefix (path e)) by by exists rest. tauto.
  - intros [?|[?|[Hu|[r Hr]]]]; [done|congruence| |].
    + apply starts_with_under in Hu. congruence.
    + replace (prefix ++ 47%Z :: r) with ((prefix ++ [47]%Z) ++ r) in Hr by by rewrite <- app_assoc.
      by rewrite Hr, strip_prefix_app in E3.
Qed.

Lemma strip_loop es acc flag :
  match try_fold (strip_step prefix) (acc, flag) es with
  | Ok (es', moved_any) =>
      Forall inside es /\ es' = acc ++ omap moved es /\
      (moved_any = true <-> flag = true \/ exists e, e ∈ es /\ under prefix (path e))
  | Err _ => ~ Forall inside es
  end.
Proof.
  revert acc flag. induction es as [|e es IH]; intros acc flag; cbn [try_fold].
  { rewrite app_nil_r. split; [constructor|]. split; [done|]. split; [tauto|].
    intros [?|(e & He & _)]; [done|]. by apply not_elem_of_nil in He. }
  pose proof (strip_step_spec (acc, flag) e) as Hs.
  destruct (strip_step prefix (acc, flag) e) as [[acc' flag']|];
    [|intros Hf; apply Forall_cons in Hf as [? _]; tauto].
  destruct Hs as (Hi & Ha & Hfl). cbn [fst snd] in *. subst acc'. specialize (IH (acc ++ match moved e with
    | Some x => [x] | None => [] end) flag').
  destruct (try_fold (strip_step prefix) _ es) as [[es' any]|].
  - destruct IH as (Hf & -> & Hany). split; [by constructor|]. split.
    + cbn [omap list_omap]. rewrite <- app_assoc. by destruct (moved e).
    + rewrite Hany, Hfl. setoid_rewrite elem_of_cons. naive_solver.
  - intros Hf. by apply Forall_cons in Hf as [_ ?].
Qed.

Lemma moved_inv e x :
  moved e = Some x ->
  (path e = [] /\ x = e) \/ exists rest, path e = prefix ++ 47%Z :: rest /\ x = reparent_entry e rest.
Proof.
  unfold moved. destruct (bool_decide (path e = [])) eqn:E0; bools; [intros [= <-]; by left|].
  destruct (_ || _); [done|].
  destruct (strip_prefix (prefix ++ [47]%Z) (path e)) as [rest|] eqn:E; [|done].
  apply strip_prefix_some in E. rewrite <- app_assoc in E. intros [= <-]. right. by exists rest.
Qed.

Lemma split_on_join2 a b : split_on 47 (a ++ 47%Z :: b) = split_on 47 a ++ split_on 47 b.
Proof.
  induction a as [|x a IH]; cbn [app split_on]; [done|].
  rewrite IH. destruct (split_on_cons 47 a) as (p & ps & ->). by destruct (x =? 47)%Z.
Qed.

(** Facts on one entry below the prefix. *)
Lemma nested_entry e rest :
  entry_ok e -> typed_entry e -> path e = prefix ++ 47%Z :: rest ->
  rest <> [] /\ entry_ok (reparent_entry e rest).
Proof.
  intros [[Hc Hn] Hk] [Hu _] Hp. destruct Hn as [Hn|Hn]; [rewrite Hp in Hn; by destruct prefix|].
  rewrite Hp, split_on_join2 in Hn. apply Forall_app in Hn as [_ Hn]. split.
  - intros ->. inversion Hn as [|? ? [? _]]. done.
  - split; [|by destruct e]. rewrite reparent_path. split; [|by right].
    rewrite Hp in Hc, Hu. by apply (plain_suffix prefix rest).
Qed.

Section Stage.
Variable es : list FsTreeEntry.
Hypothesis Hclosed : closed_tree es.
Hypothesis Htyped : Forall typed_entry es.

Lemma nested_of e rest :
  e ∈ es -> path e = prefix ++ 47%Z :: rest -> rest <> [] /\ entry_ok (reparent_entry e rest).
Proof.
  intros He. destruct Hclosed as [Hok _]. rewrite Forall_forall in Hok.
  pose proof Htyped as Ht. rewrite Forall_forall in Ht. apply nested_entry; auto.
Qed.

Lemma moved_elem x :
  x ∈ omap moved es <->
  (x ∈ es /\ path x = []) \/
  exists e, e ∈ es /\ path e = prefix ++ 47%Z :: path x /\ x = reparent_entry e (path x).
Proof.
  rewrite list_elem_of_omap. split.
  - intros (e & He & Hm). apply moved_inv in Hm as [[Hp ->]|(rest & Hp & ->)]; [by left|].
    right. exists e. by rewrite reparent_path.
  - intros [[Hx Hp]|(e & He & Hp & Hx)].
    + exists x. split; [done|]. unfold moved. by rewrite bool_decide_eq_true_2.
    + exists e. split; [done|]. rewrite (moved_nested e (path x) Hp). by rewrite <- Hx.
Qed.

Lemma moved_path e f x y :
  e ∈ es -> f ∈ es -> moved e = Some x -> moved f = Some y -> path x = path y -> path e = path f.
Proof.
  intros He Hf Hx Hy Hp. apply moved_inv in Hx as [[Ex ->]|(r & Er & ->)];
    apply moved_inv in Hy as [[Ey ->]|(r' & Er' & ->)]; rewrite ?reparent_path in Hp; try congruence.
  - destruct (nested_of _ _ Hf Er'). congruence.
  - destruct (nested_of _ _ He Er). congruence.
Qed.

Lemma moved_nodup : NoDup (map path (omap moved es)).
Proof.
  assert (H : forall l, (forall e, e ∈ l -> e ∈ es) -> NoDup (map path l) ->
                NoDup (map path (omap moved l))); [|apply H; [done|apply Hclosed]].
  induction l as [|e l IH]; intros Hl Hnd; cbn [map] in *; [constructor|].
  apply NoDup_cons in Hnd as [Hni Hnd]. cbn [omap list_omap].
  destruct (moved e) as [x|] eqn:E; [|apply IH; [intros; apply Hl; by right|done]].
  cbn [map]. constructor; [|apply IH; [intros; apply Hl; by right|done]].
  intros Hin. apply list_elem_of_fmap in Hin as (y & Hy & Hin).
  apply list_elem_of_omap in Hin as (f & Hf & Ef). apply Hni.
  rewrite (moved_path e f x y); [by apply list_elem_of_fmap_2|apply Hl; left|apply Hl; by right|done..].
Qed.

Lemma moved_dir p :
  is_dir es (match p with [] => [] | _ => prefix ++ 47%Z :: p end) -> is_dir (omap moved es) p.
Proof.
  intros (u & g & md & Hd). exists u, g, md. apply moved_elem. destruct p as [|b p]; [by left|].
  right. eexists. split; [exact Hd|]. done.
Qed.

Lemma moved_closed : closed_tree (omap moved es).
Proof.
  pose proof Hclosed as (Hok & _ & Hroot & Hpar). split; [|split; [exact moved_nodup|split]].
  - apply Forall_forall. intros x Hx. apply moved_elem in Hx as [[Hx _]|(e & He & Hp & Ex)].
    + rewrite Forall_forall in Hok. auto.
    + rewrite Ex. by apply nested_of.
  - by apply (moved_dir []).
  - intros x Hx Hne. apply moved_elem in Hx as [[_ ?]|(e & He & Hp & _)]; [done|].
    apply moved_dir.
    destruct (rsplit_once 47 (path x)) as [[a b]|] eqn:E; [|by unfold parent_path; rewrite E].
    rewrite (parent_path_some _ _ _ E). apply rsplit_once_some in E as [E Hb].
    destruct a as [|c a]; [done|]. specialize (Hpar e He).
    rewrite Hp, E in Hpar. unfold parent_path in Hpar.
    replace (prefix ++ 47%Z :: (c :: a) ++ 47%Z :: b)
      with ((prefix ++ 47%Z :: c :: a) ++ 47%Z :: b) in Hpar by by rewrite <- app_assoc.
    rewrite (rsplit_once_app _ b Hb) in Hpar. apply Hpar. by destruct prefix.
Qed.
End Stage.
End Strip.

(** The test on the prefix accepts the non-empty lists of proper names. *)
Lemma strip_prefix_guard prefix :
  (bool_decide (prefix = []) || starts_with [47]%Z prefix || ends_with [47]%Z prefix
   || existsb (fun c => bytes_eqb c [] || bytes_eqb c (lit ".") || bytes_eqb c (lit ".."))
        (split_on 47 prefix)) = false <-> Forall valid_name (split_on 47 prefix).
Proof.
  rewrite valid_names_iff. split.
  - intros H. apply orb_false_elim in H as [_ H]. apply Forall_forall. intros c Hc.
    assert (Hn : (bytes_eqb c [] || bytes_eqb c (lit ".") || bytes_eqb c (lit "..")) = false).
    { apply not_true_iff_false. intros Ht. apply not_true_iff_false in H. apply H.
      apply existsb_exists. exists c. by rewrite <- list_elem_of_In. }
    unfold bytes_eqb in Hn. apply orb_false_elim in Hn as [Hn H3].
    apply orb_false_elim in Hn as [H1 H2]. apply bool_decide_eq_false in H1, H2, H3. done.
  - intros H. rewrite Forall_forall in H.
    assert (Hne : [] ∉ split_on 47 prefix) by (intros Hin; by destruct (H _ Hin)).
    repeat (apply orb_false_intro).
    + apply bool_decide_eq_false_2. intros ->. apply Hne. simpl. left.
    + apply not_true_iff_false. intros Hs. by apply Hne, split_on_first_slash.
    + apply not_true_iff_false. intros Hs. by apply Hne, split_on_last_slash.
    + apply not_true_iff_false. intros Hx. apply existsb_exists in Hx as (c & Hc & Hx).
      apply list_elem_of_In, H in Hc as (H1 & H2 & H3). unfold bytes_eqb in Hx.
      rewrite !bool_decide_eq_false_2 in Hx by done. done.
Qed.

(** On a well-formed manifest [strip_prefix_manifest] succeeds exactly
    when the prefix is a relative path of proper names, every entry is the
    root, the prefix, one of its ancestors or below it, and something is below
    it; the well-formed result is the root with the entries below the prefix,
    re-rooted and otherwise unchanged. *)
Theorem strip_prefix_manifest_spec m prefix :
  wf_manifest m -> Forall typed_entry (entries m) ->
  let movable := Forall valid_name (split_on 47 prefix) /\ Forall (inside prefix) (entries m) /\
                 exists e, e ∈ entries m /\ under prefix (path e) in
  match strip_prefix_manifest m prefix with
  | Ok m' =>
      movable /\ wf_manifest m' /\
      forall x, x ∈ entries m' <->
        (x ∈ entries m /\ path x = []) \/
        exists e, e ∈ entries m /\ path e = prefix ++ 47%Z :: path x /\
                  x = reparent_entry e (path x)
  | Err _ => ~ movable
  end.
Proof.
  intros [Hs Hc] Ht movable. unfold strip_prefix_manifest. set (es := entries m) in *.
  pose proof (strip_prefix_guard prefix) as Hg.
  destruct (_ || existsb _ _); [intros [Hv _]; by apply Hg in Hv|].
  pose proof (proj1 Hg eq_refl) as Hv. clear Hg.
  pose proof (strip_loop prefix es [] false) as Hl. simpl in Hl.
  destruct (try_fold (strip_step prefix) ([], false) es) as [[es' any]|];
    [|by intros (_ & ? & _)].
  destruct Hl as (Hin & -> & Hany). destruct any; cbn [negb].
  - assert (Hex : exists e, e ∈ es /\ under prefix (path e)).
    { destruct (proj1 Hany eq_refl) as [?|?]; done. }
    pose proof (moved_closed prefix es Hc Ht) as Hcl.
    destruct (from_entries (omap (moved prefix) es)) as [m'|err] eqn:Ef.
    + apply from_entries_set in Ef as [Hm Hme]; [|apply nodup_of_paths, Hcl].
      split; [done|]. split; [done|]. intros x. rewrite Hme. by apply moved_elem.
    + pose proof (proj2 (from_entries_iff _ (mkFsTreeManifest _)) (conj Hcl eq_refl)). congruence.
  - intros (_ & _ & Hex). assert (false = true) by (apply Hany; by right). done.
Qed.

(** ** Install rules *)

Section InstallFacts.
Context {glob : GlobApi}.

(** The attributes of the rules that match a path, in rule order. *)
Definition matching (rel_path : bytes) (rules : list CompiledFsTreeInstallRule)
  : list FsTreeInstallAttrs :=
  map cr_attrs (filter (fun r => install_rule_matches r rel_path = true) rules).

(** A field that [overlay] updates pointwise. *)
Definition overlaid (field : FsTreeInstallAttrs -> option u32) : Prop :=
  forall a b, field (overlay a b) = overlay_field (field b) (field a).

Lemma last_cons_overlay (x : option u32) l old :
  overlay_field (last (match x with Some v => v :: l | None => l end)) old =
  overlay_field (last l) (overlay_field x old).
Proof.
  destruct x as [v|]; [|done]. destruct l as [|w l]; [done|]. rewrite last_cons_cons.
  destruct (last (w :: l)) eqn:E; [done|]. by apply last_None in E.
Qed.

Lemma resolve_loop rel_path rules a flag :
  let r := fold_left (resolve_step rel_path) rules (a, flag) in
  r.2 = (flag || negb (bool_decide (matching rel_path rules = []))) /\
  forall field, overlaid field ->
    field r.1 = overlay_field (last (omap field (matching rel_path rules))) (field a).
Proof.
  revert a flag. induction rules as [|rule rules IH]; intros a flag; cbn [fold_left].
  { unfold matching. cbn. split; [by rewrite orb_false_r|done]. }
  unfold resolve_step at 2 4, matching. rewrite filter_cons. cbn [fst snd].
  destruct (install_rule_matches rule rel_path).
  - rewrite decide_True by done. destruct (IH (overlay a (cr_attrs rule)) true) as [Hf Hfield].
    split; [by rewrite Hf, orb_true_r|]. intros field Ho. rewrite (Hfield field Ho), Ho.
    cbn [map omap list_omap]. unfold matching. by rewrite <- last_cons_overlay.
  - rewrite decide_False by done. apply IH.
Qed.

Lemma overlay_fields :
  overlaid ia_uid /\ overlaid ia_gid /\ overlaid directory_mode /\ overlaid regular_file_mode /\
  overlaid executable_file_mode.
Proof. repeat split. Qed.

Lemma overlay_none (x : option u32) : overlay_field x None = x.
Proof. by destruct x. Qed.

Lemma resolve_ok rel_path rules a :
  resolve_fs_tree_install_attrs rel_path rules = Ok a ->
  matching rel_path rules <> [] /\
  forall field, overlaid field -> field default_attrs = None ->
    field a = last (omap field (matching rel_path rules)).
Proof.
  unfold resolve_fs_tree_install_attrs. pose proof (resolve_loop rel_path rules default_attrs false) as H.
  destruct (fold_left _ _ _) as [r any]. destruct H as [Hany Hf]. cbn [fst snd] in *.
  destruct any; [|done]. intros [= <-]. split.
  - intros E. by rewrite E in Hany.
  - intros field Ho Hd. by rewrite (Hf field Ho), Hd, overlay_none.
Qed.

Lemma resolve_err rel_path rules e :
  resolve_fs_tree_install_attrs rel_path rules = Err e -> matching rel_path rules = [].
Proof.
  unfold resolve_fs_tree_install_attrs. pose proof (resolve_loop rel_path rules default_attrs false) as H.
  destruct (fold_left _ _ _) as [r any]. destruct H as [Hany _]. cbn [fst snd] in *.
  destruct any; [done|]. intros _. cbn [orb] in Hany. symmetry in Hany.
  by apply negb_false_iff, bool_decide_eq_true in Hany.
Qed.

(** The modes an attribute set may hold. *)
Definition bounded_modes (a : FsTreeInstallAttrs) : Prop :=
  forall v, directory_mode a = Some v \/ regular_file_mode a = Some v \/
            executable_file_mode a = Some v -> (v <= MODE_MAX)%Z.

Lemma validate_mode_ok label mode : validate_mode label mode = Ok tt <-> (mode <= MODE_MAX)%Z.
Proof.
  unfold validate_mode. destruct (mode <=? MODE_MAX)%Z eqn:E; bools; [done|]. split; [done|lia].
Qed.

Lemma validate_optional_mode_ok label o :
  validate_optional_mode label o = Ok tt -> forall v, o = Some v -> (v <= MODE_MAX)%Z.
Proof. destruct o; simpl; [|done]. intros H v [= <-]. by apply validate_mode_ok in H. Qed.

Lemma compiled_rule_bounded rule r :
  compile_fs_tree_install_rule rule = Ok r -> bounded_modes (cr_attrs r).
Proof.
  unfold compile_fs_tree_install_rule, validate_install_rule_attrs. intros H. inv_res.
  repeat match goal with u : () |- _ => destruct u end. cbn [cr_attrs].
  intros v [Hv|[Hv|Hv]]; eauto using validate_optional_mode_ok.
Qed.

Lemma compiled_rules_bounded install rules :
  compile_fs_tree_install_rules install = Ok rules -> Forall (fun r => bounded_modes (cr_attrs r)) rules.
Proof.
  unfold compile_fs_tree_install_rules. intros H. inv_res. apply try_map_Forall2 in H.
  clear G. induction H as [|x y l k Hxy _ IH]; constructor; [by eapply compiled_rule_bounded|done].
Qed.

Lemma last_omap_elem {A} (f : A -> option u32) l v : last (omap f l) = Some v -> exists a, a ∈ l /\ f a = Some v.
Proof.
  intros H. apply last_Some in H as [l' H].
  assert (Hv : v ∈ omap f l) by (rewrite H; set_solver). apply list_elem_of_omap in Hv. done.
Qed.
End InstallFacts.

(** Install attributes resolve field by field to the last matching rule
    that sets the field, and a path no rule matches is an error. *)
Theorem install_last_match_wins `{GlobApi} rel_path rules :
  match resolve_fs_tree_install_attrs rel_path rules with
  | Ok a =>
      let ms := matching rel_path rules in
      ms <> [] /\ ia_uid a = last (omap ia_uid ms) /\ ia_gid a = last (omap ia_gid ms) /\
      directory_mode a = last (omap directory_mode ms) /\
      regular_file_mode a = last (omap regular_file_mode ms) /\
      executable_file_mode a = last (omap executable_file_mode ms)
  | Err _ => matching rel_path rules = []
  end.
Proof.
  destruct (resolve_fs_tree_install_attrs rel_path rules) as [a|e] eqn:E; [|by eapply resolve_err].
  destruct (resolve_ok _ _ _ E) as [Hne Hf]. pose proof overlay_fields. cbn zeta.
  split; [done|]. repeat split; apply Hf; try done; tauto.
Qed.

(** Modes resolved from rules that compile are within [0o7777]. *)
Theorem install_modes_bounded `{GlobApi} install rules rel_path a :
  compile_fs_tree_install_rules install = Ok rules ->
  resolve_fs_tree_install_attrs rel_path rules = Ok a -> bounded_modes a.
Proof.
  intros Hc Hr. apply compiled_rules_bounded in Hc. apply resolve_ok in Hr as [_ Hf].
  destruct overlay_fields as (_ & _ & Hd & Hg & He).
  assert (Hb : forall b, b ∈ matching rel_path rules -> bounded_modes b).
  { intros b Hb. apply list_elem_of_fmap in Hb as (r & -> & Hin).
    apply list_elem_of_filter in Hin as [_ Hin]. rewrite Forall_forall in Hc. auto. }
  intros v Hv. rewrite (Hf _ Hd), (Hf _ Hg), (Hf _ He) in Hv by done.
  destruct Hv as [Hv|[Hv|Hv]]; apply last_omap_elem in Hv as (b & Hin & Hv);
    apply (Hb b Hin); tauto.
Qed.

(** Two regular files with one fs-file hash have the same owner, group,
    mode, size and content digest, provided SHA-256 has no collision among the
    messages hashed. *)
Theorem fs_file_hash_identifies `{Sha256Api} M u1 g1 m1 s1 c1 u2 g2 m2 s2 c2 h :
  collision_free M -> M (fs_file_message u1 g1 m1 s1 c1) -> M (fs_file_message u2 g2 m2 s2 c2) ->
  is_u32 u1 /\ is_u32 g1 /\ is_u32 m1 /\ is_u64 s1 -> is_u32 u2 /\ is_u32 g2 /\ is_u32 m2 /\ is_u64 s2 ->
  hash_fs_file_parts u1 g1 m1 s1 c1 = Ok h -> hash_fs_file_parts u2 g2 m2 s2 c2 = Ok h ->
  u1 = u2 /\ g1 = g2 /\ m1 = m2 /\ s1 = s2 /\ c1 = c2.
Proof.
  intros HM M1 M2 (Hu1 & Hg1 & Hm1 & Hs1) (Hu2 & Hg2 & Hm2 & Hs2) H1 H2.
  unfold hash_fs_file_parts in *. inv_res.
  match goal with H : sha256 _ = sha256 _ |- _ => apply HM in H as Hx end; [|done..].
  unfold fs_file_message in Hx. apply app_inv_head in Hx.
  apply app_inj_1 in Hx as [Eu Hx]; [|by rewrite !length_be_bytes].
  apply app_inj_1 in Hx as [Eg Hx]; [|by rewrite !length_be_bytes].
  apply app_inj_1 in Hx as [Em Hx]; [|by rewrite !length_be_bytes].
  apply app_inj_1 in Hx as [Es Ec]; [|by rewrite !length_be_bytes].
  apply be_bytes_inj in Eu; [|done..]. apply be_bytes_inj in Eg; [|done..].
  apply be_bytes_inj in Em; [|done..]. apply be_bytes_inj in Es; [|done..]. done.
Qed.

(** ** Concrete runs *)

Module OpsExamples.
(** A matcher that knows only literal paths and the pattern [**]. *)
#[export] Instance literal_glob : GlobApi := {|
  Glob := bytes;
  GlobMatcher := bytes;
  glob_new p := if bytes_eqb p (lit "[") then Err "unclosed character class" else Ok p;
  compile_matcher g := g;
  is_match g p := bytes_eqb g (lit "**") || bytes_eqb g p;
|}.

Definition h : bytes := repeat 7%Z 32.
Definition tree : list FsTreeEntry :=
  [EDirectory [] 0 0 493; EDirectory (lit "usr") 0 0 493; EDirectory (lit "usr/lib") 0 0 493;
   EFile (lit "usr/lib/a") h; ESymlink (lit "usr/lib/b") 0 0 (lit "a")].
Definition manifest : FsTreeManifest := mkFsTreeManifest tree.

Lemma from_tree : from_entries tree = Ok manifest.
Proof. vm_compute. reflexivity. Qed.

Lemma wf_tree : wf_manifest manifest.
Proof. exact (proj1 (from_entries_wf tree manifest from_tree)). Qed.

Lemma typed_tree : Forall typed_entry tree.
Proof.
  repeat constructor; try reflexivity; unfold is_u32, is_u8; try lia; vm_compute; try lia; discriminate.
Qed.

Definition other : FsTreeManifest :=
  mkFsTreeManifest [EDirectory [] 0 0 493; EFile (lit "etc") h].

Lemma wf_other : wf_manifest other.
Proof.
  assert (Ho : from_entries (entries other) = Ok other) by (vm_compute; reflexivity).
  exact (proj1 (from_entries_wf _ other Ho)).
Qed.

(** Merging [manifest], [other] and [manifest] again. *)
Lemma merge_manifests_union_witness :
  exists m, merge_manifests [manifest; other; manifest] = Ok m /\ wf_manifest m /\
    EFile (lit "etc") h ∈ entries m.
Proof.
  pose proof (merge_manifests_union [manifest; other; manifest]
    (Forall_cons_2 _ _ _ wf_tree (Forall_cons_2 _ _ _ wf_other
      (Forall_cons_2 _ _ _ wf_tree (Forall_nil_2 _))))) as H.
  cbn zeta in H. destruct (merge_manifests [manifest; other; manifest]) as [m|e] eqn:E.
  - exists m. destruct H as (_ & Hw & Hm). split; [done|]. split; [done|]. apply Hm.
    exists other. split; [right; left|right; left].
  - exfalso. vm_compute in E. discriminate E.
Defined.

Definition patterns : list CompiledFsTreeSubsetPattern :=
  [mkSubsetPattern (lit "usr/lib/a") (lit "usr/lib/a" : GlobMatcher)].

(** Selecting [usr/lib/a] keeps it with its ancestors and drops [usr/lib/b]. *)
Lemma subset_manifest_spec_witness :
  exists m', subset_manifest manifest [lit "usr/lib/a"] = Ok m' /\ wf_manifest m' /\
    EDirectory (lit "usr") 0 0 493 ∈ entries m'.
Proof.
  pose proof (subset_manifest_spec manifest [lit "usr/lib/a"] patterns wf_tree eq_refl) as H.
  destruct (subset_manifest manifest [lit "usr/lib/a"]) as [m'|e] eqn:E.
  - exists m'. destruct H as (_ & Hw & Hm). split; [done|]. split; [done|]. apply Hm.
    split; [right; left|]. right. right. exists (EFile (lit "usr/lib/a") h).
    split; [do 3 right; left|]. split; [split; [done|reflexivity]|]. exists (lit "lib/a"). reflexivity.
  - exfalso. vm_compute in E. discriminate E.
Defined.

(** Re-rooting at [usr/lib]. *)
Lemma strip_prefix_manifest_spec_witness :
  exists m', strip_prefix_manifest manifest (lit "usr/lib") = Ok m' /\ wf_manifest m' /\
    EFile (lit "a") h ∈ entries m'.
Proof.
  pose proof (strip_prefix_manifest_spec manifest (lit "usr/lib") wf_tree typed_tree) as H.
  cbn zeta in H. destruct (strip_prefix_manifest manifest (lit "usr/lib")) as [m'|e] eqn:E.
  - exists m'. destruct H as (_ & Hw & Hm). split; [done|]. split; [done|]. apply Hm.
    right. exists (EFile (lit "usr/lib/a") h). split; [do 3 right; left|]. split; reflexivity.
  - exfalso. vm_compute in E. discriminate E.
Defined.

Definition install : FsTreeInstall := mkInstall
  [mkInstallRule (lit "**") (mkInstallAttrs (Some 0) (Some 0) (Some 493) (Some 420) (Some 493));
   mkInstallRule (lit "usr/**") (mkInstallAttrs None None (Some 448) None None)]%Z.
Definition compiled : list CompiledFsTreeInstallRule :=
  map (fun r => mkCompiledRule (ir_path r) (ir_path r : GlobMatcher) (ir_attrs r)) (rules install).

(** The mode of [usr] comes from the second rule, its owner from the first. *)
Lemma install_modes_bounded_witness :
  bounded_modes (mkInstallAttrs (Some 0) (Some 0) (Some 448) (Some 420) (Some 493))%Z.
Proof. apply (install_modes_bounded install compiled (lit "usr")); reflexivity. Defined.

#[local] Existing Instance ToySha.sha256_api.

Lemma fs_file_hash_identifies_witness : 0%Z = 0%Z /\ h = h.
Proof.
  set (msg := fs_file_message 0 5 420 12 h).
  destruct (fs_file_hash_identifies (fun x => x = msg) 0 5 420 12 h 0 5 420 12 h (sha256 msg))
    as (E1 & _ & _ & _ & E2); try reflexivity; try (unfold is_u32, is_u64; lia); [|done].
  by intros x y -> ->.
Defined.
End OpsExamples.
