(* ===== verification/Json.v ===== *)
(** * JSON values

    [serde_json::Value] as the sources take it apart: its constructors and the
    [Map] operations they call.  A [Map] (a [BTreeMap], the crate is built
    without [preserve_order]) is the list of its members in key order.  The
    number type and the text of scalars are external ([ScalarWriter]). *)

From S2P Require Import Prelude.

Section Values.
Context {Number : Type}.

Inductive JValue :=
| JNull
| JBool (b : bool)
| JNumber (n : Number)
| JString (s : bytes)
| JArray (items : list JValue)
| JObject (members : list (bytes * JValue)).

Lemma JValue_nested_ind (P : JValue -> Prop) :
  P JNull -> (forall b, P (JBool b)) -> (forall n, P (JNumber n)) -> (forall s, P (JString s)) ->
  (forall items, Forall P items -> P (JArray items)) ->
  (forall members, Forall (fun m => P m.2) members -> P (JObject members)) ->
  forall v, P v.
Proof.
  intros H1 H2 H3 H4 H5 H6. fix IH 1. intros [|b|n|s|items|members]; [done|done|done|done| |].
  - apply H5. induction items as [|v items IHi]; constructor; [apply IH|exact IHi].
  - apply H6. induction members as [|[k v] members IHm]; constructor; [apply IH|exact IHm].
Qed.

(** [Value::as_object], [Value::as_str], [Map::get], [Map::remove],
    [Map::insert] and [Map::keys]. *)
Definition jas_object (v : JValue) : option (list (bytes * JValue)) :=
  match v with JObject ms => Some ms | _ => None end.
Definition jas_str (v : JValue) : option bytes :=
  match v with JString s => Some s | _ => None end.
Definition jget (ms : list (bytes * JValue)) (k : bytes) : option JValue := assoc k ms.
Definition jdelete (k : bytes) (ms : list (bytes * JValue)) : list (bytes * JValue) :=
  filter (fun m => m.1 <> k) ms.
Definition jremove (ms : list (bytes * JValue)) (k : bytes)
  : option JValue * list (bytes * JValue) := (assoc k ms, jdelete k ms).
Definition jinsert (k : bytes) (v : JValue) (ms : list (bytes * JValue)) : list (bytes * JValue) :=
  insert_by fst (k, v) (jdelete k ms).
Definition jkeys (ms : list (bytes * JValue)) : list bytes := map fst ms.

(** Values whose objects are maps: members in strict key order. *)
Inductive wf_json : JValue -> Prop :=
| wf_null : wf_json JNull
| wf_bool b : wf_json (JBool b)
| wf_number n : wf_json (JNumber n)
| wf_string s : wf_json (JString s)
| wf_array items : Forall wf_json items -> wf_json (JArray items)
| wf_object members :
    StronglySorted (key_lt fst) members -> Forall (fun m => wf_json m.2) members ->
    wf_json (JObject members).

Inductive Scalar := SNull | SBool (b : bool) | SNumber (n : Number) | SString (s : bytes).
End Values.
Arguments JValue : clear implicits.
Arguments Scalar : clear implicits.

(** [serde_json::to_writer] on a scalar: the bytes appended. *)
Class ScalarWriter (Number : Type) := {
  to_writer : Scalar Number -> result string bytes;
}.

(** A byte that may follow a scalar in a JSON text. *)
Definition delimiter (l : bytes) : Prop :=
  match l with [] => True | b :: _ => b = 44%Z \/ b = 93%Z \/ b = 125%Z \/ b = 58%Z end.

(** JSON scalars are self-delimiting: a text that starts with a scalar, followed
    by the end, a comma, a closing bracket or brace or a colon, does so for one
    scalar only, and no scalar starts with an opening bracket or brace or with
    a closing one. *)
Class ScalarLaw {Number} `{ScalarWriter Number} : Prop := {
  scalar_unambiguous a b s t x y :
    to_writer a = Ok s -> to_writer b = Ok t -> delimiter x -> delimiter y ->
    s ++ x = t ++ y -> a = b /\ x = y;
  scalar_first a s :
    to_writer a = Ok s ->
    exists b r, s = b :: r /\ b <> 91%Z /\ b <> 123%Z /\ b <> 93%Z /\ b <> 125%Z;
}.
