(* ===== verification/Identity.v ===== *)
(** * Build identities

    [bobr-core/src/identity.rs]: canonical JSON, configuration digests, build
    and reuse keys and build seeds. *)

From S2P Require Import Prelude Hash Json.

Definition INVOCATION_SCHEMA : bytes := lit "bobr-build-invocation-v5".
Definition REUSE_INVOCATION_SCHEMA : bytes := lit "bobr-build-reuse-invocation-v5".
Definition BOBR_BUILD_CORE_VERSION : bytes := lit "2".

(** [IdentityError]. *)
Record IdentityError := mkIdentityError { ie_message : string }.
Definition identity_json (error : string) : IdentityError :=
  mkIdentityError ("failed to serialize canonical identity JSON: " +:+ error).

(** [BuildKey::from_object_hash]: the same 32 bytes in the other domain. *)
Definition from_object_hash (object_hash : bytes) : bytes := object_hash.

(** [BuildKey::short]. *)
Definition short (key : bytes) : bytes := take 12 (display key).

(** [BuildSeed]. *)
Definition SEED_DOMAIN : bytes := lit "bobr-build-seed" ++ [0]%Z.
Definition seed_from_reuse_key `{Sha256Api} (reuse_key : bytes) : bytes :=
  sha256 (SEED_DOMAIN ++ reuse_key).

Section Keys.
Context {Number : Type} `{ScalarWriter Number} `{Sha256Api}.

(** The elements of an array or of an object, separated by commas: the
    [if idx > 0] of the two loops. *)
Fixpoint write_separated (first : bool) (parts : list (result IdentityError bytes))
  : result IdentityError bytes :=
  match parts with
  | [] => Ok []
  | part :: parts' =>
      text <- part ;;
      rest <- write_separated false parts' ;;
      Ok ((if first then [] else [44]%Z) ++ text ++ rest)
  end.

Definition write_scalar (s : Scalar Number) : result IdentityError bytes :=
  map_err identity_json (to_writer s).

(** [write_canonical_json]; the result is what is appended to [out].  The
    members of an object are written in key order: their texts are computed
    first and then taken in that order. *)
Fixpoint write_canonical_json (value : JValue Number) : result IdentityError bytes :=
  match value with
  | JNull => write_scalar SNull
  | JBool b => write_scalar (SBool b)
  | JNumber n => write_scalar (SNumber n)
  | JString s => write_scalar (SString s)
  | JArray items =>
      inner <- write_separated true (map write_canonical_json items) ;;
      Ok ([91]%Z ++ inner ++ [93]%Z)
  | JObject object =>
      let written := map (fun m => (m.1, write_canonical_json m.2)) object in
      inner <- write_separated true
        (map (fun m => key <- write_scalar (SString m.1) ;; text <- m.2 ;;
                       Ok (key ++ [58]%Z ++ text))
           (sort_by fst written)) ;;
      Ok ([123]%Z ++ inner ++ [125]%Z)
  end.

Definition canonical_json_bytes (value : JValue Number) : result IdentityError bytes :=
  write_canonical_json value.

(** [ConfigDigest::of] and [ConfigDigest::to_hex]. *)
Definition config_digest_of (config : JValue Number) : result IdentityError bytes :=
  canonical <- canonical_json_bytes config ;;
  Ok (sha256 canonical).
Definition config_to_hex (digest : bytes) : bytes := to_hex digest.

(** [KeyInputHash]: the field name; both hashes are encoded by [to_string]. *)
Definition FIELD_build_key : bytes := lit "build_key".
Definition FIELD_object_hash : bytes := lit "object_hash".

(** One element of [input_values]. *)
Definition input_value (field : bytes) (input : bytes * bytes) : JValue Number :=
  JObject (jinsert field (JString (display input.2)) (jinsert (lit "name") (JString input.1) [])).

(** [BTreeMap::iter] of the inputs: name order. *)
Definition ordered_inputs (inputs : gmap bytes bytes) : list (bytes * bytes) :=
  sort_by fst (map_to_list inputs).

(** The [root] object of [compute_key]. *)
Definition key_root (schema field builder_tag builder_version config : bytes)
  (inputs : gmap bytes bytes) : JValue Number :=
  let input_values := map (input_value field) (ordered_inputs inputs) in
  JObject (jinsert (lit "inputs") (JArray input_values)
          (jinsert (lit "config") (JString (config_to_hex config))
          (jinsert (lit "builder_version") (JString builder_version)
          (jinsert (lit "builder_tag") (JString builder_tag)
          (jinsert (lit "schema") (JString schema) []))))).

Definition compute_key (schema field builder_tag builder_version config : bytes)
  (inputs : gmap bytes bytes) : result IdentityError bytes :=
  canonical <- canonical_json_bytes (key_root schema field builder_tag builder_version config inputs) ;;
  Ok (sha256 canonical).

Definition compute_build_key (builder_tag builder_version config : bytes)
  (inputs : gmap bytes bytes) : result IdentityError bytes :=
  compute_key INVOCATION_SCHEMA FIELD_build_key builder_tag builder_version config inputs.

Definition compute_reuse_key (builder_tag builder_version config : bytes)
  (inputs : gmap bytes bytes) : result IdentityError bytes :=
  compute_key REUSE_INVOCATION_SCHEMA FIELD_object_hash builder_tag builder_version config inputs.
End Keys.

(** ** Canonical JSON is unambiguous *)

Section Sequences.
Context {A : Type} (f : A -> result IdentityError bytes) (c : Z).
Hypothesis closer : c = 93%Z \/ c = 125%Z.
Hypothesis first_byte : forall a s, f a = Ok s -> exists b r, s = b :: r /\ b <> 93%Z /\ b <> 125%Z.

(** Followed by a delimiter, the texts of [a] and of any [b] of [l] differ
    unless [a = b]. *)
Definition unambiguous (P : A -> Prop) (a : A) : Prop :=
  forall b s t x y, P b -> f a = Ok s -> f b = Ok t -> delimiter x -> delimiter y ->
    s ++ x = t ++ y -> a = b /\ x = y.

Lemma rest_delimiter parts s x :
  write_separated false parts = Ok s -> delimiter (s ++ c :: x).
Proof.
  destruct parts as [|p parts]; cbn [write_separated]; intros E; inv_res; simpl; [|by left].
  destruct closer; tauto.
Qed.

Lemma separated_unambiguous (P : A -> Prop) fl l l' s t x y :
  Forall (unambiguous P) l -> Forall P l' ->
  write_separated fl (map f l) = Ok s -> write_separated fl (map f l') = Ok t ->
  s ++ c :: x = t ++ c :: y -> l = l' /\ x = y.
Proof.
  intros Hl. revert fl l' s t. induction Hl as [|a l Ha Hl IH]; intros fl l' s t Hl' Hs Ht E.
  - cbn [map write_separated] in Hs. inv_res. destruct Hl' as [|b l' _ _]; cbn [map write_separated] in Ht.
    + inv_res. injection E as <-. done.
    + inv_res. destruct (first_byte _ _ E0) as (b0 & r & -> & H1 & H2).
      destruct fl; simpl in E; injection E as E _; destruct closer; congruence || lia.
  - cbn [map write_separated] in Hs. inv_res. destruct Hl' as [|b l' Hb Hl']; cbn [map write_separated] in Ht.
    + inv_res. destruct (first_byte _ _ E0) as (b0 & r & -> & H1 & H2).
      destruct fl; simpl in E; injection E as E _; destruct closer; congruence || lia.
    + inv_res. rewrite <- !app_assoc in E. apply app_inv_head in E.
      destruct (Ha b _ _ _ _ Hb E0 E2 (rest_delimiter _ _ _ E1) (rest_delimiter _ _ _ E3) E) as [-> E'].
      destruct (IH false l' _ _ Hl' E1 E3 E') as [-> ->]. done.
Qed.
End Sequences.

Section Canonical.
Context {Number : Type} `{law : ScalarLaw Number}.

Definition write_member (m : bytes * JValue Number) : result IdentityError bytes :=
  key <- write_scalar (SString m.1) ;; text <- write_canonical_json m.2 ;;
  Ok (key ++ [58]%Z ++ text).

(** A map is already in the order the writer sorts it into. *)
Lemma write_object ms :
  StronglySorted (key_lt fst) ms ->
  write_canonical_json (JObject ms) =
  (inner <- write_separated true (map write_member ms) ;; Ok ([123]%Z ++ inner ++ [125]%Z)).
Proof.
  intros Hs. cbn [write_canonical_json]. rewrite sort_by_id; [by rewrite map_map|].
  apply strongly_sorted_key_le. induction Hs as [|m ms Hs IH Hm]; cbn [map]; constructor; [done|].
  apply Forall_fmap. exact Hm.
Qed.

Lemma write_scalar_ok s t : write_scalar s = Ok t <-> to_writer s = Ok t.
Proof. unfold write_scalar. destruct (to_writer s); simpl; split; congruence. Qed.

(** The first byte of a value tells arrays, objects and scalars apart. *)
Lemma value_first v s :
  write_canonical_json v = Ok s ->
  exists b r, s = b :: r /\ b <> 93%Z /\ b <> 125%Z /\
    (b = 91%Z <-> exists items, v = JArray items) /\ (b = 123%Z <-> exists ms, v = JObject ms).
Proof.
  assert (Hsc : forall sc, to_writer sc = Ok s -> (forall items, v <> JArray items) ->
    (forall ms, v <> JObject ms) -> exists b r, s = b :: r /\ b <> 93%Z /\ b <> 125%Z /\
    (b = 91%Z <-> exists items, v = JArray items) /\ (b = 123%Z <-> exists ms, v = JObject ms)).
  { intros sc Hw Ha Ho. destruct (scalar_first _ _ Hw) as (b & r & -> & H1 & H2 & H3 & H4).
    exists b, r. repeat split; try done; [by intros [i ?]; destruct (Ha i)|by intros [i ?]; destruct (Ho i)]. }
  destruct v as [|b|n|t|items|ms]; cbn [write_canonical_json]; intros E;
    try (apply write_scalar_ok in E; by eapply Hsc); inv_res.
  - eexists _, _. split; [reflexivity|]. repeat split; try done; [by eexists|by intros [? ?]].
  - eexists _, _. split; [reflexivity|]. repeat split; try done; [by intros [? ?]|by eexists].
Qed.

Lemma member_first m s :
  write_member m = Ok s -> exists b r, s = b :: r /\ b <> 93%Z /\ b <> 125%Z.
Proof.
  unfold write_member. intros E. inv_res. apply write_scalar_ok in E0.
  destruct (scalar_first _ _ E0) as (b & r & -> & _ & _ & H1 & H2). by eexists _, _.
Qed.

Lemma member_unambiguous m :
  unambiguous write_canonical_json wf_json m.2 ->
  unambiguous write_member (fun m => wf_json m.2) m.
Proof.
  intros IH m' s t x y Hm' Hs Ht Hx Hy E. unfold write_member in Hs, Ht. inv_res.
  apply write_scalar_ok in E0, E2. rewrite <- !app_assoc in E.
  assert (Hd : forall l z, delimiter ((58%Z :: l) ++ z)) by (intros; simpl; tauto).
  destruct (scalar_unambiguous _ _ _ _ _ _ E2 E0 (Hd _ _) (Hd _ _) E) as [Ek E'].
  simpl in E'. injection E' as E'.
  destruct (IH _ _ _ _ _ Hm' E3 E1 Hx Hy E') as [Ev ->].
  destruct m, m'; simpl in *. by injection Ek as ->; subst.
Qed.

(** The scalar a value is, if any. *)
Definition scalar_of (v : JValue Number) : option (Scalar Number) :=
  match v with
  | JNull => Some SNull
  | JBool b => Some (SBool b)
  | JNumber n => Some (SNumber n)
  | JString s => Some (SString s)
  | _ => None
  end.

Lemma scalar_of_inj v w sc : scalar_of v = Some sc -> scalar_of w = Some sc -> v = w.
Proof. destruct v, w; simpl; congruence. Qed.

Lemma scalar_case v sc :
  scalar_of v = Some sc -> unambiguous write_canonical_json wf_json v.
Proof.
  intros Hv w s t x y _ Hs Ht Hx Hy E.
  assert (Hs' : to_writer sc = Ok s).
  { destruct v; simpl in Hv; inv_res; cbn [write_canonical_json] in Hs; by apply write_scalar_ok. }
  destruct (scalar_of w) as [sc'|] eqn:Hw.
  - assert (Ht' : to_writer sc' = Ok t).
    { destruct w; simpl in Hw; inv_res; cbn [write_canonical_json] in Ht; by apply write_scalar_ok. }
    destruct (scalar_unambiguous _ _ _ _ _ _ Hs' Ht' Hx Hy E) as [-> ->].
    split; [|done]. by eapply scalar_of_inj.
  - exfalso. destruct (scalar_first _ _ Hs') as (b & r & -> & H1 & H2 & _).
    destruct (value_first _ _ Ht) as (b' & r' & -> & _ & _ & Ha & Ho).
    injection E as <- _. destruct w; simpl in Hw; try done; [apply H1, Ha|apply H2, Ho]; by eexists.
Qed.

Lemma value_closes v s :
  write_canonical_json v = Ok s -> exists b r, s = b :: r /\ b <> 93%Z /\ b <> 125%Z.
Proof.
  intros Hs. destruct (value_first _ _ Hs) as (b & r & -> & ? & ? & _). by eexists _, _.
Qed.

Lemma canonical_unambiguous v : wf_json v -> unambiguous write_canonical_json wf_json v.
Proof.
  induction v as [|b|n|s|items IH|ms IH] using JValue_nested_ind; intros Hv;
    try (by eapply scalar_case); intros w s t x y Hw Hs Ht Hx Hy E;
    inversion_clear Hv as [| | | |? Hi|? Hsort Hi];
    destruct (value_first _ _ Hs) as (b & r & -> & _ & _ & Ha & Ho);
    destruct (value_first _ _ Ht) as (b' & r' & -> & _ & _ & Ha' & Ho'); injection E as -> E.
  - destruct (proj1 Ha' (proj2 Ha (ex_intro _ _ eq_refl))) as [items' ->].
    inversion_clear Hw as [| | | |? Hi'|]. cbn [write_canonical_json] in Hs, Ht. inv_res.
    rewrite <- !app_assoc in E. simpl in E.
    assert (HF : Forall (unambiguous write_canonical_json wf_json) items).
    { rewrite Forall_forall in *. auto. }
    by destruct (separated_unambiguous write_canonical_json 93 (or_introl eq_refl) value_closes
      wf_json true items items' _ _ x y HF Hi' E1 E0 E) as [-> ->].
  - destruct (proj1 Ho' (proj2 Ho (ex_intro _ _ eq_refl))) as [ms' ->].
    inversion_clear Hw as [| | | | |? Hsort' Hi'].
    rewrite write_object in Hs, Ht by done. inv_res. rewrite <- !app_assoc in E. simpl in E.
    assert (HF : Forall (unambiguous write_member (fun m => wf_json m.2)) ms).
    { rewrite Forall_forall in *. intros m Hm. apply member_unambiguous. auto. }
    by destruct (separated_unambiguous write_member 125 (or_intror eq_refl) member_first
      (fun m => wf_json m.2) true ms ms' _ _ x y HF Hi' E1 E0 E) as [-> ->].
Qed.

Lemma canonical_json_inj v w b :
  wf_json v -> wf_json w -> canonical_json_bytes v = Ok b -> canonical_json_bytes w = Ok b -> v = w.
Proof.
  intros Hv Hw Hb Hb'. by destruct (canonical_unambiguous v Hv w b b [] [] Hw Hb Hb' I I eq_refl).
Qed.
End Canonical.

(** ** Keys *)

(** The two key domains and the routine that computes each. *)
Inductive KeyKind := BuildKind | ReuseKind.

Section KeyFacts.
Context {Number : Type} `{law : ScalarLaw Number} `{Sha256Api}.

Definition key_of (kind : KeyKind) : bytes -> bytes -> bytes -> gmap bytes bytes -> result IdentityError bytes :=
  match kind with BuildKind => compute_build_key | ReuseKind => compute_reuse_key end.

(** The JSON document whose digest is the key. *)
Definition root_of (kind : KeyKind) (tag version config : bytes) (inputs : gmap bytes bytes)
  : JValue Number :=
  match kind with
  | BuildKind => key_root INVOCATION_SCHEMA FIELD_build_key tag version config inputs
  | ReuseKind => key_root REUSE_INVOCATION_SCHEMA FIELD_object_hash tag version config inputs
  end.

Lemma key_of_root kind tag version config inputs :
  key_of kind tag version config inputs =
  (canonical <- canonical_json_bytes (root_of kind tag version config inputs) ;; Ok (sha256 canonical)).
Proof. by destruct kind. Qed.

Definition field_of (kind : KeyKind) : bytes :=
  match kind with BuildKind => FIELD_build_key | ReuseKind => FIELD_object_hash end.

Definition schema_of (kind : KeyKind) : bytes :=
  match kind with BuildKind => INVOCATION_SCHEMA | ReuseKind => REUSE_INVOCATION_SCHEMA end.

(** The members of the root in key order. *)
Lemma root_members kind tag version config inputs :
  root_of kind tag version config inputs =
  JObject [(lit "builder_tag", JString tag); (lit "builder_version", JString version);
           (lit "config", JString (to_hex config));
           (lit "inputs", JArray (map (input_value (field_of kind)) (ordered_inputs inputs)));
           (lit "schema", JString (schema_of kind))].
Proof. destruct kind; reflexivity. Qed.

Lemma input_members kind input :
  input_value (field_of kind) input =
  (match kind with
   | BuildKind => JObject [(lit "build_key", JString (display input.2)); (lit "name", JString input.1)]
   | ReuseKind => JObject [(lit "name", JString input.1); (lit "object_hash", JString (display input.2))]
   end : JValue Number).
Proof. destruct kind; reflexivity. Qed.

Lemma root_wf kind tag version config inputs :
  wf_json (root_of kind tag version config inputs).
Proof.
  rewrite root_members. constructor; [repeat constructor|]. repeat constructor.
  apply Forall_fmap, Forall_forall. intros i _. unfold compose. rewrite input_members.
  destruct kind; constructor; repeat constructor.
Qed.

Lemma input_value_inj kind i j :
  wf_hash i.2 -> wf_hash j.2 ->
  input_value (Number := Number) (field_of kind) i = input_value (field_of kind) j -> i = j.
Proof.
  intros Hi Hj. rewrite !input_members. destruct i as [n h], j as [n' h'], kind; simpl in *;
    intros [= E1 E2]; (rewrite !display_to_hex in * by apply Hi || apply Hj);
    f_equal; try done; by apply to_hex_inj.
Qed.

Lemma ordered_inputs_inj i j : ordered_inputs i = ordered_inputs j -> i = j.
Proof.
  intros E. rewrite <- (list_to_map_to_list i), <- (list_to_map_to_list j).
  apply list_to_map_proper; [apply NoDup_fst_map_to_list|].
  unfold ordered_inputs in E. rewrite <- (sort_by_perm fst (map_to_list i)), E. apply sort_by_perm.
Qed.

Lemma input_values_inj kind l k :
  Forall (fun i => wf_hash i.2) l -> Forall (fun i => wf_hash i.2) k ->
  map (input_value (Number := Number) (field_of kind)) l = map (input_value (field_of kind)) k -> l = k.
Proof.
  intros Hl. revert k. induction Hl as [|i l Hi Hl IH]; intros k Hk E; destruct Hk as [|j k Hj Hk];
    cbn [map] in E; [done|done|done|].
  pose proof (f_equal (hd JNull) E) as E1. pose proof (f_equal (@tl _) E) as E2. cbn [hd tl] in *.
  f_equal; [by apply (input_value_inj kind)|by apply IH].
Qed.

Lemma root_inj kind1 t1 v1 c1 i1 kind2 t2 v2 c2 i2 :
  wf_hash c1 -> wf_hash c2 -> map_Forall (fun _ => wf_hash) i1 -> map_Forall (fun _ => wf_hash) i2 ->
  root_of kind1 t1 v1 c1 i1 = root_of kind2 t2 v2 c2 i2 ->
  kind1 = kind2 /\ t1 = t2 /\ v1 = v2 /\ c1 = c2 /\ i1 = i2.
Proof.
  intros Hc1 Hc2 Hi1 Hi2. rewrite !root_members.
  intros [= Et Ev Ec Ei Es]. assert (kind1 = kind2) as <- by (by destruct kind1, kind2).
  assert (Hl : forall i : gmap bytes bytes, map_Forall (fun _ => wf_hash) i ->
                 Forall (fun x => wf_hash x.2) (ordered_inputs i)).
  { intros i Hi. unfold ordered_inputs. rewrite sort_by_perm. apply Forall_forall.
    intros [n h] Hin. apply elem_of_map_to_list in Hin. by apply (Hi n h). }
  apply input_values_inj, ordered_inputs_inj in Ei; [|by apply Hl..].
  apply to_hex_inj in Ec; [|done..]. done.
Qed.
End KeyFacts.

(** C33. Keys identify invocations: if two build or reuse keys are equal, they
    are keys of the same domain, for the same builder tag, version token,
    configuration digest and inputs by slot name, provided SHA-256 has no
    collision among the documents hashed. *)
Theorem keys_identify `{ScalarLaw Number, Sha256Api} M
    kind1 t1 v1 c1 i1 kind2 t2 v2 c2 i2 key :
  collision_free M ->
  (forall b, canonical_json_bytes (root_of kind1 t1 v1 c1 i1) = Ok b -> M b) ->
  (forall b, canonical_json_bytes (root_of kind2 t2 v2 c2 i2) = Ok b -> M b) ->
  wf_hash c1 -> wf_hash c2 -> map_Forall (fun _ => wf_hash) i1 -> map_Forall (fun _ => wf_hash) i2 ->
  key_of kind1 t1 v1 c1 i1 = Ok key -> key_of kind2 t2 v2 c2 i2 = Ok key ->
  kind1 = kind2 /\ t1 = t2 /\ v1 = v2 /\ c1 = c2 /\ i1 = i2.
Proof.
  intros HM M1 M2 Hc1 Hc2 Hi1 Hi2 K1 K2. rewrite key_of_root in K1, K2. inv_res.
  match goal with E : sha256 _ = sha256 _ |- _ => apply HM in E; [|by auto..]; subst end.
  apply (root_inj (Number := Number)); try done. eapply canonical_json_inj; [apply root_wf..|eassumption|eassumption].
Qed.

(** Configurations are digested canonically: two configurations (JSON
    maps throughout) have one digest only if they are equal, provided SHA-256
    has no collision among their texts. *)
Theorem config_digest_identifies `{ScalarLaw Number, Sha256Api} M v w digest :
  collision_free M -> wf_json v -> wf_json w ->
  (forall b, canonical_json_bytes v = Ok b \/ canonical_json_bytes w = Ok b -> M b) ->
  config_digest_of v = Ok digest -> config_digest_of w = Ok digest -> v = w.
Proof.
  intros HM Hv Hw Hm K1 K2. unfold config_digest_of in *. inv_res.
  match goal with E : sha256 _ = sha256 _ |- _ => apply HM in E; [|by auto..]; subst end.
  eapply canonical_json_inj; [exact Hv|exact Hw|eassumption|eassumption].
Qed.
