(* ===== verification/Subjects.v ===== *)
(** * Planned subjects

    The recipe layer below the build graph: reference names
    ([bobr-store/src/ref_name.rs]), input specifications and the planning of a
    builder's configuration ([bobr-builder/src/builder.rs]), planned builder
    subjects ([bobr-builder/src/subject.rs]) and planned source subjects
    ([bobr-source/src/lib.rs], [bobr-source/src/origins.rs]).  A builder and an
    origin handler are trait objects: records of the operations the planner
    calls on them. *)

From S2P Require Import Prelude Errors Hash Json Identity.

(** ** Names *)

Definition is_ascii_alphabetic (b : u8) : bool :=
  ((65 <=? b)%Z && (b <=? 90)%Z) || ((97 <=? b)%Z && (b <=? 122)%Z).
Definition is_ascii_alphanumeric (b : u8) : bool :=
  is_ascii_alphabetic b || ((48 <=? b)%Z && (b <=? 57)%Z).

Definition validate_ref_name (name : bytes) : result StoreError unit :=
  if bool_decide (name = []) then Err (SE_InvalidInput "ref name must not be empty")
  else if bool_decide (name = lit ".") || bool_decide (name = lit "..") then
    Err (SE_InvalidInput ("invalid ref name '" +:+ show name +:+ "'"))
  else if negb (forallb (fun b => is_ascii_alphanumeric b || (b =? 46)%Z || (b =? 95)%Z || (b =? 45)%Z)
                  name) then
    Err (SE_InvalidInput ("invalid ref name '" +:+ show name +:+ "'; allowed chars: [A-Za-z0-9._-]"))
  else Ok tt.

(** [validate_input_name]; a character outside ASCII has only bytes of 128 and
    more, so the test reads bytes. *)
Definition validate_input_name (name : bytes) : result string unit :=
  match name with
  | [] => Err "input name must not be empty"%string
  | first :: chars =>
      if negb (is_ascii_alphabetic first || (first =? 95)%Z) then
        Err ("input name '" +:+ show name +:+ "' must start with an ASCII letter or underscore")
      else if negb (forallb (fun b => is_ascii_alphanumeric b || (b =? 95)%Z) chars) then
        Err ("input name '" +:+ show name
             +:+ "' must contain only ASCII letters, digits, and underscores")
      else Ok tt
  end.

(** ** Input specifications *)

Record InputSpec := mkInputSpec {
  required_inputs : list bytes;
  optional_inputs : list bytes;
  allow_extra_inputs : bool;
}.

(** One round of the loop over the required inputs. *)
Definition check_required (builder_tag : bytes) (required : gset bytes) (name : bytes)
  : result string (gset bytes) :=
  map_err (fun error => "builder '" +:+ show builder_tag +:+ "' declares invalid required input '"
                        +:+ show name +:+ "': " +:+ error) (validate_input_name name) ;;;
  if bool_decide (name ∈ required) then
    Err ("builder '" +:+ show builder_tag +:+ "' declares duplicate required input '"
         +:+ show name +:+ "'")
  else Ok ({[name]} ∪ required).

Definition check_optional (builder_tag : bytes) (required : gset bytes) (optional : gset bytes)
  (name : bytes) : result string (gset bytes) :=
  map_err (fun error => "builder '" +:+ show builder_tag +:+ "' declares invalid optional input '"
                        +:+ show name +:+ "': " +:+ error) (validate_input_name name) ;;;
  if bool_decide (name ∈ optional) then
    Err ("builder '" +:+ show builder_tag +:+ "' declares duplicate optional input '"
         +:+ show name +:+ "'")
  else if bool_decide (name ∈ required) then
    Err ("builder '" +:+ show builder_tag +:+ "' declares input '" +:+ show name
         +:+ "' as both required and optional")
  else Ok ({[name]} ∪ optional).

Definition validate_for_builder (self : InputSpec) (builder_tag : bytes) : result string unit :=
  required <- try_fold (check_required builder_tag) ∅ (required_inputs self) ;;
  try_fold (check_optional builder_tag required) ∅ (optional_inputs self) ;;;
  Ok tt.

Definition reserved_input_names (self : InputSpec) : list bytes :=
  required_inputs self ++ optional_inputs self.
Definition is_required_input (self : InputSpec) (name : bytes) : bool :=
  bool_decide (name ∈ required_inputs self).
Definition is_optional_input (self : InputSpec) (name : bytes) : bool :=
  bool_decide (name ∈ optional_inputs self).
Definition is_reserved_input (self : InputSpec) (name : bytes) : bool :=
  is_required_input self name || is_optional_input self name.

(** [BTreeMap::keys]. *)
Definition input_names {T} (inputs : gmap bytes T) : list bytes :=
  sort_by id (map fst (map_to_list inputs)).

Definition ordered_present_input_names {T} (self : InputSpec) (inputs : gmap bytes T) : list bytes :=
  filter (fun name => is_Some (inputs !! name)) (required_inputs self)
  ++ filter (fun name => is_Some (inputs !! name)) (optional_inputs self)
  ++ filter (fun name => is_reserved_input self name = false) (input_names inputs).

(** ** Builders *)

(** [BuilderPlanError]. *)
Inductive BuilderPlanError :=
| UnknownBuilder (tag : bytes) (supported_tags : list bytes)
| Recipe (message : string)
| InvalidRequest (message : string)
| Identity_ (error : IdentityError).

(** [BuilderError] and its [Display]. *)
Inductive BuilderError :=
| InvalidRecipe (message : string)
| BuildCancelled (message : string)
| ExecutionFailed (message : string)
| NotImplemented (message : string).

Definition builder_error_message (e : BuilderError) : string :=
  match e with
  | InvalidRecipe m | BuildCancelled m | ExecutionFailed m | NotImplemented m => m
  end.

Definition show_names (names : list bytes) : string := show (join_with (lit ", ") names).

Definition plan_error_message (e : BuilderPlanError) : string :=
  match e with
  | UnknownBuilder tag supported_tags =>
      "unknown builder tag '" +:+ show tag +:+ "'; supported builders: " +:+ show_names supported_tags
  | Recipe message | InvalidRequest message => message
  | Identity_ error => ie_message error
  end.

Section Builders.
Context {Number : Type} `{ScalarWriter Number} `{Sha256Api}.

(** [dyn Builder].  [b_from_value] and [b_to_value] are [serde_json::from_value]
    into the builder's typed configuration and [serde_json::to_value] of it,
    generated by [derive]. *)
Record Builder := mkBuilder {
  b_tag : bytes;
  b_spec : InputSpec;
  b_impl_version : bytes;
  b_is_arch_dependent : bool;
  b_Config : Type;
  b_from_value : JValue Number -> result string b_Config;
  b_to_value : b_Config -> result string (JValue Number);
}.

(** [PlannedBuilder]: what the keys depend on. *)
Record PlannedBuilder := mkPlannedBuilder {
  pb_tag : bytes;
  pb_impl_version_token : bytes;
  pb_config_digest : bytes;
}.

(** [std::env::consts::ARCH]. *)
Variable ARCH : bytes.

Definition plan (self : Builder) (config : JValue Number) : result BuilderError PlannedBuilder :=
  typed <- map_err (fun error => InvalidRecipe ("invalid builder config: " +:+ error))
             (b_from_value self config) ;;
  canonical <- map_err (fun error =>
                 ExecutionFailed ("failed to serialize builder config: " +:+ error))
                 (b_to_value self typed) ;;
  config_digest <- map_err (fun error =>
                     ExecutionFailed ("failed to digest builder config: " +:+ ie_message error))
                     (config_digest_of canonical) ;;
  let impl_version_token :=
    if b_is_arch_dependent self then
      BOBR_BUILD_CORE_VERSION ++ lit "/" ++ b_impl_version self ++ lit "@" ++ ARCH
    else BOBR_BUILD_CORE_VERSION ++ lit "/" ++ b_impl_version self in
  Ok (mkPlannedBuilder (b_tag self) impl_version_token config_digest).

Definition planned_build_key (self : PlannedBuilder) (deps : gmap bytes bytes)
  : result IdentityError bytes :=
  compute_build_key (pb_tag self) (pb_impl_version_token self) (pb_config_digest self) deps.
Definition planned_reuse_key (self : PlannedBuilder) (deps : gmap bytes bytes)
  : result IdentityError bytes :=
  compute_reuse_key (pb_tag self) (pb_impl_version_token self) (pb_config_digest self) deps.

Record BuilderPlannedSubject := mkBuilderPlannedSubject {
  bs_tag : bytes;
  bs_name : bytes;
  bs_spec : InputSpec;
  bs_inputs : gmap bytes bytes;
  bs_build_key : bytes;
  bs_plan : PlannedBuilder;
}.

(** One round of the loop over the input names in [BuilderPlannedSubject::new]. *)
Definition check_input (tag : bytes) (spec : InputSpec) (input_name : bytes)
  : result BuilderPlanError unit :=
  map_err (fun error => Recipe ("invalid input '" +:+ show input_name +:+ "': " +:+ error))
    (validate_input_name input_name) ;;;
  if negb (allow_extra_inputs spec) && negb (is_reserved_input spec input_name) then
    Err (InvalidRequest ("builder '" +:+ show tag +:+ "' does not accept extra input '"
                         +:+ show input_name +:+ "'; allowed inputs: "
                         +:+ show_names (reserved_input_names spec)))
  else Ok tt.

Definition check_required_input (tag name : bytes) (inputs : gmap bytes bytes) (required : bytes)
  : result BuilderPlanError unit :=
  match inputs !! required with
  | Some _ => Ok tt
  | None =>
      Err (InvalidRequest ("builder '" +:+ show tag +:+ "' is missing required input '"
                           +:+ show required +:+ "' in recipe '" +:+ show name +:+ "'"))
  end.

Definition builder_subject_new (builder : Builder) (name : bytes) (config : JValue Number)
  (inputs : gmap bytes bytes) : result BuilderPlanError BuilderPlannedSubject :=
  let tag := b_tag builder in
  let spec := b_spec builder in
  try_fold (fun _ input_name => check_input tag spec input_name) tt (input_names inputs) ;;;
  try_fold (fun _ required => check_required_input tag name inputs required) tt
    (required_inputs spec) ;;;
  p <- map_err (fun error => Recipe (builder_error_message error)) (plan builder config) ;;
  build_key <- map_err Identity_ (planned_build_key p inputs) ;;
  Ok (mkBuilderPlannedSubject tag name spec inputs build_key p).

Definition subject_reuse_key (self : BuilderPlannedSubject) (input_hashes : gmap bytes bytes)
  : result BuilderPlanError bytes :=
  map_err Identity_ (planned_reuse_key (bs_plan self) input_hashes).

(** ** Sources *)

(** [dyn OriginHandler]: its tag and the outcome of [parse]. *)
Record OriginHandler := mkOriginHandler {
  oh_tag : bytes;
  oh_parse : list (bytes * JValue Number) -> bytes -> result string unit;
}.

Record SourcePlannedSubject := mkSourcePlannedSubject {
  ss_name : bytes;
  ss_build_key : bytes;
  ss_declared_object_hash : bytes;
  ss_origin_value : option (JValue Number);
}.

Definition source_subject_new (name declared_object_hash : bytes) (origin : option (JValue Number))
  : SourcePlannedSubject :=
  mkSourcePlannedSubject name (from_object_hash declared_object_hash) declared_object_hash origin.

Variable registered_origins : list OriginHandler.

Definition get_origin (tag : bytes) : option OriginHandler :=
  find (fun origin => bytes_eqb (oh_tag origin) tag) registered_origins.
Definition supported_origin_tags : list bytes := map oh_tag registered_origins.

Definition parse_origin_value (value : JValue Number) (field_path : bytes) : result string unit :=
  object <- ok_or (jas_object value) (show field_path +:+ ": expected object") ;;
  tag <- ok_or (and_then (jget object (lit "tag")) jas_str)
           (show field_path +:+ ".tag: expected string") ;;
  handler <- ok_or (get_origin tag)
               (show field_path +:+ ".tag: unsupported source origin tag '" +:+ show tag
                +:+ "' (supported: " +:+ show_names supported_origin_tags +:+ ")") ;;
  oh_parse handler object field_path.

(** [take_string] of [lib.rs]. *)
Definition source_take_string (object : list (bytes * JValue Number)) (field : bytes)
  : result string (bytes * list (bytes * JValue Number)) :=
  let (value, object) := jremove object field in
  value <- ok_or value ("missing required field '" +:+ show field +:+ "'") ;;
  s <- ok_or (jas_str value) (show field +:+ ": expected string") ;;
  Ok (s, object).

(** [str::trim]: the UTF-8 spellings of the Unicode white-space characters. *)
Definition white_space : list bytes :=
  [[9]; [10]; [11]; [12]; [13]; [32]; [194; 133]; [194; 160]; [225; 154; 128]; [226; 128; 128];
   [226; 128; 129]; [226; 128; 130]; [226; 128; 131]; [226; 128; 132]; [226; 128; 133];
   [226; 128; 134]; [226; 128; 135]; [226; 128; 136]; [226; 128; 137]; [226; 128; 138];
   [226; 128; 168]; [226; 128; 169]; [226; 128; 175]; [226; 129; 159]; [227; 128; 128]]%Z.

Definition trim_once (strip : bytes -> bytes -> option bytes) (s : bytes) : option bytes :=
  fold_right (fun w acc => match strip w s with Some r => Some r | None => acc end) None white_space.
Fixpoint trim_loop (strip : bytes -> bytes -> option bytes) (fuel : nat) (s : bytes) : bytes :=
  match fuel with
  | O => s
  | S fuel' => match trim_once strip s with Some r => trim_loop strip fuel' r | None => s end
  end.
Definition trim (s : bytes) : bytes :=
  let s := trim_loop strip_prefix (length s) s in trim_loop strip_suffix (length s) s.

Definition hash_error_message (e : ParseHexHashError) : string :=
  match e with
  | InvalidLength => "hash must contain 64 lowercase hex digits"
  | InvalidHex => "hash must contain only lowercase hex digits"
  end.

Definition parse_source_subject (object : list (bytes * JValue Number))
  : result string SourcePlannedSubject :=
  let* (name, object) := source_take_string object (lit "name") in
  let* (text, object) := source_take_string object (lit "object_hash") in
  declared_object_hash <- map_err (fun error =>
      "object_hash: invalid object hash: " +:+ hash_error_message error) (from_str (trim text)) ;;
  let (origin_value, object) := jremove object (lit "origin") in
  match origin_value with
  | Some value => parse_origin_value value (lit "origin")
  | None => Ok tt
  end ;;;
  if negb (bool_decide (object = [])) then
    Err ("unexpected fields: " +:+ show_names (jkeys object))
  else Ok (source_subject_new name declared_object_hash origin_value).
End Builders.

(** ** Facts *)

Lemma elem_of_input_names {T} (inputs : gmap bytes T) name :
  name ∈ input_names inputs <-> is_Some (inputs !! name).
Proof.
  unfold input_names. rewrite sort_by_perm, list_elem_of_fmap. split.
  - intros ([n v] & -> & Hin). apply elem_of_map_to_list in Hin. by exists v.
  - intros [v Hv]. exists (name, v). split; [done|]. by apply elem_of_map_to_list.
Qed.

Lemma input_names_nodup {T} (inputs : gmap bytes T) : NoDup (input_names inputs).
Proof. unfold input_names. rewrite sort_by_perm. apply NoDup_fst_map_to_list. Qed.

(** A specification whose validation passed. *)
Definition wf_spec (spec : InputSpec) : Prop :=
  NoDup (reserved_input_names spec) /\
  Forall (fun name => validate_input_name name = Ok tt) (reserved_input_names spec).

Lemma check_required_loop tag seen names seen' :
  try_fold (check_required tag) seen names = Ok seen' ->
  NoDup names /\ (forall n, n ∈ names -> n ∉ seen) /\
  Forall (fun name => validate_input_name name = Ok tt) names /\
  forall n, n ∈ seen' <-> n ∈ seen \/ n ∈ names.
Proof.
  revert seen. induction names as [|name names IH]; intros seen Hf; cbn [try_fold] in Hf.
  { inv_res. split; [constructor|]. split; [set_solver|]. split; [constructor|set_solver]. }
  unfold check_required at 1 in Hf. inv_res. bools.
  destruct (IH _ Hf) as (Hnd & Hd & Hv & Hm). destruct a0. split; [constructor; set_solver|].
  split; [set_solver|]. split; [by constructor|]. intros n. rewrite Hm. set_solver.
Qed.

Lemma check_optional_loop tag required seen names seen' :
  try_fold (check_optional tag required) seen names = Ok seen' ->
  NoDup names /\ (forall n, n ∈ names -> n ∉ seen /\ n ∉ required) /\
  Forall (fun name => validate_input_name name = Ok tt) names.
Proof.
  revert seen. induction names as [|name names IH]; intros seen Hf; cbn [try_fold] in Hf.
  { inv_res. split; [constructor|]. split; [set_solver|constructor]. }
  unfold check_optional at 1 in Hf. inv_res. bools.
  destruct (IH _ Hf) as (Hnd & Hd & Hv). destruct a0. split; [constructor; set_solver|].
  split; [set_solver|by constructor].
Qed.

Lemma validate_for_builder_ok spec tag : validate_for_builder spec tag = Ok tt -> wf_spec spec.
Proof.
  unfold validate_for_builder, wf_spec, reserved_input_names. intros Hv. inv_res.
  apply check_required_loop in E as (Hn1 & _ & Hv1 & Hm). apply check_optional_loop in E0 as (Hn2 & Hd & Hv2).
  split; [|by apply Forall_app]. apply NoDup_app. split; [done|]. split; [|done].
  intros n Hn Hn'. apply (Hd n Hn'). apply Hm. by right.
Qed.

Lemma is_reserved_iff spec name :
  is_reserved_input spec name = true <-> name ∈ reserved_input_names spec.
Proof.
  unfold is_reserved_input, is_required_input, is_optional_input, reserved_input_names.
  rewrite orb_true_iff, !bool_decide_eq_true, elem_of_app. done.
Qed.

(** The canonical input order is a permutation of the present inputs:
    for a specification that validates, [ordered_present_input_names] lists
    every present input exactly once, the declared ones first. *)
Theorem ordered_inputs_complete {T} (spec : InputSpec) (tag : bytes) (inputs : gmap bytes T) :
  validate_for_builder spec tag = Ok tt ->
  ordered_present_input_names spec inputs ≡ₚ input_names inputs.
Proof.
  intros Hv. apply validate_for_builder_ok in Hv as [Hnd _]. unfold reserved_input_names in Hnd.
  apply NoDup_app in Hnd as (Hn1 & Hd & Hn2). unfold ordered_present_input_names.
  apply NoDup_Permutation; [|apply input_names_nodup|].
  - apply NoDup_app. split; [by apply NoDup_filter|]. split; [|apply NoDup_app; split; [by apply NoDup_filter|]; split; [|apply NoDup_filter, input_names_nodup]].
    + intros n [_ Hn]%list_elem_of_filter Hin. apply elem_of_app in Hin as [[_ Hin]%list_elem_of_filter|[Hr _]%list_elem_of_filter].
      * by apply (Hd n).
      * apply not_true_iff_false in Hr. apply Hr, is_reserved_iff, elem_of_app. by left.
    + intros n [_ Hn]%list_elem_of_filter [Hr _]%list_elem_of_filter.
      apply not_true_iff_false in Hr. apply Hr, is_reserved_iff, elem_of_app. by right.
  - intros n. rewrite !elem_of_app, !list_elem_of_filter, elem_of_input_names.
    destruct (is_reserved_input spec n) eqn:Er; [|tauto].
    apply is_reserved_iff, elem_of_app in Er. split; [tauto|]. intros Hs. tauto.
Qed.

(** A builder subject is planned exactly when its inputs obey the input
    specification (valid names, no undeclared input unless extras are allowed,
    every required input present) and its configuration plans and its key can be
    computed; the subject records the inputs and that key. *)
Theorem builder_subject_spec `{ScalarWriter Number, Sha256Api} arch (b : Builder (Number := Number))
    name config inputs s :
  builder_subject_new arch b name config inputs = Ok s <->
  (forall n, is_Some (inputs !! n) ->
     validate_input_name n = Ok tt /\
     (allow_extra_inputs (b_spec b) = true \/ n ∈ reserved_input_names (b_spec b))) /\
  (forall n, n ∈ required_inputs (b_spec b) -> is_Some (inputs !! n)) /\
  exists p key, plan arch b config = Ok p /\ planned_build_key p inputs = Ok key /\
    s = mkBuilderPlannedSubject (b_tag b) name (b_spec b) inputs key p.
Proof.
  assert (Hin : forall n, check_input (b_tag b) (b_spec b) n = Ok tt <-> validate_input_name n = Ok tt /\
     (allow_extra_inputs (b_spec b) = true \/ n ∈ reserved_input_names (b_spec b))).
  { intros n. unfold check_input. rewrite <- is_reserved_iff.
    destruct (validate_input_name n) as [[]|]; cbn [map_err]; [|split; [done|by intros []]].
    destruct (allow_extra_inputs (b_spec b)), (is_reserved_input (b_spec b) n); simpl; split; try tauto; try done.
    by intros [_ [?|?]]. }
  assert (Hreq : forall n, check_required_input (b_tag b) name inputs n = Ok tt <-> is_Some (inputs !! n)).
  { intros n. unfold check_required_input. by destruct (inputs !! n). }
  unfold builder_subject_new. split.
  - intros Hs. inv_res. repeat match goal with u : () |- _ => destruct u end.
    apply try_fold_unit in E, E0. rewrite Forall_forall in E, E0. split; [|split].
    + intros n Hn. apply Hin, E. by apply elem_of_input_names.
    + intros n Hn. by apply Hreq, E0.
    + by eexists _, _.
  - intros (H1 & H2 & p & key & Hp & Hk & ->).
    rewrite (proj2 (try_fold_unit _ (input_names inputs))), (proj2 (try_fold_unit _ (required_inputs _))).
    + by rewrite Hp; cbn [map_err]; rewrite Hk.
    + apply Forall_forall. intros n Hn. by apply Hreq, H2.
    + apply Forall_forall. intros n Hn. by apply Hin, H1, elem_of_input_names.
Qed.
