(* ===== verification/Graph.v ===== *)
(** * The build graph

    [bobr-source/src/graph.rs]: planning the reachable part of a request graph.
    The planner walks the graph depth first, memoises the build key of every
    node id, rejects cycles, and keeps the first node planned for each key. *)

From S2P Require Import Prelude Errors Hash Json Identity Subjects.

(** [GraphPlanErrorKind] and [GraphPlanError]. *)
Inductive GraphPlanErrorKind := RequestLoad | UnknownBuilderKind | InvalidRequestKind.

Record GraphPlanError := mkGraphPlanError {
  ge_kind : GraphPlanErrorKind;
  ge_message : string;
}.

Definition map_builder_error (error : BuilderPlanError) (path : bytes) : GraphPlanError :=
  let message := show path +:+ ": " +:+ plan_error_message error in
  let kind := match error with
              | UnknownBuilder _ _ => UnknownBuilderKind
              | Recipe _ => RequestLoad
              | InvalidRequest _ | Identity_ _ => InvalidRequestKind
              end in
  mkGraphPlanError kind message.

(** [str::eq_ignore_ascii_case]. *)
Definition to_ascii_lowercase (b : u8) : u8 := if (65 <=? b)%Z && (b <=? 90)%Z then (b + 32)%Z else b.
Definition eq_ignore_ascii_case (a b : bytes) : bool :=
  bytes_eqb (map to_ascii_lowercase a) (map to_ascii_lowercase b).

Section Planning.
Context {Number : Type} `{ScalarWriter Number} `{Sha256Api}.
Variable ARCH : bytes.
Variable registered_builders : list (Builder (Number := Number)).
Variable registered_origins : list (OriginHandler (Number := Number)).

Inductive PlannedNode :=
| Source (subject : SourcePlannedSubject (Number := Number))
| BuilderNode (subject : BuilderPlannedSubject).

Definition node_name (n : PlannedNode) : bytes :=
  match n with Source s => ss_name s | BuilderNode s => bs_name s end.
Definition node_build_key (n : PlannedNode) : bytes :=
  match n with Source s => ss_build_key s | BuilderNode s => bs_build_key s end.
Definition node_tag (n : PlannedNode) : bytes :=
  match n with Source _ => lit "Source" | BuilderNode s => bs_tag s end.

Record PlannedGraph := mkPlannedGraph {
  pg_goals : list bytes;
  pg_nodes : gmap bytes PlannedNode;
}.

Definition take_string (object : list (bytes * JValue Number)) (path field : bytes)
  : result GraphPlanError (bytes * list (bytes * JValue Number)) :=
  let (value, object) := jremove object field in
  value <- ok_or value (mkGraphPlanError RequestLoad
             (show path +:+ ": missing required field '" +:+ show field +:+ "'")) ;;
  s <- ok_or (jas_str value) (mkGraphPlanError RequestLoad
         (show path +:+ "." +:+ show field +:+ ": expected string")) ;;
  Ok (s, object).

Definition parse_input_value (value : JValue Number) (path : bytes) : result GraphPlanError bytes :=
  match value with
  | JString child => Ok child
  | JNull => Err (mkGraphPlanError RequestLoad (show path +:+ ": expected node id string, got null"))
  | JArray _ => Err (mkGraphPlanError RequestLoad (show path +:+ ": expected node id string, got array"))
  | _ => Err (mkGraphPlanError RequestLoad (show path +:+ ": expected node id string"))
  end.

Definition parse_builder_subject (tag : bytes) (object : list (bytes * JValue Number))
  (inputs : gmap bytes bytes) : result BuilderPlanError BuilderPlannedSubject :=
  let (name, object) := jremove object (lit "name") in
  name <- ok_or name (Recipe "missing required field 'name'") ;;
  name <- ok_or (jas_str name) (Recipe "name: expected string") ;;
  let (config, object) := jremove object (lit "config") in
  config <- ok_or config (Recipe "missing required field 'config'") ;;
  if negb (bool_decide (object = [])) then
    Err (Recipe ("unexpected fields: " +:+ show_names (jkeys object)))
  else
    builder <- ok_or (find (fun builder => eq_ignore_ascii_case (b_tag builder) tag) registered_builders)
                 (UnknownBuilder tag (map b_tag registered_builders)) ;;
    builder_subject_new ARCH builder name config inputs.

(** [Planner]; [request_nodes] is fixed. *)
Record Planner := mkPlanner {
  planned_nodes : gmap bytes PlannedNode;
  node_keys : gmap bytes bytes;
  visited_in_path : gset bytes;
}.

Variable request_nodes : gmap bytes (JValue Number).

Definition node_path (node_id : bytes) : bytes := lit "$.nodes." ++ node_id.

(** What [collect] reads of a request node before it visits children: the tag,
    the remaining members and, for a builder, the members of [inputs]. *)
Inductive Recipe_ :=
| RSource (subject : SourcePlannedSubject (Number := Number))
| RBuilder (tag : bytes) (object inputs : list (bytes * JValue Number)).

Definition read_recipe (node_id : bytes) : result GraphPlanError Recipe_ :=
  value <- ok_or (request_nodes !! node_id) (mkGraphPlanError InvalidRequestKind
             ("request references unknown node id '" +:+ show node_id +:+ "'")) ;;
  let path := node_path node_id in
  object <- ok_or (jas_object value) (mkGraphPlanError RequestLoad
              (show path +:+ ": expected request object")) ;;
  let* (tag, object) := take_string object path (lit "tag") in
  if bytes_eqb tag (lit "Source") then
    subject <- map_err (fun error => mkGraphPlanError RequestLoad (show path +:+ ": " +:+ error))
                 (parse_source_subject registered_origins object) ;;
    Ok (RSource subject)
  else
    let (inputs_value, object) := jremove object (lit "inputs") in
    inputs_value <- ok_or inputs_value (mkGraphPlanError RequestLoad
                      (show path +:+ ": missing required field 'inputs'")) ;;
    inputs_object <- ok_or (jas_object inputs_value) (mkGraphPlanError RequestLoad
                       (show path +:+ ".inputs: expected object")) ;;
    Ok (RBuilder tag object inputs_object).

(** The end of [collect]: name check, leaving the path, recording the node. *)
Definition record_node (st : Planner) (node_id : bytes) (node : PlannedNode)
  : result GraphPlanError (bytes * Planner) :=
  let key := node_build_key node in
  map_err (fun error => mkGraphPlanError RequestLoad
             (show (node_path node_id) +:+ ": " +:+ store_error_message error))
    (validate_ref_name (node_name node)) ;;;
  Ok (key, mkPlanner
             (match planned_nodes st !! key with
              | Some _ => planned_nodes st
              | None => <[key := node]> (planned_nodes st)
              end)
             (<[node_id := key]> (node_keys st))
             (visited_in_path st ∖ {[node_id]})).

(** The outcome of a planner call: [None] is exhausted fuel. *)
Definition Outcome (A : Type) : Type := option (result GraphPlanError A).

(** The loop over the members of [inputs]; [collect] visits a child. *)
Section Inputs.
Variable collect : Planner -> bytes -> Outcome (bytes * Planner).

Fixpoint collect_inputs (path : bytes) (st : Planner) (members : list (bytes * JValue Number))
  (inputs : gmap bytes bytes) : Outcome (gmap bytes bytes * Planner) :=
  match members with
  | [] => Some (Ok (inputs, st))
  | (input_name, input_value) :: members' =>
      let input_path := path ++ lit ".inputs." ++ input_name in
      match parse_input_value input_value input_path with
      | Err e => Some (Err e)
      | Ok child_id =>
          match collect st child_id with
          | None => None
          | Some (Err e) => Some (Err e)
          | Some (Ok (key, st)) => collect_inputs path st members' (<[input_name := key]> inputs)
          end
      end
  end.
End Inputs.

Fixpoint collect (fuel : nat) (st : Planner) (node_id : bytes) : Outcome (bytes * Planner) :=
  match fuel with
  | O => None
  | S fuel' =>
      match node_keys st !! node_id with
      | Some existing => Some (Ok (existing, st))
      | None =>
          if bool_decide (node_id ∈ visited_in_path st) then
            Some (Err (mkGraphPlanError InvalidRequestKind
              ("request graph contains a cycle through node id '" +:+ show node_id +:+ "'")))
          else
            let st := mkPlanner (planned_nodes st) (node_keys st) ({[node_id]} ∪ visited_in_path st) in
            match read_recipe node_id with
            | Err e => Some (Err e)
            | Ok (RSource subject) => Some (record_node st node_id (Source subject))
            | Ok (RBuilder tag object inputs_object) =>
                match collect_inputs (collect fuel') (node_path node_id) st inputs_object ∅ with
                | None => None
                | Some (Err e) => Some (Err e)
                | Some (Ok (inputs, st)) =>
                    Some (subject <- map_err (fun error => map_builder_error error (node_path node_id))
                                       (parse_builder_subject tag object inputs) ;;
                          record_node st node_id (BuilderNode subject))
                end
            end
      end
  end.

(** The check of the goals in [plan_graph]. *)
Definition check_goal (seen_goals : gset bytes) (goal : bytes) : result GraphPlanError (gset bytes) :=
  if bool_decide (goal ∈ seen_goals) then
    Err (mkGraphPlanError InvalidRequestKind
           ("request graph contains duplicate goal node id '" +:+ show goal +:+ "'"))
  else match request_nodes !! goal with
  | Some _ => Ok ({[goal]} ∪ seen_goals)
  | None => Err (mkGraphPlanError InvalidRequestKind
                   ("request goal references unknown node id '" +:+ show goal +:+ "'"))
  end.

Fixpoint collect_goals (fuel : nat) (st : Planner) (goal_ids : list bytes)
  : Outcome (list bytes * Planner) :=
  match goal_ids with
  | [] => Some (Ok ([], st))
  | goal :: goal_ids' =>
      match collect fuel st goal with
      | None => None
      | Some (Err e) => Some (Err e)
      | Some (Ok (key, st)) =>
          match collect_goals fuel st goal_ids' with
          | Some (Ok (keys, st)) => Some (Ok (key :: keys, st))
          | other => other
          end
      end
  end.

(** [plan_graph].  Each nested visit adds an id of the request (or the one
    unknown id that ends the walk) to the path, so two more rounds than there
    are request nodes are enough. *)
Definition plan_fuel : nat := S (S (size request_nodes)).

Definition plan_graph (goal_ids : list bytes) : Outcome PlannedGraph :=
  if bool_decide (goal_ids = []) then
    Some (Err (mkGraphPlanError InvalidRequestKind "request graph requires at least one goal"))
  else match try_fold check_goal ∅ goal_ids with
  | Err e => Some (Err e)
  | Ok _ =>
      match collect_goals plan_fuel (mkPlanner ∅ ∅ ∅) goal_ids with
      | None => None
      | Some (Err e) => Some (Err e)
      | Some (Ok (goals, planned)) => Some (Ok (mkPlannedGraph goals (planned_nodes planned)))
      end
  end.

(** ** Specification

    What a request means, without memoisation or path tracking: [Plans id n]
    holds when the finite unfolding of the graph below [id] plans to [n]. *)

Abbreviation Recipes := (list (bytes * JValue Number)).

Inductive Plans : bytes -> PlannedNode -> Prop :=
| plans_source id subject :
    read_recipe id = Ok (RSource subject) -> validate_ref_name (ss_name subject) = Ok tt ->
    Plans id (Source subject)
| plans_builder id tag object members inputs subject :
    read_recipe id = Ok (RBuilder tag object members) ->
    PlansInputs (node_path id) members ∅ inputs ->
    parse_builder_subject tag object inputs = Ok subject ->
    validate_ref_name (bs_name subject) = Ok tt ->
    Plans id (BuilderNode subject)
with PlansInputs : bytes -> Recipes -> gmap bytes bytes -> gmap bytes bytes -> Prop :=
| plans_no_input path inputs : PlansInputs path [] inputs inputs
| plans_input path name value child node members inputs inputs' :
    parse_input_value value (path ++ lit ".inputs." ++ name) = Ok child ->
    Plans child node ->
    PlansInputs path members (<[name := node_build_key node]> inputs) inputs' ->
    PlansInputs path ((name, value) :: members) inputs inputs'.

Scheme Plans_mind := Induction for Plans Sort Prop
  with PlansInputs_mind := Induction for PlansInputs Sort Prop.
Combined Scheme Plans_ind2 from Plans_mind, PlansInputs_mind.

(** The edges of the request graph. *)
Definition Child (id child : bytes) : Prop :=
  exists tag object members name,
    read_recipe id = Ok (RBuilder tag object members) /\ (name, JString child) ∈ members.

Definition reachable (goals : list bytes) (id : bytes) : Prop :=
  exists goal, goal ∈ goals /\ rtc Child goal id.

Lemma parse_input_string value path child :
  parse_input_value value path = Ok child <-> value = JString child.
Proof. destruct value; simpl; split; congruence. Qed.

Lemma plans_deterministic :
  (forall id n, Plans id n -> forall n', Plans id n' -> n = n') /\
  (forall path members i i', PlansInputs path members i i' ->
     forall j, PlansInputs path members i j -> i' = j).
Proof.
  apply Plans_ind2.
  - intros id subject Hr _ n' Hn'. inversion Hn'; congruence.
  - intros id tag object members inputs subject Hr _ IH Hp _ n' Hn'.
    inversion Hn' as [|? tag' object' members' inputs' subject' Hr' Hi' Hp' _]; subst; [congruence|].
    rewrite Hr in Hr'. injection Hr' as <- <- <-. rewrite (IH _ Hi') in Hp. congruence.
  - intros path inputs j Hj. by inversion Hj.
  - intros path name value child node members inputs inputs' Hv _ IHn _ IHi j Hj.
    inversion Hj as [|? ? ? child' node' ? ? ? Hv' Hn' Hi']; subst.
    rewrite Hv in Hv'. injection Hv' as <-. rewrite (IHn _ Hn') in *. by apply IHi.
Qed.

Lemma plans_unique id n n' : Plans id n -> Plans id n' -> n = n'.
Proof. intros H1 H2. by apply (proj1 plans_deterministic id n H1). Qed.

(** Planned nodes sit above planned nodes only: the unfolding is finite. *)
Lemma plans_children :
  (forall id n, Plans id n -> forall c, Child id c -> exists m, Plans c m) /\
  (forall path members i i', PlansInputs path members i i' ->
     forall name c, (name, JString c) ∈ members -> exists m, Plans c m).
Proof.
  apply Plans_ind2.
  - intros id subject Hr _ c (tag & object & members & name & Hr' & _). congruence.
  - intros id tag object members inputs subject Hr _ IH _ _ c (tag' & object' & members' & name & Hr' & Hin).
    rewrite Hr in Hr'. injection Hr' as <- <- <-. by apply (IH name).
  - intros path inputs name c Hin. by apply not_elem_of_nil in Hin.
  - intros path name value child node members inputs inputs' Hv Hn _ _ IHi name' c Hin.
    apply elem_of_cons in Hin as [E|Hin]; [|by apply (IHi name')].
    injection E as -> <-. apply parse_input_string in Hv. injection Hv as <-. by exists node.
Qed.

Lemma plans_acc :
  (forall id n, Plans id n -> Acc (flip Child) id) /\
  (forall path members i i', PlansInputs path members i i' ->
     forall name c, (name, JString c) ∈ members -> Acc (flip Child) c).
Proof.
  apply Plans_ind2.
  - intros id subject Hr _. constructor. intros c (tag & object & members & name & Hr' & _). congruence.
  - intros id tag object members inputs subject Hr _ IH _ _. constructor.
    intros c (tag' & object' & members' & name & Hr' & Hin).
    rewrite Hr in Hr'. injection Hr' as <- <- <-. by apply (IH name).
  - intros path inputs name c Hin. by apply not_elem_of_nil in Hin.
  - intros path name value child node members inputs inputs' Hv _ IHn _ IHi name' c Hin.
    apply elem_of_cons in Hin as [E|Hin]; [|by apply (IHi name')].
    injection E as -> <-. apply parse_input_string in Hv. by injection Hv as <-.
Qed.

Lemma acc_no_cycle id : Acc (flip Child) id -> ~ tc Child id id.
Proof.
  induction 1 as [id _ IH]. intros Ht. assert (Hy : exists y, Child id y /\ rtc Child y id).
  { inversion Ht as [|? y ? Hc Ht']; subst; [by exists id; split; [|constructor]|].
    exists y. split; [done|]. by apply tc_rtc. }
  destruct Hy as (y & Hc & Hr). apply (IH y Hc). eapply tc_rtc_l; [exact Hr|by constructor].
Qed.

(** ** Soundness of the planner *)

(** What the planner's tables mean. *)
Record sound (st : Planner) : Prop := mkSound {
  sound_keys id key : node_keys st !! id = Some key ->
    exists n, Plans id n /\ node_build_key n = key /\ is_Some (planned_nodes st !! key);
  sound_nodes key n : planned_nodes st !! key = Some n ->
    node_build_key n = key /\ exists id, node_keys st !! id = Some key /\ Plans id n;
  sound_children id child : is_Some (node_keys st !! id) -> Child id child ->
    is_Some (node_keys st !! child);
  sound_path id : id ∈ visited_in_path st -> node_keys st !! id = None;
}.

(** What one successful visit of [id] did. *)
Record visited_ok (st : Planner) (id key : bytes) (st' : Planner) : Prop := mkVisitedOk {
  vo_sound : sound st';
  vo_keys : node_keys st ⊆ node_keys st';
  vo_nodes : planned_nodes st ⊆ planned_nodes st';
  vo_path : visited_in_path st' = visited_in_path st;
  vo_key : node_keys st' !! id = Some key;
  vo_new i : is_Some (node_keys st' !! i) -> is_Some (node_keys st !! i) \/ rtc Child id i;
}.

Lemma visited_trans st id key st1 id2 key2 st2 :
  visited_ok st id key st1 -> visited_ok st1 id2 key2 st2 ->
  node_keys st ⊆ node_keys st2 /\ planned_nodes st ⊆ planned_nodes st2 /\
  visited_in_path st2 = visited_in_path st.
Proof.
  intros H1 H2. split; [|split].
  - etrans; [apply (vo_keys _ _ _ _ H1)|apply (vo_keys _ _ _ _ H2)].
  - etrans; [apply (vo_nodes _ _ _ _ H1)|apply (vo_nodes _ _ _ _ H2)].
  - rewrite (vo_path _ _ _ _ H2). apply (vo_path _ _ _ _ H1).
Qed.

(** Recording a node that its recipe plans to, whose children are recorded. *)
Lemma record_node_ok st0 st id node key st' :
  sound st -> node_keys st0 !! id = None -> id ∉ visited_in_path st0 ->
  visited_in_path st = {[id]} ∪ visited_in_path st0 ->
  node_keys st0 ⊆ node_keys st -> planned_nodes st0 ⊆ planned_nodes st ->
  (forall i, is_Some (node_keys st !! i) -> is_Some (node_keys st0 !! i) \/ rtc Child id i) ->
  (validate_ref_name (node_name node) = Ok tt -> Plans id node) ->
  (forall c, Child id c -> is_Some (node_keys st !! c)) ->
  record_node st id node = Ok (key, st') -> visited_ok st0 id key st'.
Proof.
  intros Hs Hn0 Hv0 Hv Hk Hp Hnew Hplan Hch Hr.
  assert (Hn : node_keys st !! id = None) by (apply (sound_path _ Hs); rewrite Hv; set_solver). unfold record_node in Hr. inv_res.
  match goal with u : unit |- _ => destruct u end. specialize (Hplan E).
  set (k := node_build_key node).
  assert (Hsub : planned_nodes st ⊆
    match planned_nodes st !! k with Some _ => planned_nodes st | None => <[k := node]> (planned_nodes st) end).
  { destruct (planned_nodes st !! k) eqn:Ek; [done|]. by apply insert_subseteq. }
  assert (Hkin : is_Some (match planned_nodes st !! k with Some _ => planned_nodes st
    | None => <[k := node]> (planned_nodes st) end !! k)).
  { destruct (planned_nodes st !! k) eqn:Ek; [by eexists|]. rewrite lookup_insert_eq. by eexists. }
  split; cbn [node_keys planned_nodes visited_in_path].
  - split; cbn [node_keys planned_nodes].
    + intros i key' Hi. apply lookup_insert_Some in Hi as [[<- <-]|[Hne Hi]]; [by exists node|].
      destruct (sound_keys _ Hs _ _ Hi) as (n & Pn & En & Hin). exists n. split; [done|]. split; [done|].
      destruct Hin as [x Hx]. exists x. by eapply lookup_weaken.
    + intros key' n Hkn. assert (Hold : planned_nodes st !! key' = Some n \/ (key' = k /\ n = node)).
      { destruct (planned_nodes st !! k) eqn:Ek; [by left|].
        apply lookup_insert_Some in Hkn as [[<- <-]|[_ ?]]; [by right|by left]. }
      destruct Hold as [Hold|[-> ->]].
      * destruct (sound_nodes _ Hs _ _ Hold) as (En & i & Hi & Pi). split; [done|]. exists i.
        split; [|done]. rewrite lookup_insert_ne; [done|]. intros <-. congruence.
      * split; [done|]. exists id. by rewrite lookup_insert_eq.
    + intros i c Hi Hc. destruct (decide (i = id)) as [->|Hne].
      * destruct (Hch c Hc) as [x Hx]. destruct (decide (c = id)) as [->|]; [by rewrite lookup_insert_eq|].
        rewrite lookup_insert_ne by congruence. by exists x.
      * rewrite lookup_insert_ne in Hi by congruence.
        destruct (sound_children _ Hs _ _ Hi Hc) as [x Hx].
        destruct (decide (c = id)) as [->|]; [by rewrite lookup_insert_eq|].
        rewrite lookup_insert_ne by congruence. by exists x.
    + intros i Hi. cbn [visited_in_path] in Hi. rewrite lookup_insert_ne by set_solver.
      apply (sound_path _ Hs). set_solver.
  - etrans; [exact Hk|]. by apply insert_subseteq.
  - by etrans.
  - rewrite Hv. set_solver.
  - by rewrite lookup_insert_eq.
  - intros i Hi. destruct (decide (i = id)) as [->|]; [right; constructor|].
    rewrite lookup_insert_ne in Hi by congruence. by apply Hnew.
Qed.

Lemma visited_plans st id key st' :
  visited_ok st id key st' -> exists n, Plans id n /\ node_build_key n = key.
Proof.
  intros Hv. destruct (sound_keys _ (vo_sound _ _ _ _ Hv) _ _ (vo_key _ _ _ _ Hv)) as (n & ? & ? & _).
  by exists n.
Qed.

Lemma keys_mono (m m' : gmap bytes bytes) i : m ⊆ m' -> is_Some (m !! i) -> is_Some (m' !! i).
Proof. intros Hm [x Hx]. exists x. by eapply lookup_weaken. Qed.

(** What the loop over the inputs of a node did. *)
Record inputs_ok (path : bytes) (members : Recipes) (st : Planner) (inputs : gmap bytes bytes)
    (st' : Planner) (inputs' : gmap bytes bytes) : Prop := mkInputsOk {
  io_sound : sound st';
  io_keys : node_keys st ⊆ node_keys st';
  io_nodes : planned_nodes st ⊆ planned_nodes st';
  io_path : visited_in_path st' = visited_in_path st;
  io_plans : PlansInputs path members inputs inputs';
  io_children name c : (name, JString c) ∈ members -> is_Some (node_keys st' !! c);
  io_new i : is_Some (node_keys st' !! i) ->
    is_Some (node_keys st !! i) \/ exists name c, (name, JString c) ∈ members /\ rtc Child c i;
}.

Lemma collect_inputs_ok visit path members st inputs st' inputs' :
  (forall st id key st', sound st -> visit st id = Some (Ok (key, st')) -> visited_ok st id key st') ->
  sound st -> collect_inputs visit path st members inputs = Some (Ok (inputs', st')) ->
  inputs_ok path members st inputs st' inputs'.
Proof.
  intros Hvisit. revert st inputs. induction members as [|[name v] members IH];
    intros st inputs Hs Hc; cbn [collect_inputs] in Hc.
  { injection Hc as <- <-. split; try done; [constructor|by intros ? ? ?%not_elem_of_nil|by left]. }
  destruct (parse_input_value v _) as [c|e] eqn:Ev; [|done].
  destruct (visit st c) as [[[key st1]|e]|] eqn:Ec; [|done|done].
  pose proof (Hvisit _ _ _ _ Hs Ec) as Hv.
  destruct (IH _ _ (vo_sound _ _ _ _ Hv) Hc) as [Is Ik In_ Ip Ipl Ich Inew].
  destruct (visited_plans _ _ _ _ Hv) as (n & Pn & En).
  pose proof (proj1 (parse_input_string _ _ _) Ev) as ->. split.
  - done.
  - etrans; [apply (vo_keys _ _ _ _ Hv)|done].
  - etrans; [apply (vo_nodes _ _ _ _ Hv)|done].
  - rewrite Ip. apply (vo_path _ _ _ _ Hv).
  - eapply plans_input; [exact Ev|exact Pn|]. by rewrite En.
  - intros name' c' Hin. apply elem_of_cons in Hin as [E|Hin]; [|by apply (Ich name')].
    injection E as -> ->. eapply keys_mono; [exact Ik|]. rewrite (vo_key _ _ _ _ Hv). by eexists.
  - intros i Hi. destruct (Inew i Hi) as [Hi1|(name' & c' & Hin & Hr)].
    + destruct (vo_new _ _ _ _ Hv i Hi1) as [?|Hr]; [by left|]. right. exists name, c.
      split; [left|done].
    + right. exists name', c'. split; [by right|done].
Qed.

Lemma sound_enter st id :
  sound st -> node_keys st !! id = None ->
  sound (mkPlanner (planned_nodes st) (node_keys st) ({[id]} ∪ visited_in_path st)).
Proof.
  intros [H1 H2 H3 H4] Hn. split; cbn; [done|done|done|].
  intros i Hi. apply elem_of_union in Hi as [->%elem_of_singleton|Hi]; [done|by apply H4].
Qed.

Lemma collect_ok fuel st id key st' :
  sound st -> collect fuel st id = Some (Ok (key, st')) -> visited_ok st id key st'.
Proof.
  revert st id key st'. induction fuel as [|fuel IH]; intros st id key st' Hs Hc; [done|].
  cbn [collect] in Hc. destruct (node_keys st !! id) as [k|] eqn:Ek.
  { injection Hc as <- <-. by split; try done; left. }
  destruct (bool_decide (id ∈ visited_in_path st)) eqn:Ev; [done|]. apply bool_decide_eq_false in Ev.
  set (st1 := mkPlanner _ _ _) in Hc. pose proof (sound_enter st id Hs Ek) as Hs1. fold st1 in Hs1.
  destruct (read_recipe id) as [[subject|tag object members]|e] eqn:Er; [| |done].
  - injection Hc as Hc. apply (record_node_ok st st1 id (Source subject) key st'); try done.
    + by left.
    + intros Hn. by apply plans_source.
    + intros c (tag & object & members & name & Hr & _). congruence.
  - destruct (collect_inputs (collect fuel) (node_path id) st1 members ∅) as [[[inputs st2]|e]|] eqn:Ei;
      [|done|done].
    destruct (collect_inputs_ok _ _ _ _ _ _ _ IH Hs1 Ei) as [Is Ik In_ Ip Ipl Ich Inew].
    injection Hc as Hc. inv_res.
    apply (record_node_ok st st2 id (BuilderNode a) key st'); try done.
    + intros i Hi. destruct (Inew i Hi) as [?|(name & c & Hin & Hr)]; [by left|]. right.
      eapply rtc_l; [|exact Hr]. by exists tag, object, members, name.
    + intros Hn. by eapply plans_builder.
    + intros c (tag' & object' & members' & name & Hr & Hin). rewrite Er in Hr.
      injection Hr as <- <- <-. by apply (Ich name).
Qed.

(** ** Totality: the fuel is enough *)

(** The request nodes that may still be entered. *)
Definition room (st : Planner) : nat := size (dom request_nodes ∖ visited_in_path st).

Lemma read_recipe_known id r : read_recipe id = Ok r -> id ∈ dom request_nodes.
Proof.
  unfold read_recipe. intros Hr. destruct (request_nodes !! id) eqn:E; [by apply elem_of_dom_2 in E|done].
Qed.

Lemma room_enter st id :
  id ∈ dom request_nodes -> id ∉ visited_in_path st ->
  (room (mkPlanner (planned_nodes st) (node_keys st) ({[id]} ∪ visited_in_path st)) < room st)%nat.
Proof.
  intros Hd Hv. unfold room. apply subset_size. cbn [visited_in_path]. split; [set_solver|].
  intros Hsub. specialize (Hsub id). set_solver.
Qed.

Lemma collect_inputs_total visit path members st inputs :
  (forall st' id, sound st' -> visited_in_path st' = visited_in_path st -> visit st' id <> None) ->
  (forall st' id key st'', sound st' -> visit st' id = Some (Ok (key, st'')) -> visited_ok st' id key st'') ->
  sound st -> collect_inputs visit path st members inputs <> None.
Proof.
  intros Htot Hok Hs. assert (Hp : visited_in_path st = visited_in_path st) by done.
  revert Hp Hs. generalize st at 1 3 4. intros st1. revert st1 inputs.
  induction members as [|[name v] members IH]; intros st1 inputs Hp Hs; cbn [collect_inputs]; [done|].
  destruct (parse_input_value v _) as [c|e]; [|done].
  pose proof (Htot st1 c Hs Hp) as Hn. destruct (visit st1 c) as [[[key st2]|e]|] eqn:Ec; [|done|done].
  pose proof (Hok _ _ _ _ Hs Ec) as Hv. apply IH; [|apply (vo_sound _ _ _ _ Hv)].
  by rewrite (vo_path _ _ _ _ Hv).
Qed.

Lemma collect_total fuel st id : sound st -> (room st + 2 <= fuel)%nat -> collect fuel st id <> None.
Proof.
  revert st id. induction fuel as [|fuel IH]; intros st id Hs Hf; [lia|]. cbn [collect].
  destruct (node_keys st !! id) as [k|] eqn:Ek; [done|].
  destruct (bool_decide (id ∈ visited_in_path st)) eqn:Ev; [done|]. apply bool_decide_eq_false in Ev.
  pose proof (sound_enter st id Hs Ek) as Hs1. set (st1 := mkPlanner _ _ _) in *.
  destruct (read_recipe id) as [[subject|tag object members]|e] eqn:Er; [done| |done].
  pose proof (room_enter st id (read_recipe_known _ _ Er) Ev) as Hroom. fold st1 in Hroom.
  assert (Ht : collect_inputs (collect fuel) (node_path id) st1 members ∅ <> None).
  { apply collect_inputs_total; [|intros; by eapply collect_ok|done].
    intros st' i Hs' Hp. apply IH; [done|]. unfold room in *. rewrite Hp. lia. }
  by destruct (collect_inputs _ _ st1 members ∅) as [[[inputs st2]|e]|].
Qed.

(** ** Completeness: what has a plan is planned *)

Lemma collect_inputs_complete visit path members st inputs inputs' :
  (forall st' name c n e, sound st' -> visited_in_path st' = visited_in_path st ->
     (name, JString c) ∈ members -> Plans c n -> visit st' c <> Some (Err e)) ->
  (forall st' id key st'', sound st' -> visit st' id = Some (Ok (key, st'')) -> visited_ok st' id key st'') ->
  sound st -> PlansInputs path members inputs inputs' ->
  match collect_inputs visit path st members inputs with
  | Some (Err _) => False
  | Some (Ok (i, _)) => i = inputs'
  | None => True
  end.
Proof.
  intros Hok Hv Hs Hpl. assert (Hp : visited_in_path st = visited_in_path st) by done.
  revert Hp Hs. generalize st at 1 3 4. intros st1 Hp Hs. revert st1 Hp Hs.
  induction Hpl as [path inputs|path name value child node members inputs inputs' Hval Hn Hpl IH];
    intros st1 Hp Hs; cbn [collect_inputs]; [done|].
  rewrite Hval. pose proof (proj1 (parse_input_string _ _ _) Hval) as ->.
  destruct (visit st1 child) as [[[key st2]|e]|] eqn:Ec; [| |done].
  - pose proof (Hv _ _ _ _ Hs Ec) as Hvo. destruct (visited_plans _ _ _ _ Hvo) as (n & Pn & <-).
    rewrite (plans_unique _ _ _ Pn Hn). apply IH; [| |apply (vo_sound _ _ _ _ Hvo)].
    + intros st' name' c n' e Hs' Hp' Hin. by apply (Hok st' name'); [..|right].
    + by rewrite (vo_path _ _ _ _ Hvo).
  - by apply (Hok st1 name child node e Hs Hp (list_elem_of_here _ _) Hn).
Qed.

Lemma collect_complete fuel st id n e :
  sound st -> Plans id n -> (forall v, v ∈ visited_in_path st -> tc Child v id) ->
  collect fuel st id <> Some (Err e).
Proof.
  revert st id n e. induction fuel as [|fuel IH]; intros st id n e Hs Hpl Hpath; [done|]. cbn [collect].
  destruct (node_keys st !! id) as [k|] eqn:Ek; [done|].
  destruct (bool_decide (id ∈ visited_in_path st)) eqn:Ev.
  { apply bool_decide_eq_true in Ev. exfalso. eapply acc_no_cycle; [|by apply Hpath].
    by eapply (proj1 plans_acc). }
  apply bool_decide_eq_false in Ev. pose proof (sound_enter st id Hs Ek) as Hs1.
  set (st1 := mkPlanner _ _ _) in *.
  destruct Hpl as [id subject Hr Hname|id tag object members inputs subject Hr Hi Hp Hname]; rewrite Hr.
  { unfold record_node. cbn [node_name]. by rewrite Hname. }
  assert (Hvisit : forall st' name c m e0, sound st' -> visited_in_path st' = visited_in_path st1 ->
    (name, JString c) ∈ members -> Plans c m -> collect fuel st' c <> Some (Err e0)).
  { intros st' name c m e0 Hs' Hp' Hin Hm. apply (IH st' c m e0 Hs' Hm). intros v Hv.
    assert (Hch : Child id c) by (by exists tag, object, members, name).
    rewrite Hp' in Hv. cbn [visited_in_path st1] in Hv.
    apply elem_of_union in Hv as [->%elem_of_singleton|Hv]; [by constructor|].
    eapply tc_r; [by apply Hpath|done]. }
  pose proof (collect_inputs_complete (collect fuel) (node_path id) members st1 ∅ inputs Hvisit
    (fun st id key st' => collect_ok fuel st id key st') Hs1 Hi) as Hc.
  destruct (collect_inputs (collect fuel) (node_path id) st1 members ∅) as [[[i st2]|e']|]; [|done|done].
  rewrite Hc, Hp. cbn [map_err]. unfold record_node. cbn [node_name]. by rewrite Hname.
Qed.

(** ** Goals *)

Lemma sound_initial : sound (mkPlanner ∅ ∅ ∅).
Proof.
  split; cbn.
  - intros i k Hi. by rewrite lookup_empty in Hi.
  - intros k n Hk. by rewrite lookup_empty in Hk.
  - intros i c [x Hx]. by rewrite lookup_empty in Hx.
  - intros i Hi. by apply elem_of_empty in Hi.
Qed.

Lemma check_goals_ok seen goals :
  is_ok (try_fold check_goal seen goals) = true <->
  NoDup goals /\ (forall g, g ∈ goals -> g ∉ seen) /\ Forall (fun g => is_Some (request_nodes !! g)) goals.
Proof.
  revert seen. induction goals as [|g goals IH]; intros seen; cbn [try_fold].
  { split; [|done]. intros _. split; [constructor|]. split; [by intros g ?%not_elem_of_nil|constructor]. }
  rewrite NoDup_cons, Forall_cons. unfold check_goal at 1. destruct (bool_decide (g ∈ seen)) eqn:E; bools.
  { split; [done|]. intros (_ & Hd & _). destruct (Hd g); [left|done]. }
  destruct (request_nodes !! g) eqn:Eg; [|split; [done|intros (_ & _ & [? ?] & _); done]].
  rewrite IH. setoid_rewrite elem_of_cons. split.
  - intros (Hn & Hd & Hf). split; [split; [intros Hin; apply (Hd g Hin); set_solver|done]|].
    split; [|split; [by eexists|done]]. intros x [->|Hx]; [done|]. specialize (Hd x Hx). set_solver.
  - intros ([Hni Hn] & Hd & _ & Hf). split; [done|]. split; [|done]. intros x Hx Hin.
    apply elem_of_union in Hin as [->%elem_of_singleton|Hin]; [done|]. apply (Hd x); [by right|done].
Qed.

Lemma collect_goals_ok fuel st goals keys st' :
  sound st -> visited_in_path st = ∅ -> collect_goals fuel st goals = Some (Ok (keys, st')) ->
  sound st' /\ node_keys st ⊆ node_keys st' /\
  Forall2 (fun id key => node_keys st' !! id = Some key) goals keys /\
  forall i, is_Some (node_keys st' !! i) -> is_Some (node_keys st !! i) \/ reachable goals i.
Proof.
  revert st keys. induction goals as [|g goals IH]; intros st keys Hs Hp Hc; cbn [collect_goals] in Hc.
  { injection Hc as <- <-. split; [done|]. split; [done|]. split; [constructor|]. tauto. }
  destruct (collect fuel st g) as [[[key st1]|e]|] eqn:Eg; [|done|done].
  pose proof (collect_ok _ _ _ _ _ Hs Eg) as Hv.
  destruct (collect_goals fuel st1 goals) as [[[keys1 st2]|e]|] eqn:Egs; [|done|done].
  injection Hc as <- <-.
  destruct (IH _ _ (vo_sound _ _ _ _ Hv) (eq_trans (vo_path _ _ _ _ Hv) Hp) Egs) as (Hs2 & Hk & Hf & Hn).
  split; [done|]. split; [etrans; [apply (vo_keys _ _ _ _ Hv)|done]|]. split.
  - constructor; [|done]. by eapply lookup_weaken; [apply (vo_key _ _ _ _ Hv)|].
  - intros i Hi. destruct (Hn i Hi) as [Hi1|(goal & Hg & Hr)].
    + destruct (vo_new _ _ _ _ Hv i Hi1) as [?|Hr]; [by left|]. right. exists g. split; [left|done].
    + right. exists goal. split; [by right|done].
Qed.

Lemma collect_goals_total st goals :
  sound st -> visited_in_path st = ∅ -> collect_goals plan_fuel st goals <> None.
Proof.
  revert st. induction goals as [|g goals IH]; intros st Hs Hp; cbn [collect_goals]; [done|].
  assert (Ht : collect plan_fuel st g <> None).
  { apply collect_total; [done|]. unfold room, plan_fuel. rewrite Hp, difference_empty_L, size_dom. lia. }
  destruct (collect plan_fuel st g) as [[[key st1]|e]|] eqn:Eg; [|done|done].
  pose proof (collect_ok _ _ _ _ _ Hs Eg) as Hv.
  specialize (IH st1 (vo_sound _ _ _ _ Hv) (eq_trans (vo_path _ _ _ _ Hv) Hp)).
  by destruct (collect_goals plan_fuel st1 goals) as [[[keys st2]|e]|].
Qed.

Lemma collect_goals_complete fuel st goals e :
  sound st -> visited_in_path st = ∅ -> Forall (fun g => exists n, Plans g n) goals ->
  collect_goals fuel st goals <> Some (Err e).
Proof.
  intros Hs Hp Hg. revert st Hs Hp. induction Hg as [|g goals [n Hn] Hg IH]; intros st Hs Hp;
    cbn [collect_goals]; [done|].
  assert (Hc : forall e', collect fuel st g <> Some (Err e')).
  { intros e'. apply (collect_complete fuel st g n e'); [done|done|]. rewrite Hp. by intros v ?%elem_of_empty. }
  destruct (collect fuel st g) as [[[key st1]|e']|] eqn:Eg; [|by destruct (Hc e')|done].
  pose proof (collect_ok _ _ _ _ _ Hs Eg) as Hv.
  specialize (IH st1 (vo_sound _ _ _ _ Hv) (eq_trans (vo_path _ _ _ _ Hv) Hp)).
  by destruct (collect_goals fuel st1 goals) as [[[keys st2]|e2]|].
Qed.

(** Everything reachable from recorded ids is recorded. *)
Lemma recorded_closed st i j :
  sound st -> is_Some (node_keys st !! i) -> rtc Child i j -> is_Some (node_keys st !! j).
Proof. intros Hs Hi Hr. induction Hr; [done|]. apply IHHr. by eapply sound_children. Qed.

(** A graph that was planned: the goals' plans in request order, and for every
    reachable id a node under its key, and no other node. *)
Definition planned (goals : list bytes) (g : PlannedGraph) : Prop :=
  Forall2 (fun id key => exists n, Plans id n /\ node_build_key n = key) goals (pg_goals g) /\
  (forall id, reachable goals id ->
     exists n, Plans id n /\ is_Some (pg_nodes g !! node_build_key n)) /\
  (forall key n, pg_nodes g !! key = Some n ->
     node_build_key n = key /\ exists id, reachable goals id /\ Plans id n).

Lemma plan_graph_ok goals g : plan_graph goals = Some (Ok g) -> planned goals g.
Proof.
  unfold plan_graph. destruct (bool_decide (goals = [])); [done|].
  destruct (try_fold check_goal ∅ goals); [|done].
  destruct (collect_goals plan_fuel (mkPlanner ∅ ∅ ∅) goals) as [[[keys st]|e]|] eqn:Ec; [|done|done].
  intros [= <-]. destruct (collect_goals_ok _ _ _ _ _ sound_initial eq_refl Ec) as (Hs & _ & Hf & Hn).
  assert (Hgoal : forall i, is_Some (node_keys st !! i) -> reachable goals i).
  { intros i Hi. destruct (Hn i Hi) as [[x Hx]|?]; [|done]. cbn in Hx. by rewrite lookup_empty in Hx. }
  split; [|split]; cbn [pg_goals pg_nodes].
  - eapply Forall2_impl; [exact Hf|]. intros id key Hk.
    destruct (sound_keys _ Hs _ _ Hk) as (n & Pn & En & _). by exists n.
  - intros id (goal & Hg & Hr). assert (Hi : is_Some (node_keys st !! goal)).
    { apply list_elem_of_lookup in Hg as [i Hi]. destruct (Forall2_lookup_l _ _ _ _ _ Hf Hi) as (k & _ & Hk).
      by eexists. }
    destruct (recorded_closed _ _ _ Hs Hi Hr) as [k Hk].
    destruct (sound_keys _ Hs _ _ Hk) as (n & Pn & <- & Hin). by exists n.
  - intros key n Hk. destruct (sound_nodes _ Hs _ _ Hk) as (En & id & Hid & Pn). split; [done|].
    exists id. split; [apply Hgoal; by eexists|done].
Qed.

Lemma plans_known id n : Plans id n -> is_Some (request_nodes !! id).
Proof.
  intros Hp. apply elem_of_dom. destruct Hp; by eapply read_recipe_known.
Qed.
End Planning.

(** C27. [plan_graph] is total and implements the unfolding of the request: it
    succeeds exactly when the goals are non-empty, distinct, and each has a
    finite plan, and then the graph holds the goals' keys in request order and,
    for every id reachable from a goal, a node under the key of its plan, and no
    other node. *)
Theorem plan_graph_refines `{ScalarWriter Number, Sha256Api} arch builders origins nodes goals :
  exists r, plan_graph arch builders origins nodes goals = Some r /\
    let plannable := goals <> [] /\ NoDup goals /\
      Forall (fun g => exists n, Plans arch builders origins nodes g n) goals in
    match r with
    | Ok g => plannable /\ planned arch builders origins nodes goals g
    | Err _ => ~ plannable
    end.
Proof.
  pose proof (plan_graph_ok arch builders origins nodes goals) as Hok. unfold plan_graph in *.
  destruct (bool_decide (goals = [])) eqn:E0; bools; [eexists; split; [done|]; by intros [? _]|].
  pose proof (check_goals_ok nodes ∅ goals) as Hg.
  destruct (try_fold (check_goal nodes) ∅ goals) as [seen|e]; cbn [is_ok] in Hg.
  2:{ eexists. split; [done|]. intros (_ & Hnd & Hp). assert (false = true); [|done]. apply Hg.
      split; [done|]. split; [set_solver|]. eapply Forall_impl; [exact Hp|]. intros g [n Hn].
      by eapply plans_known. }
  destruct (proj1 Hg eq_refl) as (Hnd & _ & _).
  pose proof (collect_goals_total arch builders origins nodes _ goals
    (sound_initial arch builders origins nodes) eq_refl) as Ht.
  pose proof (fun e => collect_goals_complete arch builders origins nodes (plan_fuel nodes) _ goals e
    (sound_initial arch builders origins nodes) eq_refl) as Hc.
  destruct (collect_goals _ _ _ _ _ _ goals) as [[[keys st]|e]|]; [| |done].
  - eexists. split; [done|]. destruct (Hok _ eq_refl) as (Hf & Hr & Hn). split; [|done].
    split; [done|]. split; [done|]. apply Forall_forall. intros g Hin.
    destruct (Hr g) as (n & Pn & _); [|by exists n]. exists g. split; [done|constructor].
  - eexists. split; [done|]. intros (_ & _ & Hp). by destruct (Hc e Hp).
Qed.

(** ** The planned graph is a closed DAG *)

Section Closed.
Context {Number : Type} `{ScalarWriter Number} `{Sha256Api}.
Variables (arch : bytes) (builders : list (Builder (Number := Number)))
  (origins : list (OriginHandler (Number := Number))) (nodes : gmap bytes (JValue Number)).

(** Every input of a planned builder is the key of a planned child. *)
Lemma plans_inputs_values path members inputs inputs' name key :
  PlansInputs arch builders origins nodes path members inputs inputs' ->
  inputs' !! name = Some key ->
  inputs !! name = Some key \/
  exists c n, (name, JString c) ∈ members /\ Plans arch builders origins nodes c n /\
    node_build_key n = key.
Proof.
  induction 1 as [|path name' value child node members inputs inputs' Hv Hn Hi IH]; intros Hk; [by left|].
  destruct (IH Hk) as [Hl|(c & n & Hin & Pn & En)].
  - apply lookup_insert_Some in Hl as [[<- <-]|[_ ?]]; [|by left]. right. exists child, node.
    apply parse_input_string in Hv as ->. split; [left|done].
  - right. exists c, n. split; [by right|done].
Qed.

Lemma builder_subject_inputs (b : Builder (Number := Number)) name config inputs s :
  builder_subject_new arch b name config inputs = Ok s -> bs_inputs s = inputs.
Proof. unfold builder_subject_new. intros Hs. by inv_res. Qed.

Lemma parse_builder_inputs tag object inputs s :
  parse_builder_subject arch builders tag object inputs = Ok s -> bs_inputs s = inputs.
Proof.
  unfold parse_builder_subject, jremove. intros Hs. inv_res. by eapply builder_subject_inputs.
Qed.

Lemma plans_builder_children id s name key :
  Plans arch builders origins nodes id (BuilderNode s) -> bs_inputs s !! name = Some key ->
  exists c n, Child origins nodes id c /\ Plans arch builders origins nodes c n /\ node_build_key n = key.
Proof.
  intros Hp Hk. inversion Hp as [|? tag object members inputs ? Hr Hi Hb _]; subst.
  rewrite (parse_builder_inputs _ _ _ _ Hb) in Hk.
  destruct (plans_inputs_values _ _ _ _ _ _ Hi Hk) as [Hl|(c & n & Hin & Pn & En)].
  - by rewrite lookup_empty in Hl.
  - exists c, n. split; [|done]. by exists tag, object, members, name.
Qed.

Lemma plans_name id n : Plans arch builders origins nodes id n -> validate_ref_name (node_name n) = Ok tt.
Proof. by destruct 1. Qed.
End Closed.

(** C36. A planned graph is closed and acyclic: no reachable request node is
    on a cycle, every goal key and every input key of every builder node is the
    key of a node of the graph, each node sits under its own build key, and all
    node names are valid reference names. *)
Theorem plan_graph_closed_dag `{ScalarWriter Number, Sha256Api} arch builders origins nodes goals g :
  plan_graph arch builders origins nodes goals = Some (Ok g) ->
  (forall id, reachable origins nodes goals id -> ~ tc (Child origins nodes) id id) /\
  Forall (fun key => is_Some (pg_nodes g !! key)) (pg_goals g) /\
  forall key n, pg_nodes g !! key = Some n ->
    node_build_key n = key /\ validate_ref_name (node_name n) = Ok tt /\
    match n with
    | Source _ => True
    | BuilderNode s => forall name k, bs_inputs s !! name = Some k -> is_Some (pg_nodes g !! k)
    end.
Proof.
  intros Hg. destruct (plan_graph_ok _ _ _ _ _ _ Hg) as (Hgoals & Hreach & Hnodes). split; [|split].
  - intros id Hr. destruct (Hreach id Hr) as (n & Pn & _). apply acc_no_cycle.
    by eapply (proj1 (plans_acc arch builders origins nodes)).
  - apply Forall_forall. intros key Hk. apply list_elem_of_lookup in Hk as [i Hi].
    destruct (Forall2_lookup_r _ _ _ _ _ Hgoals Hi) as (id & Hid & n & Pn & <-).
    destruct (Hreach id) as (n' & Pn' & Hin).
    { exists id. split; [by eapply list_elem_of_lookup_2|constructor]. }
    by rewrite (plans_unique _ _ _ _ _ _ _ Pn Pn').
  - intros key n Hk. destruct (Hnodes key n Hk) as (En & id & Hr & Pn). split; [done|].
    split; [by eapply plans_name|]. destruct n as [s|s]; [done|]. intros name k Hin.
    destruct (plans_builder_children _ _ _ _ _ _ _ _ Pn Hin) as (c & m & Hc & Pm & <-).
    destruct (Hreach c) as (m' & Pm' & Hm).
    { destruct Hr as (goal & Hgoal & Hrt). exists goal. split; [done|]. by eapply rtc_r. }
    by rewrite (plans_unique _ _ _ _ _ _ _ Pm Pm').
Qed.
