(* ===== verification/GraphToy.v ===== *)
(** * A small build graph

    [IdentityExamples]: an instance of [ScalarWriter] that satisfies [ScalarLaw], and
    the witnesses of the identity properties.  [GraphExamples]: a request with one
    source and two builders, planned with that writer; the witnesses of the planning
    properties. *)

From S2P Require Import Prelude Errors Hash Text FsManifest JsonToy Json Identity Subjects Graph.

Module IdentityExamples.
#[local] Existing Instance ToySha.sha256_api.

(** Scalars with unsigned numbers, written with the escapes of the quote and
    the backslash. *)
Definition scalar_text (s : Scalar Z) : bytes :=
  match s with
  | SNull => lit "null"
  | SBool true => lit "true"
  | SBool false => lit "false"
  | SNumber n => to_decimal n
  | SString s => quoted s
  end.

#[export] Instance toy_writer : ScalarWriter Z := {|
  to_writer s :=
    match s with
    | SNumber n => if bool_decide (0 <= n < 2 ^ 64)%Z then Ok (scalar_text s) else Err "number out of range"
    | _ => Ok (scalar_text s)
    end
|}.

Lemma toy_text s t : to_writer s = Ok t ->
  t = scalar_text s /\ match s with SNumber n => is_u64 n | _ => True end.
Proof.
  destruct s as [|b|n|s]; cbn -[bool_decide]; intros E; inv_res; try done.
  by apply bool_decide_eq_true in G.
Qed.

(** The end of a digit string is where the first delimiter stands. *)
Lemma digits_unique ds es x y :
  forallb is_digit ds = true -> forallb is_digit es = true -> delimiter x -> delimiter y ->
  ds ++ x = es ++ y -> ds = es /\ x = y.
Proof.
  assert (Hno : forall z k, delimiter (z :: k) -> is_digit z = false).
  { intros z k Hz. simpl in Hz. destruct (is_digit z) eqn:E; [|done]. apply is_digit_range in E. lia. }
  intros Hd. revert es. induction ds as [|d ds IH]; intros [|e es] He Hx Hy E;
    cbn [forallb app] in *; bools.
  - done.
  - subst x. by rewrite (Hno e _ Hx) in H.
  - subst y. by rewrite (Hno d _ Hy) in H.
  - injection E as -> E. by destruct (IH ltac:(done) es ltac:(done) Hx Hy E) as [-> ->].
Qed.

Lemma quoted_unique s t x y : quoted s ++ x = quoted t ++ y -> s = t /\ x = y.
Proof.
  unfold quoted, q. intros E. rewrite <- !app_assoc in E. injection E as E.
  apply (f_equal unquote) in E. cbn [app] in E. rewrite !unquote_escape in E. by injection E.
Qed.

Lemma toy_head s : match s with SNumber n => is_u64 n | _ => True end ->
  exists b r, scalar_text s = b :: r /\
    match s with
    | SNull => b = 110%Z | SBool true => b = 116%Z | SBool false => b = 102%Z
    | SNumber _ => is_digit b = true | SString _ => b = 34%Z
    end.
Proof.
  intros Hs. destruct s as [|[]|n|s]; try (eexists _, _; split; [reflexivity|done]).
  cbn [scalar_text]. destruct (to_decimal_ok n Hs) as [_ Hd]. pose proof (to_decimal_nonempty n).
  destruct (to_decimal n) as [|b r]; [done|]. simpl in Hd. bools. by eexists _, _.
Qed.

#[export] Instance toy_scalar_law : ScalarLaw (Number := Z).
Proof.
  split.
  - intros a b s t x y Ha Hb Hx Hy E. apply toy_text in Ha as [-> Ha], Hb as [-> Hb].
    destruct (toy_head a Ha) as (b1 & r1 & E1 & H1), (toy_head b Hb) as (b2 & r2 & E2 & H2).
    pose proof E as E'. rewrite E1, E2 in E'. injection E' as Eb _.
    destruct a as [|[]|n|u], b as [|[]|k|w]; subst; try discriminate;
      try (apply is_digit_range in H1; lia); try (apply is_digit_range in H2; lia);
      try (by apply app_inv_head in E).
    + destruct (to_decimal_ok n Ha) as [R1 D1], (to_decimal_ok k Hb) as [R2 D2].
      destruct (digits_unique _ _ _ _ D1 D2 Hx Hy E) as [Ed ->]. cbn [scalar_text] in Ed.
      split; [|done]. f_equal. rewrite <- R1, <- R2. by rewrite Ed.
    + apply quoted_unique in E as [-> ->]. done.
  - intros a s Ha. apply toy_text in Ha as [-> Ha].
    destruct (toy_head a Ha) as (b & r & -> & H). exists b, r. split; [done|].
    destruct a as [|[]|n|u]; subst; try done. apply is_digit_range in H. lia.
Qed.

Definition cfg : bytes := repeat 3%Z 32.
Definition deps : gmap bytes bytes := {[ lit "src" := repeat 5%Z 32; lit "tool" := repeat 6%Z 32 ]}.

Definition doc : bytes :=
  match canonical_json_bytes (root_of (Number := Z) BuildKind (lit "Tree") (lit "2/1") cfg deps) with
  | Ok b => b | Err _ => []
  end.

Lemma doc_ok b :
  canonical_json_bytes (root_of (Number := Z) BuildKind (lit "Tree") (lit "2/1") cfg deps) = Ok b ->
  b = doc.
Proof. unfold doc. by intros ->. Qed.

Lemma singleton_free (m : bytes) : collision_free (fun x => x = m).
Proof. by intros x y -> ->. Qed.

Lemma wf_repeat_hash z : is_u8 z -> wf_hash (repeat z 32).
Proof. intros Hz. split; [by apply wf_repeat|by rewrite repeat_length]. Qed.

Lemma deps_wf : map_Forall (fun _ => wf_hash) deps.
Proof.
  apply map_Forall_insert_2; [apply wf_repeat_hash; unfold is_u8; lia|].
  apply map_Forall_singleton. apply wf_repeat_hash; unfold is_u8; lia.
Qed.

Lemma keys_identify_witness : lit "Tree" = lit "Tree" /\ deps = deps.
Proof.
  assert (Hc : wf_hash cfg) by (apply wf_repeat_hash; unfold is_u8; lia).
  destruct (keys_identify (Number := Z) (fun x => x = doc) BuildKind (lit "Tree") (lit "2/1") cfg deps
    BuildKind (lit "Tree") (lit "2/1") cfg deps (sha256 doc) (singleton_free doc) doc_ok doc_ok
    Hc Hc deps_wf deps_wf) as (_ & Ht & _ & _ & Hi).
  - vm_compute. reflexivity.
  - vm_compute. reflexivity.
  - split; [exact Ht|exact Hi].
Defined.

Definition config : JValue Z := JObject [(lit "flag", JBool true); (lit "n", JArray [JNumber 7%Z; JNull])].

Definition config_text : bytes :=
  match canonical_json_bytes config with Ok b => b | Err _ => [] end.

Lemma config_digest_identifies_witness : config = config.
Proof.
  apply (config_digest_identifies (fun x => x = config_text) config config (sha256 config_text)
    (singleton_free config_text)).
  - repeat constructor.
  - repeat constructor.
  - unfold config_text. by intros b [->| ->].
  - vm_compute. reflexivity.
  - vm_compute. reflexivity.
Defined.
End IdentityExamples.

Module GraphExamples.
#[local] Existing Instance ToySha.sha256_api.
#[local] Existing Instance IdentityExamples.toy_writer.

Definition group_spec : InputSpec := mkInputSpec [lit "base"] [lit "extra"] true.

Definition group : Builder (Number := Z) :=
  mkBuilder (lit "Group") group_spec (lit "1") false (JValue Z) (fun v => Ok v) (fun v => Ok v).

Definition source (name : string) (digit : Z) : JValue Z :=
  JObject [(lit "name", JString (lit name)); (lit "object_hash", JString (repeat digit 64));
           (lit "tag", JString (lit "Source"))].

Definition grouped (name : string) (inputs : list (bytes * JValue Z)) : JValue Z :=
  JObject [(lit "config", JObject []); (lit "inputs", JObject inputs); (lit "name", JString (lit name));
           (lit "tag", JString (lit "group"))].

Definition nodes : gmap bytes (JValue Z) :=
  {[ lit "app" := grouped "app" [(lit "base", JString (lit "lib")); (lit "src", JString (lit "src"))];
     lit "lib" := grouped "lib" [(lit "base", JString (lit "src"))];
     lit "src" := source "src" 49;
     lit "loop" := grouped "loop" [(lit "base", JString (lit "loop"))] ]}.

Definition planned_app : Outcome (PlannedGraph (Number := Z)) :=
  plan_graph (lit "x86_64") [group] [] nodes [lit "app"; lit "src"].

Definition app_graph : PlannedGraph (Number := Z) :=
  match planned_app with Some (Ok g) => g | _ => mkPlannedGraph [] ∅ end.

(** Three nodes are planned; the shared source once. *)
Example app_planned : size (pg_nodes app_graph) = 3%nat /\ length (pg_goals app_graph) = 2%nat.
Proof. vm_compute. split; reflexivity. Qed.

(** A node that is its own input is rejected. *)
Example loop_rejected :
  option_map is_ok (plan_graph (lit "x86_64") [group] [] nodes [lit "loop"]) = Some false.
Proof. vm_compute. reflexivity. Qed.

Lemma app_ok : planned_app = Some (Ok app_graph).
Proof. unfold app_graph. assert (option_map is_ok planned_app = Some true) as H by (vm_compute; reflexivity).
  destruct planned_app as [[g|e]|]; done.
Qed.

Lemma plan_graph_closed_dag_witness :
  Forall (fun key => is_Some (pg_nodes app_graph !! key)) (pg_goals app_graph).
Proof.
  exact (proj1 (proj2 (plan_graph_closed_dag (lit "x86_64") [group] [] nodes [lit "app"; lit "src"]
    app_graph app_ok))).
Defined.

Lemma ordered_inputs_complete_witness :
  ordered_present_input_names group_spec ({[ lit "a" := 1; lit "base" := 2 ]}%Z : gmap bytes Z)
  ≡ₚ input_names ({[ lit "a" := 1; lit "base" := 2 ]}%Z : gmap bytes Z).
Proof. apply (ordered_inputs_complete group_spec (lit "Group")). vm_compute. reflexivity. Defined.
End GraphExamples.
