(* ===== verification/Posix.v ===== *)
(** * The file system calls of the program

    What [std::fs], [std::path] and [std::os::unix::fs] give the store: a tree
    of files, directories and symbolic links, path resolution, and one answer
    per call.  A program is a value of the free monad over these calls
    ([prog]), so that it can be run alone ([run]) or interleaved with others.
    Every call may fail: the environment supplies, per call, the time and
    possibly an error. *)

From S2P Require Import Prelude Errors Hash FsObject FsArchive.

(** ** Trees *)

(** A resolved absolute path: names from the root. *)
Abbreviation path := (list bytes).

Inductive node :=
| Reg (mode : Z) (content : bytes)
| Dir (mode : Z) (children : list (bytes * node))
| Lnk (target : bytes) (mtime : Z).

Definition is_dir (n : node) : bool := match n with Dir _ _ => true | _ => false end.
Definition is_lnk (n : node) : bool := match n with Lnk _ _ => true | _ => false end.
Definition is_reg (n : node) : bool := match n with Reg _ _ => true | _ => false end.

Fixpoint get (t : node) (p : path) : option node :=
  match p with
  | [] => Some t
  | c :: p' =>
      match t with
      | Dir _ cs => match assoc c cs with Some n => get n p' | None => None end
      | _ => None
      end
  end.

(** Replace, add or remove one directory entry. *)
Fixpoint set_child (c : bytes) (o : option node) (cs : list (bytes * node))
  : list (bytes * node) :=
  match cs with
  | [] => match o with Some n => [(c, n)] | None => [] end
  | (d, m) :: cs' =>
      if bytes_eqb d c then
        match o with Some n => (d, n) :: set_child c None cs' | None => set_child c None cs' end
      else (d, m) :: set_child c o cs'
  end.

(** Put a node at a path whose parent is a directory, or remove it. *)
Fixpoint place (t : node) (p : path) (o : option node) : node :=
  match p with
  | [] => match o with Some n => n | None => t end
  | c :: p' =>
      match t with
      | Dir m cs =>
          match p' with
          | [] => Dir m (set_child c o cs)
          | _ => match assoc c cs with
                 | Some n => Dir m (set_child c (Some (place n p' o)) cs)
                 | None => t
                 end
          end
      | _ => t
      end
  end.

(** ** Errors and metadata *)

Inductive ErrorKind := NotFound | AlreadyExists | OtherKind.
Record IoError := mkIoError { io_kind : ErrorKind; io_text : string }.

#[export] Instance ErrorKind_eq_dec : EqDecision ErrorKind.
Proof. solve_decision. Defined.

Definition not_found : IoError := mkIoError NotFound "No such file or directory (os error 2)".
Definition already_exists : IoError := mkIoError AlreadyExists "File exists (os error 17)".
Definition not_a_directory : IoError := mkIoError OtherKind "Not a directory (os error 20)".
Definition is_a_directory : IoError := mkIoError OtherKind "Is a directory (os error 21)".
Definition not_empty : IoError := mkIoError OtherKind "Directory not empty (os error 39)".
Definition permission_denied : IoError := mkIoError OtherKind "Permission denied (os error 13)".
Definition invalid_argument : IoError := mkIoError OtherKind "Invalid argument (os error 22)".
Definition too_many_links : IoError :=
  mkIoError OtherKind "Too many levels of symbolic links (os error 40)".

(** [fs::Metadata]: the file type, the permission bits, of a link the time of
    its creation, and the size (which means nothing for a directory). *)
Inductive FileType := TFile | TDir | TSymlink.
Record Metadata := mkMetadata { file_type : FileType; md_mode : Z; md_modified : Z; md_len : Z }.

#[export] Instance FileType_eq_dec : EqDecision FileType.
Proof. solve_decision. Defined.

Definition metadata_of (n : node) : Metadata :=
  match n with
  | Reg mode content => mkMetadata TFile mode 0 (len content)
  | Dir mode _ => mkMetadata TDir mode 0 0
  | Lnk target mtime => mkMetadata TSymlink 0x1ff mtime (len target)
  end.

(** ** Resolution

    The walk of the kernel: the base is a resolved directory, a link costs one
    unit of the budget (the kernel allows forty) and restarts from its own
    directory or from the root; the last component is followed on demand. *)

Definition is_absolute (target : bytes) : bool := starts_with [47]%Z target.

Fixpoint resolve (budget : nat) (t : node) {struct budget}
  : path -> list bytes -> bool -> result IoError path :=
  fix walk (base : path) (rest : list bytes) (follow : bool) {struct rest}
    : result IoError path :=
    match rest with
    | [] => Ok base
    | c :: rest' =>
        if bytes_eqb c [] || bytes_eqb c [46]%Z then walk base rest' follow
        else if bytes_eqb c [46; 46]%Z then walk (removelast base) rest' follow
        else
          let p := base ++ [c] in
          match get t p with
          | None => if bool_decide (rest' = []) then Ok p else Err not_found
          | Some (Dir _ _) => walk p rest' follow
          | Some (Reg _ _) => if bool_decide (rest' = []) then Ok p else Err not_a_directory
          | Some (Lnk target _) =>
              if bool_decide (rest' = []) && negb follow then Ok p
              else
                match budget with
                | O => Err too_many_links
                | S n =>
                    resolve n t (if is_absolute target then [] else base)
                      (split_on 47 target ++ rest') follow
                end
          end
    end.

Definition MAX_LINKS : nat := 40.
Definition locate (t : node) (p : path) (follow : bool) : result IoError path :=
  resolve MAX_LINKS t [] p follow.

(** The resolved path and the node found there. *)
Definition lookup_node (t : node) (p : path) (follow : bool) : result IoError (path * node) :=
  q <- locate t p follow ;;
  match get t q with Some n => Ok (q, n) | None => Err not_found end.

(** ** Calls and their answers *)

Inductive Op :=
| OSymlinkMetadata (p : path)
| OMetadata (p : path)
| OReadLink (p : path)
| OSymlink (target : bytes) (p : path)
| ORename (p q : path)
| ORemoveFile (p : path)
| ORemoveDirAll (p : path)
| OSetPermissions (p : path) (mode : Z)
| OCreateDirAll (p : path)
| OWrite (p : path) (content : bytes)
| ORead (p : path)
| OReadDir (p : path)
| OLoad (p : path)
| OCanonicalize (p : path)
| OFetchAdd
| ONow.

Definition Resp (o : Op) : Type :=
  match o with
  | OSymlinkMetadata _ | OMetadata _ => result IoError Metadata
  | OReadLink _ | ORead _ => result IoError bytes
  | OReadDir _ => result IoError (list bytes)
  | OCanonicalize _ => result IoError path
  | OLoad _ => FsObj
  | OFetchAdd | ONow => Z
  | _ => result IoError unit
  end.

(** The state: the tree, the counter of pending imports of each process, and
    which task of a process drew which number of that counter. *)
Record World := mkWorld {
  tree : node;
  next_pending : gmap Z Z;
  claims : gmap (Z * Z) nat;
}.

(** Who makes a call. *)
Record Actor := mkActor { task : nat; pid : Z }.

(** What the environment contributes to a call: the time, and an error with
    what a failed call may leave behind: a part of a directory that was being
    removed, or a partly written file. *)
Record Fault := mkFault {
  f_error : IoError;
  f_keep : path -> bool;
  f_left_file : option bytes;
}.
Record Env := mkEnv { now : Z; fault : option Fault }.

Definition set_tree (w : World) (t : node) : World := mkWorld t (next_pending w) (claims w).

(** The view of the system calls that [hash_path] makes on a tree. *)
Fixpoint obj_of (n : node) : FsObj :=
  match n with
  | Reg mode content => FRegular mode (Ok [Chunk content])
  | Dir _ cs => FDir (Ok (map (fun '(c, m) => Ok (c, obj_of m)) cs))
  | Lnk target _ => FSymlink (Ok target)
  end.

(** The mode of a new file under the usual mask. *)
Definition NEW_FILE_MODE : Z := 0x1a4.
Definition NEW_DIR_MODE : Z := 0x1ed.
Definition OWNER_WRITE : Z := 0x80.

(** [rename(2)] on resolved paths.  Moving a directory to another parent
    rewrites its [..] entry, for which the owner needs write permission. *)
Definition rename_resolved (t : node) (a b : path) : result IoError node :=
  match get t a with
  | None => Err not_found
  | Some n =>
      if bool_decide (a = b) then Ok t
      else if bool_decide (a `prefix_of` b) then Err invalid_argument
      else if is_dir n && negb (bool_decide (removelast a = removelast b))
              && (Z.land (md_mode (metadata_of n)) OWNER_WRITE =? 0)%Z then Err permission_denied
      else
        match get t b with
        | None => Ok (place (place t a None) b (Some n))
        | Some (Dir _ cs) =>
            if negb (is_dir n) then Err is_a_directory
            else if bool_decide (b `prefix_of` a) || negb (Nat.eqb (length cs) 0) then Err not_empty
            else Ok (place (place t a None) b (Some n))
        | Some _ =>
            if is_dir n then Err not_a_directory else Ok (place (place t a None) b (Some n))
        end
  end.

(** One level of [create_dir_all]. *)
Definition create_dir_level (p : path) (t : node) (depth : nat) : result IoError node :=
  q <- locate t (take depth p) true ;;
  match get t q with
  | Some (Dir _ _) => Ok t
  | Some _ => Err already_exists
  | None => Ok (place t q (Some (Dir NEW_DIR_MODE [])))
  end.

(** Effect on the tree of a call that does not fail by the environment. *)
Definition change (time : Z) (o : Op) (t : node) : result IoError node :=
  match o with
  | OSymlink target p =>
      q <- locate t p false ;;
      match get t q with
      | Some _ => Err already_exists
      | None => Ok (place t q (Some (Lnk target time)))
      end
  | ORename p q => a <- locate t p false ;; b <- locate t q false ;; rename_resolved t a b
  | ORemoveFile p =>
      let* (q, n) := lookup_node t p false in
      if is_dir n then Err is_a_directory else Ok (place t q None)
  | ORemoveDirAll p =>
      let* (q, n) := lookup_node t p false in
      if is_reg n then Err not_a_directory
      else if bool_decide (q = []) then Err invalid_argument else Ok (place t q None)
  | OSetPermissions p mode =>
      let* (q, n) := lookup_node t p true in
      match n with
      | Reg _ content => Ok (place t q (Some (Reg mode content)))
      | Dir _ cs => Ok (place t q (Some (Dir mode cs)))
      | Lnk _ _ => Ok t
      end
  | OCreateDirAll p => try_fold (create_dir_level p) t (seq 1 (length p))
  | OWrite p content =>
      q <- locate t p true ;;
      match get t q with
      | Some (Reg mode _) => Ok (place t q (Some (Reg mode content)))
      | Some _ => Err is_a_directory
      | None => Ok (place t q (Some (Reg NEW_FILE_MODE content)))
      end
  | _ => Ok t
  end.

(** The entries of a tree whose relative paths are kept. *)
Fixpoint prune (keep : path -> bool) (here : path) (n : node) : node :=
  match n with
  | Dir mode cs =>
      Dir mode (flat_map (fun '(c, m) =>
        if keep (here ++ [c]) then [(c, prune keep (here ++ [c]) m)] else []) cs)
  | _ => n
  end.

(** What a call that fails by the environment may have done. *)
Definition leftover (f : Fault) (o : Op) (t : node) : node :=
  match o with
  | ORemoveDirAll p =>
      match lookup_node t p false with
      | Ok (q, Dir mode cs) => place t q (Some (prune (f_keep f) [] (Dir mode cs)))
      | _ => t
      end
  | OWrite p _ =>
      match f_left_file f, locate t p true with
      | Some content, Ok q =>
          match get t q with
          | Some (Reg mode _) => place t q (Some (Reg mode content))
          | None => place t q (Some (Reg NEW_FILE_MODE content))
          | _ => t
          end
      | _, _ => t
      end
  | _ => t
  end.

Definition answer_unit (time : Z) (f : option Fault) (o : Op) (w : World)
  : result IoError unit * World :=
  match f with
  | Some f => (Err (f_error f), set_tree w (leftover f o (tree w)))
  | None => match change time o (tree w) with
            | Ok t => (Ok tt, set_tree w t)
            | Err e => (Err e, w)
            end
  end.

Definition answer_read {A : Type} (f : option Fault) (r : result IoError A) : result IoError A :=
  match f with Some f => Err (f_error f) | None => r end.

(** The answer and the new state of one call of an actor. *)
Definition exec (who : Actor) (e : Env) (o : Op) (w : World) : Resp o * World :=
  match o with
  | OSymlinkMetadata p =>
      (answer_read (fault e) (let* (_, n) := lookup_node (tree w) p false in Ok (metadata_of n)), w)
  | OMetadata p =>
      (answer_read (fault e) (let* (_, n) := lookup_node (tree w) p true in Ok (metadata_of n)), w)
  | OReadLink p =>
      (answer_read (fault e)
         (let* (_, n) := lookup_node (tree w) p false in
          match n with Lnk target _ => Ok target | _ => Err invalid_argument end), w)
  | ORead p =>
      (answer_read (fault e)
         (let* (_, n) := lookup_node (tree w) p true in
          match n with Reg _ content => Ok content | _ => Err is_a_directory end), w)
  | OReadDir p =>
      (answer_read (fault e)
         (let* (_, n) := lookup_node (tree w) p true in
          match n with Dir _ cs => Ok (map fst cs) | _ => Err not_a_directory end), w)
  | OCanonicalize p =>
      (answer_read (fault e) (let* (q, _) := lookup_node (tree w) p true in Ok q), w)
  | OLoad p =>
      (match answer_read (fault e) (lookup_node (tree w) p false) with
       | Ok (_, n) => obj_of n
       | Err error => FNoMetadata (io_text error)
       end, w)
  | OFetchAdd =>
      let serial := default 0%Z (next_pending w !! pid who) in
      (serial, mkWorld (tree w) (<[pid who := (serial + 1)%Z]> (next_pending w))
                 (<[(pid who, serial) := task who]> (claims w)))
  | ONow => (now e, w)
  | OSymlink target p => answer_unit (now e) (fault e) (OSymlink target p) w
  | ORename p q => answer_unit (now e) (fault e) (ORename p q) w
  | ORemoveFile p => answer_unit (now e) (fault e) (ORemoveFile p) w
  | ORemoveDirAll p => answer_unit (now e) (fault e) (ORemoveDirAll p) w
  | OSetPermissions p mode => answer_unit (now e) (fault e) (OSetPermissions p mode) w
  | OCreateDirAll p => answer_unit (now e) (fault e) (OCreateDirAll p) w
  | OWrite p content => answer_unit (now e) (fault e) (OWrite p content) w
  end.

(** ** Programs *)

Inductive prog (A : Type) : Type :=
| Ret (a : A)
| Do (o : Op) (k : Resp o -> prog A).
Arguments Ret {A} a.
Arguments Do {A} o k.

Fixpoint bind {A B : Type} (m : prog A) (f : A -> prog B) : prog B :=
  match m with
  | Ret a => f a
  | Do o k => Do o (fun r => bind (k r) f)
  end.

Definition call (o : Op) : prog (Resp o) := Do o Ret.

(** A fallible program, [?] and [map_err]. *)
Definition try_bind {E A B : Type} (m : prog (result E A)) (f : A -> prog (result E B))
  : prog (result E B) :=
  bind m (fun r => match r with Ok a => f a | Err e => Ret (Err e) end).
Definition mapping_err {E F A : Type} (g : E -> F) (m : prog (result E A)) : prog (result F A) :=
  bind m (fun r => Ret (map_err g r)).

Declare Scope prog_scope.
Delimit Scope prog_scope with prog.
Notation "'do' x ':=' m 'in' k" := (bind m (fun x => k))
  (at level 200, x name, m at level 100, k at level 200, right associativity) : prog_scope.
Notation "'let?' x ':=' m 'in' k" := (try_bind m (fun x => k))
  (at level 200, x name, m at level 100, k at level 200, right associativity) : prog_scope.
Notation "m '?;' k" := (try_bind m (fun _ => k))
  (at level 199, right associativity) : prog_scope.

(** A [for] loop whose body may return early with [?]. *)
Fixpoint try_each {E A : Type} (f : A -> prog (result E unit)) (l : list A)
  : prog (result E unit) :=
  match l with
  | [] => Ret (Ok tt)
  | x :: l' => try_bind (f x) (fun _ => try_each f l')
  end.

(** A program run alone against an environment per call; when the list is
    used up, no more failures occur. *)
Definition calm : Env := mkEnv 0 None.
Fixpoint run {A : Type} (who : Actor) (es : list Env) (m : prog A) (w : World) : A * World :=
  match m with
  | Ret a => (a, w)
  | Do o k =>
      let '(r, w') := exec who (hd calm es) o w in run who (tl es) (k r) w'
  end.

(** The calls by their names. *)
Definition symlink_metadata (p : path) : prog (result IoError Metadata) := call (OSymlinkMetadata p).
Definition metadata (p : path) : prog (result IoError Metadata) := call (OMetadata p).
Definition read_link (p : path) : prog (result IoError bytes) := call (OReadLink p).
Definition symlink (target : bytes) (p : path) : prog (result IoError unit) := call (OSymlink target p).
Definition rename (p q : path) : prog (result IoError unit) := call (ORename p q).
Definition remove_file (p : path) : prog (result IoError unit) := call (ORemoveFile p).
Definition remove_dir_all (p : path) : prog (result IoError unit) := call (ORemoveDirAll p).
Definition set_permissions (p : path) (mode : Z) : prog (result IoError unit) :=
  call (OSetPermissions p mode).
Definition create_dir_all (p : path) : prog (result IoError unit) := call (OCreateDirAll p).
Definition write (p : path) (content : bytes) : prog (result IoError unit) := call (OWrite p content).
Definition read (p : path) : prog (result IoError bytes) := call (ORead p).
Definition read_dir (p : path) : prog (result IoError (list bytes)) := call (OReadDir p).
Definition load (p : path) : prog FsObj := call (OLoad p).
Definition canonicalize (p : path) : prog (result IoError path) := call (OCanonicalize p).
Definition fetch_add : prog Z := call OFetchAdd.
Definition time_now : prog Z := call ONow.

(** [Path::exists], [Path::is_symlink], [Path::is_dir], [Path::is_file] and
    [Path::try_exists]. *)
Definition exists_ (p : path) : prog bool :=
  bind (metadata p) (fun r => Ret (is_ok r)).
Definition is_symlink (p : path) : prog bool :=
  bind (symlink_metadata p) (fun r => Ret
    match r with Ok md => bool_decide (file_type md = TSymlink) | Err _ => false end).
Definition is_dir_path (p : path) : prog bool :=
  bind (metadata p) (fun r => Ret
    match r with Ok md => bool_decide (file_type md = TDir) | Err _ => false end).
Definition is_file_path (p : path) : prog bool :=
  bind (metadata p) (fun r => Ret
    match r with Ok md => bool_decide (file_type md = TFile) | Err _ => false end).
Definition try_exists (p : path) : prog (result IoError bool) :=
  bind (metadata p) (fun r => Ret
    match r with
    | Ok _ => Ok true
    | Err e => if bool_decide (io_kind e = NotFound) then Ok false else Err e
    end).

(** ** Paths as the program writes and reads them *)

(** [Path::display] of an absolute path. *)
Definition display_path (p : path) : string := show ([47]%Z ++ join_with [47]%Z p).

(** [Path::components]: empty and [.] components vanish, except a leading
    [.]. *)
Inductive Component := RootDir | CurDir | ParentDir | Normal (name : bytes).

#[export] Instance Component_eq_dec : EqDecision Component.
Proof. solve_decision. Defined.

Definition component_of (part : bytes) : list Component :=
  if bytes_eqb part [] || bytes_eqb part [46]%Z then []
  else if bytes_eqb part [46; 46]%Z then [ParentDir] else [Normal part].

Definition components (p : bytes) : list Component :=
  (if is_absolute p then [RootDir]
   else match split_on 47 p with part :: _ => if bytes_eqb part [46]%Z then [CurDir] else [] | [] => [] end)
  ++ flat_map component_of (split_on 47 p).

(** [Path::file_name]. *)
Definition file_name (p : bytes) : option bytes :=
  match last (components p) with Some (Normal name) => Some name | _ => None end.

(** ** Facts on trees *)

Definition apart (p q : path) : Prop := ~ p `prefix_of` q /\ ~ q `prefix_of` p.

Definition real_dir (t : node) (p : path) : Prop := exists m cs, get t p = Some (Dir m cs).

Lemma assoc_set_child c o cs d :
  assoc d (set_child c o cs) = if bytes_eqb c d then o else assoc d cs.
Proof.
  revert o. induction cs as [|[e m] cs IH]; intros o; cbn [set_child assoc].
  { destruct o; cbn [assoc]; by destruct (bytes_eqb c d). }
  destruct (bytes_eqb e c) eqn:Eec; bools; [subst e|].
  - destruct o; cbn [assoc]; rewrite IH; by destruct (bytes_eqb c d).
  - cbn [assoc]. rewrite IH. destruct (bytes_eqb e d) eqn:Eed; bools; [subst e|done].
    destruct (bytes_eqb c d) eqn:Ecd; bools; [congruence|done].
Qed.

Lemma get_app t p q :
  get t (p ++ q) = match get t p with Some n => get n q | None => None end.
Proof.
  revert t. induction p as [|c p IH]; intros t; [done|]. cbn [get app].
  destruct t as [| m cs |]; try done. by destruct (assoc c cs).
Qed.

Lemma place_nonempty m cs c p o : p <> [] ->
  place (Dir m cs) (c :: p) o =
  match assoc c cs with
  | Some n => Dir m (set_child c (Some (place n p o)) cs)
  | None => Dir m cs
  end.
Proof. by destruct p. Qed.

(** Above the changed path, the change is inside the directory. *)
Lemma get_place_above t q r o : r <> [] ->
  get (place t (q ++ r) o) q = option_map (fun n => place n r o) (get t q).
Proof.
  intros Hr. revert t. induction q as [|c q IH]; intros t; [done|]. cbn [app].
  destruct t as [m x| m cs |x m]; [done| |done].
  rewrite place_nonempty by (by destruct q). cbn [get].
  destruct (assoc c cs) as [n|] eqn:E; cbn [get].
  - rewrite assoc_set_child. unfold bytes_eqb. rewrite bool_decide_eq_true_2 by done. by rewrite IH.
  - by rewrite E.
Qed.

Lemma get_place_at t q c o m cs : get t q = Some (Dir m cs) -> get (place t (q ++ [c]) o) (q ++ [c]) = o.
Proof.
  intros H. rewrite get_app, get_place_above, H by done. cbn [option_map place get].
  rewrite assoc_set_child. unfold bytes_eqb. rewrite bool_decide_eq_true_2 by done. by destruct o.
Qed.

Lemma get_place_below t q c r o m cs :
  get t q = Some (Dir m cs) ->
  get (place t (q ++ [c]) o) ((q ++ [c]) ++ r) = match o with Some n => get n r | None => None end.
Proof. intros H. by rewrite get_app, (get_place_at _ _ _ _ _ _ H). Qed.

Lemma get_place_apart t p q o : apart p q -> get (place t p o) q = get t q.
Proof.
  revert t q. induction p as [|c p IH]; intros t q [H1 H2].
  { destruct H1. apply prefix_nil. }
  destruct q as [|d q]; [destruct H2; apply prefix_nil|].
  destruct t as [m x| m cs |x m]; [done| |done]. destruct (decide (c = d)) as [<-|Hcd].
  - assert (Ha : apart p q) by (split; intros [k ->]; [apply H1|apply H2]; by exists k).
    assert (Hp : p <> []) by (intros ->; apply H1; exists q; done).
    rewrite place_nonempty by done. cbn [get].
    destruct (assoc c cs) as [n|] eqn:E; cbn [get]; [|by rewrite E].
    rewrite assoc_set_child. unfold bytes_eqb. rewrite bool_decide_eq_true_2 by done. by apply IH.
  - assert (E : forall o', assoc d (set_child c o' cs) = assoc d cs).
    { intros o'. rewrite assoc_set_child. unfold bytes_eqb. by rewrite bool_decide_eq_false_2. }
    destruct p as [|c' p]; [cbn [place get]; by rewrite E|].
    rewrite place_nonempty by done. destruct (assoc c cs); cbn [get]; [by rewrite E|done].
Qed.

Lemma real_dir_app t p q : real_dir t (p ++ q) -> real_dir t p.
Proof.
  intros (m & cs & H). rewrite get_app in H. destruct (get t p) as [n|] eqn:E; [|done].
  destruct q as [|c q]; [cbn in H; simplify_eq; by exists m, cs|].
  destruct n as [| m' cs' |]; try done. by exists m', cs'.
Qed.

Lemma apart_sym p q : apart p q -> apart q p.
Proof. by intros [? ?]. Qed.

Lemma apart_app p q r : apart p q -> apart p (q ++ r).
Proof.
  intros [H1 H2]. split.
  - intros H. destruct (prefix_weak_total p q (q ++ r) H) as [?|?]; [by exists r|done|done].
  - intros H. apply H2. etransitivity; [by exists r|done].
Qed.

Lemma apart_snoc p c d : c <> d -> apart (p ++ [c]) (p ++ [d]).
Proof. intros H. split; intros [k E]; rewrite <- app_assoc in E; apply app_inv_head in E; cbn in E; congruence. Qed.

Lemma apart_heads p c d q r : c <> d -> apart (p ++ c :: q) (p ++ d :: r).
Proof.
  intros H. assert (Ha : apart (p ++ [c]) (p ++ [d])) by (by apply apart_snoc).
  apply (apart_app _ _ r) in Ha. apply apart_sym, (apart_app _ _ q), apart_sym in Ha.
  by rewrite <- !app_assoc in Ha.
Qed.

(** A directory stays a directory unless the change is at it or above it. *)
Lemma real_dir_place t p o q : ~ p `prefix_of` q -> real_dir t q -> real_dir (place t p o) q.
Proof.
  intros Hp (m & cs & H). destruct (decide (q `prefix_of` p)) as [[r ->]|Hq].
  - destruct r as [|c r]; [destruct Hp; by rewrite app_nil_r|].
    red. rewrite get_place_above, H by done. cbn [option_map]. destruct r as [|d r].
    + cbn [place]. by eexists _, _.
    + rewrite place_nonempty by done. destruct (assoc c cs); by eexists _, _.
  - exists m, cs. by rewrite get_place_apart.
Qed.

(** Induction with a hypothesis for every child. *)
Lemma node_nested_ind (P : node -> Prop)
  (HReg : forall m c, P (Reg m c))
  (HDir : forall m cs, Forall (fun e => P e.2) cs -> P (Dir m cs))
  (HLnk : forall t m, P (Lnk t m)) n : P n.
Proof.
  revert n. fix IH 1. intros [m c|m cs|t m]; [apply HReg| |apply HLnk]. apply HDir.
  induction cs as [|[c x] cs IHcs]; constructor; [apply IH|exact IHcs].
Qed.

(** Every name in a tree names a child. *)
Fixpoint wf_node (n : node) : Prop :=
  match n with
  | Dir _ cs =>
      (fix all (l : list (bytes * node)) : Prop :=
         match l with [] => True | (c, m) :: l' => valid_name c /\ wf_node m /\ all l' end) cs
  | _ => True
  end.

Lemma wf_dir m cs : wf_node (Dir m cs) <-> Forall (fun e => valid_name e.1 /\ wf_node e.2) cs.
Proof.
  cbn [wf_node]. induction cs as [|[c x] cs IH]; [split; [constructor|done]|].
  rewrite Forall_cons, IH. cbn. tauto.
Qed.

Lemma assoc_elem {B} c (cs : list (bytes * B)) n : assoc c cs = Some n -> (c, n) ∈ cs.
Proof.
  induction cs as [|[d m] cs IH]; cbn [assoc]; [done|]. destruct (bytes_eqb d c) eqn:E; bools.
  - intros [= <-]. subst. apply elem_of_cons. by left.
  - intros H. apply elem_of_cons. right. by apply IH.
Qed.

Lemma wf_get t p n : wf_node t -> get t p = Some n -> wf_node n.
Proof.
  revert t. induction p as [|c p IH]; intros t Ht H; [cbn in H; by simplify_eq|].
  destruct t as [| m cs |]; try done. cbn [get] in H.
  destruct (assoc c cs) as [x|] eqn:E; [|done]. apply wf_dir in Ht. rewrite Forall_forall in Ht.
  apply assoc_elem, Ht in E. eapply IH; [apply E|done].
Qed.

Definition wf_option (o : option node) : Prop := match o with Some n => wf_node n | None => True end.

Lemma wf_set_child m c o cs :
  valid_name c -> wf_option o -> wf_node (Dir m cs) -> wf_node (Dir m (set_child c o cs)).
Proof.
  intros Hc Ho. rewrite !wf_dir. revert o Ho. induction cs as [|[d x] cs IH]; intros o Ho Hcs; cbn [set_child].
  { destruct o; constructor; auto. }
  apply Forall_cons in Hcs as [Hx Hcs]. destruct (bytes_eqb d c).
  - destruct o as [n|]; [|by apply IH]. constructor; [|by apply IH]. by split; [apply Hx|].
  - constructor; [done|]. by apply IH.
Qed.

Lemma wf_place t p o : Forall valid_name p -> wf_option o -> wf_node t -> wf_node (place t p o).
Proof.
  intros Hp Ho. revert t. induction Hp as [|c p Hc Hp IH]; intros t Ht; cbn [place].
  { by destruct o. }
  destruct t as [| m cs |]; try done. destruct p as [|d p]; [by apply wf_set_child|].
  destruct (assoc c cs) as [n|] eqn:E; [|done]. apply wf_set_child; try done. cbn [wf_option].
  apply IH. apply (wf_get (Dir m cs) [c]); [done|]. cbn. by rewrite E.
Qed.

Lemma wf_prune keep here n : wf_node n -> wf_node (prune keep here n).
Proof.
  revert here. induction n as [|m cs IH|] using node_nested_ind; intros here Hn; try done.
  cbn [prune]. apply wf_dir. apply wf_dir in Hn.
  induction IH as [|[c x] cs Hx IHcs IH]; cbn [flat_map]; [constructor|].
  apply Forall_cons in Hn as [[Hc Hw] Hn]. apply Forall_app. split; [|by apply IH].
  destruct (keep (here ++ [c])); [|constructor]. constructor; [|constructor].
  split; [done|]. by apply Hx.
Qed.

(** ** Facts on resolution *)

Lemma valid_name_tests c : valid_name c ->
  bytes_eqb c [] || bytes_eqb c [46]%Z = false /\ bytes_eqb c [46; 46]%Z = false.
Proof.
  intros (H1 & _ & H2 & H3). unfold bytes_eqb. by rewrite !bool_decide_eq_false_2.
Qed.

Lemma resolve_cons b t base c rest follow : valid_name c ->
  resolve b t base (c :: rest) follow =
  match get t (base ++ [c]) with
  | None => if bool_decide (rest = []) then Ok (base ++ [c]) else Err not_found
  | Some (Dir _ _) => resolve b t (base ++ [c]) rest follow
  | Some (Reg _ _) => if bool_decide (rest = []) then Ok (base ++ [c]) else Err not_a_directory
  | Some (Lnk target _) =>
      if bool_decide (rest = []) && negb follow then Ok (base ++ [c])
      else match b with
           | O => Err too_many_links
           | S n => resolve n t (if is_absolute target then [] else base)
                      (split_on 47 target ++ rest) follow
           end
  end.
Proof.
  intros Hc. destruct (valid_name_tests c Hc) as [E1 E2].
  destruct b; cbn [resolve]; by rewrite E1, E2.
Qed.

Lemma resolve_dirs b t base q rest follow :
  Forall valid_name q -> real_dir t (base ++ q) ->
  resolve b t base (q ++ rest) follow = resolve b t (base ++ q) rest follow.
Proof.
  intros Hv. revert base. induction Hv as [|c q Hc Hv IH]; intros base Hd.
  { by rewrite app_nil_r. }
  cbn [app]. rewrite resolve_cons by done. replace (base ++ c :: q) with ((base ++ [c]) ++ q) in *.
  2: { by rewrite <- app_assoc. }
  destruct (real_dir_app _ _ _ Hd) as (m & cs & ->). by apply IH.
Qed.

(** Below real directories, a path resolves to itself. *)
Lemma locate_real t q c follow :
  Forall valid_name q -> valid_name c -> real_dir t q ->
  (follow = true -> match get t (q ++ [c]) with Some n => is_lnk n = false | None => True end) ->
  locate t (q ++ [c]) follow = Ok (q ++ [c]).
Proof.
  intros Hq Hc Hd Hf. unfold locate. rewrite resolve_dirs by done. cbn [app].
  rewrite resolve_cons by done.
  destruct (get t (q ++ [c])) as [[| |]|] eqn:E; try (by rewrite bool_decide_eq_true_2); [done|].
  destruct follow; [by specialize (Hf eq_refl)|]. by rewrite bool_decide_eq_true_2.
Qed.

Lemma lookup_real t q c follow :
  Forall valid_name q -> valid_name c -> real_dir t q ->
  (follow = true -> match get t (q ++ [c]) with Some n => is_lnk n = false | None => True end) ->
  lookup_node t (q ++ [c]) follow =
  match get t (q ++ [c]) with Some n => Ok (q ++ [c], n) | None => Err not_found end.
Proof. intros. unfold lookup_node. by rewrite locate_real. Qed.

(** ** Facts on programs *)

Lemma bind_assoc {A B C} (m : prog A) (f : A -> prog B) (g : B -> prog C) w who es :
  run who es (bind (bind m f) g) w = run who es (bind m (fun a => bind (f a) g)) w.
Proof.
  revert w es. induction m as [a|o k IH]; intros w es; [done|]. cbn [bind run].
  destruct (exec who (hd calm es) o w) as [r w']. apply IH.
Qed.
