(* ===== verification/Tasks.v ===== *)
(** * Concurrent tasks on one file system

    Tasks run programs over the calls of [Posix]; their calls interleave in any
    order, any call may fail, and a task may stop for good at any point.  This
    file has the interleaving semantics ([pool_step]) and a rely-guarantee
    logic for it: [wp] is the weakest precondition of one task under
    interference, and [pool_safe] composes proofs about single tasks. *)

From S2P Require Import Prelude Posix.

Section RelyGuarantee.
Context {T : Type} (who : T -> Actor) (inv : World -> Prop) (rely guar : T -> World -> World -> Prop).

(** Whatever the environment of each call, every state after a call of the task
    satisfies the invariant and the guarantee, and the rest of the program is
    safe after any interference the task must tolerate. *)
Fixpoint wp {A : Type} (t : T) (m : prog A) (Q : A -> World -> Prop) (w : World) : Prop :=
  match m with
  | Ret a => Q a w
  | Do o k =>
      forall e, let '(r, w') := exec (who t) e o w in
      inv w' /\ guar t w w' /\
      forall w'', rely t w' w'' -> inv w'' -> wp t (k r) Q w''
  end.

(** ** Rules *)

Lemma wp_weaken {A} t (m : prog A) (Q R : A -> World -> Prop) w :
  (forall a w', inv w' -> Q a w' -> R a w') -> inv w -> wp t m Q w -> wp t m R w.
Proof.
  intros HQR. revert w. induction m as [a|o k IH]; intros w Hi Hw; [by apply HQR|].
  cbn [wp] in *. intros e. specialize (Hw e). destruct (exec (who t) e o w) as [r w'].
  destruct Hw as (Hw1 & Hw2 & Hw3). split_and!; [done|done|]. intros w'' Hr Hi'. apply IH; [done|].
  by apply Hw3.
Qed.

Lemma wp_seq {A B} t (m : prog A) (f : A -> prog B) Q w :
  inv w -> wp t m (fun a w' => inv w' -> wp t (f a) Q w') w -> wp t (bind m f) Q w.
Proof.
  revert w. induction m as [a|o k IH]; intros w Hi Hw; [by apply Hw|].
  cbn [wp bind] in *. intros e. specialize (Hw e). destruct (exec (who t) e o w) as [r w'].
  destruct Hw as (Hw1 & Hw2 & Hw3). split_and!; [done|done|]. intros w'' Hr Hi'. apply IH; [done|].
  by apply Hw3.
Qed.

Lemma wp_try_bind {E A B} t (m : prog (result E A)) (f : A -> prog (result E B)) Q w :
  inv w ->
  wp t m (fun r w' => inv w' -> match r with
                                | Ok a => wp t (f a) Q w'
                                | Err e => Q (Err e) w'
                                end) w ->
  wp t (try_bind m f) Q w.
Proof.
  intros Hi Hw. apply wp_seq; [done|]. eapply wp_weaken; [|done|exact Hw].
  intros [a|e] w' Hi' H _; by apply H.
Qed.

Lemma wp_mapping_err {E F A} t (g : E -> F) (m : prog (result E A)) Q w :
  inv w -> wp t m (fun r w' => Q (map_err g r) w') w -> wp t (mapping_err g m) Q w.
Proof. intros Hi Hw. apply wp_seq; [done|]. eapply wp_weaken; [|done|exact Hw]. by cbn. Qed.

Lemma wp_ret {A} t (a : A) (Q : A -> World -> Prop) w : Q a w -> wp t (Ret a) Q w.
Proof. done. Qed.

Lemma wp_call t o Q w :
  (forall e, let '(r, w') := exec (who t) e o w in
     inv w' /\ guar t w w' /\ forall w'', rely t w' w'' -> inv w'' -> Q r w'') ->
  wp t (call o) Q w.
Proof. done. Qed.

(** A call that only looks. *)
Lemma wp_look t o Q w :
  inv w -> guar t w w -> (forall e, (exec (who t) e o w).2 = w) ->
  (forall e w'', rely t w w'' -> inv w'' -> Q (exec (who t) e o w).1 w'') ->
  wp t (call o) Q w.
Proof.
  intros Hi Hg Hs HQ. apply wp_call. intros e. specialize (Hs e). specialize (HQ e).
  destruct (exec (who t) e o w) as [r w']. cbn in *. subst w'. auto.
Qed.

Lemma wp_each {E A} t (f : A -> prog (result E unit)) (l : list A) (I : World -> Prop)
  (Q : result E unit -> World -> Prop) w :
  (forall x w', x ∈ l -> inv w' -> I w' ->
     wp t (f x) (fun r w'' => match r with Ok _ => I w'' | Err e => Q (Err e) w'' end) w') ->
  (forall w', inv w' -> I w' -> Q (Ok tt) w') ->
  inv w -> I w -> wp t (try_each f l) Q w.
Proof.
  intros Hf HQ. revert w. induction l as [|x l IH]; intros w Hi HI; [by apply HQ|]. cbn [try_each].
  apply wp_try_bind; [done|].
  eapply wp_weaken; [|done|apply (Hf x w); [apply elem_of_cons; by left|done|done]].
  intros [[]|e] w' Hi' HI' _; [|done].
  apply IH; [|done|done]. intros y w'' Hy. apply Hf. apply elem_of_cons. by right.
Qed.

(** ** Pools *)

(** One call of one task. *)
Inductive pool_step {A : Type} : list (T * prog A) * World -> list (T * prog A) * World -> Prop :=
| pool_call ts1 t o k ts2 w e r w' :
    exec (who t) e o w = (r, w') ->
    pool_step (ts1 ++ (t, Do o k) :: ts2, w) (ts1 ++ (t, k r) :: ts2, w').

(** A schedule run to its end: which task moves next, in which environment;
    a task that has finished does not move. *)
Fixpoint run_pool {A : Type} (schedule : list (nat * Env)) (s : list (T * prog A) * World)
  : list (T * prog A) * World :=
  match schedule with
  | [] => s
  | (i, e) :: schedule' =>
      run_pool schedule'
        match s.1 !! i with
        | Some (t, Do o k) =>
            let '(r, w') := exec (who t) e o s.2 in (<[i := (t, k r)]> s.1, w')
        | _ => s
        end
  end.

Lemma run_pool_steps {A} schedule (s : list (T * prog A) * World) : rtc pool_step s (run_pool schedule s).
Proof.
  revert s. induction schedule as [|[i e] schedule IH]; intros [ts w]; cbn [run_pool fst snd]; [apply rtc_refl|].
  destruct (ts !! i) as [[t [a|o k]]|] eqn:Ei; try apply IH.
  destruct (exec (who t) e o w) as [r w'] eqn:Ee. eapply rtc_l; [|apply IH].
  pose proof (lookup_lt_Some _ _ _ Ei) as Hlt. rewrite <- (take_drop_middle ts i _ Ei) at 1.
  rewrite insert_take_drop by done. by eapply pool_call.
Qed.

Context (rely_refl : forall t w, inv w -> rely t w w)
        (rely_trans : forall t w1 w2 w3, rely t w1 w2 -> rely t w2 w3 -> rely t w1 w3).

(** Tasks at different places tolerate each other. *)
Definition compatible (ts : list T) : Prop :=
  forall i j t u, ts !! i = Some t -> ts !! j = Some u -> i <> j ->
  forall w w', inv w -> guar t w w' -> rely u w w'.

Definition safe_task {A} (Q : T -> A -> World -> Prop) (w : World) (p : T * prog A) : Prop :=
  forall w', rely p.1 w w' -> inv w' -> wp p.1 p.2 (Q p.1) w'.

Lemma pool_step_safe {A} (Q : T -> A -> World -> Prop) ts w ts' w' :
  pool_step (ts, w) (ts', w') ->
  compatible (map fst ts) -> inv w -> Forall (safe_task Q w) ts ->
  map fst ts' = map fst ts /\ inv w' /\ Forall (safe_task Q w') ts'.
Proof.
  intros Hstep Hc Hi Hs. inversion Hstep as [ts1 t o k ts2 w0 e r w1 Hexec]; subst.
  pose proof (proj1 (Forall_app _ _ _) Hs) as [Hs1 [Ht Hs2]%Forall_cons].
  specialize (Ht w (rely_refl _ _ Hi) Hi). cbn in Ht. specialize (Ht e). rewrite Hexec in Ht.
  destruct Ht as (Hi' & Hg & Hk). split; [by rewrite !map_app|]. split; [done|].
  assert (Hothers : forall i p, (ts1 ++ (t, Do o k) :: ts2) !! i = Some p -> i <> length ts1 ->
    rely p.1 w w').
  { intros i p Hp Hne. apply (Hc (length ts1) i t p.1); try done.
    - by rewrite list_lookup_fmap, list_lookup_middle.
    - by rewrite list_lookup_fmap, Hp. }
  apply Forall_app. split; [|apply Forall_cons; split].
  - apply Forall_lookup. intros i p Hp w2 Hr Hi2. pose proof (lookup_lt_Some _ _ _ Hp).
    rewrite Forall_lookup in Hs1. apply (Hs1 _ _ Hp); [|done]. eapply rely_trans; [|exact Hr].
    apply (Hothers i); [by rewrite lookup_app_l|lia].
  - intros w2 Hr Hi2. by apply Hk.
  - apply Forall_lookup. intros i p Hp w2 Hr Hi2.
    rewrite Forall_lookup in Hs2. apply (Hs2 _ _ Hp); [|done]. eapply rely_trans; [|exact Hr].
    apply (Hothers (S (length ts1 + i))); [|lia].
    rewrite lookup_app_r by lia. replace (S (length ts1 + i) - length ts1)%nat with (S i) by lia. done.
Qed.

Lemma pool_safe {A} (Q : T -> A -> World -> Prop) ts w ts' w' :
  compatible (map fst ts) -> inv w -> Forall (safe_task Q w) ts ->
  rtc pool_step (ts, w) (ts', w') ->
  inv w' /\ forall t a, (t, Ret a) ∈ ts' -> Q t a w'.
Proof.
  intros Hc Hi Hs Hr. remember (ts, w) as s eqn:Es. remember (ts', w') as s' eqn:Es'.
  revert ts w Es Hc Hi Hs. induction Hr as [s|s [ts1 w1] s' Hstep Hr IH]; intros ts w Es Hc Hi Hs; subst.
  - injection Es as -> ->. split; [done|]. intros t a Hin. rewrite Forall_forall in Hs.
    specialize (Hs _ Hin). apply (Hs w); [by apply rely_refl|done].
  - destruct (pool_step_safe Q _ _ _ _ Hstep Hc Hi Hs) as (Hm & Hi1 & Hs1).
    apply (IH eq_refl ts1 w1); try done. by rewrite Hm.
Qed.
End RelyGuarantee.

(** A program of a task is a program of anything that stands for the task. *)
Lemma wp_reindex {T U A : Type} (f : U -> T) (who : T -> Actor) inv (rely guar : T -> World -> World -> Prop)
  u (m : prog A) Q w :
  wp who inv rely guar (f u) m Q w ->
  wp (fun u => who (f u)) inv (fun u => rely (f u)) (fun u => guar (f u)) u m Q w.
Proof.
  revert w. induction m as [a|o k IH]; intros w Hw; [done|]. cbn [wp] in *. intros e. specialize (Hw e).
  destruct (exec (who (f u)) e o w) as [r w2]. destruct Hw as (? & ? & Hw). split_and!; [done|done|].
  intros w3 ? ?. by apply IH, Hw.
Qed.
