(* ===== verification/Store.v ===== *)
(** * The object store

    [bobr-store]: the layout and handle of a store ([store.rs]), object records
    ([record.rs]), build, reuse and object references ([refs.rs]), import of
    staged objects ([object.rs]) and of sources ([source.rs]), with the file
    helpers of [bobr-core/src/fsutil.rs] they use.  Every operation is a program
    over the file system calls of [Posix]. *)

From S2P Require Import Prelude Errors Hash Text FsObject FsArchive FsManifest Subjects Posix.

Local Open Scope prog_scope.

(** ** [fsutil.rs] *)

(** [FsUtilError::Io]. *)
Abbreviation FsUtilError := string (only parsing).

(** Message of a failed call on a path. *)
Definition at_path (what : string) (p : path) (error : IoError) : string :=
  what +:+ " '" +:+ display_path p +:+ "': " +:+ io_text error.

(** The kernel refuses a path of 4096 bytes, and each level adds two. *)
Definition PATH_DEPTH : nat := 2048.
Definition name_too_long : IoError := mkIoError OtherKind "File name too long (os error 36)".

Fixpoint make_tree_writable_fuel (fuel : nat) (p : path) : prog (result FsUtilError unit) :=
  match fuel with
  | O => Ret (Err (at_path "failed to inspect path" p name_too_long))
  | S fuel' =>
      let? md := mapping_err (at_path "failed to inspect path" p) (symlink_metadata p) in
      if bool_decide (file_type md = TSymlink) then Ret (Ok tt)
      else if bool_decide (file_type md = TDir) then
        let mode := md_mode md in
        let desired := Z.lor mode 0x1c0 in
        (if negb (desired =? mode)%Z
         then mapping_err (at_path "failed to adjust permissions for" p) (set_permissions p desired)
         else Ret (Ok tt)) ?;
        let? names := mapping_err (at_path "failed to read directory" p) (read_dir p) in
        try_each (fun name => make_tree_writable_fuel fuel' (p ++ [name])) names
      else Ret (Ok tt)
  end.
Definition make_tree_writable (p : path) : prog (result FsUtilError unit) :=
  make_tree_writable_fuel PATH_DEPTH p.

Definition remove_dir_force (p : path) : prog (result FsUtilError unit) :=
  do found := exists_ p in
  if negb found then Ret (Ok tt)
  else
    make_tree_writable p ?;
    mapping_err (at_path "failed to remove directory" p) (remove_dir_all p).

Definition remove_path_force (p : path) : prog (result FsUtilError unit) :=
  do found := exists_ p in
  do link := (if found then Ret true else is_symlink p) in
  if negb link then Ret (Ok tt)
  else
    let? md := mapping_err (at_path "failed to inspect path" p) (symlink_metadata p) in
    if bool_decide (file_type md = TDir) then remove_dir_force p
    else mapping_err (at_path "failed to remove file" p) (remove_file p).

Definition recreate_empty_dir_force (p : path) : prog (result FsUtilError unit) :=
  do found := exists_ p in
  (if found then
     do dir := is_dir_path p in
     if dir then remove_dir_force p
     else mapping_err (at_path "failed to remove previous file" p) (remove_file p)
   else Ret (Ok tt)) ?;
  mapping_err (at_path "failed to create directory" p) (create_dir_all p).

(** [current_epoch_nanos]. *)
Definition current_epoch_nanos : prog (result FsUtilError Z) :=
  do t := time_now in
  Ret (if (t <? 0)%Z then Err "system time before UNIX_EPOCH: second time provided was later than self"%string
       else Ok t).

(** Decimal text of a number of any size (a [u128] needs more digits than
    [to_decimal] prints): one round per binary digit is enough. *)
Definition decimal (n : Z) : bytes := decimal_fuel (S (Z.to_nat (Z.log2 n))) n.

Definition atomic_tmp_name (name : bytes) (process nanos : Z) : bytes :=
  lit "." ++ name ++ lit "." ++ decimal process ++ lit "." ++ decimal nanos ++ lit ".tmp".

Definition write_atomic (process : Z) (p : path) (content : bytes)
  : prog (result FsUtilError unit) :=
  match and_then (last p) (fun name => if is_utf8 name then Some name else None) with
  | None => Ret (Err ("invalid file name for atomic write path '" +:+ display_path p +:+ "'"))
  | Some name =>
      let? nanos := current_epoch_nanos in
      let tmp_path := removelast p ++ [atomic_tmp_name name process nanos] in
      mapping_err (at_path "failed to write temporary file" tmp_path) (write tmp_path content) ?;
      mapping_err (fun error => "failed to move temporary file '" +:+ display_path tmp_path
                     +:+ "' to '" +:+ display_path p +:+ "': " +:+ io_text error)
        (rename tmp_path p)
  end.

(** ** [store.rs] *)

Definition OBJECTS_DIR : bytes := lit "objects".
Definition BUILDS_DIR : bytes := lit "builds".
Definition OBJECT_RECORDS_DIR : bytes := lit "object-records".
Definition REUSES_DIR : bytes := lit "reuses".
Definition OBJECT_REFS_DIR : bytes := lit "object-refs".
Definition FS_FILES_DIR : bytes := lit "fs-files".
Definition FS_TREES_DIR : bytes := lit "fs-trees".
Definition FS_TREE_REFS_DIR : bytes := lit "fs-tree-refs".

(** A store handle is its canonical root. *)
Abbreviation Store := (path).

Definition objects_dir (store : Store) : path := store ++ [OBJECTS_DIR].
Definition builds_dir (store : Store) : path := store ++ [BUILDS_DIR].
Definition reuses_dir (store : Store) : path := store ++ [REUSES_DIR].
Definition object_records_dir (store : Store) : path := store ++ [OBJECT_RECORDS_DIR].
Definition object_refs_dir (store : Store) : path := store ++ [OBJECT_REFS_DIR].

Definition object_path_unchecked (store : Store) (h : bytes) : path :=
  objects_dir store ++ [to_hex h].
Definition build_ref_path (store : Store) (key : bytes) : path := builds_dir store ++ [to_hex key].
Definition reuse_ref_path (store : Store) (key : bytes) : path := reuses_dir store ++ [to_hex key].
Definition object_record_path (store : Store) (h : bytes) : path :=
  object_records_dir store ++ [to_hex h ++ lit ".json"].
Definition fs_file_path_unchecked (store : Store) (h : bytes) : path :=
  store ++ [FS_FILES_DIR] ++ [take 2 (to_hex h)] ++ [to_hex h].

(** The root as the caller writes it. *)
Definition validate_root (root : bytes) : prog (result StoreError path) :=
  if negb (is_absolute root) then
    Ret (Err (SE_InvalidInput ("store root must be absolute: '" +:+ show root +:+ "'")))
  else
  let? canonical_root := mapping_err (fun error =>
      if bool_decide (io_kind error = NotFound)
      then SE_InvalidInput ("store root must exist: '" +:+ show root +:+ "'")
      else SE_Io ("failed to resolve store root '" +:+ show root +:+ "': " +:+ io_text error))
      (canonicalize (split_on 47 root)) in
  let? md := mapping_err (fun error => SE_Io (at_path "failed to inspect store root" canonical_root error))
               (metadata canonical_root) in
  Ret (if negb (bool_decide (file_type md = TDir))
       then Err (SE_InvalidInput ("store root must be a directory: '" +:+ show root +:+ "'"))
       else Ok canonical_root).

Definition ensure_store_dir (p : path) (label : string) : prog (result StoreError unit) :=
  do found := exists_ p in
  do link := (if found then Ret true else is_symlink p) in
  if link then
    let? md := mapping_err (fun error =>
        SE_Io (at_path ("failed to inspect " +:+ label +:+ " directory") p error))
        (symlink_metadata p) in
    Ret (if bool_decide (file_type md = TDir) then Ok tt
         else Err (SE_InvalidData ("store " +:+ label +:+ " path '" +:+ display_path p
                                   +:+ "' is not a directory")))
  else mapping_err (fun error =>
         SE_Io (at_path ("failed to create or access " +:+ label +:+ " directory") p error))
         (create_dir_all p).

(** The subdirectories with their labels, in the order both layouts check. *)
Definition LAYOUT : list (bytes * string) :=
  [(OBJECTS_DIR, "objects"); (BUILDS_DIR, "builds"); (REUSES_DIR, "reuses");
   (OBJECT_RECORDS_DIR, "object-records"); (OBJECT_REFS_DIR, "object-refs");
   (FS_FILES_DIR, "fs-files"); (FS_TREES_DIR, "fs-trees");
   (FS_TREE_REFS_DIR, "fs-tree-refs")]%string.

Definition ensure_store_layout (root : path) : prog (result StoreError unit) :=
  try_each (fun '(d, label) => ensure_store_dir (root ++ [d]) label) LAYOUT.

(** [Store::create]. *)
Definition create (root : bytes) : prog (result StoreError Store) :=
  let? root := validate_root root in
  let? _u := ensure_store_layout root in
  Ret (Ok root).

Definition validate_store_dir (p : path) (label : string) : prog (result StoreError unit) :=
  let? md := mapping_err (fun error =>
      if bool_decide (io_kind error = NotFound)
      then SE_InvalidData ("store " +:+ label +:+ " directory is missing: '" +:+ display_path p +:+ "'")
      else SE_Io (at_path ("failed to inspect store " +:+ label +:+ " directory") p error))
      (symlink_metadata p) in
  Ret (if bool_decide (file_type md = TDir) then Ok tt
       else Err (SE_InvalidData ("store " +:+ label +:+ " path '" +:+ display_path p
                                 +:+ "' is not a directory"))).

Definition validate_store_layout (root : path) : prog (result StoreError unit) :=
  try_each (fun '(d, label) => validate_store_dir (root ++ [d]) label) LAYOUT.

(** [ReadOnlyStore::open]. *)
Definition open_read_only (root : bytes) : prog (result StoreError Store) :=
  let? root := validate_root root in
  let? _u := validate_store_layout root in
  Ret (Ok root).

(** [Store::object_path]. *)
Definition object_path (store : Store) (h : bytes) : prog (result StoreError (option path)) :=
  let p := object_path_unchecked store h in
  do r := try_exists p in
  Ret match r with
      | Ok true => Ok (Some p)
      | Ok false => Ok None
      | Err error => Err (SE_Io ("failed to check object '" +:+ show (display h) +:+ "' at '"
                                 +:+ display_path p +:+ "': " +:+ io_text error))
      end.

(** ** Completeness of objects *)

Section Objects.
Context `{Sha256Api} `{JsonApi}.

(** [read_manifest_if_marked] of [fs_tree.rs]: the prefix is read from an open
    file (opening and reading it are one call here), then the whole file is
    read again. *)
Definition read_manifest_if_marked (p : path) : prog (result StoreError (option FsTreeManifest)) :=
  let? md := mapping_err (fun error =>
      SE_Io (at_path "failed to inspect possible fs-tree manifest" p error)) (symlink_metadata p) in
  if negb (bool_decide (file_type md = TFile)) then Ret (Ok None)
  else
    let? content := mapping_err (fun error =>
        SE_Io (at_path "failed to open possible fs-tree manifest" p error)) (read p) in
    if (length content <? length CANONICAL_SCHEMA_LINE)%nat then Ret (Ok None)
    else if bool_decide (take (length CANONICAL_SCHEMA_LINE) content = CANONICAL_SCHEMA_LINE) then
      let? whole := mapping_err (fun error =>
          SE_Io (at_path "failed to read fs-tree manifest" p error)) (read p) in
      Ret (m <- parse_canonical_bytes whole ;; Ok (Some m))
    else Ret (Ok None).

(** The hashes of the file entries, each once, in order ([seen.insert]). *)
Fixpoint distinct_hashes (seen : list bytes) (es : list FsTreeEntry) : list bytes :=
  match es with
  | EFile _ h :: es' =>
      if bool_decide (h ∈ seen) then distinct_hashes seen es'
      else h :: distinct_hashes (h :: seen) es'
  | _ :: es' => distinct_hashes seen es'
  | [] => []
  end.

(** The loop of [object_is_complete] over the files of a manifest. *)
Fixpoint fs_files_present (store : Store) (hashes : list bytes) : prog (result StoreError bool) :=
  match hashes with
  | [] => Ret (Ok true)
  | h :: hashes' =>
      let fs_file := fs_file_path_unchecked store h in
      do r := symlink_metadata fs_file in
      match r with
      | Ok md =>
          if bool_decide (file_type md = TFile) then fs_files_present store hashes'
          else Ret (Err (SE_InvalidData ("working fs-file path '" +:+ display_path fs_file
                                         +:+ "' is not a regular file")))
      | Err error =>
          if bool_decide (io_kind error = NotFound) then Ret (Ok false)
          else Ret (Err (SE_Io (at_path "failed to inspect working fs-file" fs_file error)))
      end
  end.

(** [Store::object_is_complete]. *)
Definition object_is_complete (store : Store) (h : bytes) : prog (result StoreError bool) :=
  let? found := object_path store h in
  match found with
  | None => Ret (Ok false)
  | Some p =>
      let? md := mapping_err (fun error => SE_Io (at_path "failed to inspect working object" p error))
                   (symlink_metadata p) in
      if bool_decide (file_type md = TDir) then Ret (Ok true)
      else if negb (bool_decide (file_type md = TFile)) then
        Ret (Err (SE_InvalidData ("working object path '" +:+ display_path p
                                  +:+ "' is neither a regular file nor a directory")))
      else
        let? manifest := read_manifest_if_marked p in
        match manifest with
        | None => Ret (Ok true)
        | Some m => fs_files_present store (distinct_hashes [] (entries m))
        end
  end.

(** ** [record.rs] *)

Record ObjectRecord := mkObjectRecord {
  rec_build_key : bytes;
  rec_object_hash : bytes;
  rec_run_id : option bytes;
  rec_inputs : list bytes;
}.

(** External: [serde_json::to_string] on a record, and the [time] crate's
    rendering of a modification time ([None] when formatting fails). *)
Context (record_json : ObjectRecord -> result string bytes)
        (format_timestamp : Z -> result string bytes).

(** The process and the bound on the search for a free import name. *)
Context (process : Z) (pending_fuel : nat).

Definition store_object_record (store : Store) (record : ObjectRecord) : prog (result StoreError unit) :=
  let p := object_record_path store (rec_object_hash record) in
  do found := exists_ p in
  if found then Ret (Ok tt)
  else
    match record_json record with
    | Err error => Ret (Err (SE_InvalidData ("failed to encode object record JSON: " +:+ error)))
    | Ok json => mapping_err SE_Io (write_atomic process p json)
    end.

(** [BuildKey::from_object_hash] keeps the bytes. *)
Definition record_existing_object (store : Store) (h run_id : bytes) : prog (result StoreError unit) :=
  let? complete := object_is_complete store h in
  if negb complete then
    Ret (Err (SE_Io ("object '" +:+ show (display h) +:+ "' is incomplete in store")))
  else
    store_object_record store (mkObjectRecord h h (Some run_id) []).

(** ** [refs.rs] *)

Definition object_target (h : bytes) : bytes := lit "../objects/" ++ to_hex h.

Definition parse_object_target (ref_kind : string) (ref_path : path) (target : bytes)
  : result StoreError bytes :=
  let about := ref_kind +:+ " ref '" +:+ display_path ref_path +:+ "' points to " in
  name <- ok_or (and_then (file_name target) (fun n => if is_utf8 n then Some n else None))
            (SE_InvalidData (about +:+ "invalid object target '" +:+ show target +:+ "'")) ;;
  h <- map_err (fun error => SE_InvalidData (about +:+ "invalid object hash '" +:+ show name
                  +:+ "' in target '" +:+ show target +:+ "': "
                  +:+ match error with
                      | InvalidLength => "hash must contain 64 lowercase hex digits"
                      | InvalidHex => "hash must contain only lowercase hex digits"
                      end)) (from_str name) ;;
  if negb (bool_decide (components target = components (object_target h))) then
    Err (SE_InvalidData (about +:+ "non-canonical object target '" +:+ show target
                         +:+ "'; expected '" +:+ show (object_target h) +:+ "'"))
  else Ok h.

Definition temp_ref_name (name : bytes) (attempt : Z) : bytes :=
  lit "." ++ name ++ lit ".tmp." ++ decimal process ++ lit "." ++ decimal attempt.

(** The attempts of [replace_symlink], [n] of them left. *)
Fixpoint replace_attempts (n : nat) (attempt : Z) (target : bytes) (link_path parent : path)
  (name : bytes) : prog (result StoreError unit) :=
  match n with
  | O => Ret (Err (SE_Io ("failed to allocate temporary ref symlink for '"
                          +:+ display_path link_path +:+ "'")))
  | S n' =>
      let temp_path := parent ++ [temp_ref_name name attempt] in
      do made := symlink target temp_path in
      match made with
      | Ok _ =>
          do moved := rename temp_path link_path in
          match moved with
          | Ok _ => Ret (Ok tt)
          | Err error =>
              do _r := remove_file temp_path in
              Ret (Err (SE_Io ("failed to replace ref '" +:+ display_path link_path
                               +:+ "' with temporary symlink '" +:+ display_path temp_path
                               +:+ "': " +:+ io_text error)))
          end
      | Err error =>
          if bool_decide (io_kind error = AlreadyExists)
          then replace_attempts n' (attempt + 1) target link_path parent name
          else Ret (Err (SE_Io ("failed to create ref symlink '" +:+ display_path temp_path
                                +:+ "' -> '" +:+ show target +:+ "': " +:+ io_text error)))
      end
  end.

(** The first part of [replace_symlink]: a directory in the way is removed. *)
Definition clear_ref_directory (present : bool) (link_path : path) : prog (result StoreError unit) :=
  if present then
    let? md := mapping_err (fun error => SE_Io (at_path "failed to inspect existing ref" link_path error))
                 (symlink_metadata link_path) in
    if bool_decide (file_type md = TDir) then
      mapping_err (fun error =>
        SE_Io (at_path "failed to remove existing ref directory" link_path error))
        (remove_dir_all link_path)
    else Ret (Ok tt)
  else Ret (Ok tt).

(** The names built here are ASCII, so [to_string_lossy] keeps them. *)
Definition replace_symlink (target : bytes) (link_path : path) : prog (result StoreError unit) :=
  do found := exists_ link_path in
  do present := (if found then Ret true else is_symlink link_path) in
  clear_ref_directory present link_path ?;
  match last link_path with
  | None => Ret (Err (SE_Io ("ref path '" +:+ display_path link_path +:+ "' has no parent directory")))
  | Some name => replace_attempts 1000 0 target link_path (removelast link_path) name
  end.

Definition store_build_ref (store : Store) (key h : bytes) : prog (result StoreError unit) :=
  replace_symlink (object_target h) (build_ref_path store key).
Definition store_reuse_ref (store : Store) (key h : bytes) : prog (result StoreError unit) :=
  replace_symlink (object_target h) (reuse_ref_path store key).

Definition load_mapping_object_hash (kind : string) (ref_path : path)
  : prog (result StoreError (option bytes)) :=
  do r := symlink_metadata ref_path in
  match r with
  | Err error =>
      if bool_decide (io_kind error = NotFound) then Ret (Ok None)
      else Ret (Err (SE_Io (at_path ("failed to inspect " +:+ kind +:+ " ref") ref_path error)))
  | Ok md =>
      if negb (bool_decide (file_type md = TSymlink)) then
        Ret (Err (SE_InvalidData (kind +:+ " ref '" +:+ display_path ref_path +:+ "' is not a symlink")))
      else
        let? target := mapping_err (fun error =>
            SE_Io (at_path ("failed to read " +:+ kind +:+ " ref") ref_path error)) (read_link ref_path) in
        Ret (h <- parse_object_target kind ref_path target ;; Ok (Some h))
  end.

Definition load_build_object_hash (store : Store) (key : bytes) : prog (result StoreError (option bytes)) :=
  load_mapping_object_hash "build" (build_ref_path store key).
Definition load_reuse_object_hash (store : Store) (key : bytes) : prog (result StoreError (option bytes)) :=
  load_mapping_object_hash "reuse" (reuse_ref_path store key).

(** [generation_suffix_from_symlink_metadata]; the conversion of the time to
    local time and its format are the external [format_timestamp]. *)
Definition generation_suffix_from_symlink_metadata (md : Metadata) : result StoreError bytes :=
  map_err (fun error => SE_InvalidData ("failed to format generation suffix: " +:+ error))
    (format_timestamp (md_modified md)).

Definition generation_candidate (name suffix : bytes) (counter : Z) : bytes :=
  if (counter =? 1)%Z then name ++ lit "." ++ suffix
  else name ++ lit "." ++ suffix ++ lit "." ++ decimal counter.

(** The candidates of [allocate_generation_name], [n] of them left. *)
Fixpoint allocate_candidates (n : nat) (counter : Z) (store : Store) (name suffix : bytes)
  : prog (result StoreError bytes) :=
  match n with
  | O => Ret (Err (SE_Io ("failed to allocate generation ref name for '" +:+ show name +:+ "."
                          +:+ show suffix +:+ "'")))
  | S n' =>
      let candidate := generation_candidate name suffix counter in
      let p := object_refs_dir store ++ [candidate] in
      do found := exists_ p in
      do taken := (if found then Ret true else is_symlink p) in
      if negb taken then Ret (Ok candidate)
      else allocate_candidates n' (counter + 1) store name suffix
  end.
Definition allocate_generation_name (store : Store) (name suffix : bytes)
  : prog (result StoreError bytes) :=
  allocate_candidates 999 1 store name suffix.

Definition create_generation_ref (target : bytes) (link_path : path) : prog (result StoreError unit) :=
  replace_symlink target link_path.

Definition update_object_ref (store : Store) (name h : bytes) : prog (result StoreError unit) :=
  match validate_ref_name name with
  | Err error => Ret (Err error)
  | Ok _ =>
      let current := object_refs_dir store ++ [name] in
      do r := symlink_metadata current in
      match r with
      | Ok md =>
          if bool_decide (file_type md = TSymlink) then
            let? current_target := mapping_err (fun error =>
                SE_Io (at_path "failed to read current object ref" current error)) (read_link current) in
            match parse_object_target "current object" current current_target with
            | Err error => Ret (Err error)
            | Ok current_hash =>
                if bool_decide (current_hash = h) then Ret (Ok tt)
                else
                  match generation_suffix_from_symlink_metadata md with
                  | Err error => Ret (Err error)
                  | Ok suffix =>
                      let? generation_name := allocate_generation_name store name suffix in
                      create_generation_ref current_target
                        (object_refs_dir store ++ [generation_name]) ?;
                      replace_symlink (object_target h) current
                  end
            end
          else Ret (Err (SE_InvalidData ("object ref '" +:+ display_path current
                                         +:+ "' exists but is not a symlink")))
      | Err error =>
          if bool_decide (io_kind error = NotFound) then replace_symlink (object_target h) current
          else Ret (Err (SE_Io (at_path "failed to inspect object ref" current error)))
      end
  end.

(** The reuse keys that [seen.insert] admits. *)
Fixpoint distinct_keys (seen : list bytes) (keys : list bytes) : list bytes :=
  match keys with
  | [] => []
  | k :: keys' =>
      if bool_decide (k ∈ seen) then distinct_keys seen keys'
      else k :: distinct_keys (k :: seen) keys'
  end.

Definition publish_existing_build (store : Store) (build_key : bytes) (reuse_keys : list bytes)
  (h name run_id : bytes) : prog (result StoreError unit) :=
  match validate_ref_name name with
  | Err error => Ret (Err error)
  | Ok _ =>
      let? complete := object_is_complete store h in
      if negb complete then
        Ret (Err (SE_InvalidData ("cannot publish incomplete object '" +:+ show (display h) +:+ "'")))
      else
        record_existing_object store h run_id ?;
        try_each (fun key => store_reuse_ref store key h) (distinct_keys [] reuse_keys) ?;
        store_build_ref store build_key h ?;
        update_object_ref store name h
  end.

Definition publish_existing_build_mapping (store : Store) (build_key h run_id : bytes)
  : prog (result StoreError unit) :=
  record_existing_object store h run_id ?;
  store_build_ref store build_key h.

Definition publish_existing_reuse_mapping (store : Store) (build_key reuse_key h run_id : bytes)
  : prog (result StoreError unit) :=
  record_existing_object store h run_id ?;
  store_reuse_ref store reuse_key h ?;
  store_build_ref store build_key h.

(** ** [object.rs] *)

(** [Display] of [fsobj_hash::Error]. *)
Definition kind_text (k : EntryKind) : string :=
  match k with KFile => "file" | KDirectory => "directory" | KSymlink => "symlink" end.
Definition reason_text (r : InvalidPathReason) : string :=
  match r with
  | AbsolutePath => "absolute path is not allowed"
  | ParentTraversal => "parent traversal is not allowed"
  | EmptyPath => "empty path is not allowed"
  end.
Definition tar_kind_text (k : TarEntryKind) : string :=
  match k with
  | HardLink => "hard link" | BlockDevice => "block device" | CharDevice => "char device"
  | Fifo => "fifo" | Socket => "socket" | Other => "unsupported tar entry"
  end.
Definition fs_error_text (e : FsError) : string :=
  match e with
  | FIo error => "io error: " +:+ error
  | IoAtPath p action error =>
      "io error at '" +:+ show p +:+ "', while " +:+ action +:+ ": " +:+ error
  | UnsupportedRootSymlink p => "root symlink is not supported: " +:+ show p
  | UnsupportedFileType p => "unsupported file type: " +:+ show p
  | TarRead error => "tar read error: " +:+ error
  | InvalidArchivePath p reason =>
      "invalid archive path '" +:+ show p +:+ "': " +:+ reason_text reason
  | DuplicateEntry p => "duplicate archive entry: " +:+ show p
  | KindConflict p existing new =>
      "kind conflict for '" +:+ show p +:+ "': existing " +:+ kind_text existing
      +:+ ", new " +:+ kind_text new
  | UnsupportedTarEntry p kind =>
      "unsupported tar entry at '" +:+ show p +:+ "': " +:+ tar_kind_text kind
  end.

(** [hash_path] on the tree that the calls below a path report. *)
Definition hash_staged (p : path) : prog (result FsError bytes) :=
  do obj := load p in
  Ret (hash_path ([47]%Z ++ join_with [47]%Z p) obj).

Definition set_mode (p : path) (mode : Z) : prog (result IoError unit) := set_permissions p mode.

Definition import_rename_error (staged_path destination : path) (error : IoError) : StoreError :=
  SE_Io ("failed to import object '" +:+ display_path staged_path +:+ "' -> '"
         +:+ display_path destination +:+ "': " +:+ io_text error).

Definition import_error_with_mode_restore (staged_path destination : path) (original_mode : Z)
  (error : IoError) : prog StoreError :=
  do r := set_mode staged_path original_mode in
  Ret match r with
      | Ok _ => import_rename_error staged_path destination error
      | Err restore_error =>
          SE_Io (store_error_message (import_rename_error staged_path destination error)
                 +:+ "; failed to restore mode on '" +:+ display_path staged_path +:+ "': "
                 +:+ io_text restore_error)
      end.

Definition rollback_pending_import (pending staged_path : path) (original_mode : Z) : prog string :=
  do a := set_mode pending (Z.lor original_mode 0x80) in
  match a with
  | Err error => Ret ("failed to make pending object '" +:+ display_path pending
                          +:+ "' writable for rollback: " +:+ io_text error)
  | Ok _ =>
      do b := rename pending staged_path in
      match b with
      | Err error => Ret ("failed to roll pending object '" +:+ display_path pending +:+ "' back to '"
                          +:+ display_path staged_path +:+ "': " +:+ io_text error)
      | Ok _ =>
          do c := set_mode staged_path original_mode in
          Ret match c with
              | Ok _ => "staged object was restored"%string
              | Err error => "staged object was restored to '" +:+ display_path staged_path
                             +:+ "' but its mode could not be restored: " +:+ io_text error
              end
      end
  end.

Definition pending_name (serial : Z) : bytes :=
  lit ".bobr-import-" ++ decimal process ++ lit "-" ++ decimal serial.

(** The loop of [next_pending_import_path], with the given number of rounds. *)
Fixpoint next_pending_loop (fuel : nat) (store : Store) : prog (result StoreError path) :=
  match fuel with
  | O => Ret (Err (SE_Io "out of rounds"%string))
  | S fuel' =>
      do serial := fetch_add in
      let p := objects_dir store ++ [pending_name serial] in
      do r := try_exists p in
      match r with
      | Ok false => Ret (Ok p)
      | Ok true => next_pending_loop fuel' store
      | Err error => Ret (Err (SE_Io (at_path "failed to inspect pending object path" p error)))
      end
  end.
Definition next_pending_import_path (store : Store) : prog (result StoreError path) :=
  next_pending_loop pending_fuel store.

Definition publish_read_only_directory (store : Store) (staged_path destination : path)
  (original_mode : Z) : prog (result StoreError unit) :=
  let? pending := next_pending_import_path store in
  mapping_err (fun error => SE_Io ("failed to prepare read-only staged object '"
      +:+ display_path staged_path +:+ "' for import: " +:+ io_text error))
    (set_mode staged_path (Z.lor original_mode 0x80)) ?;
  do first := rename staged_path pending in
  match first with
  | Err error =>
      do e := import_error_with_mode_restore staged_path destination original_mode error in
      Ret (Err e)
  | Ok _ =>
      do restored := set_mode pending original_mode in
      match restored with
      | Err error =>
          do rollback := rollback_pending_import pending staged_path original_mode in
          Ret (Err (SE_Io (at_path "failed to restore read-only mode on pending object" pending error
                           +:+ "; " +:+ rollback)))
      | Ok _ =>
          do second := rename pending destination in
          match second with
          | Ok _ => Ret (Ok tt)
          | Err error =>
              do there := exists_ destination in
              if there then mapping_err SE_Io (remove_path_force pending)
              else
                do rollback := rollback_pending_import pending staged_path original_mode in
                Ret (Err (SE_Io (store_error_message (import_rename_error staged_path destination error)
                                 +:+ "; " +:+ rollback)))
          end
      end
  end.

Definition publish_staged_object (store : Store) (staged_path destination : path)
  : prog (result StoreError unit) :=
  let? md := mapping_err (fun error => SE_Io (at_path "failed to inspect staged object" staged_path error))
               (symlink_metadata staged_path) in
  let mode := Z.land (md_mode md) 0xfff in
  if bool_decide (file_type md = TDir) && (Z.land mode 0x92 =? 0)%Z then
    publish_read_only_directory store staged_path destination mode
  else
    do moved := rename staged_path destination in
    match moved with
    | Ok _ => Ret (Ok tt)
    | Err error =>
        do there := exists_ destination in
        if there then mapping_err SE_Io (remove_path_force staged_path)
        else Ret (Err (import_rename_error staged_path destination error))
    end.

Definition import_object (store : Store) (staged_path : path) : prog (result StoreError bytes) :=
  let? h := mapping_err (fun error => SE_Hashing ("failed to hash staged object '"
                +:+ display_path staged_path +:+ "': " +:+ fs_error_text error))
              (hash_staged staged_path) in
  let destination := object_path_unchecked store h in
  do there := exists_ destination in
  if there then mapping_err SE_Io (remove_path_force staged_path) ?; Ret (Ok h)
  else publish_staged_object store staged_path destination ?; Ret (Ok h).

Definition import_object_with_expected_hash (store : Store) (staged_path : path) (expected : bytes)
  : prog (result StoreError unit) :=
  let? actual := mapping_err (fun error => SE_Hashing ("failed to hash staged repository object '"
                     +:+ display_path staged_path +:+ "': " +:+ fs_error_text error))
                   (hash_staged staged_path) in
  if negb (bool_decide (actual = expected)) then
    Ret (Err (SE_InvalidData ("repository object hash mismatch: expected '" +:+ show (display expected)
           +:+ "', got '" +:+ show (display actual) +:+ "' from '" +:+ display_path staged_path +:+ "'")))
  else
    let destination := object_path_unchecked store expected in
    do there := exists_ destination in
    if there then mapping_err SE_Io (remove_path_force staged_path)
    else publish_staged_object store staged_path destination.

Definition import_build (store : Store) (build_key reuse_key : bytes) (inputs : list bytes)
  (staged_path : path) (name run_id : bytes) : prog (result StoreError bytes) :=
  match validate_ref_name name with
  | Err error => Ret (Err error)
  | Ok _ =>
      let? h := import_object store staged_path in
      store_object_record store (mkObjectRecord build_key h (Some run_id) inputs) ?;
      store_reuse_ref store reuse_key h ?;
      store_build_ref store build_key h ?;
      update_object_ref store name h ?;
      Ret (Ok h)
  end.

(** ** [source.rs] *)

Inductive SourceImportOutcome := Matched (h : bytes) | Mismatched (actual_hash : bytes).

Definition record_source_build_mapping (store : Store) (declared : bytes) : prog (result StoreError unit) :=
  store_build_ref store declared declared.

Definition record_existing_source_object (store : Store) (declared name run_id : bytes)
  : prog (result StoreError (option bytes)) :=
  match validate_ref_name name with
  | Err error => Ret (Err error)
  | Ok _ =>
      let? found := object_path store declared in
      match found with
      | None => Ret (Ok None)
      | Some _ =>
          record_existing_object store declared run_id ?;
          record_source_build_mapping store declared ?;
          update_object_ref store name declared ?;
          Ret (Ok (Some declared))
      end
  end.

Definition import_source_object (store : Store) (declared : bytes) (staged_path : path)
  (name run_id : bytes) : prog (result StoreError SourceImportOutcome) :=
  match validate_ref_name name with
  | Err error => Ret (Err error)
  | Ok _ =>
      let? actual := import_object store staged_path in
      if negb (bool_decide (actual = declared)) then Ret (Ok (Mismatched actual))
      else
        record_existing_object store declared run_id ?;
        record_source_build_mapping store declared ?;
        update_object_ref store name declared ?;
        Ret (Ok (Matched declared))
  end.
End Objects.
