(* ===== verification/StoreInvariant.v ===== *)
(** * The invariant of the store

    What holds of a store at every moment, whatever tasks run, fail or stop:
    the layout is there, every object has the content its name says, and every
    reference to an object leads to a complete object with a record.  The
    second half says which changes of the tree keep this, and what a task may
    assume of the others meanwhile. *)

From S2P Require Import Prelude Errors Hash Text FsObject FsArchive FsManifest Subjects Posix Tasks Store.

(** ** Names *)

Lemma valid_name_first c l : c <> 46%Z -> c <> 47%Z -> 47%Z ∉ l -> valid_name (c :: l).
Proof.
  intros H1 H2 Hl. split_and!; [done| |congruence|congruence].
  intros [?|?]%elem_of_cons; [congruence|done].
Qed.

Lemma valid_name_dot l : 47%Z ∉ l -> (2 <= length l)%nat -> valid_name (46%Z :: l).
Proof.
  intros Hl Hn. split_and!; [done| | |].
  - intros [?|?]%elem_of_cons; [congruence|done].
  - intros [= ->]. cbn in Hn. lia.
  - intros [= ->]. cbn in Hn. lia.
Qed.

Lemma lower_hex_plain b : is_lower_hex b = true -> b <> 46%Z /\ b <> 47%Z /\ b <> 45%Z.
Proof. intros [?|?]%lower_hex_range; lia. Qed.

Lemma to_hex_chars h b : wf_bytes h -> b ∈ to_hex h -> is_lower_hex b = true.
Proof. intros Hh Hb. apply to_hex_lower in Hh. rewrite forallb_forall in Hh. by apply Hh, list_elem_of_In. Qed.

Lemma to_hex_no_slash h : wf_bytes h -> 47%Z ∉ to_hex h.
Proof. intros Hh Hb. apply to_hex_chars, lower_hex_plain in Hb; [|done]. lia. Qed.

(** A digest text and its first two digits are names that do not start with a
    dot. *)
Lemma to_hex_head h : wf_hash h -> exists a b l, to_hex h = a :: b :: l /\
  is_lower_hex a = true /\ is_lower_hex b = true.
Proof.
  intros [Hw Hl]. pose proof (length_to_hex h) as Hn. rewrite Hl in Hn.
  destruct (to_hex h) as [|a [|b l]] eqn:E; try done. exists a, b, l.
  split; [done|]. split; apply (to_hex_chars h); try done; rewrite E; set_solver.
Qed.

Lemma valid_hex h : wf_hash h -> valid_name (to_hex h).
Proof.
  intros Hh. destruct (to_hex_head h Hh) as (a & b & l & E & Ha & _). rewrite E.
  apply lower_hex_plain in Ha. apply valid_name_first; [lia|lia|].
  intros Hb. apply (to_hex_no_slash h); [apply Hh|]. rewrite E. set_solver.
Qed.

Lemma valid_shard h : wf_hash h -> valid_name (take 2 (to_hex h)).
Proof.
  intros Hh. destruct (to_hex_head h Hh) as (a & b & l & E & Ha & Hb). rewrite E. cbn.
  apply lower_hex_plain in Ha, Hb. apply valid_name_first; [lia|lia|]. intros ?%list_elem_of_singleton. lia.
Qed.

Definition record_name (h : bytes) : bytes := to_hex h ++ lit ".json".

Lemma valid_record h : wf_hash h -> valid_name (record_name h).
Proof.
  intros Hh. unfold record_name. destruct (to_hex_head h Hh) as (a & b & l & E & Ha & _).
  pose proof (to_hex_no_slash h (proj1 Hh)) as Hs. rewrite E in *. cbn [app].
  apply lower_hex_plain in Ha. apply valid_name_first; [lia|lia|].
  intros [Hin|Hin]%(elem_of_app (b :: l)); [set_solver|]. vm_compute in Hin.
  repeat (apply elem_of_cons in Hin as [Hin|Hin]; [done|]). by apply elem_of_nil in Hin.
Qed.

Lemma record_name_inj h k : wf_hash h -> wf_hash k -> record_name h = record_name k -> h = k.
Proof. intros ?? E. apply app_inj_2 in E as [E _]; [|done]. by apply to_hex_inj. Qed.

(** Names the program invents start with a dot, digest texts do not. *)
Lemma dot_not_hex l h : wf_hash h -> 46%Z :: l <> to_hex h.
Proof.
  intros Hh E. destruct (to_hex_head h Hh) as (a & b & l' & E' & Ha & _). rewrite E' in E.
  injection E as <- _. apply lower_hex_plain in Ha. lia.
Qed.

Lemma dot_not_record l h : wf_hash h -> 46%Z :: l <> record_name h.
Proof.
  intros Hh E. destruct (to_hex_head h Hh) as (a & b & l' & E' & Ha & _).
  unfold record_name in E. rewrite E' in E. injection E as <- _. apply lower_hex_plain in Ha. lia.
Qed.

(** Decimal texts. *)
Lemma decimal_ok n : (0 <= n)%Z -> forallb is_digit (decimal n) = true /\ read_decimal (decimal n) = n.
Proof.
  intros Hn. unfold decimal. apply and_comm, decimal_fuel_ok. split; [done|].
  destruct (decide (n = 0)%Z) as [->|]; [reflexivity|].
  pose proof (Z.log2_spec n ltac:(lia)) as [_ Hl]. pose proof (Z.log2_nonneg n).
  rewrite Nat2Z.inj_succ, Z2Nat.id by done.
  eapply Z.lt_le_trans; [exact Hl|]. apply Z.pow_le_mono_l. lia.
Qed.

Lemma decimal_chars n b : (0 <= n)%Z -> b ∈ decimal n -> (48 <= b <= 57)%Z.
Proof.
  intros Hn Hb. destruct (decimal_ok n Hn) as [H _]. rewrite forallb_forall in H.
  by apply is_digit_range, H, list_elem_of_In.
Qed.

Lemma decimal_inj n m : (0 <= n)%Z -> (0 <= m)%Z -> decimal n = decimal m -> n = m.
Proof.
  intros Hn Hm E. rewrite <- (proj2 (decimal_ok n Hn)), <- (proj2 (decimal_ok m Hm)). by rewrite E.
Qed.

(** The first separator splits a text in one way. *)
Lemma split_first {A} (x : A) a b c d :
  x ∉ a -> x ∉ c -> a ++ x :: b = c ++ x :: d -> a = c /\ b = d.
Proof.
  revert c. induction a as [|y a IH]; intros [|z c] Ha Hc E; cbn in E.
  - by injection E as ->.
  - injection E as <- _. set_solver.
  - injection E as -> _. set_solver.
  - injection E as -> E. destruct (IH c) as [-> ->]; set_solver.
Qed.

Lemma pending_name_inj p s q r :
  (0 <= p)%Z -> (0 <= s)%Z -> (0 <= q)%Z -> (0 <= r)%Z ->
  pending_name p s = pending_name q r -> p = q /\ s = r.
Proof.
  intros Hp Hs Hq Hr E. unfold pending_name in E. apply app_inv_head in E.
  apply (split_first 45%Z) in E as [E1 E2].
  - split; by apply decimal_inj.
  - intros ?%decimal_chars; [lia|done].
  - intros ?%decimal_chars; [lia|done].
Qed.

Lemma valid_pending p s : (0 <= p)%Z -> (0 <= s)%Z -> valid_name (pending_name p s).
Proof.
  intros Hp Hs. unfold pending_name. change (lit ".bobr-import-") with (46%Z :: lit "bobr-import-").
  cbn [app]. apply valid_name_dot.
  - rewrite !not_elem_of_app. split_and!.
    + vm_compute. intros H. repeat (apply elem_of_cons in H as [H|H]; [done|]). by apply elem_of_nil in H.
    + intros ?%decimal_chars; [lia|done].
    + vm_compute. intros H. apply elem_of_cons in H as [H|H]; [done|]. by apply elem_of_nil in H.
    + intros ?%decimal_chars; [lia|done].
  - rewrite length_app. cbn. lia.
Qed.

Lemma no_slash_lit s : forallb (fun b => negb (b =? 47)%Z) (lit s) = true -> 47%Z ∉ lit s.
Proof. intros Hs Hin. rewrite forallb_forall in Hs. apply list_elem_of_In, Hs in Hin. done. Qed.

Lemma no_slash_decimal n : (0 <= n)%Z -> 47%Z ∉ decimal n.
Proof. intros Hn ?%decimal_chars; [lia|done]. Qed.

Lemma valid_temp process name attempt :
  valid_name name -> (0 <= process)%Z -> (0 <= attempt)%Z -> valid_name (temp_ref_name process name attempt).
Proof.
  intros Hn Hp Ha. unfold temp_ref_name. change (lit ".") with [46%Z] at 1. cbn [app]. apply valid_name_dot.
  - rewrite !not_elem_of_app. split_and!; try (by apply no_slash_lit); try (by apply no_slash_decimal). apply Hn.
  - rewrite !length_app. cbn. lia.
Qed.

Lemma ref_name_valid name : validate_ref_name name = Ok tt -> valid_name name.
Proof.
  unfold validate_ref_name. intros Hv. inv_res. bools. split_and!; try done.
  intros Hin. rewrite forallb_forall in G1. apply list_elem_of_In, G1 in Hin. done.
Qed.

Lemma generation_valid name suffix counter :
  valid_name name -> 47%Z ∉ suffix -> (0 <= counter)%Z ->
  valid_name (generation_candidate name suffix counter).
Proof.
  intros (H1 & H2 & H3 & H4) Hs Hc. unfold generation_candidate.
  assert (Hdot : 47%Z ∉ lit ".") by (by apply no_slash_lit).
  assert (Hlong : forall l, valid_name (name ++ lit "." ++ l) \/ 47%Z ∈ l).
  { intros l. destruct (decide (47%Z ∈ l)) as [?|Hl]; [by right|left]. split_and!.
    - by destruct name.
    - rewrite !not_elem_of_app. done.
    - destruct name as [|a [|b name]]; cbn; congruence.
    - destruct name as [|a [|b name]]; cbn; [done| |by destruct name].
      intros [= -> ?]. done. }
  destruct (counter =? 1)%Z.
  - by destruct (Hlong suffix).
  - destruct (Hlong (suffix ++ lit "." ++ decimal counter)) as [?|Hin]; [done|].
    apply elem_of_app in Hin as [?|Hin]; [done|]. apply elem_of_app in Hin as [?|Hin]; [done|].
    by apply no_slash_decimal in Hin.
Qed.

(** ** Reference targets *)

Lemma split_object_target h : wf_hash h ->
  split_on 47 (object_target h) = [lit ".."; OBJECTS_DIR; to_hex h].
Proof.
  intros Hh. unfold object_target.
  change (lit "../objects/") with (lit ".." ++ 47%Z :: lit "objects" ++ [47%Z]).
  assert (Hl : forall s, forallb (fun b => negb (b =? 47)%Z) (lit s) = true -> 47%Z ∉ lit s).
  { intros s Hs Hin. rewrite forallb_forall in Hs. apply list_elem_of_In, Hs in Hin. done. }
  rewrite <- app_assoc. cbn [app]. rewrite split_on_app by (by apply Hl).
  rewrite <- app_assoc. cbn [app]. rewrite split_on_app by (by apply Hl).
  rewrite split_on_none by (apply to_hex_no_slash, Hh). done.
Qed.

Lemma components_object_target h : wf_hash h ->
  components (object_target h) = [ParentDir; Normal OBJECTS_DIR; Normal (to_hex h)].
Proof.
  intros Hh. unfold components. rewrite split_object_target by done.
  change (is_absolute (object_target h)) with false. cbn iota.
  change (bytes_eqb (lit "..") [46]%Z) with false. cbn [flat_map app].
  change (component_of (lit "..")) with [ParentDir].
  change (component_of OBJECTS_DIR) with [Normal OBJECTS_DIR]. cbn [app].
  unfold component_of. destruct (valid_name_tests _ (valid_hex h Hh)) as [-> ->]. done.
Qed.

Lemma is_utf8_hex h : wf_hash h -> is_utf8 (to_hex h) = true.
Proof.
  intros Hh. apply is_utf8_ascii, Forall_forall. intros b Hb.
  apply to_hex_chars, lower_hex_range in Hb; [|apply Hh]. lia.
Qed.

Lemma parse_object_target_ok kind p h : wf_hash h ->
  parse_object_target kind p (object_target h) = Ok h.
Proof.
  intros Hh. unfold parse_object_target, file_name. rewrite components_object_target by done.
  cbn [last and_then]. rewrite is_utf8_hex by done. cbn [ok_or].
  rewrite (proj2 (from_str_ok _ h)) by done. cbn [map_err].
  by rewrite components_object_target, bool_decide_eq_true_2 by done.
Qed.

Lemma parse_object_target_wf kind p target h : parse_object_target kind p target = Ok h -> wf_hash h.
Proof. unfold parse_object_target. intros Hp. inv_res. by apply from_str_ok in E0 as [? _]. Qed.

(** The kind and the path of the reference only appear in messages. *)
Lemma parse_object_target_any kind p kind' p' target h :
  parse_object_target kind p target = Ok h -> parse_object_target kind' p' target = Ok h.
Proof.
  unfold parse_object_target. intros Hp. inv_res. rewrite E. cbn [ok_or]. rewrite E0. cbn [map_err].
  by rewrite G.
Qed.

(** Every file hash of a parsed manifest is a digest. *)
Lemma file_hash_wf s h : file_hash_from_str s = Ok h -> wf_hash h.
Proof. intros E. change (from_str s = Ok h) in E. by apply from_str_ok in E as [? _]. Qed.

Definition hashes_wf (e : FsTreeEntry) : Prop :=
  match e with EFile _ h => wf_hash h | _ => True end.

Lemma parse_entry_hash `{JsonApi} l n e : parse_entry_line l n = Ok e -> hashes_wf e.
Proof.
  unfold parse_entry_line. intros Hp. inv_res. repeat case_match; inv_res; cbn; try done.
  unfold required_file_hash in *. inv_res. by eapply file_hash_wf.
Qed.

Lemma parse_lines_hash `{JsonApi} ls n es n' es' :
  try_fold parse_line (n, es) ls = Ok (n', es') -> Forall hashes_wf es -> Forall hashes_wf es'.
Proof.
  revert n es. induction ls as [|l ls IH]; intros n es Hp Hes; cbn [try_fold] in Hp; [by inv_res|].
  destruct (parse_line (n, es) l) as [[n1 es1]|] eqn:E; [|done]. apply (IH _ _ Hp).
  unfold parse_line in E. inv_res. apply Forall_app. split; [done|]. constructor; [|constructor].
  by eapply parse_entry_hash.
Qed.

Lemma parse_manifest_hash `{JsonApi} b m :
  parse_canonical_bytes b = Ok m -> Forall hashes_wf (entries m).
Proof.
  unfold parse_canonical_bytes. intros Hp. inv_res.
  destruct (split_inclusive 10 b) as [|l ls]; inv_res. destruct a0 as [n es].
  apply parse_lines_hash in E0; [|constructor]. apply from_entries_wf in E1 as [_ Hperm].
  by rewrite Hperm.
Qed.

(** ** The invariant *)

(** The tree at a path hashes to [h]. *)
Definition hashes `{Sha256Api} (n : node) (h : bytes) : Prop :=
  exists p, hash_path p (obj_of n) = Ok h.

(** Two objects are interchangeable: both directories, or files of the same
    content. *)
Definition same_object (n n' : node) : Prop :=
  match n, n' with
  | Dir _ _, Dir _ _ => True
  | Reg _ c, Reg _ c' => c = c'
  | _, _ => False
  end.

(** Equal up to the mode of a directory. *)
Definition same_body (n n' : node) : Prop :=
  match n, n' with Dir _ cs, Dir _ cs' => cs = cs' | _, _ => n = n' end.

(** A task: who it is and which staged tree it owns. *)
Record Owner := mkOwner { ow_actor : Actor; ow_staged : option path }.

Definition REF_DIRS : list bytes := [BUILDS_DIR; REUSES_DIR; OBJECT_REFS_DIR].

Definition pending_path (root : Store) (p s : Z) : path := objects_dir root ++ [pending_name p s].

Lemma ref_dir_layout d : d ∈ REF_DIRS -> d ∈ map fst LAYOUT.
Proof. intros Hd. unfold REF_DIRS in Hd. set_solver. Qed.

Lemma ref_dir_other d : d ∈ REF_DIRS ->
  d <> OBJECTS_DIR /\ d <> FS_FILES_DIR /\ d <> OBJECT_RECORDS_DIR.
Proof.
  intros [->|[->|[->|[]%elem_of_nil]%elem_of_cons]%elem_of_cons]%elem_of_cons; split_and!; vm_compute; congruence.
Qed.

Lemma not_both (a b c d : bytes) : ~ (a = b /\ c = d) -> a <> b \/ c <> d.
Proof. intros Hn. destruct (decide (a = b)) as [->|]; [|by left]. right. intros ->. by apply Hn. Qed.

Section Invariant.
Context `{Sha256Api} `{JsonApi} (root : Store) (root_names : Forall valid_name root).

(** The objects around: those in the store at the start and the staged ones.
    Equal hashes among them mean interchangeable objects. *)
Context (around : list node).
Definition known (n : node) : Prop := exists n0, n0 ∈ around /\ same_body n0 n.
Definition hashes_identify : Prop :=
  forall n n' h, n ∈ around -> n' ∈ around -> hashes n h -> hashes n' h -> same_object n n'.
Context (identify : hashes_identify).

(** The files that a manifest object needs are in the store. *)
Definition node_complete (t : node) (n : node) : Prop :=
  match n with
  | Dir _ _ => True
  | Lnk _ _ => False
  | Reg _ c =>
      strip_prefix CANONICAL_SCHEMA_LINE c <> None ->
      exists m, parse_canonical_bytes c = Ok m /\
        forall p h, EFile p h ∈ entries m ->
          exists mode x, get t (fs_file_path_unchecked root h) = Some (Reg mode x)
  end.

Definition complete (t : node) (h : bytes) : Prop :=
  exists n, get t (object_path_unchecked root h) = Some n /\ node_complete t n.
Definition recorded (t : node) (h : bytes) : Prop :=
  get t (object_record_path root h) <> None.
Definition published (t : node) (h : bytes) : Prop := complete t h /\ recorded t h.

(** The mappings that hold: [vouched BUILDS_DIR key h] when the build key [key]
    maps to [h], [vouched REUSES_DIR key h] when the reuse key does. *)
Context (vouched : bytes -> bytes -> bytes -> Prop).

(** The entry [name] of [d], or the temporary name of such an entry, may map to
    [h]. *)
Definition mapping_ok (d name h : bytes) : Prop :=
  d <> OBJECT_REFS_DIR -> forall key, wf_hash key ->
  (name = to_hex key \/ exists p a, name = temp_ref_name p (to_hex key) a) -> vouched d key h.

(** A link target of the entry [name] that parses leads to a published object
    to which the entry may map. *)
Definition target_ok (d name : bytes) (t : node) (target : bytes) : Prop :=
  forall kind p h, parse_object_target kind p target = Ok h -> published t h /\ mapping_ok d name h.

Record store_inv (w : World) : Prop := {
  si_wf : wf_node (tree w);
  si_layout : forall d, d ∈ map fst LAYOUT -> real_dir (tree w) (root ++ [d]);
  si_shards : forall c n, get (tree w) (root ++ [FS_FILES_DIR; c]) = Some n -> is_lnk n = false;
  si_records : forall x n, get (tree w) (root ++ [OBJECT_RECORDS_DIR; x]) = Some n -> is_lnk n = false;
  si_refs : forall d name target m, d ∈ REF_DIRS ->
    get (tree w) (root ++ [d; name]) = Some (Lnk target m) -> target_ok d name (tree w) target;
  si_objects : forall h n, wf_hash h ->
    get (tree w) (object_path_unchecked root h) = Some n -> hashes n h /\ known n;
  si_claims : forall p s i, claims w !! (p, s) = Some i ->
    (0 <= p /\ 0 <= s < default 0 (next_pending w !! p))%Z;
  si_counter : forall p, (0 <= default 0 (next_pending w !! p))%Z;
}.

(** ** What tasks assume and guarantee *)

(** Objects stay (possibly replaced by an interchangeable one), files of
    manifests stay regular files, records stay. *)
Definition keeps (t t' : node) : Prop :=
  (forall h n, wf_hash h -> get t (object_path_unchecked root h) = Some n ->
     exists n', get t' (object_path_unchecked root h) = Some n' /\ same_object n n') /\
  (forall h mode x, wf_hash h -> get t (fs_file_path_unchecked root h) = Some (Reg mode x) ->
     exists mode' x', get t' (fs_file_path_unchecked root h) = Some (Reg mode' x')) /\
  (forall h, wf_hash h -> recorded t h -> recorded t' h).

(** A path outside the directories of the store. *)
Definition store_apart (s : path) : Prop := forall d, d ∈ map fst LAYOUT -> apart (root ++ [d]) s.

Definition owner_ok (o : Owner) : Prop :=
  (0 <= pid (ow_actor o))%Z /\
  forall s, ow_staged o = Some s -> store_apart s /\ Forall valid_name s /\ s <> [].

(** A tree owned by a task is as it was, and so is its place. *)
Definition untouched (t t' : node) (s : path) : Prop :=
  get t' s = get t s /\ (real_dir t (removelast s) -> real_dir t' (removelast s)).

Definition rely (o : Owner) (w w' : World) : Prop :=
  keeps (tree w) (tree w') /\
  (forall s, ow_staged o = Some s -> untouched (tree w) (tree w') s) /\
  (forall p s, claims w !! (p, s) = Some (task (ow_actor o)) ->
     claims w' !! (p, s) = Some (task (ow_actor o)) /\
     get (tree w') (pending_path root p s) = get (tree w) (pending_path root p s)).

Definition guar (o : Owner) (w w' : World) : Prop :=
  keeps (tree w) (tree w') /\
  (forall s, store_apart s -> (forall s0, ow_staged o = Some s0 -> apart s0 s) ->
     untouched (tree w) (tree w') s) /\
  (forall p s i, claims w !! (p, s) = Some i -> i <> task (ow_actor o) ->
     claims w' !! (p, s) = Some i /\
     get (tree w') (pending_path root p s) = get (tree w) (pending_path root p s)).

Lemma same_object_refl n : is_lnk n = false -> same_object n n.
Proof. by destruct n. Qed.

Lemma same_object_trans a b c : same_object a b -> same_object b c -> same_object a c.
Proof. destruct a, b, c; cbn; try done. congruence. Qed.

Lemma hashes_not_link n h : hashes n h -> is_lnk n = false.
Proof. intros [p Hp]. by destruct n. Qed.

Lemma keeps_refl w : store_inv w -> keeps (tree w) (tree w).
Proof.
  intros Hi. split_and!; [|by eauto|done]. intros h n Hh Hn. exists n. split; [done|].
  apply same_object_refl, (hashes_not_link n h), (si_objects _ Hi); done.
Qed.

Lemma keeps_trans t1 t2 t3 : keeps t1 t2 -> keeps t2 t3 -> keeps t1 t3.
Proof.
  intros (A1 & A2 & A3) (B1 & B2 & B3). split_and!; [| |by auto].
  2: { intros h m x Hh Hx. destruct (A2 _ _ _ Hh Hx) as (m' & x' & Hx'). by eapply B2. }
  intros h n Hh Hn. destruct (A1 h n Hh Hn) as (n2 & Hn2 & Hs2).
  destruct (B1 h n2 Hh Hn2) as (n3 & Hn3 & Hs3). exists n3. split; [done|]. by eapply same_object_trans.
Qed.

Lemma untouched_refl t s : untouched t t s.
Proof. done. Qed.

Lemma untouched_trans t1 t2 t3 s : untouched t1 t2 s -> untouched t2 t3 s -> untouched t1 t3 s.
Proof. intros [A1 A2] [B1 B2]. split; [congruence|auto]. Qed.

Lemma rely_refl o w : store_inv w -> rely o w w.
Proof. intros Hi. split_and!; [by apply keeps_refl|by intros|by intros]. Qed.

Lemma rely_trans o w1 w2 w3 : rely o w1 w2 -> rely o w2 w3 -> rely o w1 w3.
Proof.
  intros (A1 & A2 & A3) (B1 & B2 & B3). split_and!.
  - by eapply keeps_trans.
  - intros s Hs. eapply untouched_trans; auto.
  - intros p s Hc. destruct (A3 _ _ Hc) as [Hc' E1]. destruct (B3 _ _ Hc') as [? E2]. split; [done|].
    by rewrite E2.
Qed.

Lemma guar_refl o w : store_inv w -> guar o w w.
Proof. intros Hi. split_and!; [by apply keeps_refl|by intros|by intros]. Qed.

Lemma guar_trans o w1 w2 w3 : guar o w1 w2 -> guar o w2 w3 -> guar o w1 w3.
Proof.
  intros (A1 & A2 & A3) (B1 & B2 & B3). split_and!.
  - by eapply keeps_trans.
  - intros s Hs Hs0. eapply untouched_trans; auto.
  - intros p s i Hc Hne. destruct (A3 _ _ _ Hc Hne) as [Hc' E1].
    destruct (B3 _ _ _ Hc' Hne) as [? E2]. split; [done|]. by rewrite E2.
Qed.

(** What one task guarantees is what another relies on. *)
Lemma guar_rely o u w w' :
  owner_ok u -> task (ow_actor o) <> task (ow_actor u) ->
  (forall s s0, ow_staged u = Some s -> ow_staged o = Some s0 -> apart s0 s) ->
  guar o w w' -> rely u w w'.
Proof.
  intros Hu Ht Hs (A1 & A2 & A3). split_and!; [done| |].
  - intros s Hsu. apply A2; [by apply Hu|]. intros s0 Hs0. by apply Hs.
  - intros p s Hc. apply A3; [done|congruence].
Qed.

(** ** Stable facts *)

Lemma keeps_node_complete t t' n n' :
  keeps t t' -> same_object n n' -> node_complete t n -> node_complete t' n'.
Proof.
  intros Hk Hs. destruct n as [m c|m cs|], n' as [m' c'|m' cs'|]; try done. cbn in Hs. subst c'.
  cbn. intros Hn Hm. destruct (Hn Hm) as (man & Hp & Hf). exists man. split; [done|].
  intros p h He. destruct (Hf p h He) as (mode & x & Hx). apply Hk in Hx; [done|].
  apply parse_manifest_hash in Hp. rewrite Forall_forall in Hp. by apply Hp in He.
Qed.

Lemma keeps_complete t t' h : wf_hash h -> keeps t t' -> complete t h -> complete t' h.
Proof.
  intros Hh Hk (n & Hn & Hc). destruct (proj1 Hk h n Hh Hn) as (n' & Hn' & Hs).
  exists n'. split; [done|]. by eapply keeps_node_complete.
Qed.

Lemma keeps_published t t' h : wf_hash h -> keeps t t' -> published t h -> published t' h.
Proof.
  intros Hh Hk [Hc Hr]. split; [by eapply keeps_complete|]. by apply Hk.
Qed.

Lemma keeps_target d name t t' target : keeps t t' -> target_ok d name t target -> target_ok d name t' target.
Proof.
  intros Hk Ht kind p h Hp. destruct (Ht _ _ _ Hp) as [Hpub Hm]. split; [|done].
  eapply keeps_published; [by eapply parse_object_target_wf|done|done].
Qed.

Lemma target_ok_object d name t h :
  wf_hash h -> published t h -> mapping_ok d name h -> target_ok d name t (object_target h).
Proof.
  intros Hh Hp Hm kind p k Hk. rewrite parse_object_target_ok in Hk by done. by injection Hk as <-.
Qed.

(** ** Mappings *)

(** The names that [replace_symlink] is given: those of keys, and any name in
    the directory of named references. *)
Definition ref_base (d name : bytes) : Prop :=
  d = OBJECT_REFS_DIR \/ exists key, wf_hash key /\ name = to_hex key.

Lemma temp_key_inj p key a p' key' a' : wf_hash key -> wf_hash key' ->
  temp_ref_name p (to_hex key) a = temp_ref_name p' (to_hex key') a' -> key = key'.
Proof.
  intros Hk Hk' E. unfold temp_ref_name in E. apply app_inv_head in E.
  apply app_inj_1 in E as [E _]; [by apply to_hex_inj in E|].
  rewrite !length_to_hex. by destruct Hk as [_ ->], Hk' as [_ ->].
Qed.

Lemma mapping_ok_temp d name p a h : ref_base d name ->
  mapping_ok d (temp_ref_name p name a) h <-> mapping_ok d name h.
Proof.
  intros [->|(key & Hk & ->)]; [by split; intros _ Hd|]. split; intros Hm Hd k Hwf [E|(p' & a' & E)].
  - apply to_hex_inj in E as ->; [|done|done]. apply (Hm Hd); [done|]. right. by exists p, a.
  - symmetry in E. by apply dot_not_hex in E.
  - by apply dot_not_hex in E.
  - apply temp_key_inj in E as <-; [|done|done]. apply (Hm Hd); [done|by left].
Qed.

Lemma mapping_ok_hex d key h : wf_hash key -> vouched d key h -> mapping_ok d (to_hex key) h.
Proof.
  intros Hk Hv _ k Hwf [E|(p & a & E)]; [by apply to_hex_inj in E as ->|]. symmetry in E.
  by apply dot_not_hex in E.
Qed.

Lemma mapping_ok_named name h : mapping_ok OBJECT_REFS_DIR name h.
Proof. by intros Hd. Qed.

Lemma target_ok_base d name name' t target :
  (forall h, mapping_ok d name h -> mapping_ok d name' h) -> target_ok d name t target -> target_ok d name' t target.
Proof. intros Hm Ht kind p h Hp. destruct (Ht _ _ _ Hp). by auto. Qed.

(** ** Permitted changes of the tree *)

(** What a task may put at a path (or remove from it): anything in a tree it
    owns; a reference to a published object, or nothing; a record, which it
    does not remove; an object under its own hash. *)
Inductive permitted (o : Owner) (w : World) : path -> option node -> Prop :=
| perm_staged s q v : ow_staged o = Some s -> permitted o w (s ++ q) v
| perm_pending p s q v :
    claims w !! (p, s) = Some (task (ow_actor o)) -> permitted o w (pending_path root p s ++ q) v
| perm_ref d name v :
    d ∈ REF_DIRS -> (forall target m, v = Some (Lnk target m) -> target_ok d name (tree w) target) ->
    permitted o w (root ++ [d; name]) v
| perm_record name v :
    (forall h, wf_hash h -> name = record_name h -> v <> None) ->
    (forall n, v = Some n -> is_lnk n = false) ->
    permitted o w (root ++ [OBJECT_RECORDS_DIR; name]) v
| perm_object h n :
    wf_hash h -> hashes n h -> known n -> permitted o w (object_path_unchecked root h) (Some n).

(** Where a permitted change is, seen from everything the invariant and the
    other tasks speak of. *)
Record framed (o : Owner) (w : World) (p : path) (v : option node) : Prop := {
  fr_layout : forall d, d ∈ map fst LAYOUT -> ~ p `prefix_of` root ++ [d];
  fr_files : apart p (root ++ [FS_FILES_DIR]);
  fr_objects : forall h, wf_hash h ->
    apart p (object_path_unchecked root h) \/
    (p = object_path_unchecked root h /\ exists n, v = Some n /\ hashes n h /\ known n);
  fr_records : forall h, wf_hash h ->
    apart p (object_record_path root h) \/ (p = object_record_path root h /\ v <> None);
  fr_plain : forall x, apart p (root ++ [OBJECT_RECORDS_DIR; x]) \/
    (p = root ++ [OBJECT_RECORDS_DIR; x] /\ forall n, v = Some n -> is_lnk n = false);
  fr_refs : forall d name, d ∈ REF_DIRS ->
    apart p (root ++ [d; name]) \/
    (p = root ++ [d; name] /\ forall target m, v = Some (Lnk target m) -> target_ok d name (tree w) target);
  fr_pending : forall q s i, claims w !! (q, s) = Some i -> i <> task (ow_actor o) ->
    apart p (pending_path root q s);
  fr_outside : forall s, store_apart s -> (forall s0, ow_staged o = Some s0 -> apart s0 s) -> apart p s;
}.

Lemma layout_longer d x p (l : path) : p = root ++ d :: x :: l -> forall d', ~ p `prefix_of` root ++ [d'].
Proof.
  intros -> d' [k E]. rewrite <- app_assoc in E. apply app_inv_head in E. done.
Qed.

(** The paths the invariant speaks of, in one form. *)
Lemma object_path_eq h : object_path_unchecked root h = root ++ [OBJECTS_DIR; to_hex h].
Proof. unfold object_path_unchecked, objects_dir. by rewrite <- app_assoc. Qed.
Lemma record_path_eq h : object_record_path root h = root ++ [OBJECT_RECORDS_DIR; record_name h].
Proof. unfold object_record_path, object_records_dir. by rewrite <- app_assoc. Qed.
Lemma pending_path_eq p s : pending_path root p s = root ++ [OBJECTS_DIR; pending_name p s].
Proof. unfold pending_path, objects_dir. by rewrite <- app_assoc. Qed.

(** Two entries of the store. *)
Lemma apart_entry d x (l : path) d' x' (l' : path) :
  d <> d' \/ x <> x' -> apart (root ++ d :: x :: l) (root ++ d' :: x' :: l').
Proof.
  intros Hx. destruct (decide (d = d')) as [<-|Hd]; [|by apply apart_heads].
  destruct Hx as [?|Hx]; [done|].
  replace (root ++ d :: x :: l) with ((root ++ [d]) ++ x :: l) by (by rewrite <- app_assoc).
  replace (root ++ d :: x' :: l') with ((root ++ [d]) ++ x' :: l') by (by rewrite <- app_assoc).
  by apply apart_heads.
Qed.

(** Whatever is outside the store directories is apart from their entries. *)
Lemma outside_entry d x (l : path) s :
  d ∈ map fst LAYOUT -> store_apart s -> apart (root ++ d :: x :: l) s.
Proof.
  intros Hd Hs. replace (root ++ d :: x :: l) with ((root ++ [d]) ++ x :: l) by (by rewrite <- app_assoc).
  apply apart_sym, apart_app, apart_sym. by apply Hs.
Qed.

Lemma frame_staged o w s q v : owner_ok o -> ow_staged o = Some s -> framed o w (s ++ q) v.
Proof.
  intros Ho Hs. destruct (proj2 Ho s Hs) as (Ha & _).
  assert (He : forall d x, d ∈ map fst LAYOUT -> apart (s ++ q) (root ++ [d; x])).
  { intros d x Hd. apply apart_sym, apart_app. by apply outside_entry. }
  constructor.
  - intros d Hd [k E]. destruct (apart_app _ _ (q ++ k) (Ha d Hd)) as [Hn _]. apply Hn.
    rewrite app_assoc, <- E. done.
  - apply apart_sym, apart_app. apply Ha. set_solver.
  - intros h Hh. left. rewrite object_path_eq. apply He. set_solver.
  - intros h Hh. left. rewrite record_path_eq. apply He. set_solver.
  - intros x. left. apply He. set_solver.
  - intros d name Hd. left. by apply He, ref_dir_layout.
  - intros p s' i _ _. rewrite pending_path_eq. apply He. set_solver.
  - intros s' _ Hs'. apply apart_sym, apart_app, apart_sym. by apply Hs'.
Qed.

(** An entry [root/d/x] (or below it), given what it may be. *)
Lemma frame_entry o w d x q v :
  d ∈ map fst LAYOUT -> d <> FS_FILES_DIR ->
  (forall h, wf_hash h -> d = OBJECTS_DIR -> x = to_hex h ->
     q = [] /\ exists n, v = Some n /\ hashes n h /\ known n) ->
  (forall h, wf_hash h -> d = OBJECT_RECORDS_DIR -> x = record_name h -> q = [] /\ v <> None) ->
  (d = OBJECT_RECORDS_DIR -> q = [] /\ forall n, v = Some n -> is_lnk n = false) ->
  (d ∈ REF_DIRS -> q = [] /\ forall target m, v = Some (Lnk target m) -> target_ok d x (tree w) target) ->
  (forall p s i, claims w !! (p, s) = Some i -> i <> task (ow_actor o) -> d = OBJECTS_DIR ->
     x <> pending_name p s) ->
  framed o w (root ++ d :: x :: q) v.
Proof.
  intros Hd Hf Hobj Hrec Hplain Href Hpend. constructor.
  - intros d' _. by eapply layout_longer.
  - by apply apart_heads.
  - intros h Hh. rewrite object_path_eq. destruct (decide (d = OBJECTS_DIR /\ x = to_hex h)) as [[-> ->]|Hne].
    + destruct (Hobj h Hh eq_refl eq_refl) as [-> Hn]. by right.
    + left. by apply apart_entry, not_both.
  - intros h Hh. rewrite record_path_eq.
    destruct (decide (d = OBJECT_RECORDS_DIR /\ x = record_name h)) as [[-> ->]|Hne].
    + destruct (Hrec h Hh eq_refl eq_refl) as [-> Hn]. by right.
    + left. by apply apart_entry, not_both.
  - intros x'. destruct (decide (d = OBJECT_RECORDS_DIR /\ x = x')) as [[-> <-]|Hne].
    + destruct (Hplain eq_refl) as [-> Hn]. by right.
    + left. by apply apart_entry, not_both.
  - intros d' name Hd'. destruct (decide (d = d' /\ x = name)) as [[<- <-]|Hne].
    + destruct (Href Hd') as [-> Hn]. by right.
    + left. by apply apart_entry, not_both.
  - intros p s i Hc Hi. rewrite pending_path_eq. apply apart_entry.
    destruct (decide (d = OBJECTS_DIR)) as [->|]; [|by left]. right. by eapply Hpend.
  - intros s Hs _. by apply outside_entry.
Qed.

Lemma permitted_framed o w p v :
  store_inv w -> owner_ok o -> permitted o w p v -> framed o w p v.
Proof.
  intros Hi Ho [s q v' Hs|p' s q v' Hc|d name v' Hd Ht|name v' Hr Hp|h n Hh Hn Hk].
  - by apply frame_staged.
  - rewrite pending_path_eq. rewrite <- app_assoc. cbn [app]. apply frame_entry; try done.
    + set_solver.
    + intros h Hh _ E. by apply dot_not_hex in E.
    + intros Hd. by apply ref_dir_other in Hd as [? _].
    + intros p2 s2 i Hc2 Hne _ E. pose proof (si_claims _ Hi _ _ _ Hc). pose proof (si_claims _ Hi _ _ _ Hc2).
      apply pending_name_inj in E as [-> ->]; [|lia|lia|lia|lia]. congruence.
  - destruct (ref_dir_other d Hd) as (H1 & H2 & H3). apply frame_entry; try done. by apply ref_dir_layout.
  - apply frame_entry; try done.
    + set_solver.
    + intros h Hh _ E. split; [done|]. by eapply Hr.
    + intros Hd. by apply ref_dir_other in Hd as (_ & _ & ?).
  - rewrite object_path_eq. apply frame_entry; try done.
    + set_solver.
    + intros k Hk' _ E. apply to_hex_inj in E as ->; [|done|done]. split; [done|]. by exists n.
    + intros Hd. by apply ref_dir_other in Hd as [? _].
    + intros p2 s2 i _ _ _ E. symmetry in E. by apply dot_not_hex in E.
Qed.

Lemma hashes_mode m m' cs h : hashes (Dir m cs) h -> hashes (Dir m' cs) h.
Proof. done. Qed.

Lemma hashes_same_body n n' h : same_body n n' -> hashes n h -> hashes n' h.
Proof. destruct n, n'; cbn; intros E; simplify_eq; try done. Qed.

Lemma known_same n n' h : known n -> known n' -> hashes n h -> hashes n' h -> same_object n n'.
Proof.
  assert (Hsym : forall a b, same_body a b -> same_body b a) by (intros [] []; cbn; congruence).
  intros (a & Ha & Hab) (b & Hb & Hbb) Hn Hn'.
  assert (Hs : same_object a b).
  { apply (identify a b h); try done; (eapply hashes_same_body; [by apply Hsym|done]). }
  destruct a, n; cbn in *; simplify_eq; destruct b, n'; cbn in *; by simplify_eq.
Qed.

Lemma framed_keeps o w p v :
  store_inv w -> framed o w p v ->
  (exists q c m cs, p = q ++ [c] /\ get (tree w) q = Some (Dir m cs)) ->
  keeps (tree w) (place (tree w) p v).
Proof.
  intros Hi Hf (q & c & m & cs & Ep & Hq). split_and!.
  - intros h n Hh Hn. destruct (si_objects _ Hi h n Hh Hn) as [Hhn Hkn].
    destruct (fr_objects _ _ _ _ Hf h Hh) as [Ha|(E & n' & -> & Hh' & Hk')].
    + exists n. rewrite get_place_apart by done. split; [done|].
      by eapply same_object_refl, hashes_not_link.
    + exists n'. rewrite <- E. split; [subst p; by eapply get_place_at|]. by eapply known_same.
  - intros h mode x Hh Hx. exists mode, x. rewrite get_place_apart; [done|].
    unfold fs_file_path_unchecked. rewrite (app_assoc root). apply apart_app, Hf.
  - intros h Hh Hr. unfold recorded in *. destruct (fr_records _ _ _ _ Hf h Hh) as [Ha|[E Hv]].
    + by rewrite get_place_apart.
    + rewrite <- E, Ep. by erewrite get_place_at.
Qed.

(** A permitted change at a path whose parent is a directory keeps the
    invariant and the guarantee. *)
Lemma permitted_ok o w p v :
  store_inv w -> owner_ok o -> permitted o w p v -> wf_option v -> Forall valid_name p ->
  (exists q c m cs, p = q ++ [c] /\ get (tree w) q = Some (Dir m cs)) ->
  store_inv (set_tree w (place (tree w) p v)) /\ guar o w (set_tree w (place (tree w) p v)).
Proof.
  intros Hi Ho Hp Hwf Hvn Hpar. pose proof (permitted_framed o w p v Hi Ho Hp) as Hf.
  assert (Hk : keeps (tree w) (place (tree w) p v)) by (by eapply framed_keeps).
  destruct Hpar as (q & c & m & cs & Ep & Hq). split; [constructor|split_and!]; cbn [tree set_tree claims next_pending].
  - by apply wf_place; [| |apply Hi].
  - intros d Hd. apply real_dir_place; [by apply Hf|]. by apply Hi.
  - intros c' n Hn. apply (si_shards _ Hi c' n). rewrite <- Hn. symmetry. apply get_place_apart.
    replace (root ++ [FS_FILES_DIR; c']) with ((root ++ [FS_FILES_DIR]) ++ [c']) by (by rewrite <- app_assoc).
    apply apart_app, Hf.
  - intros x n Hn. destruct (fr_plain _ _ _ _ Hf x) as [Ha|[E Hp']].
    + rewrite get_place_apart in Hn by done. by eapply (si_records _ Hi).
    + rewrite <- E, Ep in Hn. erewrite get_place_at in Hn by done. by apply Hp'.
  - intros d name target mt Hd Hn. destruct (fr_refs _ _ _ _ Hf d name Hd) as [Ha|[E Ht]].
    + rewrite get_place_apart in Hn by done. eapply keeps_target; [done|]. by eapply (si_refs _ Hi).
    + eapply keeps_target; [done|]. apply (Ht target mt). rewrite <- E in Hn. subst p.
      by erewrite get_place_at in Hn.
  - intros h n Hh Hn. destruct (fr_objects _ _ _ _ Hf h Hh) as [Ha|(E & n' & -> & Hh' & Hk')].
    + rewrite get_place_apart in Hn by done. by apply (si_objects _ Hi).
    + rewrite <- E, Ep in Hn. erewrite get_place_at in Hn by done. by simplify_eq.
  - apply Hi.
  - apply Hi.
  - done.
  - intros s Hs Hs0. pose proof (fr_outside _ _ _ _ Hf s Hs Hs0) as Ha. split; [by apply get_place_apart|].
    apply real_dir_place. intros Hpre. apply (proj1 Ha). etransitivity; [done|].
    destruct (decide (s = [])) as [->|Hne]; [apply prefix_nil|]. exists [List.last s []]. by apply app_removelast_last.
  - intros p' s' i Hc Hne. split; [done|]. apply get_place_apart. by eapply (fr_pending _ _ _ _ Hf).
Qed.
End Invariant.
