(* ===== verification/StoreSafety.v ===== *)
(** * Store operations keep the invariant

    Every operation of [Store], run by a task among others, keeps the invariant
    of [StoreInvariant] at each of its calls, whatever fails and whatever the
    other tasks do in between. *)

From S2P Require Import Prelude Errors Hash Text FsObject FsArchive FsManifest Subjects Posix Tasks.
From S2P Require Import Store StoreInvariant.

Section Safety.
Context `{Sha256Api} `{JsonApi} (root : Store) (root_names : Forall valid_name root).
Context (around : list node) (identify : hashes_identify around).
Context (vouched : bytes -> bytes -> bytes -> Prop).
Context (own : Owner) (own_ok : owner_ok root own).

Local Abbreviation inv := (store_inv root around vouched).
Local Abbreviation wp := (Tasks.wp ow_actor (store_inv root around vouched) (rely root) (guar root) own).
Local Abbreviation keeps := (StoreInvariant.keeps root).
Local Abbreviation permitted := (StoreInvariant.permitted root around vouched own).

(** ** Single calls *)

Definition good (w w' : World) : Prop := inv w' /\ guar root own w w'.

Lemma good_refl w : inv w -> good w w.
Proof. intros Hi. split; [done|]. by eapply guar_refl. Qed.

Lemma good_trans w1 w2 w3 : good w1 w2 -> good w2 w3 -> good w1 w3.
Proof. intros [? ?] [? ?]. split; [done|]. by eapply guar_trans. Qed.

Lemma set_tree_id w : set_tree w (tree w) = w.
Proof. by destruct w. Qed.

(** A path of proper names whose parent is a directory. *)
Definition loc (w : World) (p : path) : Prop :=
  Forall valid_name p /\ exists q c, p = q ++ [c] /\ real_dir (tree w) q.

Lemma loc_locate w p : loc w p -> locate (tree w) p false = Ok p.
Proof.
  intros [Hv (q & c & -> & Hd)]. apply Forall_app in Hv as [Hq [Hc _]%Forall_cons].
  apply locate_real; [done..|]. discriminate.
Qed.

Lemma loc_locate_follow w p :
  loc w p -> (forall n, get (tree w) p = Some n -> is_lnk n = false) ->
  locate (tree w) p true = Ok p.
Proof.
  intros [Hv (q & c & -> & Hd)] Hn. apply Forall_app in Hv as [Hq [Hc _]%Forall_cons].
  apply locate_real; try done. intros _. destruct (get (tree w) (q ++ [c])); [by apply Hn|done].
Qed.

Lemma loc_lookup w p : loc w p ->
  lookup_node (tree w) p false = match get (tree w) p with Some n => Ok (p, n) | None => Err not_found end.
Proof. intros Hl. unfold lookup_node. by rewrite loc_locate. Qed.

Lemma loc_lookup_follow w p :
  loc w p -> (forall n, get (tree w) p = Some n -> is_lnk n = false) ->
  lookup_node (tree w) p true = match get (tree w) p with Some n => Ok (p, n) | None => Err not_found end.
Proof. intros Hl Hn. unfold lookup_node. by rewrite loc_locate_follow. Qed.

Lemma loc_entry w d x : inv w -> d ∈ map fst LAYOUT -> valid_name x -> loc w (root ++ [d; x]).
Proof.
  intros Hi Hd Hx. assert (Hvd : valid_name d).
  { assert (HL : Forall valid_name (map fst LAYOUT)).
    { repeat (apply Forall_cons; split; [|]); try apply Forall_nil; try done;
        (split_and!; [done| |done|done]); vm_compute; intros Hin;
        repeat (apply elem_of_cons in Hin as [Hin|Hin]; [done|]); by apply elem_of_nil in Hin. }
    rewrite Forall_forall in HL. by apply HL. }
  split.
  - apply Forall_app. split; [done|]. constructor; [done|]. constructor; [done|]. constructor.
  - exists (root ++ [d]), x. split; [by rewrite <- app_assoc|]. by apply (si_layout _ _ _ _ Hi).
Qed.

Lemma good_place w p v :
  inv w -> loc w p -> permitted w p v -> wf_option v -> good w (set_tree w (place (tree w) p v)).
Proof.
  intros Hi [Hv (q & c & E & m & cs & Hq)] Hp Hwf. eapply permitted_ok; try done. by exists q, c, m, cs.
Qed.

(** [rename] is a removal followed by an addition. *)
Lemma good_rename w a b t' :
  inv w -> loc w a -> loc w b -> rename_resolved (tree w) a b = Ok t' ->
  permitted w a None ->
  (forall n w1, get (tree w) a = Some n -> inv w1 -> keeps (tree w) (tree w1) ->
     claims w1 = claims w -> permitted w1 b (Some n)) ->
  good w (set_tree w t') /\
  (t' = tree w /\ a = b \/
   exists n, get (tree w) a = Some n /\ ~ a `prefix_of` b /\ t' = place (place (tree w) a None) b (Some n)).
Proof.
  intros Hi Ha Hb Hr Hpa Hpb. unfold rename_resolved in Hr.
  destruct (get (tree w) a) as [n|] eqn:Hn; [|done].
  destruct (bool_decide (a = b)) eqn:Eab; bools; [injection Hr as <-; rewrite set_tree_id; split; [by apply good_refl|by left]|].
  destruct (bool_decide (a `prefix_of` b)) eqn:Epre; bools; [done|].
  assert (Ht : t' = place (place (tree w) a None) b (Some n)).
  { destruct (is_dir n && _ && _); [done|]. destruct (get (tree w) b) as [[| |]|]; repeat case_match; inv_res; done. }
  subst t'. split; [|right; by exists n].
  pose proof (good_place w a None Hi Ha Hpa I) as Hg1. eapply good_trans; [exact Hg1|].
  set (w1 := set_tree w (place (tree w) a None)) in *.
  change (place (place (tree w) a None) b (Some n)) with (place (tree w1) b (Some n)).
  change (set_tree w (place (tree w1) b (Some n))) with (set_tree w1 (place (tree w1) b (Some n))).
  apply good_place.
  - apply Hg1.
  - destruct Hb as [Hv (q & c & -> & Hd)]. split; [done|]. exists q, c. split; [done|].
    apply real_dir_place; [|done]. intros Hp. apply Epre. etransitivity; [exact Hp|]. by exists [c].
  - apply (Hpb n w1); try done; [apply Hg1|]. apply Hg1.
  - cbn. eapply wf_get; [apply Hi|exact Hn].
Qed.

(** After a change, and after the others' changes. *)
Lemma after_keeps w w' w'' : good w w' -> rely root own w' w'' -> keeps (tree w) (tree w'').
Proof. intros [_ [Hk _]] [Hk' _]. by eapply keeps_trans. Qed.

(** A call that changes the tree. *)
Lemma wp_answer op w (Q : result IoError unit -> World -> Prop) e :
  inv w ->
  (forall t', change (now e) op (tree w) = Ok t' ->
     good w (set_tree w t') /\
     forall w'', rely root own (set_tree w t') w'' -> inv w'' -> Q (Ok tt) w'') ->
  (forall f, good w (set_tree w (leftover f op (tree w))) /\
     forall err w'', rely root own (set_tree w (leftover f op (tree w))) w'' -> inv w'' -> Q (Err err) w'') ->
  (forall err w'', rely root own w w'' -> inv w'' -> Q (Err err) w'') ->
  let '(r, w') := answer_unit (now e) (fault e) op w in
  inv w' /\ guar root own w w' /\ forall w'', rely root own w' w'' -> inv w'' -> Q r w''.
Proof.
  intros Hi Hok Hf Herr. unfold answer_unit. destruct (fault e) as [f|].
  - destruct (Hf f) as [[? ?] HQ]. split_and!; try done. apply HQ.
  - destruct (change (now e) op (tree w)) as [t'|err] eqn:E.
    + destruct (Hok t' eq_refl) as [[? ?] HQ]. by split_and!.
    + split_and!; [done|by eapply guar_refl|]. apply Herr.
Qed.

Lemma leftover_none op w f :
  inv w -> leftover f op (tree w) = tree w -> good w (set_tree w (leftover f op (tree w))).
Proof. intros Hi ->. rewrite set_tree_id. by apply good_refl. Qed.

Lemma wp_symlink target p w Q :
  inv w -> loc w p -> (forall m, permitted w p (Some (Lnk target m))) ->
  (forall r w'', inv w'' -> keeps (tree w) (tree w'') -> Q r w'') ->
  wp (symlink target p) Q w.
Proof.
  intros Hi Hl Hp HQ. apply wp_call. intros e. cbn [exec]. apply wp_answer; [done| | |].
  - intros t' Ht. cbn [change] in Ht. rewrite loc_locate in Ht by done.
    destruct (get (tree w) p); [done|]. injection Ht as <-.
    assert (Hg : good w (set_tree w (place (tree w) p (Some (Lnk target (now e)))))) by (by apply good_place).
    split; [done|]. intros w'' Hr Hi''. apply HQ; [done|]. by eapply after_keeps.
  - intros f. split; [by apply leftover_none|]. intros err w'' Hr Hi''. apply HQ; [done|].
    cbn [leftover] in Hr. rewrite set_tree_id in Hr. apply Hr.
  - intros err w'' Hr Hi''. apply HQ; [done|]. apply Hr.
Qed.

Lemma wp_rename a b w Q :
  inv w -> loc w a -> loc w b -> permitted w a None ->
  (forall n w1, get (tree w) a = Some n -> inv w1 -> keeps (tree w) (tree w1) ->
     claims w1 = claims w -> permitted w1 b (Some n)) ->
  (forall t' w'', good w (set_tree w t') ->
     (t' = tree w /\ a = b \/
      exists n, get (tree w) a = Some n /\ ~ a `prefix_of` b /\
                t' = place (place (tree w) a None) b (Some n)) ->
     rely root own (set_tree w t') w'' -> inv w'' -> Q (Ok tt) w'') ->
  (forall err w'', rely root own w w'' -> inv w'' -> Q (Err err) w'') ->
  wp (rename a b) Q w.
Proof.
  intros Hi Ha Hb Hpa Hpb HQ Herr. apply wp_call. intros e. cbn [exec]. apply wp_answer; [done| | |done].
  - intros t' Ht. cbn [change] in Ht. rewrite !loc_locate in Ht by done.
    destruct (good_rename w a b t') as [Hg Hc]; try done. split; [done|]. intros w'' Hr Hi''. by eapply HQ.
  - intros f. split; [by apply leftover_none|]. intros err w'' Hr Hi''. apply Herr; [|done].
    cbn [leftover] in Hr. by rewrite set_tree_id in Hr.
Qed.

Lemma wp_remove_file p w Q :
  inv w -> loc w p -> permitted w p None ->
  (forall r w'', inv w'' -> keeps (tree w) (tree w'') -> Q r w'') ->
  wp (remove_file p) Q w.
Proof.
  intros Hi Hl Hp HQ. apply wp_call. intros e. cbn [exec]. apply wp_answer; [done| | |].
  - intros t' Ht. cbn [change] in Ht. rewrite loc_lookup in Ht by done.
    destruct (get (tree w) p) as [n|]; [|done]. destruct (is_dir n); [done|]. injection Ht as <-.
    assert (Hg : good w (set_tree w (place (tree w) p None))) by (by apply good_place).
    split; [done|]. intros w'' Hr Hi''. apply HQ; [done|]. by eapply after_keeps.
  - intros f. split; [by apply leftover_none|]. intros err w'' Hr Hi''. apply HQ; [done|].
    cbn [leftover] in Hr. rewrite set_tree_id in Hr. apply Hr.
  - intros err w'' Hr Hi''. apply HQ; [done|]. apply Hr.
Qed.

Lemma wp_remove_dir_all p w Q :
  inv w -> loc w p -> permitted w p None -> (forall m cs, permitted w p (Some (Dir m cs))) ->
  (forall r w'', inv w'' -> keeps (tree w) (tree w'') -> Q r w'') ->
  wp (remove_dir_all p) Q w.
Proof.
  intros Hi Hl Hp Hpd HQ. apply wp_call. intros e. cbn [exec]. apply wp_answer; [done| | |].
  - intros t' Ht. cbn [change] in Ht. rewrite loc_lookup in Ht by done.
    destruct (get (tree w) p) as [n|]; [|done]. destruct (is_reg n); [done|].
    destruct (bool_decide (p = [])); [done|]. injection Ht as <-.
    assert (Hg : good w (set_tree w (place (tree w) p None))) by (by apply good_place).
    split; [done|]. intros w'' Hr Hi''. apply HQ; [done|]. by eapply after_keeps.
  - intros f. assert (Hg : good w (set_tree w (leftover f (ORemoveDirAll p) (tree w)))).
    { cbn [leftover]. rewrite loc_lookup by done. destruct (get (tree w) p) as [[| m cs |]|] eqn:Hn;
        try (rewrite set_tree_id; by apply good_refl).
      apply good_place; [done|done| |apply wf_prune; by eapply wf_get; [apply Hi|]].
      cbn [prune]. apply Hpd. }
    split; [done|]. intros err w'' Hr Hi''. apply HQ; [done|]. by eapply after_keeps.
  - intros err w'' Hr Hi''. apply HQ; [done|]. apply Hr.
Qed.

(** A call that only looks: the state it saw is the one before the others move. *)
Lemma wp_symlink_metadata p w Q :
  inv w ->
  (forall r w'', rely root own w w'' -> inv w'' ->
     (forall md, r = Ok md -> exists q n, lookup_node (tree w) p false = Ok (q, n) /\ md = metadata_of n) ->
     Q r w'') ->
  wp (symlink_metadata p) Q w.
Proof.
  intros Hi HQ. apply wp_look; [done|by eapply guar_refl|done|]. intros e w'' Hr Hi''.
  apply HQ; [done|done|]. intros md Hmd. cbn [exec fst] in Hmd. unfold answer_read in Hmd.
  destruct (fault e); [done|]. inv_res. by eexists _, _.
Qed.

Lemma wp_metadata p w Q :
  inv w ->
  (forall r w'', rely root own w w'' -> inv w'' ->
     (forall md, r = Ok md -> exists q n, lookup_node (tree w) p true = Ok (q, n) /\ md = metadata_of n) ->
     Q r w'') ->
  wp (metadata p) Q w.
Proof.
  intros Hi HQ. apply wp_look; [done|by eapply guar_refl|done|]. intros e w'' Hr Hi''.
  apply HQ; [done|done|]. intros md Hmd. cbn [exec fst] in Hmd. unfold answer_read in Hmd.
  destruct (fault e); [done|]. inv_res. by eexists _, _.
Qed.

Lemma wp_exists p w Q :
  inv w ->
  (forall r w'', rely root own w w'' -> inv w'' ->
     (r = true -> exists q n, lookup_node (tree w) p true = Ok (q, n)) -> Q r w'') ->
  wp (exists_ p) Q w.
Proof.
  intros Hi HQ. apply wp_seq; [done|]. apply wp_metadata; [done|]. intros r w'' Hr Hi'' Hmd _.
  apply HQ; [done|done|]. intros Ho. destruct r as [md|]; [|done].
  destruct (Hmd md eq_refl) as (q & n & ? & _). by exists q, n.
Qed.

Lemma wp_is_symlink p w Q :
  inv w -> (forall r w'', rely root own w w'' -> inv w'' -> Q r w'') -> wp (is_symlink p) Q w.
Proof.
  intros Hi HQ. apply wp_seq; [done|]. apply wp_symlink_metadata; [done|]. intros r w'' Hr Hi'' _ _.
  by apply HQ.
Qed.

Lemma wp_read_link p w Q :
  inv w ->
  (forall r w'', rely root own w w'' -> inv w'' ->
     (forall target, r = Ok target ->
        exists q m, lookup_node (tree w) p false = Ok (q, Lnk target m)) -> Q r w'') ->
  wp (read_link p) Q w.
Proof.
  intros Hi HQ. apply wp_look; [done|by eapply guar_refl|done|]. intros e w'' Hr Hi''.
  apply HQ; [done|done|]. intros md Hmd. cbn [exec fst] in Hmd. unfold answer_read in Hmd.
  destruct (fault e); [done|]. inv_res. destruct n; inv_res. by eexists _, _.
Qed.

Lemma wp_read p w Q :
  inv w ->
  (forall r w'', rely root own w w'' -> inv w'' ->
     (forall content, r = Ok content ->
        exists q m, lookup_node (tree w) p true = Ok (q, Reg m content)) -> Q r w'') ->
  wp (read p) Q w.
Proof.
  intros Hi HQ. apply wp_look; [done|by eapply guar_refl|done|]. intros e w'' Hr Hi''.
  apply HQ; [done|done|]. intros md Hmd. cbn [exec fst] in Hmd. unfold answer_read in Hmd.
  destruct (fault e); [done|]. inv_res. destruct n; inv_res. by eexists _, _.
Qed.

(** ** References *)

Local Abbreviation process := (pid (ow_actor own)).

Lemma process_nonneg : (0 <= process)%Z.
Proof. apply own_ok. Qed.

Lemma valid_temp_ref name attempt :
  valid_name name -> (0 <= attempt)%Z -> valid_name (temp_ref_name process name attempt).
Proof. intros. apply valid_temp; [done|apply process_nonneg|done]. Qed.

Lemma rely_keeps w w' : rely root own w w' -> keeps (tree w) (tree w').
Proof. by intros [? _]. Qed.

Lemma replace_attempts_safe n attempt d name target w Q :
  inv w -> d ∈ REF_DIRS -> valid_name name -> ref_base d name -> (0 <= attempt)%Z ->
  target_ok root vouched d name (tree w) target ->
  (forall r w'', inv w'' -> keeps (tree w) (tree w'') -> Q r w'') ->
  wp (replace_attempts process n attempt target (root ++ [d; name]) (root ++ [d]) name) Q w.
Proof.
  intros Hi Hd Hn Hb. revert attempt w Hi. induction n as [|n IH]; intros attempt w Hi Ha Ht HQ.
  { apply HQ; [done|]. by eapply keeps_refl. }
  cbn [replace_attempts]. rewrite <- app_assoc. cbn [app].
  set (tmp := temp_ref_name process name attempt).
  assert (Hl : forall w x, inv w -> valid_name x -> loc w (root ++ [d; x])).
  { intros. apply loc_entry; [done|by apply ref_dir_layout|done]. }
  assert (Htmp : valid_name tmp) by (by apply valid_temp_ref).
  apply wp_seq; [done|]. apply wp_symlink; [done|by apply Hl| |].
  { intros m. apply perm_ref; [done|]. intros ? ? [= <- <-]. eapply target_ok_base; [|exact Ht].
    intros h. by apply mapping_ok_temp. }
  intros r w1 Hi1 Hk1 _. destruct r as [u|err].
  - apply wp_seq; [done|]. apply wp_rename; [done|by apply Hl|by apply Hl| | | |].
    + by apply perm_ref.
    + intros n' w2 Hn' Hi2 Hk2 _. apply perm_ref; [done|]. intros tg m [= ->].
      eapply keeps_target; [exact Hk2|]. eapply target_ok_base; [intros h; by apply mapping_ok_temp|].
      by eapply (si_refs _ _ _ _ Hi1 d tmp).
    + intros t' w2 Hg _ Hr Hi2 _. apply HQ; [done|]. eapply keeps_trans; [done|]. by eapply after_keeps.
    + intros err w2 Hr2 Hi2 _. apply wp_seq; [done|].
      apply wp_remove_file; [done|by apply Hl|by apply perm_ref|]. intros r' w3 Hi3 Hk3 _. apply HQ; [done|].
      eapply keeps_trans; [done|]. eapply keeps_trans; [by apply rely_keeps|done].
  - destruct (bool_decide (io_kind err = AlreadyExists)); [|by apply HQ].
    apply IH; [done|lia|by eapply keeps_target|]. intros r w2 Hi2 Hk2. apply HQ; [done|].
    by eapply keeps_trans.
Qed.

Lemma last_entry d name : last (root ++ [d; name]) = Some name.
Proof. replace (root ++ [d; name]) with ((root ++ [d]) ++ [name]) by (by rewrite <- app_assoc). apply last_snoc. Qed.

Lemma removelast_entry d name : removelast (root ++ [d; name]) = root ++ [d].
Proof. rewrite removelast_app by done. done. Qed.

Lemma clear_ref_directory_safe present d name w Q :
  inv w -> d ∈ REF_DIRS -> valid_name name ->
  (forall r w'', inv w'' -> keeps (tree w) (tree w'') -> Q r w'') ->
  wp (clear_ref_directory present (root ++ [d; name])) Q w.
Proof.
  intros Hi Hd Hn HQ. unfold clear_ref_directory.
  destruct present; [|apply HQ; [done|by eapply keeps_refl]].
  apply wp_try_bind; [done|]. apply wp_mapping_err; [done|]. apply wp_symlink_metadata; [done|].
  intros r w1 Hr1 Hi1 _ _. apply rely_keeps in Hr1.
  destruct r as [md|err]; cbn [map_err]; [|by apply HQ].
  destruct (bool_decide (file_type md = TDir)); [|by apply HQ].
  apply wp_mapping_err; [done|].
  apply wp_remove_dir_all; [done|apply loc_entry; [done|by apply ref_dir_layout|done]| | |].
  - by apply perm_ref.
  - intros m cs. by apply perm_ref.
  - intros r w2 Hi2 Hk2. apply HQ; [done|]. by eapply keeps_trans.
Qed.

Lemma replace_symlink_safe d name target w Q :
  inv w -> d ∈ REF_DIRS -> valid_name name -> ref_base d name -> target_ok root vouched d name (tree w) target ->
  (forall r w'', inv w'' -> keeps (tree w) (tree w'') -> Q r w'') ->
  wp (replace_symlink process target (root ++ [d; name])) Q w.
Proof.
  intros Hi Hd Hn Hb Ht HQ. unfold replace_symlink. rewrite last_entry, removelast_entry.
  apply wp_seq; [done|]. apply wp_exists; [done|]. intros found w1 Hr1 Hi1 _ _. apply rely_keeps in Hr1.
  apply wp_seq; [done|]. apply (wp_weaken _ _ _ _ _ _ (fun _ w2 => keeps (tree w) (tree w2))); [|done|].
  2: { destruct found; [done|]. apply wp_is_symlink; [done|]. intros r w2 Hr2 Hi2.
       eapply keeps_trans; [done|]. by apply rely_keeps. }
  intros present w2 Hi2 Hk2 _. apply wp_try_bind; [done|]. apply clear_ref_directory_safe; try done.
  intros r w3 Hi3 Hk3 _. assert (Hk : keeps (tree w) (tree w3)) by (by eapply keeps_trans).
  destruct r as [u|err]; [|by apply HQ]. apply replace_attempts_safe; try done; [by eapply keeps_target|].
  intros r w4 Hi4 Hk4. apply HQ; [done|]. by eapply keeps_trans.
Qed.

Lemma store_build_ref_safe key h w Q :
  inv w -> wf_hash key -> wf_hash h -> published root (tree w) h -> vouched BUILDS_DIR key h ->
  (forall r w'', inv w'' -> keeps (tree w) (tree w'') -> Q r w'') ->
  wp (store_build_ref process root key h) Q w.
Proof.
  intros Hi Hk Hh Hp Hv HQ. unfold store_build_ref, build_ref_path, builds_dir. rewrite <- app_assoc.
  apply replace_symlink_safe; try done; [set_solver|by apply valid_hex|right; by exists key|].
  apply target_ok_object; [done|done|by apply mapping_ok_hex].
Qed.

Lemma store_reuse_ref_safe key h w Q :
  inv w -> wf_hash key -> wf_hash h -> published root (tree w) h -> vouched REUSES_DIR key h ->
  (forall r w'', inv w'' -> keeps (tree w) (tree w'') -> Q r w'') ->
  wp (store_reuse_ref process root key h) Q w.
Proof.
  intros Hi Hk Hh Hp Hv HQ. unfold store_reuse_ref, reuse_ref_path, reuses_dir. rewrite <- app_assoc.
  apply replace_symlink_safe; try done; [set_solver|by apply valid_hex|right; by exists key|].
  apply target_ok_object; [done|done|by apply mapping_ok_hex].
Qed.

Lemma load_mapping_safe kind d name w Q :
  inv w -> d ∈ REF_DIRS -> valid_name name ->
  (forall r w'', inv w'' -> keeps (tree w) (tree w'') ->
     (forall h, r = Ok (Some h) -> wf_hash h /\ published root (tree w'') h /\ mapping_ok vouched d name h) -> Q r w'') ->
  wp (load_mapping_object_hash kind (root ++ [d; name])) Q w.
Proof.
  intros Hi Hd Hn HQ. unfold load_mapping_object_hash. apply wp_seq; [done|].
  apply wp_symlink_metadata; [done|]. intros r w1 Hr1 Hi1 _ _. apply rely_keeps in Hr1.
  destruct r as [md|err].
  - destruct (negb (bool_decide (file_type md = TSymlink))); [by apply HQ|].
    apply wp_try_bind; [done|]. apply wp_mapping_err; [done|]. apply wp_read_link; [done|].
    intros r w2 Hr2 Hi2 Hlink _. apply rely_keeps in Hr2.
    assert (Hk : keeps (tree w) (tree w2)) by (by eapply keeps_trans).
    destruct r as [target|err]; cbn [map_err]; [|by apply HQ].
    apply wp_ret, HQ; [done|done|]. intros h Hh.
    destruct (parse_object_target kind (root ++ [d; name]) target) as [h'|] eqn:Hparse; [|done]. injection Hh as <-.
    destruct (Hlink target eq_refl) as (q & m & Hl).
    rewrite loc_lookup in Hl by (apply loc_entry; [done|by apply ref_dir_layout|done]).
    destruct (get (tree w1) (root ++ [d; name])) as [n|] eqn:En; [|done]. injection Hl as _ ->.
    destruct (si_refs _ _ _ _ Hi1 d name target m Hd En _ _ _ Hparse) as [Hpub Hmap].
    pose proof (parse_object_target_wf _ _ _ _ Hparse) as Hwf. split_and!; [done|eapply keeps_published; [done|exact Hr2|done]|done].
  - destruct (bool_decide (io_kind err = NotFound)); by apply HQ.
Qed.

Lemma load_build_safe key w :
  inv w -> wf_hash key ->
  wp (load_build_object_hash root key)
    (fun r w' => forall h, r = Ok (Some h) -> wf_hash h /\ published root (tree w') h /\ vouched BUILDS_DIR key h) w.
Proof.
  intros Hi Hk. unfold load_build_object_hash, build_ref_path, builds_dir. rewrite <- app_assoc.
  apply load_mapping_safe; [done|set_solver|by apply valid_hex|].
  intros r w' _ _ Hp h E. destruct (Hp h E) as (? & ? & Hm). split_and!; [done|done|]. apply Hm; [done|done|by left].
Qed.

Lemma load_reuse_safe key w :
  inv w -> wf_hash key ->
  wp (load_reuse_object_hash root key)
    (fun r w' => forall h, r = Ok (Some h) -> wf_hash h /\ published root (tree w') h /\ vouched REUSES_DIR key h) w.
Proof.
  intros Hi Hk. unfold load_reuse_object_hash, reuse_ref_path, reuses_dir. rewrite <- app_assoc.
  apply load_mapping_safe; [done|set_solver|by apply valid_hex|].
  intros r w' _ _ Hp h E. destruct (Hp h E) as (? & ? & Hm). split_and!; [done|done|]. apply Hm; [done|done|by left].
Qed.

Context (format_timestamp : Z -> result string bytes)
        (timestamp_text : forall t s, format_timestamp t = Ok s -> 47%Z ∉ s).

Lemma allocate_candidates_safe n counter name suffix w Q :
  inv w -> valid_name name -> 47%Z ∉ suffix -> (0 <= counter)%Z ->
  (forall r w'', inv w'' -> keeps (tree w) (tree w'') ->
     (forall c, r = Ok c -> valid_name c) -> Q r w'') ->
  wp (allocate_candidates n counter root name suffix) Q w.
Proof.
  intros Hi Hn Hs. revert counter w Hi. induction n as [|n IH]; intros counter w Hi Hc HQ.
  { apply HQ; [done|by eapply keeps_refl|done]. }
  cbn [allocate_candidates]. apply wp_seq; [done|]. apply wp_exists; [done|].
  intros found w1 Hr1 Hi1 _ _. apply rely_keeps in Hr1. apply wp_seq; [done|].
  apply (wp_weaken _ _ _ _ _ _ (fun _ w2 => keeps (tree w) (tree w2))); [|done|].
  2: { destruct found; [done|]. apply wp_is_symlink; [done|]. intros r w2 Hr2 Hi2.
       eapply keeps_trans; [done|]. by apply rely_keeps. }
  intros taken w2 Hi2 Hk2 _. destruct (negb taken).
  - apply HQ; [done|done|]. intros c [= <-]. by apply generation_valid.
  - apply IH; [done|lia|]. intros r w3 Hi3 Hk3. apply HQ; [done|]. by eapply keeps_trans.
Qed.

Lemma update_object_ref_safe name h w Q :
  inv w -> wf_hash h -> published root (tree w) h ->
  (forall r w'', inv w'' -> keeps (tree w) (tree w'') -> Q r w'') ->
  wp (update_object_ref format_timestamp process root name h) Q w.
Proof.
  intros Hi Hh Hp HQ. unfold update_object_ref.
  destruct (validate_ref_name name) as [[]|err] eqn:Ev; [|apply HQ; [done|by eapply keeps_refl]].
  apply ref_name_valid in Ev. unfold object_refs_dir.
  replace ((root ++ [OBJECT_REFS_DIR]) ++ [name]) with (root ++ [OBJECT_REFS_DIR; name])
    by (by rewrite <- app_assoc).
  assert (Hd : OBJECT_REFS_DIR ∈ REF_DIRS) by set_solver.
  assert (Hset : forall w1, inv w1 -> keeps (tree w) (tree w1) ->
    wp (replace_symlink process (object_target h) (root ++ [OBJECT_REFS_DIR; name])) Q w1).
  { intros w1 Hi1 Hk1. apply replace_symlink_safe; try done.
    - by left.
    - apply target_ok_object; [done|by eapply keeps_published|apply mapping_ok_named].
    - intros r w2 Hi2 Hk2. apply HQ; [done|]. by eapply keeps_trans. }
  apply wp_seq; [done|]. apply wp_symlink_metadata; [done|]. intros r w1 Hr1 Hi1 _ _.
  apply rely_keeps in Hr1. destruct r as [md|err].
  2: { destruct (bool_decide (io_kind err = NotFound)); [by apply Hset|by apply HQ]. }
  destruct (bool_decide (file_type md = TSymlink)); [|by apply HQ].
  apply wp_try_bind; [done|]. apply wp_mapping_err; [done|]. apply wp_read_link; [done|].
  intros r w2 Hr2 Hi2 Hlink _. apply rely_keeps in Hr2.
  assert (Hk2 : keeps (tree w) (tree w2)) by (by eapply keeps_trans).
  destruct r as [target|err]; cbn [map_err]; [|by apply HQ].
  destruct (parse_object_target _ _ target) as [ch|] eqn:Ep; [|by apply HQ].
  destruct (bool_decide (ch = h)); [by apply HQ|].
  destruct (generation_suffix_from_symlink_metadata format_timestamp md) as [suffix|] eqn:Es; [|by apply HQ].
  unfold generation_suffix_from_symlink_metadata in Es. apply map_err_ok, timestamp_text in Es.
  assert (Ht : forall x, target_ok root vouched OBJECT_REFS_DIR x (tree w2) target).
  { destruct (Hlink target eq_refl) as (q & m & Hl).
    rewrite loc_lookup in Hl by (apply loc_entry; [done|by apply ref_dir_layout|done]).
    destruct (get (tree w1) (root ++ [OBJECT_REFS_DIR; name])) as [n|] eqn:En; [|done]. injection Hl as _ ->.
    intros x. eapply keeps_target; [exact Hr2|]. eapply target_ok_base; [|by eapply (si_refs _ _ _ _ Hi1)].
    intros k _. apply mapping_ok_named. }
  apply wp_try_bind; [done|]. apply allocate_candidates_safe; [done|done|done|lia|].
  intros r w3 Hi3 Hk3 Hc _. assert (Hk : keeps (tree w) (tree w3)) by (by eapply keeps_trans).
  destruct r as [gen|err]; [|by apply HQ].
  apply wp_try_bind; [done|]. unfold create_generation_ref. rewrite <- app_assoc. cbn [app].
  apply replace_symlink_safe; [done|done|by apply Hc|by left|eapply keeps_target; [exact Hk3|apply Ht]|].
  intros r w4 Hi4 Hk4 _. assert (Hk' : keeps (tree w) (tree w4)) by (by eapply keeps_trans).
  destruct r as [u|err]; [by apply Hset|by apply HQ].
Qed.

(** ** Completeness and records *)

Lemma object_loc w h : inv w -> wf_hash h -> loc w (object_path_unchecked root h).
Proof. intros Hi Hh. rewrite object_path_eq. apply loc_entry; [done|set_solver|by apply valid_hex]. Qed.

Lemma object_lookup w h follow : inv w -> wf_hash h ->
  lookup_node (tree w) (object_path_unchecked root h) follow =
  match get (tree w) (object_path_unchecked root h) with
  | Some n => Ok (object_path_unchecked root h, n)
  | None => Err not_found
  end.
Proof.
  intros Hi Hh. pose proof (object_loc w h Hi Hh). destruct follow; [|by apply loc_lookup].
  apply loc_lookup_follow; [done|]. intros n Hn. eapply hashes_not_link, (si_objects _ _ _ _ Hi); done.
Qed.

Lemma object_file_stays t t' h m c : wf_hash h -> keeps t t' ->
  get t (object_path_unchecked root h) = Some (Reg m c) ->
  exists m', get t' (object_path_unchecked root h) = Some (Reg m' c).
Proof.
  intros Hh Hk Hn. destruct (proj1 Hk h _ Hh Hn) as ([m' c'| |] & Hn' & Hs); try done.
  cbn in Hs. subst. by exists m'.
Qed.

Lemma fs_file_lookup w h q n : inv w -> wf_hash h ->
  lookup_node (tree w) (fs_file_path_unchecked root h) false = Ok (q, n) ->
  get (tree w) (fs_file_path_unchecked root h) = Some n.
Proof.
  intros Hi Hh Hl. assert (Hd : real_dir (tree w) (root ++ [FS_FILES_DIR])).
  { apply (si_layout _ _ _ _ Hi). set_solver. }
  pose proof (valid_shard h Hh) as Hs. pose proof (valid_hex h Hh) as Hx.
  assert (Hf : Forall valid_name (root ++ [FS_FILES_DIR])).
  { pose proof (loc_entry w FS_FILES_DIR (to_hex h) Hi ltac:(set_solver) Hx) as [Hv _].
    replace (root ++ [FS_FILES_DIR; to_hex h]) with ((root ++ [FS_FILES_DIR]) ++ [to_hex h]) in Hv
      by (by rewrite <- app_assoc). by apply Forall_app in Hv as [? _]. }
  unfold fs_file_path_unchecked in *. rewrite (app_assoc root) in *. cbn [app] in *.
  unfold lookup_node in Hl. inv_res. unfold locate in E.
  rewrite resolve_dirs in E by done. cbn [app] in E. rewrite resolve_cons in E by done.
  destruct (get (tree w) ((root ++ [FS_FILES_DIR]) ++ [take 2 (to_hex h)])) as [[m c|m cs|tg m]|] eqn:Eg; try done.
  - rewrite resolve_cons in E by done. rewrite <- !app_assoc in *. cbn [app] in *.
    destruct (get (tree w) (root ++ [FS_FILES_DIR; take 2 (to_hex h); to_hex h])) as [[m' c'|m' cs'|tg' m']|] eqn:Eh;
      cbn in E; try (rewrite bool_decide_eq_true_2 in E by done; cbn in E); inv_res; rewrite <- Eh; exact E0.
  - exfalso. rewrite <- app_assoc in Eg. by apply (si_shards _ _ _ _ Hi) in Eg.
Qed.

Lemma read_manifest_safe h mode c w Q :
  inv w -> wf_hash h -> get (tree w) (object_path_unchecked root h) = Some (Reg mode c) ->
  (forall r w'', inv w'' -> keeps (tree w) (tree w'') ->
     (forall m, r = Ok (Some m) -> parse_canonical_bytes c = Ok m) ->
     (r = Ok None -> strip_prefix CANONICAL_SCHEMA_LINE c = None) -> Q r w'') ->
  wp (read_manifest_if_marked (object_path_unchecked root h)) Q w.
Proof.
  intros Hi Hh Hn HQ. unfold read_manifest_if_marked.
  apply wp_try_bind; [done|]. apply wp_mapping_err; [done|]. apply wp_symlink_metadata; [done|].
  intros r w1 Hr1 Hi1 Hmd _. apply rely_keeps in Hr1. destruct r as [md|err]; cbn [map_err]; [|by apply HQ].
  destruct (Hmd md eq_refl) as (q & n & Hl & ->). rewrite object_lookup, Hn in Hl by done.
  injection Hl as _ <-. cbn [metadata_of file_type]. rewrite bool_decide_eq_true_2 by done. cbn [negb].
  destruct (object_file_stays _ _ h mode c Hh Hr1 Hn) as [m1 Hn1].
  assert (Hread : forall w2 m2 x, inv w2 -> get (tree w2) (object_path_unchecked root h) = Some (Reg m2 c) ->
    (exists q m, lookup_node (tree w2) (object_path_unchecked root h) true = Ok (q, Reg m x)) -> x = c).
  { intros w2 m2 x Hi2 Hn2 (q' & m' & Hl). rewrite object_lookup, Hn2 in Hl by done. by injection Hl. }
  apply wp_try_bind; [done|]. apply wp_mapping_err; [done|]. apply wp_read; [done|].
  intros r w2 Hr2 Hi2 Hc _. apply rely_keeps in Hr2.
  assert (Hk2 : keeps (tree w) (tree w2)) by (by eapply keeps_trans).
  destruct r as [content|err]; cbn [map_err]; [|by apply HQ].
  assert (content = c) as -> by (by eapply Hread, Hc).
  destruct (object_file_stays _ _ h m1 c Hh Hr2 Hn1) as [m2 Hn2].
  destruct (length c <? length CANONICAL_SCHEMA_LINE)%nat eqn:El.
  { apply HQ; [done|done|done|]. intros _. bools. destruct (strip_prefix CANONICAL_SCHEMA_LINE c) eqn:Es; [|done].
    apply strip_prefix_some in Es. rewrite Es, length_app in El. lia. }
  destruct (bool_decide (take (length CANONICAL_SCHEMA_LINE) c = CANONICAL_SCHEMA_LINE)) eqn:Et.
  - apply wp_try_bind; [done|]. apply wp_mapping_err; [done|]. apply wp_read; [done|].
    intros r w3 Hr3 Hi3 Hc3 _. apply rely_keeps in Hr3.
    assert (Hk3 : keeps (tree w) (tree w3)) by (by eapply keeps_trans).
    destruct r as [whole|err]; cbn [map_err]; [|by apply HQ].
    assert (whole = c) as -> by (by eapply Hread, Hc3).
    apply wp_ret, HQ; [done|done| |]; intros; by inv_res.
  - apply HQ; [done|done|done|]. intros _. bools. destruct (strip_prefix CANONICAL_SCHEMA_LINE c) eqn:Es; [|done].
    apply strip_prefix_some in Es. destruct Et. by rewrite Es, take_app_length.
Qed.

Definition files_present (t : node) (hs : list bytes) : Prop :=
  forall h, h ∈ hs -> exists mode x, get t (fs_file_path_unchecked root h) = Some (Reg mode x).

Lemma fs_files_present_safe hs w Q :
  inv w -> Forall wf_hash hs ->
  (forall r w'', inv w'' -> keeps (tree w) (tree w'') ->
     (r = Ok true -> files_present (tree w'') hs) -> Q r w'') ->
  wp (fs_files_present root hs) Q w.
Proof.
  intros Hi Hhs. revert w Q Hi. induction Hhs as [|h hs Hh Hhs IH]; intros w Q Hi HQ; cbn [fs_files_present].
  { apply HQ; [done|by eapply keeps_refl|]. intros _ h Hin. by apply elem_of_nil in Hin. }
  apply wp_seq; [done|]. apply wp_symlink_metadata; [done|]. intros r w1 Hr1 Hi1 Hmd _.
  apply rely_keeps in Hr1. destruct r as [md|err].
  2: { destruct (bool_decide (io_kind err = NotFound)); by apply HQ. }
  destruct (Hmd md eq_refl) as (q & n & Hl & ->). apply fs_file_lookup in Hl; [|done|done].
  destruct n as [m c|m cs|tg m]; cbn [metadata_of file_type]; [|by apply HQ|by apply HQ].
  rewrite bool_decide_eq_true_2 by done. apply IH; [done|]. intros r w2 Hi2 Hk2 Hp.
  assert (Hk : keeps (tree w) (tree w2)) by (by eapply keeps_trans).
  apply HQ; [done|done|]. intros Hr h' [->|Hin]%elem_of_cons; [|by apply Hp].
  by eapply (proj1 (proj2 Hk)).
Qed.

Lemma distinct_hashes_sub seen es h : h ∈ distinct_hashes seen es -> exists p, EFile p h ∈ es.
Proof.
  revert seen. induction es as [|e es IH]; intros seen Hin; cbn [distinct_hashes] in Hin; [by apply elem_of_nil in Hin|].
  assert (Hrec : forall s, h ∈ distinct_hashes s es -> exists p, EFile p h ∈ e :: es).
  { intros s Hs. destruct (IH s Hs) as [p ?]. exists p. apply elem_of_cons. by right. }
  destruct e as [p k| |]; [|by eapply Hrec|by eapply Hrec].
  destruct (bool_decide (k ∈ seen)); [by eapply Hrec|]. apply elem_of_cons in Hin as [->|Hin]; [|by eapply Hrec].
  exists p. apply elem_of_cons. by left.
Qed.

Lemma distinct_hashes_all seen es p h :
  EFile p h ∈ es -> h ∈ seen \/ h ∈ distinct_hashes seen es.
Proof.
  revert seen. induction es as [|e es IH]; intros seen Hin; [by apply elem_of_nil in Hin|].
  apply elem_of_cons in Hin as [<-|Hin]; cbn [distinct_hashes].
  - destruct (bool_decide (h ∈ seen)) eqn:E; bools; [by left|]. right. apply elem_of_cons. by left.
  - destruct e as [p' k| |]; [|by apply IH|by apply IH].
    destruct (bool_decide (k ∈ seen)); [by apply IH|].
    destruct (IH (k :: seen) Hin) as [[->|?]%elem_of_cons|?]; [right; apply elem_of_cons; by left|by left|].
    right. apply elem_of_cons. by right.
Qed.

Lemma object_is_complete_safe h w Q :
  inv w -> wf_hash h ->
  (forall r w'', inv w'' -> keeps (tree w) (tree w'') ->
     (r = Ok true -> complete root (tree w'') h) -> Q r w'') ->
  wp (object_is_complete root h) Q w.
Proof.
  intros Hi Hh HQ. unfold object_is_complete, object_path, try_exists.
  apply wp_try_bind; [done|]. apply wp_seq; [done|]. apply wp_seq; [done|]. apply wp_metadata; [done|].
  intros r w1 Hr1 Hi1 _ _. apply rely_keeps in Hr1. apply wp_ret. intros _. apply wp_ret. intros _.
  match goal with |- match ?x with _ => _ end => destruct x as [[p|]|err] eqn:Ep; [|by apply HQ|by apply HQ] end.
  assert (p = object_path_unchecked root h) as ->.
  { destruct r as [md|err]; [by inv_res|]. destruct (bool_decide (io_kind err = NotFound)); by inv_res. }
  clear Ep. apply wp_try_bind; [done|]. apply wp_mapping_err; [done|]. apply wp_symlink_metadata; [done|].
  intros r2 w2 Hr2 Hi2 Hmd _. apply rely_keeps in Hr2.
  assert (Hk2 : keeps (tree w) (tree w2)) by (by eapply keeps_trans).
  destruct r2 as [md|err]; cbn [map_err]; [|by apply HQ].
  destruct (Hmd md eq_refl) as (q & n & Hl & ->). rewrite object_lookup in Hl by done.
  destruct (get (tree w1) (object_path_unchecked root h)) as [n1|] eqn:En; [|done]. injection Hl as _ ->.
  destruct n as [m c|m cs|tg m]; cbn [metadata_of file_type].
  - change (bool_decide (TFile = TDir)) with false. change (bool_decide (TFile = TFile)) with true. cbn [negb].
    destruct (object_file_stays _ _ h m c Hh Hr2 En) as [m2 Hn2].
    apply wp_try_bind; [done|]. eapply read_manifest_safe; [done|done|exact Hn2|].
    intros r3 w3 Hi3 Hk3 Hsome Hnone _. assert (Hk : keeps (tree w) (tree w3)) by (by eapply keeps_trans).
    destruct (object_file_stays _ _ h m2 c Hh Hk3 Hn2) as [m3 Hn3].
    destruct r3 as [[man|]|err]; [| |by apply HQ].
    + specialize (Hsome man eq_refl). pose proof (parse_manifest_hash _ _ Hsome) as Hw.
      apply fs_files_present_safe; [done| |].
      { apply Forall_forall. intros k Hin. apply distinct_hashes_sub in Hin as [p Hp].
        rewrite Forall_forall in Hw. by apply Hw in Hp. }
      intros r4 w4 Hi4 Hk4 Hf. apply HQ; [done|by eapply keeps_trans|]. intros Hr.
      destruct (object_file_stays _ _ h m3 c Hh Hk4 Hn3) as [m4 Hn4]. exists (Reg m4 c). split; [done|].
      intros _. exists man. split; [done|]. intros p k Hin. apply (Hf Hr).
      destruct (distinct_hashes_all [] _ _ _ Hin) as [?%elem_of_nil|?]; done.
    + apply HQ; [done|done|]. intros _. exists (Reg m3 c). split; [done|]. intros Hne. by destruct Hne; apply Hnone.
  - apply HQ; [done|done|]. intros _. destruct (proj1 Hr2 h _ Hh En) as ([| m2 cs2 |] & Hn2 & Hs); try done.
    by exists (Dir m2 cs2).
  - exfalso. apply (si_objects _ _ _ _ Hi1) in En as [Hx _]; [|done]. by apply hashes_not_link in Hx.
Qed.

Context (record_json : ObjectRecord -> result string bytes).

Lemma valid_record_tmp h nanos : wf_hash h -> (0 <= nanos)%Z ->
  valid_name (atomic_tmp_name (record_name h) process nanos).
Proof.
  intros Hh Hn. unfold atomic_tmp_name. change (lit ".") with [46%Z] at 1. cbn [app]. apply valid_name_dot.
  - rewrite !not_elem_of_app. split_and!; try (by apply no_slash_lit);
      try (by apply no_slash_decimal, process_nonneg); try (by apply no_slash_decimal).
    apply (valid_record h Hh).
  - rewrite !length_app. cbn. lia.
Qed.

Lemma wp_write_tmp name content w Q :
  inv w -> valid_name name -> (forall h, wf_hash h -> name <> record_name h) ->
  (forall r w'', inv w'' -> keeps (tree w) (tree w'') -> Q r w'') ->
  wp (write (root ++ [OBJECT_RECORDS_DIR; name]) content) Q w.
Proof.
  intros Hi Hn Hx HQ. pose proof (fun n => si_records _ _ _ _ Hi name n) as Hlnk. assert (Hl : loc w (root ++ [OBJECT_RECORDS_DIR; name])).
  { apply loc_entry; [done|set_solver|done]. }
  assert (Hg : forall m x, good w (set_tree w (place (tree w) (root ++ [OBJECT_RECORDS_DIR; name]) (Some (Reg m x))))).
  { intros m x. apply good_place; [done|done| |done]. apply perm_record; [done|]. by intros ? [= <-]. }
  apply wp_call. intros e. cbn [exec]. apply wp_answer; [done| | |].
  - intros t' Ht. cbn [change] in Ht. rewrite loc_locate_follow in Ht by done.
    destruct (get (tree w) (root ++ [OBJECT_RECORDS_DIR; name])) as [[m x| |]|]; inv_res;
      (split; [apply Hg|]; intros w'' Hr Hi''; apply HQ; [done|]; by eapply after_keeps; [apply Hg|]).
  - intros f. cbn [leftover]. rewrite loc_locate_follow by done.
    assert (Hsame : good w (set_tree w (tree w)) /\ forall err w'',
      rely root own (set_tree w (tree w)) w'' -> inv w'' -> Q (Err err) w'').
    { rewrite set_tree_id. split; [by apply good_refl|]. intros err w'' Hr Hi''. apply HQ; [done|]. apply Hr. }
    destruct (f_left_file f) as [x|]; [|done].
    destruct (get (tree w) (root ++ [OBJECT_RECORDS_DIR; name])) as [[m y| |]|]; try done;
      (split; [apply Hg|]; intros err w'' Hr Hi''; apply HQ; [done|]; by eapply after_keeps; [apply Hg|]).
  - intros err w'' Hr Hi''. apply HQ; [done|]. apply Hr.
Qed.

Lemma wp_time_now w (Q : Z -> World -> Prop) :
  inv w -> (forall r w'', rely root own w w'' -> inv w'' -> Q r w'') -> wp time_now Q w.
Proof. intros Hi HQ. apply wp_look; [done|by eapply guar_refl|done|]. intros e w'' Hr Hi''. by apply HQ. Qed.

(** A node moved to an entry of the store is there. *)
Lemma moved_there t a d x n :
  real_dir t (root ++ [d]) -> ~ a `prefix_of` root ++ [d] ->
  get (place (place t a None) (root ++ [d; x]) (Some n)) (root ++ [d; x]) = Some n.
Proof.
  intros Hd Ha. destruct (real_dir_place t a None _ Ha Hd) as (m & cs & Hg).
  replace (root ++ [d; x]) with ((root ++ [d]) ++ [x]) by (by rewrite <- app_assoc).
  by eapply get_place_at.
Qed.

Lemma is_utf8_record h : wf_hash h -> is_utf8 (record_name h) = true.
Proof. intros Hh. apply is_utf8_app; [by apply is_utf8_hex|done]. Qed.

Lemma write_record_safe h content w Q :
  inv w -> wf_hash h ->
  (forall r w'', inv w'' -> keeps (tree w) (tree w'') -> (r = Ok tt -> recorded root (tree w'') h) -> Q r w'') ->
  wp (write_atomic process (object_record_path root h) content) Q w.
Proof.
  intros Hi Hh HQ. unfold write_atomic. rewrite record_path_eq, last_entry, removelast_entry.
  cbn [and_then]. rewrite is_utf8_record by done.
  apply wp_try_bind; [done|]. apply wp_seq; [done|]. apply wp_time_now; [done|]. intros now w1 Hr1 Hi1 _.
  apply rely_keeps in Hr1. apply wp_ret. intros _. destruct (now <? 0)%Z eqn:En; bools; [by apply HQ|].
  rewrite <- app_assoc. cbn [app]. set (tmp := atomic_tmp_name (record_name h) process now).
  assert (Hv : valid_name tmp) by (by apply valid_record_tmp).
  assert (Hdot : forall k, wf_hash k -> tmp <> record_name k) by (intros k Hk; by apply dot_not_record).
  apply wp_try_bind; [done|]. apply wp_mapping_err; [done|]. apply wp_write_tmp; [done|done|done|].
  intros r w2 Hi2 Hk2 _. assert (Hk : keeps (tree w) (tree w2)) by (by eapply keeps_trans).
  destruct r as [u|err]; cbn [map_err]; [|by apply HQ].
  apply wp_mapping_err; [done|]. apply wp_rename; [done| | | | | |].
  - apply loc_entry; [done|set_solver|done].
  - apply loc_entry; [done|set_solver|by apply valid_record].
  - apply perm_record; [|done]. intros k Hk' E. by destruct (Hdot k Hk').
  - intros n w3 Hn _ _ _. apply perm_record; [done|]. intros n' [= <-]. by eapply (si_records _ _ _ _ Hi2).
  - intros t' w3 Hg Hc Hr3 Hi3. pose proof (after_keeps _ _ _ Hg Hr3) as Hk3. apply HQ; [done|by eapply keeps_trans|].
    intros _. apply rely_keeps in Hr3. apply Hr3; [done|]. unfold recorded. rewrite record_path_eq.
    destruct Hc as [[_ E]|(n & Hn & Hpre & ->)].
    + apply app_inv_head in E. injection E as E. by destruct (Hdot h Hh).
    + cbn [tree set_tree]. rewrite moved_there; [done| |].
      * apply (si_layout _ _ _ _ Hi2). set_solver.
      * by eapply layout_longer.
  - intros err w3 Hr3 Hi3. apply rely_keeps in Hr3. apply HQ; [done|by eapply keeps_trans|done].
Qed.

Lemma store_object_record_safe record w Q :
  inv w -> wf_hash (rec_object_hash record) ->
  (forall r w'', inv w'' -> keeps (tree w) (tree w'') ->
     (r = Ok tt -> recorded root (tree w'') (rec_object_hash record)) -> Q r w'') ->
  wp (store_object_record record_json process root record) Q w.
Proof.
  intros Hi Hh HQ. unfold store_object_record. apply wp_seq; [done|]. apply wp_exists; [done|].
  intros found w1 Hr1 Hi1 Hf _. apply rely_keeps in Hr1. destruct found.
  - apply HQ; [done|done|]. intros _. apply Hr1; [done|]. destruct (Hf eq_refl) as (q & n & Hl).
    unfold recorded. rewrite record_path_eq in *. rewrite loc_lookup_follow in Hl.
    + by destruct (get (tree w) _).
    + apply loc_entry; [done|set_solver|by apply valid_record].
    + intros n' Hn'. by eapply (si_records _ _ _ _ Hi).
  - destruct (record_json record) as [json|err]; [|by apply HQ].
    apply wp_mapping_err; [done|]. apply write_record_safe; [done|done|].
    intros r w2 Hi2 Hk2 Hrec. apply HQ; [done|by eapply keeps_trans|]. intros E. apply Hrec.
    by destruct r as [[]|].
Qed.

Lemma record_existing_safe h run_id w Q :
  inv w -> wf_hash h ->
  (forall r w'', inv w'' -> keeps (tree w) (tree w'') -> (r = Ok tt -> published root (tree w'') h) -> Q r w'') ->
  wp (record_existing_object record_json process root h run_id) Q w.
Proof.
  intros Hi Hh HQ. unfold record_existing_object. apply wp_try_bind; [done|].
  apply object_is_complete_safe; [done|done|]. intros r w1 Hi1 Hk1 Hc _.
  destruct r as [[]|err]; cbn [negb]; [|by apply HQ|by apply HQ].
  apply store_object_record_safe; [done|done|]. intros r w2 Hi2 Hk2 Hr. apply HQ; [done|by eapply keeps_trans|].
  intros E. split; [|by apply Hr]. eapply keeps_complete; [done|exact Hk2|by apply Hc].
Qed.

(** ** Publication *)

Lemma distinct_keys_sub seen keys k : k ∈ distinct_keys seen keys -> k ∈ keys.
Proof.
  revert seen. induction keys as [|a keys IH]; intros seen Hin; cbn [distinct_keys] in Hin; [done|].
  apply elem_of_cons. destruct (bool_decide (a ∈ seen)); [right; by eapply IH|].
  apply elem_of_cons in Hin as [->|Hin]; [by left|right; by eapply IH].
Qed.

(** What an operation that names [h] promises: nothing on failure. *)
Definition promises {A} (h : bytes) (r : result StoreError A) (w : World) : Prop :=
  match r with Ok _ => published root (tree w) h | Err _ => True end.

Lemma publish_existing_build_safe build_key reuse_keys h name run_id w :
  inv w -> wf_hash build_key -> Forall wf_hash reuse_keys -> wf_hash h ->
  vouched BUILDS_DIR build_key h -> Forall (fun key => vouched REUSES_DIR key h) reuse_keys ->
  wp (publish_existing_build record_json format_timestamp process root build_key reuse_keys h name run_id)
    (promises h) w.
Proof.
  intros Hi Hb Hrk Hh Hvb Hvr. unfold publish_existing_build.
  destruct (validate_ref_name name) as [u|err]; [|done].
  apply wp_try_bind; [done|]. apply object_is_complete_safe; [done|done|]. intros r w1 Hi1 _ _ _.
  destruct r as [[]|err]; cbn [negb]; [|done|done].
  apply wp_try_bind; [done|]. apply record_existing_safe; [done|done|]. intros r w2 Hi2 _ Hp _.
  destruct r as [[]|err]; [|done]. specialize (Hp eq_refl).
  apply wp_try_bind; [done|].
  apply (wp_each _ _ _ _ _ _ _ (fun w => published root (tree w) h)); [| |done|done].
  - intros k w3 Hk Hi3 Hp3. apply distinct_keys_sub in Hk. rewrite Forall_forall in Hrk, Hvr.
    apply store_reuse_ref_safe; [done|by apply Hrk|done|done|by apply Hvr|]. intros r w4 Hi4 Hk4.
    destruct r; [by eapply keeps_published|done].
  - intros w3 Hi3 Hp3 _. apply wp_try_bind; [done|]. apply store_build_ref_safe; [done..|].
    intros r w4 Hi4 Hk4 _. destruct r as [u'|err]; [|done].
    assert (Hp4 : published root (tree w4) h) by (by eapply keeps_published).
    apply update_object_ref_safe; [done..|]. intros r w5 Hi5 Hk5. destruct r; [by eapply keeps_published|done].
Qed.

Lemma publish_existing_build_mapping_safe build_key h run_id w :
  inv w -> wf_hash build_key -> wf_hash h -> vouched BUILDS_DIR build_key h ->
  wp (publish_existing_build_mapping record_json process root build_key h run_id) (promises h) w.
Proof.
  intros Hi Hb Hh Hv. unfold publish_existing_build_mapping. apply wp_try_bind; [done|].
  apply record_existing_safe; [done|done|]. intros r w2 Hi2 _ Hp _.
  destruct r as [[]|err]; [|done]. specialize (Hp eq_refl). apply store_build_ref_safe; [done..|].
  intros r w3 Hi3 Hk3. destruct r; [by eapply keeps_published|done].
Qed.

Lemma publish_existing_reuse_mapping_safe build_key reuse_key h run_id w :
  inv w -> wf_hash build_key -> wf_hash reuse_key -> wf_hash h ->
  vouched BUILDS_DIR build_key h -> vouched REUSES_DIR reuse_key h ->
  wp (publish_existing_reuse_mapping record_json process root build_key reuse_key h run_id) (promises h) w.
Proof.
  intros Hi Hb Hk Hh Hvb Hvr. unfold publish_existing_reuse_mapping. apply wp_try_bind; [done|].
  apply record_existing_safe; [done|done|]. intros r w2 Hi2 _ Hp _.
  destruct r as [[]|err]; [|done]. specialize (Hp eq_refl). apply wp_try_bind; [done|].
  apply store_reuse_ref_safe; [done..|]. intros r w3 Hi3 Hk3 _. destruct r as [u|err]; [|done].
  assert (Hp3 : published root (tree w3) h) by (by eapply keeps_published).
  apply store_build_ref_safe; [done..|]. intros r w4 Hi4 Hk4. destruct r; [by eapply keeps_published|done].
Qed.

(** ** Trees a task owns *)

Definition owned (w : World) (r : path) : Prop :=
  ow_staged own = Some r \/
  exists p s, claims w !! (p, s) = Some (task (ow_actor own)) /\ r = pending_path root p s.

(** The task owns the tree at [r], whose parent is a directory. *)
Definition region (w : World) (r : path) : Prop := owned w r /\ real_dir (tree w) (removelast r).

Definition holds (w : World) (r : path) (n : node) : Prop := region w r /\ get (tree w) r = Some n.

Lemma pending_removelast p s : removelast (pending_path root p s) = root ++ [OBJECTS_DIR].
Proof. rewrite pending_path_eq. apply removelast_entry. Qed.

Lemma owned_nonempty w r : owned w r -> r <> [].
Proof.
  intros [Hs|(p & s & _ & ->)]; [by apply (proj2 own_ok) in Hs as (_ & _ & ?)|].
  rewrite pending_path_eq. by destruct root.
Qed.

Lemma owned_names w r : inv w -> owned w r -> Forall valid_name r.
Proof.
  intros Hi [Hs|(p & s & Hc & ->)]; [by apply (proj2 own_ok) in Hs as (_ & ? & _)|].
  rewrite pending_path_eq. apply (si_claims _ _ _ _ Hi) in Hc.
  apply (loc_entry w); [done|set_solver|]. apply valid_pending; lia.
Qed.

Lemma region_loc w r : inv w -> region w r -> loc w r.
Proof.
  intros Hi [Ho Hd]. split; [by eapply owned_names|]. exists (removelast r), (List.last r []).
  split; [|done]. by eapply app_removelast_last, owned_nonempty.
Qed.

Lemma permitted_owned w r q v : owned w r -> permitted w (r ++ q) v.
Proof. intros [Hs|(p & s & Hc & ->)]; [by apply perm_staged|by apply perm_pending]. Qed.

Lemma permitted_region w r v : owned w r -> permitted w r v.
Proof. intros Ho. rewrite <- (app_nil_r r). by apply permitted_owned. Qed.

Lemma region_rely w w' r : inv w' -> region w r -> rely root own w w' -> region w' r.
Proof.
  intros Hi [[Hs|(p & s & Hc & ->)] Hd] (_ & Hst & Hcl).
  - split; [by left|]. by apply (Hst r Hs).
  - split; [right; exists p, s; by split; [apply Hcl|]|].
    rewrite pending_removelast. apply (si_layout _ _ _ _ Hi). set_solver.
Qed.

Lemma region_get_rely w w' r : region w r -> rely root own w w' -> get (tree w') r = get (tree w) r.
Proof. intros [[Hs|(p & s & Hc & ->)] _] (_ & Hst & Hcl); [by apply Hst|by apply Hcl]. Qed.

Lemma holds_rely w w' r n : inv w' -> holds w r n -> rely root own w w' -> holds w' r n.
Proof.
  intros Hi [Hr Hn] Hrel. split; [by eapply region_rely|]. by rewrite (region_get_rely w w' r).
Qed.

Lemma prefix_removelast (p r : path) : p <> [] -> r <> [] -> r `prefix_of` p -> ~ p `prefix_of` removelast r.
Proof.
  intros Hp Hr [k ->] [l E]. apply (f_equal length) in E.
  rewrite (app_removelast_last [] Hr), !length_app in E. rewrite <- (app_removelast_last [] Hr) in E.
  cbn in E. lia.
Qed.

(** A change inside the owned tree keeps the region. *)
Lemma region_place w r q v :
  region w r -> region (set_tree w (place (tree w) (r ++ q) v)) r.
Proof.
  intros [Ho Hd]. split; [exact Ho|]. cbn [tree set_tree]. apply real_dir_place; [|done].
  pose proof (owned_nonempty w r Ho) as Hr. apply prefix_removelast; [by destruct r|done|by exists q].
Qed.

Lemma holds_place w r n : inv w -> region w r -> holds (set_tree w (place (tree w) r (Some n))) r n.
Proof.
  intros Hi Hr. pose proof (region_loc w r Hi Hr) as [_ (q & c & E & m & cs & Hq)]. split.
  - pose proof (region_place w r [] (Some n) Hr) as Hr'. by rewrite app_nil_r in Hr'.
  - cbn [tree set_tree]. subst r. by eapply get_place_at.
Qed.

(** Directories of the owned tree outside the changed path. *)
Definition dirs_kept (r p : path) (w w' : World) : Prop :=
  forall d, r `prefix_of` d -> ~ p `prefix_of` d -> real_dir (tree w) d -> real_dir (tree w') d.

Lemma dirs_kept_trans r p w1 w2 w3 : dirs_kept r p w1 w2 -> dirs_kept r p w2 w3 -> dirs_kept r p w1 w3.
Proof. intros A B d Hd Hp Hr. apply B; [done|done|]. by apply A. Qed.

Lemma dirs_kept_rely r p w w' : region w r -> rely root own w w' -> dirs_kept r p w w'.
Proof.
  intros Hr Hrel d [q ->] _ (m & cs & Hd). exists m, cs. rewrite get_app in *.
  by rewrite (region_get_rely w w' r).
Qed.

Lemma dirs_kept_place r p w v : dirs_kept r p w (set_tree w (place (tree w) p v)).
Proof. intros d _ Hp Hd. by apply real_dir_place. Qed.

Lemma region_sub_rely w w' r q : region w r -> rely root own w w' -> get (tree w') (r ++ q) = get (tree w) (r ++ q).
Proof. intros Hr Hrel. by rewrite !get_app, (region_get_rely w w' r). Qed.

Lemma wp_set_permissions p mode w Q m cs :
  inv w -> loc w p -> get (tree w) p = Some (Dir m cs) -> permitted w p (Some (Dir mode cs)) ->
  (forall w'', rely root own (set_tree w (place (tree w) p (Some (Dir mode cs)))) w'' -> inv w'' ->
     good w (set_tree w (place (tree w) p (Some (Dir mode cs)))) -> Q (Ok tt) w'') ->
  (forall err w'', rely root own w w'' -> inv w'' -> Q (Err err) w'') ->
  wp (set_permissions p mode) Q w.
Proof.
  intros Hi Hl Hn Hp HQ Herr. assert (Hg : good w (set_tree w (place (tree w) p (Some (Dir mode cs))))).
  { apply good_place; try done. cbn [wf_option]. apply (wf_dir mode). apply (wf_dir m).
    eapply wf_get; [apply Hi|exact Hn]. }
  apply wp_call. intros e. cbn [exec]. apply wp_answer; [done| | |done].
  - intros t' Ht. cbn [change] in Ht.
    rewrite loc_lookup_follow, Hn in Ht by (done || (intros n Hn'; rewrite Hn in Hn'; by injection Hn' as <-)).
    injection Ht as <-. split; [done|]. intros w'' Hr Hi''. by apply HQ.
  - intros f. split; [by apply leftover_none|]. intros err w'' Hr Hi''. apply Herr; [|done].
    cbn [leftover] in Hr. by rewrite set_tree_id in Hr.
Qed.

Lemma wp_read_dir p w Q m cs :
  inv w -> loc w p -> get (tree w) p = Some (Dir m cs) ->
  (forall r w'', rely root own w w'' -> inv w'' -> (forall names, r = Ok names -> names = map fst cs) -> Q r w'') ->
  wp (read_dir p) Q w.
Proof.
  intros Hi Hl Hn HQ. apply wp_look; [done|by eapply guar_refl|done|]. intros e w'' Hr Hi''.
  apply HQ; [done|done|]. intros names Hnames. cbn [exec fst] in Hnames. unfold answer_read in Hnames.
  destruct (fault e); [done|].
  rewrite loc_lookup_follow, Hn in Hnames by (done || (intros n Hn'; rewrite Hn in Hn'; by injection Hn' as <-)).
  by injection Hnames.
Qed.

(** What a program confined to the owned tree at [r] leaves. *)
Definition confined (r p : path) (w w' : World) : Prop :=
  keeps (tree w) (tree w') /\ region w' r /\ dirs_kept r p w w'.

Lemma confined_refl r p w : inv w -> region w r -> confined r p w w.
Proof. intros Hi Hr. split_and!; [by eapply keeps_refl|done|by intros d _ _]. Qed.

Lemma confined_trans r p w1 w2 w3 : confined r p w1 w2 -> confined r p w2 w3 -> confined r p w1 w3.
Proof.
  intros (A1 & A2 & A3) (B1 & B2 & B3). split_and!; [by eapply keeps_trans|done|by eapply dirs_kept_trans].
Qed.

Lemma confined_rely r p w w' : inv w' -> region w r -> rely root own w w' -> confined r p w w'.
Proof.
  intros Hi Hr Hrel. split_and!; [by apply rely_keeps|by eapply region_rely|by apply dirs_kept_rely].
Qed.

Lemma confined_narrow r p q w w' : confined r (p ++ q) w w' -> confined r p w w'.
Proof.
  intros (A & B & C). split_and!; [done|done|]. intros d Hd Hp. apply C; [done|]. intros Hpq. apply Hp.
  etransitivity; [|exact Hpq]. by exists q.
Qed.

Lemma confined_place r q v w :
  region w r -> good w (set_tree w (place (tree w) (r ++ q) v)) ->
  confined r (r ++ q) w (set_tree w (place (tree w) (r ++ q) v)).
Proof.
  intros Hr [_ [Hk _]]. split_and!; [done|by apply region_place|apply dirs_kept_place].
Qed.

(** The place of a path of the owned tree survives what is confined to it. *)
Lemma confined_loc r q w w' : loc w (r ++ q) -> confined r (r ++ q) w w' -> loc w' (r ++ q).
Proof.
  intros [Hv (a & c & E & Hd)] (_ & [Ho' Hd'] & Hk'). split; [done|].
  exists a, c. split; [done|]. destruct (decide (q = [])) as [->|Hq].
  - rewrite app_nil_r in E. subst r. by rewrite removelast_app, app_nil_r in Hd' by done.
  - rewrite (app_removelast_last [] Hq), app_assoc in E. apply app_inj_tail in E as [<- _].
    apply Hk'; [by exists (removelast q)| |done]. intros Hp.
    apply (prefix_removelast q q Hq Hq); [done|]. destruct Hp as [k Ek]. exists k.
    rewrite <- app_assoc in Ek. by apply app_inv_head in Ek.
Qed.

Local Abbreviation writable_spec fuel := (forall r q w Q,
  inv w -> region w r -> loc w (r ++ q) ->
  (forall x w'', inv w'' -> confined r (r ++ q) w w'' -> Q x w'') ->
  wp (make_tree_writable_fuel fuel (r ++ q)) Q w).

(** The part of [make_tree_writable] after the change of mode. *)
Lemma writable_children fuel r q m cs w0 w Q :
  writable_spec fuel -> inv w -> loc w0 (r ++ q) -> confined r (r ++ q) w0 w ->
  get (tree w) (r ++ q) = Some (Dir m cs) ->
  (forall x w'', inv w'' -> confined r (r ++ q) w0 w'' -> Q x w'') ->
  wp (try_bind (mapping_err (at_path "failed to read directory" (r ++ q)) (read_dir (r ++ q)))
        (fun names => try_each (fun name => make_tree_writable_fuel fuel ((r ++ q) ++ [name])) names)) Q w.
Proof.
  intros IH Hi Hl Hc Hn HQ. assert (Hr : region w r) by apply Hc.
  apply wp_try_bind; [done|]. apply wp_mapping_err; [done|].
  eapply wp_read_dir; [done|by eapply confined_loc|exact Hn|]. intros x w3 Hr3 Hi3 Hnames _.
  assert (Hc3 : confined r (r ++ q) w0 w3) by (eapply confined_trans; [done|by apply confined_rely]).
  destruct x as [names|err]; cbn [map_err]; [|by apply HQ]. rewrite (Hnames names eq_refl).
  assert (Hn3 : get (tree w3) (r ++ q) = Some (Dir m cs)) by (by rewrite (region_sub_rely w w3)).
  apply (wp_each _ _ _ _ _ _ _ (fun w' => confined r (r ++ q) w0 w' /\ real_dir (tree w') (r ++ q))); [| |done|].
  - intros name w4 Hin Hi4 [Hc4 Hd4]. rewrite <- app_assoc. apply IH; [done|apply Hc4| |].
    + rewrite app_assoc. split; [|by exists (r ++ q), name]. apply Forall_app. split; [apply Hl|].
      constructor; [|constructor]. apply list_elem_of_fmap in Hin as ([c n] & -> & Hin).
      assert (Hwf : wf_node (Dir m cs)) by (eapply wf_get; [apply Hi3|exact Hn3]).
      apply wf_dir in Hwf. rewrite Forall_forall in Hwf. by apply Hwf in Hin as [? _].
    + intros x w5 Hi5 Hc5. rewrite app_assoc in Hc5.
      assert (Hc' : confined r (r ++ q) w0 w5) by (eapply confined_trans; [done|by eapply confined_narrow]).
      destruct x; [|by apply HQ]. split; [done|]. apply Hc5; [by exists q| |done].
      intros [k Ek]. rewrite <- app_assoc in Ek. rewrite <- (app_nil_r (r ++ q)) in Ek at 1.
      by apply app_inv_head in Ek.
  - intros w4 Hi4 [Hc4 _]. by apply HQ.
  - split; [done|]. by exists m, cs.
Qed.

Lemma make_tree_writable_safe fuel : writable_spec fuel.
Proof.
  induction fuel as [|fuel IH]; intros r q w Q Hi Hr Hl HQ; cbn [make_tree_writable_fuel].
  { apply HQ; [done|by apply confined_refl]. }
  apply wp_try_bind; [done|]. apply wp_mapping_err; [done|]. apply wp_symlink_metadata; [done|].
  intros x w1 Hr1 Hi1 Hmd _. pose proof (confined_rely r (r ++ q) w w1 Hi1 Hr Hr1) as Hc1.
  destruct x as [md|err]; cbn [map_err]; [|by apply HQ].
  destruct (Hmd md eq_refl) as (p' & n & Hlk & ->). rewrite loc_lookup in Hlk by done.
  destruct (get (tree w) (r ++ q)) as [n'|] eqn:Hn; [|done]. injection Hlk as _ ->.
  destruct n as [m c|m cs|tg m]; cbn [metadata_of file_type md_mode]; [by apply HQ| |by apply HQ].
  change (bool_decide (TDir = TSymlink)) with false. change (bool_decide (TDir = TDir)) with true. cbn iota.
  assert (Hr1' : region w1 r) by apply Hc1.
  assert (Hn1 : get (tree w1) (r ++ q) = Some (Dir m cs)) by (by rewrite (region_sub_rely w w1)).
  assert (Hl1 : loc w1 (r ++ q)) by (by eapply confined_loc).
  apply wp_try_bind; [done|]. destruct (negb (Z.lor m 0x1c0 =? m)%Z).
  - apply wp_mapping_err; [done|].
    eapply wp_set_permissions; [done|done|exact Hn1|by apply permitted_owned, Hr1'| |].
    + intros w2 Hr2 Hi2 Hg _. set (w1' := set_tree w1 _) in *. cbn [map_err].
      assert (Hc1' : confined r (r ++ q) w1 w1') by (by apply confined_place).
      assert (Hn1' : get (tree w1') (r ++ q) = Some (Dir (Z.lor m 0x1c0) cs)).
      { destruct Hl1 as [_ (a & c & E & m' & cs' & Ha)]. unfold w1'. cbn [tree set_tree].
        rewrite E. by eapply get_place_at. }
      eapply (writable_children fuel r q (Z.lor m 0x1c0) cs w); [done|done|done| | |done].
      * eapply confined_trans; [exact Hc1|]. eapply confined_trans; [exact Hc1'|].
        apply confined_rely; [done|apply Hc1'|done].
      * rewrite (region_sub_rely w1' w2); [done|apply Hc1'|done].
    + intros err w2 Hr2 Hi2 _. cbn [map_err]. apply HQ; [done|]. eapply confined_trans; [done|].
      by apply confined_rely.
  - apply wp_ret. intros _. by eapply (writable_children fuel r q m cs w).
Qed.

Lemma confined_keeps r p w w' : confined r p w w' -> keeps (tree w) (tree w').
Proof. by intros [? _]. Qed.

Lemma region_confined r p w w' : confined r p w w' -> region w' r.
Proof. by intros (_ & ? & _). Qed.

Lemma remove_dir_force_safe r w Q :
  inv w -> region w r -> (forall x w'', inv w'' -> keeps (tree w) (tree w'') -> Q x w'') ->
  wp (remove_dir_force r) Q w.
Proof.
  intros Hi Hr HQ. unfold remove_dir_force. apply wp_seq; [done|]. apply wp_exists; [done|].
  intros found w1 Hr1 Hi1 _ _. assert (Hreg1 : region w1 r) by (by eapply region_rely).
  apply rely_keeps in Hr1. destruct found; cbn [negb]; [|by apply HQ].
  apply wp_try_bind; [done|]. unfold make_tree_writable. rewrite <- (app_nil_r r) at 1.
  apply make_tree_writable_safe; [done|done|rewrite app_nil_r; by apply region_loc|].
  intros x w2 Hi2 Hc2 _. pose proof (confined_keeps _ _ _ _ Hc2). pose proof (region_confined _ _ _ _ Hc2) as Hreg2.
  assert (Hk2 : keeps (tree w) (tree w2)) by (by eapply keeps_trans).
  destruct x; [|by apply HQ]. apply wp_mapping_err; [done|]. apply wp_remove_dir_all; [done|by apply region_loc| | |].
  - apply permitted_region, Hreg2.
  - intros m cs. apply permitted_region, Hreg2.
  - intros x w3 Hi3 Hk3. apply HQ; [done|]. by eapply keeps_trans.
Qed.

Lemma remove_path_force_safe r w Q :
  inv w -> region w r -> (forall x w'', inv w'' -> keeps (tree w) (tree w'') -> Q x w'') ->
  wp (remove_path_force r) Q w.
Proof.
  intros Hi Hr HQ. unfold remove_path_force. apply wp_seq; [done|]. apply wp_exists; [done|].
  intros found w1 Hr1 Hi1 _ _. assert (Hreg1 : region w1 r) by (by eapply region_rely). apply rely_keeps in Hr1.
  apply wp_seq; [done|]. apply (wp_weaken _ _ _ _ _ _ (fun _ w2 => keeps (tree w) (tree w2) /\ region w2 r)); [|done|].
  2: { destruct found; [done|]. apply wp_is_symlink; [done|]. intros x w2 Hr2 Hi2. split; [|by eapply region_rely].
       eapply keeps_trans; [done|]. by apply rely_keeps. }
  intros link w2 Hi2 [Hk2 Hreg2] _. destruct (negb link); [by apply HQ|].
  apply wp_try_bind; [done|]. apply wp_mapping_err; [done|]. apply wp_symlink_metadata; [done|].
  intros x w3 Hr3 Hi3 _ _. assert (Hreg3 : region w3 r) by (by eapply region_rely). apply rely_keeps in Hr3.
  assert (Hk3 : keeps (tree w) (tree w3)) by (by eapply keeps_trans).
  destruct x as [md|err]; cbn [map_err]; [|by apply HQ].
  destruct (bool_decide (file_type md = TDir)).
  - apply remove_dir_force_safe; [done|done|]. intros x w4 Hi4 Hk4. apply HQ; [done|]. by eapply keeps_trans.
  - apply wp_mapping_err; [done|]. apply wp_remove_file; [done|by apply region_loc|apply permitted_region, Hreg3|].
    intros x w4 Hi4 Hk4. apply HQ; [done|]. by eapply keeps_trans.
Qed.

(** ** Imports *)

Lemma load_hash_wf p o n : read_child o p = Ok n -> forall f, n = NFile f -> wf_hash (content_hash f).
Proof.
  destruct o as [mode o|rd|rl| |e]; cbn [read_child]; intros Hr f ->; [| | |done|done].
  - unfold read_file_node in Hr. inv_res.
    assert (Hgo : forall ev hd sz x s, sha256_reader_loop hd sz ev = Ok (x, s) -> wf_hash x).
    { induction ev as [|[b| |] ev IH]; intros hd sz x s Hx; cbn in Hx.
      - inv_res. apply sha256_wf.
      - destruct b; [inv_res; apply sha256_wf|by eapply IH].
      - by eapply IH.
      - done. }
    cbn. by eapply Hgo.
  - destruct rd as [l|]; [|done]. by inv_res.
  - unfold read_symlink_node in Hr. by inv_res.
Qed.

Lemma hash_path_wf p o h : hash_path p o = Ok h -> wf_hash h.
Proof.
  unfold hash_path. intros Hp. inv_res. destruct a as [f|es|t]; cbn [hash_node].
  - unfold hash_file. destruct (negb (executable f)); [|apply sha256_wf].
    destruct o; cbn [load_path] in E; try done; by eapply load_hash_wf.
  - apply sha256_wf.
  - apply sha256_wf.
Qed.

Lemma hashes_wf_hash n h : hashes n h -> wf_hash h.
Proof. intros [p Hp]. by eapply hash_path_wf. Qed.

Lemma wp_hash_staged r w Q :
  inv w -> region w r ->
  (forall x w'', inv w'' -> rely root own w w'' ->
     (forall h, x = Ok h -> exists n, holds w'' r n /\ hashes n h) -> Q x w'') ->
  wp (hash_staged r) Q w.
Proof.
  intros Hi Hr HQ. apply wp_seq; [done|]. apply wp_look; [done|by eapply guar_refl|done|].
  intros e w'' Hrel Hi'' _. apply wp_ret, HQ; [done|done|]. intros h Hh. cbn [exec fst] in Hh.
  unfold answer_read in Hh. destruct (fault e); [done|]. rewrite loc_lookup in Hh by (by apply region_loc).
  destruct (get (tree w) r) as [n|] eqn:Hn; [|done]. exists n. split; [|by eexists].
  eapply holds_rely; [done|by split|done].
Qed.

(** The object [n] is in the store under [h], possibly as an interchangeable
    one. *)
Definition stored (w : World) (h : bytes) (n : node) : Prop :=
  exists n', get (tree w) (object_path_unchecked root h) = Some n' /\ same_object n n'.

Lemma stored_keeps w w' h n : wf_hash h -> keeps (tree w) (tree w') -> stored w h n -> stored w' h n.
Proof.
  intros Hh Hk (n1 & Hn1 & Hs1). destruct (proj1 Hk h n1 Hh Hn1) as (n2 & Hn2 & Hs2).
  exists n2. split; [done|]. by eapply same_object_trans.
Qed.

(** Whatever is at the path of [h] is interchangeable with any object around
    that hashes to [h]. *)
Lemma present_stored w h n :
  inv w -> hashes n h -> known around n ->
  (exists q x, lookup_node (tree w) (object_path_unchecked root h) true = Ok (q, x)) -> stored w h n.
Proof.
  intros Hi Hh Hk (q & x & Hl). pose proof (hashes_wf_hash n h Hh) as Hw. rewrite object_lookup in Hl by done.
  destruct (get (tree w) (object_path_unchecked root h)) as [n0|] eqn:En; [|done]. exists n0. split; [done|].
  destruct (si_objects _ _ _ _ Hi h n0 Hw En) as [Hh0 Hk0]. by eapply known_same.
Qed.

Lemma known_body n n' : same_body n n' -> known around n -> known around n'.
Proof.
  intros Hb (n0 & Hin & Hs). exists n0. split; [done|]. destruct n0, n, n'; cbn in *; congruence.
Qed.

(** Moving an owned tree to its place among the objects. *)
Lemma wp_rename_object r n h w Q :
  inv w -> holds w r n -> hashes n h -> known around n ->
  (forall w'', inv w'' -> stored w'' h n -> Q (Ok tt) w'') ->
  (forall err w'', inv w'' -> rely root own w w'' -> holds w'' r n -> Q (Err err) w'') ->
  wp (rename r (object_path_unchecked root h)) Q w.
Proof.
  intros Hi [Hr Hn] Hh Hk HQ Herr. pose proof (hashes_wf_hash n h Hh) as Hw.
  apply wp_rename; [done|by apply region_loc|by apply object_loc|apply permitted_region, Hr| | |].
  - intros n' w1 Hn' _ _ _. rewrite Hn in Hn'. injection Hn' as <-. by apply perm_object.
  - intros t' w'' Hg Hc Hrel Hi''. apply HQ; [done|].
    eapply (stored_keeps (set_tree w t')); [done|by apply rely_keeps|]. exists n.
    split; [|by eapply same_object_refl, hashes_not_link]. cbn [tree set_tree].
    destruct Hc as [[-> <-]|(n' & Hn' & Hpre & ->)]; [done|]. rewrite Hn in Hn'. injection Hn' as <-.
    rewrite object_path_eq in *. apply moved_there.
    + apply (si_layout _ _ _ _ Hi). set_solver.
    + intros [k E]. apply Hpre. replace (root ++ [OBJECTS_DIR; to_hex h]) with ((root ++ [OBJECTS_DIR]) ++ [to_hex h])
        by (by rewrite <- app_assoc). rewrite E, <- app_assoc. by eexists.
  - intros err w'' Hrel Hi''. apply Herr; [done|done|]. by eapply holds_rely.
Qed.

(** A failed move is not an error when the object is there. *)
Lemma settle_safe r n h (err : StoreError) w Q :
  inv w -> region w r -> hashes n h -> known around n ->
  (forall x w'', inv w'' -> (x = Ok tt -> stored w'' h n) -> Q x w'') ->
  (forall w'', inv w'' -> rely root own w w'' -> Q (Err err) w'') ->
  wp (do there := exists_ (object_path_unchecked root h) in
      if there then mapping_err SE_Io (remove_path_force r) else Ret (Err err))%prog Q w.
Proof.
  intros Hi Hr Hh Hk HQ Herr. pose proof (hashes_wf_hash n h Hh) as Hw.
  apply wp_seq; [done|]. apply wp_exists; [done|]. intros there w1 Hr1 Hi1 Hth _.
  destruct there; [|by apply Herr]. apply wp_mapping_err; [done|].
  apply remove_path_force_safe; [done|by eapply region_rely|]. intros x w2 Hi2 Hk2. apply HQ; [done|]. intros _.
  eapply stored_keeps; [done| |by apply (present_stored w); [| | |apply Hth]].
  eapply keeps_trans; [by apply rely_keeps|done].
Qed.

Lemma region_place_apart w p v r : apart p r -> region w r -> region (set_tree w (place (tree w) p v)) r.
Proof.
  intros Ha [Ho Hd]. split; [exact Ho|]. cbn [tree set_tree]. apply real_dir_place; [|done].
  intros Hp. apply (proj1 Ha). etransitivity; [exact Hp|]. exists [List.last r []].
  by eapply app_removelast_last, owned_nonempty.
Qed.

Lemma staged_pending_apart s p q : ow_staged own = Some s -> apart s (pending_path root p q).
Proof.
  intros Hs. rewrite pending_path_eq. apply apart_sym, outside_entry; [set_solver|].
  by apply (proj2 own_ok) in Hs as [? _].
Qed.

Lemma wp_rename_region a b n w Q :
  inv w -> holds w a n -> region w b -> apart a b ->
  (forall w'', inv w'' -> holds w'' b n -> region w'' a -> Q (Ok tt) w'') ->
  (forall err w'', inv w'' -> holds w'' a n -> region w'' b -> Q (Err err) w'') ->
  wp (rename a b) Q w.
Proof.
  intros Hi [Ha Hn] Hb Hab HQ Herr.
  apply wp_rename; [done|by apply region_loc|by apply region_loc|apply permitted_region, Ha| | |].
  - intros n' w1 _ _ _ E. apply permitted_region. destruct Hb as [[?|(p & s & Hc & ->)] _]; [by left|].
    right. exists p, s. by rewrite E.
  - intros t' w'' Hg Hc Hrel Hi''. destruct Hc as [[-> <-]|(n' & Hn' & Hpre & ->)].
    { by destruct (proj1 Hab). }
    rewrite Hn in Hn'. injection Hn' as <-.
    pose proof (good_place w a None Hi (region_loc _ _ Hi Ha) (permitted_region _ _ _ (proj1 Ha)) I) as [Hi1 _].
    set (w1 := set_tree w (place (tree w) a None)) in *.
    change (set_tree w (place (place (tree w) a None) b (Some n))) with (set_tree w1 (place (tree w1) b (Some n))) in *.
    assert (Hb1 : region w1 b) by (by apply region_place_apart).
    assert (Ha1 : region w1 a).
    { pose proof (region_place w a [] None Ha) as Hx. by rewrite app_nil_r in Hx. }
    apply HQ; [done| |].
    + eapply holds_rely; [done| |exact Hrel]. by apply holds_place.
    + eapply region_rely; [done| |exact Hrel]. apply region_place_apart; [by apply apart_sym|done].
  - intros err w'' Hrel Hi''. apply Herr; [done| |by eapply region_rely]. by eapply holds_rely.
Qed.

Lemma wp_set_mode_region r r2 m cs mode w Q :
  inv w -> holds w r (Dir m cs) -> region w r2 -> apart r r2 ->
  (forall w'', inv w'' -> holds w'' r (Dir mode cs) -> region w'' r2 -> Q (Ok tt) w'') ->
  (forall err w'', inv w'' -> holds w'' r (Dir m cs) -> region w'' r2 -> Q (Err err) w'') ->
  wp (set_mode r mode) Q w.
Proof.
  intros Hi [Hr Hn] Hr2 Ha HQ Herr.
  eapply wp_set_permissions; [done|by apply region_loc|exact Hn|apply permitted_region, Hr| |].
  - intros w'' Hrel Hi'' Hg. apply HQ; [done| |].
    + eapply holds_rely; [done| |exact Hrel]. by apply holds_place.
    + eapply region_rely; [done| |exact Hrel]. by apply region_place_apart.
  - intros err w'' Hrel Hi''. apply Herr; [done| |by eapply region_rely]. by eapply holds_rely.
Qed.

Context (pending_fuel : nat).

(** Drawing a number claims it. *)
Lemma wp_fetch_add w Q :
  inv w ->
  (forall serial w'', inv w'' -> region w'' (pending_path root process serial) ->
     (forall r n, holds w r n -> holds w'' r n) -> Q serial w'') ->
  wp fetch_add Q w.
Proof.
  intros Hi HQ. apply wp_call. intros e. cbn [exec]. set (serial := default 0%Z (next_pending w !! process)).
  assert (Hfresh : claims w !! (process, serial) = None).
  { destruct (claims w !! (process, serial)) as [i|] eqn:E; [|done]. apply (si_claims _ _ _ _ Hi) in E.
    fold serial in E. lia. }
  pose proof (si_counter _ _ _ _ Hi process) as Hc. fold serial in Hc.
  set (w' := mkWorld _ _ _).
  assert (Hi' : inv w').
  { constructor; try apply Hi; cbn [claims next_pending w'].
    - intros p s i Hcl. destruct (decide (p = process)) as [->|Hp].
      + rewrite lookup_insert_eq. cbn [default]. destruct (decide (s = serial)) as [->|Hs].
        * pose proof process_nonneg. cbn. lia.
        * rewrite lookup_insert_ne in Hcl by congruence. apply (si_claims _ _ _ _ Hi) in Hcl.
          fold serial in Hcl. cbn. lia.
      + rewrite lookup_insert_ne by done. rewrite lookup_insert_ne in Hcl by congruence.
        by apply (si_claims _ _ _ _ Hi) in Hcl.
    - intros p. destruct (decide (p = process)) as [->|Hp].
      + rewrite lookup_insert_eq. cbn. lia.
      + rewrite lookup_insert_ne by done. apply Hi. }
  split_and!; [done| |].
  - split_and!; [exact (keeps_refl root around vouched w Hi)|by intros|]. intros p s i Hcl Hne. split; [|done]. cbn [claims w'].
    rewrite lookup_insert_ne; [done|]. intros [= <- <-]. congruence.
  - intros w'' Hrel Hi''. apply HQ; [done| |].
    + eapply region_rely; [done| |exact Hrel]. split.
      * right. exists process, serial. split; [|done]. apply lookup_insert_eq.
      * rewrite pending_removelast. apply (si_layout _ _ _ _ Hi). set_solver.
    + intros r n [[Ho Hd] Hn]. eapply holds_rely; [done| |exact Hrel]. split; [split|done]; [|done].
      destruct Ho as [?|(p & s & Hcl & ->)]; [by left|right]. exists p, s. split; [|done]. cbn [claims w'].
      destruct (decide ((process, serial) = (p, s))) as [E|?]; [|by rewrite lookup_insert_ne].
      rewrite E. apply lookup_insert_eq.
Qed.

Lemma next_pending_safe fuel w Q :
  inv w ->
  (forall x w'', inv w'' -> (forall r n, holds w r n -> holds w'' r n) ->
     (forall p, x = Ok p -> exists s, p = pending_path root process s /\ region w'' p) -> Q x w'') ->
  wp (next_pending_loop process fuel root) Q w.
Proof.
  revert w Q. induction fuel as [|fuel IH]; intros w Q Hi HQ; cbn [next_pending_loop].
  { by apply HQ. }
  apply wp_seq; [done|]. apply wp_fetch_add; [done|]. intros serial w1 Hi1 Hr1 Hh1 _.
  apply wp_seq; [done|]. unfold try_exists. apply wp_seq; [done|]. apply wp_metadata; [done|].
  intros x w2 Hrel2 Hi2 _ _.
  assert (Hh2 : forall r n, holds w r n -> holds w2 r n) by (intros r n Hrn; by eapply holds_rely; [|apply Hh1|]).
  apply wp_ret. intros _. destruct x as [md|err].
  - apply IH; [done|]. intros y w3 Hi3 Hh3. apply HQ; [done|]. auto.
  - destruct (bool_decide (io_kind err = NotFound)); [|by apply HQ]. apply HQ; [done|done|].
    intros p [= <-]. exists serial. split; [done|]. by eapply region_rely.
Qed.

Lemma rollback_safe pending s m cs mode w Q :
  inv w -> holds w pending (Dir m cs) -> region w s -> apart pending s ->
  (forall x w'', inv w'' -> Q x w'') -> wp (rollback_pending_import pending s mode) Q w.
Proof.
  intros Hi Hp Hs Ha HQ. unfold rollback_pending_import. apply wp_seq; [done|].
  eapply wp_set_mode_region; [done|exact Hp|exact Hs|done| |].
  - intros w1 Hi1 Hp1 Hs1 _. apply wp_seq; [done|].
    eapply wp_rename_region; [done|exact Hp1|exact Hs1|done| |].
    + intros w2 Hi2 Hs2 Hp2 _. apply wp_seq; [done|].
      eapply wp_set_mode_region; [done|exact Hs2|exact Hp2|by apply apart_sym| |].
      * intros w3 Hi3 _ _ _. by apply wp_ret, HQ.
      * intros err w3 Hi3 _ _ _. by apply wp_ret, HQ.
    + intros err w2 Hi2 _ _ _. by apply wp_ret, HQ.
  - intros err w1 Hi1 _ _ _. by apply wp_ret, HQ.
Qed.

(** The ownership of the staged tree and what is in it. *)
Definition staging (w : World) (s : path) : Prop :=
  ow_staged own = Some s /\ real_dir (tree w) (removelast s) /\
  forall n, get (tree w) s = Some n -> known around n.

Lemma staging_region w s : staging w s -> region w s.
Proof. intros (Hs & Hd & _). split; [by left|done]. Qed.

Lemma staging_rely w w' s : staging w s -> rely root own w w' -> staging w' s.
Proof.
  intros (Hs & Hd & Hk) (_ & Hst & _). destruct (Hst s Hs) as [E Hd']. split_and!; [done|auto|].
  intros n Hn. apply Hk. congruence.
Qed.

Lemma publish_read_only_safe s m cs h mode w Q :
  inv w -> ow_staged own = Some s -> holds w s (Dir m cs) -> hashes (Dir m cs) h -> known around (Dir m cs) ->
  (forall x w'', inv w'' -> (x = Ok tt -> stored w'' h (Dir m cs)) -> Q x w'') ->
  wp (publish_read_only_directory process pending_fuel root s (object_path_unchecked root h) mode) Q w.
Proof.
  intros Hi Hs Hh Hhash Hk HQ. unfold publish_read_only_directory, next_pending_import_path.
  assert (Hfail : forall (x : result StoreError unit) w'', inv w'' -> (forall u, x <> Ok u) -> Q x w'').
  { intros x w'' Hi'' Hx. apply HQ; [done|]. intros ->. by destruct (Hx tt). }
  apply wp_try_bind; [done|]. apply next_pending_safe; [done|]. intros x w1 Hi1 Hh1 Hp _.
  destruct x as [pending|err]; [|by apply Hfail].
  destruct (Hp pending eq_refl) as (serial & -> & Hr1). specialize (Hh1 _ _ Hh).
  assert (Ha : apart s (pending_path root process serial)) by (by apply staged_pending_apart).
  pose proof (apart_sym _ _ Ha) as Ha'.
  apply wp_try_bind; [done|]. apply wp_mapping_err; [done|].
  eapply wp_set_mode_region; [done|exact Hh1|exact Hr1|done| |intros err w2 Hi2 _ _ _; by apply Hfail].
  intros w2 Hi2 Hs2 Hp2 _. cbn [map_err]. apply wp_seq; [done|].
  eapply wp_rename_region; [done|exact Hs2|exact Hp2|done| |].
  2: { intros err w3 Hi3 Hs3 Hp3 _. apply wp_seq; [done|]. apply wp_seq; [done|].
       eapply wp_set_mode_region; [done|exact Hs3|exact Hp3|done| |].
       - intros w4 Hi4 _ _ _. apply wp_ret. intros _. by apply Hfail.
       - intros e w4 Hi4 _ _ _. apply wp_ret. intros _. by apply Hfail. }
  intros w3 Hi3 Hp3 Hs3 _. apply wp_seq; [done|].
  eapply wp_set_mode_region; [done|exact Hp3|exact Hs3|done| |].
  2: { intros err w4 Hi4 Hp4 Hs4 _. apply wp_seq; [done|]. eapply rollback_safe; [done|exact Hp4|done|done|].
       intros x w5 Hi5 _. by apply Hfail. }
  intros w4 Hi4 Hp4 Hs4 _. apply wp_seq; [done|].
  assert (Hk' : known around (Dir mode cs)) by (by apply (known_body (Dir m cs))).
  eapply wp_rename_object; [done|exact Hp4|exact (hashes_mode m mode cs h Hhash)|done| |].
  { intros w5 Hi5 (n' & Hn' & Hsame) _. apply HQ; [done|]. intros _. exists n'. by destruct n'. }
  intros err w5 Hi5 Hrel5 Hp5 _. apply wp_seq; [done|]. apply wp_exists; [done|].
  intros there w6 Hr6 Hi6 Hth _. assert (Hp6 : holds w6 (pending_path root process serial) (Dir mode cs))
    by (by eapply holds_rely). destruct there.
  - apply wp_mapping_err; [done|]. apply remove_path_force_safe; [done|apply Hp6|]. intros x w7 Hi7 Hk7.
    apply HQ; [done|]. intros _. eapply stored_keeps; [by eapply hashes_wf_hash| |].
    + eapply keeps_trans; [by apply rely_keeps|exact Hk7].
    + apply present_stored; [done|done|done|by apply Hth].
  - assert (Hs5 : region w5 s) by (by eapply region_rely).
    assert (Hs6 : region w6 s) by (by eapply region_rely).
    apply wp_seq; [done|]. eapply rollback_safe; [done|exact Hp6|done|done|].
    intros x w7 Hi7 _. by apply Hfail.
Qed.

Lemma publish_staged_safe s n h w Q :
  inv w -> ow_staged own = Some s -> holds w s n -> hashes n h -> known around n ->
  (forall x w'', inv w'' -> (x = Ok tt -> stored w'' h n) -> Q x w'') ->
  wp (publish_staged_object process pending_fuel root s (object_path_unchecked root h)) Q w.
Proof.
  intros Hi Hs Hh Hhash Hk HQ. unfold publish_staged_object.
  apply wp_try_bind; [done|]. apply wp_mapping_err; [done|]. apply wp_symlink_metadata; [done|].
  intros x w1 Hr1 Hi1 Hmd _. destruct x as [md|err]; cbn [map_err]; [|by apply HQ].
  destruct (Hmd md eq_refl) as (q & n' & Hl & ->).
  rewrite loc_lookup in Hl by (apply region_loc; [done|apply Hh]). rewrite (proj2 Hh) in Hl. injection Hl as _ <-.
  assert (Hh1 : holds w1 s n) by (by eapply holds_rely).
  destruct (bool_decide (file_type (metadata_of n) = TDir) && _) eqn:E; bools.
  - destruct n as [|m cs|]; try done. by apply (publish_read_only_safe s m cs h).
  - apply wp_seq; [done|]. eapply wp_rename_object; [done|exact Hh1|done|done| |].
    + intros w2 Hi2 Hst _. by apply HQ.
    + intros err w2 Hi2 Hrel Hh2 _. eapply (settle_safe s n h); [done|apply Hh2|done|done|done|].
      intros w3 Hi3 _. by apply HQ.
Qed.

Lemma import_object_safe s w Q :
  inv w -> staging w s ->
  (forall x w'', inv w'' ->
     (forall h, x = Ok h -> exists n, get (tree w) s = Some n /\ hashes n h /\ stored w'' h n) -> Q x w'') ->
  wp (import_object process pending_fuel root s) Q w.
Proof.
  intros Hi Hst HQ. unfold import_object. pose proof (staging_region w s Hst) as Hr.
  apply wp_try_bind; [done|]. apply wp_mapping_err; [done|]. apply wp_hash_staged; [done|done|].
  intros x w1 Hi1 Hrel1 Hx _. destruct x as [h|err]; cbn [map_err]; [|by apply HQ].
  destruct (Hx h eq_refl) as (n & Hh1 & Hhash).
  assert (Hn : get (tree w) s = Some n) by (by rewrite <- (region_get_rely w w1 s); [apply Hh1| |]).
  assert (Hk : known around n) by (by apply Hst).
  assert (Hs1 : staging w1 s) by (by eapply staging_rely).
  apply wp_seq; [done|]. apply wp_exists; [done|]. intros there w2 Hrel2 Hi2 Hth _.
  assert (Hh2 : holds w2 s n) by (by eapply holds_rely). destruct there.
  - apply wp_try_bind; [done|]. apply wp_mapping_err; [done|]. apply remove_path_force_safe; [done|apply Hh2|].
    intros x w3 Hi3 Hk3 _. destruct x; cbn [map_err]; [|by apply HQ]. apply HQ; [done|]. intros h' [= <-].
    exists n. split_and!; [done|done|]. eapply stored_keeps; [by eapply hashes_wf_hash| |].
    + eapply keeps_trans; [by apply rely_keeps|exact Hk3].
    + apply present_stored; [done|done|done|by apply Hth].
  - apply wp_try_bind; [done|]. apply (publish_staged_safe s n h); [done|apply Hst|done|done|done|].
    intros x w3 Hi3 Hs3 _. destruct x as [[]|]; [|by apply HQ]. apply HQ; [done|]. intros h' [= <-].
    exists n. split_and!; [done|done|by apply Hs3].
Qed.

Lemma import_expected_safe s expected w Q :
  inv w -> staging w s ->
  (forall x w'', inv w'' ->
     (x = Ok tt -> exists n, get (tree w) s = Some n /\ hashes n expected /\ stored w'' expected n) -> Q x w'') ->
  wp (import_object_with_expected_hash process pending_fuel root s expected) Q w.
Proof.
  intros Hi Hst HQ. unfold import_object_with_expected_hash. pose proof (staging_region w s Hst) as Hr.
  apply wp_try_bind; [done|]. apply wp_mapping_err; [done|]. apply wp_hash_staged; [done|done|].
  intros x w1 Hi1 Hrel1 Hx _. destruct x as [h|err]; cbn [map_err]; [|by apply HQ].
  destruct (bool_decide (h = expected)) eqn:Eh; bools; cbn [negb]; [subst h|by apply HQ].
  destruct (Hx expected eq_refl) as (n & Hh1 & Hhash).
  assert (Hn : get (tree w) s = Some n) by (by rewrite <- (region_get_rely w w1 s); [apply Hh1| |]).
  assert (Hk : known around n) by (by apply Hst).
  assert (Hs1 : staging w1 s) by (by eapply staging_rely).
  apply wp_seq; [done|]. apply wp_exists; [done|]. intros there w2 Hrel2 Hi2 Hth _.
  assert (Hh2 : holds w2 s n) by (by eapply holds_rely). destruct there.
  - apply wp_mapping_err; [done|]. apply remove_path_force_safe; [done|apply Hh2|].
    intros x w3 Hi3 Hk3. apply HQ; [done|]. intros _.
    exists n. split_and!; [done|done|]. eapply stored_keeps; [by eapply hashes_wf_hash| |].
    + eapply keeps_trans; [by apply rely_keeps|exact Hk3].
    + apply present_stored; [done|done|done|by apply Hth].
  - apply (publish_staged_safe s n expected); [done|apply Hst|done|done|done|].
    intros x w3 Hi3 Hs3. apply HQ; [done|]. intros E. exists n. split_and!; [done|done|by apply Hs3].
Qed.

(** Nothing a task or the others do loses an object, a file or a record. *)
Lemma wp_keeps {A} (m : prog A) (Q : A -> World -> Prop) w0 w :
  keeps (tree w0) (tree w) -> wp m Q w -> wp m (fun a w' => keeps (tree w0) (tree w') /\ Q a w') w.
Proof.
  revert w. induction m as [a|o k IH]; intros w Hk Hw; [done|]. cbn [Tasks.wp] in *. intros e. specialize (Hw e).
  destruct (exec (ow_actor own) e o w) as [r w']. destruct Hw as (Hi' & Hg & Hw). split_and!; [done|done|].
  intros w'' Hr Hi''. apply IH; [|by apply Hw]. eapply keeps_trans; [exact Hk|].
  by eapply after_keeps; [split; [exact Hi'|exact Hg]|].
Qed.

Lemma import_build_safe build_key reuse_key inputs s name run_id w :
  inv w -> staging w s -> wf_hash build_key -> wf_hash reuse_key ->
  (forall n, get (tree w) s = Some n -> node_complete root (tree w) n) ->
  (forall n h, get (tree w) s = Some n -> hashes n h ->
     vouched BUILDS_DIR build_key h /\ vouched REUSES_DIR reuse_key h) ->
  wp (import_build record_json format_timestamp process pending_fuel root build_key reuse_key inputs s name run_id)
    (fun x w' => forall h, x = Ok h -> wf_hash h /\ published root (tree w') h /\ vouched BUILDS_DIR build_key h) w.
Proof.
  intros Hi Hst Hb Hk Hready Hvouch. unfold import_build. destruct (validate_ref_name name) as [u|err]; [|done].
  apply wp_try_bind; [done|].
  eapply wp_weaken; [|done|apply (wp_keeps _ (fun x w' => forall h, x = Ok h -> wf_hash h /\
    exists n, get (tree w) s = Some n /\ hashes n h /\ stored w' h n) w); [by eapply keeps_refl|]].
  2: { apply import_object_safe; [done|done|]. intros x w1 Hi1 Hx h E. destruct (Hx h E) as (n & Hn & Hh & Hs).
       split; [by eapply hashes_wf_hash|by exists n]. }
  cbn beta. intros x w1 Hi1 [Hk1 Hx] _. destruct x as [h|err]; [|done].
  destruct (Hx h eq_refl) as (Hh & n & Hn & Hnh & n' & Hn' & Hsame).
  destruct (Hvouch n h Hn Hnh) as [Hvb Hvr].
  assert (Hc1 : complete root (tree w1) h).
  { exists n'. split; [done|]. eapply keeps_node_complete; [exact Hk1|exact Hsame|by apply Hready]. }
  apply wp_try_bind; [done|]. apply store_object_record_safe; [done|done|]. intros x w2 Hi2 Hk2 Hrec _.
  destruct x as [[]|err]; [|done].
  assert (Hp2 : published root (tree w2) h) by (split; [by eapply keeps_complete|by apply Hrec]).
  apply wp_try_bind; [done|]. apply store_reuse_ref_safe; [done..|]. intros x w3 Hi3 Hk3 _.
  destruct x as [u3|err]; [|done]. assert (Hp3 : published root (tree w3) h) by (by eapply keeps_published).
  apply wp_try_bind; [done|]. apply store_build_ref_safe; [done..|]. intros x w4 Hi4 Hk4 _.
  destruct x as [u4|err]; [|done]. assert (Hp4 : published root (tree w4) h) by (by eapply keeps_published).
  apply wp_try_bind; [done|]. apply update_object_ref_safe; [done..|]. intros x w5 Hi5 Hk5 _.
  destruct x as [u5|err]; [|done]. apply wp_ret. intros h' [= <-]. split_and!; [done|by eapply keeps_published|done].
Qed.

(** The end shared by the two source operations. *)
Lemma publish_source_safe {A} declared name run_id (a : A) w (Q : result StoreError A -> World -> Prop) :
  inv w -> wf_hash declared -> vouched BUILDS_DIR declared declared ->
  (forall w'', inv w'' -> published root (tree w'') declared -> Q (Ok a) w'') ->
  (forall err w'', Q (Err err) w'') ->
  wp (record_existing_object record_json process root declared run_id ?;
      record_source_build_mapping process root declared ?;
      update_object_ref format_timestamp process root name declared ?;
      Ret (Ok a))%prog Q w.
Proof.
  intros Hi Hh Hv HQ Herr. apply wp_try_bind; [done|]. apply record_existing_safe; [done|done|].
  intros x w1 Hi1 _ Hp _. destruct x as [[]|err]; [|by apply Herr]. specialize (Hp eq_refl).
  apply wp_try_bind; [done|]. apply store_build_ref_safe; [done..|]. intros x w2 Hi2 Hk2 _.
  destruct x as [u|err]; [|by apply Herr]. assert (Hp2 : published root (tree w2) declared) by (by eapply keeps_published).
  apply wp_try_bind; [done|]. apply update_object_ref_safe; [done..|]. intros x w3 Hi3 Hk3 _.
  destruct x as [u3|err]; [|by apply Herr]. apply wp_ret, HQ; [done|]. by eapply keeps_published.
Qed.

Lemma record_existing_source_safe declared name run_id w :
  inv w -> wf_hash declared -> vouched BUILDS_DIR declared declared ->
  wp (record_existing_source_object record_json format_timestamp process root declared name run_id)
    (fun x w' => forall h, x = Ok (Some h) -> h = declared /\ published root (tree w') h) w.
Proof.
  intros Hi Hh Hv. unfold record_existing_source_object. destruct (validate_ref_name name) as [u|err]; [|done].
  apply wp_try_bind; [done|]. unfold object_path, try_exists. apply wp_seq; [done|]. apply wp_seq; [done|].
  apply wp_metadata; [done|]. intros x w1 Hr1 Hi1 _ _. apply wp_ret. intros _. apply wp_ret. intros _.
  match goal with |- match ?x with _ => _ end => destruct x as [[p|]|err]; [|done|done] end.
  apply publish_source_safe; [done|done|done| |done]. by intros w2 Hi2 Hp h [= <-].
Qed.

Lemma import_source_safe declared s name run_id w :
  inv w -> staging w s -> wf_hash declared -> vouched BUILDS_DIR declared declared ->
  wp (import_source_object record_json format_timestamp process pending_fuel root declared s name run_id)
    (fun x w' => match x with
                 | Ok (Matched h) => h = declared /\ published root (tree w') h
                 | Ok (Mismatched h) =>
                     h <> declared /\ exists n, get (tree w') (object_path_unchecked root h) = Some n /\ hashes n h
                 | Err _ => True
                 end) w.
Proof.
  intros Hi Hst Hd Hv. unfold import_source_object. destruct (validate_ref_name name) as [u|err]; [|done].
  apply wp_try_bind; [done|]. apply import_object_safe; [done|done|]. intros x w1 Hi1 Hx _.
  destruct x as [h|err]; [|done]. destruct (Hx h eq_refl) as (n & Hn & Hh & n' & Hn' & Hs).
  destruct (bool_decide (h = declared)) eqn:E; bools; cbn [negb].
  - apply publish_source_safe; [done|done|done| |done]. by intros w2 Hi2 Hp.
  - apply wp_ret. split; [done|]. exists n'. split; [done|].
    apply (si_objects _ _ _ _ Hi1); [by eapply hashes_wf_hash|done].
Qed.
End Safety.
