(* ===== verification/StorePool.v ===== *)
(** * Concurrent use of a store

    Requests to a store as data, the program that serves each, and the safety
    of every interleaving of any number of them. *)

From S2P Require Import Prelude Errors Hash Text FsObject FsArchive FsManifest Subjects Posix Tasks.
From S2P Require Import Store StoreInvariant StoreSafety.

(** The operations of the public interface of the store. *)
Inductive Request :=
| LoadBuild (key : bytes)
| LoadReuse (key : bytes)
| Publish (build_key : bytes) (reuse_keys : list bytes) (h name run_id : bytes)
| PublishBuildMapping (build_key h run_id : bytes)
| PublishReuseMapping (build_key reuse_key h run_id : bytes)
| ImportBuild (build_key reuse_key : bytes) (inputs : list bytes) (staged : path) (name run_id : bytes)
| ImportExpected (staged : path) (expected : bytes)
| RecordSource (declared name run_id : bytes)
| ImportSource (declared : bytes) (staged : path) (name run_id : bytes).

Inductive Outcome :=
| Loaded (r : result StoreError (option bytes))
| Published (h : bytes) (r : result StoreError unit)
| Built (r : result StoreError bytes)
| Received (expected : bytes) (r : result StoreError unit)
| Recorded (r : result StoreError (option bytes))
| Acquired (r : result StoreError SourceImportOutcome).

Record Task := mkTask { t_owner : Owner; t_request : Request }.

Section Pool.
Context `{Sha256Api} `{JsonApi}.
Context (record_json : ObjectRecord -> result string bytes) (format_timestamp : Z -> result string bytes).
Context (pending_fuel : nat) (root : Store).

Definition serve (process : Z) (q : Request) : prog Outcome :=
  match q with
  | LoadBuild key => bind (load_build_object_hash root key) (fun r => Ret (Loaded r))
  | LoadReuse key => bind (load_reuse_object_hash root key) (fun r => Ret (Loaded r))
  | Publish build_key reuse_keys h name run_id =>
      bind (publish_existing_build record_json format_timestamp process root build_key reuse_keys h name run_id)
        (fun r => Ret (Published h r))
  | PublishBuildMapping build_key h run_id =>
      bind (publish_existing_build_mapping record_json process root build_key h run_id)
        (fun r => Ret (Published h r))
  | PublishReuseMapping build_key reuse_key h run_id =>
      bind (publish_existing_reuse_mapping record_json process root build_key reuse_key h run_id)
        (fun r => Ret (Published h r))
  | ImportBuild build_key reuse_key inputs staged name run_id =>
      bind (import_build record_json format_timestamp process pending_fuel root build_key reuse_key inputs
              staged name run_id) (fun r => Ret (Built r))
  | ImportExpected staged expected =>
      bind (import_object_with_expected_hash process pending_fuel root staged expected)
        (fun r => Ret (Received expected r))
  | RecordSource declared name run_id =>
      bind (record_existing_source_object record_json format_timestamp process root declared name run_id)
        (fun r => Ret (Recorded r))
  | ImportSource declared staged name run_id =>
      bind (import_source_object record_json format_timestamp process pending_fuel root declared staged name run_id)
        (fun r => Ret (Acquired r))
  end.

Definition start (t : Task) : Task * prog Outcome := (t, serve (pid (ow_actor (t_owner t))) (t_request t)).

(** The tree under the name [h] hashes to [h]. *)
Definition intact (t : node) (h : bytes) : Prop :=
  exists n, get t (object_path_unchecked root h) = Some n /\ hashes n h.

(** The mappings that hold, see [StoreInvariant]. *)
Context (vouched : bytes -> bytes -> bytes -> Prop).

(** The mapping a request asks for or makes, if it leads to [h]. *)
Definition request_vouched (q : Request) (h : bytes) : Prop :=
  match q with
  | LoadBuild key | ImportBuild key _ _ _ _ _ => vouched BUILDS_DIR key h
  | LoadReuse key => vouched REUSES_DIR key h
  | _ => True
  end.

(** What an outcome says of the store, when it is returned and ever after. *)
Definition outcome_ok (t : node) (q : Request) (out : Outcome) : Prop :=
  match out with
  | Loaded (Ok (Some h)) | Built (Ok h) => published root t h /\ request_vouched q h
  | Recorded (Ok (Some h)) | Published h (Ok _) | Acquired (Ok (Matched h)) => published root t h
  | Received h (Ok _) | Acquired (Ok (Mismatched h)) => intact t h
  | _ => True
  end.

(** The tree a request consumes. *)
Definition staged_of (q : Request) : option path :=
  match q with
  | ImportBuild _ _ _ s _ _ | ImportExpected s _ | ImportSource _ s _ _ => Some s
  | _ => None
  end.

Definition request_hashes (q : Request) : list bytes :=
  match q with
  | LoadBuild key | LoadReuse key => [key]
  | Publish build_key reuse_keys h _ _ => build_key :: h :: reuse_keys
  | PublishBuildMapping build_key h _ => [build_key; h]
  | PublishReuseMapping build_key reuse_key h _ => [build_key; reuse_key; h]
  | ImportBuild build_key reuse_key _ _ _ _ => [build_key; reuse_key]
  | ImportExpected _ expected => [expected]
  | RecordSource declared _ _ | ImportSource declared _ _ _ => [declared]
  end.

(** A task may start: its hashes are hashes, it owns the tree it consumes, which
    lies outside the store directories, the files of a tree to be published
    as a build are in the store, and the mappings it is to publish hold. *)
Definition task_ready (around : list node) (w : World) (t : Task) : Prop :=
  owner_ok root (t_owner t) /\ Forall wf_hash (request_hashes (t_request t)) /\
  ow_staged (t_owner t) = staged_of (t_request t) /\
  (forall s, staged_of (t_request t) = Some s ->
     real_dir (tree w) (removelast s) /\ forall n, get (tree w) s = Some n -> n ∈ around) /\
  match t_request t with
  | ImportBuild build_key reuse_key _ s _ _ => forall n, get (tree w) s = Some n ->
      node_complete root (tree w) n /\
      forall h, hashes n h -> vouched BUILDS_DIR build_key h /\ vouched REUSES_DIR reuse_key h
  | Publish build_key reuse_keys h _ _ =>
      vouched BUILDS_DIR build_key h /\ Forall (fun key => vouched REUSES_DIR key h) reuse_keys
  | PublishBuildMapping build_key h _ => vouched BUILDS_DIR build_key h
  | PublishReuseMapping build_key reuse_key h _ => vouched BUILDS_DIR build_key h /\ vouched REUSES_DIR reuse_key h
  | RecordSource declared _ _ | ImportSource declared _ _ _ => vouched BUILDS_DIR declared declared
  | _ => True
  end.

(** No two tasks are the same or share a staged tree. *)
Definition tasks_distinct (ts : list Task) : Prop :=
  forall i j t u, ts !! i = Some t -> ts !! j = Some u -> i <> j ->
  task (ow_actor (t_owner t)) <> task (ow_actor (t_owner u)) /\
  forall s s', ow_staged (t_owner t) = Some s -> ow_staged (t_owner u) = Some s' -> apart s s'.

Section Proofs.
Context (root_names : Forall valid_name root) (around : list node) (identify : hashes_identify around).
Context (timestamp_text : forall t s, format_timestamp t = Ok s -> 47%Z ∉ s).

Local Abbreviation inv := (store_inv root around vouched).
Local Abbreviation relies := (fun t => rely root (t_owner t)).
Local Abbreviation guars := (fun t => guar root (t_owner t)).
Local Abbreviation whose := (fun t => ow_actor (t_owner t)).

Lemma self_known n : n ∈ around -> known around n.
Proof. intros Hn. exists n. split; [done|]. by destruct n. Qed.

Lemma ready_rely w w' t : task_ready around w t -> rely root (t_owner t) w w' -> task_ready around w' t.
Proof.
  intros (Ho & Hh & Hs & Hst & Hb) Hr. pose proof Hr as (Hk & Hst' & _). split_and!; try done.
  - intros s E. destruct (Hst s E) as [Hd Hn]. rewrite <- Hs in E. destruct (Hst' s E) as [Eg Hd'].
    split; [by apply Hd'|]. intros n. rewrite Eg. apply Hn.
  - destruct (t_request t); try done. cbn [staged_of] in Hs. destruct (Hst' _ Hs) as [Eg _].
    intros n. rewrite Eg. intros Hn. destruct (Hb n Hn) as [Hc Hv]. split; [|done].
    eapply keeps_node_complete; [exact Hk| |exact Hc]. by destruct n.
Qed.

Lemma ready_staging w t s :
  task_ready around w t -> staged_of (t_request t) = Some s -> staging around (t_owner t) w s.
Proof.
  intros (Ho & Hh & Hs & Hst & _) E. destruct (Hst s E) as [Hd Hn]. split_and!; [congruence|done|].
  intros n Hn'. by apply self_known, Hn.
Qed.

Lemma stored_intact w h n : inv w -> hashes n h -> stored root w h n -> intact (tree w) h.
Proof.
  intros Hi Hh (n' & Hn' & _). exists n'. split; [done|].
  apply (si_objects _ _ _ _ Hi); [by eapply hashes_wf_hash|done].
Qed.

(** One task. *)
Lemma serve_safe t w :
  inv w -> task_ready around w t ->
  wp whose inv relies guars t (serve (pid (ow_actor (t_owner t))) (t_request t))
    (fun out w' => outcome_ok (tree w') (t_request t) out) w.
Proof.
  intros Hi Hr. pose proof Hr as (Ho & Hh & _ & _ & Hb).
  assert (Hgo : forall A (m : prog A) (f : A -> Outcome) (P : A -> World -> Prop),
    Tasks.wp ow_actor inv (rely root) (guar root) (t_owner t) m P w ->
    (forall a w', inv w' -> P a w' -> outcome_ok (tree w') (t_request t) (f a)) ->
    wp whose inv relies guars t (bind m (fun r => Ret (f r))) (fun out w' => outcome_ok (tree w') (t_request t) out) w).
  { intros A m f P Hm HP. apply wp_seq; [done|]. cbv beta.
    eapply wp_weaken; [|done|exact (wp_reindex t_owner _ _ _ _ t m P w Hm)]. intros a w' Hi' Ha _. apply wp_ret. by apply HP. }
  destruct (t_request t) as [key|key|bk rks h nm run|bk h run|bk rk h run|bk rk ins s nm run|s ex|d nm run|d s nm run] eqn:Eq;
    cbn [serve request_hashes] in *; repeat (apply Forall_cons in Hh as [? Hh]).
  - eapply (Hgo _ _ Loaded (fun r w' => forall h, r = Ok (Some h) -> wf_hash h /\ published root (tree w') h /\ vouched BUILDS_DIR key h)).
    + by apply load_build_safe.
    + intros [[h|]|] w' _ Hp; cbn; [by apply Hp|done|done].
  - eapply (Hgo _ _ Loaded (fun r w' => forall h, r = Ok (Some h) -> wf_hash h /\ published root (tree w') h /\ vouched REUSES_DIR key h)).
    + by apply load_reuse_safe.
    + intros [[h|]|] w' _ Hp; cbn; [by apply Hp|done|done].
  - eapply (Hgo _ _ (Published h)); [by destruct Hb; apply (publish_existing_build_safe root root_names around identify)|].
    intros [u|] w' _ Hp; cbn; auto.
  - eapply (Hgo _ _ (Published h)); [by apply (publish_existing_build_mapping_safe root root_names around identify) with (format_timestamp := format_timestamp)|].
    intros [u|] w' _ Hp; cbn; auto.
  - eapply (Hgo _ _ (Published h)); [by destruct Hb; apply (publish_existing_reuse_mapping_safe root root_names around identify) with (format_timestamp := format_timestamp)|].
    intros [u|] w' _ Hp; cbn; auto.
  - eapply (Hgo _ _ Built).
    + apply (import_build_safe root root_names around identify); try done.
      * apply ready_staging; [done|by rewrite Eq].
      * intros n Hn. by apply (Hb n Hn).
      * intros n h' Hn Hh'. by apply (Hb n Hn).
    + intros [h|] w' _ Hp; cbn; [by apply Hp|done].
  - eapply (Hgo _ _ (Received ex) (fun r w' => r = Ok tt -> intact (tree w') ex)).
    + apply (import_expected_safe root root_names around identify) with (format_timestamp := format_timestamp);
        try done.
      * apply ready_staging; [done|by rewrite Eq].
      * intros x w' Hi' Hx E. destruct (Hx E) as (n & _ & Hn & Hs). by eapply stored_intact.
    + intros [[]|] w' _ Hp; cbn; auto.
  - eapply (Hgo _ _ Recorded); [by apply (record_existing_source_safe root root_names around identify)|].
    intros [[h|]|] w' _ Hp; cbn; try done. by apply Hp.
  - eapply (Hgo _ _ Acquired).
    + apply (import_source_safe root root_names around identify); try done. apply ready_staging; [done|by rewrite Eq].
    + intros [[h|h]|] w' _; cbn; tauto.
Qed.

Lemma tasks_compatible ts w :
  Forall (task_ready around w) ts -> tasks_distinct ts -> compatible inv relies guars ts.
Proof.
  intros Hr Hd i j t u Hi Hj Hij w1 w2 _ Hg. rewrite Forall_lookup in Hr.
  destruct (Hd i j t u Hi Hj Hij) as [Ht Hs]. eapply guar_rely; [by apply (Hr j)|exact Ht| |exact Hg].
  intros s s0 Hu Ht0. by apply (Hs s0 s).
Qed.
End Proofs.
End Pool.

(** C2. Any number of store operations may run at once, in any interleaving of
    their file system calls, with any calls failing and any task stopping at
    any point: the store stays well formed throughout. Every build, reuse and
    object reference that parses leads to a complete object with a record,
    every object has the content its name says, every build and reuse reference
    is a mapping that holds, and what an operation reports (a loaded hash, a
    published build, an import) is true when it returns and stays true. The
    mappings that hold are any relation [vouched] that the references at the
    start and the publication requests obey. *)
Theorem publication_safe `{Sha256Api} `{JsonApi} record_json format_timestamp pending_fuel root around vouched
  tasks w ts' w' :
  Forall valid_name root -> hashes_identify around ->
  (forall t s, format_timestamp t = Ok s -> 47%Z ∉ s) ->
  store_inv root around vouched w -> Forall (task_ready root vouched around w) tasks -> tasks_distinct tasks ->
  rtc (pool_step (fun t => ow_actor (t_owner t)))
    (map (start record_json format_timestamp pending_fuel root) tasks, w) (ts', w') ->
  store_inv root around vouched w' /\
  forall t out, (t, Ret out) ∈ ts' -> outcome_ok root vouched (tree w') (t_request t) out.
Proof.
  intros Hn Hid Hts Hi Hr Hd Hsteps.
  eapply (pool_safe _ (store_inv root around vouched) (fun t => rely root (t_owner t)) (fun t => guar root (t_owner t)))
    with (Q := fun t out w => outcome_ok root vouched (tree w) (t_request t) out); [| | |exact Hi| |exact Hsteps].
  - intros t w0 Hw0. by eapply rely_refl.
  - intros t w1 w2 w3. apply rely_trans.
  - rewrite map_map. cbn. rewrite map_id. by eapply tasks_compatible.
  - apply Forall_forall. intros p (t & -> & Ht)%list_elem_of_fmap w1 Hrel Hi1. rewrite Forall_forall in Hr.
    unfold start in *. cbn [fst snd] in *. assert (Hr1 : task_ready root vouched around w1 t).
    { eapply ready_rely; [by apply Hr|exact Hrel]. }
    exact (serve_safe record_json format_timestamp pending_fuel root vouched Hn around Hid Hts t w1 Hi1 Hr1).
Qed.
