(* ===== verification/StoreRefs.v ===== *)
(** * References, one operation at a time

    What the reference operations of [Store] do when no call fails: a written
    reference reads back, and updating a named reference keeps the object it
    named before under a generation name. *)

From S2P Require Import Prelude Errors Hash Text FsObject FsArchive FsManifest Subjects Posix Tasks.
From S2P Require Import Store StoreInvariant.

Section Calm.
Context (who : Actor).

(** A run in which no call fails. *)
Definition calmly {A} (m : prog A) (w : World) : A * World := run who [] m w.

Lemma calmly_bind {A B} (m : prog A) (f : A -> prog B) w a w' :
  calmly m w = (a, w') -> calmly (bind m f) w = calmly (f a) w'.
Proof.
  unfold calmly. revert w. induction m as [b|o k IH]; intros w Hm.
  - cbn in Hm. by injection Hm as -> ->.
  - cbn [bind run hd tl] in *. destruct (exec who calm o w) as [r w1]. by apply IH.
Qed.

Lemma calmly_try {E A B} (m : prog (result E A)) (f : A -> prog (result E B)) w a w' :
  calmly m w = (Ok a, w') -> calmly (try_bind m f) w = calmly (f a) w'.
Proof. intros Hm. unfold try_bind. by rewrite (calmly_bind _ _ _ _ _ Hm). Qed.

Lemma calmly_map_err {E F A} (g : E -> F) (m : prog (result E A)) w r w' :
  calmly m w = (r, w') -> calmly (mapping_err g m) w = (map_err g r, w').
Proof. intros Hm. unfold mapping_err. by rewrite (calmly_bind _ _ _ _ _ Hm). Qed.

Context (root : Store) (root_names : Forall valid_name root).

(** The store directory [d] is in place. *)
Definition placed (w : World) (d : bytes) : Prop := valid_name d /\ real_dir (tree w) (root ++ [d]).

Section Entry.
Context (d : bytes) (d_name : valid_name d).

Local Abbreviation entry x := (root ++ [d; x]).

Lemma entry_split x : entry x = (root ++ [d]) ++ [x].
Proof. by rewrite <- app_assoc. Qed.

Lemma dir_names : Forall valid_name (root ++ [d]).
Proof. apply Forall_app. split; [done|]. constructor; [done|constructor]. Qed.

Lemma entry_locate w x : placed w d -> valid_name x -> locate (tree w) (entry x) false = Ok (entry x).
Proof.
  intros [_ Hd] Hx. rewrite entry_split. apply locate_real; [apply dir_names|done|done|discriminate].
Qed.

Lemma entry_lookup w x : placed w d -> valid_name x ->
  lookup_node (tree w) (entry x) false =
  match get (tree w) (entry x) with Some n => Ok (entry x, n) | None => Err not_found end.
Proof. intros Hd Hx. unfold lookup_node. by rewrite entry_locate. Qed.

Lemma calmly_symlink_metadata w x : placed w d -> valid_name x ->
  calmly (symlink_metadata (entry x)) w =
  (match get (tree w) (entry x) with Some n => Ok (metadata_of n) | None => Err not_found end, w).
Proof.
  intros Hd Hx. unfold calmly. cbn [symlink_metadata call run exec hd answer_read calm fault].
  rewrite entry_lookup by done. by destruct (get (tree w) (entry x)).
Qed.

(** Whether anything is there, as the program asks it. *)
Lemma calmly_present w x : placed w d -> valid_name x ->
  exists b1 w1, calmly (exists_ (entry x)) w = (b1, w1) /\ w1 = w /\
    calmly (if b1 : bool then Ret true else is_symlink (entry x)) w =
    (match get (tree w) (entry x) with Some _ => true | None => false end, w).
Proof.
  intros Hd Hx. unfold calmly at 1, exists_.
  cbn [metadata call bind run exec hd tl answer_read calm fault].
  assert (Hmeta : forall n, get (tree w) (entry x) = Some n -> is_lnk n = false ->
    lookup_node (tree w) (entry x) true = Ok (entry x, n)).
  { intros n Hn Hl. destruct Hd as [_ Hd]. rewrite entry_split in *.
    rewrite lookup_real; [by rewrite Hn|apply dir_names|done|done|]. by rewrite Hn. }
  assert (Hnone : get (tree w) (entry x) = None -> lookup_node (tree w) (entry x) true = Err not_found).
  { intros Hn. destruct Hd as [_ Hd]. rewrite entry_split in *.
    rewrite lookup_real; [by rewrite Hn|apply dir_names|done|done|]. by rewrite Hn. }
  eexists _, w. split; [reflexivity|]. split; [reflexivity|].
  destruct (get (tree w) (entry x)) as [[m c|m cs|tg m]|] eqn:Hn.
  - rewrite (Hmeta _ eq_refl) by done. done.
  - rewrite (Hmeta _ eq_refl) by done. done.
  - match goal with |- calmly (if ?b then _ else _) _ = _ => destruct b; [done|] end.
    unfold is_symlink. erewrite calmly_bind by (by apply calmly_symlink_metadata).
    rewrite Hn. done.
  - rewrite Hnone by done. cbn [is_ok]. unfold is_symlink.
    erewrite calmly_bind by (by apply calmly_symlink_metadata). rewrite Hn. done.
Qed.

Lemma calmly_symlink w x target : placed w d -> valid_name x ->
  calmly (symlink target (entry x)) w =
  match get (tree w) (entry x) with
  | None => (Ok tt, set_tree w (place (tree w) (entry x) (Some (Lnk target 0))))
  | Some _ => (Err already_exists, w)
  end.
Proof.
  intros Hd Hx. unfold calmly. cbn [symlink call run exec hd calm fault now]. unfold answer_unit. cbn [change].
  rewrite entry_locate by done. by destruct (get (tree w) (entry x)).
Qed.

Lemma placed_change w p v : placed w d -> ~ p `prefix_of` root ++ [d] -> placed (set_tree w (place (tree w) p v)) d.
Proof. intros [Hv Hd] Hp. split; [done|]. by apply real_dir_place. Qed.

Lemma entry_not_prefix x d' : ~ entry x `prefix_of` root ++ [d'].
Proof. by eapply layout_longer. Qed.

Lemma get_entry_placed w x v : placed w d -> get (place (tree w) (entry x) v) (entry x) = v.
Proof. intros [_ (m & cs & Hd)]. rewrite entry_split. by eapply get_place_at. Qed.

(** Moving an entry to another entry of the directory that is not a directory. *)
Lemma calmly_rename_link w x y target m :
  placed w d -> valid_name x -> valid_name y -> x <> y ->
  get (tree w) (entry x) = Some (Lnk target m) ->
  (forall n, get (tree w) (entry y) = Some n -> Posix.is_dir n = false) ->
  calmly (rename (entry x) (entry y)) w =
  (Ok tt, set_tree w (place (place (tree w) (entry x) None) (entry y) (Some (Lnk target m)))).
Proof.
  intros Hd Hx Hy Hxy Hn Hno. unfold calmly. cbn [rename call run exec hd calm fault now]. unfold answer_unit.
  cbn [change]. rewrite !entry_locate by done. unfold rename_resolved. rewrite Hn.
  assert (Ha : apart (entry x) (entry y)) by (apply apart_entry; by right).
  rewrite bool_decide_eq_false_2 by (intros E; apply (proj1 Ha); by rewrite E).
  rewrite bool_decide_eq_false_2 by apply (proj1 Ha). cbn [Posix.is_dir andb].
  destruct (get (tree w) (entry y)) as [[| m' cs |]|] eqn:Ey; [done| |done|done].
  by specialize (Hno _ eq_refl).
Qed.
(** The effect of replacing the entry [x] by a link. *)
Definition linked (w w' : World) (x target : bytes) : Prop :=
  get (tree w') (entry x) = Some (Lnk target 0) /\ placed w' d /\
  forall p, apart (entry x) p -> get (tree w') p = get (tree w) p.

Context (process : Z).

Lemma temp_differs x k : temp_ref_name process x k <> x.
Proof. intros E. apply (f_equal length) in E. unfold temp_ref_name in E. rewrite !length_app in E. cbn in E. lia. Qed.

Lemma attempts_calm n attempt x target w :
  placed w d -> valid_name x -> (0 <= process)%Z -> (0 <= attempt)%Z ->
  (forall k, (attempt <= k < attempt + Z.of_nat n)%Z -> valid_name (temp_ref_name process x k)) ->
  (exists k, (attempt <= k < attempt + Z.of_nat n)%Z /\
     get (tree w) (entry (temp_ref_name process x k)) = None) ->
  (forall nd, get (tree w) (entry x) = Some nd -> Posix.is_dir nd = false) ->
  exists w', calmly (replace_attempts process n attempt target (entry x) (root ++ [d]) x) w = (Ok tt, w') /\
    linked w w' x target.
Proof.
  intros Hd Hx Hp. revert attempt. induction n as [|n IH]; intros attempt Ha Hv (k & Hk & Hfree) Hno; [lia|].
  cbn [replace_attempts]. rewrite <- entry_split. set (tmp := temp_ref_name process x attempt) in *.
  assert (Htmp : valid_name tmp) by (apply Hv; lia).
  destruct (get (tree w) (entry tmp)) as [nd|] eqn:Etmp.
  - erewrite calmly_bind by (rewrite calmly_symlink, Etmp by done; reflexivity). cbn [io_kind already_exists].
    rewrite bool_decide_eq_true_2 by done. apply IH; [lia| | |done].
    + intros k' Hk'. apply Hv. lia.
    + exists k. split; [|done]. assert (k <> attempt) by (intros ->; unfold tmp in Etmp; by rewrite Hfree in Etmp). lia.
  - erewrite calmly_bind by (rewrite calmly_symlink, Etmp by done; reflexivity). cbn iota.
    set (w1 := set_tree w _). assert (Hne : tmp <> x) by apply temp_differs.
    assert (Hap : apart (entry tmp) (entry x)) by (apply apart_entry; by right).
    assert (Hd1 : placed w1 d) by (apply placed_change; [done|apply entry_not_prefix]).
    erewrite calmly_bind.
    2: { apply (calmly_rename_link w1 tmp x target 0); try done.
         - unfold w1. cbn [tree set_tree]. by apply get_entry_placed.
         - intros nd. unfold w1. cbn [tree set_tree]. rewrite get_place_apart by done. apply Hno. }
    cbn iota. eexists. split; [reflexivity|].
    assert (Hd2 : placed (set_tree w1 (place (tree w1) (entry tmp) None)) d)
      by (apply placed_change; [done|apply entry_not_prefix]).
    split_and!; cbn [tree set_tree].
    + by apply (get_entry_placed (set_tree w1 (place (tree w1) (entry tmp) None))).
    + apply (placed_change (set_tree w1 (place (tree w1) (entry tmp) None))); [done|apply entry_not_prefix].
    + intros p Hpx. rewrite get_place_apart by done.
      destruct (decide (entry tmp `prefix_of` p)) as [[q ->]|Hpre].
      * by rewrite !(get_app _ (entry tmp)), Etmp, (get_entry_placed w1).
      * destruct (decide (p `prefix_of` entry tmp)) as [Hpre'|Hpre'].
        -- exfalso. apply (proj2 Hpx). rewrite entry_split in *. destruct Hpre' as [q E].
           destruct q as [|c q _] using rev_ind; [rewrite app_nil_r in E; destruct Hpre; by rewrite E|].
           rewrite app_assoc in E. apply app_inj_tail in E as [E _]. rewrite E, <- app_assoc. by eexists.
        -- rewrite get_place_apart by (by split). by apply get_place_apart.
Qed.

Lemma linked_after w w1 w' x target :
  linked w1 w' x target -> (forall p, apart (entry x) p -> get (tree w1) p = get (tree w) p) -> linked w w' x target.
Proof. intros (H1 & H2 & H3) H. split_and!; [done|done|]. intros p Hp. by rewrite H3, H. Qed.

(** A directory in the way is removed, anything else stays. *)
Lemma clear_calm x w :
  placed w d -> valid_name x ->
  exists w1, calmly (clear_ref_directory
      (match get (tree w) (entry x) with Some _ => true | None => false end) (entry x)) w = (Ok tt, w1) /\
    placed w1 d /\ (forall p, apart (entry x) p -> get (tree w1) p = get (tree w) p) /\
    forall nd, get (tree w1) (entry x) = Some nd -> Posix.is_dir nd = false.
Proof.
  intros Hd Hx. unfold clear_ref_directory. destruct (get (tree w) (entry x)) as [nd|] eqn:En.
  2: { exists w. split; [done|]. split; [done|]. split; [done|]. by rewrite En. }
  erewrite calmly_try.
  2: { erewrite calmly_map_err; [|by apply calmly_symlink_metadata]. rewrite En. done. }
  destruct nd as [m c|m cs|tg m]; cbn [metadata_of file_type].
  - exists w. split; [done|]. split; [done|]. split; [done|]. rewrite En. by intros ? [= <-].
  - exists (set_tree w (place (tree w) (entry x) None)). split; [|split; [|split]].
    + change (bool_decide (TDir = TDir)) with true. cbn iota.
      enough (E : calmly (remove_dir_all (entry x)) w = (Ok tt, set_tree w (place (tree w) (entry x) None)))
        by (by rewrite (calmly_map_err _ _ _ _ _ E)).
      unfold calmly. cbn [remove_dir_all call run exec hd calm fault now]. unfold answer_unit. cbn [change].
      rewrite entry_lookup, En by done. cbn [is_reg]. by rewrite bool_decide_eq_false_2 by (by destruct root).
    + apply placed_change; [done|apply entry_not_prefix].
    + intros p Hp'. cbn [tree set_tree]. by apply get_place_apart.
    + cbn [tree set_tree]. by rewrite get_entry_placed.
  - exists w. split; [done|]. split; [done|]. split; [done|]. rewrite En. by intros ? [= <-].
Qed.

Lemma replace_calm x target w :
  placed w d -> valid_name x -> (0 <= process)%Z ->
  (exists k, (0 <= k < 1000)%Z /\ get (tree w) (entry (temp_ref_name process x k)) = None) ->
  exists w', calmly (replace_symlink process target (entry x)) w = (Ok tt, w') /\ linked w w' x target.
Proof.
  intros Hd Hx Hp Hfree. unfold replace_symlink.
  assert (last (entry x) = Some x) as -> by (rewrite entry_split; apply last_snoc).
  assert (removelast (entry x) = root ++ [d]) as -> by (by rewrite removelast_app).
  destruct (calmly_present w x Hd Hx) as (b1 & w1 & E1 & -> & E2).
  rewrite (calmly_bind _ _ _ _ _ E1), (calmly_bind _ _ _ _ _ E2).
  destruct (clear_calm x w Hd Hx) as (w1 & Hc & Hd1 & Hsame & Hno). rewrite (calmly_try _ _ _ _ _ Hc).
  destruct (attempts_calm 1000 0 x target w1) as (w' & Hr & Hl); try done.
  - intros k Hk. apply valid_temp; [done|done|lia].
  - destruct Hfree as (k & Hk & Hf). exists k. split; [done|]. rewrite Hsame; [done|].
    apply apart_entry. right. intros E. by apply (temp_differs x k).
  - exists w'. split; [done|]. by eapply linked_after.
Qed.
End Entry.
Lemma load_calm kind d x target m h w :
  valid_name d -> placed w d -> valid_name x -> get (tree w) (root ++ [d; x]) = Some (Lnk target m) ->
  (forall k p, parse_object_target k p target = Ok h) ->
  calmly (load_mapping_object_hash kind (root ++ [d; x])) w = (Ok (Some h), w).
Proof.
  intros Hdn Hd Hx Hn Hp. unfold load_mapping_object_hash.
  erewrite calmly_bind by (by apply calmly_symlink_metadata). rewrite Hn. cbn [metadata_of file_type].
  change (bool_decide (TSymlink = TSymlink)) with true. cbn [negb].
  assert (Hr : calmly (read_link (root ++ [d; x])) w = (Ok target, w)).
  { unfold calmly. cbn [read_link call run exec hd answer_read calm fault].
    by rewrite entry_lookup, Hn. }
  erewrite calmly_try by (by erewrite calmly_map_err by exact Hr). by rewrite Hp.
Qed.

Context (process : Z) (process_nonneg : (0 <= process)%Z).

(** A temporary name of the entry [x] of [d] is free. *)
Definition temp_free (w : World) (d x : bytes) : Prop :=
  exists k, (0 <= k < 1000)%Z /\ get (tree w) (root ++ [d; temp_ref_name process x k]) = None.

Lemma generation_differs name suffix c : generation_candidate name suffix c <> name.
Proof.
  intros E. apply (f_equal length) in E. unfold generation_candidate in E.
  destruct (c =? 1)%Z; rewrite !length_app in E; cbn in E; lia.
Qed.

Lemma allocate_calm n counter name suffix w :
  placed w OBJECT_REFS_DIR -> (1 <= counter)%Z ->
  (forall c, (counter <= c)%Z -> valid_name (generation_candidate name suffix c)) ->
  (exists c, (counter <= c < counter + Z.of_nat n)%Z /\
     get (tree w) (root ++ [OBJECT_REFS_DIR; generation_candidate name suffix c]) = None) ->
  exists c, (counter <= c)%Z /\
    calmly (allocate_candidates n counter root name suffix) w = (Ok (generation_candidate name suffix c), w) /\
    get (tree w) (root ++ [OBJECT_REFS_DIR; generation_candidate name suffix c]) = None.
Proof.
  intros Hd. revert counter. induction n as [|n IH]; intros counter Hc Hv (c & Hcc & Hfree); [lia|].
  cbn [allocate_candidates]. unfold object_refs_dir. rewrite <- app_assoc. cbn [app].
  set (x := generation_candidate name suffix counter). assert (Hx : valid_name x) by (apply Hv; lia).
  destruct (calmly_present OBJECT_REFS_DIR (proj1 Hd) w x Hd Hx) as (b1 & w1 & E1 & -> & E2).
  rewrite (calmly_bind _ _ _ _ _ E1), (calmly_bind _ _ _ _ _ E2).
  destruct (get (tree w) (root ++ [OBJECT_REFS_DIR; x])) as [nd|] eqn:Ex; cbn [negb].
  - destruct (IH (counter + 1)%Z) as (c' & Hc' & Hr & Hg); [lia| | |].
    + intros c' Hc'. apply Hv. lia.
    + exists c. split; [|done]. assert (c <> counter) by (intros ->; unfold x in Ex; by rewrite Hfree in Ex). lia.
    + exists c'. split; [lia|]. done.
  - exists counter. split; [lia|]. done.
Qed.
End Calm.

(** C25. When no call fails, a build reference that is stored reads back:
    [store_build_ref] succeeds as soon as one of its thousand temporary names
    is free, whatever was at the reference before (a directory included), then
    [load_build_object_hash] returns the object hash, and no other path of the
    file system has changed. *)
Theorem build_ref_roundtrip who process root w key h :
  Forall valid_name root -> placed root w BUILDS_DIR -> wf_hash key -> wf_hash h -> (0 <= process)%Z ->
  temp_free root process w BUILDS_DIR (to_hex key) ->
  exists w',
    calmly who (store_build_ref process root key h) w = (Ok tt, w') /\
    calmly who (load_build_object_hash root key) w' = (Ok (Some h), w') /\
    forall p, apart (build_ref_path root key) p -> get (tree w') p = get (tree w) p.
Proof.
  intros Hroot Hd Hk Hh Hp Hfree. unfold store_build_ref, load_build_object_hash.
  assert (build_ref_path root key = root ++ [BUILDS_DIR; to_hex key]) as -> by (unfold build_ref_path, builds_dir; by rewrite <- app_assoc).
  destruct (replace_calm who root Hroot BUILDS_DIR (proj1 Hd) process (to_hex key) (object_target h) w)
    as (w' & Hr & Hn & Hd' & Hsame); [done|by apply valid_hex|done|done|].
  exists w'. split; [exact Hr|]. split; [|exact Hsame].
  apply (load_calm who root Hroot "build" BUILDS_DIR (to_hex key) (object_target h) 0); [apply Hd|done|by apply valid_hex|done|].
  intros k p. by apply parse_object_target_ok.
Qed.

(** Updating a named object reference when no call fails. A reference that
    already names the object is left alone. Otherwise the new target is put in
    place, and the old target, if there was one, is kept under a generation
    name that was free, so no object that was ever current is lost from view;
    nothing else in the file system changes. *)
Theorem object_ref_history format_timestamp who process root w name h old m h0 suffix :
  Forall valid_name root -> placed root w OBJECT_REFS_DIR -> (0 <= process)%Z ->
  validate_ref_name name = Ok tt -> wf_hash h ->
  get (tree w) (root ++ [OBJECT_REFS_DIR; name]) = Some (Lnk old m) ->
  parse_object_target "current object" (root ++ [OBJECT_REFS_DIR; name]) old = Ok h0 ->
  format_timestamp m = Ok suffix -> 47%Z ∉ suffix ->
  (exists c, (1 <= c < 1000)%Z /\
     get (tree w) (root ++ [OBJECT_REFS_DIR; generation_candidate name suffix c]) = None) ->
  (forall c, (1 <= c)%Z -> temp_free root process w OBJECT_REFS_DIR (generation_candidate name suffix c)) ->
  (exists k, (0 <= k < 1000)%Z /\
     get (tree w) (root ++ [OBJECT_REFS_DIR; temp_ref_name process name k]) = None /\
     forall c, generation_candidate name suffix c <> temp_ref_name process name k) ->
  exists w',
    calmly who (update_object_ref format_timestamp process root name h) w = (Ok tt, w') /\
    (h = h0 -> w' = w) /\
    (h <> h0 ->
     get (tree w') (root ++ [OBJECT_REFS_DIR; name]) = Some (Lnk (object_target h) 0) /\
     exists g, get (tree w) (root ++ [OBJECT_REFS_DIR; g]) = None /\
       get (tree w') (root ++ [OBJECT_REFS_DIR; g]) = Some (Lnk old 0) /\
       forall p, apart (root ++ [OBJECT_REFS_DIR; name]) p -> apart (root ++ [OBJECT_REFS_DIR; g]) p ->
         get (tree w') p = get (tree w) p).
Proof.
  intros Hroot Hd Hp Hname Hh Hn Hparse Hsuffix Hslash Hgen Htempg (k & Hk & Hfree & Hother).
  pose proof (proj1 Hd) as Hdn. unfold update_object_ref. rewrite Hname.
  unfold object_refs_dir. rewrite <- !app_assoc. cbn [app].
  apply ref_name_valid in Hname as Hx.
  erewrite calmly_bind by (by apply calmly_symlink_metadata). rewrite Hn. cbn [metadata_of file_type].
  change (bool_decide (TSymlink = TSymlink)) with true. cbn iota.
  assert (Hr : calmly who (read_link (root ++ [OBJECT_REFS_DIR; name])) w = (Ok old, w)).
  { unfold calmly. cbn [read_link call run exec hd answer_read calm fault]. by rewrite entry_lookup, Hn. }
  erewrite calmly_try by (by erewrite calmly_map_err by exact Hr). cbv beta. rewrite Hparse.
  destruct (decide (h0 = h)) as [->|Hne].
  { rewrite bool_decide_eq_true_2 by done. exists w. by split_and!. }
  rewrite bool_decide_eq_false_2 by done. unfold generation_suffix_from_symlink_metadata. cbn [md_modified].
  rewrite Hsuffix. cbn [map_err].
  assert (Hgv : forall c, (1 <= c)%Z -> valid_name (generation_candidate name suffix c)).
  { intros c Hc. apply generation_valid; [done|done|lia]. }
  destruct (allocate_calm who root Hroot 999 1 name suffix w) as (c & Hc & Halloc & Hgfree); [done|lia|done|by destruct Hgen as (c & ? & ?); exists c; split; [lia|]|].
  rewrite (calmly_try _ _ _ _ _ _ Halloc). unfold create_generation_ref. set (g := generation_candidate name suffix c) in *.
  rewrite <- app_assoc. cbn [app].
  destruct (replace_calm who root Hroot OBJECT_REFS_DIR Hdn process g old w) as (w1 & Hr1 & Hn1 & Hd1 & Hs1);
    [done|by apply Hgv|done|by apply Htempg|].
  rewrite (calmly_try _ _ _ _ _ _ Hr1).
  destruct (replace_calm who root Hroot OBJECT_REFS_DIR Hdn process name (object_target h) w1)
    as (w2 & Hr2 & Hn2 & Hd2 & Hs2); [done|done|done| |].
  { exists k. split; [done|]. rewrite Hs1; [done|]. apply apart_entry. right. apply Hother. }
  exists w2. split; [exact Hr2|]. split; [congruence|]. intros _. split; [done|]. exists g. split; [done|].
  assert (Hap : apart (root ++ [OBJECT_REFS_DIR; name]) (root ++ [OBJECT_REFS_DIR; g])).
  { apply apart_entry. right. intros E. by apply (generation_differs name suffix c). }
  split; [by rewrite Hs2|]. intros p Hpn Hpg. by rewrite Hs2, Hs1.
Qed.
