(* ===== verification/StoreToy.v ===== *)
(** * A small store

    A concrete store with one staged file, an importing task and a reading
    task: the setting of the witnesses of the store properties. *)

From S2P Require Import Prelude Errors Hash Text FsObject FsArchive FsManifest JsonToy Subjects Posix Tasks.
From S2P Require Import Store StoreInvariant StorePool StoreRefs.

Module StoreExamples.
#[local] Existing Instance ToySha.sha256_api.

Definition toy_store : path := [lit "s"].
Definition staged_file : node := Reg 0x1a4 (lit "hello").
Definition staged_path : path := [lit "t"; lit "x"].

Definition toy_world : World := mkWorld
  (Dir 0x1ed [(lit "s", Dir 0x1ed (map (fun '(d, _) => (d, Dir 0x1ed [])) LAYOUT));
              (lit "t", Dir 0x1ed [(lit "x", staged_file)])]) ∅ ∅.

Definition toy_key (n : Z) : bytes := be_bytes 32 n.
Definition record_text (r : ObjectRecord) : result string bytes := Ok (lit "{}").
Definition timestamp (t : Z) : result string bytes := Ok (lit "700101000000").

Definition importer : Task := mkTask (mkOwner (mkActor 0 7) (Some staged_path))
  (ImportBuild (toy_key 1) (toy_key 2) [] staged_path (lit "out") (lit "run")).
Definition reader : Task := mkTask (mkOwner (mkActor 1 9) None) (LoadBuild (toy_key 1)).

(** The importer finds its first temporary name taken; the reader runs as soon
    as the build reference is there, before the importer has finished. *)
Definition taken : Env := mkEnv 5 (Some (mkFault already_exists (fun _ => false) None)).
Definition schedule : list (nat * Env) :=
  repeat (0, calm)%nat 10 ++ [(0, taken)%nat] ++ repeat (0, calm)%nat 6
  ++ repeat (1, calm)%nat 2 ++ repeat (0, calm)%nat 10.

Definition started : list (Task * prog Outcome) * World :=
  (map (start record_text timestamp 10 toy_store) [importer; reader], toy_world).
Definition finished : list (Task * prog Outcome) * World :=
  run_pool (fun t => ow_actor (t_owner t)) schedule started.

Definition outcomes : list (option Outcome) :=
  map (fun p => match p.2 with Ret out => Some out | Do _ _ => None end) finished.1.

Definition hello_hash : bytes := sha256 (lit "hello").

Lemma outcomes_value : outcomes = [Some (Built (Ok hello_hash)); Some (Loaded (Ok (Some hello_hash)))].
Proof. vm_compute. reflexivity. Qed.

Ltac plain_name :=
  split_and!; [done|vm_compute; intros Hin; repeat (apply elem_of_cons in Hin as [Hin|Hin]; [done|]);
                    by apply elem_of_nil in Hin|done|done].

Lemma toy_wf : wf_node (tree toy_world).
Proof. cbn [wf_node tree toy_world map LAYOUT staged_file]. repeat match goal with |- valid_name _ => plain_name | |- _ /\ _ => split | |- True => exact I end. Qed.

Lemma toy_layout d : d ∈ map fst LAYOUT ->
  get (tree toy_world) (toy_store ++ [d]) = Some (Dir 0x1ed []).
Proof. cbn [map fst LAYOUT]. intros Hd. repeat (apply elem_of_cons in Hd as [->|Hd]; [reflexivity|]). by apply elem_of_nil in Hd. Qed.

(** The directories of the store are empty. *)
Lemma toy_entry d x : d ∈ map fst LAYOUT -> get (tree toy_world) (toy_store ++ [d; x]) = None.
Proof.
  intros Hd. replace (toy_store ++ [d; x]) with ((toy_store ++ [d]) ++ [x]) by (by rewrite <- app_assoc).
  by rewrite get_app, toy_layout.
Qed.

(** The one mapping that holds: the importer's build. *)
Definition toy_vouched (d key h : bytes) : Prop := h = hello_hash /\ (key = toy_key 1 \/ key = toy_key 2).

Lemma toy_inv : store_inv toy_store [staged_file] toy_vouched toy_world.
Proof.
  constructor.
  - exact toy_wf.
  - intros d Hd. exists 0x1ed%Z, []. by apply toy_layout.
  - intros c n Hn. rewrite toy_entry in Hn by set_solver. done.
  - intros c n Hn. rewrite toy_entry in Hn by set_solver. done.
  - intros d name target m Hd Hn. rewrite toy_entry in Hn by (by apply ref_dir_layout). done.
  - intros h n _ Hn. rewrite object_path_eq, toy_entry in Hn by set_solver. done.
  - intros p s i Hc. cbn [claims toy_world] in Hc. by rewrite lookup_empty in Hc.
  - intros p. cbn [next_pending toy_world]. rewrite lookup_empty. cbn. lia.
Qed.

Lemma toy_key_wf n : wf_hash (toy_key n).
Proof. split; [apply wf_be_bytes|apply length_be_bytes]. Qed.

Lemma toy_ready : Forall (task_ready toy_store toy_vouched [staged_file] toy_world) [importer; reader].
Proof.
  repeat apply Forall_cons_2; [| |constructor].
  - split; [|split; [|split; [|split]]]; cbn [importer t_owner t_request ow_actor ow_staged pid staged_of request_hashes].
    + split; [cbn; lia|]. intros s [= <-]. split_and!; [|repeat apply Forall_cons_2; [plain_name|plain_name|constructor]|done].
      intros d Hd. apply (apart_heads []). done.
    + repeat apply Forall_cons_2; [apply toy_key_wf|apply toy_key_wf|constructor].
    + done.
    + intros s [= <-]. split; [by eexists _, _|]. intros n Hn. vm_compute in Hn. injection Hn as <-. by left.
    + intros n Hn. vm_compute in Hn. injection Hn as <-. split.
      * intros Hm. exfalso. apply Hm. reflexivity.
      * intros h [p Hp]. vm_compute in Hp. injection Hp as <-. split; (split; [vm_compute; reflexivity|]); [by left|by right].
  - split; [|split; [|split; [|split]]]; cbn [reader t_owner t_request ow_actor ow_staged pid staged_of request_hashes];
      [| |done|done|done].
    + split; [cbn; lia|]. by intros s.
    + repeat apply Forall_cons_2; [apply toy_key_wf|constructor].
Qed.

Lemma toy_distinct : tasks_distinct [importer; reader].
Proof.
  intros [|[|i]] [|[|j]] t u Hi Hj Hij; try done; cbn in Hi, Hj; simplify_eq; split; done.
Qed.

(** The property at this run: both tasks report the hash of the staged file,
    and it is published in the final state. *)
Lemma publication_safe_witness :
  store_inv toy_store [staged_file] toy_vouched (snd finished) /\
  ((reader, Ret (Loaded (Ok (Some hello_hash)))) ∈ (fst finished)) /\
  published toy_store (tree (snd finished)) hello_hash /\ toy_vouched BUILDS_DIR (toy_key 1) hello_hash.
Proof.
  destruct (publication_safe record_text timestamp 10 toy_store [staged_file] toy_vouched [importer; reader] toy_world
    (fst finished) (snd finished)) as [Hi Ho].
  - repeat apply Forall_cons_2; [plain_name|constructor].
  - intros n n' h Hn Hn' _ _. apply list_elem_of_singleton in Hn, Hn'. subst. reflexivity.
  - intros t s [= <-]. vm_compute. intros Hin. repeat (apply elem_of_cons in Hin as [Hin|Hin]; [done|]).
    by apply elem_of_nil in Hin.
  - exact toy_inv.
  - exact toy_ready.
  - exact toy_distinct.
  - rewrite <- surjective_pairing. apply run_pool_steps.
  - assert (Hread : (reader, Ret (Loaded (Ok (Some hello_hash)))) ∈ (fst finished)).
    { apply list_elem_of_lookup. exists 1%nat. vm_compute. reflexivity. }
    split; [exact Hi|]. split; [exact Hread|]. exact (Ho _ _ Hread).
Defined.

(** A reference may spell the canonical target with redundant separators: path
    equality compares components. *)
Definition loose_target (h : bytes) : bytes := lit "..//objects/./" ++ to_hex h ++ lit "/".

Example loose_target_accepted kind p :
  parse_object_target kind p (loose_target (toy_key 5)) = Ok (toy_key 5) /\
  loose_target (toy_key 5) <> object_target (toy_key 5).
Proof. split; [vm_compute; reflexivity|discriminate]. Qed.

Lemma toy_placed d : d ∈ map fst LAYOUT -> placed toy_store toy_world d.
Proof.
  intros Hd. split; [|exists 0x1ed%Z, []; by apply toy_layout].
  cbn [map fst LAYOUT] in Hd. repeat (apply elem_of_cons in Hd as [->|Hd]; [plain_name|]). by apply elem_of_nil in Hd.
Qed.

Lemma toy_root : Forall valid_name toy_store.
Proof. repeat apply Forall_cons_2; [plain_name|constructor]. Qed.

Lemma build_ref_roundtrip_witness :
  exists w', calmly (mkActor 0 7) (store_build_ref 7 toy_store (toy_key 1) (toy_key 2)) toy_world = (Ok tt, w') /\
    calmly (mkActor 0 7) (load_build_object_hash toy_store (toy_key 1)) w' = (Ok (Some (toy_key 2)), w').
Proof.
  destruct (build_ref_roundtrip (mkActor 0 7) 7 toy_store toy_world (toy_key 1) (toy_key 2)) as (w' & H1 & H2 & _).
  - exact toy_root.
  - apply toy_placed. set_solver.
  - apply toy_key_wf.
  - apply toy_key_wf.
  - lia.
  - exists 0%Z. split; [lia|]. apply toy_entry. set_solver.
  - by exists w'.
Defined.

(** The store when [out] names an object already. *)
Definition out_path : path := toy_store ++ [OBJECT_REFS_DIR; lit "out"].
Definition named_world : World :=
  set_tree toy_world (place (tree toy_world) out_path (Some (Lnk (object_target (toy_key 3)) 0))).

Lemma named_entry x : x <> lit "out" -> get (tree named_world) (toy_store ++ [OBJECT_REFS_DIR; x]) = None.
Proof.
  intros Hx. unfold named_world. cbn [tree set_tree]. rewrite get_place_apart.
  - apply toy_entry. set_solver.
  - apply apart_entry. by right.
Qed.

Lemma named_placed : placed toy_store named_world OBJECT_REFS_DIR.
Proof.
  apply (placed_change toy_store OBJECT_REFS_DIR toy_world); [apply toy_placed; set_solver|].
  apply entry_not_prefix.
Qed.

Lemma temp_not_out process x k : temp_ref_name process x k <> lit "out".
Proof. discriminate. Qed.

Lemma object_ref_history_witness :
  exists w', calmly (mkActor 0 7) (update_object_ref timestamp 7 toy_store (lit "out") (toy_key 2)) named_world
    = (Ok tt, w') /\
  get (tree w') out_path = Some (Lnk (object_target (toy_key 2)) 0) /\
  exists g, get (tree w') (toy_store ++ [OBJECT_REFS_DIR; g]) = Some (Lnk (object_target (toy_key 3)) 0).
Proof.
  destruct (object_ref_history timestamp (mkActor 0 7) 7 toy_store named_world (lit "out") (toy_key 2)
    (object_target (toy_key 3)) 0 (toy_key 3) (lit "700101000000")) as (w' & H1 & _ & H2).
  - exact toy_root.
  - exact named_placed.
  - lia.
  - reflexivity.
  - apply toy_key_wf.
  - vm_compute. reflexivity.
  - apply parse_object_target_ok, toy_key_wf.
  - reflexivity.
  - vm_compute. intros Hin. repeat (apply elem_of_cons in Hin as [Hin|Hin]; [done|]). by apply elem_of_nil in Hin.
  - exists 1%Z. split; [lia|]. apply named_entry, generation_differs.
  - intros c _. exists 0%Z. split; [lia|]. apply named_entry, temp_not_out.
  - exists 0%Z. split; [lia|]. split; [apply named_entry, temp_not_out|].
    intros c. unfold generation_candidate. by destruct (c =? 1)%Z.
  - exists w'. split; [exact H1|]. destruct H2 as (H2 & g & _ & H3 & _); [discriminate|].
    split; [exact H2|]. by exists g.
Defined.
End StoreExamples.
