(* ===== verification/Fibers.v ===== *)
(** * Fibers with memo cells and join sets

    The asynchronous layer on top of [Posix]: fibers of one process make file
    system calls, read and update shared state, memoise results in once-cells
    (tokio's [OnceCell::get_or_init]), and fork sets of fibers that they join
    one by one (tokio's [JoinSet]).  Any fiber may panic at any point.  The
    file has the programs ([fib]) and the machine ([act], [crash], [step]); the
    logics are in [FiberSafety] and [FiberLiveness]. *)

From S2P Require Import Prelude Posix Tasks.

Section Fibers.
Context {Sh C J V : Type} `{!EqDecision C}.

(** What [join_next] reports of a fiber of the set. *)
Inductive joined := Finished (i : nat) (v : V) | Panicked.

(** Programs: one file system call, reading and updating the shared state, the
    number of the fiber itself, [get_or_init] and [get] of a cell, spawning a set of jobs, joining the next
    of them, dropping the set, and a panic. *)
Inductive fib (A : Type) : Type :=
| FRet (a : A)
| FIo (o : Op) (k : Resp o -> fib A)
| FGet (k : Sh -> fib A)
| FSelf (k : nat -> fib A)
| FPut (f : Sh -> Sh) (k : fib A)
| FOnce (c : C) (k : V -> fib A)
| FPeek (c : C) (k : option V -> fib A)
| FFork (js : list J) (k : fib A)
| FNext (k : joined -> fib A)
| FDrop (k : fib A)
| FPanic.
#[global] Arguments FRet {A} a.
#[global] Arguments FIo {A} o k.
#[global] Arguments FGet {A} k.
#[global] Arguments FSelf {A} k.
#[global] Arguments FPut {A} f k.
#[global] Arguments FOnce {A} c k.
#[global] Arguments FPeek {A} c k.
#[global] Arguments FFork {A} js k.
#[global] Arguments FNext {A} k.
#[global] Arguments FDrop {A} k.
#[global] Arguments FPanic {A}.

Fixpoint fbind {A B : Type} (m : fib A) (f : A -> fib B) : fib B :=
  match m with
  | FRet a => f a
  | FIo o k => FIo o (fun r => fbind (k r) f)
  | FGet k => FGet (fun s => fbind (k s) f)
  | FSelf k => FSelf (fun t => fbind (k t) f)
  | FPut g k => FPut g (fbind k f)
  | FOnce c k => FOnce c (fun v => fbind (k v) f)
  | FPeek c k => FPeek c (fun o => fbind (k o) f)
  | FFork js k => FFork js (fbind k f)
  | FNext k => FNext (fun r => fbind (k r) f)
  | FDrop k => FDrop (fbind k f)
  | FPanic => FPanic
  end.

(** Blocking code of the store. *)
Fixpoint blocking {A : Type} (m : prog A) : fib A :=
  match m with
  | Ret a => FRet a
  | Do o k => FIo o (fun r => blocking (k r))
  end.

Definition ftry {E A B : Type} (m : fib (result E A)) (f : A -> fib (result E B)) : fib (result E B) :=
  fbind m (fun r => match r with Ok a => f a | Err e => FRet (Err e) end).
Definition fmap_err {E F A : Type} (g : E -> F) (m : fib (result E A)) : fib (result F A) :=
  fbind m (fun r => FRet (map_err g r)).

Context (cell_body : C -> fib V) (job_body : J -> fib V).

(** ** The machine *)

(** What a fiber is doing: its program, and the cells it is initialising with
    what it does afterwards, innermost first.  A panicked fiber has none. *)
Definition Activity : Type := fib V * list (C * (V -> fib V)).

Record Fiber := mkFiber {
  f_id : nat;
  f_parent : option nat;
  f_index : nat;
  f_job : J;
  f_prog : option Activity;
}.

Inductive Cell := Running (owner : nat) | Full (v : V).

Record Machine := mkMachine {
  m_world : World;
  m_shared : Sh;
  m_cells : C -> option Cell;
  m_fibers : list Fiber;
  m_next : nat;
}.

Definition set_cell (c : C) (x : option Cell) (cells : C -> option Cell) (d : C) : option Cell :=
  if decide (d = c) then x else cells d.

(** The cells a fiber leaves when it panics can be initialised again. *)
Definition release (t : nat) (cells : C -> option Cell) (d : C) : option Cell :=
  match cells d with
  | Some (Running o) => if decide (o = t) then None else Some (Running o)
  | x => x
  end.

Definition full_value (x : option Cell) : option V :=
  match x with Some (Full v) => Some v | _ => None end.

Definition set_prog (f : Fiber) (x : option Activity) : Fiber :=
  mkFiber (f_id f) (f_parent f) (f_index f) (f_job f) x.

(** A dropped join set: its fibers are aborted, which for each means that it
    stops somewhere, if it does not finish before. *)
Definition detach (t : nat) (f : Fiber) : Fiber :=
  mkFiber (f_id f) (if decide (f_parent f = Some t) then None else f_parent f) (f_index f) (f_job f) (f_prog f).

Fixpoint take_fiber (t : nat) (fs : list Fiber) : option (Fiber * list Fiber) :=
  match fs with
  | [] => None
  | f :: fs' =>
      if decide (f_id f = t) then Some (f, fs')
      else match take_fiber t fs' with
           | Some (g, rest) => Some (g, f :: rest)
           | None => None
           end
  end.

(** The fibers of a new join set. *)
Fixpoint spawned (parent first index : nat) (js : list J) : list Fiber :=
  match js with
  | [] => []
  | j :: js' =>
      mkFiber first (Some parent) index j (Some (job_body j, []))
      :: spawned parent (S first) (S index) js'
  end.

(** One step of the fiber [t]: [e] is the environment of a call, [pick] the
    fiber that a join takes. *)
Definition act (pid : Z) (e : Env) (pick t : nat) (m : Machine) : option Machine :=
  match take_fiber t (m_fibers m) with
  | Some (f, rest) =>
      match f_prog f with
      | Some (p, st) =>
          let go p' := mkMachine (m_world m) (m_shared m) (m_cells m)
                         (set_prog f (Some (p', st)) :: rest) (m_next m) in
          match p with
          | FRet v =>
              match st with
              | [] => None
              | (c, k) :: st' =>
                  Some (mkMachine (m_world m) (m_shared m) (set_cell c (Some (Full v)) (m_cells m))
                          (set_prog f (Some (k v, st')) :: rest) (m_next m))
              end
          | FIo o k =>
              let '(r, w') := exec (mkActor t pid) e o (m_world m) in
              Some (mkMachine w' (m_shared m) (m_cells m) (set_prog f (Some (k r, st)) :: rest) (m_next m))
          | FGet k => Some (go (k (m_shared m)))
          | FSelf k => Some (go (k t))
          | FPut g k =>
              Some (mkMachine (m_world m) (g (m_shared m)) (m_cells m)
                      (set_prog f (Some (k, st)) :: rest) (m_next m))
          | FOnce c k =>
              match m_cells m c with
              | Some (Full v) => Some (go (k v))
              | Some (Running _) => None
              | None =>
                  Some (mkMachine (m_world m) (m_shared m) (set_cell c (Some (Running t)) (m_cells m))
                          (set_prog f (Some (cell_body c, (c, k) :: st)) :: rest) (m_next m))
              end
          | FPeek c k => Some (go (k (full_value (m_cells m c))))
          | FFork js k =>
              Some (mkMachine (m_world m) (m_shared m) (m_cells m)
                      (set_prog f (Some (k, st)) :: spawned t (m_next m) 0 js ++ rest)
                      (m_next m + length js))
          | FNext k =>
              match take_fiber pick rest with
              | Some (ch, rest') =>
                  if decide (f_parent ch = Some t) then
                    let go' r := mkMachine (m_world m) (m_shared m) (m_cells m)
                                   (set_prog f (Some (k r, st)) :: rest') (m_next m) in
                    match f_prog ch with
                    | Some (FRet v, []) => Some (go' (Finished (f_index ch) v))
                    | None => Some (go' Panicked)
                    | _ => None
                    end
                  else None
              | None => None
              end
          | FDrop k =>
              Some (mkMachine (m_world m) (m_shared m) (m_cells m)
                      (set_prog f (Some (k, st)) :: map (detach t) rest) (m_next m))
          | FPanic =>
              Some (mkMachine (m_world m) (m_shared m) (release t (m_cells m))
                      (set_prog f None :: rest) (m_next m))
          end
      | None => None
      end
  | None => None
  end.

(** The fiber [t] panics. *)
Definition crash (t : nat) (m : Machine) : option Machine :=
  match take_fiber t (m_fibers m) with
  | Some (f, rest) =>
      match f_prog f with
      | Some (FRet _, []) | None => None
      | Some _ => Some (mkMachine (m_world m) (m_shared m) (release t (m_cells m))
                          (set_prog f None :: rest) (m_next m))
      end
  | None => None
  end.

Definition step (pid : Z) (m m' : Machine) : Prop :=
  (exists e pick t, act pid e pick t m = Some m') \/ exists t, crash t m = Some m'.

(** What happens outside the fibers: other processes on the file system, a
    cancellation. *)
Definition drift_step (drift : World -> Sh -> World -> Sh -> Prop) (m m' : Machine) : Prop :=
  drift (m_world m) (m_shared m) (m_world m') (m_shared m') /\
  m_cells m' = m_cells m /\ m_fibers m' = m_fibers m /\ m_next m' = m_next m.

Lemma take_fiber_spec t fs f rest :
  take_fiber t fs = Some (f, rest) -> fs ≡ₚ f :: rest /\ f_id f = t.
Proof.
  revert f rest. induction fs as [|g fs IH]; intros f rest; cbn [take_fiber]; [done|].
  destruct (decide (f_id g = t)) as [Hg|Hg]; [by intros [= <- <-]|].
  destruct (take_fiber t fs) as [[g' rest']|]; [|done]. intros [= <- <-].
  destruct (IH _ _ eq_refl) as [Hp ->]. split; [|done]. rewrite Hp. apply Permutation_swap.
Qed.

Lemma take_fiber_in fs f :
  f ∈ fs -> NoDup (map f_id fs) -> exists rest, take_fiber (f_id f) fs = Some (f, rest).
Proof.
  induction fs as [|g fs IH]; intros Hf Hn; [by apply elem_of_nil in Hf|]. cbn [take_fiber].
  cbn in Hn. apply NoDup_cons in Hn as [Hg Hn]. apply elem_of_cons in Hf as [->|Hf].
  - rewrite decide_True by done. by eexists.
  - rewrite decide_False.
    + destruct (IH Hf Hn) as [rest ->]. by eexists.
    + intros E. apply Hg. rewrite E. apply list_elem_of_fmap. by exists f.
Qed.

(** The steps of [act] and [crash] as rules, up to the order of the fibers. *)
Inductive moves (pid : Z) (m : Machine) : Machine -> Prop :=
| mv_fill f rest v c k st :
    m_fibers m ≡ₚ f :: rest -> f_prog f = Some (FRet v, (c, k) :: st) ->
    moves pid m (mkMachine (m_world m) (m_shared m) (set_cell c (Some (Full v)) (m_cells m))
                   (set_prog f (Some (k v, st)) :: rest) (m_next m))
| mv_io f rest o k st e r w' :
    m_fibers m ≡ₚ f :: rest -> f_prog f = Some (FIo o k, st) ->
    exec (mkActor (f_id f) pid) e o (m_world m) = (r, w') ->
    moves pid m (mkMachine w' (m_shared m) (m_cells m) (set_prog f (Some (k r, st)) :: rest) (m_next m))
| mv_get f rest k st :
    m_fibers m ≡ₚ f :: rest -> f_prog f = Some (FGet k, st) ->
    moves pid m (mkMachine (m_world m) (m_shared m) (m_cells m)
                   (set_prog f (Some (k (m_shared m), st)) :: rest) (m_next m))
| mv_self f rest k st :
    m_fibers m ≡ₚ f :: rest -> f_prog f = Some (FSelf k, st) ->
    moves pid m (mkMachine (m_world m) (m_shared m) (m_cells m)
                   (set_prog f (Some (k (f_id f), st)) :: rest) (m_next m))
| mv_put f rest g k st :
    m_fibers m ≡ₚ f :: rest -> f_prog f = Some (FPut g k, st) ->
    moves pid m (mkMachine (m_world m) (g (m_shared m)) (m_cells m)
                   (set_prog f (Some (k, st)) :: rest) (m_next m))
| mv_start f rest c k st :
    m_fibers m ≡ₚ f :: rest -> f_prog f = Some (FOnce c k, st) -> m_cells m c = None ->
    moves pid m (mkMachine (m_world m) (m_shared m) (set_cell c (Some (Running (f_id f))) (m_cells m))
                   (set_prog f (Some (cell_body c, (c, k) :: st)) :: rest) (m_next m))
| mv_once f rest c k v st :
    m_fibers m ≡ₚ f :: rest -> f_prog f = Some (FOnce c k, st) -> m_cells m c = Some (Full v) ->
    moves pid m (mkMachine (m_world m) (m_shared m) (m_cells m)
                   (set_prog f (Some (k v, st)) :: rest) (m_next m))
| mv_peek f rest c k st :
    m_fibers m ≡ₚ f :: rest -> f_prog f = Some (FPeek c k, st) ->
    moves pid m (mkMachine (m_world m) (m_shared m) (m_cells m)
                   (set_prog f (Some (k (full_value (m_cells m c)), st)) :: rest) (m_next m))
| mv_fork f rest js k st :
    m_fibers m ≡ₚ f :: rest -> f_prog f = Some (FFork js k, st) ->
    moves pid m (mkMachine (m_world m) (m_shared m) (m_cells m)
                   (set_prog f (Some (k, st)) :: spawned (f_id f) (m_next m) 0 js ++ rest)
                   (m_next m + length js))
| mv_next f ch rest k r st :
    m_fibers m ≡ₚ f :: ch :: rest -> f_prog f = Some (FNext k, st) -> f_parent ch = Some (f_id f) ->
    (r = Panicked /\ f_prog ch = None) \/
    (exists v, r = Finished (f_index ch) v /\ f_prog ch = Some (FRet v, [])) ->
    moves pid m (mkMachine (m_world m) (m_shared m) (m_cells m)
                   (set_prog f (Some (k r, st)) :: rest) (m_next m))
| mv_drop f rest k st :
    m_fibers m ≡ₚ f :: rest -> f_prog f = Some (FDrop k, st) ->
    moves pid m (mkMachine (m_world m) (m_shared m) (m_cells m)
                   (set_prog f (Some (k, st)) :: map (detach (f_id f)) rest) (m_next m))
| mv_crash f rest a :
    m_fibers m ≡ₚ f :: rest -> f_prog f = Some a ->
    moves pid m (mkMachine (m_world m) (m_shared m) (release (f_id f) (m_cells m))
                   (set_prog f None :: rest) (m_next m)).

Lemma step_moves pid m m' : step pid m m' -> moves pid m m'.
Proof.
  intros [(e & pick & t & Ha)|(t & Hc)].
  - unfold act in Ha. destruct (take_fiber t (m_fibers m)) as [[f rest]|] eqn:Et; [|done].
    apply take_fiber_spec in Et as [Hp <-]. destruct (f_prog f) as [[p st]|] eqn:Ef; [|done].
    destruct p as [v|o k|k|k|g k|c k|c k|js k|k|k|].
    + destruct st as [|[c k] st]; [done|]. injection Ha as <-. by eapply mv_fill.
    + destruct (exec (mkActor (f_id f) pid) e o (m_world m)) as [r w'] eqn:Ee. injection Ha as <-.
      by eapply mv_io.
    + injection Ha as <-. by eapply mv_get.
    + injection Ha as <-. by eapply mv_self.
    + injection Ha as <-. by eapply mv_put.
    + destruct (m_cells m c) as [[o|v]|] eqn:Ec; [done| |]; injection Ha as <-; [by eapply mv_once|by eapply mv_start].
    + injection Ha as <-. by eapply mv_peek.
    + injection Ha as <-. by eapply mv_fork.
    + destruct (take_fiber pick rest) as [[ch rest']|] eqn:Ech; [|done].
      apply take_fiber_spec in Ech as [Hp' _]. case_decide as Hpar; [|done].
      assert (Hall : m_fibers m ≡ₚ f :: ch :: rest') by (by rewrite Hp, Hp').
      destruct (f_prog ch) as [[p' st']|] eqn:Ech.
      * destruct p' as [v|o' k'|k'|k'|g' k'|c' k'|c' k'|js' k'|k'|k'|]; try done. destruct st'; [|done].
        injection Ha as <-. eapply mv_next; [done|done|done|]. right. by exists v.
      * injection Ha as <-. eapply mv_next; [done|done|done|]. by left.
    + injection Ha as <-. by eapply mv_drop.
    + injection Ha as <-. by eapply mv_crash.
  - unfold crash in Hc. destruct (take_fiber t (m_fibers m)) as [[f rest]|] eqn:Et; [|done].
    apply take_fiber_spec in Et as [Hp <-]. destruct (f_prog f) as [[p st]|] eqn:Ef; [|done].
    destruct p, st; try done; injection Hc as <-; by eapply mv_crash.
Qed.

(** ** Identities *)

(** The jobs of the fibers in the join set of [t]. *)
Definition children (t : nat) (fs : list Fiber) : list (nat * J) :=
  omap (fun f => if decide (f_parent f = Some t) then Some (f_index f, f_job f) else None) fs.

Record ids_ok (m : Machine) : Prop := {
  ids_nodup : NoDup (map f_id (m_fibers m));
  ids_fresh : forall f, f ∈ m_fibers m -> (f_id f < m_next m)%nat;
  ids_parent : forall f t, f ∈ m_fibers m -> f_parent f = Some t -> (t < f_id f)%nat;
}.

Lemma spawned_ids parent first index js :
  map f_id (spawned parent first index js) = seq first (length js).
Proof. revert first index. induction js as [|j js IH]; intros first index; cbn; [done|]. by rewrite IH. Qed.

Lemma spawned_elem parent first index js f :
  f ∈ spawned parent first index js ->
  (first <= f_id f < first + length js)%nat /\ f_parent f = Some parent /\
  f_job f ∈ js /\ f_prog f = Some (job_body (f_job f), []).
Proof.
  revert first index. induction js as [|j js IH]; intros first index Hf; cbn in Hf; [by apply elem_of_nil in Hf|].
  apply elem_of_cons in Hf as [->|Hf]; cbn [f_id f_parent f_job f_prog length].
  - split; [lia|]. split_and!; [done|apply elem_of_cons; by left|done].
  - destruct (IH _ _ Hf) as (H1 & H3 & H4 & H5).
    split; [lia|]. split_and!; [done|apply elem_of_cons; by right|done].
Qed.

#[global] Instance children_proper t : Proper (Permutation ==> Permutation) (children t).
Proof. intros fs fs' Hp. unfold children. by rewrite Hp. Qed.

Lemma children_app t fs fs' : children t (fs ++ fs') = children t fs ++ children t fs'.
Proof. apply omap_app. Qed.

Lemma children_none t fs : (forall f, f ∈ fs -> f_parent f <> Some t) -> children t fs = [].
Proof.
  induction fs as [|f fs IH]; intros Hn; [done|]. cbn. rewrite decide_False by (apply Hn, elem_of_cons; by left).
  apply IH. intros g Hg. apply Hn, elem_of_cons. by right.
Qed.

Lemma children_set_prog t f x fs : children t (set_prog f x :: fs) = children t (f :: fs).
Proof. done. Qed.

Lemma children_detach t fs : children t (map (detach t) fs) = [].
Proof.
  apply children_none. intros f (g & -> & _)%list_elem_of_fmap. cbn [detach f_parent]. by case_decide.
Qed.

Lemma children_detach_other t u fs : t <> u -> children u (map (detach t) fs) = children u fs.
Proof.
  intros Hne. induction fs as [|f fs IH]; [done|]. cbn [map children omap list_omap detach f_parent f_index f_job].
  destruct (decide (f_parent f = Some t)) as [E|E].
  - rewrite (decide_False (P := None = Some u)) by done. rewrite (decide_False (P := f_parent f = Some u)) by congruence.
    exact IH.
  - destruct (decide (f_parent f = Some u)); [f_equal|]; exact IH.
Qed.

Lemma children_spawned t first index js :
  children t (spawned t first index js) = zip (seq index (length js)) js.
Proof.
  revert first index. induction js as [|j js IH]; intros first index; [done|]. cbn.
  rewrite decide_True by done. f_equal. apply IH.
Qed.

Lemma ids_ok_perm m fs : m_fibers m ≡ₚ fs -> ids_ok m ->
  NoDup (map f_id fs) /\ (forall f, f ∈ fs -> (f_id f < m_next m)%nat) /\
  forall f t, f ∈ fs -> f_parent f = Some t -> (t < f_id f)%nat.
Proof.
  intros Hp [H1 H2 H3]. split_and!.
  - by rewrite <- Hp.
  - intros f Hf. apply H2. by rewrite Hp.
  - intros f t Hf. apply H3. by rewrite Hp.
Qed.

Lemma children_detach_self m f rest :
  ids_ok m -> m_fibers m ≡ₚ f :: rest -> children (f_id f) (f :: map (detach (f_id f)) rest) = [].
Proof.
  intros Hok Hp. destruct (ids_ok_perm _ _ Hp Hok) as (_ & _ & H3). cbn [children omap list_omap].
  rewrite decide_False; [apply children_detach|]. intros E. apply H3 in E; [lia|]. apply elem_of_cons. by left.
Qed.

Lemma children_detach_rest t u f fs : t <> u -> children u (f :: map (detach t) fs) = children u (f :: fs).
Proof.
  intros Hne. cbn [children omap list_omap]. destruct (decide (f_parent f = Some u)); [f_equal|]; by apply children_detach_other.
Qed.

Lemma ids_ok_same m m' f x rest :
  m_fibers m ≡ₚ f :: rest -> m_fibers m' = set_prog f x :: rest -> m_next m' = m_next m ->
  ids_ok m -> ids_ok m'.
Proof.
  intros Hp Hf Hn Hok. destruct (ids_ok_perm _ _ Hp Hok) as (H1 & H2 & H3). constructor; rewrite Hf, ?Hn.
  - exact H1.
  - intros g [->|Hg]%elem_of_cons; [apply (H2 f), elem_of_cons; by left|apply H2, elem_of_cons; by right].
  - intros g t [->|Hg]%elem_of_cons Ht; [apply (H3 f); [apply elem_of_cons; by left|done]|].
    apply (H3 g); [apply elem_of_cons; by right|done].
Qed.

Lemma ids_ok_step pid m m' : moves pid m m' -> ids_ok m -> ids_ok m'.
Proof.
  intros Hm Hok. destruct Hm as
    [f rest v c k st Hp Hf|f rest o k st e r w' Hp Hf He|f rest k st Hp Hf|f rest k st Hp Hf|f rest g k st Hp Hf
    |f rest c k st Hp Hf Hc|f rest c k v st Hp Hf Hc|f rest c k st Hp Hf|f rest js k st Hp Hf
    |f ch rest k r st Hp Hf Hpar Hr|f rest k st Hp Hf|f rest a Hp Hf]; try (by eapply (ids_ok_same m _ f)).
  - destruct (ids_ok_perm _ _ Hp Hok) as (H1 & H2 & H3). cbn [map] in H1.
    apply NoDup_cons in H1 as [H0 H1].
    assert (Hin : forall g, g ∈ set_prog f (Some (k, st)) :: spawned (f_id f) (m_next m) 0 js ++ rest ->
      (exists g', g' ∈ f :: rest /\ f_id g = f_id g' /\ f_parent g = f_parent g') \/
      g ∈ spawned (f_id f) (m_next m) 0 js).
    { intros g [->|[Hg|Hg]%elem_of_app]%elem_of_cons; [|by right|].
      - left. exists f. split; [apply elem_of_cons; by left|done].
      - left. exists g. split; [apply elem_of_cons; by right|done]. }
    constructor; cbn [m_fibers m_next].
    + cbn [map set_prog f_id]. rewrite map_app, spawned_ids.
      assert (Hsep : forall i, i ∈ seq (m_next m) (length js) -> i ∉ map f_id rest).
      { intros i Hi (g & -> & Hg)%list_elem_of_fmap. apply elem_of_seq in Hi.
        assert (f_id g < m_next m)%nat by (apply H2, elem_of_cons; by right). lia. }
      apply NoDup_cons. split.
      * intros [Hi|Hi]%elem_of_app; [|done]. apply elem_of_seq in Hi.
        assert (f_id f < m_next m)%nat by (apply H2, elem_of_cons; by left). lia.
      * apply NoDup_app. split_and!; [apply NoDup_seq|exact Hsep|exact H1].
    + intros g [(g' & Hg' & -> & _)|Hg]%Hin.
      * specialize (H2 g' Hg'). lia.
      * apply spawned_elem in Hg as ((? & ?) & _). lia.
    + intros g t [(g' & Hg' & -> & ->)|Hg]%Hin Ht; [by apply H3|].
      apply spawned_elem in Hg as ((? & _) & Hpar & _). rewrite Hpar in Ht. injection Ht as <-.
      assert (f_id f < m_next m)%nat by (apply H2, elem_of_cons; by left). lia.
  - destruct (ids_ok_perm _ _ Hp Hok) as (H1 & H2 & H3). cbn [map] in H1.
    apply NoDup_cons in H1 as [H0 H1]. apply NoDup_cons in H1 as [H1' H1].
    assert (Hin : forall g, g ∈ set_prog f (Some (k r, st)) :: rest ->
      exists g', g' ∈ f :: ch :: rest /\ f_id g = f_id g' /\ f_parent g = f_parent g').
    { intros g [->|Hg]%elem_of_cons; [exists f|exists g]; (split; [|done]); set_solver. }
    constructor; cbn [m_fibers m_next].
    + cbn [map set_prog f_id]. apply NoDup_cons. split; [|done]. intros Hi. apply H0, elem_of_cons. by right.
    + intros g (g' & Hg' & -> & _)%Hin. by apply H2.
    + intros g t (g' & Hg' & -> & ->)%Hin. by apply H3.
  - destruct (ids_ok_perm _ _ Hp Hok) as (H1 & H2 & H3).
    assert (Hin : forall g, g ∈ set_prog f (Some (k, st)) :: map (detach (f_id f)) rest ->
      exists g', g' ∈ f :: rest /\ f_id g = f_id g' /\ forall t, f_parent g = Some t -> f_parent g' = Some t).
    { intros g [->|(g' & -> & Hg)%list_elem_of_fmap]%elem_of_cons; [exists f|exists g']; (split; [set_solver|]).
      - done.
      - split; [done|]. intros t. cbn [detach f_parent]. by case_decide. }
    constructor; cbn [m_fibers m_next].
    + cbn [map set_prog f_id]. rewrite map_map. exact H1.
    + intros g (g' & Hg' & -> & _)%Hin. by apply H2.
    + intros g t (g' & Hg' & -> & Ht)%Hin Hpar. apply (H3 g'); [done|by apply Ht].
Qed.
End Fibers.
