(* ===== verification/FiberSafety.v ===== *)
(** * Safety of fibers

    A rely-guarantee logic for the programs of [Fibers]: [fwp] is the weakest
    precondition of one fiber under interference, with a specification for
    every cell and job; [machine_safe] says that what is proved of the bodies
    of cells and jobs one by one holds in every run of the machine. *)

From S2P Require Import Prelude Posix Tasks Fibers.

Section Safety.
Context {Sh C J V : Type} `{!EqDecision C}.
Local Abbreviation fib := (@fib Sh C J V).
Local Abbreviation Machine := (@Machine Sh C J V).
Local Abbreviation Fiber := (@Fiber Sh C J V).
Local Abbreviation Activity := (@Activity Sh C J V).
Context (cell_body : C -> fib V) (job_body : J -> fib V) (pid : Z).
Context (drift : World -> Sh -> World -> Sh -> Prop).
Context (inv : World -> Prop) (rely guar : nat -> World -> World -> Prop) (evolves : World -> World -> Prop).

(** What is known of the value of a cell and of the result of a job, and when
    they may be asked for. *)
Context (cell_pre : C -> Prop) (cell_ok : C -> V -> World -> Prop).
Context (job_pre : J -> Prop) (job_ok : J -> V -> World -> Prop).

Context (rely_refl : forall t w, inv w -> rely t w w)
        (rely_trans : forall t w1 w2 w3, rely t w1 w2 -> rely t w2 w3 -> rely t w1 w3)
        (evolves_trans : forall w1 w2 w3, evolves w1 w2 -> evolves w2 w3 -> evolves w1 w3)
        (rely_evolves : forall t w w', rely t w w' -> evolves w w')
        (guar_evolves : forall t w w', guar t w w' -> evolves w w')
        (compat : forall t u w w', t <> u -> inv w -> guar t w w' -> rely u w w')
        (drift_ok : forall w s w' s', inv w -> drift w s w' s' -> inv w' /\ forall t, rely t w w')
        (cell_stable : forall c v w w', inv w' -> evolves w w' -> cell_ok c v w -> cell_ok c v w')
        (job_stable : forall j v w w', inv w' -> evolves w w' -> job_ok j v w -> job_ok j v w').

Definition who (t : nat) : Actor := mkActor t pid.

(** The fiber [t] runs [p] with the jobs [out] in its join set. *)
Fixpoint fwp {A : Type} (t : nat) (out : list (nat * J)) (p : fib A) (Q : A -> World -> Prop) (w : World)
  : Prop :=
  match p with
  | FRet a => out = [] /\ Q a w
  | FIo o k =>
      forall e, let '(r, w') := exec (who t) e o w in
      inv w' /\ guar t w w' /\ forall w'', rely t w' w'' -> inv w'' -> fwp t out (k r) Q w''
  | FGet k => forall s w', rely t w w' -> inv w' -> fwp t out (k s) Q w'
  | FSelf k => forall w', rely t w w' -> inv w' -> fwp t out (k t) Q w'
  | FPut _ k => forall w', rely t w w' -> inv w' -> fwp t out k Q w'
  | FOnce c k =>
      cell_pre c /\ out = [] /\
      forall v w', evolves w w' -> inv w' -> cell_ok c v w' -> fwp t [] (k v) Q w'
  | FPeek c k =>
      forall o w', rely t w w' -> inv w' -> (forall v, o = Some v -> cell_ok c v w') -> fwp t out (k o) Q w'
  | FFork js k =>
      out = [] /\ Forall job_pre js /\
      forall w', rely t w w' -> inv w' -> fwp t (zip (seq 0 (length js)) js) k Q w'
  | FNext k =>
      forall l1 i j l2, out = l1 ++ (i, j) :: l2 -> forall w', rely t w w' -> inv w' ->
      (forall v, job_ok j v w' -> fwp t (l1 ++ l2) (k (Finished i v)) Q w') /\
      fwp t (l1 ++ l2) (k Panicked) Q w'
  | FDrop k => forall w', rely t w w' -> inv w' -> fwp t [] k Q w'
  | FPanic => True
  end.

(** ** Rules *)

Lemma fwp_weaken {A} t out (p : fib A) (Q R : A -> World -> Prop) w :
  (forall w', inv w' -> evolves w' w') ->
  (forall a w', evolves w w' -> inv w' -> Q a w' -> R a w') -> inv w -> fwp t out p Q w -> fwp t out p R w.
Proof.
  intros Hrefl. revert out w. induction p as [a|o k IH|k IH|k IH|g k IH|c k IH|c k IH|js k IH|k IH|k IH|];
    intros out w HQ Hi Hw; cbn [fwp] in *.
  - destruct Hw as [-> Ha]. split; [done|]. apply HQ; auto.
  - intros e. specialize (Hw e). destruct (exec (who t) e o w) as [r w1]. destruct Hw as (Hi1 & Hg & Hk).
    split_and!; [done|done|]. intros w2 Hr Hi2. apply IH; [|done|by apply Hk].
    intros a w' He. apply HQ. eauto.
  - intros s w1 Hr Hi1. apply IH; [|done|by apply Hw]. intros a w' He. apply HQ. eauto.
  - intros w1 Hr Hi1. apply IH; [|done|by apply Hw]. intros a w' He. apply HQ. eauto.
  - intros w1 Hr Hi1. apply IH; [|done|by apply Hw]. intros a w' He. apply HQ. eauto.
  - destruct Hw as (Hc & -> & Hk). split_and!; [done|done|]. intros v w1 Hr Hi1 Hv.
    apply IH; [|done|by apply Hk]. intros a w' He. apply HQ. eauto.
  - intros o w1 Hr Hi1 Hv. apply IH; [|done|by apply Hw]. intros a w' He. apply HQ. eauto.
  - destruct Hw as (-> & Hj & Hk). split_and!; [done|done|]. intros w1 Hr Hi1.
    apply IH; [|done|by apply Hk]. intros a w' He. apply HQ. eauto.
  - intros l1 i j l2 -> w1 Hr Hi1. destruct (Hw _ _ _ _ eq_refl w1 Hr Hi1) as [Hv Hp].
    split; [intros v Hj|]; (apply IH; [|done|by auto]); intros a w' He; apply HQ; eauto.
  - intros w1 Hr Hi1. apply IH; [|done|by apply Hw]. intros a w' He. apply HQ. eauto.
  - done.
Qed.

Lemma fwp_bind {A B} t out (p : fib A) (f : A -> fib B) Q w :
  inv w -> fwp t out p (fun a w' => inv w' -> fwp t [] (f a) Q w') w -> fwp t out (fbind p f) Q w.
Proof.
  revert out w. induction p as [a|o k IH|k IH|k IH|g k IH|c k IH|c k IH|js k IH|k IH|k IH|];
    intros out w Hi Hw; cbn [fwp fbind] in *.
  - destruct Hw as [-> Ha]. by apply Ha.
  - intros e. specialize (Hw e). destruct (exec (who t) e o w) as [r w1]. destruct Hw as (Hi1 & Hg & Hk).
    split_and!; [done|done|]. intros w2 Hr Hi2. apply IH; [done|by apply Hk].
  - intros s w1 Hr Hi1. apply IH; [done|by apply Hw].
  - intros w1 Hr Hi1. apply IH; [done|by apply Hw].
  - intros w1 Hr Hi1. apply IH; [done|by apply Hw].
  - destruct Hw as (Hc & -> & Hk). split_and!; [done|done|]. intros v w1 Hr Hi1 Hv.
    apply IH; [done|by apply Hk].
  - intros o w1 Hr Hi1 Hv. apply IH; [done|by apply Hw].
  - destruct Hw as (-> & Hj & Hk). split_and!; [done|done|]. intros w1 Hr Hi1. apply IH; [done|by apply Hk].
  - intros l1 i j l2 -> w1 Hr Hi1. destruct (Hw _ _ _ _ eq_refl w1 Hr Hi1) as [Hv Hp].
    split; [intros v Hj|]; (apply IH; [done|by auto]).
  - intros w1 Hr Hi1. apply IH; [done|by apply Hw].
  - done.
Qed.

Lemma fwp_try {E A B} t out (p : fib (result E A)) (f : A -> fib (result E B)) Q w :
  (forall w', inv w' -> evolves w' w') -> inv w ->
  fwp t out p (fun r w' => inv w' -> match r with
                                     | Ok a => fwp t [] (f a) Q w'
                                     | Err e => Q (Err e) w'
                                     end) w ->
  fwp t out (ftry p f) Q w.
Proof.
  intros Hrefl Hi Hw. apply fwp_bind; [done|]. eapply fwp_weaken; [done| |done|exact Hw].
  intros [a|e] w' _ Hi' H _; [by apply H|]. split; [done|by apply H].
Qed.

Lemma fwp_map_err {E F A} t out (g : E -> F) (p : fib (result E A)) Q w :
  (forall w', inv w' -> evolves w' w') -> inv w ->
  fwp t out p (fun r w' => Q (map_err g r) w') w -> fwp t out (fmap_err g p) Q w.
Proof.
  intros Hrefl Hi Hw. apply fwp_bind; [done|]. eapply fwp_weaken; [done| |done|exact Hw].
  intros r w' _ _ H _. by split.
Qed.

(** What is proved of a program of the store holds in a fiber. *)
Lemma fwp_blocking {A} t (m : prog A) Q w :
  Tasks.wp who inv rely guar t m Q w -> fwp t [] (blocking m) Q w.
Proof.
  revert w. induction m as [a|o k IH]; intros w Hw; cbn [blocking fwp Tasks.wp] in *; [done|].
  intros e. specialize (Hw e). destruct (exec (who t) e o w) as [r w1]. destruct Hw as (Hi1 & Hg & Hk).
  split_and!; [done|done|]. intros w2 Hr Hi2. by apply IH, Hk.
Qed.

Lemma fwp_perm {A} t out out' (p : fib A) Q w :
  out ≡ₚ out' -> fwp t out p Q w -> fwp t out' p Q w.
Proof.
  revert out out' w. induction p as [a|o k IH|k IH|k IH|g k IH|c k IH|c k IH|js k IH|k IH|k IH|];
    intros out out' w Hp Hw; cbn [fwp] in *.
  - destruct Hw as [-> Ha]. apply Permutation_nil_l in Hp. by subst out'.
  - intros e. specialize (Hw e). destruct (exec (who t) e o w) as [r w1]. destruct Hw as (Hi1 & Hg & Hk).
    split_and!; [done|done|]. intros w2 Hr Hi2. by eapply IH, Hk.
  - intros s w1 Hr Hi1. by eapply IH, Hw.
  - intros w1 Hr Hi1. by eapply IH, Hw.
  - intros w1 Hr Hi1. by eapply IH, Hw.
  - destruct Hw as (Hc & -> & Hk). apply Permutation_nil_l in Hp; subst out'. by split_and!.
  - intros o w1 Hr Hi1 Hv. by eapply IH, Hw.
  - destruct Hw as (-> & Hj & Hk). apply Permutation_nil_l in Hp; subst out'. by split_and!.
  - intros l1 i j l2 -> w1 Hr Hi1. assert (Hin : (i, j) ∈ out) by (rewrite Hp, elem_of_app, elem_of_cons; tauto).
    apply list_elem_of_split in Hin as (m1 & m2 & ->). destruct (Hw _ _ _ _ eq_refl w1 Hr Hi1) as [Hv Hpan].
    assert (Hp' : m1 ++ m2 ≡ₚ l1 ++ l2) by (by apply (Permutation_app_inv m1 m2 l1 l2 (i, j))).
    split; [intros v Hj; by eapply IH, Hv|by eapply IH].
  - done.
  - done.
Qed.

(** ** Activities *)

Fixpoint runs (t : nat) (out : list (nat * J)) (p : fib V) (st : list (C * (V -> fib V)))
  (Q : V -> World -> Prop) (w : World) : Prop :=
  match st with
  | [] => fwp t out p Q w
  | (c, k) :: st' =>
      fwp t out p (fun v w1 => cell_ok c v w1 /\
        forall w2, rely t w1 w2 -> inv w2 -> cell_ok c v w2 -> runs t [] (k v) st' Q w2) w
  end.

(** A program that may go on in every state it can meet may go on in the
    current one, whatever is on its stack. *)
Lemma runs_map t out p p' st (Q : V -> World -> Prop) w w' :
  (forall R, fwp t out p R w -> fwp t out p' R w') -> runs t out p st Q w -> runs t out p' st Q w'.
Proof. destruct st as [|[c k] st]; cbn [runs]; intros H; apply H. Qed.

Lemma runs_perm t out out' p st Q w : out ≡ₚ out' -> runs t out p st Q w -> runs t out' p st Q w.
Proof. intros Hp. destruct st as [|[c k] st]; cbn [runs]; by apply fwp_perm. Qed.

Definition activity_ok (t : nat) (fs : list Fiber) (f : Fiber) (w : World) (x : option (Activity)) : Prop :=
  forall p st, x = Some (p, st) ->
  exists out, out ≡ₚ children t fs /\ forall w', rely t w w' -> inv w' -> runs t out p st (job_ok (f_job f)) w'.

Record safe (m : Machine) : Prop := {
  safe_ids : ids_ok m;
  safe_inv : inv (m_world m);
  safe_fibers : forall f, f ∈ m_fibers m -> activity_ok (f_id f) (m_fibers m) f (m_world m) (f_prog f);
  safe_cells : forall c v, m_cells m c = Some (Full v) -> cell_ok c v (m_world m);
}.

Lemma activity_rely t fs fs' f w w' x :
  children t fs ≡ₚ children t fs' -> rely t w w' -> activity_ok t fs f w x -> activity_ok t fs' f w' x.
Proof.
  intros Hc Hr Ha p st Hx. destruct (Ha p st Hx) as (out & Ho & Hk). exists out. split; [by rewrite Ho|].
  intros w2 Hr2. apply Hk. by eapply rely_trans.
Qed.

(** One fiber has moved, and nothing changed in the join sets. *)
Lemma safe_update m f rest x w' s' cells' :
  safe m -> m_fibers m ≡ₚ f :: rest -> inv w' ->
  (forall u, u <> f_id f -> rely u (m_world m) w') ->
  activity_ok (f_id f) (m_fibers m) f w' x ->
  (forall c v, cells' c = Some (Full v) -> cell_ok c v w') ->
  safe (mkMachine w' s' cells' (set_prog f x :: rest) (m_next m)).
Proof.
  intros Hs Hp Hi Hrel Ha Hcells. pose proof (safe_ids _ Hs) as Hids.
  destruct (ids_ok_perm _ _ Hp Hids) as (Hn & _ & _). cbn [map] in Hn. apply NoDup_cons in Hn as [Hn _].
  constructor; cbn [m_world m_fibers m_cells m_next]; [|done| |done].
  - by eapply (ids_ok_same m _ f).
  - assert (Hch : forall t, children t (m_fibers m) ≡ₚ children t (set_prog f x :: rest)).
    { intros t. rewrite children_set_prog. by rewrite Hp. }
    intros g [->|Hg]%elem_of_cons; cbn [set_prog f_id f_prog].
    + intros p st Hx. destruct (Ha p st Hx) as (out & Ho & Hk). exists out. split; [by rewrite Ho|done].
    + eapply activity_rely; [apply Hch| |].
      * apply Hrel. intros E. apply Hn. rewrite <- E. apply list_elem_of_fmap. by exists g.
      * apply (safe_fibers _ Hs). rewrite Hp. apply elem_of_cons. by right.
Qed.

(** The same, when the file system does not change. *)
Lemma safe_quiet m f rest x s' cells' :
  safe m -> m_fibers m ≡ₚ f :: rest ->
  activity_ok (f_id f) (m_fibers m) f (m_world m) x ->
  (forall c v, cells' c = Some (Full v) -> cell_ok c v (m_world m)) ->
  safe (mkMachine (m_world m) s' cells' (set_prog f x :: rest) (m_next m)).
Proof. intros Hs Hp Ha Hc. eapply safe_update; try done; [apply Hs|]. intros u _. apply rely_refl, Hs. Qed.

(** What is known of the program of a fiber, now. *)
Lemma fiber_runs m f rest p st :
  safe m -> m_fibers m ≡ₚ f :: rest -> f_prog f = Some (p, st) ->
  exists out, out ≡ₚ children (f_id f) (m_fibers m) /\
    forall w', rely (f_id f) (m_world m) w' -> inv w' -> runs (f_id f) out p st (job_ok (f_job f)) w'.
Proof. intros Hs Hp Hf. apply (safe_fibers _ Hs f); [|done]. rewrite Hp. apply elem_of_cons. by left. Qed.

(** The specifications of the bodies. *)
Context (evolves_refl : forall w, inv w -> evolves w w)
        (cell_spec : forall t c w, cell_pre c -> inv w -> fwp t [] (cell_body c) (cell_ok c) w)
        (job_spec : forall t j w, job_pre j -> inv w -> fwp t [] (job_body j) (job_ok j) w).

(** A step that stays within one program. *)
Lemma safe_local m f rest p p' st s' :
  safe m -> m_fibers m ≡ₚ f :: rest -> f_prog f = Some (p, st) ->
  (forall out R w', rely (f_id f) (m_world m) w' -> inv w' -> fwp (f_id f) out p R (m_world m) ->
     fwp (f_id f) out p' R w') ->
  safe (mkMachine (m_world m) s' (m_cells m) (set_prog f (Some (p', st)) :: rest) (m_next m)).
Proof.
  intros Hs Hp Hf Hgo. destruct (fiber_runs m f rest p st Hs Hp Hf) as (out & Ho & Hk).
  eapply safe_quiet; [done|done| |apply Hs]. intros ? ? [= <- <-]. exists out. split; [done|].
  intros w' Hr Hi. eapply runs_map; [intros R; by apply Hgo|]. apply Hk; [by apply rely_refl, Hs|apply Hs].
Qed.

Lemma once_pre m f rest c k st :
  safe m -> m_fibers m ≡ₚ f :: rest -> f_prog f = Some (FOnce c k, st) ->
  cell_pre c /\ children (f_id f) (m_fibers m) = [] /\
  forall v w', evolves (m_world m) w' -> inv w' -> cell_ok c v w' -> runs (f_id f) [] (k v) st (job_ok (f_job f)) w'.
Proof.
  intros Hs Hp Hf. destruct (fiber_runs m f rest _ _ Hs Hp Hf) as (out & Ho & Hk).
  specialize (Hk (m_world m) (rely_refl _ _ (safe_inv _ Hs)) (safe_inv _ Hs)).
  destruct st as [|[c' k'] st]; cbn [runs fwp] in Hk; destruct Hk as (Hc & -> & Hv);
    apply Permutation_nil_l in Ho; rewrite <- Ho; (split_and!; [done|done|]); intros v w' He Hi Hcv; by apply Hv.
Qed.

Lemma safe_start m f rest c k st :
  safe m -> m_fibers m ≡ₚ f :: rest -> f_prog f = Some (FOnce c k, st) ->
  safe (mkMachine (m_world m) (m_shared m) (set_cell c (Some (Running (f_id f))) (m_cells m))
          (set_prog f (Some (cell_body c, (c, k) :: st)) :: rest) (m_next m)).
Proof.
  intros Hs Hp Hf. destruct (once_pre m f rest c k st Hs Hp Hf) as (Hc & Hch & Hk).
  eapply safe_quiet; [done|done| |].
  - intros ? ? [= <- <-]. exists []. rewrite Hch. split; [done|]. intros w' Hr Hi. cbn [runs].
    eapply fwp_weaken; [done| |done|by apply cell_spec]. intros v w1 He Hi1 Hv. split; [done|].
    intros w2 Hr2 Hi2 Hv2. apply Hk; [|done|done]. eauto.
  - intros d v. unfold set_cell. case_decide; [done|]. apply Hs.
Qed.

Lemma safe_fill m f rest v c k st :
  safe m -> m_fibers m ≡ₚ f :: rest -> f_prog f = Some (FRet v, (c, k) :: st) ->
  safe (mkMachine (m_world m) (m_shared m) (set_cell c (Some (Full v)) (m_cells m))
          (set_prog f (Some (k v, st)) :: rest) (m_next m)).
Proof.
  intros Hs Hp Hf. destruct (fiber_runs m f rest _ _ Hs Hp Hf) as (out & Ho & Hk).
  specialize (Hk (m_world m) (rely_refl _ _ (safe_inv _ Hs)) (safe_inv _ Hs)). cbn [runs fwp] in Hk.
  destruct Hk as (-> & Hv & Hk). eapply safe_quiet; [done|done| |].
  - intros ? ? [= <- <-]. exists []. split; [done|]. intros w' Hr Hi. apply Hk; [done|done|].
    eapply cell_stable; [done| |exact Hv]. eauto.
  - intros d v'. unfold set_cell. case_decide as E; [|apply Hs]. subst d. by intros [= <-].
Qed.

Lemma safe_io m f rest o k st e r w' :
  safe m -> m_fibers m ≡ₚ f :: rest -> f_prog f = Some (FIo o k, st) ->
  exec (who (f_id f)) e o (m_world m) = (r, w') ->
  safe (mkMachine w' (m_shared m) (m_cells m) (set_prog f (Some (k r, st)) :: rest) (m_next m)).
Proof.
  intros Hs Hp Hf He. destruct (fiber_runs m f rest _ _ Hs Hp Hf) as (out & Ho & Hk).
  specialize (Hk (m_world m) (rely_refl _ _ (safe_inv _ Hs)) (safe_inv _ Hs)).
  assert (Hstep : inv w' /\ guar (f_id f) (m_world m) w' /\
    forall w'', rely (f_id f) w' w'' -> inv w'' -> runs (f_id f) out (k r) st (job_ok (f_job f)) w'').
  { destruct st as [|[c' k'] st]; cbn [runs fwp] in Hk; specialize (Hk e); rewrite He in Hk; exact Hk. }
  destruct Hstep as (Hi & Hg & Hk'). eapply safe_update; [done|done|done| | |].
  - intros u Hu. eapply (compat (f_id f)); [done|apply Hs|done].
  - intros ? ? [= <- <-]. by exists out.
  - intros c v Hc. eapply cell_stable; [done|by eapply guar_evolves|by apply Hs].
Qed.

Lemma children_fresh (m : Machine) t : ids_ok m -> (m_next m <= t)%nat -> children t (m_fibers m) = [].
Proof. intros Hok Ht. apply children_none. intros f Hf E. pose proof (ids_parent _ Hok f t Hf E). pose proof (ids_fresh _ Hok f Hf). lia. Qed.

Lemma children_spawned_other t u first index (js : list J) : t <> u ->
  children u (spawned job_body t first index js) = [].
Proof. intros Hne. apply children_none. intros f Hf. apply spawned_elem in Hf as (_ & -> & _). congruence. Qed.

Lemma safe_fork m f rest js k st :
  safe m -> m_fibers m ≡ₚ f :: rest -> f_prog f = Some (FFork js k, st) ->
  safe (mkMachine (m_world m) (m_shared m) (m_cells m)
          (set_prog f (Some (k, st)) :: spawned job_body (f_id f) (m_next m) 0 js ++ rest) (m_next m + length js)).
Proof.
  intros Hs Hp Hf. pose proof (safe_ids _ Hs) as Hids.
  destruct (fiber_runs m f rest _ _ Hs Hp Hf) as (out & Ho & Hk).
  specialize (Hk (m_world m) (rely_refl _ _ (safe_inv _ Hs)) (safe_inv _ Hs)).
  assert (Hgo : out = [] /\ Forall job_pre js /\ forall w', rely (f_id f) (m_world m) w' -> inv w' ->
    runs (f_id f) (zip (seq 0 (length js)) js) k st (job_ok (f_job f)) w').
  { destruct st as [|[c' k'] st]; cbn [runs fwp] in Hk; exact Hk. }
  destruct Hgo as (-> & Hpre & Hk'). apply Permutation_nil_l in Ho.
  assert (Hch : forall t, children t (set_prog f (Some (k, st)) :: spawned job_body (f_id f) (m_next m) 0 js ++ rest)
    ≡ₚ children t (spawned job_body (f_id f) (m_next m) 0 js) ++ children t (m_fibers m)).
  { intros t. rewrite Hp, Permutation_middle, children_app. by rewrite (children_set_prog t f _ rest). }
  constructor; cbn [m_world m_fibers m_cells m_next].
  - eapply ids_ok_step; [by apply (mv_fork cell_body job_body pid m f rest js k st)|done].
  - apply Hs.
  - intros g Hg. apply elem_of_cons in Hg as [->|[Hg|Hg]%elem_of_app]; cbn [set_prog f_id f_prog f_job].
    + intros ? ? [= <- <-]. exists (zip (seq 0 (length js)) js). split; [|exact Hk'].
      rewrite Hch, <- Ho, app_nil_r. by rewrite children_spawned.
    + apply spawned_elem in Hg as (Hid & _ & Hj & ->). intros ? ? [= <- <-]. exists []. split.
      * rewrite Hch, (children_fresh m) by (done || lia). rewrite app_nil_r, children_spawned_other; [done|].
        assert (f_id f < m_next m)%nat by (apply (ids_fresh _ Hids); rewrite Hp; apply elem_of_cons; by left). lia.
      * intros w' Hr Hi. cbn [runs]. apply job_spec; [|done]. rewrite Forall_forall in Hpre. by apply Hpre.
    + destruct (ids_ok_perm _ _ Hp Hids) as (Hn & _ & _). cbn [map] in Hn. apply NoDup_cons in Hn as [Hn _].
      eapply activity_rely; [|apply rely_refl, Hs|apply (safe_fibers _ Hs)].
      * rewrite Hch, children_spawned_other; [done|]. intros E. apply Hn. rewrite E. apply list_elem_of_fmap.
        by exists g.
      * rewrite Hp. apply elem_of_cons. by right.
  - apply Hs.
Qed.

Lemma safe_next m f ch rest k r st :
  safe m -> m_fibers m ≡ₚ f :: ch :: rest -> f_prog f = Some (FNext k, st) -> f_parent ch = Some (f_id f) ->
  (r = Panicked /\ f_prog ch = None) \/
  (exists v, r = Finished (f_index ch) v /\ f_prog ch = Some (FRet v, [])) ->
  safe (mkMachine (m_world m) (m_shared m) (m_cells m) (set_prog f (Some (k r, st)) :: rest) (m_next m)).
Proof.
  intros Hs Hp Hf Hpar Hr. pose proof (safe_ids _ Hs) as Hids.
  destruct (fiber_runs m f _ _ _ Hs Hp Hf) as (out & Ho & Hk).
  assert (Hchf : children (f_id f) (m_fibers m) ≡ₚ (f_index ch, f_job ch) :: children (f_id f) (f :: rest)).
  { rewrite Hp, Permutation_swap.
    cbn [children omap list_omap]. by rewrite decide_True. }
  rewrite Hchf in Ho. assert (Hin : (f_index ch, f_job ch) ∈ out) by (rewrite Ho, elem_of_cons; tauto).
  apply list_elem_of_split in Hin as (l1 & l2 & ->).
  rewrite <- Permutation_middle in Ho. apply (Permutation_cons_inv (a := (f_index ch, f_job ch))) in Ho.
  assert (Hgo : forall w', rely (f_id f) (m_world m) w' -> inv w' ->
    runs (f_id f) (l1 ++ l2) (k r) st (job_ok (f_job f)) w').
  { intros w' Hrel Hi. specialize (Hk w' Hrel Hi).
    enough (Hr' : forall R, fwp (f_id f) (l1 ++ (f_index ch, f_job ch) :: l2) (FNext k) R w' ->
                            fwp (f_id f) (l1 ++ l2) (k r) R w')
      by (destruct st as [|[c' k'] st]; cbn [runs] in *; by apply Hr').
    intros R Hn. destruct (Hn _ _ _ _ eq_refl w' (rely_refl _ _ Hi) Hi) as [Hv Hpan].
    destruct Hr as [[-> _]|(v & -> & Hret)]; [done|]. apply Hv.
    eapply job_stable; [done|by eapply rely_evolves|].
    destruct (safe_fibers _ Hs ch) with (2 := Hret) as (out' & _ & Hch); [rewrite Hp, !elem_of_cons; tauto|].
    apply (Hch (m_world m)); [by apply rely_refl, Hs|apply Hs]. }
  assert (Hother : forall t, t <> f_id f -> children t (m_fibers m) ≡ₚ children t (f :: rest)).
  { intros t Ht. rewrite Hp, Permutation_swap. cbn [children omap list_omap]. by rewrite (decide_False (P := f_parent ch = Some t)) by congruence. }
  destruct (ids_ok_perm _ _ Hp Hids) as (Hn & _ & _). cbn [map] in Hn. apply NoDup_cons in Hn as [Hn _].
  constructor; cbn [m_world m_fibers m_cells m_next].
  - eapply ids_ok_step; [by apply (mv_next cell_body job_body pid m f ch rest k r st)|done].
  - apply Hs.
  - intros g [->|Hg]%elem_of_cons; cbn [set_prog f_id f_prog f_job].
    + intros ? ? [= <- <-]. by exists (l1 ++ l2).
    + eapply activity_rely; [|apply rely_refl, Hs|apply (safe_fibers _ Hs)].
      * rewrite children_set_prog. apply Hother. intros E. apply Hn, elem_of_cons. right.
        rewrite <- E. apply list_elem_of_fmap. by exists g.
      * rewrite Hp, !elem_of_cons. tauto.
  - apply Hs.
Qed.

Lemma safe_drop m f rest k st :
  safe m -> m_fibers m ≡ₚ f :: rest -> f_prog f = Some (FDrop k, st) ->
  safe (mkMachine (m_world m) (m_shared m) (m_cells m)
          (set_prog f (Some (k, st)) :: map (detach (f_id f)) rest) (m_next m)).
Proof.
  intros Hs Hp Hf. pose proof (safe_ids _ Hs) as Hids.
  destruct (fiber_runs m f rest _ _ Hs Hp Hf) as (out & Ho & Hk).
  specialize (Hk (m_world m) (rely_refl _ _ (safe_inv _ Hs)) (safe_inv _ Hs)).
  assert (Hgo : forall w', rely (f_id f) (m_world m) w' -> inv w' -> runs (f_id f) [] k st (job_ok (f_job f)) w').
  { destruct st as [|[c' k'] st]; cbn [runs fwp] in Hk; exact Hk. }
  destruct (ids_ok_perm _ _ Hp Hids) as (Hn & _ & _). cbn [map] in Hn. apply NoDup_cons in Hn as [Hn _].
  constructor; cbn [m_world m_fibers m_cells m_next].
  - eapply ids_ok_step; [by apply (mv_drop cell_body job_body pid m f rest k st)|done].
  - apply Hs.
  - intros g [->|(g' & -> & Hg)%list_elem_of_fmap]%elem_of_cons; cbn [set_prog detach f_id f_prog f_job].
    + intros ? ? [= <- <-]. exists []. split; [|done]. rewrite children_set_prog.
      by rewrite (children_detach_self m f rest Hids Hp).
    + eapply activity_rely; [|apply rely_refl, Hs|apply (safe_fibers _ Hs g')].
      * rewrite Hp, children_set_prog. by rewrite children_detach_rest by (intros E; apply Hn; rewrite E; apply list_elem_of_fmap; by exists g').
      * rewrite Hp, elem_of_cons. tauto.
  - apply Hs.
Qed.

(** A panic. *)
Lemma safe_crash m f rest :
  safe m -> m_fibers m ≡ₚ f :: rest ->
  safe (mkMachine (m_world m) (m_shared m) (release (f_id f) (m_cells m)) (set_prog f None :: rest) (m_next m)).
Proof.
  intros Hs Hp. eapply safe_quiet; [done|done|done|]. intros c v. unfold release.
  destruct (m_cells m c) as [[o|v']|] eqn:Ec; [by case_decide| |done]. intros [= <-]. by apply Hs.
Qed.

Lemma safe_moves m m' : safe m -> moves cell_body job_body pid m m' -> safe m'.
Proof.
  intros Hs Hm. destruct Hm as
    [f rest v c k st Hp Hf|f rest o k st e r w' Hp Hf He|f rest k st Hp Hf|f rest k st Hp Hf|f rest g k st Hp Hf
    |f rest c k st Hp Hf Hc|f rest c k v st Hp Hf Hc|f rest c k st Hp Hf|f rest js k st Hp Hf
    |f ch rest k r st Hp Hf Hpar Hr|f rest k st Hp Hf|f rest a Hp Hf].
  - by apply safe_fill.
  - by eapply safe_io.
  - eapply safe_local; [done|done|done|]. intros out R w' Hr Hi Hw. by apply Hw.
  - eapply safe_local; [done|done|done|]. intros out R w' Hr Hi Hw. by apply Hw.
  - eapply safe_local; [done|done|done|]. intros out R w' Hr Hi Hw. by apply Hw.
  - by apply safe_start.
  - eapply safe_local; [done|done|done|]. intros out R w' Hr Hi (_ & -> & Hw). apply Hw; [by eapply rely_evolves|done|].
    eapply cell_stable; [done|by eapply rely_evolves|by apply Hs].
  - eapply safe_local; [done|done|done|]. intros out R w' Hr Hi Hw. apply Hw; [done|done|].
    intros v Hv. unfold full_value in Hv. destruct (m_cells m c) as [[o|v']|] eqn:Ec; try done.
    injection Hv as ->. eapply cell_stable; [done|by eapply rely_evolves|by apply Hs].
  - by apply safe_fork.
  - by eapply safe_next.
  - by apply safe_drop.
  - by eapply safe_crash.
Qed.

Lemma safe_drift m m' : safe m -> drift_step drift m m' -> safe m'.
Proof.
  intros Hs (Hd & Hc & Hf & Hn). destruct (drift_ok _ _ _ _ (safe_inv _ Hs) Hd) as [Hi Hr].
  destruct (safe_ids _ Hs) as [H1 H2 H3]. constructor.
  - constructor; rewrite ?Hf, ?Hn; done.
  - done.
  - rewrite Hf. intros f Hin. eapply activity_rely; [done|apply Hr|]. by apply Hs.
  - intros c v. rewrite Hc. intros Hv. eapply cell_stable; [done|by eapply (rely_evolves 0%nat)|]. by apply Hs.
Qed.

(** The runs of the machine. *)
Definition machine_step (m m' : Machine) : Prop := step cell_body job_body pid m m' \/ drift_step drift m m'.

(** A machine with one fiber that runs the job [j]. *)
Definition launch (j : J) (w : World) (s : Sh) : Machine :=
  mkMachine w s (fun _ => None) [mkFiber 0 None 0 j (Some (job_body j, []))] 1.

Lemma launch_safe j w s : inv w -> job_pre j -> safe (launch j w s).
Proof.
  intros Hi Hj. constructor; cbn [launch m_world m_fibers m_cells m_next]; [|done| |done].
  - constructor; cbn [launch m_fibers m_next].
    + apply NoDup_singleton.
    + intros f ->%list_elem_of_singleton. cbn. lia.
    + by intros f t ->%list_elem_of_singleton.
  - intros f ->%list_elem_of_singleton ? ? [= <- <-]. exists []. split; [done|]. intros w' _ Hi'. by apply job_spec.
Qed.

(** Every fiber that has finished, in any run, returned a result its job
    promises, in a state that satisfies the invariant. *)
Lemma machine_safe j w s m :
  inv w -> job_pre j -> rtc machine_step (launch j w s) m ->
  inv (m_world m) /\
  forall f v, f ∈ m_fibers m -> f_prog f = Some (FRet v, []) -> job_ok (f_job f) v (m_world m).
Proof.
  intros Hi Hj Hr. assert (Hs : safe m).
  { revert Hr. generalize (launch_safe j w s Hi Hj). generalize (launch j w s). intros m0 H0 Hr.
    induction Hr as [|m1 m2 m3 [Hstep|Hd] Hr IH]; [done| |].
    - apply IH. eapply safe_moves; [done|by apply step_moves].
    - apply IH. by eapply safe_drift. }
  split; [apply Hs|]. intros f v Hf Hret. destruct (safe_fibers _ Hs f Hf) with (1 := Hret) as (out & _ & Hk).
  apply (Hk (m_world m)); [by apply rely_refl, Hs|apply Hs].
Qed.
End Safety.
