(* ===== verification/FiberLiveness.v ===== *)
(** * Liveness of fibers

    Programs whose cells and jobs are ranked, every body asking only for cells
    and jobs of smaller rank, neither run for ever nor get stuck: whatever the
    schedule, the failures, the panics and the interference, the machine comes
    to the end of its first fiber ([machine_inevitable]). *)

From S2P Require Import Prelude Posix Tasks Fibers FiberSafety.

(** ** Multisets of well-founded elements *)

Section Multiset.
Context {A : Type} (R : A -> A -> Prop).

(** One element is replaced by finitely many smaller ones. *)
Definition replaces (l' l : list A) : Prop :=
  exists x ys rest, l ≡ₚ x :: rest /\ l' ≡ₚ ys ++ rest /\ forall y, y ∈ ys -> R y x.

#[local] Instance replaces_acc_proper : Proper (Permutation ==> impl) (Acc replaces).
Proof.
  intros l l' Hp Ha. constructor. intros k (x & ys & rest & Hk & Hk' & Hy). apply Ha.
  exists x, ys, rest. split; [by rewrite Hp|done].
Qed.

Lemma acc_app (x : A) :
  (forall y, R y x -> forall l, Acc replaces l -> Acc replaces (y :: l)) ->
  forall l, Acc replaces l -> Acc replaces (x :: l).
Proof.
  intros Hx l Hl. induction Hl as [l Hl IH]. constructor. intros k (z & ys & rest & Hk & Hk' & Hy).
  assert (Hz : z ∈ x :: l) by (rewrite Hk, elem_of_cons; tauto). apply elem_of_cons in Hz as [->|Hz].
  - apply Permutation_cons_inv in Hk. rewrite Hk'.
    assert (Hrest : Acc replaces rest) by (rewrite <- Hk; by constructor). clear Hk Hk'.
    induction ys as [|y ys IHy]; cbn [app]; [done|]. apply Hx; [apply Hy, elem_of_cons; by left|].
    apply IHy. intros y' Hy'. apply Hy, elem_of_cons. by right.
  - apply list_elem_of_split in Hz as (l1 & l2 & ->).
    assert (Hr : rest ≡ₚ x :: l1 ++ l2).
    { rewrite <- Permutation_middle, Permutation_swap in Hk. by apply Permutation_cons_inv in Hk. }
    rewrite Hk', Hr, <- Permutation_middle. apply IH. exists z, ys, (l1 ++ l2).
    split_and!; [by rewrite Permutation_middle|done|done].
Qed.

Lemma acc_multiset l : Forall (Acc R) l -> Acc replaces l.
Proof.
  induction 1 as [|x l Hx Hl IH].
  - constructor. intros k (x & ys & rest & Hk & _). by apply Permutation_nil_cons in Hk.
  - clear Hl. revert l IH. induction Hx as [x Hx IHx]. by apply acc_app.
Qed.
End Multiset.

Section Liveness.
Context {Sh C J V : Type} `{!EqDecision C}.
Local Abbreviation fib := (@fib Sh C J V).
Local Abbreviation Machine := (@Machine Sh C J V).
Local Abbreviation Fiber := (@Fiber Sh C J V).
Local Abbreviation Activity := (@Activity Sh C J V).
Context (cell_body : C -> fib V) (job_body : J -> fib V) (pid : Z).
Context (drift : World -> Sh -> World -> Sh -> Prop).

(** The cells and the jobs that exist, and their ranks. *)
Context (cell_in : C -> Prop) (job_in : J -> Prop) (rank : C -> nat) (jrank : J -> nat).

(** The program asks for cells and jobs of rank below [n] only, and joins
    exactly the [out] fibers of its join set and those it forks, or drops
    them. *)
Fixpoint below {A : Type} (n out : nat) (p : fib A) : Prop :=
  match p with
  | FRet _ => out = 0%nat
  | FIo _ k => forall r, below n out (k r)
  | FGet k => forall s, below n out (k s)
  | FSelf k => forall t, below n out (k t)
  | FPut _ k => below n out k
  | FOnce c k => cell_in c /\ (rank c < n)%nat /\ out = 0%nat /\ forall v, below n 0 (k v)
  | FPeek _ k => forall o, below n out (k o)
  | FFork js k => out = 0%nat /\ Forall (fun j => job_in j /\ (jrank j < n)%nat) js /\ below n (length js) k
  | FNext k => exists out', out = S out' /\ forall r, below n out' (k r)
  | FDrop k => below n 0 k
  | FPanic => True
  end.

Lemma below_mono {A} n n' out (p : fib A) : (n <= n')%nat -> below n out p -> below n' out p.
Proof.
  intros Hn. revert out. induction p as [a|o k IH|k IH|k IH|g k IH|c k IH|c k IH|js k IH|k IH|k IH|]; intros out; cbn [below].
  - done.
  - eauto.
  - eauto.
  - eauto.
  - eauto.
  - intros (? & ? & ? & ?). split_and!; eauto; lia.
  - eauto.
  - intros (? & Hj & ?). split_and!; eauto. eapply Forall_impl; [exact Hj|]. intros j [? ?]. split; [done|lia].
  - intros (out' & -> & Hk). exists out'. eauto.
  - eauto.
  - done.
Qed.

Lemma below_bind {A B} n out (p : fib A) (f : A -> fib B) :
  below n out p -> (forall a, below n 0 (f a)) -> below n out (fbind p f).
Proof.
  intros Hp Hf. revert out Hp. induction p as [a|o k IH|k IH|k IH|g k IH|c k IH|c k IH|js k IH|k IH|k IH|];
    intros out Hp; cbn [below fbind] in *.
  - by subst.
  - intros r. by apply IH.
  - intros s. by apply IH.
  - intros t. by apply IH.
  - by apply IH.
  - destruct Hp as (? & ? & ? & Hk). split_and!; try done. intros v. by apply IH.
  - intros o. by apply IH.
  - destruct Hp as (? & ? & Hk). split_and!; try done. by apply IH.
  - destruct Hp as (out' & -> & Hk). exists out'. split; [done|]. intros r. by apply IH.
  - by apply IH.
  - done.
Qed.

Lemma below_blocking {A} n (m : prog A) : below n 0 (blocking m).
Proof. induction m as [a|o k IH]; cbn [blocking below]; auto. Qed.

Lemma below_try {E A B} n out (p : fib (result E A)) (f : A -> fib (result E B)) :
  below n out p -> (forall a, below n 0 (f a)) -> below n out (ftry p f).
Proof. intros Hp Hf. apply below_bind; [done|]. intros [a|e]; [apply Hf|done]. Qed.

Lemma below_map_err {E F A} n out (g : E -> F) (p : fib (result E A)) :
  below n out p -> below n out (fmap_err g p).
Proof. intros Hp. by apply below_bind. Qed.

Context (cell_below : forall c, cell_in c -> below (rank c) 0 (cell_body c))
        (job_below : forall j, job_in j -> below (jrank j) 0 (job_body j)).

(** ** Termination *)

(** What a fiber, or a fiber it spawns, may be doing next. *)
Definition smaller (y x : option Activity) : Prop :=
  match x with
  | None => False
  | Some (p, st) =>
      y = None \/
      match p with
      | FRet v => match st with [] => False | (c, k) :: st' => y = Some (k v, st') end
      | FIo o k => exists r, y = Some (k r, st)
      | FGet k => exists s, y = Some (k s, st)
      | FSelf k => exists t, y = Some (k t, st)
      | FPut _ k => y = Some (k, st)
      | FOnce c k => y = Some (cell_body c, (c, k) :: st) \/ exists v, y = Some (k v, st)
      | FPeek _ k => exists o, y = Some (k o, st)
      | FFork js k => y = Some (k, st) \/ exists j, j ∈ js /\ y = Some (job_body j, [])
      | FNext k => exists r, y = Some (k r, st)
      | FDrop k => y = Some (k, st)
      | FPanic => False
      end
  end.

Lemma acc_none : Acc smaller None.
Proof. by constructor. Qed.

Definition resumes (st : list (C * (V -> fib V))) : Prop :=
  match st with [] => True | (c, k) :: st' => forall v, Acc smaller (Some (k v, st')) end.

Lemma acc_activity n out p st : below n out p -> resumes st -> Acc smaller (Some (p, st)).
Proof.
  revert out p st. induction (lt_wf n) as [n _ IHn]. intros out p.
  revert out. induction p as [a|o k IH|k IH|k IH|g k IH|c k IH|c k IH|js k IH|k IH|k IH|]; intros out st Hb Hst; cbn [below] in Hb;
    constructor; intros y [->|Hy]; try exact acc_none.
  - destruct st as [|[c k] st]; [done|]. subst y. apply Hst.
  - destruct Hy as [r ->]. eapply IH; [apply Hb|done].
  - destruct Hy as [s ->]. eapply IH; [apply Hb|done].
  - destruct Hy as [t ->]. eapply IH; [apply Hb|done].
  - subst y. eapply IH; [apply Hb|done].
  - destruct Hb as (Hin & Hr & _ & Hk). destruct Hy as [->|[v ->]]; [|by eapply IH].
    eapply (IHn (rank c)); [done|by apply cell_below|]. cbn [resumes]. intros v. by eapply IH.
  - destruct Hy as [o ->]. eapply IH; [apply Hb|done].
  - destruct Hb as (_ & Hj & Hk). destruct Hy as [->|(j & Hin & ->)]; [by eapply IH|].
    rewrite Forall_forall in Hj. destruct (Hj _ Hin) as [? ?].
    eapply (IHn (jrank j)); [done|by apply job_below|done].
  - destruct Hb as (out' & -> & Hk). destruct Hy as [r ->]. eapply IH; [apply Hk|done].
  - subst y. eapply IH; [apply Hb|done].
  - done.
Qed.

(** The activities of the fibers; every step replaces one by smaller ones, and
    a join drops one more. *)
Definition activities (m : Machine) : list (option Activity) := map f_prog (m_fibers m).

Lemma moves_replaces m m' :
  moves cell_body job_body pid m m' -> tc (replaces smaller) (activities m') (activities m).
Proof.
  assert (Hone : forall f rest x, m_fibers m ≡ₚ f :: rest -> smaller x (f_prog f) ->
    forall w s cs n, tc (replaces smaller) (activities (mkMachine w s cs (set_prog f x :: rest) n)) (activities m)).
  { intros f rest x Hp Hx w s cs n. apply tc_once. exists (f_prog f), [x], (map f_prog rest).
    split_and!; [unfold activities; by rewrite Hp|done|]. by intros y ->%list_elem_of_singleton. }
  intros Hm. destruct Hm as
    [f rest v c k st Hp Hf|f rest o k st e r w' Hp Hf He|f rest k st Hp Hf|f rest k st Hp Hf|f rest g k st Hp Hf
    |f rest c k st Hp Hf Hc|f rest c k v st Hp Hf Hc|f rest c k st Hp Hf|f rest js k st Hp Hf
    |f ch rest k r st Hp Hf Hpar Hr|f rest k st Hp Hf|f rest [p st] Hp Hf]; try (apply Hone; [done|]; rewrite Hf; cbn [smaller]; by eauto).
  - apply tc_once. exists (f_prog f), (Some (k, st) :: map f_prog (spawned job_body (f_id f) (m_next m) 0 js)), (map f_prog rest).
    split_and!.
    + unfold activities. by rewrite Hp.
    + unfold activities. cbn [m_fibers map set_prog f_prog app]. by rewrite map_app.
    + rewrite Hf. intros y [->|(g & -> & Hg)%list_elem_of_fmap]%elem_of_cons; cbn [smaller]; [by eauto|].
      apply spawned_elem in Hg as (_ & _ & Hj & ->). eauto.
  - eapply (tc_l _ _ (Some (k r, st) :: f_prog ch :: map f_prog rest)).
    + exists (f_prog ch), [], (Some (k r, st) :: map f_prog rest). split_and!.
      * apply Permutation_swap.
      * done.
      * by intros y ?%elem_of_nil.
    + apply tc_once. exists (f_prog f), [Some (k r, st)], (f_prog ch :: map f_prog rest). split_and!.
      * unfold activities. by rewrite Hp.
      * done.
      * intros y ->%list_elem_of_singleton. rewrite Hf. cbn [smaller]. eauto.
  - apply tc_once. exists (f_prog f), [Some (k, st)], (map f_prog rest). split_and!.
    + unfold activities. by rewrite Hp.
    + unfold activities. cbn [m_fibers map set_prog f_prog app]. by rewrite map_map.
    + intros y ->%list_elem_of_singleton. rewrite Hf. cbn [smaller]. eauto.
Qed.

(** ** Progress *)

(** The rank below which a fiber asks now. *)
Definition top (n : nat) (st : list (C * (V -> fib V))) : nat :=
  match st with [] => n | (c, _) :: _ => rank c end.

(** Inner cells have smaller ranks than outer ones. *)
Fixpoint ordered (n : nat) (st : list (C * (V -> fib V))) : Prop :=
  match st with [] => True | (c, _) :: st' => (rank c < top n st')%nat /\ ordered n st' end.

Fixpoint resumable (n : nat) (st : list (C * (V -> fib V))) : Prop :=
  match st with
  | [] => True
  | (_, k) :: st' => (forall v, below (top n st') 0 (k v)) /\ resumable n st'
  end.

Lemma ordered_top n st : ordered n st -> (top n st <= n)%nat.
Proof.
  induction st as [|[c k] st IH]; cbn [ordered top]; [done|]. intros [Hc Hs]. specialize (IH Hs). lia.
Qed.

Lemma ordered_below n st c : ordered n st -> c ∈ map fst st -> (top n st <= rank c)%nat.
Proof.
  induction st as [|[c' k] st IH]; cbn [ordered top map fst]; [by intros _ ?%elem_of_nil|].
  intros [Hc Hs] [->|Hin]%elem_of_cons; [done|]. specialize (IH Hs Hin). lia.
Qed.

Record layered (fs : list Fiber) (f : Fiber) (p : fib V) (st : list (C * (V -> fib V))) : Prop := {
  la_below : below (top (jrank (f_job f)) st) (length (children (f_id f) fs)) p;
  la_ordered : ordered (jrank (f_job f)) st;
  la_resumable : resumable (jrank (f_job f)) st;
  la_children : forall ch, ch ∈ fs -> f_parent ch = Some (f_id f) ->
    (jrank (f_job ch) < top (jrank (f_job f)) st)%nat;
}.

Record live (m : Machine) : Prop := {
  lv_ids : ids_ok m;
  lv_fibers : forall f p st, f ∈ m_fibers m -> f_prog f = Some (p, st) -> layered (m_fibers m) f p st;
  lv_cells : forall c t, m_cells m c = Some (Running t) -> exists f p st,
    f ∈ m_fibers m /\ f_id f = t /\ f_prog f = Some (p, st) /\ c ∈ map fst st;
}.

Definition finished (f : Fiber) : Prop := f_prog f = None \/ exists v, f_prog f = Some (FRet v, []).

Lemma children_elem t (fs : list Fiber) : children t fs <> [] -> exists ch, ch ∈ fs /\ f_parent ch = Some t.
Proof.
  induction fs as [|f fs IH]; intros Hne; [done|]. cbn [children omap list_omap] in Hne.
  destruct (decide (f_parent f = Some t)) as [E|E]; [exists f; split; [apply elem_of_cons; by left|done]|].
  destruct (IH Hne) as (ch & Hch & Hp). exists ch. split; [apply elem_of_cons; by right|done].
Qed.

(** A fiber that has not finished can move, or waits for one that can. *)
Lemma can_move m f p st :
  live m -> f ∈ m_fibers m -> f_prog f = Some (p, st) -> ~ finished f ->
  exists pick t m', act cell_body job_body pid calm pick t m = Some m'.
Proof.
  intros Hl. remember (top (jrank (f_job f)) st) as n eqn:En. revert f p st En.
  induction (lt_wf n) as [n _ IHn]. intros f p st En Hf Hprog Hnot.
  pose proof (lv_fibers _ Hl f p st Hf Hprog) as [Hb Ho Hr Hc].
  pose proof (ids_nodup _ (lv_ids _ Hl)) as Hnd.
  destruct (take_fiber_in (m_fibers m) f Hf Hnd) as [rest Htake].
  assert (Hact : forall pick, (exists m', act cell_body job_body pid calm pick (f_id f) m = Some m') ->
    exists pick t m', act cell_body job_body pid calm pick t m = Some m') by (intros pick [m' H]; eauto).
  destruct p as [v|o k|k|k|g k|c k|c k|js k|k|k|]; cbn [below] in Hb.
  - apply (Hact 0%nat). unfold act. rewrite Htake, Hprog. destruct st as [|[c k] st]; [|by eexists].
    destruct Hnot. right. by exists v.
  - apply (Hact 0%nat). unfold act. rewrite Htake, Hprog.
    destruct (exec (mkActor (f_id f) pid) calm o (m_world m)) as [r w']. by eexists.
  - apply (Hact 0%nat). unfold act. rewrite Htake, Hprog. by eexists.
  - apply (Hact 0%nat). unfold act. rewrite Htake, Hprog. by eexists.
  - apply (Hact 0%nat). unfold act. rewrite Htake, Hprog. by eexists.
  - destruct Hb as (_ & Hrk & _). destruct (m_cells m c) as [[t|v]|] eqn:Ec.
    2,3: apply (Hact 0%nat); unfold act; rewrite Htake, Hprog, Ec; by eexists.
    destruct (lv_cells _ Hl c t Ec) as (g & p' & st' & Hg & _ & Hpg & Hin).
    pose proof (lv_fibers _ Hl g p' st' Hg Hpg) as [_ Ho' _ _].
    pose proof (ordered_below _ _ _ Ho' Hin). apply (IHn (top (jrank (f_job g)) st')) with (f := g) (p := p') (st := st'); try done; [lia|].
    intros [Hn|[v Hn]]; rewrite Hpg in Hn; [done|]. injection Hn as -> ->. by apply elem_of_nil in Hin.
  - apply (Hact 0%nat). unfold act. rewrite Htake, Hprog. by eexists.
  - apply (Hact 0%nat). unfold act. rewrite Htake, Hprog. by eexists.
  - destruct Hb as (out' & Hlen & _).
    destruct (children_elem (f_id f) (m_fibers m)) as (ch & Hch & Hpar); [intros E; by rewrite E in Hlen|].
    specialize (Hc ch Hch Hpar). pose proof (ordered_top _ _ Ho).
    assert (Hdone : finished ch \/ exists p' st', f_prog ch = Some (p', st') /\ ~ finished ch).
    { unfold finished. destruct (f_prog ch) as [[p' st']|] eqn:E; [|by left; left].
      destruct p' as [v|o k'|k'|k'|g k'|c k'|c k'|js k'|k'|k'|].
      1: destruct st'; [left; right; by exists v|].
      all: right; eexists _, _; split; [done|]; by intros [?|[? ?]]. }
    destruct Hdone as [Hfin|(p' & st' & Hp' & Hn')].
    + apply (Hact (f_id ch)). unfold act. rewrite Htake, Hprog.
      apply take_fiber_spec in Htake as [Hperm _].
      destruct (take_fiber_in rest ch) as [rest' ->].
      * rewrite Hperm in Hch. apply elem_of_cons in Hch as [->|Hch]; [lia|done].
      * rewrite Hperm in Hnd. cbn [map] in Hnd. by apply NoDup_cons in Hnd as [_ ?].
      * rewrite decide_True by done. destruct Hfin as [->|[v ->]]; by eexists.
    + pose proof (lv_fibers _ Hl ch p' st' Hch Hp') as [_ Ho' _ _]. apply ordered_top in Ho'.
      apply (IHn (top (jrank (f_job ch)) st')) with (f := ch) (p := p') (st := st'); try done. lia.
  - apply (Hact 0%nat). unfold act. rewrite Htake, Hprog. by eexists.
  - apply (Hact 0%nat). unfold act. rewrite Htake, Hprog. by eexists.
Qed.

(** ** The invariant of progress *)

Lemma layered_ext fs fs' f f' p st :
  f_id f' = f_id f -> f_job f' = f_job f -> children (f_id f) fs ≡ₚ children (f_id f) fs' ->
  (forall ch', ch' ∈ fs' -> f_parent ch' = Some (f_id f) ->
     exists ch, ch ∈ fs /\ f_parent ch = f_parent ch' /\ f_job ch = f_job ch') ->
  layered fs f p st -> layered fs' f' p st.
Proof.
  intros Hid Hjob Hch Hsub [Hb Ho Hr Hc]. constructor; rewrite ?Hid, ?Hjob; [by rewrite <- Hch|done|done|].
  intros ch' Hin Hpar. destruct (Hsub ch' Hin Hpar) as (ch & Hin' & Hp & <-). apply Hc; [done|]. by rewrite Hp.
Qed.

Lemma live_update m f rest x w' s' cells' :
  live m -> m_fibers m ≡ₚ f :: rest ->
  (forall p st, x = Some (p, st) -> layered (m_fibers m) f p st) ->
  (forall c t, cells' c = Some (Running t) ->
     (t <> f_id f /\ m_cells m c = Some (Running t)) \/
     (t = f_id f /\ exists p st, x = Some (p, st) /\ c ∈ map fst st)) ->
  live (mkMachine w' s' cells' (set_prog f x :: rest) (m_next m)).
Proof.
  intros Hl Hp Hx Hcells.
  assert (Hsub : forall ch', ch' ∈ set_prog f x :: rest ->
    exists ch, ch ∈ m_fibers m /\ f_parent ch = f_parent ch' /\ f_job ch = f_job ch').
  { intros ch' [->|Hin]%elem_of_cons; [exists f|exists ch']; (split; [rewrite Hp, elem_of_cons; tauto|done]). }
  constructor; cbn [m_fibers m_cells].
  - eapply (ids_ok_same m _ f); [done|done|done|apply Hl].
  - intros g p st [->|Hg]%elem_of_cons Hg'.
    + eapply (layered_ext (m_fibers m) _ f); [done|done| |by auto|by apply Hx].
      rewrite children_set_prog. by rewrite Hp.
    + eapply (layered_ext (m_fibers m) _ g); [done|done| |by auto|].
      * rewrite children_set_prog. by rewrite Hp.
      * apply (lv_fibers _ Hl); [|done]. rewrite Hp, elem_of_cons. tauto.
  - intros c t Hc. destruct (Hcells c t Hc) as [[Hne Hc']|(-> & p & st & -> & Hin)].
    + destruct (lv_cells _ Hl c t Hc') as (g & p & st & Hg & Hid & Hg' & Hin). exists g, p, st.
      split_and!; try done. rewrite Hp in Hg. apply elem_of_cons in Hg as [->|Hg]; [done|]. apply elem_of_cons. by right.
    + eexists (set_prog f _), p, st. split_and!; try done. apply elem_of_cons. by left.
Qed.

Lemma fiber_unique (m : Machine) f g :
  ids_ok m -> f ∈ m_fibers m -> g ∈ m_fibers m -> f_id g = f_id f -> g = f.
Proof.
  intros Hids Hf Hg E. pose proof (ids_nodup _ Hids) as Hnd.
  destruct (take_fiber_in _ g Hg Hnd) as [r1 H1]. destruct (take_fiber_in _ f Hf Hnd) as [r2 H2].
  rewrite E, H2 in H1. by injection H1 as <- _.
Qed.

(** The cells that the fiber runs are those on its stack. *)
Lemma running_stack m f rest p st c :
  live m -> m_fibers m ≡ₚ f :: rest -> f_prog f = Some (p, st) ->
  m_cells m c = Some (Running (f_id f)) -> c ∈ map fst st.
Proof.
  intros Hl Hp Hf Hc. assert (Hin : f ∈ m_fibers m) by (rewrite Hp, elem_of_cons; tauto).
  destruct (lv_cells _ Hl c _ Hc) as (g & p0 & st0 & Hg & Hid & Hg' & Hc0).
  apply (fiber_unique m f g) in Hid as ->; [|apply Hl|done|done]. by simplify_eq.
Qed.

(** A step that stays within one program. *)
Lemma live_local m f rest p p' st w' s' :
  live m -> m_fibers m ≡ₚ f :: rest -> f_prog f = Some (p, st) ->
  (forall n out, below n out p -> below n out p') ->
  live (mkMachine w' s' (m_cells m) (set_prog f (Some (p', st)) :: rest) (m_next m)).
Proof.
  intros Hl Hp Hf Hgo. assert (Hin : f ∈ m_fibers m) by (rewrite Hp, elem_of_cons; tauto).
  pose proof (lv_fibers _ Hl f p st Hin Hf) as [Hb Ho Hr Hc]. eapply live_update; [done|done| |].
  - intros ? ? [= <- <-]. constructor; [by apply Hgo|done|done|done].
  - intros c t Hct. destruct (decide (t = f_id f)) as [->|Hne]; [right|by left]. split; [done|]. exists p', st.
    split; [done|]. by eapply running_stack.
Qed.

(** No child is left when a program returns or waits for a cell. *)
Lemma no_children t (fs : list Fiber) ch :
  length (children t fs) = 0%nat -> ch ∈ fs -> f_parent ch = Some t -> False.
Proof.
  intros Hlen Hin Hpar. apply nil_length_inv in Hlen. apply list_elem_of_split in Hin as (l1 & l2 & ->).
  rewrite children_app in Hlen. apply app_eq_nil in Hlen as [_ Hlen]. cbn [children omap list_omap] in Hlen.
  by rewrite decide_True in Hlen.
Qed.


Lemma live_fill m f rest v c k st :
  live m -> m_fibers m ≡ₚ f :: rest -> f_prog f = Some (FRet v, (c, k) :: st) ->
  live (mkMachine (m_world m) (m_shared m) (set_cell c (Some (Full v)) (m_cells m))
          (set_prog f (Some (k v, st)) :: rest) (m_next m)).
Proof.
  intros Hl Hp Hf. assert (Hin : f ∈ m_fibers m) by (rewrite Hp, elem_of_cons; tauto).
  pose proof (lv_fibers _ Hl f _ _ Hin Hf) as [Hb [Hlt Ho] [Hk Hr] Hc]. cbn [below] in Hb.
  eapply live_update; [done|done| |].
  - intros ? ? [= <- <-]. constructor; [by rewrite Hb|done|done|]. intros ch Hch Hpar. exfalso.
    by eapply no_children.
  - intros d t. unfold set_cell. case_decide as E; [done|]. intros Hd.
    destruct (decide (t = f_id f)) as [->|Hne]; [right|by left]. split; [done|]. exists (k v), st. split; [done|].
    pose proof (running_stack m f rest _ _ d Hl Hp Hf Hd) as Hst. cbn [map fst] in Hst.
    by apply elem_of_cons in Hst as [?|?].
Qed.

Lemma live_start m f rest c k st :
  live m -> m_fibers m ≡ₚ f :: rest -> f_prog f = Some (FOnce c k, st) ->
  live (mkMachine (m_world m) (m_shared m) (set_cell c (Some (Running (f_id f))) (m_cells m))
          (set_prog f (Some (cell_body c, (c, k) :: st)) :: rest) (m_next m)).
Proof.
  intros Hl Hp Hf. assert (Hin : f ∈ m_fibers m) by (rewrite Hp, elem_of_cons; tauto).
  pose proof (lv_fibers _ Hl f _ _ Hin Hf) as [(Hc & Hlt & Hout & Hk) Ho Hr _].
  eapply live_update; [done|done| |].
  - intros ? ? [= <- <-]. constructor; [rewrite Hout; by apply cell_below|done|done|].
    intros ch Hch Hpar. exfalso. by eapply no_children.
  - intros d t. unfold set_cell. case_decide as E.
    + subst d. intros [= <-]. right. split; [done|]. eexists _, _. split; [done|]. apply elem_of_cons. by left.
    + intros Hd. destruct (decide (t = f_id f)) as [->|Hne]; [right|by left]. split; [done|].
      eexists _, _. split; [done|]. cbn [map fst]. apply elem_of_cons. right. by eapply running_stack.
Qed.

Lemma live_fork m f rest js k st :
  live m -> m_fibers m ≡ₚ f :: rest -> f_prog f = Some (FFork js k, st) ->
  live (mkMachine (m_world m) (m_shared m) (m_cells m)
          (set_prog f (Some (k, st)) :: spawned job_body (f_id f) (m_next m) 0 js ++ rest) (m_next m + length js)).
Proof.
  intros Hl Hp Hf. assert (Hin : f ∈ m_fibers m) by (rewrite Hp, elem_of_cons; tauto).
  pose proof (lv_ids _ Hl) as Hids. pose proof (lv_fibers _ Hl f _ _ Hin Hf) as [(Hout & Hjs & Hk) Ho Hr _].
  pose proof (ids_fresh _ Hids f Hin) as Hfresh. apply nil_length_inv in Hout. rewrite Forall_forall in Hjs.
  set (new := spawned job_body (f_id f) (m_next m) 0 js).
  assert (Hch : forall t, children t (set_prog f (Some (k, st)) :: new ++ rest) ≡ₚ children t new ++ children t (m_fibers m)).
  { intros t. rewrite Hp, Permutation_middle, children_app. by rewrite (children_set_prog t f _ rest). }
  assert (Hsub : forall ch', ch' ∈ set_prog f (Some (k, st)) :: new ++ rest -> f_parent ch' <> Some (f_id f) ->
    exists ch, ch ∈ m_fibers m /\ f_parent ch = f_parent ch' /\ f_job ch = f_job ch').
  { intros ch' [->|[Hn|Hn]%elem_of_app]%elem_of_cons Hpar.
    - by exists f.
    - apply spawned_elem in Hn as (_ & Hn & _). done.
    - exists ch'. split; [rewrite Hp, elem_of_cons; tauto|done]. }
  constructor; cbn [m_fibers m_cells].
  - eapply ids_ok_step; [by apply (mv_fork cell_body job_body pid m f rest js k st)|done].
  - intros g p' st' Hg Hg'. apply elem_of_cons in Hg as [->|[Hg|Hg]%elem_of_app].
    + injection Hg' as <- <-. constructor; cbn [set_prog f_id f_job]; [|done|done|].
      * rewrite Hch, Hout, app_nil_r. unfold new. rewrite children_spawned, length_zip_with, length_seq, Nat.min_id. done.
      * intros ch [->|[Hn|Hn]%elem_of_app]%elem_of_cons Hpar.
        -- exfalso. eapply (no_children (f_id f)); [by rewrite Hout|exact Hin|done].
        -- apply spawned_elem in Hn as (_ & _ & Hj & _). by apply Hjs.
        -- exfalso. eapply (no_children (f_id f)); [by rewrite Hout|rewrite Hp, elem_of_cons; by right|done].
    + unfold new in Hg. pose proof (spawned_elem _ _ _ _ _ _ Hg) as (Hid & _ & Hj & Hprog). rewrite Hg' in Hprog.
      injection Hprog as -> ->. destruct (Hjs _ Hj) as [Hjin _].
      assert (Hno : children (f_id g) (set_prog f (Some (k, st)) :: new ++ rest) = []).
      { apply Permutation_nil_r. rewrite Hch, (children_fresh m) by (done || lia). rewrite app_nil_r.
        unfold new. by rewrite children_spawned_other by lia. }
      constructor; [rewrite Hno; by apply job_below|done|done|].
      intros ch Hin' Hpar. exfalso. eapply (no_children (f_id g)); [by rewrite Hno|done|done].
    + assert (Hgm : g ∈ m_fibers m) by (rewrite Hp, elem_of_cons; tauto).
      destruct (ids_ok_perm _ _ Hp Hids) as (Hn & _ & _). cbn [map] in Hn. apply NoDup_cons in Hn as [Hn _].
      assert (Hne : f_id g <> f_id f).
      { intros E. apply Hn. rewrite <- E. apply list_elem_of_fmap. by exists g. }
      eapply (layered_ext (m_fibers m) _ g); [done|done| | |by apply (lv_fibers _ Hl)].
      * rewrite Hch. unfold new. by rewrite children_spawned_other by congruence.
      * intros ch' Hc' Hpar. apply Hsub; [done|congruence].
  - intros c t Hc. destruct (lv_cells _ Hl c t Hc) as (g & p' & st' & Hg & Hid & Hg' & Hc0).
    rewrite Hp in Hg. apply elem_of_cons in Hg as [->|Hg].
    + rewrite Hf in Hg'. injection Hg' as <- <-. eexists _, _, _. split; [apply elem_of_cons; by left|].
      by split_and!.
    + exists g, p', st'. split_and!; try done. rewrite elem_of_cons, elem_of_app. tauto.
Qed.

Lemma live_next m f ch rest k r st :
  live m -> m_fibers m ≡ₚ f :: ch :: rest -> f_prog f = Some (FNext k, st) -> f_parent ch = Some (f_id f) ->
  (r = Panicked /\ f_prog ch = None) \/
  (exists v, r = Finished (f_index ch) v /\ f_prog ch = Some (FRet v, [])) ->
  live (mkMachine (m_world m) (m_shared m) (m_cells m) (set_prog f (Some (k r, st)) :: rest) (m_next m)).
Proof.
  intros Hl Hp Hf Hpar Hr. assert (Hin : f ∈ m_fibers m) by (rewrite Hp, elem_of_cons; tauto).
  pose proof (lv_ids _ Hl) as Hids. pose proof (lv_fibers _ Hl f _ _ Hin Hf) as [(out' & Hlen & Hk) Ho Hre Hc].
  assert (Hchf : children (f_id f) (m_fibers m) ≡ₚ (f_index ch, f_job ch) :: children (f_id f) (f :: rest)).
  { rewrite Hp, Permutation_swap. cbn [children omap list_omap]. by rewrite decide_True. }
  assert (Hother : forall t, t <> f_id f -> children t (m_fibers m) ≡ₚ children t (f :: rest)).
  { intros t Ht. rewrite Hp, Permutation_swap. cbn [children omap list_omap].
    by rewrite (decide_False (P := f_parent ch = Some t)) by congruence. }
  assert (Hsub : forall ch', ch' ∈ set_prog f (Some (k r, st)) :: rest ->
    exists ch, ch ∈ m_fibers m /\ f_parent ch = f_parent ch' /\ f_job ch = f_job ch').
  { intros ch' [->|Hin']%elem_of_cons; [exists f|exists ch']; (split; [rewrite Hp, !elem_of_cons; tauto|done]). }
  destruct (ids_ok_perm _ _ Hp Hids) as (Hn & _ & _). cbn [map] in Hn. apply NoDup_cons in Hn as [Hn _].
  constructor; cbn [m_fibers m_cells].
  - eapply ids_ok_step; [by apply (mv_next cell_body job_body pid m f ch rest k r st)|done].
  - intros g p' st' [->|Hg]%elem_of_cons Hg'.
    + injection Hg' as <- <-. rewrite Hchf in Hlen. cbn [length] in Hlen.
      apply Nat.succ_inj in Hlen. constructor; cbn [set_prog f_id f_job]; [|done|done|].
      * rewrite children_set_prog, Hlen. apply Hk.
      * intros ch' Hin' Hpar'. destruct (Hsub ch' Hin') as (c0 & H0 & H1 & <-). apply Hc; [done|congruence].
    + eapply (layered_ext (m_fibers m) _ g); [done|done| |by auto|].
      * rewrite children_set_prog. apply Hother. intros E. apply Hn, elem_of_cons. right. rewrite <- E.
        apply list_elem_of_fmap. by exists g.
      * apply (lv_fibers _ Hl); [|done]. rewrite Hp, !elem_of_cons. tauto.
  - intros c t Hct. destruct (lv_cells _ Hl c t Hct) as (g & p' & st' & Hg & Hid & Hg' & Hc0).
    rewrite Hp in Hg. apply elem_of_cons in Hg as [->|[->|Hg]%elem_of_cons].
    + rewrite Hf in Hg'. injection Hg' as <- <-. eexists _, _, _. split; [apply elem_of_cons; by left|].
      by split_and!.
    + exfalso. destruct Hr as [[_ Hr]|(v & _ & Hr)]; rewrite Hg' in Hr; [done|]. injection Hr as -> ->.
      by apply elem_of_nil in Hc0.
    + exists g, p', st'. split_and!; try done. rewrite elem_of_cons. tauto.
Qed.

Lemma live_drop m f rest k st :
  live m -> m_fibers m ≡ₚ f :: rest -> f_prog f = Some (FDrop k, st) ->
  live (mkMachine (m_world m) (m_shared m) (m_cells m)
          (set_prog f (Some (k, st)) :: map (detach (f_id f)) rest) (m_next m)).
Proof.
  intros Hl Hp Hf. assert (Hin : f ∈ m_fibers m) by (rewrite Hp, elem_of_cons; tauto).
  pose proof (lv_ids _ Hl) as Hids. pose proof (lv_fibers _ Hl f _ _ Hin Hf) as [Hb Ho Hr Hc]. cbn [below] in Hb.
  destruct (ids_ok_perm _ _ Hp Hids) as (Hn & _ & _). cbn [map] in Hn. apply NoDup_cons in Hn as [Hn _].
  constructor; cbn [m_fibers m_cells].
  - eapply ids_ok_step; [by apply (mv_drop cell_body job_body pid m f rest k st)|done].
  - intros g p' st' [->|(g' & -> & Hg)%list_elem_of_fmap]%elem_of_cons Hg'.
    + injection Hg' as <- <-.
      assert (Hno : children (f_id f) (set_prog f (Some (k, st)) :: map (detach (f_id f)) rest) = [])
        by (rewrite children_set_prog; by eapply children_detach_self).
      constructor; cbn [set_prog f_id f_job]; [by rewrite Hno|done|done|].
      intros ch Hch Hpar. exfalso. eapply (no_children (f_id f)); [by rewrite Hno|done|done].
    + assert (Hne : f_id f <> f_id g') by (intros E; apply Hn; rewrite E; apply list_elem_of_fmap; by exists g').
      eapply (layered_ext (m_fibers m) _ g'); [done|done| | |].
      * cbn [detach f_id]. rewrite children_set_prog, children_detach_rest by done. by rewrite Hp.
      * intros ch' [->|(c0 & -> & Hc0)%list_elem_of_fmap]%elem_of_cons Hpar; [exists f|exists c0].
        -- done.
        -- cbn [detach f_parent f_job] in *. split; [rewrite Hp, elem_of_cons; tauto|]. case_decide; done.
      * apply (lv_fibers _ Hl); [rewrite Hp, elem_of_cons; tauto|done].
  - intros c t Hct. destruct (lv_cells _ Hl c t Hct) as (g & p' & st' & Hg & Hid & Hg' & Hc0).
    rewrite Hp in Hg. apply elem_of_cons in Hg as [->|Hg].
    + rewrite Hf in Hg'. injection Hg' as <- <-. eexists _, _, _. split; [apply elem_of_cons; by left|]. by split_and!.
    + exists (detach (f_id f) g), p', st'. split_and!; try done. rewrite elem_of_cons. right.
      apply list_elem_of_fmap. by exists g.
Qed.

Lemma live_crash m f rest :
  live m -> m_fibers m ≡ₚ f :: rest ->
  live (mkMachine (m_world m) (m_shared m) (release (f_id f) (m_cells m)) (set_prog f None :: rest) (m_next m)).
Proof.
  intros Hl Hp. eapply live_update; [done|done|done|]. intros c t. unfold release.
  destruct (m_cells m c) as [[o|v]|]; [|done|done]. case_decide; [done|]. intros [= ->]. by left.
Qed.

Lemma live_moves m m' : live m -> moves cell_body job_body pid m m' -> live m'.
Proof.
  intros Hl Hm. destruct Hm as
    [f rest v c k st Hp Hf|f rest o k st e r w' Hp Hf He|f rest k st Hp Hf|f rest k st Hp Hf|f rest g k st Hp Hf
    |f rest c k st Hp Hf Hc|f rest c k v st Hp Hf Hc|f rest c k st Hp Hf|f rest js k st Hp Hf
    |f ch rest k r st Hp Hf Hpar Hr|f rest k st Hp Hf|f rest a Hp Hf].
  - by apply live_fill.
  - eapply live_local; [done|done|done|]. intros n out Hb. apply Hb.
  - eapply live_local; [done|done|done|]. intros n out Hb. apply Hb.
  - eapply live_local; [done|done|done|]. intros n out Hb. apply Hb.
  - eapply live_local; [done|done|done|]. intros n out Hb. apply Hb.
  - by apply live_start.
  - eapply live_local; [done|done|done|]. intros n out (_ & _ & -> & Hb). apply Hb.
  - eapply live_local; [done|done|done|]. intros n out Hb. apply Hb.
  - by apply live_fork.
  - by eapply live_next.
  - by apply live_drop.
  - by eapply live_crash.
Qed.

Lemma live_drift m m' : live m -> drift_step drift m m' -> live m'.
Proof.
  intros [[H1 H2 H3] Hf Hc] (_ & E1 & E2 & E3). constructor; [constructor|..]; rewrite ?E1, ?E2, ?E3; done.
Qed.

Lemma launch_live j w s : job_in j -> live (launch job_body j w s).
Proof.
  intros Hj. constructor; cbn [launch m_fibers m_cells]; [| |done].
  - constructor; cbn [launch m_fibers m_next].
    + apply NoDup_singleton.
    + intros f ->%list_elem_of_singleton. cbn. lia.
    + by intros f t ->%list_elem_of_singleton.
  - intros f p st ->%list_elem_of_singleton [= <- <-]. constructor; [by apply job_below|done|done|].
    by intros ch ->%list_elem_of_singleton.
Qed.

(** ** Inevitability *)

Local Abbreviation machine_step := (FiberSafety.machine_step cell_body job_body pid drift).

(** One step of the fibers, after anything that happens outside. *)
Definition round (m m' : Machine) : Prop :=
  exists m1, rtc (drift_step drift) m m1 /\ step cell_body job_body pid m1 m'.

(** Whatever the schedule, [P] holds after finitely many steps. *)
Inductive inevitable (P : Machine -> Prop) (m : Machine) : Prop :=
| now_holds : P m -> inevitable P m
| later_holds : (exists m', round m m') -> (forall m', round m m' -> inevitable P m') -> inevitable P m.

(** The first fiber has finished. *)
Definition root_finished (m : Machine) : Prop :=
  exists f, f ∈ m_fibers m /\ f_id f = 0%nat /\ finished f.

(** The first fiber stays. *)
Definition has_root (j : J) (m : Machine) : Prop :=
  exists f, f ∈ m_fibers m /\ f_id f = 0%nat /\ f_parent f = None /\ f_job f = j.

Lemma has_root_moves j m m' : moves cell_body job_body pid m m' -> has_root j m -> has_root j m'.
Proof.
  assert (Hset : forall f rest x fs', m_fibers m ≡ₚ f :: rest -> (set_prog f x ∈ fs') -> (forall g, g ∈ rest -> g ∈ fs') ->
    forall w s cs n, has_root j m -> has_root j (mkMachine w s cs fs' n)).
  { intros f rest x fs' Hp Hx Hrest w s cs n (g & Hg & Hid & Hpar & Hj). rewrite Hp in Hg.
    apply elem_of_cons in Hg as [->|Hg]; [exists (set_prog f x)|exists g]; split_and!; try done. by apply Hrest. }
  intros Hm Hr. destruct Hm as
    [f rest v c k st Hp Hf|f rest o k st e r w' Hp Hf He|f rest k st Hp Hf|f rest k st Hp Hf|f rest g k st Hp Hf
    |f rest c k st Hp Hf Hc|f rest c k v st Hp Hf Hc|f rest c k st Hp Hf|f rest js k st Hp Hf
    |f ch rest k r st Hp Hf Hpar Hrr|f rest k st Hp Hf|f rest a Hp Hf];
    try (eapply (Hset f rest); [done|apply elem_of_cons; by left|intros g' Hg'; apply elem_of_cons; by right|done]).
  - eapply (Hset f rest); [done|apply elem_of_cons; by left| |done].
    intros g Hg. rewrite elem_of_cons, elem_of_app. tauto.
  - destruct Hr as (g & Hg & Hid & Hnone & Hj). rewrite Hp in Hg.
    apply elem_of_cons in Hg as [->|[->|Hg]%elem_of_cons]; [| by rewrite Hpar in Hnone|].
    + exists (set_prog f (Some (k r, st))). split_and!; try done. apply elem_of_cons. by left.
    + exists g. split_and!; try done. apply elem_of_cons. by right.
  - destruct Hr as (g & Hg & Hid & Hnone & Hj). rewrite Hp in Hg. apply elem_of_cons in Hg as [->|Hg].
    + exists (set_prog f (Some (k, st))). split_and!; try done. apply elem_of_cons. by left.
    + exists (detach (f_id f) g). split_and!; try done.
      * apply elem_of_cons. right. apply list_elem_of_fmap. by exists g.
      * cbn [detach f_parent]. by rewrite Hnone.
Qed.

Lemma has_root_steps j m m' : rtc machine_step m m' -> has_root j m -> has_root j m'.
Proof.
  induction 1 as [|m1 m2 m3 [Hs|(_ & _ & E & _)] _ IH]; intros Hr; [done| |]; apply IH.
  - by eapply has_root_moves, Hr; apply step_moves.
  - unfold has_root. by rewrite E.
Qed.

Lemma drift_facts m m' j : rtc (drift_step drift) m m' ->
  m_fibers m' = m_fibers m /\ (live m -> live m') /\ (has_root j m -> has_root j m').
Proof.
  induction 1 as [|m1 m2 m3 Hd _ (E & Hl & Hr)]; [done|]. pose proof Hd as (_ & _ & E2 & _). split_and!.
  - by rewrite E, E2.
  - intros H. by apply Hl, (live_drift m1).
  - intros H. apply Hr. unfold has_root in *. by rewrite E2.
Qed.

Lemma acc_tc {A} (R : A -> A -> Prop) x : Acc R x -> Acc (tc R) x.
Proof.
  induction 1 as [x _ IH]. constructor. intros y Hy. revert IH.
  induction Hy as [y x Hyx|y z x Hyz Hzx IHy]; intros IH; [by apply IH|]. apply (Acc_inv (IHy IH)). by apply tc_once.
Qed.

Lemma machine_inevitable j w s : job_in j -> inevitable root_finished (launch job_body j w s).
Proof.
  intros Hj. assert (Hacc : Acc (tc (replaces smaller)) (activities (launch job_body j w s))).
  { apply acc_tc, acc_multiset. constructor; [|constructor]. eapply acc_activity; [by apply job_below|done]. }
  assert (Hlive : live (launch job_body j w s)) by (by apply launch_live).
  assert (Hroot : has_root j (launch job_body j w s)).
  { eexists. split_and!; [by apply list_elem_of_singleton|done|done|done]. }
  remember (activities (launch job_body j w s)) as a eqn:Ea. revert Ea Hlive Hroot.
  generalize (launch job_body j w s). induction Hacc as [a _ IH]. intros m -> Hlive Hroot.
  pose proof Hroot as (f & Hf & Hid & _ & _).
  assert (Hdec : finished f \/ exists p st, f_prog f = Some (p, st) /\ ~ finished f).
  { unfold finished. destruct (f_prog f) as [[p st]|]; [|by left; left]. destruct p as [v|?|?|?|?|?|?|?|?|?|].
    1: destruct st; [left; right; by exists v|].
    all: right; eexists _, _; split; [done|]; by intros [?|[? ?]]. }
  destruct Hdec as [Hfin|(p & st & Hprog & Hnot)]; [apply now_holds; by exists f|]. apply later_holds.
  - destruct (can_move m f p st Hlive Hf Hprog Hnot) as (pick & t & m' & Hact). exists m', m. split; [apply rtc_refl|].
    left. by exists calm, pick, t.
  - intros m' (m1 & Hd & Hstep). destruct (drift_facts m m1 j Hd) as (E & Hl & Hr).
    apply step_moves in Hstep. apply (IH (activities m')); [|done|by eapply live_moves; [apply Hl|]|].
    + replace (activities m) with (activities m1) by (unfold activities; by rewrite E). by apply moves_replaces.
    + by eapply has_root_moves; [|apply Hr].
Qed.
End Liveness.
