(* ===== verification/Resolver.v ===== *)
(** * Secondary stores

    [bobr-source/src/secondary_resolver.rs]: asking the mapping providers for
    build and reuse keys, and completing known objects from the content
    providers.  Providers are records of operations; the cells, jobs and shared
    state of the whole asynchronous system ([Resolver] and [Realizer]) are
    declared here. *)

From S2P Require Import Prelude Errors Hash Text FsObject FsArchive FsManifest Subjects Posix Tasks Store Fibers.

(** ** Vocabulary of the asynchronous system *)

(** [ProviderError]. *)
Inductive ProviderError :=
| PStore (error : StoreError)
| PRepository (error : RepositoryError)
| PRepositoryContent (error : RepositoryError).

(** [DynamicRealizeError]. *)
Record RealizeError := mkRealizeError { rz_message : string; rz_cancelled : bool }.

Record TrustedResolution (K : Type) := mkTrusted { tr_key : K; tr_object_hash : bytes }.
Arguments mkTrusted {K} tr_key tr_object_hash.
Arguments tr_key {K} _.
Arguments tr_object_hash {K} _.

Inductive ContentImportOutcome := ImportNotFound | AlreadyPresent | Imported.
Inductive ContentTransferMode := Hardlink | Copy | Download.

#[export] Instance ContentImportOutcome_eq_dec : EqDecision ContentImportOutcome.
Proof. solve_decision. Defined.
#[export] Instance ContentTransferMode_eq_dec : EqDecision ContentTransferMode.
Proof. solve_decision. Defined.

Record ContentTransferReport := mkTransferReport {
  ct_object_hash : bytes;
  ct_content_source : bytes;
  ct_transfer_mode : ContentTransferMode;
  ct_files : u64;
  ct_bytes : u64;
  ct_encoded_bytes : option u64;
  ct_duration_ms : u64;
}.

Inductive ContentTransferKind := TransferObject | TransferFsFiles (count : u64).

Inductive ContentTransferEvent :=
| TransferStarted (object_hash content_source : bytes) (mode : ContentTransferMode) (kind : ContentTransferKind)
| TransferFinished (report : ContentTransferReport)
| TransferFailed (object_hash content_source : bytes) (mode : ContentTransferMode) (error : string).

Record MappingAnswer := mkAnswer { ma_provider : bytes; ma_object_hash : bytes }.

Record MappingCandidates (K : Type) := mkMappingCandidates {
  mc_key : K;
  mc_answers : list MappingAnswer;
  mc_object_hashes : list bytes;
}.
Arguments mkMappingCandidates {K} mc_key mc_answers mc_object_hashes.
Arguments mc_key {K} _.
Arguments mc_answers {K} _.
Arguments mc_object_hashes {K} _.

Definition has_conflict {K} (self : MappingCandidates K) : bool := (1 <? length (mc_object_hashes self))%nat.

(** What is logged, without its rendering. *)
Inductive LogEvent :=
| LogCacheHit (key object_hash : bytes) (source_outcome : option string)
| LogMapping (kind : string) (key : bytes) (answers : list MappingAnswer) (conflict : bool)
| LogTransfer (event : ContentTransferEvent).

(** The shared state: the cancellation token, which content cell of a hash is
    current, the keys built in this run, and the log. *)
Record Shared := mkShared {
  sh_cancelled : bool;
  sh_contents : gmap bytes nat;
  sh_built_keys : gset bytes;
  sh_log : list LogEvent;
}.

(** The once-cells: one per build key in each of two maps, and one per hash and
    generation, since a content cell that found nothing is removed. *)
Inductive CellName :=
| CCandidates (key : bytes)
| CLocal (key : bytes)
| CContent (hash : bytes) (generation : nat).

#[export] Instance CellName_eq_dec : EqDecision CellName.
Proof. solve_decision. Defined.

(** The tasks that are spawned. *)
Inductive Job :=
| JGoals
| JLocal (key : bytes)
| JCandidates (key : bytes)
| JBuilds (order : nat) (keys : list bytes)
| JReuses (order : nat) (keys : list bytes)
| JObjects (order : nat) (hashes : list bytes)
| JFsFiles (order : nat) (hashes : list bytes).

Inductive Val :=
| VGoals (r : result RealizeError (list (bytes * bytes)))
| VLocal (r : result RealizeError bytes)
| VCandidates (r : result RealizeError (list bytes))
| VContent (r : result RealizeError bool)
| VMappings (r : result ProviderError (list (TrustedResolution bytes)))
| VLocated (r : result ProviderError (gset bytes)).

Abbreviation async := (@fib Shared CellName Job Val).

Declare Scope async_scope.
Delimit Scope async_scope with async.
Notation "'do' x ':=' m 'in' k" := (fbind m (fun x => k))
  (at level 200, x name, m at level 100, k at level 200, right associativity) : async_scope.
Notation "'let?' x ':=' m 'in' k" := (ftry m (fun x => k))
  (at level 200, x name, m at level 100, k at level 200, right associativity) : async_scope.
Notation "m '?;' k" := (ftry m (fun _ => k))
  (at level 199, right associativity) : async_scope.

(** ** Errors *)

(** [RepositoryError] to the store's categories. *)
Definition repository_to_store (error : RepositoryError) : StoreError :=
  let message := re_message error in
  match re_kind error with
  | Configuration => SE_InvalidInput message
  | Authentication | InvalidRepository => SE_InvalidData message
  | Transport _ | LocalIo | Runtime | Cancelled => SE_Io message
  end.
Definition into_store_error (self : ProviderError) : StoreError :=
  match self with
  | PStore error => error
  | PRepository error | PRepositoryContent error => repository_to_store error
  end.
Definition repository_kind (self : ProviderError) : option RepositoryErrorKind :=
  match self with
  | PStore _ => None
  | PRepository error | PRepositoryContent error => Some (re_kind error)
  end.
Definition provider_error_message (self : ProviderError) : string :=
  match self with
  | PStore error => store_error_message error
  | PRepository error | PRepositoryContent error => re_message error
  end.

Definition provider_transport_failure (error : ProviderError) : bool :=
  match repository_kind error with Some (Transport _) => true | _ => false end.

Definition content_item_failure (error : ProviderError) : bool :=
  match error with
  | PRepository repository => match re_kind repository with Transport _ => true | _ => false end
  | PRepositoryContent repository =>
      match re_kind repository with Transport _ | InvalidRepository => true | _ => false end
  | PStore _ => false
  end.

(** ** Answers *)

Section Answers.
Context {K : Type} `{!EqDecision K}.

Fixpoint unique_from (seen values : list K) : list K :=
  match values with
  | [] => []
  | value :: values' =>
      if bool_decide (value ∈ seen) then unique_from seen values'
      else value :: unique_from (value :: seen) values'
  end.
Definition unique_in_order (values : list K) : list K := unique_from [] values.

Record Candidate := mkCandidate { ca_key : K; ca_object_hash : bytes; ca_provider : bytes }.
Record CandidateGroup := mkGroup { gr_key : K; gr_answers : list MappingAnswer; gr_candidates : list Candidate }.

(** The distinct hashes with the provider that named each first. *)
Fixpoint first_answers (key : K) (seen : list bytes) (answers : list (bytes * TrustedResolution K))
  : list Candidate :=
  match answers with
  | [] => []
  | (provider, answer) :: answers' =>
      if bool_decide (tr_object_hash answer ∈ seen) then first_answers key seen answers'
      else mkCandidate key (tr_object_hash answer) provider
           :: first_answers key (tr_object_hash answer :: seen) answers'
  end.

Definition group_answers (key : K) (answers : list (bytes * TrustedResolution K)) : CandidateGroup :=
  mkGroup key (map (fun '(provider, answer) => mkAnswer provider (tr_object_hash answer)) answers)
    (first_answers key [] answers).

Definition mapping_candidates (group : CandidateGroup) : MappingCandidates K :=
  mkMappingCandidates (gr_key group) (gr_answers group) (map ca_object_hash (gr_candidates group)).
End Answers.
Arguments CandidateGroup K : clear implicits.
Arguments Candidate K : clear implicits.

Definition unrequested_key_error (kind : string) (key : string) : StoreError :=
  SE_InvalidData ("mapping provider returned unrequested " +:+ kind +:+ " key '" +:+ key +:+ "'").

(** The answers of the providers by key; a key that was not asked for is an
    error. *)
Definition AnswersByKey : Type := gmap bytes (list (bytes * TrustedResolution bytes)).

Definition add_answer (kind : string) (requested : list bytes) (provider : bytes) (by_key : AnswersByKey)
  (answer : TrustedResolution bytes) : result StoreError AnswersByKey :=
  if bool_decide (tr_key answer ∈ requested) then
    Ok (<[tr_key answer := default [] (by_key !! tr_key answer) ++ [(provider, answer)]]> by_key)
  else Err (unrequested_key_error kind (show (display (tr_key answer)))).

Definition answers_by_key (kind : string) (requested : list bytes)
  (per_index : list (bytes * list (TrustedResolution bytes))) : result StoreError AnswersByKey :=
  try_fold (fun by_key '(provider, answers) => try_fold (add_answer kind requested provider) by_key answers)
    ∅ per_index.

Fixpoint take_groups (keys : list bytes) (by_key : AnswersByKey) : list (CandidateGroup bytes) :=
  match keys with
  | [] => []
  | key :: keys' => group_answers key (default [] (by_key !! key)) :: take_groups keys' (delete key by_key)
  end.

Definition combine_index_results (kind : string) (keys : list bytes)
  (per_index : list (bytes * list (TrustedResolution bytes))) : result StoreError (list (CandidateGroup bytes)) :=
  by_key <- answers_by_key kind keys per_index ;;
  Ok (take_groups keys by_key).

(** ** Transfers *)

Definition insert_name_once (names : list bytes) (name : bytes) : list bytes :=
  if bool_decide (name ∈ names) then names else names ++ [name].

Definition add_encoded (a b : option u64) : option u64 :=
  match a, b with
  | Some x, Some y => Some (saturating_add x y)
  | Some x, None | None, Some x => Some x
  | None, None => None
  end.

Definition same_transfer (existing report : ContentTransferReport) : bool :=
  bool_decide (ct_content_source existing = ct_content_source report)
  && bool_decide (ct_transfer_mode existing = ct_transfer_mode report).

Fixpoint merge_transfer (transfers : list ContentTransferReport) (report : ContentTransferReport)
  : list ContentTransferReport :=
  match transfers with
  | [] => [report]
  | existing :: transfers' =>
      if same_transfer existing report then
        mkTransferReport (ct_object_hash existing) (ct_content_source existing) (ct_transfer_mode existing)
          (saturating_add (ct_files existing) (ct_files report))
          (saturating_add (ct_bytes existing) (ct_bytes report))
          (add_encoded (ct_encoded_bytes existing) (ct_encoded_bytes report))
          (saturating_add (ct_duration_ms existing) (ct_duration_ms report)) :: transfers'
      else existing :: merge_transfer transfers' report
  end.

(** [duration_ms]: the time of [ONow] in milliseconds. *)
Definition duration_ms (started now : Z) : u64 := Z.min (Z.max 0 (now - started)) U64_MAX.

Definition MappingProviderOp : Type := list bytes -> prog (result ProviderError (list (TrustedResolution bytes))).

(** [NamedMappingProvider] over [MappingProvider]. *)
Record NamedMappingProvider := mkMappingProvider {
  mp_name : bytes;
  mp_resolve_builds : MappingProviderOp;
  mp_resolve_reuses : MappingProviderOp;
}.

(** [NamedContentProvider] over [ContentProvider]; the number is
    [encoded_bytes]. *)
Record NamedContentProvider := mkContentProvider {
  cp_name : bytes;
  cp_transfer_mode : ContentTransferMode;
  cp_locate_objects : list bytes -> prog (result ProviderError (gset bytes));
  cp_object_manifest : bytes -> prog (result ProviderError (option FsTreeManifest));
  cp_locate_fs_files : list bytes -> prog (result ProviderError (gset bytes));
  cp_import_fs_files : Store -> list bytes -> prog (result ProviderError (option u64));
  cp_import_object : Store -> bytes -> prog (result ProviderError (ContentImportOutcome * option u64));
}.

(** [transferred_path_stats]: regular files and their bytes. *)
Fixpoint transferred_path_stats_fuel (fuel : nat) (p : path) : prog (result StoreError (u64 * u64)) :=
  let about (what : string) (error : IoError) := SE_Io (at_path what p error) in
  match fuel with
  | O => Ret (Err (about "failed to inspect transferred object" name_too_long))
  | S fuel' =>
      let? md := mapping_err (about "failed to inspect transferred object") (symlink_metadata p) in
      match file_type md with
      | TFile => Ret (Ok (1%Z, md_len md))
      | TSymlink => Ret (Ok (0%Z, 0%Z))
      | TDir =>
          let? names := mapping_err (about "failed to read transferred object directory") (read_dir p) in
          (fix entries (names : list bytes) (files bytes : u64) : prog (result StoreError (u64 * u64)) :=
             match names with
             | [] => Ret (Ok (files, bytes))
             | name :: names' =>
                 let? sums := transferred_path_stats_fuel fuel' (p ++ [name]) in
                 entries names' (saturating_add files sums.1) (saturating_add bytes sums.2)
             end) names 0%Z 0%Z
      end
  end%prog.
Definition transferred_path_stats (p : path) : prog (result StoreError (u64 * u64)) :=
  transferred_path_stats_fuel PATH_DEPTH p.

(** ** [SecondaryResolver] *)

Section Resolver.
Context `{Sha256Api} `{JsonApi}.
Context (record_json : ObjectRecord -> result string bytes) (process : Z).

(** tokio's text for a task that panicked. *)
Context (join_error : string).

(** The fields of [SecondaryResolver]. *)
Context (working : Store) (run_id : bytes).
Context (mapping_providers : list NamedMappingProvider) (sources : list NamedContentProvider).

Local Open Scope async_scope.

(** [validate_names]. *)
Definition check_name (kind : string) (seen : list bytes) (name : bytes) : result StoreError (list bytes) :=
  if bool_decide (name = []) then
    Err (SE_InvalidInput ("secondary " +:+ kind +:+ " name must not be empty"))
  else if bool_decide (name ∈ seen) then
    Err (SE_InvalidInput ("duplicate secondary " +:+ kind +:+ " name '" +:+ show name +:+ "'"))
  else Ok (name :: seen).
Definition validate_names (kind : string) (names : list bytes) : result StoreError unit :=
  try_fold (check_name kind) [] names ;;; Ok tt.

(** [SecondaryResolver::new]: what it checks. *)
Definition resolver_new : result StoreError unit :=
  validate_names "mapping provider" (map mp_name mapping_providers) ;;;
  validate_names "content source" (map cp_name sources).

(** *** Asking all providers at once *)

(** The loop of [collect_ordered_provider_tasks] over the tasks as they
    finish, [n] of them left; [project] reads the value of such a task. *)
Fixpoint join_providers {T : Type} (project : Val -> option (result ProviderError T)) (operation : string)
  (n : nat) (ordered : list (option (result ProviderError T)))
  : async (result StoreError (list (option (result ProviderError T)))) :=
  match n with
  | O => FRet (Ok ordered)
  | S n' =>
      FNext (fun joined =>
        match joined with
        | Finished order v =>
            match project v with
            | Some r => join_providers project operation n' (<[order := Some r]> ordered)
            | None => FPanic
            end
        | Panicked =>
            FDrop (FRet (Err (SE_Io ("secondary " +:+ operation +:+ " task panicked: " +:+ join_error))))
        end)
  end.

(** Its last part: transport failures are skipped, other failures are
    returned.  [None] is the failed [expect]. *)
Fixpoint settle_providers {T : Type} (names : list bytes) (ordered : list (option (result ProviderError T)))
  : option (result StoreError (list (option (bytes * T)))) :=
  match names, ordered with
  | name :: names', Some r :: ordered' =>
      match r with
      | Ok value =>
          match settle_providers names' ordered' with
          | Some rest => Some (l <- rest ;; Ok (Some (name, value) :: l))
          | None => None
          end
      | Err error =>
          if provider_transport_failure error then
            match settle_providers names' ordered' with
            | Some rest => Some (l <- rest ;; Ok (None :: l))
            | None => None
            end
          else Some (Err (into_store_error error))
      end
  | _, None :: _ => None
  | _, _ => Some (Ok [])
  end.

Definition collect_ordered_provider_tasks {T : Type} (project : Val -> option (result ProviderError T))
  (operation : string) (names : list bytes) (jobs : list Job)
  : async (result StoreError (list (option (bytes * T)))) :=
  FFork jobs (
    let? ordered := join_providers project operation (length jobs) (repeat None (length jobs)) in
    match settle_providers names ordered with
    | Some r => FRet r
    | None => FPanic
    end).

Definition project_mappings (v : Val) : option (result ProviderError (list (TrustedResolution bytes))) :=
  match v with VMappings r => Some r | _ => None end.
Definition project_located (v : Val) : option (result ProviderError (gset bytes)) :=
  match v with VLocated r => Some r | _ => None end.

Definition query_build_providers (keys : list bytes)
  : async (result StoreError (list (bytes * list (TrustedResolution bytes)))) :=
  let? entries := collect_ordered_provider_tasks project_mappings "build mapping" (map mp_name mapping_providers)
                    (map (fun order => JBuilds order keys) (seq 0 (length mapping_providers))) in
  FRet (Ok (omap id entries)).

Definition query_reuse_providers (keys : list bytes)
  : async (result StoreError (list (bytes * list (TrustedResolution bytes)))) :=
  let? entries := collect_ordered_provider_tasks project_mappings "reuse mapping" (map mp_name mapping_providers)
                    (map (fun order => JReuses order keys) (seq 0 (length mapping_providers))) in
  FRet (Ok (omap id entries)).

Definition located (entry : option (bytes * gset bytes)) : gset bytes :=
  match entry with Some (_, hashes) => hashes | None => ∅ end.

Definition locate_objects (hashes : list bytes) : async (result StoreError (list (gset bytes))) :=
  let? entries := collect_ordered_provider_tasks project_located "object availability" (map cp_name sources)
                    (map (fun order => JObjects order hashes) (seq 0 (length sources))) in
  FRet (Ok (map located entries)).

Definition locate_fs_files (hashes : list bytes) : async (result StoreError (list (gset bytes))) :=
  let? entries := collect_ordered_provider_tasks project_located "fs-file availability" (map cp_name sources)
                    (map (fun order => JFsFiles order hashes) (seq 0 (length sources))) in
  FRet (Ok (map located entries)).

(** The spawned provider calls. *)
Definition resolve_builds_task (order : nat) (keys : list bytes) : async Val :=
  match mapping_providers !! order with
  | Some entry => do r := blocking (mp_resolve_builds entry keys) in FRet (VMappings r)
  | None => FPanic
  end.
Definition resolve_reuses_task (order : nat) (keys : list bytes) : async Val :=
  match mapping_providers !! order with
  | Some entry => do r := blocking (mp_resolve_reuses entry keys) in FRet (VMappings r)
  | None => FPanic
  end.
Definition locate_objects_task (order : nat) (hashes : list bytes) : async Val :=
  match sources !! order with
  | Some entry => do r := blocking (cp_locate_objects entry hashes) in FRet (VLocated r)
  | None => FPanic
  end.
Definition locate_fs_files_task (order : nat) (hashes : list bytes) : async Val :=
  match sources !! order with
  | Some entry => do r := blocking (cp_locate_fs_files entry hashes) in FRet (VLocated r)
  | None => FPanic
  end.

(** *** Looking up mappings *)

Definition lookup_build_groups (keys : list bytes) : async (result StoreError (list (CandidateGroup bytes))) :=
  let keys := unique_in_order keys in
  let? per_index := query_build_providers keys in
  FRet (combine_index_results "build" keys per_index).

Definition lookup_builds (keys : list bytes) : async (result StoreError (list (MappingCandidates bytes))) :=
  let? groups := lookup_build_groups keys in
  FRet (Ok (map mapping_candidates groups)).

Definition lookup_reuses (keys : list bytes) : async (result StoreError (list (MappingCandidates bytes))) :=
  let keys := unique_in_order keys in
  let? per_index := query_reuse_providers keys in
  FRet (groups <- combine_index_results "reuse" keys per_index ;; Ok (map mapping_candidates groups)).

(** *** Completing objects *)

Record AcquiredContent := mkAcquired {
  aq_outcome : ContentImportOutcome;
  aq_sources : list bytes;
  aq_transfers : list ContentTransferReport;
}.
Record AcquiredClosure := mkClosure { cl_sources : list bytes; cl_transfers : list ContentTransferReport }.

(** [manifest_fs_files]. *)
Definition manifest_fs_files (manifest : FsTreeManifest) : list bytes := distinct_hashes [] (entries manifest).

(** The files of a manifest that the working store does not have. *)
Fixpoint missing_fs_files (hashes : list bytes) : prog (result StoreError (list bytes)) :=
  match hashes with
  | [] => Ret (Ok [])
  | h :: hashes' =>
      let p := fs_file_path_unchecked working h in
      do r := symlink_metadata p in
      match r with
      | Ok md =>
          if bool_decide (file_type md = TFile) then missing_fs_files hashes'
          else Ret (Err (SE_InvalidData ("working fs-file path '" +:+ display_path p +:+ "' is not a regular file")))
      | Err error =>
          if bool_decide (io_kind error = NotFound) then
            let? rest := missing_fs_files hashes' in Ret (Ok (h :: rest))
          else Ret (Err (SE_Io (at_path "failed to inspect working fs-file" p error)))
      end
  end%prog.

(** After a failed import: the files that are there all the same. *)
Fixpoint still_unresolved (hashes : list bytes) (unresolved : gset bytes) : prog (gset bytes) :=
  match hashes with
  | [] => Ret unresolved
  | h :: hashes' =>
      do file := is_file_path (fs_file_path_unchecked working h) in
      still_unresolved hashes' (if file : bool then unresolved ∖ {[h]} else unresolved)
  end%prog.

(** After an import: the sizes of the files, which must be there. *)
Fixpoint imported_bytes (source_name : bytes) (hashes : list bytes) (total : u64) (unresolved : gset bytes)
  : prog (result StoreError (u64 * gset bytes)) :=
  match hashes with
  | [] => Ret (Ok (total, unresolved))
  | h :: hashes' =>
      let p := fs_file_path_unchecked working h in
      let? md := mapping_err (fun error => SE_Io (at_path "failed to inspect imported fs-file" p error))
                   (symlink_metadata p) in
      if negb (bool_decide (file_type md = TFile)) then
        Ret (Err (SE_InvalidData ("content source '" +:+ show source_name +:+ "' reported fs-file '"
               +:+ show (display h) +:+ "' imported, but '" +:+ display_path p +:+ "' is not a regular file")))
      else imported_bytes source_name hashes' (saturating_add total (md_len md)) (unresolved ∖ {[h]})
  end%prog.

(** How a caller is told of transfers. *)
Context (notify : ContentTransferEvent -> Shared -> Shared).
Definition progress {A : Type} (event : ContentTransferEvent) (k : async A) : async A := FPut (notify event) k.

(** The loop of [ensure_manifest_closure] over the providers. *)
Fixpoint closure_from (object_hash : bytes) (missing : list bytes) (index : nat) (availability : list (gset bytes))
  (unresolved : gset bytes) (used_sources : list bytes) (transfers : list ContentTransferReport)
  : async (result StoreError (option AcquiredClosure)) :=
  match availability with
  | [] =>
      FRet (Ok (if bool_decide (unresolved = ∅) then Some (mkClosure used_sources transfers) else None))
  | available :: availability' =>
      let hashes := filter (fun h => h ∈ unresolved /\ h ∈ available) missing in
      if bool_decide (hashes = []) then
        closure_from object_hash missing (S index) availability' unresolved used_sources transfers
      else
        match sources !! index with
        | None => FPanic
        | Some source =>
            progress (TransferStarted object_hash (cp_name source) (cp_transfer_mode source)
                        (TransferFsFiles (len hashes)))
              (do started := blocking time_now in
               do r := blocking (cp_import_fs_files source working hashes) in
               match r with
               | Err error =>
                   if content_item_failure error then
                     progress (TransferFailed object_hash (cp_name source) (cp_transfer_mode source)
                                 (provider_error_message error))
                       (do unresolved' := blocking (still_unresolved hashes unresolved) in
                        closure_from object_hash missing (S index) availability' unresolved' used_sources transfers)
                   else FRet (Err (into_store_error error))
               | Ok encoded_bytes =>
                   let? sums := blocking (imported_bytes (cp_name source) hashes 0%Z unresolved) in
                   do now := blocking time_now in
                   let report := mkTransferReport object_hash (cp_name source) (cp_transfer_mode source)
                                   (len hashes) sums.1 encoded_bytes (duration_ms started now) in
                   progress (TransferFinished report)
                     (closure_from object_hash missing (S index) availability' sums.2
                        (used_sources ++ [cp_name source]) (merge_transfer transfers report))
               end)
        end
  end.

Definition ensure_manifest_closure (object_hash : bytes) (manifest : FsTreeManifest)
  : async (result StoreError (option AcquiredClosure)) :=
  let? missing := blocking (missing_fs_files (manifest_fs_files manifest)) in
  if bool_decide (missing = []) then FRet (Ok (Some (mkClosure [] [])))
  else
    let? availability := locate_fs_files missing in
    closure_from object_hash missing 0 availability (list_to_set missing) [] [].

(** The import of the object from one provider, once its files are there;
    [next] goes on with the other providers. *)
Definition import_from (hash : bytes) (source : NamedContentProvider) (used_sources : list bytes)
  (transfers : list ContentTransferReport)
  (next : list bytes -> list ContentTransferReport -> async (result StoreError (option AcquiredContent)))
  : async (result StoreError (option AcquiredContent)) :=
  progress (TransferStarted hash (cp_name source) (cp_transfer_mode source) TransferObject)
    (do started := blocking time_now in
     do r := blocking (cp_import_object source working hash) in
     match r with
     | Err error =>
         if content_item_failure error then
           progress (TransferFailed hash (cp_name source) (cp_transfer_mode source) (provider_error_message error))
             (next used_sources transfers)
         else FRet (Err (into_store_error error))
     | Ok (outcome, encoded_bytes) =>
         if bool_decide (outcome = ImportNotFound) then next used_sources transfers
         else
           let used_sources := insert_name_once used_sources (cp_name source) in
           if bool_decide (outcome = Imported) then
             let? found := blocking (object_path working hash) in
             match found with
             | None =>
                 FRet (Err (SE_InvalidData ("content source '" +:+ show (cp_name source) +:+ "' reported object '"
                              +:+ show (display hash) +:+ "' imported, but it is absent")))
             | Some p =>
                 let? sums := blocking (transferred_path_stats p) in
                 do now := blocking time_now in
                 let report := mkTransferReport hash (cp_name source) (cp_transfer_mode source)
                                 sums.1 sums.2 encoded_bytes (duration_ms started now) in
                 progress (TransferFinished report)
                   (FRet (Ok (Some (mkAcquired outcome used_sources (merge_transfer transfers report)))))
             end
           else FRet (Ok (Some (mkAcquired outcome used_sources transfers)))
     end).

(** The loop of [acquire_candidate] over the providers. *)
Fixpoint acquire_from (hash : bytes) (availability : list (gset bytes)) (index : nat)
  (rest : list NamedContentProvider) (used_sources : list bytes) (transfers : list ContentTransferReport)
  : async (result StoreError (option AcquiredContent)) :=
  match rest with
  | [] => FRet (Ok None)
  | source :: rest' =>
      let next := acquire_from hash availability (S index) rest' in
      match availability !! index with
      | None => FPanic
      | Some available =>
          if bool_decide (hash ∈ available) then
            do r := blocking (cp_object_manifest source hash) in
            match r with
            | Err error =>
                if content_item_failure error then
                  progress (TransferFailed hash (cp_name source) (cp_transfer_mode source)
                              (provider_error_message error))
                    (next used_sources transfers)
                else FRet (Err (into_store_error error))
            | Ok None => import_from hash source used_sources transfers next
            | Ok (Some manifest) =>
                let? closure := ensure_manifest_closure hash manifest in
                match closure with
                | None => next used_sources transfers
                | Some closure =>
                    import_from hash source (fold_left insert_name_once (cl_sources closure) used_sources)
                      (transfers ++ cl_transfers closure) next
                end
            end
          else next used_sources transfers
      end
  end.

Definition acquire_candidate (hash : bytes) (availability : list (gset bytes))
  : async (result StoreError (option AcquiredContent)) :=
  let? found := blocking (object_path working hash) in
  match found with
  | Some working_path =>
      let? manifest := blocking (read_manifest_if_marked working_path) in
      match manifest with
      | None => FRet (Ok (Some (mkAcquired AlreadyPresent [] [])))
      | Some manifest =>
          let? closure := ensure_manifest_closure hash manifest in
          FRet (Ok (match closure with
                    | None => None
                    | Some closure => Some (mkAcquired AlreadyPresent (cl_sources closure) (cl_transfers closure))
                    end))
      end
  | None => acquire_from hash availability 0 sources [] []
  end.

Record KnownObjectResolution := mkKnown {
  ko_object_hash : bytes;
  ko_content_sources : list bytes;
  ko_transfers : list ContentTransferReport;
  ko_outcome : option ContentImportOutcome;
}.

(** The hashes that are not complete. *)
Fixpoint incomplete_objects (hashes : list bytes) : prog (result StoreError (list bytes)) :=
  match hashes with
  | [] => Ret (Ok [])
  | h :: hashes' =>
      let? complete := object_is_complete working h in
      let? rest := incomplete_objects hashes' in
      Ret (Ok (if complete : bool then rest else h :: rest))
  end%prog.

Definition ensure_one (availability : list (gset bytes)) (hash : bytes)
  : async (result StoreError KnownObjectResolution) :=
  let? complete := blocking (object_is_complete working hash) in
  if complete then
    let? _u := blocking (record_existing_object record_json process working hash run_id) in
    FRet (Ok (mkKnown hash [] [] (Some AlreadyPresent)))
  else
    let? acquired := acquire_candidate hash availability in
    match acquired with
    | Some acquired =>
        let? _u := blocking (record_existing_object record_json process working hash run_id) in
        FRet (Ok (mkKnown hash (aq_sources acquired) (aq_transfers acquired) (Some (aq_outcome acquired))))
    | None => FRet (Ok (mkKnown hash [] [] None))
    end.

Fixpoint ensure_each (availability : list (gset bytes)) (hashes : list bytes)
  : async (result StoreError (list KnownObjectResolution)) :=
  match hashes with
  | [] => FRet (Ok [])
  | hash :: hashes' =>
      let? report := ensure_one availability hash in
      let? reports := ensure_each availability hashes' in
      FRet (Ok (report :: reports))
  end.

Definition ensure_objects_with_progress (hashes : list bytes)
  : async (result StoreError (list KnownObjectResolution)) :=
  let hashes := unique_in_order hashes in
  let? need_content := blocking (incomplete_objects hashes) in
  let? availability :=
    (if bool_decide (need_content = []) then FRet (Ok (repeat ∅ (length sources)))
     else locate_objects need_content) in
  ensure_each availability hashes.
End Resolver.

(** *** Mappings with their content *)

Section Promotion.
Context `{Sha256Api} `{JsonApi}.
Context (record_json : ObjectRecord -> result string bytes) (process : Z) (join_error : string).
Context (working : Store) (run_id : bytes).
Context (mapping_providers : list NamedMappingProvider) (sources : list NamedContentProvider).

Local Open Scope async_scope.

Definition ignore_progress (event : ContentTransferEvent) (s : Shared) : Shared := s.

Definition ensure_objects (hashes : list bytes) : async (result StoreError (list KnownObjectResolution)) :=
  ensure_objects_with_progress record_json process join_error working run_id sources ignore_progress hashes.

Definition ensure_promotable (object_hash : bytes) : prog (result StoreError unit) :=
  (let? complete := object_is_complete working object_hash in
   Ret (if negb complete
        then Err (SE_InvalidData ("cannot promote mapping for incomplete working object '"
                                  +:+ show (display object_hash) +:+ "'"))
        else Ok tt))%prog.

Definition promote_build (build_key object_hash : bytes) : prog (result StoreError unit) :=
  (ensure_promotable object_hash ?;
   publish_existing_build_mapping record_json process working build_key object_hash run_id)%prog.

Definition promote_reuse (build_key reuse_key object_hash : bytes) : prog (result StoreError unit) :=
  (ensure_promotable object_hash ?;
   publish_existing_reuse_mapping record_json process working build_key reuse_key object_hash run_id)%prog.

Record ResolvedSecondaryContent := mkResolved {
  rs_object_hash : bytes;
  rs_mapping_provider : bytes;
  rs_content_sources : list bytes;
  rs_transfers : list ContentTransferReport;
  rs_import_outcome : ContentImportOutcome;
}.

Record SecondaryResolution (K : Type) := mkResolution {
  sr_key : K;
  sr_answers : list MappingAnswer;
  sr_unavailable : list bytes;
  sr_resolved : option ResolvedSecondaryContent;
}.
#[global] Arguments mkResolution {K} sr_key sr_answers sr_unavailable sr_resolved.
#[global] Arguments sr_key {K} _.
#[global] Arguments sr_resolved {K} _.

(** [ReuseQuery]: the build key and the reuse key. *)
Definition ReuseQuery : Type := bytes * bytes.

Section Group.
Context {K : Type} (promote : Candidate K -> prog (result StoreError unit)).

(** The first loop of [resolve_group]: a candidate the store already has. *)
Fixpoint resolve_present (group : CandidateGroup K) (candidates : list (Candidate K))
  : prog (result StoreError (option (SecondaryResolution K))) :=
  match candidates with
  | [] => Ret (Ok None)
  | candidate :: candidates' =>
      let? complete := object_is_complete working (ca_object_hash candidate) in
      if complete : bool then
        promote candidate ?;
        Ret (Ok (Some (mkResolution (gr_key group) (gr_answers group) []
               (Some (mkResolved (ca_object_hash candidate) (ca_provider candidate) [] [] AlreadyPresent)))))
      else resolve_present group candidates'
  end%prog.

(** The second loop: a candidate some provider has. *)
Fixpoint resolve_acquire (group : CandidateGroup K) (availability : list (gset bytes))
  (unavailable : list bytes) (candidates : list (Candidate K)) : async (result StoreError (SecondaryResolution K)) :=
  match candidates with
  | [] => FRet (Ok (mkResolution (gr_key group) (gr_answers group) unavailable None))
  | candidate :: candidates' =>
      let? acquired := acquire_candidate join_error working sources ignore_progress (ca_object_hash candidate)
                         availability in
      match acquired with
      | Some acquired =>
          let? _u := blocking (promote candidate) in
          FRet (Ok (mkResolution (gr_key group) (gr_answers group) unavailable
                 (Some (mkResolved (ca_object_hash candidate) (ca_provider candidate) (aq_sources acquired)
                          (aq_transfers acquired) (aq_outcome acquired)))))
      | None => resolve_acquire group availability (unavailable ++ [ca_object_hash candidate]) candidates'
      end
  end.

Definition resolve_group (group : CandidateGroup K) (availability : list (gset bytes))
  : async (result StoreError (SecondaryResolution K)) :=
  let? present := blocking (resolve_present group (gr_candidates group)) in
  match present with
  | Some report => FRet (Ok report)
  | None => resolve_acquire group availability [] (gr_candidates group)
  end.

Fixpoint resolve_groups (groups : list (CandidateGroup K)) (availability : list (gset bytes))
  : async (result StoreError (list (SecondaryResolution K))) :=
  match groups with
  | [] => FRet (Ok [])
  | group :: groups' =>
      let? report := resolve_group group availability in
      let? reports := resolve_groups groups' availability in
      FRet (Ok (report :: reports))
  end.

(** The loops of [locate_candidate_objects]. *)
Fixpoint any_complete (candidates : list (Candidate K)) : prog (result StoreError bool) :=
  match candidates with
  | [] => Ret (Ok false)
  | candidate :: candidates' =>
      let? complete := object_is_complete working (ca_object_hash candidate) in
      if complete : bool then Ret (Ok true) else any_complete candidates'
  end%prog.

Fixpoint wanted_objects (seen : list bytes) (groups : list (CandidateGroup K)) : prog (result StoreError (list bytes)) :=
  match groups with
  | [] => Ret (Ok [])
  | group :: groups' =>
      let? has_complete_local := any_complete (gr_candidates group) in
      if has_complete_local : bool then wanted_objects seen groups'
      else
        let new := unique_from seen (map ca_object_hash (gr_candidates group)) in
        let? rest := wanted_objects (new ++ seen) groups' in
        Ret (Ok (new ++ rest))
  end%prog.

Definition locate_candidate_objects (groups : list (CandidateGroup K)) : async (result StoreError (list (gset bytes))) :=
  let? hashes := blocking (wanted_objects [] groups) in
  if bool_decide (hashes = []) then FRet (Ok (repeat ∅ (length sources)))
  else locate_objects join_error sources hashes.
End Group.

Definition resolve_builds (keys : list bytes) : async (result StoreError (list (SecondaryResolution bytes))) :=
  let? groups := lookup_build_groups join_error mapping_providers keys in
  let? availability := locate_candidate_objects groups in
  resolve_groups (fun candidate => promote_build (ca_key candidate) (ca_object_hash candidate)) groups availability.

(** The group of a query: the answers for its reuse key. *)
Definition query_group (by_key : AnswersByKey) (query : ReuseQuery) : CandidateGroup ReuseQuery :=
  group_answers query
    (map (fun '(index, answer) => (index, mkTrusted query (tr_object_hash answer)))
         (default [] (by_key !! query.2))).

Definition resolve_reuses (queries : list ReuseQuery)
  : async (result StoreError (list (SecondaryResolution ReuseQuery))) :=
  let queries := unique_in_order queries in
  let reuse_keys := unique_in_order (map snd queries) in
  let? per_index := query_reuse_providers join_error mapping_providers reuse_keys in
  match answers_by_key "reuse" reuse_keys per_index with
  | Err error => FRet (Err error)
  | Ok by_key =>
      let groups := map (query_group by_key) queries in
      let? availability := locate_candidate_objects groups in
      resolve_groups (fun candidate => promote_reuse (ca_key candidate).1 (ca_key candidate).2 (ca_object_hash candidate))
        groups availability
  end.
End Promotion.
