(* ===== verification/Answers.v ===== *)
(** * Answers of mapping providers

    What the resolver makes of the answers of several providers: they are
    grouped by requested key, in the order of the providers and of each
    provider's answers; an answer for a key that was not asked for is an
    error. *)

From S2P Require Import Prelude Errors Hash Text FsObject FsArchive FsManifest Subjects Posix Tasks Store Fibers Resolver.

(** ** Distinct values in order *)

Section Unique.
Context {K : Type} `{!EqDecision K}.

Lemma elem_of_unique_from (seen values : list K) x :
  x ∈ unique_from seen values <-> x ∈ values /\ x ∉ seen.
Proof.
  revert seen. induction values as [|v values IH]; intros seen; cbn [unique_from]; [set_solver|].
  case_bool_decide as Hv; [|rewrite elem_of_cons]; rewrite IH.
  - split; [set_solver|]. intros [[->|?]%elem_of_cons ?]; set_solver.
  - destruct (decide (x = v)) as [->|Hne]; set_solver.
Qed.

Lemma unique_from_nodup (seen values : list K) : NoDup (unique_from seen values).
Proof.
  revert seen. induction values as [|v values IH]; intros seen; cbn [unique_from]; [constructor|].
  case_bool_decide; [apply IH|]. constructor; [|apply IH]. rewrite elem_of_unique_from. set_solver.
Qed.

Lemma elem_of_unique (values : list K) x : x ∈ unique_in_order values <-> x ∈ values.
Proof. unfold unique_in_order. rewrite elem_of_unique_from. set_solver. Qed.

Lemma unique_singleton (x : K) : unique_in_order [x] = [x].
Proof. done. Qed.
End Unique.

(** ** Grouping *)

(** All answers with the provider that gave each, in order. *)
Definition flat_answers (per_index : list (bytes * list (TrustedResolution bytes)))
  : list (bytes * TrustedResolution bytes) :=
  flat_map (fun '(provider, answers) => map (pair provider) answers) per_index.

Definition answers_for (key : bytes) (per_index : list (bytes * list (TrustedResolution bytes)))
  : list (bytes * TrustedResolution bytes) :=
  filter (fun entry => tr_key entry.2 = key) (flat_answers per_index).

(** The fold over providers and answers is a fold over all answers. *)
Lemma answers_by_key_flat kind requested per_index by_key :
  try_fold (fun by_key '(provider, answers) => try_fold (add_answer kind requested provider) by_key answers)
    by_key per_index =
  try_fold (fun by_key '(provider, answer) => add_answer kind requested provider by_key answer)
    by_key (flat_answers per_index).
Proof.
  revert by_key. induction per_index as [|[provider answers] per_index IH]; intros by_key; [done|].
  cbn [try_fold flat_answers flat_map]. change (flat_map _ per_index) with (flat_answers per_index).
  revert by_key. induction answers as [|a answers IHa]; intros by_key; cbn [try_fold map app]; [apply IH|].
  destruct (add_answer kind requested provider by_key a) as [by_key'|e]; [apply IHa|done].
Qed.

Definition requested_all (keys : list bytes) (entries : list (bytes * TrustedResolution bytes)) : Prop :=
  Forall (fun entry => tr_key entry.2 ∈ keys) entries.

Lemma add_all_ok kind requested entries by_key :
  match try_fold (fun by_key '(provider, answer) => add_answer kind requested provider by_key answer) by_key entries with
  | Ok by_key' => requested_all requested entries /\
      forall key, default [] (by_key' !! key) =
        default [] (by_key !! key) ++ filter (fun entry => tr_key entry.2 = key) entries
  | Err e => exists entry, entry ∈ entries /\ tr_key entry.2 ∉ requested /\
      e = unrequested_key_error kind (show (display (tr_key entry.2)))
  end.
Proof.
  revert by_key. induction entries as [|[provider a] entries IH]; intros by_key; cbn [try_fold].
  { split; [constructor|]. intros key. by rewrite app_nil_r. }
  unfold add_answer at 1. case_bool_decide as Hk.
  - specialize (IH (<[tr_key a := default [] (by_key !! tr_key a) ++ [(provider, a)]]> by_key)).
    destruct (try_fold _ _ entries) as [by_key'|e].
    + destruct IH as [Hr Hv]. split; [by constructor|]. unfold AnswersByKey in *. intros key. rewrite Hv, filter_cons. cbn [snd].
      destruct (decide (tr_key a = key)) as [<-|Hne].
      * rewrite lookup_insert_eq. cbn [default from_option id]. by rewrite <- (app_assoc (default [] _)).
      * by rewrite lookup_insert_ne.
    + destruct IH as (entry & Hin & ? & ?). exists entry. split_and!; [by right|done|done].
  - exists (provider, a). split_and!; [by left|done|done].
Qed.

Lemma take_groups_nodup keys by_key :
  NoDup keys -> take_groups keys by_key = map (fun key => group_answers key (default [] (by_key !! key))) keys.
Proof.
  revert by_key. induction keys as [|k keys IH]; intros by_key Hn; [done|]. apply NoDup_cons in Hn as [Hk Hn].
  cbn [take_groups map]. f_equal. rewrite IH by done. apply map_ext_in. intros k' Hk'%list_elem_of_In.
  unfold AnswersByKey in *. rewrite lookup_delete_ne; [done|]. by intros ->.
Qed.

(** What a lookup of distinct keys makes of the answers. *)
Lemma combine_ok kind keys per_index :
  NoDup keys ->
  match combine_index_results kind keys per_index with
  | Ok groups => requested_all keys (flat_answers per_index) /\
      groups = map (fun key => group_answers key (answers_for key per_index)) keys
  | Err e => exists entry, entry ∈ flat_answers per_index /\ tr_key entry.2 ∉ keys /\
      e = unrequested_key_error kind (show (display (tr_key entry.2)))
  end.
Proof.
  intros Hn. unfold combine_index_results, answers_by_key. rewrite answers_by_key_flat.
  pose proof (add_all_ok kind keys (flat_answers per_index) ∅) as Ha. destruct (try_fold _ _ _) as [by_key|e]; [|done].
  destruct Ha as [Hr Hv]. cbn. split; [done|]. rewrite take_groups_nodup by done. apply map_ext. intros key.
  unfold AnswersByKey in *. by rewrite Hv, lookup_empty.
Qed.

(** The hashes of a group: those its answers name, each once, by first
    appearance. *)
Lemma first_answers_hashes {K} (key : K) seen answers :
  map ca_object_hash (first_answers key seen answers) = unique_from seen (map (fun a => tr_object_hash a.2) answers).
Proof.
  revert seen. induction answers as [|[provider a] answers IH]; intros seen; cbn [first_answers map unique_from snd]; [done|].
  case_bool_decide; [apply IH|]. cbn [map ca_object_hash]. f_equal. apply IH.
Qed.

Lemma group_hashes (key : bytes) answers :
  mc_object_hashes (mapping_candidates (group_answers key answers)) =
  unique_in_order (map (fun a => tr_object_hash a.2) answers).
Proof. apply first_answers_hashes. Qed.

(** Combining the answers of the mapping providers for distinct keys is
    exact, and strict about what providers say: it fails, naming the key, when
    some answer is for a key that was not asked for, and otherwise yields for
    every key, in the order asked, its answers in provider order and the
    distinct hashes among them by first appearance. *)
Theorem combine_index_results_exact kind keys per_index :
  NoDup keys ->
  match combine_index_results kind keys per_index with
  | Ok groups =>
      (forall provider answers a, (provider, answers) ∈ per_index -> a ∈ answers -> tr_key a ∈ keys) /\
      map mapping_candidates groups = map (fun key =>
        mkMappingCandidates key
          (map (fun entry => mkAnswer entry.1 (tr_object_hash entry.2)) (answers_for key per_index))
          (unique_in_order (map (fun entry => tr_object_hash entry.2) (answers_for key per_index)))) keys
  | Err e => exists provider answers a, (provider, answers) ∈ per_index /\ a ∈ answers /\ tr_key a ∉ keys /\
      e = unrequested_key_error kind (show (display (tr_key a)))
  end.
Proof.
  intros Hn. pose proof (combine_ok kind keys per_index Hn) as Hc.
  assert (Hflat : forall entry, entry ∈ flat_answers per_index <->
    exists answers, (entry.1, answers) ∈ per_index /\ entry.2 ∈ answers).
  { intros [provider a]. unfold flat_answers. rewrite list_elem_of_In, in_flat_map. cbn [fst snd]. split.
    - intros ([p l] & Hp & (x & [= <- <-] & Hx)%in_map_iff). exists l. by rewrite !list_elem_of_In.
    - intros (l & Hl & Ha). exists (provider, l). apply list_elem_of_In in Hl, Ha. split; [done|].
      apply in_map_iff. by exists a. }
  destruct (combine_index_results kind keys per_index) as [groups|e].
  - destruct Hc as [Hr ->]. split.
    + intros provider answers a Hp Ha. unfold requested_all in Hr. rewrite Forall_forall in Hr.
      apply (Hr (provider, a)), Hflat. by exists answers.
    + rewrite map_map. apply map_ext. intros key. unfold mapping_candidates. cbn [group_answers gr_key gr_answers gr_candidates].
      rewrite first_answers_hashes. f_equal. apply map_ext. by intros [provider a].
  - destruct Hc as (entry & (answers & Hp & Ha)%Hflat & Hk & ->). exists entry.1, answers, entry.2. done.
Qed.

Definition two_indexes (key : bytes) : list (bytes * list (TrustedResolution bytes)) :=
  [(lit "near", [mkTrusted (repeat 1%Z 32) (repeat 7%Z 32)]); (lit "far", [mkTrusted key (repeat 8%Z 32)])].

(** Two providers disagree on the same key, and one answers out of turn. *)
Lemma combine_index_results_exact_witness :
  map mapping_candidates (match combine_index_results "build" [repeat 1%Z 32] (two_indexes (repeat 1%Z 32)) with Ok groups => groups | Err _ => [] end)
  = [mkMappingCandidates (repeat 1%Z 32) [mkAnswer (lit "near") (repeat 7%Z 32); mkAnswer (lit "far") (repeat 8%Z 32)]
       [repeat 7%Z 32; repeat 8%Z 32]] /\
  exists e, combine_index_results "build" [repeat 1%Z 32] (two_indexes (repeat 2%Z 32)) = Err e.
Proof.
  pose proof (combine_index_results_exact "build" [repeat 1%Z 32] (two_indexes (repeat 1%Z 32)) (NoDup_singleton _)) as H1.
  pose proof (combine_index_results_exact "build" [repeat 1%Z 32] (two_indexes (repeat 2%Z 32)) (NoDup_singleton _)) as H2.
  split.
  - destruct (combine_index_results _ _ (two_indexes (repeat 1%Z 32))) as [groups|e].
    + destruct H1 as [_ H1]. exact H1.
    + exfalso. destruct H1 as (p & l & a & Hp & Ha & Hk & _). apply Hk. unfold two_indexes in Hp.
      repeat (apply elem_of_cons in Hp as [[= -> ->]|Hp]; [apply list_elem_of_singleton in Ha as ->; by left|]).
      by apply elem_of_nil in Hp.
  - destruct (combine_index_results _ _ (two_indexes (repeat 2%Z 32))) as [groups|e]; [|by exists e].
    exfalso. destruct H2 as [H2 _]. specialize (H2 (lit "far") [mkTrusted (repeat 2%Z 32) (repeat 8%Z 32)] (mkTrusted (repeat 2%Z 32) (repeat 8%Z 32))).
    assert (Hin : repeat 2%Z 32 ∈ [repeat 1%Z 32]) by (apply H2; [right; left|left]). by apply list_elem_of_singleton in Hin.
Defined.
