(* ===== verification/ResolverSafety.v ===== *)
(** * Safety of the resolver

    What the resolver promises, against the contracts of mapping and content
    providers: the store stays well formed, candidates are vouched for by the
    providers, and an object reported complete is published. *)

From S2P Require Import Prelude Errors Hash Text FsObject FsArchive FsManifest Subjects Posix Tasks.
From S2P Require Import Store StoreInvariant StoreSafety Fibers FiberSafety Resolver Answers.

(** The promise of a fallible program concerns its successes. *)
Definition ok_post {E A : Type} (P : A -> World -> Prop) (r : result E A) (w : World) : Prop :=
  match r with Ok a => P a w | Err _ => True end.

(** ** Programs that only look *)

Definition observes (o : Op) : bool :=
  match o with
  | OSymlinkMetadata _ | OMetadata _ | OReadLink _ | ORead _ | OReadDir _ | OCanonicalize _ | OLoad _ | ONow => true
  | _ => false
  end.

Lemma observes_exec o who e w : observes o = true -> (exec who e o w).2 = w.
Proof. by destruct o. Qed.

(** The program only looks, and its results satisfy [P] whatever it sees. *)
Fixpoint reads {A : Type} (P : A -> Prop) (m : prog A) : Prop :=
  match m with
  | Ret a => P a
  | Do o k => observes o = true /\ forall r, reads P (k r)
  end.

Lemma reads_bind {A B} (P : A -> Prop) (Q : B -> Prop) (m : prog A) (f : A -> prog B) :
  reads P m -> (forall a, P a -> reads Q (f a)) -> reads Q (bind m f).
Proof. induction m as [a|o k IH]; cbn; [auto|]. intros [Ho Hk] Hf. split; [done|]. intros r. by apply IH. Qed.

Definition ok_only {E A : Type} (P : A -> Prop) (r : result E A) : Prop :=
  match r with Ok a => P a | Err _ => True end.

Lemma reads_try {E A B} (P : A -> Prop) (Q : B -> Prop) (m : prog (result E A)) (f : A -> prog (result E B)) :
  reads (ok_only P) m -> (forall a, P a -> reads (ok_only Q) (f a)) -> reads (ok_only Q) (try_bind m f).
Proof. intros Hm Hf. eapply reads_bind; [exact Hm|]. intros [a|e] Ha; [by apply Hf|done]. Qed.

Lemma reads_mapping {E F A} (g : E -> F) (P : A -> Prop) (m : prog (result E A)) :
  reads (ok_only P) m -> reads (ok_only P) (mapping_err g m).
Proof. intros Hm. eapply reads_bind; [exact Hm|]. by intros [a|e]. Qed.

Lemma reads_call {E A} (o : Op) (f : Resp o -> result E A) :
  observes o = true -> reads (ok_only (fun _ => True)) (bind (call o) (fun r => Ret (f r))).
Proof. intros Ho. split; [done|]. intros r. cbn. by destruct (f r). Qed.

Section Setting.
Context `{Sha256Api} `{JsonApi}.
Context (process : Z) (store : Store) (around : list node) (vouched : bytes -> bytes -> bytes -> Prop).

(** The scratch directory of each fiber. *)
Context (scratch : nat -> path).
Definition owner (t : nat) : Owner := mkOwner (mkActor t process) (Some (scratch t)).

Definition relies (t : nat) : World -> World -> Prop := rely store (owner t).
Definition guars (t : nat) : World -> World -> Prop := guar store (owner t).
Definition evolves (w w' : World) : Prop := keeps store (tree w) (tree w').

(** ** What cells and jobs promise *)

Definition candidate_ok (d key h : bytes) : Prop := wf_hash h /\ vouched d key h.
Definition resolution_ok (d : bytes) (a : TrustedResolution bytes) : Prop :=
  candidate_ok d (tr_key a) (tr_object_hash a).

(** The build key is resolved to a complete object of the store. *)
Definition resolved (key h : bytes) (w : World) : Prop :=
  candidate_ok BUILDS_DIR key h /\ published store (tree w) h.

Context (goals : list bytes).

Definition cell_pre (c : CellName) : Prop := match c with CContent h _ => wf_hash h | _ => True end.
Definition cell_ok (c : CellName) (v : Val) (w : World) : Prop :=
  match c with
  | CCandidates key =>
      exists r, v = VCandidates r /\ ok_post (fun hs _ => Forall (candidate_ok BUILDS_DIR key) hs) r w
  | CLocal key => exists r, v = VLocal r /\ ok_post (resolved key) r w
  | CContent h _ => exists r, v = VContent r /\ ok_post (fun b w => b = true -> wf_hash h /\ published store (tree w) h) r w
  end.

Definition job_pre (j : Job) : Prop :=
  match j with
  | JBuilds _ keys | JReuses _ keys | JObjects _ keys | JFsFiles _ keys => Forall wf_hash keys
  | _ => True
  end.
Definition job_ok (j : Job) (v : Val) (w : World) : Prop :=
  match j with
  | JGoals =>
      exists r, v = VGoals r /\
        ok_post (fun l w => map fst l = goals /\ Forall (fun '(key, h) => resolved key h w) l) r w
  | JLocal key => exists r, v = VLocal r /\ ok_post (resolved key) r w
  | JCandidates key =>
      exists r, v = VCandidates r /\ ok_post (fun hs _ => Forall (candidate_ok BUILDS_DIR key) hs) r w
  | JBuilds _ _ => exists r, v = VMappings r /\ ok_post (fun l _ => Forall (resolution_ok BUILDS_DIR) l) r w
  | JReuses _ _ => exists r, v = VMappings r /\ ok_post (fun l _ => Forall (resolution_ok REUSES_DIR) l) r w
  | JObjects _ _ | JFsFiles _ _ => exists r, v = VLocated r
  end.

(** ** Contracts of providers *)

Definition obeys {A : Type} (t : nat) (m : prog A) (Q : A -> World -> Prop) (w : World) : Prop :=
  Tasks.wp ow_actor (store_inv store around vouched) (rely store) (guar store) (owner t) m Q w.

(** A mapping provider only answers with mappings that hold. *)
Class MappingContract (p : NamedMappingProvider) : Prop := {
  resolve_builds_law t keys w : store_inv store around vouched w -> Forall wf_hash keys ->
    obeys t (mp_resolve_builds p keys) (ok_post (fun l _ => Forall (resolution_ok BUILDS_DIR) l)) w;
  resolve_reuses_law t keys w : store_inv store around vouched w -> Forall wf_hash keys ->
    obeys t (mp_resolve_reuses p keys) (ok_post (fun l _ => Forall (resolution_ok REUSES_DIR) l)) w;
}.

(** A content provider leaves the store well formed and says of a tree which
    files it has; whether an import succeeded is for the store to find out. *)
Class ContentContract (p : NamedContentProvider) : Prop := {
  locate_objects_law t hs w : store_inv store around vouched w -> Forall wf_hash hs ->
    obeys t (cp_locate_objects p hs) (fun _ _ => True) w;
  object_manifest_law t h w : store_inv store around vouched w -> wf_hash h ->
    obeys t (cp_object_manifest p h)
      (ok_post (fun m _ => forall m', m = Some m' -> Forall hashes_wf (entries m'))) w;
  locate_fs_files_law t hs w : store_inv store around vouched w -> Forall wf_hash hs ->
    obeys t (cp_locate_fs_files p hs) (fun _ _ => True) w;
  import_fs_files_law t hs w : store_inv store around vouched w -> Forall wf_hash hs ->
    obeys t (cp_import_fs_files p store hs) (fun _ _ => True) w;
  import_object_law t h w : store_inv store around vouched w -> wf_hash h ->
    obeys t (cp_import_object p store h) (fun _ _ => True) w;
}.

(** ** Rules *)

Local Abbreviation inv := (store_inv store around vouched).
Definition fsafe {A : Type} (t : nat) (out : list (nat * Job)) (p : async A) (Q : A -> World -> Prop) (w : World) : Prop :=
  fwp process inv relies guars evolves cell_pre cell_ok job_pre job_ok t out p Q w.

Lemma evolves_refl w : inv w -> evolves w w.
Proof. apply keeps_refl. Qed.
Lemma evolves_trans w1 w2 w3 : evolves w1 w2 -> evolves w2 w3 -> evolves w1 w3.
Proof. apply keeps_trans. Qed.
Lemma relies_evolves t w w' : relies t w w' -> evolves w w'.
Proof. by intros [? _]. Qed.
Lemma guars_evolves t w w' : guars t w w' -> evolves w w'.
Proof. by intros [? _]. Qed.

Lemma published_evolves w w' h : wf_hash h -> evolves w w' -> published store (tree w) h -> published store (tree w') h.
Proof. apply keeps_published. Qed.

Lemma resolved_evolves w w' key h : evolves w w' -> resolved key h w -> resolved key h w'.
Proof. intros He [[Hh Hv] Hp]. split; [done|]. by eapply published_evolves. Qed.

Lemma fsafe_weaken {A} t out (p : async A) P Q w :
  inv w -> fsafe t out p P w -> (forall a w', evolves w w' -> inv w' -> P a w' -> Q a w') -> fsafe t out p Q w.
Proof.
  intros Hi Hp HQ. eapply fwp_weaken; [exact evolves_trans|exact relies_evolves|exact guars_evolves|exact evolves_refl| |done|exact Hp].
  exact HQ.
Qed.

Lemma fsafe_ret {A} t (a : A) (Q : A -> World -> Prop) w : Q a w -> fsafe t [] (FRet a) Q w.
Proof. by split. Qed.

Lemma fsafe_bind {A B} t out (p : async A) (f : A -> async B) P Q w :
  inv w -> fsafe t out p P w -> (forall a w', evolves w w' -> inv w' -> P a w' -> fsafe t [] (f a) Q w') ->
  fsafe t out (fbind p f) Q w.
Proof.
  intros Hi Hp Hf. apply fwp_bind; [done|]. eapply fsafe_weaken; [done|exact Hp|]. intros a w' He Hi' Ha _. by apply Hf.
Qed.

Lemma fsafe_try {E A B} t out (p : async (result E A)) (f : A -> async (result E B)) P Q w :
  inv w -> fsafe t out p (ok_post P) w ->
  (forall a w', evolves w w' -> inv w' -> P a w' -> fsafe t [] (f a) (ok_post Q) w') ->
  fsafe t out (ftry p f) (ok_post Q) w.
Proof.
  intros Hi Hp Hf. eapply fsafe_bind; [done|exact Hp|]. intros [a|e] w' He Hi' Ha; [by apply Hf|by apply fsafe_ret].
Qed.

Lemma fsafe_map_err {E F A} t out (g : E -> F) (p : async (result E A)) P w :
  inv w -> fsafe t out p (ok_post P) w -> fsafe t out (fmap_err g p) (ok_post P) w.
Proof. intros Hi Hp. eapply fsafe_bind; [done|exact Hp|]. intros [a|e] w' He Hi' Ha; by apply fsafe_ret. Qed.

Lemma fsafe_blocking {A} t (m : prog A) P Q w :
  inv w -> obeys t m P w -> (forall a w', evolves w w' -> inv w' -> P a w' -> Q a w') -> fsafe t [] (blocking m) Q w.
Proof.
  intros Hi Hm HQ. eapply fsafe_weaken; [done| |exact HQ]. apply fwp_blocking.
  exact (wp_reindex owner ow_actor _ (rely store) (guar store) t m P w Hm).
Qed.

Lemma fsafe_get {A} t out (k : Shared -> async A) Q w :
  (forall s w', evolves w w' -> inv w' -> fsafe t out (k s) Q w') -> fsafe t out (FGet k) Q w.
Proof. intros Hk s w' Hr Hi. apply Hk; [by eapply relies_evolves|done]. Qed.

Lemma fsafe_put {A} t out f (k : async A) Q w :
  (forall w', evolves w w' -> inv w' -> fsafe t out k Q w') -> fsafe t out (FPut f k) Q w.
Proof. intros Hk w' Hr Hi. apply Hk; [by eapply relies_evolves|done]. Qed.

Lemma obeys_reads {A} t (P : A -> Prop) (m : prog A) w : inv w -> reads P m -> obeys t m (fun a _ => P a) w.
Proof.
  revert w. induction m as [a|o k IH]; intros w Hi Hm; [done|]. destruct Hm as [Ho Hk]. intros e.
  pose proof (observes_exec o (ow_actor (owner t)) e w Ho) as E.
  destruct (exec (ow_actor (owner t)) e o w) as [r w']. cbn in E. subst w'.
  split_and!; [done|by eapply guar_refl|]. intros w'' _ Hi''. by apply IH.
Qed.

Lemma fsafe_reads {A} t (P : A -> Prop) (m : prog A) Q w :
  inv w -> reads P m -> (forall a w', evolves w w' -> inv w' -> P a -> Q a w') -> fsafe t [] (blocking m) Q w.
Proof. intros Hi Hm HQ. eapply fsafe_blocking; [done|by apply obeys_reads|]. exact HQ. Qed.
(** Looking at something and going on. *)
Lemma fsafe_look {A B} t (m : prog A) (f : A -> async B) Q w :
  inv w -> reads (fun _ => True) m -> (forall a w', inv w' -> fsafe t [] (f a) Q w') -> fsafe t [] (fbind (blocking m) f) Q w.
Proof.
  intros Hi Hm Hf. eapply fsafe_bind with (P := fun _ _ => True); [done|by eapply fsafe_reads|]. intros a w' _ Hi' _. by apply Hf.
Qed.

Lemma fsafe_inspect {E A B} t (m : prog (result E A)) (f : A -> async (result E B)) Q w :
  inv w -> reads (ok_only (fun _ => True)) m -> (forall a w', inv w' -> fsafe t [] (f a) (ok_post Q) w') ->
  fsafe t [] (ftry (blocking m) f) (ok_post Q) w.
Proof.
  intros Hi Hm Hf. eapply fsafe_try with (P := fun _ _ => True); [done|eapply fsafe_reads; [done|exact Hm|by intros []]|].
  intros a w' _ Hi' _. by apply Hf.
Qed.

(** A call whose answer is not relied upon. *)
Lemma fsafe_ask {A B} t (m : prog A) (f : A -> async B) Q w :
  inv w -> obeys t m (fun _ _ => True) w -> (forall a w', inv w' -> fsafe t [] (f a) Q w') ->
  fsafe t [] (fbind (blocking m) f) Q w.
Proof.
  intros Hi Hm Hf. eapply fsafe_bind with (P := fun _ _ => True); [done|by eapply fsafe_blocking|]. intros a w' _ Hi' _. by apply Hf.
Qed.
End Setting.

(** ** The resolver *)

Section Resolver.
Context `{Sha256Api} `{JsonApi}.
Context (process : Z) (store : Store) (around : list node) (vouched : bytes -> bytes -> bytes -> Prop).
Context (scratch : nat -> path) (goals : list bytes).
Context (root_names : Forall valid_name store) (identify : hashes_identify around).
Context (owners_ok : forall t, owner_ok store (owner process scratch t)).
Context (record_json : ObjectRecord -> result string bytes) (format_timestamp : Z -> result string bytes).
Context (timestamp_text : forall t s, format_timestamp t = Ok s -> 47%Z ∉ s).
Context (join_error : string) (run_id : bytes).
Context (mapping_providers : list NamedMappingProvider) (sources : list NamedContentProvider).
Context (mapping_laws : forall p, p ∈ mapping_providers -> MappingContract process store around vouched scratch p).
Context (content_laws : forall p, p ∈ sources -> ContentContract process store around vouched scratch p).

Local Abbreviation inv := (store_inv store around vouched).
Local Abbreviation evolves := (evolves store).
Local Abbreviation fsafe := (fsafe process store around vouched scratch goals).
Local Abbreviation obeys := (obeys process store around vouched scratch).
Local Abbreviation candidate_ok := (candidate_ok vouched).
Local Abbreviation resolution_ok := (resolution_ok vouched).
Local Abbreviation job_ok := (job_ok store vouched goals).
Local Abbreviation cell_ok := (cell_ok store vouched).

Lemma cell_stable c v w w' : evolves w w' -> cell_ok c v w -> cell_ok c v w'.
Proof.
  destruct c as [key|key|h g]; cbn; intros He (r & -> & Hr); exists r; (split; [done|]); destruct r; try done.
  - by eapply resolved_evolves.
  - intros E. destruct (Hr E) as [Hh Hp]. split; [done|]. by eapply published_evolves.
Qed.

Lemma job_stable j v w w' : evolves w w' -> job_ok j v w -> job_ok j v w'.
Proof.
  destruct j; cbn; intros He Hj; try done.
  - destruct Hj as (r & -> & Hr). exists r. split; [done|]. destruct r as [l|]; [|done]. destruct Hr as [Hm Hl].
    split; [done|]. eapply Forall_impl; [exact Hl|]. intros [k h] Hk. by eapply resolved_evolves.
  - destruct Hj as (r & -> & Hr). exists r. split; [done|]. destruct r; [|done]. by eapply resolved_evolves.
Qed.

(** *** Asking all providers *)

Lemma join_providers_safe {T} (project : Val -> option (result ProviderError T)) operation (P : T -> Prop) t n out ordered w :
  (forall i j v w' x, (i, j) ∈ out -> job_ok j v w' -> project v = Some (Ok x) -> P x) ->
  inv w -> length out = n -> (forall x, Some (Ok x) ∈ ordered -> P x) ->
  fsafe t out (join_providers join_error project operation n ordered)
    (ok_post (fun l _ => forall x, Some (Ok x) ∈ l -> P x)) w.
Proof.
  intros Hproj. revert out ordered w Hproj. induction n as [|n IH]; intros out ordered w Hproj Hi Hlen Ho; cbn [join_providers].
  { apply nil_length_inv in Hlen as ->. by apply fsafe_ret. }
  intros l1 i j l2 -> w' Hr Hi'. split.
  - intros v Hv. destruct (project v) as [r|] eqn:Ep; [|done]. apply IH; [|done| |].
    + intros i0 j0 v0 w0 x Hin. apply (Hproj i0). rewrite elem_of_app, elem_of_cons in *. tauto.
    + rewrite length_app in *. cbn in Hlen. lia.
    + intros x Hx. apply list_elem_of_lookup in Hx as [k Hk]. apply list_lookup_insert_Some in Hk as [(<- & E & _)|[_ Hk]]; [injection E as ->|].
      * apply (Hproj i j v w' x); [|done|done]. rewrite elem_of_app, elem_of_cons. tauto.
      * apply Ho, list_elem_of_lookup. by exists k.
  - intros w2 Hr2 Hi2. by split.
Qed.

Lemma settle_providers_ok {T} (P : T -> Prop) names (ordered : list (option (result ProviderError T))) r :
  settle_providers names ordered = Some r -> (forall x, Some (Ok x) ∈ ordered -> P x) ->
  ok_only (fun l => forall name x, Some (name, x) ∈ l -> P x) r.
Proof.
  revert ordered r. induction names as [|name names IH]; intros [|[[value|error]|] ordered] r Hs Ho;
    cbn [settle_providers] in Hs; try done; try (injection Hs as <-; cbn; by intros ? ? ?%elem_of_nil).
  all: assert (Ho' : forall x, Some (Ok x) ∈ ordered -> P x) by (intros x Hx; apply Ho; by right).
  2: destruct (provider_transport_failure error); [|by injection Hs as <-].
  all: destruct (settle_providers names ordered) as [rest|] eqn:Er; [|done]; injection Hs as <-.
  all: pose proof (IH ordered rest Er Ho') as Hrest; destruct rest as [l|e]; [|done]; cbn in Hrest |- *.
  all: intros nm x Hx; apply elem_of_cons in Hx as [Hx|Hx]; [|by eapply Hrest].
  - injection Hx as -> ->. apply Ho. by left.
  - done.
Qed.

Lemma collect_safe {T} (project : Val -> option (result ProviderError T)) operation names jobs (P : T -> Prop) t w :
  (forall j v w' x, j ∈ jobs -> job_ok j v w' -> project v = Some (Ok x) -> P x) ->
  inv w -> Forall job_pre jobs ->
  fsafe t [] (collect_ordered_provider_tasks join_error project operation names jobs)
    (ok_post (fun l _ => forall name x, Some (name, x) ∈ l -> P x)) w.
Proof.
  intros Hproj Hi Hpre. split_and!; [done|done|]. intros w' Hr Hi'.
  eapply fsafe_try with (P := fun l _ => forall x, Some (Ok x) ∈ l -> P x); [done| |].
  - apply join_providers_safe; [|done| |].
    + intros i j v w0 x Hin. apply Hproj. by apply elem_of_zip_r in Hin.
    + rewrite length_zip, length_seq. lia.
    + intros x Hx. apply list_elem_of_In, repeat_spec in Hx. done.
  - intros ordered w1 He Hi1 Ho. destruct (settle_providers names ordered) as [r|] eqn:Es; [|done]. apply fsafe_ret.
    pose proof (settle_providers_ok P names ordered r Es Ho) as Hr'. by destruct r.
Qed.

Lemma elem_of_omap_id {A} (l : list (option A)) (x : A) : x ∈ omap id l <-> Some x ∈ l.
Proof. rewrite list_elem_of_omap. split; [intros ([y|] & Hy & E); [|done]; cbn in E; congruence|]. intros Hx. by exists (Some x). Qed.

Definition answers_ok (d : bytes) (per_index : list (bytes * list (TrustedResolution bytes))) : Prop :=
  forall provider answers, (provider, answers) ∈ per_index -> Forall (resolution_ok d) answers.

Lemma query_builds_safe t keys w :
  inv w -> Forall wf_hash keys ->
  fsafe t [] (query_build_providers join_error mapping_providers keys) (ok_post (fun l _ => answers_ok BUILDS_DIR l)) w.
Proof.
  intros Hi Hk. eapply fsafe_try with (P := fun l _ => forall name x, Some (name, x) ∈ l -> Forall (resolution_ok BUILDS_DIR) x);
    [done| |].
  - apply collect_safe; [|done|].
    + intros j v w' x (order & -> & _)%list_elem_of_fmap (r & -> & Hr) [= ->]. done.
    + apply Forall_forall. by intros j (order & -> & _)%list_elem_of_fmap.
  - intros l w' _ _ Hl. apply fsafe_ret. intros provider answers Hin. apply elem_of_omap_id in Hin. by eapply Hl.
Qed.

Lemma query_reuses_safe t keys w :
  inv w -> Forall wf_hash keys ->
  fsafe t [] (query_reuse_providers join_error mapping_providers keys) (ok_post (fun l _ => answers_ok REUSES_DIR l)) w.
Proof.
  intros Hi Hk. eapply fsafe_try with (P := fun l _ => forall name x, Some (name, x) ∈ l -> Forall (resolution_ok REUSES_DIR) x);
    [done| |].
  - apply collect_safe; [|done|].
    + intros j v w' x (order & -> & _)%list_elem_of_fmap (r & -> & Hr) [= ->]. done.
    + apply Forall_forall. by intros j (order & -> & _)%list_elem_of_fmap.
  - intros l w' _ _ Hl. apply fsafe_ret. intros provider answers Hin. apply elem_of_omap_id in Hin. by eapply Hl.
Qed.

(** The candidates of a lookup. *)
Definition reports_ok (d : bytes) (keys : list bytes) (reports : list (MappingCandidates bytes)) : Prop :=
  map mc_key reports = unique_in_order keys /\
  Forall (fun report => Forall (candidate_ok d (mc_key report)) (mc_object_hashes report)) reports.

Lemma combine_reports_ok d kind keys per_index groups :
  answers_ok d per_index -> combine_index_results kind (unique_in_order keys) per_index = Ok groups ->
  reports_ok d keys (map mapping_candidates groups).
Proof.
  intros Ha Hc. pose proof (combine_ok kind (unique_in_order keys) per_index (unique_from_nodup _ _)) as Hk.
  rewrite Hc in Hk. destruct Hk as [_ ->]. rewrite map_map. split.
  - rewrite map_map. cbn. apply map_id.
  - apply Forall_forall. intros report (key & -> & _)%list_elem_of_fmap. rewrite group_hashes. cbn [mapping_candidates mc_key gr_key group_answers].
    apply Forall_forall. intros h Hh. apply elem_of_unique, list_elem_of_fmap in Hh as ([provider a] & -> & Hin).
    unfold answers_for in Hin. apply list_elem_of_filter in Hin as [<- Hin]. unfold flat_answers in Hin.
    rewrite list_elem_of_In, in_flat_map in Hin. destruct Hin as ([p l] & Hp & (x & [= <- <-] & Hx)%in_map_iff).
    apply list_elem_of_In in Hp, Hx. specialize (Ha _ _ Hp). rewrite Forall_forall in Ha. by apply Ha in Hx.
Qed.

Lemma wf_unique keys : Forall wf_hash keys -> Forall wf_hash (unique_in_order keys).
Proof. rewrite !Forall_forall. intros Hk k Hin. by apply Hk, elem_of_unique. Qed.

Lemma lookup_builds_safe t keys w :
  inv w -> Forall wf_hash keys ->
  fsafe t [] (lookup_builds join_error mapping_providers keys) (ok_post (fun l _ => reports_ok BUILDS_DIR keys l)) w.
Proof.
  intros Hi Hk. eapply fsafe_try with (P := fun groups _ => reports_ok BUILDS_DIR keys (map mapping_candidates groups)); [done| |].
  - eapply fsafe_try; [done|apply query_builds_safe; [done|by apply wf_unique]|]. intros per_index w' _ _ Ha. apply fsafe_ret.
    destruct (combine_index_results _ _ _) eqn:E; [|done]. cbn [ok_post]. eapply combine_reports_ok; [exact Ha|exact E].
  - intros groups w' _ _ Hg. by apply fsafe_ret.
Qed.

Lemma lookup_reuses_safe t keys w :
  inv w -> Forall wf_hash keys ->
  fsafe t [] (lookup_reuses join_error mapping_providers keys) (ok_post (fun l _ => reports_ok REUSES_DIR keys l)) w.
Proof.
  intros Hi Hk. eapply fsafe_try; [done|apply query_reuses_safe; [done|by apply wf_unique]|]. intros per_index w' _ _ Ha. apply fsafe_ret.
  destruct (combine_index_results _ _ _) eqn:E; [|done]. cbn. eapply combine_reports_ok; [exact Ha|exact E].
Qed.

(** The spawned calls. *)
Lemma mappings_task_safe t d (call : prog (result ProviderError (list (TrustedResolution bytes)))) w :
  inv w -> obeys t call (ok_post (fun l _ => Forall (resolution_ok d) l)) w ->
  fsafe t [] (fbind (blocking call) (fun r => FRet (VMappings r)))
    (fun v w' => exists r, v = VMappings r /\ ok_post (fun l _ => Forall (resolution_ok d) l) r w') w.
Proof.
  intros Hi Hc. eapply fsafe_bind; [done|eapply fsafe_blocking; [done|exact Hc|by intros a w' _ _ Ha; exact Ha]|].
  intros r w' _ _ Hr. apply fsafe_ret. by exists r.
Qed.

Lemma located_task_safe (t : nat) (call : prog (result ProviderError (gset bytes))) w :
  inv w -> obeys t call (fun _ _ => True) w ->
  fsafe t [] (fbind (blocking call) (fun r => FRet (VLocated r))) (fun v w' => exists r, v = VLocated r) w.
Proof.
  intros Hi Hc. eapply fsafe_bind with (P := fun _ _ => True); [done|by eapply fsafe_blocking; [done|exact Hc|]|].
  intros r w' _ _ Hr. apply fsafe_ret. by exists r.
Qed.

Lemma provider_task_safe t j w :
  inv w -> job_pre j ->
  match j with
  | JBuilds order keys => fsafe t [] (resolve_builds_task mapping_providers order keys) (job_ok j) w
  | JReuses order keys => fsafe t [] (resolve_reuses_task mapping_providers order keys) (job_ok j) w
  | JObjects order hashes => fsafe t [] (locate_objects_task sources order hashes) (job_ok j) w
  | JFsFiles order hashes => fsafe t [] (locate_fs_files_task sources order hashes) (job_ok j) w
  | _ => True
  end.
Proof.
  intros Hi Hpre. destruct j as [|key|key|order keys|order keys|order hs|order hs]; try done.
  all: unfold resolve_builds_task, resolve_reuses_task, locate_objects_task, locate_fs_files_task.
  - destruct (mapping_providers !! order) as [p|] eqn:Ep; [|done]. apply list_elem_of_lookup_2, mapping_laws in Ep.
    by apply mappings_task_safe, resolve_builds_law.
  - destruct (mapping_providers !! order) as [p|] eqn:Ep; [|done]. apply list_elem_of_lookup_2, mapping_laws in Ep.
    by apply mappings_task_safe, resolve_reuses_law.
  - destruct (sources !! order) as [p|] eqn:Ep; [|done]. apply list_elem_of_lookup_2, content_laws in Ep.
    by apply located_task_safe, locate_objects_law.
  - destruct (sources !! order) as [p|] eqn:Ep; [|done]. apply list_elem_of_lookup_2, content_laws in Ep.
    by apply located_task_safe, locate_fs_files_law.
Qed.

Lemma locate_objects_safe t hashes w :
  inv w -> Forall wf_hash hashes ->
  fsafe t [] (locate_objects join_error sources hashes) (ok_post (fun _ _ => True)) w.
Proof.
  intros Hi Hh. eapply fsafe_try with (P := fun _ _ => True); [done| |by intros; apply fsafe_ret].
  eapply fsafe_weaken; [done|apply (collect_safe _ _ _ _ (fun _ => True))|by intros [] ? _ _ _]; [done|done|].
  apply Forall_forall. by intros j (order & -> & _)%list_elem_of_fmap.
Qed.

Lemma locate_fs_files_safe t hashes w :
  inv w -> Forall wf_hash hashes ->
  fsafe t [] (locate_fs_files join_error sources hashes) (ok_post (fun _ _ => True)) w.
Proof.
  intros Hi Hh. eapply fsafe_try with (P := fun _ _ => True); [done| |by intros; apply fsafe_ret].
  eapply fsafe_weaken; [done|apply (collect_safe _ _ _ _ (fun _ => True))|by intros [] ? _ _ _]; [done|done|].
  apply Forall_forall. by intros j (order & -> & _)%list_elem_of_fmap.
Qed.

(** *** Completing objects *)

Lemma missing_reads hashes :
  Forall wf_hash hashes -> reads (ok_only (Forall wf_hash)) (missing_fs_files store hashes).
Proof.
  induction 1 as [|h hashes Hh _ IH]; cbn [missing_fs_files]; [by constructor|]. split; [done|]. intros [md|error]; cbn.
  - by case_bool_decide.
  - case_bool_decide; [|done]. eapply reads_try; [exact IH|]. intros rest Hr. by constructor.
Qed.

Lemma unresolved_reads hashes unresolved : reads (fun _ => True) (still_unresolved store hashes unresolved).
Proof.
  revert unresolved. induction hashes as [|h hashes IH]; intros unresolved; cbn [still_unresolved]; [done|].
  split; [done|]. intros [md|error]; cbn; apply IH.
Qed.

Lemma imported_reads name hashes total unresolved :
  reads (ok_only (fun _ => True)) (imported_bytes store name hashes total unresolved).
Proof.
  revert total unresolved. induction hashes as [|h hashes IH]; intros total unresolved; cbn [imported_bytes]; [done|].
  split; [done|]. intros [md|error]; cbn; [|done]. case_bool_decide; [apply IH|done].
Qed.

Lemma stats_reads fuel p : reads (ok_only (fun _ => True)) (transferred_path_stats_fuel fuel p).
Proof.
  revert p. induction fuel as [|fuel IH]; intros p; cbn [transferred_path_stats_fuel]; [done|].
  split; [done|]. intros [md|error]; cbn; [|done]. destruct (file_type md); [done| |done].
  split; [done|]. intros [names|error]; cbn; [|done]. generalize 0%Z at 1. generalize 0%Z.
  induction names as [|name names IHn]; intros files total; [done|]. eapply reads_try; [apply IH|]. intros sums _. apply IHn.
Qed.

Lemma object_path_reads h : reads (ok_only (fun _ => True)) (object_path store h).
Proof. split; [done|]. intros [md|error]; cbn; [done|]. by destruct (bool_decide _). Qed.

Lemma read_manifest_reads p :
  reads (ok_only (fun m => forall m', m = Some m' -> Forall hashes_wf (entries m'))) (read_manifest_if_marked p).
Proof.
  unfold read_manifest_if_marked. split; [done|]. intros [md|error]; cbn; [|done]. case_bool_decide; cbn; [|done].
  split; [done|]. intros [content|error]; cbn; [|done]. repeat case_match; try done.
  all: split; [done|]; intros [content'|error]; cbn; [|done].
  all: destruct (parse_canonical_bytes content') as [m|e] eqn:Em; cbn; [|done].
  all: intros m' [= <-]; by eapply parse_manifest_hash.
Qed.

Lemma manifest_hashes_wf m : Forall hashes_wf (entries m) -> Forall wf_hash (manifest_fs_files m).
Proof.
  intros Hm. apply Forall_forall. intros h Hh. apply distinct_hashes_sub in Hh as [p Hp].
  rewrite Forall_forall in Hm. by apply Hm in Hp.
Qed.

Section Notify.
Context (notify : ContentTransferEvent -> Shared -> Shared).

Lemma closure_safe t object_hash missing index availability unresolved used transfers w :
  inv w -> Forall wf_hash missing ->
  fsafe t [] (closure_from store sources notify object_hash missing index availability unresolved used transfers)
    (ok_post (fun _ _ => True)) w.
Proof.
  intros Hi Hm. revert index unresolved used transfers w Hi.
  induction availability as [|available availability IH]; intros index unresolved used transfers w Hi; cbn [closure_from].
  { by apply fsafe_ret. }
  case_bool_decide; [by apply IH|]. destruct (sources !! index) as [source|] eqn:Es; [|done].
  apply list_elem_of_lookup_2, content_laws in Es.
  set (hashes := filter _ missing) in *. assert (Hh : Forall wf_hash hashes).
  { apply Forall_forall. intros h [_ Hh]%list_elem_of_filter. rewrite Forall_forall in Hm. by apply Hm. }
  apply fsafe_put. intros w1 _ Hi1.
  apply fsafe_look; [done|done|]. intros started w2 Hi2.
  apply fsafe_ask; [done|by apply import_fs_files_law|]. intros [encoded|error] w3 Hi3.
  - eapply fsafe_try with (P := fun _ _ => True); [done|eapply fsafe_reads; [done|apply imported_reads|by intros []]|].
    intros sums w4 _ Hi4 _.
    apply fsafe_look; [done|done|]. intros now w5 Hi5.
    apply fsafe_put. intros w6 _ Hi6. by apply IH.
  - destruct (content_item_failure error); [|by apply fsafe_ret]. apply fsafe_put. intros w4 _ Hi4.
    apply fsafe_look; [done|apply unresolved_reads|]. intros unresolved' w5 Hi5. by apply IH.
Qed.

Lemma manifest_closure_safe t object_hash manifest w :
  inv w -> Forall hashes_wf (entries manifest) ->
  fsafe t [] (ensure_manifest_closure join_error store sources notify object_hash manifest) (ok_post (fun _ _ => True)) w.
Proof.
  intros Hi Hm. eapply fsafe_try with (P := fun missing _ => Forall wf_hash missing); [done| |].
  - eapply fsafe_reads; [done|apply missing_reads, manifest_hashes_wf, Hm|by intros []].
  - intros missing w1 _ Hi1 Hmi. cbv beta in Hmi. case_bool_decide; [by apply fsafe_ret|].
    eapply fsafe_try with (P := fun _ _ => True); [done|by apply locate_fs_files_safe|].
    intros availability w2 _ Hi2 _. by apply closure_safe.
Qed.

Lemma import_from_safe t hash source used transfers next w :
  inv w -> wf_hash hash -> ContentContract process store around vouched scratch source ->
  (forall used transfers w', inv w' -> fsafe t [] (next used transfers) (ok_post (fun _ _ => True)) w') ->
  fsafe t [] (import_from store notify hash source used transfers next) (ok_post (fun _ _ => True)) w.
Proof.
  intros Hi Hh Hs Hn. apply fsafe_put. intros w1 _ Hi1.
  apply fsafe_look; [done|done|]. intros started w2 Hi2.
  apply fsafe_ask; [done|by apply import_object_law|]. intros [[outcome encoded]|error] w3 Hi3.
  - case_bool_decide; [by apply Hn|]. case_bool_decide; [|by apply fsafe_ret].
    apply fsafe_inspect; [done|apply object_path_reads|]. intros [p|] w4 Hi4; [|by apply fsafe_ret].
    apply fsafe_inspect; [done|apply stats_reads|]. intros sums w5 Hi5.
    apply fsafe_look; [done|done|]. intros now w6 Hi6.
    apply fsafe_put. intros w7 _ Hi7. by apply fsafe_ret.
  - destruct (content_item_failure error); [|by apply fsafe_ret]. apply fsafe_put. intros w4 _ Hi4. by apply Hn.
Qed.

Lemma acquire_from_safe t hash availability index rest used transfers w :
  inv w -> wf_hash hash -> (forall p, p ∈ rest -> p ∈ sources) ->
  fsafe t [] (acquire_from join_error store sources notify hash availability index rest used transfers)
    (ok_post (fun _ _ => True)) w.
Proof.
  intros Hi Hh Hrest. revert index used transfers w Hi.
  induction rest as [|source rest IH]; intros index used transfers w Hi; cbn [acquire_from]; [by apply fsafe_ret|].
  assert (Hnext : forall used transfers w', inv w' ->
    fsafe t [] (acquire_from join_error store sources notify hash availability (S index) rest used transfers)
      (ok_post (fun _ _ => True)) w').
  { intros used' transfers' w' Hi'. apply IH; [|done]. intros p Hp. apply Hrest. by right. }
  assert (Hs : ContentContract process store around vouched scratch source) by (apply content_laws, Hrest; by left).
  destruct (availability !! index) as [available|]; [|done]. case_bool_decide; [|by apply Hnext].
  eapply fsafe_bind; [done|eapply fsafe_blocking; [done|by apply object_manifest_law|by intros a w' _ _ Ha; exact Ha]|].
  intros [[manifest|]|error] w1 _ Hi1 Hm.
  - eapply fsafe_try with (P := fun _ _ => True); [done|by apply manifest_closure_safe; [|apply Hm]|].
    intros [closure|] w2 _ Hi2 _; [|by apply Hnext]. by apply import_from_safe.
  - by apply import_from_safe.
  - destruct (content_item_failure error); [|by apply fsafe_ret]. apply fsafe_put. intros w2 _ Hi2. by apply Hnext.
Qed.

Lemma acquire_candidate_safe t hash availability w :
  inv w -> wf_hash hash ->
  fsafe t [] (acquire_candidate join_error store sources notify hash availability) (ok_post (fun _ _ => True)) w.
Proof.
  intros Hi Hh. apply fsafe_inspect; [done|apply object_path_reads|]. intros [p|] w1 Hi1; [|by apply acquire_from_safe].
  eapply fsafe_try with (P := fun m _ => forall m', m = Some m' -> Forall hashes_wf (entries m')); [done| |].
  - eapply fsafe_reads; [done|apply read_manifest_reads|by intros []].
  - intros [manifest|] w2 _ Hi2 Hm; [|by apply fsafe_ret].
    eapply fsafe_try with (P := fun _ _ => True); [done|by apply manifest_closure_safe; [|apply Hm]|].
    intros closure w3 _ _ _. by apply fsafe_ret.
Qed.

Definition known_ok (r : KnownObjectResolution) (w : World) : Prop :=
  ko_outcome r <> None -> published store (tree w) (ko_object_hash r).

Lemma record_obeys t h w :
  inv w -> wf_hash h ->
  obeys t (record_existing_object record_json process store h run_id) (ok_post (fun _ w' => published store (tree w') h)) w.
Proof.
  intros Hi Hh. apply (record_existing_safe store root_names around identify vouched (owner process scratch t) (owners_ok t)
    format_timestamp timestamp_text); [done|done|]. intros [[]|] w' _ _ Hp; cbn; auto.
Qed.

Lemma complete_obeys t h w :
  inv w -> wf_hash h -> obeys t (object_is_complete store h) (ok_post (fun b w' => b = true -> complete store (tree w') h)) w.
Proof.
  intros Hi Hh. apply (object_is_complete_safe store root_names around identify vouched (owner process scratch t) (owners_ok t)
    format_timestamp timestamp_text); [done|done|]. intros [[]|] w' _ _ Hp; cbn; try done; auto.
Qed.

Lemma ensure_one_safe t availability hash w :
  inv w -> wf_hash hash ->
  fsafe t [] (ensure_one record_json process join_error store run_id sources notify availability hash)
    (ok_post (fun r w' => ko_object_hash r = hash /\ known_ok r w')) w.
Proof.
  intros Hi Hh. assert (Hrec : forall r w', inv w' -> ko_object_hash r = hash ->
    fsafe t [] (ftry (blocking (record_existing_object record_json process store hash run_id)) (fun _ => FRet (Ok r)))
      (ok_post (fun r w' => ko_object_hash r = hash /\ known_ok r w')) w').
  { intros r w' Hi' Hr. eapply fsafe_try; [done|eapply fsafe_blocking; [done|by apply record_obeys|by intros a w1 _ _ Ha; exact Ha]|].
    intros _u w1 _ _ Hp. apply fsafe_ret. split; [done|]. intros _. by rewrite Hr. }
  eapply fsafe_try with (P := fun _ _ => True); [done| |].
  - eapply fsafe_blocking; [done|by apply complete_obeys|by intros []].
  - intros [] w1 _ Hi1 _; [by apply Hrec|].
    eapply fsafe_try with (P := fun _ _ => True); [done|by apply acquire_candidate_safe|].
    intros [acquired|] w2 _ Hi2 _; [by apply Hrec|]. apply fsafe_ret. split; [done|]. by intros [].
Qed.

Lemma ensure_each_safe t availability hashes w :
  inv w -> Forall wf_hash hashes ->
  fsafe t [] (ensure_each record_json process join_error store run_id sources notify availability hashes)
    (ok_post (fun l w' => map ko_object_hash l = hashes /\ Forall (fun r => known_ok r w') l)) w.
Proof.
  intros Hi Hh. revert w Hi. induction Hh as [|hash hashes Hh Hhs IH]; intros w Hi; cbn [ensure_each].
  { by apply fsafe_ret. }
  eapply fsafe_try; [done|by apply ensure_one_safe|]. intros r w1 _ Hi1 [Er Hr].
  eapply fsafe_try; [done|by apply IH|]. intros l w2 He2 Hi2 [El Hl]. apply fsafe_ret. split; [cbn; by rewrite Er, El|].
  constructor; [|done]. intros Hn. eapply published_evolves; [by rewrite Er|exact He2|by apply Hr].
Qed.

Lemma incomplete_obeys t hashes w :
  inv w -> Forall wf_hash hashes -> obeys t (incomplete_objects store hashes) (ok_post (fun l _ => Forall wf_hash l)) w.
Proof.
  intros Hi Hh. revert w Hi. induction Hh as [|h hashes Hh _ IH]; intros w Hi; cbn [incomplete_objects].
  { by apply Forall_nil. }
  apply wp_try_bind; [done|]. eapply wp_weaken; [|done|by apply complete_obeys]. intros [complete|e] w1 Hi1 _ _; [|done].
  apply wp_try_bind; [done|]. eapply wp_weaken; [|done|by apply IH]. intros [rest|e] w2 Hi2 Hr _; [|done].
  cbn. destruct complete; [done|by constructor].
Qed.

(** The objects a caller asks for: a report for each, in order, and the ones
    reported complete are published. *)
Lemma ensure_objects_safe t hashes w :
  inv w -> Forall wf_hash hashes ->
  fsafe t [] (ensure_objects_with_progress record_json process join_error store run_id sources notify hashes)
    (ok_post (fun l w' => map ko_object_hash l = unique_in_order hashes /\ Forall (fun r => known_ok r w') l)) w.
Proof.
  intros Hi Hh. apply wf_unique in Hh. unfold ensure_objects_with_progress.
  eapply fsafe_try; [done|eapply fsafe_blocking; [done|by apply incomplete_obeys|by intros a w1 _ _ Ha; exact Ha]|].
  intros need w1 _ Hi1 Hneed. eapply fsafe_try with (P := fun _ _ => True); [done| |].
  - case_bool_decide; [by apply fsafe_ret|by apply locate_objects_safe].
  - intros availability w2 _ Hi2 _. by apply ensure_each_safe.
Qed.
End Notify.
End Resolver.
