(* ===== verification/Realizer.v ===== *)
(** * The dynamic realizer

    [bobr-source/src/dynamic_realizer.rs]: resolving the goals of a planned
    graph to complete objects in the working store.  A node first resolves to
    an ordered list of object hashes ([compute_candidates]); content is acquired
    only for goals and for the inputs of builders that have to run
    ([compute_local]).  Every key is resolved once per run, in a once-cell. *)

From S2P Require Import Prelude Errors Hash Text Json Identity FsObject FsArchive FsManifest Subjects Graph.
From S2P Require Import Posix Tasks Store Fibers Resolver.

Definition REUSE_LOOKUP_BATCH : nat := 256.

Definition realize_error (message : string) : RealizeError := mkRealizeError message false.
Definition realize_cancelled (message : string) : RealizeError := mkRealizeError message true.
Definition realize_from_store (error : StoreError) : RealizeError := realize_error (store_error_message error).

(** [ObjectCandidates::new]. *)
Definition object_candidates (hashes : list bytes) : list bytes := unique_in_order hashes.

(** [BuildExecutorError]. *)
Inductive BuildExecutorError :=
| ExInvalidRequest (message : string)
| ExClosed (message : string)
| ExCancelled (message : string)
| ExSetup (message : string)
| ExRun (message : string)
| ExBuild (message : string)
| ExPanic (message : string)
| ExPublish (message : string).

Definition executor_error_message (e : BuildExecutorError) : string :=
  match e with
  | ExInvalidRequest m | ExClosed m | ExCancelled m | ExSetup m | ExRun m | ExBuild m | ExPanic m | ExPublish m => m
  end.
Definition realize_from_executor (error : BuildExecutorError) : RealizeError :=
  match error with
  | ExCancelled m => realize_cancelled m
  | _ => realize_error (executor_error_message error)
  end.

(** [SourceOutcome]. *)
Inductive SourceOutcome :=
| Downloaded
| CacheHit
| Local
| SourceCancelled (name : bytes)
| SourceMismatched (name declared actual : bytes)
| SourceFailed (name : bytes) (message : string).

(** ** [CandidateProduct] *)

Definition Slots : Type := list (bytes * list bytes).

Record CandidateProduct := mkProduct { pr_indices : list nat; pr_first : bool; pr_done : bool }.

Definition product_new (slots : Slots) : CandidateProduct :=
  mkProduct (repeat 0%nat (length slots)) true (existsb (fun '(_, hashes) => bool_decide (hashes = [])) slots).

(** [current], with the bounds check of [hashes[*index]]. *)
Fixpoint product_current (slots : Slots) (indices : list nat) : option (list (bytes * bytes)) :=
  match slots, indices with
  | (name, hashes) :: slots', index :: indices' =>
      match hashes !! index, product_current slots' indices' with
      | Some h, Some l => Some ((name, h) :: l)
      | _, _ => None
      end
  | _, _ => Some []
  end.

(** The loop of [advance] over the positions below [n], from the last. *)
Fixpoint advance_from (slots : Slots) (n : nat) (indices : list nat) : list nat * bool :=
  match n with
  | O => (indices, true)
  | S index =>
      let value := S (default 0%nat (indices !! index)) in
      if (value <? length (default [] (snd <$> slots !! index)))%nat
      then (<[index := value]> indices, false)
      else advance_from slots index (<[index := 0%nat]> indices)
  end.
Definition product_advance (slots : Slots) (it : CandidateProduct) : CandidateProduct :=
  let '(indices, done) := advance_from slots (length (pr_indices it)) (pr_indices it) in
  mkProduct indices (pr_first it) (pr_done it || done).

(** [next]: an item that would index out of range is [None] inside. *)
Definition product_next (slots : Slots) (it : CandidateProduct)
  : option (option (gmap bytes bytes)) * CandidateProduct :=
  let current it := fmap list_to_map (product_current slots (pr_indices it)) in
  if pr_done it then (None, it)
  else if pr_first it then
    let it' := mkProduct (pr_indices it) false (pr_done it) in (Some (current it'), it')
  else
    let it' := product_advance slots it in
    (if pr_done it' then None else Some (current it'), it').

(** A [for] loop over the iterator sees these items, at most [fuel] of them. *)
Fixpoint product_items (slots : Slots) (fuel : nat) (it : CandidateProduct) : list (option (gmap bytes bytes)) :=
  match fuel with
  | O => []
  | S fuel' =>
      match product_next slots it with
      | (None, _) => []
      | (Some item, it') => item :: product_items slots fuel' it'
      end
  end.
Definition combinations (slots : Slots) : nat := foldr (fun '(_, hashes) n => (length hashes * n)%nat) 1%nat slots.
Definition candidate_product (slots : Slots) : list (option (gmap bytes bytes)) :=
  product_items slots (S (combinations slots)) (product_new slots).

(** ** The realizer *)

Section Realizer.
Context {Number : Type} `{ScalarWriter Number} `{Sha256Api} `{JsonApi}.
Context (record_json : ObjectRecord -> result string bytes) (format_timestamp : Z -> result string bytes).
Context (process : Z) (pending_fuel : nat) (join_error : string).

(** The fields of [DynamicRealizer] that do not change. *)
Context (graph : PlannedGraph (Number := Number)) (store : Store) (run_id : bytes).
Context (mapping_providers : list NamedMappingProvider) (sources : list NamedContentProvider).

(** The parts of the program that do the work: the build executor up to a
    staged output, the acquisition of a source from its origin, the
    materialisation of a filesystem tree, and the permit for local work.  The
    first two work in a scratch directory of their own; the number of the fiber
    that waits for them, which waits for one at a time, stands for its serial
    number. *)
Record Workers := mkWorkers {
  run_builder : nat -> BuilderPlannedSubject -> gmap bytes path -> gmap bytes bytes -> bytes
    -> prog (result BuildExecutorError path);
  process_source : nat -> bytes -> bytes -> JValue Number -> prog SourceOutcome;
  materialize_fs_tree_root : bytes -> option bytes -> prog (result string path);
  acquire_local_permit : prog (result string unit);
}.
Context (workers : Workers).

Local Open Scope async_scope.

Definition push_log (event : LogEvent) (s : Shared) : Shared :=
  mkShared (sh_cancelled s) (sh_contents s) (sh_built_keys s) (sh_log s ++ [event]).
Definition set_cancelled (s : Shared) : Shared := mkShared true (sh_contents s) (sh_built_keys s) (sh_log s).
Definition add_built_key (key : bytes) (s : Shared) : Shared :=
  mkShared (sh_cancelled s) (sh_contents s) ({[key]} ∪ sh_built_keys s) (sh_log s).

(** The content cell of [hash] is the one of generation [g]: remove it. *)
Definition current_generation (hash : bytes) (s : Shared) : nat := default 0%nat (sh_contents s !! hash).
Definition retire_content (hash : bytes) (g : nat) (s : Shared) : Shared :=
  if decide (current_generation hash s = g)
  then mkShared (sh_cancelled s) (<[hash := S g]> (sh_contents s)) (sh_built_keys s) (sh_log s)
  else s.

Definition cancelled_by_signal : RealizeError := realize_cancelled "build cancelled by signal".

Definition check_cancelled : async (result RealizeError unit) :=
  FGet (fun s => FRet (if sh_cancelled s then Err cancelled_by_signal else Ok tt)).

(** [cancel_run]; the token of the source engine is the engine's. *)
Definition cancel_run {A : Type} (k : async A) : async A := FPut set_cancelled k.

(** An error of the resolver or of the permit, unless the run is cancelled. *)
Definition unless_cancelled {E A : Type} (from : E -> RealizeError) (m : async (result E A))
  : async (result RealizeError A) :=
  do r := m in
  match r with
  | Ok a => FRet (Ok a)
  | Err error => FGet (fun s => FRet (Err (if sh_cancelled s then cancelled_by_signal else from error)))
  end.

Definition find_node (key : bytes) : result RealizeError (PlannedNode (Number := Number)) :=
  match pg_nodes graph !! key with
  | Some node => Ok node
  | None => Err (realize_error ("planned graph is missing node '" +:+ show (display key) +:+ "'"))
  end.

Definition working_build (key : bytes) : async (result RealizeError (option bytes)) :=
  fmap_err realize_from_store (blocking (load_build_object_hash store key)).
Definition working_reuse (key : bytes) : async (result RealizeError (option bytes)) :=
  fmap_err realize_from_store (blocking (load_reuse_object_hash store key)).

Definition secondary_builds (keys : list bytes) : async (result RealizeError (list (MappingCandidates bytes))) :=
  unless_cancelled realize_from_store (lookup_builds join_error mapping_providers keys).
Definition secondary_reuses (keys : list bytes) : async (result RealizeError (list (MappingCandidates bytes))) :=
  unless_cancelled realize_from_store (lookup_reuses join_error mapping_providers keys).

Definition log_mapping {A : Type} (kind : string) (key : bytes) (report : MappingCandidates bytes) (k : async A)
  : async A :=
  match mc_answers report with
  | [] => k
  | _ => FPut (push_log (LogMapping kind key (mc_answers report) (has_conflict report))) k
  end.

Definition log_cache_hit {A : Type} (key hash : bytes) (source_outcome : option string) (k : async A) : async A :=
  FPut (push_log (LogCacheHit key hash source_outcome)) k.

(** *** Cells *)

Definition known_local (key : bytes) : async (option bytes) :=
  FPeek (CLocal key) (fun v => FRet (match v with Some (VLocal (Ok h)) => Some h | _ => None end)).

Definition candidates (key : bytes) : async (result RealizeError (list bytes)) :=
  FOnce (CCandidates key) (fun v =>
    match v with
    | VCandidates (Ok hashes) =>
        do local := known_local key in
        FRet (Ok (match local with
                  | Some h => if bool_decide (h ∈ hashes) then hashes else hashes ++ [h]
                  | None => hashes
                  end))
    | VCandidates (Err error) => FRet (Err error)
    | _ => FPanic
    end).

Definition realize_local (key : bytes) : async (result RealizeError bytes) :=
  FOnce (CLocal key) (fun v => match v with VLocal r => FRet r | _ => FPanic end).

(** [ensure_object]: an unsuccessful cell is forgotten. *)
Definition ensure_object (hash : bytes) : async (result RealizeError bool) :=
  FGet (fun s =>
    let g := current_generation hash s in
    FOnce (CContent hash g) (fun v =>
      match v with
      | VContent (Ok false) => FPut (retire_content hash g) (FRet (Ok false))
      | VContent r => FRet r
      | _ => FPanic
      end)).

(** The initialiser of a content cell. *)
Definition compute_content (hash : bytes) : async (result RealizeError bool) :=
  check_cancelled ?;
  let? reports := unless_cancelled realize_from_store
      (ensure_objects_with_progress record_json process join_error store run_id sources
         (fun event => push_log (LogTransfer event)) [hash]) in
  check_cancelled ?;
  match reports with
  | report :: _ => FRet (Ok (match ko_outcome report with Some _ => true | None => false end))
  | [] => FPanic
  end.

(** *** Tasks for the inputs of a builder *)

(** The loop of [collect_ordered_input_tasks], [n] tasks left: the first error
    cancels the run, the others are still awaited. *)
Fixpoint join_inputs {T : Type} (project : Val -> option (result RealizeError T)) (operation : string)
  (n : nat) (ordered : list (option T)) (first_error : option RealizeError)
  : async (result RealizeError (list (option T))) :=
  match n with
  | O => FRet (match first_error with Some error => Err error | None => Ok ordered end)
  | S n' =>
      let failed error :=
        match first_error with
        | None => cancel_run (join_inputs project operation n' ordered (Some error))
        | Some _ => join_inputs project operation n' ordered first_error
        end in
      FNext (fun joined =>
        match joined with
        | Finished index v =>
            match project v with
            | Some (Ok value) =>
                join_inputs project operation n'
                  (match first_error with None => <[index := Some value]> ordered | Some _ => ordered end) first_error
            | Some (Err error) => failed error
            | None => FPanic
            end
        | Panicked => failed (realize_error (operation +:+ " task panicked: " +:+ join_error))
        end)
  end.

(** Every task produced a result ([expect]). *)
Fixpoint all_present {T : Type} (ordered : list (option T)) : option (list T) :=
  match ordered with
  | [] => Some []
  | Some x :: ordered' => match all_present ordered' with Some l => Some (x :: l) | None => None end
  | None :: _ => None
  end.

Definition join_all {T : Type} (project : Val -> option (result RealizeError T)) (operation : string)
  (jobs : list Job) : async (result RealizeError (list T)) :=
  FFork jobs (
    let? ordered := join_inputs project operation (length jobs) (repeat None (length jobs)) None in
    match all_present ordered with
    | Some l => FRet (Ok l)
    | None => FPanic
    end).

Definition project_local (v : Val) : option (result RealizeError bytes) :=
  match v with VLocal r => Some r | _ => None end.
Definition project_candidates (v : Val) : option (result RealizeError (list bytes)) :=
  match v with VCandidates r => Some r | _ => None end.

(** The first input without candidates is an error. *)
Fixpoint candidate_slots (builder : BuilderPlannedSubject) (names : list bytes) (hashes : list (list bytes))
  : result RealizeError Slots :=
  match names, hashes with
  | name :: names', h :: hashes' =>
      if bool_decide (h = []) then
        Err (realize_error ("input '" +:+ show name +:+ "' of builder '" +:+ show (bs_name builder)
                            +:+ "' has no object candidates"))
      else slots <- candidate_slots builder names' hashes' ;; Ok ((name, h) :: slots)
  | _, _ => Ok []
  end.

Definition input_candidate_slots (builder : BuilderPlannedSubject) : async (result RealizeError Slots) :=
  let inputs := ordered_inputs (bs_inputs builder) in
  let? hashes := join_all project_candidates "input candidate resolution"
                   (map (fun '(_, key) => JCandidates key) inputs) in
  FRet (candidate_slots builder (map fst inputs) hashes).

Definition reuse_key_of (builder : BuilderPlannedSubject) (inputs : gmap bytes bytes) : result RealizeError bytes :=
  map_err (fun error => realize_error (plan_error_message error)) (subject_reuse_key builder inputs).

(** *** Reuse *)

(** The first loop of [cached_reuse_candidates]. *)
Fixpoint working_reuse_hashes (builder : BuilderPlannedSubject) (items : list (option (gmap bytes bytes)))
  : async (result RealizeError (list bytes)) :=
  match items with
  | [] => FRet (Ok [])
  | None :: _ => FPanic
  | Some inputs :: items' =>
      match reuse_key_of builder inputs with
      | Err error => FRet (Err error)
      | Ok reuse_key =>
          let? found := working_reuse reuse_key in
          let? rest := working_reuse_hashes builder items' in
          FRet (Ok (match found with Some h => h :: rest | None => rest end))
      end
  end.

Fixpoint log_reports {A : Type} (reports : list (MappingCandidates bytes)) (k : async A) : async A :=
  match reports with
  | [] => k
  | report :: reports' => log_mapping "reuse" (mc_key report) report (log_reports reports' k)
  end.

Definition append_secondary_reuse_hashes (keys : list bytes) (output : list bytes)
  : async (result RealizeError (list bytes)) :=
  let? reports := secondary_reuses keys in
  log_reports reports (FRet (Ok (output ++ flat_map mc_object_hashes reports))).

(** Batched lookups over the combinations: [flush] handles a full batch and
    the last one. *)
Fixpoint in_batches {T : Type} (builder : BuilderPlannedSubject) (flush : list bytes -> T -> async (result RealizeError T))
  (items : list (option (gmap bytes bytes))) (batch : list bytes) (acc : T) : async (result RealizeError T) :=
  match items with
  | [] => match batch with [] => FRet (Ok acc) | _ => flush batch acc end
  | None :: _ => FPanic
  | Some inputs :: items' =>
      match reuse_key_of builder inputs with
      | Err error => FRet (Err error)
      | Ok reuse_key =>
          let batch := batch ++ [reuse_key] in
          if bool_decide (length batch = REUSE_LOOKUP_BATCH) then
            let? acc := flush batch acc in
            in_batches builder flush items' [] acc
          else in_batches builder flush items' batch acc
      end
  end.

Definition cached_reuse_candidates (builder : BuilderPlannedSubject) : async (result RealizeError (list bytes)) :=
  let? slots := input_candidate_slots builder in
  let? working_hashes := working_reuse_hashes builder (candidate_product slots) in
  if negb (bool_decide (working_hashes = [])) then FRet (Ok (object_candidates working_hashes))
  else
    let? output_hashes := in_batches builder append_secondary_reuse_hashes (candidate_product slots) [] [] in
    FRet (Ok (object_candidates output_hashes)).

Fixpoint matching_working (builder : BuilderPlannedSubject) (wanted : bytes)
  (items : list (option (gmap bytes bytes))) : async (result RealizeError (list bytes)) :=
  match items with
  | [] => FRet (Ok [])
  | None :: _ => FPanic
  | Some inputs :: items' =>
      match reuse_key_of builder inputs with
      | Err error => FRet (Err error)
      | Ok reuse_key =>
          let? found := working_reuse reuse_key in
          let? rest := matching_working builder wanted items' in
          FRet (Ok (if bool_decide (found = Some wanted) then reuse_key :: rest else rest))
      end
  end.

Definition append_matching (wanted : bytes) (keys : list bytes) (matching : list bytes)
  : async (result RealizeError (list bytes)) :=
  let? reports := secondary_reuses keys in
  FRet (Ok (matching ++ map mc_key (filter (fun report => wanted ∈ mc_object_hashes report) reports))).

Definition reuse_keys_resolving_to (builder : BuilderPlannedSubject) (wanted : bytes)
  : async (result RealizeError (list bytes)) :=
  let? slots := input_candidate_slots builder in
  let? matching := matching_working builder wanted (candidate_product slots) in
  let? matching := in_batches builder (append_matching wanted) (candidate_product slots) [] matching in
  FRet (Ok (unique_in_order matching)).

(** *** Publication *)

Definition publish_cached_builder (builder : BuilderPlannedSubject) (hash : bytes) : async (result RealizeError unit) :=
  let publish reuse_keys :=
    fmap_err realize_from_store (blocking (publish_existing_build record_json format_timestamp process store
      (bs_build_key builder) reuse_keys hash (bs_name builder) run_id)) in
  let? known := working_build (bs_build_key builder) in
  if bool_decide (known = Some hash) then publish []
  else
    let? exact := secondary_builds [bs_build_key builder] in
    let exact_hit := match exact with report :: _ => bool_decide (hash ∈ mc_object_hashes report) | [] => false end in
    if exact_hit then publish []
    else
      let? reuse_keys := reuse_keys_resolving_to builder hash in
      publish reuse_keys.

Definition publish_cached (node : PlannedNode (Number := Number)) (hash : bytes) : async (result RealizeError unit) :=
  match node with
  | Source source =>
      let? _u := fmap_err realize_from_store (blocking (record_existing_source_object record_json format_timestamp
                   process store hash (ss_name source) run_id)) in
      log_cache_hit (ss_build_key source) hash (Some "already_present"%string) (FRet (Ok tt))
  | BuilderNode builder =>
      let? _u := publish_cached_builder builder hash in
      FGet (fun s =>
        if bool_decide (bs_build_key builder ∈ sh_built_keys s) then FRet (Ok tt)
        else log_cache_hit (bs_build_key builder) hash None (FRet (Ok tt)))
  end.

(** *** Building *)

(** The loop of [prepare_builder_inputs]: a path for every input. *)
Fixpoint input_paths (inputs : list (bytes * bytes)) (hashes : gmap bytes bytes)
  : prog (result RealizeError (list (bytes * path))) :=
  match inputs with
  | [] => Ret (Ok [])
  | (name, key) :: inputs' =>
      match hashes !! name with
      | None => Ret (Err (realize_error ("realized input hash '" +:+ show name +:+ "' is missing for builder")))
      | Some hash =>
          let? p :=
            (if starts_with (lit "_") name then
               mapping_err realize_error
                 (materialize_fs_tree_root workers hash (node_name <$> pg_nodes graph !! key))
             else
               let? found := mapping_err realize_from_store (object_path store hash) in
               Ret (ok_or found (realize_error ("realized input object '" +:+ show (display hash)
                                                +:+ "' is missing from working store")))) in
          let? rest := input_paths inputs' hashes in
          Ret (Ok ((name, p) :: rest))
      end
  end%prog.

Definition prepare_builder_inputs (builder : BuilderPlannedSubject) (input_hashes : gmap bytes bytes)
  : async (result RealizeError (gmap bytes path)) :=
  check_cancelled ?;
  let? _permit := unless_cancelled realize_error (blocking (acquire_local_permit workers)) in
  check_cancelled ?;
  do paths := blocking (input_paths (ordered_inputs (bs_inputs builder)) input_hashes) in
  check_cancelled ?;
  FRet (l <- paths ;; Ok (list_to_map l)).

(** [BuilderJob::new]: the inputs are the planned ones. *)
Definition builder_job_new (node : PlannedNode (Number := Number)) (input_hashes : gmap bytes bytes)
  : result BuildExecutorError BuilderPlannedSubject :=
  match node with
  | Source source =>
      Err (ExInvalidRequest ("BuildExecutor cannot execute Source node '" +:+ show (ss_name source) +:+ "'"))
  | BuilderNode builder =>
      let declared_inputs := input_names (bs_inputs builder) in
      let realized_inputs := input_names input_hashes in
      if bool_decide (declared_inputs = realized_inputs) then Ok builder
      else Err (ExInvalidRequest ("builder '" +:+ show (bs_name builder)
                  +:+ "' input hashes do not match planned inputs: expected [" +:+ show_names declared_inputs
                  +:+ "], got [" +:+ show_names realized_inputs +:+ "]"))
  end.

(** [publish_builder_output] ([build_executor.rs]). *)
Definition publish_builder_output (builder : BuilderPlannedSubject) (reuse_key : bytes)
  (input_hashes : gmap bytes bytes) (staged_path : path) : async (result BuildExecutorError bytes) :=
  FGet (fun s =>
    if sh_cancelled s then FRet (Err (ExCancelled "build cancelled by signal"))
    else
      fmap_err (fun error => ExPublish (store_error_message error))
        (blocking (import_build record_json format_timestamp process pending_fuel store (bs_build_key builder)
           reuse_key (map snd (ordered_inputs input_hashes)) staged_path (bs_name builder) run_id))).

(** [execute_builder_miss] ([realizer.rs]). *)
Definition execute_builder_miss (builder : BuilderPlannedSubject) (inputs : gmap bytes path)
  (input_hashes : gmap bytes bytes) (reuse_key : bytes) : async (result BuildExecutorError bytes) :=
  let? staged := FSelf (fun t => blocking (run_builder workers t builder inputs input_hashes reuse_key)) in
  publish_builder_output builder reuse_key input_hashes staged.

(** The candidates of a report, in order, until one is available. *)
Fixpoint first_available (builder : BuilderPlannedSubject) (hashes : list bytes)
  : async (result RealizeError (option bytes)) :=
  match hashes with
  | [] => FRet (Ok None)
  | hash :: hashes' =>
      let? available := ensure_object hash in
      if available : bool then
        publish_cached_builder builder hash ?; FRet (Ok (Some hash))
      else first_available builder hashes'
  end.

Definition build_builder (builder : BuilderPlannedSubject) : async (result RealizeError bytes) :=
  check_cancelled ?;
  let inputs := ordered_inputs (bs_inputs builder) in
  let? realized := join_all project_local "input local realization" (map (fun '(_, key) => JLocal key) inputs) in
  let input_hashes := list_to_map (zip (map fst inputs) realized) : gmap bytes bytes in
  match reuse_key_of builder input_hashes with
  | Err error => FRet (Err error)
  | Ok reuse_key =>
      let? known := working_reuse reuse_key in
      let? hit := (match known with Some hash => first_available builder [hash] | None => FRet (Ok None) end) in
      match hit with
      | Some hash => FRet (Ok hash)
      | None =>
          let? secondary := secondary_reuses [reuse_key] in
          let? hit :=
            (match secondary with
             | report :: _ => log_mapping "reuse" reuse_key report (first_available builder (mc_object_hashes report))
             | [] => FRet (Ok None)
             end) in
          match hit with
          | Some hash => FRet (Ok hash)
          | None =>
              let? builder_inputs := prepare_builder_inputs builder input_hashes in
              match (node <- find_node (bs_build_key builder) ;;
                     map_err realize_from_executor (builder_job_new node input_hashes)) with
              | Err error => FRet (Err error)
              | Ok job =>
                  let? object_hash := fmap_err realize_from_executor
                      (execute_builder_miss job builder_inputs input_hashes reuse_key) in
                  FPut (add_built_key (bs_build_key builder)) (FRet (Ok object_hash))
              end
          end
      end
  end.

Definition materialize_source (source : SourcePlannedSubject (Number := Number)) : async (result RealizeError bytes) :=
  let declared := ss_declared_object_hash source in
  match ss_origin_value source with
  | Some origin =>
      do outcome := FSelf (fun t => blocking (process_source workers t (ss_name source) declared origin)) in
      match outcome with
      | Downloaded | Local => FRet (Ok declared)
      | CacheHit => log_cache_hit (ss_build_key source) declared (Some "already_present"%string) (FRet (Ok declared))
      | SourceCancelled name => FRet (Err (realize_cancelled ("source '" +:+ show name +:+ "' acquisition cancelled")))
      | SourceMismatched name wanted actual =>
          FRet (Err (realize_error ("source '" +:+ show name +:+ "' declared object '" +:+ show wanted
                                    +:+ "' but materialized '" +:+ show actual +:+ "'")))
      | SourceFailed name message =>
          FRet (Err (realize_error ("source '" +:+ show name +:+ "' failed: " +:+ message)))
      end
  | None =>
      FRet (Err (realize_error ("source '" +:+ show (ss_name source) +:+ "' has no origin and object '"
                                +:+ show (display declared) +:+ "' is unavailable")))
  end.

(** *** Resolving a node *)

Definition compute_candidates (key : bytes) : async (result RealizeError (list bytes)) :=
  check_cancelled ?;
  match find_node key with
  | Err error => FRet (Err error)
  | Ok node =>
      let? known := working_build key in
      match known with
      | Some hash => FRet (Ok (object_candidates [hash]))
      | None =>
          let? exact := secondary_builds [key] in
          let miss :=
            match node with
            | Source source => FRet (Ok (object_candidates [ss_declared_object_hash source]))
            | BuilderNode builder =>
                let? reuse := cached_reuse_candidates builder in
                if negb (bool_decide (reuse = [])) then FRet (Ok reuse)
                else
                  let? built := build_builder builder in
                  FRet (Ok (object_candidates [built]))
            end in
          match exact with
          | report :: _ =>
              log_mapping "build" key report
                (if bool_decide (mc_object_hashes report = []) then miss
                 else FRet (Ok (object_candidates (mc_object_hashes report))))
          | [] => miss
          end
      end
  end.

(** The loop of [compute_local] over the candidates. *)
Fixpoint first_local (node : PlannedNode (Number := Number)) (hashes : list bytes)
  : async (result RealizeError (option bytes)) :=
  match hashes with
  | [] => FRet (Ok None)
  | hash :: hashes' =>
      let? available := ensure_object hash in
      if available : bool then publish_cached node hash ?; FRet (Ok (Some hash))
      else first_local node hashes'
  end.

Definition compute_local (key : bytes) : async (result RealizeError bytes) :=
  check_cancelled ?;
  match find_node key with
  | Err error => FRet (Err error)
  | Ok node =>
      let? hashes := candidates key in
      let? found := first_local node hashes in
      match found with
      | Some hash => FRet (Ok hash)
      | None =>
          match node with
          | Source source => materialize_source source
          | BuilderNode builder => build_builder builder
          end
      end
  end.

(** *** The goals *)

Definition realize_goals : async (result RealizeError (list (bytes * bytes))) :=
  let goals := pg_goals graph in
  let? hashes := join_all project_local "DAG realization" (map JLocal goals) in
  FRet (Ok (zip goals hashes)).

(** *** The bodies of cells and tasks *)

Definition cell_body (c : CellName) : async Val :=
  match c with
  | CCandidates key => do r := compute_candidates key in FRet (VCandidates r)
  | CLocal key => do r := compute_local key in FRet (VLocal r)
  | CContent hash _ => do r := compute_content hash in FRet (VContent r)
  end.

Definition job_body (j : Job) : async Val :=
  match j with
  | JGoals => do r := realize_goals in FRet (VGoals r)
  | JLocal key => do r := realize_local key in FRet (VLocal r)
  | JCandidates key => do r := candidates key in FRet (VCandidates r)
  | JBuilds order keys => resolve_builds_task mapping_providers order keys
  | JReuses order keys => resolve_reuses_task mapping_providers order keys
  | JObjects order hashes => locate_objects_task sources order hashes
  | JFsFiles order hashes => locate_fs_files_task sources order hashes
  end.
End Realizer.
