(* ===== verification/Product.v ===== *)
(** * The product of candidates

    The iterator [CandidateProduct] of the realizer, which counts through the
    combinations of input candidates like an odometer, enumerates their
    lexicographic product, and never indexes out of range. *)

From S2P Require Import Prelude Errors Hash Text Json Identity FsObject FsArchive FsManifest Subjects Graph.
From S2P Require Import Posix Tasks Store Fibers Resolver Realizer.

(** One candidate per slot, the last slot varying fastest. *)
Fixpoint all_choices (slots : Slots) : list (list (bytes * bytes)) :=
  match slots with
  | [] => [[]]
  | (name, hashes) :: slots' => flat_map (fun h => map (cons (name, h)) (all_choices slots')) hashes
  end.

(** The choices from the indices on. *)
Fixpoint choices_from (slots : Slots) (indices : list nat) : list (list (bytes * bytes)) :=
  match slots, indices with
  | (name, hashes) :: slots', index :: indices' =>
      match drop index hashes with
      | h :: later => map (cons (name, h)) (choices_from slots' indices')
                      ++ flat_map (fun h => map (cons (name, h)) (all_choices slots')) later
      | [] => []
      end
  | _, _ => [[]]
  end.

Definition in_range (indices : list nat) (slots : Slots) : Prop :=
  Forall2 (fun index slot => (index < length slot.2)%nat) indices slots.

Definition full (slots : Slots) : Prop := Forall (fun slot => slot.2 <> []) slots.

Lemma in_range_zero slots : full slots -> in_range (repeat 0%nat (length slots)) slots.
Proof.
  induction 1 as [|[name hashes] slots Hs _ IH]; cbn; constructor; [|done].
  cbn. destruct hashes; cbn; [done|lia].
Qed.

Lemma choices_from_zero slots : full slots -> choices_from slots (repeat 0%nat (length slots)) = all_choices slots.
Proof.
  induction 1 as [|[name hashes] slots Hs _ IH]; [done|]. cbn [length repeat choices_from all_choices].
  rewrite IH. by destruct hashes.
Qed.

(** The odometer, position by position. *)
Lemma advance_from_cons name hashes slots index indices n :
  n = length indices ->
  advance_from ((name, hashes) :: slots) (S n) (index :: indices) =
  let '(indices', done) := advance_from slots n indices in
  if done then if (S index <? length hashes)%nat then (S index :: indices', false) else (0%nat :: indices', true)
  else (index :: indices', false).
Proof.
  intros Hn. assert (Hle : (n <= length indices)%nat) by lia. clear Hn. revert indices Hle.
  induction n as [|n IH]; intros indices Hle; [reflexivity|].
  change (advance_from ((name, hashes) :: slots) (S (S n)) (index :: indices)) with
    (let value := S (default 0%nat (indices !! n)) in
     if (value <? length (default [] (snd <$> slots !! n)))%nat then (index :: <[n := value]> indices, false)
     else advance_from ((name, hashes) :: slots) (S n) (index :: <[n := 0%nat]> indices)).
  rewrite IH by (rewrite length_insert; lia). cbn [advance_from]. cbv zeta.
  match goal with |- (if ?a then _ else _) = (match (if ?b then _ else _) with _ => _ end) =>
    change b with a; by destruct a
  end.
Qed.

Lemma advance_wraps slots indices indices' :
  advance_from slots (length indices) indices = (indices', true) -> indices' = repeat 0%nat (length indices).
Proof.
  assert (Hgo : forall n ix jx, advance_from slots n ix = (jx, true) -> (n <= length ix)%nat ->
    jx = repeat 0%nat n ++ drop n ix).
  { induction n as [|n IH]; intros ix jx Ha Hn; cbn [advance_from] in Ha; [by injection Ha as <-|].
    destruct (_ <? _)%nat; [done|]. apply IH in Ha as ->; [|rewrite length_insert; lia].
    destruct (lookup_lt_is_Some_2 ix n) as [x Hx]; [lia|].
    change (S n) with (1 + n)%nat. rewrite Nat.add_comm, repeat_app, <- app_assoc. f_equal.
    rewrite (drop_S (<[n := 0%nat]> ix) 0%nat n) by (apply list_lookup_insert_eq; lia).
    cbn [repeat app]. f_equal. rewrite drop_insert_lt by lia. by rewrite Nat.add_comm. }
  intros Ha. apply Hgo in Ha as ->; [|done]. by rewrite drop_all, app_nil_r.
Qed.

(** What is left at some indices is the combination there and what is left
    after a step. *)
Lemma choices_step slots indices :
  in_range indices slots ->
  exists choice, product_current slots indices = Some choice /\
  choices_from slots indices = choice ::
    match advance_from slots (length indices) indices with
    | (indices', false) => choices_from slots indices'
    | (_, true) => []
    end /\
  (forall indices', advance_from slots (length indices) indices = (indices', false) -> in_range indices' slots).
Proof.
  induction 1 as [|index [name hashes] indices slots Hi Hr IH]; [by exists []|]. cbn [snd] in Hi.
  destruct IH as (choice & Hc & Hf & Hn). destruct (lookup_lt_is_Some_2 hashes index Hi) as [h Hh].
  exists ((name, h) :: choice). cbn [product_current choices_from length].
  rewrite Hh, Hc, advance_from_cons by done. split; [done|].
  rewrite (drop_S hashes h index Hh). rewrite Hf.
  destruct (advance_from slots (length indices) indices) as [indices' []] eqn:Ea.
  - apply advance_wraps in Ea as ->. pose proof (Forall2_length _ _ _ Hr) as Hlen.
    assert (Hfull : full slots).
    { apply Forall_forall. intros s Hs. apply list_elem_of_lookup in Hs as [j Hj].
      destruct (Forall2_lookup_r _ _ _ _ _ Hr Hj) as (x & _ & Hx). intros E. rewrite E in Hx. cbn in Hx. lia. }
    destruct (S index <? length hashes)%nat eqn:El.
    + apply Nat.ltb_lt in El. split.
      * cbn [map app]. f_equal. destruct (lookup_lt_is_Some_2 hashes (S index) El) as [h' Hh'].
        cbn [choices_from]. rewrite (drop_S hashes h' (S index) Hh'). rewrite Hlen, choices_from_zero by done. done.
      * intros i' [= <-]. constructor; [done|]. rewrite Hlen. by apply in_range_zero.
    + apply Nat.ltb_ge in El. split; [|done]. rewrite (drop_ge hashes (S index)) by done. done.
  - split.
    + cbn [map app choices_from]. f_equal. by rewrite (drop_S hashes h index Hh).
    + intros i' [= <-]. constructor; [done|]. by apply Hn.
Qed.

Lemma product_items_from slots fuel indices :
  in_range indices slots -> (length (choices_from slots indices) <= fuel)%nat ->
  product_items slots fuel (mkProduct indices false false) =
  map (fun l => Some (list_to_map l)) (tail (choices_from slots indices)).
Proof.
  revert indices. induction fuel as [|fuel IH]; intros indices Hr Hf.
  all: destruct (choices_step slots indices Hr) as (choice & Hc & Ef & Hn); rewrite Ef in Hf |- *; cbn in Hf.
  { lia. }
  cbn [product_items product_next pr_done pr_first tail]. unfold product_advance. cbn [pr_indices pr_first pr_done].
  destruct (advance_from slots (length indices) indices) as [indices' []] eqn:Ea; cbn [orb]; [done|].
  cbn [pr_done pr_indices]. destruct (choices_step slots indices' (Hn _ eq_refl)) as (choice' & Hc' & Ef' & _).
  rewrite Hc'. cbn [fmap option_fmap option_map]. rewrite IH by (try lia; by apply Hn). by rewrite Ef'.
Qed.

Lemma all_choices_empty slots : ~ full slots -> all_choices slots = [].
Proof.
  induction slots as [|[name hashes] slots IH]; intros Hf; [destruct Hf; constructor|]. cbn [all_choices].
  destruct hashes as [|h hashes]; [done|]. rewrite IH.
  - generalize (h :: hashes). intros l. by induction l.
  - intros Hs. apply Hf. by constructor.
Qed.

Lemma length_all_choices slots : length (all_choices slots) = combinations slots.
Proof.
  unfold combinations. induction slots as [|[name hashes] slots IH]; [done|]. cbn [all_choices foldr]. rewrite <- IH.
  induction hashes as [|h hashes IHh]; [done|]. cbn [flat_map length]. rewrite length_app, length_map, IHh. cbn. done.
Qed.

Lemma product_new_done slots : pr_done (product_new slots) = false <-> full slots.
Proof.
  cbn. unfold full. induction slots as [|[name hashes] slots IH]; cbn [existsb]; [split; [constructor|done]|].
  by rewrite Forall_cons, <- IH, orb_false_iff, bool_decide_eq_false.
Qed.

Lemma product_choices slots fuel :
  (combinations slots < fuel)%nat ->
  product_items slots fuel (product_new slots) = map (fun l => Some (list_to_map l)) (all_choices slots).
Proof.
  intros Hf. rewrite <- length_all_choices in Hf. destruct (pr_done (product_new slots)) eqn:Ed.
  - rewrite all_choices_empty; [|intros Hs%product_new_done; congruence].
    destruct fuel; [done|]. cbn [product_items]. unfold product_next. by rewrite Ed.
  - apply product_new_done in Ed as Hfull. destruct fuel as [|fuel]; [lia|].
    cbn [product_items]. unfold product_next. rewrite Ed. cbn [product_new pr_first pr_indices pr_done] in *.
    pose proof (choices_from_zero slots Hfull) as E0.
    destruct (choices_step slots _ (in_range_zero slots Hfull)) as (choice & Hc & Ef & _). rewrite Hc.
    cbn [fmap option_fmap option_map].
    rewrite product_items_from by (try apply in_range_zero; try done; rewrite E0; lia).
    rewrite <- E0, Ef. done.
Qed.

(** C37. The product of input candidates ends and is exact: a [for] loop over
    the iterator ends after as many rounds as there are combinations, sees each
    choice of one candidate per input once, in lexicographic order of the
    candidates' ranks, and no round indexes a candidate list out of range.  An
    input without candidates leaves nothing to see. *)
Theorem candidate_product_exact slots fuel :
  (combinations slots < fuel)%nat ->
  product_items slots fuel (product_new slots) = map (fun l => Some (list_to_map l)) (all_choices slots).
Proof. apply product_choices. Qed.

Definition three_slots : Slots := [(lit "a", [[1]; [2]]); (lit "b", [[3]]); (lit "c", [[4]; [5]; [6]])]%Z.

Lemma candidate_product_exact_witness :
  length (product_items three_slots 7 (product_new three_slots)) = 6%nat.
Proof. rewrite (candidate_product_exact three_slots 7); [reflexivity|]. vm_compute. lia. Defined.
