(* ===== verification/RealizerSafety.v ===== *)
(** * Safety of the realizer

    Against the contracts of providers and workers: in every run of the
    realizer the store stays well formed, every candidate is a mapping that
    holds, and a key that is resolved locally maps to a complete, recorded
    object of the store. *)

From S2P Require Import Prelude Errors Hash Text Json Identity FsObject FsArchive FsManifest Subjects Graph.
From S2P Require Import Posix Tasks Store StoreInvariant StoreSafety Fibers FiberSafety.
From S2P Require Import Resolver Answers ResolverSafety Realizer Product.

(** What is known of a planned graph: a node is under its build key, inputs are
    nodes, keys and declared hashes are digests, goals are nodes. *)
Record graph_ok {Number : Type} `{ScalarWriter Number} (graph : PlannedGraph (Number := Number)) : Prop := {
  go_key : forall key node, pg_nodes graph !! key = Some node -> wf_hash key /\ node_build_key node = key;
  go_source : forall key s, pg_nodes graph !! key = Some (Source s) -> ss_declared_object_hash s = key;
}.

(** The mappings that hold, for a graph: a source maps to the object it
    declares and to no other, and a builder maps to whatever its reuse key maps to, for input
    objects that the input keys map to. *)
Record mappings_sound {Number : Type} `{ScalarWriter Number} `{Sha256Api} (graph : PlannedGraph (Number := Number))
    (vouched : bytes -> bytes -> bytes -> Prop) : Prop := {
  ms_source : forall key s, pg_nodes graph !! key = Some (Source s) -> forall h, vouched BUILDS_DIR key h <-> h = key;
  ms_reuse : forall key b inputs reuse_key h, pg_nodes graph !! key = Some (BuilderNode b) ->
    dom inputs = dom (bs_inputs b) ->
    (forall name k x, bs_inputs b !! name = Some k -> inputs !! name = Some x -> vouched BUILDS_DIR k x) ->
    subject_reuse_key (Number := Number) b inputs = Ok reuse_key -> vouched REUSES_DIR reuse_key h -> vouched BUILDS_DIR key h;
}.

Section Setting.
Context {Number : Type} `{ScalarWriter Number} `{Sha256Api} `{JsonApi}.
Context (process : Z) (store : Store) (around : list node) (vouched : bytes -> bytes -> bytes -> Prop).
Context (scratch : nat -> path) (graph : PlannedGraph (Number := Number)) (workers : Workers (Number := Number)).

Local Abbreviation inv := (store_inv store around vouched).
Local Abbreviation obeys := (obeys process store around vouched scratch).
Local Abbreviation own := (owner process scratch).

(** The objects chosen for the inputs of a builder. *)
Definition inputs_hold (b : BuilderPlannedSubject) (inputs : gmap bytes bytes) : Prop :=
  dom inputs = dom (bs_inputs b) /\
  forall name k x, bs_inputs b !! name = Some k -> inputs !! name = Some x -> wf_hash x /\ vouched BUILDS_DIR k x.

(** The contract of the workers: a builder that succeeds leaves in the scratch
    directory of its job a tree whose files are in the store, and the build and
    reuse keys of the job map to it; a source that succeeds is in the store. *)
Class WorkerContract : Prop := {
  run_builder_law t b paths inputs reuse_key w :
    inv w -> pg_nodes graph !! bs_build_key b = Some (BuilderNode b) -> inputs_hold b inputs ->
    (forall name x, inputs !! name = Some x -> published store (tree w) x) ->
    subject_reuse_key (Number := Number) b inputs = Ok reuse_key ->
    obeys t (run_builder workers t b paths inputs reuse_key) (ok_post (fun p w' =>
      staging around (own t) w' p /\
      forall n, get (tree w') p = Some n -> node_complete store (tree w') n /\
        forall h, hashes n h -> vouched BUILDS_DIR (bs_build_key b) h /\ vouched REUSES_DIR reuse_key h)) w;
  process_source_law t key s origin w :
    inv w -> pg_nodes graph !! key = Some (Source s) -> ss_origin_value s = Some origin ->
    obeys t (process_source workers t (ss_name s) (ss_declared_object_hash s) origin) (fun out w' =>
      match out with
      | Downloaded | CacheHit | Local => published store (tree w') (ss_declared_object_hash s)
      | _ => True
      end) w;
  materialize_law t h name w :
    inv w -> wf_hash h -> published store (tree w) h ->
    obeys t (materialize_fs_tree_root workers h name) (fun _ _ => True) w;
  permit_law t w : inv w -> obeys t (acquire_local_permit workers) (fun _ _ => True) w;
}.
End Setting.

Section Realizer.
Context {Number : Type} `{ScalarWriter Number} `{Sha256Api} `{JsonApi}.
Context (process : Z) (store : Store) (around : list node) (vouched : bytes -> bytes -> bytes -> Prop).
Context (scratch : nat -> path).
Context (root_names : Forall valid_name store) (identify : hashes_identify around).
Context (owners_ok : forall t, owner_ok store (owner process scratch t)).
Context (record_json : ObjectRecord -> result string bytes) (format_timestamp : Z -> result string bytes).
Context (timestamp_text : forall t s, format_timestamp t = Ok s -> 47%Z ∉ s).
Context (pending_fuel : nat) (join_error : string) (run_id : bytes).
Context (mapping_providers : list NamedMappingProvider) (sources : list NamedContentProvider).
Context (mapping_laws : forall p, p ∈ mapping_providers -> MappingContract process store around vouched scratch p).
Context (content_laws : forall p, p ∈ sources -> ContentContract process store around vouched scratch p).
Context (graph : PlannedGraph (Number := Number)) (graph_laws : graph_ok graph) (sound : mappings_sound graph vouched).
Context (workers : Workers (Number := Number)) {worker_laws : WorkerContract process store around vouched scratch graph workers}.

Local Abbreviation goals := (pg_goals graph).
Local Abbreviation inv := (store_inv store around vouched).
Local Abbreviation evolves := (evolves store).
Local Abbreviation fsafe := (fsafe process store around vouched scratch goals).
Local Abbreviation obeys := (obeys process store around vouched scratch).
Local Abbreviation candidate_ok := (candidate_ok vouched).
Local Abbreviation resolved := (resolved store vouched).
Local Abbreviation job_ok := (job_ok store vouched goals).
Local Abbreviation cell_ok := (cell_ok store vouched).
Local Abbreviation reports_ok := (reports_ok vouched).
Local Abbreviation inputs_hold := (inputs_hold vouched).

(** ** Small steps *)

Lemma check_cancelled_safe {A} t (k : async (result RealizeError A)) Q w :
  (forall w', evolves w w' -> inv w' -> fsafe t [] k (ok_post Q) w') ->
  fsafe t [] (ftry check_cancelled (fun _ => k)) (ok_post Q) w.
Proof. intros Hk. apply fsafe_get. intros s w' He Hi. cbn. destruct (sh_cancelled s); [by apply fsafe_ret|by apply Hk]. Qed.

Lemma unless_cancelled_safe {E A} t from (m : async (result E A)) P w :
  inv w -> fsafe t [] m (ok_post P) w -> fsafe t [] (unless_cancelled from m) (ok_post P) w.
Proof.
  intros Hi Hm. eapply fsafe_bind; [done|exact Hm|]. intros [a|e] w' _ _ Ha; [by apply fsafe_ret|].
  apply fsafe_get. intros s w2 _ _. by apply fsafe_ret.
Qed.

Lemma working_build_safe t key w :
  inv w -> wf_hash key ->
  fsafe t [] (working_build store key) (ok_post (fun o w' => forall h, o = Some h -> resolved key h w')) w.
Proof.
  intros Hi Hk. apply fsafe_map_err; [done|].
  eapply fsafe_blocking; [done|by apply (load_build_safe store root_names around identify vouched (owner process scratch t) (owners_ok t))|].
  intros [o|e] w' _ _ Ho; [|done]. intros h ->. destruct (Ho h eq_refl) as (? & ? & ?). split; [by split|done].
Qed.

Lemma working_reuse_safe t key w :
  inv w -> wf_hash key ->
  fsafe t [] (working_reuse store key) (ok_post (fun o w' => forall h, o = Some h -> candidate_ok REUSES_DIR key h)) w.
Proof.
  intros Hi Hk. apply fsafe_map_err; [done|].
  eapply fsafe_blocking; [done|by apply (load_reuse_safe store root_names around identify vouched (owner process scratch t) (owners_ok t))|].
  intros [o|e] w' _ _ Ho; [|done]. intros h ->. destruct (Ho h eq_refl) as (? & ? & ?). by split.
Qed.

Lemma secondary_builds_safe t keys w :
  inv w -> Forall wf_hash keys ->
  fsafe t [] (secondary_builds join_error mapping_providers keys) (ok_post (fun l _ => reports_ok BUILDS_DIR keys l)) w.
Proof. intros Hi Hk. apply unless_cancelled_safe; [done|]. by apply lookup_builds_safe. Qed.

Lemma secondary_reuses_safe t keys w :
  inv w -> Forall wf_hash keys ->
  fsafe t [] (secondary_reuses join_error mapping_providers keys) (ok_post (fun l _ => reports_ok REUSES_DIR keys l)) w.
Proof. intros Hi Hk. apply unless_cancelled_safe; [done|]. by apply lookup_reuses_safe. Qed.

Lemma log_mapping_safe {A} t kind key report (k : async A) Q w :
  (forall w', evolves w w' -> inv w' -> fsafe t [] k Q w') -> inv w -> fsafe t [] (log_mapping kind key report k) Q w.
Proof.
  intros Hk Hi. unfold log_mapping. destruct (mc_answers report); [|by apply fsafe_put].
  apply Hk; [by eapply evolves_refl|done].
Qed.

(** The candidates a report for one key names are candidates of the key. *)
Lemma report_for d key report reports :
  reports_ok d [key] (report :: reports) -> Forall (candidate_ok d key) (mc_object_hashes report).
Proof.
  intros [Hm Hr]. rewrite unique_singleton in Hm. injection Hm as <- _. by apply Forall_cons in Hr as [? _].
Qed.

(** ** Cells *)

Lemma candidates_safe t key w :
  inv w -> fsafe t [] (candidates key) (ok_post (fun hs _ => Forall (candidate_ok BUILDS_DIR key) hs)) w.
Proof.
  intros Hi. split_and!; [done|done|]. intros v w1 _ Hi1 (r & -> & Hr). destruct r as [hs|e]; [|by apply fsafe_ret].
  intros o w2 _ Hi2 Ho. cbn. split; [done|]. destruct o as [v|]; [|done].
  destruct (Ho v eq_refl) as (r & -> & Hl). destruct r as [h|e]; [|done]. case_bool_decide; [done|].
  apply Forall_app. split; [done|]. constructor; [|constructor]. apply Hl.
Qed.

Lemma realize_local_safe t key w : inv w -> fsafe t [] (realize_local key) (ok_post (resolved key)) w.
Proof.
  intros Hi. split_and!; [done|done|]. intros v w1 _ Hi1 (r & -> & Hr). by apply fsafe_ret.
Qed.

Lemma ensure_object_safe t h w :
  inv w -> wf_hash h -> fsafe t [] (ensure_object h) (ok_post (fun b w' => b = true -> published store (tree w') h)) w.
Proof.
  intros Hi Hh. apply fsafe_get. intros s w1 _ Hi1. split_and!; [done|done|]. intros v w2 _ Hi2 (r & -> & Hr).
  destruct r as [[]|e]; [| |by apply fsafe_ret].
  - apply fsafe_ret. intros _. by apply Hr.
  - apply fsafe_put. intros w3 _ _. by apply fsafe_ret.
Qed.

Lemma compute_content_safe t h w :
  inv w -> wf_hash h ->
  fsafe t [] (compute_content record_json process join_error store run_id sources h)
    (ok_post (fun b w' => b = true -> wf_hash h /\ published store (tree w') h)) w.
Proof.
  intros Hi Hh. apply check_cancelled_safe. intros w1 _ Hi1.
  eapply fsafe_try; [done|apply unless_cancelled_safe; [done|]|].
  { apply (ensure_objects_safe process store around vouched scratch goals root_names identify owners_ok record_json
      format_timestamp timestamp_text join_error run_id sources content_laws); [done|]. by apply Forall_singleton. }
  intros reports w2 _ Hi2 [Hm Hr]. apply check_cancelled_safe. intros w3 He3 Hi3.
  destruct reports as [|report reports]; [done|]. apply fsafe_ret. rewrite unique_singleton in Hm.
  injection Hm as Hm _. apply Forall_cons in Hr as [Hr _]. intros Hb. split; [done|].
  eapply published_evolves; [done|exact He3|]. rewrite <- Hm. apply Hr. by destruct (ko_outcome report).
Qed.

(** ** Joining tasks *)

Section Joining.
Context {T : Type} (project : Val -> option (result RealizeError T)) (operation : string).
Context (P : Job -> T -> World -> Prop).
Context (P_stable : forall j x w w', evolves w w' -> P j x w -> P j x w').
Context (jobs : list Job) (job_result : forall j v w x, j ∈ jobs -> job_ok j v w -> project v = Some (Ok x) -> P j x w).

Definition joined_ok (ordered : list (option T)) (w : World) : Prop :=
  length ordered = length jobs /\
  forall i j x, jobs !! i = Some j -> ordered !! i = Some (Some x) -> P j x w.

Lemma joined_evolves ordered w w' : evolves w w' -> joined_ok ordered w -> joined_ok ordered w'.
Proof. intros He [Hl Ho]. split; [done|]. intros i j x Hj Hx. by eapply P_stable, Ho. Qed.

Lemma joined_insert ordered i j x w :
  joined_ok ordered w -> jobs !! i = Some j -> P j x w -> joined_ok (<[i := Some x]> ordered) w.
Proof.
  intros [Hl Ho] Hj Hx. split; [by rewrite length_insert|]. intros i' j' x' Hj' Hx'.
  apply list_lookup_insert_Some in Hx' as [(<- & E & _)|[_ Hx']]; [|by eapply Ho].
  injection E as ->. rewrite Hj in Hj'. by injection Hj' as <-.
Qed.

Lemma join_inputs_safe t n out ordered first_error w :
  inv w -> length out = n -> (forall i j, (i, j) ∈ out -> jobs !! i = Some j) -> joined_ok ordered w ->
  fsafe t out (join_inputs join_error project operation n ordered first_error) (ok_post joined_ok) w.
Proof.
  revert out ordered first_error w. induction n as [|n IH]; intros out ordered first_error w Hi Hlen Hout Ho; cbn [join_inputs].
  { apply nil_length_inv in Hlen as ->. apply fsafe_ret. by destruct first_error. }
  intros l1 i j l2 -> w1 Hr Hi1. apply relies_evolves in Hr. pose proof (joined_evolves _ _ _ Hr Ho) as Ho1.
  assert (Hlen' : length (l1 ++ l2) = n) by (rewrite length_app in *; cbn in Hlen; lia).
  assert (Hout' : forall i' j', (i', j') ∈ l1 ++ l2 -> jobs !! i' = Some j').
  { intros i' j' Hin. apply Hout. rewrite elem_of_app, elem_of_cons in *. tauto. }
  assert (Hj : jobs !! i = Some j) by (apply Hout; rewrite elem_of_app, elem_of_cons; tauto).
  assert (Hfail : forall error, fsafe t (l1 ++ l2)
    (match first_error with
     | None => cancel_run (join_inputs join_error project operation n ordered (Some error))
     | Some _ => join_inputs join_error project operation n ordered first_error
     end) (ok_post joined_ok) w1).
  { intros error. destruct first_error as [e|]; [by apply IH|]. apply fsafe_put. intros w2 He2 Hi2.
    apply IH; [done|done|done|]. by eapply joined_evolves. }
  split; [|apply Hfail]. intros v Hv. destruct (project v) as [[x|error]|] eqn:Ep; [|apply Hfail|done].
  apply IH; [done|done|done|]. destruct first_error; [done|]. eapply joined_insert; [done|exact Hj|].
  apply (job_result j v); [by eapply list_elem_of_lookup_2|done|done].
Qed.

Lemma all_present_some (ordered : list (option T)) l : all_present ordered = Some l -> ordered = map Some l.
Proof.
  revert l. induction ordered as [|[x|] ordered IH]; intros l Hl; cbn in Hl; [by injection Hl as <-| |done].
  destruct (all_present ordered) as [l'|]; [|done]. injection Hl as <-. cbn. f_equal. by apply IH.
Qed.

Lemma join_all_safe t w :
  inv w -> Forall job_pre jobs ->
  fsafe t [] (join_all join_error project operation jobs) (ok_post (fun l w' => Forall2 (fun j x => P j x w') jobs l)) w.
Proof.
  intros Hi Hpre. split_and!; [done|done|]. intros w1 _ Hi1. eapply fsafe_try; [done|apply join_inputs_safe; [done| | |]|].
  - rewrite length_zip, length_seq. lia.
  - intros i j Hin. apply list_elem_of_lookup in Hin as [k Hk]. apply lookup_zip_Some in Hk as [Hs Hj].
    apply lookup_seq in Hs as [-> _]. done.
  - split; [by rewrite repeat_length|]. intros i j x _ Hx. apply list_elem_of_lookup_2, list_elem_of_In, repeat_spec in Hx. done.
  - intros ordered w2 _ Hi2 [Hl Ho]. destruct (all_present ordered) as [l|] eqn:El; [|done]. apply fsafe_ret.
    apply all_present_some in El as ->. rewrite length_map in Hl. apply Forall2_same_length_lookup. split; [done|].
    intros i j x Hj Hx. apply (Ho i); [done|]. change (map Some l) with (Some <$> l). by rewrite list_lookup_fmap, Hx.
Qed.
End Joining.

(** ** The combinations of input candidates *)

(** The inputs of a builder with candidates for each. *)
Definition slots_ok (b : BuilderPlannedSubject) (slots : Slots) : Prop :=
  map fst slots = map fst (ordered_inputs (bs_inputs b)) /\
  Forall2 (fun input slot => Forall (candidate_ok BUILDS_DIR input.2) slot.2) (ordered_inputs (bs_inputs b)) slots.

Lemma candidate_slots_ok b inputs hashes slots :
  candidate_slots b (map fst inputs) hashes = Ok slots ->
  Forall2 (fun input hs => Forall (candidate_ok BUILDS_DIR input.2) hs) inputs hashes ->
  map fst slots = map (fst (A := bytes) (B := bytes)) inputs /\
  Forall2 (fun input slot => Forall (candidate_ok BUILDS_DIR input.2) slot.2) inputs slots.
Proof.
  intros Hs Hh. revert slots Hs. induction Hh as [|[name key] hs inputs hashes Hhs _ IH]; intros slots Hs; cbn in Hs.
  { injection Hs as <-. by split. }
  destruct (bool_decide (hs = [])); [done|]. destruct (candidate_slots b (map fst inputs) hashes) as [slots'|]; [|done].
  cbn in Hs. injection Hs as <-. destruct (IH slots' eq_refl) as [Hm Hf]. split; [cbn; by f_equal|by constructor].
Qed.

Lemma input_candidate_slots_safe t b w :
  inv w -> fsafe t [] (input_candidate_slots join_error b) (ok_post (fun slots _ => slots_ok b slots)) w.
Proof.
  intros Hi. eapply fsafe_try; [done|apply (join_all_safe _ _ (fun j hs _ => forall key, j = JCandidates key -> Forall (candidate_ok BUILDS_DIR key) hs))|].
  - done.
  - intros j v w1 hs ([name key] & -> & _)%list_elem_of_fmap (r & -> & Hr) [= ->] key' [= <-]. exact Hr.
  - done.
  - apply Forall_forall. by intros j ([name key] & -> & _)%list_elem_of_fmap.
  - intros hashes w1 _ Hi1 Hf. apply fsafe_ret. apply Forall2_fmap_l in Hf.
    destruct (candidate_slots b _ hashes) as [slots|e] eqn:Es; [|done]. cbn [ok_post].
    apply (candidate_slots_ok b _ hashes); [done|]. eapply Forall2_impl; [exact Hf|]. intros [name key] hs Hhs. by apply Hhs.
Qed.

Lemma all_choices_names slots choice : choice ∈ all_choices slots -> map fst choice = map fst slots.
Proof.
  revert choice. induction slots as [|[name hs] slots IH]; intros choice Hc; cbn [all_choices] in Hc.
  { by apply list_elem_of_singleton in Hc as ->. }
  apply list_elem_of_In, in_flat_map in Hc as (h & _ & (c & <- & Hc)%in_map_iff). apply list_elem_of_In in Hc. cbn. f_equal. by apply IH.
Qed.

Lemma all_choices_values slots choice name h :
  choice ∈ all_choices slots -> (name, h) ∈ choice -> exists hs, (name, hs) ∈ slots /\ h ∈ hs.
Proof.
  revert choice. induction slots as [|[n hs] slots IH]; intros choice Hc Hin; cbn [all_choices] in Hc.
  { apply list_elem_of_singleton in Hc as ->. by apply elem_of_nil in Hin. }
  apply list_elem_of_In, in_flat_map in Hc as (x & Hx & (c & <- & Hc)%in_map_iff). apply list_elem_of_In in Hc, Hx.
  apply elem_of_cons in Hin as [[= -> ->]|Hin]; [exists hs; split; [by left|done]|].
  destruct (IH c Hc Hin) as (hs' & ? & ?). exists hs'. split; [by right|done].
Qed.

Lemma ordered_inputs_perm (m : gmap bytes bytes) : ordered_inputs m ≡ₚ map_to_list m.
Proof. apply sort_by_perm. Qed.

Lemma ordered_inputs_nodup (m : gmap bytes bytes) : NoDup (map fst (ordered_inputs m)).
Proof. change (map fst ?l) with (fst <$> l). rewrite ordered_inputs_perm. apply NoDup_fst_map_to_list. Qed.

Lemma elem_of_ordered_inputs (m : gmap bytes bytes) name k : (name, k) ∈ ordered_inputs m <-> m !! name = Some k.
Proof. by rewrite ordered_inputs_perm, elem_of_map_to_list. Qed.

(** A map with one object per input, by name. *)
Lemma list_to_map_inputs (m : gmap bytes bytes) (choice : list (bytes * bytes)) :
  map fst choice = map fst (ordered_inputs m) ->
  dom (list_to_map choice : gmap bytes bytes) = dom m /\
  forall name x, (list_to_map choice : gmap bytes bytes) !! name = Some x <-> (name, x) ∈ choice.
Proof.
  intros Hn. pose proof (ordered_inputs_nodup m) as Hnd. split.
  - apply set_eq. intros name. rewrite dom_list_to_map_L, elem_of_list_to_set.
    change (choice.*1) with (map fst choice). rewrite Hn, elem_of_dom, list_elem_of_fmap. split.
    + intros ([n k] & -> & Hk). apply elem_of_ordered_inputs in Hk. by exists k.
    + intros [k Hk]. exists (name, k). split; [done|]. by apply elem_of_ordered_inputs.
  - intros name x. symmetry. apply elem_of_list_to_map. change (choice.*1) with (map fst choice). by rewrite Hn.
Qed.

(** Every item of the product is a map of held inputs. *)
Lemma candidate_product_holds b slots item :
  slots_ok b slots -> item ∈ candidate_product slots -> exists inputs, item = Some inputs /\ inputs_hold b inputs.
Proof.
  intros [Hn Hf] Hin. unfold candidate_product in Hin. rewrite product_choices in Hin by lia.
  apply list_elem_of_fmap in Hin as (choice & -> & Hc). exists (list_to_map choice). split; [done|].
  pose proof (all_choices_names _ _ Hc) as Hnames. rewrite Hn in Hnames.
  destruct (list_to_map_inputs _ _ Hnames) as [Hd Hl]. split; [done|]. intros name k x Hk Hx.
  apply Hl in Hx. destruct (all_choices_values _ _ _ _ Hc Hx) as (hs & Hs & Hx').
  apply list_elem_of_lookup in Hs as [i Hi]. destruct (Forall2_lookup_r _ _ _ _ _ Hf Hi) as ([n k'] & Hi' & Hhs).
  assert (n = name) as ->.
  { apply (f_equal (fun l => l !! i)) in Hn. change (map fst ?l) with (fst <$> l) in Hn. rewrite !list_lookup_fmap, Hi, Hi' in Hn. by injection Hn. }
  apply list_elem_of_lookup_2, elem_of_ordered_inputs in Hi'. rewrite Hk in Hi'. injection Hi' as ->.
  cbn in Hhs. rewrite Forall_forall in Hhs. by apply Hhs.
Qed.

(** ** Reuse *)

Definition builder_in (b : BuilderPlannedSubject) : Prop := pg_nodes graph !! bs_build_key b = Some (BuilderNode b).

Lemma reuse_key_of_ok b inputs reuse_key :
  reuse_key_of (Number := Number) b inputs = Ok reuse_key ->
  subject_reuse_key (Number := Number) b inputs = Ok reuse_key /\ wf_hash reuse_key.
Proof.
  unfold reuse_key_of. intros Hk. destruct (subject_reuse_key b inputs) as [k|e] eqn:E; [|done]. injection Hk as ->.
  split; [done|]. unfold subject_reuse_key, planned_reuse_key, compute_reuse_key, compute_key in E. inv_res. apply sha256_wf.
Qed.

(** A key under which every object is one of the builder. *)
Definition reuse_key_ok (b : BuilderPlannedSubject) (key : bytes) : Prop :=
  wf_hash key /\ forall h, candidate_ok REUSES_DIR key h -> candidate_ok BUILDS_DIR (bs_build_key b) h.

Lemma reuse_key_sound b inputs reuse_key :
  builder_in b -> inputs_hold b inputs -> reuse_key_of (Number := Number) b inputs = Ok reuse_key -> reuse_key_ok b reuse_key.
Proof.
  intros Hb [Hd Hin] Hk. apply reuse_key_of_ok in Hk as [Hk Hwf]. split; [done|]. intros h [Hh Hv]. split; [done|].
  eapply (ms_reuse _ _ sound); [exact Hb|exact Hd| |exact Hk|exact Hv]. intros name k x H3 H4. by apply (Hin name).
Qed.

Definition items_hold (b : BuilderPlannedSubject) (items : list (option (gmap bytes bytes))) : Prop :=
  Forall (fun item => exists inputs, item = Some inputs /\ inputs_hold b inputs) items.

Lemma product_holds b slots : slots_ok b slots -> items_hold b (candidate_product slots).
Proof. intros Hs. apply Forall_forall. intros item. by apply candidate_product_holds. Qed.

Lemma working_reuse_hashes_safe t b items w :
  inv w -> builder_in b -> items_hold b items ->
  fsafe t [] (working_reuse_hashes (Number := Number) store b items)
    (ok_post (fun l _ => Forall (candidate_ok BUILDS_DIR (bs_build_key b)) l)) w.
Proof.
  intros Hi Hb Hit. revert w Hi. induction Hit as [|item items (inputs & -> & Hin) _ IH]; intros w Hi; cbn [working_reuse_hashes].
  { apply fsafe_ret. constructor. }
  destruct (reuse_key_of b inputs) as [rk|e] eqn:Ek; [|by apply fsafe_ret].
  destruct (reuse_key_sound b inputs rk Hb Hin Ek) as [Hwf Hrk].
  eapply fsafe_try; [done|by apply working_reuse_safe|]. intros found w1 _ Hi1 Hf.
  eapply fsafe_try; [done|by apply IH|]. intros rest w2 _ Hi2 Hr. apply fsafe_ret.
  destruct found as [h|]; [|done]. constructor; [|done]. by apply Hrk, Hf.
Qed.

(** Batches of keys that satisfy the demands of [flush]. *)
Lemma in_batches_safe {A} t b (flush : list bytes -> A -> async (result RealizeError A)) (I : A -> Prop) items batch acc w :
  (forall batch acc w, inv w -> Forall (reuse_key_ok b) batch -> I acc -> fsafe t [] (flush batch acc) (ok_post (fun a _ => I a)) w) ->
  inv w -> builder_in b -> items_hold b items -> Forall (reuse_key_ok b) batch -> I acc ->
  fsafe t [] (in_batches (Number := Number) b flush items batch acc) (ok_post (fun a _ => I a)) w.
Proof.
  intros Hflush Hi Hb Hit. revert batch acc w Hi.
  induction Hit as [|item items (inputs & -> & Hin) _ IH]; intros batch acc w Hi Hbatch Hacc; cbn [in_batches].
  { destruct batch; [by apply fsafe_ret|by apply Hflush]. }
  destruct (reuse_key_of b inputs) as [rk|e] eqn:Ek; [|by apply fsafe_ret].
  assert (Hbatch' : Forall (reuse_key_ok b) (batch ++ [rk])).
  { apply Forall_app. split; [done|]. constructor; [by eapply reuse_key_sound|constructor]. }
  case_bool_decide; [|by apply IH]. eapply fsafe_try; [done|by apply Hflush|]. intros a w1 _ Hi1 Ha. apply IH; [done|constructor|exact Ha].
Qed.

Lemma reuse_keys_wf b keys : Forall (reuse_key_ok b) keys -> Forall wf_hash keys.
Proof. intros Hk. eapply Forall_impl; [exact Hk|]. by intros key [? _]. Qed.

Lemma report_key d keys reports report : reports_ok d keys reports -> report ∈ reports -> mc_key report ∈ keys.
Proof. intros [Hm _] Hr. apply elem_of_unique. rewrite <- Hm. apply list_elem_of_fmap. by exists report. Qed.

Lemma log_reports_safe {A} t reports (k : async A) Q w :
  (forall w', evolves w w' -> inv w' -> fsafe t [] k Q w') -> inv w -> fsafe t [] (log_reports reports k) Q w.
Proof.
  revert w. induction reports as [|report reports IH]; intros w Hk Hi; cbn [log_reports].
  { apply Hk; [by eapply evolves_refl|done]. }
  apply log_mapping_safe; [|done]. intros w1 He1 Hi1. apply IH; [|done]. intros w2 He2. apply Hk. by eapply evolves_trans.
Qed.

Lemma append_secondary_safe t b keys output w :
  inv w -> Forall (reuse_key_ok b) keys -> Forall (candidate_ok BUILDS_DIR (bs_build_key b)) output ->
  fsafe t [] (append_secondary_reuse_hashes join_error mapping_providers keys output)
    (ok_post (fun l _ => Forall (candidate_ok BUILDS_DIR (bs_build_key b)) l)) w.
Proof.
  intros Hi Hk Ho. eapply fsafe_try; [done|by apply secondary_reuses_safe; [|by eapply reuse_keys_wf]|].
  intros reports w1 _ Hi1 Hr. apply log_reports_safe; [|done]. intros w2 _ _. apply fsafe_ret. apply Forall_app. split; [done|].
  apply Forall_forall. intros h Hh. apply list_elem_of_In, in_flat_map in Hh as (report & Hrep & Hh).
  apply list_elem_of_In in Hrep, Hh. rewrite Forall_forall in Hk. apply (Hk (mc_key report)); [eapply report_key; [exact Hr|done]|].
  destruct Hr as [_ Hr]. rewrite Forall_forall in Hr. specialize (Hr _ Hrep). rewrite Forall_forall in Hr. by apply Hr.
Qed.

Lemma wf_candidates d key hs : Forall (candidate_ok d key) hs -> Forall (candidate_ok d key) (object_candidates hs).
Proof. rewrite !Forall_forall. intros Hh h Hin. by apply Hh, elem_of_unique. Qed.

Lemma cached_reuse_safe t b w :
  inv w -> builder_in b ->
  fsafe t [] (cached_reuse_candidates (Number := Number) join_error store mapping_providers b)
    (ok_post (fun l _ => Forall (candidate_ok BUILDS_DIR (bs_build_key b)) l)) w.
Proof.
  intros Hi Hb. eapply fsafe_try; [done|by apply input_candidate_slots_safe|]. intros slots w1 _ Hi1 Hs. apply product_holds in Hs.
  eapply fsafe_try; [done|by apply working_reuse_hashes_safe|]. intros hs w2 _ Hi2 Hhs.
  case_bool_decide; cbn [negb]; [|by apply fsafe_ret, wf_candidates].
  eapply fsafe_try; [done|apply (in_batches_safe _ _ _ (fun l => Forall (candidate_ok BUILDS_DIR (bs_build_key b)) l))|].
  - intros batch acc w3 Hi3 Hbatch Hacc. by apply append_secondary_safe.
  - done.
  - done.
  - done.
  - constructor.
  - constructor.
  - intros l w3 _ _ Hl. by apply fsafe_ret, wf_candidates.
Qed.

Lemma matching_working_safe t b wanted items w :
  inv w -> builder_in b -> items_hold b items ->
  fsafe t [] (matching_working (Number := Number) store b wanted items)
    (ok_post (fun l _ => Forall (fun key => wf_hash key /\ vouched REUSES_DIR key wanted) l)) w.
Proof.
  intros Hi Hb Hit. revert w Hi. induction Hit as [|item items (inputs & -> & Hin) _ IH]; intros w Hi; cbn [matching_working].
  { apply fsafe_ret. constructor. }
  destruct (reuse_key_of b inputs) as [rk|e] eqn:Ek; [|by apply fsafe_ret].
  destruct (reuse_key_sound b inputs rk Hb Hin Ek) as [Hwf _].
  eapply fsafe_try; [done|by apply working_reuse_safe|]. intros found w1 _ Hi1 Hf.
  eapply fsafe_try; [done|by apply IH|]. intros rest w2 _ Hi2 Hr. apply fsafe_ret.
  case_bool_decide as E; [|done]. constructor; [|done]. split; [done|]. by apply Hf.
Qed.

Lemma append_matching_safe t b wanted keys matching w :
  inv w -> Forall (reuse_key_ok b) keys -> Forall (fun key => wf_hash key /\ vouched REUSES_DIR key wanted) matching ->
  fsafe t [] (append_matching join_error mapping_providers wanted keys matching)
    (ok_post (fun l _ => Forall (fun key => wf_hash key /\ vouched REUSES_DIR key wanted) l)) w.
Proof.
  intros Hi Hk Hm. eapply fsafe_try; [done|by apply secondary_reuses_safe; [|by eapply reuse_keys_wf]|].
  intros reports w1 _ Hi1 Hr. apply fsafe_ret. apply Forall_app. split; [done|].
  apply Forall_forall. intros key (report & -> & [Hw Hrep]%list_elem_of_filter)%list_elem_of_fmap. split.
  - rewrite Forall_forall in Hk. destruct (Hk (mc_key report)) as [? _]; [|done]. eapply report_key; [exact Hr|done].
  - destruct Hr as [_ Hr]. rewrite Forall_forall in Hr. specialize (Hr _ Hrep). rewrite Forall_forall in Hr. by apply Hr.
Qed.

Lemma reuse_keys_resolving_safe t b wanted w :
  inv w -> builder_in b ->
  fsafe t [] (reuse_keys_resolving_to (Number := Number) join_error store mapping_providers b wanted)
    (ok_post (fun l _ => Forall (fun key => wf_hash key /\ vouched REUSES_DIR key wanted) l)) w.
Proof.
  intros Hi Hb. eapply fsafe_try; [done|by apply input_candidate_slots_safe|]. intros slots w1 _ Hi1 Hs. apply product_holds in Hs.
  eapply fsafe_try; [done|by apply matching_working_safe|]. intros matching w2 _ Hi2 Hm.
  eapply fsafe_try; [done|apply (in_batches_safe _ _ _ (fun l => Forall (fun key => wf_hash key /\ vouched REUSES_DIR key wanted) l))|].
  - intros batch acc w3 Hi3 Hbatch Hacc. by eapply append_matching_safe.
  - done.
  - done.
  - done.
  - constructor.
  - exact Hm.
  - intros l w3 _ _ Hl. apply fsafe_ret. cbn [ok_post] in *. rewrite Forall_forall in *. intros key Hin. by apply Hl, elem_of_unique.
Qed.

(** ** Publication *)

Lemma builder_key_wf b : builder_in b -> wf_hash (bs_build_key b).
Proof. intros Hb. by apply (go_key _ graph_laws) in Hb as [? _]. Qed.

Lemma publish_cached_builder_safe t b h w :
  inv w -> builder_in b -> candidate_ok BUILDS_DIR (bs_build_key b) h ->
  fsafe t [] (publish_cached_builder (Number := Number) record_json format_timestamp process join_error store run_id
    mapping_providers b h) (ok_post (fun _ w' => published store (tree w') h)) w.
Proof.
  intros Hi Hb [Hh Hv]. pose proof (builder_key_wf b Hb) as Hk.
  assert (Hpub : forall keys w', inv w' -> Forall (fun key => wf_hash key /\ vouched REUSES_DIR key h) keys ->
    fsafe t [] (fmap_err realize_from_store (blocking (publish_existing_build record_json format_timestamp process store
      (bs_build_key b) keys h (bs_name b) run_id))) (ok_post (fun _ w' => published store (tree w') h)) w').
  { intros keys w' Hi' Hkeys. apply Forall_and in Hkeys as [Hkw Hkv]. apply fsafe_map_err; [done|]. eapply fsafe_blocking; [done| |].
    - by apply (publish_existing_build_safe store root_names around identify vouched (owner process scratch t) (owners_ok t)).
    - by intros [u|e] w2 _ _ Hp. }
  eapply fsafe_try; [done|by apply working_build_safe|]. intros known w1 _ Hi1 _.
  case_bool_decide; [by apply Hpub|]. eapply fsafe_try; [done|by apply secondary_builds_safe, Forall_singleton|].
  intros exact_ w2 _ Hi2 _. destruct (match exact_ with report :: _ => _ | [] => false end); [by apply Hpub|].
  eapply fsafe_try; [done|by apply reuse_keys_resolving_safe|]. intros keys w3 _ Hi3 Hkeys. by apply Hpub.
Qed.

Lemma publish_cached_safe t key node h w :
  inv w -> pg_nodes graph !! key = Some node -> candidate_ok BUILDS_DIR key h ->
  fsafe t [] (publish_cached record_json format_timestamp process join_error store run_id mapping_providers node h)
    (ok_post (fun _ _ => True)) w.
Proof.
  intros Hi Hn [Hh Hv]. destruct node as [source|b]; cbn [publish_cached].
  - apply (ms_source _ _ sound key source Hn) in Hv as Hv'. subst h.
    eapply fsafe_try with (P := fun _ _ => True); [done| |].
    + apply fsafe_map_err; [done|]. eapply fsafe_blocking; [done| |by intros []].
      by apply (record_existing_source_safe store root_names around identify vouched (owner process scratch t) (owners_ok t)).
    + intros u w1 _ Hi1 _. apply fsafe_put. intros w2 _ _. by apply fsafe_ret.
  - assert (Hb : builder_in b).
    { unfold builder_in. destruct (go_key _ graph_laws key _ Hn) as [_ E]. cbn in E. by rewrite E. }
    assert (Ek : bs_build_key b = key) by (by destruct (go_key _ graph_laws key _ Hn)).
    eapply fsafe_try with (P := fun _ _ => True); [done| |].
    + eapply fsafe_weaken; [done|apply publish_cached_builder_safe; [done|done|by rewrite Ek]|by intros []].
    + intros u w1 _ Hi1 _. apply fsafe_get. intros s w2 _ Hi2. case_bool_decide; [by apply fsafe_ret|].
      apply fsafe_put. intros w3 _ _. by apply fsafe_ret.
Qed.

(** The first candidate that can be had is published. *)
Lemma first_available_safe t b hs w :
  inv w -> builder_in b -> Forall (candidate_ok BUILDS_DIR (bs_build_key b)) hs ->
  fsafe t [] (first_available (Number := Number) record_json format_timestamp process join_error store run_id
    mapping_providers b hs) (ok_post (fun o w' => forall h, o = Some h -> resolved (bs_build_key b) h w')) w.
Proof.
  intros Hi Hb Hhs. revert w Hi. induction Hhs as [|h hs Hh _ IH]; intros w Hi; cbn [first_available].
  { by apply fsafe_ret. }
  eapply fsafe_try; [done|apply ensure_object_safe; [done|apply Hh]|]. intros [] w1 _ Hi1 _; [|by apply IH].
  eapply fsafe_try; [done|by apply publish_cached_builder_safe|]. intros u w2 _ Hi2 Hp. apply fsafe_ret.
  intros h' [= <-]. by split.
Qed.

Lemma first_local_safe t key node hs w :
  inv w -> pg_nodes graph !! key = Some node -> Forall (candidate_ok BUILDS_DIR key) hs ->
  fsafe t [] (first_local record_json format_timestamp process join_error store run_id mapping_providers node hs)
    (ok_post (fun o w' => forall h, o = Some h -> resolved key h w')) w.
Proof.
  intros Hi Hn Hhs. revert w Hi. induction Hhs as [|h hs Hh _ IH]; intros w Hi; cbn [first_local].
  { by apply fsafe_ret. }
  eapply fsafe_try; [done|apply ensure_object_safe; [done|apply Hh]|]. intros [] w1 _ Hi1 Hp1; [|by apply IH].
  eapply fsafe_try; [done|by eapply publish_cached_safe|]. intros u w2 He2 Hi2 _. apply fsafe_ret.
  intros h' [= <-]. split; [done|]. eapply published_evolves; [apply Hh|exact He2|by apply Hp1].
Qed.

(** ** Building *)

Definition inputs_ready (inputs : gmap bytes bytes) (w : World) : Prop :=
  forall name x, inputs !! name = Some x -> wf_hash x /\ published store (tree w) x.

Lemma inputs_ready_evolves inputs w w' : evolves w w' -> inputs_ready inputs w -> inputs_ready inputs w'.
Proof. intros He Hr name x Hx. destruct (Hr name x Hx) as [Hh Hp]. split; [done|]. by eapply published_evolves. Qed.

Lemma obeys_keeps {A} t (m : prog A) Q w :
  inv w -> obeys t m Q w -> obeys t m (fun a w' => evolves w w' /\ Q a w') w.
Proof.
  intros Hi Hm. by apply (wp_keeps store around vouched (owner process scratch t)); [by eapply keeps_refl|].
Qed.

Lemma input_paths_obeys t inputs hashes w :
  inv w -> inputs_ready hashes w ->
  obeys t (input_paths graph store workers inputs hashes) (fun _ _ => True) w.
Proof.
  revert w. induction inputs as [|[name key] inputs IH]; intros w Hi Hr; cbn [input_paths]; [done|].
  destruct (hashes !! name) as [h|] eqn:Eh; [|done]. destruct (Hr name h Eh) as [Hh Hp].
  apply wp_try_bind; [done|].
  assert (Hnext : forall (r : result RealizeError path) w1, inv w1 -> evolves w w1 ->
    match r with
    | Ok p => obeys t (try_bind (input_paths graph store workers inputs hashes) (fun rest => Ret (Ok ((name, p) :: rest))))
                (fun _ _ => True) w1
    | Err e => True
    end).
  { intros [p|e] w1 Hi1 He1; [|done]. apply wp_try_bind; [done|]. eapply wp_weaken; [|done|apply IH; [done|by eapply inputs_ready_evolves]].
    by intros [rest|e] w2 Hi2 _ _. }
  destruct (starts_with (lit "_") name).
  - apply wp_mapping_err; [done|]. eapply wp_weaken; [|done|apply obeys_keeps; [done|by eapply materialize_law]].
    intros [p|e] w1 Hi1 [He1 _] _; [by apply (Hnext (Ok p))|done].
  - apply wp_try_bind; [done|]. apply wp_mapping_err; [done|].
    eapply wp_weaken; [|done|apply obeys_keeps; [done|apply obeys_reads; [done|apply object_path_reads]]].
    intros [[p|]|e] w1 Hi1 [He1 _] _ _; [by apply (Hnext (Ok p))|done|done].
Qed.

Lemma prepare_inputs_safe t b inputs w :
  inv w -> inputs_ready inputs w ->
  fsafe t [] (prepare_builder_inputs graph store workers b inputs) (ok_post (fun _ _ => True)) w.
Proof.
  intros Hi Hr. apply check_cancelled_safe. intros w1 He1 Hi1. pose proof (inputs_ready_evolves _ _ _ He1 Hr) as Hr1.
  eapply fsafe_try with (P := fun _ _ => True); [done| |].
  - apply unless_cancelled_safe; [done|]. eapply fsafe_blocking; [done|by eapply permit_law|by intros []].
  - intros u w2 He2 Hi2 _. pose proof (inputs_ready_evolves _ _ _ He2 Hr1) as Hr2. apply check_cancelled_safe. intros w3 He3 Hi3.
    apply fsafe_ask; [done|apply input_paths_obeys; [done|by eapply inputs_ready_evolves]|]. intros paths w4 Hi4.
    apply check_cancelled_safe. intros w5 _ Hi5. apply fsafe_ret. by destruct paths.
Qed.

Lemma execute_builder_safe t b paths inputs reuse_key w :
  inv w -> builder_in b -> inputs_hold b inputs -> inputs_ready inputs w -> reuse_key_of (Number := Number) b inputs = Ok reuse_key ->
  fsafe t [] (execute_builder_miss record_json format_timestamp process pending_fuel store run_id workers b paths inputs reuse_key)
    (ok_post (resolved (bs_build_key b))) w.
Proof.
  intros Hi Hb Hin Hr Hk. apply reuse_key_of_ok in Hk as [Hk Hkw]. intros w1 Hr1 Hi1. apply relies_evolves in Hr1 as He1.
  change (fsafe t [] (ftry (blocking (run_builder workers t b paths inputs reuse_key))
    (publish_builder_output record_json format_timestamp process pending_fuel store run_id b reuse_key inputs))
    (ok_post (resolved (bs_build_key b))) w1).
  eapply fsafe_try; [done|eapply fsafe_blocking; [done|eapply run_builder_law; try done|by intros a w2 _ _ Ha; exact Ha]|].
  { intros name x Hx. by apply (inputs_ready_evolves _ _ _ He1 Hr name). }
  intros p w2 _ Hi2 [Hst Hn]. intros s w3 Hr3 Hi3. cbv beta. destruct (sh_cancelled s); [by apply fsafe_ret|].
  pose proof (staging_rely store around (owner process scratch t) _ _ _ Hst Hr3) as Hst3.
  assert (Eg : get (tree w3) p = get (tree w2) p) by (destruct Hr3 as (_ & Hs & _); by apply Hs, Hst).
  apply fsafe_map_err; [done|]. eapply fsafe_blocking; [done| |].
  - apply (import_build_safe store root_names around identify vouched (owner process scratch t) (owners_ok t));
      [done|done|done|by apply builder_key_wf|done| |].
    + intros n. rewrite Eg. intros Hg. destruct (Hn n Hg) as [Hc _].
      eapply keeps_node_complete; [by eapply relies_evolves| |exact Hc]. apply same_object_refl.
      destruct n; [done|done|]. destruct Hc.
    + intros n h. rewrite Eg. intros Hg. by apply Hn.
  - intros [h|e] w4 _ _ Hp; [|done]. destruct (Hp h eq_refl) as (? & ? & ?). split; [by split|done].
Qed.

Lemma zip_fst {A B} (l : list A) (k : list B) : length l = length k -> map fst (zip l k) = l.
Proof. revert k. induction l as [|a l IH]; intros [|b k] Hl; cbn in *; try done. f_equal. apply IH. lia. Qed.

(** The inputs realized by the tasks, by name. *)
Lemma realized_inputs b realized w :
  Forall2 (fun input h => resolved input.2 h w) (ordered_inputs (bs_inputs b)) realized ->
  let inputs := list_to_map (zip (map fst (ordered_inputs (bs_inputs b))) realized) : gmap bytes bytes in
  inputs_hold b inputs /\ inputs_ready inputs w.
Proof.
  intros Hf inputs. pose proof (Forall2_length _ _ _ Hf) as Hlen.
  destruct (list_to_map_inputs (bs_inputs b) (zip (map fst (ordered_inputs (bs_inputs b))) realized)) as [Hd Hl].
  { apply zip_fst. by rewrite length_map. }
  assert (Hin : forall name x, inputs !! name = Some x -> exists k, bs_inputs b !! name = Some k /\ resolved k x w).
  { intros name x Hx. apply Hl, list_elem_of_lookup in Hx as [i Hi]. apply lookup_zip_Some in Hi as [Hi1 Hi2].
    change (map fst ?l) with (fst <$> l) in Hi1. rewrite list_lookup_fmap in Hi1.
    destruct (ordered_inputs (bs_inputs b) !! i) as [[n k]|] eqn:Eo; [|done]. injection Hi1 as ->.
    exists k. split; [by eapply elem_of_ordered_inputs, list_elem_of_lookup_2|].
    by apply (Forall2_lookup_lr _ _ _ _ _ _ Hf Eo Hi2). }
  split; [split; [done|]|].
  - intros name k x Hk Hx. destruct (Hin name x Hx) as (k' & Hk' & [Hc _]). rewrite Hk in Hk'. by injection Hk' as <-.
  - intros name x Hx. destruct (Hin name x Hx) as (k' & _ & [[? _] ?]). done.
Qed.

Lemma local_jobs_safe t operation keys w :
  inv w ->
  fsafe t [] (join_all join_error project_local operation (map JLocal keys))
    (ok_post (fun l w' => Forall2 (fun key h => resolved key h w') keys l)) w.
Proof.
  intros Hi. eapply fsafe_weaken; [done|apply (join_all_safe _ _ (fun j h w' => forall key, j = JLocal key -> resolved key h w'))|].
  - intros j h w1 w2 He Hj key E. by eapply resolved_evolves, Hj.
  - intros j v w1 h (key & -> & _)%list_elem_of_fmap (r & -> & Hr) [= ->] key' [= <-]. exact Hr.
  - done.
  - apply Forall_forall. by intros j (key & -> & _)%list_elem_of_fmap.
  - intros [l|e] w1 _ _ Hf; [|done]. cbn [ok_post] in *. apply Forall2_fmap_l in Hf. eapply Forall2_impl; [exact Hf|].
    intros key h Hh. by apply Hh.
Qed.

Lemma find_node_ok key node : find_node graph key = Ok node -> pg_nodes graph !! key = Some node.
Proof. unfold find_node. destruct (pg_nodes graph !! key); [by intros [= ->]|done]. Qed.

Lemma planned_job b inputs job :
  builder_in b ->
  (node <- find_node graph (bs_build_key b) ;; map_err realize_from_executor (builder_job_new node inputs)) = Ok job -> job = b.
Proof.
  intros Hb Hj. destruct (find_node graph (bs_build_key b)) as [node|] eqn:Ef; [|done]. apply find_node_ok in Ef.
  rewrite Hb in Ef. injection Ef as <-. cbn in Hj. case_bool_decide; [by injection Hj|done].
Qed.

Lemma build_builder_safe t b w :
  inv w -> builder_in b ->
  fsafe t [] (build_builder record_json format_timestamp process pending_fuel join_error graph store run_id
    mapping_providers workers b) (ok_post (resolved (bs_build_key b))) w.
Proof.
  intros Hi Hb. apply check_cancelled_safe. intros w1 _ Hi1. cbv zeta.
  set (ordered := ordered_inputs (bs_inputs b)).
  replace (map (fun '(_, key) => JLocal key) ordered) with (map JLocal (map snd ordered)) by (rewrite map_map; by apply map_ext; intros []).
  eapply fsafe_try; [done|by apply local_jobs_safe|]. intros realized w2 _ Hi2 Hf. apply Forall2_fmap_l in Hf.
  destruct (realized_inputs b realized w2 Hf) as [Hin Hr2]. fold ordered in Hin, Hr2.
  set (inputs := list_to_map (zip (map fst ordered) realized) : gmap bytes bytes) in *.
  destruct (reuse_key_of b inputs) as [rk|e] eqn:Ek; [|by apply fsafe_ret].
  destruct (reuse_key_sound b inputs rk Hb Hin Ek) as [Hwf Hrk].
  eapply fsafe_try; [done|by apply working_reuse_safe|]. intros known w3 He3 Hi3 Hknown.
  assert (Hcand : forall hs, Forall (candidate_ok REUSES_DIR rk) hs -> Forall (candidate_ok BUILDS_DIR (bs_build_key b)) hs).
  { intros hs Hhs. eapply Forall_impl; [exact Hhs|]. exact Hrk. }
  eapply fsafe_try with (P := fun o w' => forall h, o = Some h -> resolved (bs_build_key b) h w'); [done| |].
  { destruct known as [h|]; [|by apply fsafe_ret]. apply first_available_safe; [done|done|]. apply Hcand, Forall_singleton. by apply Hknown. }
  intros [h|] w4 He4 Hi4 Hhit; [by apply fsafe_ret, Hhit|].
  eapply fsafe_try; [done|by apply secondary_reuses_safe, Forall_singleton|]. intros reports w5 He5 Hi5 Hrep.
  eapply fsafe_try with (P := fun o w' => forall h, o = Some h -> resolved (bs_build_key b) h w'); [done| |].
  { destruct reports as [|report reports]; [by apply fsafe_ret|]. apply log_mapping_safe; [|done]. intros w6 _ Hi6.
    apply first_available_safe; [done|done|]. eapply Hcand, report_for, Hrep. }
  intros [h|] w6 He6 Hi6 Hhit2; [by apply fsafe_ret, Hhit2|].
  assert (Hr6 : inputs_ready inputs w6) by (eapply inputs_ready_evolves; [|exact Hr2]; eauto using evolves_trans).
  eapply fsafe_try; [done|by apply prepare_inputs_safe|]. intros paths w7 He7 Hi7 _.
  destruct (node <- find_node graph (bs_build_key b) ;; map_err realize_from_executor (builder_job_new node inputs))
    as [job|e] eqn:Ej; [|by apply fsafe_ret].
  apply (planned_job b inputs) in Ej as ->; [|done].
  eapply fsafe_try; [done|apply fsafe_map_err; [done|apply execute_builder_safe; try done; by eapply inputs_ready_evolves]|].
  intros h w8 _ Hi8 Hh. apply fsafe_put. intros w9 He9 _. apply fsafe_ret. by eapply resolved_evolves.
Qed.

Lemma materialize_source_safe t key source w :
  inv w -> pg_nodes graph !! key = Some (Source source) ->
  fsafe t [] (materialize_source workers source) (ok_post (resolved key)) w.
Proof.
  intros Hi Hn. pose proof (go_source _ graph_laws _ _ Hn) as Ek. destruct (go_key _ graph_laws _ _ Hn) as [Hk _].
  assert (Hv : candidate_ok BUILDS_DIR key key) by (split; [done|by apply (ms_source _ _ sound key source Hn)]).
  unfold materialize_source. destruct (ss_origin_value source) as [origin|] eqn:Eo; [|by apply fsafe_ret].
  intros w1 _ Hi1. change (fsafe t [] (fbind (blocking (process_source workers t (ss_name source) (ss_declared_object_hash source) origin))
    (fun outcome => match outcome with
      | Downloaded | Local => FRet (Ok (ss_declared_object_hash source))
      | CacheHit => log_cache_hit (ss_build_key source) (ss_declared_object_hash source) (Some "already_present"%string)
                      (FRet (Ok (ss_declared_object_hash source)))
      | SourceCancelled name => FRet (Err (realize_cancelled ("source '" +:+ show name +:+ "' acquisition cancelled")))
      | SourceMismatched name wanted actual =>
          FRet (Err (realize_error ("source '" +:+ show name +:+ "' declared object '" +:+ show wanted
                                    +:+ "' but materialized '" +:+ show actual +:+ "'")))
      | SourceFailed name message =>
          FRet (Err (realize_error ("source '" +:+ show name +:+ "' failed: " +:+ message)))
      end)) (ok_post (resolved key)) w1).
  eapply fsafe_bind; [done|eapply fsafe_blocking; [done|by eapply process_source_law|by intros a w2 _ _ Ha; exact Ha]|].
  rewrite Ek. intros [] w2 _ Hi2 Hp; try (by apply fsafe_ret).
  apply fsafe_put. intros w3 He3 _. apply fsafe_ret. split; [done|]. by eapply published_evolves.
Qed.

(** ** Nodes *)

Lemma compute_candidates_safe t key w :
  inv w ->
  fsafe t [] (compute_candidates record_json format_timestamp process pending_fuel join_error graph store run_id
    mapping_providers workers key) (ok_post (fun hs _ => Forall (candidate_ok BUILDS_DIR key) hs)) w.
Proof.
  intros Hi. apply check_cancelled_safe. intros w1 _ Hi1. destruct (find_node graph key) as [node|e] eqn:Ef; [|by apply fsafe_ret].
  apply find_node_ok in Ef as Hn. destruct (go_key _ graph_laws _ _ Hn) as [Hk Ek].
  eapply fsafe_try; [done|by apply working_build_safe|]. intros [h|] w2 _ Hi2 Hh.
  { apply fsafe_ret. apply wf_candidates, Forall_singleton. by apply Hh. }
  eapply fsafe_try; [done|by apply secondary_builds_safe, Forall_singleton|]. intros exact_ w3 _ Hi3 Hx. cbv zeta.
  assert (Hmiss : forall w', inv w' -> fsafe t []
    (match node with
     | Source source => FRet (Ok (object_candidates [ss_declared_object_hash source]))
     | BuilderNode builder =>
         ftry (cached_reuse_candidates (Number := Number) join_error store mapping_providers builder) (fun reuse =>
           if negb (bool_decide (reuse = [])) then FRet (Ok reuse)
           else ftry (build_builder record_json format_timestamp process pending_fuel join_error graph store run_id
                        mapping_providers workers builder) (fun built => FRet (Ok (object_candidates [built]))))
     end) (ok_post (fun hs _ => Forall (candidate_ok BUILDS_DIR key) hs)) w').
  { intros w' Hi'. destruct node as [source|b]; cbn in Ek.
    - apply fsafe_ret. apply wf_candidates, Forall_singleton. rewrite (go_source _ graph_laws _ _ Hn).
      split; [done|]. by apply (ms_source _ _ sound key source Hn).
    - assert (Hb : builder_in b) by (unfold builder_in; by rewrite Ek). rewrite <- Ek.
      eapply fsafe_try; [done|by apply cached_reuse_safe|]. intros reuse w4 _ Hi4 Hr.
      case_bool_decide; cbn [negb]; [|by apply fsafe_ret]. eapply fsafe_try; [done|by apply build_builder_safe|].
      intros built w5 _ _ Hbuilt. apply fsafe_ret. apply wf_candidates, Forall_singleton. apply Hbuilt. }
  destruct exact_ as [|report reports]; [by apply Hmiss|]. apply log_mapping_safe; [|done]. intros w4 _ Hi4.
  case_bool_decide; [by apply Hmiss|]. apply fsafe_ret. by eapply wf_candidates, report_for.
Qed.

Lemma compute_local_safe t key w :
  inv w ->
  fsafe t [] (compute_local record_json format_timestamp process pending_fuel join_error graph store run_id
    mapping_providers workers key) (ok_post (resolved key)) w.
Proof.
  intros Hi. apply check_cancelled_safe. intros w1 _ Hi1. destruct (find_node graph key) as [node|e] eqn:Ef; [|by apply fsafe_ret].
  apply find_node_ok in Ef as Hn. destruct (go_key _ graph_laws _ _ Hn) as [Hk Ek].
  eapply fsafe_try; [done|by apply candidates_safe|]. intros hs w2 _ Hi2 Hhs.
  eapply fsafe_try; [done|by eapply first_local_safe|]. intros [h|] w3 _ Hi3 Hh; [by apply fsafe_ret, Hh|].
  destruct node as [source|b]; [by apply materialize_source_safe|]. cbn in Ek. rewrite <- Ek.
  apply build_builder_safe; [done|]. unfold builder_in. by rewrite Ek.
Qed.

Lemma realize_goals_safe t w :
  inv w ->
  fsafe t [] (realize_goals join_error graph)
    (ok_post (fun l w' => map fst l = goals /\ Forall (fun '(key, h) => resolved key h w') l)) w.
Proof.
  intros Hi. eapply fsafe_try; [done|by apply local_jobs_safe|]. intros hashes w1 _ Hi1 Hf. apply fsafe_ret. cbn [ok_post].
  pose proof (Forall2_length _ _ _ Hf) as Hlen. split; [by apply zip_fst|]. apply Forall_forall. intros [key h] Hin.
  apply list_elem_of_lookup in Hin as [i Hi']. apply lookup_zip_Some in Hi' as [Hk Hh].
  by apply (Forall2_lookup_lr _ _ _ _ _ _ Hf Hk Hh).
Qed.

(** ** Cells and jobs *)

Lemma cell_body_safe t c w :
  cell_pre c -> inv w ->
  fsafe t [] (cell_body record_json format_timestamp process pending_fuel join_error graph store run_id
    mapping_providers sources workers c) (cell_ok c) w.
Proof.
  intros Hc Hi. destruct c as [key|key|h g]; cbn [cell_body].
  - eapply fsafe_bind; [done|by apply compute_candidates_safe|]. intros r w1 _ _ Hr. apply fsafe_ret. by exists r.
  - eapply fsafe_bind; [done|by apply compute_local_safe|]. intros r w1 _ _ Hr. apply fsafe_ret. by exists r.
  - eapply fsafe_bind; [done|by apply compute_content_safe|]. intros r w1 _ _ Hr. apply fsafe_ret. by exists r.
Qed.

Lemma job_body_safe t j w :
  job_pre j -> inv w -> fsafe t [] (job_body join_error graph mapping_providers sources j) (job_ok j) w.
Proof.
  intros Hj Hi.
  pose proof (provider_task_safe process store around vouched scratch goals mapping_providers sources mapping_laws content_laws t j w Hi Hj) as Hp.
  destruct j as [|key|key|order keys|order keys|order hs|order hs]; cbn [job_body]; try exact Hp.
  - eapply fsafe_bind; [done|by apply realize_goals_safe|]. intros r w1 _ _ Hr. apply fsafe_ret. by exists r.
  - eapply fsafe_bind; [done|by apply realize_local_safe|]. intros r w1 _ _ Hr. apply fsafe_ret. by exists r.
  - eapply fsafe_bind; [done|by apply candidates_safe|]. intros r w1 _ _ Hr. apply fsafe_ret. by exists r.
Qed.
End Realizer.

(** ** Planned graphs *)

Lemma parse_source_declared {Number : Type} (origins : list (OriginHandler (Number := Number))) object s :
  parse_source_subject origins object = Ok s ->
  wf_hash (ss_declared_object_hash s) /\ ss_build_key s = ss_declared_object_hash s.
Proof.
  unfold parse_source_subject, jremove. intros Hp. inv_res.
  match goal with E : from_str _ = Ok _ |- _ => apply from_str_ok in E as [? _] end. done.
Qed.

Lemma plans_key_wf {Number : Type} `{ScalarWriter Number} `{Sha256Api} (arch : bytes) (builders : list (Builder (Number := Number)))
  (origins : list (OriginHandler (Number := Number))) (nodes : gmap bytes (JValue Number)) id n :
  Plans arch builders origins nodes id n ->
  wf_hash (node_build_key n) /\ forall s, n = Source s -> ss_declared_object_hash s = node_build_key n.
Proof.
  destruct 1 as [id subject Hr _|id tag object members inputs subject _ _ Hp _]; cbn [node_build_key].
  - unfold read_recipe, take_string, jremove in Hr. inv_res. case_match; inv_res; [|discriminate].
    match goal with E : parse_source_subject _ _ = Ok _ |- _ => apply parse_source_declared in E as [Hd ->] end.
    split; [done|]. by intros s [= <-].
  - split; [|done]. unfold parse_builder_subject, jremove, builder_subject_new, planned_build_key, compute_build_key, compute_key in Hp.
    inv_res. apply sha256_wf.
Qed.

Lemma plan_graph_keys {Number : Type} `{ScalarWriter Number} `{Sha256Api} (arch : bytes) (builders : list (Builder (Number := Number)))
  (origins : list (OriginHandler (Number := Number))) (nodes : gmap bytes (JValue Number)) goal_ids g :
  plan_graph arch builders origins nodes goal_ids = Some (Ok g) -> graph_ok g.
Proof.
  intros Hg. destruct (plan_graph_ok _ _ _ _ _ _ Hg) as (_ & _ & Hn). constructor.
  - intros key node Hk. destruct (Hn key node Hk) as (<- & id & _ & Hp). by apply plans_key_wf in Hp as [? _].
  - intros key s Hk. destruct (Hn key _ Hk) as (<- & id & _ & Hp). apply plans_key_wf in Hp as [_ Hs]. by apply Hs.
Qed.

Section Runs.
Context {Number : Type} `{ScalarWriter Number} `{Sha256Api} `{JsonApi}.
Context (record_json : ObjectRecord -> result string bytes) (format_timestamp : Z -> result string bytes).
Context (process : Z) (pending_fuel : nat) (join_error : string).
Context (graph : PlannedGraph (Number := Number)) (store : Store) (run_id : bytes).
Context (mapping_providers : list NamedMappingProvider) (sources : list NamedContentProvider).
Context (workers : Workers (Number := Number)).
Context (drift : World -> Shared -> World -> Shared -> Prop).

(** The runs of the realizer on a graph: any schedule of the tasks, any faults
    and panics, and [drift] in between. *)
Definition realizer_runs (w : World) (s : Shared) : Machine -> Prop :=
  rtc (machine_step
         (cell_body record_json format_timestamp process pending_fuel join_error graph store run_id mapping_providers sources workers)
         (job_body join_error graph mapping_providers sources) process drift)
    (launch (job_body join_error graph mapping_providers sources) JGoals w s).

Context (around : list node) (vouched : bytes -> bytes -> bytes -> Prop) (scratch : nat -> path).

(** The setting of a run: a store whose references are sound, tasks with
    scratch directories of their own, providers and workers that keep their
    contracts, and other processes that do what tasks may rely on. *)
Record run_setting : Prop := {
  rs_root : Forall valid_name store;
  rs_identify : hashes_identify around;
  rs_timestamps : forall t s, format_timestamp t = Ok s -> 47%Z ∉ s;
  rs_owners : forall t, owner_ok store (owner process scratch t);
  rs_apart : forall t u, t <> u -> apart (scratch t) (scratch u);
  rs_mappings : forall p, p ∈ mapping_providers -> MappingContract process store around vouched scratch p;
  rs_contents : forall p, p ∈ sources -> ContentContract process store around vouched scratch p;
  rs_workers : WorkerContract process store around vouched scratch graph workers;
  rs_drift : forall w s w' s', store_inv store around vouched w -> drift w s w' s' ->
    store_inv store around vouched w' /\ forall t, rely store (owner process scratch t) w w';
}.
End Runs.

(** C3. The realizer resolves goals soundly: in every run on a planned graph,
    whatever the schedule of its tasks, failing calls, panics, cancellation and
    other processes, the store stays well formed, and when the run reports the
    goals' objects, there is one for every goal, in order, each a complete and
    recorded object of the store to which the goal's build key maps.  Builds,
    reuse hits, mappings of secondary stores and acquired sources only combine
    mappings that hold. *)
Theorem realization_sound {Number : Type} `{ScalarWriter Number} `{Sha256Api} `{JsonApi}
  (arch : bytes) (builders : list (Builder (Number := Number))) (origins : list (OriginHandler (Number := Number)))
  (nodes : gmap bytes (JValue Number)) goal_ids
  record_json format_timestamp process pending_fuel join_error (graph : PlannedGraph (Number := Number)) store run_id
  mapping_providers sources workers drift around vouched scratch w s m :
  plan_graph arch builders origins nodes goal_ids = Some (Ok graph) ->
  run_setting format_timestamp process graph store mapping_providers sources workers drift around vouched scratch ->
  mappings_sound graph vouched -> store_inv store around vouched w ->
  realizer_runs record_json format_timestamp process pending_fuel join_error graph store run_id mapping_providers sources
    workers drift w s m ->
  store_inv store around vouched (m_world m) /\
  forall f l, f ∈ m_fibers m -> f_job f = JGoals -> f_prog f = Some (FRet (VGoals (Ok l)), []) ->
    map fst l = pg_goals graph /\
    forall key h, (key, h) ∈ l -> published store (tree (m_world m)) h /\ vouched BUILDS_DIR key h.
Proof.
  intros Hg [Hroot Hid Hts Hown Hapart Hmp Hcp Hwk Hdrift] Hms Hi Hrun. apply plan_graph_keys in Hg.
  edestruct (machine_safe
    (cell_body record_json format_timestamp process pending_fuel join_error graph store run_id mapping_providers sources workers)
    (job_body join_error graph mapping_providers sources) process drift (store_inv store around vouched) (relies process store scratch)
    (guars process store scratch) (evolves store) cell_pre (cell_ok store vouched) job_pre (job_ok store vouched (pg_goals graph)))
    with (j := JGoals) (w := w) (s := s) (m := m) as [Hinv Hjobs]; try done.
  - intros t w0 Hw0. by eapply rely_refl.
  - intros t w1 w2 w3. apply rely_trans.
  - intros w1 w2 w3. apply evolves_trans.
  - intros t w1 w2. apply relies_evolves.
  - intros t w1 w2. apply guars_evolves.
  - intros t u w1 w2 Hne _ Hgu. apply (guar_rely store (owner process scratch t)); [apply Hown|done| |exact Hgu]. intros ? ? [= <-] [= <-]. by apply Hapart.
  - intros c v w1 w2 _. apply cell_stable.
  - intros j v w1 w2 _. apply job_stable.
  - intros w1 H1'. by eapply evolves_refl.
  - intros t c w1 Hc H1'. by apply (cell_body_safe process store around vouched scratch Hroot Hid Hown).
  - intros t j w1 Hj H1'. by apply (job_body_safe process store around vouched scratch).
  - split; [done|]. intros f l Hf Hj Hp. specialize (Hjobs f _ Hf Hp). rewrite Hj in Hjobs.
    destruct Hjobs as (r & [= <-] & Hm & Hl). split; [done|]. intros key h Hin. rewrite Forall_forall in Hl.
    destruct (Hl _ Hin) as [[_ ?] ?]. done.
Qed.
