(* ===== verification/RealizerLiveness.v ===== *)
(** * Liveness of the realizer

    A planned graph is acyclic, also by build keys when keys identify inputs, so
    its keys have depths ([depths_exist]); the cells and tasks of a run then ask
    only for cells and tasks of smaller rank, and every run ends. *)

From S2P Require Import Prelude Errors Hash Text Json Identity FsObject FsArchive FsManifest Subjects Graph.
From S2P Require Import Posix Tasks Store Fibers FiberSafety FiberLiveness Resolver Realizer RealizerSafety.

(** ** Depths in a finite graph *)

Section Depth.
Context {K : Type} (next : K -> list K).

(** The height of the unfolding below [k], cut off at [fuel]. *)
Fixpoint height (fuel : nat) (k : K) : nat :=
  match fuel with
  | O => 0
  | S fuel' => S (list_max (map (height fuel') (next k)))
  end.

Lemma list_max_in (l : list nat) x : x ∈ l -> (x <= list_max l)%nat.
Proof.
  intros Hx. pose proof (proj1 (list_max_le l (list_max l)) (le_n _)) as Hl. rewrite Forall_forall in Hl. by apply Hl.
Qed.

Lemma height_stable k :
  Acc (fun c p => c ∈ next p) k -> exists n, forall fuel, (n <= fuel)%nat -> height fuel k = height n k.
Proof.
  induction 1 as [k _ IH].
  assert (Hall : exists n, forall c, c ∈ next k -> forall fuel, (n <= fuel)%nat -> height fuel c = height n c).
  { induction (next k) as [|c l IHl]; [exists 0%nat; by intros c ?%elem_of_nil|].
    destruct IHl as [n1 H1]; [intros c' Hc'; apply IH; by right|]. destruct (IH c) as [n2 H2]; [by left|].
    exists (Nat.max n1 n2). intros c' [->|Hc']%elem_of_cons fuel Hf.
    - rewrite (H2 fuel), (H2 (Nat.max n1 n2)); lia.
    - rewrite (H1 c' Hc' fuel), (H1 c' Hc' (Nat.max n1 n2)); lia. }
  destruct Hall as [n Hn]. exists (S n). intros [|fuel] Hf; [lia|]. cbn [height]. do 2 f_equal.
  apply map_ext_in. intros c Hc%list_elem_of_In. apply Hn; [done|lia].
Qed.

Lemma depths_exist (keys : list K) :
  (forall k, k ∈ keys -> Acc (fun c p => c ∈ next p) k) ->
  exists d : K -> nat, forall k c, k ∈ keys -> c ∈ next k -> (d c < d k)%nat.
Proof.
  intros Hacc. assert (Hn : exists n, forall k, k ∈ keys -> forall fuel, (n <= fuel)%nat -> height fuel k = height n k).
  { induction keys as [|k keys IH]; [exists 0%nat; by intros k ?%elem_of_nil|].
    destruct IH as [n1 H1]; [intros k' Hk'; apply Hacc; by right|].
    destruct (height_stable k) as [n2 H2]; [apply Hacc; by left|].
    exists (Nat.max n1 n2). intros k' [->|Hk']%elem_of_cons fuel Hf.
    - rewrite (H2 fuel), (H2 (Nat.max n1 n2)); lia.
    - rewrite (H1 k' Hk' fuel), (H1 k' Hk' (Nat.max n1 n2)); lia. }
  destruct Hn as [n Hn]. exists (height n). intros k c Hk Hc. rewrite <- (Hn k Hk (S n)) by lia. cbn [height].
  assert (height n c <= list_max (map (height n) (next k)))%nat; [|lia]. apply list_max_in, list_elem_of_fmap. by exists c.
Qed.
End Depth.

(** ** Ranks *)

Section Ranks.
Context {Number : Type} `{ScalarWriter Number} `{Sha256Api} `{JsonApi}.
Context (record_json : ObjectRecord -> result string bytes) (format_timestamp : Z -> result string bytes).
Context (process : Z) (pending_fuel : nat) (join_error : string).
Context (graph : PlannedGraph (Number := Number)) (store : Store) (run_id : bytes).
Context (mapping_providers : list NamedMappingProvider) (sources : list NamedContentProvider).
Context (workers : Workers (Number := Number)).

Context (depth : bytes -> nat).
Context (depth_inputs : forall key b name k,
  pg_nodes graph !! key = Some (BuilderNode b) -> bs_inputs b !! name = Some k -> (depth k < depth key)%nat).

Definition rank (c : CellName) : nat :=
  match c with
  | CContent _ _ => 1
  | CCandidates key => 4 * depth key + 2
  | CLocal key => 4 * depth key + 4
  end.
Definition jrank (j : Job) : nat :=
  match j with
  | JGoals => S (list_max (map (fun key => 4 * depth key + 5) (pg_goals graph)))
  | JLocal key => 4 * depth key + 5
  | JCandidates key => 4 * depth key + 3
  | _ => 0
  end.

(** Programs that ask for less than [n]. *)
Definition low {A : Type} (n out : nat) (p : async A) : Prop :=
  FiberLiveness.below (fun _ => True) (fun _ => True) rank jrank n out p.

Lemma low_ret {A} n (a : A) : low n 0 (FRet a).
Proof. done. Qed.
Lemma low_try {E A B} n out (p : async (result E A)) (f : A -> async (result E B)) :
  low n out p -> (forall a, low n 0 (f a)) -> low n out (ftry p f).
Proof. apply below_try. Qed.
Lemma low_bind {A B} n out (p : async A) (f : A -> async B) :
  low n out p -> (forall a, low n 0 (f a)) -> low n out (fbind p f).
Proof. apply below_bind. Qed.
Lemma low_map_err {E F A} n out (g : E -> F) (p : async (result E A)) : low n out p -> low n out (fmap_err g p).
Proof. apply below_map_err. Qed.
Lemma low_blocking {A} n (m : prog A) : low n 0 (blocking m).
Proof. apply below_blocking. Qed.
#[local] Hint Resolve low_ret low_blocking low_map_err : low.

(** The structure of a program decides, up to the cells and tasks it names. *)
Ltac low_step :=
  match goal with
  | |- low _ _ (FRet _) => apply low_ret
  | |- low _ _ FPanic => exact I
  | |- low _ _ (blocking _) => apply low_blocking
  | |- low _ _ (fmap_err _ _) => apply low_map_err
  | |- low _ _ (ftry _ _) => apply low_try; [|intros ?]
  | |- low _ _ (fbind _ _) => apply low_bind; [|intros ?]
  | |- low ?n ?out (FGet ?k) => change (forall s, low n out (k s)); intro; cbv beta
  | |- low ?n ?out (FSelf ?k) => change (forall t, low n out (k t)); intro; cbv beta
  | |- low ?n ?out (FPut _ ?k) => change (low n out k)
  | |- low _ _ (match ?x with _ => _ end) => destruct x
  end.
Ltac lows := repeat (low_step || (solve [eauto 3 with low])).

(** *** The resolver *)

Lemma low_join_providers {T} (project : Val -> option (result ProviderError T)) operation n k ordered :
  low n k (join_providers join_error project operation k ordered).
Proof.
  revert ordered. induction k as [|k IH]; intros ordered; cbn [join_providers]; [done|].
  exists k. split; [done|]. intros [i v|]; [|done]. destruct (project v); [apply IH|done].
Qed.

Lemma low_collect {T} (project : Val -> option (result ProviderError T)) operation names jobs n :
  Forall (fun j => (jrank j < n)%nat) jobs -> low n 0 (collect_ordered_provider_tasks join_error project operation names jobs).
Proof.
  intros Hj. split_and!; [done| |].
  - eapply Forall_impl; [exact Hj|done].
  - apply low_try; [apply low_join_providers|]. intros ordered. lows.
Qed.

Lemma provider_jobs_low (f : nat -> Job) l n : (forall i, jrank (f i) = 0%nat) -> (0 < n)%nat -> Forall (fun j => (jrank j < n)%nat) (map f l).
Proof. intros Hf Hn. apply Forall_forall. intros j (i & -> & _)%list_elem_of_fmap. by rewrite Hf. Qed.

Lemma low_query_builds n keys : (0 < n)%nat -> low n 0 (query_build_providers join_error mapping_providers keys).
Proof. intros Hn. apply low_try; [|by intros]. by apply low_collect, provider_jobs_low. Qed.
Lemma low_query_reuses n keys : (0 < n)%nat -> low n 0 (query_reuse_providers join_error mapping_providers keys).
Proof. intros Hn. apply low_try; [|by intros]. by apply low_collect, provider_jobs_low. Qed.
Lemma low_locate_objects n hashes : (0 < n)%nat -> low n 0 (locate_objects join_error sources hashes).
Proof. intros Hn. apply low_try; [|by intros]. by apply low_collect, provider_jobs_low. Qed.
Lemma low_locate_fs_files n hashes : (0 < n)%nat -> low n 0 (locate_fs_files join_error sources hashes).
Proof. intros Hn. apply low_try; [|by intros]. by apply low_collect, provider_jobs_low. Qed.
#[local] Hint Resolve low_query_builds low_query_reuses low_locate_objects low_locate_fs_files : low.

Lemma low_lookup_builds n keys : (0 < n)%nat -> low n 0 (lookup_builds join_error mapping_providers keys).
Proof. intros Hn. unfold lookup_builds, lookup_build_groups. lows. Qed.
Lemma low_lookup_reuses n keys : (0 < n)%nat -> low n 0 (lookup_reuses join_error mapping_providers keys).
Proof. intros Hn. unfold lookup_reuses. lows. Qed.

Section Notify.
Context (notify : ContentTransferEvent -> Shared -> Shared).

Lemma low_closure n object_hash missing index availability unresolved used transfers :
  low n 0 (closure_from store sources notify object_hash missing index availability unresolved used transfers).
Proof.
  revert index unresolved used transfers. induction availability as [|a availability IH]; intros; cbn [closure_from]; unfold progress; lows.
Qed.
#[local] Hint Resolve low_closure : low.

Lemma low_manifest_closure n object_hash manifest :
  (0 < n)%nat -> low n 0 (ensure_manifest_closure join_error store sources notify object_hash manifest).
Proof. intros Hn. unfold ensure_manifest_closure. lows. Qed.
#[local] Hint Resolve low_manifest_closure : low.

Lemma low_import_from n hash source used transfers next :
  (forall used transfers, low n 0 (next used transfers)) -> low n 0 (import_from store notify hash source used transfers next).
Proof. intros Hn. unfold import_from, progress. lows. Qed.
#[local] Hint Resolve low_import_from : low.

Lemma low_acquire_from n hash availability index rest used transfers :
  (0 < n)%nat -> low n 0 (acquire_from join_error store sources notify hash availability index rest used transfers).
Proof.
  intros Hn. revert index used transfers. induction rest as [|source rest IH]; intros; cbn [acquire_from]; unfold progress; lows.
Qed.
#[local] Hint Resolve low_acquire_from : low.

Lemma low_ensure_objects n hashes :
  (0 < n)%nat -> low n 0 (ensure_objects_with_progress record_json process join_error store run_id sources notify hashes).
Proof.
  intros Hn. unfold ensure_objects_with_progress. lows. generalize (unique_in_order hashes) as l. intros l.
  induction l as [|h l IH]; cbn [ensure_each]; [done|]. unfold ensure_one, acquire_candidate. lows.
Qed.
End Notify.
#[local] Hint Resolve low_lookup_builds low_lookup_reuses low_ensure_objects : low.

(** *** The realizer *)

Lemma low_check n : low n 0 check_cancelled.
Proof. unfold check_cancelled. lows. Qed.

Lemma low_unless {E A} n from (m : async (result E A)) : low n 0 m -> low n 0 (unless_cancelled from m).
Proof. intros Hm. unfold unless_cancelled. lows. Qed.

Lemma low_log_mapping {A} n kind key report (k : async A) : low n 0 k -> low n 0 (log_mapping kind key report k).
Proof. intros Hk. unfold log_mapping. lows. Qed.

Lemma low_log_hit {A} n key hash outcome (k : async A) : low n 0 k -> low n 0 (log_cache_hit key hash outcome k).
Proof. done. Qed.
#[local] Hint Resolve low_check low_unless low_log_mapping low_log_hit : low.

Lemma low_working_build n key : low n 0 (working_build store key).
Proof. unfold working_build. lows. Qed.
Lemma low_working_reuse n key : low n 0 (working_reuse store key).
Proof. unfold working_reuse. lows. Qed.
Lemma low_secondary_builds n keys : (0 < n)%nat -> low n 0 (secondary_builds join_error mapping_providers keys).
Proof. intros Hn. unfold secondary_builds. apply low_unless. lows. Qed.
Lemma low_secondary_reuses n keys : (0 < n)%nat -> low n 0 (secondary_reuses join_error mapping_providers keys).
Proof. intros Hn. unfold secondary_reuses. apply low_unless. lows. Qed.
#[local] Hint Resolve low_working_build low_working_reuse low_secondary_builds low_secondary_reuses : low.

Lemma low_candidates n key : (4 * depth key + 2 < n)%nat -> low n 0 (candidates key).
Proof. intros Hn. split_and!; [done|done|done|]. intros [r|r|[hs|e]|r|r|r]; done. Qed.

Lemma low_realize_local n key : (4 * depth key + 4 < n)%nat -> low n 0 (realize_local key).
Proof. intros Hn. split_and!; [done|done|done|]. by intros [r|r|r|r|r|r]. Qed.

Lemma low_ensure_object n hash : (1 < n)%nat -> low n 0 (ensure_object hash).
Proof. intros Hn s. split_and!; [done|done|done|]. by intros [r|r|r|[[]|e]|r|r]. Qed.

Lemma low_compute_content n hash : (0 < n)%nat -> low n 0 (compute_content record_json process join_error store run_id sources hash).
Proof. intros Hn. unfold compute_content. lows. Qed.

Lemma low_join_inputs {T} (project : Val -> option (result RealizeError T)) operation n k ordered first_error :
  low n k (join_inputs join_error project operation k ordered first_error).
Proof.
  revert ordered first_error. induction k as [|k IH]; intros ordered first_error; cbn [join_inputs]; [done|].
  exists k. split; [done|]. intros [i v|].
  - destruct (project v) as [[x|e]|]; [apply IH| |done]. destruct first_error; [apply IH|]. apply IH.
  - destruct first_error; [apply IH|]. apply IH.
Qed.

Lemma low_join_all {T} (project : Val -> option (result RealizeError T)) operation jobs n :
  Forall (fun j => (jrank j < n)%nat) jobs -> low n 0 (join_all join_error project operation jobs).
Proof.
  intros Hj. split_and!; [done| |].
  - eapply Forall_impl; [exact Hj|done].
  - apply low_try; [apply low_join_inputs|]. intros ordered. lows.
Qed.

(** The inputs of a builder have tasks of rank below [n]. *)
Definition inputs_low (n : nat) (b : BuilderPlannedSubject) : Prop :=
  (1 < n)%nat /\ forall name k, bs_inputs b !! name = Some k -> (4 * depth k + 5 < n)%nat.

Lemma inputs_low_jobs n b (f : bytes -> Job) :
  inputs_low n b -> (forall k, (jrank (f k) <= 4 * depth k + 5)%nat) ->
  Forall (fun j => (jrank j < n)%nat) (map (fun '(_, key) => f key) (ordered_inputs (bs_inputs b))).
Proof.
  intros [_ Hin] Hf. apply Forall_forall. intros j ([name k] & -> & Hk)%list_elem_of_fmap.
  apply elem_of_ordered_inputs, Hin in Hk. specialize (Hf k). lia.
Qed.

Lemma low_input_slots n b : inputs_low n b -> low n 0 (input_candidate_slots join_error b).
Proof.
  intros Hb. apply low_try; [|by intros]. apply low_join_all, inputs_low_jobs; [done|]. intros k. cbn. lia.
Qed.
#[local] Hint Resolve low_input_slots : low.

Lemma low_working_reuse_hashes n b items : low n 0 (working_reuse_hashes (Number := Number) store b items).
Proof. induction items as [|[inputs|] items IH]; cbn [working_reuse_hashes]; lows. Qed.

Lemma low_matching_working n b wanted items : low n 0 (matching_working (Number := Number) store b wanted items).
Proof. induction items as [|[inputs|] items IH]; cbn [matching_working]; lows. Qed.

Lemma low_in_batches {A} n b (flush : list bytes -> A -> async (result RealizeError A)) items batch acc :
  (forall batch acc, low n 0 (flush batch acc)) -> low n 0 (in_batches (Number := Number) b flush items batch acc).
Proof.
  intros Hf. revert batch acc. induction items as [|[inputs|] items IH]; intros batch acc; cbn [in_batches]; cbv zeta; lows.
Qed.

Lemma low_log_reports {A} n reports (k : async A) : low n 0 k -> low n 0 (log_reports reports k).
Proof. intros Hk. induction reports as [|report reports IH]; cbn [log_reports]; [done|]. by apply low_log_mapping. Qed.
#[local] Hint Resolve low_working_reuse_hashes low_matching_working low_in_batches low_log_reports : low.

Lemma low_cached_reuse n b :
  inputs_low n b -> low n 0 (cached_reuse_candidates (Number := Number) join_error store mapping_providers b).
Proof.
  intros Hb. assert (Hn : (0 < n)%nat) by (destruct Hb; lia). unfold cached_reuse_candidates. lows.
  apply low_in_batches. intros batch acc. unfold append_secondary_reuse_hashes. lows.
Qed.

Lemma low_reuse_keys n b wanted :
  inputs_low n b -> low n 0 (reuse_keys_resolving_to (Number := Number) join_error store mapping_providers b wanted).
Proof.
  intros Hb. assert (Hn : (0 < n)%nat) by (destruct Hb; lia). unfold reuse_keys_resolving_to. lows.
  apply low_in_batches. intros batch acc. unfold append_matching. lows.
Qed.
#[local] Hint Resolve low_cached_reuse low_reuse_keys : low.

Lemma low_publish_cached_builder n b hash :
  inputs_low n b -> low n 0 (publish_cached_builder (Number := Number) record_json format_timestamp process join_error store run_id
    mapping_providers b hash).
Proof.
  intros Hb. assert (Hn : (0 < n)%nat) by (destruct Hb; lia). unfold publish_cached_builder. cbv zeta. lows.
Qed.
#[local] Hint Resolve low_publish_cached_builder : low.

Definition node_low (n : nat) (node : PlannedNode (Number := Number)) : Prop :=
  match node with Source _ => True | BuilderNode b => inputs_low n b end.

Lemma low_publish_cached n node hash :
  node_low n node -> low n 0 (publish_cached record_json format_timestamp process join_error store run_id mapping_providers node hash).
Proof. intros Hn. destruct node as [source|b]; cbn [publish_cached]; lows; unfold log_cache_hit; lows. Qed.

Lemma low_first_available n b hashes :
  inputs_low n b -> low n 0 (first_available (Number := Number) record_json format_timestamp process join_error store run_id
    mapping_providers b hashes).
Proof.
  intros Hb. induction hashes as [|h hashes IH]; cbn [first_available]; [done|]. apply low_try; [apply low_ensure_object, Hb|].
  intros []; lows.
Qed.

Lemma low_first_local n node hashes :
  (1 < n)%nat -> node_low n node ->
  low n 0 (first_local record_json format_timestamp process join_error store run_id mapping_providers node hashes).
Proof.
  intros Hn Hb. induction hashes as [|h hashes IH]; cbn [first_local]; [done|]. apply low_try; [by apply low_ensure_object|].
  intros []; [|done]. apply low_try; [by apply low_publish_cached|]. by intros.
Qed.

Lemma low_prepare n b inputs : low n 0 (prepare_builder_inputs graph store workers b inputs).
Proof. unfold prepare_builder_inputs. lows; apply low_unless; lows. Qed.

Lemma low_execute n b paths inputs reuse_key :
  low n 0 (execute_builder_miss record_json format_timestamp process pending_fuel store run_id workers b paths inputs reuse_key).
Proof. unfold execute_builder_miss, publish_builder_output. lows. Qed.
#[local] Hint Resolve low_prepare low_execute low_first_available : low.

Lemma low_build_builder n b :
  inputs_low n b -> low n 0 (build_builder record_json format_timestamp process pending_fuel join_error graph store run_id
    mapping_providers workers b).
Proof.
  intros Hb. assert (Hn : (0 < n)%nat) by (destruct Hb; lia). unfold build_builder. apply low_try; [apply low_check|]. intros _. cbv zeta.
  apply low_try; [apply low_join_all, inputs_low_jobs; [done|cbn; lia]|]. intros realized. lows.
Qed.

Lemma low_materialize_source n source : low n 0 (materialize_source workers source).
Proof. unfold materialize_source. cbv zeta. lows; unfold log_cache_hit; lows. Qed.
#[local] Hint Resolve low_build_builder low_materialize_source : low.

Lemma planned_low key node n :
  pg_nodes graph !! key = Some node -> (4 * depth key + 2 <= n)%nat -> node_low n node.
Proof.
  intros Hn Hk. destruct node as [source|b]; [done|]. split; [lia|]. intros name k Hin.
  pose proof (depth_inputs key b name k Hn Hin). lia.
Qed.

Lemma low_compute_candidates key :
  low (4 * depth key + 2) 0 (compute_candidates record_json format_timestamp process pending_fuel join_error graph store run_id
    mapping_providers workers key).
Proof.
  unfold compute_candidates. apply low_try; [apply low_check|]. intros _.
  destruct (find_node graph key) as [node|e] eqn:Ef; [|done]. apply find_node_ok in Ef.
  pose proof (planned_low key node (4 * depth key + 2) Ef (le_n _)) as Hl.
  assert (Hn : (0 < 4 * depth key + 2)%nat) by lia. apply low_try; [apply low_working_build|]. intros [h|]; [done|].
  apply low_try; [by apply low_secondary_builds|]. intros reports. cbv zeta.
  assert (Hmiss : low (4 * depth key + 2) 0
    (match node with
     | Source source => FRet (Ok (object_candidates [ss_declared_object_hash source]))
     | BuilderNode builder =>
         ftry (cached_reuse_candidates (Number := Number) join_error store mapping_providers builder) (fun reuse =>
           if negb (bool_decide (reuse = [])) then FRet (Ok reuse)
           else ftry (build_builder record_json format_timestamp process pending_fuel join_error graph store run_id
                        mapping_providers workers builder) (fun built => FRet (Ok (object_candidates [built]))))
     end)).
  { destruct node as [source|b]; [done|]. cbn in Hl. lows. }
  destruct reports as [|report reports]; [exact Hmiss|]. apply low_log_mapping. by case_bool_decide.
Qed.

Lemma low_compute_local key :
  low (4 * depth key + 4) 0 (compute_local record_json format_timestamp process pending_fuel join_error graph store run_id
    mapping_providers workers key).
Proof.
  unfold compute_local. apply low_try; [apply low_check|]. intros _.
  destruct (find_node graph key) as [node|e] eqn:Ef; [|done]. apply find_node_ok in Ef.
  assert (Hl : node_low (4 * depth key + 4) node) by (eapply planned_low; [done|lia]).
  apply low_try; [apply low_candidates; lia|]. intros hs. apply low_try; [apply low_first_local; [lia|done]|].
  intros [h|]; [done|]. destruct node as [source|b]; [lows|]. by apply low_build_builder.
Qed.

Lemma cell_low c :
  low (rank c) 0 (cell_body record_json format_timestamp process pending_fuel join_error graph store run_id mapping_providers
    sources workers c).
Proof.
  destruct c as [key|key|h g]; cbn [cell_body rank]; (apply low_bind; [|by intros]).
  - apply low_compute_candidates.
  - apply low_compute_local.
  - apply low_compute_content. lia.
Qed.

Lemma job_low j : low (jrank j) 0 (job_body join_error graph mapping_providers sources j).
Proof.
  destruct j as [|key|key|order keys|order keys|order hs|order hs]; cbn [job_body].
  - apply low_bind; [|by intros]. apply low_try; [|by intros]. apply low_join_all. cbn [jrank].
    apply Forall_forall. intros j (key & -> & Hk)%list_elem_of_fmap. cbn [jrank].
    apply le_n_S, list_max_in, list_elem_of_fmap. by exists key.
  - apply low_bind; [|by intros]. apply low_realize_local. cbn [jrank]. lia.
  - apply low_bind; [|by intros]. apply low_candidates. cbn [jrank]. lia.
  - unfold resolve_builds_task. lows.
  - unfold resolve_reuses_task. lows.
  - unfold locate_objects_task. lows.
  - unfold locate_fs_files_task. lows.
Qed.
End Ranks.

(** ** Planned graphs have depths *)

Definition node_inputs {Number : Type} (n : PlannedNode (Number := Number)) : gmap bytes bytes :=
  match n with Source _ => ∅ | BuilderNode s => bs_inputs s end.

(** No two plans of the request have the same build key and different inputs:
    the digest that makes build keys does not collide among them. *)
Definition build_keys_identify {Number : Type} `{ScalarWriter Number} `{Sha256Api} (arch : bytes)
  (builders : list (Builder (Number := Number))) (origins : list (OriginHandler (Number := Number)))
  (nodes : gmap bytes (JValue Number)) : Prop :=
  forall id id' n n', Plans arch builders origins nodes id n -> Plans arch builders origins nodes id' n' ->
    node_build_key n = node_build_key n' -> node_inputs n = node_inputs n'.

(** The keys a key asks for. *)
Definition key_inputs {Number : Type} (g : PlannedGraph (Number := Number)) (key : bytes) : list bytes :=
  match pg_nodes g !! key with Some n => map snd (map_to_list (node_inputs n)) | None => [] end.

Lemma keys_acc {Number : Type} `{ScalarWriter Number} `{Sha256Api} (arch : bytes)
  (builders : list (Builder (Number := Number))) (origins : list (OriginHandler (Number := Number)))
  (nodes : gmap bytes (JValue Number)) goal_ids g id :
  plan_graph arch builders origins nodes goal_ids = Some (Ok g) -> build_keys_identify arch builders origins nodes ->
  Acc (flip (Child origins nodes)) id ->
  forall n, Plans arch builders origins nodes id n -> Acc (fun c p => c ∈ key_inputs g p) (node_build_key n).
Proof.
  intros Hg Hid. destruct (plan_graph_ok _ _ _ _ _ _ Hg) as (_ & _ & Hn). induction 1 as [id _ IH]. intros n Hp.
  constructor. intros c Hc. unfold key_inputs in Hc. destruct (pg_nodes g !! node_build_key n) as [n'|] eqn:En; [|by apply elem_of_nil in Hc].
  destruct (Hn _ _ En) as (Ek & id' & _ & Hp'). apply list_elem_of_fmap in Hc as ([name k] & -> & Hk). apply elem_of_map_to_list in Hk.
  rewrite <- (Hid id id' n n' Hp Hp' (eq_sym Ek)) in Hk. destruct n as [s|s]; cbn [node_inputs] in Hk; [by rewrite lookup_empty in Hk|].
  destruct (plans_builder_children _ _ _ _ _ _ _ _ Hp Hk) as (c & nc & Hch & Hpc & <-). by apply (IH c).
Qed.

Lemma planned_depths {Number : Type} `{ScalarWriter Number} `{Sha256Api} (arch : bytes)
  (builders : list (Builder (Number := Number))) (origins : list (OriginHandler (Number := Number)))
  (nodes : gmap bytes (JValue Number)) goal_ids g :
  plan_graph arch builders origins nodes goal_ids = Some (Ok g) -> build_keys_identify arch builders origins nodes ->
  exists depth : bytes -> nat, forall key b name k,
    pg_nodes g !! key = Some (BuilderNode b) -> bs_inputs b !! name = Some k -> (depth k < depth key)%nat.
Proof.
  intros Hg Hid. destruct (plan_graph_ok _ _ _ _ _ _ Hg) as (_ & _ & Hn).
  destruct (depths_exist (key_inputs g) (map fst (map_to_list (pg_nodes g)))) as [d Hd].
  - intros key ([k n] & -> & Hk)%list_elem_of_fmap. apply elem_of_map_to_list in Hk. cbn [fst].
    destruct (Hn _ _ Hk) as (<- & id & _ & Hp). eapply keys_acc; [done|done| |exact Hp]. by eapply (proj1 (plans_acc _ _ _ _)).
  - exists d. intros key b name k Hk Hin. apply Hd.
    + apply list_elem_of_fmap. exists (key, BuilderNode b). by rewrite elem_of_map_to_list.
    + unfold key_inputs. rewrite Hk. apply list_elem_of_fmap. exists (name, k). by rewrite elem_of_map_to_list.
Qed.

(** C4. The realizer ends: on a planned graph whose build keys identify the
    inputs of their nodes, every run finishes its first task after finitely
    many steps, whatever the schedule (no fairness is assumed), the results of
    calls, panics of tasks, cancellation, and other processes in between.  No
    run deadlocks: tasks and once-cells never wait for each other in a circle,
    and a cell whose initialiser panicked can be initialised again. *)
Theorem realization_ends {Number : Type} `{ScalarWriter Number} `{Sha256Api} `{JsonApi}
  (arch : bytes) (builders : list (Builder (Number := Number))) (origins : list (OriginHandler (Number := Number)))
  (nodes : gmap bytes (JValue Number)) goal_ids
  record_json format_timestamp process pending_fuel join_error (graph : PlannedGraph (Number := Number)) store run_id
  mapping_providers sources workers drift w s :
  plan_graph arch builders origins nodes goal_ids = Some (Ok graph) -> build_keys_identify arch builders origins nodes ->
  inevitable
    (cell_body record_json format_timestamp process pending_fuel join_error graph store run_id mapping_providers sources workers)
    (job_body join_error graph mapping_providers sources) process drift root_finished
    (launch (job_body join_error graph mapping_providers sources) JGoals w s).
Proof.
  intros Hg Hid. destruct (planned_depths arch builders origins nodes goal_ids graph Hg Hid) as [depth Hd].
  apply (machine_inevitable _ _ process drift (fun _ => True) (fun _ => True) (rank depth) (jrank graph depth)); [| |done].
  - intros c _. by apply (cell_low record_json format_timestamp process pending_fuel join_error graph store run_id
      mapping_providers sources workers depth Hd).
  - intros j _. by apply (job_low join_error graph mapping_providers sources depth).
Qed.
