(* ===== verification/RealizerToy.v ===== *)
(** * A small realization

    A request with a source and a builder on it, a store that has the source,
    and a run of the realizer that builds and publishes the goal: the setting of
    the witnesses of the realizer properties. *)

From S2P Require Import Prelude Errors Hash Text Json Identity FsObject FsArchive FsManifest JsonToy Subjects.
From S2P Require Import Graph GraphToy Posix Tasks Store StoreInvariant StoreSafety StoreToy Fibers FiberSafety.
From S2P Require Import FiberLiveness Resolver Answers ResolverSafety Realizer Product RealizerSafety RealizerLiveness.

Module RealizerExamples.
#[local] Existing Instance ToySha.sha256_api.
#[local] Existing Instance IdentityExamples.toy_writer.

Definition source_file : node := Reg 0x124 (lit "source").
Definition source_hash : bytes := sha256 (lit "source").

Definition nodes : gmap bytes (JValue Z) :=
  {[ lit "src" := JObject [(lit "name", JString (lit "src")); (lit "object_hash", JString (to_hex source_hash));
                           (lit "tag", JString (lit "Source"))];
     lit "lib" := GraphExamples.grouped "lib" [(lit "base", JString (lit "src"))] ]}.

Definition planned : Outcome (PlannedGraph (Number := Z)) :=
  plan_graph (lit "x86_64") [GraphExamples.group] [] nodes [lit "lib"].
Definition graph : PlannedGraph (Number := Z) :=
  match planned with Some (Ok g) => g | _ => mkPlannedGraph [] ∅ end.

Lemma planned_ok : planned = Some (Ok graph).
Proof.
  unfold graph. assert (option_map is_ok planned = Some true) as H by (vm_compute; reflexivity).
  destruct planned as [[g|e]|]; done.
Qed.

(** The scratch directory of fiber [t]; that of fiber 1 has an output. *)
Definition scratch (t : nat) : path := [lit "x" ++ decimal (Z.of_nat t)].

Definition store : Store := StoreExamples.toy_store.
Definition world : World := mkWorld
  (Dir 0x1ed [(lit "s", Dir 0x1ed (map (fun '(d, _) =>
                (d, Dir 0x1ed (if bool_decide (d = OBJECTS_DIR) then [(to_hex source_hash, source_file)] else []))) LAYOUT));
              (lit "x1", StoreExamples.staged_file)]) ∅ ∅.

(** A worker that delivers the output if it is there, and one that has no
    network. *)
Definition deliver (t : nat) (b : BuilderPlannedSubject) (paths : gmap bytes path) (inputs : gmap bytes bytes)
  (reuse_key : bytes) : prog (result BuildExecutorError path) :=
  bind (symlink_metadata (scratch t)) (fun r =>
    match r with
    | Ok md =>
        if bool_decide (file_type md = TFile) && (md_mode md =? 0x1a4)%Z then
          bind (read (scratch t)) (fun c =>
            Ret (match c with
                 | Ok content => if bool_decide (content = lit "hello") then Ok (scratch t) else Err (ExBuild "unexpected output")
                 | Err e => Err (ExBuild (io_text e))
                 end))
        else Ret (Err (ExBuild "no output"))
    | Err e => Ret (Err (ExBuild (io_text e)))
    end).

Definition workers : Workers (Number := Z) := mkWorkers deliver
  (fun _ name _ _ => Ret (SourceFailed name "offline")) (fun _ _ => Ret (Err "offline"%string)) (Ret (Ok tt)).

Definition idle : Shared := mkShared false ∅ ∅ [].
Definition no_drift (w : World) (s : Shared) (w' : World) (s' : Shared) : Prop := w' = w /\ s' = set_cancelled s.

Definition cells : CellName -> async Val :=
  cell_body StoreExamples.record_text StoreExamples.timestamp 7 10 "panic" graph store (lit "run") [] [] workers.
Definition jobs : Job -> async Val := job_body "panic" graph [] [].

(** A scheduler: the first fiber that can move does. *)
Definition any_step (m : Machine (Sh := Shared)) : option Machine :=
  let ids := map f_id (m_fibers m) in
  let try acc '(pick, t) := match acc with Some m' => Some m' | None => act cells jobs 7 calm pick t m end in
  fold_left try (flat_map (fun t => map (fun pick => (pick, t)) ids) ids) None.

Fixpoint schedule (fuel : nat) (m : Machine) : Machine :=
  match fuel with
  | O => m
  | S fuel' => match any_step m with Some m' => schedule fuel' m' | None => m end
  end.

Definition final : Machine := schedule 2000 (launch jobs JGoals world idle).

Definition value_of (m : Machine (Sh := Shared) (C := CellName) (J := Job)) : option Val :=
  match m_fibers m with
  | f :: _ => match f_prog f with Some (FRet v, []) => Some v | _ => None end
  | [] => None
  end.

Lemma any_step_sound m m' : any_step m = Some m' -> machine_step cells jobs 7 no_drift m m'.
Proof.
  unfold any_step. assert (Hgo : forall l acc,
    (forall x, acc = Some x -> machine_step cells jobs 7 no_drift m x) ->
    forall x, fold_left (fun acc '(pick, t) => match acc with Some m' => Some m' | None => act cells jobs 7 calm pick t m end) l acc = Some x ->
    machine_step cells jobs 7 no_drift m x).
  { induction l as [|[pick t] l IH]; intros acc Hacc x Hx; cbn in Hx; [by apply Hacc|]. eapply IH; [|exact Hx].
    intros y Hy. destruct acc as [z|]; [by apply Hacc|]. left. left. by exists calm, pick, t. }
  apply Hgo. by intros x.
Qed.

Lemma schedule_runs fuel m : rtc (machine_step cells jobs 7 no_drift) m (schedule fuel m).
Proof.
  revert m. induction fuel as [|fuel IH]; intros m; cbn [schedule]; [apply rtc_refl|].
  destruct (any_step m) as [m'|] eqn:E; [|apply rtc_refl]. eapply rtc_l; [by apply any_step_sound|apply IH].
Qed.

(** ** The graph *)

Definition planned_nodes_list : list (bytes * PlannedNode (Number := Z)) := Eval vm_compute in map_to_list (pg_nodes graph).
Lemma nodes_listed : map_to_list (pg_nodes graph) = planned_nodes_list.
Proof. vm_compute. reflexivity. Qed.

Definition lib_key : bytes := default [] (head (pg_goals graph)).

Definition vouched (d key h : bytes) : Prop :=
  if bool_decide (d = BUILDS_DIR) && bool_decide (key = source_hash) then h = source_hash
  else h = StoreExamples.hello_hash.

(** The source is under its hash, builders are not. *)
Lemma nodes_kinds key n :
  pg_nodes graph !! key = Some n ->
  match n with
  | Source s => key = source_hash /\ ss_origin_value s = None
  | BuilderNode _ => key <> source_hash
  end.
Proof.
  intros Hk%elem_of_map_to_list. rewrite nodes_listed in Hk. unfold planned_nodes_list in Hk.
  repeat (apply elem_of_cons in Hk as [[= -> ->]|Hk]; [cbn; first [split; vm_compute; reflexivity|vm_compute; congruence]|]).
  by apply elem_of_nil in Hk.
Qed.

Lemma builds_vouched key h : key <> source_hash -> vouched BUILDS_DIR key h <-> h = StoreExamples.hello_hash.
Proof. intros Hk. unfold vouched. rewrite bool_decide_eq_true_2, bool_decide_eq_false_2 by done. done. Qed.

Lemma reuses_vouched key h : vouched REUSES_DIR key h <-> h = StoreExamples.hello_hash.
Proof. unfold vouched. rewrite bool_decide_eq_false_2 by (vm_compute; congruence). done. Qed.

Lemma toy_mappings : mappings_sound graph vouched.
Proof.
  constructor.
  - intros key s Hk h. apply nodes_kinds in Hk as [-> _]. unfold vouched. by rewrite !bool_decide_eq_true_2.
  - intros key b inputs rk h Hk _ _ _ Hv. apply nodes_kinds in Hk. apply reuses_vouched in Hv. by apply builds_vouched.
Qed.

(** ** The store *)

Definition around : list node := [source_file; StoreExamples.staged_file].

Lemma hashes_values n h : n ∈ around -> hashes n h ->
  (n = source_file /\ h = source_hash) \/ (n = StoreExamples.staged_file /\ h = StoreExamples.hello_hash).
Proof.
  intros Hn [p Hp]. apply elem_of_cons in Hn as [->|[->|Hn]%elem_of_cons]; [| |by apply elem_of_nil in Hn].
  all: vm_compute in Hp; injection Hp as <-.
  - left. split; [done|vm_compute; reflexivity].
  - right. split; [done|vm_compute; reflexivity].
Qed.

Lemma toy_identify : hashes_identify around.
Proof.
  intros n n' h Hn Hn' Hh Hh'. destruct (hashes_values n h Hn Hh) as [[-> E]|[-> E]], (hashes_values n' h Hn' Hh') as [[-> E']|[-> E']].
  1,4: done.
  all: exfalso; rewrite E in E'; vm_compute in E'; congruence.
Qed.

Lemma world_dir d : d ∈ map fst LAYOUT ->
  get (tree world) (store ++ [d]) = Some (Dir 0x1ed (if bool_decide (d = OBJECTS_DIR) then [(to_hex source_hash, source_file)] else [])).
Proof. cbn [map fst LAYOUT]. intros Hd. repeat (apply elem_of_cons in Hd as [->|Hd]; [vm_compute; reflexivity|]). by apply elem_of_nil in Hd. Qed.

Lemma world_entry d x n : d ∈ map fst LAYOUT -> get (tree world) (store ++ [d; x]) = Some n ->
  d = OBJECTS_DIR /\ x = to_hex source_hash /\ n = source_file.
Proof.
  intros Hd. replace (store ++ [d; x]) with ((store ++ [d]) ++ [x]) by (by rewrite <- app_assoc).
  rewrite get_app, world_dir by done. case_bool_decide as E; [|discriminate].
  cbn [get assoc]. destruct (bytes_eqb _ _) eqn:Ex; [|discriminate]. bools. by intros [= <-].
Qed.

Lemma source_hash_wf : wf_hash source_hash.
Proof. apply sha256_wf. Qed.

Lemma world_wf : wf_node (tree world).
Proof.
  cbn [wf_node tree world map LAYOUT source_file StoreExamples.staged_file].
  repeat match goal with
    | |- context [if bool_decide (?a = OBJECTS_DIR) then _ else _] =>
        let v := eval vm_compute in (bool_decide (a = OBJECTS_DIR)) in
        change (bool_decide (a = OBJECTS_DIR)) with v; cbn [wf_node source_file]
    | |- valid_name (to_hex _) => apply valid_hex, source_hash_wf
    | |- valid_name _ => StoreExamples.plain_name
    | |- _ /\ _ => split
    | |- True => exact I
    end.
Qed.

Lemma toy_world_inv : store_inv store around vouched world.
Proof.
  constructor.
  - exact world_wf.
  - intros d Hd. eexists _, _. by apply world_dir.
  - intros c n Hn. apply world_entry in Hn as (? & _ & ->); [done|set_solver].
  - intros c n Hn. apply world_entry in Hn as (? & _ & ->); [done|set_solver].
  - intros d name target m Hd Hn. apply world_entry in Hn as (_ & _ & ?); [done|by apply ref_dir_layout].
  - intros h n Hh Hn. rewrite object_path_eq in Hn. apply world_entry in Hn as (_ & E & ->); [|set_solver].
    apply to_hex_inj in E as ->; [|done|apply source_hash_wf]. split; [exists (lit "x"); vm_compute; reflexivity|].
    exists source_file. split; [by left|done].
  - intros p s i Hc. cbn [claims world] in Hc. by rewrite lookup_empty in Hc.
  - intros p. cbn [next_pending world]. rewrite lookup_empty. cbn. lia.
Qed.

(** ** The contracts *)

Lemma scratch_name t : valid_name (lit "x" ++ decimal (Z.of_nat t)).
Proof. apply (valid_name_first 120); [lia|lia|]. apply no_slash_decimal. lia. Qed.

Lemma scratch_apart t u : t <> u -> apart (scratch t) (scratch u).
Proof.
  intros Hne. apply (apart_heads []). intros E. apply app_inv_head in E. apply decimal_inj in E; lia.
Qed.

Lemma toy_owner t : owner_ok store (owner 7 scratch t).
Proof.
  split; [cbn; lia|]. intros s [= <-]. split_and!; [|apply Forall_singleton, scratch_name|done].
  intros d Hd. apply (apart_heads []). discriminate.
Qed.

Lemma root_dir w : store_inv store around vouched w -> real_dir (tree w) [].
Proof.
  intros Hi. destruct (si_layout _ _ _ _ Hi OBJECTS_DIR) as (m & cs & Hd); [set_solver|].
  destruct (tree w) as [m' c|m' cs'|tg mt]; [done|by exists m', cs'|done].
Qed.

(** The delivering worker keeps its contract: what it returns is its scratch
    path with the output in it. *)
Lemma deliver_obeys t b paths inputs rk w :
  store_inv store around vouched w ->
  obeys 7 store around vouched scratch t (deliver t b paths inputs rk) (ok_post (fun p w' =>
    p = scratch t /\ get (tree w') p = Some StoreExamples.staged_file)) w.
Proof.
  intros Hi. unfold deliver. apply wp_seq; [done|].
  apply (wp_symlink_metadata store around vouched (owner 7 scratch t)); [done|]. intros [md|e] w1 Hr1 Hi1 Hmd _; [|done].
  destruct (bool_decide (file_type md = TFile) && (md_mode md =? 0x1a4)%Z) eqn:Ef; [|done].
  apply andb_true_iff in Ef as [Et Em]. apply bool_decide_eq_true in Et. apply Z.eqb_eq in Em.
  destruct (Hmd md eq_refl) as (q & n & Hl & ->). assert (Hloc : forall w', store_inv store around vouched w' -> loc w' (scratch t)).
  { intros w' Hw'. split; [apply Forall_singleton, scratch_name|]. eexists [], _. split; [done|by apply root_dir]. }
  rewrite loc_lookup in Hl by (by apply Hloc). destruct (get (tree w) (scratch t)) as [n'|] eqn:En; [|done]. injection Hl as _ ->.
  destruct n as [m c|m cs|tg mt]; [|done|done]. cbn in Em. subst m.
  assert (Eg : forall w', rely store (owner 7 scratch t) w w' -> get (tree w') (scratch t) = Some (Reg 0x1a4 c)).
  { intros w' (_ & Hst & _). destruct (Hst _ eq_refl) as [-> _]. done. }
  apply wp_seq; [done|]. apply (wp_read store around vouched (owner 7 scratch t)); [done|]. intros [content|e] w2 Hr2 Hi2 Hc _; [|done].
  apply wp_ret. case_bool_decide as Ec; [|done]. subst content. cbn [ok_post]. split; [done|].
  destruct (Hc _ eq_refl) as (q' & m & Hl). rewrite loc_lookup_follow in Hl.
  - rewrite (Eg w1 Hr1) in Hl. injection Hl as _ _ ->. apply Eg. by eapply rely_trans.
  - by apply Hloc.
  - intros n. rewrite (Eg w1 Hr1). by intros [= <-].
Qed.

Lemma toy_workers : WorkerContract 7 store around vouched scratch graph workers.
Proof.
  constructor.
  - intros t b paths inputs rk w Hi Hb _ _ _. eapply wp_weaken; [|done|by apply deliver_obeys].
    intros [p|e] w' Hi' Hp; [|done]. destruct Hp as [-> Hg]. split.
    + split_and!; [done|by apply root_dir|]. intros n. rewrite Hg. intros [= <-].
      exists StoreExamples.staged_file. split; [by right; left|done].
    + intros n. rewrite Hg. intros [= <-]. split; [intros Hm; exfalso; apply Hm; reflexivity|].
      intros h Hh. destruct (hashes_values StoreExamples.staged_file h) as [[E _]|[_ ->]]; [by right; left|done|discriminate|].
      apply nodes_kinds in Hb. split; [by apply builds_vouched|by apply reuses_vouched].
  - intros t key s origin w _ Hk Ho. apply nodes_kinds in Hk as [_ E]. congruence.
  - done.
  - done.
Qed.

Lemma toy_drift w s w' s' : store_inv store around vouched w -> no_drift w s w' s' ->
  store_inv store around vouched w' /\ forall t, rely store (owner 7 scratch t) w w'.
Proof. intros Hi [-> _]. split; [done|]. intros t. by eapply rely_refl. Qed.

Lemma toy_setting :
  run_setting StoreExamples.timestamp 7 graph store [] [] workers no_drift around vouched scratch.
Proof.
  constructor.
  - exact StoreExamples.toy_root.
  - exact toy_identify.
  - intros t s [= <-]. vm_compute. intros Hin. repeat (apply elem_of_cons in Hin as [Hin|Hin]; [done|]). by apply elem_of_nil in Hin.
  - exact toy_owner.
  - exact scratch_apart.
  - by intros p ?%elem_of_nil.
  - by intros p ?%elem_of_nil.
  - exact toy_workers.
  - exact toy_drift.
Qed.

(** ** Witnesses *)

Lemma final_value : value_of final = Some (VGoals (Ok [(lib_key, StoreExamples.hello_hash)])).
Proof. vm_compute. reflexivity. Qed.

Lemma value_of_fiber (m : Machine (Sh := Shared) (C := CellName) (J := Job)) v :
  value_of m = Some v -> exists f, f ∈ m_fibers m /\ f_prog f = Some (FRet v, []) /\ Some (f_job f) = head (map f_job (m_fibers m)).
Proof.
  unfold value_of. destruct (m_fibers m) as [|f fs]; [done|]. intros Hv. exists f. split; [by left|].
  destruct (f_prog f) as [[[] []]|]; try done. by injection Hv as ->.
Qed.

(** The run above: the goal is built by fiber 1, published, and reported. *)
Lemma realization_sound_witness :
  value_of final = Some (VGoals (Ok [(lib_key, StoreExamples.hello_hash)])) /\
  published store (tree (m_world final)) StoreExamples.hello_hash /\ vouched BUILDS_DIR lib_key StoreExamples.hello_hash.
Proof.
  split; [exact final_value|].
  destruct (realization_sound (lit "x86_64") [GraphExamples.group] [] nodes [lit "lib"] StoreExamples.record_text StoreExamples.timestamp
    7 10 "panic" graph store (lit "run") [] [] workers no_drift around vouched scratch world idle final) as [_ Hgoals].
  - exact planned_ok.
  - exact toy_setting.
  - exact toy_mappings.
  - exact toy_world_inv.
  - apply schedule_runs.
  - destruct (value_of_fiber final _ final_value) as (f & Hf & Hp & Hj).
    destruct (Hgoals f [(lib_key, StoreExamples.hello_hash)] Hf) as [_ Hh]; [|exact Hp|].
    + assert (Hhead : head (map f_job (m_fibers final)) = Some JGoals) by (vm_compute; reflexivity). congruence.
    + apply (Hh lib_key). by left.
Defined.

(** The two plans of the request have different keys. *)
Lemma toy_keys_identify : build_keys_identify (lit "x86_64") [GraphExamples.group] [] nodes.
Proof.
  destruct (plan_graph_ok _ _ _ _ _ _ planned_ok) as (_ & _ & Hn).
  assert (Hknown : forall id n, Plans (lit "x86_64") [GraphExamples.group] [] nodes id n -> id = lit "src" \/ id = lit "lib").
  { intros id n Hp. apply plans_known in Hp as [v Hv]. unfold nodes in Hv.
    apply lookup_insert_Some in Hv as [[<- _]|[_ Hv]]; [by left|]. apply lookup_singleton_Some in Hv as [<- _]. by right. }
  intros id id' n n' Hp Hp' Ek. destruct (decide (id = id')) as [->|Hne].
  { by rewrite (plans_unique _ _ _ _ id' n n' Hp Hp'). }
  assert (Hin : forall key x, (key, x) ∈ planned_nodes_list ->
    exists i, Plans (lit "x86_64") [GraphExamples.group] [] nodes i x /\ node_build_key x = key).
  { intros key x Hx. rewrite <- nodes_listed in Hx. apply elem_of_map_to_list in Hx. destruct (Hn _ _ Hx) as (Ekx & i & _ & Hi).
    exists i. exact (conj Hi Ekx). }
  assert (Htwo : exists k1 n1 k2 n2, planned_nodes_list = [(k1, n1); (k2, n2)] /\ k1 <> k2).
  { unfold planned_nodes_list. eexists _, _, _, _. split; [reflexivity|]. vm_compute. congruence. }
  destruct Htwo as (k1 & n1 & k2 & n2 & El & Hk). rewrite El in Hin.
  destruct (Hin k1 n1) as (i1 & Hp1 & E1); [left|]. destruct (Hin k2 n2) as (i2 & Hp2 & E2); [right; left|].
  assert (Hi : i1 <> i2).
  { intros ->. rewrite (plans_unique _ _ _ _ _ _ _ Hp1 Hp2) in E1. congruence. }
  assert (Hsame : (id = i1 /\ id' = i2) \/ (id = i2 /\ id' = i1)).
  { destruct (Hknown _ _ Hp), (Hknown _ _ Hp'), (Hknown _ _ Hp1), (Hknown _ _ Hp2); subst; try done; by auto. }
  exfalso. destruct Hsame as [[-> ->]|[-> ->]].
  - rewrite (plans_unique _ _ _ _ _ _ _ Hp Hp1), (plans_unique _ _ _ _ _ _ _ Hp' Hp2) in Ek. congruence.
  - rewrite (plans_unique _ _ _ _ _ _ _ Hp Hp2), (plans_unique _ _ _ _ _ _ _ Hp' Hp1) in Ek. congruence.
Qed.

(** Every run of the example ends. *)
Lemma realization_ends_witness : inevitable cells jobs 7 no_drift root_finished (launch jobs JGoals world idle).
Proof.
  pose proof (realization_ends (lit "x86_64") [GraphExamples.group] [] nodes [lit "lib"] StoreExamples.record_text
    StoreExamples.timestamp 7 10 "panic" graph store (lit "run") [] [] workers no_drift world idle) as Hends.
  exact (Hends planned_ok toy_keys_identify).
Defined.
End RealizerExamples.
