(* ===== verification/Elf.v ===== *)
(** * Executable formats of a bundle

    [bobr-bundle-launcher/src/elf.rs] and [script.rs]: the strict inspection of
    ELF64 headers and of shebang lines that the launcher of a bundle makes
    before it runs a file.  An open file is its content with the reads that the
    environment may fail. *)

From S2P Require Import Prelude Errors Text Posix.

(** ** Architectures *)

(** [PlatformArch]. *)
Inductive PlatformArch := X86_64 | Aarch64.

#[export] Instance PlatformArch_eq_dec : EqDecision PlatformArch.
Proof. solve_decision. Defined.

Definition arch_as_str (arch : PlatformArch) : string :=
  match arch with X86_64 => "x86_64" | Aarch64 => "aarch64" end.
Definition elf_machine (arch : PlatformArch) : Z :=
  match arch with X86_64 => 62 | Aarch64 => 183 end.

(** ** ELF *)

Definition ELF_HEADER_SIZE : Z := 64.
Definition ELF64_PROGRAM_HEADER_SIZE : Z := 56.
Definition ELFCLASS64 : Z := 2.
Definition ELFDATA2LSB : Z := 1.
Definition EV_CURRENT : Z := 1.
Definition ET_EXEC : Z := 2.
Definition ET_DYN : Z := 3.
Definition PT_INTERP : Z := 3.
Definition MAX_INTERPRETER_SIZE : Z := 4096.

Inductive ElfLinkage :=
| StaticElf
| DynamicElf (interpreter : bytes).

Record ElfExecutable := mkElfExecutable { linkage : ElfLinkage; position_independent : bool }.

(** A file that does not open or read is an error with the path and the cause. *)
Inductive ElfError :=
| ElfRead (p : path) (source : IoError)
| TruncatedHeader
| InvalidMagic
| UnsupportedClass (class : Z)
| UnsupportedEndian (data : Z)
| UnsupportedVersion (version : Z)
| UnsupportedMachine (actual : Z) (expected : PlatformArch)
| UnsupportedType (kind : Z)
| InvalidHeaderSize (size : Z)
| InvalidProgramHeaderSize (size : Z)
| InvalidProgramHeaderTable
| DuplicateInterpreter
| InvalidInterpreter
| RelativeInterpreter (p : bytes).

Definition show_z (n : Z) : string := show (to_decimal n).

Definition elf_error_text (e : ElfError) : string :=
  match e with
  | ElfRead p source => "failed to read ELF '" +:+ display_path p +:+ "': " +:+ io_text source
  | TruncatedHeader => "truncated ELF header"
  | InvalidMagic => "executable is not ELF"
  | UnsupportedClass class => "unsupported ELF class " +:+ show_z class +:+ " (expected ELF64)"
  | UnsupportedEndian data => "unsupported ELF data encoding " +:+ show_z data +:+ " (expected little-endian)"
  | UnsupportedVersion version => "unsupported ELF version " +:+ show_z version
  | UnsupportedMachine actual expected =>
      "unsupported ELF machine " +:+ show_z actual +:+ " (expected " +:+ arch_as_str expected
      +:+ ", e_machine " +:+ show_z (elf_machine expected) +:+ ")"
  | UnsupportedType kind => "unsupported ELF type " +:+ show_z kind
  | InvalidHeaderSize size => "invalid ELF header size " +:+ show_z size
  | InvalidProgramHeaderSize size => "invalid ELF program-header size " +:+ show_z size
  | InvalidProgramHeaderTable => "ELF program-header table lies outside the file"
  | DuplicateInterpreter => "ELF contains more than one PT_INTERP"
  | InvalidInterpreter => "ELF contains invalid PT_INTERP"
  | RelativeInterpreter p => "ELF interpreter '" +:+ show p +:+ "' is not absolute"
  end.

(** An open file: its content, and which of the calls on it fail. *)
Record OpenFile := mkOpenFile {
  contents : bytes;
  metadata_fault : option IoError;
  read_fault : Z -> option IoError;
}.

Definition unexpected_eof : IoError := mkIoError OtherKind "failed to fill whole buffer".

Definition file_len (f : OpenFile) : result IoError Z :=
  match metadata_fault f with Some e => Err e | None => Ok (len (contents f)) end.

(** [FileExt::read_exact_at] of a buffer of [size] bytes. *)
Definition read_exact_at (f : OpenFile) (size offset : Z) : result IoError bytes :=
  match read_fault f offset with
  | Some e => Err e
  | None =>
      if (offset + size <=? len (contents f))%Z
      then Ok (slice (contents f) (Z.to_nat offset) (Z.to_nat (offset + size)))
      else Err unexpected_eof
  end.

(** [uN::from_le_bytes(bytes[offset..offset + n])]. *)
Definition read_le (n : nat) (b : bytes) (offset : nat) : Z := from_be_bytes (rev (slice b offset (offset + n))).
Definition read_u16 : bytes -> nat -> Z := read_le 2.
Definition read_u32 : bytes -> nat -> Z := read_le 4.
Definition read_u64 : bytes -> nat -> Z := read_le 8.
Definition byte_at (b : bytes) (i : nat) : Z := default 0%Z (b !! i).

(** The body of the loop over the program headers. *)
Definition inspect_segment (p : path) (f : OpenFile) (file_size : Z) (interpreter : option bytes)
  (program_header : bytes) : result ElfError (option bytes) :=
  if negb (read_u32 program_header 0 =? PT_INTERP)%Z then Ok interpreter
  else if bool_decide (is_Some interpreter) then Err DuplicateInterpreter
  else
    let offset := read_u64 program_header 8 in
    let size := read_u64 program_header 32 in
    if negb ((2 <=? size)%Z && (size <=? MAX_INTERPRETER_SIZE)%Z) then Err InvalidInterpreter
    else
      end_ <- ok_or (checked_add offset size) InvalidInterpreter ;;
      if (file_size <? end_)%Z then Err InvalidInterpreter
      else
        b <- map_err (ElfRead p) (read_exact_at f size offset) ;;
        if negb (bool_decide (last b = Some 0%Z)) || bool_decide (0%Z ∈ removelast b) then Err InvalidInterpreter
        else if is_absolute (removelast b) then Ok (Some (removelast b))
        else Err (RelativeInterpreter (removelast b)).

(** The checks of the identification and of the header; the result is the
    type, the offset of the program headers and their number. *)
Definition check_header (header : bytes) (expected_arch : PlatformArch) : result ElfError (Z * Z * Z) :=
  if negb (bytes_eqb (take 4 header) (127 :: lit "ELF")%Z) then Err InvalidMagic
  else if negb (byte_at header 4 =? ELFCLASS64)%Z then Err (UnsupportedClass (byte_at header 4))
  else if negb (byte_at header 5 =? ELFDATA2LSB)%Z then Err (UnsupportedEndian (byte_at header 5))
  else if negb (byte_at header 6 =? EV_CURRENT)%Z then Err (UnsupportedVersion (byte_at header 6))
  else
    let elf_type := read_u16 header 16 in
    let machine := read_u16 header 18 in
    let version := read_u32 header 20 in
    let header_size := read_u16 header 52 in
    let program_header_size := read_u16 header 54 in
    if negb (elf_type =? ET_EXEC)%Z && negb (elf_type =? ET_DYN)%Z then Err (UnsupportedType elf_type)
    else if negb (machine =? elf_machine expected_arch)%Z then Err (UnsupportedMachine machine expected_arch)
    else if negb (version =? EV_CURRENT)%Z then Err (UnsupportedVersion version)
    else if negb (header_size =? ELF_HEADER_SIZE)%Z then Err (InvalidHeaderSize header_size)
    else if negb (program_header_size =? ELF64_PROGRAM_HEADER_SIZE)%Z
         then Err (InvalidProgramHeaderSize program_header_size)
    else Ok (elf_type, read_u64 header 32, read_u16 header 56).

Definition inspect_elf_for_arch (p : path) (opened : result IoError OpenFile) (expected_arch : PlatformArch)
  : result ElfError ElfExecutable :=
  f <- map_err (ElfRead p) opened ;;
  file_size <- map_err (ElfRead p) (file_len f) ;;
  if (file_size <? ELF_HEADER_SIZE)%Z then Err TruncatedHeader
  else
    header <- map_err (ElfRead p) (read_exact_at f ELF_HEADER_SIZE 0) ;;
    let* (elf_type, program_header_offset, program_header_count) := check_header header expected_arch in
    table_size <- ok_or (checked_mul program_header_count ELF64_PROGRAM_HEADER_SIZE) InvalidProgramHeaderTable ;;
    table_end <- ok_or (checked_add program_header_offset table_size) InvalidProgramHeaderTable ;;
    if (file_size <? table_end)%Z then Err InvalidProgramHeaderTable
    else
      table <- map_err (ElfRead p) (read_exact_at f table_size program_header_offset) ;;
      interpreter <- try_fold (inspect_segment p f file_size) None
                       (chunks_exact (Z.to_nat ELF64_PROGRAM_HEADER_SIZE) table) ;;
      Ok (mkElfExecutable
            (match interpreter with Some i => DynamicElf i | None => StaticElf end)
            (elf_type =? ET_DYN)%Z).

(** ** Shebang lines *)

Definition SHEBANG_BUFFER_SIZE : nat := 256.

(** [validate_absolute_payload_path] of [dynamic.rs]: the path below the root,
    when the path is absolute and has only plain components. *)
Definition plain_part (part : bytes) : bool :=
  negb (bytes_eqb part [] || bytes_eqb part [46]%Z || bytes_eqb part [46; 46]%Z).
Definition validate_absolute_payload_path (p : bytes) : option bytes :=
  match strip_prefix [47]%Z p with
  | Some relative =>
      if bytes_eqb relative [] || negb (forallb plain_part (split_on 47 relative)) then None else Some relative
  | None => None
  end.

Record Shebang := mkShebang { sb_interpreter : bytes; sb_argument : option bytes }.

Inductive ExecutableFormat :=
| ElfFormat (e : ElfExecutable)
| ScriptFormat (s : Shebang).

Inductive ExecutableInspectionError :=
| InspectRead (p : path) (source : IoError)
| InspectElf (e : ElfError)
| UnknownFormat
| TruncatedShebang
| MissingInterpreter
| InvalidShebangInterpreter (p : bytes)
| ShebangContainsNul.

Definition inspection_error_text (e : ExecutableInspectionError) : string :=
  match e with
  | InspectRead p source => "failed to inspect executable '" +:+ display_path p +:+ "': " +:+ io_text source
  | InspectElf e => "invalid ELF executable: " +:+ elf_error_text e
  | UnknownFormat => "unknown executable format (expected ELF or shebang)"
  | TruncatedShebang => "shebang line does not terminate within 256 bytes"
  | MissingInterpreter => "shebang has no interpreter"
  | InvalidShebangInterpreter p =>
      "shebang interpreter '" +:+ show p +:+ "' is not an absolute safe payload path"
  | ShebangContainsNul => "shebang contains a NUL byte"
  end.

Definition is_space_tab (b : Z) : bool := (b =? 32)%Z || (b =? 9)%Z.

(** [bytes.iter().position(test).unwrap_or(bytes.len())]: what is before the
    first byte that passes the test, and the rest. *)
Fixpoint break (test : Z -> bool) (l : bytes) : bytes * bytes :=
  match l with
  | [] => ([], [])
  | b :: l' => if test b then ([], l) else let '(a, r) := break test l' in (b :: a, r)
  end.

Fixpoint trim_start (test : Z -> bool) (l : bytes) : bytes :=
  match l with b :: l' => if test b then trim_start test l' else l | [] => [] end.
Definition trim_ascii_space_tab (l : bytes) : bytes :=
  rev (trim_start is_space_tab (rev (trim_start is_space_tab l))).

Definition parse_shebang (prefix : bytes) : result ExecutableInspectionError Shebang :=
  let '(before, after) := break (fun b => b =? 10)%Z prefix in
  let raw_line := drop 2 before in
  if bool_decide (0%Z ∈ raw_line) then Err ShebangContainsNul
  else if bool_decide (after = []) && (length prefix =? SHEBANG_BUFFER_SIZE)%nat then Err TruncatedShebang
  else
    let line := trim_ascii_space_tab raw_line in
    if bool_decide (line = []) then Err MissingInterpreter
    else
      let '(interpreter, rest) := break is_space_tab line in
      match validate_absolute_payload_path interpreter with
      | None => Err (InvalidShebangInterpreter interpreter)
      | Some _ =>
          let argument := trim_ascii_space_tab rest in
          Ok (mkShebang interpreter (if bool_decide (argument = []) then None else Some argument))
      end.

(** ** What an inspection accepts *)

(** The program headers of a file: their words for type, offset and size. *)
Definition segment_at (b : bytes) (table : Z) (i : nat) : Z * Z * Z :=
  let h := slice b (Z.to_nat table + 56 * i) (Z.to_nat table + 56 * i + 56) in
  (read_u32 h 0, read_u64 h 8, read_u64 h 32).
Definition segments (b : bytes) : list (Z * Z * Z) :=
  map (segment_at b (read_u64 b 32)) (seq 0 (Z.to_nat (read_u16 b 56))).
Definition interpreters (b : bytes) : list (Z * Z) :=
  omap (fun '(kind, offset, size) => if (kind =? PT_INTERP)%Z then Some (offset, size) else None) (segments b).

(** The identification and the header of an ELF64 executable of an
    architecture, with its table of program headers inside the file. *)
Record elf_header (arch : PlatformArch) (b : bytes) : Prop := {
  eh_size : (64 <= len b)%Z;
  eh_ident : take 7 b = [127; 69; 76; 70; 2; 1; 1]%Z;
  eh_type : read_u16 b 16 = ET_EXEC \/ read_u16 b 16 = ET_DYN;
  eh_machine : read_u16 b 18 = elf_machine arch;
  eh_version : read_u32 b 20 = 1%Z;
  eh_header_size : read_u16 b 52 = 64%Z;
  eh_entry_size : read_u16 b 54 = 56%Z;
  eh_table : (read_u64 b 32 + 56 * read_u16 b 56 <= len b)%Z;
}.

(** The text of an interpreter segment: inside the file, at most a page, one
    terminating zero, and absolute. *)
Definition interpreter_text (b : bytes) (offset size : Z) (text : bytes) : Prop :=
  (2 <= size <= MAX_INTERPRETER_SIZE)%Z /\ (offset + size <= len b)%Z /\
  slice b (Z.to_nat offset) (Z.to_nat (offset + size)) = text ++ [0]%Z /\
  0%Z ∉ text /\ is_absolute text = true.

Definition elf_linkage (b : bytes) (l : ElfLinkage) : Prop :=
  match l with
  | StaticElf => interpreters b = []
  | DynamicElf text => exists offset size, interpreters b = [(offset, size)] /\ interpreter_text b offset size text
  end.

(** The open file of a content that no call on it fails. *)
Definition stable (b : bytes) : OpenFile := mkOpenFile b None (fun _ => None).

(** ** Facts on slices and program headers *)

Lemma slice_slice b s e i j : (s + j <= e)%nat -> slice (slice b s e) i j = slice b (s + i) (s + j).
Proof.
  intros H. unfold slice. rewrite skipn_firstn_comm, firstn_firstn, drop_drop.
  f_equal. lia.
Qed.

Lemma read_le_slice n b s e i : (s + i + n <= e)%nat -> read_le n (slice b s e) i = read_le n b (s + i).
Proof. intros H. unfold read_le. rewrite slice_slice by lia. do 2 f_equal. f_equal; lia. Qed.

Lemma wf_slice b s e : wf_bytes b -> wf_bytes (slice b s e).
Proof. intros H. apply Forall_take, Forall_drop. exact H. Qed.

Lemma read_le_bound n b i : wf_bytes b -> (0 <= read_le n b i < 256 ^ Z.of_nat n)%Z.
Proof.
  intros H. unfold read_le.
  assert (Hw : wf_bytes (rev (slice b i (i + n)))).
  { apply Forall_rev. by apply wf_slice. }
  pose proof (from_be_bytes_bound _ Hw) as Hb. unfold len in Hb. rewrite length_rev in Hb.
  assert (Hl : (length (slice b i (i + n)) <= n)%nat).
  { unfold slice. rewrite length_take. lia. }
  assert (256 ^ Z.of_nat (length (slice b i (i + n))) <= 256 ^ Z.of_nat n)%Z.
  { apply Z.pow_le_mono_r; lia. }
  lia.
Qed.

Lemma chunks_slices n b k : (0 < n)%nat -> length b = (n * k)%nat ->
  chunks_exact n b = map (fun i => slice b (n * i) (n * i + n)) (seq 0 k).
Proof.
  intros Hn. revert b. induction k as [|k IH]; intros b Hb.
  { destruct b; [done|]. cbn in Hb. lia. }
  assert (Hfuel : forall fuel (l : bytes) j, length l = (n * j)%nat -> (j <= fuel)%nat ->
    chunks_fuel fuel n l = chunks_fuel j n l).
  { intros fuel. induction fuel as [|fuel IHf]; intros l j Hl Hj; [by assert (j = 0)%nat as -> by lia|].
    destruct j as [|j]; cbn [chunks_fuel].
    - destruct (Nat.ltb_spec (length l) n); [done|lia].
    - destruct (Nat.ltb_spec (length l) n); [lia|]. f_equal. rewrite (IHf _ j); [done| |lia].
      rewrite length_drop. lia. }
  unfold chunks_exact in *. rewrite (Hfuel _ _ (S k)) by nia. cbn [chunks_fuel seq map].
  destruct (Nat.ltb_spec (length b) n); [lia|]. f_equal.
  { rewrite Nat.mul_0_r. unfold slice. rewrite drop_0. f_equal. lia. }
  rewrite <- (Hfuel (length (drop n b))) by (rewrite length_drop; nia).
  rewrite IH by (rewrite length_drop; lia). rewrite <- seq_shift, map_map.
  apply map_ext. intros i. unfold slice. rewrite drop_drop. f_equal; [lia|]. f_equal. lia.
Qed.

Lemma header_slice b i : (i <= 64)%nat -> (64 <= len b)%Z -> take i (slice b 0 64) = take i b.
Proof. intros Hi Hb. unfold slice. rewrite drop_0, firstn_firstn. f_equal. lia. Qed.

Lemma byte_at_slice b i : (i < 64)%nat -> byte_at (slice b 0 64) i = byte_at b i.
Proof. intros Hi. unfold byte_at, slice. rewrite drop_0, lookup_take_lt by lia. done. Qed.

Lemma ident_bytes b : (64 <= len b)%Z ->
  take 7 b = take 4 b ++ [byte_at b 4; byte_at b 5; byte_at b 6].
Proof.
  intros Hb. do 7 (destruct b as [|? b]; [done|]). done.
Qed.

(** What [check_header] accepts, in terms of the whole file. *)
Lemma check_header_ok arch b x : (64 <= len b)%Z ->
  check_header (slice b 0 64) arch = Ok x <->
  x = (read_u16 b 16, read_u64 b 32, read_u16 b 56) /\
  take 7 b = [127; 69; 76; 70; 2; 1; 1]%Z /\ (read_u16 b 16 = ET_EXEC \/ read_u16 b 16 = ET_DYN) /\
  read_u16 b 18 = elf_machine arch /\ read_u32 b 20 = 1%Z /\ read_u16 b 52 = 64%Z /\ read_u16 b 54 = 56%Z.
Proof.
  intros Hb. unfold check_header, read_u16, read_u32, read_u64.
  rewrite header_slice, !byte_at_slice, !read_le_slice by lia. cbn [Nat.add].
  rewrite ident_bytes by done. set (t := take 4 b).
  assert (Ht : length t = 4%nat) by (unfold t, len in *; rewrite length_take; lia).
  split.
  - intros H. inv_res. bools. subst.
    repeat match goal with H : _ = _ :> bytes |- _ => rewrite H end.
    repeat match goal with H : _ = _ :> Z |- _ => rewrite H end.
    repeat split; try done.
    match goal with H : _ && _ = false |- _ => apply andb_false_iff in H as [H|H]; bools; auto end.
  - intros (-> & Hi & Hty & Hm & Hv & Hh & He).
    do 5 (destruct t as [|? t]; try discriminate Ht). cbn in Hi. injection Hi as -> -> -> -> H4 H5 H6.
    rewrite H4, H5, H6, Hm, Hv, Hh, He. cbn -[read_le elf_machine]. rewrite Z.eqb_refl. cbn -[read_le].
    by destruct Hty as [-> | ->].
Qed.

(** *** The interpreter segment *)

Definition segment_of (h : bytes) : Z * Z * Z := (read_u32 h 0, read_u64 h 8, read_u64 h 32).
Definition interp_of (s : Z * Z * Z) : option (Z * Z) :=
  let '(kind, offset, size) := s in if (kind =? PT_INTERP)%Z then Some (offset, size) else None.

Lemma interpreter_text_last b offset size text :
  interpreter_text b offset size text ->
  let read := slice b (Z.to_nat offset) (Z.to_nat (offset + size)) in
  last read = Some 0%Z /\ removelast read = text.
Proof. intros (_ & _ & E & _). cbn zeta. rewrite E. split; [apply last_snoc|apply removelast_last]. Qed.

Lemma inspect_segment_none p b h : wf_bytes h -> (len b <= U64_MAX)%Z ->
  match inspect_segment p (stable b) (len b) None h with
  | Ok None => interp_of (segment_of h) = None
  | Ok (Some text) =>
      exists offset size, interp_of (segment_of h) = Some (offset, size) /\ interpreter_text b offset size text
  | Err e =>
      (forall q s, e <> ElfRead q s) /\
      exists offset size, interp_of (segment_of h) = Some (offset, size) /\
        forall text, ~ interpreter_text b offset size text
  end.
Proof.
  intros Hh Hb. unfold inspect_segment, interp_of, segment_of.
  pose proof (read_le_bound 8 h 8 Hh) as Ho. pose proof (read_le_bound 8 h 32 Hh) as Hs.
  destruct (read_u32 h 0 =? PT_INTERP)%Z; [|done]. cbn [negb].
  rewrite bool_decide_eq_false_2 by (by intros [? ?]).
  fold (read_u64 h 8) in Ho. fold (read_u64 h 32) in Hs.
  set (o := read_u64 h 8) in *. set (s := read_u64 h 32) in *.
  destruct ((2 <=? s)%Z && (s <=? MAX_INTERPRETER_SIZE)%Z) eqn:Es; cbn [negb].
  2: { split; [done|]. exists o, s. split; [done|]. intros t (Hr & _). apply andb_false_iff in Es as [Es|Es]; bools; lia. }
  bools. unfold checked_add.
  destruct (o + s <=? U64_MAX)%Z eqn:Ea; cbn [ok_or].
  2: { split; [done|]. exists o, s. split; [done|]. intros t (_ & Hr & _). bools. lia. }
  destruct (len b <? o + s)%Z eqn:El.
  { split; [done|]. exists o, s. split; [done|]. intros t (_ & Hr & _). bools. lia. }
  bools. unfold read_exact_at. cbn [read_fault stable contents].
  rewrite (proj2 (Z.leb_le _ _)) by lia. cbn [map_err].
  set (r := slice b (Z.to_nat o) (Z.to_nat (o + s))).
  destruct (decide (last r = Some 0%Z)) as [Hl|Hl].
  2: { rewrite bool_decide_eq_false_2 by done. split; [done|]. exists o, s. split; [done|].
       intros t Ht. by apply interpreter_text_last in Ht as [? _]. }
  rewrite bool_decide_eq_true_2 by done. cbn [negb orb].
  assert (Hr : r = removelast r ++ [0]%Z).
  { destruct (exists_last (l := r)) as (k & x & ->); [by intros E; rewrite E in Hl|].
    rewrite last_snoc in Hl. rewrite removelast_last. congruence. }
  destruct (decide (0%Z ∈ removelast r)) as [Hz|Hz].
  { rewrite bool_decide_eq_true_2 by done. split; [done|]. exists o, s. split; [done|].
    intros t Ht. pose proof (interpreter_text_last _ _ _ _ Ht) as [_ E]. fold r in E. rewrite E in Hz. by apply Ht. }
  rewrite bool_decide_eq_false_2 by done. destruct (is_absolute (removelast r)) eqn:Eabs.
  - exists o, s. split; [done|]. repeat split; try done; lia.
  - split; [done|]. exists o, s. split; [done|].
    intros t Ht. pose proof (interpreter_text_last _ _ _ _ Ht) as [_ E]. fold r in E. rewrite E in Eabs.
    destruct Ht as (_ & _ & _ & _ & Ha). congruence.
Qed.

Lemma inspect_segments_some p b text hs :
  match try_fold (inspect_segment p (stable b) (len b)) (Some text) hs with
  | Ok r => r = Some text /\ omap interp_of (map segment_of hs) = []
  | Err e => e = DuplicateInterpreter /\ omap interp_of (map segment_of hs) <> []
  end.
Proof.
  induction hs as [|h hs IH]; [done|]. cbn [try_fold map omap list_omap].
  unfold inspect_segment at 1. cbn [interp_of segment_of].
  destruct (read_u32 h 0 =? PT_INTERP)%Z eqn:E; cbn [negb].
  - by rewrite bool_decide_eq_true_2 by eauto.
  - apply IH.
Qed.

Lemma inspect_segments p b hs : Forall wf_bytes hs -> (len b <= U64_MAX)%Z ->
  let found := omap interp_of (map segment_of hs) in
  match try_fold (inspect_segment p (stable b) (len b)) None hs with
  | Ok None => found = []
  | Ok (Some text) => exists offset size, found = [(offset, size)] /\ interpreter_text b offset size text
  | Err e =>
      (forall q s, e <> ElfRead q s) /\ found <> [] /\
      forall offset size text, found = [(offset, size)] -> ~ interpreter_text b offset size text
  end.
Proof.
  intros Hhs Hb. induction Hhs as [|h hs Hh Hhs IH]; [done|]. cbn [try_fold map omap list_omap].
  pose proof (inspect_segment_none p b h Hh Hb) as Hseg.
  destruct (inspect_segment _ _ _ _ _) as [[text|]|e].
  - destruct Hseg as (o & s & -> & Ht). pose proof (inspect_segments_some p b text hs) as Hr.
    destruct (try_fold _ (Some text) hs) as [r|e].
    + destruct Hr as [-> ->]. eauto.
    + destruct Hr as [-> Hr]. split; [done|]. split; [done|]. intros ? ? ? [= -> -> Hrest] _. by apply Hr.
  - rewrite Hseg. apply IH.
  - destruct Hseg as (He & o & s & -> & Hno). split; [done|]. split; [done|]. intros ? ? t [= -> -> _]. apply Hno.
Qed.

Lemma eqb_decide (x y : Z) : (x =? y)%Z = bool_decide (x = y).
Proof. by destruct (Z.eqb_spec x y); [rewrite bool_decide_eq_true_2|rewrite bool_decide_eq_false_2]. Qed.

(** The verdict of [inspect_elf_for_arch] on a file that reads. *)
Lemma inspect_elf_spec p arch b : wf_bytes b -> (len b <= U64_MAX)%Z ->
  match inspect_elf_for_arch p (Ok (stable b)) arch with
  | Ok e =>
      elf_header arch b /\ elf_linkage b (linkage e) /\
      position_independent e = bool_decide (read_u16 b 16 = ET_DYN)
  | Err e => (forall q s, e <> ElfRead q s) /\ ~ (elf_header arch b /\ exists l, elf_linkage b l)
  end.
Proof.
  intros Hwf Hb. unfold inspect_elf_for_arch. cbn [map_err].
  change (file_len (stable b)) with (Ok (E := IoError) (len b)). cbn [map_err].
  destruct (len b <? ELF_HEADER_SIZE)%Z eqn:Esize; bools; unfold ELF_HEADER_SIZE in Esize.
  { split; [done|]. intros [[] _]. lia. }
  unfold read_exact_at at 1. cbn [read_fault stable contents]. unfold ELF_HEADER_SIZE.
  rewrite (proj2 (Z.leb_le _ _)) by lia. cbn [map_err]. change (Z.to_nat 0) with 0%nat. change (Z.to_nat (0 + 64)) with 64%nat.
  pose proof (check_header_ok arch b (read_u16 b 16, read_u64 b 32, read_u16 b 56) ltac:(done)) as Hch.
  destruct (check_header (slice b 0 64) arch) as [[[ty po] pc]|e] eqn:Ech.
  2: { split.
       - intros q s ->. unfold check_header in Ech. repeat case_match; done.
       - intros [[] _]. enough (Err e = Ok (read_u16 b 16, read_u64 b 32, read_u16 b 56)) by done.
         apply Hch. by repeat split. }
  apply check_header_ok in Ech as ([= -> -> ->] & Hid & Hty & Hm & Hv & Hhs & Hes); [|done].
  pose proof (read_le_bound 8 b 32 Hwf) as Ho. pose proof (read_le_bound 2 b 56 Hwf) as Hn.
  fold (read_u64 b 32) in Ho. fold (read_u16 b 56) in Hn.
  unfold checked_mul, ELF64_PROGRAM_HEADER_SIZE. rewrite (proj2 (Z.leb_le _ _)) by (unfold U64_MAX; lia). cbn [ok_or].
  unfold checked_add. destruct (read_u64 b 32 + read_u16 b 56 * 56 <=? U64_MAX)%Z eqn:Ea; cbn [ok_or].
  2: { split; [done|]. intros [[] _]. bools. lia. }
  destruct (len b <? read_u64 b 32 + read_u16 b 56 * 56)%Z eqn:El.
  { split; [done|]. intros [[] _]. bools. lia. }
  bools. unfold read_exact_at. cbn [read_fault stable contents].
  rewrite (proj2 (Z.leb_le _ _)) by lia. cbn [map_err].
  set (table := slice b _ _). remember (Z.to_nat (read_u16 b 56)) as n eqn:Hnat.
  assert (Htl : length table = (56 * n)%nat).
  { unfold table. rewrite length_slice; unfold len in *; lia. }
  change (Z.to_nat 56) with 56%nat. rewrite (chunks_slices 56 table n) by lia.
  set (hs := map _ (seq 0 n)).
  assert (Hfound : omap interp_of (map segment_of hs) = interpreters b).
  { unfold interpreters, segments, hs. rewrite <- Hnat. f_equal. rewrite map_map. apply map_ext_in. intros i Hi.
    apply in_seq in Hi. unfold segment_of, segment_at, table.
    rewrite slice_slice by lia. by rewrite Nat.add_assoc. }
  assert (Hwhs : Forall wf_bytes hs).
  { apply Forall_forall. intros h (i & -> & _)%list_elem_of_fmap. by apply wf_slice, wf_slice. }
  pose proof (inspect_segments p b hs Hwhs Hb) as Hr. cbn zeta in Hr. rewrite Hfound in Hr.
  assert (Hhead : elf_header arch b) by (constructor; first [done|lia]).
  destruct (try_fold _ None hs) as [[text|]|e].
  - split; [done|]. split; [exact Hr|]. apply eqb_decide.
  - split; [done|]. split; [exact Hr|]. apply eqb_decide.
  - destruct Hr as (He & Hne & Hno). split; [done|]. intros [_ [[|text] Hl]]; [done|].
    destruct Hl as (o & s & El' & Ht). by eapply Hno.
Qed.

(** C38. ELF inspection is exact and stays inside the file: on any file that
    reads, it accepts precisely the ELF64 little-endian executables of the
    architecture whose program headers lie in the file and have no interpreter
    segment, or one that names an absolute path, reports that linkage, and
    never asks for bytes beyond the end. *)
Theorem elf_inspection_exact p arch b : wf_bytes b -> (len b <= U64_MAX)%Z ->
  match inspect_elf_for_arch p (Ok (stable b)) arch with
  | Ok e =>
      elf_header arch b /\ elf_linkage b (linkage e) /\
      position_independent e = bool_decide (read_u16 b 16 = ET_DYN)
  | Err e => (forall q s, e <> ElfRead q s) /\ ~ (elf_header arch b /\ exists l, elf_linkage b l)
  end.
Proof. apply inspect_elf_spec. Qed.

(** A parsed shebang names an interpreter that [validate_absolute_payload_path]
    accepts. *)
Lemma parse_shebang_interpreter prefix s : parse_shebang prefix = Ok s ->
  is_Some (validate_absolute_payload_path (sb_interpreter s)).
Proof.
  unfold parse_shebang. intros H. repeat case_match; simplify_eq; cbn [sb_interpreter]; eauto.
Qed.

Module ElfExamples.
Definition le (n : nat) (v : Z) : bytes := rev (be_bytes n v).

(** A position-independent executable of two segments, the second of them the
    interpreter. *)
Definition sample : bytes :=
  [127; 69; 76; 70; 2; 1; 1]%Z ++ repeat 0%Z 9 ++ le 2 3 ++ le 2 62 ++ le 4 1 ++ repeat 0%Z 8 ++ le 8 64
  ++ repeat 0%Z 12 ++ le 2 64 ++ le 2 56 ++ le 2 2 ++ repeat 0%Z 6
  ++ le 4 1 ++ repeat 0%Z 52
  ++ le 4 3 ++ repeat 0%Z 4 ++ le 8 176 ++ repeat 0%Z 16 ++ le 8 11 ++ repeat 0%Z 16
  ++ lit "/lib/ld.so" ++ [0]%Z.

Example sample_inspected :
  inspect_elf_for_arch [] (Ok (stable sample)) X86_64 = Ok (mkElfExecutable (DynamicElf (lit "/lib/ld.so")) true).
Proof. by vm_compute. Qed.

Example truncated_table : inspect_elf_for_arch [] (Ok (stable (take 100 sample))) X86_64 = Err InvalidProgramHeaderTable.
Proof. by vm_compute. Qed.

Example shebang_parsed :
  parse_shebang (lit "#! /usr/bin/env  python3 -u " ++ [10]%Z ++ lit "print()") =
  Ok (mkShebang (lit "/usr/bin/env") (Some (lit "python3 -u"))).
Proof. by vm_compute. Qed.

Lemma elf_inspection_exact_witness : elf_header X86_64 sample /\ elf_linkage sample (DynamicElf (lit "/lib/ld.so")).
Proof.
  assert (Hw : wf_bytes sample) by (apply wf_bytesb_spec; by vm_compute).
  pose proof (elf_inspection_exact [] X86_64 sample Hw ltac:(by vm_compute)) as H.
  rewrite sample_inspected in H. destruct H as (H1 & H2 & _). exact (conj H1 H2).
Defined.
End ElfExamples.
