(* ===== verification/BundleConfig.v ===== *)
(** * Configuration and invocation of a bundle's launcher

    [bobr-bundle-launcher]: the typed configuration with its validation
    ([config.rs]), kernel versions and the host check ([platform.rs]), the
    command line ([invocation.rs]) and where the bundle is ([location.rs]).  The
    TOML reader, the kernel's release string and the architecture of the
    launcher are given from outside. *)

From S2P Require Import Prelude Errors Text Posix Elf.

(** The entries of a [BTreeMap<String, _>] in its order. *)
Definition btree_entries {A : Type} (m : gmap bytes A) : list (bytes * A) := sort_by fst (map_to_list m).

(** ** Data of [bundle.toml] *)

Inductive HostPolicy := Strict | Integrated.
Inductive PlatformOs := Linux.
Inductive LoaderKind := Glibc.
Inductive ToolVisibility := Public | Internal.
Inductive EnvironmentOperation := Replace | Prepend | Append | Unset | Default.

#[export] Instance EnvironmentOperation_eq_dec : EqDecision EnvironmentOperation.
Proof. solve_decision. Defined.

Record PlatformConfig := mkPlatformConfig { pc_os : PlatformOs; pc_arch : PlatformArch; min_kernel : bytes }.
Record LoaderConfig := mkLoaderConfig { lc_kind : LoaderKind; library_dirs : list bytes; inhibit_cache : bool }.

Record EnvironmentRule := mkEnvironmentRule {
  operation : EnvironmentOperation;
  er_paths : list bytes;
  er_values : list bytes;
  inherit : bool;
  host_default : list bytes;
}.

Inductive ToolArgument :=
| LiteralArgument (value : bytes)
| PathArgument (path : bytes).

Record ToolConfig := mkToolConfig {
  tc_path : bytes;
  tc_argv0 : bytes;
  visibility : ToolVisibility;
  tc_argument_prefix : list ToolArgument;
  tc_environment : gmap bytes EnvironmentRule;
}.

Record BundleConfig := mkBundleConfig {
  bc_format : bytes;
  bc_payload_root : bytes;
  policy : HostPolicy;
  bc_platform : PlatformConfig;
  loader : LoaderConfig;
  bc_environment : gmap bytes EnvironmentRule;
  tools : gmap bytes ToolConfig;
}.

Definition BUNDLE_FORMAT_V2 : bytes := lit "bobr-host-bundle-v2".
Definition LAUNCHER_BINARY_NAME : bytes := lit "bobr-bundle-launcher".
Definition BUNDLE_LIBEXEC_DIR : bytes := lit "libexec".
Definition BUNDLE_CONFIG_NAME : bytes := lit "bundle.toml".

(** ** Kernel versions *)

Record KernelVersion := mkKernelVersion { major : Z; minor : Z; patch : Z }.

(** [str::parse::<u64>] of decimal digits. *)
Definition parse_u64 (digits : bytes) : option Z :=
  if (read_decimal digits <=? U64_MAX)%Z then Some (read_decimal digits) else None.

Definition required_component (part : bytes) : result string Z :=
  if bool_decide (part = []) || negb (forallb is_digit part)
  then Err "version components must contain decimal digits"
  else ok_or (parse_u64 part) "version component is too large".

Definition parse_required (value : bytes) : result string KernelVersion :=
  let parts := split_on 46 value in
  if negb ((2 <=? length parts)%nat && (length parts <=? 3)%nat)
  then Err "expected MAJOR.MINOR or MAJOR.MINOR.PATCH"
  else
    numbers <- try_map required_component parts ;;
    Ok (mkKernelVersion (default 0%Z (numbers !! 0%nat)) (default 0%Z (numbers !! 1%nat))
          (default 0%Z (numbers !! 2%nat))).

(** The leading digits of a component of the release, if they are a number. *)
Definition release_component (part : option bytes) : option Z :=
  match part with
  | Some value =>
      let '(digits, _) := break (fun b => negb (is_digit b)) value in
      if bool_decide (digits = []) then None else parse_u64 digits
  | None => None
  end.

Definition parse_release (value : bytes) : option KernelVersion :=
  let '(numeric, _) := break (fun b => b =? 45)%Z value in
  let parts := split_on 46 numeric in
  match release_component (parts !! 0%nat), release_component (parts !! 1%nat) with
  | Some major, Some minor =>
      Some (mkKernelVersion major minor (default 0%Z (release_component (parts !! 2%nat))))
  | _, _ => None
  end.

(** The derived order: major, minor, patch. *)
Definition version_leb (a b : KernelVersion) : bool :=
  match Z.compare (major a) (major b) with
  | Lt => true
  | Gt => false
  | Eq => match Z.compare (minor a) (minor b) with
          | Lt => true
          | Gt => false
          | Eq => (patch a <=? patch b)%Z
          end
  end.

Record HostPlatformCheck := mkHostPlatformCheck {
  kernel_release : bytes;
  kernel_compatible : bool;
  os_compatible : bool;
  arch_compatible : bool;
}.
Definition is_compatible (c : HostPlatformCheck) : bool :=
  kernel_compatible c && os_compatible c && arch_compatible c.

Inductive HostPlatformError :=
| Uname (e : IoError)
| InvalidKernelRelease (release : bytes).
Definition host_error_text (e : HostPlatformError) : string :=
  match e with
  | Uname e => "failed to query host platform: " +:+ io_text e
  | InvalidKernelRelease release => "invalid host kernel release '" +:+ show release +:+ "'"
  end.

(** [check_host_platform]; [None] is the panic of its [expect]. *)
Definition check_host_platform (current : option PlatformArch) (uname : result IoError bytes)
  (required : PlatformConfig) : option (result HostPlatformError HostPlatformCheck) :=
  match uname with
  | Err e => Some (Err (Uname e))
  | Ok release =>
      match parse_release release with
      | None => Some (Err (InvalidKernelRelease release))
      | Some current_kernel =>
          match parse_required (min_kernel required) with
          | Err _ => None
          | Ok required_kernel =>
              Some (Ok (mkHostPlatformCheck release (version_leb required_kernel current_kernel)
                (match pc_os required with Linux => true end)
                (bool_decide (current = Some (pc_arch required)))))
          end
      end
  end.

(** ** Validation *)

Inductive BundleConfigError :=
| ConfigRead (p : string) (source : IoError)
| ConfigParse (error : string)
| UnsupportedFormat (format : bytes)
| NoTools
| InvalidToolName (name : bytes)
| InvalidToolArgument (tool : bytes) (index : nat) (reason : string)
| ReservedToolName (name : bytes)
| InvalidMinimumKernel (value : bytes) (reason : string).

Definition show_nat (n : nat) : string := show_z (Z.of_nat n).

Definition config_error_text (e : BundleConfigError) : string :=
  match e with
  | ConfigRead p source => "failed to read bundle config '" +:+ p +:+ "': " +:+ io_text source
  | ConfigParse error => "invalid bundle config: " +:+ error
  | UnsupportedFormat format =>
      "unsupported bundle config format '" +:+ show format +:+ "' (expected 'bobr-host-bundle-v2')"
  | NoTools => "bundle config defines no tools"
  | InvalidToolName name => "invalid bundle tool name '" +:+ show name +:+ "'"
  | InvalidToolArgument tool index reason =>
      "invalid argument_prefix[" +:+ show_nat index +:+ "] for bundle tool '" +:+ show tool +:+ "': " +:+ reason
  | ReservedToolName name => "bundle tool name '" +:+ show name +:+ "' is reserved by the launcher"
  | InvalidMinimumKernel value reason =>
      "invalid minimum kernel version '" +:+ show value +:+ "': " +:+ reason
  end.

Definition is_safe_relative_path (value : bytes) : bool :=
  negb (bytes_eqb value []) && negb (starts_with [47]%Z value) && negb (bool_decide (0%Z ∈ value))
  && forallb plain_part (split_on 47 value).

Definition validate_tool_name (name : bytes) : result BundleConfigError unit :=
  if bytes_eqb name LAUNCHER_BINARY_NAME then Err (ReservedToolName name)
  else if bytes_eqb name [] || bytes_eqb name [46]%Z || bytes_eqb name [46; 46]%Z
          || bool_decide (47%Z ∈ name) || bool_decide (0%Z ∈ name) then Err (InvalidToolName name)
  else Ok tt.

Definition validate_argument (tool : bytes) (index : nat) (argument : ToolArgument) : result BundleConfigError unit :=
  match argument with
  | LiteralArgument value =>
      if bool_decide (0%Z ∈ value) then Err (InvalidToolArgument tool index "literal arguments cannot contain NUL")
      else Ok tt
  | PathArgument path =>
      if negb (is_safe_relative_path path)
      then Err (InvalidToolArgument tool index "path arguments must be safe bundle-relative paths")
      else Ok tt
  end.

(** A [for] loop without state over [iter().enumerate()]. *)
Fixpoint try_enumerate {E A : Type} (f : nat -> A -> result E unit) (index : nat) (l : list A) : result E unit :=
  match l with
  | [] => Ok tt
  | x :: l' => f index x ;;; try_enumerate f (S index) l'
  end.

Definition validate (config : BundleConfig) : result BundleConfigError unit :=
  if negb (bytes_eqb (bc_format config) BUNDLE_FORMAT_V2) then Err (UnsupportedFormat (bc_format config))
  else if bool_decide (tools config = ∅) then Err NoTools
  else
    map_err (InvalidMinimumKernel (min_kernel (bc_platform config)))
      (parse_required (min_kernel (bc_platform config))) ;;;
    try_fold (fun _ '(name, _) => validate_tool_name name) tt (btree_entries (tools config)) ;;;
    try_fold (fun _ '(name, tool) => try_enumerate (validate_argument name) 0 (tc_argument_prefix tool)) tt
      (btree_entries (tools config)).

(** [BundleConfig::new_v2]. *)
Definition new_v2 (payload_root : bytes) (policy : HostPolicy) (platform : PlatformConfig) (loader : LoaderConfig)
  (environment : gmap bytes EnvironmentRule) (tools : gmap bytes ToolConfig) : result BundleConfigError BundleConfig :=
  let config := mkBundleConfig BUNDLE_FORMAT_V2 payload_root policy platform loader environment tools in
  validate config ;;; Ok config.

(** [BundleConfig::parse], over the typed TOML reader. *)
Definition parse_config (toml : bytes -> result string BundleConfig) (text : bytes)
  : result BundleConfigError BundleConfig :=
  config <- map_err ConfigParse (toml text) ;; validate config ;;; Ok config.

(** ** Environment rules *)

Inductive EnvironmentRuleValidationError :=
| RuleInvalidVariableName (name : bytes)
| RuleInvalidRule (variable : bytes) (reason : string).

Definition rule_validate (rule : EnvironmentRule) (variable : bytes) : result EnvironmentRuleValidationError unit :=
  if bytes_eqb variable [] || bool_decide (61%Z ∈ variable) || bool_decide (0%Z ∈ variable)
  then Err (RuleInvalidVariableName variable)
  else
    let invalid reason := Err (RuleInvalidRule variable reason) in
    let configured_is_empty := bool_decide (er_paths rule = []) && bool_decide (er_values rule = []) in
    let no_default := bool_decide (host_default rule = []) in
    if negb (bool_decide (er_paths rule = [])) && negb (bool_decide (er_values rule = []))
    then invalid "paths and literal values cannot be combined"
    else if existsb (fun value => bool_decide (0%Z ∈ value)) (er_values rule ++ host_default rule)
    then invalid "literal values cannot contain NUL"
    else
      match operation rule with
      | Replace =>
          if configured_is_empty then invalid "replace requires paths or literal values"
          else if inherit rule || negb no_default then invalid "replace cannot inherit host values"
          else Ok tt
      | Prepend | Append =>
          if configured_is_empty then invalid "prepend and append require paths or literal values"
          else if negb (inherit rule) && negb no_default then invalid "host_default requires inherit = true"
          else Ok tt
      | Unset =>
          if negb configured_is_empty || inherit rule || negb no_default
          then invalid "unset accepts no paths, values, or inheritance fields"
          else Ok tt
      | Default =>
          if inherit rule then invalid "default does not use inherit"
          else if configured_is_empty && no_default
          then invalid "default requires paths, literal values, or host_default"
          else Ok tt
      end.

(** ** Invocations *)

Inductive DiagnosticOutput := Human | Json.
Inductive Invocation :=
| MultiCall (tool : bytes) (args : list bytes)
| Run (tool : bytes) (args : list bytes)
| Diagnose (tool : bytes) (output : DiagnosticOutput).

Definition invocation_tool (i : Invocation) : bytes :=
  match i with MultiCall tool _ | Run tool _ | Diagnose tool _ => tool end.
Definition is_diagnose (i : Invocation) : bool := match i with Diagnose _ _ => true | _ => false end.
Definition invocation_args (i : Invocation) : list bytes :=
  match i with MultiCall _ args | Run _ args => args | Diagnose _ _ => [] end.
Definition diagnostic_output (i : Invocation) : option DiagnosticOutput :=
  match i with Diagnose _ output => Some output | _ => None end.

Definition usage_error : string :=
  "usage: bobr-bundle-launcher --run TOOL -- [ARGS...]
       bobr-bundle-launcher --diagnose TOOL [--json]".

Definition parse_tool_name (value : bytes) (field : string) : result string bytes :=
  if negb (is_utf8 value) then Err (field +:+ " is not valid UTF-8")
  else if bytes_eqb value [] || bytes_eqb value [46]%Z || bytes_eqb value [46; 46]%Z || bool_decide (47%Z ∈ value)
  then Err (field +:+ " must be a non-empty basename")
  else Ok value.

Definition parse_run (args : list bytes) : result string Invocation :=
  match args with
  | _ :: _ :: tool :: separator :: rest =>
      if bytes_eqb separator (lit "--") then
        tool <- parse_tool_name tool "--run tool" ;; Ok (Run tool rest)
      else Err usage_error
  | _ => Err usage_error
  end.

Definition parse_diagnose (args : list bytes) : result string Invocation :=
  match args with
  | [_; _; tool] => tool <- parse_tool_name tool "--diagnose tool" ;; Ok (Diagnose tool Human)
  | [_; _; tool; flag] =>
      if bytes_eqb flag (lit "--json") then
        tool <- parse_tool_name tool "--diagnose tool" ;; Ok (Diagnose tool Json)
      else Err usage_error
  | _ => Err usage_error
  end.

Definition parse_invocation (args : list bytes) : result string Invocation :=
  match args with
  | [] => Err "argv is empty"
  | argv0 :: rest =>
      executable_name <- ok_or (file_name argv0) "argv[0] has no executable name" ;;
      if negb (bytes_eqb executable_name LAUNCHER_BINARY_NAME) then
        tool <- parse_tool_name executable_name "argv[0]" ;; Ok (MultiCall tool rest)
      else
        match rest with
        | flag :: _ =>
            if bytes_eqb flag (lit "--run") then parse_run args
            else if bytes_eqb flag (lit "--diagnose") then parse_diagnose args
            else Err usage_error
        | [] => Err usage_error
        end
  end.

(** ** Location *)

(** [Path::parent] on components. *)
Definition parent_components (cs : list Component) : option (list Component) :=
  match last cs with
  | None | Some RootDir => None
  | Some _ => Some (removelast cs)
  end.
Definition last_name (cs : list Component) : option bytes :=
  match last cs with Some (Normal name) => Some name | _ => None end.

(** The names a walk along the components passes, and their text. *)
Definition component_name (c : Component) : list bytes :=
  match c with RootDir => [] | CurDir => [[46]%Z] | ParentDir => [[46; 46]%Z] | Normal name => [name] end.
Definition walk_of (cs : list Component) : path := flat_map component_name cs.

Record BundleLocation := mkBundleLocation { bl_root : list Component; bl_launcher : bytes }.
Definition location_root (l : BundleLocation) : path := walk_of (bl_root l).
Definition location_config (l : BundleLocation) : path := location_root l ++ [BUNDLE_CONFIG_NAME].

Inductive BundleLocationError :=
| ReadCurrentExecutable (e : IoError)
| RelativeLauncherPath (p : bytes)
| UnexpectedLauncherName (p : bytes)
| UnexpectedLauncherDirectory (p : bytes).
Definition location_error_text (e : BundleLocationError) : string :=
  match e with
  | ReadCurrentExecutable e => "failed to resolve /proc/self/exe: " +:+ io_text e
  | RelativeLauncherPath p => "launcher path '" +:+ show p +:+ "' is not absolute"
  | UnexpectedLauncherName p => "launcher path '" +:+ show p +:+ "' does not end with 'bobr-bundle-launcher'"
  | UnexpectedLauncherDirectory p => "launcher path '" +:+ show p +:+ "' is not inside a 'libexec' directory"
  end.

Definition locate_bundle_from_launcher (launcher : bytes) : result BundleLocationError BundleLocation :=
  if negb (is_absolute launcher) then Err (RelativeLauncherPath launcher)
  else if negb (bool_decide (last_name (components launcher) = Some LAUNCHER_BINARY_NAME))
  then Err (UnexpectedLauncherName launcher)
  else
    libexec <- ok_or (parent_components (components launcher)) (UnexpectedLauncherDirectory launcher) ;;
    if negb (bool_decide (last_name libexec = Some BUNDLE_LIBEXEC_DIR)) then Err (UnexpectedLauncherDirectory launcher)
    else
      root <- ok_or (parent_components libexec) (UnexpectedLauncherDirectory launcher) ;;
      Ok (mkBundleLocation root launcher).
