(* ===== verification/BundleLaunch.v ===== *)
(** * The launcher of a bundle

    [bobr-bundle-launcher]: resolving a tool inside the payload ([tool.rs]), the
    environment of the process ([environment.rs]), the bundled loader
    ([dynamic.rs]), scripts and their interpreters ([dispatch.rs]), the final
    [execve] ([launch.rs]), the report ([diagnostics.rs]) and the whole program
    ([main.rs]), over the file system calls of [Posix]. *)

From S2P Require Import Prelude Errors Text Posix Elf BundleConfig.

Local Open Scope prog_scope.

(** [PathBuf::join] of a resolved path and a text, as a walk; [Path::starts_with];
    the bytes of a resolved path. *)
Definition join_path (base : path) (relative : bytes) : path :=
  match strip_prefix [47]%Z relative with
  | Some rest => split_on 47 rest
  | None => base ++ split_on 47 relative
  end.
Definition path_starts_with (p base : path) : bool := bool_decide (base `prefix_of` p).
Definition path_text (p : path) : bytes := 47%Z :: join_with [47]%Z p.

(** ** Tools *)

Record ResolvedTool := mkResolvedTool {
  rt_name : bytes;
  rt_target : path;
  rt_payload_root : path;
  rt_argument_prefix : list bytes;
  rt_config : ToolConfig;
}.

Inductive ToolResolutionError :=
| UnknownTool (tool : bytes)
| InvalidRelativePath (field : string) (value : bytes) (reason : string)
| ToolResolvePath (field : string) (p : path) (source : IoError)
| PayloadEscapesBundle (bundle_root payload_root : path)
| ToolEscapesPayload (tool : bytes) (payload_root target : path)
| ArgumentEscapesBundle (tool : bytes) (index : nat) (bundle_root target : path)
| NotRegularFile (tool : bytes) (target : path)
| NotExecutable (tool : bytes) (target : path).

Definition tool_error_text (e : ToolResolutionError) : string :=
  match e with
  | UnknownTool tool => "unknown bundle tool '" +:+ show tool +:+ "'"
  | InvalidRelativePath field value reason =>
      "invalid bundle-relative path in " +:+ field +:+ " ('" +:+ show value +:+ "'): " +:+ reason
  | ToolResolvePath field p source =>
      "failed to resolve " +:+ field +:+ " path '" +:+ display_path p +:+ "': " +:+ io_text source
  | PayloadEscapesBundle bundle_root payload_root =>
      "payload root '" +:+ display_path payload_root +:+ "' resolves outside bundle root '"
      +:+ display_path bundle_root +:+ "'"
  | ToolEscapesPayload tool payload_root target =>
      "tool '" +:+ show tool +:+ "' resolves to '" +:+ display_path target +:+ "' outside payload root '"
      +:+ display_path payload_root +:+ "'"
  | ArgumentEscapesBundle tool index bundle_root target =>
      "argument_prefix[" +:+ show_nat index +:+ "] for tool '" +:+ show tool +:+ "' resolves to '"
      +:+ display_path target +:+ "' outside bundle root '" +:+ display_path bundle_root +:+ "'"
  | NotRegularFile tool target =>
      "tool '" +:+ show tool +:+ "' target '" +:+ display_path target +:+ "' is not a regular file"
  | NotExecutable tool target =>
      "tool '" +:+ show tool +:+ "' target '" +:+ display_path target +:+ "' is not executable"
  end.

Definition validate_relative_path (field : string) (value : bytes) : result ToolResolutionError unit :=
  let invalid reason := Err (InvalidRelativePath field value reason) in
  if bytes_eqb value [] then invalid "path is empty"
  else if starts_with [47]%Z value then invalid "absolute paths are forbidden"
  else if bool_decide (0%Z ∈ value) then invalid "NUL bytes are forbidden"
  else if negb (forallb plain_part (split_on 47 value))
  then invalid "empty, '.' and '..' components are forbidden"
  else Ok tt.

Definition tool_canonicalize (field : string) (p : path) : prog (result ToolResolutionError path) :=
  mapping_err (ToolResolvePath field p) (canonicalize p).

Definition is_executable_file (md : Metadata) : bool :=
  bool_decide (file_type md = TFile) && negb (Z.land (md_mode md) 0x49 =? 0)%Z.

(** The loop over the fixed arguments. *)
Fixpoint resolve_arguments (tool_name : bytes) (bundle_root : path) (index : nat) (arguments : list ToolArgument)
  : prog (result ToolResolutionError (list bytes)) :=
  match arguments with
  | [] => Ret (Ok [])
  | LiteralArgument value :: arguments' =>
      let? rest := resolve_arguments tool_name bundle_root (S index) arguments' in Ret (Ok (value :: rest))
  | PathArgument p :: arguments' =>
      let field := "tools." +:+ show tool_name +:+ ".argument_prefix[" +:+ show_nat index +:+ "].path" in
      Ret (validate_relative_path field p) ?;
      let? resolved := tool_canonicalize field (join_path bundle_root p) in
      if negb (path_starts_with resolved bundle_root)
      then Ret (Err (ArgumentEscapesBundle tool_name index bundle_root resolved))
      else
        let? rest := resolve_arguments tool_name bundle_root (S index) arguments' in
        Ret (Ok (path_text resolved :: rest))
  end.

Definition resolve_tool (location : BundleLocation) (bundle : BundleConfig) (tool_name : bytes)
  : prog (result ToolResolutionError ResolvedTool) :=
  match tools bundle !! tool_name with
  | None => Ret (Err (UnknownTool tool_name))
  | Some tool =>
      let field := "tools." +:+ show tool_name +:+ ".path" in
      Ret (validate_relative_path "payload_root" (bc_payload_root bundle)) ?;
      Ret (validate_relative_path field (tc_path tool)) ?;
      let? bundle_root := tool_canonicalize "bundle root" (location_root location) in
      let? payload_root := tool_canonicalize "payload_root" (join_path bundle_root (bc_payload_root bundle)) in
      if negb (path_starts_with payload_root bundle_root)
      then Ret (Err (PayloadEscapesBundle bundle_root payload_root))
      else
        let? target := tool_canonicalize field (join_path bundle_root (tc_path tool)) in
        if negb (path_starts_with target payload_root)
        then Ret (Err (ToolEscapesPayload tool_name payload_root target))
        else
          let? md := mapping_err (ToolResolvePath field target) (metadata target) in
          if negb (bool_decide (file_type md = TFile)) then Ret (Err (NotRegularFile tool_name target))
          else if (Z.land (md_mode md) 0x49 =? 0)%Z then Ret (Err (NotExecutable tool_name target))
          else
            let? argument_prefix := resolve_arguments tool_name bundle_root 0 (tc_argument_prefix tool) in
            Ret (Ok (mkResolvedTool tool_name target payload_root argument_prefix tool))
  end.

(** ** Environment *)

Inductive EnvironmentOrigin :=
| HostOrigin
| CommonOrigin (op : EnvironmentOperation)
| ToolOrigin (op : EnvironmentOperation).

Record ProcessEnvironment := mkProcessEnvironment {
  pe_values : gmap bytes bytes;
  pe_traces : gmap bytes (list EnvironmentOrigin);
}.

(** The origin of the final value of a variable. *)
Definition origin (e : ProcessEnvironment) (name : bytes) : option EnvironmentOrigin :=
  match pe_traces e !! name with Some trace => last trace | None => None end.

Inductive EnvironmentError :=
| InvalidVariableName (name : bytes)
| InvalidRule (variable : bytes) (reason : string)
| InvalidEnvironmentPath (e : ToolResolutionError)
| EnvironmentResolvePath (variable : bytes) (p : path) (source : IoError)
| PathEscapesBundle (variable : bytes) (bundle_root p : path)
| EnvironmentPathSeparator (variable : bytes) (p : path).

Definition environment_error_text (e : EnvironmentError) : string :=
  match e with
  | InvalidVariableName name => "invalid environment variable name '" +:+ show name +:+ "'"
  | InvalidRule variable reason => "invalid environment rule for " +:+ show variable +:+ ": " +:+ reason
  | InvalidEnvironmentPath e => tool_error_text e
  | EnvironmentResolvePath variable p source =>
      "failed to resolve environment path for " +:+ show variable +:+ " ('" +:+ display_path p +:+ "'): "
      +:+ io_text source
  | PathEscapesBundle variable bundle_root p =>
      "environment path for " +:+ show variable +:+ " ('" +:+ display_path p +:+ "') resolves outside bundle root '"
      +:+ display_path bundle_root +:+ "'"
  | EnvironmentPathSeparator variable p =>
      "environment path for " +:+ show variable +:+ " ('" +:+ display_path p +:+ "') contains ':'"
  end.

Definition map_rule_validation_error (e : EnvironmentRuleValidationError) : EnvironmentError :=
  match e with
  | RuleInvalidVariableName name => InvalidVariableName name
  | RuleInvalidRule variable reason => InvalidRule variable reason
  end.

Definition join_list (values : list bytes) : bytes := join_with [58]%Z values.
Definition join_pair (first second : bytes) : bytes :=
  match first, second with
  | [], [] => []
  | [], _ => second
  | _, [] => first
  | _, _ => join_list [first; second]
  end.

Definition is_loader_sensitive (name : bytes) : bool :=
  starts_with (lit "LD_") name || bytes_eqb name (lit "GLIBC_TUNABLES").

Definition host_default_value (defaults : list bytes) : option bytes :=
  match defaults with [] => None | _ => Some (join_list defaults) end.

Fixpoint resolve_bundle_values (bundle_root : path) (variable : bytes) (paths : list bytes)
  : prog (result EnvironmentError (list bytes)) :=
  match paths with
  | [] => Ret (Ok [])
  | relative :: paths' =>
      let field := "environment." +:+ show variable +:+ ".paths" in
      Ret (map_err InvalidEnvironmentPath (validate_relative_path field relative)) ?;
      let candidate := join_path bundle_root relative in
      let? resolved := mapping_err (EnvironmentResolvePath variable candidate) (canonicalize candidate) in
      if negb (path_starts_with resolved bundle_root) then Ret (Err (PathEscapesBundle variable bundle_root resolved))
      else if bool_decide (58%Z ∈ path_text resolved) then Ret (Err (EnvironmentPathSeparator variable resolved))
      else
        let? rest := resolve_bundle_values bundle_root variable paths' in
        Ret (Ok (path_text resolved :: rest))
  end.

Definition configured_values (bundle_root : path) (variable : bytes) (rule : EnvironmentRule)
  : prog (result EnvironmentError (list bytes)) :=
  match er_paths rule with
  | [] => Ret (Ok (er_values rule))
  | paths => resolve_bundle_values bundle_root variable paths
  end.

(** The effect of one rule whose values are known; [scope] is
    [RuleScope::origin]. *)
Definition apply_rule (scope : EnvironmentOperation -> EnvironmentOrigin) (name : bytes) (rule : EnvironmentRule)
  (configured : list bytes) (e : ProcessEnvironment) : ProcessEnvironment :=
  let here := scope (operation rule) in
  match operation rule with
  | Unset => mkProcessEnvironment (delete name (pe_values e)) (delete name (pe_traces e))
  | Replace =>
      mkProcessEnvironment (<[name := join_list configured]> (pe_values e)) (<[name := [here]]> (pe_traces e))
  | Prepend | Append =>
      let inherited :=
        if inherit rule then
          match pe_values e !! name with Some value => Some value | None => host_default_value (host_default rule) end
        else None in
      let bundle_value := join_list configured in
      let combined :=
        match inherited with
        | Some host =>
            if bool_decide (operation rule = Prepend) then join_pair bundle_value host else join_pair host bundle_value
        | None => bundle_value
        end in
      let trace :=
        match inherited with
        | Some (_ :: _) => default [] (pe_traces e !! name) ++ [here]
        | _ => [here]
        end in
      mkProcessEnvironment (<[name := combined]> (pe_values e)) (<[name := trace]> (pe_traces e))
  | Default =>
      match pe_values e !! name with
      | Some _ => e
      | None =>
          let value :=
            match configured with [] => default [] (host_default_value (host_default rule)) | _ => join_list configured end in
          mkProcessEnvironment (<[name := value]> (pe_values e)) (<[name := [here]]> (pe_traces e))
      end
  end.

Fixpoint apply_rules (bundle_root : path) (scope : EnvironmentOperation -> EnvironmentOrigin)
  (rules : list (bytes * EnvironmentRule)) (e : ProcessEnvironment) : prog (result EnvironmentError ProcessEnvironment) :=
  match rules with
  | [] => Ret (Ok e)
  | (variable, rule) :: rules' =>
      Ret (map_err map_rule_validation_error (rule_validate rule variable)) ?;
      let? configured := configured_values bundle_root variable rule in
      apply_rules bundle_root scope rules' (apply_rule scope variable rule configured e)
  end.

(** The inherited variables: of two with one name, the later one. *)
Definition host_environment (host : list (bytes * bytes)) : ProcessEnvironment :=
  let values := fold_left (fun (m : gmap bytes bytes) '(name, value) =>
    if is_loader_sensitive name then m else <[name := value]> m) host ∅ in
  mkProcessEnvironment values ((fun _ => [HostOrigin]) <$> values).

Definition build_environment (location : BundleLocation) (bundle : BundleConfig) (tool : ResolvedTool)
  (host : list (bytes * bytes)) : prog (result EnvironmentError ProcessEnvironment) :=
  let? bundle_root := mapping_err (EnvironmentResolvePath (lit "<bundle-root>") (location_root location))
                        (canonicalize (location_root location)) in
  let? common := apply_rules bundle_root CommonOrigin (btree_entries (bc_environment bundle)) (host_environment host) in
  apply_rules bundle_root ToolOrigin (btree_entries (tc_environment (rt_config tool))) common.

(** ** Inspection *)

(** [inspect_executable_for_arch]: the file is read once for its prefix and
    once more when that is ELF. *)
Definition inspect_executable_for_arch (p : path) (expected_arch : PlatformArch)
  : prog (result ExecutableInspectionError ExecutableFormat) :=
  let? content := mapping_err (InspectRead p) (read p) in
  let prefix := take SHEBANG_BUFFER_SIZE content in
  if starts_with (127 :: lit "ELF")%Z prefix then
    do opened := read p in
    Ret (e <- map_err InspectElf
                (inspect_elf_for_arch p (b <- opened ;; Ok (stable b)) expected_arch) ;;
         Ok (ElfFormat e))
  else if starts_with (lit "#!") prefix then Ret (s <- parse_shebang prefix ;; Ok (ScriptFormat s))
  else Ret (Err UnknownFormat).

(** ** The bundled loader *)

Record DynamicLaunchPlan := mkDynamicLaunchPlan {
  dl_loader : path;
  dl_library_dirs : list path;
  dl_arguments : list bytes;
}.

Inductive DynamicLaunchError :=
| InvalidElfInterpreter (p : bytes)
| DynamicResolvePath (field : string) (p : path) (source : IoError)
| EscapesPayload (field : string) (payload_root p : path)
| InvalidLoaderFile (p : path)
| InvalidLoaderElf (p : path) (source : ElfError)
| ChainedLoader (p : path)
| EmptyLibraryPath
| LibraryPathNotDirectory (p : path)
| LibraryPathSeparator (p : path).

Definition dynamic_error_text (e : DynamicLaunchError) : string :=
  match e with
  | InvalidElfInterpreter p => "invalid ELF interpreter '" +:+ show p +:+ "'"
  | DynamicResolvePath field p source =>
      "failed to resolve " +:+ field +:+ " '" +:+ display_path p +:+ "': " +:+ io_text source
  | EscapesPayload field payload_root p =>
      field +:+ " '" +:+ display_path p +:+ "' resolves outside payload root '" +:+ display_path payload_root +:+ "'"
  | InvalidLoaderFile p => "bundled loader '" +:+ display_path p +:+ "' is not an executable regular file"
  | InvalidLoaderElf p source =>
      "bundled loader '" +:+ display_path p +:+ "' is not a supported ELF: " +:+ elf_error_text source
  | ChainedLoader p => "bundled loader '" +:+ display_path p +:+ "' unexpectedly has PT_INTERP"
  | EmptyLibraryPath => "dynamic bundle tool has no loader library_dirs"
  | LibraryPathNotDirectory p => "loader library path '" +:+ display_path p +:+ "' is not a directory"
  | LibraryPathSeparator p =>
      "loader path '" +:+ display_path p +:+ "' contains ':' and cannot form --library-path"
  end.

Definition resolve_inside_payload (field : string) (candidate payload_root : path)
  : prog (result DynamicLaunchError path) :=
  let? resolved := mapping_err (DynamicResolvePath field candidate) (canonicalize candidate) in
  if negb (path_starts_with resolved payload_root) then Ret (Err (EscapesPayload field payload_root resolved))
  else Ret (Ok resolved).

(** The loop over the library directories. *)
Fixpoint resolve_library_dirs (bundle_root payload_root : path) (index : nat) (dirs : list bytes)
  : prog (result DynamicLaunchError (list path)) :=
  match dirs with
  | [] => Ret (Ok [])
  | relative :: dirs' =>
      let field := "loader.library_dirs[" +:+ show_nat index +:+ "]" in
      let candidate := join_path bundle_root relative in
      Ret (map_err (fun _ => DynamicResolvePath field candidate (mkIoError OtherKind "invalid relative path"))
             (validate_relative_path field relative)) ?;
      let? directory := resolve_inside_payload field candidate payload_root in
      do is_directory := is_dir_path directory in
      if negb is_directory then Ret (Err (LibraryPathNotDirectory directory))
      else if bool_decide (58%Z ∈ path_text directory) then Ret (Err (LibraryPathSeparator directory))
      else
        let? rest := resolve_library_dirs bundle_root payload_root (S index) dirs' in
        Ret (Ok (directory :: rest))
  end.

(** [prepare_dynamic_program]. *)
Definition prepare_dynamic_program (location : BundleLocation) (bundle : BundleConfig) (payload_root target : path)
  (argv0 interpreter : bytes) (payload_arguments : list bytes) : prog (result DynamicLaunchError DynamicLaunchPlan) :=
  match validate_absolute_payload_path interpreter with
  | None => Ret (Err (InvalidElfInterpreter interpreter))
  | Some relative_interpreter =>
      let? loader_path := resolve_inside_payload "ELF interpreter" (join_path payload_root relative_interpreter) payload_root in
      let? md := mapping_err (DynamicResolvePath "ELF interpreter" loader_path) (metadata loader_path) in
      if negb (is_executable_file md) then Ret (Err (InvalidLoaderFile loader_path))
      else
        do opened := read loader_path in
        let? loader_elf := Ret (map_err (InvalidLoaderElf loader_path)
          (inspect_elf_for_arch loader_path (b <- opened ;; Ok (stable b)) (pc_arch (bc_platform bundle)))) in
        match linkage loader_elf with
        | DynamicElf _ => Ret (Err (ChainedLoader loader_path))
        | StaticElf =>
            if bool_decide (library_dirs (loader bundle) = []) then Ret (Err EmptyLibraryPath)
            else
              let? bundle_root := mapping_err (DynamicResolvePath "bundle root" (location_root location))
                                    (canonicalize (location_root location)) in
              let? dirs := resolve_library_dirs bundle_root payload_root 0 (library_dirs (loader bundle)) in
              Ret (Ok (mkDynamicLaunchPlan loader_path dirs
                ((if inhibit_cache (loader bundle) then [lit "--inhibit-cache"] else [])
                 ++ [lit "--argv0"; argv0; lit "--library-path"; join_list (map path_text dirs); path_text target]
                 ++ payload_arguments)))
        end
  end.

(** ** Dispatch *)

Definition MAX_SCRIPT_DEPTH : nat := 4.

Inductive ProcessLaunchPlan :=
| DirectPlan (executable : path) (argv0 : bytes) (arguments : list bytes)
| DynamicPlan (plan : DynamicLaunchPlan).

Definition plan_loader (p : ProcessLaunchPlan) : option path :=
  match p with DirectPlan _ _ _ => None | DynamicPlan plan => Some (dl_loader plan) end.

Record PreparedToolLaunch := mkPreparedToolLaunch { pl_format : ExecutableFormat; pl_process : ProcessLaunchPlan }.

(** [DispatchPanic] is the panic of the [expect] in
    [resolve_script_interpreter]. *)
Inductive DispatchError :=
| DispatchInspect (p : path) (source : ExecutableInspectionError)
| ScriptRecursionLimit (p : path)
| ResolveInterpreter (interpreter : bytes) (p : path) (source : IoError)
| InterpreterEscapesPayload (interpreter : bytes) (payload_root target : path)
| InvalidInterpreterFile (interpreter : bytes) (target : path)
| DispatchDynamic (e : DynamicLaunchError)
| DispatchPanic.

Definition dispatch_error_text (e : DispatchError) : string :=
  match e with
  | DispatchInspect p source =>
      "failed to inspect bundled executable '" +:+ display_path p +:+ "': " +:+ inspection_error_text source
  | ScriptRecursionLimit p => "shebang recursion limit (4) exceeded at '" +:+ display_path p +:+ "'"
  | ResolveInterpreter interpreter p source =>
      "failed to resolve bundled shebang interpreter '" +:+ show interpreter +:+ "' at '" +:+ display_path p
      +:+ "': " +:+ io_text source
  | InterpreterEscapesPayload interpreter payload_root target =>
      "shebang interpreter '" +:+ show interpreter +:+ "' resolves to '" +:+ display_path target
      +:+ "' outside payload root '" +:+ display_path payload_root +:+ "'"
  | InvalidInterpreterFile interpreter target =>
      "bundled shebang interpreter '" +:+ show interpreter +:+ "' at '" +:+ display_path target
      +:+ "' is not an executable regular file"
  | DispatchDynamic e => dynamic_error_text e
  | DispatchPanic => "validated Shebang must contain a safe absolute path"
  end.

Definition inspect (p : path) (expected_arch : PlatformArch) : prog (result DispatchError ExecutableFormat) :=
  mapping_err (DispatchInspect p) (inspect_executable_for_arch p expected_arch).

Definition resolve_script_interpreter (payload_root : path) (logical : bytes) : prog (result DispatchError path) :=
  match validate_absolute_payload_path logical with
  | None => Ret (Err DispatchPanic)
  | Some relative =>
      let candidate := join_path payload_root relative in
      let? target := mapping_err (ResolveInterpreter logical candidate) (canonicalize candidate) in
      if negb (path_starts_with target payload_root)
      then Ret (Err (InterpreterEscapesPayload logical payload_root target))
      else
        let? md := mapping_err (ResolveInterpreter logical target) (metadata target) in
        if negb (is_executable_file md) then Ret (Err (InvalidInterpreterFile logical target))
        else Ret (Ok target)
  end.

(** [prepare_inspected]; [remaining] counts the scripts that may still follow. *)
Fixpoint prepare_inspected (remaining : nat) (location : BundleLocation) (bundle : BundleConfig)
  (payload_root target : path) (argv0 : bytes) (arguments : list bytes) (format : ExecutableFormat)
  : prog (result DispatchError ProcessLaunchPlan) :=
  match format with
  | ElfFormat elf =>
      match linkage elf with
      | StaticElf => Ret (Ok (DirectPlan target argv0 arguments))
      | DynamicElf interpreter =>
          let? plan := mapping_err DispatchDynamic
            (prepare_dynamic_program location bundle payload_root target argv0 interpreter arguments) in
          Ret (Ok (DynamicPlan plan))
      end
  | ScriptFormat shebang =>
      match remaining with
      | O => Ret (Err (ScriptRecursionLimit target))
      | S remaining' =>
          let? interpreter := resolve_script_interpreter payload_root (sb_interpreter shebang) in
          let? interpreter_format := inspect interpreter (pc_arch (bc_platform bundle)) in
          prepare_inspected remaining' location bundle payload_root interpreter (sb_interpreter shebang)
            (match sb_argument shebang with Some argument => [argument] | None => [] end
             ++ path_text target :: arguments)
            interpreter_format
      end
  end.

Definition prepare_tool_launch (location : BundleLocation) (bundle : BundleConfig) (tool : ResolvedTool)
  (arguments : list bytes) : prog (result DispatchError PreparedToolLaunch) :=
  let? format := inspect (rt_target tool) (pc_arch (bc_platform bundle)) in
  let? process := prepare_inspected MAX_SCRIPT_DEPTH location bundle (rt_payload_root tool) (rt_target tool)
    (tc_argv0 (rt_config tool)) (rt_argument_prefix tool ++ arguments) format in
  Ret (Ok (mkPreparedToolLaunch format process)).

(** ** The process *)

(** What [Command::exec] passes to [execve]. *)
Record ExecRequest := mkExecRequest {
  ex_program : path;
  ex_argv : list bytes;
  ex_env : list (bytes * bytes);
}.

Definition exec_prepared (launch : PreparedToolLaunch) (environment : ProcessEnvironment) : ExecRequest :=
  match pl_process launch with
  | DirectPlan executable argv0 arguments =>
      mkExecRequest executable (argv0 :: arguments) (btree_entries (pe_values environment))
  | DynamicPlan plan =>
      mkExecRequest (dl_loader plan) (path_text (dl_loader plan) :: dl_arguments plan)
        (btree_entries (pe_values environment))
  end.

(** ** Diagnostics *)

Definition is_ascii_graphic (b : Z) : bool := (33 <=? b)%Z && (b <=? 126)%Z.
Definition hex_digit (n : Z) : Z := if (n <? 10)%Z then (48 + n)%Z else (87 + n)%Z.
Definition escape_os (value : bytes) : bytes :=
  if is_utf8 value then value
  else flat_map (fun b =>
    if is_ascii_graphic b || (b =? 32)%Z then [b] else [92; 120; hex_digit (b / 16); hex_digit (b mod 16)]%Z) value.

Definition operation_name (op : EnvironmentOperation) : bytes :=
  lit match op with
      | Replace => "replace" | Prepend => "prepend" | Append => "append" | Unset => "unset" | Default => "default"
      end.
Definition origin_name (o : EnvironmentOrigin) : bytes :=
  match o with
  | HostOrigin => lit "host"
  | CommonOrigin op => lit "common:" ++ operation_name op
  | ToolOrigin op => lit "tool:" ++ operation_name op
  end.

Definition bool_text (b : bool) : bytes := if b then lit "true" else lit "false".

(** The lines of [DiagnosticReport::to_human]. *)
Definition human_lines (location : BundleLocation) (bundle : BundleConfig) (tool : ResolvedTool)
  (environment : ProcessEnvironment) (launch : PreparedToolLaunch) (host : HostPlatformCheck) : list bytes :=
  let '(format, linkage_text, pie, interpreter) :=
    match pl_format launch with
    | ElfFormat elf =>
        (lit "elf", match linkage elf with StaticElf => lit "static" | DynamicElf _ => lit "dynamic" end,
         Some (position_independent elf),
         match linkage elf with DynamicElf i => Some (escape_os i) | StaticElf => None end)
    | ScriptFormat s => (lit "script", lit "script", None, Some (escape_os (sb_interpreter s)))
    end in
  let entry '(name, value) :=
    lit "environment." ++ escape_os name ++ lit "=" ++ escape_os value ++ lit " ["
    ++ match pe_traces environment !! name with
       | Some trace => join_with (lit " -> ") (map origin_name trace)
       | None => lit "unknown"
       end ++ lit "]" in
  [lit "bundle_root=" ++ escape_os (path_text (location_root location));
   lit "payload_root=" ++ escape_os (path_text (rt_payload_root tool));
   lit "policy=" ++ lit match policy bundle with Strict => "strict" | Integrated => "integrated" end;
   lit "platform.required_os=linux";
   lit "platform.required_arch=" ++ lit (arch_as_str (pc_arch (bc_platform bundle)));
   lit "platform.minimum_kernel=" ++ min_kernel (bc_platform bundle);
   lit "platform.host_kernel=" ++ kernel_release host;
   lit "platform.compatible=" ++ bool_text (is_compatible host);
   lit "tool=" ++ rt_name tool;
   lit "visibility=" ++ lit match visibility (rt_config tool) with Public => "public" | Internal => "internal" end;
   lit "target=" ++ escape_os (path_text (rt_target tool));
   lit "argument_prefix=" ++ join_with (lit " ") (map escape_os (rt_argument_prefix tool));
   lit "format=" ++ format;
   lit "linkage=" ++ linkage_text]
  ++ match pie with Some b => [lit "position_independent=" ++ bool_text b] | None => [] end
  ++ match interpreter with Some i => [lit "interpreter=" ++ i] | None => [] end
  ++ match plan_loader (pl_process launch) with Some l => [lit "loader=" ++ escape_os (path_text l)] | None => [] end
  ++ [lit "library_path=" ++
      join_with (lit ":") match pl_process launch with
                          | DynamicPlan plan => map (fun d => escape_os (path_text d)) (dl_library_dirs plan)
                          | DirectPlan _ _ _ => []
                          end]
  ++ map entry (btree_entries (pe_values environment)).
Definition to_human location bundle tool environment launch host : bytes :=
  join_with [10]%Z (human_lines location bundle tool environment launch host).

(** ** The program *)

(** How the program ends, up to the [execve] it asks for; the text of the JSON
    report is the serializer's. *)
Inductive Outcome :=
| ExitError (message : string)
| Panicked
| ReportedHuman (text : bytes)
| ReportedJson
| Executed (request : ExecRequest).

Definition or_exit {E A : Type} (text : E -> string) (m : prog (result E A)) (k : A -> prog Outcome) : prog Outcome :=
  bind m (fun r => match r with Ok a => k a | Err e => Ret (ExitError (text e)) end).
Notation "'let!' x ':=' m 'exits' text 'in' k" := (or_exit text m (fun x => k))
  (at level 200, x name, m at level 100, text at level 100, k at level 200, right associativity) : prog_scope.

Definition read_bundle_config (toml : bytes -> result string BundleConfig) (p : path)
  : prog (result BundleConfigError BundleConfig) :=
  let? text := mapping_err (ConfigRead (display_path p)) (read p) in
  Ret (if is_utf8 text then parse_config toml text
       else Err (ConfigRead (display_path p) (mkIoError OtherKind "stream did not contain valid UTF-8"))).

Definition launcher_main (toml : bytes -> result string BundleConfig) (current : option PlatformArch)
  (uname : result IoError bytes) (args : list bytes) (host : list (bytes * bytes)) : prog Outcome :=
  let! invocation := Ret (parse_invocation args) exits id in
  let! launcher := mapping_err ReadCurrentExecutable (read_link [lit "proc"; lit "self"; lit "exe"]) exits location_error_text in
  let! location := Ret (locate_bundle_from_launcher launcher) exits location_error_text in
  let! config := read_bundle_config toml (location_config location) exits config_error_text in
  match check_host_platform current uname (bc_platform config) with
  | None => Ret Panicked
  | Some checked =>
      let! host_platform := Ret checked exits host_error_text in
      if negb (is_diagnose invocation) && negb (is_compatible host_platform) then
        Ret (ExitError ("host platform does not satisfy bundle requirements (required linux/"
          +:+ arch_as_str (pc_arch (bc_platform config)) +:+ " kernel >= " +:+ show (min_kernel (bc_platform config))
          +:+ ", host kernel " +:+ show (kernel_release host_platform) +:+ ")"))
      else
        let! tool := resolve_tool location config (invocation_tool invocation) exits tool_error_text in
        let! environment := build_environment location config tool host exits environment_error_text in
        do prepared := prepare_tool_launch location config tool (invocation_args invocation) in
        match prepared with
        | Err DispatchPanic => Ret Panicked
        | Err e => Ret (ExitError (dispatch_error_text e))
        | Ok launch =>
            match diagnostic_output invocation with
            | Some Human => Ret (ReportedHuman (to_human location config tool environment launch host_platform))
            | Some Json => Ret ReportedJson
            | None => Ret (Executed (exec_prepared launch environment))
            end
        end
  end.
