(* ===== verification/Reading.v ===== *)
(** * Programs that only read

    Runs of programs that change nothing: what they may conclude from the
    answers of the calls, when the tree is the same throughout and any call may
    fail ([reads]); and canonical paths, which the calls resolve to themselves. *)

From S2P Require Import Prelude Posix.

Definition read_only (o : Op) : bool :=
  match o with
  | OSymlinkMetadata _ | OMetadata _ | OReadLink _ | ORead _ | OReadDir _ | OCanonicalize _ | OLoad _ | ONow => true
  | _ => false
  end.

(** [reads t m Q]: on the tree [t], whatever calls fail, [m] only reads and its
    result satisfies [Q]. *)
Fixpoint reads {A : Type} (t : node) (m : prog A) (Q : A -> Prop) : Prop :=
  match m with
  | Ret a => Q a
  | Do o k =>
      read_only o = true /\
      forall who e w, tree w = t -> reads t (k (exec who e o w).1) Q
  end.

Lemma exec_read_only who e o w : read_only o = true -> (exec who e o w).2 = w.
Proof. destruct o; intros H; try discriminate H; reflexivity. Qed.

Lemma reads_run {A} t (m : prog A) Q who es w :
  reads t m Q -> tree w = t -> Q (run who es m w).1 /\ (run who es m w).2 = w.
Proof.
  revert es w. induction m as [a|o k IH]; intros es w H Hw; [done|]. destruct H as [Hr H].
  cbn [run]. pose proof (exec_read_only who (hd calm es) o w Hr) as Ew.
  specialize (H who (hd calm es) w Hw).
  destruct (exec who (hd calm es) o w) as [r w']. cbn [fst snd] in *. subst w'. by apply IH.
Qed.

Lemma reads_weaken {A} t (m : prog A) (Q R : A -> Prop) : reads t m Q -> (forall a, Q a -> R a) -> reads t m R.
Proof.
  intros H HQ. induction m as [a|o k IH]; cbn [reads] in *; [by apply HQ|]. destruct H as [Hr H].
  split; [done|]. intros who e w Hw. apply IH. by apply H.
Qed.

Lemma reading_bind {A B} t (m : prog A) (f : A -> prog B) Q : reads t m (fun a => reads t (f a) Q) -> reads t (bind m f) Q.
Proof.
  induction m as [a|o k IH]; cbn [reads bind]; [done|]. intros [Hr H]. split; [done|].
  intros who e w Hw. apply IH. by apply H.
Qed.

Lemma reads_seq {A B} t (m : prog A) (f : A -> prog B) P Q :
  reads t m P -> (forall a, P a -> reads t (f a) Q) -> reads t (bind m f) Q.
Proof. intros Hm Hf. apply reading_bind. by eapply reads_weaken. Qed.

(** What holds of a result and of an error; nothing of an error. *)
Definition either {E A : Type} (P : A -> Prop) (N : E -> Prop) (r : result E A) : Prop :=
  match r with Ok a => P a | Err e => N e end.
Abbreviation on_ok P := (either P (fun _ => True)).

Lemma reading_try {E A B} t (m : prog (result E A)) (f : A -> prog (result E B)) P (Q : B -> Prop) (N : E -> Prop) :
  reads t m (either P N) -> (forall a, P a -> reads t (f a) (either Q N)) -> reads t (try_bind m f) (either Q N).
Proof. intros Hm Hf. eapply reads_seq; [exact Hm|]. intros [a|e] Ha; [by apply Hf|done]. Qed.

Lemma reads_mapping_err {E F A} t (g : E -> F) (m : prog (result E A)) (P : A -> Prop) (N : F -> Prop) :
  reads t m (on_ok P) -> (forall e, N (g e)) -> reads t (mapping_err g m) (either P N).
Proof. intros Hm Hg. eapply reads_seq; [exact Hm|]. intros [a|e] Ha; [done|apply Hg]. Qed.

Lemma reads_ret {A} t (a : A) (Q : A -> Prop) : Q a -> reads t (Ret a) Q.
Proof. done. Qed.

(** *** Calls *)

Ltac reads_call :=
  split; [done|]; intros who e w <-; cbn [exec fst];
  unfold answer_read; destruct (fault e); [done|].

Lemma reads_canonicalize t p : reads t (canonicalize p) (on_ok (fun q => exists n, lookup_node t p true = Ok (q, n))).
Proof. reads_call. destruct (lookup_node (tree w) p true) as [[q n]|]; cbn; eauto. Qed.

Lemma reads_metadata t p :
  reads t (metadata p) (on_ok (fun md => exists q n, lookup_node t p true = Ok (q, n) /\ md = metadata_of n)).
Proof. reads_call. destruct (lookup_node (tree w) p true) as [[q n]|]; cbn; eauto. Qed.

Lemma reads_read t p :
  reads t (read p) (on_ok (fun b => exists q mode, lookup_node t p true = Ok (q, Reg mode b))).
Proof. reads_call. destruct (lookup_node (tree w) p true) as [[q [mode c| |]]|]; cbn; eauto. Qed.

Lemma reads_read_link t p :
  reads t (read_link p) (on_ok (fun b => exists q mtime, lookup_node t p false = Ok (q, Lnk b mtime))).
Proof. reads_call. destruct (lookup_node (tree w) p false) as [[q [| |target mtime]]|]; cbn; eauto. Qed.

Lemma reads_is_dir_path t p :
  reads t (is_dir_path p) (fun b => b = true -> exists q m cs, lookup_node t p true = Ok (q, Dir m cs)).
Proof.
  eapply reads_seq; [apply reads_metadata|]. intros [md|e] H; [|done]. apply reads_ret.
  destruct H as (q & n & E & ->). intros Hd. bools. destruct n; [done|eauto|done].
Qed.

(** ** Canonical paths *)

Lemma wf_names t q n : wf_node t -> get t q = Some n -> Forall valid_name q.
Proof.
  revert t. induction q as [|c q IH]; intros t Ht H; [constructor|].
  destruct t as [| m cs |]; try done. cbn [get] in H. destruct (assoc c cs) as [x|] eqn:E; [|done].
  apply wf_dir in Ht. rewrite Forall_forall in Ht. apply assoc_elem, Ht in E as [Hc Hx].
  constructor; [exact Hc|]. by eapply IH.
Qed.

Lemma real_dir_removelast t p : real_dir t p -> real_dir t (removelast p).
Proof.
  destruct (decide (p = [])) as [->|Hne]; [done|]. destruct (exists_last Hne) as (k & x & ->).
  rewrite removelast_last. apply real_dir_app.
Qed.

(** Resolution that follows links does not end at one. *)
Lemma resolve_not_link t : real_dir t [] -> forall b rest base q n,
  real_dir t base -> resolve b t base rest true = Ok q -> get t q = Some n -> is_lnk n = false.
Proof.
  intros Ht b. induction b as [|b IHb]; intros rest; induction rest as [|c rest IH]; intros base q n Hbase H Hq;
    cbn [resolve] in H.
  1,3: injection H as <-; destruct Hbase as (m & cs & E); rewrite E in Hq; by simplify_eq.
  all: destruct (bytes_eqb c [] || bytes_eqb c [46]%Z); [by eapply IH|].
  all: destruct (bytes_eqb c [46; 46]%Z); [eapply IH; [by apply real_dir_removelast|done|done]|].
  all: destruct (get t (base ++ [c])) as [[mode x|mode cs|target mtime]|] eqn:E.
  all: try (case_bool_decide; inv_res; rewrite E in Hq; by simplify_eq).
  all: try (eapply IH; [by exists mode, cs|done|done]).
  rewrite andb_false_r in H.
  eapply IHb; [|exact H|done]. by destruct (is_absolute target).
Qed.

(** What a successful resolution returns resolves to itself. *)
Lemma lookup_canonical t p q n : wf_node t -> real_dir t [] -> lookup_node t p true = Ok (q, n) ->
  get t q = Some n /\ Forall valid_name q /\ forall follow, lookup_node t q follow = Ok (q, n).
Proof.
  unfold lookup_node at 1. intros Hwf Ht H.
  destruct (locate t p true) as [q'|] eqn:El; [|done]. destruct (get t q') as [n'|] eqn:Eg; [|done].
  injection H as -> ->. assert (Hv := wf_names _ _ _ Hwf Eg). split; [done|]. split; [done|]. intros follow.
  assert (Hl : is_lnk n = false) by (by eapply resolve_not_link).
  destruct (decide (q = [])) as [->|Hne]; [unfold lookup_node, locate; cbn in *; by simplify_eq|].
  destruct (exists_last Hne) as (k & x & ->). apply Forall_app in Hv as [Hk Hx]. apply Forall_cons in Hx as [Hx _].
  rewrite lookup_real; [by rewrite Eg|done|done| |by rewrite Eg].
  rewrite get_app in Eg. destruct (get t k) as [[| m cs |]|] eqn:Ek; try done. by exists m, cs.
Qed.
