(* ===== verification/BundleSafety.v ===== *)
(** * What the launcher of a bundle runs

    On any tree, whatever calls fail: the launcher does not panic, and what it
    executes is a statically linked ELF program inside the payload of its
    bundle, with an environment that takes nothing loader-sensitive from the
    host. *)

From S2P Require Import Prelude Errors Text Posix Elf BundleConfig BundleLaunch Reading.

(** The canonical path of a walk. *)
Definition canonical (t : node) (p q : path) : Prop := exists n, lookup_node t p true = Ok (q, n).

(** A regular file with an execute bit. *)
Definition executable (t : node) (p : path) : Prop :=
  exists mode content, get t p = Some (Reg mode content) /\ Z.land mode 0x49 <> 0%Z.

(** A program the kernel enters directly: an executable, statically linked ELF
    file of the architecture. *)
Definition runnable (t : node) (arch : PlatformArch) (p : path) : Prop :=
  exists mode content, get t p = Some (Reg mode content) /\ Z.land mode 0x49 <> 0%Z /\
    elf_header arch content /\ elf_linkage content StaticElf.

(** Files are byte strings of a size that fits [u64]. *)
Definition files_sized (t : node) : Prop :=
  forall p mode content, get t p = Some (Reg mode content) -> wf_bytes content /\ (len content <= U64_MAX)%Z.

(** ** Rules for reading results *)

Section Reads.
Context (t : node) (names : wf_node t) (root_dir : real_dir t []) (sized : files_sized t).

Lemma reads_checked {E A B} (r : result E A) (f : A -> prog (result E B)) (Q : B -> Prop) :
  (forall a, r = Ok a -> reads t (f a) (on_ok Q)) -> reads t (try_bind (Ret r) f) (on_ok Q).
Proof. intros H. apply (reading_try _ _ _ (fun a => r = Ok a)); [|done]. apply reads_ret. by destruct r. Qed.

Lemma canonical_get p q : canonical t p q -> exists n, get t q = Some n /\ forall follow, lookup_node t q follow = Ok (q, n).
Proof. intros [n H]. apply lookup_canonical in H as (H1 & _ & H2); eauto. Qed.

(** Metadata of a canonical path are those of its node. *)
Lemma reads_metadata_canonical p q : canonical t p q ->
  reads t (metadata q) (on_ok (fun md => exists n, get t q = Some n /\ md = metadata_of n)).
Proof.
  intros Hc. eapply reads_weaken; [apply reads_metadata|]. intros [md|] H; [|done].
  destruct H as (q' & n & E & ->). apply canonical_get in Hc as (n' & Eg & El). rewrite El in E.
  exists n. by simplify_eq.
Qed.

Lemma reads_content p q : canonical t p q ->
  reads t (read q) (on_ok (fun b => exists mode, get t q = Some (Reg mode b))).
Proof.
  intros Hc. eapply reads_weaken; [apply reads_read|]. intros [b|] H; [|done].
  destruct H as (q' & mode & E). apply canonical_get in Hc as (n' & Eg & El). rewrite El in E.
  exists mode. by simplify_eq.
Qed.

Lemma executable_metadata q md : is_executable_file md = true ->
  (exists n, get t q = Some n /\ md = metadata_of n) -> executable t q.
Proof.
  unfold is_executable_file. intros H (n & E & ->). bools. destruct n as [mode content| |]; try done.
  exists mode, content. done.
Qed.

(** ** Tools *)

Record tool_ok (location : BundleLocation) (bundle : BundleConfig) (name : bytes) (tool : ResolvedTool) : Prop := {
  to_config : tools bundle !! name = Some (rt_config tool);
  to_roots : exists bundle_root,
    canonical t (location_root location) bundle_root /\
    canonical t (join_path bundle_root (bc_payload_root bundle)) (rt_payload_root tool) /\
    bundle_root `prefix_of` rt_payload_root tool;
  to_target : exists p, canonical t p (rt_target tool);
  to_inside : rt_payload_root tool `prefix_of` rt_target tool;
  to_executable : executable t (rt_target tool);
}.

Lemma reads_tool_canonicalize field p : reads t (tool_canonicalize field p) (on_ok (canonical t p)).
Proof. by apply reads_mapping_err; [apply reads_canonicalize|]. Qed.

Lemma reads_arguments name bundle_root index arguments :
  reads t (resolve_arguments name bundle_root index arguments) (on_ok (fun _ => True)).
Proof.
  revert index. induction arguments as [|[value|p] arguments IH]; intros index; cbn [resolve_arguments]; [done|..].
  - eapply reading_try; [apply IH|]. by intros.
  - apply reads_checked. intros [] _. eapply reading_try; [apply reads_tool_canonicalize|]. intros q _.
    destruct (negb _); [done|]. eapply reading_try; [apply IH|]. by intros.
Qed.

Lemma reads_resolve_tool location bundle name :
  reads t (resolve_tool location bundle name) (on_ok (tool_ok location bundle name)).
Proof.
  unfold resolve_tool. destruct (tools bundle !! name) as [tool|] eqn:Et; [|done].
  apply reads_checked. intros [] _. apply reads_checked. intros [] _.
  eapply reading_try; [apply reads_tool_canonicalize|]. intros bundle_root Hb.
  eapply reading_try; [apply reads_tool_canonicalize|]. intros payload_root Hp.
  unfold path_starts_with. case_bool_decide as Hbp; [|done]. cbn [negb].
  eapply reading_try; [apply reads_tool_canonicalize|]. intros target Ht.
  case_bool_decide as Hpt; [|done]. cbn [negb].
  eapply reading_try; [apply reads_mapping_err; [eapply reads_metadata_canonical; exact Ht|done]|]. intros md Hmd.
  destruct (bool_decide (file_type md = TFile)) eqn:Ef; [|done]. cbn [negb].
  destruct (Z.land (md_mode md) 0x49 =? 0)%Z eqn:Em; [done|].
  eapply reading_try; [apply reads_arguments|]. intros prefix _. apply reads_ret.
  constructor; cbn [rt_config rt_payload_root rt_target]; try done; eauto.
  apply (executable_metadata _ md); [|exact Hmd]. unfold is_executable_file. by rewrite Ef, Em.
Qed.

(** ** Inspection and dispatch *)

Definition format_ok (arch : PlatformArch) (p : path) (format : ExecutableFormat) : Prop :=
  match format with
  | ElfFormat e => exists mode content, get t p = Some (Reg mode content) /\ elf_header arch content /\
      elf_linkage content (linkage e)
  | ScriptFormat s => is_Some (validate_absolute_payload_path (sb_interpreter s))
  end.

Lemma inspected p arch mode content e : get t p = Some (Reg mode content) ->
  inspect_elf_for_arch p (Ok (stable content)) arch = Ok e -> elf_header arch content /\ elf_linkage content (linkage e).
Proof.
  intros Hg He. destruct (sized _ _ _ Hg) as [Hw Hl]. pose proof (inspect_elf_spec p arch content Hw Hl) as H.
  rewrite He in H. tauto.
Qed.

Lemma reads_inspect walk p arch : canonical t walk p -> reads t (inspect p arch) (either (format_ok arch p) (fun e => e <> DispatchPanic)).
Proof.
  intros Hc. apply reads_mapping_err; [|done]. unfold inspect_executable_for_arch.
  eapply reading_try; [apply reads_mapping_err; [eapply reads_content; exact Hc|done]|]. intros content [mode Hg].
  destruct (starts_with _ _).
  - eapply reads_seq; [eapply reads_content; exact Hc|]. intros [b|err] Hb; apply reads_ret; cbv beta iota; [|done].
    destruct Hb as [mode' Hb]. destruct (inspect_elf_for_arch p (Ok (stable b)) arch) as [e|] eqn:E; [|done].
    destruct (inspected _ _ _ _ _ Hb E). cbn. eauto.
  - destruct (starts_with (lit "#!") _); [|done]. apply reads_ret.
    destruct (parse_shebang _) as [s|] eqn:E; [|done]. by apply parse_shebang_interpreter in E.
Qed.

Definition plan_ok (arch : PlatformArch) (payload_root : path) (arguments : list bytes) (plan : ProcessLaunchPlan) : Prop :=
  match plan with
  | DirectPlan program argv0 args =>
      payload_root `prefix_of` program /\ runnable t arch program /\ arguments `suffix_of` args
  | DynamicPlan plan =>
      payload_root `prefix_of` dl_loader plan /\ runnable t arch (dl_loader plan) /\
      arguments `suffix_of` dl_arguments plan /\
      Forall (fun d => payload_root `prefix_of` d /\ real_dir t d) (dl_library_dirs plan)
  end.

Lemma reads_inside field candidate payload_root :
  reads t (resolve_inside_payload field candidate payload_root)
    (on_ok (fun q => canonical t candidate q /\ payload_root `prefix_of` q)).
Proof.
  eapply reading_try; [by apply reads_mapping_err; [apply reads_canonicalize|]|]. intros q Hq.
  unfold path_starts_with. case_bool_decide; cbn [negb]; apply reads_ret; done.
Qed.

Lemma reads_library_dirs bundle_root payload_root index dirs :
  reads t (resolve_library_dirs bundle_root payload_root index dirs)
    (on_ok (Forall (fun d => payload_root `prefix_of` d /\ real_dir t d))).
Proof.
  revert index. induction dirs as [|relative dirs IH]; intros index; cbn [resolve_library_dirs]; [apply reads_ret; constructor|].
  apply reads_checked. intros [] _. eapply reading_try; [apply reads_inside|]. intros d [Hd Hin].
  eapply reads_seq; [apply reads_is_dir_path|]. intros [|] Hdir; cbn [negb]; [|done].
  destruct (bool_decide _); [done|]. eapply reading_try; [apply IH|]. intros rest Hrest. apply reads_ret.
  constructor; [|exact Hrest]. split; [done|]. destruct (Hdir eq_refl) as (q & m & cs & E).
  apply canonical_get in Hd as (n & Eg & El). rewrite El in E. simplify_eq. by exists m, cs.
Qed.

Lemma suffix_cons_l {A} (x : A) l k : l `suffix_of` k -> l `suffix_of` x :: k.
Proof. intros [p ->]. by exists (x :: p). Qed.

Lemma reads_dynamic location bundle payload_root target argv0 interpreter arguments :
  reads t (prepare_dynamic_program location bundle payload_root target argv0 interpreter arguments)
    (on_ok (fun plan => plan_ok (pc_arch (bc_platform bundle)) payload_root arguments (DynamicPlan plan))).
Proof.
  unfold prepare_dynamic_program. destruct (validate_absolute_payload_path interpreter); [|done].
  eapply reading_try; [apply reads_inside|]. intros loader_path [Hc Hin].
  eapply reading_try; [apply reads_mapping_err; [eapply reads_metadata_canonical; exact Hc|done]|]. intros md Hmd.
  destruct (is_executable_file md) eqn:Ee; [|done]. cbn [negb].
  apply (executable_metadata _ _ Ee) in Hmd as (mode & content & Hg & Hm).
  eapply reads_seq; [eapply reads_content; exact Hc|]. intros [b|err] Hb; [|done].
  destruct Hb as [mode' Hb]. assert (mode' = mode /\ b = content) as [-> ->] by (split; congruence).
  apply reads_checked. intros elf He. apply map_err_ok in He.
  destruct (inspected _ _ _ _ _ Hg He) as [Hh Hl]. destruct (linkage elf); [|done].
  destruct (bool_decide _); [done|].
  eapply reading_try; [by apply reads_mapping_err; [apply reads_canonicalize|]|]. intros bundle_root _.
  eapply reading_try; [apply reads_library_dirs|]. intros dirs Hdirs. apply reads_ret. cbn.
  split; [done|]. split; [by exists mode, content|]. split; [|done].
  apply suffix_app_r. by repeat apply suffix_cons_l.
Qed.

Lemma reads_script_interpreter payload_root logical : is_Some (validate_absolute_payload_path logical) ->
  reads t (resolve_script_interpreter payload_root logical)
    (either (fun target => payload_root `prefix_of` target /\ (exists p, canonical t p target) /\ executable t target)
       (fun e => e <> DispatchPanic)).
Proof.
  intros [relative E]. unfold resolve_script_interpreter. rewrite E.
  eapply reading_try; [by apply reads_mapping_err; [apply reads_canonicalize|]|]. intros target Hc.
  unfold path_starts_with. case_bool_decide as Hin; [|done]. cbn [negb].
  eapply reading_try; [apply reads_mapping_err; [eapply reads_metadata_canonical; exact Hc|done]|]. intros md Hmd.
  destruct (is_executable_file md) eqn:Ee; [|done]. apply reads_ret.
  split; [done|]. split; [by eexists|]. by eapply executable_metadata.
Qed.

Lemma reads_prepare_inspected remaining location bundle payload_root target argv0 arguments format :
  payload_root `prefix_of` target -> executable t target -> format_ok (pc_arch (bc_platform bundle)) target format ->
  reads t (prepare_inspected remaining location bundle payload_root target argv0 arguments format)
    (either (plan_ok (pc_arch (bc_platform bundle)) payload_root arguments) (fun e => e <> DispatchPanic)).
Proof.
  revert target argv0 arguments format.
  induction remaining as [|remaining IH]; intros target argv0 arguments [elf|shebang] Hin Hex Hf; cbn [prepare_inspected].
  2: done.
  1,2: destruct Hf as (mode & content & Hg & Hh & Hl); destruct (linkage elf).
  1,3: apply reads_ret; destruct Hex as (mode' & content' & Hg' & Hx);
    split; [done|]; split; [|done]; exists mode, content; split; [done|]; split; [congruence|done].
  1,2: eapply reading_try; [apply reads_mapping_err; [apply reads_dynamic|done]|]; intros plan Hplan; by apply reads_ret.
  eapply reading_try; [by apply reads_script_interpreter|]. intros interpreter (Hi & [p Hp] & Hxi).
  eapply reading_try; [eapply reads_inspect; exact Hp|]. intros format Hformat.
  eapply reads_weaken; [by apply IH|]. intros [plan|e] Hplan; [|done].
  assert (Hs : forall args', (match sb_argument shebang with Some a => [a] | None => [] end ++ path_text target :: arguments)
     `suffix_of` args' -> arguments `suffix_of` args').
  { intros args' Hs. etransitivity; [|exact Hs]. by apply suffix_app_r, suffix_cons_l. }
  destruct plan; cbn in *; naive_solver.
Qed.

Lemma reads_prepare_tool_launch location bundle name tool arguments : tool_ok location bundle name tool ->
  reads t (prepare_tool_launch location bundle tool arguments)
    (either (fun launch => plan_ok (pc_arch (bc_platform bundle)) (rt_payload_root tool) arguments (pl_process launch))
       (fun e => e <> DispatchPanic)).
Proof.
  intros [_ _ [p Hp] Hin Hex]. eapply reading_try; [eapply reads_inspect; exact Hp|]. intros format Hf.
  eapply reading_try; [by apply reads_prepare_inspected|]. intros plan Hplan. apply reads_ret.
  assert (Hs : forall args', (rt_argument_prefix tool ++ arguments) `suffix_of` args' -> arguments `suffix_of` args').
  { intros args' Hs. etransitivity; [|exact Hs]. by apply suffix_app_r. }
  destruct plan; cbn in *; naive_solver.
Qed.

(** ** The environment *)

(** The value the host passes on for a variable: its last one, unless the
    dynamic loader would act on it. *)
Definition host_value (host : list (bytes * bytes)) (name : bytes) : option bytes :=
  if is_loader_sensitive name then None else assoc name (rev host).

Lemma host_environment_value host name : pe_values (host_environment host) !! name = host_value host name.
Proof.
  unfold host_environment, host_value. cbn [pe_values]. rewrite <- fold_left_rev_right.
  induction (rev host) as [|[n v] l IH]; cbn [fold_right assoc]; [by destruct (is_loader_sensitive name)|].
  destruct (is_loader_sensitive n) eqn:En.
  - rewrite IH. destruct (is_loader_sensitive name) eqn:E; [done|].
    destruct (bytes_eqb n name) eqn:Enn; [|done]. bools. congruence.
  - destruct (bytes_eqb n name) eqn:Enn; bools.
    + subst. by rewrite lookup_insert_eq, En.
    + rewrite lookup_insert_ne by done. exact IH.
Qed.

(** Every variable has a trace that starts where its value comes from: a trace
    that starts with the host belongs to a variable the host passes on, and one
    that is only the host leaves it as it was. *)
Definition accounted (host : list (bytes * bytes)) (e : ProcessEnvironment) : Prop :=
  forall name,
    match pe_values e !! name, pe_traces e !! name with
    | None, None => True
    | Some value, Some (from :: rest) =>
        from = HostOrigin -> exists inherited, host_value host name = Some inherited /\ (rest = [] -> value = inherited)
    | _, _ => False
    end.

Lemma accounted_host host : accounted host (host_environment host).
Proof.
  intros name. rewrite host_environment_value. unfold host_environment. cbn [pe_traces]. rewrite lookup_fmap.
  change (fold_left _ host ∅) with (pe_values (host_environment host)). rewrite host_environment_value.
  destruct (host_value host name) as [v|]; [|done]. intros _. by exists v.
Qed.

Lemma accounted_insert host e name value from rest : accounted host e ->
  (from = HostOrigin -> exists inherited, host_value host name = Some inherited /\ (rest = [] -> value = inherited)) ->
  accounted host (mkProcessEnvironment (<[name := value]> (pe_values e)) (<[name := from :: rest]> (pe_traces e))).
Proof.
  intros He Hn n. cbn [pe_values pe_traces]. destruct (decide (n = name)) as [->|Hne].
  - by rewrite !lookup_insert_eq.
  - rewrite !lookup_insert_ne by done. apply He.
Qed.

Lemma accounted_rule host scope name rule configured e : (forall op, scope op <> HostOrigin) ->
  accounted host e -> accounted host (apply_rule scope name rule configured e).
Proof.
  intros Hs He. unfold apply_rule. specialize (Hs (operation rule)) as Hsc.
  assert (Htail : forall v, pe_values e !! name = Some v ->
    exists from rest, pe_traces e !! name = Some (from :: rest) /\
      (from = HostOrigin -> is_Some (host_value host name))).
  { intros v Hv. specialize (He name). rewrite Hv in He. destruct (pe_traces e !! name) as [[|from rest]|]; try done.
    exists from, rest. split; [done|]. intros E. destruct (He E) as (i & -> & _). done. }
  assert (Hboth : forall combined inherited,
    (inherited = None \/ pe_values e !! name = inherited \/ pe_values e !! name = None) ->
    accounted host (mkProcessEnvironment (<[name := combined]> (pe_values e))
      (<[name := match inherited with Some (_ :: _) => default [] (pe_traces e !! name) ++ [scope (operation rule)]
                 | _ => [scope (operation rule)] end]> (pe_traces e)))).
  { intros combined inherited Hi. destruct inherited as [[|b l]|]; [by apply accounted_insert| |by apply accounted_insert].
    destruct Hi as [?|[Hv|Hv]]; [done| |].
    - destruct (Htail _ Hv) as (from & rest & -> & Hf). cbn [default app]. apply accounted_insert; [done|].
      intros E. destruct (Hf E) as [i Hi]. exists i. split; [done|]. by destruct rest.
    - specialize (He name) as Hn. rewrite Hv in Hn. destruct (pe_traces e !! name) as [[|]|] eqn:Et; try done.
      cbn [default app]. by apply accounted_insert. }
  assert (Hinh : forall inh : bool,
    let inherited := if inh then match pe_values e !! name with Some value => Some value | None => host_default_value (host_default rule) end else None in
    inherited = None \/ pe_values e !! name = inherited \/ pe_values e !! name = None).
  { intros []; cbn; [|by left]. destruct (pe_values e !! name); auto. }
  destruct (operation rule).
  - by apply accounted_insert.
  - apply Hboth, Hinh.
  - apply Hboth, Hinh.
  - intros n. cbn [pe_values pe_traces]. destruct (decide (n = name)) as [->|Hne]; [by rewrite !lookup_delete_eq|].
    rewrite !lookup_delete_ne by done. apply He.
  - destruct (pe_values e !! name); [done|]. by apply accounted_insert.
Qed.

Lemma apply_rule_other scope name rule configured e n : n <> name ->
  pe_values (apply_rule scope name rule configured e) !! n = pe_values e !! n.
Proof.
  intros Hn. unfold apply_rule. destruct (operation rule); cbn [pe_values];
    rewrite ?lookup_insert_ne, ?lookup_delete_ne by done; try done.
  destruct (pe_values e !! name); [done|]. cbn [pe_values]. by rewrite lookup_insert_ne.
Qed.

Lemma reads_bundle_values bundle_root variable paths :
  reads t (resolve_bundle_values bundle_root variable paths) (on_ok (fun _ => True)).
Proof.
  induction paths as [|relative paths IH]; cbn [resolve_bundle_values]; [done|].
  apply reads_checked. intros [] _. eapply reading_try; [by apply reads_mapping_err; [apply reads_canonicalize|]|].
  intros q _. destruct (negb _); [done|]. destruct (bool_decide _); [done|].
  eapply reading_try; [apply IH|]. by intros.
Qed.

Lemma reads_apply_rules bundle_root scope rules host e : (forall op, scope op <> HostOrigin) -> accounted host e ->
  reads t (apply_rules bundle_root scope rules e)
    (on_ok (fun e' => accounted host e' /\ forall n, n ∉ map fst rules -> pe_values e' !! n = pe_values e !! n)).
Proof.
  intros Hs. revert e. induction rules as [|[variable rule] rules IH]; intros e He; cbn [apply_rules]; [done|].
  apply reads_checked. intros [] _. eapply (reading_try _ _ _ (fun _ => True)).
  { unfold configured_values. destruct (er_paths rule); [done|]. apply reads_bundle_values. }
  intros configured _. eapply reads_weaken; [apply IH; by apply accounted_rule|]. intros [e'|] H; [|done].
  destruct H as [Ha Hn]. split; [done|]. cbn [map fst]. intros n Hin. apply not_elem_of_cons in Hin as [Hne Hin].
  rewrite Hn by done. by apply apply_rule_other.
Qed.

Lemma btree_entries_keys {A} (m : gmap bytes A) n : n ∈ map fst (btree_entries m) <-> is_Some (m !! n).
Proof.
  change (map fst) with (fmap (M := list) (@fst bytes A)). unfold btree_entries. rewrite sort_by_perm.
  rewrite list_elem_of_fmap. split.
  - intros ([k v] & -> & H). apply elem_of_map_to_list in H. by exists v.
  - intros [v H]. exists (n, v). by rewrite elem_of_map_to_list.
Qed.

Lemma reads_environment location bundle tool host :
  reads t (build_environment location bundle tool host)
    (on_ok (fun e => accounted host e /\
       forall n, bc_environment bundle !! n = None -> tc_environment (rt_config tool) !! n = None ->
         pe_values e !! n = host_value host n)).
Proof.
  eapply reading_try; [by apply reads_mapping_err; [apply reads_canonicalize|]|]. intros bundle_root _.
  eapply reading_try; [apply reads_apply_rules; [done|apply accounted_host]|]. intros common [Hc Hcn].
  eapply reads_weaken; [by apply reads_apply_rules|]. intros [e|] H; [|done]. destruct H as [He Hen].
  split; [done|]. intros n Hb Ht. rewrite Hen, Hcn; [apply host_environment_value|..];
    rewrite btree_entries_keys; [rewrite Hb|rewrite Ht]; by intros [? ?].
Qed.
End Reads.

(** ** The whole launcher *)

Lemma parse_config_kernel toml text config : parse_config toml text = Ok config ->
  exists version, parse_required (min_kernel (bc_platform config)) = Ok version.
Proof.
  unfold parse_config, validate. intros H. inv_res. eauto.
Qed.

Definition PROC_SELF_EXE : path := [lit "proc"; lit "self"; lit "exe"].

(** What a request to execute is for: the bundle the launcher is in, its
    configuration, and the invocation. *)
Record launch_source (t : node) (toml : bytes -> result string BundleConfig) (args : list bytes)
  (location : BundleLocation) (config : BundleConfig) (invocation : Invocation) : Prop := {
  ls_invocation : parse_invocation args = Ok invocation;
  ls_execute : is_diagnose invocation = false;
  ls_location : exists q launcher mtime, lookup_node t PROC_SELF_EXE false = Ok (q, Lnk launcher mtime) /\
    locate_bundle_from_launcher launcher = Ok location;
  ls_config : exists q mode text, lookup_node t (location_config location) true = Ok (q, Reg mode text) /\
    parse_config toml text = Ok config;
}.

(** The program is a runnable file below the payload root, which is below the
    bundle's root. *)
Definition inside_bundle (t : node) (location : BundleLocation) (config : BundleConfig) (program : path) : Prop :=
  exists bundle_root payload_root,
    canonical t (location_root location) bundle_root /\
    canonical t (join_path bundle_root (bc_payload_root config)) payload_root /\
    bundle_root `prefix_of` payload_root /\ payload_root `prefix_of` program /\
    runnable t (pc_arch (bc_platform config)) program.

Definition launch_ok (t : node) toml current uname args host (request : ExecRequest) : Prop :=
  exists location config invocation tool check,
    launch_source t toml args location config invocation /\
    check_host_platform current uname (bc_platform config) = Some (Ok check) /\ is_compatible check = true /\
    tools config !! invocation_tool invocation = Some tool /\
    inside_bundle t location config (ex_program request) /\
    invocation_args invocation `suffix_of` ex_argv request /\
    forall name value, (name, value) ∈ ex_env request ->
      is_Some (bc_environment config !! name) \/ is_Some (tc_environment tool !! name) \/
      host_value host name = Some value.

Lemma reads_or_exit {E A} t text (m : prog (result E A)) k (P : A -> Prop) (Q : Outcome -> Prop) :
  reads t m (on_ok P) -> (forall message, Q (ExitError message)) -> (forall a, P a -> reads t (k a) Q) ->
  reads t (or_exit text m k) Q.
Proof. intros Hm He Hk. eapply reads_seq; [exact Hm|]. intros [a|e] Ha; [by apply Hk|apply He]. Qed.

Lemma reads_or_exit_ret {E A} t text (r : result E A) k (Q : Outcome -> Prop) :
  (forall message, Q (ExitError message)) -> (forall a, r = Ok a -> reads t (k a) Q) ->
  reads t (or_exit text (Ret r) k) Q.
Proof. intros He Hk. apply (reads_or_exit _ _ _ _ (fun a => r = Ok a)); [|done|done]. apply reads_ret. by destruct r. Qed.

Lemma exec_env launch e name value : (name, value) ∈ ex_env (exec_prepared launch e) -> pe_values e !! name = Some value.
Proof.
  assert (Hb : (name, value) ∈ btree_entries (pe_values e) -> pe_values e !! name = Some value).
  { unfold btree_entries. rewrite sort_by_perm. apply elem_of_map_to_list. }
  unfold exec_prepared. by destruct (pl_process launch).
Qed.

Lemma reads_launcher t toml current uname args host : wf_node t -> real_dir t [] -> files_sized t ->
  reads t (launcher_main toml current uname args host) (fun outcome =>
    match outcome with
    | Panicked => False
    | Executed request => launch_ok t toml current uname args host request
    | _ => True
    end).
Proof.
  intros Hwf Hroot Hsized. unfold launcher_main.
  apply reads_or_exit_ret; [done|]. intros invocation Hinv.
  eapply reads_or_exit; [by apply reads_mapping_err; [apply reads_read_link|]|done|]. intros launcher (q & mtime & Hexe).
  apply reads_or_exit_ret; [done|]. intros location Hloc.
  eapply (reads_or_exit _ _ _ _ (fun config => exists q mode text,
    lookup_node t (location_config location) true = Ok (q, Reg mode text) /\ parse_config toml text = Ok config)); [|done|].
  { eapply reading_try; [by apply reads_mapping_err; [apply reads_read|]|]. intros text (q' & mode & Hl). apply reads_ret.
    destruct (is_utf8 text); [|done]. destruct (parse_config toml text) eqn:E; [|done]. cbn. eauto 6. }
  intros config (q' & mode & text & Hcfg & Hparse).
  destruct (check_host_platform current uname (bc_platform config)) as [checked|] eqn:Hcheck.
  2: { apply parse_config_kernel in Hparse as [v Hv]. unfold check_host_platform in Hcheck. rewrite Hv in Hcheck.
       repeat case_match; done. }
  apply reads_or_exit_ret; [done|]. intros check ->.
  destruct (negb (is_diagnose invocation) && negb (is_compatible check)) eqn:Ec; [done|].
  eapply reads_or_exit; [by apply reads_resolve_tool|done|]. intros tool Htool.
  eapply reads_or_exit; [apply reads_environment|done|]. intros environment [_ Henv].
  eapply reads_seq; [by eapply reads_prepare_tool_launch|]. intros [launch|e] Hlaunch.
  2: { by destruct e. }
  destruct (diagnostic_output invocation) as [[]|] eqn:Ed; [done..|]. apply reads_ret.
  assert (Hd : is_diagnose invocation = false) by (by destruct invocation).
  rewrite Hd in Ec. cbn in Ec. bools.
  destruct Htool as [Htc (bundle_root & Hb & Hp & Hbp) _ _ _].
  exists location, config, invocation, (rt_config tool), check.
  split; [by constructor; eauto 8|]. split; [done|]. split; [done|]. split; [done|].
  assert (Hprog : rt_payload_root tool `prefix_of` ex_program (exec_prepared launch environment) /\
    runnable t (pc_arch (bc_platform config)) (ex_program (exec_prepared launch environment)) /\
    invocation_args invocation `suffix_of` ex_argv (exec_prepared launch environment)).
  { cbn in Hlaunch. unfold exec_prepared. destruct (pl_process launch); cbn in *; naive_solver eauto using suffix_cons_l. }
  destruct Hprog as (H1 & H2 & H3). split; [by exists bundle_root, (rt_payload_root tool)|]. split; [done|].
  intros name value Hin. apply exec_env in Hin.
  destruct (bc_environment config !! name) eqn:E1; [by left|]. destruct (tc_environment (rt_config tool) !! name) eqn:E2; [by right; left|].
  right. right. by rewrite <- Henv.
Qed.

(** C7. The launcher runs nothing but its bundle: on any tree, whatever calls
    fail, it does not panic and changes nothing, and when it executes a
    program, that is an executable, statically linked ELF file of the bundle's
    architecture (the tool, a script's interpreter, or the bundled loader)
    whose canonical path lies below the canonical payload root, itself below
    the root of the bundle the launcher is in; the host satisfies the bundle's
    requirements, the caller's arguments come last, and every variable of the
    environment without a rule is inherited and not one the dynamic loader
    acts on. *)
Theorem launch_confined toml current uname args host who es w :
  wf_node (tree w) -> real_dir (tree w) [] -> files_sized (tree w) ->
  let '(outcome, w') := run who es (launcher_main toml current uname args host) w in
  w' = w /\
  match outcome with
  | Panicked => False
  | Executed request => launch_ok (tree w) toml current uname args host request
  | _ => True
  end.
Proof.
  intros Hwf Hroot Hsized.
  destruct (reads_run (tree w) _ _ who es w (reads_launcher (tree w) toml current uname args host Hwf Hroot Hsized) eq_refl)
    as [H1 H2].
  destruct (run who es _ w) as [outcome w']. split; [exact H2|exact H1].
Qed.

(** The environment is accounted for: in the environment that
    [build_environment] returns every variable has a non-empty trace of what
    made it, a trace that starts with the host belongs to a variable that the
    host passes on (never one the dynamic loader acts on), and a variable
    whose only origin is the host has the host's value. *)
Theorem environment_accounted location bundle tool host who es w e :
  (run who es (build_environment location bundle tool host) w).1 = Ok e -> accounted host e.
Proof.
  intros H. destruct (reads_run (tree w) _ _ who es w (reads_environment (tree w) location bundle tool host) eq_refl)
    as [Hr _].
  rewrite H in Hr. apply Hr.
Qed.
