(* ===== verification/SandboxProtocol.v ===== *)
(** * The protocol between the sandbox and its launcher

    [bobr-sandbox-launcher/src/protocol.rs]: configurations, validation of mount
    targets, the stream of step events as length-prefixed frames with its
    incremental decoder, and failure reports.  The JSON
    text of an event is [serde_json]'s. *)

From S2P Require Import Prelude Errors Text Posix Elf.

Definition SANDBOX_PROTOCOL_VERSION : Z := 7.
Definition MAX_EVENT_FRAME_LEN : Z := 64 * 1024.
Definition SANDBOX_LAUNCHER_BINARY_NAME : bytes := lit "bobr-sandbox-launcher".

Definition CONTAINER_BUILD_DIR : bytes := lit "/__bobr/build".
Definition CONTAINER_CONFIG_DIR : bytes := lit "/__bobr/config".
Definition CONTAINER_INPUTS_DIR : bytes := lit "/__bobr/inputs".
Definition CONTAINER_LOG_DIR : bytes := lit "/__bobr/logs".
Definition CONTAINER_OUT_DIR : bytes := lit "/__bobr/out".
Definition CONTAINER_LAUNCHER_DIR : bytes := lit "/__bobr/launcher".
Definition CONTAINER_RUNTIME_DIR : bytes := lit "/__bobr/runtime".
Definition CONTAINER_RUNNER_CONFIG : bytes := lit "/__bobr/runtime/runner-config.json".
Definition CONTAINER_FAILURE_REPORT : bytes := lit "/__bobr/runtime/sandbox-failure.json".

(** ** Configurations *)

Inductive RunnerRunAs := BuildUser | Root.

#[export] Instance RunnerRunAs_eq_dec : EqDecision RunnerRunAs.
Proof. solve_decision. Defined.

Definition run_as_str (run_as : RunnerRunAs) : string :=
  match run_as with BuildUser => "build-user" | Root => "root" end.

Record RunnerStepConfig := mkRunnerStepConfig {
  rs_name : bytes;
  rs_run_as : RunnerRunAs;
  rs_cwd : bytes;
  rs_argv : list bytes;
  rs_env : gmap bytes bytes;
  rs_umask : Z;
  rs_stdout_path : bytes;
  rs_stderr_path : bytes;
  rs_report_stdout_path : bytes;
  rs_report_stderr_path : bytes;
}.

Record RunnerConfig := mkRunnerConfig {
  rc_protocol_version : Z;
  rc_prepare_paths : list bytes;
  rc_steps : list RunnerStepConfig;
  rc_failure_report : bytes;
}.

Inductive SandboxLauncherMountKind := Bind | Proc | Tmpfs.

Record SandboxLauncherMount := mkSandboxLauncherMount {
  sm_kind : SandboxLauncherMountKind;
  sm_source : option bytes;
  sm_target : bytes;
  sm_readonly : bool;
  sm_options : list bytes;
}.

Record SandboxRootOverlay := mkSandboxRootOverlay { so_lower : bytes; so_upper : bytes; so_work : bytes }.

Record SandboxLauncherConfig := mkSandboxLauncherConfig {
  sl_protocol_version : Z;
  sl_root : bytes;
  sl_mounts : list SandboxLauncherMount;
  sl_runner_config : bytes;
  sl_failure_report : bytes;
  sl_root_overlay : option SandboxRootOverlay;
}.

(** ** Mount targets *)

(** [relative_launcher_target]: the names below the sandbox root. *)
Definition dotted (segment : bytes) : bool := bytes_eqb segment [46]%Z || bytes_eqb segment [46; 46]%Z.

Definition relative_launcher_target (target : bytes) : result string path :=
  let bad reason := Err ("mount target '" +:+ show target +:+ "' " +:+ reason) in
  if negb (is_absolute target) then bad "must be absolute"
  else if existsb dotted (split_on 47 target) then bad "must not contain '.' or '..' components"
  else
    relative <- try_fold (fun (relative : path) component =>
      match component with
      | RootDir => Ok relative
      | Normal segment => Ok (relative ++ [segment])
      | CurDir | ParentDir => bad "must not contain '.' or '..' components"
      end) [] (components target) ;;
    if bool_decide (relative = []) then Err "mount target must not be '/'" else Ok relative.

(** The loop of [validate_launcher_config]; [targets] are those seen. *)
Definition validate_mount (targets : list path) (mount : SandboxLauncherMount) : result string (list path) :=
  relative <- relative_launcher_target (sm_target mount) ;;
  if bool_decide (relative ∈ targets)
  then Err ("mount target '" +:+ show (sm_target mount) +:+ "' is defined more than once")
  else Ok (relative :: targets).

Definition validate_launcher_config (config : SandboxLauncherConfig) : result string unit :=
  try_fold validate_mount [] (sl_mounts config) ;;;
  relative_launcher_target (sl_runner_config config) ;;;
  Ok tt.

(** [path_cstring]. *)
Definition path_cstring (p : bytes) : result string bytes :=
  if bool_decide (0%Z ∈ p) then Err ("path contains NUL byte: '" +:+ show p +:+ "'") else Ok (p ++ [0]%Z).

(** ** Events *)

Inductive SandboxEvent :=
| StepStarted (index total : Z) (name : bytes) (run_as : RunnerRunAs)
| StepFinished (index total : Z) (name : bytes) (run_as : RunnerRunAs) (duration_ms : Z)
    (stdout_path stderr_path : bytes)
| StepFailed (index total : Z) (name : bytes) (run_as : RunnerRunAs) (duration_ms : Z)
    (exit_code signal : option Z) (stdout_path stderr_path : bytes).

(** [serde_json] on events: it writes bytes and reads back what it writes. *)
Class EventJson := {
  event_to_vec : SandboxEvent -> result string bytes;
  event_from_slice : bytes -> result string SandboxEvent;
}.
Class EventJsonLaw `{EventJson} : Prop :=
  event_json_law event b : event_to_vec event = Ok b -> wf_bytes b /\ event_from_slice b = Ok event.

Section Events.
Context `{EventJson}.

(** The bytes [write_sandbox_event] writes. *)
Definition event_frame (event : SandboxEvent) : result string bytes :=
  payload <- event_to_vec event ;;
  if (MAX_EVENT_FRAME_LEN <? len payload)%Z
  then Err ("sandbox event frame length " +:+ show_z (len payload) +:+ " exceeds limit 65536")
  else if (2 ^ 32 <=? len payload)%Z then Err "sandbox event is too large"
  else Ok (be_bytes 4 (len payload) ++ payload).

(** [SandboxEventDecoder]: the bytes not yet decoded. *)
Definition push (decoder chunk : bytes) : bytes := decoder ++ chunk.

Definition next_event (decoder : bytes) : result string (option (SandboxEvent * bytes)) :=
  if (len decoder <? 4)%Z then Ok None
  else
    let length := from_be_bytes (take 4 decoder) in
    if (MAX_EVENT_FRAME_LEN <? length)%Z
    then Err ("sandbox event frame length " +:+ show_z length +:+ " exceeds limit 65536")
    else
      let frame_len := (4 + length)%Z in
      if (len decoder <? frame_len)%Z then Ok None
      else
        event <- map_err (fun e => "invalid sandbox event: " +:+ e)
                   (event_from_slice (slice decoder 4 (Z.to_nat frame_len))) ;;
        Ok (Some (event, drop (Z.to_nat frame_len) decoder)).

(** [while let Some(event) = decoder.next_event()?]: every round takes a frame
    of at least four bytes. *)
Fixpoint decode_events (fuel : nat) (decoder : bytes) : result string (list SandboxEvent * bytes) :=
  match fuel with
  | O => Ok ([], decoder)
  | S fuel' =>
      next <- next_event decoder ;;
      match next with
      | None => Ok ([], decoder)
      | Some (event, rest) =>
          let* (events, decoder') := decode_events fuel' rest in Ok (event :: events, decoder')
      end
  end.
Definition drain (decoder : bytes) : result string (list SandboxEvent * bytes) :=
  decode_events (S (length decoder)) decoder.

(** [finish]. *)
Definition finish (decoder : bytes) : result string unit :=
  if bool_decide (decoder = []) then Ok tt else Err "sandbox event pipe closed with a partial frame".

(** A reader that pushes chunk after chunk and drains the decoder after each. *)
Fixpoint receive (decoder : bytes) (chunks : list bytes) : result string (list SandboxEvent * bytes) :=
  match chunks with
  | [] => Ok ([], decoder)
  | chunk :: chunks' =>
      let* (events, decoder') := drain (push decoder chunk) in
      let* (more, last) := receive decoder' chunks' in
      Ok (events ++ more, last)
  end.
End Events.

(** ** Failure reports *)

Record SandboxRunnerFailureReport := mkFailureReport {
  fr_label : bytes;
  fr_message : string;
  fr_exit_code : option Z;
  fr_signal : option Z;
  fr_duration_ms : option Z;
  fr_stdout_path : option bytes;
  fr_stderr_path : option bytes;
}.

(** [SandboxRunnerFailureReport::runtime]. *)
Definition report_runtime (label : string) (message : string) : SandboxRunnerFailureReport :=
  mkFailureReport (lit label) message None None None None None.

(** Signed decimal. *)
Definition show_i32 (n : Z) : string := if (n <? 0)%Z then "-" +:+ show_z (- n) else show_z n.

Definition to_error_message (r : SandboxRunnerFailureReport) : string :=
  let opt {A} (f : A -> string) (o : option A) := match o with Some a => f a | None => EmptyString end in
  show (fr_label r) +:+ ": " +:+ fr_message r
  +:+ opt (fun code => "; exit_status=" +:+ show_i32 code) (fr_exit_code r)
  +:+ opt (fun signal => "; signal=" +:+ show_i32 signal) (fr_signal r)
  +:+ opt (fun ms => "; duration_ms=" +:+ show_z ms) (fr_duration_ms r)
  +:+ opt (fun p => "; stdout=" +:+ show p) (fr_stdout_path r)
  +:+ opt (fun p => "; stderr=" +:+ show p) (fr_stderr_path r).
