(* ===== verification/SandboxKernel.v ===== *)
(** * The kernel calls of the sandbox processes

    What [nix], [libc], [std::fs] and [std::process] give the sandbox launcher
    and its runner, as programs over calls of the kernel ([sys]).  Nothing is
    assumed of the answers: every call may fail in every way.  What a call that
    succeeded changes of the process that made it ([after]) is what the manual
    pages document: namespaces, mounts, the root directory, capabilities,
    credentials and the descriptors an [execve] leaves open.  [fork] answers
    twice, so that the runs of a program are those of every process it becomes. *)

From S2P Require Import Prelude Errors Elf SandboxProtocol.

(** ** Errors *)

(** [io::Error]: the number of the operating system (zero for an error of the
    program), from which its kind comes, and its text. *)
Record SysError := mkSysError { se_errno : Z; se_text : string }.

Definition EPERM : Z := 1.
Definition ESRCH : Z := 3.
Definition EINTR : Z := 4.
Definition ECHILD : Z := 10.
Definition EAGAIN : Z := 11.
Definition EACCES : Z := 13.
Definition ENOTDIR : Z := 20.
Definition ELOOP : Z := 40.

Definition interrupted (e : SysError) : bool := (se_errno e =? EINTR)%Z.
Definition would_block (e : SysError) : bool := (se_errno e =? EAGAIN)%Z.
Definition kind_permission_denied (e : SysError) : bool :=
  (se_errno e =? EPERM)%Z || (se_errno e =? EACCES)%Z.

Definition other (text : string) : SysError := mkSysError 0 text.

(** ** Calls *)

Inductive Namespace := NEWNS | NEWNET | NEWUTS | NEWIPC | NEWPID.

#[export] Instance Namespace_eq_dec : EqDecision Namespace.
Proof. solve_decision. Defined.

(** The bits of [MsFlags] in use. *)
Definition MS_RDONLY : Z := 1.
Definition MS_NOSUID : Z := 2.
Definition MS_NODEV : Z := 4.
Definition MS_NOEXEC : Z := 8.
Definition MS_REMOUNT : Z := 32.
Definition MS_BIND : Z := 4096.
Definition MS_REC : Z := 16384.
Definition MS_PRIVATE : Z := 262144.

(** The arguments of [mount(2)]. *)
Record MountCall := mkMountCall {
  mc_source : option bytes;
  mc_target : bytes;
  mc_fstype : option bytes;
  mc_flags : Z;
  mc_data : option bytes;
}.

#[export] Instance MountCall_eq_dec : EqDecision MountCall.
Proof. solve_decision. Defined.

Record CapData := mkCapData { cap_effective : Z; cap_permitted : Z; cap_inheritable : Z }.

#[export] Instance CapData_eq_dec : EqDecision CapData.
Proof. solve_decision. Defined.

(** [std::process::Command] as the program builds it: what [execve] gets, the
    directory to change to, and the descriptors for the output.  An environment
    or a directory that is not given is that of the parent; no descriptor is the
    null device, which is the input of every command. *)
Record Command := mkCommand {
  cmd_program : bytes;
  cmd_args : list bytes;
  cmd_env : option (gmap bytes bytes);
  cmd_cwd : option bytes;
  cmd_stdout : option Z;
  cmd_stderr : option Z;
}.

(** What [fstat] tells of a descriptor. *)
Record FileStatus := mkFileStatus { fs_is_fifo : bool; fs_uid : Z; fs_mode : Z }.

(** The options of [prctl(2)] in use. *)
Inductive Prctl := PdeathsigKill | NoNewPrivs | CapbsetDrop (cap : Z).

(** [WaitStatus] of [nix]. *)
Inductive WaitStatus := WExited (code : Z) | WSignaled (signal : Z) | WStillAlive | WOther.

(** What [fork] is for the process that returns from it. *)
Inductive ForkSide := InChild | InParent (child : Z).

Inductive Call :=
| CReadFile (p : bytes)
| CCreateFile (p : bytes)
| CCreateDirAll (p : bytes)
| CIsDir (p : bytes) (follow : bool)
| CRead (fd : Z)
| CWrite (fd : Z) (content : bytes)
| CWriteOnce (fd : Z) (content : bytes)
| CClose (fd : Z)
| CDup (fd : Z)
| CGetFd (fd : Z)
| CSetFd (fd : Z) (flags : Z)
| CUnshare (ns : Namespace)
| CSocket
| CGetIfFlags (sock : Z) (name : bytes)
| CSetIfFlags (sock : Z) (name : bytes) (flags : Z)
| CSetHostname (name : bytes)
| CMount (m : MountCall)
| CFork
| CPrctl (p : Prctl)
| CCapset (data : list CapData)
| CChroot (p : bytes)
| CChdir (p : bytes)
| CWaitPid (child : Z)
| CWaitAny
| CWaitChild (child : Z)
| CReadExecStatus (child : Z)
| CKillAll (signal : Z)
| CUmask (mask : Z)
| CSetgroups
| CSetgid (gid : Z)
| CSetuid (uid : Z)
| CFchownat (dir : option Z) (name : bytes) (uid gid : Z)
| COpenDir (dir : option Z) (name : bytes)
| CReadDir (dir : Z)
| COpenFifo (p : bytes)
| CFstat (fd : Z)
| CGeteuid
| CGetpid
| CGetppid
| CPipe
| CDupFrom (fd minimum : Z)
| CDup2 (fd target : Z)
| CSetNonblocking (fd : Z)
| CReadSome (fd : Z)
| CReadErrors (fd : Z)
| CReadToEnd (fd : Z)
| CTryWait (child : Z)
| CKill (child : Z)
| CPoll (cancellation stderr events : Z)
| CEmit (event : SandboxEvent)
| CNow
| CEprintln (text : string)
| CExecve (command : Command)
| CExit (code : Z).

(** [CRead] is of one byte and answers how many were read; [CWrite] is
    [write_all], a failure of which leaves a prefix written, and [CWriteOnce] one
    [write(2)]; [CGetFd] and
    [CGetIfFlags] answer flags; [CIsDir] is of [metadata] or
    [symlink_metadata]; [CReadDir] answers each entry of the directory;
    [CReadExecStatus] is what [Command::spawn] hears from the new process;
    [CReadSome] and [CReadErrors] read at most 8192 bytes, of the events and of the
    error output; [CSetNonblocking] is the pair of
    [fcntl] calls; [CPoll] answers the events of the first descriptor; [CEmit] is
    the callback of the caller. *)
Definition Answer (c : Call) : Type :=
  match c with
  | CReadFile _ => result SysError bytes
  | CCreateFile _ | CDup _ | CSocket | COpenDir _ _ => result SysError Z
  | CIsDir _ _ => result SysError bool
  | CRead _ | CWriteOnce _ _ | CGetFd _ | CGetIfFlags _ _ => result SysError Z
  | CWrite _ _ => result (SysError * nat) unit
  | CFork => result SysError ForkSide
  | CWaitPid _ | CWaitAny => result SysError WaitStatus
  | CWaitChild _ => result SysError Z
  | CReadDir _ => list (result SysError bytes)
  | COpenFifo _ | CDupFrom _ _ => result SysError Z
  | CFstat _ => result SysError FileStatus
  | CGeteuid | CGetpid | CGetppid | CNow => Z
  | CPipe => result SysError (Z * Z)
  | CReadSome _ | CReadErrors _ | CReadToEnd _ => result SysError bytes
  | CTryWait _ => result SysError (option Z)
  | CPoll _ _ _ => result SysError Z
  | CEmit _ => result string unit
  | CClose _ | CKillAll _ | CUmask _ | CEprintln _ => unit
  | CExecve _ => SysError
  | CExit _ => Empty_set
  | CCreateDirAll _ | CSetFd _ _ | CUnshare _ | CSetIfFlags _ _ _ | CSetHostname _ | CMount _ | CPrctl _
  | CCapset _ | CChroot _ | CChdir _ | CReadExecStatus _ | CDup2 _ _ | CSetNonblocking _ | CKill _ | CSetgroups | CSetgid _ | CSetuid _ | CFchownat _ _ _ _ => result SysError unit
  end.

(** ** Programs

    [SSpin] is a loop that is still running when its fuel is used up. *)

Inductive sys (A : Type) : Type :=
| SRet (a : A)
| SCall (c : Call) (k : Answer c -> sys A)
| SSpin.
Arguments SRet {A} a.
Arguments SCall {A} c k.
Arguments SSpin {A}.

Fixpoint sbind {A B : Type} (m : sys A) (f : A -> sys B) : sys B :=
  match m with
  | SRet a => f a
  | SCall c k => SCall c (fun r => sbind (k r) f)
  | SSpin => SSpin
  end.

Definition scall (c : Call) : sys (Answer c) := SCall c SRet.

(** [?], [map_err(..)?] and the end of a process. *)
Definition stry {E A B : Type} (m : sys (result E A)) (f : A -> sys (result E B)) : sys (result E B) :=
  sbind m (fun r => match r with Ok a => f a | Err e => SRet (Err e) end).
Definition serr {E F A : Type} (g : E -> F) (m : sys (result E A)) : sys (result F A) :=
  sbind m (fun r => SRet (map_err g r)).
Definition sexit {A : Type} (code : Z) : sys A := SCall (CExit code) (fun e : Empty_set => match e with end).

Declare Scope sys_scope.
Delimit Scope sys_scope with sys.
Notation "'do' x ':=' m 'in' k" := (sbind m (fun x => k))
  (at level 200, x name, m at level 100, k at level 200, right associativity) : sys_scope.
Notation "'let?' x ':=' m 'in' k" := (stry m (fun x => k))
  (at level 200, x name, m at level 100, k at level 200, right associativity) : sys_scope.
Notation "m '?;' k" := (stry m (fun _ => k))
  (at level 199, right associativity) : sys_scope.

Fixpoint stry_each {E A : Type} (f : A -> sys (result E unit)) (l : list A) : sys (result E unit) :=
  match l with
  | [] => SRet (Ok tt)
  | x :: l' => stry (f x) (fun _ => stry_each f l')
  end.
Fixpoint stry_map {E A B : Type} (f : A -> sys (result E B)) (l : list A) : sys (result E (list B)) :=
  match l with
  | [] => SRet (Ok [])
  | x :: l' => stry (f x) (fun y => stry (stry_map f l') (fun ys => SRet (Ok (y :: ys))))
  end.

(** ** Processes *)

(** What a process has to do with its children and its caller: children not
    waited for yet, those for which waiting failed, those that were killed, the
    status last heard of; the chunks of events it has read; the events handed to
    its caller. *)
Record Dealings := mkDealings {
  d_unreaped : list Z;
  d_abandoned : list Z;
  d_killed : list Z;
  d_status : option Z;
  d_chunks : list bytes;
  d_emitted : list SandboxEvent;
}.
Definition no_dealings : Dealings := mkDealings [] [] [] None [] [].

Definition add_child (c : Z) (d : Dealings) : Dealings :=
  mkDealings (c :: d_unreaped d) (d_abandoned d) (d_killed d) (d_status d) (d_chunks d) (d_emitted d).
Definition reap_child (c : Z) (d : Dealings) : Dealings :=
  mkDealings (List.filter (fun x => negb (x =? c)%Z) (d_unreaped d)) (d_abandoned d) (d_killed d) (d_status d) (d_chunks d) (d_emitted d).
Definition abandon_child (c : Z) (d : Dealings) : Dealings :=
  mkDealings (List.filter (fun x => negb (x =? c)%Z) (d_unreaped d)) (c :: d_abandoned d) (d_killed d) (d_status d) (d_chunks d) (d_emitted d).
Definition kill_child (c : Z) (d : Dealings) : Dealings :=
  mkDealings (d_unreaped d) (d_abandoned d) (c :: d_killed d) (d_status d) (d_chunks d) (d_emitted d).
Definition add_chunk (b : bytes) (d : Dealings) : Dealings :=
  mkDealings (d_unreaped d) (d_abandoned d) (d_killed d) (d_status d) (d_chunks d ++ [b]) (d_emitted d).
Definition set_status (status : Z) (d : Dealings) : Dealings :=
  mkDealings (d_unreaped d) (d_abandoned d) (d_killed d) (Some status) (d_chunks d) (d_emitted d).
Definition add_emitted (e : SandboxEvent) (d : Dealings) : Dealings :=
  mkDealings (d_unreaped d) (d_abandoned d) (d_killed d) (d_status d) (d_chunks d) (d_emitted d ++ [e]).

Record Process := mkProcess {
  p_namespaces : list Namespace;
  p_in_pid_namespace : bool;
  p_private : bool;
  p_mounts : list MountCall;
  p_hostname : option bytes;
  p_no_new_privs : bool;
  p_root : option bytes;
  p_cwd : option bytes;
  p_caps : option (list CapData);
  p_uid : Z;
  p_gid : Z;
  p_umask : option Z;
  p_inherited : gset Z;
  p_files : list (bytes * bytes);
  p_streams : list (Z * bytes * bool);
  p_dealings : Dealings;
}.
(** [p_namespaces]: the namespaces it has left its own for; [p_private]: no
    mount propagates to other namespaces; [p_mounts]: the mounts it has made, in
    order; [p_root], [p_cwd]: of the last [chroot] and of a [chdir] since;
    [p_caps]: as last set ([None]: those it started with); [p_inherited]: open
    descriptors without [FD_CLOEXEC]; [p_files]: contents it has read;
    [p_streams]: what it has written to which descriptor, and whether all of it
    was written.  [Command::spawn] waits for a child whose [execve] failed. *)

Definition set_namespace (ns : Namespace) (s : Process) : Process :=
  mkProcess (ns :: p_namespaces s) (p_in_pid_namespace s) (p_private s) (p_mounts s) (p_hostname s)
    (p_no_new_privs s) (p_root s) (p_cwd s) (p_caps s) (p_uid s) (p_gid s) (p_umask s) (p_inherited s)
    (p_files s) (p_streams s) (p_dealings s).
Definition set_child_of_fork (s : Process) : Process :=
  mkProcess (p_namespaces s) (p_in_pid_namespace s || bool_decide (NEWPID ∈ p_namespaces s)) (p_private s)
    (p_mounts s) (p_hostname s) (p_no_new_privs s) (p_root s) (p_cwd s) (p_caps s) (p_uid s) (p_gid s)
    (p_umask s) (p_inherited s) (p_files s) (p_streams s) (p_dealings s).
Definition set_mounts (private : bool) (mounts : list MountCall) (s : Process) : Process :=
  mkProcess (p_namespaces s) (p_in_pid_namespace s) private mounts (p_hostname s) (p_no_new_privs s)
    (p_root s) (p_cwd s) (p_caps s) (p_uid s) (p_gid s) (p_umask s) (p_inherited s) (p_files s) (p_streams s) (p_dealings s).
Definition set_hostname_of (name : bytes) (s : Process) : Process :=
  mkProcess (p_namespaces s) (p_in_pid_namespace s) (p_private s) (p_mounts s) (Some name) (p_no_new_privs s)
    (p_root s) (p_cwd s) (p_caps s) (p_uid s) (p_gid s) (p_umask s) (p_inherited s) (p_files s) (p_streams s) (p_dealings s).
Definition set_nnp (s : Process) : Process :=
  mkProcess (p_namespaces s) (p_in_pid_namespace s) (p_private s) (p_mounts s) (p_hostname s) true (p_root s)
    (p_cwd s) (p_caps s) (p_uid s) (p_gid s) (p_umask s) (p_inherited s) (p_files s) (p_streams s) (p_dealings s).
Definition set_root (root cwd : option bytes) (s : Process) : Process :=
  mkProcess (p_namespaces s) (p_in_pid_namespace s) (p_private s) (p_mounts s) (p_hostname s)
    (p_no_new_privs s) root cwd (p_caps s) (p_uid s) (p_gid s) (p_umask s) (p_inherited s) (p_files s)
    (p_streams s) (p_dealings s).
Definition set_caps (caps : option (list CapData)) (s : Process) : Process :=
  mkProcess (p_namespaces s) (p_in_pid_namespace s) (p_private s) (p_mounts s) (p_hostname s)
    (p_no_new_privs s) (p_root s) (p_cwd s) caps (p_uid s) (p_gid s) (p_umask s) (p_inherited s)
    (p_files s) (p_streams s) (p_dealings s).
Definition set_ids (uid gid : Z) (umask : option Z) (s : Process) : Process :=
  mkProcess (p_namespaces s) (p_in_pid_namespace s) (p_private s) (p_mounts s) (p_hostname s)
    (p_no_new_privs s) (p_root s) (p_cwd s) (p_caps s) uid gid umask (p_inherited s) (p_files s)
    (p_streams s) (p_dealings s).
Definition set_inherited (fds : gset Z) (s : Process) : Process :=
  mkProcess (p_namespaces s) (p_in_pid_namespace s) (p_private s) (p_mounts s) (p_hostname s)
    (p_no_new_privs s) (p_root s) (p_cwd s) (p_caps s) (p_uid s) (p_gid s) (p_umask s) fds (p_files s)
    (p_streams s) (p_dealings s).
Definition add_file (p content : bytes) (s : Process) : Process :=
  mkProcess (p_namespaces s) (p_in_pid_namespace s) (p_private s) (p_mounts s) (p_hostname s)
    (p_no_new_privs s) (p_root s) (p_cwd s) (p_caps s) (p_uid s) (p_gid s) (p_umask s) (p_inherited s)
    ((p, content) :: p_files s) (p_streams s) (p_dealings s).
Definition add_stream (fd : Z) (content : bytes) (complete : bool) (s : Process) : Process :=
  mkProcess (p_namespaces s) (p_in_pid_namespace s) (p_private s) (p_mounts s) (p_hostname s)
    (p_no_new_privs s) (p_root s) (p_cwd s) (p_caps s) (p_uid s) (p_gid s) (p_umask s) (p_inherited s)
    (p_files s) (p_streams s ++ [(fd, content, complete)]) (p_dealings s).

Definition deal (f : Dealings -> Dealings) (s : Process) : Process :=
  mkProcess (p_namespaces s) (p_in_pid_namespace s) (p_private s) (p_mounts s) (p_hostname s)
    (p_no_new_privs s) (p_root s) (p_cwd s) (p_caps s) (p_uid s) (p_gid s) (p_umask s) (p_inherited s)
    (p_files s) (p_streams s) (f (p_dealings s)).

(** The mount call that stops the propagation of mounts, as [mount_private] makes it. *)
Definition make_private : MountCall := mkMountCall None (lit "/") None (Z.lor MS_REC MS_PRIVATE) None.

Definition FD_CLOEXEC : Z := 1.

(** [setuid(2)] from the superuser to another user clears the capabilities. *)
Definition caps_of_setuid (old new : Z) (caps : option (list CapData)) : option (list CapData) :=
  if (old =? 0)%Z && negb (new =? 0)%Z
  then option_map (map (fun c => mkCapData 0 0 (cap_inheritable c))) caps else caps.

Definition on_success {E A : Type} (r : result E A) (f : Process -> Process) (s : Process) : Process :=
  match r with Ok _ => f s | Err _ => s end.

(** What a call does to the process that made it, by its answer.  [std] opens
    with [O_CLOEXEC]; a descriptor that is closed is not inherited. *)
Definition after (s : Process) (c : Call) : Answer c -> Process :=
  match c with
  | CReadFile p => fun r => match r with Ok content => add_file p content s | Err _ => s end
  | CCreateFile _ | CDup _ | CSocket | COpenDir _ _ => fun r =>
      match r with Ok fd => set_inherited (p_inherited s ∖ {[ fd ]}) s | Err _ => s end
  | CWrite fd content => fun r =>
      match r with Ok _ => add_stream fd content true s | Err (_, n) => add_stream fd (take n content) false s end
  | CClose fd => fun _ => set_inherited (p_inherited s ∖ {[ fd ]}) s
  | CSetFd fd flags => fun r =>
      on_success r (set_inherited (if Z.testbit flags 0 then p_inherited s ∖ {[ fd ]} else p_inherited s ∪ {[ fd ]})) s
  | CUnshare ns => fun r => on_success r (set_namespace ns) s
  | CSetHostname name => fun r => on_success r (set_hostname_of name) s
  | CMount m => fun r =>
      on_success r (fun s =>
        if decide (m = make_private) then set_mounts true (p_mounts s) s
        else set_mounts (p_private s) (p_mounts s ++ [m]) s) s
  | CFork => fun r =>
      match r with
      | Ok InChild => set_child_of_fork s
      | Ok (InParent c) => deal (add_child c) s
      | Err _ => s
      end
  | CReadExecStatus c => fun r => match r with Ok _ => s | Err _ => deal (reap_child c) s end
  | CWaitChild c => fun r => match r with Ok _ => deal (reap_child c) s | Err _ => deal (abandon_child c) s end
  | CWaitPid c => fun r => match r with Ok _ => deal (reap_child c) s | Err _ => s end
  | CTryWait c => fun r => match r with Ok (Some status) => deal (set_status status) (deal (reap_child c) s) | _ => s end
  | CKill c => fun _ => deal (kill_child c) s
  | CReadSome _ => fun r => match r with Ok (x :: b) => deal (add_chunk (x :: b)) s | _ => s end
  | CEmit e => fun r => match r with Ok _ => deal (add_emitted e) s | Err _ => s end
  | CPrctl NoNewPrivs => fun r => on_success r set_nnp s
  | CPrctl _ => fun _ => s
  | CCapset data => fun r => on_success r (set_caps (Some data)) s
  | CChroot p => fun r => on_success r (set_root (Some p) None) s
  | CChdir p => fun r => on_success r (fun s => set_root (p_root s) (Some p) s) s
  | CUmask mask => fun _ => set_ids (p_uid s) (p_gid s) (Some mask) s
  | CSetgid gid => fun r => on_success r (set_ids (p_uid s) gid (p_umask s)) s
  | CSetuid uid => fun r =>
      on_success r (fun s => set_caps (caps_of_setuid (p_uid s) uid (p_caps s)) (set_ids uid (p_gid s) (p_umask s) s)) s
  | _ => fun _ => s
  end.

(** ** Runs

    [runs m s l]: one process runs [m] from [s] and makes, so far, the calls of
    [l], each listed with the state in which it was made. *)
Inductive runs {A : Type} : sys A -> Process -> list (Process * Call) -> Prop :=
| runs_here m s : runs m s []
| runs_call c k s a l : runs (k a) (after s c a) l -> runs (SCall c k) s ((s, c) :: l).

(** [returns m s a s']: a run that has ended with [a]. *)
Inductive returns {A : Type} : sys A -> Process -> A -> Process -> Prop :=
| returns_here a s : returns (SRet a) s a s
| returns_call c k s a r s' : returns (k a) (after s c a) r s' -> returns (SCall c k) s r s'.

(** ** Reasoning

    [safe ok m Q s]: from [s], whatever the answers, every call satisfies [ok]
    in the state it is made in, and a result satisfies [Q]. *)
Section Safety.
Context (ok : Process -> Call -> Prop).

Fixpoint safe {A : Type} (m : sys A) (Q : A -> Process -> Prop) (s : Process) : Prop :=
  match m with
  | SRet a => Q a s
  | SCall c k => ok s c /\ forall a, safe (k a) Q (after s c a)
  | SSpin => True
  end.

Lemma safe_runs {A} (m : sys A) Q s l : safe m Q s -> runs m s l -> Forall (fun e => ok e.1 e.2) l.
Proof. intros H Hr. induction Hr as [|c k s a l _ IH]; constructor; [apply H|]. apply IH, H. Qed.

Lemma safe_returns {A} (m : sys A) Q s a s' : safe m Q s -> returns m s a s' -> Q a s'.
Proof. intros H Hr. induction Hr as [|c k s a r s' _ IH]; [done|]. apply IH, H. Qed.

Lemma safe_weaken {A} (m : sys A) (Q R : A -> Process -> Prop) s :
  safe m Q s -> (forall a s', Q a s' -> R a s') -> safe m R s.
Proof.
  revert s. induction m as [a|c k IH|]; intros s H HQ; cbn [safe] in *; [by apply HQ| |done].
  destruct H as [Hc H]. split; [done|]. intros a. by apply IH.
Qed.

Lemma safe_bind {A B} (m : sys A) (f : A -> sys B) Q s :
  safe m (fun a => safe (f a) Q) s -> safe (sbind m f) Q s.
Proof.
  revert s. induction m as [a|c k IH|]; intros s H; cbn [safe sbind] in *; [done| |done].
  destruct H as [Hc H]. split; [done|]. intros a. by apply IH.
Qed.

Lemma safe_seq {A B} (m : sys A) (f : A -> sys B) (P : A -> Process -> Prop) Q s :
  safe m P s -> (forall a s', P a s' -> safe (f a) Q s') -> safe (sbind m f) Q s.
Proof. intros Hm Hf. apply safe_bind. by eapply safe_weaken. Qed.

(** Fallible programs: what holds of a success, nothing of a failure. *)
Definition success {E A : Type} (P : A -> Process -> Prop) (r : result E A) (s : Process) : Prop :=
  match r with Ok a => P a s | Err _ => True end.

Lemma safe_stry {E A B} (m : sys (result E A)) (f : A -> sys (result E B)) (P : A -> Process -> Prop) Q s :
  safe m (success P) s -> (forall a s', P a s' -> safe (f a) (success Q) s') -> safe (stry m f) (success Q) s.
Proof. intros Hm Hf. eapply safe_seq; [exact Hm|]. intros [a|e] s' Ha; [by apply Hf|done]. Qed.

Lemma safe_serr {E F A} (g : E -> F) (m : sys (result E A)) (P : A -> Process -> Prop) s :
  safe m (success P) s -> safe (serr g m) (success P) s.
Proof. intros Hm. eapply safe_seq; [exact Hm|]. by intros [a|e] s' Ha. Qed.

Lemma safe_stry_each {E A} (f : A -> sys (result E unit)) (P : list A -> Process -> Prop) l s :
  P [] s -> (forall x done_ s', P done_ s' -> x ∈ l -> safe (f x) (success (fun _ => P (done_ ++ [x]))) s') ->
  safe (stry_each f l) (success (fun _ => P l)) s.
Proof.
  intros H0 Hf. cut (forall done_ rest s', l = done_ ++ rest -> P done_ s' ->
    safe (stry_each f rest) (success (fun _ => P l)) s'); [intros C; by eapply (C [] l)|].
  intros done_ rest. revert done_. induction rest as [|x rest IH]; intros done_ s' El Hp; simpl.
  - by rewrite app_nil_r in El; subst.
  - eapply (safe_stry _ _ (fun _ => P (done_ ++ [x]))).
    + apply Hf; [done|]. subst l. set_solver.
    + intros _ s2 Hp2. apply (IH (done_ ++ [x])); [by rewrite <- app_assoc|done].
Qed.
End Safety.

(** [only P m]: every call [m] can make satisfies [P]. *)
Fixpoint only {A : Type} (P : Call -> Prop) (m : sys A) : Prop :=
  match m with
  | SRet _ | SSpin => True
  | SCall c k => P c /\ forall a, only P (k a)
  end.

Lemma only_bind {A B} P (m : sys A) (f : A -> sys B) : only P m -> (forall a, only P (f a)) -> only P (sbind m f).
Proof. intros Hm Hf. induction m as [a|c k IH|]; simpl in *; [done| |done]. split; [apply Hm|]. intros a. by apply IH, Hm. Qed.

Lemma only_stry {E A B} P (m : sys (result E A)) (f : A -> sys (result E B)) :
  only P m -> (forall a, only P (f a)) -> only P (stry m f).
Proof. intros Hm Hf. by apply only_bind; [|intros [a|e]]. Qed.

Lemma only_serr {E F A} P (g : E -> F) (m : sys (result E A)) : only P m -> only P (serr g m).
Proof. intros Hm. by apply only_bind. Qed.

Lemma only_call P c : P c -> only P (scall c).
Proof. done. Qed.

Lemma only_stry_each {E A} P (f : A -> sys (result E unit)) l : (forall x, only P (f x)) -> only P (stry_each f l).
Proof. intros Hf. induction l as [|x l IH]; simpl; [done|]. by apply only_stry. Qed.

Lemma only_weaken {A} (P Q : Call -> Prop) (m : sys A) : only P m -> (forall c, P c -> Q c) -> only Q m.
Proof.
  intros Hm HPQ. induction m as [a|c k IH|]; simpl in *; [done| |done]. destruct Hm as [Hc Hm].
  split; [by apply HPQ|]. intros a. by apply IH.
Qed.

Create HintDb only discriminated.

(** The calls of a program, by its structure. *)
Ltac only_calls :=
  repeat lazymatch goal with
  | |- only _ (sbind _ _) => apply only_bind
  | |- only _ (stry _ _) => apply only_stry
  | |- only _ (serr _ _) => apply only_serr
  | |- only _ (stry_each _ _) => apply only_stry_each
  | |- only _ (scall _) => apply only_call; exact I
  | |- only _ (sexit _) => split; [exact I|intros []]
  | |- only _ (SRet _) => exact I
  | |- only _ SSpin => exact I
  | |- only _ (match ?x with _ => _ end) => destruct x
  | |- forall _, _ => intros ?
  | |- only _ _ => solve [auto 2 with only]
  end.

(** Calls that keep an invariant and are allowed under it. *)
Lemma safe_only {A} ok (P : Call -> Prop) (Inv : Process -> Prop) (m : sys A) s :
  (forall c s, P c -> Inv s -> ok s c /\ forall a, Inv (after s c a)) ->
  only P m -> Inv s -> safe ok m (fun _ => Inv) s.
Proof.
  intros H. revert s. induction m as [a|c k IH|]; intros s Hm Hs; simpl; [done| |done].
  destruct Hm as [Hc Hm]. destruct (H c s Hc Hs) as [Hok Ha]. split; [done|]. intros a. by apply IH.
Qed.

(** ** The handshake of [protocol.rs]

    The fuel bounds the number of interruptions. *)

Open Scope sys_scope.

(** The loops end with the first answer that is not an interruption. *)
Fixpoint read_handshake_byte (fuel : nat) (fd : Z) : sys (result SysError unit) :=
  match fuel with
  | O => SSpin
  | S fuel' =>
      do result := scall (CRead fd) in
      match result with
      | Ok count =>
          if (count =? 1)%Z then SRet (Ok tt)
          else SRet (Err (other "handshake pipe closed before signalling readiness"))
      | Err error => if interrupted error then read_handshake_byte fuel' fd else SRet (Err error)
      end
  end.

Fixpoint write_handshake_byte (fuel : nat) (fd : Z) : sys (result SysError unit) :=
  match fuel with
  | O => SSpin
  | S fuel' =>
      do result := scall (CWriteOnce fd [1]%Z) in
      match result with
      | Ok count =>
          if (count =? 1)%Z then SRet (Ok tt) else SRet (Err (other "failed to write handshake byte"))
      | Err error => if interrupted error then write_handshake_byte fuel' fd else SRet (Err error)
      end
  end.

