(* ===== verification/SandboxEvents.v ===== *)
(** * The stream of sandbox events

    What the host decodes of the frames the runner writes, however the pipe
    cuts them into chunks and wherever the stream ends. *)

From S2P Require Import Prelude Errors Posix SandboxProtocol SandboxKernel.

(** [A proper prefix of l.] *)
Definition proper_prefix (p l : bytes) : Prop := exists q, q <> [] /\ l = p ++ q.

Section Stream.
Context `{EventJson}.

(** ** The decoder and more bytes *)

Lemma next_event_some d e rest : wf_bytes d -> next_event d = Ok (Some (e, rest)) ->
  (length rest < length d)%nat /\ wf_bytes rest.
Proof.
  unfold next_event. intros Hd. destruct (len d <? 4)%Z eqn:G; [discriminate|]. clear G.
  destruct (MAX_EVENT_FRAME_LEN <? _)%Z; [discriminate|].
  destruct (len d <? _)%Z eqn:G; [discriminate|]. intros E. inv_res. simplify_eq. bools. unfold len in *.
  pose proof (from_be_bytes_bound (take 4 d) ltac:(by apply Forall_take)) as B.
  split; [rewrite length_drop; lia|by apply Forall_drop].
Qed.

Lemma next_event_app d x r : next_event d = r -> r <> Ok None ->
  next_event (d ++ x) = match r with Ok (Some (e, rest)) => Ok (Some (e, rest ++ x)) | _ => r end.
Proof.
  intros <- Hn. unfold next_event in *.
  destruct (len d <? 4)%Z eqn:G; [done|]. bools.
  assert (len (d ++ x) <? 4 = false)%Z as -> by (rewrite len_app; apply Z.ltb_ge; pose proof (len_nonneg x); lia).
  assert (take 4 (d ++ x) = take 4 d) as -> by (apply take_app_le; unfold len in *; lia).
  destruct (MAX_EVENT_FRAME_LEN <? from_be_bytes (take 4 d))%Z; [done|].
  set (n := (4 + from_be_bytes (take 4 d))%Z) in *.
  destruct (len d <? n)%Z eqn:G2; [done|]. bools.
  assert (len (d ++ x) <? n = false)%Z as -> by (rewrite len_app; apply Z.ltb_ge; pose proof (len_nonneg x); lia).
  assert (slice (d ++ x) 4 (Z.to_nat n) = slice d 4 (Z.to_nat n)) as ->.
  { unfold slice, len in *. rewrite drop_app_le by lia. apply take_app_le. rewrite length_drop. lia. }
  destruct (map_err _ (event_from_slice _)) as [e|]; [|done].
  rewrite drop_app_le; [done|]. unfold len in *. lia.
Qed.

Lemma decode_events_fuel n m d : wf_bytes d -> (length d < n)%nat -> (length d < m)%nat ->
  decode_events n d = decode_events m d.
Proof.
  revert m d. induction n as [|n IH]; intros [|m] d Hd Hn Hm; [lia|lia|lia|]. simpl.
  destruct (next_event d) as [[[e rest]|]|] eqn:E; [|done|done].
  apply next_event_some in E as [Hl Hr]; [|done]. rewrite (IH m); [done|done|lia|lia].
Qed.

Lemma drain_eq d : wf_bytes d -> drain d = (next <- next_event d ;;
  match next with
  | None => Ok ([], d)
  | Some (event, rest) => let* (events, d') := drain rest in Ok (event :: events, d')
  end).
Proof.
  intros Hd. unfold drain at 1. cbn [decode_events]. destruct (next_event d) as [[[e rest]|]|] eqn:E; [|done|done].
  apply next_event_some in E as [Hl Hr]; [|done]. unfold drain.
  by rewrite (decode_events_fuel (length d) (S (length rest))) by (done || lia).
Qed.

Lemma drain_app x y : wf_bytes x -> wf_bytes y -> drain (x ++ y) =
  (let* (events, d) := drain x in let* (more, last) := drain (d ++ y) in Ok (events ++ more, last)).
Proof.
  intros Hx Hy. induction x as [x IH] using (induction_ltof1 _ (@length Z)). unfold ltof in IH. rewrite (drain_eq x) by done.
  assert (wf_bytes (x ++ y)) as Hxy by (by apply Forall_app).
  destruct (next_event x) as [[[e rest]|]|err] eqn:E.
  - rewrite drain_eq, (next_event_app x y _ E) by done. apply next_event_some in E as [Hl Hr]; [|done].
    rewrite IH by done. destruct (drain rest) as [[events d]|]; [|done]. by destruct (drain (d ++ y)) as [[more last]|].
  - by destruct (drain (x ++ y)) as [[more last]|].
  - by rewrite drain_eq, (next_event_app x y _ E) by done.
Qed.

Lemma drain_drained x events d : wf_bytes x -> drain x = Ok (events, d) -> drain d = Ok ([], d) /\ wf_bytes d.
Proof.
  intros Hx. revert events. induction x as [x IH] using (induction_ltof1 _ (@length Z)). unfold ltof in IH.
  intros events. rewrite drain_eq by done. destruct (next_event x) as [[[e rest]|]|] eqn:E; [| |done].
  - destruct (drain rest) as [[events' d']|] eqn:E'; [|done]. intros [= <- <-].
    apply next_event_some in E as [Hl Hr]; [|done]. by eapply IH.
  - intros [= <- <-]. split; [|done]. rewrite drain_eq by done. by rewrite E.
Qed.

(** Draining after each chunk gives what draining at the end gives. *)
Lemma receive_drain d chunks : wf_bytes (d ++ concat chunks) -> drain d = Ok ([], d) ->
  receive d chunks = drain (d ++ concat chunks).
Proof.
  revert d. induction chunks as [|c chunks IH]; intros d Hw Hd; cbn [receive concat] in *; [by rewrite app_nil_r, Hd|].
  rewrite app_assoc in Hw |- *. apply Forall_app in Hw as [Hw1 Hw2]. rewrite (drain_app (d ++ c)) by done. unfold push.
  destruct (drain (d ++ c)) as [[events d']|] eqn:E; [|done]. apply drain_drained in E as [E Hd']; [|done].
  by rewrite IH by (done || by apply Forall_app).
Qed.

(** ** Frames *)

Context {L : EventJsonLaw}.

Lemma event_frame_inv e f : event_frame e = Ok f -> exists payload,
  event_from_slice payload = Ok e /\ wf_bytes f /\ (len payload <= 65536)%Z /\ f = be_bytes 4 (len payload) ++ payload.
Proof.
  unfold event_frame, MAX_EVENT_FRAME_LEN. pose proof (fun n => wf_be_bytes 4 n) as Hb.
  remember (be_bytes 4) as header. clear Heqheader. intros E. inv_res. bools. apply L in E0 as [Hw Hs].
  exists a. split_and!; [done| |done|done]. apply wf_bytes_app. split; [apply Hb|done].
Qed.

Lemma frame_header n payload x : (0 <= n < 2 ^ 32)%Z -> from_be_bytes (take 4 ((be_bytes 4 n ++ payload) ++ x)) = n.
Proof.
  intros Hn. rewrite <- app_assoc, (take_app_length' (be_bytes 4 n)) by (by rewrite length_be_bytes).
  rewrite from_be_bytes_be_bytes by (rewrite ?Z.pow_mul_r; simpl; lia). done.
Qed.

Lemma next_event_frame e f x : event_frame e = Ok f -> next_event (f ++ x) = Ok (Some (e, x)).
Proof.
  intros (payload & Hp & _ & Hlen & ->)%event_frame_inv.
  assert (next_event (be_bytes 4 (len payload) ++ payload) = Ok (Some (e, []))) as E.
  { unfold next_event. rewrite len_app. pose proof (len_nonneg payload).
    assert (len (be_bytes 4 (len payload)) = 4%Z) as -> by (unfold len at 1; by rewrite length_be_bytes).
    rewrite (proj2 (Z.ltb_ge _ 4)) by lia.
    rewrite <- (app_nil_r (be_bytes 4 (len payload) ++ payload)), frame_header by lia.
    rewrite (proj2 (Z.ltb_ge MAX_EVENT_FRAME_LEN _)) by (unfold MAX_EVENT_FRAME_LEN; lia).
    rewrite (proj2 (Z.ltb_ge _ _)) by lia. rewrite app_nil_r. unfold slice.
    rewrite (drop_app_length' (be_bytes 4 (len payload))) by (by rewrite length_be_bytes).
    rewrite take_ge by (unfold len; lia). rewrite Hp. cbn [map_err].
    rewrite (drop_ge (be_bytes 4 _ ++ _)) by (rewrite length_app, length_be_bytes; unfold len; lia). done. }
  by rewrite (next_event_app _ x _ E).
Qed.

Lemma next_event_partial e f p : event_frame e = Ok f -> proper_prefix p f -> next_event p = Ok None.
Proof.
  intros He (q & Hq & ->). destruct (next_event p) as [[[e' rest]|]|err] eqn:E; [| done |].
  - pose proof (next_event_app p q _ E ltac:(done)) as E2. pose proof (next_event_frame _ _ [] He) as E3.
    rewrite app_nil_r, E2 in E3. injection E3 as _ E3. destruct rest, q; done.
  - pose proof (next_event_app p q _ E ltac:(done)) as E2. pose proof (next_event_frame _ _ [] He) as E3.
    by rewrite app_nil_r, E2 in E3.
Qed.

Abbreviation framed := (Forall2 (fun event f => event_frame event = Ok f)).

Lemma framed_wf events frames : framed events frames -> wf_bytes (concat frames).
Proof.
  induction 1 as [|e f events frames He _ IH]; simpl; [constructor|].
  apply Forall_app. split; [by apply event_frame_inv in He as (? & _ & ? & _)|done].
Qed.

Lemma drain_frames events frames x : framed events frames -> wf_bytes x -> drain (concat frames ++ x) =
  (let* (more, last) := drain x in Ok (events ++ more, last)).
Proof.
  intros Hf Hx. induction Hf as [|e f events frames He Hf IH]; simpl; [by destruct (drain x) as [[]|]|].
  assert (wf_bytes (f ++ concat frames)) as Hw by (by eapply (framed_wf (e :: events) (f :: frames)), Forall2_cons).
  rewrite drain_eq by (by apply Forall_app). rewrite <- app_assoc, (next_event_frame _ _ _ He), IH. by destruct (drain x) as [[]|].
Qed.

Lemma cut_frames {A} n (frames : list (list A)) : exists k rest,
  take n (concat frames) = concat (take k frames) ++ rest /\
  (rest = [] \/ exists f q, frames !! k = Some f /\ q <> [] /\ f = rest ++ q).
Proof.
  revert n. induction frames as [|f frames IH]; intros n.
  { exists 0%nat, []. split; [by destruct n|by left]. }
  destruct (decide (n < length f)%nat) as [Hn|Hn].
  - exists 0%nat, (take n f). simpl. split; [by rewrite take_app_le by lia|]. right.
    exists f, (drop n f). split; [done|]. split; [|by rewrite take_drop].
    intros E%(f_equal length). rewrite length_drop in E. simpl in E. lia.
  - destruct (IH (n - length f)%nat) as (k & rest & E & Hr). exists (S k), rest. simpl.
    rewrite take_app_ge by lia. rewrite E, <- app_assoc. by split.
Qed.

(** All of the bytes leave nothing cut. *)
Lemma whole_frames {A} (frames : list (list A)) k rest :
  (rest = [] \/ exists f, frames !! k = Some f /\ exists q, q <> [] /\ f = rest ++ q) ->
  concat (take k frames) ++ rest = concat frames -> rest = [] /\ concat (drop k frames) = [].
Proof.
  intros Hr E. assert (rest = concat (drop k frames)) as E'.
  { apply (app_inv_head (concat (take k frames))). by rewrite E, <- concat_app, take_drop. }
  clear E. rename E' into E. destruct Hr as [->|(f & Hk & q & Hq & Ef)]; [done|].
  - exfalso. rewrite (drop_S _ _ _ Hk) in E. simpl in E. rewrite Ef in E. apply (f_equal length) in E.
    rewrite !length_app in E. destruct q; [done|]. simpl in E. lia.
Qed.

Lemma receive_cut events frames chunks n :
  framed events frames -> concat chunks = take n (concat frames) ->
  exists k rest,
    receive [] chunks = Ok (take k events, rest) /\ concat chunks = concat (take k frames) ++ rest /\
    (rest = [] \/ exists f, frames !! k = Some f /\ proper_prefix rest f).
Proof.
  intros Hf Hc. destruct (cut_frames n frames) as (k & rest & E & Hr). exists k, rest.
  pose proof (Forall_take _ n _ (framed_wf _ _ Hf)) as Hw. rewrite E in Hw.
  assert (wf_bytes rest) as Hwr by (by apply Forall_app in Hw as [_ ?]).
  assert (drain rest = Ok ([], rest)) as Hrest.
  { destruct Hr as [->|(f & q & Hk & Hq & Ef)]; [done|].
    destruct (Forall2_lookup_r _ _ _ _ _ Hf Hk) as (e & _ & He).
    rewrite drain_eq, (next_event_partial e f); [done|done|by exists q|done]. }
  split_and!.
  - rewrite receive_drain; simpl; rewrite ?Hc, ?E; [|done|done].
    rewrite (drain_frames (take k events) (take k frames)) by (done || by apply Forall2_take).
    by rewrite Hrest, app_nil_r.
  - by rewrite Hc.
  - destruct Hr as [|(f & q & Hk & Hq & Ef)]; [by left|right]. exists f. split; [done|by exists q].
Qed.

(** The event stream survives its transport.  Let the runner write the
    frames of some events, and let the host see the stream up to an arbitrary
    point, read in chunks of arbitrary sizes and decoded after each.  The host
    gets exactly the events whose frames have arrived, in order, without an
    error; it keeps the bytes of the frame that was cut, and [finish] accepts
    the end of the stream if and only if no frame was cut. *)
Theorem event_stream_round_trip events frames chunks n :
  framed events frames -> concat chunks = take n (concat frames) ->
  exists k rest,
    receive [] chunks = Ok (take k events, rest) /\ concat chunks = concat (take k frames) ++ rest /\
    (rest = [] \/ exists f, frames !! k = Some f /\ proper_prefix rest f) /\
    (is_ok (finish rest) = true <-> rest = []) /\
    ((length (concat frames) <= n)%nat -> take k events = events /\ rest = []).
Proof.
  intros Hf Hc. destruct (receive_cut _ _ _ _ Hf Hc) as (k & rest & Hrec & Hcat & Hr). exists k, rest.
  split_and!; [done|done|done|unfold finish; case_bool_decide; done|]. intros Hn.
  rewrite Hc, take_ge in Hcat by done.
  destruct (whole_frames _ _ _ Hr (eq_sym Hcat)) as [-> Hd]. split; [|done].
  apply take_ge. rewrite (Forall2_length _ _ _ Hf). destruct (decide (length frames <= k)%nat) as [|Hlt]; [done|exfalso].
  assert (k < length frames)%nat as [f Hf']%lookup_lt_is_Some by lia.
  rewrite (drop_S _ _ _ Hf') in Hd. simpl in Hd. apply app_eq_nil in Hd as [-> _].
  destruct (Forall2_lookup_r _ _ _ _ _ Hf Hf') as (e & _ & He). by apply event_frame_inv in He as (? & _ & _ & _ & ?).
Qed.
End Stream.
