(* ===== verification/SandboxRunner.v ===== *)
(** * The runner of the sandbox

    [bobr-sandbox-launcher/src/runner.rs]: process 1 of the sandbox.  It opens
    the report and the logs, prepares directories, runs the steps in order,
    streams an event before and after each, and reports the first failure.  The
    fuel bounds the interrupted waits, the children reaped at once and the depth
    of a directory tree. *)

From S2P Require Import Prelude Errors Text Posix Elf FsManifestOps Subjects SandboxProtocol SandboxKernel.

Open Scope sys_scope.

Definition BUILD_USER_UID : Z := 1.
Definition BUILD_USER_GID : Z := 1.

(** [SandboxRunnerStep]; its files are descriptors. *)
Record SandboxRunnerStep := mkSandboxRunnerStep {
  st_name : bytes;
  st_run_as : RunnerRunAs;
  st_cwd : bytes;
  st_argv : list bytes;
  st_env : gmap bytes bytes;
  st_umask : Z;
  st_report_stdout_path : bytes;
  st_report_stderr_path : bytes;
  st_stdout : Z;
  st_stderr : Z;
}.

(** [step_runtime]. *)
Definition step_runtime (step : SandboxRunnerStep) (message : string) (duration_ms : Z) : SandboxRunnerFailureReport :=
  mkFailureReport (st_name step) message None None (Some duration_ms)
    (Some (st_report_stdout_path step)) (Some (st_report_stderr_path step)).

(** [ExitStatus]: the status of [wait(2)]. *)
Definition status_code (status : Z) : option Z :=
  if (Z.land status 0x7f =? 0)%Z then Some (Z.land (Z.shiftr status 8) 0xff) else None.
Definition status_signal (status : Z) : option Z :=
  let low := Z.land status 0x7f in
  if (low =? 0)%Z || (low =? 0x7f)%Z then None else Some low.
Definition status_success (status : Z) : bool := (status =? 0)%Z.

Inductive StepExit := Exited (code : Z) | Signaled (signal : Z) | Unknown.
Definition classify_exit_status (status : Z) : StepExit :=
  match status_code status with
  | Some code => Exited code
  | None => match status_signal status with Some signal => Signaled signal | None => Unknown end
  end.

(** [failed_step]. *)
Definition failed_step (step : SandboxRunnerStep) (status : Z) (duration_ms : Z) : SandboxRunnerFailureReport :=
  let '(message, exit_code, signal) :=
    match classify_exit_status status with
    | Exited code =>
        ("sandbox step '" +:+ show (st_name step) +:+ "' failed with exit status " +:+ show_i32 code, Some code, None)
    | Signaled signal =>
        ("sandbox step '" +:+ show (st_name step) +:+ "' was killed by signal " +:+ show_i32 signal, None, Some signal)
    | Unknown =>
        ("sandbox step '" +:+ show (st_name step) +:+ "' ended with status ExitStatus(unix_wait_status("
         +:+ show_i32 status +:+ "))", None, None)
    end in
  mkFailureReport (st_name step) message exit_code signal (Some duration_ms)
    (Some (st_report_stdout_path step)) (Some (st_report_stderr_path step)).

Inductive RunnerOutcome := Reported (code : Z) | EarlyFailure (report : SandboxRunnerFailureReport).

(** [SandboxRunner]: the descriptors of the report and of the events, the latter
    until a write to it fails. *)
Record SandboxRunner := mkSandboxRunner {
  ru_prepare_paths : list bytes;
  ru_steps : list SandboxRunnerStep;
  ru_failure_report : Z;
  ru_event_writer : option Z;
}.

(** ** Reports and configurations as JSON *)

Class RunnerJson := {
  runner_config_from_slice : bytes -> result string RunnerConfig;
  report_to_bytes : SandboxRunnerFailureReport -> result string bytes;
}.

Definition validate_umask (umask : Z) : result SysError unit :=
  if (umask <=? 0x1ff)%Z then Ok tt
  else Err (other ("sandbox step umask must be in 0o000..=0o777, got 0o" +:+ show_octal umask)).

(** [elapsed_ms]. *)
Definition elapsed_ms (start : Z) : sys Z :=
  do now := scall CNow in SRet (Z.min (Z.max 0 (now - start)) U64_MAX).

(** [start.elapsed()] inside [map_err]. *)
Definition step_error {A : Type} (step : SandboxRunnerStep) (start : Z) (message : SysError -> string)
    (m : sys (result SysError A)) : sys (result SandboxRunnerFailureReport A) :=
  do r := m in
  match r with
  | Ok a => SRet (Ok a)
  | Err error => do ms := elapsed_ms start in SRet (Err (step_runtime step (message error) ms))
  end.

(** [reap_action]: whether to go on. *)
Definition reap_action (r : result SysError WaitStatus) : bool :=
  match r with
  | Ok WStillAlive => false
  | Ok _ => true
  | Err e => interrupted e
  end.

(** ** Credentials *)

(** [str::trim]. *)
Definition setgroups_allowed : sys bool :=
  do value := scall (CReadFile (lit "/proc/self/setgroups")) in
  match value with
  | Ok b => SRet (negb (is_utf8 b && bytes_eqb (trim b) (lit "deny")))
  | Err _ => SRet true
  end.

Definition credential_error (operation : string) (error : SysError) : SysError :=
  other (operation +:+ ": " +:+ se_text error).

Definition apply_step_credentials (run_as : RunnerRunAs) (allowed : bool) : sys (result SysError unit) :=
  match run_as with
  | BuildUser =>
      (if allowed then serr (credential_error "setgroups([])") (scall CSetgroups) else SRet (Ok tt)) ?;
      serr (credential_error "setgid(1)") (scall (CSetgid BUILD_USER_GID)) ?;
      serr (credential_error "setuid(1)") (scall (CSetuid BUILD_USER_UID)) ?;
      SRet (Ok tt)
  | Root => SRet (Ok tt)
  end.

(** [Command::spawn] with a [pre_exec] hook: the child redirects its standard
    streams, changes directory, runs the hook and then [execve]; when one of
    these fails it reports to the parent, whose [spawn] answers that error, and
    ends.  The standard streams are set up in the child alone. *)
Definition command_spawn (command : Command) (pre_exec : sys (result SysError unit)) : sys (result SysError Z) :=
  do side := scall CFork in
  match side with
  | Err e => SRet (Err e)
  | Ok (InParent child) =>
      do reported := scall (CReadExecStatus child) in
      SRet (reported ;;; Ok child)
  | Ok InChild =>
      do ready := (match cmd_cwd command with Some cwd => scall (CChdir cwd) ?; pre_exec | None => pre_exec end) in
      match ready with
      | Ok _ => do _ := scall (CExecve command) in sexit 1
      | Err _ => sexit 1
      end
  end.

(** ** Owners *)

Section Fuelled.
Context (fuel : nat).

Fixpoint reap_finished_children (n : nat) : sys unit :=
  match n with
  | O => SSpin
  | S n' =>
      do r := scall CWaitAny in
      if reap_action r then reap_finished_children n' else SRet tt
  end.

Definition SIGKILL : Z := 9.
Definition SIGTERM : Z := 15.

Definition terminate_remaining_children : sys unit :=
  do _ := scall (CKillAll SIGTERM) in
  do _ := reap_finished_children fuel in
  do _ := scall (CKillAll SIGKILL) in
  reap_finished_children fuel.

Definition dot_entry (name : bytes) : bool := bytes_eqb name [46]%Z || bytes_eqb name [46; 46]%Z.

Fixpoint chown_dir_contents (n : nat) (dir uid gid : Z) : sys (result SysError unit) :=
  match n with
  | O => SSpin
  | S n' =>
      do entries := scall (CReadDir dir) in
      stry_each (fun entry =>
        match entry with
        | Err error => SRet (Err (other (se_text error)))
        | Ok name =>
            if dot_entry name then SRet (Ok tt)
            else
              serr (fun e => other (se_text e)) (scall (CFchownat (Some dir) name uid gid)) ?;
              do subdir := scall (COpenDir (Some dir) name) in
              match subdir with
              | Ok fd => chown_dir_contents n' fd uid gid
              | Err e =>
                  if (se_errno e =? ENOTDIR)%Z || (se_errno e =? ELOOP)%Z then SRet (Ok tt)
                  else SRet (Err (other (se_text e)))
              end
        end) entries
  end.

Definition chown_tree (p : bytes) (uid gid : Z) : sys (result SysError unit) :=
  serr (fun e => other (se_text e)) (scall (CFchownat None p uid gid)) ?;
  let? directory := scall (CIsDir p false) in
  if directory : bool then
    let? dir := serr (fun e => other (se_text e)) (scall (COpenDir None p)) in
    chown_dir_contents fuel dir uid gid ?;
    SRet (Ok tt)
  else SRet (Ok tt).

Definition prepare_error (operation : string) (p : bytes) (error : SysError) : SandboxRunnerFailureReport :=
  report_runtime "sandbox-prepare" (operation +:+ " '" +:+ show p +:+ "': " +:+ se_text error).

Definition prepare (self : SandboxRunner) : sys (result SandboxRunnerFailureReport unit) :=
  stry_each (fun p =>
    serr (prepare_error "create dir" p) (scall (CCreateDirAll p)) ?;
    serr (prepare_error "chown" p) (chown_tree p BUILD_USER_UID BUILD_USER_GID)) (ru_prepare_paths self).

(** ** Steps *)

(** [SandboxRunnerStep::new]: the fields in the order they are evaluated. *)
Definition step_new (step : RunnerStepConfig) : sys (result SysError SandboxRunnerStep) :=
  match validate_umask (rs_umask step) with
  | Err e => SRet (Err e)
  | Ok _ =>
      let? stdout := scall (CCreateFile (rs_stdout_path step)) in
      let? stderr := scall (CCreateFile (rs_stderr_path step)) in
      SRet (Ok (mkSandboxRunnerStep (rs_name step) (rs_run_as step) (rs_cwd step) (rs_argv step) (rs_env step)
                  (rs_umask step) (rs_report_stdout_path step) (rs_report_stderr_path step) stdout stderr))
  end.

Definition step_command (step : SandboxRunnerStep) (executable : bytes) (args : list bytes) (stdout stderr : Z)
  : Command := mkCommand executable args (Some (st_env step)) (Some (st_cwd step)) (Some stdout) (Some stderr).

(** The closure of [pre_exec]. *)
Definition step_pre_exec (step : SandboxRunnerStep) (allowed : bool) : sys (result SysError unit) :=
  do _ := scall (CUmask (st_umask step)) in apply_step_credentials (st_run_as step) allowed.

(** [SandboxRunnerStep::run]. *)
Definition step_run (step : SandboxRunnerStep) : sys (result SandboxRunnerFailureReport Z) :=
  match st_argv step with
  | [] => SRet (Err (step_runtime step "step argument vector must contain at least one element" 0))
  | executable :: args =>
      do start := scall CNow in
      let? stdout := step_error step start se_text (scall (CDup (st_stdout step))) in
      let? stderr := step_error step start se_text (scall (CDup (st_stderr step))) in
      do allowed := setgroups_allowed in
      let? child := step_error step start (fun error =>
        "failed to spawn '" +:+ show executable +:+ "' as " +:+ run_as_str (st_run_as step) +:+ ": " +:+ se_text error)
        (command_spawn (step_command step executable args stdout stderr) (step_pre_exec step allowed)) in
      let? status := step_error step start (fun error =>
        "failed to wait for '" +:+ show executable +:+ "' as " +:+ run_as_str (st_run_as step)
        +:+ " child pid " +:+ show_z child +:+ ": " +:+ se_text error) (scall (CWaitChild child)) in
      do _ := terminate_remaining_children in
      do duration_ms := elapsed_ms start in
      SRet (if status_success status then Ok duration_ms else Err (failed_step step status duration_ms))
  end.

(** ** The runner *)

Context `{EventJson} `{RunnerJson}.

(** [write_sandbox_event]: the length, then the payload. *)
Definition write_sandbox_event (writer : Z) (event : SandboxEvent) : sys (result string unit) :=
  match event_frame event with
  | Err e => SRet (Err e)
  | Ok frame =>
      let failed (r : Answer (CWrite 0 [])) : result string unit := map_err (fun e => se_text e.1) r in
      do header := scall (CWrite writer (take 4 frame)) in
      match failed header with
      | Err e => SRet (Err e)
      | Ok _ => do payload := scall (CWrite writer (drop 4 frame)) in SRet (failed payload)
      end
  end.

(** [emit]: the writer that remains. *)
Definition emit (writer : option Z) (event : SandboxEvent) : sys (option Z) :=
  match writer with
  | None => SRet None
  | Some fd =>
      do r := write_sandbox_event fd event in
      match r with
      | Ok _ => SRet (Some fd)
      | Err _ => do _ := scall (CClose fd) in SRet None
      end
  end.

Definition started (total : Z) (index : Z) (step : SandboxRunnerStep) : SandboxEvent :=
  StepStarted index total (st_name step) (st_run_as step).
Definition finished (total : Z) (index : Z) (step : SandboxRunnerStep) (duration_ms : Z) : SandboxEvent :=
  StepFinished index total (st_name step) (st_run_as step) duration_ms
    (st_report_stdout_path step) (st_report_stderr_path step).
Definition failed (total : Z) (index : Z) (step : SandboxRunnerStep) (r : SandboxRunnerFailureReport) : SandboxEvent :=
  StepFailed index total (st_name step) (st_run_as step) (default 0%Z (fr_duration_ms r)) (fr_exit_code r)
    (fr_signal r) (st_report_stdout_path step) (st_report_stderr_path step).

(** The loop of [SandboxRunner::run]. *)
Fixpoint run_steps (total index : Z) (writer : option Z) (steps : list SandboxRunnerStep)
  : sys (result SandboxRunnerFailureReport unit) :=
  match steps with
  | [] => SRet (Ok tt)
  | step :: steps' =>
      do writer1 := emit writer (started total index step) in
      do result := step_run step in
      match result with
      | Ok duration_ms =>
          do writer2 := emit writer1 (finished total index step duration_ms) in
          run_steps total (index + 1) writer2 steps'
      | Err report =>
          do _ := emit writer1 (failed total index step report) in
          SRet (Err report)
      end
  end.

(** [SandboxRunner::run]. *)
Definition runner_run (self : SandboxRunner) : sys (result SandboxRunnerFailureReport unit) :=
  prepare self ?; run_steps (len (ru_steps self)) 0 (ru_event_writer self) (ru_steps self).

(** [serde_json::to_writer] of a report: a text that cannot be made or written. *)
Definition write_report (fd : Z) (report : SandboxRunnerFailureReport) : sys (result string unit) :=
  match report_to_bytes report with
  | Err e => SRet (Err e)
  | Ok b => do r := scall (CWrite fd b) in SRet (map_err (fun e => se_text e.1) r)
  end.

(** [SandboxRunner::exec]. *)
Definition runner_exec (self : SandboxRunner) : sys Z :=
  do result := runner_run self in
  do exit_code :=
    match result with
    | Ok _ => SRet 0%Z
    | Err report =>
        do written := write_report (ru_failure_report self) report in
        match written with
        | Ok _ => SRet 1%Z
        | Err error => do _ := scall (CEprintln error) in SRet 1%Z
        end
    end in
  do _ := terminate_remaining_children in
  SRet exit_code.

(** [SandboxRunner::new]. *)
Definition runner_new (config : RunnerConfig) (event_writer : Z) : sys (result SysError SandboxRunner) :=
  let? failure_report := scall (CCreateFile (rc_failure_report config)) in
  let? steps := stry_map step_new (rc_steps config) in
  SRet (Ok (mkSandboxRunner (rc_prepare_paths config) steps failure_report (Some event_writer))).

Definition run_config (config : RunnerConfig) (event_writer : Z) : sys RunnerOutcome :=
  if negb (rc_protocol_version config =? SANDBOX_PROTOCOL_VERSION)%Z then
    SRet (EarlyFailure (report_runtime "sandbox-protocol"
      ("unsupported sandbox protocol " +:+ show_z (rc_protocol_version config) +:+ "; expected 7")))
  else
    do runner := runner_new config event_writer in
    match runner with
    | Err error => SRet (EarlyFailure (report_runtime "sandbox-runner-init" (se_text error)))
    | Ok runner => do code := runner_exec runner in SRet (Reported code)
    end.

Definition run_config_path (p : bytes) (event_writer : Z) : sys RunnerOutcome :=
  do content := scall (CReadFile p) in
  match map_err (fun e => "failed to read runner config '" +:+ show p +:+ "': " +:+ se_text e) content with
  | Err error => SRet (EarlyFailure (report_runtime "runner-config" error))
  | Ok b =>
      match runner_config_from_slice b with
      | Err error => SRet (EarlyFailure (report_runtime "runner-config" error))
      | Ok config => run_config config event_writer
      end
  end.
End Fuelled.
