(* ===== verification/SandboxLauncher.v ===== *)
(** * The launcher of the sandbox

    [bobr-sandbox-launcher/src/launcher.rs] and [main.rs]: the privileged
    process that leaves the namespaces of the host, forks process 1 of the
    sandbox, and waits for it; process 1 mounts the layout, enters the root,
    gives up capabilities and becomes the runner. *)

From S2P Require Import Prelude Errors Text Posix Elf SandboxProtocol SandboxKernel SandboxRunner.

Open Scope sys_scope.

(** [context_error]: the kind stays. *)
Definition context_error (context : string) (error : SysError) : SysError :=
  mkSysError (se_errno error) (context +:+ ": " +:+ se_text error).

(** ** Capabilities *)

Definition KEEP_CAPABILITIES : list Z := [0; 1; 2; 3; 4; 5; 6; 7; 8]%Z.

Definition capability_mask (capabilities : list Z) : Z * Z :=
  fold_left (fun mask cap =>
    let bit := Z.shiftl 1 (cap mod 32) in
    if (cap / 32 =? 0)%Z then (Z.lor mask.1 bit, mask.2) else (mask.1, Z.lor mask.2 bit)) capabilities (0, 0)%Z.

(** The capability sets that [capset] gets: two words each. *)
Definition kept_capabilities : list CapData :=
  let mask := capability_mask KEEP_CAPABILITIES in
  [mkCapData mask.1 mask.1 0; mkCapData mask.2 mask.2 0].

Fixpoint drop_bounding (caps : list Z) : sys unit :=
  match caps with
  | [] => SRet tt
  | cap :: caps' =>
      if bool_decide (cap ∈ KEEP_CAPABILITIES) then drop_bounding caps'
      else do _ := scall (CPrctl (CapbsetDrop cap)) in drop_bounding caps'
  end.

Definition drop_capabilities : sys (result SysError unit) :=
  do _ := drop_bounding (map Z.of_nat (seq 0 64)) in
  scall (CCapset kept_capabilities).

Definition set_no_new_privs : sys (result SysError unit) := scall (CPrctl NoNewPrivs).

(** ** The network *)

Definition set_interface_up (sock : Z) (name : bytes) : sys (result SysError unit) :=
  let? flags := scall (CGetIfFlags sock name) in
  scall (CSetIfFlags sock name (Z.lor flags 1)).

Definition bring_loopback_up : sys (result SysError unit) :=
  let? sock := scall CSocket in
  do result := set_interface_up sock (lit "lo") in
  do _ := scall (CClose sock) in
  SRet result.

Definition unshare_namespace (label : string) (ns : Namespace) : sys (result SysError unit) :=
  serr (context_error ("unshare " +:+ label)) (scall (CUnshare ns)).

(** ** Mounts *)

Definition do_mount (source : option bytes) (target : bytes) (fstype : option bytes) (flags : Z) (data : option bytes)
  : sys (result SysError unit) := scall (CMount (mkMountCall source target fstype flags data)).

Definition mount_private : sys (result SysError unit) :=
  do_mount None (lit "/") None (Z.lor MS_REC MS_PRIVATE) None.

(** [root.join(relative)] for a relative path of plain names. *)
Definition join_root (root : bytes) (relative : path) : bytes :=
  let tail := join_with [47]%Z relative in
  if bool_decide (root = []) || ends_with [47]%Z root then root ++ tail else root ++ [47]%Z ++ tail.

(** [Path::parent] of a path that ends in a plain name. *)
Definition parent_of (p : bytes) : bytes :=
  match rsplit_once 47 p with
  | Some ([], _) => [47]%Z
  | Some (parent, _) => parent
  | None => []
  end.

Definition prepare_bind_target (target : bytes) (source_is_dir : bool) : sys (result SysError unit) :=
  if source_is_dir then scall (CCreateDirAll target)
  else
    scall (CCreateDirAll (parent_of target)) ?;
    do file := scall (CCreateFile target) in
    match file with
    | Ok fd => do _ := scall (CClose fd) in SRet (Ok tt)
    | Err e => SRet (Err e)
    end.

Definition prepare_target_error (mount : SandboxLauncherMount) : SysError -> SysError :=
  context_error ("prepare mount target '" +:+ show (sm_target mount) +:+ "'").

Definition bind_flags (source_is_dir : bool) : Z := if source_is_dir then Z.lor MS_BIND MS_REC else MS_BIND.
Definition remount_readonly_flags : Z := Z.lor (Z.lor MS_BIND MS_REMOUNT) MS_RDONLY.

Definition bind_mount (mount : SandboxLauncherMount) (target : bytes) : sys (result SysError unit) :=
  match sm_source mount with
  | None => SRet (Err (other "bind source missing"))
  | Some source =>
      let? source_is_dir := serr (context_error ("stat bind source '" +:+ show source +:+ "'")) (scall (CIsDir source true)) in
      serr (prepare_target_error mount) (prepare_bind_target target source_is_dir) ?;
      serr (context_error ("bind mount '" +:+ show source +:+ "' -> '" +:+ show (sm_target mount) +:+ "'"))
        (do_mount (Some source) target None (bind_flags source_is_dir) None) ?;
      if sm_readonly mount then
        serr (context_error ("remount readonly bind '" +:+ show (sm_target mount) +:+ "'"))
          (do_mount (Some source) target None remount_readonly_flags None)
      else SRet (Ok tt)
  end.

Definition proc_flags (readonly : bool) : Z :=
  let flags := Z.lor (Z.lor MS_NOSUID MS_NODEV) MS_NOEXEC in
  if readonly then Z.lor flags MS_RDONLY else flags.

Definition proc_mount (mount : SandboxLauncherMount) (target : bytes) : sys (result SysError unit) :=
  serr (prepare_target_error mount) (scall (CCreateDirAll target)) ?;
  serr (context_error ("mount proc '" +:+ show (sm_target mount) +:+ "'"))
    (do_mount (Some (lit "proc")) target (Some (lit "proc")) (proc_flags (sm_readonly mount)) None).

(** [tmpfs_mount_options]. *)
Definition tmpfs_mount_options (options : list bytes) (readonly : bool) : Z * option bytes :=
  let '(flags, data_options) :=
    fold_left (fun '(flags, data_options) option =>
      if bytes_eqb option (lit "nosuid") then (Z.lor flags MS_NOSUID, data_options)
      else if bytes_eqb option (lit "nodev") then (Z.lor flags MS_NODEV, data_options)
      else if bytes_eqb option (lit "noexec") then (Z.lor flags MS_NOEXEC, data_options)
      else (flags, data_options ++ [option])) options (0%Z, []) in
  (if readonly then Z.lor flags MS_RDONLY else flags,
   if bool_decide (data_options = []) then None else Some (join_with (lit ",") data_options)).

Definition tmpfs_mount (mount : SandboxLauncherMount) (target : bytes) : sys (result SysError unit) :=
  serr (prepare_target_error mount) (scall (CCreateDirAll target)) ?;
  let '(flags, data) := tmpfs_mount_options (sm_options mount) (sm_readonly mount) in
  serr (context_error ("mount tmpfs '" +:+ show (sm_target mount) +:+ "'"))
    (do_mount (Some (lit "tmpfs")) target (Some (lit "tmpfs")) flags data).

Definition mount_one (root : bytes) (mount : SandboxLauncherMount) : sys (result SysError unit) :=
  match relative_launcher_target (sm_target mount) with
  | Err e => SRet (Err (context_error ("resolve mount target '" +:+ show (sm_target mount) +:+ "'") (other e)))
  | Ok relative =>
      let target := join_root root relative in
      match sm_kind mount with
      | Bind => bind_mount mount target
      | Proc => proc_mount mount target
      | Tmpfs => tmpfs_mount mount target
      end
  end.

Definition mount_layout (config : SandboxLauncherConfig) : sys (result SysError unit) :=
  stry_each (mount_one (sl_root config)) (sl_mounts config).

(** [overlay_mount_data]. *)
Definition overlay_mount_data (overlay : SandboxRootOverlay) (redirect_dir : bool) : bytes :=
  lit "lowerdir=" ++ so_lower overlay ++ lit ",upperdir=" ++ so_upper overlay ++ lit ",workdir=" ++ so_work overlay
  ++ lit ",metacopy=off" ++ (if redirect_dir then lit ",redirect_dir=off" else []).

Definition overlay_call (root : bytes) (overlay : SandboxRootOverlay) (redirect_dir : bool) : MountCall :=
  mkMountCall (Some (lit "overlay")) root (Some (lit "overlay")) 0 (Some (overlay_mount_data overlay redirect_dir)).

Definition mount_root_overlay (config : SandboxLauncherConfig) : sys (result SysError unit) :=
  match sl_root_overlay config with
  | None => SRet (Ok tt)
  | Some overlay =>
      do first := scall (CMount (overlay_call (sl_root config) overlay true)) in
      do result :=
        match first with
        | Err error =>
            if kind_permission_denied error then scall (CMount (overlay_call (sl_root config) overlay false))
            else SRet (Err error)
        | Ok _ => SRet (Ok tt)
        end in
      SRet (map_err (context_error ("mount root overlay at '" +:+ show (sl_root config) +:+ "'")) result)
  end.

(** ** Descriptors and children *)

Definition set_close_on_exec (fd : Z) : sys (result SysError unit) :=
  let? flags := scall (CGetFd fd) in
  scall (CSetFd fd (Z.lor flags FD_CLOEXEC)).

Definition exit_code_from_wait_status (status : WaitStatus) : Z :=
  match status with
  | WExited code => code
  | WSignaled signal => 128 + signal
  | _ => 1
  end.

Fixpoint wait_for_child (n : nat) (child : Z) : sys (result SysError Z) :=
  match n with
  | O => SSpin
  | S n' =>
      do r := scall (CWaitPid child) in
      match r with
      | Ok status => SRet (Ok (exit_code_from_wait_status status))
      | Err e => if interrupted e then wait_for_child n' child else SRet (Err e)
      end
  end.

(** [serde_json] on launcher configurations. *)
Class LauncherJson := launcher_config_from_slice : bytes -> result string SandboxLauncherConfig.

Section Launcher.
Context (fuel : nat) `{EventJson} `{RunnerJson} `{LauncherJson}.

Definition write_launcher_report (file : Z) (report : SandboxRunnerFailureReport) : sys unit :=
  do _ := write_report file report in SRet tt.
Definition write_launcher_failure (file : Z) (label : string) (error : SysError) : sys unit :=
  write_launcher_report file (report_runtime label (se_text error)).

(** [run_pid1]. *)
Definition run_pid1 (config : SandboxLauncherConfig) (failure_report event_fd : Z) : sys (result SysError Z) :=
  serr (context_error "mount root overlay") (mount_root_overlay config) ?;
  serr (context_error "mount sandbox layout") (mount_layout config) ?;
  serr (context_error "set no_new_privs") set_no_new_privs ?;
  serr (context_error ("chroot '" +:+ show (sl_root config) +:+ "'")) (scall (CChroot (sl_root config))) ?;
  serr (context_error "chdir '/' after chroot") (scall (CChdir (lit "/"))) ?;
  serr (context_error "drop capabilities") drop_capabilities ?;
  do outcome := run_config_path fuel (sl_runner_config config) event_fd in
  match outcome with
  | Reported code => SRet (Ok code)
  | EarlyFailure report =>
      do _ := write_launcher_report failure_report report in
      SRet (Ok 2%Z)
  end.

(** [run_supervisor]. *)
Definition run_supervisor (config : SandboxLauncherConfig) (failure_report event_fd : Z) : sys (result SysError Z) :=
  unshare_namespace "mount namespace" NEWNS ?;
  unshare_namespace "network namespace" NEWNET ?;
  serr (context_error "bring up loopback") bring_loopback_up ?;
  unshare_namespace "UTS namespace" NEWUTS ?;
  unshare_namespace "IPC namespace" NEWIPC ?;
  serr (context_error "set hostname") (scall (CSetHostname (lit "bobr"))) ?;
  serr (context_error "make mount tree private") mount_private ?;
  unshare_namespace "PID namespace" NEWPID ?;
  let? side := scall CFork in
  match side with
  | InChild =>
      do _ := scall (CPrctl PdeathsigKill) in
      do result := run_pid1 config failure_report event_fd in
      do code :=
        match result with
        | Ok code => SRet code
        | Err error => do _ := write_launcher_failure failure_report "launcher-pid1" error in SRet 1%Z
        end in
      sexit code
  | InParent child =>
      do _ := scall (CClose event_fd) in
      wait_for_child fuel child
  end.

(** [read_launcher_config]. *)
Definition read_launcher_config (p : bytes) : sys (result string SandboxLauncherConfig) :=
  do content := scall (CReadFile p) in
  SRet (
    content <- map_err (fun e => "failed to read launcher config '" +:+ show p +:+ "': " +:+ se_text e) content ;;
    config <- map_err (fun e => "failed to parse launcher config '" +:+ show p +:+ "': " +:+ e)
                (launcher_config_from_slice content) ;;
    if negb (sl_protocol_version config =? SANDBOX_PROTOCOL_VERSION)%Z then
      Err ("unsupported launcher protocol " +:+ show_z (sl_protocol_version config) +:+ "; expected 7")
    else
      map_err (fun e => "invalid launcher config '" +:+ show p +:+ "': " +:+ e) (validate_launcher_config config) ;;;
      Ok config).

(** [launch]. *)
Definition launch (wait_fd event_fd : Z) (config_path : bytes) : sys Z :=
  do config := read_launcher_config config_path in
  match config with
  | Err error => do _ := scall (CEprintln error) in SRet 2%Z
  | Ok config =>
      do file := scall (CCreateFile (sl_failure_report config)) in
      match file with
      | Err error =>
          do _ := scall (CEprintln ("failed to open launcher failure report '" +:+ show (sl_failure_report config)
                                    +:+ "': " +:+ se_text error)) in
          SRet 2%Z
      | Ok report =>
          do shaken := read_handshake_byte fuel wait_fd in
          match shaken with
          | Err error => do _ := write_launcher_failure report "launcher-handshake" error in SRet 1%Z
          | Ok _ =>
              do _ := scall (CClose wait_fd) in
              do closing := set_close_on_exec event_fd in
              match closing with
              | Err error => do _ := write_launcher_failure report "launcher-event-fd" error in SRet 1%Z
              | Ok _ =>
                  do code := run_supervisor config report event_fd in
                  match code with
                  | Ok code => SRet code
                  | Err error => do _ := write_launcher_failure report "launcher-bootstrap" error in SRet 1%Z
                  end
              end
          end
      end
  end.

(** ** The command line *)

(** [str::parse::<i32>]: a sign and decimal digits, within range. *)
Definition parse_digits (limit : Z) (digits : bytes) : option Z :=
  if bool_decide (digits = []) || negb (forallb is_digit digits) || (limit <? read_decimal digits)%Z then None
  else Some (read_decimal digits).
Definition parse_i32 (s : bytes) : option Z :=
  match s with
  | 45%Z :: digits => option_map Z.opp (parse_digits (2 ^ 31) digits)
  | 43%Z :: digits => parse_digits (2 ^ 31 - 1) digits
  | _ => parse_digits (2 ^ 31 - 1) s
  end.

Definition parse_launch_args (args : list bytes) : result string (Z * Z * bytes) :=
  match args with
  | [_; a1; a2; a3; a4; a5; a6; a7] =>
      if negb (bytes_eqb a1 (lit "launch")) || negb (bytes_eqb a2 (lit "--wait-fd"))
         || negb (bytes_eqb a4 (lit "--event-fd")) || negb (bytes_eqb a6 (lit "--config"))
      then Err "usage: bobr-sandbox-launcher launch --wait-fd FD --event-fd FD --config PATH"
      else
        wait_fd <- ok_or (parse_i32 a3) ("invalid --wait-fd '" +:+ show a3 +:+ "'") ;;
        event_fd <- ok_or (parse_i32 a5) ("invalid --event-fd '" +:+ show a5 +:+ "'") ;;
        if (wait_fd <=? 2)%Z || (event_fd <=? 2)%Z || (wait_fd =? event_fd)%Z
        then Err "protocol fds must be distinct and must not be stdio"
        else Ok (wait_fd, event_fd, a7)
  | _ => Err "usage: bobr-sandbox-launcher launch --wait-fd FD --event-fd FD --config PATH"
  end.

(** [main], without [--protocol-info]: the process ends with the code. *)
Definition launcher_main (args : list bytes) : sys Z :=
  match parse_launch_args args with
  | Ok (wait_fd, event_fd, config_path) => launch wait_fd event_fd config_path
  | Err message => do _ := scall (CEprintln message) in SRet 2%Z
  end.
End Launcher.
