(* ===== verification/SandboxCalls.v ===== *)
(** * Which calls the parts of the sandbox make

    The calls of each routine of the runner and the launcher: whether it can
    touch the isolation of its process ([quiet]), and whether it can write
    ([plain], [hushed]). *)

From S2P Require Import Prelude Errors SandboxProtocol SandboxKernel SandboxRunner SandboxLauncher.

(** Calls that change nothing of the sandbox. *)
Definition quiet (c : Call) : Prop :=
  match c with
  | CExecve _ | CMount _ | CFork | CUnshare _ | CSetFd _ _ | CSetHostname _ | CPrctl _ | CCapset _ | CChroot _
  | CChdir _ | CUmask _ | CSetgid _ | CSetuid _ => False
  | _ => True
  end.

(** Calls that write nothing. *)
Definition hushed (c : Call) : Prop :=
  match c with CWrite _ _ => False | _ => True end.

Definition plain (c : Call) : Prop :=
  match c with CWrite _ _ => False | _ => quiet c end.

Lemma plain_quiet c : plain c -> quiet c.
Proof. by destruct c. Qed.
Lemma plain_hushed c : plain c -> hushed c.
Proof. by destruct c. Qed.

Lemma only_plain_quiet {A} (m : sys A) : only plain m -> only quiet m.
Proof. intros Hm. by eapply only_weaken; [|apply plain_quiet]. Qed.
Lemma only_plain_hushed {A} (m : sys A) : only plain m -> only hushed m.
Proof. intros Hm. by eapply only_weaken; [|apply plain_hushed]. Qed.
#[export] Hint Resolve only_plain_quiet only_plain_hushed : only.

Lemma plain_elapsed start : only plain (elapsed_ms start).
Proof. unfold elapsed_ms. only_calls. Qed.

Lemma plain_reap n : only plain (reap_finished_children n).
Proof. induction n; cbn [reap_finished_children]; only_calls. Qed.
#[export] Hint Resolve plain_elapsed plain_reap : only.

Lemma plain_terminate fuel : only plain (terminate_remaining_children fuel).
Proof. unfold terminate_remaining_children. only_calls. Qed.

Lemma plain_chown_contents n dir uid gid : only plain (chown_dir_contents n dir uid gid).
Proof. revert dir. induction n as [|n IH]; intros dir; cbn [chown_dir_contents]; only_calls. Qed.
#[export] Hint Resolve plain_terminate plain_chown_contents : only.

Lemma plain_prepare fuel self : only plain (prepare fuel self).
Proof. unfold prepare, chown_tree. only_calls. Qed.

Lemma plain_setgroups : only plain setgroups_allowed.
Proof. unfold setgroups_allowed. only_calls. Qed.

Lemma plain_step_new step : only plain (step_new step).
Proof. unfold step_new. only_calls. Qed.

Lemma plain_prepare_bind target source_is_dir : only plain (prepare_bind_target target source_is_dir).
Proof. unfold prepare_bind_target. only_calls. Qed.

Lemma plain_handshake n fd : only plain (read_handshake_byte n fd).
Proof. induction n; cbn [read_handshake_byte]; only_calls. Qed.
#[export] Hint Resolve plain_prepare plain_setgroups plain_step_new plain_prepare_bind plain_handshake : only.

Lemma quiet_emit `{EventJson} writer event : only quiet (emit writer event).
Proof. unfold emit, write_sandbox_event. only_calls. Qed.

Lemma quiet_report `{RunnerJson} fd report : only quiet (write_report fd report).
Proof. unfold write_report. only_calls. Qed.
#[export] Hint Resolve quiet_emit quiet_report : only.

Lemma quiet_report_of `{RunnerJson} fd report : only quiet (write_launcher_report fd report).
Proof. unfold write_launcher_report. only_calls. Qed.
#[export] Hint Resolve quiet_report_of : only.

(** A step writes nothing itself. *)
Lemma hushed_step_error {A} step start message (m : sys (result SysError A)) :
  only hushed m -> only hushed (step_error step start message m).
Proof. intros Hm. unfold step_error. only_calls. Qed.

Lemma hushed_credentials run_as allowed : only hushed (apply_step_credentials run_as allowed).
Proof. destruct run_as, allowed; cbn [apply_step_credentials]; only_calls. Qed.
#[export] Hint Resolve hushed_step_error hushed_credentials : only.

Lemma hushed_spawn command step allowed : only hushed (command_spawn command (step_pre_exec step allowed)).
Proof. unfold command_spawn, step_pre_exec. only_calls. Qed.
#[export] Hint Resolve hushed_spawn : only.

Lemma hushed_step_run fuel step : only hushed (step_run fuel step).
Proof. unfold step_run. only_calls; apply hushed_step_error; only_calls. Qed.
#[export] Hint Resolve hushed_step_run : only.
