(* ===== verification/SandboxIsolation.v ===== *)
(** * What the sandbox guarantees to the host

    Every command that the launcher executes for a step runs isolated: in
    namespaces of its own, on the mounts of the configuration with the read-only
    ones read-only, inside the root, without new privileges, with the kept
    capabilities at most, without the descriptors of the protocol, and as the
    configuration of the step says.  No mount can reach the host. *)

From S2P Require Import Prelude Errors Posix SandboxProtocol SandboxKernel SandboxRunner SandboxLauncher SandboxCalls.

Open Scope sys_scope.

(** ** The specification *)

(** The mounts that one entry of the configuration stands for. *)
Definition mount_done (root : bytes) (m : SandboxLauncherMount) (l : list MountCall) : Prop :=
  exists relative, relative_launcher_target (sm_target m) = Ok relative /\
    let target := join_root root relative in
    match sm_kind m with
    | Bind => exists source source_is_dir, sm_source m = Some source /\
        l = mkMountCall (Some source) target None (bind_flags source_is_dir) None
            :: (if sm_readonly m then [mkMountCall (Some source) target None remount_readonly_flags None] else [])
    | Proc => l = [mkMountCall (Some (lit "proc")) target (Some (lit "proc")) (proc_flags (sm_readonly m)) None]
    | Tmpfs =>
        let '(flags, data) := tmpfs_mount_options (sm_options m) (sm_readonly m) in
        l = [mkMountCall (Some (lit "tmpfs")) target (Some (lit "tmpfs")) flags data]
    end.

(** The overlay of the root, if there is one, comes first. *)
Definition overlay_done (config : SandboxLauncherConfig) (l : list MountCall) : Prop :=
  match sl_root_overlay config with
  | None => l = []
  | Some overlay => exists redirect_dir, l = [overlay_call (sl_root config) overlay redirect_dir]
  end.

Definition layout_done (config : SandboxLauncherConfig) (mounts : list SandboxLauncherMount) (l : list MountCall) : Prop :=
  exists overlay logs, overlay_done config overlay /\ Forall2 (mount_done (sl_root config)) mounts logs /\
    l = overlay ++ concat logs.

(** The kept capabilities, or none of them; never an inheritable one. *)
Definition no_capabilities : list CapData := [mkCapData 0 0 0; mkCapData 0 0 0].

Definition ALL_NAMESPACES : list Namespace := [NEWNS; NEWNET; NEWUTS; NEWIPC; NEWPID].

Section Isolation.
Context (fuel : nat) {EJ : EventJson} {RJ : RunnerJson} {LJ : LauncherJson}.
Context (wait_fd event_fd : Z) (config_path : bytes) (inherited : gset Z).

(** The launcher as the host starts it: as the superuser (of its user
    namespace), with some inherited descriptors. *)
Definition started_proc : Process :=
  mkProcess [] false false [] None false None None None 0 0 None inherited [] [] no_dealings.

(** The configuration is the one in the file, accepted. *)
Definition config_of (config : SandboxLauncherConfig) (s : Process) : Prop :=
  exists b, (config_path, b) ∈ p_files s /\ launcher_config_from_slice b = Ok config /\
    sl_protocol_version config = SANDBOX_PROTOCOL_VERSION /\ validate_launcher_config config = Ok tt.

Record sandboxed (config : SandboxLauncherConfig) (s : Process) : Prop := mkSandboxed {
  sb_config : config_of config s;
  sb_namespaces : ALL_NAMESPACES ⊆ p_namespaces s;
  sb_pid_namespace : p_in_pid_namespace s = true;
  sb_private : p_private s = true;
  sb_mounts : layout_done config (sl_mounts config) (p_mounts s);
  sb_hostname : p_hostname s = Some (lit "bobr");
  sb_no_new_privs : p_no_new_privs s = true;
  sb_root : p_root s = Some (sl_root config);
  sb_cwd : p_cwd s <> None;
  sb_caps : p_caps s = Some kept_capabilities \/ p_caps s = Some no_capabilities;
  sb_inherited : p_inherited s ⊆ inherited ∖ {[ wait_fd; event_fd ]};
}.

(** A step of the runner configuration that was read in the sandbox. *)
Definition configured_step (config : SandboxLauncherConfig) (s : Process) (step : RunnerStepConfig) : Prop :=
  exists b runner, (sl_runner_config config, b) ∈ p_files s /\ runner_config_from_slice b = Ok runner /\
    rc_protocol_version runner = SANDBOX_PROTOCOL_VERSION /\ step ∈ rc_steps runner.

(** The process and the command are what the step says. *)
Definition runs_step (s : Process) (command : Command) (step : RunnerStepConfig) : Prop :=
  rs_argv step = cmd_program command :: cmd_args command /\ cmd_env command = Some (rs_env step) /\
  p_cwd s = Some (rs_cwd step) /\ p_umask s = Some (rs_umask step) /\ (rs_umask step <= 0x1ff)%Z /\
  match rs_run_as step with
  | BuildUser => p_uid s = 1%Z /\ p_gid s = 1%Z /\ p_caps s = Some no_capabilities
  | Root => p_uid s = 0%Z /\ p_gid s = 0%Z /\ p_caps s = Some kept_capabilities
  end.

(** What may be done in which state. *)
Definition isolating (s : Process) (c : Call) : Prop :=
  match c with
  | CExecve command =>
      exists config step, sandboxed config s /\ configured_step config s step /\ runs_step s command step
  | CMount m => NEWNS ∈ p_namespaces s /\ (m = make_private \/ p_private s = true)
  | _ => True
  end.

Abbreviation safe' := (safe isolating).

(** ** The runner *)

(** The runner between two steps; [files] have been read. *)
Record runner_inv (config : SandboxLauncherConfig) (files : list (bytes * bytes)) (s : Process) : Prop := {
  ri_sandboxed : sandboxed config s;
  ri_caps : p_caps s = Some kept_capabilities;
  ri_ids : p_uid s = 0%Z /\ p_gid s = 0%Z;
  ri_files : files ⊆ p_files s;
}.

(** Cases on the answer of a call. *)
Ltac answered :=
  repeat match goal with
  | |- context [match ?r with Ok _ => _ | Err _ => _ end] => destruct r; simpl; try done
  | |- context [let (_, _) := ?p in _] => destruct p; simpl; try done
  | |- context [match ?o with Some _ => _ | None => _ end] => destruct o; simpl; try done
  | |- context [match ?o with [] => _ | _ :: _ => _ end] => destruct o; simpl; try done
  end.

Lemma config_of_files config s s' : p_files s ⊆ p_files s' -> config_of config s -> config_of config s'.
Proof. intros Hf (b & Hb & Hc). exists b. split; [by apply Hf|done]. Qed.

Ltac by_fields Hs :=
  destruct Hs; constructor; simpl; first [done | (eapply config_of_files; [|done]; simpl; set_solver) | set_solver].

Lemma quiet_sandboxed config c s : quiet c -> sandboxed config s -> forall a, sandboxed config (after s c a).
Proof.
  intros Hq Hs a. destruct c; try done; simpl in *; try done;
    answered;
    by_fields Hs.
Qed.

Lemma quiet_runner config files c s : quiet c -> runner_inv config files s ->
  isolating s c /\ forall a, runner_inv config files (after s c a).
Proof.
  intros Hq Hi. split; [by destruct c|]. intros a. pose proof (quiet_sandboxed config c s Hq (ri_sandboxed _ _ _ Hi) a) as Hs.
  destruct Hi as [_ Hc Hu Hf]. constructor; [done| | |]; destruct c; try done; simpl in *;
    answered; try done;
    set_solver.
Qed.

Lemma safe_quietly {A} config files (m : sys A) s : only quiet m -> runner_inv config files s ->
  safe' m (fun _ => runner_inv config files) s.
Proof. intros Hm Hs. eapply safe_only; [|done|done]. intros. by apply quiet_runner. Qed.

(** A step that was made from a step of the configuration. *)
Record built (rs : RunnerStepConfig) (st : SandboxRunnerStep) : Prop := {
  bu_argv : st_argv st = rs_argv rs;
  bu_env : st_env st = rs_env rs;
  bu_cwd : st_cwd st = rs_cwd rs;
  bu_umask : st_umask st = rs_umask rs /\ (rs_umask rs <= 0x1ff)%Z;
  bu_run_as : st_run_as st = rs_run_as rs;
}.

Lemma configured_files config s s' rs :
  p_files s ⊆ p_files s' -> configured_step config s rs -> configured_step config s' rs.
Proof. intros Hf (b & r & Hb & Hr). exists b, r. split; [by apply Hf|done]. Qed.

Lemma sandboxed_child config s cwd umask uid gid caps : sandboxed config s ->
  caps = Some kept_capabilities \/ caps = Some no_capabilities ->
  sandboxed config (set_caps caps (set_ids uid gid umask (set_root (p_root s) (Some cwd) (set_child_of_fork s)))).
Proof. intros [] Hcaps. constructor; simpl; try done. by apply orb_true_iff; left. Qed.

Lemma runner_inv_deal config files f s : runner_inv config files s -> runner_inv config files (deal f s).
Proof. intros [[] ? ? ?]. constructor; [by constructor|done|done|done]. Qed.

(** The new process of a step. *)
Lemma safe_spawn config files s step rs executable args stdout stderr allowed :
  runner_inv config files s -> configured_step config s rs -> built rs step -> st_argv step = executable :: args ->
  safe' (command_spawn (step_command step executable args stdout stderr) (step_pre_exec step allowed))
    (fun _ => runner_inv config files) s.
Proof.
  intros Hi Hc Hb Ha. assert (runner_inv config files s) as [Hs Hcaps [Hu Hg] _] by done.
  assert (forall s' : Process, safe' (sexit 1) (fun _ : result SysError Z => runner_inv config files) s') as Hend.
  { intros s'. split; [done|intros []]. }
  split; [done|]. intros [[|child]|e]; [| |done].
  2: { split; [done|]. intros [[]|e]; simpl; repeat apply runner_inv_deal; done. }
  cbn. split; [done|]. intros [[]|e]; [|apply Hend]. cbn. split; [done|]. intros [].
  destruct Hb as [Hargv Henv Hcwd [Hmask Hmax] Hrun].
  destruct (st_run_as step) eqn:Er; cbn.
  - assert (forall s', s' = after (after (after s CFork (Ok InChild)) (CChdir (st_cwd step)) (Ok tt)) (CUmask (st_umask step)) tt ->
      safe' (do ready := apply_step_credentials BuildUser false in
             match ready with
             | Ok _ => do _ := scall (CExecve (step_command step executable args stdout stderr)) in sexit 1
             | Err _ => sexit 1
             end) (fun _ : result SysError Z => runner_inv config files) s') as Hids.
    { intros s' ->. cbn. split; [done|]. intros [[]|e]; [|apply Hend]. cbn. split; [done|].
      intros [[]|e]; [|apply Hend]. cbn. split; [|intros e; apply Hend].
      exists config, rs. split_and!.
      - apply (sandboxed_child config s (st_cwd step) (Some (st_umask step)) 1 1 (caps_of_setuid (p_uid s) 1 (p_caps s))); [done|].
        right. by rewrite Hu, Hcaps.
      - by eapply configured_files; [|exact Hc].
      - unfold runs_step. cbn. rewrite <- Hrun, <- Hargv, Ha, Henv, Hcwd, Hmask, Hu, Hcaps. done. }
    destruct allowed; cbn; [split; [done|]; intros [[]|e]; [|apply Hend]|]; exact (Hids _ eq_refl).
  - split; [|intros e; apply Hend]. exists config, rs. split_and!.
    + pose proof (sandboxed_child config s (st_cwd step) (Some (st_umask step)) (p_uid s) (p_gid s) (p_caps s) Hs) as Hx.
      apply Hx. by left.
    + by eapply configured_files; [|exact Hc].
    + unfold runs_step. cbn. rewrite <- Hrun, <- Hargv, Ha, Henv, Hcwd, Hmask, Hu, Hg, Hcaps. done.
Qed.

(** The runner on one configuration. *)
Section Runner.
Context (config : SandboxLauncherConfig) (b : bytes) (runner : RunnerConfig).
Context (Hjson : runner_config_from_slice b = Ok runner)
        (Hversion : rc_protocol_version runner = SANDBOX_PROTOCOL_VERSION).

Abbreviation rinv := (runner_inv config [(sl_runner_config config, b)]).
Definition from_config (st : SandboxRunnerStep) : Prop := exists rs, rs ∈ rc_steps runner /\ built rs st.

Lemma rinv_configured rs s : rs ∈ rc_steps runner -> rinv s -> configured_step config s rs.
Proof. intros Hrs Hi. exists b, runner. split_and!; try done. apply (ri_files _ _ _ Hi). set_solver. Qed.

Lemma safe_step_error {A} step start message (m : sys (result SysError A)) s :
  safe' m (fun _ => rinv) s -> safe' (step_error step start message m) (fun _ => rinv) s.
Proof.
  intros Hm. eapply safe_seq; [exact Hm|]. intros [a|e] s' Hs; [done|].
  apply safe_quietly; [|done]. only_calls.
Qed.

Lemma safe_quiet_then {A B} (m : sys A) (f : A -> sys B) s :
  only quiet m -> rinv s -> (forall a s', rinv s' -> safe' (f a) (fun _ => rinv) s') -> safe' (sbind m f) (fun _ => rinv) s.
Proof. intros Hm Hs Hf. eapply safe_seq; [by apply safe_quietly|done]. Qed.

Lemma safe_quiet_try {E A B} (m : sys (result E A)) (f : A -> sys (result E B)) s :
  safe' m (fun _ => rinv) s -> (forall a s', rinv s' -> safe' (f a) (fun _ => rinv) s') -> safe' (stry m f) (fun _ => rinv) s.
Proof. intros Hm Hf. eapply safe_seq; [exact Hm|]. intros [a|e] s' Hs; [by apply Hf|done]. Qed.

Lemma safe_step_run step s : from_config step -> rinv s -> safe' (step_run fuel step) (fun _ => rinv) s.
Proof.
  intros (rs & Hrs & Hb) Hs. unfold step_run. destruct (st_argv step) as [|executable args] eqn:Ea; [done|].
  apply safe_quiet_then; [only_calls|done|]. intros start s1 H1.
  apply safe_quiet_try; [apply safe_step_error, safe_quietly; [only_calls|done]|]. intros stdout s2 H2.
  apply safe_quiet_try; [apply safe_step_error, safe_quietly; [only_calls|done]|]. intros stderr s3 H3.
  apply safe_quiet_then; [only_calls|done|]. intros allowed s4 H4.
  apply safe_quiet_try.
  { apply safe_step_error. eapply safe_spawn; [done|by apply rinv_configured|done|done]. }
  intros child s5 H5.
  apply safe_quiet_try; [apply safe_step_error, safe_quietly; [only_calls|done]|]. intros status s6 H6.
  apply safe_quietly; [|done]. only_calls.
Qed.

Lemma safe_run_steps total index writer steps s : Forall from_config steps -> rinv s ->
  safe' (run_steps fuel total index writer steps) (fun _ => rinv) s.
Proof.
  intros Hsteps. revert index writer s. induction Hsteps as [|step steps Hstep _ IH]; intros index writer s Hs; [done|].
  cbn [run_steps]. apply safe_quiet_then; [apply quiet_emit|done|]. intros writer1 s1 H1.
  eapply safe_seq; [by apply safe_step_run|]. intros [ms|report] s2 H2.
  - apply safe_quiet_then; [apply quiet_emit|done|]. intros writer2 s3 H3. by apply IH.
  - apply safe_quietly; [|done]. only_calls.
Qed.

Lemma safe_runner_exec self s : Forall from_config (ru_steps self) -> rinv s ->
  safe' (runner_exec fuel self) (fun _ => rinv) s.
Proof.
  intros Hsteps Hs. unfold runner_exec, runner_run. eapply (safe_seq _ _ _ (fun _ => rinv)).
  - apply safe_quiet_try; [apply safe_quietly; [only_calls|done]|]. intros _ s1 H1. by apply safe_run_steps.
  - intros r s1 H1. apply safe_quietly; [|done]. apply only_bind.
    + destruct r; only_calls.
    + only_calls.
Qed.

Lemma safe_step_new rs s : rs ∈ rc_steps runner -> rinv s ->
  safe' (step_new rs) (success (fun st s' => rinv s' /\ from_config st)) s.
Proof.
  intros Hrs Hs. unfold step_new, validate_umask. destruct (rs_umask rs <=? 0x1ff)%Z eqn:G; [|done]. bools.
  eapply (safe_stry _ _ _ (fun _ => rinv)).
  { eapply safe_weaken; [apply safe_quietly; [only_calls|exact Hs]|]. by intros []. }
  intros stdout s1 H1. eapply (safe_stry _ _ _ (fun _ => rinv)).
  { eapply safe_weaken; [apply safe_quietly; [only_calls|exact H1]|]. by intros []. }
  intros stderr s2 H2. split; [done|]. exists rs. split; [done|]. by constructor.
Qed.

Lemma safe_runner_new event_writer s : rinv s ->
  safe' (runner_new runner event_writer) (success (fun self s' => rinv s' /\ Forall from_config (ru_steps self))) s.
Proof.
  intros Hs. unfold runner_new. eapply (safe_stry _ _ _ (fun _ => rinv)).
  { eapply safe_weaken; [apply safe_quietly; [only_calls|exact Hs]|]. by intros []. }
  intros report s1 H1. eapply (safe_stry _ _ _ (fun steps s' => rinv s' /\ Forall from_config steps)).
  - assert (Forall (fun rs => rs ∈ rc_steps runner) (rc_steps runner)) as Hall by (by apply Forall_forall).
    revert Hall. generalize (rc_steps runner) at 2 3. intros l Hl. revert s1 H1.
    induction Hl as [|rs l Hrs _ IH]; intros s1 H1; [done|]. cbn [stry_map].
    eapply safe_stry; [by apply safe_step_new|]. intros st s2 [H2 Hst].
    eapply safe_stry; [by apply IH|]. intros sts s3 [H3 Hsts]. split; [done|by constructor].
  - intros steps s2 [H2 Hst]. by split.
Qed.

Lemma safe_run_config event_writer s : rinv s -> safe' (run_config fuel runner event_writer) (fun _ _ => True) s.
Proof.
  intros Hs. unfold run_config. destruct (negb _); [done|].
  eapply safe_seq; [by apply safe_runner_new|]. intros [self|e] s1 H1; [|done].
  eapply safe_seq; [by apply safe_runner_exec; apply H1|]. done.
Qed.
End Runner.

Lemma safe_run_config_path config event_writer s : runner_inv config [] s ->
  safe' (run_config_path fuel (sl_runner_config config) event_writer) (fun _ _ => True) s.
Proof.
  intros Hs. split; [done|]. intros [b|e]; [|done]. cbn [map_err sbind].
  pose proof (quiet_runner config [] (CReadFile (sl_runner_config config)) s I Hs) as [_ Hr]. specialize (Hr (Ok b)).
  destruct (runner_config_from_slice b) as [runner|e] eqn:Ej; [|done].
  destruct (decide (rc_protocol_version runner = SANDBOX_PROTOCOL_VERSION)) as [Hv|Hv].
  - eapply safe_run_config; [done|done|]. destruct Hr as [Hs1 Hc Hi _]. constructor; try done.
    simpl. set_solver.
  - unfold run_config. rewrite (proj2 (Z.eqb_neq _ _) Hv). exact I.
Qed.

(** ** The setup *)

(** The launcher on its way: namespaces left, the host name set, mounts private. *)
Record prepared (config : SandboxLauncherConfig) (l : list Namespace) (host private : bool) (s : Process) : Prop := {
  pr_config : config_of config s;
  pr_namespaces : l ⊆ p_namespaces s;
  pr_hostname : host = true -> p_hostname s = Some (lit "bobr");
  pr_private : private = true -> p_private s = true;
  pr_mounts : p_mounts s = [];
  pr_ids : p_uid s = 0%Z /\ p_gid s = 0%Z;
  pr_inherited : p_inherited s ⊆ inherited ∖ {[ wait_fd; event_fd ]};
}.

(** Process 1 of the sandbox, with the mounts it has made. *)
Record setting (config : SandboxLauncherConfig) (mounts : list MountCall) (nnp chrooted : bool) (s : Process) : Prop := {
  se_config : config_of config s;
  se_namespaces : ALL_NAMESPACES ⊆ p_namespaces s;
  se_pid_namespace : p_in_pid_namespace s = true;
  se_private : p_private s = true;
  se_mounts : p_mounts s = mounts;
  se_hostname : p_hostname s = Some (lit "bobr");
  se_nnp : nnp = true -> p_no_new_privs s = true;
  se_root : chrooted = true -> p_root s = Some (sl_root config) /\ p_cwd s <> None;
  se_ids : p_uid s = 0%Z /\ p_gid s = 0%Z;
  se_inherited : p_inherited s ⊆ inherited ∖ {[ wait_fd; event_fd ]};
}.

Lemma quiet_prepared config l host private c s : quiet c -> prepared config l host private s ->
  isolating s c /\ forall a, prepared config l host private (after s c a).
Proof.
  intros Hq Hs. split; [by destruct c|]. intros a. destruct c; try done; simpl in *; try done;
    answered;
    by_fields Hs.
Qed.

Lemma quiet_setting config mounts nnp chrooted c s : quiet c -> setting config mounts nnp chrooted s ->
  isolating s c /\ forall a, setting config mounts nnp chrooted (after s c a).
Proof.
  intros Hq Hs. split; [by destruct c|]. intros a. destruct c; try done; simpl in *; try done;
    answered;
    by_fields Hs.
Qed.

Lemma safe_prepared {E A} config l host private (m : sys (result E A)) s :
  only quiet m -> prepared config l host private s -> safe' m (success (fun _ => prepared config l host private)) s.
Proof.
  intros Hm Hs. eapply safe_weaken; [eapply (safe_only _ quiet); [|done|exact Hs]|].
  - intros. by apply quiet_prepared.
  - by intros [].
Qed.

Lemma safe_setting {E A} config mounts nnp chrooted (m : sys (result E A)) s :
  only quiet m -> setting config mounts nnp chrooted s -> safe' m (success (fun _ => setting config mounts nnp chrooted)) s.
Proof.
  intros Hm Hs. eapply safe_weaken; [eapply (safe_only _ quiet); [|done|exact Hs]|].
  - intros. by apply quiet_setting.
  - by intros [].
Qed.

Lemma safe_unshare config l host private label ns s : prepared config l host private s ->
  safe' (unshare_namespace label ns) (success (fun _ => prepared config (ns :: l) host private)) s.
Proof. intros Hs. apply safe_serr. split; [done|]. intros [[]|e]; [|done]. by_fields Hs. Qed.

(** *** Mounts *)

Lemma sourced_not_private source target fstype flags data :
  mkMountCall (Some source) target fstype flags data <> make_private.
Proof. unfold make_private. congruence. Qed.

Lemma safe_mount config mounts nnp chrooted (g : SysError -> SysError) m s : m <> make_private -> setting config mounts nnp chrooted s ->
  safe' (serr g (scall (CMount m))) (success (fun _ => setting config (mounts ++ [m]) nnp chrooted)) s.
Proof.
  intros Hm Hs. apply safe_serr. split.
  { split; [apply (se_namespaces _ _ _ _ _ Hs); unfold ALL_NAMESPACES; set_solver|right; by destruct Hs]. }
  intros [[]|e]; [|done]. simpl. rewrite decide_False by done.
  destruct Hs. constructor; simpl; try done. by f_equal.
Qed.

Lemma safe_mount_one config mounts m s : setting config mounts false false s ->
  safe' (mount_one (sl_root config) m)
    (success (fun _ s' => exists l, mount_done (sl_root config) m l /\ setting config (mounts ++ l) false false s')) s.
Proof.
  intros Hs. unfold mount_one. destruct (relative_launcher_target (sm_target m)) as [relative|e] eqn:Er; [|done].
  assert (forall l s', setting config (mounts ++ l) false false s' ->
    match sm_kind m with
    | Bind => exists source source_is_dir, sm_source m = Some source /\
        l = mkMountCall (Some source) (join_root (sl_root config) relative) None (bind_flags source_is_dir) None
            :: (if sm_readonly m then [mkMountCall (Some source) (join_root (sl_root config) relative) None
                                         remount_readonly_flags None] else [])
    | Proc => l = [mkMountCall (Some (lit "proc")) (join_root (sl_root config) relative) (Some (lit "proc"))
                     (proc_flags (sm_readonly m)) None]
    | Tmpfs => let '(flags, data) := tmpfs_mount_options (sm_options m) (sm_readonly m) in
        l = [mkMountCall (Some (lit "tmpfs")) (join_root (sl_root config) relative) (Some (lit "tmpfs")) flags data]
    end ->
    exists l, mount_done (sl_root config) m l /\ setting config (mounts ++ l) false false s') as Hdone.
  { intros l s' Hl Hk. exists l. split; [|done]. exists relative. by split. }
  destruct (sm_kind m) eqn:Ek.
  - unfold bind_mount. destruct (sm_source m) as [source|] eqn:Es; [|done].
    eapply safe_stry; [apply safe_setting; [only_calls|exact Hs]|]. intros source_is_dir s1 Hs1.
    eapply safe_stry; [apply safe_setting; [only_calls|exact Hs1]|]. intros ? s2 Hs2.
    eapply safe_stry; [eapply safe_mount; [apply sourced_not_private|exact Hs2]|]. intros ? s3 Hs3. destruct (sm_readonly m) eqn:Ero.
    + eapply safe_weaken; [eapply safe_mount; [apply sourced_not_private|exact Hs3]|]. intros [[]|] s4 Hs4; [|done].
      eapply Hdone; [rewrite <- app_assoc in Hs4; exact Hs4|]. by eexists _, _.
    + eapply Hdone; [exact Hs3|]. by eexists _, _.
  - unfold proc_mount. eapply safe_stry; [apply safe_setting; [only_calls|exact Hs]|]. intros ? s1 Hs1.
    eapply safe_weaken; [eapply safe_mount; [apply sourced_not_private|exact Hs1]|]. intros [[]|] s2 Hs2; [|done]. by eapply Hdone.
  - unfold tmpfs_mount. destruct (tmpfs_mount_options (sm_options m) (sm_readonly m)) as [flags data] eqn:Eo.
    eapply safe_stry; [apply safe_setting; [only_calls|exact Hs]|]. intros ? s1 Hs1.
    eapply safe_weaken; [eapply safe_mount; [apply sourced_not_private|exact Hs1]|]. intros [[]|] s2 Hs2; [|done]. by eapply Hdone.
Qed.

Lemma safe_mount_layout config overlay s : setting config overlay false false s ->
  safe' (mount_layout config) (success (fun _ s' => exists logs,
    Forall2 (mount_done (sl_root config)) (sl_mounts config) logs /\
    setting config (overlay ++ concat logs) false false s')) s.
Proof.
  intros Hs. apply (safe_stry_each _ _ (fun ms s' => exists logs, Forall2 (mount_done (sl_root config)) ms logs /\
    setting config (overlay ++ concat logs) false false s')).
  - exists []. rewrite app_nil_r. by split; [constructor|].
  - intros m ms s' (logs & Hl & Hs') _. eapply safe_weaken; [apply safe_mount_one, Hs'|].
    intros [[]|] s2 H2; [|done]. destruct H2 as (l & Hm & Hs2). exists (logs ++ [l]).
    split; [by apply Forall2_app; [|constructor]|]. rewrite concat_app, app_assoc. simpl. by rewrite app_nil_r.
Qed.

Lemma safe_root_overlay config s : setting config [] false false s ->
  safe' (mount_root_overlay config) (success (fun _ s' => exists l,
    overlay_done config l /\ setting config l false false s')) s.
Proof.
  intros Hs. unfold mount_root_overlay, overlay_done. destruct (sl_root_overlay config) as [overlay|]; [|by exists []].
  assert (forall redirect, safe' (scall (CMount (overlay_call (sl_root config) overlay redirect)))
    (fun r s' => match r with Ok _ => setting config [overlay_call (sl_root config) overlay redirect] false false s'
                 | Err _ => setting config [] false false s' end) s) as Hm.
  { intros redirect. split.
    { split; [apply (se_namespaces _ _ _ _ _ Hs); unfold ALL_NAMESPACES; set_solver|right; by destruct Hs]. }
    intros [[]|e]; [|done]. simpl. destruct Hs. constructor; simpl; try done. by rewrite se_mounts0. }
  split; [apply (Hm true)|]. intros r. pose proof (proj2 (Hm true) r) as H1. cbn [sbind safe scall] in *.
  destruct r as [[]|e]; cbn [sbind].
  { simpl. eexists. split; [by exists true|exact H1]. }
  destruct (kind_permission_denied e); [|done].
  split; [apply (Hm false)|]. intros r. pose proof (proj2 (Hm false) r) as H2. cbn [sbind safe scall] in *.
  destruct r as [[]|e2]; [|done]. simpl. eexists. split; [by exists false|exact H2].
Qed.

(** *** Process 1 *)

(** A program of quiet calls is allowed anywhere. *)
Lemma safe_anywhere {A} (m : sys A) s : only quiet m -> safe' m (fun _ _ => True) s.
Proof. intros Hm. eapply (safe_only _ quiet (fun _ => True)); [|done|done]. intros c s' Hc _. by destruct c. Qed.

Lemma safe_drop_bounding caps s (Q : unit -> Process -> Prop) : Q tt s -> safe' (drop_bounding caps) Q s.
Proof.
  intros HQ. induction caps as [|cap caps IH]; cbn [drop_bounding]; [done|].
  destruct (bool_decide (cap ∈ KEEP_CAPABILITIES)); [done|]. split; [done|]. by intros [[]|e].
Qed.

Lemma safe_run_pid1 config report s : setting config [] false false s ->
  safe' (run_pid1 fuel config report event_fd) (fun _ _ => True) s.
Proof.
  intros Hs. cut (safe' (run_pid1 fuel config report event_fd) (success (fun _ _ => True)) s).
  { intros Hc. by eapply safe_weaken. }
  unfold run_pid1. eapply safe_stry; [apply safe_serr, safe_root_overlay, Hs|]. intros _ s1 (overlay & Ho & Hs1).
  eapply safe_stry; [apply safe_serr, safe_mount_layout, Hs1|]. intros _ s2 (logs & Hl & Hs2).
  eapply (safe_stry _ _ _ (fun _ => setting config (overlay ++ concat logs) true false)).
  { apply safe_serr. split; [done|]. intros [[]|e]; [|done]. by_fields Hs2. }
  intros ? s3 Hs3. eapply (safe_stry _ _ _ (fun _ s' => setting config (overlay ++ concat logs) true false s' /\
    p_root s' = Some (sl_root config))).
  { apply safe_serr. split; [done|]. intros [[]|e]; [|done]. split; [by_fields Hs3|done]. }
  intros _ s4 [Hs4 Hroot]. eapply (safe_stry _ _ _ (fun _ => setting config (overlay ++ concat logs) true true)).
  { apply safe_serr. split; [done|]. intros [[]|e]; [|done]. by_fields Hs4. }
  intros ? s5 Hs5. eapply (safe_stry _ _ _ (fun _ => runner_inv config [])).
  { apply safe_serr. eapply safe_bind, safe_drop_bounding. split; [done|]. intros [[]|e]; [|done].
    destruct Hs5. constructor; simpl; [|done|done|set_solver]. constructor; simpl; try done; [| | | | by left].
    - exists overlay, logs. by split_and!.
    - by apply se_nnp0.
    - by apply se_root0.
    - by apply se_root0. }
  intros ? s6 Hs6. eapply safe_seq; [by apply safe_run_config_path|].
  intros [code|r] s7 _; [done|]. eapply safe_seq; [apply safe_anywhere, quiet_report_of|]. done.
Qed.

(** *** The supervisor *)

Lemma safe_wait n child s : safe' (wait_for_child n child) (fun _ _ => True) s.
Proof.
  apply safe_anywhere. induction n; cbn [wait_for_child]; only_calls.
Qed.

Lemma safe_supervisor config report s : prepared config [] false false s ->
  safe' (run_supervisor fuel config report event_fd) (fun _ _ => True) s.
Proof.
  intros Hs. cut (safe' (run_supervisor fuel config report event_fd) (success (fun _ _ => True)) s).
  { intros Hc. by eapply safe_weaken. }
  unfold run_supervisor.
  eapply safe_stry; [eapply safe_unshare; exact Hs|]. intros ? s1 Hs1.
  eapply safe_stry; [eapply safe_unshare; exact Hs1|]. intros ? s2 Hs2.
  eapply safe_stry; [apply safe_serr, safe_prepared; [unfold bring_loopback_up, set_interface_up; only_calls|exact Hs2]|].
  intros ? s3 Hs3.
  eapply safe_stry; [eapply safe_unshare; exact Hs3|]. intros ? s4 Hs4.
  eapply safe_stry; [eapply safe_unshare; exact Hs4|]. intros ? s5 Hs5.
  eapply (safe_stry _ _ _ (fun _ => prepared config [NEWIPC; NEWUTS; NEWNET; NEWNS] true false)).
  { apply safe_serr. split; [done|]. intros [[]|e]; [|done]. by_fields Hs5. }
  intros ? s6 Hs6. eapply (safe_stry _ _ _ (fun _ => prepared config [NEWIPC; NEWUTS; NEWNET; NEWNS] true true)).
  { apply safe_serr. split.
    - split; [apply (pr_namespaces _ _ _ _ _ Hs6); set_solver|by left].
    - intros [[]|e]; [|done]. by_fields Hs6. }
  intros ? s7 Hs7. eapply safe_stry; [eapply safe_unshare; exact Hs7|]. intros ? s8 Hs8.
  split; [done|]. intros [[|child]|e]; [| |done]; cbn [sbind].
  - split; [done|]. intros r. cbn [sbind]. eapply safe_seq; [apply safe_run_pid1|].
    { destruct Hs8. destruct r; constructor; simpl; try done; try (by apply pr_hostname0 || by apply pr_private0);
        try (apply orb_true_iff; right; apply bool_decide_eq_true); set_solver. }
    intros r2 s9 _. eapply (safe_seq _ _ _ (fun _ _ => True)); [|intros code s10 _; split; [done|intros []]].
    destruct r2; [done|]. eapply safe_seq; [apply safe_anywhere, quiet_report_of|]. done.
  - split; [done|]. intros []. eapply safe_weaken; [apply safe_wait|]. by intros [].
Qed.

Lemma safe_read_config s : safe' (read_launcher_config config_path) (success (fun config s' =>
  config_of config s' /\ exists b, s' = add_file config_path b s)) s.
Proof.
  split; [done|]. intros [b|e]; [|done]. simpl.
  destruct (launcher_config_from_slice b) as [config|e] eqn:Ej; [|done]. simpl.
  destruct (sl_protocol_version config =? SANDBOX_PROTOCOL_VERSION)%Z eqn:Ev; [|done]. simpl. bools.
  destruct (validate_launcher_config config) as [[]|e] eqn:Eval; [|done]. simpl. split; [|by exists b].
  exists b. split_and!; try done. set_solver.
Qed.

(** The state before the supervisor: nothing but descriptors and files. *)
Record fresh (config : SandboxLauncherConfig) (open : gset Z) (s : Process) : Prop := {
  fr_config : config_of config s;
  fr_mounts : p_mounts s = [];
  fr_ids : p_uid s = 0%Z /\ p_gid s = 0%Z;
  fr_inherited : p_inherited s ⊆ open;
}.

Lemma quiet_fresh config open c s : quiet c -> fresh config open s ->
  isolating s c /\ forall a, fresh config open (after s c a).
Proof.
  intros Hq Hs. split; [by destruct c|]. intros a. destruct c; try done; simpl in *; try done;
    answered;
    by_fields Hs.
Qed.

Lemma safe_fresh {A} config open (m : sys A) s :
  only quiet m -> fresh config open s -> safe' m (fun _ => fresh config open) s.
Proof. intros Hm Hs. eapply (safe_only _ quiet); [|done|exact Hs]. intros. by apply quiet_fresh. Qed.

Lemma set_close_on_exec_bit flags : Z.testbit (Z.lor flags FD_CLOEXEC) 0 = true.
Proof. rewrite Z.lor_spec. apply orb_true_r. Qed.

Lemma safe_launch : safe' (launch fuel wait_fd event_fd config_path) (fun _ _ => True) started_proc.
Proof.
  unfold launch. eapply safe_seq; [apply safe_read_config|]. intros [config|e] s1 H1; [|by apply safe_anywhere; only_calls].
  destruct H1 as (Hc & b & ->).
  assert (fresh config inherited (add_file config_path b started_proc)) as Hs1 by done.
  eapply safe_seq; [apply safe_fresh; [only_calls|exact Hs1]|]. intros [report|e] s2 Hs2; [|by apply safe_anywhere; only_calls].
  eapply safe_seq; [apply safe_fresh; [only_calls|exact Hs2]|]. intros [[]|e] s3 Hs3.
  2: { eapply safe_seq; [apply safe_anywhere, quiet_report_of|]. done. }
  split; [done|]. intros []. cbn [sbind].
  eapply (safe_seq _ _ _ (success (fun _ => fresh config (inherited ∖ {[ wait_fd; event_fd ]})))).
  { eapply (safe_stry _ _ _ (fun _ => fresh config (inherited ∖ {[ wait_fd ]}))).
    - split; [done|]. intros [flags|e]; [|done]. by_fields Hs3.
    - intros flags s4 Hs4. split; [done|]. intros [[]|e]; [|done].
      cbn [after on_success success]. rewrite set_close_on_exec_bit. by_fields Hs4. }
  intros [[]|e] s4 Hs4.
  2: { eapply safe_seq; [apply safe_anywhere, quiet_report_of|]. done. }
  eapply safe_seq; [apply safe_supervisor|].
  { destruct Hs4. constructor; try done. set_solver. }
  intros [code|e] s5 _; [done|]. eapply safe_seq; [apply safe_anywhere, quiet_report_of|]. done.
Qed.

(** C6. Steps are isolated.  Take any run of the launcher, of any of the
    processes it becomes, with any answers of the kernel.  Whenever it executes
    a command, the process has left the mount, network, UTS, IPC and PID
    namespaces of the host; its mounts are exactly those of the configuration,
    in order, made private, each read-only bind remounted read-only; it is
    confined to the configured root, cannot gain privileges, has the kept
    capabilities or none and no inheritable ones, and neither descriptor of the
    protocol is passed on; and the command, environment, working directory,
    umask and identity are those of a step of the runner configuration read
    inside the sandbox.  Every mount call is made in a mount namespace of its
    own, and once there only after mounts have been made private. *)
Theorem steps_isolated trace s c :
  runs (launch fuel wait_fd event_fd config_path) started_proc trace -> (s, c) ∈ trace ->
  match c with
  | CExecve command =>
      exists config step, sandboxed config s /\ configured_step config s step /\ runs_step s command step
  | CMount m => NEWNS ∈ p_namespaces s /\ (m = make_private \/ p_private s = true)
  | _ => True
  end.
Proof.
  intros Hr Hin. pose proof (safe_runs _ _ _ _ _ safe_launch Hr) as Hall.
  rewrite Forall_forall in Hall. by specialize (Hall _ Hin); destruct c.
Qed.
End Isolation.
