(* ===== verification/SandboxReport.v ===== *)
(** * What the runner reports

    The events that a run of the runner sends, its exit code and its report,
    for any answers of the kernel, and what the host decodes of them.  A run is
    the history of its calls with their answers, so that what is told of a step
    can be compared with what the kernel said of its process. *)

From S2P Require Import Prelude Errors Posix SandboxProtocol SandboxKernel SandboxEvents SandboxRunner SandboxLauncher SandboxCalls.

Open Scope sys_scope.

(** What was written to a descriptor, and whether every write succeeded. *)
Definition written (fd : Z) (s : Process) : bytes :=
  concat (map (fun e => if (e.1.1 =? fd)%Z then e.1.2 else []) (p_streams s)).
Definition intact (fd : Z) (s : Process) : Prop := Forall (fun e => e.1.1 = fd -> e.2 = true) (p_streams s).

(** ** Histories

    What a run asked of the kernel and what the kernel answered, call by call. *)
Abbreviation Deed := {c : Call & Answer c}.

Fixpoint answers {A : Type} (m : sys A) (h : list Deed) (a : A) : Prop :=
  match m with
  | SRet b => h = [] /\ a = b
  | SCall c k => match h with [] => False | deed :: h' => exists r, deed = existT c r /\ answers (k r) h' a end
  | SSpin => False
  end.

(** The state that a history leads to. *)
Definition passes (s : Process) (h : list Deed) : Process :=
  fold_left (fun s deed => after s (projT1 deed) (projT2 deed)) h s.

Lemma returns_answers {A} (m : sys A) s a s' : returns m s a s' -> exists h, answers m h a /\ passes s h = s'.
Proof.
  induction 1 as [a s|c k s r a s' _ (h & Hh & Hp)]; [by exists []|].
  exists (existT c r :: h). split; [by exists r|exact Hp].
Qed.
Lemma answers_returns {A} (m : sys A) h a s : answers m h a -> returns m s a (passes s h).
Proof.
  revert h s. induction m as [b|c k IH|]; intros h s; cbn [answers]; [intros [-> ->]; constructor| |done].
  destruct h as [|deed h]; [done|]. intros (r & -> & Hh). apply (returns_call c k s r a). exact (IH r h (after s c r) Hh).
Qed.

Lemma answers_scall c h r : answers (scall c) h r -> h = [existT c r].
Proof. destruct h as [|deed h]; [done|]. by intros (r' & -> & -> & ->). Qed.
Lemma answers_bind {A B} (m : sys A) (f : A -> sys B) h b :
  answers (sbind m f) h b -> exists h1 a h2, h = h1 ++ h2 /\ answers m h1 a /\ answers (f a) h2 b.
Proof.
  revert h. induction m as [a|c k IH|]; intros h; cbn [sbind answers]; [intros Hh; by exists [], a, h| |done].
  destruct h as [|deed h]; [done|]. intros (r & -> & (h1 & a & h2 & -> & H1 & H2)%IH).
  exists (existT c r :: h1), a, h2. split_and!; [done|by exists r|done].
Qed.
Lemma answers_stry {E A B} (m : sys (result E A)) (f : A -> sys (result E B)) h r :
  answers (stry m f) h r ->
  (exists e, answers m h (Err e) /\ r = Err e) \/
  (exists h1 a h2, h = h1 ++ h2 /\ answers m h1 (Ok a) /\ answers (f a) h2 r).
Proof.
  intros (h1 & [a|e] & h2 & -> & H1 & H2)%answers_bind; [right; by exists h1, a, h2|].
  left. destruct H2 as [-> ->]. exists e. by rewrite app_nil_r.
Qed.
Lemma answers_sexit {A} code h (a : A) : ~ answers (sexit code) h a.
Proof. unfold sexit. cbn. destruct h as [|deed h]; [by intros []|]. by intros [[] _]. Qed.

Lemma safe_answers {A} ok (m : sys A) Q s h a : safe ok m Q s -> answers m h a -> Q a (passes s h).
Proof. intros Hs Hh. eapply safe_returns; [exact Hs|by apply answers_returns]. Qed.
Lemma only_answers {A} P (m : sys A) h a : only P m -> answers m h a -> Forall (fun deed => P (projT1 deed)) h.
Proof.
  revert h. induction m as [b|c k IH|]; intros h Hm; cbn in Hm |- *; [by intros [-> _]| |done].
  destruct h as [|deed h]; [done|]. intros (r & -> & Hh). constructor; [apply Hm|by apply (IH r), Hh; apply Hm].
Qed.
Lemma passes_app s h1 h2 : passes s (h1 ++ h2) = passes (passes s h1) h2.
Proof. unfold passes. apply fold_left_app. Qed.

(** What a history tells of commands: the processes that were made, the ones that came
    to run their command, the statuses heard of them, and the readings of the clock. *)
Definition made (deed : Deed) : option Z :=
  match deed with existT CFork (Ok (InParent child)) => Some child | _ => None end.
Definition executing (deed : Deed) : option Z :=
  match deed with existT (CReadExecStatus child) (Ok _) => Some child | _ => None end.
Definition heard (deed : Deed) : option (Z * Z) :=
  match deed with existT (CWaitChild child) (Ok status) => Some (child, status) | _ => None end.
Definition clock (deed : Deed) : option Z :=
  match deed with existT CNow now => Some now | _ => None end.

(** Calls that tell nothing of these. *)
Definition aside (c : Call) : Prop :=
  match c with CFork | CReadExecStatus _ | CWaitChild _ | CNow => False | _ => True end.
Abbreviation idle h := (Forall (fun deed : Deed => aside (projT1 deed)) h).

Lemma idle_nothing h : idle h -> omap made h = [] /\ omap executing h = [] /\ omap heard h = [] /\ omap clock h = [].
Proof.
  induction 1 as [|[c r] h Hc _ (H1 & H2 & H3 & H4)]; [done|]. by destruct c.
Qed.

(** ** The account of a run *)

(** How the manual page of [wait(2)] reads a status: the exit code or the signal. *)
Definition told_status (status : Z) : option Z * option Z :=
  if (status mod 128 =? 0)%Z then (Some (status / 256 mod 256)%Z, None)
  else if (status mod 128 =? 127)%Z then (None, None)
  else (None, Some (status mod 128)%Z).

(** What became of a step, by the calls made for it: its command was executed by a
    new process, which ended with status zero; which ended otherwise, and the report
    has the code or the signal of it; or no end of it was heard of. *)
Inductive fate (step : SandboxRunnerStep) (h : list Deed) : result SandboxRunnerFailureReport Z -> Prop :=
| fate_succeeded child start now :
    omap made h = [child] -> omap executing h = [child] -> omap heard h = [(child, 0%Z)] ->
    omap clock h = [start; now] ->
    fate step h (Ok (Z.min (Z.max 0 (now - start)) (2 ^ 64 - 1)))
| fate_failed child status start now report :
    omap made h = [child] -> omap executing h = [child] -> omap heard h = [(child, status)] -> status <> 0%Z ->
    omap clock h = [start; now] ->
    fr_label report = st_name step -> fr_duration_ms report = Some (Z.min (Z.max 0 (now - start)) (2 ^ 64 - 1)) ->
    (fr_exit_code report, fr_signal report) = told_status status ->
    fate step h (Err report)
| fate_unheard report :
    omap heard h = [] -> fr_label report = st_name step -> fr_exit_code report = None -> fr_signal report = None ->
    fate step h (Err report).

(** The events of a run that has come to its end, along with its history: a pair for
    each step that succeeded, up to the first that failed; nothing else is done to
    processes in between. *)
Inductive story (total : Z) : Z -> list SandboxRunnerStep -> list Deed -> list SandboxEvent ->
  result SandboxRunnerFailureReport unit -> Prop :=
| story_done index : story total index [] [] [] (Ok tt)
| story_finished index step steps before h between rest ms events r :
    idle before -> fate step h (Ok ms) -> idle between -> story total (index + 1) steps rest events r ->
    story total index (step :: steps) (before ++ h ++ between ++ rest)
      (StepStarted index total (st_name step) (st_run_as step)
       :: StepFinished index total (st_name step) (st_run_as step) ms
            (st_report_stdout_path step) (st_report_stderr_path step) :: events) r
| story_failed index step steps before h behind report :
    idle before -> fate step h (Err report) -> idle behind ->
    story total index (step :: steps) (before ++ h ++ behind)
      [StepStarted index total (st_name step) (st_run_as step);
       StepFailed index total (st_name step) (st_run_as step) (default 0%Z (fr_duration_ms report))
         (fr_exit_code report) (fr_signal report) (st_report_stdout_path step) (st_report_stderr_path step)]
      (Err report).

Definition anything (s : Process) (c : Call) : Prop := True.

Lemma hushed_streams c s a : hushed c -> p_streams (after s c a) = p_streams s.
Proof.
  intros Hc. destruct c; try done; simpl in *; try done;
    repeat match goal with
    | |- context [match ?r with Ok _ => _ | Err _ => _ end] => destruct r; simpl; try done
    | |- context [on_success ?r] => destruct r; simpl; try done
    | |- context [match ?r with InChild => _ | InParent _ => _ end] => destruct r; simpl; try done
    | |- context [match ?p with PdeathsigKill => _ | NoNewPrivs => _ | CapbsetDrop _ => _ end] => destruct p; simpl; try done
    | |- context [match ?o with Some _ => _ | None => _ end] => destruct o; simpl; try done
    | |- context [match ?o with [] => _ | _ :: _ => _ end] => destruct o; simpl; try done
    | |- context [decide ?P] => destruct (decide P); simpl; try done
    end.
Qed.

(** Properties of what was written hold on through calls that do not write. *)
Lemma safe_hushed {A} (P : list (Z * bytes * bool) -> Prop) (m : sys A) s :
  only hushed m -> P (p_streams s) -> safe anything m (fun _ s' => P (p_streams s')) s.
Proof.
  intros Hm Hs. eapply (safe_only _ hushed (fun s => P (p_streams s))); [|done|done].
  intros c s' Hc Hs'. split; [done|]. intros a. by rewrite hushed_streams.
Qed.

Lemma written_add fd s content complete :
  written fd (add_stream fd content complete s) = written fd s ++ content.
Proof.
  unfold written. simpl. rewrite map_app, concat_app. simpl. by rewrite Z.eqb_refl, app_nil_r.
Qed.
Lemma intact_add fd s content complete :
  intact fd (add_stream fd content complete s) <-> intact fd s /\ complete = true.
Proof. unfold intact. simpl. rewrite Forall_app, Forall_singleton. naive_solver. Qed.

Section Report.
Context (fuel : nat) {EJ : EventJson} {RJ : RunnerJson} {L : EventJsonLaw} (fd : Z).

Definition has_frame (event : SandboxEvent) : Prop := is_ok (event_frame event) = true.

(** A prefix of the events was sent, the frame of the last perhaps in part. *)
Definition transmitted (events : list SandboxEvent) (s : Process) : Prop :=
  exists sent frames n, sent `prefix_of` events /\
    Forall2 (fun event f => event_frame event = Ok f) sent frames /\ written fd s = take n (concat frames).

(** The events so far with the writer that is left. *)
Definition sending (events : list SandboxEvent) (writer : option Z) (s : Process) : Prop :=
  match writer with
  | Some fd' => fd' = fd /\ intact fd s /\
      exists frames, Forall2 (fun event f => event_frame event = Ok f) events frames /\ written fd s = concat frames
  | None => transmitted events s /\ ~ (intact fd s /\ Forall has_frame events)
  end.

Lemma sending_streams events writer s s' :
  p_streams s' = p_streams s -> sending events writer s -> sending events writer s'.
Proof. intros E. unfold sending, transmitted, written, intact. by rewrite E. Qed.

Lemma safe_sending {A} events writer (m : sys A) s : only hushed m -> sending events writer s ->
  safe anything m (fun _ => sending events writer) s.
Proof.
  intros Hm Hs. eapply safe_weaken; [apply (safe_hushed (fun l => l = p_streams s)); [done|done]|].
  intros a s' E. exact (sending_streams _ _ s s' E Hs).
Qed.

Lemma sending_transmitted events writer s : sending events writer s -> transmitted events s.
Proof.
  destruct writer; [|by intros []]. intros (_ & _ & frames & Hf & Hw).
  exists events, frames, (length (concat frames)). by rewrite take_ge.
Qed.

Lemma sending_complete events writer s : sending events writer s -> intact fd s -> Forall has_frame events ->
  exists frames, Forall2 (fun event f => event_frame event = Ok f) events frames /\ written fd s = concat frames.
Proof. destruct writer; [by intros (_ & _ & ?)|]. intros [_ Hn] Hi Ha. by destruct Hn. Qed.

(** Part of a frame after whole ones. *)
Lemma transmitted_part events frames event f n s :
  Forall2 (fun event f => event_frame event = Ok f) events frames -> event_frame event = Ok f ->
  written fd s = concat frames ++ take n f -> transmitted (events ++ [event]) s.
Proof.
  intros Hf He Hw. exists (events ++ [event]), (frames ++ [f]), (length (concat frames) + n)%nat.
  split_and!; [done|by apply Forall2_app; [|constructor]|].
  by rewrite concat_app, firstn_app_2; simpl; rewrite app_nil_r.
Qed.

Lemma safe_emit events writer event s : sending events writer s ->
  safe anything (emit writer event) (fun writer' => sending (events ++ [event]) writer') s.
Proof.
  unfold emit. destruct writer as [fd'|].
  2: { intros [(sent & frames & n & Hp & Hf & Hw) Hn]. split.
       - exists sent, frames, n. split_and!; [|done|done]. by apply prefix_app_r.
       - rewrite Forall_app. naive_solver. }
  intros (-> & Hi & frames & Hf & Hw). unfold write_sandbox_event.
  destruct (event_frame event) as [frame|e] eqn:He.
  2: { split; [done|]. intros []. split.
       - exists events, frames, (length (concat frames)). split_and!; [by apply prefix_app_r|done|].
         rewrite take_ge by done. exact Hw.
       - rewrite Forall_app, Forall_singleton. unfold has_frame at 2. rewrite He. naive_solver. }
  assert (forall s' n, written fd s' = concat frames ++ take n frame -> ~ intact fd s' ->
    safe anything (do _ := scall (CClose fd) in SRet None) (fun writer' => sending (events ++ [event]) writer') s') as Hbroken.
  { intros s' n Hw' Hi'. split; [done|]. intros []. split; [by eapply transmitted_part|naive_solver]. }
  split; [done|]. intros [[]|[e n]]; simpl.
  - split; [done|]. intros [[]|[e n]]; simpl.
    + split; [done|]. split; [by rewrite !intact_add|]. exists (frames ++ [frame]).
      split; [by apply Forall2_app; [|constructor]|].
      by rewrite !written_add, Hw, <- app_assoc, take_drop, concat_app; simpl; rewrite app_nil_r.
    + apply (Hbroken (add_stream fd (take n (drop 4 frame)) false (add_stream fd (take 4 frame) true s)) (4 + n)%nat);
        [|rewrite !intact_add; naive_solver].
      rewrite !written_add, Hw, <- app_assoc. f_equal. by rewrite take_take_drop.
  - apply (Hbroken (add_stream fd (take n (take 4 frame)) false s) (n `min` 4)); [|rewrite intact_add; naive_solver].
    rewrite written_add, Hw. f_equal. by rewrite take_take.
Qed.

(** ** The steps *)

Lemma safe_true {A} (m : sys A) s : safe anything m (fun _ _ => True) s.
Proof. revert s. induction m as [a|c k IH|]; intros s; simpl; [done| |done]. by split. Qed.

Lemma told_status_decoded step status ms :
  (fr_exit_code (failed_step step status ms), fr_signal (failed_step step status ms)) = told_status status.
Proof.
  unfold failed_step, classify_exit_status, status_code, status_signal, told_status.
  change 0x7f%Z with (Z.ones 7). rewrite Z.land_ones by done. change (2 ^ 7)%Z with 128%Z.
  change 0xff%Z with (Z.ones 8). rewrite Z.land_ones, Z.shiftr_div_pow2 by done.
  change (2 ^ 8)%Z with 256%Z. change (Z.ones 7) with 127%Z.
  destruct (status mod 128 =? 0)%Z eqn:E0; [done|]. cbn. by destruct (status mod 128 =? 127)%Z.
Qed.

(** Nothing was heard of the end of a process. *)
Abbreviation unheard h := (omap heard h = []).
Lemma unheard_app h1 h2 : unheard h1 -> unheard h2 -> unheard (h1 ++ h2).
Proof. intros H1 H2. by rewrite omap_app, H1, H2. Qed.

(** The part of a step that may fail: it does as it says, and its failure is told of
    with the name of the step, without a status. *)
Abbreviation unfinished step report :=
  (fr_label report = st_name step /\ fr_exit_code report = None /\ fr_signal report = None).
Lemma step_error_answers {A} step start message (m : sys (result SysError A)) h r :
  answers (step_error step start message m) h r ->
  match r with
  | Ok a => answers m h (Ok a)
  | Err report => unfinished step report /\ exists e h', answers m h' (Err e) /\ omap heard h = omap heard h'
  end.
Proof.
  unfold step_error. intros (h1 & [a|e] & h2 & -> & H1 & H2)%answers_bind.
  - destruct H2 as [-> ->]. by rewrite app_nil_r.
  - apply answers_bind in H2 as (h3 & ms & h4 & -> & H3 & [-> ->]). split; [done|]. exists e, h1. split; [done|].
    unfold elapsed_ms in H3. apply answers_bind in H3 as (h5 & now & h6 & -> & ->%answers_scall & [-> _]).
    rewrite !omap_app. cbn. by rewrite !app_nil_r.
Qed.

Lemma dup_answers d h r : answers (scall (CDup d)) h r -> idle h.
Proof. intros ->%answers_scall. by repeat constructor. Qed.

(** A spawn that succeeded has made one process, which executes its command. *)
Lemma spawn_answers command pre_exec h r :
  answers (command_spawn command pre_exec) h r ->
  match r with
  | Ok child => omap made h = [child] /\ omap executing h = [child] /\ unheard h /\ omap clock h = []
  | Err _ => unheard h
  end.
Proof.
  unfold command_spawn. intros (h1 & side & h2 & -> & ->%answers_scall & H2)%answers_bind.
  destruct side as [[|child]|e].
  - exfalso. apply answers_bind in H2 as (h3 & ready & h4 & -> & _ & H4). destruct ready as [x|x].
    + apply answers_bind in H4 as (h5 & y & h6 & -> & _ & H6). by apply answers_sexit in H6.
    + by apply answers_sexit in H4.
  - apply answers_bind in H2 as (h3 & reported & h4 & -> & ->%answers_scall & [-> ->]). by destruct reported as [[]|e].
  - by destruct H2 as [-> ->].
Qed.

Lemma aside_reap n : only aside (reap_finished_children n).
Proof. induction n; cbn [reap_finished_children]; only_calls. Qed.
Lemma aside_terminate : only aside (terminate_remaining_children fuel).
Proof. pose proof (aside_reap fuel). unfold terminate_remaining_children. only_calls; done. Qed.
Lemma aside_setgroups : only aside setgroups_allowed.
Proof. unfold setgroups_allowed. only_calls. Qed.
Lemma aside_emit writer event : only aside (emit writer event).
Proof. unfold emit, write_sandbox_event. only_calls. Qed.
Lemma aside_write_report report_fd report : only aside (write_report report_fd report).
Proof. unfold write_report. only_calls. Qed.
Lemma aside_chown n dir uid gid : only aside (chown_dir_contents n dir uid gid).
Proof. revert dir. induction n as [|n IH]; intros dir; cbn [chown_dir_contents]; only_calls; apply IH. Qed.
Lemma aside_prepare self : only aside (prepare fuel self).
Proof. pose proof (aside_chown fuel). unfold prepare, chown_tree. only_calls; done. Qed.

(** One part of a step after another: it fails, or it has done its work. *)
Lemma step_part {A B} step start message (m : sys (result SysError A))
    (f : A -> sys (result SandboxRunnerFailureReport B)) h r :
  answers (stry (step_error step start message m) f) h r ->
  (forall h' e, answers m h' (Err e) -> unheard h') ->
  (exists report, r = Err report /\ unfinished step report /\ unheard h) \/
  (exists h1 a h2, h = h1 ++ h2 /\ answers m h1 (Ok a) /\ answers (f a) h2 r).
Proof.
  intros [(report & (Hu & e & h' & Hm & ->)%step_error_answers & ->)|(h1 & a & h2 & -> & H1%step_error_answers & H2)]%answers_stry Hq.
  - left. exists report. split; [done|]. split; [done|]. by eapply Hq.
  - right. by exists h1, a, h2.
Qed.

Lemma idle_unheard h : idle h -> unheard h.
Proof. intros Hi. apply (idle_nothing h Hi). Qed.
Lemma wait_unheard child h e : answers (scall (CWaitChild child)) h (Err e) -> unheard h.
Proof. by intros ->%answers_scall. Qed.
Lemma spawn_unheard command pre_exec h e : answers (command_spawn command pre_exec) h (Err e) -> unheard h.
Proof. apply spawn_answers. Qed.
Lemma dup_unheard d h e : answers (scall (CDup d)) h (Err e) -> unheard h.
Proof. intros Hd%dup_answers. by apply idle_unheard. Qed.

Lemma step_run_fate step h r : answers (step_run fuel step) h r -> fate step h r.
Proof.
  assert (Hun : forall report h, unfinished step report -> unheard h -> fate step h (Err report))
    by (intros report h' (H1 & H2 & H3) H4; by apply fate_unheard).
  unfold step_run. destruct (st_argv step) as [|executable args]; [intros [-> ->]; by apply fate_unheard|].
  intros (h1 & start & h2 & -> & ->%answers_scall & H2)%answers_bind.
  apply step_part in H2 as [(report & -> & Hr & Hh)|(h3 & out & h4 & -> & H3%dup_answers & H4)];
    [by apply Hun| |intros; by eapply dup_unheard].
  apply step_part in H4 as [(report & -> & Hr & Hh)|(h5 & err & h6 & -> & H5%dup_answers & H6)];
    [apply Hun; [done|cbn; by rewrite omap_app, (idle_unheard h3)]| |intros; by eapply dup_unheard].
  apply answers_bind in H6 as (h7 & allowed & h8 & -> & H7%(only_answers aside) & H8); [|apply aside_setgroups].
  assert (Hidle : idle (h3 ++ h5 ++ h7)) by (by rewrite !Forall_app).
  rewrite (app_assoc h5), (app_assoc h3). clear H3 H5 H7. set (quiet := h3 ++ h5 ++ h7) in *. clearbody quiet.
  destruct (idle_nothing quiet Hidle) as (Qm & Qe & Qh & Qc).
  apply step_part in H8 as [(report & -> & Hr & Hh)|(h9 & child & h10 & -> & H9%spawn_answers & H10)];
    [apply Hun; [done|cbn; by rewrite omap_app, Qh]| |intros; by eapply spawn_unheard].
  destruct H9 as (Sm & Se & Sh & Sc).
  apply step_part in H10 as [(report & -> & Hr & Hh)|(h11 & status & h12 & -> & ->%answers_scall & H12)];
    [apply Hun; [done|cbn; by rewrite !omap_app, Qh, Sh]| |intros; by eapply wait_unheard].
  apply answers_bind in H12 as (h13 & [] & h14 & -> & H13%(only_answers aside) & H14); [|apply aside_terminate].
  destruct (idle_nothing h13 H13) as (Tm & Te & Th & Tc).
  apply answers_bind in H14 as (h15 & ms & h16 & -> & H15 & [-> ->]).
  unfold elapsed_ms in H15. apply answers_bind in H15 as (h17 & now & h18 & -> & ->%answers_scall & [-> ->]).
  unfold status_success. change U64_MAX with (2 ^ 64 - 1)%Z.
  destruct (Z.eqb_spec status 0) as [->|Hs]; [eapply (fate_succeeded _ _ child start now)|eapply (fate_failed _ _ child status start now)];
    try done; try (by rewrite !omap_app, ?Qm, ?Qe, ?Qh, ?Qc, ?Sm, ?Se, ?Sh, ?Sc, ?Tm, ?Te, ?Th, ?Tc).
  - unfold failed_step. by destruct (classify_exit_status status).
  - unfold failed_step. by destruct (classify_exit_status status).
  - apply told_status_decoded.
Qed.

(** Two postconditions at once. *)
Lemma safe_both {A} (m : sys A) (P Q : A -> Process -> Prop) s :
  safe anything m P s -> safe anything m Q s -> safe anything m (fun a s' => P a s' /\ Q a s') s.
Proof. revert s. induction m as [a|c k IH|]; intros s; simpl; [done| |done]. intros [_ H1] [_ H2]. split; [done|]. intros a. by apply IH. Qed.

Lemma sending_idle {A} events writer (m : sys A) s h a :
  only hushed m -> sending events writer s -> answers m h a -> sending events writer (passes s h).
Proof. intros Hm Hs Hh. exact (safe_answers _ _ _ _ _ _ (safe_sending events writer m s Hm Hs) Hh). Qed.
Lemma sending_emit events writer event s h writer' :
  sending events writer s -> answers (emit writer event) h writer' ->
  sending (events ++ [event]) writer' (passes s h) /\ idle h.
Proof.
  intros Hs Hh. split; [exact (safe_answers _ _ _ _ _ _ (safe_emit events writer event s Hs) Hh)|].
  eapply only_answers; [apply aside_emit|done].
Qed.

Lemma run_steps_told total steps index writer events s h r :
  sending events writer s -> answers (run_steps fuel total index writer steps) h r ->
  exists more writer', story total index steps h more r /\ sending (events ++ more) writer' (passes s h).
Proof.
  revert index writer events s h. induction steps as [|step steps IH]; intros index writer events s h Hs Hh.
  { destruct Hh as [-> ->]. exists [], writer. split; [constructor|by rewrite app_nil_r]. }
  cbn [run_steps] in Hh. apply answers_bind in Hh as (h1 & writer1 & h2 & -> & H1 & H2).
  destruct (sending_emit _ _ _ _ _ _ Hs H1) as [Hs1 Hi1].
  apply answers_bind in H2 as (h3 & result & h4 & -> & H3 & H4).
  assert (Hs2 : sending (events ++ [started total index step]) writer1 (passes (passes s h1) h3))
    by (by eapply sending_idle; [apply hushed_step_run|..]).
  apply step_run_fate in H3. rewrite !passes_app. destruct result as [ms|report].
  - apply answers_bind in H4 as (h5 & writer2 & h6 & -> & H5 & H6).
    destruct (sending_emit _ _ _ _ _ _ Hs2 H5) as [Hs3 Hi3]. rewrite passes_app, <- app_assoc in *.
    destruct (IH _ _ _ _ _ Hs3 H6) as (more & writer' & Hst & Hse).
    exists (started total index step :: finished total index step ms :: more), writer'. split; [by constructor|].
    by rewrite <- app_assoc in Hse.
  - apply answers_bind in H4 as (h5 & writer2 & h6 & -> & H5 & [-> ->]).
    destruct (sending_emit _ _ _ _ _ _ Hs2 H5) as [Hs3 Hi3]. rewrite app_nil_r, <- app_assoc in *.
    exists [started total index step; failed total index step report], writer2. split; [by constructor|exact Hs3].
Qed.

(** The first failure of the preparation. *)
Abbreviation unprepared := (fun (r : result SandboxRunnerFailureReport unit) (_ : Process) =>
  match r with Ok _ => True | Err report => fr_label report = lit "sandbox-prepare" end).

Lemma unprepared_error operation p (m : sys (result SysError unit)) s :
  safe anything (serr (prepare_error operation p) m) unprepared s.
Proof. eapply safe_seq; [apply safe_true|]. by intros []. Qed.

Lemma safe_prepare_label self s : safe anything (prepare fuel self) unprepared s.
Proof.
  unfold prepare. revert s. induction (ru_prepare_paths self) as [|p l IH]; intros s; [done|]. cbn [stry_each].
  eapply (safe_seq _ _ _ unprepared).
  - eapply safe_seq; [apply unprepared_error|]. intros [[]|e] s1 H1; [apply unprepared_error|done].
  - intros [[]|e] s1 H1; [apply IH|done].
Qed.

(** The account of a whole run: the steps between calls that do nothing to processes;
    or the preparation failed and no step was begun. *)
Inductive report_outcome (self : SandboxRunner) (h : list Deed) :
  list SandboxEvent -> result SandboxRunnerFailureReport unit -> Prop :=
| outcome_steps before mid behind events r :
    h = before ++ mid ++ behind -> idle before -> idle behind ->
    story (len (ru_steps self)) 0 (ru_steps self) mid events r -> report_outcome self h events r
| outcome_unprepared report :
    idle h -> fr_label report = lit "sandbox-prepare" -> report_outcome self h [] (Err report).

Lemma runner_run_told self s h r : ru_event_writer self = Some fd -> written fd s = [] -> intact fd s ->
  answers (runner_run fuel self) h r ->
  exists events writer, sending events writer (passes s h) /\
    ((exists before mid, h = before ++ mid /\ idle before /\ story (len (ru_steps self)) 0 (ru_steps self) mid events r) \/
     (exists report, events = [] /\ r = Err report /\ idle h /\ fr_label report = lit "sandbox-prepare")).
Proof.
  intros Hfd Hw Hi Hh. assert (sending [] (Some fd) s) as Hs by (split_and!; [done|done|by exists []]).
  unfold runner_run in Hh.
  apply answers_stry in Hh as [(report & Hp & ->)|(h1 & [] & h2 & -> & Hp & H2)].
  - exists [], (Some fd). split; [eapply (sending_idle [] _ (prepare fuel self)); [only_calls|done|exact Hp]|]. right. exists report.
    split_and!; [done|done|by eapply only_answers; [apply aside_prepare|]|].
    exact (safe_answers _ _ _ _ _ _ (safe_prepare_label self s) Hp).
  - rewrite Hfd in H2. apply (run_steps_told _ _ _ _ [] (passes s h1)) in H2 as (more & writer & Hst & Hse).
    + exists more, writer. rewrite passes_app. split; [done|]. left. exists h1, h2.
      split_and!; [done|by eapply only_answers; [apply aside_prepare|]|done].
    + eapply (sending_idle [] _ (prepare fuel self)); [only_calls|done|exact Hp].
Qed.

(** Writing to another descriptor. *)
Lemma sending_other events writer s other content complete : other <> fd -> sending events writer s ->
  sending events writer (add_stream other content complete s).
Proof.
  intros Ho. assert (written fd (add_stream other content complete s) = written fd s) as Ew.
  { unfold written. simpl. rewrite map_app, concat_app. simpl. rewrite (proj2 (Z.eqb_neq other fd)) by done. by rewrite !app_nil_r. }
  assert (intact fd (add_stream other content complete s) <-> intact fd s) as Ei.
  { unfold intact. simpl. rewrite Forall_app, Forall_singleton. naive_solver. }
  unfold sending, transmitted. destruct writer; setoid_rewrite Ew; by rewrite Ei.
Qed.

Lemma runner_exec_told self s h code : ru_event_writer self = Some fd -> ru_failure_report self <> fd ->
  written fd s = [] -> intact fd s -> answers (runner_exec fuel self) h code ->
  exists events r writer,
    report_outcome self h events r /\ code = (if is_ok r then 0 else 1)%Z /\ sending events writer (passes s h).
Proof.
  intros Hfd Hr Hw Hi Hh. unfold runner_exec in Hh.
  apply answers_bind in Hh as (h1 & r & h2 & -> & H1 & H2).
  destruct (runner_run_told self s h1 r Hfd Hw Hi H1) as (events & writer & Hs1 & Ho).
  apply answers_bind in H2 as (h3 & exit_code & h4 & -> & H3 & H4).
  apply answers_bind in H4 as (h5 & [] & h6 & -> & H5 & [-> ->]). rewrite app_nil_r.
  assert (idle h3 /\ exit_code = (if is_ok r then 0 else 1)%Z /\ sending events writer (passes (passes s h1) h3)) as (Hi3 & -> & Hs3).
  { split; [|].
    - eapply only_answers; [|exact H3]. destruct r as [[]|report]; [only_calls|].
      pose proof (aside_write_report (ru_failure_report self) report) as Hreport.
      apply only_bind; [exact Hreport|]. intros [[]|error]; only_calls.
    - refine (safe_answers anything _ (fun code s' => code = _ /\ sending events writer s') _ _ _ _ H3).
      destruct r as [[]|report]; [done|]. unfold write_report.
      destruct (report_to_bytes report) as [b|e]; [|by split; [|intros []]].
      split; [done|]. intros [[]|[e n]]; [split; [done|by apply sending_other]|].
      split; [done|]. intros []. split; [done|]. by apply sending_other. }
  assert (Hi5 : idle h5) by (by eapply only_answers; [apply aside_terminate|]).
  exists events, r, writer. split_and!; [|done|].
  - destruct Ho as [(before & mid & -> & Hb & Hst)|(report & -> & -> & Hi1 & Hl)].
    + apply (outcome_steps _ _ before mid (h3 ++ h5)); [by rewrite <- app_assoc|done|by apply Forall_app|done].
    + apply outcome_unprepared; [by rewrite !Forall_app|done].
  - rewrite !passes_app. eapply (sending_idle _ _ (terminate_remaining_children fuel)); [only_calls|done|exact H5].
Qed.

(** C24. The runner tells the host the truth.  Take any run of the runner that
    ends, by the calls it made and their answers.  There is an account of it: for each
    step in order the events started and finished, up to the first that failed, which has
    started and failed and is the last, or no event at all if the preparation failed.
    A step is told of as finished only if one process was made for it, came to execute
    its command and was heard to end with status zero, and the time told is the one
    between the two readings of the clock; it is told of as failed with the exit code or
    the signal in the status heard of that process, which was not zero, or with neither
    if no end was heard of.  The exit code is zero if and only if all steps
    finished.  Whatever writes fail, the host, reading the pipe in any chunks, decodes a
    prefix of that account without an error; and if no write failed and every event fits
    a frame, all of it, with nothing left over. *)
Theorem runner_tells_truth self s h code chunks :
  answers (runner_exec fuel self) h code -> let s' := passes s h in
  ru_event_writer self = Some fd -> ru_failure_report self <> fd -> written fd s = [] -> intact fd s ->
  concat chunks = written fd s' ->
  exists events r, report_outcome self h events r /\ code = (if is_ok r then 0 else 1)%Z /\
    (exists k rest, receive [] chunks = Ok (take k events, rest)) /\
    (intact fd s' -> Forall has_frame events -> receive [] chunks = Ok (events, [])).
Proof.
  intros Hret s' Hfd Hr Hw Hi Hc.
  destruct (runner_exec_told self s h code Hfd Hr Hw Hi Hret)
    as (events & r & writer & Ho & Ecode & Hs). fold s' in Hs. exists events, r. split_and!; [done|done| |].
  - destruct (sending_transmitted _ _ _ Hs) as (sent & frames & n & [tail ->] & Hf & Ew). rewrite Ew in Hc.
    destruct (receive_cut _ _ _ _ Hf Hc) as (k & rest & Hrec & _).
    exists (k `min` length sent), rest. rewrite Hrec. f_equal. f_equal. rewrite take_app_le by lia.
    destruct (decide (k <= length sent)%nat).
    + by rewrite Nat.min_l by lia.
    + rewrite Nat.min_r by lia. by rewrite !take_ge by lia.
  - intros Hin Hall. destruct (sending_complete _ _ _ Hs Hin Hall) as (frames & Hf & Ew). rewrite Ew in Hc.
    rewrite receive_drain; [|simpl; rewrite Hc; by eapply framed_wf|done].
    simpl. rewrite Hc, <- (app_nil_r (concat frames)). rewrite (drain_frames events) by (done || constructor).
    simpl. by rewrite app_nil_r.
Qed.
End Report.
