(* ===== verification/SandboxLayer.v ===== *)
(** * The layer a sandboxed build leaves behind

    [bobr-sandbox/src/lib.rs] and [mounts.rs]: a [SandboxInstall] build writes
    into the upper layer of an overlay.  The scaffolding of the sandbox is taken
    out of it ([strip_overlay_scaffolding]), it must only add to the root below
    ([validate_additive_layer]), directories that were merely copied up are
    pruned ([prune_passthrough_noise]), and the rest is the result.

    A layer is a tree with extended attributes.  The file system below may
    answer any call with an error ([Io]); the calls of one routine see one
    state.  What the kernel shows of two layers is specified by [view]. *)

From S2P Require Import Prelude Errors Posix Elf.

(** ** Layers *)

Record OMeta := mkOMeta { om_uid : Z; om_gid : Z; om_mode : Z }.

#[export] Instance OMeta_eq_dec : EqDecision OMeta.
Proof. solve_decision. Defined.

(** [ODevice] is a character device, [OSpecial] any other special file. *)
Inductive onode :=
| OFile (m : OMeta) (content : bytes)
| OLink (m : OMeta) (target : bytes)
| ODevice (m : OMeta) (rdev : Z)
| OSpecial (m : OMeta) (kind : Z)
| ODir (m : OMeta) (xattrs : list (bytes * bytes)) (children : list (bytes * onode)).

Definition children_of (n : onode) : list (bytes * onode) :=
  match n with ODir _ _ cs => cs | _ => [] end.
Definition is_odir (n : onode) : bool := match n with ODir _ _ _ => true | _ => false end.
Definition meta_of (n : onode) : OMeta :=
  match n with OFile m _ | OLink m _ | ODevice m _ | OSpecial m _ | ODir m _ _ => m end.

Definition child (n : onode) (c : bytes) : option onode := assoc c (children_of n).
Fixpoint oget (n : onode) (p : path) : option onode :=
  match p with
  | [] => Some n
  | c :: p' => match child n c with Some n' => oget n' p' | None => None end
  end.

(** Names in a directory are distinct, at every depth. *)
Fixpoint wf_layer (n : onode) : Prop :=
  match n with
  | ODir _ _ cs =>
      NoDup (map fst cs) /\
      (fix all (l : list (bytes * onode)) : Prop :=
         match l with [] => True | (_, m) :: l' => wf_layer m /\ all l' end) cs
  | _ => True
  end.

(** ** The file system calls *)

(** Errors of the calls, by path; [xattr_error] by path and attribute;
    [lstat_lower] is what [symlink_metadata] finds below the lower root (an
    error counts as nothing). *)
Record Io := mkIo {
  read_dir_error : path -> option string;
  lstat_error : path -> option string;
  xattr_error : path -> bytes -> option string;
  remove_error : path -> option string;
  lstat_lower : path -> option onode;
}.

Section Layer.
Context (io : Io).

Definition shown (relative : path) : string := display_path relative.

(** [xattr_value] and [xattr_equals]; the latter reads into sixteen bytes. *)
Definition xattr_value (p : path) (xattrs : list (bytes * bytes)) (name : bytes) : result string (option bytes) :=
  match xattr_error io p name with
  | Some error => Err ("read xattr '" +:+ show name +:+ "' of '" +:+ shown p +:+ "': " +:+ error)
  | None => Ok (assoc name xattrs)
  end.
Definition xattr_equals (p : path) (xattrs : list (bytes * bytes)) (name expected : bytes) : result string bool :=
  value <- xattr_value p xattrs name ;;
  Ok match value with
     | Some v => (len v <=? 16)%Z && bytes_eqb v expected
     | None => false
     end.

Definition OPAQUE_XATTRS : list bytes := [lit "user.overlay.opaque"; lit "trusted.overlay.opaque"].
Definition REDIRECT_XATTRS : list bytes := [lit "user.overlay.redirect"; lit "trusted.overlay.redirect"].

(** [is_opaque_dir]: the loop returns at the first marker. *)
Fixpoint any_marker (p : path) (xattrs : list (bytes * bytes)) (names : list bytes) : result string bool :=
  match names with
  | [] => Ok false
  | name :: names' =>
      marked <- xattr_equals p xattrs name (lit "y") ;;
      if marked : bool then Ok true else any_marker p xattrs names'
  end.
Definition is_opaque_dir (p : path) (xattrs : list (bytes * bytes)) : result string bool :=
  any_marker p xattrs OPAQUE_XATTRS.

(** [redirect_target]: the first note that is not empty. *)
Fixpoint first_note (p : path) (xattrs : list (bytes * bytes)) (names : list bytes) : result string (option bytes) :=
  match names with
  | [] => Ok None
  | name :: names' =>
      value <- xattr_value p xattrs name ;;
      match value with
      | Some v => if bool_decide (v = []) then first_note p xattrs names' else Ok (Some v)
      | None => first_note p xattrs names'
      end
  end.
Definition redirect_target (p : path) (xattrs : list (bytes * bytes)) : result string (option bytes) :=
  first_note p xattrs REDIRECT_XATTRS.

Definition names_of (l : list Component) : path :=
  omap (fun c => match c with Normal name => Some name | _ => None end) l.

(** [redirect_source]: below the lower root. *)
Definition redirect_source (relative : path) (target : bytes) : option path :=
  let parts := components target in
  if bool_decide (ParentDir ∈ parts) then None
  else if is_absolute target then
    if bool_decide (names_of parts = []) then None else Some (names_of parts)
  else Some (removelast relative ++ names_of parts).

Definition redirected (relative : path) (target : option bytes) : option path :=
  match target with
  | None => None
  | Some t =>
      match redirect_source relative t with
      | Some source => if is_Some_dec (lstat_lower io source) then Some source else None
      | None => None
      end
  end.

(** An unchanged directory. *)
Definition same_directory (lower upper : onode) : bool :=
  is_odir lower && (om_uid (meta_of lower) =? om_uid (meta_of upper))%Z
  && (om_gid (meta_of lower) =? om_gid (meta_of upper))%Z
  && (Z.land (om_mode (meta_of lower)) 0xfff =? Z.land (om_mode (meta_of upper)) 0xfff)%Z.

(** The body of the loop of [validate_additive_dir]; [inside] is the check of
    the directory itself. *)
Definition validate_entry (relative : path) (n : onode) (inside : result string unit) : result string unit :=
  match lstat_error io relative with
  | Some error => Err ("inspect '" +:+ shown relative +:+ "': " +:+ error)
  | None =>
      let lower_meta := lstat_lower io relative in
      match n with
      | ODevice _ 0 =>
          Err ("SandboxInstall build deleted '" +:+ shown relative +:+ "'; the builder only allows additions")
      | ODir _ xattrs _ =>
          target <- redirect_target relative xattrs ;;
          match redirected relative target with
          | Some source =>
              Err ("SandboxInstall build's directory '" +:+ shown relative +:+ "' takes its contents from '"
                   +:+ shown source +:+ "' in the rootfs it was given; a captured layer cannot carry them, so the object would be an empty directory")
          | None =>
              match lower_meta with
              | Some lower =>
                  opaque <- is_opaque_dir relative xattrs ;;
                  if opaque : bool then
                    Err ("SandboxInstall build replaced directory '" +:+ shown relative +:+ "'; the builder only allows additions")
                  else if negb (same_directory lower n) then
                    Err ("SandboxInstall build modified existing directory '" +:+ shown relative +:+ "'; the builder only allows additions")
                  else inside
              | None => inside
              end
          end
      | _ =>
          match lower_meta with
          | Some _ => Err ("SandboxInstall build modified existing '" +:+ shown relative +:+ "'; the builder only allows additions")
          | None => Ok tt
          end
      end
  end.

(** [validate_additive_dir]: the entries in the order of their names, the first
    error wins. *)
Fixpoint validate_additive_dir (dir : path) (n : onode) : result string unit :=
  match read_dir_error io dir with
  | Some error => Err ("read overlay upper '" +:+ shown dir +:+ "': " +:+ error)
  | None =>
      match n with
      | ODir _ _ cs =>
          let checks := map (fun '(name, m) =>
            (name, validate_entry (dir ++ [name]) m (validate_additive_dir (dir ++ [name]) m))) cs in
          try_fold (fun _ check => check.2) tt (sort_by fst checks)
      | _ => Ok tt
      end
  end.
Definition validate_additive_layer (upper : onode) : result string unit := validate_additive_dir [] upper.

(** ** Pruning *)

(** [prune_passthrough_dir] on the entries: what is left of them. *)
Definition prune_entry (relative : path) (n : onode) (inside : result string onode) : result string (option onode) :=
  match lstat_error io relative with
  | Some error => Err ("inspect '" +:+ shown relative +:+ "': " +:+ error)
  | None =>
      if negb (is_odir n) then Ok (Some n)
      else
        n' <- inside ;;
        if bool_decide (children_of n' = []) then
          let in_lower := match lstat_lower io relative with Some lower => is_odir lower | None => false end in
          if in_lower then
            match remove_error io relative with
            | Some error => Err ("prune passthrough '" +:+ shown relative +:+ "': " +:+ error)
            | None => Ok None
            end
          else Ok (Some n')
        else Ok (Some n')
  end.

Fixpoint prune_passthrough_dir (dir : path) (n : onode) : result string onode :=
  match read_dir_error io dir with
  | Some error => Err ("read overlay upper '" +:+ shown dir +:+ "': " +:+ error)
  | None =>
      match n with
      | ODir m xattrs cs =>
          kept <- (fix entries (l : list (bytes * onode)) : result string (list (bytes * onode)) :=
            match l with
            | [] => Ok []
            | (name, c) :: l' =>
                kept <- prune_entry (dir ++ [name]) c (prune_passthrough_dir (dir ++ [name]) c) ;;
                rest <- entries l' ;;
                Ok match kept with Some c' => (name, c') :: rest | None => rest end
            end) cs ;;
          Ok (ODir m xattrs kept)
      | _ => Ok n
      end
  end.
Definition prune_passthrough_noise (upper : onode) : result string onode := prune_passthrough_dir [] upper.

(** ** Scaffolding *)

Definition OVERLAY_SCAFFOLDING_TOP_LEVEL : list bytes :=
  [lit "__bobr"; lit "dev"; lit "proc"; lit "run"; lit "tmp"].

(** [fs::remove_dir_all] of one entry: a directory or a link goes, nothing is
    no error, another file is. *)
Definition strip_one (upper : onode) (name : bytes) : result string onode :=
  let failed error := Err ("remove overlay scaffolding '" +:+ shown [name] +:+ "': " +:+ error) in
  match remove_error io [name] with
  | Some error => failed error
  | None =>
      match upper with
      | ODir m xattrs cs =>
          match assoc name cs with
          | None => Ok upper
          | Some (ODir _ _ _ | OLink _ _) => Ok (ODir m xattrs (List.filter (fun e => negb (bytes_eqb e.1 name)) cs))
          | Some _ => failed "Not a directory (os error 20)"
          end
      | _ => Ok upper
      end
  end.
Definition strip_overlay_scaffolding (upper : onode) : result string onode :=
  try_fold strip_one upper OVERLAY_SCAFFOLDING_TOP_LEVEL.

(** The steps of [run_sandbox_and_capture] on the upper layer. *)
Definition capture_layer (upper : onode) : result string onode :=
  stripped <- strip_overlay_scaffolding upper ;;
  validate_additive_layer stripped ;;;
  prune_passthrough_noise stripped.
End Layer.

(** ** What overlayfs shows

    Names are looked up in both layers: a whiteout hides, an opaque directory
    hides what is below it, a redirected one merges with another place of the
    lower layer, directories merge, anything else of the upper layer covers. *)
Section View.
Context (lower : onode) (privileged : bool).

Definition marker_of (names : list bytes) : bytes :=
  default [] (names !! (if privileged then 1 else 0)%nat).
Definition opaque_in (xattrs : list (bytes * bytes)) : bool :=
  bool_decide (assoc (marker_of OPAQUE_XATTRS) xattrs = Some (lit "y")).
Definition note_in (xattrs : list (bytes * bytes)) : option bytes :=
  match assoc (marker_of REDIRECT_XATTRS) xattrs with
  | Some v => if bool_decide (v = []) then None else Some v
  | None => None
  end.

Definition only_dir (o : option onode) : option onode :=
  match o with Some n => if is_odir n then Some n else None | None => None end.

(** One name below a merged directory; [here] is its path. *)
Definition look (here : path) (u l : option onode) (c : bytes) : option onode * option onode :=
  let uc := match u with Some n => child n c | None => None end in
  let lc := match l with Some n => child n c | None => None end in
  match uc with
  | None => (None, lc)
  | Some (ODevice m 0) => (None, None)
  | Some (ODir m xattrs cs) =>
      (uc, if opaque_in xattrs then None
           else match note_in xattrs with
                | Some note =>
                    match redirect_source (here ++ [c]) note with
                    | Some source => only_dir (oget lower source)
                    | None => None
                    end
                | None => only_dir lc
                end)
  | Some n => (uc, None)
  end.

Fixpoint look_path (here : path) (u l : option onode) (p : path) : option onode * option onode :=
  match p with
  | [] => (u, l)
  | c :: p' => let '(u', l') := look here u l c in look_path (here ++ [c]) u' l' p'
  end.

(** What is seen of a node: its kind with its contents, owner and mode. *)
Inductive Seen :=
| SawFile (m : OMeta) (content : bytes)
| SawLink (m : OMeta) (target : bytes)
| SawDevice (m : OMeta) (rdev : Z)
| SawSpecial (m : OMeta) (kind : Z)
| SawDir (uid gid mode : Z).
Definition seen (n : onode) : Seen :=
  match n with
  | OFile m content => SawFile m content
  | OLink m target => SawLink m target
  | ODevice m rdev => SawDevice m rdev
  | OSpecial m kind => SawSpecial m kind
  | ODir m _ _ => SawDir (om_uid m) (om_gid m) (Z.land (om_mode m) 0xfff)
  end.

Definition view (upper : onode) (p : path) : option Seen :=
  match look_path [] (Some upper) (Some lower) p with
  | (Some n, _) | (None, Some n) => Some (seen n)
  | (None, None) => None
  end.

(** A layer laid over the lower tree by plain copying. *)
Definition laid_over (upper : onode) (p : path) : option Seen :=
  match oget upper p with
  | Some n => Some (seen n)
  | None => option_map seen (oget lower p)
  end.
End View.
