(* ===== verification/SandboxAdditive.v ===== *)
(** * A captured layer is the difference the build made

    When the upper layer of a build passes [validate_additive_layer], overlayfs
    shows exactly the layer laid over the root below, and everything of that
    root unchanged; pruning changes nothing of it and leaves no directory that
    is only a copy. *)

From S2P Require Import Prelude Errors Posix SandboxLayer.

(** ** Layers *)

Lemma child_in n c m : child n c = Some m -> (c, m) ∈ children_of n.
Proof. apply assoc_elem. Qed.

Lemma oget_app n p q : oget n (p ++ q) = match oget n p with Some m => oget m q | None => None end.
Proof. revert n. induction p as [|c p IH]; intros n; simpl; [done|]. by destruct (child n c). Qed.

Lemma oget_snoc n p c : oget n (p ++ [c]) = match oget n p with Some m => child m c | None => None end.
Proof. rewrite oget_app. destruct (oget n p) as [m|]; simpl; [by destruct (child m c)|done]. Qed.

Lemma child_leaf n c : is_odir n = false -> child n c = None.
Proof. by destruct n. Qed.

Lemma oget_leaf n p : is_odir n = false -> p <> [] -> oget n p = None.
Proof. destruct p as [|c p]; [done|]. intros Hn _. simpl. by rewrite child_leaf. Qed.

Lemma look_path_none lower priv here l p :
  look_path lower priv here None l p = (None, match l with Some n => oget n p | None => None end).
Proof.
  revert here l. induction p as [|c p IH]; intros here l; simpl; [by destruct l|].
  rewrite IH. by destruct l as [n|]; simpl; [destruct (child n c)|].
Qed.

Lemma prefix_snoc_inv (q p : path) c : q `prefix_of` p ++ [c] -> q = p ++ [c] \/ q `prefix_of` p.
Proof.
  intros [k E]. destruct k as [|d k _] using rev_ind.
  - left. by rewrite app_nil_r in E.
  - right. rewrite app_assoc in E. apply app_inj_tail in E as [-> _]. by apply prefix_app_r.
Qed.

Lemma onode_nested_ind (P : onode -> Prop)
  (HFile : forall m c, P (OFile m c)) (HLink : forall m t, P (OLink m t)) (HDevice : forall m r, P (ODevice m r))
  (HSpecial : forall m k, P (OSpecial m k))
  (HDir : forall m xattrs cs, Forall (fun e => P e.2) cs -> P (ODir m xattrs cs)) n : P n.
Proof.
  revert n. fix IH 1. intros [m c|m t|m r|m k|m xattrs cs]; [apply HFile|apply HLink|apply HDevice|apply HSpecial|].
  apply HDir. induction cs as [|[c x] cs IHcs]; constructor; [apply IH|exact IHcs].
Qed.

Lemma wf_child m xattrs cs c ch : wf_layer (ODir m xattrs cs) -> (c, ch) ∈ cs -> wf_layer ch.
Proof.
  intros [_ H]. revert H. induction cs as [|[d x] cs IH]; intros H Hin; [by apply not_elem_of_nil in Hin|].
  apply elem_of_cons in Hin as [[= -> ->]|Hin]; [apply H|]. apply IH; [apply H|done].
Qed.

(** A pruned directory: each entry is what pruning makes of it. *)
Lemma prune_dir_inv io dir m xattrs cs n' : prune_passthrough_dir io dir (ODir m xattrs cs) = Ok n' -> NoDup (map fst cs) ->
  exists kept, n' = ODir m xattrs kept /\ map fst kept ⊆ map fst cs /\
    forall c, match assoc c cs with
              | Some ch => prune_entry io (dir ++ [c]) ch (prune_passthrough_dir io (dir ++ [c]) ch) = Ok (assoc c kept)
              | None => assoc c kept = None
              end.
Proof.
  cbn [prune_passthrough_dir]. destruct (read_dir_error io dir); [done|]. intros Hp Hn. inv_res.
  exists a. split; [done|]. clear -E Hn. revert a E. induction cs as [|[name ch] cs IH]; intros kept E.
  { injection E as <-. done. }
  apply NoDup_cons in Hn as [Hni Hn]. simpl in Hni. inv_res. destruct (IH Hn _ eq_refl) as [Hs Hk]. split.
  { destruct a; simpl; set_solver. }
  intros c. cbn [assoc]. destruct (bytes_eqb name c) eqn:Ec; bools.
  - subst c. rewrite E0. f_equal. destruct a as [ch'|]; cbn [assoc]; [by rewrite (bool_decide_eq_true_2 _ eq_refl : bytes_eqb name name = true)|].
    symmetry. apply assoc_none. intros Hin. by apply Hni, Hs.
  - specialize (Hk c). replace (assoc c match a with Some c' => (name, c') :: a0 | None => a0 end) with (assoc c a0); [done|].
    destruct a; [|done]. cbn [assoc]. by rewrite (bool_decide_eq_false_2 _ Ec : bytes_eqb name c = false).
Qed.

Lemma prune_root io dir m xattrs cs n' : prune_passthrough_dir io dir (ODir m xattrs cs) = Ok n' ->
  exists kept, n' = ODir m xattrs kept.
Proof. cbn [prune_passthrough_dir]. destruct (read_dir_error io dir); [done|]. intros Hp. inv_res. by eexists. Qed.

Section Additive.
Context (io : Io) (lower : onode) (privileged : bool).

(** The lower root is found where no link is in the way. *)
Definition plain_to (p : path) : Prop :=
  forall q, q `prefix_of` p -> match oget lower q with Some n => is_odir n = true | None => True end.
Context (Hlstat : forall p c, plain_to p -> lstat_lower io (p ++ [c]) = oget lower (p ++ [c])).

(** Redirect notes name something of the lower root: the kernel writes one when
    it renames a directory that is there. *)
Definition honest (upper : onode) : Prop :=
  forall p m xattrs cs name v, oget upper p = Some (ODir m xattrs cs) -> name ∈ REDIRECT_XATTRS ->
    assoc name xattrs = Some v -> v <> [] ->
    exists source, redirect_source p v = Some source /\ is_Some (lstat_lower io source).

(** ** What the checks say *)

Lemma validated_entry dir n c m : validate_additive_dir io dir n = Ok tt -> child n c = Some m ->
  validate_entry io (dir ++ [c]) m (validate_additive_dir io (dir ++ [c]) m) = Ok tt.
Proof.
  intros Hv Hc. apply child_in in Hc. destruct n as [| | | |mm xattrs cs]; try (by apply not_elem_of_nil in Hc).
  cbn [validate_additive_dir] in Hv. destruct (read_dir_error io dir); [done|].
  set (checks := map _ cs) in Hv. assert ((c, validate_entry io (dir ++ [c]) m (validate_additive_dir io (dir ++ [c]) m))
    ∈ sort_by fst checks) as Hin.
  { rewrite sort_by_perm. apply list_elem_of_In, in_map_iff. exists (c, m). split; [done|]. by apply list_elem_of_In. }
  apply (proj1 (try_fold_unit (fun check => check.2) _)) in Hv. rewrite Forall_forall in Hv. by apply Hv in Hin.
Qed.

Lemma first_note_some p xattrs names name v : name ∈ names -> assoc name xattrs = Some v -> v <> [] ->
  forall o, first_note io p xattrs names = Ok o ->
  exists name' v', name' ∈ names /\ assoc name' xattrs = Some v' /\ v' <> [] /\ o = Some v'.
Proof.
  induction names as [|n names IH]; intros Hin Ha Hv o; [by apply not_elem_of_nil in Hin|].
  simpl. unfold xattr_value. destruct (xattr_error io p n); [done|].
  destruct (assoc n xattrs) as [w|] eqn:Ew; [case_bool_decide as Hw|].
  - subst w. intros Ho. apply elem_of_cons in Hin as [->|Hin]; [congruence|].
    destruct (IH Hin Ha Hv o Ho) as (n' & v' & ? & ?). exists n', v'. split; [by right|done].
  - intros [= <-]. exists n, w. split; [by left|done].
  - intros Ho. apply elem_of_cons in Hin as [->|Hin]; [congruence|].
    destruct (IH Hin Ha Hv o Ho) as (n' & v' & ? & ?). exists n', v'. split; [by right|done].
Qed.

Lemma any_marker_some p xattrs names name : name ∈ names -> assoc name xattrs = Some (lit "y") ->
  any_marker io p xattrs names <> Ok false.
Proof.
  induction names as [|n names IH]; intros Hin Ha; [by apply not_elem_of_nil in Hin|].
  simpl. unfold xattr_equals, xattr_value. destruct (xattr_error io p n); [done|].
  apply elem_of_cons in Hin as [->|Hin].
  - rewrite Ha. cbn [len]. vm_compute. done.
  - destruct (assoc n xattrs) as [v|]; [|by apply IH]. destruct (_ && _); [done|by apply IH].
Qed.

Lemma marker_elem names : length names = 2%nat -> marker_of privileged names ∈ names.
Proof.
  unfold marker_of. destruct names as [|a [|b [|]]]; try discriminate. intros _.
  destruct privileged; simpl; [right|]; by left.
Qed.

(** An accepted entry, in words: no whiteout; a directory is not redirected, and
    one that is also below is an unchanged directory there, not opaque; anything
    else is new. *)
Definition accepted (relative : path) (n : onode) : Prop :=
  match n with
  | ODevice _ 0 => False
  | ODir _ xattrs _ =>
      note_in privileged xattrs = None /\
      match lstat_lower io relative with
      | Some l => opaque_in privileged xattrs = false /\ same_directory l n = true
      | None => True
      end
  | _ => lstat_lower io relative = None
  end.

Lemma validate_entry_accepted upper relative n inside : honest upper -> oget upper relative = Some n ->
  validate_entry io relative n inside = Ok tt -> accepted relative n /\ (is_odir n = true -> inside = Ok tt).
Proof.
  intros Hh Hg. unfold validate_entry. destruct (lstat_error io relative); [done|].
  destruct n as [m content|m target|m rdev|m kind|m xattrs cs]; simpl.
  - by destruct (lstat_lower io relative).
  - by destruct (lstat_lower io relative).
  - destruct rdev; [done|..]; by destruct (lstat_lower io relative).
  - by destruct (lstat_lower io relative).
  - destruct (redirect_target io relative xattrs) as [target|] eqn:Et; [|done].
    destruct (redirected io relative target) as [source|] eqn:Er; [done|].
    assert (note_in privileged xattrs = None) as Hn.
    { unfold note_in. destruct (assoc (marker_of privileged REDIRECT_XATTRS) xattrs) as [v|] eqn:Ea; [|done].
      case_bool_decide as Hv; [done|exfalso].
      destruct (first_note_some _ _ _ _ _ (marker_elem REDIRECT_XATTRS eq_refl) Ea Hv _ Et) as (n' & v' & Hin' & Ea' & Hv' & ->).
      destruct (Hh _ _ _ _ _ _ Hg Hin' Ea' Hv') as (source & Es & Hs).
      cbn [redirected] in Er. rewrite Es in Er. by destruct (is_Some_dec (lstat_lower io source)). }
    destruct (lstat_lower io relative) as [l|]; [|by intros ->].
    destruct (is_opaque_dir io relative xattrs) as [[]|] eqn:Eo; [done| |done].
    destruct (same_directory l (ODir m xattrs cs)) eqn:Es; [|done]. intros Hin. split_and!; [done| |done|done].
    unfold opaque_in. case_bool_decide as Ha; [exfalso|done].
    by apply (any_marker_some relative xattrs OPAQUE_XATTRS) in Ha; [|by apply marker_elem].
Qed.

(** ** Along a path *)

Lemma look_path_snoc priv here u l p c : look_path lower priv here u l (p ++ [c]) =
  let '(u', l') := look_path lower priv here u l p in look lower priv (here ++ p) u' l' c.
Proof.
  revert here u l. induction p as [|d p IH]; intros here u l; simpl.
  - rewrite app_nil_r. by destruct (look lower priv here u l c).
  - destruct (look lower priv here u l d) as [u' l']. rewrite IH. by rewrite <- app_assoc.
Qed.

Section Validated.
Context (upper : onode) (Hlower : is_odir lower = true).
Context (Hhonest : honest upper) (Hvalid : validate_additive_layer io upper = Ok tt).

Lemma accepted_at p n : oget upper p = Some n ->
  (p <> [] -> accepted p n) /\ (is_odir n = true -> validate_additive_dir io p n = Ok tt).
Proof.
  revert n. induction p as [|c p IH] using rev_ind; intros n Hg.
  { injection Hg as <-. split; [done|]. by intros _. }
  pose proof Hg as Hg'. rewrite oget_snoc in Hg'. destruct (oget upper p) as [m|] eqn:Em; [|done].
  destruct (IH m eq_refl) as [_ Hm]. assert (is_odir m = true) as Hdir.
  { destruct (is_odir m) eqn:E; [done|]. by rewrite child_leaf in Hg'. }
  apply (validated_entry p m c n (Hm Hdir)) in Hg'.
  apply (validate_entry_accepted upper) in Hg' as [Ha Hi]; [|done|done]. by split.
Qed.

Lemma plain_upper p n : oget upper p = Some n -> is_odir n = true -> plain_to p.
Proof.
  revert n. induction p as [|c p IH] using rev_ind; intros n Hg Hn.
  { intros q Hq. apply prefix_nil_inv in Hq as ->. simpl. by rewrite Hlower. }
  destruct (accepted_at _ _ Hg) as [Ha _]. specialize (Ha ltac:(by destruct p)).
  rewrite oget_snoc in Hg. destruct (oget upper p) as [m|] eqn:Em; [|done].
  assert (is_odir m = true) as Hdir by (destruct (is_odir m) eqn:E; [done|]; by rewrite child_leaf in Hg).
  specialize (IH m eq_refl Hdir). intros q Hq. apply prefix_snoc_inv in Hq as [->|Hq]; [|by apply IH].
  destruct n as [| | | |mm xattrs cs]; try done. cbn [accepted] in Ha. rewrite Hlstat in Ha by done.
  destruct (oget lower (p ++ [c])) as [l|]; [|done]. destruct Ha as (_ & _ & Hs).
  unfold same_directory in Hs. by bools.
Qed.

Lemma lower_at p n : p <> [] -> oget upper p = Some n -> lstat_lower io p = oget lower p.
Proof.
  intros Hp Hg. destruct (exists_last Hp) as (q & c & ->). apply Hlstat.
  rewrite oget_snoc in Hg. destruct (oget upper q) as [m|] eqn:Em; [|done]. eapply plain_upper; [done|].
  destruct (is_odir m) eqn:E; [done|]. by rewrite child_leaf in Hg.
Qed.

(** The walk of overlayfs is the two walks, side by side. *)
Lemma look_path_both p :
  look_path lower privileged [] (Some upper) (Some lower) p = (oget upper p, oget lower p).
Proof.
  induction p as [|c p IH] using rev_ind; [done|]. rewrite look_path_snoc, IH. unfold look. simpl (_ ++ p).
  rewrite <- !oget_snoc. destruct (oget upper (p ++ [c])) as [n|] eqn:Hg; [|done].
  pose proof (lower_at (p ++ [c]) n ltac:(by destruct p) Hg) as El.
  destruct (accepted_at _ _ Hg) as [Ha _]. specialize (Ha ltac:(by destruct p)).
  destruct n as [m x|m x|m rdev|m k|m xattrs cs]; cbn [accepted] in Ha; rewrite El in Ha.
  - by rewrite Ha.
  - by rewrite Ha.
  - destruct rdev; [done|by rewrite Ha..].
  - by rewrite Ha.
  - destruct Ha as [Hn Ha]. rewrite Hn. destruct (oget lower (p ++ [c])) as [l|].
    + destruct Ha as [Ho Hs]. rewrite Ho. simpl. unfold same_directory in Hs. bools. by destruct l.
    + by destruct (opaque_in privileged xattrs).
Qed.

(** What is in both is the same directory. *)
Lemma both_same p n l : p <> [] -> oget upper p = Some n -> oget lower p = Some l -> seen n = seen l.
Proof.
  intros Hp Hg Hl. destruct (accepted_at _ _ Hg) as [Ha _]. specialize (Ha Hp).
  pose proof (lower_at p n Hp Hg) as El. rewrite Hl in El.
  destruct n as [| |m rdev| |m xattrs cs]; cbn [accepted] in Ha; try congruence; [destruct rdev; congruence || done|].
  rewrite El in Ha. destruct Ha as (_ & _ & Hs). unfold same_directory in Hs. bools.
  destruct l; try done. simpl in *. congruence.
Qed.

Lemma view_laid_over p : view lower privileged upper p = laid_over lower upper p.
Proof. unfold view, laid_over. rewrite look_path_both. by destruct (oget upper p), (oget lower p). Qed.

Lemma lower_preserved p l : p <> [] -> oget lower p = Some l -> laid_over lower upper p = Some (seen l).
Proof.
  intros Hp Hl. unfold laid_over. destruct (oget upper p) as [n|] eqn:Hg; [|by rewrite Hl].
  f_equal. by eapply both_same.
Qed.

(** ** Pruning *)

(** What is seen of [n], which stands at [here], over the lower root. *)
Definition over (here : path) (n : onode) (p : path) : option Seen :=
  match oget n p with Some m => Some (seen m) | None => option_map seen (oget lower (here ++ p)) end.

Lemma prune_over n : forall here n', wf_layer n -> oget upper here = Some n ->
  prune_passthrough_dir io here n = Ok n' -> forall p, over here n' p = over here n p.
Proof.
  induction n as [m x|m x|m x|m x|m xattrs cs IH] using onode_nested_ind; intros here n' Hwf Hg Hp p.
  1-4: cbn [prune_passthrough_dir] in Hp; destruct (read_dir_error io here); [done|]; by injection Hp as <-.
  destruct (prune_dir_inv io here m xattrs cs n' Hp (proj1 Hwf)) as (kept & -> & _ & Hk).
  destruct p as [|c p]; [done|]. unfold over. cbn [oget]. unfold child. cbn [children_of]. specialize (Hk c).
  destruct (assoc c cs) as [ch|] eqn:Ec; [|by rewrite Hk].
  assert (oget upper (here ++ [c]) = Some ch) as Hgc by (rewrite oget_snoc, Hg; exact Ec).
  unfold prune_entry in Hk. destruct (lstat_error io (here ++ [c])); [done|].
  destruct (is_odir ch) eqn:Ed; simpl in Hk; [|by injection Hk as <-].
  destruct (prune_passthrough_dir io (here ++ [c]) ch) as [ch'|] eqn:Epc; [|done].
  rewrite Forall_forall in IH. pose proof (assoc_elem _ _ _ Ec) as Hin.
  assert (wf_layer ch) as Hwc by (by eapply wf_child).
  specialize (IH _ Hin (here ++ [c]) ch' Hwc Hgc Epc p). unfold over in IH. rewrite <- app_assoc in IH. simpl in IH.
  assert (assoc c kept = Some ch' \/ assoc c kept = None /\ children_of ch' = [] /\
    exists l, lstat_lower io (here ++ [c]) = Some l /\ is_odir l = true) as [Ek|(Ek & Ee & l & El & Hl)].
  { destruct (bool_decide (children_of ch' = [])) eqn:Eb; [|left; congruence]. bools.
    destruct (lstat_lower io (here ++ [c])) as [l|]; [|left; congruence].
    destruct (is_odir l) eqn:Eo; [|left; congruence]. destruct (remove_error io (here ++ [c])); [done|].
    right. split_and!; [congruence|done|by exists l]. }
  - by rewrite Ek.
  - rewrite Ek, <- IH. destruct p as [|d p]; simpl.
    + rewrite (lower_at (here ++ [c]) ch) in El by (done || by destruct here). rewrite El. simpl. f_equal.
      rewrite <- (both_same (here ++ [c]) ch l) by (done || by destruct here).
      destruct ch; try done. apply prune_root in Epc as [kept' ->]. done.
    + unfold child. by rewrite Ee.
Qed.

(** No directory is left that is empty and also below. *)
Lemma prune_no_noise n : forall here n', wf_layer n -> oget upper here = Some n ->
  prune_passthrough_dir io here n = Ok n' -> forall p d, p <> [] -> oget n' p = Some d -> is_odir d = true ->
  children_of d = [] -> forall l, oget lower (here ++ p) = Some l -> is_odir l = false.
Proof.
  induction n as [m x|m x|m x|m x|m xattrs cs IH] using onode_nested_ind; intros here n' Hwf Hg Hp p d Hne Hgp Hd Hch l Hl.
  1-4: cbn [prune_passthrough_dir] in Hp; destruct (read_dir_error io here); [done|]; injection Hp as <-;
    by rewrite oget_leaf in Hgp.
  destruct (prune_dir_inv io here m xattrs cs n' Hp (proj1 Hwf)) as (kept & -> & _ & Hk).
  destruct p as [|c p]; [done|]. cbn [oget] in Hgp. unfold child in Hgp. cbn [children_of] in Hgp. specialize (Hk c).
  destruct (assoc c cs) as [ch|] eqn:Ec; [|by rewrite Hk in Hgp].
  assert (oget upper (here ++ [c]) = Some ch) as Hgc by (rewrite oget_snoc, Hg; exact Ec).
  unfold prune_entry in Hk. destruct (lstat_error io (here ++ [c])); [done|].
  destruct (is_odir ch) eqn:Ed; simpl in Hk.
  2: { injection Hk as Hk. rewrite <- Hk in Hgp. destruct p as [|e p]; [simpl in Hgp; congruence|].
       by rewrite oget_leaf in Hgp. }
  destruct (prune_passthrough_dir io (here ++ [c]) ch) as [ch'|] eqn:Epc; [|done].
  rewrite Forall_forall in IH. pose proof (assoc_elem _ _ _ Ec) as Hin.
  assert (wf_layer ch) as Hwc by (by eapply wf_child).
  assert (assoc c kept = Some ch' \/ assoc c kept = None) as [Ek|Ek].
  { repeat case_match; try done; first [left; congruence|right; congruence]. }
  2: { by rewrite Ek in Hgp. }
  rewrite Ek in Hgp. destruct p as [|e p].
  - simpl in Hgp. injection Hgp as <-. rewrite (bool_decide_eq_true_2 _ Hch) in Hk.
    rewrite (lower_at (here ++ [c]) ch), Hl in Hk by (done || by destruct here).
    destruct (is_odir l); [|done]. destruct (remove_error io (here ++ [c])); [done|]. congruence.
  - eapply (IH _ Hin (here ++ [c]) ch' Hwc Hgc Epc (e :: p) d); try done. by rewrite <- app_assoc.
Qed.
End Validated.

(** ** Scaffolding *)

(** [u] without the top-level [names]. *)
Record stripped_of (names : list bytes) (u u' : onode) : Prop := {
  so_kept : forall c, c ∉ names -> child u' c = child u c;
  so_gone : forall c, c ∈ names -> child u' c = None;
  so_root : forall m xattrs cs, u' = ODir m xattrs cs -> exists cs0, u = ODir m xattrs cs0;
  so_wf : wf_layer u -> wf_layer u';
}.

Lemma assoc_filter {B} name c (cs : list (bytes * B)) :
  assoc c (List.filter (fun e => negb (bytes_eqb e.1 name)) cs) = if bytes_eqb name c then None else assoc c cs.
Proof.
  induction cs as [|[d x] cs IH]; simpl; [by destruct (bytes_eqb name c)|].
  destruct (bytes_eqb d name) eqn:Ed; simpl; bools.
  - rewrite IH. subst d. by destruct (bytes_eqb name c).
  - rewrite IH. destruct (bytes_eqb d c) eqn:Ec; [|done]. bools. subst c.
    by rewrite (bool_decide_eq_false_2 _ (not_eq_sym Ed) : bytes_eqb name d = false).
Qed.

Lemma wf_filter m xattrs cs f : wf_layer (ODir m xattrs cs) -> wf_layer (ODir m xattrs (List.filter f cs)).
Proof.
  intros [Hn Hall]. split.
  - induction cs as [|[d x] cs IH]; simpl; [constructor|]. apply NoDup_cons in Hn as [Hni Hn].
    destruct (f (d, x)); [|by apply IH; [|apply Hall]]. simpl. constructor; [|by apply IH; [|apply Hall]].
    intros Hin. apply Hni. apply list_elem_of_In, in_map_iff in Hin as ([d' x'] & Hd & Hin).
    apply filter_In in Hin as [Hin _]. apply list_elem_of_In, in_map_iff. by exists (d', x').
  - induction cs as [|[d x] cs IH]; simpl; [done|]. apply NoDup_cons in Hn as [_ Hn]. destruct Hall as [Hx Hall].
    destruct (f (d, x)); [split; [done|]|]; by apply IH.
Qed.

Lemma strip_one_of u name u' : strip_one io u name = Ok u' -> stripped_of [name] u u'.
Proof.
  unfold strip_one. destruct (remove_error io [name]); [done|]. destruct u as [m x|m x|m x|m x|m xattrs cs].
  1-4: intros [= <-]; constructor; [done|done|by eauto|done].
  destruct (assoc name cs) as [n|] eqn:Ea.
  - assert (stripped_of [name] (ODir m xattrs cs)
      (ODir m xattrs (List.filter (fun e => negb (bytes_eqb e.1 name)) cs))) as Hs.
    { constructor; unfold child; cbn [children_of].
      - intros c Hc. rewrite assoc_filter.
        assert (name <> c) as Hnc by set_solver. by rewrite (bool_decide_eq_false_2 _ Hnc : bytes_eqb name c = false).
      - intros c Hc. apply list_elem_of_singleton in Hc as ->. rewrite assoc_filter.
        by rewrite (bool_decide_eq_true_2 _ eq_refl : bytes_eqb name name = true).
      - intros m' x' cs' [= <- <- _]. by exists cs.
      - apply wf_filter. }
    destruct n; try done; by intros [= <-].
  - intros [= <-]. constructor; [done| |by eauto|done]. intros c Hc. apply list_elem_of_singleton in Hc as ->. exact Ea.
Qed.

Lemma strip_fold_of names u u' : try_fold (strip_one io) u names = Ok u' -> stripped_of names u u'.
Proof.
  revert u. induction names as [|name names IH]; intros u Hs; simpl in Hs.
  { injection Hs as <-. constructor; [done|set_solver|by eauto|done]. }
  inv_res. apply strip_one_of in E as [K1 G1 R1 W1]. apply IH in Hs as [K2 G2 R2 W2]. constructor.
  - intros c Hc. rewrite K2 by set_solver. apply K1. set_solver.
  - intros c Hc. destruct (decide (c ∈ names)) as [Hin|Hin]; [by apply G2|]. rewrite K2 by done. apply G1. set_solver.
  - intros m xattrs cs Hu. destruct (R2 _ _ _ Hu) as [cs1 Hu1]. by eapply R1.
  - auto.
Qed.

Lemma stripped_oget names u u' c p n : stripped_of names u u' -> oget u' (c :: p) = Some n -> oget u (c :: p) = Some n.
Proof.
  intros Hs. simpl. destruct (decide (c ∈ names)) as [Hc|Hc]; [by rewrite (so_gone _ _ _ Hs)|].
  by rewrite (so_kept _ _ _ Hs).
Qed.

Lemma stripped_honest names u u' : stripped_of names u u' -> honest u -> honest u'.
Proof.
  intros Hs Hh p m xattrs cs name v Hg. destruct p as [|c p].
  - injection Hg as Hg. destruct (so_root _ _ _ Hs _ _ _ Hg) as [cs0 Hu].
    apply (Hh [] m xattrs cs0). by rewrite Hu.
  - apply (Hh (c :: p) m xattrs cs). by eapply stripped_oget.
Qed.

Lemma stripped_view names u u' c p : stripped_of names u u' -> c ∉ names ->
  view lower privileged u (c :: p) = view lower privileged u' (c :: p).
Proof. intros Hs Hc. unfold view. cbn [look_path]. unfold look. by rewrite (so_kept _ _ _ Hs). Qed.

(** C8. A captured layer is exactly the difference that the build made.  If
    capturing the upper layer of a [SandboxInstall] build succeeds, then outside
    the scaffolding of the sandbox the build has seen, through the overlay,
    precisely what laying the captured layer over the root gives: the same
    files with the same contents, owners and modes, and nothing else.  Every
    path of the root is there unchanged, so the layer only adds; it holds
    nothing of the scaffolding, and no empty directory that the root has too. *)
Theorem captured_layer_exact upper layer :
  wf_layer upper -> is_odir lower = true -> honest upper -> capture_layer io upper = Ok layer ->
  (forall c p, c ∉ OVERLAY_SCAFFOLDING_TOP_LEVEL ->
     view lower privileged upper (c :: p) = laid_over lower layer (c :: p)) /\
  (forall p l, p <> [] -> oget lower p = Some l -> laid_over lower layer p = Some (seen l)) /\
  (forall c p, c ∈ OVERLAY_SCAFFOLDING_TOP_LEVEL -> oget layer (c :: p) = None) /\
  (forall p d l, p <> [] -> oget layer p = Some d -> is_odir d = true -> children_of d = [] ->
     oget lower p = Some l -> is_odir l = false).
Proof.
  intros Hwf Hl Hh Hc. unfold capture_layer in Hc. inv_res. destruct a0. apply strip_fold_of in E.
  pose proof (stripped_honest _ _ _ E Hh) as Hh'. pose proof (so_wf _ _ _ E Hwf) as Hwf'.
  assert (forall p, laid_over lower layer p = laid_over lower a p) as Hover.
  { intros p. exact (prune_over a Hl Hh' E0 a [] layer Hwf' eq_refl Hc p). }
  split_and!.
  - intros c p Hs. rewrite (stripped_view _ _ _ _ _ E Hs), Hover. by apply view_laid_over.
  - intros p l Hp Hg. rewrite Hover. by apply lower_preserved.
  - intros c p Hs. assert (oget a (c :: p) = None) as Ha by (simpl; by rewrite (so_gone _ _ _ E)).
    destruct a as [m x|m x|m x|m x|m xattrs cs].
    1-4: cbn in Hc; destruct (read_dir_error io []); [done|]; by injection Hc as <-.
    destruct (prune_dir_inv io [] m xattrs cs layer Hc (proj1 Hwf')) as (kept & -> & _ & Hk).
    specialize (Hk c). cbn [oget]. unfold child. cbn [children_of].
    pose proof (so_gone _ _ _ E c Hs) as Hgone. unfold child in Hgone. cbn [children_of] in Hgone.
    rewrite Hgone in Hk. by rewrite Hk.
  - intros p d l Hp Hg Hd Hch. exact (prune_no_noise a Hl Hh' E0 a [] layer Hwf' eq_refl Hc p d Hp Hg Hd Hch l).
Qed.
End Additive.
