(* ===== verification/SandboxConfig.v ===== *)
(** * The configuration of a sandboxed build

    [bobr-sandbox/src/lib.rs] and [mounts.rs]: the steps of a recipe are checked
    and their strings interpolated; from them the host makes the configurations
    of the runner and of the launcher. *)

From S2P Require Import Prelude Errors Text Posix Elf Json FsManifestOps Subjects SandboxProtocol SandboxKernel.

(** ** Recipes *)

Inductive StepUser := UserBuild | UserRoot.

Section Recipe.
Context {Number : Type}.

(** [BuildStep] and [SandboxConfig]. *)
Record BuildStep := mkBuildStep {
  bs_name : bytes;
  bs_run_as : StepUser;
  bs_cwd : bytes;
  bs_argv : list bytes;
  bs_env : list (bytes * JValue Number);
}.
Record SandboxConfig := mkSandboxConfig {
  sc_script_config : JValue Number;
  sc_steps : list BuildStep;
}.

Inductive SandboxError :=
| InvalidConfig (message : string)
| InputResolutionFailed (message : string)
| FsFailed (message : string).

Definition sandbox_message (e : SandboxError) : string :=
  match e with InvalidConfig m | InputResolutionFailed m | FsFailed m => m end.

(** *** Names *)

Definition key_byte (b : Z) : bool :=
  is_ascii_alphanumeric b || (b =? 46)%Z || (b =? 95)%Z || (b =? 45)%Z.
Definition plain_key (key : bytes) : bool :=
  negb (bool_decide (key = []) || bytes_eqb key [46]%Z || bytes_eqb key [46; 46]%Z || negb (forallb key_byte key)).

Definition validate_env_key (key : bytes) (p : string) : result SandboxError unit :=
  guard (plain_key key)
    (InvalidConfig ("env key '" +:+ show key +:+ "' at " +:+ p +:+ " is invalid; allowed chars: [A-Za-z0-9._-]")).

Definition ident_start (b : Z) : bool := is_ascii_alphabetic b || (b =? 95)%Z.
Definition ident_byte (b : Z) : bool := is_ascii_alphanumeric b || (b =? 95)%Z.

Definition validate_input_name (name : bytes) : result SandboxError unit :=
  match name with
  | [] => Err (InvalidConfig "input name must not be empty")
  | first :: rest =>
      if negb (ident_start first) then
        Err (InvalidConfig ("input name '" +:+ show name +:+ "' must start with an ASCII letter or underscore"))
      else if negb (forallb ident_byte rest) then
        Err (InvalidConfig ("input name '" +:+ show name +:+ "' must contain only ASCII letters, digits, and underscores"))
      else Ok tt
  end.

(** [sanitize_log_name]: one underscore for every other character. *)
Definition sanitize_log_name (name : bytes) : bytes :=
  map (fun c => if is_ascii_alphanumeric c || (c =? 45)%Z || (c =? 95)%Z then c else 95%Z)
    (default [] (utf8_chars name)).

(** *** Steps *)

Definition step_at (index : nat) (tail : string) : string := "steps[" +:+ show_z (Z.of_nat index) +:+ "]" +:+ tail.

Definition validate_step_env (env : list (bytes * JValue Number)) (p : string) : result SandboxError unit :=
  try_fold (fun _ '(key, value) =>
    validate_env_key key p ;;;
    match value with
    | JString _ => Ok tt
    | _ => Err (InvalidConfig (p +:+ "." +:+ show key +:+ " must be a string"))
    end) tt env.

(** The state of the loop: the index and the names and log names seen before,
    with their indexes. *)
Definition Seen_names := (list (bytes * nat) * list (bytes * nat))%type.

Definition validate_argv (index : nat) (argv : list bytes) : result SandboxError nat :=
  try_fold (fun arg_index arg =>
    if bool_decide (arg = []) then
      Err (InvalidConfig (step_at index (".argv[" +:+ show_z (Z.of_nat arg_index) +:+ "] must not be empty")))
    else Ok (S arg_index)) 0%nat argv.

Definition validate_step (all : list BuildStep) (state : nat * Seen_names) (step : BuildStep)
  : result SandboxError (nat * Seen_names) :=
  let '(index, (seen_names, seen_log_names)) := state in
  if bool_decide (trim (bs_name step) = []) then Err (InvalidConfig (step_at index ".name must not be empty"))
  else match assoc (bs_name step) seen_names with
  | Some previous =>
      Err (InvalidConfig (step_at index (".name '" +:+ show (bs_name step) +:+ "' duplicates ") +:+ step_at previous ".name"))
  | None =>
      let log_name := sanitize_log_name (bs_name step) in
      match assoc log_name seen_log_names with
      | Some previous =>
          Err (InvalidConfig (step_at index (".name '" +:+ show (bs_name step) +:+ "' collides with ")
            +:+ step_at previous (".name '" +:+ show (default [] (bs_name <$> (all !! previous))) +:+ "' after log-name sanitization ('"
            +:+ show log_name +:+ "')")))
      | None =>
          if bool_decide (trim (bs_cwd step) = []) then Err (InvalidConfig (step_at index ".cwd must not be empty"))
          else if bool_decide (bs_argv step = []) then Err (InvalidConfig (step_at index ".argv must not be empty"))
          else
            validate_argv index (bs_argv step) ;;;
            validate_step_env (bs_env step) (step_at index ".env") ;;;
            Ok (S index, ((bs_name step, index) :: seen_names, (log_name, index) :: seen_log_names))
      end
  end.

Definition validate_steps (steps : list BuildStep) : result SandboxError unit :=
  if bool_decide (steps = []) then Err (InvalidConfig "steps must contain at least one step")
  else try_fold (validate_step steps) (0%nat, ([], [])) steps ;;; Ok tt.

(** *** Script configurations *)

Definition validate_script_config_key (key : bytes) (p : string) : result SandboxError unit :=
  guard (plain_key key)
    (InvalidConfig ("script_config key '" +:+ show key +:+ "' at " +:+ p +:+ " is invalid; allowed chars: [A-Za-z0-9._-]")).

Fixpoint validate_script_config_node (value : JValue Number) (p : string) : result SandboxError unit :=
  match value with
  | JString _ => Ok tt
  | JArray items =>
      (fix all (index : nat) (l : list (JValue Number)) : result SandboxError unit :=
         match l with
         | [] => Ok tt
         | item :: l' =>
             validate_script_config_node item (p +:+ "[" +:+ show_z (Z.of_nat index) +:+ "]") ;;; all (S index) l'
         end) 0%nat items
  | JObject members =>
      (fix all (l : list (bytes * JValue Number)) : result SandboxError unit :=
         match l with
         | [] => Ok tt
         | (key, item) :: l' =>
             validate_script_config_key key p ;;; validate_script_config_node item (p +:+ "." +:+ show key) ;;; all l'
         end) members
  | _ => Err (InvalidConfig ("script_config supports only records, arrays, and string leaves; invalid value at " +:+ p))
  end.
Definition validate_script_config (value : JValue Number) : result SandboxError unit :=
  match value with JNull => Ok tt | _ => validate_script_config_node value "<root>" end.

Definition validate_sandbox_config (config : SandboxConfig) : result SandboxError unit :=
  validate_script_config (sc_script_config config) ;;; validate_steps (sc_steps config).
End Recipe.
Arguments BuildStep : clear implicits.
Arguments SandboxConfig : clear implicits.

(** ** Inputs *)

(** [collect_extra_inputs] on the slots that are not reserved, in the order of
    their names. *)
Definition collect_extra_inputs (builder_name : string) (extras : list (bytes * bytes))
  : result SandboxError (list (bytes * bytes)) :=
  try_map (fun '(name, object) =>
    validate_input_name name ;;;
    if existsb (bytes_eqb name) [lit "build"; lit "config"; lit "out"] then
      Err (InvalidConfig ("input name '" +:+ show name +:+ "' conflicts with a reserved " +:+ builder_name
                          +:+ " interpolation variable"))
    else Ok (name, object)) extras.

(** ** Interpolation *)

(** [str::find('}')]: what is before it and after it. *)
Fixpoint split_brace (l : bytes) : option (bytes * bytes) :=
  match l with
  | [] => None
  | x :: l' =>
      if (x =? 125)%Z then Some ([], l')
      else match split_brace l' with Some (a, b) => Some (x :: a, b) | None => None end
  end.

Definition is_ident (key : bytes) : bool :=
  match key with [] => false | first :: rest => ident_start first && forallb ident_byte rest end.

Definition braced (prefix : string) (key : bytes) : string := prefix +:+ "{" +:+ show key +:+ "}".

Definition validate_interpolation_name (key value : bytes) (escaped : bool) : result SandboxError unit :=
  let what := if escaped then "interpolation escape '" +:+ braced "@@" key else "interpolation variable '" +:+ braced "@" key in
  guard (is_ident key) (InvalidConfig ("invalid " +:+ what +:+ "' in '" +:+ show value +:+ "'")).

(** [input_mount_path]. *)
Definition input_mount_path (name : bytes) : bytes := CONTAINER_INPUTS_DIR ++ [47]%Z ++ name.

Definition interpolation_value (inputs : list (bytes * bytes)) (plain_object : bool) (key : bytes)
  : result SandboxError bytes :=
  if bytes_eqb key (lit "build") then Ok CONTAINER_BUILD_DIR
  else if bytes_eqb key (lit "config") then Ok CONTAINER_CONFIG_DIR
  else if bytes_eqb key (lit "out") && plain_object then Ok CONTAINER_OUT_DIR
  else match assoc key inputs with
       | Some _ => Ok (input_mount_path key)
       | None => Err (InvalidConfig ("unknown interpolation variable '" +:+ braced "@" key +:+ "'"))
       end.

(** The loop of [interpolate_step_string] from the rest of the string on.  The
    characters copied one by one are copied byte by byte: no byte of a longer
    character is an at sign. *)
Fixpoint interpolate_from (fuel : nat) (inputs : list (bytes * bytes)) (plain_object : bool) (value rest : bytes)
  : result SandboxError bytes :=
  match fuel with
  | O => Ok []
  | S fuel' =>
      match rest with
      | [] => Ok []
      | ch :: rest' =>
          match strip_prefix (lit "@@{") rest with
          | Some after_escape =>
              match split_brace after_escape with
              | None => Err (InvalidConfig ("unterminated interpolation escape in '" +:+ show value +:+ "'"))
              | Some (key, tail) =>
                  validate_interpolation_name key value true ;;;
                  rendered <- interpolate_from fuel' inputs plain_object value tail ;;
                  Ok (lit "@{" ++ key ++ lit "}" ++ rendered)
              end
          | None =>
              match strip_prefix (lit "@{") rest with
              | Some after_start =>
                  match split_brace after_start with
                  | None => Err (InvalidConfig ("unterminated interpolation in '" +:+ show value +:+ "'"))
                  | Some (key, tail) =>
                      validate_interpolation_name key value false ;;;
                      resolved <- interpolation_value inputs plain_object key ;;
                      rendered <- interpolate_from fuel' inputs plain_object value tail ;;
                      Ok (resolved ++ rendered)
                  end
              | None =>
                  rendered <- interpolate_from fuel' inputs plain_object value rest' ;;
                  Ok (ch :: rendered)
              end
          end
      end
  end.
Definition interpolate_step_string (inputs : list (bytes * bytes)) (plain_object : bool) (value : bytes)
  : result SandboxError bytes := interpolate_from (length value) inputs plain_object value value.

Section Resolve.
Context {Number : Type} (inputs : list (bytes * bytes)) (plain_object : bool).

Definition resolve_step_cwd (step : BuildStep Number) : result SandboxError bytes :=
  cwd <- interpolate_step_string inputs plain_object (bs_cwd step) ;;
  if bool_decide (cwd = []) || negb (is_absolute cwd) then
    Err (InvalidConfig ("step '" +:+ show (bs_name step) +:+ "' resolved cwd must be an absolute path, got '" +:+ show cwd +:+ "'"))
  else Ok cwd.

Definition resolve_step_argv (step : BuildStep Number) : result SandboxError (list bytes) :=
  try_map (interpolate_step_string inputs plain_object) (bs_argv step).

Definition resolve_step_env (step : BuildStep Number) : result SandboxError (list (bytes * bytes)) :=
  try_map (fun '(key, value) =>
    string_value <- ok_or (jas_str value)
      (InvalidConfig ("step '" +:+ show (bs_name step) +:+ "' env key '" +:+ show key +:+ "' must be a string")) ;;
    rendered <- interpolate_step_string inputs plain_object string_value ;;
    Ok (key, rendered)) (bs_env step).

Definition validate_step_interpolations (steps : list (BuildStep Number)) : result SandboxError unit :=
  try_fold (fun _ step => resolve_step_cwd step ;;; resolve_step_argv step ;;; resolve_step_env step ;;; Ok tt) tt steps.
End Resolve.

(** ** What the runtime function gets *)

Record SandboxRuntimeInput := mkSandboxRuntimeInput { si_name : bytes; si_path : bytes }.

Record SandboxRuntimeStep := mkSandboxRuntimeStep {
  sr_name : bytes;
  sr_run_as : StepUser;
  sr_cwd : bytes;
  sr_argv : list bytes;
  sr_env_overrides : gmap bytes bytes;
  sr_umask : Z;
  sr_stdout_path : bytes;
  sr_stderr_path : bytes;
}.

(** The fields of [SandboxInput] that the configurations depend on. *)
Record SandboxInput := mkSandboxInput {
  in_rootfs : bytes;
  in_config_dir : bytes;
  in_launcher_path : bytes;
  in_extra_inputs : list SandboxRuntimeInput;
  in_steps : list SandboxRuntimeStep;
  in_build_seed_hex : bytes;
  in_plain_object : bool;
}.

Definition DEFAULT_SANDBOX_UMASK : Z := 0x12.

(** [build_sandbox_step] with the log paths that were allocated for it. *)
Definition build_sandbox_step {Number} (inputs : list (bytes * bytes)) (plain_object : bool)
    (logs : BuildStep Number -> bytes * bytes) (step : BuildStep Number) : result SandboxError SandboxRuntimeStep :=
  cwd <- resolve_step_cwd inputs plain_object step ;;
  argv <- resolve_step_argv inputs plain_object step ;;
  env <- resolve_step_env inputs plain_object step ;;
  Ok (mkSandboxRuntimeStep (bs_name step) (bs_run_as step) cwd argv (list_to_map (rev env)) DEFAULT_SANDBOX_UMASK
        (logs step).1 (logs step).2).

(** [validate_steps] of [mounts.rs]; names and log paths seen so far. *)
Definition validate_runtime_step (state : list bytes * list bytes) (step : SandboxRuntimeStep)
  : result string (list bytes * list bytes) :=
  let '(names, log_paths) := state in
  let bad reason := Err ("sandbox step '" +:+ show (sr_name step) +:+ "' " +:+ reason) in
  if bool_decide (sr_name step ∈ names) then bad "is defined more than once"
  else if negb (is_absolute (sr_cwd step)) then bad ("cwd must be absolute: '" +:+ show (sr_cwd step) +:+ "'")
  else match sr_argv step with
  | [] => bad "argv must not be empty"
  | [] :: _ => bad "argv[0] must not be empty"
  | _ =>
      if (0x1ff <? sr_umask step)%Z then bad ("umask must be in 0o000..=0o777, got 0o" +:+ show_octal (sr_umask step))
      else if bool_decide (sr_stdout_path step ∈ log_paths)
      then bad ("stdout log path is not unique: '" +:+ show (sr_stdout_path step) +:+ "'")
      else if bool_decide (sr_stderr_path step ∈ sr_stdout_path step :: log_paths)
      then bad ("stderr log path is not unique: '" +:+ show (sr_stderr_path step) +:+ "'")
      else Ok (sr_name step :: names, sr_stderr_path step :: sr_stdout_path step :: log_paths)
  end.
Definition validate_runtime_steps (steps : list SandboxRuntimeStep) : result string unit :=
  try_fold validate_runtime_step ([], []) steps ;;; Ok tt.

(** ** The environment of a step *)

Definition CANONICAL_TIMESTAMP : Z := 315532800.

Definition base_env (step : SandboxRuntimeStep) (build_seed_hex : bytes) : gmap bytes bytes :=
  list_to_map
    [(lit "PATH", lit "/usr/local/bin:/usr/local/sbin:/usr/bin:/usr/sbin:/bin:/sbin");
     (lit "HOME", CONTAINER_BUILD_DIR); (lit "TMPDIR", lit "/tmp"); (lit "USER", lit "bobr");
     (lit "LC_ALL", lit "C"); (lit "LANG", lit "C"); (lit "TZ", lit "UTC");
     (lit "SOURCE_DATE_EPOCH", to_decimal CANONICAL_TIMESTAMP); (lit "PYTHONHASHSEED", lit "0");
     (lit "PYTHONDONTWRITEBYTECODE", lit "1"); (lit "BOBR_CONFIG_DIR", CONTAINER_CONFIG_DIR);
     (lit "BOBR_BUILD_DIR", CONTAINER_BUILD_DIR); (lit "BOBR_INPUTS_DIR", CONTAINER_INPUTS_DIR);
     (lit "BOBR_STEP_NAME", sr_name step); (lit "BOBR_BUILD_SEED", build_seed_hex)].

Definition effective_step_env (step : SandboxRuntimeStep) (build_seed_hex : bytes) (plain_object : bool)
  : gmap bytes bytes :=
  let env := base_env step build_seed_hex in
  let env := if plain_object then <[lit "BOBR_OUT_DIR" := CONTAINER_OUT_DIR]> env else env in
  sr_env_overrides step ∪ env.

(** ** The configurations *)

(** [SandboxStepLogMounts] of [SandboxRuntimeFiles]. *)
Record SandboxStepLogMounts := mkSandboxStepLogMounts {
  host_stdout : bytes;
  host_stderr : bytes;
  container_stdout : bytes;
  container_stderr : bytes;
}.

Definition log_path (index : nat) (stream : string) : bytes :=
  CONTAINER_LOG_DIR ++ [47]%Z ++ to_decimal (Z.of_nat index) ++ lit stream.

Definition step_logs (steps : list SandboxRuntimeStep) : list SandboxStepLogMounts :=
  imap (fun index step =>
    mkSandboxStepLogMounts (sr_stdout_path step) (sr_stderr_path step) (log_path index ".stdout") (log_path index ".stderr")) steps.

(** The configuration that [write_runner_config] writes. *)
Definition runner_step (config : SandboxInput) (step : SandboxRuntimeStep) (logs : SandboxStepLogMounts) : RunnerStepConfig :=
  mkRunnerStepConfig (sr_name step) (match sr_run_as step with UserBuild => BuildUser | UserRoot => Root end)
    (sr_cwd step) (sr_argv step) (effective_step_env step (in_build_seed_hex config) (in_plain_object config))
    (sr_umask step) (container_stdout logs) (container_stderr logs) (sr_stdout_path step) (sr_stderr_path step).

Definition runner_config_of (config : SandboxInput) : RunnerConfig :=
  mkRunnerConfig SANDBOX_PROTOCOL_VERSION [CONTAINER_BUILD_DIR]
    (zip_with (runner_step config) (in_steps config) (step_logs (in_steps config))) CONTAINER_FAILURE_REPORT.

(** [SandboxDirs] and the files of [SandboxRuntimeFiles] below a workspace. *)
Record SandboxDirs := mkSandboxDirs {
  sd_root : bytes; sd_rootfs : bytes; sd_build_dir : bytes; sd_runtime_files : bytes; sd_upper : bytes; sd_work : bytes;
}.
Definition join (base name : bytes) : bytes :=
  if bool_decide (base = []) || ends_with [47]%Z base then base ++ name else base ++ [47]%Z ++ name.
Definition sandbox_dirs (workspace : bytes) : SandboxDirs :=
  let root := join workspace (lit "sandbox") in
  mkSandboxDirs root (join root (lit "rootfs")) (join root (lit "build")) (join root (lit "runtime-files"))
    (join root (lit "upper")) (join root (lit "work")).
Definition host_failure_report (dirs : SandboxDirs) : bytes := join (sd_runtime_files dirs) (lit "sandbox-failure.json").

(** The constructors of mounts. *)
Definition bind_entry (source target : bytes) (readonly : bool) : SandboxLauncherMount :=
  mkSandboxLauncherMount Bind (Some source) target readonly [].
Definition proc_entry (target : bytes) : SandboxLauncherMount := mkSandboxLauncherMount Proc None target false [].
Definition tmpfs_entry (target : bytes) (noexec : bool) (extra_options : list bytes) : SandboxLauncherMount :=
  mkSandboxLauncherMount Tmpfs None target false
    ([lit "nosuid"; lit "nodev"] ++ (if noexec then [lit "noexec"] else []) ++ extra_options).

Definition device_entry (name : string) : SandboxLauncherMount := bind_entry (lit name) (lit name) false.

Definition fixed_mounts (config : SandboxInput) (dirs : SandboxDirs) : list SandboxLauncherMount :=
  [device_entry "/dev/null"; device_entry "/dev/zero"; device_entry "/dev/full"; device_entry "/dev/random";
   device_entry "/dev/urandom"; proc_entry (lit "/proc"); tmpfs_entry (lit "/tmp") false [lit "mode=1777"];
   tmpfs_entry (lit "/run") true [lit "mode=755"]; tmpfs_entry (lit "/dev/shm") false [lit "mode=1777"];
   bind_entry (sd_build_dir dirs) CONTAINER_BUILD_DIR false;
   bind_entry (in_config_dir config) CONTAINER_CONFIG_DIR true;
   bind_entry (in_launcher_path config) (join CONTAINER_LAUNCHER_DIR SANDBOX_LAUNCHER_BINARY_NAME) true;
   bind_entry (sd_runtime_files dirs) CONTAINER_RUNTIME_DIR false].

Definition log_mounts (logs : list SandboxStepLogMounts) : list SandboxLauncherMount :=
  flat_map (fun log => [bind_entry (host_stdout log) (container_stdout log) false;
                        bind_entry (host_stderr log) (container_stderr log) false]) logs.
Definition input_mounts (inputs : list SandboxRuntimeInput) : list SandboxLauncherMount :=
  map (fun input => bind_entry (si_path input) (input_mount_path (si_name input)) true) inputs.

Definition all_mounts (config : SandboxInput) (dirs : SandboxDirs) (out_dir : option bytes) : list SandboxLauncherMount :=
  fixed_mounts config dirs
  ++ (match out_dir with Some out => [bind_entry out CONTAINER_OUT_DIR false] | None => [] end)
  ++ log_mounts (step_logs (in_steps config)) ++ input_mounts (in_extra_inputs config).

(** [build_launcher_config]. *)
Definition launcher_config_of (config : SandboxInput) (dirs : SandboxDirs) (out_dir : option bytes) : SandboxLauncherConfig :=
  mkSandboxLauncherConfig SANDBOX_PROTOCOL_VERSION (sd_rootfs dirs) (all_mounts config dirs out_dir)
    CONTAINER_RUNNER_CONFIG (host_failure_report dirs)
    (Some (mkSandboxRootOverlay (in_rootfs config) (sd_upper dirs) (sd_work dirs))).
Definition build_launcher_config (config : SandboxInput) (dirs : SandboxDirs) (out_dir : option bytes)
  : result string SandboxLauncherConfig :=
  let launcher := launcher_config_of config dirs out_dir in
  validate_launcher_config launcher ;;; Ok launcher.
