(* ===== verification/SandboxConfigFacts.v ===== *)
(** * What the configuration of a sandboxed build promises

    Interpolation is exactly the reading of a string as text, escapes and
    variables; the configuration that the host writes is one the launcher
    accepts; and a command that runs in the sandbox is what a step of the recipe asks
    for, with the standard environment and the read-only inputs of the build. *)

From S2P Require Import Prelude Errors Text Posix Elf Json Subjects SandboxProtocol SandboxKernel SandboxRunner SandboxLauncher SandboxIsolation SandboxConfig.

(** ** Interpolation *)

Inductive Token := TByte (b : Z) | TEscape (key : bytes) | TVariable (key : bytes).

Definition print_token (t : Token) : bytes :=
  match t with
  | TByte b => [b]
  | TEscape key => lit "@@{" ++ key ++ lit "}"
  | TVariable key => lit "@{" ++ key ++ lit "}"
  end.
Definition print_tokens (ts : list Token) : bytes := concat (map print_token ts).

(** Keys are identifiers, and a byte of text does not start an escape or a variable. *)
Fixpoint readable (ts : list Token) : Prop :=
  match ts with
  | [] => True
  | TByte b :: ts' =>
      starts_with (lit "@@{") (b :: print_tokens ts') = false /\ starts_with (lit "@{") (b :: print_tokens ts') = false
      /\ readable ts'
  | TEscape key :: ts' | TVariable key :: ts' => is_ident key = true /\ readable ts'
  end.

Fixpoint render (inputs : list (bytes * bytes)) (plain_object : bool) (ts : list Token) : result SandboxError bytes :=
  match ts with
  | [] => Ok []
  | TByte b :: ts' => r <- render inputs plain_object ts' ;; Ok (b :: r)
  | TEscape key :: ts' => r <- render inputs plain_object ts' ;; Ok (lit "@{" ++ key ++ lit "}" ++ r)
  | TVariable key :: ts' =>
      v <- interpolation_value inputs plain_object key ;;
      r <- render inputs plain_object ts' ;; Ok (v ++ r)
  end.

Lemma split_brace_some l a b : split_brace l = Some (a, b) <-> l = a ++ 125%Z :: b /\ 125%Z ∉ a.
Proof.
  revert a. induction l as [|x l IH]; intros a; simpl.
  { split; [done|]. intros [E _]. by destruct a. }
  destruct (x =? 125)%Z eqn:Ex; bools.
  - subst. split; [intros [= <- <-]; split; [done|apply not_elem_of_nil]|].
    intros [E Ha]. destruct a as [|y a]; [by simplify_eq/=|]. injection E as <- _. set_solver.
  - destruct (split_brace l) as [[a' b']|] eqn:Es.
    + split.
      * intros [= <- <-]. destruct (proj1 (IH a') eq_refl) as [-> Ha]. set_solver.
      * intros [E Ha]. destruct a as [|y a]; [simplify_eq/=; done|]. injection E as <- E.
        assert (Some (a', b') = Some (a, b)) as [= <- <-]; [|done]. apply IH. set_solver.
    + split; [done|]. intros [E Ha]. destruct a as [|y a]; [simplify_eq/=; done|]. injection E as <- E.
      assert (@None (bytes * bytes) = Some (a, b)); [|done]. apply IH. set_solver.
Qed.

Lemma ident_no_brace key : is_ident key = true -> 125%Z ∉ key.
Proof.
  assert (forall l, forallb ident_byte l = true -> 125%Z ∉ l) as Hall.
  { intros l Hl Hin. rewrite forallb_forall in Hl. apply list_elem_of_In, Hl in Hin. by vm_compute in Hin. }
  destruct key as [|x key]; [done|]. simpl. intros H. bools. rewrite not_elem_of_cons. split; [|by apply Hall].
  intros <-. by vm_compute in H.
Qed.

Lemma strip_prefix_inv p l r : strip_prefix p l = Some r -> l = p ++ r.
Proof.
  revert l. induction p as [|x p IH]; intros l; simpl; [by intros [= ->]|]. destruct l as [|y l]; [done|].
  destruct (x =? y)%Z eqn:E; [|done]. bools. intros H. subst. f_equal. by apply IH.
Qed.

Section Interpolation.
Context (inputs : list (bytes * bytes)) (plain_object : bool) (value : bytes).

(** One round on a string that is not empty. *)
Lemma interpolate_round fuel ch rest' : let rest := ch :: rest' in
  interpolate_from (S fuel) inputs plain_object value rest =
  match strip_prefix (lit "@@{") rest with
  | Some after_escape =>
      match split_brace after_escape with
      | None => Err (InvalidConfig ("unterminated interpolation escape in '" +:+ show value +:+ "'"))
      | Some (key, tail) =>
          validate_interpolation_name key value true ;;;
          rendered <- interpolate_from fuel inputs plain_object value tail ;;
          Ok (lit "@{" ++ key ++ lit "}" ++ rendered)
      end
  | None =>
      match strip_prefix (lit "@{") rest with
      | Some after_start =>
          match split_brace after_start with
          | None => Err (InvalidConfig ("unterminated interpolation in '" +:+ show value +:+ "'"))
          | Some (key, tail) =>
              validate_interpolation_name key value false ;;;
              resolved <- interpolation_value inputs plain_object key ;;
              rendered <- interpolate_from fuel inputs plain_object value tail ;;
              Ok (resolved ++ rendered)
          end
      | None => rendered <- interpolate_from fuel inputs plain_object value rest' ;; Ok (ch :: rendered)
      end
  end.
Proof. done. Qed.

Lemma print_escape key ts : print_tokens (TEscape key :: ts) = 64%Z :: ([64; 123]%Z ++ key ++ 125%Z :: print_tokens ts).
Proof. unfold print_tokens. simpl. by rewrite <- app_assoc. Qed.
Lemma print_variable key ts : print_tokens (TVariable key :: ts) = 64%Z :: ([123]%Z ++ key ++ 125%Z :: print_tokens ts).
Proof. unfold print_tokens. simpl. by rewrite <- app_assoc. Qed.

Lemma brace_key key tail : is_ident key = true -> split_brace (key ++ 125%Z :: tail) = Some (key, tail).
Proof. intros Hk. apply split_brace_some. split; [done|by apply ident_no_brace]. Qed.

Lemma interpolate_tokens ts fuel : readable ts -> (length (print_tokens ts) <= fuel)%nat ->
  interpolate_from fuel inputs plain_object value (print_tokens ts) = render inputs plain_object ts.
Proof.
  revert fuel. induction ts as [|t ts IH]; intros fuel Hr Hf; [by destruct fuel|].
  destruct fuel as [|fuel].
  { exfalso. destruct t; [simpl in Hf|rewrite print_escape in Hf|rewrite print_variable in Hf]; simpl in Hf; lia. }
  destruct t as [b|key|key].
  - change (print_tokens (TByte b :: ts)) with (b :: print_tokens ts) in *. destruct Hr as (H1 & H2 & Hr).
    rewrite interpolate_round. cbv zeta. unfold starts_with in H1, H2.
    destruct (strip_prefix (lit "@@{") _); [done|]. destruct (strip_prefix (lit "@{") _); [done|].
    cbn [render]. rewrite IH; [done|done|]. simpl in Hf. lia.
  - destruct Hr as [Hk Hr]. rewrite print_escape in *. rewrite interpolate_round. cbv zeta.
    change (64%Z :: [64; 123]%Z ++ key ++ 125%Z :: print_tokens ts) with (lit "@@{" ++ key ++ 125%Z :: print_tokens ts).
    rewrite strip_prefix_app, brace_key by done. unfold validate_interpolation_name. rewrite Hk. cbn [guard render].
    rewrite IH; [done|done|]. simpl in Hf. rewrite length_app in Hf. simpl in Hf. lia.
  - destruct Hr as [Hk Hr]. rewrite print_variable in *. rewrite interpolate_round. cbv zeta.
    assert (strip_prefix (lit "@@{") (64%Z :: [123]%Z ++ key ++ 125%Z :: print_tokens ts) = None) as -> by done.
    change (64%Z :: [123]%Z ++ key ++ 125%Z :: print_tokens ts) with (lit "@{" ++ key ++ 125%Z :: print_tokens ts).
    rewrite strip_prefix_app, brace_key by done. unfold validate_interpolation_name. rewrite Hk. cbn [guard render].
    destruct (interpolation_value inputs plain_object key); [|done].
    rewrite IH; [done|done|]. simpl in Hf. rewrite length_app in Hf. simpl in Hf. lia.
Qed.

Lemma interpolate_reads fuel rest r : (length rest <= fuel)%nat ->
  interpolate_from fuel inputs plain_object value rest = Ok r -> exists ts, readable ts /\ print_tokens ts = rest.
Proof.
  revert rest r. induction fuel as [|fuel IH]; intros rest r Hf Hi.
  { destruct rest; [by exists []|simpl in Hf; lia]. }
  destruct rest as [|ch rest']; [by exists []|]. rewrite interpolate_round in Hi. cbv zeta in Hi.
  destruct (strip_prefix (lit "@@{") (ch :: rest')) as [after|] eqn:E1.
  - apply strip_prefix_inv in E1. destruct (split_brace after) as [[key tail]|] eqn:Eb; [|done].
    apply split_brace_some in Eb as [-> _]. unfold validate_interpolation_name in Hi. inv_res.
    eapply (IH tail) in E as (ts & Hr & Hp).
    2: { apply (f_equal length) in E1. rewrite !length_app in E1. simpl in E1, Hf. lia. }
    exists (TEscape key :: ts). split; [done|]. rewrite print_escape, Hp. by rewrite E1.
  - destruct (strip_prefix (lit "@{") (ch :: rest')) as [after|] eqn:E2.
    + apply strip_prefix_inv in E2. destruct (split_brace after) as [[key tail]|] eqn:Eb; [|done].
      apply split_brace_some in Eb as [-> _]. unfold validate_interpolation_name in Hi. inv_res.
      eapply (IH tail) in E0 as (ts & Hr & Hp).
      2: { apply (f_equal length) in E2. rewrite !length_app in E2. simpl in E2, Hf. lia. }
      exists (TVariable key :: ts). split; [done|]. rewrite print_variable, Hp. by rewrite E2.
    + inv_res. destruct (IH rest' a) as (ts & Hr & Hp); [simpl in Hf; lia|done|].
      exists (TByte ch :: ts). change (print_tokens (TByte ch :: ts)) with (ch :: print_tokens ts).
      rewrite Hp. split; [|done]. cbn [readable]. rewrite Hp. unfold starts_with. by rewrite E1, E2.
Qed.
End Interpolation.

Lemma interpolate_iff inputs plain_object value r :
  interpolate_step_string inputs plain_object value = Ok r <->
  exists ts, readable ts /\ print_tokens ts = value /\ render inputs plain_object ts = Ok r.
Proof.
  unfold interpolate_step_string. split.
  - intros Hi. destruct (interpolate_reads inputs plain_object value _ _ _ (le_n _) Hi) as (ts & Hr & Hp).
    exists ts. split_and!; [done|done|]. rewrite <- Hi, <- Hp. symmetry. by apply interpolate_tokens.
  - intros (ts & Hr & <- & Hok). rewrite <- Hok. by apply interpolate_tokens.
Qed.

(** C39. Interpolation is exact.  A string of a step is accepted with a result
    if and only if it is a sequence of text, escapes [@@{name}] and variables
    [@{name}], where no text starts an escape or a variable and every name is an
    identifier, and the result replaces each escape by [@{name}] and each
    variable by the container path it stands for.  In particular an
    unterminated or malformed brace and an unknown variable are refused. *)
Theorem interpolation_exact inputs plain_object value r :
  interpolate_step_string inputs plain_object value = Ok r <->
  exists ts, readable ts /\ print_tokens ts = value /\ render inputs plain_object ts = Ok r.
Proof. apply interpolate_iff. Qed.

(** ** Mount targets *)

Definition target_text (names : path) : bytes := 47%Z :: join_with [47]%Z names.

Lemma relative_of_names names : names <> [] -> Forall valid_name names ->
  relative_launcher_target (target_text names) = Ok names.
Proof.
  intros Hne Hv. unfold relative_launcher_target, target_text.
  assert (split_on 47 (47%Z :: join_with [47]%Z names) = [] :: names) as Es.
  { cbn [split_on]. rewrite Z.eqb_refl. f_equal. apply split_on_join; [done|].
    eapply Forall_impl; [exact Hv|]. by intros n (_ & ? & _). }
  unfold components. rewrite Es. cbn [is_absolute starts_with strip_prefix Z.eqb Pos.eqb negb existsb dotted].
  assert (existsb dotted names = false) as ->.
  { apply not_true_iff_false. intros H. apply existsb_exists in H as (n & Hin & Hd). rewrite Forall_forall in Hv.
    apply list_elem_of_In, Hv in Hin as (_ & _ & H1 & H2). unfold dotted in Hd. apply orb_true_iff in Hd as [Hd|Hd]; by bools. }
  cbn [orb bytes_eqb flat_map component_of app].
  assert (forall acc, try_fold (fun (relative : path) component =>
      match component with
      | RootDir => Ok relative
      | Normal segment => Ok (relative ++ [segment])
      | CurDir | ParentDir => Err ("mount target '" +:+ show (47%Z :: join_with [47]%Z names) +:+ "' " +:+ "must not contain '.' or '..' components")
      end) acc (flat_map component_of names) = Ok (acc ++ names)) as Hfold.
  { clear Es Hne. generalize (47%Z :: join_with [47]%Z names). intros text.
    induction Hv as [|n names (Hn & _ & H1 & H2) _ IH]; intros acc; simpl; [by rewrite app_nil_r|].
    unfold component_of at 1. rewrite (bool_decide_eq_false_2 _ Hn : bytes_eqb n [] = false).
    rewrite (bool_decide_eq_false_2 _ H1 : bytes_eqb n [46]%Z = false), (bool_decide_eq_false_2 _ H2 : bytes_eqb n [46; 46]%Z = false).
    simpl. by rewrite IH, <- app_assoc. }
  simpl. rewrite Hfold. simpl. by rewrite bool_decide_eq_false_2.
Qed.

Lemma validate_mounts_ok mounts names seen :
  Forall2 (fun m n => relative_launcher_target (sm_target m) = Ok n) mounts names -> NoDup names ->
  (forall n, n ∈ names -> n ∉ seen) -> is_ok (try_fold validate_mount seen mounts) = true.
Proof.
  intros Hf. revert seen. induction Hf as [|m n mounts names Hm _ IH]; intros seen Hn Hd; [done|].
  apply NoDup_cons in Hn as [Hni Hn]. simpl. unfold validate_mount at 1. rewrite Hm.
  rewrite bool_decide_eq_false_2 by (apply Hd; by left). apply IH; [done|].
  intros x Hx. rewrite not_elem_of_cons. split; [by intros ->|]. apply Hd. by right.
Qed.

(** ** The mounts of a build *)

Definition fixed_names : list path :=
  [[lit "dev"; lit "null"]; [lit "dev"; lit "zero"]; [lit "dev"; lit "full"]; [lit "dev"; lit "random"];
   [lit "dev"; lit "urandom"]; [lit "proc"]; [lit "tmp"]; [lit "run"]; [lit "dev"; lit "shm"];
   [lit "__bobr"; lit "build"]; [lit "__bobr"; lit "config"]; [lit "__bobr"; lit "launcher"; lit "bobr-sandbox-launcher"];
   [lit "__bobr"; lit "runtime"]].
Definition out_names (out_dir : option bytes) : list path :=
  match out_dir with Some _ => [[lit "__bobr"; lit "out"]] | None => [] end.
Definition log_name_of (index : nat) (stream : string) : path :=
  [lit "__bobr"; lit "logs"; to_decimal (Z.of_nat index) ++ lit stream].
Definition log_names (start count : nat) : list path :=
  flat_map (fun index => [log_name_of index ".stdout"; log_name_of index ".stderr"]) (seq start count).
Definition input_name_of (name : bytes) : path := [lit "__bobr"; lit "inputs"; name].

Abbreviation relative_to := (Forall2 (fun m n => relative_launcher_target (sm_target m) = Ok n)).

Lemma fixed_relative config dirs : relative_to (fixed_mounts config dirs) fixed_names.
Proof. repeat constructor; vm_compute; reflexivity. Qed.

Lemma out_relative out_dir :
  relative_to (match out_dir with Some out => [bind_entry out CONTAINER_OUT_DIR false] | None => [] end) (out_names out_dir).
Proof. destruct out_dir; repeat constructor; vm_compute; reflexivity. Qed.

Lemma digits_valid l tail : forallb is_digit l = true -> l <> [] -> valid_name tail -> valid_name (l ++ tail).
Proof.
  intros Hl Hne (_ & Ht & _). rewrite forallb_forall in Hl.
  assert (forall x, x ∈ l -> (48 <= x <= 57)%Z) as Hd by (intros x Hx; by apply is_digit_range, Hl, list_elem_of_In).
  destruct l as [|d l]; [done|]. pose proof (Hd d ltac:(by left)). split_and!.
  - done.
  - rewrite elem_of_app. intros [Hin|Hin]; [|done]. apply Hd in Hin. lia.
  - simpl. intros [= ? ?]. lia.
  - simpl. intros [= ? ?]. lia.
Qed.

#[local] Instance valid_name_dec name : Decision (valid_name name).
Proof. unfold valid_name. apply _. Defined.

(** Below a directory of the sandbox. *)
Lemma below_bobr directory name : valid_name (lit directory) -> valid_name name ->
  Forall valid_name [lit "__bobr"; lit directory; name].
Proof.
  intros Hd Hn. apply Forall_cons. split; [by apply (bool_decide_unpack _); vm_compute|]. by apply Forall_cons; split; [|apply Forall_singleton].
Qed.

Lemma log_relative index stream : (Z.of_nat index < 2 ^ 64)%Z -> valid_name (lit stream) ->
  relative_launcher_target (log_path index stream) = Ok (log_name_of index stream).
Proof.
  intros Hi Hs. destruct (to_decimal_ok (Z.of_nat index)) as [_ Hd]; [unfold is_u64; lia|].
  rewrite <- (relative_of_names (log_name_of index stream)); [done|done|].
  apply (below_bobr "logs"); [by apply (bool_decide_unpack _); vm_compute|]. apply digits_valid; [done|apply to_decimal_nonempty|done].
Qed.

Lemma ident_valid name : is_ident name = true -> valid_name name.
Proof.
  assert (forall x, ident_byte x = true -> x <> 47%Z) as Hb by (intros x Hx ->; by vm_compute in Hx).
  destruct name as [|x name]; [done|]. simpl. intros H. bools. rewrite forallb_forall in H0. split_and!.
  - done.
  - rewrite elem_of_cons. intros [<-|Hin]; [by vm_compute in H|]. apply list_elem_of_In, H0 in Hin. by apply Hb in Hin.
  - intros [= -> _]. by vm_compute in H.
  - intros [= -> _]. by vm_compute in H.
Qed.

Lemma input_relative name : is_ident name = true ->
  relative_launcher_target (input_mount_path name) = Ok (input_name_of name).
Proof.
  intros Hn. rewrite <- (relative_of_names (input_name_of name)); [done|done|].
  apply (below_bobr "inputs"); [by apply (bool_decide_unpack _); vm_compute|]. by apply ident_valid.
Qed.

Lemma validated_ident name : validate_input_name name = Ok tt -> is_ident name = true.
Proof.
  destruct name as [|x name]; [done|]. simpl. destruct (ident_start x); [|done]. simpl.
  by destruct (forallb ident_byte name).
Qed.

(** ** Targets are distinct *)

Lemma digits_dot a b x y : forallb is_digit a = true -> forallb is_digit b = true ->
  a ++ 46%Z :: x = b ++ 46%Z :: y -> a = b /\ x = y.
Proof.
  revert b. induction a as [|d a IH]; intros [|e b] Ha Hb E; simpl in *.
  - by injection E as ->.
  - injection E as <- _. by bools.
  - injection E as -> _. by bools.
  - injection E as <- E. bools. destruct (IH b) as [-> ->]; done.
Qed.

Lemma log_name_inj i j s1 s2 : (Z.of_nat i < 2 ^ 64)%Z -> (Z.of_nat j < 2 ^ 64)%Z ->
  log_name_of i (String "." s1) = log_name_of j (String "." s2) -> i = j /\ lit s1 = lit s2.
Proof.
  intros Hi Hj. unfold log_name_of. intros [= E].
  change (lit (String "." s1)) with (46%Z :: lit s1) in E. change (lit (String "." s2)) with (46%Z :: lit s2) in E.
  destruct (to_decimal_ok (Z.of_nat i)) as [Ri Di]; [unfold is_u64; lia|].
  destruct (to_decimal_ok (Z.of_nat j)) as [Rj Dj]; [unfold is_u64; lia|].
  apply digits_dot in E as [E ?]; [|done|done]. split; [|done]. rewrite E, Rj in Ri. lia.
Qed.

Lemma log_names_in x start count : x ∈ log_names start count ->
  exists i stream, (start <= i < start + count)%nat /\ (stream = ".stdout"%string \/ stream = ".stderr"%string) /\
    x = log_name_of i stream.
Proof.
  unfold log_names. intros Hx. apply list_elem_of_In, in_flat_map in Hx as (i & Hi & Hx).
  apply in_seq in Hi. exists i. destruct Hx as [<-|[<-|[]]]; eexists; (split; [done|split; [|done]]); auto.
Qed.

Lemma log_names_nodup start count : (Z.of_nat (start + count) < 2 ^ 64)%Z -> NoDup (log_names start count).
Proof.
  revert start. induction count as [|count IH]; intros start Hb; [constructor|].
  unfold log_names. cbn [seq flat_map app]. fold (log_names (S start) count).
  assert (forall stream, (stream = "stdout"%string \/ stream = "stderr"%string) ->
    log_name_of start (String "." stream) ∉ log_names (S start) count) as Hfresh.
  { intros stream Hs Hin. apply log_names_in in Hin as (i & stream' & Hi & [->| ->] & E).
    - apply (log_name_inj start i stream "stdout") in E as [-> _]; lia.
    - apply (log_name_inj start i stream "stderr") in E as [-> _]; lia. }
  repeat (apply NoDup_cons; split).
  - rewrite not_elem_of_cons. split; [|apply (Hfresh "stdout"); auto].
    intros E. by apply (log_name_inj start start "stdout" "stderr") in E as [_ E]; [|lia|lia].
  - apply (Hfresh "stderr"). auto.
  - apply IH. lia.
Qed.

Definition all_names (count : nat) (out_dir : option bytes) (inputs : list bytes) : list path :=
  fixed_names ++ out_names out_dir ++ log_names 0 count ++ map input_name_of inputs.

(** What lies below which directory. *)
Definition beneath (directory : string) (p : path) : bool :=
  match p with [a; b; _] => bytes_eqb a (lit "__bobr") && bytes_eqb b (lit directory) | _ => false end.

Lemma beneath_log i stream directory : beneath directory (log_name_of i stream) = bytes_eqb (lit "logs") (lit directory).
Proof. done. Qed.

Lemma all_names_nodup count out_dir inputs : (Z.of_nat count < 2 ^ 64)%Z -> NoDup inputs ->
  NoDup (all_names count out_dir inputs).
Proof.
  intros Hc Hi. assert (NoDup (fixed_names ++ out_names out_dir)) as Hfix.
  { apply (bool_decide_unpack _). destruct out_dir; by vm_compute. }
  assert (forall directory, directory = "logs"%string \/ directory = "inputs"%string ->
    Forall (fun p => beneath directory p = false) (fixed_names ++ out_names out_dir)) as Hout.
  { intros directory [->| ->]; apply (bool_decide_unpack _); destruct out_dir; by vm_compute. }
  unfold all_names. rewrite app_assoc. apply NoDup_app. split_and!; [done| |apply NoDup_app; split_and!].
  - intros x Hx Hin. apply elem_of_app in Hin as [Hin|Hin].
    + apply log_names_in in Hin as (i & stream & _ & _ & ->).
      pose proof (Hout "logs"%string ltac:(auto)) as Ho. rewrite Forall_forall in Ho. by apply Ho in Hx.
    + apply list_elem_of_In, in_map_iff in Hin as (name & <- & _).
      pose proof (Hout "inputs"%string ltac:(auto)) as Ho. rewrite Forall_forall in Ho. by apply Ho in Hx.
  - apply log_names_nodup. simpl. lia.
  - intros x Hx Hin. apply log_names_in in Hx as (i & stream & _ & _ & ->).
    apply list_elem_of_In, in_map_iff in Hin as (name & E & _). by apply (f_equal (beneath "logs")) in E.
  - apply NoDup_fmap_2; [|done]. intros a b E. by injection E.
Qed.

Lemma logs_relative steps start : (Z.of_nat (start + length steps) < 2 ^ 64)%Z ->
  relative_to (log_mounts (imap (fun index step => mkSandboxStepLogMounts (sr_stdout_path step) (sr_stderr_path step)
    (log_path (start + index) ".stdout") (log_path (start + index) ".stderr")) steps)) (log_names start (length steps)).
Proof.
  revert start. induction steps as [|step steps IH]; intros start Hb; [constructor|].
  cbn [imap log_mounts flat_map length]. unfold log_names. cbn [seq flat_map app].
  rewrite Nat.add_0_r. simpl in Hb.
  apply Forall2_cons; split; [apply log_relative; [lia|by apply (bool_decide_unpack _); vm_compute]|].
  apply Forall2_cons; split; [apply log_relative; [lia|by apply (bool_decide_unpack _); vm_compute]|].
  specialize (IH (S start) ltac:(lia)). unfold log_mounts, log_names in IH.
  erewrite imap_ext; [exact IH|]. intros i s _. simpl. by rewrite <- Nat.add_succ_r.
Qed.

Lemma all_mounts_relative config dirs out_dir :
  (Z.of_nat (length (in_steps config)) < 2 ^ 64)%Z ->
  Forall (fun i => is_ident (si_name i) = true) (in_extra_inputs config) ->
  relative_to (all_mounts config dirs out_dir)
    (all_names (length (in_steps config)) out_dir (map si_name (in_extra_inputs config))).
Proof.
  intros Hs Hi. unfold all_mounts, all_names.
  apply Forall2_app; [apply fixed_relative|]. apply Forall2_app; [apply out_relative|]. apply Forall2_app.
  - apply (logs_relative (in_steps config) 0). lia.
  - unfold input_mounts. rewrite map_map. induction Hi as [|i l Hi _ IH]; simpl; constructor; [|exact IH].
    by apply input_relative.
Qed.

(** The inputs of a build come from [collect_extra_inputs]. *)
Definition inputs_collected (builder_name : string) (extras : list (bytes * bytes)) (config : SandboxInput) : Prop :=
  exists named, collect_extra_inputs builder_name extras = Ok named /\ NoDup (map fst extras) /\
    map si_name (in_extra_inputs config) = map fst named.

Lemma collected_names builder_name extras named : collect_extra_inputs builder_name extras = Ok named ->
  named = extras /\ Forall (fun e => is_ident e.1 = true) named.
Proof.
  unfold collect_extra_inputs. revert named. induction extras as [|[name object] extras IH]; intros named Hc; simpl in Hc; inv_res.
  { by split. }
  destruct (IH _ E0) as [-> Hf]. destruct a1. split; [done|]. constructor; [by apply validated_ident|done].
Qed.

Lemma collected_idents builder_name extras config : inputs_collected builder_name extras config ->
  Forall (fun i => is_ident (si_name i) = true) (in_extra_inputs config).
Proof.
  intros (named & Hc & _ & Hi). apply collected_names in Hc as [-> Hf]. apply Forall_forall. intros i Hin.
  rewrite Forall_forall in Hf.
  assert (si_name i ∈ map fst extras) as Hx by (rewrite <- Hi; by apply (list_elem_of_fmap_2 si_name)).
  apply list_elem_of_In, in_map_iff in Hx as (e & <- & He). by apply Hf, list_elem_of_In.
Qed.

Lemma launcher_config_valid builder_name extras config dirs out_dir :
  inputs_collected builder_name extras config -> (Z.of_nat (length (in_steps config)) < 2 ^ 64)%Z ->
  validate_launcher_config (launcher_config_of config dirs out_dir) = Ok tt.
Proof.
  intros Hcol Hs. pose proof (collected_idents _ _ _ Hcol) as Hid. destruct Hcol as (named & Hc & Hn & Hi).
  apply collected_names in Hc as [-> _]. unfold validate_launcher_config.
  assert (is_ok (try_fold validate_mount [] (sl_mounts (launcher_config_of config dirs out_dir))) = true) as Hok.
  { eapply validate_mounts_ok.
    - by apply all_mounts_relative.
    - apply all_names_nodup; [done|]. by rewrite Hi.
    - intros n _. apply not_elem_of_nil. }
  destruct (try_fold _ _ _) as [l|]; [|done]. cbn [sl_runner_config launcher_config_of]. by vm_compute.
Qed.

(** ** From the recipe to the command *)

Section EndToEnd.
Context (fuel : nat) {EJ : EventJson} {RJ : RunnerJson} {LJ : LauncherJson}.
Context (wait_fd event_fd : Z) (config_path : bytes) (inherited : gset Z).
Context (builder_name : string) (extras : list (bytes * bytes)) (config : SandboxInput) (dirs : SandboxDirs)
        (out_dir : option bytes).

(** The two files hold what the host wrote, for whoever reads them. *)
Definition files_as_written (s : Process) : Prop :=
  (forall b, (config_path, b) ∈ p_files s -> launcher_config_from_slice b = Ok (launcher_config_of config dirs out_dir)) /\
  (forall b, (CONTAINER_RUNNER_CONFIG, b) ∈ p_files s -> runner_config_from_slice b = Ok (runner_config_of config)).

(** An input is bound below the root at its name and then made read-only. *)
Definition input_readonly (s : Process) (input : SandboxRuntimeInput) : Prop :=
  let target := join_root (sd_rootfs dirs) (input_name_of (si_name input)) in
  exists before source_is_dir later,
    p_mounts s = before ++ [mkMountCall (Some (si_path input)) target None (bind_flags source_is_dir) None;
                            mkMountCall (Some (si_path input)) target None remount_readonly_flags None] ++ later.

Lemma configured_of_steps step : step ∈ rc_steps (runner_config_of config) ->
  exists st, st ∈ in_steps config /\ rs_argv step = sr_argv st /\ rs_cwd step = sr_cwd st /\ rs_umask step = sr_umask st /\
    rs_env step = effective_step_env st (in_build_seed_hex config) (in_plain_object config) /\
    rs_run_as step = match sr_run_as st with UserBuild => BuildUser | UserRoot => Root end.
Proof.
  intros Hin. cbn [rc_steps runner_config_of] in Hin. apply elem_of_lookup_zip_with in Hin as (i & st & logs & -> & Hst & _).
  exists st. split; [by eapply list_elem_of_lookup_2|done].
Qed.

Lemma mount_of_input (root : bytes) mounts logs m : Forall2 (mount_done root) mounts logs -> m ∈ mounts ->
  exists before l after, concat logs = before ++ l ++ after /\ mount_done root m l.
Proof.
  intros Hf Hin. apply list_elem_of_lookup_1 in Hin as [i Hi].
  destruct (Forall2_lookup_l _ _ _ _ _ Hf Hi) as (l & Hl & Hd).
  exists (concat (take i logs)), l, (concat (drop (S i) logs)). split; [|done].
  rewrite <- (take_drop_middle _ _ _ Hl) at 1. by rewrite concat_app.
Qed.

Lemma layout_inputs s input : Forall (fun i => is_ident (si_name i) = true) (in_extra_inputs config) ->
  layout_done (launcher_config_of config dirs out_dir) (sl_mounts (launcher_config_of config dirs out_dir)) (p_mounts s) ->
  input ∈ in_extra_inputs config -> input_readonly s input.
Proof.
  intros Hid (overlay & logs & _ & Hf & Hm) Hin.
  set (m := bind_entry (si_path input) (input_mount_path (si_name input)) true).
  assert (m ∈ all_mounts config dirs out_dir) as Hmem.
  { unfold all_mounts. rewrite !elem_of_app. right. right. right. unfold input_mounts.
    by apply (list_elem_of_fmap_2 (fun input => bind_entry (si_path input) (input_mount_path (si_name input)) true)). }
  destruct (mount_of_input _ _ _ m Hf Hmem) as (before & l & later & Hl & relative & Hr & Hd).
  rewrite Forall_forall in Hid. cbn [sm_target m bind_entry] in Hr. rewrite input_relative in Hr by (by apply Hid).
  injection Hr as <-. destruct Hd as (source & source_is_dir & [= <-] & ->).
  exists (overlay ++ before), source_is_dir, later. rewrite Hm, Hl, <- app_assoc. done.
Qed.

(** *** What a recipe asks for

    Written without the functions of the host: what a variable stands for, what a
    string of a step means, and the environment that a step gets of itself. *)
Inductive stands_for (names : list bytes) (plain_object : bool) : bytes -> bytes -> Prop :=
| stands_build : stands_for names plain_object (lit "build") (lit "/__bobr/build")
| stands_config : stands_for names plain_object (lit "config") (lit "/__bobr/config")
| stands_out : plain_object = true -> stands_for names plain_object (lit "out") (lit "/__bobr/out")
| stands_input name : name ∈ names -> stands_for names plain_object name (lit "/__bobr/inputs/" ++ name).

Definition token_means (names : list bytes) (plain_object : bool) (t : Token) (piece : bytes) : Prop :=
  match t with
  | TByte b => piece = [b]
  | TEscape key => piece = lit "@{" ++ key ++ lit "}"
  | TVariable key => stands_for names plain_object key piece
  end.
Definition means (names : list bytes) (plain_object : bool) (value r : bytes) : Prop :=
  exists ts pieces, readable ts /\ value = print_tokens ts /\
    Forall2 (token_means names plain_object) ts pieces /\ r = concat pieces.

Definition standard_env (step_name build_seed : bytes) (plain_object : bool) : gmap bytes bytes :=
  list_to_map
    ([(lit "PATH", lit "/usr/local/bin:/usr/local/sbin:/usr/bin:/usr/sbin:/bin:/sbin"); (lit "HOME", lit "/__bobr/build");
      (lit "TMPDIR", lit "/tmp"); (lit "USER", lit "bobr"); (lit "LC_ALL", lit "C"); (lit "LANG", lit "C"); (lit "TZ", lit "UTC");
      (lit "SOURCE_DATE_EPOCH", lit "315532800"); (lit "PYTHONHASHSEED", lit "0"); (lit "PYTHONDONTWRITEBYTECODE", lit "1");
      (lit "BOBR_CONFIG_DIR", lit "/__bobr/config"); (lit "BOBR_BUILD_DIR", lit "/__bobr/build");
      (lit "BOBR_INPUTS_DIR", lit "/__bobr/inputs"); (lit "BOBR_STEP_NAME", step_name); (lit "BOBR_BUILD_SEED", build_seed)]
     ++ (if plain_object then [(lit "BOBR_OUT_DIR", lit "/__bobr/out")] else [])).

(** A command is that of a step of a recipe: the meaning of its arguments; of its
    variables, the later over the earlier and all over the standard ones; of its
    directory, which is absolute; the umask 022; the user and the group. *)
Record asked_for {Number} (names : list bytes) (plain_object : bool) (build_seed : bytes)
    (step : BuildStep Number) (s : Process) (command : Command) : Prop := mkAskedFor {
  af_argv : Forall2 (means names plain_object) (bs_argv step) (cmd_program command :: cmd_args command);
  af_env : exists overrides,
    Forall2 (fun e o => e.1 = o.1 /\ exists text, e.2 = JString text /\ means names plain_object text o.2)
      (bs_env step) overrides /\
    cmd_env command = Some (list_to_map (rev overrides) ∪ standard_env (bs_name step) build_seed plain_object);
  af_cwd : exists cwd, p_cwd s = Some cwd /\ is_absolute cwd = true /\ means names plain_object (bs_cwd step) cwd;
  af_umask : p_umask s = Some 18%Z;
  af_user : p_uid s = (match bs_run_as step with UserBuild => 1 | UserRoot => 0 end)%Z;
  af_group : p_gid s = (match bs_run_as step with UserBuild => 1 | UserRoot => 0 end)%Z;
}.

Lemma value_stands inputs plain_object key v :
  interpolation_value inputs plain_object key = Ok v -> stands_for (map fst inputs) plain_object key v.
Proof.
  unfold interpolation_value. destruct (bytes_eqb key (lit "build")) eqn:E1; bools; [intros [= <-]; subst; constructor|].
  destruct (bytes_eqb key (lit "config")) eqn:E2; bools; [intros [= <-]; subst; constructor|].
  destruct (bytes_eqb key (lit "out") && plain_object) eqn:E3; bools; [intros [= <-]; subst; by constructor|].
  destruct (assoc key inputs) as [object|] eqn:Ea; [|done]. intros [= <-].
  change (stands_for (map fst inputs) plain_object key (lit "/__bobr/inputs/" ++ key)). constructor.
  clear E3. induction inputs as [|[k o] inputs IH]; [done|]. cbn [assoc] in Ea. cbn [map fst]. destruct (bytes_eqb k key) eqn:Ek.
  - bools. subst. by left.
  - right. exact (IH Ea).
Qed.
Lemma rendered_means inputs plain_object ts r :
  render inputs plain_object ts = Ok r ->
  exists pieces, Forall2 (token_means (map fst inputs) plain_object) ts pieces /\ r = concat pieces.
Proof.
  revert r. induction ts as [|t ts IH]; intros r Hr; cbn [render] in Hr; [injection Hr as <-; by exists []|].
  destruct t as [b|key|key]; inv_res.
  1,2: destruct (IH _ eq_refl) as (pieces & Hf & ->); eexists (_ :: pieces); split; [constructor; [done|done]|].
  - done.
  - cbn. by rewrite <- !app_assoc.
  - destruct (IH _ eq_refl) as (pieces & Hf & ->). eexists (_ :: pieces). split; [constructor; [by apply value_stands|done]|done].
Qed.
Lemma interpolated_means inputs plain_object value r :
  interpolate_step_string inputs plain_object value = Ok r -> means (map fst inputs) plain_object value r.
Proof.
  intros (ts & Hr & <- & Hok)%interpolate_iff. destruct (rendered_means _ _ _ _ Hok) as (pieces & Hf & ->).
  by exists ts, pieces.
Qed.

Lemma standard_env_written (step : SandboxRuntimeStep) build_seed (plain_object : bool) :
  (if plain_object then <[lit "BOBR_OUT_DIR" := CONTAINER_OUT_DIR]> (base_env step build_seed)
   else base_env step build_seed) = standard_env (sr_name step) build_seed plain_object.
Proof.
  unfold standard_env. destruct plain_object; [|rewrite app_nil_r; reflexivity].
  rewrite list_to_map_snoc; [reflexivity|]. apply (bool_decide_unpack _). vm_compute. done.
Qed.

(** What the host lowers a step to, run as it says. *)
Lemma lowered_asked_for {Number} (step : BuildStep Number) logs named st rs s command :
  build_sandbox_step named (in_plain_object config) logs step = Ok st ->
  rs_argv rs = sr_argv st /\ rs_cwd rs = sr_cwd st /\ rs_umask rs = sr_umask st /\
    rs_env rs = effective_step_env st (in_build_seed_hex config) (in_plain_object config) /\
    rs_run_as rs = match sr_run_as st with UserBuild => BuildUser | UserRoot => Root end ->
  runs_step s command rs ->
  asked_for (map fst named) (in_plain_object config) (in_build_seed_hex config) step s command.
Proof.
  unfold build_sandbox_step. intros Hl (Ea & Ec & Eu & Ee & Er) (Ra & Re & Rc & Ru & _ & Rid). inv_res.
  rename a into cwd, a0 into argv, a1 into env. cbn in Ea, Ec, Eu, Er.
  assert (Hid : p_uid s = (match bs_run_as step with UserBuild => 1 | UserRoot => 0 end)%Z /\
                p_gid s = (match bs_run_as step with UserBuild => 1 | UserRoot => 0 end)%Z).
  { rewrite Er in Rid. destruct (bs_run_as step); naive_solver. }
  destruct Hid as [Hu Hg]. split; [| | |by rewrite Ru, Eu|done|done].
  - rewrite <- Ra, Ea. apply try_map_Forall2 in E0. eapply Forall2_impl; [exact E0|].
    intros x y Hxy. by apply interpolated_means.
  - exists env. split.
    + apply try_map_Forall2 in E1. eapply Forall2_impl; [exact E1|]. intros [key value] [key' r] Hkr. cbn in Hkr.
      inv_res. cbn. split; [done|]. destruct value; try done. simplify_eq/=. eexists. split; [done|].
      by apply interpolated_means.
    + rewrite Re, Ee. unfold effective_step_env. cbn zeta. by rewrite standard_env_written.
  - exists cwd. rewrite Rc, Ec. split; [done|]. unfold resolve_step_cwd in E. inv_res. bools. split; [done|].
    by apply interpolated_means.
Qed.

(** C9. From the recipe to the command.  Let the inputs of a build be collected from
    distinct slots and its steps be lowered with them.  The launcher configuration that
    the host makes is valid, so that the host never refuses its own configuration; and
    in any run of the launcher, when the two configuration files hold what the host
    wrote, every command that is executed is what a step of the recipe asks for: its
    arguments, the variables of its environment over the standard ones and its absolute
    directory, all with escapes and variables replaced by what they mean, the umask 022,
    and the build user or root as the recipe says; with every input of the build bound
    read-only at its name. *)
Theorem build_runs_as_configured {Number} (recipe : list (BuildStep Number)) logs named trace s command :
  collect_extra_inputs builder_name extras = Ok named -> NoDup (map fst extras) ->
  map si_name (in_extra_inputs config) = map fst named ->
  try_map (build_sandbox_step named (in_plain_object config) logs) recipe = Ok (in_steps config) ->
  (Z.of_nat (length recipe) < 2 ^ 64)%Z ->
  runs (launch fuel wait_fd event_fd config_path) (started_proc inherited) trace -> (s, CExecve command) ∈ trace ->
  files_as_written s ->
  build_launcher_config config dirs out_dir = Ok (launcher_config_of config dirs out_dir) /\
  (exists step, step ∈ recipe /\
     asked_for (map fst named) (in_plain_object config) (in_build_seed_hex config) step s command) /\
  Forall (input_readonly s) (in_extra_inputs config).
Proof.
  intros Hnamed Hnd Hinputs Hlower Hlen Hruns Hin [Hfl Hfr].
  assert (Hcol : inputs_collected builder_name extras config) by (by exists named).
  apply try_map_Forall2 in Hlower. pose proof (Forall2_length _ _ _ Hlower) as Hlength. split.
  { unfold build_launcher_config. rewrite (launcher_config_valid builder_name extras); [done|done|]. by rewrite <- Hlength. }
  pose proof (safe_runs _ _ _ _ _ (safe_launch fuel wait_fd event_fd config_path inherited) Hruns) as Hall.
  rewrite Forall_forall in Hall. specialize (Hall _ Hin). destruct Hall as (cfg & step & Hs & Hc & Hr).
  destruct (sb_config _ _ _ _ _ _ Hs) as (b & Hb & Hj & _). rewrite (Hfl b Hb) in Hj. injection Hj as <-. split.
  - destruct Hc as (b2 & runner & Hb2 & Hj2 & _ & Hst). rewrite (Hfr b2 Hb2) in Hj2. injection Hj2 as <-.
    apply configured_of_steps in Hst as (st & Hst & Ec). apply list_elem_of_lookup_1 in Hst as [i Hi].
    destruct (Forall2_lookup_r _ _ _ _ _ Hlower Hi) as (bs & Hbs & Hl).
    exists bs. split; [by eapply list_elem_of_lookup_2|]. by eapply lowered_asked_for.
  - apply Forall_forall. intros input Hinp.
    eapply layout_inputs; [by eapply collected_idents|apply (sb_mounts _ _ _ _ _ _ Hs)|done].
Qed.
End EndToEnd.
