(* ===== verification/SandboxHost.v ===== *)
(** * The host side of the sandbox

    [bobr-sandbox/src/lifecycle.rs] and [reports.rs]: the runtime starts the
    launcher, signals it through a pipe, forwards its events, watches for a
    cancellation, and reports how it ended.  The launcher is killed and waited
    for on every way out ([LauncherChild] does so when it is dropped).  The fuel
    bounds the rounds of a loop and the interruptions; the process group of the
    launcher, and closing descriptors when their owner goes out of scope, are left
    out. *)

From S2P Require Import Prelude Errors Text Posix Elf Subjects SandboxProtocol SandboxKernel SandboxRunner SandboxLauncher.

Open Scope sys_scope.

Inductive LauncherOutcome := Completed | CancelledOutcome.

(** ** Cancellation *)

(** [CancellationReceiver::open]: the descriptor of the FIFO. *)
Definition cancellation_open (p : bytes) : sys (result string Z) :=
  let? fifo := serr (fun e => "failed to open sandbox cancellation FIFO '" +:+ show p +:+ "': " +:+ se_text e)
                 (scall (COpenFifo p)) in
  let? status := serr (fun e => "failed to inspect sandbox cancellation FIFO '" +:+ show p +:+ "': " +:+ se_text e)
                   (scall (CFstat fifo)) in
  if negb (fs_is_fifo status) then SRet (Err ("sandbox cancellation path is not a FIFO: '" +:+ show p +:+ "'"))
  else
    do euid := scall CGeteuid in
    SRet (
      if negb (fs_uid status =? euid)%Z then
        Err ("sandbox cancellation FIFO '" +:+ show p +:+ "' is not owned by the runtime user")
      else if negb (Z.land (fs_mode status) 0x3f =? 0)%Z then
        Err ("sandbox cancellation FIFO '" +:+ show p +:+ "' is accessible by other users")
      else Ok fifo).

(** [cancellation_eof]. *)
Fixpoint cancellation_eof (n : nat) (fd : Z) : sys (result SysError bool) :=
  match n with
  | O => SSpin
  | S n' =>
      do r := scall (CRead fd) in
      match r with
      | Ok count =>
          if (count =? 0)%Z then SRet (Ok true)
          else SRet (Err (other "cancellation FIFO unexpectedly contained data"))
      | Err e =>
          if would_block e then SRet (Ok false)
          else if interrupted e then cancellation_eof n' fd
          else SRet (Err e)
      end
  end.
Definition is_cancelled (n : nat) (fifo : Z) : sys (result string bool) :=
  serr (fun e => "failed to read sandbox cancellation FIFO: " +:+ se_text e) (cancellation_eof n fifo).

(** ** The child *)

(** [kill_and_reap] of a launcher that is or is not reaped: whether it is now. *)
Definition kill_and_reap (child : Z) (reaped : bool) : sys (bool * result SysError unit) :=
  if reaped then SRet (true, Ok tt)
  else
    do _ := scall (CKill child) in
    do r := scall (CWaitChild child) in
    match r with
    | Ok _ => SRet (true, Ok tt)
    | Err e => SRet (false, Err e)
    end.

(** [terminate_child]: the rest of its error output. *)
Definition terminate_child (child stderr : Z) : sys (bool * result SysError bytes) :=
  do killed := kill_and_reap child false in
  match killed with
  | (reaped, Err e) => SRet (reaped, Err e)
  | (reaped, Ok _) => do rest := scall (CReadToEnd stderr) in SRet (reaped, rest)
  end.

Definition set_parent_death_signal (expected_parent : Z) : sys (result SysError unit) :=
  scall (CPrctl PdeathsigKill) ?;
  do parent := scall CGetppid in
  SRet (if (parent =? expected_parent)%Z then Ok tt else Err (mkSysError ESRCH "No such process (os error 3)")).

Definition LAUNCHER_WAIT_FD : Z := 3.
Definition LAUNCHER_EVENT_FD : Z := 4.
Definition FIRST_TEMPORARY_FD : Z := 5.

(** [clear_cloexec] and [duplicate_launcher_fd]. *)
Definition clear_cloexec (fd : Z) : sys (result SysError unit) :=
  let? flags := scall (CGetFd fd) in
  scall (CSetFd fd (Z.ldiff flags FD_CLOEXEC)).
Definition duplicate_launcher_fd (fd target_fd : Z) : sys (result SysError unit) :=
  if (fd =? target_fd)%Z then clear_cloexec fd else scall (CDup2 fd target_fd).

(** The hook of [pre_exec]. *)
Definition launcher_pre_exec (wait event expected_parent : Z) : sys (result SysError unit) :=
  duplicate_launcher_fd wait LAUNCHER_WAIT_FD ?;
  duplicate_launcher_fd event LAUNCHER_EVENT_FD ?;
  set_parent_death_signal expected_parent.

Definition launcher_command (launcher_path launcher_config : bytes) (stderr : Z) : Command :=
  mkCommand launcher_path
    [lit "launch"; lit "--wait-fd"; to_decimal LAUNCHER_WAIT_FD; lit "--event-fd"; to_decimal LAUNCHER_EVENT_FD;
     lit "--config"; launcher_config] None None None (Some stderr).

(** ** Reading *)

(** What was read before an error is kept. *)
Fixpoint drain_stderr (n : nat) (stderr : Z) (acc : bytes) : sys (bytes * result SysError unit) :=
  match n with
  | O => SSpin
  | S n' =>
      do r := scall (CReadErrors stderr) in
      match r with
      | Ok [] => SRet (acc, Ok tt)
      | Ok chunk => drain_stderr n' stderr (acc ++ chunk)
      | Err e => if would_block e then SRet (acc, Ok tt) else SRet (acc, Err e)
      end
  end.

Section Host.
Context (fuel : nat) `{EventJson}.

(** [while let Some(event) = decoder.next_event()? { emit(event)? }]. *)
Fixpoint emit_events (n : nat) (decoder : bytes) : sys (result string bytes) :=
  match n with
  | O => SRet (Ok decoder)
  | S n' =>
      match next_event decoder with
      | Err e => SRet (Err e)
      | Ok None => SRet (Ok decoder)
      | Ok (Some (event, rest)) =>
          do r := scall (CEmit event) in
          match r with
          | Ok _ => emit_events n' rest
          | Err e => SRet (Err e)
          end
      end
  end.

(** [drain_sandbox_events]: whether the pipe has ended, and the decoder. *)
Fixpoint drain_sandbox_events (n : nat) (reader : Z) (decoder : bytes) : sys (result string (bool * bytes)) :=
  match n with
  | O => SSpin
  | S n' =>
      do r := scall (CReadSome reader) in
      match r with
      | Ok [] => SRet (Ok (true, decoder))
      | Ok chunk =>
          let? decoder' := emit_events (S (length (push decoder chunk))) (push decoder chunk) in
          drain_sandbox_events n' reader decoder'
      | Err e =>
          if would_block e then SRet (Ok (false, decoder))
          else if interrupted e then drain_sandbox_events n' reader decoder
          else SRet (Err (se_text e))
      end
  end.

(** [poll_launcher]: [POLLHUP] or [POLLERR] of the cancellation. *)
Definition poll_launcher (fifo stderr events : Z) : sys (result SysError bool) :=
  do r := scall (CPoll fifo stderr events) in
  SRet (match r with
        | Ok revents => Ok (negb (Z.land revents 0x18 =? 0)%Z)
        | Err e => if interrupted e then Ok false else Err e
        end).

(** ** Reports *)

Class ReportJson := report_from_slice : bytes -> result string SandboxRunnerFailureReport.
Context `{ReportJson}.

Definition read_sandbox_failure_report (p : bytes) (fallback : string) : sys string :=
  do content := scall (CReadFile p) in
  SRet (match content with
        | Ok [] => fallback
        | Ok b =>
            match report_from_slice b with
            | Ok report => to_error_message report
            | Err error => fallback +:+ "; failed to parse sandbox failure report '" +:+ show p +:+ "': " +:+ error
            end
        | Err error => fallback +:+ "; failed to read sandbox failure report '" +:+ show p +:+ "': " +:+ se_text error
        end).

Definition status_message (status : Z) : string :=
  match status_code status with
  | Some code => "exit code " +:+ show_i32 code
  | None => match status_signal status with Some signal => "signal " +:+ show_i32 signal | None => "unknown status" end
  end.

(** [command_context]: the first line that is not blank. *)
Definition command_context (stderr : bytes) : string :=
  match List.find (fun line => negb (bool_decide (line = []))) (map trim (split_on 10 stderr)) with
  | Some line => ": " +:+ show line
  | None => EmptyString
  end.

(** ** The launcher's life *)

(** The loop until the launcher ends, [None] when the build is cancelled; whether
    it is reaped, its status, and what was read. *)
Fixpoint supervise (n : nat) (launcher_path : bytes) (fifo child stderr events : Z) (errors decoder : bytes)
  : sys (bool * result string (option (Z * bytes * bytes))) :=
  match n with
  | O => SSpin
  | S n' =>
      do read := drain_stderr fuel stderr errors in
      match read with
      | (_, Err e) => SRet (false, Err ("failed to read sandbox launcher stderr: " +:+ se_text e))
      | (errors, Ok _) =>
          do drained := drain_sandbox_events fuel events decoder in
          match drained with
          | Err e => SRet (false, Err e)
          | Ok (_, decoder) =>
              do waited := scall (CTryWait child) in
              match waited with
              | Err e => SRet (false, Err ("failed to wait for sandbox launcher '" +:+ show launcher_path +:+ "': " +:+ se_text e))
              | Ok (Some status) => SRet (true, Ok (Some (status, errors, decoder)))
              | Ok None =>
                  do polled := poll_launcher fifo stderr events in
                  match polled with
                  | Err e => SRet (false, Err ("failed while waiting for sandbox launcher: " +:+ se_text e))
                  | Ok true =>
                      do killed := kill_and_reap child false in
                      do _ := drain_stderr fuel stderr errors in
                      do _ := drain_sandbox_events fuel events decoder in
                      SRet (killed.1, Ok None)
                  | Ok false => supervise n' launcher_path fifo child stderr events errors decoder
                  end
              end
          end
      end
  end.

(** What follows when the launcher has ended by itself. *)
Definition conclude (failure_report : bytes) (stderr events status : Z) (errors decoder : bytes)
  : sys (result string LauncherOutcome) :=
  do read := drain_stderr fuel stderr errors in
  let errors := read.1 in
  let? drained := drain_sandbox_events fuel events decoder in
  let '(eof, decoder) := drained in
  if negb eof then SRet (Err "sandbox event pipe remained open after launcher exit")
  else match finish decoder with
  | Err e => SRet (Err e)
  | Ok _ =>
      if status_success status then SRet (Ok Completed)
      else
        do message := read_sandbox_failure_report failure_report
          ("sandbox launcher exited with " +:+ status_message status +:+ command_context errors) in
        SRet (Err message)
  end.

(** From the new launcher on, without the final drop; whether it is reaped. *)
Definition attend (launcher_path failure_report : bytes) (fifo child stderr events wait_write : Z)
  : sys (bool * result string LauncherOutcome) :=
  do cancelled := is_cancelled fuel fifo in
  match cancelled with
  | Err e => SRet (false, Err e)
  | Ok true =>
      do terminated := terminate_child child stderr in
      SRet (terminated.1, Ok CancelledOutcome)
  | Ok false =>
      do shaken := write_handshake_byte fuel wait_write in
      match shaken with
      | Err error =>
          do cancelled := is_cancelled fuel fifo in
          match cancelled with
          | Err e => SRet (false, Err e)
          | Ok cancelled =>
              do terminated := terminate_child child stderr in
              let rest := match terminated.2 with Ok b => b | Err _ => [] end in
              SRet (terminated.1,
                    if cancelled : bool then Ok CancelledOutcome
                    else Err ("failed to signal sandbox launcher readiness: " +:+ se_text error +:+ command_context rest))
          end
      | Ok _ =>
          do _ := scall (CClose wait_write) in
          do blocking := scall (CSetNonblocking stderr) in
          match blocking with
          | Err e => SRet (false, Err ("failed to make sandbox launcher stderr nonblocking: " +:+ se_text e))
          | Ok _ =>
              do blocking := scall (CSetNonblocking events) in
              match blocking with
              | Err e => SRet (false, Err ("failed to make sandbox event pipe nonblocking: " +:+ se_text e))
              | Ok _ =>
                  do ended := supervise fuel launcher_path fifo child stderr events [] [] in
                  match ended with
                  | (reaped, Err e) => SRet (reaped, Err e)
                  | (reaped, Ok None) => SRet (reaped, Ok CancelledOutcome)
                  | (reaped, Ok (Some (status, errors, decoder))) =>
                      do result := conclude failure_report stderr events status errors decoder in
                      SRet (reaped, result)
                  end
              end
          end
      end
  end.

(** [Drop for LauncherChild] after [attend]. *)
Definition with_child (child : Z) (body : sys (bool * result string LauncherOutcome)) : sys (result string LauncherOutcome) :=
  do ended := body in
  do _ := kill_and_reap child ended.1 in
  SRet ended.2.

(** [run_sandbox_launcher]. *)
Definition run_sandbox_launcher (launcher_path launcher_config failure_report : bytes) (fifo : Z)
  : sys (result string LauncherOutcome) :=
  let? cancelled := is_cancelled fuel fifo in
  if cancelled : bool then SRet (Ok CancelledOutcome)
  else
    let? wait_pipe := serr (fun e => "failed to create sandbox launcher wait pipe: " +:+ se_text e) (scall CPipe) in
    let? event_pipe := serr (fun e => "failed to create sandbox event pipe: " +:+ se_text e) (scall CPipe) in
    let? inherited_wait := serr (fun e => "failed to duplicate launcher wait fd: " +:+ se_text e)
                             (scall (CDupFrom wait_pipe.1 FIRST_TEMPORARY_FD)) in
    let? inherited_event := serr (fun e => "failed to duplicate launcher event fd: " +:+ se_text e)
                              (scall (CDupFrom event_pipe.2 FIRST_TEMPORARY_FD)) in
    do expected_parent := scall CGetpid in
    let failed e := "failed to spawn sandbox launcher '" +:+ show launcher_path +:+ "': " +:+ se_text e in
    let? stderr_pipe := serr failed (scall CPipe) in
    let? child := serr failed (command_spawn (launcher_command launcher_path launcher_config stderr_pipe.2)
                    (launcher_pre_exec inherited_wait inherited_event expected_parent)) in
    do _ := scall (CClose wait_pipe.1) in
    do _ := scall (CClose event_pipe.2) in
    do _ := scall (CClose inherited_wait) in
    do _ := scall (CClose inherited_event) in
    with_child child (attend launcher_path failure_report fifo child stderr_pipe.1 event_pipe.1 wait_pipe.2).
End Host.
