(* ===== verification/SandboxHostFacts.v ===== *)
(** * What the host guarantees

    On every way out of [run_sandbox_launcher] the launcher has been waited for,
    and it is only waited for after it was killed; a build counts as completed
    only if the launcher succeeded and all of its events were forwarded. *)

From S2P Require Import Prelude Errors Posix SandboxProtocol SandboxKernel SandboxEvents SandboxRunner SandboxLauncher SandboxHost.

Open Scope sys_scope.

Section HostFacts.
Context (fuel : nat) {EJ : EventJson} {PJ : ReportJson}.

(** Waiting for a child blocks, so it must have been killed. *)
Definition host_ok (s : Process) (c : Call) : Prop :=
  match c with CWaitChild child => child ∈ d_killed (p_dealings s) | _ => True end.
Abbreviation safe' := (safe host_ok).

(** Calls that have nothing to do with children, events or chunks. *)
Definition aside (c : Call) : Prop :=
  match c with
  | CFork | CReadExecStatus _ | CWaitChild _ | CWaitPid _ | CTryWait _ | CKill _ | CReadSome _ | CEmit _ => False
  | _ => True
  end.

Lemma aside_dealings c s a : aside c -> p_dealings (after s c a) = p_dealings s.
Proof.
  intros Hc. destruct c; try done; simpl in *; try done;
    repeat match goal with
    | |- context [match ?r with Ok _ => _ | Err _ => _ end] => destruct r; simpl; try done
    | |- context [let (_, _) := ?p in _] => destruct p; simpl; try done
    | |- context [on_success ?r] => destruct r; simpl; try done
    | |- context [match ?p with PdeathsigKill => _ | NoNewPrivs => _ | CapbsetDrop _ => _ end] => destruct p; simpl; try done
    | |- context [decide ?P] => destruct (decide P); simpl; try done
    end.
Qed.

Lemma safe_aside {A} (m : sys A) s : only aside m ->
  safe' m (fun _ s' => p_dealings s' = p_dealings s) s.
Proof.
  intros Hm. eapply (safe_only _ aside (fun s' => p_dealings s' = p_dealings s)); [|done|done].
  intros c s' Hc Hs'. split; [by destruct c|]. intros a. by rewrite aside_dealings.
Qed.

(** The next step is aside: go on in any state with the same dealings. *)
Lemma safe_beside {A B} (m : sys A) (f : A -> sys B) Q s : only aside m ->
  (forall a s', p_dealings s' = p_dealings s -> safe' (f a) Q s') -> safe' (sbind m f) Q s.
Proof. intros Hm Hf. eapply safe_seq; [by apply safe_aside|]. exact Hf. Qed.

(** ** The calls of the parts *)

Lemma aside_cancelled n fifo : only aside (is_cancelled n fifo).
Proof.
  apply only_serr. induction n as [|n IH]; cbn [cancellation_eof]; only_calls.
Qed.

Lemma aside_stderr n stderr acc : only aside (drain_stderr n stderr acc).
Proof. revert acc. induction n as [|n IH]; intros acc; cbn [drain_stderr]; only_calls. Qed.

Lemma aside_handshake n fd : only aside (write_handshake_byte n fd).
Proof. induction n as [|n IH]; cbn [write_handshake_byte]; only_calls. Qed.

Lemma aside_poll fifo stderr events : only aside (poll_launcher fifo stderr events).
Proof. unfold poll_launcher. only_calls. Qed.

Lemma aside_report p fallback : only aside (read_sandbox_failure_report p fallback).
Proof. unfold read_sandbox_failure_report. only_calls. Qed.

(** ** Children *)

(** At most the launcher is not waited for, and nothing once it is reaped. *)
Definition minding (child : Z) (reaped : bool) (d : Dealings) : Prop :=
  Forall (fun c => c = child) (d_unreaped d) /\ (reaped = true -> d_unreaped d = []).

Lemma filter_all (child : Z) l : Forall (fun c => c = child) l -> List.filter (fun x => negb (x =? child)%Z) l = [].
Proof. induction 1 as [|c l -> _ IH]; simpl; [done|]. by rewrite Z.eqb_refl. Qed.

Lemma safe_kill_and_reap child reaped s : minding child reaped (p_dealings s) ->
  safe' (kill_and_reap child reaped) (fun r s' => d_unreaped (p_dealings s') = [] /\
    d_chunks (p_dealings s') = d_chunks (p_dealings s) /\ d_emitted (p_dealings s') = d_emitted (p_dealings s) /\
    d_status (p_dealings s') = d_status (p_dealings s)) s.
Proof.
  intros [Hall Hr]. unfold kill_and_reap. destruct reaped; [by split; [apply Hr|]|].
  split; [done|]. intros r. split; [simpl; by left|]. intros [status|e]; simpl; by rewrite filter_all.
Qed.

(** ** Events *)

(** What was handed to the caller is what the chunks read so far say. *)
Definition forwarded (decoder : bytes) (d : Dealings) : Prop := receive [] (d_chunks d) = Ok (d_emitted d, decoder).

Lemma receive_snoc d chunks c : receive d (chunks ++ [c]) =
  (let* (events, d') := receive d chunks in let* (more, last) := drain (push d' c) in Ok (events ++ more, last)).
Proof.
  revert d. induction chunks as [|x chunks IH]; intros d; cbn [receive app].
  - destruct (drain (push d c)) as [[more last]|]; [|done]. by rewrite app_nil_r.
  - destruct (drain (push d x)) as [[events d']|]; [|done]. rewrite IH.
    destruct (receive d' chunks) as [[events' d'']|]; [|done].
    destruct (drain (push d'' c)) as [[more last]|]; [|done]. by rewrite app_assoc.
Qed.

Definition same_children (d d' : Dealings) : Prop :=
  d_unreaped d' = d_unreaped d /\ d_killed d' = d_killed d /\ d_status d' = d_status d.

Lemma safe_emit_events n decoder s :
  safe' (emit_events n decoder) (fun r s' =>
    same_children (p_dealings s) (p_dealings s') /\ d_chunks (p_dealings s') = d_chunks (p_dealings s) /\
    match r with
    | Ok last => exists more, decode_events n decoder = Ok (more, last) /\
        d_emitted (p_dealings s') = d_emitted (p_dealings s) ++ more
    | Err _ => True
    end) s.
Proof.
  revert decoder s. induction n as [|n IH]; intros decoder s; cbn [emit_events decode_events].
  { split_and!; [done|done|]. exists []. by rewrite app_nil_r. }
  destruct (next_event decoder) as [[[event rest]|]|e].
  - split; [done|]. intros [[]|e]; [|done]. simpl. eapply safe_weaken; [apply IH|].
    intros r s' ((H1 & H2 & H3) & Hc & Hr). split_and!; [done..|]. destruct r as [last|]; [|done].
    destruct Hr as (more & -> & He). exists (event :: more). split; [done|]. rewrite He. simpl. by rewrite <- app_assoc.
  - split_and!; [done|done|]. exists []. by rewrite app_nil_r.
  - done.
Qed.

Lemma safe_drain_events n reader decoder s : forwarded decoder (p_dealings s) ->
  safe' (drain_sandbox_events n reader decoder) (fun r s' =>
    same_children (p_dealings s) (p_dealings s') /\
    match r with Ok (_, last) => forwarded last (p_dealings s') | Err _ => True end) s.
Proof.
  revert decoder s. induction n as [|n IH]; intros decoder s Hs; cbn [drain_sandbox_events]; [done|].
  split; [done|]. intros [[|x chunk]|e].
  - done.
  - cbn [sbind after]. eapply safe_seq; [apply safe_emit_events|]. intros [last|e] s1 (Hsame & Hc & Hr); [|done].
    destruct Hr as (more & Hd & He). eapply safe_weaken.
    + apply IH. unfold forwarded in *. rewrite Hc, He. simpl. rewrite receive_snoc, Hs.
      unfold drain. by rewrite Hd.
    + intros r s2 [(A1 & A2 & A3) Hr]. destruct Hsame as (B1 & B2 & B3). simpl in *.
      split; [|done]. split_and!; congruence.
  - cbn [sbind after]. destruct (would_block e); [done|]. destruct (interrupted e); [by apply IH|done].
Qed.

(** ** The launcher's life *)

(** At every end of a part that minds the launcher: whether it is reaped is
    known, and a status comes with all that it sent so far. *)
Definition ended (child : Z) (r : bool * result string (option (Z * bytes * bytes))) (s : Process) : Prop :=
  minding child r.1 (p_dealings s) /\
  match r.2 with
  | Ok (Some (status, _, decoder)) => d_status (p_dealings s) = Some status /\ forwarded decoder (p_dealings s)
  | _ => True
  end.

Lemma minding_same child reaped d d' : same_children d d' -> minding child reaped d -> minding child reaped d'.
Proof. intros (E & _) [H1 H2]. unfold minding. by rewrite E. Qed.

Lemma minding_none child reaped d : d_unreaped d = [] -> minding child reaped d.
Proof. intros E. unfold minding. by rewrite E. Qed.

Lemma safe_supervise n launcher fifo child stderr events errors decoder s :
  minding child false (p_dealings s) -> forwarded decoder (p_dealings s) ->
  safe' (supervise fuel n launcher fifo child stderr events errors decoder) (ended child) s.
Proof.
  revert errors decoder s. induction n as [|n IH]; intros errors decoder s Hm Hf; cbn [supervise]; [done|].
  apply safe_beside; [apply aside_stderr|]. intros [errors1 [[]|e]] s1 E1; [|by split; rewrite ?E1].
  eapply safe_seq; [apply safe_drain_events; rewrite E1; exact Hf|].
  rewrite E1. intros [[eof decoder1]|e] s2 [Hsame Hr]; (assert (minding child false (p_dealings s2)) as Hm2;
    [by eapply minding_same|]); [|by split].
  split; [done|]. intros [[status|]|e]; cbn [sbind after]; [|..].
  - destruct Hm2 as [Hall _]. split; [|done]. apply minding_none. by apply filter_all.
  - apply safe_beside; [apply aside_poll|]. intros [[]|e] s3 E3; [| |by split; rewrite ?E3].
    + eapply safe_seq; [apply safe_kill_and_reap; by rewrite E3|]. intros killed s4 (Hu & Hc & He & _).
      apply safe_beside; [apply aside_stderr|]. intros errors2 s5 E5.
      eapply safe_seq; [apply (safe_drain_events _ _ decoder1)|].
      * unfold forwarded. by rewrite E5, Hc, He, E3.
      * intros _ s6 [(E6 & _) _]. split; [|done]. apply minding_none. by rewrite E6, E5.
    + apply IH; by rewrite E3.
  - by split.
Qed.

(** A build counts as completed only with a launcher that succeeded and whose
    events all came. *)
Definition concluded (r : result string LauncherOutcome) (s : Process) : Prop :=
  match r with
  | Ok Completed => d_status (p_dealings s) = Some 0%Z /\ forwarded [] (p_dealings s)
  | _ => True
  end.

Lemma safe_conclude report stderr events status errors decoder s :
  d_status (p_dealings s) = Some status -> forwarded decoder (p_dealings s) ->
  safe' (conclude fuel report stderr events status errors decoder)
    (fun r s' => d_unreaped (p_dealings s') = d_unreaped (p_dealings s) /\ concluded r s') s.
Proof.
  intros Hs Hf. unfold conclude. apply safe_beside; [apply aside_stderr|]. intros read s1 E1.
  eapply safe_seq; [apply safe_drain_events; rewrite E1; exact Hf|].
  rewrite E1. intros [[eof decoder1]|e] s2 [(Hu & _ & Hst) Hr]; [|done].
  destruct eof; [|done]. unfold finish. case_bool_decide as Hd; [subst|done]. cbn [negb].
  destruct (status_success status) eqn:Hok.
  - split; [done|]. split; [|done]. rewrite Hst, Hs. unfold status_success in Hok. by apply Z.eqb_eq in Hok as ->.
  - apply safe_beside; [apply aside_report|]. intros message s3 E3. split; [by rewrite E3|done].
Qed.

(** With the launcher minded up to the end. *)
Definition minded (child : Z) (r : bool * result string LauncherOutcome) (s : Process) : Prop :=
  minding child r.1 (p_dealings s) /\ concluded r.2 s.

Lemma safe_terminate child stderr s : minding child false (p_dealings s) ->
  safe' (terminate_child child stderr) (fun _ s' => d_unreaped (p_dealings s') = []) s.
Proof.
  intros Hm. eapply safe_seq; [by apply safe_kill_and_reap|]. intros [reaped [[]|e]] s1 (Hu & _); [|done].
  by split.
Qed.

Lemma safe_attend launcher report fifo child stderr events wait s :
  minding child false (p_dealings s) -> forwarded [] (p_dealings s) ->
  safe' (attend fuel launcher report fifo child stderr events wait) (minded child) s.
Proof.
  intros Hm Hf. unfold attend. apply safe_beside; [apply aside_cancelled|].
  intros [[]|e] s1 E1; [| |by split; rewrite ?E1].
  { eapply safe_seq; [apply safe_terminate; by rewrite E1|]. intros t s2 Hu. by split; [apply minding_none|]. }
  apply safe_beside; [apply aside_handshake|]. intros [[]|error] s2 E2.
  - apply safe_beside; [done|]. intros [] s3 E3. apply safe_beside; [done|].
    intros [[]|e] s4 E4; [|by split; rewrite ?E4, ?E3, ?E2, ?E1].
    apply safe_beside; [done|]. intros [[]|e] s5 E5; [|by split; rewrite ?E5, ?E4, ?E3, ?E2, ?E1].
    rewrite <- E1, <- E2, <- E3, <- E4, <- E5 in Hm, Hf.
    eapply safe_seq; [by apply safe_supervise|].
    intros [reaped [[[[status errors] decoder]|]|e]] s6 [Hm6 Hr]; [|by split|by split].
    destruct Hr as [Hst Hf6]. eapply safe_seq; [by apply safe_conclude|]. intros r s7 [Hu Hc].
    split; [|done]. unfold minding in *. by rewrite Hu.
  - apply safe_beside; [apply aside_cancelled|]. intros [cancelled|e] s3 E3; [|by split; rewrite ?E3, ?E2, ?E1].
    eapply safe_seq; [apply safe_terminate; by rewrite E3, E2, E1|]. intros t s4 Hu.
    split; [by apply minding_none|]. by destruct cancelled.
Qed.

Lemma safe_with_child child body s : safe' body (minded child) s ->
  safe' (with_child child body) (fun r s' => d_unreaped (p_dealings s') = [] /\ concluded r s') s.
Proof.
  intros Hb. eapply safe_seq; [exact Hb|]. intros [reaped r] s1 [Hm Hc].
  eapply safe_seq; [by apply safe_kill_and_reap|]. intros killed s2 (Hu & Hch & He & Hst). split; [done|].
  unfold concluded, forwarded in *. destruct r as [[]|e]; [|done..]. by rewrite Hch, He, Hst.
Qed.

(** The new process of [Command::spawn] never returns; the old one has the child. *)
Lemma safe_spawn_launcher {F} (g : SysError -> F) command pre_exec s : only aside pre_exec -> d_unreaped (p_dealings s) = [] ->
  safe' (serr g (command_spawn command pre_exec)) (fun r s' =>
    d_chunks (p_dealings s') = d_chunks (p_dealings s) /\ d_emitted (p_dealings s') = d_emitted (p_dealings s) /\
    match r with Ok child => minding child false (p_dealings s') | Err _ => d_unreaped (p_dealings s') = [] end) s.
Proof.
  intros Hp Hu. unfold serr, command_spawn. split; [done|]. intros [[|child]|e]; cbn [sbind].
  - apply safe_bind, safe_beside; [destruct (cmd_cwd command); only_calls; exact Hp|].
    intros [[]|e] s1 E1; [|by split]. split; [done|]. intros e. by split.
  - split; [done|]. intros [[]|e]; simpl.
    + split_and!; [done|done|]. split; [|done]. simpl. rewrite Hu. by constructor.
    + split_and!; [done|done|]. by rewrite Z.eqb_refl, Hu.
  - done.
Qed.

(** A step aside that may fail. *)
Lemma safe_beside_try {E A B} (m : sys (result E A)) (f : A -> sys (result E B)) (Q : result E B -> Process -> Prop) s :
  only aside m -> (forall e s', p_dealings s' = p_dealings s -> Q (Err e) s') ->
  (forall a s', p_dealings s' = p_dealings s -> safe' (f a) Q s') -> safe' (stry m f) Q s.
Proof. intros Hm He Hf. apply safe_beside; [done|]. by intros [a|e]; [apply Hf|apply He]. Qed.

Lemma aside_pre_exec wait event parent : only aside (launcher_pre_exec wait event parent).
Proof.
  unfold launcher_pre_exec, duplicate_launcher_fd, clear_cloexec, set_parent_death_signal. only_calls.
Qed.

Lemma safe_run_launcher launcher config report fifo s :
  d_unreaped (p_dealings s) = [] -> d_chunks (p_dealings s) = [] -> d_emitted (p_dealings s) = [] ->
  safe' (run_sandbox_launcher fuel launcher config report fifo)
    (fun r s' => d_unreaped (p_dealings s') = [] /\ concluded r s') s.
Proof.
  intros Hu Hc He. unfold run_sandbox_launcher.
  apply safe_beside_try; [apply aside_cancelled|split; [congruence|done]|]. intros [] s1 E1; [split; [congruence|done]|].
  apply safe_beside_try; [by apply only_serr|split; [congruence|done]|]. intros wait s2 E2.
  apply safe_beside_try; [by apply only_serr|split; [congruence|done]|]. intros event s3 E3.
  apply safe_beside_try; [by apply only_serr|split; [congruence|done]|]. intros inherited s4 E4.
  apply safe_beside_try; [by apply only_serr|split; [congruence|done]|]. intros inherited' s5 E5.
  apply safe_beside; [done|]. intros parent s6 E6.
  apply safe_beside_try; [by apply only_serr|split; [congruence|done]|]. intros stderr s7 E7.
  rewrite <- E1, <- E2, <- E3, <- E4, <- E5, <- E6, <- E7 in Hu, Hc, He.
  eapply safe_seq; [apply safe_spawn_launcher; [apply aside_pre_exec|done]|].
  intros [child|e] s8 (Hc8 & He8 & Hm8); [|by split].
  do 3 (apply safe_beside; [done|]; intros [] ? ?Ec).
  apply safe_beside; [done|]; intros [] s9 E9. replace (p_dealings s8) with (p_dealings s9) in * by congruence.
  apply safe_with_child, safe_attend; [done|]. unfold forwarded. by rewrite Hc8, He8, Hc, He.
Qed.

(** C10. The host and its launcher.  Whatever the kernel, the launcher and the
    caller answer: the host waits for a launcher (which blocks) only after it has
    killed it; when [run_sandbox_launcher] returns, by whatever way, no launcher
    is left that was not waited for; and it answers [Completed] only if the
    launcher ended by itself with status zero, and the events handed to the caller
    are exactly those that the bytes of the event pipe encode, with nothing left
    over. *)
Theorem launcher_reaped_and_forwarded launcher config report fifo s :
  d_unreaped (p_dealings s) = [] -> d_chunks (p_dealings s) = [] -> d_emitted (p_dealings s) = [] ->
  let m := run_sandbox_launcher fuel launcher config report fifo in
  (forall calls, runs m s calls -> Forall (fun e => host_ok e.1 e.2) calls) /\
  (forall r s', returns m s r s' ->
    d_unreaped (p_dealings s') = [] /\
    (r = Ok Completed -> d_status (p_dealings s') = Some 0%Z /\
       receive [] (d_chunks (p_dealings s')) = Ok (d_emitted (p_dealings s'), []))).
Proof.
  intros Hu Hc He m. assert (safe' m (fun r s' => d_unreaped (p_dealings s') = [] /\ concluded r s') s) as Hsafe.
  { by apply safe_run_launcher. }
  split; [intros calls; by eapply safe_runs|]. intros r s' Hr.
  destruct (safe_returns _ _ _ _ _ _ Hsafe Hr) as [H1 H2]. split; [done|]. by intros ->.
Qed.
End HostFacts.
