(* ===== verification/SandboxToy.v ===== *)
(** * Runs of the sandbox

    [SandboxExamples]: a small configuration, a kernel that answers every call with
    success, and the runs of the launcher and of the runner on them.
    [ConfigExamples]: a build, from its recipe to its command.  [HostExamples]: a run
    of the host, with a launcher that sends two events in two chunks and ends with
    status zero.  [LayerExamples]: the captured layer of a build that installs a
    program, touches a directory and uses [/tmp]. *)

From S2P Require Import Prelude Errors Posix Json SandboxProtocol SandboxKernel SandboxEvents SandboxRunner SandboxLauncher SandboxIsolation SandboxReport.
From S2P Require Import SandboxLayer SandboxAdditive SandboxConfig SandboxConfigFacts SandboxHost SandboxHostFacts.

Module SandboxExamples.

(** ** JSON for a few values *)

Definition step_a : RunnerStepConfig :=
  mkRunnerStepConfig (lit "a") BuildUser (lit "/") [lit "/bin/make"; lit "all"] {[ lit "PATH" := lit "/bin" ]}
    18 (lit "/o") (lit "/e") (lit "/l/o") (lit "/l/e").
Definition runner_config : RunnerConfig := mkRunnerConfig 7 [lit "/b"] [step_a] (lit "/f").

Definition config : SandboxLauncherConfig :=
  mkSandboxLauncherConfig 7 (lit "/r")
    [mkSandboxLauncherMount Bind (Some (lit "/s")) (lit "/in") true [];
     mkSandboxLauncherMount Tmpfs None (lit "/tmp") false [lit "nosuid"; lit "size=1m"]]
    (lit "/c") (lit "/f") None.

Definition the_events : list SandboxEvent :=
  [StepStarted 0 1 (lit "a") BuildUser; StepFinished 0 1 (lit "a") BuildUser 0 (lit "/l/o") (lit "/l/e")].

#[export] Instance SandboxEvent_eq_dec : EqDecision SandboxEvent.
Proof. solve_decision. Defined.

#[export] Instance toy_events : EventJson := {|
  event_to_vec e :=
    match the_events with
    | [a; b] => if decide (e = a) then Ok [0]%Z else if decide (e = b) then Ok [1]%Z else Err "unknown"
    | _ => Err "unknown"
    end;
  event_from_slice b := ok_or (match b with [n] => the_events !! Z.to_nat n | _ => None end) "unknown";
|}.

#[export] Instance toy_events_law : EventJsonLaw.
Proof.
  intros e b. cbn. repeat case_decide; intros [= <-]; subst; (split; [|done]); repeat constructor; unfold is_u8; lia.
Qed.

#[export] Instance toy_runner : RunnerJson := {|
  runner_config_from_slice b := if bytes_eqb b [1]%Z then Ok runner_config else Err "unknown";
  report_to_bytes _ := Ok [2]%Z;
|}.
#[export] Instance toy_launcher : LauncherJson :=
  fun b => if bytes_eqb b [0]%Z then Ok config else Err "unknown".

(** ** A kernel that succeeds *)

Definition no_child : SysError := mkSysError ECHILD "No child processes (os error 10)".

(** [files] are the contents of files; [side] is what [fork] answers; [execve] is left to
    fail, since nothing answers one that succeeds; nothing answers an exit. *)
Definition friendly (files : list (bytes * bytes)) (side : ForkSide) (c : Call) : option (Answer c) :=
  match c with
  | CReadFile p => Some (ok_or (assoc p files) (other "No such file or directory (os error 2)"))
  | CCreateFile _ | CDup _ | CSocket | COpenDir _ _ => Some (Ok 20%Z)
  | CIsDir _ _ => Some (Ok true)
  | CRead _ | CWriteOnce _ _ => Some (Ok 1%Z)
  | CGetFd _ | CGetIfFlags _ _ => Some (Ok 0%Z)
  | CWrite _ _ => Some (Ok tt)
  | CFork => Some (Ok side)
  | CWaitPid _ => Some (Ok (WExited 0))
  | CWaitAny => Some (Err no_child)
  | CWaitChild _ => Some (Ok 0%Z)
  | CReadDir _ => Some []
  | COpenFifo _ | CDupFrom _ _ => Some (Ok 20%Z)
  | CFstat _ => Some (Ok (mkFileStatus true 0 384))
  | CGeteuid => Some 0%Z
  | CGetpid | CGetppid => Some 40%Z
  | CPipe => Some (Ok (20, 21)%Z)
  | CReadSome _ | CReadErrors _ => Some (Ok [])
  | CReadToEnd _ => Some (Ok [])
  | CTryWait _ => Some (Ok (Some 0%Z))
  | CPoll _ _ _ => Some (Ok 0%Z)
  | CEmit _ => Some (Ok tt)
  | CNow => Some 5%Z
  | CClose _ | CKillAll _ | CUmask _ | CEprintln _ => Some tt
  | CExecve _ => Some (other "Exec format error (os error 8)")
  | CExit _ => None
  | CCreateDirAll _ | CSetFd _ _ | CUnshare _ | CSetIfFlags _ _ _ | CSetHostname _ | CMount _ | CPrctl _
  | CCapset _ | CChroot _ | CChdir _ | CReadExecStatus _ | CDup2 _ _ | CSetNonblocking _ | CKill _
  | CSetgroups | CSetgid _ | CSetuid _
  | CFchownat _ _ _ _ => Some (Ok tt)
  end.

(** The run under such a kernel: the calls made, and the result if it returns. *)
Fixpoint calls_of {A : Type} (files : list (bytes * bytes)) (side : ForkSide) (m : sys A) (s : Process) : list (Process * Call) :=
  match m with
  | SCall c k =>
      match friendly files side c with Some a => (s, c) :: calls_of files side (k a) (after s c a) | None => [] end
  | _ => []
  end.
Fixpoint play {A : Type} (files : list (bytes * bytes)) (side : ForkSide) (m : sys A) (s : Process) : option (A * Process) :=
  match m with
  | SRet a => Some (a, s)
  | SCall c k => match friendly files side c with Some a => play files side (k a) (after s c a) | None => None end
  | SSpin => None
  end.

Lemma play_returns {A} files side (m : sys A) s a s' : play files side m s = Some (a, s') -> returns m s a s'.
Proof.
  revert s. induction m as [x|c k IH|]; intros s; simpl.
  - intros [= -> ->]. constructor.
  - destruct (friendly files side c) as [r|]; [|done]. intros Hp. econstructor. by apply IH.
  - done.
Qed.

Lemma calls_of_runs {A} files side (m : sys A) s : runs m s (calls_of files side m s).
Proof.
  revert s. induction m as [x|c k IH|]; intros s; simpl; [constructor| |constructor].
  destruct (friendly files side c); [econstructor; apply IH|constructor].
Qed.

(** ** The launcher in the sandbox *)

Definition the_files : list (bytes * bytes) := [(lit "/cfg", [0]%Z); (lit "/c", [1]%Z)].

Definition launched : list (Process * Call) :=
  calls_of the_files InChild (launch 3 3 4 (lit "/cfg")) (started_proc {[ 3%Z; 4%Z; 7%Z ]}).

(** The command that is executed, and the state of the process that executes it. *)
Definition executed (l : list (Process * Call)) : option (Process * Command) :=
  match List.find (fun e => match e.2 with CExecve _ => true | _ => false end) l with
  | Some (s, CExecve command) => Some (s, command)
  | _ => None
  end.

Lemma executed_in l s command : executed l = Some (s, command) -> (s, CExecve command) ∈ l.
Proof.
  unfold executed. destruct (List.find _ l) as [[s' []]|] eqn:E; try discriminate. intros [= -> ->].
  apply List.find_some in E as [E _]. by apply list_elem_of_In.
Qed.

Definition witness_proc : Process := default (started_proc ∅) (fst <$> executed launched).
Definition witness_command : Command := default (mkCommand [] [] None None None None) (snd <$> executed launched).

Lemma executed_launched : executed launched = Some (witness_proc, witness_command).
Proof. vm_compute. reflexivity. Qed.

(** A launcher with a bind and a tmpfs reaches the command of its step, isolated. *)
Lemma steps_isolated_witness :
  cmd_program witness_command = lit "/bin/make" /\ p_uid witness_proc = 1%Z /\ p_inherited witness_proc = {[ 7%Z ]} /\
  map mc_target (p_mounts witness_proc) = [lit "/r/in"; lit "/r/in"; lit "/r/tmp"] /\
  exists config step, sandboxed 3 4 (lit "/cfg") {[ 3%Z; 4%Z; 7%Z ]} config witness_proc /\
    configured_step config witness_proc step /\ runs_step witness_proc witness_command step.
Proof.
  split; [vm_compute; reflexivity|]. split; [vm_compute; reflexivity|]. split; [vm_compute; reflexivity|].
  split; [vm_compute; reflexivity|].
  exact (steps_isolated 3 3 4 (lit "/cfg") {[ 3%Z; 4%Z; 7%Z ]} launched witness_proc (CExecve witness_command)
           (calls_of_runs _ _ _ _) (executed_in _ _ _ executed_launched)).
Defined.

(** ** The runner *)

Definition runner : SandboxRunner :=
  mkSandboxRunner [lit "/b"]
    [mkSandboxRunnerStep (lit "a") BuildUser (lit "/") [lit "/bin/make"] ∅ 18 (lit "/l/o") (lit "/l/e") 10 11] 12 (Some 4)%Z.

Definition ended : Z * Process := default (9%Z, started_proc ∅) (play [] (InParent 50) (runner_exec 3 runner) (started_proc ∅)).

(** A step succeeds: the host decodes both events from two chunks of one and nine bytes. *)
Lemma runner_tells_truth_witness :
  ended.1 = 0%Z /\ written 4 ended.2 = [0; 0; 0; 1; 0; 0; 0; 0; 1; 1]%Z /\
  exists h events r, report_outcome runner h events r /\ 0%Z = (if is_ok r then 0 else 1)%Z /\
    (exists k rest, receive [] [[0]; [0; 0; 1; 0; 0; 0; 0; 1; 1]]%Z = Ok (take k events, rest)) /\
    (intact 4 ended.2 -> Forall has_frame events -> receive [] [[0]; [0; 0; 1; 0; 0; 0; 0; 1; 1]]%Z = Ok (events, [])).
Proof.
  split; [vm_compute; reflexivity|]. split; [vm_compute; reflexivity|].
  destruct (returns_answers (runner_exec 3 runner) (started_proc ∅) 0%Z ended.2) as (h & Hh & Hp).
  { apply (play_returns [] (InParent 50)). vm_compute. reflexivity. }
  exists h. rewrite <- Hp.
  refine (runner_tells_truth 3 4 runner (started_proc ∅) h 0 [[0]; [0; 0; 1; 0; 0; 0; 0; 1; 1]]%Z Hh _ _ _ _ _).
  - reflexivity.
  - discriminate.
  - reflexivity.
  - constructor.
  - rewrite Hp. vm_compute. reflexivity.
Defined.

(** The account of a step whose command a signal killed. *)
Example killed_step_told : told_status 137 = (None, Some 9%Z) /\ told_status 512 = (Some 2%Z, None).
Proof. split; reflexivity. Qed.

(** Three chunks of the two frames, the last one cut. *)
Lemma event_stream_round_trip_witness :
  exists k rest, receive [] [[0; 0]; [0; 1; 0; 0]; [0; 0; 1]]%Z = Ok (take k the_events, rest) /\
    concat [[0; 0]; [0; 1; 0; 0]; [0; 0; 1]]%Z = concat (take k [[0; 0; 0; 1; 0]; [0; 0; 0; 1; 1]]%Z) ++ rest /\
    (rest = [] \/ exists f, [[0; 0; 0; 1; 0]; [0; 0; 0; 1; 1]]%Z !! k = Some f /\ proper_prefix rest f) /\
    (is_ok (finish rest) = true <-> rest = []) /\
    ((length (concat [[0; 0; 0; 1; 0]; [0; 0; 0; 1; 1]]%Z) <= 9)%nat -> take k the_events = the_events /\ rest = []).
Proof.
  apply (event_stream_round_trip the_events [[0; 0; 0; 1; 0]; [0; 0; 0; 1; 1]]%Z).
  - repeat constructor; vm_compute; reflexivity.
  - reflexivity.
Defined.
End SandboxExamples.

Module ConfigExamples.

(** A recipe with one step that compiles an input, and what the host makes of it. *)
Definition recipe : list (BuildStep Z) :=
  [mkBuildStep (lit "compile") UserBuild (lit "@{build}") [lit "/bin/cc"; lit "@{src}"] [(lit "TZ", JString (lit "CET"))]].
Definition the_step : SandboxRuntimeStep :=
  mkSandboxRuntimeStep (lit "compile") UserBuild (lit "/__bobr/build") [lit "/bin/cc"; lit "/__bobr/inputs/src"]
    {[ lit "TZ" := lit "CET" ]} 18 (lit "/l/o") (lit "/l/e").
Definition extras : list (bytes * bytes) := [(lit "src", lit "/store/x")].
Definition input : SandboxInput :=
  mkSandboxInput (lit "/root") (lit "/cfgdir") (lit "/bin/launcher")
    [mkSandboxRuntimeInput (lit "src") (lit "/store/x")] [the_step] (lit "00") false.
Definition dirs : SandboxDirs := sandbox_dirs (lit "/w").

#[local] Instance toy_events : EventJson :=
  {| event_to_vec _ := Ok [0]%Z; event_from_slice _ := Err "unknown" |}.
#[local] Instance toy_runner : RunnerJson := {|
  runner_config_from_slice b := if bytes_eqb b [1]%Z then Ok (runner_config_of input) else Err "unknown";
  report_to_bytes _ := Ok [2]%Z;
|}.
#[local] Instance toy_launcher : LauncherJson :=
  fun b => if bytes_eqb b [0]%Z then Ok (launcher_config_of input dirs None) else Err "unknown".

Definition files : list (bytes * bytes) := [(lit "/cfg", [0]%Z); (CONTAINER_RUNNER_CONFIG, [1]%Z)].
Definition launched : list (Process * Call) :=
  SandboxExamples.calls_of files InChild (launch 3 3 4 (lit "/cfg")) (started_proc {[ 3%Z; 4%Z ]}).
Definition witness_proc : Process := default (started_proc ∅) (fst <$> SandboxExamples.executed launched).
Definition witness_command : Command := default (mkCommand [] [] None None None None) (snd <$> SandboxExamples.executed launched).

Lemma executed_here : SandboxExamples.executed launched = Some (witness_proc, witness_command).
Proof. vm_compute. reflexivity. Qed.

Lemma files_read : p_files witness_proc = [(CONTAINER_RUNNER_CONFIG, [1]%Z); (lit "/cfg", [0]%Z)].
Proof. vm_compute. reflexivity. Qed.

(** The step runs, with the recipe's override in its environment. *)
Lemma build_runs_as_configured_witness :
  (env ← cmd_env witness_command; env !! lit "TZ") = Some (lit "CET") /\
  cmd_args witness_command = [lit "/__bobr/inputs/src"] /\
  build_launcher_config input dirs None = Ok (launcher_config_of input dirs None) /\
  (exists step, step ∈ recipe /\ asked_for [lit "src"] false (lit "00") step witness_proc witness_command) /\
  Forall (input_readonly dirs witness_proc) (in_extra_inputs input).
Proof.
  split; [vm_compute; reflexivity|]. split; [vm_compute; reflexivity|].
  apply (build_runs_as_configured 3 3 4 (lit "/cfg") {[ 3%Z; 4%Z ]} "SandboxInstall" extras input dirs None
           recipe (fun _ => (lit "/l/o", lit "/l/e")) extras launched).
  - vm_compute. reflexivity.
  - repeat constructor; set_solver.
  - reflexivity.
  - vm_compute. reflexivity.
  - reflexivity.
  - apply SandboxExamples.calls_of_runs.
  - exact (SandboxExamples.executed_in _ _ _ executed_here).
  - unfold files_as_written. rewrite files_read. split; intros b Hb.
    + apply elem_of_cons in Hb as [E|Hb]; [vm_compute in E; discriminate E|].
      apply list_elem_of_singleton in Hb. injection Hb as ->. reflexivity.
    + apply elem_of_cons in Hb as [E|Hb]; [injection E as ->; reflexivity|].
      apply list_elem_of_singleton in Hb. vm_compute in Hb. discriminate Hb.
Defined.

(** Text, an escape and a variable. *)
Example interpolated :
  interpolate_step_string extras false (lit "-I@{src}/@@{x}") = Ok (lit "-I/__bobr/inputs/src/@{x}").
Proof. vm_compute. reflexivity. Qed.
End ConfigExamples.

Module HostExamples.
Import SandboxExamples.

#[export] Instance toy_report : ReportJson := fun _ => Err "unknown".

Definition try_again : SysError := mkSysError EAGAIN "Resource temporarily unavailable (os error 11)".

(** The pipe of events has two chunks and ends with the launcher; nothing else has
    anything to read; the rest is as in the friendly kernel. *)
Definition answers (s : Process) (c : Call) : option (Answer c) :=
  match c with
  | CRead _ => Some (Err try_again)
  | CReadErrors _ => Some (Err try_again)
  | CReadSome _ =>
      Some (match d_chunks (p_dealings s), d_status (p_dealings s) with
            | [], _ => Ok [0; 0; 0; 1; 0; 0]%Z
            | [_], _ => Ok [0; 0; 1; 1]%Z
            | _, None => Err try_again
            | _, Some _ => Ok []
            end)
  | c => friendly [] (InParent 50) c
  end.

Fixpoint perform {A : Type} (m : sys A) (s : Process) : option (A * Process) :=
  match m with
  | SRet a => Some (a, s)
  | SCall c k => match answers s c with Some a => perform (k a) (after s c a) | None => None end
  | SSpin => None
  end.

Lemma perform_returns {A} (m : sys A) s a s' : perform m s = Some (a, s') -> returns m s a s'.
Proof.
  revert s. induction m as [x|c k IH|]; intros s; simpl.
  - intros [= -> ->]. constructor.
  - destruct (answers s c) as [r|]; [|done]. intros Hp. econstructor. by apply IH.
  - done.
Qed.

Definition run := run_sandbox_launcher 9 (lit "/launcher") (lit "/cfg") (lit "/f") 19.
Definition last : result string LauncherOutcome * Process := default (Err EmptyString, started_proc ∅) (perform run (started_proc ∅)).

(** The launcher completes, is waited for, and both events have been handed on. *)
Lemma launcher_reaped_and_forwarded_witness :
  last.1 = Ok Completed /\ d_emitted (p_dealings last.2) = the_events /\
  d_unreaped (p_dealings last.2) = [] /\
  (last.1 = Ok Completed -> d_status (p_dealings last.2) = Some 0%Z /\
     receive [] (d_chunks (p_dealings last.2)) = Ok (d_emitted (p_dealings last.2), [])).
Proof.
  split; [vm_compute; reflexivity|]. split; [vm_compute; reflexivity|].
  apply (launcher_reaped_and_forwarded 9 (lit "/launcher") (lit "/cfg") (lit "/f") 19 (started_proc ∅)).
  - reflexivity.
  - reflexivity.
  - reflexivity.
  - apply perform_returns. vm_compute. reflexivity.
Defined.
End HostExamples.

Module LayerExamples.

Definition root_meta : OMeta := mkOMeta 0 0 0x1ed.
Definition dir_of (cs : list (bytes * onode)) : onode := ODir root_meta [] cs.

(** A root with [/bin/sh] and an empty [/var/tmp]. *)
Definition lower : onode :=
  dir_of [(lit "bin", dir_of [(lit "sh", OFile root_meta [1]%Z)]); (lit "var", dir_of [(lit "tmp", dir_of [])])].

(** The build installs [/bin/cc] and a new [/opt], which arrived by a rename and
    is opaque; [/var/tmp] was only copied up. *)
Definition upper : onode :=
  dir_of [(lit "tmp", dir_of [(lit "x", OFile root_meta [9]%Z)]);
          (lit "var", dir_of [(lit "tmp", dir_of [])]);
          (lit "opt", ODir root_meta [(lit "user.overlay.opaque", lit "y")] []);
          (lit "bin", dir_of [(lit "cc", OFile root_meta [2]%Z)])].

Definition layer : onode :=
  dir_of [(lit "opt", ODir root_meta [(lit "user.overlay.opaque", lit "y")] []);
          (lit "bin", dir_of [(lit "cc", OFile root_meta [2]%Z)])].

Definition calm_io : Io := mkIo (fun _ => None) (fun _ => None) (fun _ _ => None) (fun _ => None) (oget lower).

(** No directory carries a note. *)
Fixpoint noteless (n : onode) : bool :=
  match n with
  | ODir _ xattrs cs =>
      forallb (fun name => bool_decide (assoc name xattrs = None)) REDIRECT_XATTRS
      && (fix all (l : list (bytes * onode)) : bool :=
            match l with [] => true | (_, m) :: l' => noteless m && all l' end) cs
  | _ => true
  end.

Lemma noteless_child n c m : noteless n = true -> child n c = Some m -> noteless m = true.
Proof.
  destruct n as [| | | |mm xattrs cs]; try done. cbn [noteless]. intros H Hc. bools.
  apply child_in in Hc. cbn [children_of] in Hc. clear H. induction cs as [|[d x] cs IH];
    [by apply not_elem_of_nil in Hc|]. bools. apply elem_of_cons in Hc as [[= -> ->]|Hc]; [done|by apply IH].
Qed.

Lemma noteless_honest io n : noteless n = true -> honest io n.
Proof.
  intros Hn p m xattrs cs name v Hg Hin Ha _. exfalso.
  assert (noteless (ODir m xattrs cs) = true) as H.
  { revert n Hn Hg. induction p as [|c p IH]; intros n Hn Hg; simpl in Hg; [by simplify_eq|].
    destruct (child n c) as [x|] eqn:Ec; [|done]. eapply IH; [|done]. by eapply noteless_child. }
  cbn [noteless] in H. apply andb_prop in H as [H _]. rewrite forallb_forall in H.
  apply list_elem_of_In, H in Hin. bools. congruence.
Qed.

(** The captured layer holds the program and the new directory. *)
Lemma captured_layer_exact_witness :
  capture_layer calm_io upper = Ok layer /\
  (forall c p, c ∉ OVERLAY_SCAFFOLDING_TOP_LEVEL ->
     view lower false upper (c :: p) = laid_over lower layer (c :: p)) /\
  (forall p l, p <> [] -> oget lower p = Some l -> laid_over lower layer p = Some (seen l)) /\
  (forall c p, c ∈ OVERLAY_SCAFFOLDING_TOP_LEVEL -> oget layer (c :: p) = None) /\
  (forall p d l, p <> [] -> oget layer p = Some d -> is_odir d = true -> children_of d = [] ->
     oget lower p = Some l -> is_odir l = false).
Proof.
  split; [vm_compute; reflexivity|].
  apply (captured_layer_exact calm_io lower false (fun p c _ => eq_refl) upper layer).
  - cbn. repeat split; repeat constructor; vm_compute; set_solver.
  - reflexivity.
  - apply noteless_honest. vm_compute. reflexivity.
  - vm_compute. reflexivity.
Defined.
End LayerExamples.
