(* ===== verification/Publisher.v ===== *)
(** * Publication of a repository

    [bobr-repo/src/publisher.rs]: the state from which a repository writer makes
    the next master.  A slot holds mappings from keys to candidate objects, best
    first, and the sets of objects and files it advertises; a publication adds a
    slot and retires at most one.  A [BTreeMap] is a [gmap] whose entries are
    taken in the order of their keys, a [BTreeSet] a [gset]. *)

From S2P Require Import Prelude Errors Hash Master Index Store.

(** ** Maps of candidates *)

(** Entries and elements in order. *)
Definition btree_list (m : gmap bytes (list bytes)) : list (bytes * list bytes) := sort_by fst (map_to_list m).
Definition btree_elements (s : gset bytes) : list bytes := sort_by id (elements s).

(** One record of [collect_candidates]. *)
Definition collect_one (m : gmap bytes (list bytes)) (r : bytes * bytes) : gmap bytes (list bytes) :=
  let candidates := default [] (m !! r.1) in
  <[r.1 := if bool_decide (r.2 ∈ candidates) then candidates else candidates ++ [r.2]]> m.
Definition collect_candidates (records : list (bytes * bytes)) : gmap bytes (list bytes) :=
  fold_left collect_one records ∅.

Definition flatten_candidates (m : gmap bytes (list bytes)) : list (bytes * bytes) :=
  flat_map (fun e => map (pair e.1) e.2) (btree_list m).

(** One key of [merge_candidates]; the filter over [seen] is [distinct_keys]. *)
Definition merge_one (existing : gmap bytes (list bytes)) (e : bytes * list bytes) : gmap bytes (list bytes) :=
  <[e.1 := distinct_keys [] (e.2 ++ default [] (existing !! e.1))]> existing.
Definition merge_candidates (existing newer : gmap bytes (list bytes)) : gmap bytes (list bytes) :=
  fold_left merge_one (btree_list newer) existing.

(** ** Slots *)

Record SlotContents := mkSlotContents {
  sc_builds : gmap bytes (list bytes);
  sc_reuses : gmap bytes (list bytes);
  sc_objects : gset bytes;
  sc_files : gset bytes;
}.

Record PublicationSlot := mkPublicationSlot {
  ps_serial : u64;
  ps_retain_until : option u64;
  ps_contents : SlotContents;
}.

Inductive PublicationMode :=
| AppendToActive (retain_until : u64)
| AddSlot
| Rotate (retain_until : u64).

Definition closure_error (object : bytes) : RepositoryError :=
  repo_error ("slot mapping references object '" +:+ show (to_hex object) +:+ "' absent from its object list").

Definition validate_closure (c : SlotContents) : result RepositoryError unit :=
  try_fold (fun _ object => guard (bool_decide (object ∈ sc_objects c)) (closure_error object)) tt
    (concat (map snd (btree_list (sc_builds c))) ++ concat (map snd (btree_list (sc_reuses c)))).

(** [SlotContents::new]. *)
Definition contents_new (builds reuses : list (bytes * bytes)) (objects files : list bytes)
  : result RepositoryError SlotContents :=
  let contents := mkSlotContents (collect_candidates builds) (collect_candidates reuses)
                    (list_to_set objects) (list_to_set files) in
  validate_closure contents ;;; Ok contents.

Definition build_records (c : SlotContents) : list (bytes * bytes) := flatten_candidates (sc_builds c).
Definition reuse_records (c : SlotContents) : list (bytes * bytes) := flatten_candidates (sc_reuses c).

(** [merge_newer]: what the receiver becomes; it may be left merged on an error. *)
Definition merged (c newer : SlotContents) : SlotContents :=
  mkSlotContents (merge_candidates (sc_builds c) (sc_builds newer)) (merge_candidates (sc_reuses c) (sc_reuses newer))
    (sc_objects c ∪ sc_objects newer) (sc_files c ∪ sc_files newer).
Definition merge_newer (c newer : SlotContents) : result RepositoryError SlotContents :=
  validate_closure (merged c newer) ;;; Ok (merged c newer).

Section Publisher.
Context `{UrlApi} `{Sha256Api}.

(** ** States *)

Record PublicationState := mkPublicationState {
  st_previous : option bytes;
  st_url : Url;
  st_slots : list PublicationSlot;
}.

Record PublicationMetadata := mkPublicationMetadata {
  md_master : Master;
  md_builds : gmap bytes bytes;
  md_reuses : gmap bytes bytes;
  md_object_lists : gmap bytes bytes;
  md_file_lists : gmap bytes bytes;
}.

(** [entry(hash).or_insert(table)]. *)
Definition or_insert (m : gmap bytes bytes) (table : bytes) : gmap bytes bytes :=
  match m !! sha256 table with Some _ => m | None => <[sha256 table := table]> m end.

(** The four tables of a slot, and one slot of the loop of [metadata]. *)
Definition slot_tables (c : SlotContents) : result RepositoryError (bytes * bytes * bytes * bytes) :=
  build <- MappingIndex.encode (build_records c) ;;
  reuse <- MappingIndex.encode (reuse_records c) ;;
  Ok (build, reuse, ContentList.encode (btree_elements (sc_objects c)), ContentList.encode (btree_elements (sc_files c))).

Definition Tables := (list Slot * gmap bytes bytes * gmap bytes bytes * gmap bytes bytes * gmap bytes bytes)%type.
Definition add_tables (acc : Tables) (slot : PublicationSlot) : result RepositoryError Tables :=
  let '(descriptors, builds, reuses, object_lists, file_lists) := acc in
  let* (tables, file_list) := slot_tables (ps_contents slot) in
  let '(build, reuse, object_list) := tables in
  Ok (descriptors ++ [mkSlot (ps_serial slot) (sha256 build) (sha256 reuse) (sha256 object_list) (sha256 file_list)
                        (ps_retain_until slot)],
      or_insert builds build, or_insert reuses reuse, or_insert object_lists object_list, or_insert file_lists file_list).

Definition metadata (st : PublicationState) : result RepositoryError PublicationMetadata :=
  let* (tables, file_lists) := try_fold add_tables ([], ∅, ∅, ∅, ∅) (st_slots st) in
  let '(descriptors, builds, reuses, object_lists) := tables in
  master <- Master.new (st_previous st) (st_url st) descriptors ;;
  Ok (mkPublicationMetadata master builds reuses object_lists file_lists).

Definition initialize (url : Url) (initial : SlotContents) : result RepositoryError PublicationState :=
  validate_closure initial ;;;
  let state := mkPublicationState None url [mkPublicationSlot 1 None initial] in
  metadata state ;;; Ok state.

Definition from_slots (current : bytes) (url : Url) (slots : list PublicationSlot)
  : result RepositoryError PublicationState :=
  try_fold (fun _ slot => validate_closure (ps_contents slot)) tt slots ;;;
  let state := mkPublicationState (Some current) url slots in
  metadata state ;;; Ok state.

(** One descriptor of the loop of [from_metadata]. *)
Definition lacks (what : string) (hash : bytes) : RepositoryError :=
  repo_error ("publication metadata lacks " +:+ what +:+ " '" +:+ show (to_hex hash) +:+ "'").
Definition restore_slot (md : PublicationMetadata) (d : Slot) : result RepositoryError PublicationSlot :=
  build <- ok_or (md_builds md !! build d) (lacks "build index" (build d)) ;;
  reuse <- ok_or (md_reuses md !! reuse d) (lacks "reuse index" (reuse d)) ;;
  object_list <- ok_or (md_object_lists md !! object_list d) (lacks "object list" (object_list d)) ;;
  file_list <- ok_or (md_file_lists md !! file_list d) (lacks "filesystem-file list" (file_list d)) ;;
  if negb (bytes_eqb (sha256 build) (Master.build d)) || negb (bytes_eqb (sha256 reuse) (Master.reuse d))
     || negb (bytes_eqb (sha256 object_list) (Master.object_list d)) || negb (bytes_eqb (sha256 file_list) (Master.file_list d))
  then Err (repo_error "publication metadata digest does not match master")
  else
    builds <- MappingIndex.from_bytes build ;;
    reuses <- MappingIndex.from_bytes reuse ;;
    objects <- ContentList.from_bytes object_list ;;
    files <- ContentList.from_bytes file_list ;;
    contents <- contents_new (MappingIndex.records builds) (MappingIndex.records reuses)
                  (ContentList.iter objects) (ContentList.iter files) ;;
    Ok (mkPublicationSlot (serial d) (retain_until d) contents).

Definition from_metadata (current : bytes) (md : PublicationMetadata) : result RepositoryError PublicationState :=
  slots <- try_map (restore_slot md) (slots (md_master md)) ;;
  from_slots current (data_base_url (md_master md)) slots.

(** ** Operations

    [publish] and [prune_expired] change the state in place, and may leave it
    changed when they fail. *)

Definition is_current_slot (slot : PublicationSlot) : bool := bool_decide (ps_retain_until slot = None).
Definition retire (retain_until : u64) (slot : PublicationSlot) : PublicationSlot :=
  mkPublicationSlot (ps_serial slot) (Some retain_until) (ps_contents slot).

(** [iter_mut().find(..)]: the slots before the first current one, it, and those after. *)
Fixpoint find_current (slots : list PublicationSlot)
  : option (list PublicationSlot * PublicationSlot * list PublicationSlot) :=
  match slots with
  | [] => None
  | slot :: rest =>
      if is_current_slot slot then Some ([], slot, rest)
      else match find_current rest with
           | Some (before, found, later) => Some (slot :: before, found, later)
           | None => None
           end
  end.
(** [iter_mut().rev().find(..)]. *)
Definition rfind_current (slots : list PublicationSlot)
  : option (list PublicationSlot * PublicationSlot * list PublicationSlot) :=
  match find_current (rev slots) with
  | Some (before, found, later) => Some (rev later, found, rev before)
  | None => None
  end.

Definition with_slots (st : PublicationState) (slots : list PublicationSlot) : PublicationState :=
  mkPublicationState (st_previous st) (st_url st) slots.

Definition no_current : RepositoryError := repo_error "repository has no current slot".

(** The match on the mode. *)
Definition advance (mode : PublicationMode) (next_serial : u64) (incoming : SlotContents) (slots : list PublicationSlot)
  : result RepositoryError (list PublicationSlot) :=
  match mode with
  | AppendToActive retain_until =>
      match rfind_current slots with
      | None => Err no_current
      | Some (before, active, later) =>
          replacement <- merge_newer (ps_contents active) incoming ;;
          Ok (before ++ retire retain_until active :: later ++ [mkPublicationSlot next_serial None replacement])
      end
  | AddSlot => Ok (slots ++ [mkPublicationSlot next_serial None incoming])
  | Rotate retain_until =>
      match find_current slots with
      | None => Err no_current
      | Some (before, oldest, later) =>
          Ok (before ++ retire retain_until oldest :: later ++ [mkPublicationSlot next_serial None incoming])
      end
  end.

Definition next_serial_of (slots : list PublicationSlot) : option u64 :=
  match last slots with Some slot => checked_add (ps_serial slot) 1 | None => None end.

Definition publish (mode : PublicationMode) (incoming : SlotContents) (st : PublicationState)
  : PublicationState * result RepositoryError unit :=
  match (validate_closure incoming ;;; ok_or (next_serial_of (st_slots st)) (repo_error "slot serial space is exhausted")) with
  | Err e => (st, Err e)
  | Ok next_serial =>
      match advance mode next_serial incoming (st_slots st) with
      | Err e => (st, Err e)
      | Ok slots => let st' := with_slots st slots in (st', metadata st' ;;; Ok tt)
      end
  end.

Definition kept (now : u64) (slot : PublicationSlot) : bool :=
  match ps_retain_until slot with None => true | Some deadline => (now <? deadline)%Z end.
Definition prune_expired (now : u64) (st : PublicationState) : PublicationState * result RepositoryError usize :=
  let st' := with_slots st (List.filter (kept now) (st_slots st)) in
  (st', metadata st' ;;; Ok (len (st_slots st) - len (st_slots st'))%Z).
End Publisher.
