(* ===== verification/PublisherFacts.v ===== *)
(** * What a publication changes

    Clients look a key up in the current slots, newest first.  In these terms a
    publication puts the incoming candidates first and loses none but those of the
    slot it rotates out; and the state can be restored from what was published. *)

From S2P Require Import Prelude Errors Hash Master Index Store Publisher.

(** ** Distinct elements *)

Abbreviation nub := (distinct_keys []).

Lemma distinct_ext s t l : (forall x, x ∈ s <-> x ∈ t) -> distinct_keys s l = distinct_keys t l.
Proof.
  revert s t. induction l as [|x l IH]; intros s t Hst; simpl; [done|].
  rewrite (bool_decide_ext _ _ (Hst x)). case_bool_decide; [by apply IH|]. f_equal. apply IH. set_solver.
Qed.

Lemma distinct_app s a b : distinct_keys s (a ++ b) = distinct_keys s a ++ distinct_keys (a ++ s) b.
Proof.
  revert s. induction a as [|x a IH]; intros s; simpl; [done|]. case_bool_decide.
  - rewrite IH. f_equal. apply distinct_ext. set_solver.
  - simpl. f_equal. rewrite IH. f_equal. apply distinct_ext. set_solver.
Qed.

Lemma distinct_distinct s t l : distinct_keys s (distinct_keys t l) = distinct_keys (s ++ t) l.
Proof.
  revert s t. induction l as [|x l IH]; intros s t; simpl; [done|]. case_bool_decide as Ht.
  - rewrite bool_decide_eq_true_2 by set_solver. apply IH.
  - simpl. case_bool_decide as Hs.
    + rewrite bool_decide_eq_true_2 by set_solver. rewrite IH. apply distinct_ext. set_solver.
    + rewrite bool_decide_eq_false_2 by set_solver. f_equal. rewrite IH. apply distinct_ext. set_solver.
Qed.

Lemma elem_of_distinct s l x : x ∈ distinct_keys s l <-> x ∈ l /\ x ∉ s.
Proof.
  revert s. induction l as [|y l IH]; intros s; simpl; [set_solver|]. case_bool_decide.
  - rewrite IH. set_solver.
  - rewrite !elem_of_cons, IH. destruct (decide (x = y)); set_solver.
Qed.

Lemma distinct_NoDup s l : NoDup (distinct_keys s l).
Proof.
  revert s. induction l as [|x l IH]; intros s; simpl; [constructor|]. case_bool_decide; [apply IH|].
  constructor; [|apply IH]. rewrite elem_of_distinct. set_solver.
Qed.

Lemma nub_app_r a b : nub (a ++ nub b) = nub (a ++ b).
Proof. rewrite !distinct_app, distinct_distinct, !app_nil_r. done. Qed.

Lemma nub_app_l a b : nub (nub a ++ b) = nub (a ++ b).
Proof.
  rewrite !distinct_app, distinct_distinct. f_equal. apply distinct_ext. intros x.
  rewrite !elem_of_app, elem_of_distinct. set_solver.
Qed.

(** ** Maps of candidates *)

Lemma btree_list_perm m : btree_list m ≡ₚ map_to_list m.
Proof. apply sort_by_perm. Qed.

Lemma btree_list_keys m : NoDup (map fst (btree_list m)).
Proof. rewrite btree_list_perm. apply NoDup_fst_map_to_list. Qed.

Lemma elem_of_btree m k cs : (k, cs) ∈ btree_list m <-> m !! k = Some cs.
Proof. rewrite btree_list_perm. apply elem_of_map_to_list. Qed.

Lemma merge_fold_lookup l existing k : NoDup (map fst l) ->
  fold_left merge_one l existing !! k =
  match assoc k l with
  | Some cs => Some (nub (cs ++ default [] (existing !! k)))
  | None => existing !! k
  end.
Proof.
  revert existing. induction l as [|[x cs] l IH]; intros existing Hd; simpl; [done|].
  inversion_clear Hd as [|? ? Hx Hl]. rewrite IH by done. unfold merge_one, bytes_eqb. simpl. destruct (decide (x = k)) as [->|Hn].
  - rewrite bool_decide_eq_true_2 by done. assert (assoc k l = None) as ->; [by apply assoc_none|].
    by rewrite lookup_insert_eq.
  - rewrite bool_decide_eq_false_2 by done. by rewrite lookup_insert_ne by done.
Qed.

Lemma assoc_btree m k : assoc k (btree_list m) = m !! k.
Proof.
  destruct (m !! k) as [cs|] eqn:E.
  - apply assoc_in; [apply btree_list_keys|]. by apply elem_of_btree.
  - apply assoc_none. intros Hin. apply list_elem_of_fmap in Hin as ([k' cs] & Ek & Hin). simpl in Ek. subst k'.
    apply elem_of_btree in Hin. congruence.
Qed.

Lemma merge_lookup existing newer k :
  merge_candidates existing newer !! k =
  match newer !! k with
  | Some cs => Some (nub (cs ++ default [] (existing !! k)))
  | None => existing !! k
  end.
Proof. unfold merge_candidates. rewrite merge_fold_lookup by apply btree_list_keys. by rewrite assoc_btree. Qed.

(** ** Lookups *)

(** What a slot offers for a key of one of its two mappings. *)
Definition offered (sel : SlotContents -> gmap bytes (list bytes)) (key : bytes) (slot : PublicationSlot) : list bytes :=
  default [] (sel (ps_contents slot) !! key).
Definition currents (slots : list PublicationSlot) : list PublicationSlot := List.filter is_current_slot slots.

(** The answer to a client: current slots, newest first, without repetitions. *)
Definition visible (sel : SlotContents -> gmap bytes (list bytes)) (slots : list PublicationSlot) (key : bytes) : list bytes :=
  nub (concat (map (offered sel key) (rev (currents slots)))).
Definition advertised (sel : SlotContents -> gset bytes) (slots : list PublicationSlot) : gset bytes :=
  ⋃ (map (fun slot => sel (ps_contents slot)) (currents slots)).

Lemma currents_app a b : currents (a ++ b) = currents a ++ currents b.
Proof. apply List.filter_app. Qed.

Lemma visible_snoc sel slots s key : is_current_slot s = true ->
  visible sel (slots ++ [s]) key = nub (offered sel key s ++ visible sel slots key).
Proof.
  intros Hs. unfold visible. rewrite currents_app, rev_app_distr. simpl. rewrite Hs. simpl. by rewrite nub_app_r.
Qed.

Lemma advertised_app sel a b : advertised sel (a ++ b) = advertised sel a ∪ advertised sel b.
Proof. unfold advertised. rewrite currents_app, map_app, union_list_app_L. done. Qed.

Lemma currents_retired before r s later :
  currents (before ++ retire r s :: later) = currents before ++ currents later.
Proof. rewrite currents_app. done. Qed.

Lemma find_current_some slots before s later : find_current slots = Some (before, s, later) ->
  slots = before ++ s :: later /\ is_current_slot s = true /\ currents before = [].
Proof.
  revert before. induction slots as [|x slots IH]; intros before; simpl; [done|]. destruct (is_current_slot x) eqn:E.
  - intros [= <- <- <-]. done.
  - destruct (find_current slots) as [[[b f] l]|]; [|done]. intros [= <- <- <-].
    destruct (IH b eq_refl) as (-> & Hs & Hb). split_and!; [done|done|]. simpl. by rewrite E.
Qed.

Lemma rfind_current_some slots before s later : rfind_current slots = Some (before, s, later) ->
  slots = before ++ s :: later /\ is_current_slot s = true /\ currents later = [].
Proof.
  unfold rfind_current. destruct (find_current (rev slots)) as [[[b f] l]|] eqn:E; [|done]. intros [= <- <- <-].
  apply find_current_some in E as (E & Hs & Hb). split_and!; [|done|].
  - rewrite <- (rev_involutive slots), E, rev_app_distr. simpl. by rewrite <- app_assoc.
  - unfold currents in *. rewrite List.filter_rev, Hb. done.
Qed.

(** The current slots that a publication leaves current. *)
Definition spared (mode : PublicationMode) (slots : list PublicationSlot) : list PublicationSlot :=
  match mode with Rotate _ => tail (currents slots) | _ => currents slots end.

(** One slot may be retired; nothing else of it changes. *)
Definition retired_or_same (a b : PublicationSlot) : Prop :=
  b = a \/ (is_current_slot a = true /\ exists deadline, b = retire deadline a).

Lemma same_slots l : Forall2 retired_or_same l l.
Proof. induction l; constructor; [by left|done]. Qed.

Lemma currents_currents l : currents (currents l) = currents l.
Proof.
  induction l as [|x l IH]; simpl; [done|]. destruct (is_current_slot x) eqn:E; simpl; [rewrite E; by f_equal|done].
Qed.

Lemma visible_currents sel l key : visible sel (currents l) key = visible sel l key.
Proof. unfold visible. by rewrite currents_currents. Qed.

Lemma advertised_currents sel l : advertised sel (currents l) = advertised sel l.
Proof. unfold advertised. by rewrite currents_currents. Qed.

Definition is_mapping (sel : SlotContents -> gmap bytes (list bytes)) : Prop := sel = sc_builds \/ sel = sc_reuses.
Definition is_listing (sel : SlotContents -> gset bytes) : Prop := sel = sc_objects \/ sel = sc_files.

Lemma merged_lookup sel c newer key : is_mapping sel ->
  sel (merged c newer) !! key =
  match sel newer !! key with
  | Some cs => Some (nub (cs ++ default [] (sel c !! key)))
  | None => sel c !! key
  end.
Proof. intros [-> | ->]; apply merge_lookup. Qed.

Lemma visible_same sel a b key : currents a = currents b -> visible sel a key = visible sel b key.
Proof. unfold visible. by intros ->. Qed.

(** What [advance] does, in the terms of clients. *)
Definition advanced (mode : PublicationMode) (incoming : SlotContents) (slots slots' : list PublicationSlot) : Prop :=
  (forall sel key, is_mapping sel ->
     visible sel slots' key = nub (default [] (sel incoming !! key) ++ visible sel (spared mode slots) key)) /\
  (forall sel, is_listing sel -> advertised sel slots' = sel incoming ∪ advertised sel (spared mode slots)).

Lemma advertised_same sel a b : currents a = currents b -> advertised sel a = advertised sel b.
Proof. unfold advertised. by intros ->. Qed.

Lemma advertised_snoc sel slots s : is_current_slot s = true ->
  advertised sel (slots ++ [s]) = sel (ps_contents s) ∪ advertised sel slots.
Proof. intros Hs. rewrite advertised_app. unfold advertised at 2. simpl. rewrite Hs. simpl. set_solver. Qed.

Lemma advance_append r n incoming slots slots' : advance (AppendToActive r) n incoming slots = Ok slots' ->
  advanced (AppendToActive r) incoming slots slots'.
Proof.
  intros E. cbn [advance] in E. destruct (rfind_current slots) as [[[before active] later]|] eqn:Ef; [|done].
  unfold merge_newer in E. inv_res. apply rfind_current_some in Ef as (-> & Hs & Hl).
  assert (currents (before ++ retire r active :: later) = currents before) as H1
    by (by rewrite currents_retired, Hl, app_nil_r).
  assert (currents (before ++ active :: later) = currents (before ++ [active])) as H2
    by (rewrite !currents_app; simpl; by rewrite Hs, Hl).
  rewrite app_comm_cons, app_assoc. split.
  - intros sel key Hsel. cbn [spared]. rewrite visible_currents, visible_snoc by done.
    rewrite (visible_same _ _ _ _ H1), (visible_same _ _ _ _ H2), visible_snoc, nub_app_r by done.
    unfold offered. simpl. rewrite merged_lookup by done.
    destruct (sel incoming !! key) as [cs|]; simpl; [by rewrite nub_app_l, app_assoc|done].
  - intros sel Hsel. cbn [spared]. rewrite advertised_currents, advertised_snoc by done.
    rewrite (advertised_same _ _ _ H1), (advertised_same _ _ _ H2), advertised_snoc by done.
    destruct Hsel as [-> | ->]; set_solver.
Qed.

Lemma advance_effect mode n incoming slots slots' : advance mode n incoming slots = Ok slots' ->
  advanced mode incoming slots slots'.
Proof.
  destruct mode as [r| |r]; intros E; [by eapply advance_append| |]; cbn [advance] in E.
  - inv_res. split; intros sel; cbn [spared].
    + intros key _. by rewrite visible_currents, visible_snoc.
    + intros _. by rewrite advertised_currents, advertised_snoc.
  - destruct (find_current slots) as [[[before oldest] later]|] eqn:Ef; [|done]. inv_res.
    apply find_current_some in Ef as (-> & Hs & Hb).
    assert (currents (before ++ retire r oldest :: later) = currents later) as H1 by (by rewrite currents_retired, Hb).
    assert (tail (currents (before ++ oldest :: later)) = currents later) as H2
      by (rewrite currents_app, Hb; simpl; by rewrite Hs).
    rewrite app_comm_cons, app_assoc. split; intros sel; cbn [spared]; rewrite H2.
    + intros key _. rewrite visible_snoc, visible_currents by done. by rewrite (visible_same _ _ _ _ H1).
    + intros _. rewrite advertised_snoc, advertised_currents by done. by rewrite (advertised_same _ _ _ H1).
Qed.

(** The old slots stay, in order. *)
Lemma advance_keeps mode n incoming slots slots' : advance mode n incoming slots = Ok slots' ->
  exists old new, slots' = old ++ [new] /\ Forall2 retired_or_same slots old /\
    ps_serial new = n /\ is_current_slot new = true.
Proof.
  destruct mode as [r| |r]; intros E; cbn [advance] in E.
  - destruct (rfind_current slots) as [[[before active] later]|] eqn:Ef; [|done]. inv_res.
    apply rfind_current_some in Ef as (-> & Hs & _). eexists (before ++ retire r active :: later), _.
    rewrite <- app_assoc. split_and!; [done| |done|done].
    apply Forall2_app; [apply same_slots|]. constructor; [right; eauto|apply same_slots].
  - inv_res. eexists slots, _. split_and!; [done|apply same_slots|done|done].
  - destruct (find_current slots) as [[[before oldest] later]|] eqn:Ef; [|done]. inv_res.
    apply find_current_some in Ef as (-> & Hs & _). eexists (before ++ retire r oldest :: later), _.
    rewrite <- app_assoc. split_and!; [done| |done|done].
    apply Forall2_app; [apply same_slots|]. constructor; [right; eauto|apply same_slots].
Qed.

(** ** Well-formed contents

    What the types of the program ensure (32-byte hashes) and its constructors
    (no empty or repeated candidates, mappings closed by the object list). *)

Definition wf_mapping (objects : gset bytes) (m : gmap bytes (list bytes)) : Prop :=
  forall k cs, m !! k = Some cs -> wf_hash k /\ cs <> [] /\ NoDup cs /\ Forall (fun o => wf_hash o /\ o ∈ objects) cs.
Record wf_contents (c : SlotContents) : Prop := {
  wc_builds : wf_mapping (sc_objects c) (sc_builds c);
  wc_reuses : wf_mapping (sc_objects c) (sc_reuses c);
  wc_objects : forall h, h ∈ sc_objects c -> wf_hash h;
  wc_files : forall h, h ∈ sc_files c -> wf_hash h;
}.

Lemma closure_ok c : wf_contents c -> validate_closure c = Ok tt.
Proof.
  intros Hc. unfold validate_closure.
  assert (Forall (fun o => o ∈ sc_objects c)
    (concat (map snd (btree_list (sc_builds c))) ++ concat (map snd (btree_list (sc_reuses c))))) as Hall.
  { apply Forall_app. split; rewrite Forall_concat, Forall_map, Forall_forall; intros [k cs] Hin%elem_of_btree.
    - destruct (wc_builds c Hc k cs Hin) as (_ & _ & _ & Ho). eapply Forall_impl; [exact Ho|]. by intros o [].
    - destruct (wc_reuses c Hc k cs Hin) as (_ & _ & _ & Ho). eapply Forall_impl; [exact Ho|]. by intros o []. }
  induction Hall as [|o l Ho _ IH]; simpl; [done|]. rewrite bool_decide_eq_true_2 by done. exact IH.
Qed.

Lemma wf_mapping_weaken s t m : s ⊆ t -> wf_mapping s m -> wf_mapping t m.
Proof.
  intros Hst Hm k cs E. destruct (Hm k cs E) as (H1 & H2 & H3 & H4). split_and!; [done..|].
  eapply Forall_impl; [exact H4|]. set_solver.
Qed.

Lemma nub_nonempty l : l <> [] -> nub l <> [].
Proof. destruct l; [done|]. simpl. done. Qed.

Lemma wf_merge s existing newer : wf_mapping s existing -> wf_mapping s newer -> wf_mapping s (merge_candidates existing newer).
Proof.
  intros He Hn k cs. rewrite merge_lookup. destruct (newer !! k) as [ns|] eqn:E; [|apply He].
  intros [= <-]. destruct (Hn k ns E) as (H1 & H2 & _ & H4). split_and!; [done| |apply distinct_NoDup|].
  - apply nub_nonempty. by destruct ns.
  - rewrite Forall_forall in *. intros o [Ho _]%elem_of_distinct. apply elem_of_app in Ho as [Ho|Ho]; [by apply H4|].
    destruct (existing !! k) as [es|] eqn:Ee; [|by inversion Ho]. destruct (He k es Ee) as (_ & _ & _ & H5).
    rewrite Forall_forall in H5. by apply H5.
Qed.

Lemma wf_merged c newer : wf_contents c -> wf_contents newer -> wf_contents (merged c newer).
Proof.
  intros [H1 H2 H3 H4] [G1 G2 G3 G4]. split; simpl.
  - apply wf_merge; (eapply wf_mapping_weaken; [|eassumption]); set_solver.
  - apply wf_merge; (eapply wf_mapping_weaken; [|eassumption]); set_solver.
  - set_solver.
  - set_solver.
Qed.

Definition wf_slots (slots : list PublicationSlot) : Prop := Forall (fun s => wf_contents (ps_contents s)) slots.

Lemma wf_retire before r s later :
  wf_slots (before ++ s :: later) -> wf_slots (before ++ retire r s :: later) /\ wf_contents (ps_contents s).
Proof.
  unfold wf_slots. rewrite !Forall_app, !Forall_cons. intros (H1 & H2 & H3). by split_and!.
Qed.

Lemma advance_wf mode n incoming slots slots' : wf_contents incoming -> wf_slots slots ->
  advance mode n incoming slots = Ok slots' -> wf_slots slots'.
Proof.
  intros Hi Hs. destruct mode as [r| |r]; cbn [advance].
  - destruct (rfind_current slots) as [[[before s] later]|] eqn:Ef; [|done]. unfold merge_newer. intros E. inv_res.
    apply rfind_current_some in Ef as (-> & _). apply (wf_retire before r) in Hs as [Hs Hc].
    rewrite app_comm_cons, app_assoc. apply Forall_app. split; [done|]. constructor; [|done]. by apply wf_merged.
  - intros E. inv_res. apply Forall_app. split; [done|]. by constructor.
  - destruct (find_current slots) as [[[before s] later]|] eqn:Ef; [|done]. intros E. inv_res.
    apply find_current_some in Ef as (-> & _). apply (wf_retire before r) in Hs as [Hs Hc].
    rewrite app_comm_cons, app_assoc. apply Forall_app. split; [done|]. by constructor.
Qed.

(** ** Records and tables *)

Lemma collect_key k cs m : NoDup (default [] (m !! k) ++ cs) -> cs <> [] ->
  fold_left collect_one (map (pair k) cs) m = <[k := default [] (m !! k) ++ cs]> m.
Proof.
  revert m. induction cs as [|c cs IH]; intros m Hd Hn; [done|]. simpl. unfold collect_one at 2. simpl.
  rewrite bool_decide_eq_false_2 by (apply NoDup_app in Hd as (_ & Hd & _); intros Hc; by apply (Hd c Hc); left).
  destruct cs as [|c' cs]; [done|].
  rewrite IH; rewrite ?lookup_insert_eq; simpl; rewrite <- ?app_assoc; [|done|done]. by rewrite insert_insert_eq.
Qed.

Lemma collect_entries l m : NoDup (map fst l) -> (forall k, k ∈ map fst l -> m !! k = None) ->
  Forall (fun e => e.2 <> [] /\ NoDup e.2) l ->
  fold_left collect_one (flat_map (fun e => map (pair e.1) e.2) l) m = list_to_map l ∪ m.
Proof.
  revert m. induction l as [|[k cs] l IH]; intros m Hd Hm Hl; simpl; [by rewrite left_id_L by apply _|].
  apply NoDup_cons in Hd as [Hk Hd]. apply Forall_cons in Hl as [[Hc Hn] Hl]. simpl in *.
  rewrite fold_left_app, collect_key; rewrite ?(Hm k) by set_solver; [|done|done]. simpl. rewrite IH; [|done| |done].
  - rewrite <- insert_union_l, insert_union_r; [done|]. by apply not_elem_of_list_to_map.
  - intros k' Hk'. rewrite lookup_insert_ne by set_solver. apply Hm. set_solver.
Qed.

Lemma collect_flatten s m : wf_mapping s m -> collect_candidates (flatten_candidates m) = m.
Proof.
  intros Hm. unfold collect_candidates, flatten_candidates. rewrite collect_entries.
  - rewrite right_id_L by apply _. rewrite (list_to_map_proper _ (map_to_list m)).
    + apply list_to_map_to_list.
    + apply btree_list_keys.
    + apply btree_list_perm.
  - apply btree_list_keys.
  - intros k _. apply lookup_empty.
  - rewrite Forall_forall. intros [k cs] Hin%elem_of_btree. by destruct (Hm k cs Hin) as (_ & ? & ? & _).
Qed.

Lemma flatten_elem m k o : (k, o) ∈ flatten_candidates m <-> exists cs, m !! k = Some cs /\ o ∈ cs.
Proof.
  unfold flatten_candidates. rewrite list_elem_of_In, in_flat_map. split.
  - intros ([k' cs] & Hin & Ho). simpl in Ho. apply in_map_iff in Ho as (o' & [= -> ->] & Ho).
    exists cs. rewrite <- elem_of_btree, !list_elem_of_In. done.
  - intros (cs & Hk%elem_of_btree & Ho). exists (k, cs). rewrite <- list_elem_of_In. split; [done|].
    apply in_map_iff. exists o. by rewrite <- list_elem_of_In.
Qed.

Lemma flatten_wide s m : wf_mapping s m -> Forall MappingFacts.wide (flatten_candidates m).
Proof.
  intros Hm. rewrite Forall_forall. intros [k o] (cs & Hk & Ho)%flatten_elem.
  destruct (Hm k cs Hk) as ([_ H1] & _ & _ & H2). rewrite Forall_forall in H2. destruct (H2 o Ho) as [[_ H3] _]. done.
Qed.

Lemma elements_hashes s : (forall h, h ∈ s -> wf_hash h) -> Forall (fun h => length h = 32%nat) (btree_elements s).
Proof.
  intros Hs. rewrite Forall_forall. intros h. unfold btree_elements. rewrite sort_by_perm, elem_of_elements.
  intros Hh. by destruct (Hs h Hh).
Qed.

(** A list of contents is read back as the set it encodes. *)
Lemma listed_set s : (forall h, h ∈ s -> wf_hash h) -> (32 * Z.of_nat (size s) <= MAX_METADATA_BYTES)%Z ->
  ContentList.from_bytes (ContentList.encode (btree_elements s)) = Ok (ContentList.encode (btree_elements s)) /\
  list_to_set (ContentList.iter (ContentList.encode (btree_elements s))) = s.
Proof.
  intros Hs Hz. pose proof (elements_hashes s Hs) as Hw.
  assert (32 * len (btree_elements s) <= MAX_METADATA_BYTES)%Z as Hz'.
  { unfold len, btree_elements. rewrite (Permutation_length (sort_by_perm id (elements s))). exact Hz. }
  destruct (ContentFacts.content_encode_set (btree_elements s) _ Hw Hz' (fun h => iff_refl _)) as (H1 & H2 & _).
  split; [done|]. apply set_eq. intros h. rewrite elem_of_list_to_set, <- ContentFacts.content_contains_mem by done.
  rewrite H2. unfold btree_elements. by rewrite sort_by_perm, elem_of_elements.
Qed.

Section Publications.
Context `{UrlApi} `{Sha256Api}.

(** ** Tables of a state *)

(** The tables among which SHA-256 is asked to have no collision. *)
Definition table_of (slots : list PublicationSlot) (t : bytes) : Prop :=
  exists s b r o f, s ∈ slots /\ slot_tables (ps_contents s) = Ok (b, r, o, f) /\ t ∈ [b; r; o; f].

(** A map of tables holds them under their digests. *)
Definition tabled (T : bytes -> Prop) (m : gmap bytes bytes) : Prop := forall k v, m !! k = Some v -> k = sha256 v /\ T v.

Lemma or_insert_tabled T m t : T t -> tabled T m -> tabled T (or_insert m t) /\ m ⊆ or_insert m t.
Proof.
  intros Ht Hm. unfold or_insert. destruct (m !! sha256 t) eqn:E; [done|]. split; [|by apply insert_subseteq].
  intros k v. destruct (decide (sha256 t = k)) as [<-|Hn].
  - rewrite lookup_insert_eq. by intros [= <-].
  - rewrite lookup_insert_ne by done. apply Hm.
Qed.

Lemma or_insert_there T m t : collision_free T -> T t -> tabled T m -> or_insert m t !! sha256 t = Some t.
Proof.
  intros Hcf Ht Hm. unfold or_insert. destruct (m !! sha256 t) as [v|] eqn:E; [|apply lookup_insert_eq].
  rewrite E. f_equal. destruct (Hm _ _ E) as [Hk Hv]. by apply Hcf.
Qed.

(** A descriptor describes a slot whose tables the maps have. *)
Definition described (builds reuses objects files : gmap bytes bytes) (s : PublicationSlot) (d : Slot) : Prop :=
  exists b r o f, slot_tables (ps_contents s) = Ok (b, r, o, f) /\
    d = mkSlot (ps_serial s) (sha256 b) (sha256 r) (sha256 o) (sha256 f) (ps_retain_until s) /\
    builds !! sha256 b = Some b /\ reuses !! sha256 r = Some r /\ objects !! sha256 o = Some o /\ files !! sha256 f = Some f.

Lemma described_tables_mono b1 r1 o1 f1 b2 r2 o2 f2 s d :
  b1 ⊆ b2 -> r1 ⊆ r2 -> o1 ⊆ o2 -> f1 ⊆ f2 -> described b1 r1 o1 f1 s d -> described b2 r2 o2 f2 s d.
Proof.
  intros H1 H2 H3 H4 (b & r & o & f & Ht & Hd & Hb & Hr & Ho & Hf). exists b, r, o, f.
  split_and!; [done|done|by eapply lookup_weaken..].
Qed.

Lemma table_of_tail s slots t : table_of slots t -> table_of (s :: slots) t.
Proof. intros (s' & b & r & o & f & Hs & Ht). exists s', b, r, o, f. split; [by right|done]. Qed.

Lemma table_of_head s slots b r o f : slot_tables (ps_contents s) = Ok (b, r, o, f) ->
  forall t, t ∈ [b; r; o; f] -> table_of (s :: slots) t.
Proof. intros Hs t Ht. exists s, b, r, o, f. split; [by left|done]. Qed.

Lemma tabled_empty T : tabled T ∅.
Proof. intros k v Hk. by rewrite lookup_empty in Hk. Qed.

Lemma add_tables_spec T slots ds b r o f ds' b' r' o' f' :
  collision_free T -> (forall t, table_of slots t -> T t) ->
  tabled T b -> tabled T r -> tabled T o -> tabled T f ->
  try_fold add_tables (ds, b, r, o, f) slots = Ok (ds', b', r', o', f') ->
  (b ⊆ b' /\ r ⊆ r' /\ o ⊆ o' /\ f ⊆ f') /\
  exists new, ds' = ds ++ new /\ Forall2 (described b' r' o' f') slots new.
Proof.
  intros Hcf. revert ds b r o f. induction slots as [|s slots IH]; intros ds b r o f HT Hb Hr Ho Hf E.
  { cbn [try_fold] in E. inv_res. split; [done|]. exists []. rewrite app_nil_r. split; [done|constructor]. }
  cbn [try_fold] in E. inv_res. unfold add_tables in E0. inv_res.
  assert (T l1 /\ T l2 /\ T l0 /\ T l) as (T1 & T2 & T3 & T4).
  { split_and!; apply HT; (eapply table_of_head; [exact E1|]); rewrite !elem_of_cons; tauto. }
  destruct (or_insert_tabled T b l1) as [Gb Sb]; [done..|]. destruct (or_insert_tabled T r l2) as [Gr Sr]; [done..|].
  destruct (or_insert_tabled T o l0) as [Go So]; [done..|]. destruct (or_insert_tabled T f l) as [Gf Sf]; [done..|].
  destruct (IH _ _ _ _ _ (fun t Ht => HT t (table_of_tail _ _ _ Ht)) Gb Gr Go Gf E)
    as ((Ib & Ir & Io & If) & new & -> & Hnew).
  split; [split_and!; (etransitivity; eassumption)|]. eexists (_ :: new). rewrite <- app_assoc. split; [done|].
  constructor; [|done]. exists l1, l2, l0, l. split_and!; [done|done|..];
    (eapply lookup_weaken; [|eassumption]; by apply (or_insert_there T)).
Qed.

Lemma metadata_described st md : collision_free (table_of (st_slots st)) -> metadata st = Ok md ->
  Master.new (st_previous st) (st_url st) (slots (md_master md)) = Ok (md_master md) /\
  Forall2 (described (md_builds md) (md_reuses md) (md_object_lists md) (md_file_lists md)) (st_slots st) (slots (md_master md)).
Proof.
  intros Hcf. unfold metadata. intros E. inv_res.
  destruct (add_tables_spec _ _ _ _ _ _ _ _ _ _ _ _ Hcf (fun t Ht => Ht)
    (tabled_empty _) (tabled_empty _) (tabled_empty _) (tabled_empty _) E0)
    as (_ & new & -> & Hnew).
  simpl in *. rename E1 into Em. pose proof Em as Em2. unfold Master.new in Em2. inv_res. split; [exact Em|done].
Qed.

(** ** Restoring a state *)

Definition within_limits (c : SlotContents) : Prop :=
  (32 * Z.of_nat (size (sc_objects c)) <= MAX_METADATA_BYTES)%Z /\ (32 * Z.of_nat (size (sc_files c)) <= MAX_METADATA_BYTES)%Z.

Lemma encoded_records s m b : wf_mapping s m -> MappingIndex.encode (flatten_candidates m) = Ok b ->
  MappingIndex.from_bytes b = Ok b /\ collect_candidates (MappingIndex.records b) = m.
Proof.
  intros Hm E. pose proof E as E2. apply MappingFacts.mapping_encode_roundtrip in E as (_ & Hr & _); [|by eapply flatten_wide].
  rewrite Hr. split; [|by eapply collect_flatten]. unfold MappingIndex.encode in E2. inv_res.
  pose proof (MappingFacts.mapping_from_bytes_id _ _ E). congruence.
Qed.

Lemma contents_restored c b r o f : wf_contents c -> within_limits c -> slot_tables c = Ok (b, r, o, f) ->
  MappingIndex.from_bytes b = Ok b /\ MappingIndex.from_bytes r = Ok r /\
  ContentList.from_bytes o = Ok o /\ ContentList.from_bytes f = Ok f /\
  contents_new (MappingIndex.records b) (MappingIndex.records r) (ContentList.iter o) (ContentList.iter f) = Ok c.
Proof.
  intros Hc [Lo Lf] E. unfold slot_tables in E. inv_res.
  destruct (encoded_records _ _ _ (wc_builds c Hc) E0) as [Fb Cb].
  destruct (encoded_records _ _ _ (wc_reuses c Hc) E1) as [Fr Cr].
  destruct (listed_set _ (wc_objects c Hc) Lo) as [Fo Co]. destruct (listed_set _ (wc_files c Hc) Lf) as [Ff Cf].
  split_and!; [done..|]. unfold contents_new. rewrite Cb, Cr, Co, Cf. destruct c as [cb cr co cf].
  by rewrite closure_ok by done.
Qed.

Lemma slot_restored md s d : wf_contents (ps_contents s) -> within_limits (ps_contents s) ->
  described (md_builds md) (md_reuses md) (md_object_lists md) (md_file_lists md) s d ->
  restore_slot md d = Ok s.
Proof.
  intros Hc Hl (b & r & o & f & Ht & -> & Hb & Hr & Ho & Hf). unfold restore_slot. simpl.
  rewrite Hb, Hr, Ho, Hf. simpl. unfold bytes_eqb. rewrite !bool_decide_eq_true_2 by done. simpl.
  destruct (contents_restored _ _ _ _ _ Hc Hl Ht) as (-> & -> & -> & -> & Hnew). rewrite Hnew. by destruct s.
Qed.

Lemma slots_restored md ss ds : Forall (fun s => wf_contents (ps_contents s) /\ within_limits (ps_contents s)) ss ->
  Forall2 (described (md_builds md) (md_reuses md) (md_object_lists md) (md_file_lists md)) ss ds ->
  try_map (restore_slot md) ds = Ok ss.
Proof.
  intros Hs. induction 1 as [|s d ss ds Hd _ IH]; simpl; [done|]. apply Forall_cons in Hs as [[Hc Hl] Hs].
  rewrite (slot_restored _ s d) by done. by rewrite IH.
Qed.

(** The next master differs by its predecessor alone. *)
Lemma metadata_previous st md h : metadata st = Ok md ->
  metadata (mkPublicationState (Some h) (st_url st) (st_slots st)) =
  Ok (mkPublicationMetadata (mkMaster (Some h) (st_url st) (slots (md_master md))) (md_builds md) (md_reuses md)
        (md_object_lists md) (md_file_lists md)).
Proof.
  unfold metadata. simpl. intros E. inv_res. unfold Master.new in *. inv_res. simpl.
  replace (validate _) with (validate (mkMaster (st_previous st) (st_url st) l)) by done. by rewrite E.
Qed.

Lemma closed_slots ss : wf_slots ss ->
  try_fold (fun _ slot => validate_closure (ps_contents slot)) tt ss = Ok tt.
Proof. induction 1 as [|s ss Hs _ IH]; simpl; [done|]. by rewrite closure_ok. Qed.

(** From maps that have the tables of the slots. *)
Lemma from_described st md md' current :
  wf_slots (st_slots st) -> Forall (fun s => within_limits (ps_contents s)) (st_slots st) -> metadata st = Ok md ->
  md_master md' = md_master md ->
  Forall2 (described (md_builds md') (md_reuses md') (md_object_lists md') (md_file_lists md')) (st_slots st) (slots (md_master md)) ->
  from_metadata current md' = Ok (mkPublicationState (Some current) (st_url st) (st_slots st)).
Proof.
  intros Hwf Hl E Hm Hd. unfold from_metadata. rewrite Hm.
  rewrite (slots_restored md' (st_slots st)); [|by apply Forall_and|done]. simpl.
  assert (data_base_url (md_master md) = st_url st) as ->.
  { pose proof E as E2. unfold metadata, Master.new in E2. inv_res. done. }
  unfold from_slots. rewrite closed_slots by done. simpl. by rewrite (metadata_previous _ _ _ E).
Qed.

(** A state is restored from its own metadata. *)
Lemma publication_round_trip st md current :
  wf_slots (st_slots st) -> Forall (fun s => within_limits (ps_contents s)) (st_slots st) ->
  collision_free (table_of (st_slots st)) -> metadata st = Ok md ->
  from_metadata current md = Ok (mkPublicationState (Some current) (st_url st) (st_slots st)).
Proof.
  intros Hwf Hl Hcf E. destruct (metadata_described _ _ Hcf E) as [Hm Hd]. by eapply from_described.
Qed.

Lemma metadata_master st md : metadata st = Ok md ->
  md_master md = mkMaster (st_previous st) (st_url st) (slots (md_master md)) /\ validate (md_master md) = Ok tt.
Proof. unfold metadata, Master.new. intros E. inv_res. by match goal with u : unit |- _ => destruct u end. Qed.

Lemma add_tables_serials slots ds b r o f acc : try_fold add_tables (ds, b, r, o, f) slots = Ok acc ->
  map (fun d => (serial d, retain_until d)) acc.1.1.1.1 =
  map (fun d => (serial d, retain_until d)) ds ++ map (fun s => (ps_serial s, ps_retain_until s)) slots.
Proof.
  revert ds b r o f. induction slots as [|s slots IH]; intros ds b r o f E; cbn [try_fold] in E.
  - inv_res. by rewrite app_nil_r.
  - inv_res. unfold add_tables in E0. inv_res. rewrite (IH _ _ _ _ _ E), map_app, <- app_assoc. done.
Qed.

(** The slots of a master are those of its state. *)
Lemma metadata_serials st md : metadata st = Ok md ->
  map (fun d => (serial d, retain_until d)) (slots (md_master md)) = map (fun s => (ps_serial s, ps_retain_until s)) (st_slots st).
Proof.
  unfold metadata, Master.new. intros E. inv_res. by apply add_tables_serials in E0.
Qed.

Definition increasing (slots : list PublicationSlot) : Prop :=
  StronglySorted (fun a b => (ps_serial a < ps_serial b)%Z) slots.

Lemma sorted_map {A B} (f : A -> B) (R : B -> B -> Prop) l :
  StronglySorted R (map f l) <-> StronglySorted (fun a b => R (f a) (f b)) l.
Proof.
  induction l as [|x l IH]; simpl; [split; constructor|]. split; intros Hs; inversion_clear Hs; constructor.
  - by apply IH.
  - by rewrite Forall_map in *.
  - by apply IH.
  - by rewrite Forall_map.
Qed.

Lemma metadata_increasing st md : metadata st = Ok md -> increasing (st_slots st).
Proof.
  intros E. destruct (metadata_master _ _ E) as [_ Hv]. apply validate_iff in Hv as (_ & Hs & _).
  apply metadata_serials in E. unfold serial_lt in Hs.
  change (StronglySorted (fun a b => ((fun d => (serial d, retain_until d)) a).1 < ((fun d => (serial d, retain_until d)) b).1)%Z
    (slots (md_master md))) in Hs.
  apply (sorted_map (fun d => (serial d, retain_until d)) (fun a b => (a.1 < b.1)%Z)) in Hs. rewrite E in Hs.
  by apply (sorted_map (fun s => (ps_serial s, ps_retain_until s)) (fun a b => (a.1 < b.1)%Z)) in Hs.
Qed.

Lemma currents_kept now slots : currents (List.filter (kept now) slots) = currents slots.
Proof.
  induction slots as [|s slots IH]; simpl; [done|]. unfold kept at 1. destruct (ps_retain_until s) as [u|] eqn:E.
  - assert (is_current_slot s = false) as -> by (unfold is_current_slot; by rewrite E).
    destruct (now <? u)%Z; simpl; [unfold is_current_slot at 1; by rewrite E|done].
  - simpl. destruct (is_current_slot s); [by f_equal|done].
Qed.

(** C11. What a publication means for clients.  After a successful [publish] the
    answer to every key of either mapping is the incoming candidates followed by
    the answer of before, without repetitions, except that [Rotate] no longer
    counts the oldest current slot; what is advertised is the union of the incoming
    contents and of those of the slots spared.  The slots of before all remain
    with their contents, in order and at most retired, under one new current slot;
    serials strictly increase, and well-formed slots stay well formed.  Pruning
    expired slots afterwards changes no answer. *)
Theorem publication_refines mode incoming st st' :
  publish mode incoming st = (st', Ok tt) ->
  advanced mode incoming (st_slots st) (st_slots st') /\
  (exists old new, st_slots st' = old ++ [new] /\ Forall2 retired_or_same (st_slots st) old /\ is_current_slot new = true) /\
  increasing (st_slots st') /\
  (wf_contents incoming -> wf_slots (st_slots st) -> wf_slots (st_slots st')) /\
  (forall now sel key, visible sel (st_slots (prune_expired now st').1) key = visible sel (st_slots st') key).
Proof.
  unfold publish. destruct (_ ;;; ok_or _ _) as [n|e]; [|done]. destruct (advance mode n incoming (st_slots st)) as [ss|e] eqn:Ea; [|done].
  intros [= <- E]. inv_res. simpl. split_and!.
  - by eapply advance_effect.
  - destruct (advance_keeps _ _ _ _ _ Ea) as (old & new & Ho & H2 & _ & Hn). by exists old, new.
  - by eapply (metadata_increasing (with_slots st ss)).
  - intros Hi Hs. by eapply advance_wf.
  - intros now sel key. apply visible_same, currents_kept.
Qed.
End Publications.
