(* ===== verification/Reader.v ===== *)
(** * Reading a repository

    [bobr-repo/src/reader.rs] with [cache.rs]: a snapshot is taken of a verified
    master, and answers lookups from the tables of its current slots, which are
    fetched on first use into a cache.  The transport in effect and the [tempfile]
    crate are parameters; that temporary files are removed when they go out of
    scope is left out. *)

From S2P Require Import Prelude Errors Hash Master Index Text Posix Subjects Graph Publisher.

Open Scope prog_scope.

(** ** The transport *)

Inductive FetchPurpose :=
| PMaster
| PBuildIndex (hash : bytes)
| PReuseIndex (hash : bytes)
| PObjectList (hash : bytes)
| PFsFileList (hash : bytes)
| PObject (hash : bytes)
| PFsFile (hash : bytes).

Record RepresentationMetadata := mkRepresentationMetadata {
  rm_content_type : option bytes;
  rm_cache_control : option bytes;
  rm_content_encoding : option bytes;
  rm_etag : option bytes;
}.

Inductive FetchResult := Stored (metadata : RepresentationMetadata) | NotModified | Missing.

(** [Url::join]. *)
Class UrlJoin `{UrlApi} := url_join : Url -> bytes -> result string Url.

Record FetchRequest `{UrlApi} := mkFetchRequest {
  fq_purpose : FetchPurpose;
  fq_url : Url;
  fq_destination : path;
  fq_max_bytes : u64;
  fq_if_none_match : option bytes;
}.
Arguments mkFetchRequest {_} _ _ _ _ _.

(** [tempfile::Builder::prefix(..).tempfile_in(..)], [NamedTempFile::persist] and
    [persist_noclobber]. *)
Record TempFiles := mkTempFiles {
  tempfile_in : path -> bytes -> prog (result IoError path);
  temp_persist : path -> path -> prog (result IoError unit);
  temp_persist_noclobber : path -> path -> prog (result IoError unit);
}.

Definition io_error {A : Type} (m : prog (result IoError A)) : prog (result RepositoryError A) :=
  mapping_err (fun e => from_io_error (io_text e)) m.

(** ** Headers *)

Definition OCTET_STREAM : bytes := lit "application/octet-stream".
Definition OBJECT_MEDIA_TYPE : bytes := lit "application/vnd.bobr.repository-object+cbor".
Definition FS_FILE_MEDIA_TYPE : bytes := lit "application/vnd.bobr.repository-fs-file+cbor".
Definition MAX_ENCODED_CONTENT_BYTES : u64 := 1024 * 1024 * 1024 * 1024.

(** A part of a [Cache-Control] header. *)
Definition control_parts (m : RepresentationMetadata) : list bytes :=
  map trim (split_on 44 (default [] (rm_cache_control m))).

(** The parameter of the media type, with its quotes. *)
Definition COSE_TYPE : bytes := lit "cose-type=" ++ [34]%Z ++ lit "cose-sign1" ++ [34]%Z.

Definition require_master_representation (m : RepresentationMetadata) : result RepositoryError unit :=
  match map trim (split_on 59 (default [] (rm_content_type m))) with
  | [media; parameter] =>
      if negb (eq_ignore_ascii_case media (lit "application/cose")) || negb (bytes_eqb parameter COSE_TYPE)
      then Err (repo_error "master has an invalid HTTP Content-Type")
      else guard (existsb (fun item => eq_ignore_ascii_case item (lit "no-cache")) (control_parts m))
             (repo_error "master lacks Cache-Control: no-cache")
  | _ => Err (repo_error "master has an invalid HTTP Content-Type")
  end.

(** [str::parse::<u64>]: an optional plus sign and digits. *)
Definition parse_seconds (value : bytes) : option Z :=
  let digits := match value with 43%Z :: rest => rest | _ => value end in
  if bool_decide (digits = []) || negb (forallb is_digit digits) || (U64_MAX <? read_decimal digits)%Z then None
  else Some (read_decimal digits).
Definition ONE_YEAR : Z := 31536000.
Definition long_lived (item : bytes) : bool :=
  match strip_prefix (lit "max-age=") (map to_ascii_lowercase item) with
  | Some value => match parse_seconds value with Some seconds => (ONE_YEAR <=? seconds)%Z | None => false end
  | None => false
  end.

Definition require_immutable_representation (m : RepresentationMetadata) (media_type : bytes) : result RepositoryError unit :=
  guard (negb (bool_decide (is_Some (rm_content_encoding m))))
    (repo_error "immutable repository response must not use Content-Encoding") ;;;
  guard (match rm_content_type m with Some value => eq_ignore_ascii_case value media_type | None => false end)
    (repo_error "immutable object has an invalid HTTP Content-Type") ;;;
  guard (existsb (fun item => eq_ignore_ascii_case item (lit "immutable")) (control_parts m))
    (repo_error "immutable object lacks Cache-Control: immutable") ;;;
  guard (existsb long_lived (control_parts m)) (repo_error "immutable object lacks a one-year Cache-Control max-age").

(** ** Files *)

Definition remove_if_exists (p : path) : prog (result RepositoryError unit) :=
  do r := remove_file p in
  Ret (match r with
       | Ok _ => Ok tt
       | Err e => if bool_decide (io_kind e = NotFound) then Ok tt else Err (from_io_error (io_text e))
       end).

Section Reader.
Context `{UrlApi} `{!UrlJoin} `{Sha256Api} `{CoseApi}.
Context (fetch : FetchRequest -> prog (result RepositoryError FetchResult)) (temp : TempFiles).

Definition persist_noclobber (file p : path) : prog (result RepositoryError unit) :=
  do r := temp_persist_noclobber temp file p in
  Ret (match r with
       | Ok _ => Ok tt
       | Err e => if bool_decide (io_kind e = AlreadyExists) then Ok tt else Err (from_io_error (io_text e))
       end).
Definition persist_replace (file p : path) : prog (result RepositoryError unit) := io_error (temp_persist temp file p).

(** [Path::parent]. *)
Definition parent_path (p : path) : option path := match p with [] => None | _ => Some (removelast p) end.

Definition atomic_write (p : path) (content : bytes) : prog (result RepositoryError unit) :=
  match parent_path p with
  | None => Ret (Err (repo_error "cache path has no parent"))
  | Some parent =>
      let? file := io_error (tempfile_in temp parent (lit ".tmp")) in
      io_error (write file content) ?;
      persist_replace file p
  end.

(** The outcome of [metadata(path)?.len()] and of [read(path)]. *)
Definition file_length (p : path) : prog (result IoError Z) :=
  do r := Posix.metadata p in Ret (match r with Ok md => Ok (md_len md) | Err e => Err e end).

Definition read_cached_master (p : path) : prog (result RepositoryError bytes) :=
  let? length := io_error (file_length p) in
  if (MAX_MASTER_BYTES <? length)%Z then Ret (Err (repo_error "cached master exceeds the format size limit"))
  else io_error (read p).

(** [MappingIndex::open] and [ContentList::open] over the file system. *)
Definition open_table (open : bytes -> result string u64 -> result string bytes -> bytes -> result RepositoryError bytes)
    (p : path) (hash : bytes) : prog (result RepositoryError bytes) :=
  do length := mapping_err io_text (file_length p) in
  match check_metadata_size_before_read length with
  | Err e => Ret (Err e)
  | Ok _ =>
      do content := mapping_err io_text (read p) in
      Ret (open (join_with [47]%Z p) length content hash)
  end.

(** [RepositoryReader]: its master URL, pinned keys and cache. *)
Record RepositoryReader := mkRepositoryReader {
  rr_master_url : Url;
  rr_keys : gmap bytes VerifyingKey;
  rr_cache : path;
}.

(** [RepositoryCache]. *)
Definition master_path (self : RepositoryReader) : path := rr_cache self ++ [lit "master.cose"].
Definition master_etag_path (self : RepositoryReader) : path := rr_cache self ++ [lit "master.etag"].
Definition metadata_path (self : RepositoryReader) (namespace hash : bytes) : path :=
  rr_cache self ++ [lit "metadata"; namespace; hash].
Definition create_temporary (self : RepositoryReader) (prefix : bytes) : prog (result RepositoryError path) :=
  io_error (tempfile_in temp (rr_cache self) prefix).

(** [RepositoryCache::open]. *)
Definition cache_open (cache_root : path) (master_url : Url) : prog (result RepositoryError path) :=
  let root := cache_root ++ [lit "repositories"; to_hex (sha256 (url_as_str master_url))] in
  io_error (create_dir_all (root ++ [lit "metadata"])) ?;
  Ret (Ok root).

(** [RepositoryReader::with_policy]. *)
Definition reader_new (master_url : Url) (keys : gmap bytes VerifyingKey) (cache_root : path) (max_blocking_decoders : usize)
  : prog (result RepositoryError RepositoryReader) :=
  if negb (bytes_eqb (url_scheme master_url) (lit "https"))
  then Ret (Err (repo_configuration "master URL must use HTTPS"))
  else if (max_blocking_decoders =? 0)%Z
  then Ret (Err (repo_configuration "max_blocking_decoders must be greater than zero"))
  else
    let? cache := cache_open cache_root master_url in
    Ret (Ok (mkRepositoryReader master_url keys cache)).

(** ** The master *)

(** [read_to_string(..).ok()]. *)
Definition read_to_string_ok (p : path) : prog (option bytes) :=
  do r := read p in
  Ret (match r with Ok b => if is_utf8 b then Some b else None | Err _ => None end).

Definition fetch_master (self : RepositoryReader) : prog (result RepositoryError VerifiedMaster) :=
  do etag := read_to_string_ok (master_etag_path self) in
  let? temporary := create_temporary self (lit "master-") in
  let? result := fetch (mkFetchRequest PMaster (rr_master_url self) temporary MAX_MASTER_BYTES etag) in
  let? b := (
    match result with
    | Stored m =>
        match require_master_representation m with
        | Err e => Ret (Err e)
        | Ok _ =>
            let? b := io_error (read temporary) in
            match trusted_verify (rr_keys self) b with
            | Err e => Ret (Err e)
            | Ok _ =>
                persist_replace temporary (master_path self) ?;
                match rm_etag m with
                | Some etag => atomic_write (master_etag_path self) etag ?; Ret (Ok b)
                | None => remove_if_exists (master_etag_path self) ?; Ret (Ok b)
                end
            end
        end
    | NotModified =>
        mapping_err (fun e => repo_error ("origin returned 304 but cached master is unavailable: " +:+ re_message e))
          (read_cached_master (master_path self))
    | Missing => Ret (Err (repo_error "repository master is missing"))
    end) in
  Ret (trusted_verify (rr_keys self) b).

(** ** Tables *)

Definition fetch_metadata (self : RepositoryReader) (base : Url) (namespace hash : bytes) (purpose : FetchPurpose)
    (validate : path -> prog (result RepositoryError unit)) : prog (result RepositoryError path) :=
  let p := metadata_path self namespace hash in
  do present := is_file_path p in
  do valid := (if present : bool then bind (validate p) (fun r => Ret (is_ok r)) else Ret false) in
  if valid : bool then Ret (Ok p)
  else
    remove_if_exists p ?;
    match parent_path p with Some parent => io_error (create_dir_all parent) | None => Ret (Ok tt) end ?;
    let? temporary := create_temporary self (lit "metadata-") in
    match url_join base (namespace ++ [47]%Z ++ hash) with
    | Err error => Ret (Err (repo_error ("failed to construct repository URL: " +:+ error)))
    | Ok url =>
        let? result := fetch (mkFetchRequest purpose url temporary MAX_METADATA_BYTES None) in
        match result with
        | Stored m =>
            match require_immutable_representation m OCTET_STREAM with
            | Err e => Ret (Err e)
            | Ok _ =>
                persist_noclobber temporary p ?;
                validate p ?;
                Ret (Ok p)
            end
        | Missing => Ret (Err (repo_error ("repository metadata '" +:+ show (namespace ++ [47]%Z ++ hash) +:+ "' is missing")))
        | NotModified => Ret (Err (repo_error "unexpected 304 response for uncached immutable metadata"))
        end
    end.

(** [fetch_build], [fetch_reuse], [fetch_object_list] and [fetch_file_list]. *)
Definition fetch_table (open : bytes -> result string u64 -> result string bytes -> bytes -> result RepositoryError bytes)
    (namespace : string) (purpose : bytes -> FetchPurpose) (self : RepositoryReader) (base : Url) (hash : bytes)
  : prog (result RepositoryError bytes) :=
  let? p := fetch_metadata self base (lit namespace) (to_hex hash) (purpose hash)
              (fun p => bind (open_table open p hash) (fun r => Ret (r ;;; Ok tt))) in
  open_table open p hash.
Definition fetch_build := fetch_table MappingIndex.open "b" PBuildIndex.
Definition fetch_reuse := fetch_table MappingIndex.open "r" PReuseIndex.
Definition fetch_object_list := fetch_table ContentList.open "lo" PObjectList.
Definition fetch_file_list := fetch_table ContentList.open "lf" PFsFileList.

(** [publication_metadata]. *)
Definition collect_slot (self : RepositoryReader) (base : Url)
    (acc : gmap bytes bytes * gmap bytes bytes * gmap bytes bytes * gmap bytes bytes) (slot : Slot)
  : prog (result RepositoryError (gmap bytes bytes * gmap bytes bytes * gmap bytes bytes * gmap bytes bytes)) :=
  let '(builds, reuses, object_lists, file_lists) := acc in
  let? b := fetch_build self base (build slot) in
  let? r := fetch_reuse self base (reuse slot) in
  let? o := fetch_object_list self base (object_list slot) in
  let? f := fetch_file_list self base (file_list slot) in
  Ret (Ok (<[build slot := b]> builds, <[reuse slot := r]> reuses, <[object_list slot := o]> object_lists,
           <[file_list slot := f]> file_lists)).
Fixpoint collect_slots (self : RepositoryReader) (base : Url)
    (acc : gmap bytes bytes * gmap bytes bytes * gmap bytes bytes * gmap bytes bytes) (l : list Slot)
  : prog (result RepositoryError (gmap bytes bytes * gmap bytes bytes * gmap bytes bytes * gmap bytes bytes)) :=
  match l with
  | [] => Ret (Ok acc)
  | slot :: l' => let? acc' := collect_slot self base acc slot in collect_slots self base acc' l'
  end.

Record CurrentPublication := mkCurrentPublication {
  cp_master_hash : bytes;
  cp_key_id : bytes;
  cp_metadata : PublicationMetadata;
}.
Definition publication_metadata (self : RepositoryReader) : prog (result RepositoryError CurrentPublication) :=
  let? verified := fetch_master self in
  let master := vm_master verified in
  let? tables := collect_slots self (data_base_url master) (∅, ∅, ∅, ∅) (slots master) in
  let '(builds, reuses, object_lists, file_lists) := tables in
  Ret (Ok (mkCurrentPublication (vm_signed_hash verified) (vm_key_id verified)
             (mkPublicationMetadata master builds reuses object_lists file_lists))).
(** [CurrentPublication::state]. *)
Definition publication_state (self : CurrentPublication) : result RepositoryError PublicationState :=
  from_metadata (cp_master_hash self) (cp_metadata self).

(** ** Snapshots *)

(** [SnapshotSlot]; a cell is filled by the first fetch that succeeds. *)
Record SnapshotSlot := mkSnapshotSlot {
  ss_descriptor : Slot;
  ss_build : option bytes;
  ss_reuse : option bytes;
  ss_objects : option bytes;
  ss_files : option bytes;
}.
Record RepositorySnapshot := mkRepositorySnapshot {
  sn_reader : RepositoryReader;
  sn_master : Master;
  sn_slots : list SnapshotSlot;
}.

Definition snapshot (self : RepositoryReader) : prog (result RepositoryError RepositorySnapshot) :=
  let? verified := fetch_master self in
  let master := vm_master verified in
  Ret (Ok (mkRepositorySnapshot self master
             (map (fun d => mkSnapshotSlot d None None None None) (current_slots_newest_first master)))).

(** The four cells of a slot: what is in it, filling it, and how to fetch it. *)
Inductive Cell := BuildCell | ReuseCell | ObjectsCell | FilesCell.
Definition cell_value (cell : Cell) (slot : SnapshotSlot) : option bytes :=
  match cell with
  | BuildCell => ss_build slot | ReuseCell => ss_reuse slot
  | ObjectsCell => ss_objects slot | FilesCell => ss_files slot
  end.
Definition fill_cell (cell : Cell) (table : bytes) (slot : SnapshotSlot) : SnapshotSlot :=
  let '(mkSnapshotSlot d b r o f) := slot in
  match cell with
  | BuildCell => mkSnapshotSlot d (Some table) r o f
  | ReuseCell => mkSnapshotSlot d b (Some table) o f
  | ObjectsCell => mkSnapshotSlot d b r (Some table) f
  | FilesCell => mkSnapshotSlot d b r o (Some table)
  end.
Definition cell_hash (cell : Cell) (d : Slot) : bytes :=
  match cell with
  | BuildCell => build d | ReuseCell => reuse d | ObjectsCell => object_list d | FilesCell => file_list d
  end.
Definition cell_fetch (cell : Cell) : RepositoryReader -> Url -> bytes -> prog (result RepositoryError bytes) :=
  match cell with
  | BuildCell => fetch_build | ReuseCell => fetch_reuse
  | ObjectsCell => fetch_object_list | FilesCell => fetch_file_list
  end.

(** [get_or_try_init]. *)
Definition get_or_try_init (self : RepositorySnapshot) (cell : Cell) (slot : SnapshotSlot)
  : prog (result RepositoryError bytes * SnapshotSlot) :=
  match cell_value cell slot with
  | Some table => Ret (Ok table, slot)
  | None =>
      do r := cell_fetch cell (sn_reader self) (data_base_url (sn_master self)) (cell_hash cell (ss_descriptor slot)) in
      Ret (r, match r with Ok table => fill_cell cell table slot | Err _ => slot end)
  end.

Definition is_transport (e : RepositoryError) : bool := match re_kind e with Transport _ => true | _ => false end.

(** [available_metadata]: the table, [None] when it is not available. *)
Definition available_metadata (r : result RepositoryError bytes) (unavailable : option RepositoryError)
  : result RepositoryError (option bytes * option RepositoryError) :=
  match r with
  | Ok table => Ok (Some table, unavailable)
  | Err error =>
      if is_transport error then Ok (None, Some (default error unavailable)) else Err error
  end.

Definition finish_lookup (candidates : list bytes) (unavailable : option RepositoryError) : result RepositoryError (list bytes) :=
  match candidates, unavailable with
  | [], Some error => Err error
  | _, _ => Ok candidates
  end.

(** The loop of [build_candidates] and [reuse_candidates]; a candidate is pushed
    when [seen] does not have it, that is, when it has not been pushed. *)
Definition push_new (candidates found : list bytes) : list bytes :=
  fold_left (fun acc c => if bool_decide (c ∈ acc) then acc else acc ++ [c]) found candidates.
Fixpoint candidates_loop (self : RepositorySnapshot) (cell : Cell) (key : bytes) (candidates : list bytes)
    (unavailable : option RepositoryError) (todo : list SnapshotSlot)
  : prog (result RepositoryError (list bytes) * list SnapshotSlot) :=
  match todo with
  | [] => Ret (finish_lookup candidates unavailable, [])
  | slot :: todo' =>
      do got := get_or_try_init self cell slot in
      match available_metadata got.1 unavailable with
      | Err e => Ret (Err e, got.2 :: todo')
      | Ok (None, unavailable') =>
          do rest := candidates_loop self cell key candidates unavailable' todo' in
          Ret (rest.1, got.2 :: rest.2)
      | Ok (Some index, unavailable') =>
          do rest := candidates_loop self cell key (push_new candidates (MappingIndex.candidates index key)) unavailable' todo' in
          Ret (rest.1, got.2 :: rest.2)
      end
  end.

(** The loop of [contains_object] and [contains_fs_file]. *)
Fixpoint contains_loop (self : RepositorySnapshot) (cell : Cell) (hash : bytes)
    (unavailable : option RepositoryError) (todo : list SnapshotSlot)
  : prog (result RepositoryError bool * list SnapshotSlot) :=
  match todo with
  | [] => Ret (match unavailable with Some e => Err e | None => Ok false end, [])
  | slot :: todo' =>
      do got := get_or_try_init self cell slot in
      match available_metadata got.1 unavailable with
      | Err e => Ret (Err e, got.2 :: todo')
      | Ok (found, unavailable') =>
          if (match found with Some table => ContentList.contains table hash | None => false end)
          then Ret (Ok true, got.2 :: todo')
          else
            do rest := contains_loop self cell hash unavailable' todo' in
            Ret (rest.1, got.2 :: rest.2)
      end
  end.

Definition with_cells {A : Type} (self : RepositorySnapshot) (m : prog (A * list SnapshotSlot)) : prog (A * RepositorySnapshot) :=
  do r := m in Ret (r.1, mkRepositorySnapshot (sn_reader self) (sn_master self) r.2).

Definition build_candidates (self : RepositorySnapshot) (key : bytes) :=
  with_cells self (candidates_loop self BuildCell key [] None (sn_slots self)).
Definition reuse_candidates (self : RepositorySnapshot) (key : bytes) :=
  with_cells self (candidates_loop self ReuseCell key [] None (sn_slots self)).
Definition contains_object (self : RepositorySnapshot) (hash : bytes) :=
  with_cells self (contains_loop self ObjectsCell hash None (sn_slots self)).
Definition contains_fs_file (self : RepositorySnapshot) (hash : bytes) :=
  with_cells self (contains_loop self FilesCell hash None (sn_slots self)).

(** ** Contents *)

Definition data_url_for (master : Master) (namespace hash : bytes) : result RepositoryError Url :=
  map_err (fun error => repo_error ("failed to construct repository URL: " +:+ error))
    (url_join (data_base_url master) (namespace ++ [47]%Z ++ hash)).

(** [fetch_content]: the temporary file. *)
Definition fetch_content (self : RepositoryReader) (master : Master) (namespace hash media_type : bytes) (purpose : FetchPurpose)
  : prog (result RepositoryError path) :=
  let? temporary := create_temporary self (lit "content-") in
  match data_url_for master namespace hash with
  | Err e => Ret (Err e)
  | Ok url =>
      let? result := fetch (mkFetchRequest purpose url temporary MAX_ENCODED_CONTENT_BYTES None) in
      Ret (match result with
           | Stored m => require_immutable_representation m media_type ;;; Ok temporary
           | Missing => Err (repo_error ("repository advertises unavailable content '" +:+ show (namespace ++ [47]%Z ++ hash) +:+ "'"))
           | NotModified => Err (repo_error "unexpected 304 response for uncached repository content")
           end)
  end.
End Reader.
