(* ===== verification/ReaderFacts.v ===== *)
(** * What a snapshot answers

    Whatever the transport delivers and whatever is found in the cache, the
    answers of a snapshot come from the tables of the publication that the pinned
    keys have signed: the tables are read back and compared with the digests of
    the master each time. *)

From S2P Require Import Prelude Errors Hash Master Index Text Posix Subjects Graph Store Publisher PublisherFacts Reader.

Open Scope prog_scope.

(** ** All outcomes of a program

    [outcome m reads a]: for some answers of the file system, any at all, [m] ends
    with [a], after it has read the contents [reads] of files. *)

Definition content_read (o : Op) : Resp o -> list bytes :=
  match o with
  | ORead _ => fun r => match r with Ok b => [b] | Err _ => [] end
  | _ => fun _ => []
  end.

Inductive outcome {A : Type} : prog A -> list bytes -> A -> Prop :=
| outcome_ret a : outcome (Ret a) [] a
| outcome_do o k r reads a : outcome (k r) reads a -> outcome (Do o k) (content_read o r ++ reads) a.

(** [any R m Q]: as long as the contents read satisfy [R], the results satisfy [Q]. *)
Fixpoint any {A : Type} (R : bytes -> Prop) (m : prog A) (Q : A -> Prop) : Prop :=
  match m with
  | Ret a => Q a
  | Do o k => forall r, Forall R (content_read o r) -> any R (k r) Q
  end.

Lemma any_outcome {A} R (m : prog A) Q reads a : any R m Q -> outcome m reads a -> Forall R reads -> Q a.
Proof.
  intros Hm Ho. induction Ho as [|o k r reads a _ IH]; [done|]. intros [H1 H2]%Forall_app. apply IH; [by apply Hm|done].
Qed.

Lemma outcomes_any {A} R (m : prog A) (Q : A -> Prop) : (forall reads a, outcome m reads a -> Q a) -> any R m Q.
Proof.
  induction m as [a|o k IH]; intros Hm; simpl.
  - eapply Hm. constructor.
  - intros r _. apply IH. intros reads a Ho. eapply Hm. by constructor.
Qed.

Lemma any_weaken {A} R (m : prog A) (Q P : A -> Prop) : any R m Q -> (forall a, Q a -> P a) -> any R m P.
Proof. intros Hm HQ. induction m as [a|o k IH]; simpl in *; [by apply HQ|]. intros r Hr. apply IH. by apply Hm. Qed.

Lemma any_true {A} R (m : prog A) : any R m (fun _ => True).
Proof. induction m as [a|o k IH]; simpl; [done|]. intros r _. apply IH. Qed.

Lemma any_bind {A B} R (m : prog A) (f : A -> prog B) P Q :
  any R m P -> (forall a, P a -> any R (f a) Q) -> any R (bind m f) Q.
Proof. intros Hm Hf. induction m as [a|o k IH]; simpl in *; [by apply Hf|]. intros r Hr. apply IH. by apply Hm. Qed.

(** Fallible programs: [good E P] is [P] of a success and [E] of an error. *)
Definition good {A F : Type} (E : F -> Prop) (P : A -> Prop) (r : result F A) : Prop :=
  match r with Ok a => P a | Err e => E e end.

Lemma any_try {F A B} R (m : prog (result F A)) (f : A -> prog (result F B)) E P Q :
  any R m (good E P) -> (forall a, P a -> any R (f a) (good E Q)) -> any R (try_bind m f) (good E Q).
Proof. intros Hm Hf. eapply any_bind; [exact Hm|]. intros [a|e] Ha; [by apply Hf|done]. Qed.

Section Lookups.
Context `{UrlApi} `{!UrlJoin} `{Sha256Api} `{CoseApi}.
Context (fetch : FetchRequest -> prog (result RepositoryError FetchResult)) (temp : TempFiles) (R : bytes -> Prop).

(** A transport that never fails as such; and an error that does not come of one. *)
Definition reliable : Prop := forall request reads e, outcome (fetch request) reads (Err e) -> is_transport e = false.
Definition settled (e : RepositoryError) : Prop := reliable -> is_transport e = false.

Lemma settled_kind e : is_transport e = false -> settled e.
Proof. intros He _. exact He. Qed.

Ltac settle := simpl; first [done | by apply settled_kind].

Lemma any_io {A} (m : prog (result IoError A)) : any R (io_error m) (good settled (fun _ => True)).
Proof. eapply any_bind; [apply any_true|]. intros [a|e] _; settle. Qed.

Lemma any_io_read p : any R (io_error (read p)) (good settled R).
Proof. simpl. intros [b|e]; simpl; [by intros [Hb _]%Forall_cons_1|]. intros _. settle. Qed.

Lemma any_fetch request : any R (fetch request) (good settled (fun _ => True)).
Proof. apply outcomes_any. intros reads [r|e] Ho; [done|]. intros Hr. by eapply Hr. Qed.

Lemma any_remove p : any R (remove_if_exists p) (good settled (fun _ => True)).
Proof. eapply any_bind; [apply any_true|]. intros [a|e] _; simpl; [done|]. case_bool_decide; settle. Qed.

Lemma any_persist_noclobber file p : any R (persist_noclobber temp file p) (good settled (fun _ => True)).
Proof. eapply any_bind; [apply any_true|]. intros [a|e] _; simpl; [done|]. case_bool_decide; settle. Qed.

(** ** Tables *)

(** The validation of a kind of table, and a table that is what a digest names. *)
Definition opens (from_bytes : bytes -> result RepositoryError bytes)
    (open : bytes -> result string u64 -> result string bytes -> bytes -> result RepositoryError bytes) : Prop :=
  (forall name length content hash t, open name length content hash = Ok t ->
     content = Ok t /\ sha256 t = hash /\ from_bytes t = Ok t) /\
  (forall name length content hash e, open name length content hash = Err e -> is_transport e = false).

Definition genuine (from_bytes : bytes -> result RepositoryError bytes) (hash t : bytes) : Prop :=
  R t /\ sha256 t = hash /\ from_bytes t = Ok t.

Lemma from_bytes_mapping_err b e : MappingIndex.from_bytes b = Err e -> is_transport e = false.
Proof.
  unfold MappingIndex.from_bytes, check_metadata_size. destruct (_ <? _)%Z; [by intros [= <-]|]. simpl.
  destruct (negb _); [by intros [= <-]|]. destruct (try_fold _ _ _) as [a|e'] eqn:E; [done|]. intros [= <-]. revert E.
  generalize (@None bytes, ∅ : gset bytes). induction (chunks_exact 64 b) as [|r l IH]; intros acc; simpl; [done|].
  destruct (MappingIndex.check_record acc r) as [acc'|e1] eqn:E; [apply IH|]. intros [= <-]. revert E.
  unfold MappingIndex.check_record. destruct acc as [[p|] seen].
  - destruct (lex_ltb _ _); [by intros [= <-]|]. destruct (negb _); simpl; case_bool_decide; done || by intros [= <-].
  - simpl. case_bool_decide; done || by intros [= <-].
Qed.

Lemma from_bytes_content_err b e : ContentList.from_bytes b = Err e -> is_transport e = false.
Proof.
  unfold ContentList.from_bytes, check_metadata_size. destruct (_ <? _)%Z; [by intros [= <-]|]. simpl.
  destruct (negb _); [by intros [= <-]|]. destruct (try_fold _ _ _) as [a|e'] eqn:E; [done|]. intros [= <-]. revert E.
  generalize (@None bytes). induction (chunks_exact 32 b) as [|r l IH]; intros acc; simpl; [done|].
  destruct (ContentList.check_hash acc r) as [acc'|e1] eqn:E; [apply IH|]. intros [= <-]. revert E.
  unfold ContentList.check_hash. destruct acc as [p|]; [|done]. destruct (lex_leb _ _); [by intros [= <-]|done].
Qed.

Lemma opens_mapping : opens MappingIndex.from_bytes MappingIndex.open.
Proof.
  split; intros name length content hash.
  - intros t E. unfold MappingIndex.open in E. inv_res. bools.
    match goal with E : MappingIndex.from_bytes ?b = Ok ?t |- _ => pose proof (MappingFacts.mapping_from_bytes_id _ _ E); subst end.
    done.
  - intros e. unfold MappingIndex.open, check_metadata_size_before_read.
    destruct length as [n|]; simpl; [|by intros [= <-]]. destruct (_ <? _)%Z; [by intros [= <-]|].
    destruct content as [b|]; simpl; [|by intros [= <-]]. destruct (negb _); [by intros [= <-]|]. apply from_bytes_mapping_err.
Qed.

Lemma content_from_bytes_id b b' : ContentList.from_bytes b = Ok b' -> b' = b.
Proof. unfold ContentList.from_bytes. intros E. inv_res. done. Qed.

Lemma opens_content : opens ContentList.from_bytes ContentList.open.
Proof.
  split; intros name length content hash.
  - intros t E. unfold ContentList.open in E. inv_res. bools.
    match goal with E : ContentList.from_bytes ?b = Ok ?t |- _ => pose proof (content_from_bytes_id _ _ E); subst end.
    done.
  - intros e. unfold ContentList.open, check_metadata_size_before_read.
    destruct length as [n|]; simpl; [|by intros [= <-]]. destruct (_ <? _)%Z; [by intros [= <-]|].
    destruct content as [b|]; simpl; [|by intros [= <-]]. destruct (negb _); [by intros [= <-]|]. apply from_bytes_content_err.
Qed.

Lemma any_open_table from_bytes open p hash : opens from_bytes open ->
  any R (open_table open p hash) (good settled (genuine from_bytes hash)).
Proof.
  intros [Hok Herr]. unfold open_table. eapply any_bind; [apply any_true|]. intros length _.
  destruct (check_metadata_size_before_read length) as [u|e] eqn:E.
  - simpl. intros r Hr. destruct (open _ _ _ _) as [t|e] eqn:Eo.
    + destruct (Hok _ _ _ _ _ Eo) as (Ec & Hh & Hf). split; [|done]. destruct r as [b|]; [|done].
      injection Ec as ->. by apply Forall_cons_1 in Hr as [Hr _].
    + apply settled_kind. by eapply Herr.
  - apply settled_kind. unfold check_metadata_size_before_read in E. destruct length as [n|]; simpl in E; [|by injection E as <-].
    destruct (_ <? _)%Z; [by injection E as <-|done].
Qed.

Lemma any_fetch_metadata self base namespace hash purpose validate :
  (forall p, any R (validate p) (good settled (fun _ => True))) ->
  any R (fetch_metadata fetch temp self base namespace hash purpose validate) (good settled (fun _ => True)).
Proof.
  intros Hv. unfold fetch_metadata. eapply any_bind; [apply any_true|]. intros present _.
  eapply any_bind; [apply any_true|]. intros [] _; [done|].
  eapply any_try; [apply any_remove|]. intros _ _. eapply any_try; [destruct (parent_path _); [apply any_io|done]|].
  intros _ _. eapply any_try; [apply any_io|]. intros temporary _.
  destruct (url_join _ _) as [url|e]; [|settle]. eapply any_try; [apply any_fetch|]. intros [m| |] _; [|settle|settle].
  destruct (require_immutable_representation m _) as [u|e] eqn:E.
  - eapply any_try; [apply any_persist_noclobber|]. intros _ _. eapply any_try; [apply Hv|]. by intros _ _.
  - apply settled_kind. unfold require_immutable_representation, guard in E.
    repeat match type of E with context [if ?b then _ else _] => destruct b; simpl in E end; by simplify_eq.
Qed.

Lemma any_fetch_table from_bytes open namespace purpose self base hash : opens from_bytes open ->
  any R (fetch_table fetch temp open namespace purpose self base hash) (good settled (genuine from_bytes hash)).
Proof.
  intros Ho. eapply any_try; [|intros p _; by apply any_open_table].
  apply any_fetch_metadata. intros p. eapply any_bind; [by apply any_open_table|].
  by intros [t|e] Ht.
Qed.

(** ** Cells *)

Definition cell_from_bytes (cell : Cell) : bytes -> result RepositoryError bytes :=
  match cell with BuildCell | ReuseCell => MappingIndex.from_bytes | _ => ContentList.from_bytes end.

Lemma any_cell_fetch cell self base hash :
  any R (cell_fetch fetch temp cell self base hash) (good settled (genuine (cell_from_bytes cell) hash)).
Proof. destruct cell; apply any_fetch_table; first [apply opens_mapping|apply opens_content]. Qed.

(** What is in the cells of a slot is genuine. *)
Definition slot_genuine (slot : SnapshotSlot) : Prop :=
  forall cell t, cell_value cell slot = Some t -> genuine (cell_from_bytes cell) (cell_hash cell (ss_descriptor slot)) t.

Lemma fill_descriptor cell t slot : ss_descriptor (fill_cell cell t slot) = ss_descriptor slot.
Proof. destruct slot, cell; done. Qed.

Lemma fill_genuine cell t slot : slot_genuine slot ->
  genuine (cell_from_bytes cell) (cell_hash cell (ss_descriptor slot)) t -> slot_genuine (fill_cell cell t slot).
Proof.
  intros Hs Ht cell' t'. rewrite fill_descriptor. destruct slot as [d b r o f]. specialize (Hs cell' t').
  destruct cell, cell'; simpl in *; try exact Hs; by intros [= <-].
Qed.

Lemma any_get_or_try_init self cell slot : slot_genuine slot ->
  any R (get_or_try_init fetch temp self cell slot) (fun got =>
    slot_genuine got.2 /\ ss_descriptor got.2 = ss_descriptor slot /\
    good settled (genuine (cell_from_bytes cell) (cell_hash cell (ss_descriptor slot))) got.1).
Proof.
  intros Hs. unfold get_or_try_init. destruct (cell_value cell slot) as [t|] eqn:E.
  - split_and!; [done|done|]. by apply Hs.
  - eapply any_bind; [apply any_cell_fetch|]. intros [t|e] Ht.
    + split_and!; [by apply fill_genuine|apply fill_descriptor|done].
    + done.
Qed.

(** ** Loops *)

Lemma push_new_nub prev found : push_new (nub prev) found = nub (prev ++ found).
Proof.
  revert prev. induction found as [|c found IH]; intros prev; simpl; [by rewrite app_nil_r|].
  replace (prev ++ c :: found) with ((prev ++ [c]) ++ found) by (by rewrite <- app_assoc).
  rewrite <- IH. f_equal. rewrite distinct_app. simpl. rewrite app_nil_r.
  assert (c ∈ nub prev <-> c ∈ prev) as Hc by (rewrite elem_of_distinct; set_solver).
  rewrite (bool_decide_ext _ _ Hc). case_bool_decide; [by rewrite app_nil_r|done].
Qed.

(** The tables of a cell mean [offer] of the slots they stand for. *)
Definition stands_for {A : Type} (value : bytes -> A) (cell : Cell) (offer : PublicationSlot -> A)
    (slot : SnapshotSlot) (s : PublicationSlot) : Prop :=
  forall t, genuine (cell_from_bytes cell) (cell_hash cell (ss_descriptor slot)) t -> value t = offer s.

Lemma stands_same {A} (value : bytes -> A) cell offer slot slot' s :
  ss_descriptor slot' = ss_descriptor slot -> stands_for value cell offer slot s -> stands_for value cell offer slot' s.
Proof. unfold stands_for. by intros ->. Qed.

Lemma any_candidates_loop self cell key offer prev unavailable todo ss :
  Forall2 (stands_for (fun t => MappingIndex.candidates t key) cell offer) todo ss -> Forall slot_genuine todo ->
  any R (candidates_loop fetch temp self cell key (nub prev) unavailable todo) (fun res =>
    Forall slot_genuine res.2 /\ map ss_descriptor res.2 = map ss_descriptor todo /\
    forall cs, res.1 = Ok cs -> exists avail, avail `sublist_of` ss /\ cs = nub (prev ++ concat (map offer avail)) /\
      (cs = [] -> avail = ss /\ unavailable = None) /\ (reliable -> unavailable = None -> avail = ss)).
Proof.
  intros Hall. revert prev unavailable. induction Hall as [|slot s todo ss Hs Hall IH]; intros prev unavailable Hg; simpl.
  { split_and!; [done|done|]. intros cs Hc. exists []. split_and!; [done| |..].
    - rewrite app_nil_r. unfold finish_lookup in Hc. destruct (nub prev), unavailable; by simplify_eq.
    - intros ->. split; [done|]. unfold finish_lookup in Hc. destruct (nub prev), unavailable; by simplify_eq.
    - done. }
  apply Forall_cons in Hg as [Hg1 Hg]. eapply any_bind; [by apply any_get_or_try_init|].
  intros [[t|e] slot'] (G1 & G2 & G3); simpl in *.
  - rewrite (Hs t G3), push_new_nub. eapply any_bind; [by apply IH|]. intros [r rest] (I1 & I2 & I3). simpl in *.
    split_and!; [by constructor|by rewrite G2, I2|]. intros cs Hc. destruct (I3 cs Hc) as (avail & Ha & -> & Hn & Hr).
    exists (s :: avail). split_and!; [by constructor|simpl; by rewrite app_assoc|..].
    + intros E. destruct (Hn E) as [-> ->]. done.
    + intros Hrel Hu. by rewrite Hr.
  - destruct (is_transport e) eqn:Et; simpl; [|by split_and!; [constructor|simpl; rewrite G2|]].
    eapply any_bind; [by apply IH|]. intros [r rest] (I1 & I2 & I3). simpl in *.
    split_and!; [by constructor|by rewrite G2, I2|]. intros cs Hc. destruct (I3 cs Hc) as (avail & Ha & -> & Hn & Hr).
    exists avail. split_and!; [by constructor|done|..].
    + intros E. by destruct (Hn E).
    + intros Hrel. specialize (G3 Hrel). congruence.
Qed.

Lemma any_contains_loop self cell hash offer unavailable todo ss :
  Forall2 (stands_for (fun t => ContentList.contains t hash) cell offer) todo ss -> Forall slot_genuine todo ->
  any R (contains_loop fetch temp self cell hash unavailable todo) (fun res =>
    Forall slot_genuine res.2 /\ map ss_descriptor res.2 = map ss_descriptor todo /\
    (res.1 = Ok true -> existsb offer ss = true) /\ (res.1 = Ok false -> existsb offer ss = false /\ unavailable = None)).
Proof.
  intros Hall. revert unavailable. induction Hall as [|slot s todo ss Hs Hall IH]; intros unavailable Hg; simpl.
  { by split_and!; destruct unavailable. }
  apply Forall_cons in Hg as [Hg1 Hg]. eapply any_bind; [by apply any_get_or_try_init|].
  intros [[t|e] slot'] (G1 & G2 & G3); simpl in *.
  - rewrite <- (Hs t G3). destruct (ContentList.contains t hash); simpl; [by split_and!; [constructor|rewrite G2|..]|].
    eapply any_bind; [by apply IH|]. intros [r rest] (I1 & I2 & I3 & I4). simpl in *.
    by split_and!; [constructor|rewrite G2, I2|..].
  - destruct (is_transport e); simpl; [|by split_and!; [constructor|rewrite G2|..]].
    eapply any_bind; [by apply IH|]. intros [r rest] (I1 & I2 & I3 & I4). simpl in *.
    split_and!; [by constructor|by rewrite G2, I2| |].
    + intros E. rewrite (I3 E). apply orb_true_r.
    + intros E. by destruct (I4 E).
Qed.
End Lookups.

(** ** The meaning of the tables of a publication *)

Lemma filter_flatten (k : bytes) (l : list (bytes * list bytes)) : NoDup (map fst l) ->
  map snd (filter (fun r => r.1 = k) (flat_map (fun e => map (pair e.1) e.2) l)) = default [] (assoc k l).
Proof.
  induction l as [|[x cs] l IH]; intros Hd; simpl; [done|]. apply NoDup_cons in Hd as [Hx Hd].
  rewrite filter_app, map_app, IH by done. unfold bytes_eqb. case_bool_decide as E.
  - subst x. rewrite (proj2 (assoc_none k l)) by done. simpl. rewrite app_nil_r.
    induction cs as [|c cs IHc]; simpl; [done|]. rewrite filter_cons_True by done. simpl. by rewrite IHc.
  - rewrite filter_none; [done|]. rewrite Forall_map, Forall_forall. done.
Qed.

Lemma candidates_of_table s m b key : wf_mapping s m -> MappingIndex.encode (flatten_candidates m) = Ok b ->
  MappingIndex.candidates b key = default [] (m !! key).
Proof.
  intros Hm E. destruct (encoded_records _ _ _ Hm E) as [Hf _].
  rewrite MappingFacts.mapping_candidates_scan by done.
  apply MappingFacts.mapping_encode_roundtrip in E as (_ & -> & _); [|by eapply flatten_wide].
  unfold flatten_candidates. rewrite filter_flatten by apply btree_list_keys. by rewrite assoc_btree.
Qed.

Lemma contains_of_table s h : (forall h, h ∈ s -> wf_hash h) -> (32 * Z.of_nat (size s) <= MAX_METADATA_BYTES)%Z ->
  ContentList.contains (ContentList.encode (btree_elements s)) h = bool_decide (h ∈ s).
Proof.
  intros Hs Hz. destruct (listed_set s Hs Hz) as [Hf Hl]. apply eq_true_iff_eq.
  rewrite ContentFacts.content_contains_mem, bool_decide_eq_true by done.
  rewrite <- Hl at 2. by rewrite elem_of_list_to_set.
Qed.

Lemma Forall2_revs {A B} (P : A -> B -> Prop) l k : Forall2 P l k -> Forall2 P (rev l) (rev k).
Proof. induction 1; simpl; [constructor|]. apply Forall2_app; [done|]. by constructor. Qed.

Section Faithful.
Context `{UrlApi} `{!UrlJoin} `{Sha256Api} `{CoseApi}.
Context (fetch : FetchRequest -> prog (result RepositoryError FetchResult)) (temp : TempFiles).

(** ** Questions *)

Inductive Question := AskBuild (key : bytes) | AskReuse (key : bytes) | AskObject (hash : bytes) | AskFile (hash : bytes).
Inductive Reply := Candidates (r : result RepositoryError (list bytes)) | Member (r : result RepositoryError bool).

Definition ask (snap : RepositorySnapshot) (q : Question) : prog (Reply * RepositorySnapshot) :=
  match q with
  | AskBuild key => do r := build_candidates fetch temp snap key in Ret (Candidates r.1, r.2)
  | AskReuse key => do r := reuse_candidates fetch temp snap key in Ret (Candidates r.1, r.2)
  | AskObject hash => do r := contains_object fetch temp snap hash in Ret (Member r.1, r.2)
  | AskFile hash => do r := contains_fs_file fetch temp snap hash in Ret (Member r.1, r.2)
  end.
Fixpoint ask_all (snap : RepositorySnapshot) (qs : list Question) : prog (list (Question * Reply)) :=
  match qs with
  | [] => Ret []
  | q :: qs' =>
      do r := ask snap q in
      do rest := ask_all r.2 qs' in
      Ret ((q, r.1) :: rest)
  end.
(** A client: a snapshot, then questions. *)
Definition consult (self : RepositoryReader) (qs : list Question) : prog (result RepositoryError (list (Question * Reply))) :=
  let? snap := snapshot fetch temp self in
  do replies := ask_all snap qs in
  Ret (Ok replies).

(** ** Answers *)

(** The candidates of [sel]: those of some of the current slots, newest first; none
    only if there are none; and all if the transport is reliable. *)
Definition candidates_faithful (sel : SlotContents -> gmap bytes (list bytes)) (ss : list PublicationSlot) (key : bytes)
    (cs : list bytes) : Prop :=
  (exists avail, avail `sublist_of` rev (currents ss) /\ cs = nub (concat (map (offered sel key) avail))) /\
  (cs = [] -> visible sel ss key = []) /\ (reliable fetch -> cs = visible sel ss key).

Definition reply_faithful (ss : list PublicationSlot) (e : Question * Reply) : Prop :=
  match e with
  | (AskBuild key, Candidates (Ok cs)) => candidates_faithful sc_builds ss key cs
  | (AskReuse key, Candidates (Ok cs)) => candidates_faithful sc_reuses ss key cs
  | (AskObject hash, Member (Ok b)) => b = bool_decide (hash ∈ advertised sc_objects ss)
  | (AskFile hash, Member (Ok b)) => b = bool_decide (hash ∈ advertised sc_files ss)
  | (AskBuild _, Candidates (Err _)) | (AskReuse _, Candidates (Err _))
  | (AskObject _, Member (Err _)) | (AskFile _, Member (Err _)) => True
  | _ => False
  end.

(** ** Proofs *)

Context (R : bytes -> Prop) (st : PublicationState) (md : PublicationMetadata).
Context (Hwf : wf_slots (st_slots st)) (Hlim : Forall (fun s => within_limits (ps_contents s)) (st_slots st))
  (Hmd : metadata st = Ok md) (Hcf : collision_free (fun x => table_of (st_slots st) x \/ R x)).

Definition stands (slot : SnapshotSlot) (s : PublicationSlot) : Prop :=
  s ∈ st_slots st /\
  described (md_builds md) (md_reuses md) (md_object_lists md) (md_file_lists md) s (ss_descriptor slot).

Lemma genuine_table s b r o f t x from_bytes hash : s ∈ st_slots st -> slot_tables (ps_contents s) = Ok (b, r, o, f) ->
  x ∈ [b; r; o; f] -> hash = sha256 x -> genuine R from_bytes hash t -> t = x.
Proof.
  intros Hs Ht Hx -> (Hr & Hh & _). apply Hcf; [by right| |done]. left. by exists s, b, r, o, f.
Qed.

Lemma stands_all slot s : stands slot s ->
  (forall key, stands_for R (fun t => MappingIndex.candidates t key) BuildCell (offered sc_builds key) slot s) /\
  (forall key, stands_for R (fun t => MappingIndex.candidates t key) ReuseCell (offered sc_reuses key) slot s) /\
  (forall hash, stands_for R (fun t => ContentList.contains t hash) ObjectsCell
     (fun s => bool_decide (hash ∈ sc_objects (ps_contents s))) slot s) /\
  (forall hash, stands_for R (fun t => ContentList.contains t hash) FilesCell
     (fun s => bool_decide (hash ∈ sc_files (ps_contents s))) slot s).
Proof.
  intros (Hs & b & r & o & f & Ht & Hd & _). unfold stands_for. rewrite Hd. cbn [cell_hash build reuse object_list file_list].
  pose proof Hwf as W. unfold wf_slots in W. rewrite Forall_forall in W. specialize (W s Hs).
  pose proof Hlim as L. rewrite Forall_forall in L. destruct (L s Hs) as [Lo Lf].
  pose proof Ht as Ht'. unfold slot_tables in Ht'. inv_res.
  split_and!; intros k t Hg.
  - rewrite (genuine_table _ _ _ _ _ t b _ _ Hs Ht ltac:(set_solver) eq_refl Hg). eapply candidates_of_table; [apply W|done].
  - rewrite (genuine_table _ _ _ _ _ t r _ _ Hs Ht ltac:(set_solver) eq_refl Hg). eapply candidates_of_table; [apply W|done].
  - erewrite (genuine_table _ _ _ _ _ t _ _ _ Hs Ht _ eq_refl Hg). apply contains_of_table; [apply W|done].
  - erewrite (genuine_table _ _ _ _ _ t _ _ _ Hs Ht _ eq_refl Hg). apply contains_of_table; [apply W|done].
  Unshelve. all: set_solver.
Qed.

Definition snap_ok (snap : RepositorySnapshot) : Prop :=
  Forall2 stands (sn_slots snap) (rev (currents (st_slots st))) /\ Forall (slot_genuine R) (sn_slots snap).

Lemma stands_filled todo todo' ss : map ss_descriptor todo' = map ss_descriptor todo -> Forall2 stands todo ss -> Forall2 stands todo' ss.
Proof.
  intros E Hall. revert todo' E. induction Hall as [|slot s todo ss Hs _ IH]; intros [|slot' todo']; simpl; try done.
  intros [= E1 E2]. constructor; [|by apply IH]. unfold stands. by rewrite E1.
Qed.

Lemma existsb_advertised sel hash ss :
  existsb (fun s => bool_decide (hash ∈ sel (ps_contents s))) (rev (currents ss)) = bool_decide (hash ∈ advertised sel ss).
Proof.
  apply eq_true_iff_eq. rewrite existsb_exists, bool_decide_eq_true. unfold advertised. rewrite elem_of_union_list. split.
  - intros (s & Hs & Hh). rewrite bool_decide_eq_true in Hh. exists (sel (ps_contents s)). split; [|done].
    apply list_elem_of_fmap. exists s. split; [done|]. by apply list_elem_of_In, in_rev.
  - intros (X & (s & -> & Hs)%list_elem_of_fmap & Hh). exists s. rewrite bool_decide_eq_true, <- in_rev. by rewrite <- list_elem_of_In.
Qed.

Lemma any_candidates snap cell sel key : snap_ok snap ->
  (forall slot s, stands slot s -> stands_for R (fun t => MappingIndex.candidates t key) cell (offered sel key) slot s) ->
  any R (with_cells snap (candidates_loop fetch temp snap cell key [] None (sn_slots snap))) (fun r =>
    snap_ok r.2 /\ forall cs, r.1 = Ok cs -> candidates_faithful sel (st_slots st) key cs).
Proof.
  intros [Hs Hg] Hcell. eapply any_bind.
  { apply (any_candidates_loop fetch temp R snap cell key (offered sel key) [] None).
    - eapply Forall2_impl; [exact Hs|]. exact Hcell.
    - done. }
  intros [r rest] (G & Hd & Hr). simpl in *. split; [split; [by eapply stands_filled|done]|].
  intros cs Hc. destruct (Hr cs Hc) as (avail & Ha & -> & Hn & Hrel). split_and!.
  - by exists avail.
  - intros E. destruct (Hn E) as [-> _]. exact E.
  - intros Hre. by rewrite (Hrel Hre eq_refl).
Qed.

Lemma any_member snap cell sel hash : snap_ok snap ->
  (forall slot s, stands slot s -> stands_for R (fun t => ContentList.contains t hash) cell
     (fun s => bool_decide (hash ∈ sel (ps_contents s))) slot s) ->
  any R (with_cells snap (contains_loop fetch temp snap cell hash None (sn_slots snap))) (fun r =>
    snap_ok r.2 /\ forall b, r.1 = Ok b -> b = bool_decide (hash ∈ advertised sel (st_slots st))).
Proof.
  intros [Hs Hg] Hcell. eapply any_bind.
  { apply (any_contains_loop fetch temp R snap cell hash (fun s => bool_decide (hash ∈ sel (ps_contents s))) None).
    - eapply Forall2_impl; [exact Hs|]. exact Hcell.
    - done. }
  intros [r rest] (G & Hd & Ht & Hf). simpl in *. split; [split; [by eapply stands_filled|done]|].
  rewrite existsb_advertised in Ht, Hf. intros [] ->; [by rewrite Ht|by destruct (Hf eq_refl) as [-> _]].
Qed.

Lemma any_ask snap q : snap_ok snap ->
  any R (ask snap q) (fun r => snap_ok r.2 /\ reply_faithful (st_slots st) (q, r.1)).
Proof.
  intros Hs. destruct q as [key|key|hash|hash]; cbn [ask].
  - eapply any_bind; [apply (any_candidates snap BuildCell sc_builds key Hs); intros slot s Hst; apply (stands_all _ _ Hst)|].
    intros [[v|e] snap'] [Hok Hr]; simpl; [split; [done|by apply Hr]|done].
  - eapply any_bind; [apply (any_candidates snap ReuseCell sc_reuses key Hs); intros slot s Hst; apply (stands_all _ _ Hst)|].
    intros [[v|e] snap'] [Hok Hr]; simpl; [split; [done|by apply Hr]|done].
  - eapply any_bind; [apply (any_member snap ObjectsCell sc_objects hash Hs); intros slot s Hst; apply (stands_all _ _ Hst)|].
    intros [[v|e] snap'] [Hok Hr]; simpl; [split; [done|by apply Hr]|done].
  - eapply any_bind; [apply (any_member snap FilesCell sc_files hash Hs); intros slot s Hst; apply (stands_all _ _ Hst)|].
    intros [[v|e] snap'] [Hok Hr]; simpl; [split; [done|by apply Hr]|done].
Qed.

Lemma any_ask_all snap qs : snap_ok snap -> any R (ask_all snap qs) (Forall (reply_faithful (st_slots st))).
Proof.
  revert snap. induction qs as [|q qs IH]; intros snap Hs; simpl; [constructor|].
  eapply any_bind; [by apply any_ask|]. intros [r snap'] [Hok Hr]. eapply any_bind; [by apply IH|].
  intros rest Hrest. by constructor.
Qed.

Lemma any_fetch_master self :
  any R (fetch_master fetch temp self) (good (fun _ => True) (fun vm => exists b, R b /\ trusted_verify (rr_keys self) b = Ok vm)).
Proof.
  unfold fetch_master. eapply any_bind; [apply any_true|]. intros etag _.
  eapply any_bind; [apply any_true|]. intros [temporary|e] _; [|done].
  eapply any_bind; [apply any_true|]. intros [result|e] _; [|done].
  eapply (any_try _ _ _ _ R).
  - destruct result as [m| |]; [|..|done].
    + destruct (require_master_representation m); [|done].
      eapply any_bind; [apply (any_io_read fetch R)|]. intros [b|e] Hb; [|done].
      destruct (trusted_verify _ b); [|done]. eapply any_bind; [apply any_true|]. intros [[]|e] _; [|done].
      destruct (rm_etag m); (eapply any_bind; [apply any_true|]); by intros [[]|e] _.
    + eapply any_bind; [|intros [b|e] Hb; [exact Hb|done]]. unfold read_cached_master.
      eapply any_bind; [apply any_true|]. intros [n|e] _; [|done]. destruct (_ <? _)%Z; [done|].
      eapply any_weaken; [apply (any_io_read fetch R)|]. intros [b|e]; [done|done].
  - intros b Hb. destruct (trusted_verify (rr_keys self) b) eqn:E; [|done]. by exists b.
Qed.

Lemma current_descriptors ss ds : Forall2 (described (md_builds md) (md_reuses md) (md_object_lists md) (md_file_lists md)) ss ds ->
  Forall (fun s => s ∈ st_slots st) ss ->
  Forall2 stands (map (fun d => mkSnapshotSlot d None None None None) (List.filter (fun d => bool_decide (retain_until d = None)) ds))
    (currents ss).
Proof.
  induction 1 as [|s d ss ds Hd _ IH]; intros Hin; simpl; [constructor|]. apply Forall_cons in Hin as [Hs Hin].
  assert (bool_decide (retain_until d = None) = is_current_slot s) as ->.
  { by destruct Hd as (b & r & o & f & _ & -> & _). }
  destruct (is_current_slot s); [|by apply IH]. simpl. constructor; [by split|by apply IH].
Qed.

Lemma collision_free_tables : collision_free (table_of (st_slots st)).
Proof. intros x y Hx Hy. apply Hcf; by left. Qed.

Lemma snapshot_slots self : snap_ok (mkRepositorySnapshot self (md_master md)
  (map (fun d => mkSnapshotSlot d None None None None) (current_slots_newest_first (md_master md)))).
Proof.
  destruct (metadata_described _ _ collision_free_tables Hmd) as [_ Hd]. split; simpl.
  - unfold current_slots_newest_first, currents. rewrite <- List.filter_rev. apply current_descriptors.
    + by apply Forall2_revs.
    + apply Forall_rev, Forall_forall. done.
  - rewrite Forall_map, Forall_forall. by intros d _ [] t.
Qed.
End Faithful.

Section Sees.
Context `{UrlApi} `{!UrlJoin} `{Sha256Api} `{CoseApi}.
Context (fetch : FetchRequest -> prog (result RepositoryError FetchResult)) (temp : TempFiles).

(** C12. Clients see what was published.  Let a state be published, and let the
    pinned keys verify no other master among the files a client reads.  Whatever
    the transport delivers, whatever the file system answers and the cache holds,
    as long as SHA-256 has no collision among the tables and those files: every
    list of candidates a snapshot answers is that of some of the current slots,
    newest first and without repetitions, it is empty only if no current slot has
    a candidate, and it is that of all current slots if the transport is reliable;
    and every answer about an object or a file tells whether a current slot
    advertises it. *)
Theorem snapshot_sees_publication st md self questions reads replies :
  wf_slots (st_slots st) -> Forall (fun s => within_limits (ps_contents s)) (st_slots st) -> metadata st = Ok md ->
  collision_free (fun x => table_of (st_slots st) x \/ x ∈ reads) ->
  (forall b vm, b ∈ reads -> trusted_verify (rr_keys self) b = Ok vm -> vm_master vm = md_master md) ->
  outcome (consult fetch temp self questions) reads (Ok replies) ->
  Forall (reply_faithful fetch (st_slots st)) replies.
Proof.
  intros Hwf Hlim Hmd Hcf Hkeys Ho.
  assert (any (fun b => b ∈ reads) (consult fetch temp self questions)
    (good (fun _ => True) (Forall (reply_faithful fetch (st_slots st))))) as Hany.
  { unfold consult. eapply (any_try _ _ _ _ (snap_ok (fun b => b ∈ reads) st md)).
    - unfold snapshot. eapply any_try; [apply any_fetch_master|]. intros vm (b & Hb & Hv).
      rewrite (Hkeys b vm Hb Hv). exact (snapshot_slots _ st md Hmd Hcf self).
    - intros snap Hs. eapply any_bind; [by eapply any_ask_all|]. done. }
  apply (any_outcome _ _ _ _ _ Hany Ho). by apply Forall_forall.
Qed.

(** ** Continuing a publication *)

(** Maps of tables that were read under their digests, with those of some slots. *)
Definition tables_read (R : bytes -> Prop) (acc : gmap bytes bytes * gmap bytes bytes * gmap bytes bytes * gmap bytes bytes) : Prop :=
  let '(b, r, o, f) := acc in tabled R b /\ tabled R r /\ tabled R o /\ tabled R f.
Definition has_slot (acc : gmap bytes bytes * gmap bytes bytes * gmap bytes bytes * gmap bytes bytes) (d : Slot) : Prop :=
  let '(b, r, o, f) := acc in
  is_Some (b !! build d) /\ is_Some (r !! reuse d) /\ is_Some (o !! object_list d) /\ is_Some (f !! file_list d).

Lemma tabled_insert R m k t : tabled R m -> R t -> sha256 t = k -> tabled R (<[k := t]> m).
Proof.
  intros Hm Ht Hk k' v. destruct (decide (k = k')) as [<-|Hn].
  - rewrite lookup_insert_eq. by intros [= <-].
  - rewrite lookup_insert_ne by done. apply Hm.
Qed.

Lemma insert_has (m : gmap bytes bytes) k t k' : is_Some (m !! k') -> is_Some (<[k := t]> m !! k').
Proof. intros Hm. rewrite lookup_insert_is_Some'. by right. Qed.

Lemma any_collect_slot R self base acc d : tables_read R acc ->
  any R (collect_slot fetch temp self base acc d) (good (fun _ => True) (fun acc' =>
    tables_read R acc' /\ has_slot acc' d /\ forall d', has_slot acc d' -> has_slot acc' d')).
Proof.
  destruct acc as [[[b r] o] f]. intros (Hb & Hr & Ho & Hf). unfold collect_slot.
  eapply any_bind; [apply (any_cell_fetch fetch temp R BuildCell)|]. intros [tb|e] Gb; [|done].
  eapply any_bind; [apply (any_cell_fetch fetch temp R ReuseCell)|]. intros [tr|e] Gr; [|done].
  eapply any_bind; [apply (any_cell_fetch fetch temp R ObjectsCell)|]. intros [to|e] Go; [|done].
  eapply any_bind; [apply (any_cell_fetch fetch temp R FilesCell)|]. intros [tf|e] Gf; [|done].
  destruct Gb as (Rb & Sb & _), Gr as (Rr & Sr & _), Go as (Ro & So & _), Gf as (Rf & Sf & _). simpl. split_and!.
  - by apply tabled_insert.
  - by apply tabled_insert.
  - by apply tabled_insert.
  - by apply tabled_insert.
  - by rewrite lookup_insert_eq.
  - by rewrite lookup_insert_eq.
  - by rewrite lookup_insert_eq.
  - by rewrite lookup_insert_eq.
  - intros d' (H1' & H2' & H3' & H4'). split_and!; by apply insert_has.
Qed.

Lemma any_collect_slots R self base acc l : tables_read R acc ->
  any R (collect_slots fetch temp self base acc l) (good (fun _ => True) (fun acc' =>
    tables_read R acc' /\ Forall (has_slot acc') l /\ forall d', has_slot acc d' -> has_slot acc' d')).
Proof.
  revert acc. induction l as [|d l IH]; intros acc Hacc; cbn [collect_slots]; [by split_and!|].
  eapply any_bind; [by apply any_collect_slot|]. intros [acc1|e] G; [|done]. destruct G as (G1 & G2 & G3).
  eapply any_weaken; [by apply IH|]. intros [acc2|e] G; [|done]. destruct G as (I1 & I2 & I3).
  split_and!; [done| |by auto]. constructor; [by apply I3|done].
Qed.

Lemma tabled_lookup R slots m k t : collision_free (fun x => table_of slots x \/ R x) -> table_of slots t -> k = sha256 t ->
  tabled R m -> is_Some (m !! k) -> m !! sha256 t = Some t.
Proof.
  intros Hcf Ht -> Hm [v Hv]. rewrite Hv. f_equal. destruct (Hm _ _ Hv) as [Hk Hr]. apply Hcf; [by right|by left|done].
Qed.

Lemma described_read R slots acc s d b r o f :
  collision_free (fun x => table_of slots x \/ R x) -> tables_read R acc -> has_slot acc d -> s ∈ slots ->
  slot_tables (ps_contents s) = Ok (b, r, o, f) ->
  d = mkSlot (ps_serial s) (sha256 b) (sha256 r) (sha256 o) (sha256 f) (ps_retain_until s) ->
  described acc.1.1.1 acc.1.1.2 acc.1.2 acc.2 s d.
Proof.
  destruct acc as [[[mb mr] mo] mf]. intros Hcf (Hb & Hr & Ho & Hf) (Ib & Ir & Io & If) Hs Ht ->.
  assert (forall t, t ∈ [b; r; o; f] -> table_of slots t) as HT by (intros t Hin; by exists s, b, r, o, f).
  exists b, r, o, f. simpl in *. split_and!; [done|done|..];
    (eapply tabled_lookup; [exact Hcf|apply HT; rewrite !elem_of_cons; tauto|reflexivity|eassumption|eassumption]).
Qed.

(** What [publication_metadata] gathers of a publication. *)
Definition restored_by (st : PublicationState) (md : PublicationMetadata) (cp : CurrentPublication) : Prop :=
  md_master (cp_metadata cp) = md_master md /\
  Forall2 (described (md_builds (cp_metadata cp)) (md_reuses (cp_metadata cp)) (md_object_lists (cp_metadata cp))
    (md_file_lists (cp_metadata cp))) (st_slots st) (slots (md_master md)).

Lemma signed_hash keys b vm : trusted_verify keys b = Ok vm -> vm_signed_hash vm = sha256 b.
Proof. unfold trusted_verify. intros E. inv_res. done. Qed.

Lemma any_publication_metadata R st md self : metadata st = Ok md ->
  collision_free (fun x => table_of (st_slots st) x \/ R x) ->
  (forall b vm, R b -> trusted_verify (rr_keys self) b = Ok vm -> vm_master vm = md_master md) ->
  any R (publication_metadata fetch temp self) (good (fun _ => True) (fun cp => restored_by st md cp /\
    exists signed, R signed /\ is_ok (trusted_verify (rr_keys self) signed) = true /\ cp_master_hash cp = sha256 signed)).
Proof.
  intros Hmd Hcf Hkeys. unfold publication_metadata. eapply any_try; [apply any_fetch_master|]. intros vm (b & Hb & Hv).
  rewrite (Hkeys b vm Hb Hv).
  eapply any_try; [apply any_collect_slots; split_and!; apply tabled_empty|]. intros [[[mb mr] mo] mf] (Ht & Hl & _). simpl.
  split.
  - split; [done|]. simpl. destruct (metadata_described _ _ (fun x y Hx Hy => Hcf x y (or_introl Hx) (or_introl Hy)) Hmd) as [_ Hd].
    apply Forall2_same_length_lookup. split; [by eapply Forall2_length|]. intros i s d Es Ed.
    eapply Forall2_lookup_lr in Hd; [|exact Es|exact Ed]. destruct Hd as (b' & r & o & f & Htab & -> & _).
    eapply (described_read R (st_slots st) (mb, mr, mo, mf)); [done|done| |by eapply list_elem_of_lookup_2|exact Htab|done].
    by eapply Forall_lookup_1 in Hl; [|exact Ed].
  - exists b. rewrite Hv. split_and!; [done|done|by eapply signed_hash].
Qed.

(** C14. A writer continues where the last one stopped.  Under the same conditions,
    when [publication_metadata] succeeds then [state] restores from it exactly the
    slots that were published, with all of their contents, and the digest of the
    verified master as the predecessor of the next one. *)
Theorem writer_continues st md self reads cp :
  wf_slots (st_slots st) -> Forall (fun s => within_limits (ps_contents s)) (st_slots st) -> metadata st = Ok md ->
  collision_free (fun x => table_of (st_slots st) x \/ x ∈ reads) ->
  (forall b vm, b ∈ reads -> trusted_verify (rr_keys self) b = Ok vm -> vm_master vm = md_master md) ->
  outcome (publication_metadata fetch temp self) reads (Ok cp) ->
  publication_state cp = Ok (mkPublicationState (Some (cp_master_hash cp)) (st_url st) (st_slots st)) /\
  exists signed, signed ∈ reads /\ is_ok (trusted_verify (rr_keys self) signed) = true /\ cp_master_hash cp = sha256 signed.
Proof.
  intros Hwf Hlim Hmd Hcf Hkeys Ho.
  assert (any (fun b => b ∈ reads) (publication_metadata fetch temp self)
    (good (fun _ => True) (fun cp => restored_by st md cp /\ exists signed, signed ∈ reads /\
       is_ok (trusted_verify (rr_keys self) signed) = true /\ cp_master_hash cp = sha256 signed))) as Hany.
  { by apply any_publication_metadata. }
  destruct (any_outcome _ _ _ _ _ Hany Ho) as [Hr Hs]; [by apply Forall_forall|]. split; [|exact Hs].
  destruct Hr as [Hm Hd]. by eapply from_described.
Qed.
End Sees.
