(* ===== verification/RemoteProvider.v ===== *)
(** * Remote repositories as providers

    [bobr-source/src/remote_provider.rs]: one authenticated repository behind a mapping
    and a content provider.  The snapshot is taken once and frozen for the run; queries
    go through it one after another, a table that cannot be fetched is passed over, and
    a query fails only if nothing was found while something was unavailable.  Staging
    and importing content (the rest of the file) are not modelled.

    The per-run reader ([for_run]) remembers failed transfers: it is a transport, and
    the transport is any program. *)

From S2P Require Import Prelude Errors Hash Master Index Posix Subjects Graph Store Publisher PublisherFacts Resolver Reader ReaderFacts.

Open Scope prog_scope.

Section Remote.
Context `{UrlApi} `{!UrlJoin} `{Sha256Api} `{CoseApi}.
Context (fetch : FetchRequest -> prog (result RepositoryError FetchResult)) (temp : TempFiles).

(** ** The backend *)

Record RemoteRepositoryBackend := mkBackend {
  identity : bytes;
  rb_reader : RepositoryReader;
  rb_snapshot : option RepositorySnapshot;
}.
Definition backend_new (identity : bytes) (reader : RepositoryReader) : RemoteRepositoryBackend :=
  mkBackend identity reader None.
Definition set_snapshot (self : RemoteRepositoryBackend) (snap : RepositorySnapshot) : RemoteRepositoryBackend :=
  mkBackend (identity self) (rb_reader self) (Some snap).

(** [RemoteRepositoryBackend::snapshot]: the cell is filled by the first success. *)
Definition backend_snapshot (self : RemoteRepositoryBackend)
  : prog (result RepositoryError RepositorySnapshot * RemoteRepositoryBackend) :=
  match rb_snapshot self with
  | Some snap => Ret (Ok snap, self)
  | None =>
      do r := snapshot fetch temp (rb_reader self) in
      Ret (r, match r with Ok snap => set_snapshot self snap | Err _ => self end)
  end.

(** [RemoteBackendRegistry::open_with]. *)
Definition open_with (repositories : gmap bytes RemoteRepositoryBackend) (identity : bytes)
    (create : result RepositoryError RepositoryReader)
  : result RepositoryError (RemoteRepositoryBackend * gmap bytes RemoteRepositoryBackend) :=
  match repositories !! identity with
  | Some repository => Ok (repository, repositories)
  | None =>
      reader <- create ;;
      let repository := backend_new identity reader in
      Ok (repository, <[identity := repository]> repositories)
  end.

(** ** Queries *)

Definition available_resource {T : Type} (r : result RepositoryError T) (unavailable : option RepositoryError)
  : result RepositoryError (option T * option RepositoryError) :=
  match r with
  | Ok value => Ok (Some value, unavailable)
  | Err error => if is_transport error then Ok (None, Some (default error unavailable)) else Err error
  end.

Definition finish_partial {T : Type} (values : T) (empty : bool) (unavailable : option RepositoryError)
  : result ProviderError T :=
  match unavailable with
  | Some error => if empty then Err (PRepository error) else Ok values
  | None => Ok values
  end.

(** The snapshot is taken from the backend, and goes back with the tables it has read. *)
Definition with_snapshot {A : Type} (self : RemoteRepositoryBackend)
    (query : RepositorySnapshot -> prog (result ProviderError A * RepositorySnapshot))
  : prog (result ProviderError A * RemoteRepositoryBackend) :=
  do got := backend_snapshot self in
  match got.1 with
  | Err e => Ret (Err (PRepository e), got.2)
  | Ok snap => do r := query snap in Ret (r.1, set_snapshot got.2 r.2)
  end.

Abbreviation Asks T := (RepositorySnapshot -> bytes -> prog (result RepositoryError T * RepositorySnapshot)).

(** The loop of [resolve_builds] and [resolve_reuses]. *)
Fixpoint resolve_loop (candidates : Asks (list bytes)) (snap : RepositorySnapshot) (seen : list bytes)
    (unavailable : option RepositoryError) (resolutions : list (TrustedResolution bytes)) (keys : list bytes)
  : prog (result ProviderError (list (TrustedResolution bytes)) * RepositorySnapshot) :=
  match keys with
  | [] => Ret (finish_partial resolutions (bool_decide (length resolutions = 0)) unavailable, snap)
  | key :: keys' =>
      if bool_decide (key ∈ seen) then resolve_loop candidates snap seen unavailable resolutions keys'
      else
        do asked := candidates snap key in
        match available_resource asked.1 unavailable with
        | Err e => Ret (Err (PRepository e), asked.2)
        | Ok (None, unavailable') =>
            resolve_loop candidates asked.2 (key :: seen) unavailable' resolutions keys'
        | Ok (Some found, unavailable') =>
            resolve_loop candidates asked.2 (key :: seen) unavailable' (resolutions ++ map (mkTrusted key) found) keys'
        end
  end.
Definition resolve_builds (self : RemoteRepositoryBackend) (keys : list bytes) :=
  with_snapshot self (fun snap => resolve_loop (build_candidates fetch temp) snap [] None [] keys).
Definition resolve_reuses (self : RemoteRepositoryBackend) (keys : list bytes) :=
  with_snapshot self (fun snap => resolve_loop (reuse_candidates fetch temp) snap [] None [] keys).

(** The loop of [locate_objects] and [locate_fs_files]. *)
Fixpoint locate_loop (contains : Asks bool) (snap : RepositorySnapshot) (seen : list bytes)
    (unavailable : option RepositoryError) (available : gset bytes) (hashes : list bytes)
  : prog (result ProviderError (gset bytes) * RepositorySnapshot) :=
  match hashes with
  | [] => Ret (finish_partial available (bool_decide (available = ∅)) unavailable, snap)
  | hash :: hashes' =>
      if bool_decide (hash ∈ seen) then locate_loop contains snap seen unavailable available hashes'
      else
        do asked := contains snap hash in
        match available_resource asked.1 unavailable with
        | Err e => Ret (Err (PRepository e), asked.2)
        | Ok (found, unavailable') =>
            locate_loop contains asked.2 (hash :: seen) unavailable'
              (if default false found then {[hash]} ∪ available else available) hashes'
        end
  end.
Definition locate_objects (self : RemoteRepositoryBackend) (hashes : list bytes) :=
  with_snapshot self (fun snap => locate_loop (contains_object fetch temp) snap [] None ∅ hashes).
Definition locate_fs_files (self : RemoteRepositoryBackend) (hashes : list bytes) :=
  with_snapshot self (fun snap => locate_loop (contains_fs_file fetch temp) snap [] None ∅ hashes).

(** Both capabilities share the backend: a run of queries to it. *)
Inductive Query :=
| ResolveBuilds (keys : list bytes)
| ResolveReuses (keys : list bytes)
| LocateObjects (hashes : list bytes)
| LocateFsFiles (hashes : list bytes).
Inductive Response :=
| Resolutions (r : result ProviderError (list (TrustedResolution bytes)))
| Located (r : result ProviderError (gset bytes)).
Definition respond (self : RemoteRepositoryBackend) (q : Query) : prog (Response * RemoteRepositoryBackend) :=
  match q with
  | ResolveBuilds keys => do r := resolve_builds self keys in Ret (Resolutions r.1, r.2)
  | ResolveReuses keys => do r := resolve_reuses self keys in Ret (Resolutions r.1, r.2)
  | LocateObjects hashes => do r := locate_objects self hashes in Ret (Located r.1, r.2)
  | LocateFsFiles hashes => do r := locate_fs_files self hashes in Ret (Located r.1, r.2)
  end.
Fixpoint respond_all (self : RemoteRepositoryBackend) (qs : list Query) : prog (list (Query * Response)) :=
  match qs with
  | [] => Ret []
  | q :: qs' =>
      do r := respond self q in
      do rest := respond_all r.2 qs' in
      Ret ((q, r.1) :: rest)
  end.

(** ** What a publication has for a query *)

(** Of the keys asked for, without repetitions and in their order, those that could be
    answered, each with its candidates. *)
Definition resolved_faithful (sel : SlotContents -> gmap bytes (list bytes)) (ss : list PublicationSlot)
    (keys : list bytes) (l : list (TrustedResolution bytes)) : Prop :=
  exists answered : list (bytes * list bytes),
    map fst answered `sublist_of` nub keys /\
    Forall (fun a => candidates_faithful fetch sel ss a.1 a.2) answered /\
    l = flat_map (fun a => map (mkTrusted a.1) a.2) answered /\
    (l = [] -> forall key, key ∈ keys -> visible sel ss key = []).

Definition located_faithful (sel : SlotContents -> gset bytes) (ss : list PublicationSlot)
    (hashes : list bytes) (X : gset bytes) : Prop :=
  (forall h, h ∈ X -> h ∈ hashes /\ h ∈ advertised sel ss) /\
  (X = ∅ -> forall h, h ∈ hashes -> h ∉ advertised sel ss).

Definition response_faithful (ss : list PublicationSlot) (e : Query * Response) : Prop :=
  match e with
  | (ResolveBuilds keys, Resolutions (Ok l)) => resolved_faithful sc_builds ss keys l
  | (ResolveReuses keys, Resolutions (Ok l)) => resolved_faithful sc_reuses ss keys l
  | (LocateObjects hashes, Located (Ok X)) => located_faithful sc_objects ss hashes X
  | (LocateFsFiles hashes, Located (Ok X)) => located_faithful sc_files ss hashes X
  | (ResolveBuilds _, Resolutions (Err _)) | (ResolveReuses _, Resolutions (Err _))
  | (LocateObjects _, Located (Err _)) | (LocateFsFiles _, Located (Err _)) => True
  | _ => False
  end.

(** ** Proofs *)

Context (R : bytes -> Prop) (st : PublicationState) (md : PublicationMetadata).
Context (Hwf : wf_slots (st_slots st)) (Hlim : Forall (fun s => within_limits (ps_contents s)) (st_slots st))
  (Hmd : metadata st = Ok md) (Hcf : collision_free (fun x => table_of (st_slots st) x \/ R x)).

Local Abbreviation snap_ok := (snap_ok R st md).

Lemma any_resolve_loop (candidates : Asks (list bytes)) (faithful : bytes -> list bytes -> Prop) snap seen unavailable resolutions keys :
  (forall snap key, snap_ok snap ->
     any R (candidates snap key) (fun r => snap_ok r.2 /\ forall cs, r.1 = Ok cs -> faithful key cs)) ->
  snap_ok snap ->
  any R (resolve_loop candidates snap seen unavailable resolutions keys) (fun r =>
    snap_ok r.2 /\ forall l, r.1 = Ok l -> exists answered : list (bytes * list bytes),
      map fst answered `sublist_of` distinct_keys seen keys /\
      Forall (fun a => faithful a.1 a.2) answered /\
      l = resolutions ++ flat_map (fun a => map (mkTrusted a.1) a.2) answered /\
      (l = [] -> unavailable = None /\ map fst answered = distinct_keys seen keys)).
Proof.
  intros Hask. revert snap seen unavailable resolutions.
  induction keys as [|key keys IH]; intros snap seen unavailable resolutions Hs; cbn [resolve_loop].
  - split; [done|]. intros l Hl. exists []. cbn in Hl |- *. rewrite app_nil_r.
    unfold finish_partial in Hl. destruct unavailable as [error|]; [case_bool_decide as He|]; simplify_eq;
      (split_and!; [done|done|done|]); intros ->; done.
  - cbn [distinct_keys]. case_bool_decide as Hin; [by apply IH|].
    eapply any_bind; [by apply Hask|]. intros [r snap'] [Hs' Hr]. cbn in Hs', Hr.
    unfold available_resource. cbn [fst snd]. destruct r as [found|error]; [|destruct (is_transport error)]; [| |by split].
    + eapply any_weaken; [by apply IH|]. intros [r snap''] [Hs'' Hl]. split; [done|]. intros l E.
      destruct (Hl l E) as (answered & K1 & K2 & -> & K4). exists ((key, found) :: answered). split_and!.
      * by apply sublist_skip.
      * constructor; [by apply Hr|done].
      * cbn. by rewrite <-app_assoc.
      * intros E'. destruct (K4 E') as [-> K5]. cbn. by rewrite K5.
    + eapply any_weaken; [by apply IH|]. intros [r snap''] [Hs'' Hl]. split; [done|]. intros l E.
      destruct (Hl l E) as (answered & K1 & K2 & -> & K4). exists answered. split_and!; [|done|done|].
      * by apply sublist_cons.
      * intros E'. by destruct (K4 E') as [? _].
Qed.

Lemma any_locate_loop (contains : Asks bool) (member : bytes -> bool) snap seen unavailable available hashes :
  (forall snap hash, snap_ok snap ->
     any R (contains snap hash) (fun r => snap_ok r.2 /\ forall b, r.1 = Ok b -> b = member hash)) ->
  snap_ok snap ->
  any R (locate_loop contains snap seen unavailable available hashes) (fun r =>
    snap_ok r.2 /\ forall X, r.1 = Ok X ->
      (forall h, h ∈ X -> h ∈ available \/ h ∈ hashes /\ member h = true) /\
      (X = ∅ -> unavailable = None /\ available = ∅ /\ forall h, h ∈ hashes -> h ∉ seen -> member h = false)).
Proof.
  intros Hask. revert snap seen unavailable available.
  induction hashes as [|hash hashes IH]; intros snap seen unavailable available Hs; cbn [locate_loop].
  - split; [done|]. intros X HX. cbn in HX. unfold finish_partial in HX.
    destruct unavailable as [error|]; [case_bool_decide as He|]; simplify_eq;
      (split; [by left|]); intros ->; split_and!; try done; intros h Hh; by apply not_elem_of_nil in Hh.
  - case_bool_decide as Hin.
    + eapply any_weaken; [by apply IH|]. intros [r snap'] [Hs' HX]. split; [done|]. intros X E.
      destruct (HX X E) as [K1 K2]. split; [set_solver|]. intros E'. destruct (K2 E') as (-> & -> & K3).
      split_and!; [done|done|]. intros h [->|Hh]%elem_of_cons Hn; [done|by apply K3].
    + eapply any_bind; [by apply Hask|]. intros [r snap'] [Hs' Hr]. cbn in Hs', Hr.
      unfold available_resource. cbn [fst snd]. destruct r as [b|error]; [|destruct (is_transport error)]; [| |by split].
      * specialize (Hr b eq_refl). subst b. eapply any_weaken; [by apply IH|]. intros [r snap''] [Hs'' HX].
        split; [done|]. intros X E. destruct (HX X E) as [K1 K2]. cbn in K1, K2. split.
        -- intros h Hh. destruct (K1 h Hh) as [Hav|Hm]; [|set_solver].
           destruct (member hash) eqn:Em; [|by left]. apply elem_of_union in Hav as [->%elem_of_singleton|Hav]; [right|by left].
           split; [apply list_elem_of_here|done].
        -- intros E'. destruct (K2 E') as (-> & Hav & K3). destruct (member hash) eqn:Em; [set_solver|].
           split_and!; [done|done|]. intros h [->|Hh]%elem_of_cons Hn; [done|].
           destruct (decide (h = hash)) as [->|Hne]; [done|]. apply K3; [done|set_solver].
      * eapply any_weaken; [by apply IH|]. intros [r snap''] [Hs'' HX]. split; [done|]. intros X E.
        destruct (HX X E) as [K1 K2]. cbn in K1, K2. split; [set_solver|]. intros E'. by destruct (K2 E') as (? & _).
Qed.

Context (reader : RepositoryReader).

(** A backend of the reader whose snapshot, if it has one, is of the publication. *)
Definition backend_ok (b : RemoteRepositoryBackend) : Prop :=
  rb_reader b = reader /\ match rb_snapshot b with Some snap => snap_ok snap | None => True end.

Lemma nub_elem l (x : bytes) : x ∈ nub l <-> x ∈ l.
Proof. rewrite elem_of_distinct. set_solver. Qed.
Lemma flat_map_nil {A B} (f : A -> list B) l : flat_map f l = [] -> Forall (fun a => f a = []) l.
Proof. induction l as [|a l IH]; [constructor|]. cbn. intros [K1 K2]%app_eq_nil. constructor; [done|by apply IH]. Qed.

Section Keys.
Context (Hkeys : forall b vm, R b -> trusted_verify (rr_keys reader) b = Ok vm -> vm_master vm = md_master md).

Lemma any_snapshot : any R (snapshot fetch temp reader) (good (fun _ => True) snap_ok).
Proof.
  unfold snapshot. eapply any_try; [apply any_fetch_master|]. intros vm (b & Hb & Hv).
  rewrite (Hkeys b vm Hb Hv). exact (snapshot_slots _ st md Hmd Hcf reader).
Qed.

Lemma any_with_snapshot {A} self (query : RepositorySnapshot -> prog (result ProviderError A * RepositorySnapshot)) (P : A -> Prop) :
  backend_ok self ->
  (forall snap, snap_ok snap -> any R (query snap) (fun r => snap_ok r.2 /\ forall a, r.1 = Ok a -> P a)) ->
  any R (with_snapshot self query) (fun r => backend_ok r.2 /\ forall a, r.1 = Ok a -> P a).
Proof.
  intros Hself Hquery. unfold with_snapshot.
  eapply (any_bind _ _ _ (fun got => backend_ok got.2 /\ forall snap, got.1 = Ok snap -> snap_ok snap)).
  - unfold backend_snapshot. destruct Hself as [Hrd Hself]. destruct (rb_snapshot self) as [snap|] eqn:Es.
    + split; [split; [done|cbn; by rewrite Es]|]. by intros ? [= <-].
    + rewrite Hrd. eapply any_bind; [apply any_snapshot|]. intros [snap|e] Hr.
      * split; [by split|]. by intros ? [= <-].
      * split; [split; [done|cbn; by rewrite Es]|done].
  - intros [[snap|e] self'] [Hok Hs]; cbn in Hok, Hs; [|by split].
    eapply any_bind; [by apply Hquery, Hs|]. intros [r snap'] [Hs' Hr]. destruct Hok as [Hrd _]. split; [by split|done].
Qed.

Lemma any_resolve_query self sel (candidates : Asks (list bytes)) keys :
  backend_ok self ->
  (forall snap key, snap_ok snap -> any R (candidates snap key) (fun r =>
     snap_ok r.2 /\ forall cs, r.1 = Ok cs -> candidates_faithful fetch sel (st_slots st) key cs)) ->
  any R (with_snapshot self (fun snap => resolve_loop candidates snap [] None [] keys)) (fun r =>
    backend_ok r.2 /\ forall l, r.1 = Ok l -> resolved_faithful sel (st_slots st) keys l).
Proof.
  intros Hself Hask. apply any_with_snapshot; [done|]. intros snap Hs.
  eapply any_weaken; [by apply (any_resolve_loop _ (candidates_faithful fetch sel (st_slots st)))|].
  intros [r snap'] [Hs' Hl]. split; [done|]. intros l E. destruct (Hl l E) as (answered & K1 & K2 & K3 & K4).
  exists answered. split_and!; [done|done|by rewrite K3|]. intros E' key Hk. destruct (K4 E') as [_ K5].
  apply nub_elem in Hk. rewrite <-K5 in Hk. apply list_elem_of_fmap in Hk as ([k cs] & -> & Hin).
  rewrite K3 in E'. apply flat_map_nil in E'. rewrite Forall_forall in E', K2.
  apply (K2 _ Hin). exact (map_eq_nil _ _ (E' _ Hin)).
Qed.

Lemma any_locate_query self sel (contains : Asks bool) hashes :
  backend_ok self ->
  (forall snap hash, snap_ok snap -> any R (contains snap hash) (fun r =>
     snap_ok r.2 /\ forall b, r.1 = Ok b -> b = bool_decide (hash ∈ advertised sel (st_slots st)))) ->
  any R (with_snapshot self (fun snap => locate_loop contains snap [] None ∅ hashes)) (fun r =>
    backend_ok r.2 /\ forall X, r.1 = Ok X -> located_faithful sel (st_slots st) hashes X).
Proof.
  intros Hself Hask. apply any_with_snapshot; [done|]. intros snap Hs.
  eapply any_weaken; [by apply (any_locate_loop _ (fun h => bool_decide (h ∈ advertised sel (st_slots st))))|].
  intros [r snap'] [Hs' HX]. split; [done|]. intros X E. destruct (HX X E) as [K1 K2]. split.
  - intros h Hh. destruct (K1 h Hh) as [Hn|[Hin Hm]]; [set_solver|]. by apply bool_decide_eq_true in Hm.
  - intros E' h Hh. destruct (K2 E') as (_ & _ & K3). apply (bool_decide_eq_false (h ∈ _)), K3; [done|apply not_elem_of_nil].
Qed.

(** The tables of a slot stand for its contents. *)
Ltac by_slots Hs lemma :=
  apply lemma; [exact Hs|]; intros ?slot ?s Hst; apply (stands_all R st md Hwf Hlim Hmd Hcf _ _ Hst).

Lemma any_respond self q : backend_ok self ->
  any R (respond self q) (fun r => backend_ok r.2 /\ response_faithful (st_slots st) (q, r.1)).
Proof.
  intros Hself.
  destruct q as [keys|keys|hashes|hashes]; cbn [respond];
    [eapply any_bind; [apply (any_resolve_query self sc_builds)|]|eapply any_bind; [apply (any_resolve_query self sc_reuses)|]
    |eapply any_bind; [apply (any_locate_query self sc_objects)|]|eapply any_bind; [apply (any_locate_query self sc_files)|]].
  all: try exact Hself.
  all: try (intros [[l|e] self'] [Hok Hl]; (split; [exact Hok|]); first [exact (Hl _ eq_refl)|exact I]).
  all: intros snap k Hs; first [by_slots Hs (any_candidates fetch temp R st md)|by_slots Hs (any_member fetch temp R st md)].
Qed.

Lemma any_respond_all self qs : backend_ok self -> any R (respond_all self qs) (Forall (response_faithful (st_slots st))).
Proof.
  revert self. induction qs as [|q qs IH]; intros self Hself; cbn [respond_all]; [constructor|].
  eapply any_bind; [by apply any_respond|]. intros [r self'] [Hok Hr]. eapply any_bind; [by apply IH|].
  intros rest Hrest. by constructor.
Qed.
End Keys.
End Remote.

Section Published.
Context `{UrlApi} `{!UrlJoin} `{Sha256Api} `{CoseApi}.
Context (fetch : FetchRequest -> prog (result RepositoryError FetchResult)) (temp : TempFiles).

(** C13. What a remote repository contributes to a build is what its writer published.
    Whatever queries the mapping and the content provider of one backend get, in any
    order and with any repetitions, whatever the transport delivers and the cache holds:
    each list of resolutions consists of candidates of current slots for keys that were
    asked for, key by key in their order and each key once, and it is empty only if no
    current slot has a candidate for any of the keys; and an object or file is located
    only if it was asked for and a current slot advertises it, and none at all only if
    none of them is advertised.  (As for a snapshot: the state was published, the pinned
    keys verify no other master among the files read, and no table collides.) *)
Theorem remote_answers_published st md identity reader queries reads responses :
  wf_slots (st_slots st) -> Forall (fun s => within_limits (ps_contents s)) (st_slots st) -> metadata st = Ok md ->
  collision_free (fun x => table_of (st_slots st) x \/ x ∈ reads) ->
  (forall b vm, b ∈ reads -> trusted_verify (rr_keys reader) b = Ok vm -> vm_master vm = md_master md) ->
  outcome (respond_all fetch temp (backend_new identity reader) queries) reads responses ->
  Forall (response_faithful fetch (st_slots st)) responses.
Proof.
  intros Hwf Hlim Hmd Hcf Hkeys Ho.
  apply (any_outcome _ _ _ _ _ (any_respond_all fetch temp (fun b => b ∈ reads) st md Hwf Hlim Hmd Hcf reader Hkeys
    (backend_new identity reader) queries (conj eq_refl I)) Ho).
  by apply Forall_forall.
Qed.
End Published.
