(* ===== verification/Content.v ===== *)
(** * Content envelopes

    [bobr-repo/src/content.rs]: the immutable representation of an object or of a
    filesystem file (a CBOR array of metadata and payload, the payload stored
    directly or as one Zstandard frame), its encoder and its verifying decoder,
    and [bobr-repo/src/encoding.rs], the choice of the smaller representation.

    A representation is a byte string.  A source is what the system calls answer
    about it, once to the hasher ([FsObj]) and once to the archiver ([WObj]); what
    is decoded is the tree that is moved to the destination.  The calls on staging
    files are taken to succeed, except those that may silently do something else
    ([chown] and [chmod]), which are arguments. *)

From S2P Require Import Prelude Errors Hash Cbor FsObject FsArchive FsManifestOps TarProfile.

(** The [zstd] crate: compression at level 9, and decoding of the one frame a
    byte string starts with, within a window of the given logarithm: the data, and
    then either an error or the number of bytes behind the frame. *)
Class ZstdApi := {
  zstd_encode : bytes -> result string bytes;
  zstd_decode : Z -> bytes -> bytes * result string Z;
}.

Definition MAX_ENCODED_CONTENT_BYTES : u64 := 1024 * 1024 * 1024 * 1024.
Definition MAX_DECODED_CONTENT_BYTES : u64 := 1024 * 1024 * 1024 * 1024.
Definition MAX_ZSTD_WINDOW_BYTES : u64 := 128 * 1024 * 1024.

Inductive Compression := Identity | Zstd.
Inductive ObjectKind := OFile (executable : bool) | ODirectory.
Record FsFileMetadata := mkFsFileMetadata {
  fm_uid : u32;
  fm_gid : u32;
  fm_mode : u32;
  fm_decoded_size : u64;
}.

#[export] Instance Compression_eq_dec : EqDecision Compression.
Proof. solve_decision. Defined.
#[export] Instance ObjectKind_eq_dec : EqDecision ObjectKind.
Proof. solve_decision. Defined.

(** ** Error texts *)

(** [From<io::Error>]. *)
Definition from_io {A : Type} (r : result string A) : result RepositoryError A :=
  map_err (fun e => repo_local_io ("I/O error: " +:+ e)) r.
Definition EOF : string := "failed to fill whole buffer".

Definition entry_kind_text (k : EntryKind) : string :=
  match k with KFile => "file" | KDirectory => "directory" | KSymlink => "symlink" end.
Definition path_reason_text (r : InvalidPathReason) : string :=
  match r with
  | AbsolutePath => "absolute path is not allowed"
  | ParentTraversal => "parent traversal is not allowed"
  | EmptyPath => "empty path is not allowed"
  end.
Definition tar_kind_text (k : TarEntryKind) : string :=
  match k with
  | HardLink => "hard link"
  | BlockDevice => "block device"
  | CharDevice => "char device"
  | Fifo => "fifo"
  | Socket => "socket"
  | Other => "unsupported tar entry"
  end.
(** [impl Display for fsobj_hash::Error]. *)
Definition fs_error_message (e : FsError) : string :=
  match e with
  | FIo error => "io error: " +:+ error
  | IoAtPath p action error => "io error at '" +:+ show p +:+ "', while " +:+ action +:+ ": " +:+ error
  | UnsupportedRootSymlink p => "root symlink is not supported: " +:+ show p
  | UnsupportedFileType p => "unsupported file type: " +:+ show p
  | TarRead error => "tar read error: " +:+ error
  | InvalidArchivePath p reason => "invalid archive path '" +:+ show p +:+ "': " +:+ path_reason_text reason
  | DuplicateEntry p => "duplicate archive entry: " +:+ show p
  | KindConflict p existing new =>
      "kind conflict for '" +:+ show p +:+ "': existing " +:+ entry_kind_text existing +:+ ", new " +:+ entry_kind_text new
  | UnsupportedTarEntry p kind => "unsupported tar entry at '" +:+ show p +:+ "': " +:+ tar_kind_text kind
  end.

(** ** Writing envelopes *)

Definition write_head (major : u8) (value : u64) : bytes :=
  let prefix := (Z.shiftl major 5 mod 256)%Z in
  if (value <=? 23)%Z then [Z.lor prefix (value mod 256)]
  else if (value <=? 0xff)%Z then [Z.lor prefix 24; value mod 256]%Z
  else if (value <=? 0xffff)%Z then [Z.lor prefix 25] ++ be_bytes 2 (value mod 2 ^ 16)
  else if (value <=? 0xffffffff)%Z then [Z.lor prefix 26] ++ be_bytes 4 (value mod 2 ^ 32)
  else [Z.lor prefix 27] ++ be_bytes 8 value.
Definition write_text (text : bytes) : bytes := write_head 3 (len text) ++ text.

Definition compression_name (c : Compression) : bytes :=
  match c with Identity => lit "identity" | Zstd => lit "zstd" end.

Definition write_object_prefix (kind : ObjectKind) (c : Compression) (decoded_size encoded_size : u64) : bytes :=
  write_head 4 2 ++ write_head 5 4 ++ write_text (lit "kind") ++
  (match kind with
   | OFile executable => write_text (lit "file") ++ write_text (lit "executable") ++ [if executable then 0xf5 else 0xf4]%Z
   | ODirectory => write_text (lit "directory") ++ write_text (lit "archive") ++ write_text (lit "tar")
   end) ++
  write_text (lit "compression") ++ write_text (compression_name c) ++
  write_text (lit "decoded_size") ++ write_head 0 decoded_size ++ write_head 2 encoded_size.

Definition write_fs_file_prefix (m : FsFileMetadata) (c : Compression) (encoded_size : u64) : bytes :=
  write_head 4 2 ++ write_head 5 5 ++
  write_text (lit "gid") ++ write_head 0 (fm_gid m) ++
  write_text (lit "uid") ++ write_head 0 (fm_uid m) ++
  write_text (lit "mode") ++ write_head 0 (fm_mode m) ++
  write_text (lit "compression") ++ write_text (compression_name c) ++
  write_text (lit "decoded_size") ++ write_head 0 (fm_decoded_size m) ++ write_head 2 encoded_size.

(** ** Reading envelopes *)

(** The decoder reads its input from the front; its state is what is left. *)
Module StreamDecoder.
Definition read_array (n : nat) (input : bytes) : result RepositoryError (bytes * bytes) :=
  if (length input <? n)%nat then from_io (Err EOF) else Ok (take n input, drop n input).
Definition byte (input : bytes) : result RepositoryError (u8 * bytes) :=
  match input with
  | [] => from_io (Err EOF)
  | b :: input' => Ok (b, input')
  end.

Definition require_shortest (valid : bool) : result RepositoryError unit :=
  guard valid (repo_error "CBOR integer or length is not shortest-encoded").

Definition head (expected_major : u8) (expected : string) (input : bytes) : result RepositoryError (u64 * bytes) :=
  let* (initial, input) := byte input in
  if negb (Z.shiftr initial 5 =? expected_major)%Z then Err (repo_error ("expected a CBOR " +:+ expected))
  else
    let additional := Z.land initial 0x1f in
    if (additional <=? 23)%Z then Ok (additional, input)
    else if (additional =? 24)%Z then
      let* (value, input) := byte input in
      require_shortest (24 <=? value)%Z ;;; Ok (value, input)
    else if (additional =? 25)%Z then
      let* (raw, input) := read_array 2 input in
      require_shortest (0xff <? from_be_bytes raw)%Z ;;; Ok (from_be_bytes raw, input)
    else if (additional =? 26)%Z then
      let* (raw, input) := read_array 4 input in
      require_shortest (0xffff <? from_be_bytes raw)%Z ;;; Ok (from_be_bytes raw, input)
    else if (additional =? 27)%Z then
      let* (raw, input) := read_array 8 input in
      require_shortest (0xffffffff <? from_be_bytes raw)%Z ;;; Ok (from_be_bytes raw, input)
    else if (additional =? 31)%Z then Err (repo_error "indefinite-length CBOR is forbidden")
    else Err (repo_error "reserved CBOR additional information").

Definition array := head 4 "array".
Definition map := head 5 "map".
Definition uint := head 0 "unsigned integer".
Definition bytes_length := head 2 "byte string".
Definition text (input : bytes) : result RepositoryError (bytes * bytes) :=
  let* (length, input) := head 3 "text string" input in
  if (128 <? length)%Z then Err (repo_error "repository metadata text is too long")
  else
    let* (raw, input) := read_array (Z.to_nat length) input in
    if is_utf8 raw then Ok (raw, input) else Err (repo_error "CBOR text string is not valid UTF-8").
Definition boolean (input : bytes) : result RepositoryError (bool * bytes) :=
  let* (b, input) := byte input in
  if (b =? 0xf4)%Z then Ok (false, input)
  else if (b =? 0xf5)%Z then Ok (true, input)
  else Err (repo_error "expected a CBOR boolean").
End StreamDecoder.

Definition require_length (actual expected : u64) (what : string) : result RepositoryError unit :=
  guard (actual =? expected)%Z (repo_error (what +:+ " must contain exactly " +:+ pretty expected +:+ " entries")).
Definition require_text (expected : bytes) (input : bytes) : result RepositoryError bytes :=
  let* (text, input) := StreamDecoder.text input in
  if bytes_eqb text expected then Ok input
  else Err (repo_error ("unexpected or incorrectly ordered CBOR map key; expected '" +:+ show expected +:+ "'")).
Definition require_u32 (value : u64) (name : string) : result RepositoryError u32 :=
  if (value <? 2 ^ 32)%Z then Ok value else Err (repo_error ("fs-file " +:+ name +:+ " exceeds u32")).
Definition parse_compression (value : bytes) : result RepositoryError Compression :=
  if bytes_eqb value (lit "identity") then Ok Identity
  else if bytes_eqb value (lit "zstd") then Ok Zstd
  else Err (repo_error "unsupported repository compression").

Record CommonEnvelope := mkCommonEnvelope {
  ce_compression : Compression;
  ce_decoded_size : u64;
  ce_payload_offset : u64;
  ce_encoded_size : u64;
}.
Record ObjectEnvelope := mkObjectEnvelope { oe_kind : ObjectKind; oe_common : CommonEnvelope }.
Record ParsedFsFileEnvelope := mkParsedFsFileEnvelope { pe_metadata : FsFileMetadata; pe_common : CommonEnvelope }.

Definition check_content_sizes (encoded decoded : u64) : result RepositoryError unit :=
  guard (negb ((MAX_ENCODED_CONTENT_BYTES <? encoded) || (MAX_DECODED_CONTENT_BYTES <? decoded))%Z)
        (repo_error "repository content exceeds format limits").
Definition check_encoded_file (file : bytes) : result RepositoryError unit :=
  guard (negb (MAX_ENCODED_CONTENT_BYTES <? len file)%Z) (repo_error "encoded content exceeds format limit").
Definition validate_payload_extent (file : bytes) (payload_offset encoded_size decoded_size : u64)
  : result RepositoryError unit :=
  check_content_sizes encoded_size decoded_size ;;;
  expected_size <- ok_or (checked_add payload_offset encoded_size) (repo_error "encoded envelope size overflow") ;;
  guard (len file =? expected_size)%Z (repo_error "encoded envelope is truncated or contains trailing bytes").

(** The end of both envelopes, from the compression on. *)
Definition parse_common (file input : bytes) : result RepositoryError CommonEnvelope :=
  input <- require_text (lit "compression") input ;;
  let* (name, input) := StreamDecoder.text input in
  compression <- parse_compression name ;;
  input <- require_text (lit "decoded_size") input ;;
  let* (decoded_size, input) := StreamDecoder.uint input in
  let* (encoded_size, input) := StreamDecoder.bytes_length input in
  let payload_offset := (len file - len input)%Z in
  validate_payload_extent file payload_offset encoded_size decoded_size ;;;
  Ok (mkCommonEnvelope compression decoded_size payload_offset encoded_size).

Definition parse_object_envelope (file : bytes) : result RepositoryError ObjectEnvelope :=
  check_encoded_file file ;;;
  let* (n, input) := StreamDecoder.array file in
  require_length n 2 "object envelope array" ;;;
  let* (fields, input) := StreamDecoder.map input in
  input <- require_text (lit "kind") input ;;
  let* (kind_text, input) := StreamDecoder.text input in
  let* (kind, input) :=
    if bytes_eqb kind_text (lit "file") then
      require_length fields 4 "file metadata map" ;;;
      input <- require_text (lit "executable") input ;;
      let* (executable, input) := StreamDecoder.boolean input in
      Ok (OFile executable, input)
    else if bytes_eqb kind_text (lit "directory") then
      require_length fields 4 "directory metadata map" ;;;
      input <- require_text (lit "archive") input ;;
      let* (format, input) := StreamDecoder.text input in
      if bytes_eqb format (lit "tar") then Ok (ODirectory, input)
      else Err (repo_error "unsupported directory archive format")
    else Err (repo_error "unsupported ordinary-object kind") in
  common <- parse_common file input ;;
  Ok (mkObjectEnvelope kind common).

Definition parse_fs_file_envelope (file : bytes) : result RepositoryError ParsedFsFileEnvelope :=
  check_encoded_file file ;;;
  let* (n, input) := StreamDecoder.array file in
  require_length n 2 "fs-file envelope array" ;;;
  let* (fields, input) := StreamDecoder.map input in
  require_length fields 5 "fs-file metadata map" ;;;
  input <- require_text (lit "gid") input ;;
  let* (gid, input) := StreamDecoder.uint input in
  gid <- require_u32 gid "gid" ;;
  input <- require_text (lit "uid") input ;;
  let* (uid, input) := StreamDecoder.uint input in
  uid <- require_u32 uid "uid" ;;
  input <- require_text (lit "mode") input ;;
  let* (mode, input) := StreamDecoder.uint input in
  mode <- require_u32 mode "mode" ;;
  if (FsManifest.MODE_MAX <? mode)%Z then Err (repo_error "fs-file mode exceeds 0o7777")
  else
    common <- parse_common file input ;;
    Ok (mkParsedFsFileEnvelope (mkFsFileMetadata uid gid mode (ce_decoded_size common)) common).

(** ** Payloads *)

Section Payloads.
Context `{Sha256Api} `{ZstdApi}.

(** What reading a source to its end gives: data, then the end or an error. *)
Record Stream := mkStream { s_data : bytes; s_error : option string }.
Definition stream_of (r : result string bytes) : Stream :=
  match r with Ok data => mkStream data None | Err e => mkStream [] (Some e) end.
(** The [?] of the read after the data. *)
Definition at_end {A : Type} (s : Stream) (a : A) : result RepositoryError A :=
  match s_error s with Some e => from_io (Err e) | None => Ok a end.

(** The loop of [copy_hashing]: size and digest of what was copied.  How the reads
    cut the data does not matter, and the sum passes the limit of the format long
    before it could overflow. *)
Definition copy_hashing (input : Stream) : result RepositoryError (u64 * bytes) :=
  let size := len (s_data input) in
  if (MAX_DECODED_CONTENT_BYTES <? size)%Z then Err (repo_error "decoded payload exceeds format limit")
  else at_end input (size, sha256 (s_data input)).
Definition copy_hashing_exact (input : Stream) (expected : u64) : result RepositoryError (u64 * bytes) :=
  let size := len (s_data input) in
  if (expected <? size)%Z then Err (repo_error "decoded payload is larger than decoded_size")
  else at_end input (size, sha256 (s_data input)).

Definition compressed (c : Compression) (data : bytes) : result RepositoryError bytes :=
  match c with Identity => Ok data | Zstd => from_io (zstd_encode data) end.
(** The payload, and size and digest of the file. *)
Definition write_encoded_file (source : result string bytes) (c : Compression)
  : result RepositoryError (bytes * (u64 * bytes)) :=
  data <- from_io source ;;
  copied <- copy_hashing (mkStream data None) ;;
  payload <- compressed c data ;;
  Ok (payload, copied).
Definition write_encoded_tar (source : WObj) (c : Compression) : result RepositoryError (bytes * u64) :=
  o <- write_directory_tar source ;;
  payload <- compressed c (out o) ;;
  Ok (payload, written o).

(** [DecodedPayload]: what it reads, and the encoded bytes it does not consume. *)
Record DecodedPayload := mkDecodedPayload {
  dp_compression : Compression;
  dp_stream : Stream;
  dp_left : Z;
}.
Definition zstd_magic : bytes := [0x28; 0xb5; 0x2f; 0xfd]%Z.
Definition open_decoded_payload (file : bytes) (envelope : CommonEnvelope) : result RepositoryError DecodedPayload :=
  let reader := take (Z.to_nat (ce_encoded_size envelope)) (drop (Z.to_nat (ce_payload_offset envelope)) file) in
  match ce_compression envelope with
  | Identity => Ok (mkDecodedPayload Identity (mkStream reader None) (ce_encoded_size envelope - len reader))
  | Zstd =>
      let* (magic, _) := StreamDecoder.read_array 4 reader in
      if negb (bytes_eqb magic zstd_magic) then Err (repo_error "zstd payload does not begin with one standard frame")
      else
        match zstd_decode (Z.log2 MAX_ZSTD_WINDOW_BYTES) reader with
        | (data, Ok behind) => Ok (mkDecodedPayload Zstd (mkStream data None) (behind + (ce_encoded_size envelope - len reader)))
        | (data, Err e) => Ok (mkDecodedPayload Zstd (mkStream data (Some e)) 0)
        end
  end.
(** [finish], once everything has been read. *)
Definition payload_finish (p : DecodedPayload) : result RepositoryError unit :=
  guard (dp_left p =? 0)%Z
    (repo_error (match dp_compression p with
                 | Identity => "truncated identity payload"
                 | Zstd => "zstd payload contains a trailing frame or data"
                 end)).
Definition require_decoded_size (actual expected : u64) : result RepositoryError unit :=
  guard (actual =? expected)%Z
    (repo_error ("decoded payload size mismatch: expected " +:+ pretty expected +:+ ", got " +:+ pretty actual)).

(** The content, with its size and digest. *)
Definition decode_payload (file : bytes) (envelope : CommonEnvelope) : result RepositoryError (bytes * (u64 * bytes)) :=
  decoded <- open_decoded_payload file envelope ;;
  let* (size, digest) := copy_hashing_exact (dp_stream decoded) (ce_decoded_size envelope) in
  payload_finish decoded ;;;
  require_decoded_size size (ce_decoded_size envelope) ;;;
  Ok (s_data (dp_stream decoded), (size, digest)).

(** [ExactDecodedPayload]: at most [expected] bytes, then one more read. *)
Definition exact (s : Stream) (expected : u64) : Stream :=
  mkStream (take (Z.to_nat expected) (s_data s))
    (if (expected <? len (s_data s))%Z then Some "decoded payload is larger than decoded_size"%string else s_error s).
Definition exact_finish (s : Stream) (expected : u64) (p : DecodedPayload) : result RepositoryError unit :=
  guard (expected <=? len (s_data s))%Z (repo_error "decoded payload is shorter than decoded_size") ;;;
  payload_finish p.

(** ** Directories *)

Section Directories.
Context (mkdir_mode open_mode : Z).

(** The errors of the extractor that come from the end of its input. *)
Definition ran_out (e : ExtractError) : bool :=
  match e with
  | IoError m => String.eqb m EOF
  | Rejected r => String.eqb (re_message r) "truncated tar entry data"
  | FollowsLink _ => false
  end.
Definition extract_error (e : ExtractError) : RepositoryError :=
  match e with
  | Rejected r => r
  | IoError m => repo_local_io ("I/O error: " +:+ m)
  | FollowsLink _ => repo_local_io "I/O error: symbolic link"
  end.
(** [extract_directory_tar] on a stream: a failing read takes the place of the end
    of the input; the extractor succeeds only after it has read to the end. *)
Definition extract_stream (input : Stream) : option (result RepositoryError (u64 * Tree)) :=
  match extract_directory_tar mkdir_mode open_mode (s_data input) with
  | None => None
  | Some (Ok (decoded, s)) => Some (at_end input (decoded, tree s))
  | Some (Err e) =>
      Some (if ran_out e then _ <- at_end input tt ;; Err (extract_error e) else Err (extract_error e))
  end.

(** What the calls of the hasher answer below [p] of a tree. *)
Fixpoint seen_at (fuel : nat) (t : Tree) (p : list bytes) : FsObj :=
  match t !! p with
  | None => FNoMetadata "No such file or directory"
  | Some n =>
      match x_kind n with
      | XFile content => FRegular (x_mode n) (Ok [Chunk content; Chunk []])
      | XLink target => FSymlink (Ok target)
      | XDir =>
          match fuel with
          | O => FNoMetadata "File name too long"
          | S fuel' => FDir (Ok (map (fun name => Ok (name, seen_at fuel' t (p ++ [name]))) (children_of t p)))
          end
      end
  end.
Definition seen (t : Tree) : FsObj := seen_at (S (tree_depth t)) t [].

Definition hash_mismatch (kind : string) (expected actual : bytes) : RepositoryError :=
  repo_error (kind +:+ " hash mismatch: expected '" +:+ show (display expected) +:+ "', got '" +:+ show (display actual) +:+ "'").

(** ** Objects *)

Definition output_parent (is_dir : bool) : result RepositoryError unit :=
  guard is_dir (repo_error "output parent is not an existing directory").
(** [symlink_metadata] of the destination: whether it exists, or another error. *)
Definition require_absent (exists_ : result string bool) : result RepositoryError unit :=
  present <- from_io exists_ ;;
  guard (negb present) (repo_error "decode destination already exists").

(** [encode_object]: the hash, and the bytes of the output. *)
Definition encode_object (parent_is_dir : bool) (path : bytes) (source : WObj) (hashed : FsObj) (c : Compression)
  : result RepositoryError (bytes * bytes) :=
  match source with
  | WNoMetadata e => io_err e
  | _ =>
      output_parent parent_is_dir ;;;
      let* (kind, decoded_size, object_hash, payload) :=
        match source with
        | WFile mode _ content =>
            let executable := negb (Z.land mode MODE_X =? 0)%Z in
            let* (payload, (size, content_hash)) := write_encoded_file content c in
            Ok (OFile executable, size, hash_file_node executable size content_hash, payload)
        | WDir _ =>
            object_hash <- map_err (fun e => repo_error ("failed to hash directory: " +:+ fs_error_message e))
                                   (hash_path path hashed) ;;
            let* (payload, decoded_size) := write_encoded_tar source c in
            Ok (ODirectory, decoded_size, object_hash, payload)
        | _ => Err (repo_error "ordinary repository object must be a regular file or directory")
        end in
      check_content_sizes (len payload) decoded_size ;;;
      Ok (object_hash, write_object_prefix kind c decoded_size (len payload) ++ payload)
  end.

(** [decode_object]: the kind, and the tree that is moved to the destination. *)
Definition decode_object (destination_exists : result string bool) (parent_is_dir : bool) (staging : bytes)
    (file expected : bytes) : option (result RepositoryError (ObjectKind * Tree)) :=
  match (require_absent destination_exists ;;;
         envelope <- parse_object_envelope file ;;
         output_parent parent_is_dir ;;; Ok envelope) with
  | Err e => Some (Err e)
  | Ok envelope =>
      let common := oe_common envelope in
      match oe_kind envelope with
      | OFile executable =>
          Some (let* (content, (size, content_hash)) := decode_payload file common in
                let actual := hash_file_node executable size content_hash in
                if negb (bytes_eqb actual expected) then Err (hash_mismatch "object" expected actual)
                else
                  let mode := if executable then MODE_755 else MODE_644 in
                  Ok (oe_kind envelope, {[ [] := mkXNode (XFile content) mode (Some CANONICAL_TIMESTAMP) ]}))
      | ODirectory =>
          match open_decoded_payload file common with
          | Err e => Some (Err e)
          | Ok decoded =>
              let input := exact (dp_stream decoded) (ce_decoded_size common) in
              match extract_stream input with
              | None => None
              | Some r =>
                  Some (let* (decoded_size, t) := r in
                        exact_finish (dp_stream decoded) (ce_decoded_size common) decoded ;;;
                        require_decoded_size decoded_size (ce_decoded_size common) ;;;
                        actual <- map_err (fun e => repo_error ("failed to hash decoded tree: " +:+ fs_error_message e))
                                          (hash_path staging (seen t)) ;;
                        if negb (bytes_eqb actual expected) then Err (hash_mismatch "object" expected actual)
                        else Ok (ODirectory, t))
              end
          end
      end
  end.
End Directories.

(** ** Filesystem files *)

Definition store_err {A : Type} (r : result StoreError A) : result RepositoryError A :=
  map_err (fun e => repo_error (store_error_message e)) r.

(** [encode_fs_file] of a source with the given owner. *)
Definition encode_fs_file (parent_is_dir : bool) (uid gid : u32) (source : WObj) (c : Compression)
  : result RepositoryError (bytes * bytes) :=
  match source with
  | WNoMetadata e => io_err e
  | WFile mode _ content =>
      let mode := Z.land mode FsManifest.MODE_MAX in
      output_parent parent_is_dir ;;;
      let* (payload, (decoded_size, content_hash)) := write_encoded_file content c in
      hash <- store_err (hash_fs_file_parts uid gid mode decoded_size content_hash) ;;
      check_content_sizes (len payload) decoded_size ;;;
      Ok (hash, write_fs_file_prefix (mkFsFileMetadata uid gid mode decoded_size) c (len payload) ++ payload)
  | _ => Err (repo_error "fs-file source is not a regular file")
  end.

(** A staging file, and calls on it that may do anything else to its attributes. *)
Record Staged := mkStaged {
  sg_content : bytes;
  sg_uid : u32;
  sg_gid : u32;
  sg_mode : Z;
  sg_time : option Z;
}.
Context (chown_call : u32 -> u32 -> Staged -> result string Staged) (chmod_call : u32 -> Staged -> result string Staged).

Definition chown (f : Staged) (uid gid : u32) : result RepositoryError Staged :=
  if (sg_uid f =? uid)%Z && (sg_gid f =? gid)%Z then Ok f else from_io (chown_call uid gid f).

Definition decode_fs_file_staged (fresh : Staged) (file expected : bytes)
  : result RepositoryError (Staged * FsFileMetadata) :=
  envelope <- parse_fs_file_envelope file ;;
  let m := pe_metadata envelope in
  let* (content, (size, content_hash)) := decode_payload file (pe_common envelope) in
  actual <- store_err (hash_fs_file_parts (fm_uid m) (fm_gid m) (fm_mode m) size content_hash) ;;
  if negb (bytes_eqb actual expected) then Err (hash_mismatch "fs-file" expected actual)
  else
    let staged := mkStaged content (sg_uid fresh) (sg_gid fresh) (sg_mode fresh) (Some CANONICAL_TIMESTAMP) in
    staged <- chown staged (fm_uid m) (fm_gid m) ;;
    staged <- from_io (chmod_call (fm_mode m) staged) ;;
    let mode := Z.land (sg_mode staged) FsManifest.MODE_MAX in
    retained <-
      (if negb ((sg_uid staged =? fm_uid m) && (sg_gid staged =? fm_gid m) && (mode =? fm_mode m))%Z then Ok false
       else
         again <- store_err (hash_fs_file_parts (sg_uid staged) (sg_gid staged) mode
                               (len (sg_content staged)) (sha256 (sg_content staged))) ;;
         Ok (bytes_eqb again expected)) ;;
    if negb retained then Err (repo_error "normalized fs-file does not retain its declared identity")
    else Ok (staged, m).

Definition decode_fs_file (destination_exists : result string bool) (parent_is_dir : bool) (fresh : Staged)
    (file expected : bytes) : result RepositoryError (Staged * FsFileMetadata) :=
  require_absent destination_exists ;;;
  output_parent parent_is_dir ;;;
  decode_fs_file_staged fresh file expected.

(** ** [encoding.rs] *)

(** Encoding of a source that may change between the two representations. *)
Definition require_object_hash (actual expected : bytes) : result RepositoryError unit :=
  guard (bytes_eqb actual expected)
    (repo_error ("local object changed while publishing: expected '" +:+ show (display expected) +:+ "', got '" +:+ show (display actual) +:+ "'")).
Definition require_fs_file_hash (actual expected : bytes) : result RepositoryError unit :=
  guard (bytes_eqb actual expected)
    (repo_error ("local fs-file changed while publishing: expected '" +:+ show (display expected) +:+ "', got '" +:+ show (display actual) +:+ "'")).

Definition smaller (identity zstd : bytes) : bytes := if (len zstd <? len identity)%Z then zstd else identity.
Definition encode_preferred_object (path expected : bytes) (first second : WObj * FsObj) : result RepositoryError bytes :=
  let* (hash, identity) := encode_object true path first.1 first.2 Identity in
  require_object_hash hash expected ;;;
  let* (hash, zstd) := encode_object true path second.1 second.2 Zstd in
  require_object_hash hash expected ;;;
  Ok (smaller identity zstd).
Definition encode_preferred_fs_file (expected : bytes) (first second : u32 * u32 * WObj) : result RepositoryError bytes :=
  let* (hash, identity) := encode_fs_file true first.1.1 first.1.2 first.2 Identity in
  require_fs_file_hash hash expected ;;;
  let* (hash, zstd) := encode_fs_file true second.1.1 second.1.2 second.2 Zstd in
  require_fs_file_hash hash expected ;;;
  Ok (smaller identity zstd).
End Payloads.
