(* ===== verification/ContentFacts.v ===== *)
(** * Envelopes and what they carry

    The decoder of envelopes accepts exactly the output of the encoder; what is
    decoded has the identity asked for, and what is encoded is decoded again. *)

From S2P Require Import Prelude Errors Hash Cbor FsObject FsArchive FsManifestOps TarProfile TarExtract TarRoundTrip Content.

(** ** Items *)

(** What a routine of the stream decoder promises: it reads the encodings of valid
    values, and nothing else, from the front of its input. *)
Class StreamCodec {A : Type} (dec : bytes -> result RepositoryError (A * bytes)) (enc : A -> bytes) (valid : A -> Prop) : Prop := {
  stream_complete : forall a l, valid a -> dec (enc a ++ l) = Ok (a, l);
  stream_sound : forall a l l', wf_bytes l -> dec l = Ok (a, l') -> valid a /\ l = enc a ++ l' /\ wf_bytes l';
}.

Lemma write_head_shortest m v : (0 <= m < 8)%Z -> is_u64 v -> write_head m v = head_bytes m v.
Proof.
  intros Hm Hv. rewrite <- (app_nil_l (head_bytes m v)). change (@nil Z) with (Encoder.buf Encoder.new).
  rewrite <- (enc_head_spec _ m v Hm Hv). unfold write_head, Encoder.head. by repeat case_match.
Qed.

Lemma read_array_app x l : StreamDecoder.read_array (length x) (x ++ l) = Ok (x, l).
Proof.
  unfold StreamDecoder.read_array. rewrite length_app.
  rewrite (proj2 (Nat.ltb_ge _ _)) by lia. by rewrite take_app_length, drop_app_length.
Qed.
Lemma read_array_ok n l x l' : StreamDecoder.read_array n l = Ok (x, l') -> l = x ++ l' /\ length x = n.
Proof.
  unfold StreamDecoder.read_array. case_match; [done|]. bools. intros [= <- <-].
  rewrite take_drop, length_take. split; [done|]. lia.
Qed.
Lemma read_array_be n v l : (0 <= v < 256 ^ Z.of_nat n)%Z ->
  exists x, StreamDecoder.read_array n (be_bytes n v ++ l) = Ok (x, l) /\ from_be_bytes x = v.
Proof.
  intros Hv. exists (be_bytes n v). split; [|by apply from_be_bytes_be_bytes].
  rewrite <- (length_be_bytes n v) at 1. apply read_array_app.
Qed.

#[export] Instance stream_head_codec m name : (0 <= m < 8)%Z -> StreamCodec (StreamDecoder.head m name) (head_bytes m) is_u64.
Proof.
  intros Hm. split.
  - intros v l Hv. unfold is_u64 in Hv. unfold head_bytes.
    destruct (v <=? 23)%Z eqn:E0; [|destruct (v <=? 0xff)%Z eqn:E1;
      [|destruct (v <=? 0xffff)%Z eqn:E2; [|destruct (v <=? 0xffffffff)%Z eqn:E3]]];
      bools; unfold StreamDecoder.head; cbn [app StreamDecoder.byte];
      match goal with |- context [Z.shiftr (m * 32 + ?a) 5] => destruct (initial_byte m a Hm ltac:(lia)) as (-> & -> & _) end;
      rewrite Z.eqb_refl; cbn -[Z.leb Z.ltb StreamDecoder.byte StreamDecoder.read_array be_bytes].
    + by rewrite (proj2 (Z.leb_le v 23)) by lia.
    + cbn [StreamDecoder.byte]. unfold StreamDecoder.require_shortest. by rewrite (proj2 (Z.leb_le 24 v)) by lia.
    + destruct (read_array_be 2 v l) as (x & -> & ->); [lia|]. unfold StreamDecoder.require_shortest.
      by rewrite (proj2 (Z.ltb_lt _ v)) by lia.
    + destruct (read_array_be 4 v l) as (x & -> & ->); [lia|]. unfold StreamDecoder.require_shortest.
      by rewrite (proj2 (Z.ltb_lt _ v)) by lia.
    + destruct (read_array_be 8 v l) as (x & -> & ->); [lia|]. unfold StreamDecoder.require_shortest.
      by rewrite (proj2 (Z.ltb_lt _ v)) by lia.
  - intros v l l' Hw E. enough (is_u64 v /\ l = head_bytes m v ++ l') as [? ->] by (apply wf_bytes_app in Hw as [_ ?]; by split_and!).
    unfold StreamDecoder.head in E. destruct l as [|z l1]; [done|]. cbn [StreamDecoder.byte] in E.
    inversion_clear Hw as [|? ? Hz Hw1]. destruct (initial_split _ Hz) as (Hz1 & Hz2 & Hz3).
    destruct (negb _) eqn:Em in E; [done|]. bools. subst m. set (a := Z.land z 0x1f) in *. unfold is_u64, head_bytes.
    assert (forall n x l2 lo, StreamDecoder.read_array n l1 = Ok (x, l2) -> StreamDecoder.require_shortest (lo <? from_be_bytes x)%Z = Ok tt ->
      (lo < from_be_bytes x < 256 ^ Z.of_nat n)%Z /\ l1 = be_bytes n (from_be_bytes x) ++ l2) as Hread.
    { intros n x l2 lo [-> <-]%read_array_ok Hs. apply wf_bytes_app in Hw1 as [Hx _]. unfold StreamDecoder.require_shortest in Hs. inv_res.
      pose proof (from_be_bytes_bound x Hx) as [_ Hx2]. unfold len in Hx2. bools. rewrite be_bytes_from_be_bytes by done. split; [split; [done|done]|done]. }
    repeat match type of E with (if ?b then _ else _) = _ => destruct b eqn:?; bools end; try done.
    + injection E as <- <-. rewrite (proj2 (Z.leb_le a 23)) by lia. split; [lia|]. cbn. f_equal. lia.
    + destruct l1 as [|y l2]; [done|]. cbn [StreamDecoder.byte] in E. unfold StreamDecoder.require_shortest in E. inv_res.
      inversion_clear Hw1 as [|? ? Hy _]. unfold is_u8 in Hy. bools.
      rewrite (proj2 (Z.leb_gt v 23)), (proj2 (Z.leb_le v 0xff)) by lia. split; [lia|]. cbn. f_equal. lia.
    + destruct (StreamDecoder.read_array 2 l1) as [[x l2]|] eqn:Er; [|done]. destruct (StreamDecoder.require_shortest _) as [[]|] eqn:Es; [|done].
      destruct (Hread _ _ _ _ Er Es) as [Hb ->]. injection E as <- <-. cbn in Hb.
      rewrite !(proj2 (Z.leb_gt (from_be_bytes x) _)), (proj2 (Z.leb_le (from_be_bytes x) _)) by lia. split; [lia|]. cbn. f_equal. lia.
    + destruct (StreamDecoder.read_array 4 l1) as [[x l2]|] eqn:Er; [|done]. destruct (StreamDecoder.require_shortest _) as [[]|] eqn:Es; [|done].
      destruct (Hread _ _ _ _ Er Es) as [Hb ->]. injection E as <- <-. cbn in Hb.
      rewrite !(proj2 (Z.leb_gt (from_be_bytes x) _)), (proj2 (Z.leb_le (from_be_bytes x) _)) by lia. split; [lia|]. cbn. f_equal. lia.
    + destruct (StreamDecoder.read_array 8 l1) as [[x l2]|] eqn:Er; [|done]. destruct (StreamDecoder.require_shortest _) as [[]|] eqn:Es; [|done].
      destruct (Hread _ _ _ _ Er Es) as [Hb ->]. injection E as <- <-. cbn in Hb.
      rewrite !(proj2 (Z.leb_gt (from_be_bytes x) _)) by lia. split; [lia|]. cbn. f_equal. lia.
Qed.

Definition metadata_text (x : bytes) : Prop := (len x <= 128)%Z /\ is_utf8 x = true.
#[export] Instance stream_text_codec : StreamCodec StreamDecoder.text (str_bytes 3) metadata_text.
Proof.
  assert (StreamCodec (StreamDecoder.head 3 "text string") (head_bytes 3) is_u64) as Hh by (apply stream_head_codec; lia).
  split.
  - intros x l [Hl Hu]. pose proof (len_nonneg x). unfold StreamDecoder.text, str_bytes. rewrite <- app_assoc.
    rewrite (stream_complete (len x)) by (unfold is_u64; lia). rewrite (proj2 (Z.ltb_ge _ _)) by lia.
    unfold len. rewrite Nat2Z.id, read_array_app. by rewrite Hu.
  - intros x l l' Hw E. unfold StreamDecoder.text in E. destruct (StreamDecoder.head _ _ _) as [[n l1]|] eqn:Eh; [|done].
    apply stream_sound in Eh as (Hn & -> & Hw1); [|done]. unfold is_u64 in Hn. case_match; [done|]. bools.
    destruct (StreamDecoder.read_array _ _) as [[y l2]|] eqn:Er; [|done]. case_match eqn:Hu; [|done]. injection E as -> ->.
    apply read_array_ok in Er as [-> Hlen]. apply wf_bytes_app in Hw1 as [_ ?].
    assert (n = len x) as -> by (unfold len; lia). split_and!; [by split; [lia|]| |done].
    unfold str_bytes. by rewrite <- app_assoc.
Qed.
#[export] Instance stream_boolean_codec : StreamCodec StreamDecoder.boolean (fun b : bool => [if b then 0xf5 else 0xf4]%Z) (fun _ => True).
Proof.
  split; [by intros [] l _|]. intros b l l' Hw E. destruct l as [|z l]; [done|]. unfold StreamDecoder.boolean in E. cbn in E.
  inversion_clear Hw. repeat case_match; inv_res; bools; by subst.
Qed.
#[export] Instance stream_array_codec : StreamCodec StreamDecoder.array (head_bytes 4) is_u64 := stream_head_codec 4 _ ltac:(lia).
#[export] Instance stream_map_codec : StreamCodec StreamDecoder.map (head_bytes 5) is_u64 := stream_head_codec 5 _ ltac:(lia).
#[export] Instance stream_uint_codec : StreamCodec StreamDecoder.uint (head_bytes 0) is_u64 := stream_head_codec 0 _ ltac:(lia).
#[export] Instance stream_bytes_codec : StreamCodec StreamDecoder.bytes_length (head_bytes 2) is_u64 := stream_head_codec 2 _ ltac:(lia).

Lemma boolean_app (b : bool) l : StreamDecoder.boolean ([if b then 0xf5 else 0xf4]%Z ++ l) = Ok (b, l).
Proof. by destruct b. Qed.

Lemma require_text_app x l : metadata_text x -> require_text x (str_bytes 3 x ++ l) = Ok l.
Proof. intros Hx. unfold require_text. rewrite stream_complete by done. unfold bytes_eqb. by rewrite bool_decide_true. Qed.
Lemma require_text_ok x l l' : wf_bytes l -> require_text x l = Ok l' -> l = str_bytes 3 x ++ l' /\ wf_bytes l'.
Proof.
  intros Hw E. unfold require_text in E. destruct (StreamDecoder.text l) as [[y l1]|] eqn:Et; [|done].
  apply stream_sound in Et as (_ & -> & Hw1); [|done]. case_match; [|done]. bools. by injection E as ->; subst.
Qed.
Lemma fields_counted a n what u : require_length a n what = Ok u -> a = n.
Proof. unfold require_length. intros. inv_res. by bools. Qed.
Lemma parse_compression_name c : parse_compression (compression_name c) = Ok c.
Proof. by destruct c. Qed.
Lemma parse_compression_ok x c : parse_compression x = Ok c -> x = compression_name c.
Proof. unfold parse_compression. repeat case_match; intros; inv_res; by bools. Qed.

(** ** The exact language of envelopes *)

Definition common_suffix (c : Compression) (decoded_size encoded_size : Z) : bytes :=
  str_bytes 3 (lit "compression") ++ str_bytes 3 (compression_name c) ++
  str_bytes 3 (lit "decoded_size") ++ head_bytes 0 decoded_size ++ head_bytes 2 encoded_size.
Definition kind_fields (kind : ObjectKind) : bytes :=
  match kind with
  | OFile executable => str_bytes 3 (lit "file") ++ str_bytes 3 (lit "executable") ++ [if executable then 0xf5 else 0xf4]%Z
  | ODirectory => str_bytes 3 (lit "directory") ++ str_bytes 3 (lit "archive") ++ str_bytes 3 (lit "tar")
  end.

Lemma write_text_short x : (len x <= 128)%Z -> write_text x = str_bytes 3 x.
Proof. intros. pose proof (len_nonneg x). unfold write_text, str_bytes. by rewrite write_head_shortest by (unfold is_u64; lia). Qed.
Lemma compression_text c : metadata_text (compression_name c).
Proof. by destruct c. Qed.

Lemma object_prefix_fields kind c d e : is_u64 d -> is_u64 e ->
  write_object_prefix kind c d e = head_bytes 4 2 ++ head_bytes 5 4 ++ str_bytes 3 (lit "kind") ++ kind_fields kind ++ common_suffix c d e.
Proof.
  intros Hd He. unfold write_object_prefix, common_suffix, kind_fields.
  rewrite (write_head_shortest 0 d), (write_head_shortest 2 e) by (done || lia). by destruct kind, c.
Qed.
Lemma fs_file_prefix_fields m c e : is_u64 (fm_uid m) -> is_u64 (fm_gid m) -> is_u64 (fm_mode m) -> is_u64 (fm_decoded_size m) -> is_u64 e ->
  write_fs_file_prefix m c e = head_bytes 4 2 ++ head_bytes 5 5 ++ str_bytes 3 (lit "gid") ++ head_bytes 0 (fm_gid m) ++
    str_bytes 3 (lit "uid") ++ head_bytes 0 (fm_uid m) ++ str_bytes 3 (lit "mode") ++ head_bytes 0 (fm_mode m) ++
    common_suffix c (fm_decoded_size m) e.
Proof.
  intros. unfold write_fs_file_prefix, common_suffix. rewrite !(write_head_shortest 0), (write_head_shortest 2 e) by (done || lia).
  by destruct c.
Qed.

(** The sizes an envelope may declare. *)
Definition sizes_ok (decoded_size encoded_size : Z) : Prop :=
  (0 <= decoded_size <= MAX_DECODED_CONTENT_BYTES)%Z /\ (0 <= encoded_size <= MAX_ENCODED_CONTENT_BYTES)%Z.
Lemma sizes_u64 d e : sizes_ok d e -> is_u64 d /\ is_u64 e.
Proof. unfold sizes_ok, is_u64, MAX_DECODED_CONTENT_BYTES, MAX_ENCODED_CONTENT_BYTES. lia. Qed.

Lemma parse_common_complete c d payload front :
  sizes_ok d (len payload) -> (len front + len (common_suffix c d (len payload)) + len payload < 2 ^ 64)%Z ->
  parse_common (front ++ common_suffix c d (len payload) ++ payload) (common_suffix c d (len payload) ++ payload) =
  Ok (mkCommonEnvelope c d (len front + len (common_suffix c d (len payload))) (len payload)).
Proof.
  intros Hs Hb. destruct (sizes_u64 _ _ Hs) as [Hd He]. unfold parse_common. set (file := front ++ _).
  assert (len file = len front + len (common_suffix c d (len payload)) + len payload)%Z as Hf by (unfold file; rewrite !len_app; lia).
  pose proof (len_nonneg front). pose proof (len_nonneg (common_suffix c d (len payload))).
  unfold common_suffix. rewrite <- !app_assoc.
  rewrite require_text_app by done. rewrite (stream_complete (compression_name c)) by apply compression_text.
  rewrite parse_compression_name. rewrite require_text_app by done. rewrite (stream_complete d), (stream_complete (len payload)) by done.
  fold (common_suffix c d (len payload)). unfold validate_payload_extent, check_content_sizes.
  destruct Hs as [[? ?] [? ?]]. rewrite (proj2 (Z.ltb_ge _ _)), (proj2 (Z.ltb_ge _ _)) by done. cbn [orb negb guard].
  rewrite checked_add_some by lia. cbn [ok_or]. replace (len file =? _)%Z with true by (symmetry; apply Z.eqb_eq; lia).
  cbn [guard]. do 2 f_equal. lia.
Qed.

Lemma parse_common_sound file front input e : file = front ++ input -> wf_bytes input -> parse_common file input = Ok e ->
  exists payload, file = front ++ common_suffix (ce_compression e) (ce_decoded_size e) (ce_encoded_size e) ++ payload /\
    sizes_ok (ce_decoded_size e) (ce_encoded_size e) /\ ce_encoded_size e = len payload /\
    ce_payload_offset e = (len front + len (common_suffix (ce_compression e) (ce_decoded_size e) (ce_encoded_size e)))%Z.
Proof.
  intros Hf Hw E. unfold parse_common in E.
  destruct (require_text _ input) as [l1|] eqn:E1; [|done]. apply require_text_ok in E1 as [-> Hw1]; [|done].
  destruct (StreamDecoder.text l1) as [[name l2]|] eqn:E2; [|done]. apply stream_sound in E2 as (_ & -> & Hw2); [|done].
  destruct (parse_compression name) as [c|] eqn:E3; [|done]. apply parse_compression_ok in E3 as ->.
  destruct (require_text _ l2) as [l3|] eqn:E4; [|done]. apply require_text_ok in E4 as [-> Hw3]; [|done].
  destruct (StreamDecoder.uint l3) as [[d l4]|] eqn:E5; [|done]. apply stream_sound in E5 as (Hd & -> & Hw4); [|done].
  destruct (StreamDecoder.bytes_length l4) as [[n l5]|] eqn:E6; [|done]. apply stream_sound in E6 as (Hn & -> & Hw5); [|done].
  destruct (validate_payload_extent _ _ _ _) eqn:E7; [|done]. injection E as <-. cbn.
  unfold validate_payload_extent, check_content_sizes in E7. inv_res. bools.
  match goal with Ha : checked_add _ _ = Some _ |- _ => unfold checked_add in Ha; case_match; [|done]; injection Ha as <- end. bools.
  unfold is_u64 in *. exists l5.
  assert (len file = len front + len (common_suffix c d n) + len l5)%Z.
  { rewrite Hf. unfold common_suffix. rewrite !len_app. lia. }
  split_and!; [rewrite Hf; unfold common_suffix; by rewrite <- !app_assoc|split; lia|lia|lia].
Qed.

(** A representation: its prefix, within the limits, and its payload. *)
Definition represented (file prefix payload : bytes) (c : CommonEnvelope) : Prop :=
  file = prefix ++ payload /\ sizes_ok (ce_decoded_size c) (ce_encoded_size c) /\ ce_encoded_size c = len payload /\
  ce_payload_offset c = len prefix /\ (len file <= MAX_ENCODED_CONTENT_BYTES)%Z.

Ltac next_item :=
  match goal with
  | E : (match require_text ?x ?l with _ => _ end) = Ok _, W : wf_bytes ?l |- _ =>
      let E1 := fresh "E1" in destruct (require_text x l) as [?|] eqn:E1; [|discriminate E];
      apply require_text_ok in E1 as [-> ?]; [|exact W]
  | E : (match ?f ?l with _ => _ end) = Ok _, W : wf_bytes ?l |- _ =>
      let E1 := fresh "E1" in destruct (f l) as [[? ?]|] eqn:E1; [|discriminate E];
      apply stream_sound in E1 as (? & -> & ?); [|exact W]
  | E : (match require_length ?a ?n ?w with _ => _ end) = Ok _ |- _ =>
      let E1 := fresh "E1" in destruct (require_length a n w) as [?|] eqn:E1; [|discriminate E];
      apply fields_counted in E1; try subst
  | E : (match require_u32 ?a ?w with _ => _ end) = Ok _ |- _ =>
      unfold require_u32 at 1 in E; destruct (a <? 2 ^ 32)%Z eqn:?; [|discriminate E]
  end.

Lemma checked_file file u : check_encoded_file file = Ok u -> (len file <= MAX_ENCODED_CONTENT_BYTES)%Z.
Proof. unfold check_encoded_file. intros. inv_res. by bools. Qed.
Lemma check_file_ok file : (len file <= MAX_ENCODED_CONTENT_BYTES)%Z -> check_encoded_file file = Ok tt.
Proof. intros. unfold check_encoded_file. by rewrite (proj2 (Z.ltb_ge _ _)). Qed.

Lemma object_envelope_sound file env : wf_bytes file -> parse_object_envelope file = Ok env ->
  let c := oe_common env in
  exists payload, represented file (write_object_prefix (oe_kind env) (ce_compression c) (ce_decoded_size c) (ce_encoded_size c)) payload c.
Proof.
  intros Hw E. unfold parse_object_envelope in E. destruct (check_encoded_file file) eqn:Ec; [|done]. apply checked_file in Ec.
  do 5 next_item. rename l into name, l0 into rest.
  match type of E with match ?m with _ => _ end = _ => destruct m as [[kind input]|] eqn:Ek; [|done] end.
  assert (str_bytes 3 name ++ rest = kind_fields kind ++ input /\ wf_bytes input /\ z = 4%Z) as (Hk & Hin & ->).
  { destruct (bytes_eqb name (lit "file")) eqn:En; [|destruct (bytes_eqb name (lit "directory")) eqn:En'; [|done]]; bools; subst name;
      repeat next_item; [|destruct (bytes_eqb _ (lit "tar")) eqn:Et in Ek; [|done]; bools; subst]; injection Ek as <- <-; cbn [kind_fields]; by rewrite <- ?app_assoc. }
  destruct (parse_common _ input) as [common|] eqn:Ep; [|done]. injection E as <-. cbn [oe_common oe_kind]. rewrite Hk in *.
  eapply (parse_common_sound _ (head_bytes 4 2 ++ head_bytes 5 4 ++ str_bytes 3 (lit "kind") ++ kind_fields kind)) in Ep
    as (payload & Hp & Hs & He & Ho); [|by rewrite <- !app_assoc|done].
  destruct (sizes_u64 _ _ Hs). exists payload. unfold represented. rewrite object_prefix_fields by done. split_and!; try done.
  - rewrite Hp. by rewrite <- !app_assoc.
  - rewrite Ho, <- len_app. by rewrite <- !app_assoc.
Qed.

Lemma object_envelope_complete kind c d payload : sizes_ok d (len payload) ->
  (len (write_object_prefix kind c d (len payload) ++ payload) <= MAX_ENCODED_CONTENT_BYTES)%Z ->
  parse_object_envelope (write_object_prefix kind c d (len payload) ++ payload) =
  Ok (mkObjectEnvelope kind (mkCommonEnvelope c d (len (write_object_prefix kind c d (len payload))) (len payload))).
Proof.
  intros Hs Hlen. destruct (sizes_u64 _ _ Hs). unfold parse_object_envelope. rewrite check_file_ok by done.
  rewrite object_prefix_fields in * by done.
  set (front := head_bytes 4 2 ++ head_bytes 5 4 ++ str_bytes 3 (lit "kind") ++ kind_fields kind).
  assert (head_bytes 4 2 ++ head_bytes 5 4 ++ str_bytes 3 (lit "kind") ++ kind_fields kind ++ common_suffix c d (len payload) =
          front ++ common_suffix c d (len payload)) as Hsplit by (unfold front; by rewrite <- !app_assoc).
  assert (parse_common ((front ++ common_suffix c d (len payload)) ++ payload) (common_suffix c d (len payload) ++ payload) =
    Ok (mkCommonEnvelope c d (len front + len (common_suffix c d (len payload))) (len payload))) as Hc.
  { rewrite <- app_assoc. apply parse_common_complete; [done|]. rewrite Hsplit in Hlen. rewrite !len_app in Hlen.
    unfold MAX_ENCODED_CONTENT_BYTES in Hlen. lia. }
  rewrite Hsplit. rewrite len_app. rewrite <- Hsplit at 1. rewrite <- !app_assoc.
  rewrite (stream_complete 2%Z) by done. cbn [require_length guard Z.eqb Pos.eqb]. rewrite (stream_complete 4%Z) by done.
  rewrite require_text_app by done.
  destruct kind as [executable|]; cbn [kind_fields]; rewrite <- !app_assoc.
  - rewrite (stream_complete (lit "file")) by done. cbn [bytes_eqb]. change (bytes_eqb (lit "file") (lit "file")) with true. cbn [guard require_length Z.eqb Pos.eqb].
    rewrite require_text_app by done. rewrite boolean_app. rewrite <- app_assoc in Hc. by rewrite Hc.
  - rewrite (stream_complete (lit "directory")) by done. change (bytes_eqb (lit "directory") (lit "file")) with false.
    change (bytes_eqb (lit "directory") (lit "directory")) with true. cbn [guard require_length Z.eqb Pos.eqb].
    rewrite require_text_app by done. rewrite (stream_complete (lit "tar")) by done. change (bytes_eqb (lit "tar") (lit "tar")) with true. cbv iota.
    rewrite <- app_assoc in Hc. by rewrite Hc.
Qed.

(** The metadata of a filesystem file, each field of its width. *)
Definition file_metadata (m : FsFileMetadata) : Prop :=
  (0 <= fm_uid m < 2 ^ 32)%Z /\ (0 <= fm_gid m < 2 ^ 32)%Z /\ (0 <= fm_mode m <= FsManifest.MODE_MAX)%Z.

Lemma fs_file_envelope_sound file env : wf_bytes file -> parse_fs_file_envelope file = Ok env ->
  let m := pe_metadata env in let c := pe_common env in
  file_metadata m /\ fm_decoded_size m = ce_decoded_size c /\
  exists payload, represented file (write_fs_file_prefix m (ce_compression c) (ce_encoded_size c)) payload c.
Proof.
  intros Hw E. unfold parse_fs_file_envelope in E. destruct (check_encoded_file file) eqn:Ec; [|done]. apply checked_file in Ec.
  repeat next_item. destruct (FsManifest.MODE_MAX <? _)%Z eqn:Em in E; [done|].
  match type of E with match parse_common ?f ?l with _ => _ end = _ => destruct (parse_common f l) as [common|] eqn:Ep; [|done] end.
  injection E as <-. cbn [pe_metadata pe_common fm_decoded_size]. bools. unfold is_u64 in *.
  split; [by split_and!; cbn; lia|]. split; [done|].
  match type of Ep with parse_common (_ ++ _ ++ _ ++ head_bytes 0 ?g ++ _ ++ head_bytes 0 ?u ++ _ ++ head_bytes 0 ?m ++ _) _ = _ =>
    eapply (parse_common_sound _ (head_bytes 4 2 ++ head_bytes 5 5 ++ str_bytes 3 (lit "gid") ++ head_bytes 0 g ++
      str_bytes 3 (lit "uid") ++ head_bytes 0 u ++ str_bytes 3 (lit "mode") ++ head_bytes 0 m)) in Ep
    as (payload & Hp & Hs & He & Ho); [|by rewrite <- !app_assoc|done] end.
  destruct (sizes_u64 _ _ Hs) as [Hd Hn]. exists payload. unfold represented. rewrite fs_file_prefix_fields by (cbn; unfold is_u64 in *; lia).
  cbn [fm_uid fm_gid fm_mode fm_decoded_size]. split_and!; try done.
  - rewrite Hp. by rewrite <- !app_assoc.
  - rewrite Ho, <- len_app. by rewrite <- !app_assoc.
Qed.

Lemma fs_file_envelope_complete m c payload : file_metadata m -> sizes_ok (fm_decoded_size m) (len payload) ->
  (len (write_fs_file_prefix m c (len payload) ++ payload) <= MAX_ENCODED_CONTENT_BYTES)%Z ->
  parse_fs_file_envelope (write_fs_file_prefix m c (len payload) ++ payload) =
  Ok (mkParsedFsFileEnvelope m (mkCommonEnvelope c (fm_decoded_size m) (len (write_fs_file_prefix m c (len payload))) (len payload))).
Proof.
  intros (Hu & Hg & Hm) Hs Hlen. destruct (sizes_u64 _ _ Hs). unfold parse_fs_file_envelope. rewrite check_file_ok by done.
  unfold FsManifest.MODE_MAX in Hm. rewrite fs_file_prefix_fields in * by (done || unfold is_u64; lia).
  destruct m as [uid gid mode d]. cbn [fm_uid fm_gid fm_mode fm_decoded_size] in *.
  set (front := head_bytes 4 2 ++ head_bytes 5 5 ++ str_bytes 3 (lit "gid") ++ head_bytes 0 gid ++
    str_bytes 3 (lit "uid") ++ head_bytes 0 uid ++ str_bytes 3 (lit "mode") ++ head_bytes 0 mode).
  match type of Hlen with (len (?x ++ payload) <= _)%Z => assert (x = front ++ common_suffix c d (len payload)) as Hsplit
    by (unfold front; by rewrite <- !app_assoc) end.
  assert (parse_common ((front ++ common_suffix c d (len payload)) ++ payload) (common_suffix c d (len payload) ++ payload) =
    Ok (mkCommonEnvelope c d (len front + len (common_suffix c d (len payload))) (len payload))) as Hc.
  { rewrite <- app_assoc. apply parse_common_complete; [done|]. rewrite Hsplit in Hlen. rewrite !len_app in Hlen.
    unfold MAX_ENCODED_CONTENT_BYTES in Hlen. lia. }
  rewrite Hsplit. rewrite len_app. rewrite <- Hsplit at 1. rewrite <- !app_assoc.
  rewrite (stream_complete 2%Z) by done. cbn [require_length guard Z.eqb Pos.eqb]. rewrite (stream_complete 5%Z) by done.
  cbn [require_length guard Z.eqb Pos.eqb].
  rewrite require_text_app by done. rewrite (stream_complete gid) by (unfold is_u64; lia).
  unfold require_u32. rewrite (proj2 (Z.ltb_lt gid _)) by lia.
  rewrite require_text_app by done. rewrite (stream_complete uid) by (unfold is_u64; lia). rewrite (proj2 (Z.ltb_lt uid _)) by lia.
  rewrite require_text_app by done. rewrite (stream_complete mode) by (unfold is_u64; lia). rewrite (proj2 (Z.ltb_lt mode _)) by lia.
  rewrite (proj2 (Z.ltb_ge _ mode)) by (unfold FsManifest.MODE_MAX; lia).
  rewrite <- app_assoc in Hc. by rewrite Hc.
Qed.

(** ** One tree seen by the archiver, the hasher and the extractor *)

Section Trees.
Context `{Sha256Api}.

(** What the hasher's calls answer about a source the archiver sees. *)
Fixpoint shown (w : WObj) : FsObj :=
  match w with
  | WDir (Ok l) => FDir (Ok (map (fun e => Ok (e.1, shown e.2)) l))
  | WDir (Err e) => FDir (Err e)
  | WFile mode _ content => FRegular mode (c <- content ;; Ok [Chunk c; Chunk []])
  | WLink target => FSymlink target
  | WSpecial | WUnknown => FSpecial
  | WNoMetadata e => FNoMetadata e
  end.

Fixpoint node_of (w : WObj) : Node :=
  match w with
  | WDir (Ok l) => NDirectory (sort_by fst (map (fun e => (e.1, node_of e.2)) l))
  | WFile mode _ (Ok c) => NFile (mkFileNode (is_executable mode) (sha256 c) (len c))
  | WLink (Ok t) => NSymlink t
  | _ => NDirectory []
  end.

Lemma reader_two_chunks c : sha256_reader [Chunk c; Chunk []] = Ok (sha256 c, len c).
Proof. by destruct c. Qed.

Lemma try_map_all {E A B} (f : A -> result E B) (g : A -> B) l : (forall x, x ∈ l -> f x = Ok (g x)) -> try_map f l = Ok (map g l).
Proof.
  induction l as [|x l IH]; intros Hf; [done|]. cbn. rewrite Hf by left. by rewrite IH by (intros; apply Hf; by right).
Qed.

Lemma read_shown w path : good w -> read_child (shown w) path = Ok (node_of w).
Proof.
  revert path. induction w as [e|l IH|m z c|t| | |e] using WObj_nested_ind; intros path Hg; inversion_clear Hg as [? Hnd Hl| |]; cbn [shown read_child].
  - rewrite (try_map_all _ (fun e => match e with Ok (n, o) => (n, match assoc n l with Some c => node_of c | None => NDirectory [] end) | Err _ => ([], NDirectory []) end)).
    + cbn. do 3 f_equal. rewrite map_map. apply map_ext_in. intros [n c] Hin%list_elem_of_In. cbn. by rewrite (proj2 (assoc_in n l c Hnd) Hin).
    + intros x (e & -> & Hin)%list_elem_of_fmap. destruct e as [n c]. cbn.
      rewrite Forall_forall in IH, Hl. destruct (Hl _ Hin) as [_ Hgc]. specialize (IH (n, c) Hin (child_path path n) Hgc). cbn [snd] in IH. rewrite IH.
      by rewrite (proj2 (assoc_in n l c Hnd) Hin).
  - unfold read_file_node. cbn [map_err]. by rewrite reader_two_chunks.
  - done.
Qed.

Lemma NoDup_omap {A B} (f : A -> option B) (l : list A) :
  (forall x y b, f x = Some b -> f y = Some b -> x = y) -> NoDup l -> NoDup (omap f l).
Proof.
  intros Hf. induction 1 as [|x l Hx Hnd IH]; [constructor|]. cbn. destruct (f x) as [b|] eqn:E; [|done]. constructor; [|done].
  rewrite list_elem_of_omap. intros (y & Hy & E'). by rewrite (Hf _ _ _ E E') in Hx.
Qed.
Lemma children_NoDup (t : Tree) p : NoDup (children_of t p).
Proof.
  unfold children_of. rewrite sort_by_perm. apply NoDup_omap.
  - intros q q' n E E'. repeat case_bool_decide; try done.
    apply last_Some in E as [k ->]. apply last_Some in E' as [k' ->]. rewrite !removelast_last in *. congruence.
  - apply NoDup_fst_map_to_list.
Qed.

(** A source that a tree holds below [p], in canonical form. *)
Definition held (mkdir_mode : Z) (t : Tree) (p : list bytes) (w : WObj) : Prop :=
  forall q, t !! (p ++ q) = canonical_node <$> x_at mkdir_mode w q.

Lemma held_child (mkdir_mode : Z) t p l n c : NoDup (map fst l) -> (n, c) ∈ l -> held mkdir_mode t p (WDir (Ok l)) -> held mkdir_mode t (p ++ [n]) c.
Proof. intros Hnd Hin Hh q. rewrite <- app_assoc. cbn [app]. rewrite (Hh (n :: q)). cbn [x_at]. by rewrite (proj2 (assoc_in n l c Hnd) Hin). Qed.

Lemma held_names (mkdir_mode : Z) t p (l : list (bytes * WObj)) : NoDup (map fst l) -> Forall (fun e => good e.2) l -> held mkdir_mode t p (WDir (Ok l)) ->
  children_of t p ≡ₚ map fst l.
Proof.
  intros Hnd Hg Hh. apply NoDup_Permutation; [apply children_NoDup|done|]. intros n. rewrite children_of_spec, (Hh [n]). cbn [x_at].
  rewrite list_elem_of_fmap. split.
  - intros [x Hx]. destruct (assoc n l) as [c|] eqn:Ea; [|done]. exists (n, c). split; [done|]. by apply assoc_in.
  - intros ([n' c] & -> & Hin). cbn. rewrite (proj2 (assoc_in n' l c Hnd) Hin). rewrite Forall_forall in Hg.
    specialize (Hg _ Hin). cbn in Hg. destruct Hg; by eexists.
Qed.

Lemma canonical_executable mode : is_executable (if negb (Z.land mode MODE_X =? 0)%Z then MODE_755 else MODE_644) = is_executable mode.
Proof. unfold is_executable, MODE_X. by destruct (Z.land mode 73 =? 0)%Z. Qed.

Lemma read_seen (mkdir_mode : Z) w fuel t p path : good w -> held mkdir_mode t p w ->
  (forall q, is_Some (t !! (p ++ q)) -> (length q < fuel)%nat) -> read_child (seen_at fuel t p) path = Ok (node_of w).
Proof.
  revert fuel p path. induction w as [e|l IH|m z c|tg| | |e] using WObj_nested_ind; intros fuel p path Hg Hh Hf; inversion Hg as [? Hnd Hl| |]; subst;
    (assert (t !! p = canonical_node <$> x_at mkdir_mode _ []) as Hp by (rewrite <- (app_nil_r p) at 1; apply Hh));
    cbn in Hp.
  - destruct fuel as [|fuel]; [exfalso; specialize (Hf []); rewrite app_nil_r, Hp in Hf; specialize (Hf ltac:(by eexists)); cbn in Hf; lia|].
    cbn [seen_at]. rewrite Hp. cbn [x_kind canonical_node read_child].
    assert (children_of t p ≡ₚ map fst l) as Hc by (eapply held_names; [done| |done]; eapply Forall_impl; [done|]; by intros ? []).
    rewrite (try_map_all _ (fun e => match e with Ok (n, o) => (n, match assoc n l with Some c => node_of c | None => NDirectory [] end) | Err _ => ([], NDirectory []) end)).
    + cbn [node_of]. do 2 f_equal. rewrite map_map. cbn [fst]. apply sort_by_unique.
      * rewrite map_map. cbn [fst]. rewrite map_id. apply children_NoDup.
      * rewrite Hc, map_map. erewrite map_ext_in; [reflexivity|]. intros [n c] Hin%list_elem_of_In. cbn. by rewrite (proj2 (assoc_in n l c Hnd) Hin).
    + intros x (n & -> & Hin)%list_elem_of_fmap. rewrite Hc in Hin. apply list_elem_of_fmap in Hin as ([n' c] & -> & Hin). cbn [fst].
      rewrite Forall_forall in IH, Hl. destruct (Hl _ Hin) as [_ Hgc].
      specialize (IH (n', c) Hin fuel (p ++ [n']) (child_path path n') Hgc). cbn [snd] in IH. rewrite IH; [by rewrite (proj2 (assoc_in n' l c Hnd) Hin)|by eapply held_child|].
      intros q Hq. rewrite <- app_assoc in Hq. apply Hf in Hq. cbn in Hq. lia.
  - destruct fuel; cbn [seen_at]; rewrite Hp; cbn [x_kind canonical_node read_child x_mode x_is_dir node_of]; unfold read_file_node; cbn [map_err];
      rewrite reader_two_chunks; cbn [map_err]; by rewrite canonical_executable.
  - destruct fuel; cbn [seen_at]; rewrite Hp; done.
Qed.

Lemma hash_seen (mkdir_mode : Z) w t path : good w -> (exists l, w = WDir (Ok l)) -> held mkdir_mode t [] w ->
  hash_path path (seen t) = Ok (hash_node (node_of w)).
Proof.
  intros Hg [l ->] Hh. unfold hash_path, load_path, seen.
  assert (read_child (seen_at (S (tree_depth t)) t []) path = Ok (node_of (WDir (Ok l)))) as Hr.
  { eapply read_seen; [done|done|]. intros q [n Hn]. apply tree_depth_spec in Hn. cbn in Hn. lia. }
  destruct (seen_at _ t []) eqn:Es; try by rewrite Hr.
  exfalso. cbn [seen_at] in Es. by rewrite (Hh [] : t !! [] = _) in Es.
Qed.
End Trees.

(** ** Payloads *)

Section Payload.
Context `{Sha256Api} `{ZstdApi}.

(** A payload that holds a content: nothing else, or one complete frame. *)
Definition unpacks (c : Compression) (payload content : bytes) : Prop :=
  match c with
  | Identity => payload = content
  | Zstd => take 4 payload = zstd_magic /\ zstd_decode (Z.log2 MAX_ZSTD_WINDOW_BYTES) payload = (content, Ok 0%Z)
  end.

Lemma payload_of file prefix payload c : represented file prefix payload c ->
  take (Z.to_nat (ce_encoded_size c)) (drop (Z.to_nat (ce_payload_offset c)) file) = payload.
Proof.
  intros (-> & _ & -> & -> & _). unfold len. rewrite !Nat2Z.id, drop_app_length. by rewrite firstn_all.
Qed.

(** A payload that has been opened unpacks to what it reads, if it reads to an end
    with nothing left. *)
Lemma open_payload_spec file prefix payload c p : represented file prefix payload c -> open_decoded_payload file c = Ok p ->
  s_error (dp_stream p) = None -> payload_finish p = Ok tt -> unpacks (ce_compression c) payload (s_data (dp_stream p)).
Proof.
  intros Hr E He Hf. pose proof (payload_of _ _ _ _ Hr) as Hp. destruct Hr as (_ & _ & Hlen & _). unfold open_decoded_payload in E. rewrite Hp, Hlen in E.
  unfold unpacks. destruct (ce_compression c); [by injection E as <-|].
  destruct (StreamDecoder.read_array 4 payload) as [[magic rest]|] eqn:Em; [|done]. apply read_array_ok in Em as [-> Hm].
  destruct (negb _) eqn:Eb in E; [done|]. bools. subst magic. split; [rewrite <- Hm; by rewrite take_app_length|].
  destruct (zstd_decode _ _) as [data [n|e]] eqn:Ez; injection E as <-; [|done]. cbn in Hf |- *.
  unfold payload_finish in Hf. cbn in Hf. inv_res. bools. do 2 f_equal. lia.
Qed.
Lemma open_payload_complete file prefix payload c content : represented file prefix payload c -> unpacks (ce_compression c) payload content ->
  open_decoded_payload file c = Ok (mkDecodedPayload (ce_compression c) (mkStream content None) 0).
Proof.
  intros Hr Hu. pose proof (payload_of _ _ _ _ Hr) as Hp. destruct Hr as (_ & _ & Hlen & _). unfold open_decoded_payload. rewrite Hp, Hlen.
  unfold unpacks in Hu. destruct (ce_compression c); [subst; by rewrite Z.sub_diag|]. destruct Hu as [Hm Hz].
  unfold StreamDecoder.read_array. rewrite (proj2 (Nat.ltb_ge _ _)) by (apply (f_equal length) in Hm; rewrite length_take in Hm; change (length zstd_magic) with 4%nat in Hm; lia).
  rewrite Hm. change (bytes_eqb zstd_magic zstd_magic) with true. cbn [negb]. rewrite Hz. by rewrite Z.sub_diag.
Qed.

Lemma decode_payload_ok file prefix payload c content size digest : represented file prefix payload c ->
  decode_payload file c = Ok (content, (size, digest)) ->
  unpacks (ce_compression c) payload content /\ ce_decoded_size c = len content /\ size = len content /\ digest = sha256 content.
Proof.
  intros Hr E. unfold decode_payload in E. destruct (open_decoded_payload file c) as [p|] eqn:Eo; [|done].
  destruct (copy_hashing_exact _ _) as [[n h]|] eqn:Ec; [|done]. destruct (payload_finish p) as [[]|] eqn:Ef; [|done].
  unfold require_decoded_size in E. inv_res. bools. unfold copy_hashing_exact, at_end in Ec. case_match; [done|].
  destruct (s_error (dp_stream p)) eqn:Ee; [done|]. injection Ec as <- <-. split_and!; [by eapply open_payload_spec|done|done|done].
Qed.
Lemma payload_decoded file prefix payload c content : represented file prefix payload c ->
  unpacks (ce_compression c) payload content -> ce_decoded_size c = len content ->
  decode_payload file c = Ok (content, (len content, sha256 content)).
Proof.
  intros Hr Hu Hd. unfold decode_payload. erewrite open_payload_complete by done. cbn. unfold copy_hashing_exact. cbn.
  rewrite Hd, Z.ltb_irrefl. cbn. unfold require_decoded_size. by rewrite Z.eqb_refl.
Qed.

(** ** Objects *)

Context (mkdir_mode open_mode : Z).

(** The tree that is placed for an object of that content. *)
Definition placed (kind : ObjectKind) (content : bytes) (t : Tree) : Prop :=
  match kind with
  | OFile executable => t = {[ [] := mkXNode (XFile content) (if executable then MODE_755 else MODE_644) (Some CANONICAL_TIMESTAMP) ]}
  | ODirectory => exists s, extract_directory_tar mkdir_mode open_mode content = Some (Ok (len content, s)) /\ t = tree s
  end.

Lemma hash_placed_file path executable content t : placed (OFile executable) content t ->
  hash_path path (seen t) = Ok (hash_file_node executable (len content) (sha256 content)).
Proof.
  intros ->. unfold hash_path, load_path, seen. cbn [seen_at]. rewrite lookup_singleton_eq. cbn [x_kind x_mode read_child].
  unfold read_file_node. cbn [map_err]. rewrite reader_two_chunks. cbn [map_err]. by destruct executable.
Qed.

Lemma extract_total input : exists r, extract_directory_tar mkdir_mode open_mode input = Some r.
Proof.
  unfold extract_directory_tar. cbv zeta. set (s := mkExtractState _ _ _ _ _ _ _ _).
  destruct (extract_loop _ _ _ s) as [[s'|e]|] eqn:E; [by eexists|by eexists|].
  exfalso. eapply loop_total; [|exact E]. cbn. lia.
Qed.

(** What a successful extraction through the bounded reader has read. *)
Lemma extract_exact p d n t : extract_stream mkdir_mode open_mode (exact (dp_stream p) d) = Some (Ok (n, t)) ->
  exact_finish (dp_stream p) d p = Ok tt -> (0 <= d)%Z ->
  s_error (dp_stream p) = None /\ payload_finish p = Ok tt /\ d = len (s_data (dp_stream p)) /\
  exists s, extract_directory_tar mkdir_mode open_mode (s_data (dp_stream p)) = Some (Ok (n, s)) /\ t = tree s.
Proof.
  intros E Hf Hd. unfold exact_finish in Hf. inv_res. bools. unfold extract_stream in E. cbn [exact s_data] in E.
  destruct (extract_directory_tar _ _ _) as [[[m s]|e]|] eqn:Ex; [|by destruct (ran_out e); [destruct (at_end _ tt)|]|done].
  unfold at_end, exact in E. cbn [s_error] in E. destruct (d <? len _)%Z eqn:El; [done|]. destruct (s_error (dp_stream p)) eqn:Ee; [done|].
  bools. injection E as <- <-. assert (d = len (s_data (dp_stream p))) as Hdl by lia.
  split_and!; [done|done|done|]. exists s. split; [|done]. rewrite <- Ex. f_equal. rewrite Hdl. unfold len. by rewrite Nat2Z.id, firstn_all.
Qed.

Lemma decode_object_total existing parent_is_dir staging file expected :
  exists r, decode_object mkdir_mode open_mode existing parent_is_dir staging file expected = Some r.
Proof.
  unfold decode_object. destruct (require_absent existing ;;; _) as [env|e]; [|by eexists]. destruct (oe_kind env); [by eexists|].
  destruct (open_decoded_payload _ _) as [p|]; [|by eexists]. unfold extract_stream.
  destruct (extract_total (s_data (exact (dp_stream p) (ce_decoded_size (oe_common env))))) as [r ->]. destruct r as [[]|]; by eexists.
Qed.

Lemma decode_object_sound existing parent_is_dir staging file expected kind t : wf_bytes file ->
  decode_object mkdir_mode open_mode existing parent_is_dir staging file expected = Some (Ok (kind, t)) ->
  hash_path staging (seen t) = Ok expected /\
  exists c content payload, file = write_object_prefix kind c (len content) (len payload) ++ payload /\
    unpacks c payload content /\ placed kind content t.
Proof.
  intros Hw E. unfold decode_object in E. destruct (require_absent existing ;;; _) as [env|e] eqn:Ee; [|done].
  destruct (require_absent existing) as [?|]; [|done]. destruct (parse_object_envelope file) as [env'|] eqn:Ep; [|done].
  assert (env' = env) as -> by (destruct (output_parent parent_is_dir); [by injection Ee|done]).
  apply object_envelope_sound in Ep as [payload Hr]; [|done]. pose proof Hr as (Hfile & Hs & Hlen & _). destruct (oe_kind env) as [executable|].
  - injection E as E. destruct (decode_payload file _) as [[content [size digest]]|] eqn:Ed; [|done].
    eapply decode_payload_ok in Ed as (Hu & Hd & -> & ->); [|done]. destruct (negb _) eqn:Eb in E; [done|]. injection E as <- <-. bools. subst expected.
    split; [by apply hash_placed_file|]. exists (ce_compression (oe_common env)), content, payload. by rewrite <- Hd, <- Hlen.
  - destruct (open_decoded_payload file _) as [p|] eqn:Eo; [|done]. destruct (extract_stream _ _ _) as [r|] eqn:Ex; [|done]. injection E as E.
    destruct r as [[n t']|]; [|done]. destruct (exact_finish _ _ _) as [[]|] eqn:Ef; [|done]. unfold require_decoded_size in E. inv_res. bools. subst.
    eapply extract_exact in Ex as (Hn & Hf & Hd & s & Hx & ->); [|done|apply Hs]. split; [done|].
    exists (ce_compression (oe_common env)), (s_data (dp_stream p)), payload. rewrite <- Hd, <- Hlen. split; [done|].
    split; [by eapply open_payload_spec|]. exists s. by rewrite <- Hd.
Qed.

Lemma decode_object_complete staging file payload kind c content t :
  file = write_object_prefix kind c (len content) (len payload) ++ payload -> sizes_ok (len content) (len payload) ->
  (len file <= MAX_ENCODED_CONTENT_BYTES)%Z -> unpacks c payload content -> placed kind content t ->
  forall expected, hash_path staging (seen t) = Ok expected ->
  decode_object mkdir_mode open_mode (Ok false) true staging file expected = Some (Ok (kind, t)).
Proof.
  intros Hf Hs Hlen Hu Ht expected Hh. unfold decode_object. cbn [require_absent from_io map_err negb guard output_parent].
  rewrite Hf in Hlen |- * at 1. rewrite object_envelope_complete by done. cbn [oe_kind oe_common]. rewrite <- Hf in *.
  set (common := mkCommonEnvelope _ _ _ _).
  assert (represented file (write_object_prefix kind c (len content) (len payload)) payload common) as Hr by (by split_and!).
  destruct kind as [executable|].
  - erewrite payload_decoded by done. rewrite (hash_placed_file _ _ _ _ Ht) in Hh. injection Hh as <-. unfold bytes_eqb.
    rewrite bool_decide_true by done. cbn [negb]. by rewrite Ht.
  - erewrite open_payload_complete by done. destruct Ht as (s & Hx & ->). cbn [dp_stream common ce_decoded_size].
    unfold extract_stream, exact. cbn [s_data s_error]. unfold len at 1. rewrite Nat2Z.id, firstn_all, Hx. unfold at_end. cbn [s_error].
    rewrite Z.ltb_irrefl. unfold exact_finish. cbn [s_data]. rewrite Z.leb_refl. cbn [guard payload_finish dp_left Z.eqb].
    unfold require_decoded_size. rewrite Z.eqb_refl. cbn [guard]. rewrite Hh. cbn [map_err]. unfold bytes_eqb. by rewrite bool_decide_true.
Qed.
End Payload.

(** ** Filesystem files *)

Section Files.
Context `{Sha256Api} `{ZstdApi}.
Context (chown_call : u32 -> u32 -> Staged -> result string Staged) (chmod_call : u32 -> Staged -> result string Staged).

(** The identity of a staged file, as it is observed. *)
Definition identity_of (f : Staged) : result StoreError bytes :=
  hash_fs_file_parts (sg_uid f) (sg_gid f) (Z.land (sg_mode f) FsManifest.MODE_MAX) (len (sg_content f)) (sha256 (sg_content f)).

Lemma decode_fs_file_sound existing parent_is_dir fresh file expected f m : wf_bytes file ->
  decode_fs_file chown_call chmod_call existing parent_is_dir fresh file expected = Ok (f, m) ->
  identity_of f = Ok expected /\ sg_uid f = fm_uid m /\ sg_gid f = fm_gid m /\ Z.land (sg_mode f) FsManifest.MODE_MAX = fm_mode m /\
  file_metadata m /\
  exists c content payload, file = write_fs_file_prefix m c (len payload) ++ payload /\ fm_decoded_size m = len content /\
    unpacks c payload content /\ hash_fs_file_parts (fm_uid m) (fm_gid m) (fm_mode m) (len content) (sha256 content) = Ok expected.
Proof.
  intros Hw E. unfold decode_fs_file in E. destruct (require_absent existing) as [?|]; [|done]. destruct (output_parent _) as [?|]; [|done].
  unfold decode_fs_file_staged in E. destruct (parse_fs_file_envelope file) as [env|] eqn:Ep; [|done].
  apply fs_file_envelope_sound in Ep as (Hm & Hd & payload & Hr); [|done].
  destruct (decode_payload file _) as [[content [size digest]]|] eqn:Ed; [|done].
  eapply decode_payload_ok in Ed as (Hu & Hd' & -> & ->); [|done]. destruct (store_err (hash_fs_file_parts _ _ _ _ _)) as [actual|] eqn:Eh; [|done].
  destruct (negb _) eqn:Eb in E; [done|]. destruct (chown _ _ _ _) as [f1|]; [|done]. destruct (from_io _) as [f2|]; [|done].
  destruct (negb (_ && _ && _)) eqn:Ei in E; [done|]. destruct (store_err (hash_fs_file_parts (sg_uid f2) _ _ _ _)) as [again|] eqn:Ea; [|done].
  destruct (negb (bytes_eqb again expected)) eqn:Er in E; [done|]. injection E as <- <-. bools. subst.
  unfold store_err in *. inv_res. split_and!; [done..|].
  exists (ce_compression (pe_common env)), content, payload. destruct Hr as (Hfile & _ & Hlen & _). rewrite <- Hlen. by split_and!; [|congruence| |].
Qed.

Lemma decode_fs_file_complete fresh m c content payload expected :
  (forall u g f, exists mode, chown_call u g f = Ok (mkStaged (sg_content f) u g mode (sg_time f))) ->
  (forall mode f, chmod_call mode f = Ok (mkStaged (sg_content f) (sg_uid f) (sg_gid f) mode (sg_time f))) ->
  file_metadata m -> fm_decoded_size m = len content -> sizes_ok (len content) (len payload) ->
  (len (write_fs_file_prefix m c (len payload) ++ payload) <= MAX_ENCODED_CONTENT_BYTES)%Z -> unpacks c payload content ->
  hash_fs_file_parts (fm_uid m) (fm_gid m) (fm_mode m) (len content) (sha256 content) = Ok expected ->
  decode_fs_file chown_call chmod_call (Ok false) true fresh (write_fs_file_prefix m c (len payload) ++ payload) expected =
  Ok (mkStaged content (fm_uid m) (fm_gid m) (fm_mode m) (Some CANONICAL_TIMESTAMP), m).
Proof.
  intros Hchown Hchmod Hm Hd Hs Hlen Hu Hh. unfold decode_fs_file. cbn [require_absent from_io map_err negb guard output_parent].
  unfold decode_fs_file_staged. rewrite fs_file_envelope_complete by (done || by rewrite Hd). cbn [pe_metadata pe_common].
  set (file := _ ++ payload) in *. set (common := mkCommonEnvelope _ _ _ _).
  assert (represented file (write_fs_file_prefix m c (len payload)) payload common) as Hr.
  { unfold represented, common. cbn [ce_decoded_size ce_encoded_size ce_payload_offset]. rewrite Hd. by split_and!. }
  erewrite payload_decoded by done. rewrite Hh. cbn [store_err map_err]. unfold bytes_eqb. rewrite bool_decide_true by done. cbn [negb].
  assert (exists mode', chown chown_call (mkStaged content (sg_uid fresh) (sg_gid fresh) (sg_mode fresh) (Some CANONICAL_TIMESTAMP)) (fm_uid m) (fm_gid m) =
    Ok (mkStaged content (fm_uid m) (fm_gid m) mode' (Some CANONICAL_TIMESTAMP))) as [mode' ->].
  { unfold chown. cbn [sg_uid sg_gid]. destruct (_ && _) eqn:E; [bools; subst; eexists; by repeat f_equal|].
    destruct (Hchown (fm_uid m) (fm_gid m) (mkStaged content (sg_uid fresh) (sg_gid fresh) (sg_mode fresh) (Some CANONICAL_TIMESTAMP))) as [mode' ->].
    by eexists. }
  rewrite Hchmod. cbn [from_io map_err sg_uid sg_gid sg_mode sg_content sg_time]. rewrite !Z.eqb_refl.
  assert (Z.land (fm_mode m) FsManifest.MODE_MAX = fm_mode m) as ->.
  { destruct Hm as (_ & _ & Hmode). unfold FsManifest.MODE_MAX in *. change 4095%Z with (Z.ones 12). rewrite Z.land_ones by lia. apply Z.mod_small. lia. }
  rewrite Z.eqb_refl. cbn [andb negb]. rewrite Hh. cbn [store_err map_err]. by rewrite bool_decide_true.
Qed.
End Files.

(** ** Encoding *)

(** The documented behaviour of the compressor: what it writes is one frame that
    starts with the magic number and that the decoder reads back completely. *)
Class ZstdLaw `{ZstdApi} : Prop := zstd_frame : forall data frame, zstd_encode data = Ok frame ->
  take 4 frame = zstd_magic /\ zstd_decode (Z.log2 MAX_ZSTD_WINDOW_BYTES) frame = (data, Ok 0%Z).

Section Encoding.
Context `{Sha256Api} `{ZstdLaw}.

Lemma compressed_unpacks c data payload : compressed c data = Ok payload -> unpacks c payload data.
Proof. unfold compressed, unpacks. destruct c; [by intros [= <-]|]. unfold from_io. intros E. inv_res. by apply zstd_frame. Qed.
Lemma checked_sizes e d u : check_content_sizes e d = Ok u -> (0 <= e)%Z -> (0 <= d)%Z -> sizes_ok d e.
Proof. unfold check_content_sizes, sizes_ok. intros E ? ?. inv_res. bools. lia. Qed.

Lemma written_file content c payload size digest : write_encoded_file (Ok content) c = Ok (payload, (size, digest)) ->
  unpacks c payload content /\ size = len content /\ digest = sha256 content.
Proof.
  unfold write_encoded_file, from_io, copy_hashing. cbn [map_err s_data]. intros E.
  destruct (MAX_DECODED_CONTENT_BYTES <? len content)%Z; [done|]. cbn [at_end s_error] in E.
  destruct (compressed c content) as [p|] eqn:Ec; [|done]. injection E as <- <- <-. split; [by apply compressed_unpacks|done].
Qed.

Lemma mode_bits mode : (0 <= Z.land mode FsManifest.MODE_MAX <= FsManifest.MODE_MAX)%Z.
Proof.
  unfold FsManifest.MODE_MAX. change 4095%Z with (Z.ones 12). rewrite Z.land_ones by lia.
  pose proof (Z.mod_pos_bound mode (2 ^ 12)). change (Z.ones 12) with 4095%Z. lia.
Qed.

(** A file encoded with its owner and mode is decoded to the same file. *)
Theorem fs_file_round_trip chown_call chmod_call fresh uid gid mode size content c hash e :
  (forall u g f, exists mode, chown_call u g f = Ok (mkStaged (sg_content f) u g mode (sg_time f))) ->
  (forall mode f, chmod_call mode f = Ok (mkStaged (sg_content f) (sg_uid f) (sg_gid f) mode (sg_time f))) ->
  (0 <= uid < 2 ^ 32)%Z -> (0 <= gid < 2 ^ 32)%Z ->
  encode_fs_file true uid gid (WFile mode size (Ok content)) c = Ok (hash, e) -> (len e <= MAX_ENCODED_CONTENT_BYTES)%Z ->
  decode_fs_file chown_call chmod_call (Ok false) true fresh e hash =
  Ok (mkStaged content uid gid (Z.land mode FsManifest.MODE_MAX) (Some CANONICAL_TIMESTAMP),
      mkFsFileMetadata uid gid (Z.land mode FsManifest.MODE_MAX) (len content)).
Proof.
  intros Hchown Hchmod Hu Hg E He. unfold encode_fs_file in E. cbn [output_parent guard] in E.
  destruct (write_encoded_file _ _) as [[payload [n digest]]|] eqn:Ew; [|done]. apply written_file in Ew as (Hun & -> & ->).
  destruct (store_err _) as [h|] eqn:Eh; [|done]. destruct (check_content_sizes _ _) eqn:Ec; [|done]. injection E as -> <-.
  apply checked_sizes in Ec; [|apply len_nonneg..]. unfold store_err in Eh. inv_res.
  eapply (decode_fs_file_complete _ _ fresh (mkFsFileMetadata uid gid (Z.land mode FsManifest.MODE_MAX) (len content))); try done.
  unfold file_metadata. cbn [fm_uid fm_gid fm_mode]. split; [exact Hu|]. split; [exact Hg|apply mode_bits].
Qed.

Context (mkdir_mode open_mode : Z).

(** A source the format can carry. *)
Definition carried (w : WObj) : Prop :=
  match w with
  | WFile _ _ (Ok _) => True
  | WDir (Ok _) => good w
  | _ => False
  end.

Lemma held_file mode size content t : placed mkdir_mode open_mode (OFile (negb (Z.land mode MODE_X =? 0)%Z)) content t ->
  held mkdir_mode t [] (WFile mode size (Ok content)).
Proof.
  intros ->. intros [|n q]; [rewrite lookup_singleton_eq|rewrite lookup_singleton_ne by done; done]. cbn. by destruct (negb _).
Qed.

Lemma ok_pair {E A B} (a c : A) (b d : B) : Ok (E := E) (a, b) = Ok (c, d) -> a = c /\ b = d.
Proof. by intros [= -> ->]. Qed.

Lemma encode_decode path staging w c hash e : carried w -> encode_object true path w (shown w) c = Ok (hash, e) ->
  (len e <= MAX_ENCODED_CONTENT_BYTES)%Z ->
  exists kind t, decode_object mkdir_mode open_mode (Ok false) true staging e hash = Some (Ok (kind, t)) /\ held mkdir_mode t [] w.
Proof.
  intros Hc E He. unfold encode_object in E. cbn [output_parent guard] in E.
  destruct w as [[l|]|mode size [content|]| | | |]; try done.
  - unfold hash_path, load_path in E. destruct (map_err _ _) as [h|] eqn:Eh in E; [|done].
    assert (h = hash_node (node_of (WDir (Ok l)))) as ->.
    { cbn [shown] in Eh. change (FDir _) with (shown (WDir (Ok l))) in Eh. rewrite (read_shown (WDir (Ok l)) path Hc) in Eh. by injection Eh. }
    unfold write_encoded_tar in E. destruct (write_directory_tar _) as [o|] eqn:Ew; [|done]. destruct (compressed c (out o)) as [payload|] eqn:Ep; [|done].
    destruct (check_content_sizes _ _) eqn:Ec; [|done]. apply ok_pair in E as [<- <-].
    assert (written o <= U64_MAX)%Z as Hmax.
    { unfold check_content_sizes in Ec. inv_res. bools. unfold MAX_DECODED_CONTENT_BYTES, U64_MAX in *. lia. }
    destruct (archive_read_back mkdir_mode open_mode l o Hc Ew Hmax) as (Hwr & s & Hx & Ht). rewrite Hwr in *.
    apply checked_sizes in Ec; [|apply len_nonneg..]. exists ODirectory, (tree s). split; [|exact Ht].
    eapply decode_object_complete; try done; [by apply compressed_unpacks|by exists s|]. by eapply hash_seen; [|eexists|].
  - destruct (write_encoded_file _ _) as [[payload [n digest]]|] eqn:Ew; [|done]. apply written_file in Ew as (Hu & -> & ->).
    destruct (check_content_sizes _ _) eqn:Ec; [|done]. apply ok_pair in E as [<- <-]. apply checked_sizes in Ec; [|apply len_nonneg..].
    eexists _, _. split; [|by eapply held_file]. eapply decode_object_complete; try done. by eapply (hash_placed_file mkdir_mode open_mode).
Qed.

(** C18. Round trip of repository objects.  A readable file, or a directory the tar
    profile can carry, that [encode_object] or [encode_preferred_object] accepts is
    decoded from its representation, under the hash returned for it, to a tree that
    holds exactly that file or directory with canonical modes and times, whichever
    compression was chosen.  The representation has to obey the size limit that the
    decoder, but not the encoder, applies to the whole envelope. *)
Theorem content_round_trip path staging w hash e :
  carried w ->
  (exists c, encode_object true path w (shown w) c = Ok (hash, e)) \/
  encode_preferred_object path hash (w, shown w) (w, shown w) = Ok e ->
  (len e <= MAX_ENCODED_CONTENT_BYTES)%Z ->
  exists kind t, decode_object mkdir_mode open_mode (Ok false) true staging e hash = Some (Ok (kind, t)) /\ held mkdir_mode t [] w.
Proof.
  intros Hc [[c E]|E] He; [by eapply encode_decode|]. unfold encode_preferred_object in E. cbn [fst snd] in E.
  destruct (encode_object true path w (shown w) Identity) as [[h1 e1]|] eqn:E1; [|done].
  destruct (require_object_hash h1 hash) eqn:R1; [|done]. destruct (encode_object true path w (shown w) Zstd) as [[h2 e2]|] eqn:E2; [|done].
  destruct (require_object_hash h2 hash) eqn:R2; [|done]. injection E as <-. unfold require_object_hash in *. inv_res. bools. subst.
  unfold smaller in *. case_match; by eapply encode_decode.
Qed.
End Encoding.

(** C17. Decoded content is authentic.  Whatever the bytes of a representation,
    the decompressor and the calls that set owner and mode do: decoding ends, and
    when it succeeds, the object that is placed, or the file as it is observed in
    place, has the hash that was asked for, and the representation is the canonical
    envelope, byte by byte, of a payload that unpacks to exactly the declared
    content. *)
Theorem decoded_content_authentic `{Sha256Api} `{ZstdApi} mkdir_mode open_mode chown_call chmod_call existing parent_is_dir staging fresh file expected :
  wf_bytes file ->
  (exists r, decode_object mkdir_mode open_mode existing parent_is_dir staging file expected = Some r /\
    forall kind t, r = Ok (kind, t) ->
      hash_path staging (seen t) = Ok expected /\
      exists c content payload, file = write_object_prefix kind c (len content) (len payload) ++ payload /\
        unpacks c payload content /\ placed mkdir_mode open_mode kind content t) /\
  (forall f m, decode_fs_file chown_call chmod_call existing parent_is_dir fresh file expected = Ok (f, m) ->
    identity_of f = Ok expected /\ sg_uid f = fm_uid m /\ sg_gid f = fm_gid m /\ Z.land (sg_mode f) FsManifest.MODE_MAX = fm_mode m /\
    exists c content payload, file = write_fs_file_prefix m c (len payload) ++ payload /\ fm_decoded_size m = len content /\
      unpacks c payload content).
Proof.
  intros Hw. split.
  - destruct (decode_object_total mkdir_mode open_mode existing parent_is_dir staging file expected) as [r Hr]. exists r. split; [done|].
    intros kind t ->. by eapply decode_object_sound.
  - intros f m E. destruct (decode_fs_file_sound _ _ _ _ _ _ _ _ _ Hw E) as (? & ? & ? & ? & _ & c & content & payload & ? & ? & ? & _).
    split_and!; try done. by exists c, content, payload.
Qed.
