(* ===== verification/RepositoryToy.v ===== *)
(** * A repository and its clients

    [RepositoryExamples]: two slots, published one after the other, and clients that
    read them through a transport that serves them.  [ContentExamples]: the round trip
    of [ContentFacts] at a directory, with a compression that only marks its input, and
    the authenticity of what is decoded from it. *)

From S2P Require Import Prelude Errors Hash Master Index Text Posix Subjects Graph Store Publisher PublisherFacts Resolver Reader ReaderFacts RemoteProvider.

Module RepositoryExamples.
Open Scope prog_scope.

#[local] Existing Instance Toy.url_api.
#[local] Existing Instance ToySha.sha256_api.

Definition h (z : Z) : bytes := repeat z 32.

(** ** Publications *)

Definition first_contents : SlotContents :=
  mkSlotContents {[ h 1 := [h 11] ]} {[ h 2 := [h 11] ]} {[ h 11 ]} {[ h 21 ]}.
Definition second_contents : SlotContents :=
  mkSlotContents {[ h 1 := [h 12; h 11] ]} ∅ {[ h 11; h 12 ]} ∅.

Definition first_state : PublicationState :=
  mkPublicationState None (tt : @Url Toy.url_api) [mkPublicationSlot 1 None first_contents].
Definition state : PublicationState := (publish AddSlot second_contents first_state).1.

Lemma wf_mapping_check (objects : gset bytes) (m : gmap bytes (list bytes)) :
  forallb (fun e => wf_bytesb e.1 && (length e.1 =? 32)%nat && negb (bool_decide (e.2 = [])) && bool_decide (NoDup e.2)
    && forallb (fun o => wf_bytesb o && (length o =? 32)%nat && bool_decide (o ∈ objects)) e.2) (map_to_list m) = true ->
  wf_mapping objects m.
Proof.
  rewrite forallb_forall. intros Hall k cs Hk%elem_of_map_to_list%list_elem_of_In. specialize (Hall _ Hk). simpl in Hall. bools.
  split_and!; [split; [by first [done|apply wf_bytesb_spec]|by first [done|apply Nat.eqb_eq]]|done|done|].
  rewrite Forall_forall. intros o Ho%list_elem_of_In. rewrite forallb_forall in *.
  match goal with Hf : forall x, In x cs -> _ |- _ => specialize (Hf o Ho) end. bools.
  split; [split; [by first [done|apply wf_bytesb_spec]|by first [done|apply Nat.eqb_eq]]|done].
Qed.

Lemma wf_set_check (s : gset bytes) : forallb (fun o => wf_bytesb o && (length o =? 32)%nat) (elements s) = true ->
  forall o, o ∈ s -> wf_hash o.
Proof.
  rewrite forallb_forall. intros Hall o Ho%elem_of_elements%list_elem_of_In. specialize (Hall _ Ho). bools.
  split; [by first [done|apply wf_bytesb_spec]|by first [done|apply Nat.eqb_eq]].
Qed.

Lemma wf_first : wf_contents first_contents.
Proof. split; [apply wf_mapping_check|apply wf_mapping_check|apply wf_set_check|apply wf_set_check]; vm_compute; reflexivity. Qed.
Lemma wf_second : wf_contents second_contents.
Proof. split; [apply wf_mapping_check|apply wf_mapping_check|apply wf_set_check|apply wf_set_check]; vm_compute; reflexivity. Qed.

Lemma wf_state : wf_slots (st_slots state).
Proof.
  change (wf_slots [mkPublicationSlot 1 None first_contents; mkPublicationSlot 2 None second_contents]).
  constructor; [apply wf_first|constructor; [apply wf_second|constructor]].
Qed.

(** The incoming candidate comes first, then that of before. *)
Lemma publication_refines_witness :
  visible sc_builds (st_slots state) (h 1) = [h 12; h 11] /\
  advanced AddSlot second_contents (st_slots first_state) (st_slots state).
Proof.
  split; [vm_compute; reflexivity|].
  refine (proj1 (publication_refines AddSlot second_contents first_state state _)).
  vm_compute. reflexivity.
Defined.

(** ** A client *)

Definition published : PublicationMetadata :=
  match metadata state with
  | Ok md => md
  | Err _ => mkPublicationMetadata (mkMaster None (tt : @Url Toy.url_api) []) ∅ ∅ ∅ ∅
  end.
Lemma published_ok : metadata state = Ok published.
Proof. vm_cast_no_check (eq_refl (metadata state)). Qed.

Definition signed : bytes := encode_payload (md_master published).

(** Only this master is signed. *)
Definition cose_signing (master : bytes) : CoseApi := {|
  VerifyingKey := bool;
  from_tagged_slice b :=
    if bytes_eqb b master
    then Ok {| protected := Toy.header; original_data := Some [1]%Z; unprotected_empty := true;
               payload := Some master; signature := repeat 5%Z 64 |}
    else Err "bad"%string;
  to_tagged_vec c := ok_or (payload c) "no payload"%string;
  verify_signature _ key := if key then Ok tt else Err "signature mismatch"%string;
|}.
Lemma verified_signed (master : bytes) (keys : gmap bytes bool) (b : bytes) vm m : decode_payload master = Ok m ->
  @trusted_verify _ (cose_signing master) _ keys b = Ok vm -> vm_master vm = m.
Proof.
  intros Hd E. unfold trusted_verify in E. inv_res.
  match goal with E : from_tagged_slice _ = Ok ?c, P : payload ?c = Some _ |- _ =>
    unfold from_tagged_slice, cose_signing in E; destruct (bytes_eqb b master); [|discriminate E];
    injection E as <-; cbn [payload] in P; injection P as <- end.
  match goal with E : decode_payload _ = Ok _ |- _ => rewrite Hd in E; by injection E end.
Qed.

#[export] Instance repository_cose : CoseApi := cose_signing signed.

#[export] Instance repository_join : UrlJoin := fun url _ => Ok url.

Definition master_headers : RepresentationMetadata :=
  mkRepresentationMetadata (Some (lit "application/cose; " ++ COSE_TYPE)) (Some (lit "no-cache")) None (Some (lit "e")).
Definition table_headers : RepresentationMetadata :=
  mkRepresentationMetadata (Some OCTET_STREAM) (Some (lit "public, max-age=31536000, immutable")) None None.

Definition serve (destination : path) (body : option bytes) (headers : RepresentationMetadata)
  : prog (result RepositoryError FetchResult) :=
  match body with
  | None => Ret (Ok Missing)
  | Some b => io_error (write destination b) ?; Ret (Ok (Stored headers))
  end.
Definition transport (request : FetchRequest) : prog (result RepositoryError FetchResult) :=
  let to := serve (fq_destination request) in
  match fq_purpose request with
  | PMaster => to (Some signed) master_headers
  | PBuildIndex hash => to (md_builds published !! hash) table_headers
  | PReuseIndex hash => to (md_reuses published !! hash) table_headers
  | PObjectList hash => to (md_object_lists published !! hash) table_headers
  | PFsFileList hash => to (md_file_lists published !! hash) table_headers
  | _ => to None table_headers
  end.
Definition temp : TempFiles := mkTempFiles
  (fun dir prefix => write (dir ++ [prefix]) [] ?; Ret (Ok (dir ++ [prefix]))) rename rename.

Definition reader : RepositoryReader := mkRepositoryReader (tt : @Url Toy.url_api) {[ [7]%Z := true ]} [lit "c"].
Definition world : World := mkWorld (Dir 493 [(lit "c", Dir 493 [])]) ∅ ∅.
Definition who : Actor := mkActor 0 1.

(** The contents read in a run. *)
Fixpoint reads_of {A : Type} (m : prog A) (w : World) : list bytes :=
  match m with
  | Ret _ => []
  | Do o k => let '(r, w') := exec who calm o w in content_read o r ++ reads_of (k r) w'
  end.
Lemma run_outcome {A} (m : prog A) w : outcome m (reads_of m w) (run who [] m w).1.
Proof.
  revert w. induction m as [a|o k IH]; intros w; simpl; [constructor|].
  destruct (exec who calm o w) as [r w']. constructor. apply IH.
Qed.

Definition questions : list Question := [AskBuild (h 1); AskReuse (h 2); AskObject (h 12); AskFile (h 22)].
Definition client : prog (result RepositoryError (list (Question * Reply))) := consult transport temp reader questions.
Definition replies_of (r : result RepositoryError (list (Question * Reply))) : list (Question * Reply) :=
  match r with Ok l => l | Err _ => [] end.
Definition final : result RepositoryError (list (Question * Reply)) * World := run who [] client world.
Definition replies : list (Question * Reply) := replies_of (fst final).

(** ** No collisions *)

Definition all_tables (slots : list PublicationSlot) : list bytes :=
  flat_map (fun s => match slot_tables (ps_contents s) with Ok (b, r, o, f) => [b; r; o; f] | Err _ => [] end) slots.
Lemma tables_listed slots t : table_of slots t -> t ∈ all_tables slots.
Proof.
  intros (s & b & r & o & f & Hs & Ht & Hin). apply list_elem_of_In, in_flat_map. exists s.
  rewrite <- !list_elem_of_In. split; [done|]. by rewrite Ht.
Qed.

Definition no_collision (l : list (bytes * bytes)) : bool :=
  forallb (fun x => forallb (fun y => negb (bytes_eqb x.1 y.1) || bytes_eqb x.2 y.2) l) l.
Lemma checked_collision_free slots reads :
  no_collision (map (fun x => (sha256 x, x)) (all_tables slots ++ reads)) = true ->
  collision_free (fun x => table_of slots x \/ x ∈ reads).
Proof.
  intros Hc x y Hx Hy E. unfold no_collision in Hc. rewrite forallb_forall in Hc.
  assert (forall z, table_of slots z \/ z ∈ reads -> In (sha256 z, z) (map (fun x => (sha256 x, x)) (all_tables slots ++ reads))) as Hin.
  { intros z Hz. apply in_map_iff. exists z. split; [done|]. apply list_elem_of_In, elem_of_app.
    destruct Hz as [Hz|Hz]; [left; by apply tables_listed|by right]. }
  specialize (Hc _ (Hin x Hx)). rewrite forallb_forall in Hc. specialize (Hc _ (Hin y Hy)). cbn [fst snd] in Hc.
  rewrite E in Hc. unfold bytes_eqb in Hc. rewrite bool_decide_eq_true_2 in Hc by done. cbn [negb orb] in Hc.
  by apply bool_decide_eq_true in Hc.
Qed.

Lemma signed_decodes : decode_payload signed = Ok (md_master published).
Proof. vm_compute. reflexivity. Qed.
Lemma verified_here b vm : trusted_verify (rr_keys reader) b = Ok vm -> vm_master vm = md_master published.
Proof. apply verified_signed. exact signed_decodes. Qed.

Lemma state_limits : Forall (fun s => within_limits (ps_contents s)) (st_slots state).
Proof.
  change (Forall (fun s => within_limits (ps_contents s))
    [mkPublicationSlot 1 None first_contents; mkPublicationSlot 2 None second_contents]).
  repeat constructor; vm_compute; discriminate.
Qed.

(** The client gets both candidates, the newer one first, and all replies are faithful. *)
Lemma snapshot_sees_publication_witness :
  replies = [(AskBuild (h 1), Candidates (Ok [h 12; h 11])); (AskReuse (h 2), Candidates (Ok [h 11]));
             (AskObject (h 12), Member (Ok true)); (AskFile (h 22), Member (Ok false))] /\
  Forall (reply_faithful transport (st_slots state)) replies.
Proof.
  split; [vm_compute; reflexivity|].
  apply (snapshot_sees_publication transport temp state published reader questions (reads_of client world) replies).
  - exact wf_state.
  - exact state_limits.
  - exact published_ok.
  - apply checked_collision_free. vm_compute. reflexivity.
  - intros b vm _. apply verified_here.
  - replace (Ok replies) with (fst (run who [] client world)) by (vm_compute; reflexivity). apply run_outcome.
Defined.

Definition writer : prog (result RepositoryError CurrentPublication) := publication_metadata transport temp reader.
Definition gathered : result RepositoryError CurrentPublication * World := run who [] writer world.
Definition current_of (r : result RepositoryError CurrentPublication) : CurrentPublication :=
  match r with Ok cp => cp | Err _ => mkCurrentPublication [] [] published end.
Definition current : CurrentPublication := current_of (fst gathered).

(** The state is restored, to be continued. *)
Lemma writer_continues_witness :
  cp_master_hash current = sha256 signed /\
  publication_state current = Ok (mkPublicationState (Some (cp_master_hash current)) tt (st_slots state)).
Proof.
  split; [vm_compute; reflexivity|].
  refine (proj1 (writer_continues transport temp state published reader
    (reads_of writer world) current _ _ _ _ _ _)).
  - exact wf_state.
  - exact state_limits.
  - exact published_ok.
  - apply checked_collision_free. vm_compute. reflexivity.
  - intros b vm _. apply verified_here.
  - replace (Ok current) with (fst (run who [] writer world)) by (vm_compute; reflexivity).
    apply run_outcome.
Defined.

(** Both capabilities of a backend on the same repository: repeated keys are asked for once. *)
Definition queries : list Query :=
  [ResolveBuilds [h 1; h 9; h 1]; LocateObjects [h 12; h 13]; ResolveReuses [h 9]; LocateFsFiles [h 22]].
Definition session : prog (list (Query * Response)) :=
  respond_all transport temp (backend_new (lit "r") reader) queries.
Definition responses : list (Query * Response) := fst (run who [] session world).

Lemma remote_answers_published_witness :
  responses = [(ResolveBuilds [h 1; h 9; h 1], Resolutions (Ok [mkTrusted (h 1) (h 12); mkTrusted (h 1) (h 11)]));
               (LocateObjects [h 12; h 13], Located (Ok {[h 12]}));
               (ResolveReuses [h 9], Resolutions (Ok [])); (LocateFsFiles [h 22], Located (Ok ∅))] /\
  Forall (response_faithful transport (st_slots state)) responses.
Proof.
  split; [vm_compute; reflexivity|].
  apply (remote_answers_published transport temp state published (lit "r") reader queries (reads_of session world) responses).
  - exact wf_state.
  - exact state_limits.
  - exact published_ok.
  - apply checked_collision_free. vm_compute. reflexivity.
  - intros b vm _. apply verified_here.
  - exact (run_outcome session world).
Defined.
End RepositoryExamples.

From S2P Require Import Prelude Errors Hash Cbor FsObject FsArchive FsManifestOps TarProfile TarExtract TarRoundTrip Content ContentFacts.

Module ContentExamples.
#[local] Existing Instance ToySha.sha256_api.

#[export] Instance zstd_api : ZstdApi := {|
  zstd_encode data := Ok (zstd_magic ++ data);
  zstd_decode _ frame := (drop 4 frame, Ok 0%Z);
|}.
#[export] Instance zstd_law : ZstdLaw.
Proof. intros data frame [= <-]. by split. Qed.

(** [a/l -> ../b] and the executable [b]. *)
Definition source : WObj := WDir (Ok TarExamples.listing).
Definition encoded (c : Compression) : bytes * bytes :=
  match encode_object true [] source (shown source) c with Ok r => r | Err _ => ([], []) end.

Lemma content_round_trip_witness :
  exists kind t, decode_object 493 420 (Ok false) true [] (encoded Zstd).2 (encoded Zstd).1 = Some (Ok (kind, t)) /\
    held 493 t [] source.
Proof.
  apply (content_round_trip 493 420 [] [] source (encoded Zstd).1).
  - exact TarExamples.good_listing.
  - left. exists Zstd. vm_compute. reflexivity.
  - vm_compute. discriminate.
Defined.

(** The decoder on the representation of the executable alone. *)
Definition file_source : WObj := WFile 493 3 (Ok [1; 2; 3]%Z).
Definition encoded_file : bytes * bytes :=
  match encode_object true [] file_source (shown file_source) Identity with Ok r => r | Err _ => ([], []) end.
Definition decoded_file : option (result RepositoryError (ObjectKind * Tree)) :=
  decode_object 493 420 (Ok false) true [] encoded_file.2 encoded_file.1.
Definition decodes : bool := match decoded_file with Some (Ok _) => true | _ => false end.

Lemma decoded_content_authentic_witness :
  exists kind t, decoded_file = Some (Ok (kind, t)) /\ hash_path [] (seen t) = Ok encoded_file.1.
Proof.
  assert (decodes = true) as Hd by (vm_compute; reflexivity).
  destruct (decoded_content_authentic 493 420 (fun _ _ f => Ok f) (fun _ f => Ok f) (Ok false) true []
    (mkStaged [] 0 0 0 None) encoded_file.2 encoded_file.1) as [(r & Hr & Hs) _].
  - apply wf_bytesb_spec. vm_compute. reflexivity.
  - change (decoded_file = Some r) in Hr. unfold decodes in Hd. rewrite Hr in Hd. destruct r as [[kind t]|]; [|discriminate Hd].
    exists kind, t. split; [exact Hr|exact (proj1 (Hs kind t eq_refl))].
Defined.
End ContentExamples.
