(* ===== verification/OciExtract.v ===== *)
(** * Extraction of OCI images

    [bobr-builder/src/oci_extract.rs]: the layers of an image are applied one after
    the other to an extraction root, entry by entry, with whiteouts; what each path
    is to become is kept in records, whose owners and modes are applied in the end.

    The extraction root is a tree from paths to nodes.  A call whose path runs
    through a symbolic link, or ends in a dot or two, means another place than the
    path names, inside the tree or outside: it answers [Follows], which is not an
    outcome of the real call but marks it.  The [tar] crate and the decompression
    are what gives the entries of a layer.  Names are taken to be free of NUL. *)

From S2P Require Import Prelude Errors Hash TarProfile.

(** ** The tree *)

Inductive EKind := EDir | EReg (content : bytes) | ELnk (target : bytes).
Record ENode := mkENode { e_kind : EKind; e_uid : u32; e_gid : u32; e_mode : Z }.
Abbreviation ETree := (gmap (list bytes) ENode).

Inductive FsErr := NoEntry | OtherErr (text : string) | Follows (p : list bytes).

Definition e_is_dir (n : ENode) : bool := match e_kind n with EDir => true | _ => false end.
Definition not_dir : FsErr := OtherErr "Not a directory (os error 20)".
Definition file_exists : FsErr := OtherErr "File exists (os error 17)".
Definition fs_text (e : FsErr) : string :=
  match e with
  | NoEntry => "No such file or directory (os error 2)"
  | OtherErr text => text
  | Follows _ => "symbolic link"
  end.

(** A directory on the way: the lookup of [p] itself, when more follows. *)
Definition enter (t : ETree) (p : list bytes) : result FsErr unit :=
  match t !! p with
  | None => Err NoEntry
  | Some n => match e_kind n with EDir => Ok tt | EReg _ => Err not_dir | ELnk _ => Err (Follows p) end
  end.
Definition enter_parents (t : ETree) (p : list bytes) : result FsErr unit :=
  try_fold (fun _ depth => enter t (take depth p)) tt (seq 0 (length p)).

(** Such a path is resolved to a directory above its last name. *)
Definition dotted (p : list bytes) : bool :=
  match last p with Some c => bytes_eqb c (lit ".") || bytes_eqb c (lit "..") | None => false end.

(** An owner of all ones leaves the owner as it is. *)
Definition owner (old new : u32) : u32 := if (new =? 2 ^ 32 - 1)%Z then old else new.

Section Calls.
(** The modes of a new node (they depend on the umask) and the owner. *)
Context (mkdir_mode open_mode uid gid : Z).

Definition lstat (t : ETree) (p : list bytes) : result FsErr ENode :=
  enter_parents t p ;;; guard (negb (dotted p)) (Follows p) ;;; ok_or (t !! p) NoEntry.
Definition create_node (t : ETree) (p : list bytes) (kind : EKind) (mode : Z) : result FsErr ETree :=
  enter_parents t p ;;;
  match t !! p with
  | Some _ => Err file_exists
  | None => Ok (<[p := mkENode kind uid gid mode]> t)
  end.
(** [symlink]; there is none without a target. *)
Definition make_link (t : ETree) (p : list bytes) (target : bytes) : result FsErr ETree :=
  if bytes_eqb target [] then Err NoEntry else create_node t p (ELnk target) MODE_777.
(** [fs::create_dir_all], level by level. *)
Definition make_level (p : list bytes) (t : ETree) (depth : nat) : result FsErr ETree :=
  let q := take depth p in
  match t !! q with
  | None => Ok (<[q := mkENode EDir uid gid mkdir_mode]> t)
  | Some n => match e_kind n with EDir => Ok t | EReg _ => Err file_exists | ELnk _ => Err (Follows q) end
  end.
Definition make_dirs (t : ETree) (p : list bytes) : result FsErr ETree := try_fold (make_level p) t (seq 1 (length p)).

Definition without (p : list bytes) (t : ETree) : ETree := filter (fun e => ~ p `prefix_of` e.1) t.
(** [fs::remove_file] and [fs::remove_dir_all] of what [lstat] has found. *)
Definition remove_node (t : ETree) (p : list bytes) : result FsErr ETree := enter_parents t p ;;; Ok (without p t).
(** [fs::read_dir] follows a link. *)
Definition list_dir (t : ETree) (p : list bytes) : result FsErr (list bytes) :=
  enter_parents t p ;;; enter t p ;;;
  Ok (omap (fun q => if bool_decide (removelast q = p) then last q else None) (map fst (map_to_list t))).
(** [fs::hard_link]: the content is shared, and never written again. *)
Definition hard_link (t : ETree) (p q : list bytes) : result FsErr ETree :=
  n <- lstat t p ;;
  enter_parents t q ;;;
  match t !! q with
  | Some _ => Err file_exists
  | None => Ok (<[q := n]> t)
  end.
(** [chown] and [chmod] of a node that is no link, [lchown]. *)
Definition set_owner (t : ETree) (p : list bytes) (follow : bool) (u g : u32) : result FsErr ETree :=
  n <- lstat t p ;;
  match follow, e_kind n with
  | true, ELnk _ => Err (Follows p)
  | _, _ => Ok (<[p := mkENode (e_kind n) (owner (e_uid n) u) (owner (e_gid n) g) (e_mode n)]> t)
  end.
Definition set_mode (t : ETree) (p : list bytes) (mode : Z) : result FsErr ETree :=
  n <- lstat t p ;;
  match e_kind n with
  | ELnk _ => Err (Follows p)
  | _ => Ok (<[p := mkENode (e_kind n) (e_uid n) (e_gid n) mode]> t)
  end.

(** ** Entries and errors *)

Inductive EntryType := TRegular | TContinuous | TDirectory | TSymlink | TLink | TChar | TBlock | TFifo | TSparse | TOther.
(** What the [tar] crate says of an entry. *)
Record OciEntry := mkOciEntry {
  oe_path : bytes;
  oe_type : EntryType;
  oe_uid : result string u64;
  oe_gid : result string u64;
  oe_entry_mode : result string u32;
  oe_link_name : result string (option bytes);
  oe_link_bytes : option bytes;
  oe_data : result string bytes;
  (** The keys of the pax extensions; [None] is a key that is not UTF-8. *)
  oe_pax : result string (option (list (result string (option bytes))));
}.

Inductive OciExtractError :=
| InvalidInput (message : string)
| InvalidLayer (message : string)
| IoFailed (message : string)
| Escapes (p : list bytes).

Definition oci_io {A : Type} (what : string) (r : result FsErr A) : result OciExtractError A :=
  map_err (fun e => match e with
                    | Follows p => Escapes p
                    | _ => IoFailed ("failed to " +:+ what +:+ ": " +:+ fs_text e)
                    end) r.

Inductive TarRecordKind := RFile | RDirectory | RSymlink.
Record TarEntryRecord := mkRecord {
  r_path : bytes;
  r_kind : TarRecordKind;
  r_uid : u32;
  r_gid : u32;
  r_mode : u32;
  r_target : option bytes;
}.
Abbreviation Records := (gmap bytes TarEntryRecord).
#[global] Instance TarRecordKind_eq_dec : EqDecision TarRecordKind.
Proof. solve_decision. Defined.

(** ** Paths *)

Definition quoted (b : bytes) : string := "'" +:+ show b +:+ "'".
Definition components_of (path : bytes) : list bytes := split_on 47 path.
(** [target_root.join(path)]; the empty path is the root itself. *)
Definition at_root (path : bytes) : list bytes := if bytes_eqb path [] then [] else components_of path.

Fixpoint trim_slashes (fuel : nat) (b : bytes) : bytes :=
  match fuel with
  | O => b
  | S fuel' => if bool_decide (last b = Some 47%Z) then trim_slashes fuel' (removelast b) else b
  end.
Definition unsafe_component (c : bytes) : bool := bytes_eqb c [] || bytes_eqb c (lit ".") || bytes_eqb c (lit "..").
Definition sanitize_tar_path_bytes (b : bytes) (label : string) : result OciExtractError (option bytes) :=
  if negb (is_utf8 b) then Err (InvalidLayer (label +:+ " is not UTF-8"))
  else
    let raw := map (fun c => if (c =? 92)%Z then 47%Z else c) b in
    if starts_with [47]%Z raw then Err (InvalidLayer (label +:+ " " +:+ quoted raw +:+ " must be relative"))
    else
      let trimmed := trim_slashes (length raw) raw in
      if bytes_eqb trimmed [] || bytes_eqb trimmed (lit ".") then Ok None
      else if existsb (fun c => bytes_eqb c []) (components_of trimmed) then
        Err (InvalidLayer (label +:+ " " +:+ quoted raw +:+ " contains an empty path component"))
      else if existsb unsafe_component (components_of trimmed) then
        Err (InvalidLayer (label +:+ " " +:+ quoted raw +:+ " contains unsafe component"))
      else Ok (Some (join_with [47]%Z (components_of trimmed))).

Definition split_parent_name (path : bytes) : bytes * bytes := default ([], path) (rsplit_once 47 path).
Definition join_rel (parent name : bytes) : bytes := if bytes_eqb parent [] then name else parent ++ [47]%Z ++ name.
Definition path_depth (path : bytes) : nat := if bytes_eqb path [] then 0 else length (components_of path).

(** ** Records *)

Definition below (path candidate : bytes) : bool := starts_with (path ++ [47]%Z) candidate.
Definition remove_record_tree (path : bytes) (rs : Records) : Records :=
  filter (fun e => e.1 <> path /\ below path e.1 = false) rs.
Definition remove_record_children (path : bytes) (rs : Records) : Records :=
  if bytes_eqb path [] then ∅ else filter (fun e => e.1 = path \/ below path e.1 = false) rs.

Definition checked_u32 (value : u64) (field : string) (path : bytes) : result OciExtractError u32 :=
  if (value <? 2 ^ 32)%Z then Ok value
  else Err (InvalidLayer (field +:+ " " +:+ pretty value +:+ " for tar entry " +:+ quoted path +:+ " exceeds u32")).
Definition layer_err {A : Type} (what : string) (r : result string A) : result OciExtractError A :=
  map_err (fun e => InvalidLayer (what +:+ ": " +:+ e)) r.
Definition record_from_entry (path : bytes) (kind : TarRecordKind) (entry : OciEntry) (target : option bytes)
  : result OciExtractError TarEntryRecord :=
  u <- layer_err ("failed to read uid for " +:+ quoted path) (oe_uid entry) ;;
  u <- checked_u32 u "uid" path ;;
  g <- layer_err ("failed to read gid for " +:+ quoted path) (oe_gid entry) ;;
  g <- checked_u32 g "gid" path ;;
  m <- layer_err ("failed to read mode for " +:+ quoted path) (oe_entry_mode entry) ;;
  Ok (mkRecord path kind u g (Z.land m 0xfff) target).

(** ** Entries *)

Abbreviation St := (ETree * Records)%type.
Definition implicit_record (path : bytes) : TarEntryRecord := mkRecord path RDirectory 0 0 MODE_755 None.

Definition ensure_parent (path : bytes) (st : bytes * St) (component : bytes) : result OciExtractError (bytes * St) :=
  let '(current, (t, rs)) := st in
  let current := join_rel current component in
  match rs !! current with
  | Some r =>
      if bool_decide (r_kind r = RDirectory) then Ok (current, (t, rs))
      else Err (InvalidLayer ("tar entry " +:+ quoted path +:+ " has non-directory parent " +:+ quoted current))
  | None =>
      t <- oci_io ("create implicit directory " +:+ quoted current) (make_dirs t (at_root current)) ;;
      Ok (current, (t, <[current := implicit_record current]> rs))
  end.
Definition ensure_parent_directories (path : bytes) (st : St) : result OciExtractError St :=
  r <- try_fold (ensure_parent path) ([], st) (removelast (components_of path)) ;;
  Ok r.2.

Definition remove_fs_path (t : ETree) (p : list bytes) : result OciExtractError ETree :=
  oci_io "inspect path" (lstat t p) ;;;
  oci_io "remove" (remove_node t p).
Definition remove_if_there (what : string) (t : ETree) (p : list bytes) : result OciExtractError ETree :=
  match lstat t p with
  | Ok _ => remove_fs_path t p
  | Err NoEntry => Ok t
  | Err e => oci_io what (Err e)
  end.
Definition remove_existing_path (path : bytes) (st : St) : result OciExtractError St :=
  t <- remove_if_there "inspect existing extracted path" st.1 (at_root path) ;;
  Ok (t, remove_record_tree path st.2).

Definition OPAQUE : bytes := lit ".wh..wh..opq".
Definition WHITEOUT : bytes := lit ".wh.".
Definition handle_whiteout (path : bytes) (st : St) : result OciExtractError (option St) :=
  let '(parent, name) := split_parent_name path in
  if bytes_eqb name OPAQUE then
    let dir := at_root parent in
    t <- match list_dir st.1 dir with
         | Ok names => try_fold (fun t n => remove_fs_path t (dir ++ [n])) st.1 names
         | Err NoEntry => Ok st.1
         | Err e => oci_io "read opaque whiteout directory" (Err e)
         end ;;
    Ok (Some (t, remove_record_children parent st.2))
  else if starts_with WHITEOUT name then
    let rest := drop (length WHITEOUT) name in
    if bytes_eqb rest [] then Err (InvalidLayer ("invalid empty whiteout entry " +:+ quoted path))
    else
      let victim := join_rel parent rest in
      t <- remove_if_there "inspect whiteout target" st.1 (at_root victim) ;;
      Ok (Some (t, remove_record_tree victim st.2))
  else Ok None.

(** Parents, the removal of what is there, and the creation of the node. *)
Definition cleared (path : bytes) (st : St) : result OciExtractError St :=
  st <- ensure_parent_directories path st ;;
  remove_existing_path path st.

Definition extract_file_entry (path : bytes) (entry : OciEntry) (st : St) : result OciExtractError St :=
  let* (t, rs) := cleared path st in
  t <- oci_io ("create extracted file " +:+ quoted path) (create_node t (at_root path) (EReg []) open_mode) ;;
  data <- map_err (fun e => IoFailed ("failed to write extracted file " +:+ quoted path +:+ ": " +:+ e)) (oe_data entry) ;;
  r <- record_from_entry path RFile entry None ;;
  Ok (<[at_root path := mkENode (EReg data) uid gid open_mode]> t, <[path := r]> rs).

Definition extract_directory_entry (path : bytes) (entry : OciEntry) (st : St) : result OciExtractError St :=
  st <- ensure_parent_directories path st ;;
  let* (t, rs) := match st.2 !! path with
                  | Some r => if bool_decide (r_kind r = RDirectory) then Ok st else remove_existing_path path st
                  | None => Ok st
                  end in
  t <- oci_io ("create extracted directory " +:+ quoted path) (make_dirs t (at_root path)) ;;
  r <- record_from_entry path RDirectory entry None ;;
  Ok (t, <[path := r]> rs).

Definition extract_symlink_entry (path : bytes) (entry : OciEntry) (st : St) : result OciExtractError St :=
  let* (t, rs) := cleared path st in
  target <- layer_err ("failed to read symlink target for " +:+ quoted path) (oe_link_name entry) ;;
  target <- ok_or target (InvalidLayer ("symlink entry " +:+ quoted path +:+ " has no target")) ;;
  if negb (is_utf8 target) then Err (InvalidLayer ("symlink target for " +:+ quoted path +:+ " is not UTF-8"))
  else
    t <- oci_io ("create extracted symlink " +:+ quoted path) (make_link t (at_root path) target) ;;
    r <- record_from_entry path RSymlink entry (Some target) ;;
    Ok (t, <[path := r]> rs).

Definition extract_hardlink_entry (path : bytes) (entry : OciEntry) (st : St) : result OciExtractError St :=
  link_name <- ok_or (oe_link_bytes entry) (InvalidLayer ("hardlink entry " +:+ quoted path +:+ " has no target")) ;;
  target <- sanitize_tar_path_bytes link_name "hardlink target" ;;
  target <- ok_or target (InvalidLayer ("hardlink entry " +:+ quoted path +:+ " targets archive root")) ;;
  target_record <- ok_or (st.2 !! target)
    (InvalidLayer ("hardlink entry " +:+ quoted path +:+ " references missing target " +:+ quoted target)) ;;
  if negb (bool_decide (r_kind target_record = RFile)) then
    Err (InvalidLayer ("hardlink entry " +:+ quoted path +:+ " references non-file target " +:+ quoted target))
  else
    r <- record_from_entry path RFile entry None ;;
    let mode := if (r_mode r =? 0)%Z then r_mode target_record else r_mode r in
    let r := mkRecord (r_path r) (r_kind r) (r_uid r) (r_gid r) mode (r_target r) in
    if negb ((r_uid r =? r_uid target_record) && (r_gid r =? r_gid target_record) && (r_mode r =? r_mode target_record))%Z then
      Err (InvalidLayer ("hardlink entry " +:+ quoted path +:+ " has ownership or mode different from target " +:+ quoted target))
    else
      let* (t, rs) := cleared path st in
      t <- oci_io ("create extracted hardlink " +:+ quoted path) (hard_link t (at_root target) (at_root path)) ;;
      Ok (t, <[path := r]> rs).

Definition is_special_entry_type (ty : EntryType) : bool :=
  match ty with TChar | TBlock | TFifo | TSparse => true | _ => false end.

Definition xattr_key (key : bytes) : bool :=
  starts_with (lit "SCHILY.xattr.") key || starts_with (lit "LIBARCHIVE.xattr.") key || bytes_eqb key (lit "security.capability").
Definition warn_extension (path : bytes) (warnings : list string) (ext : result string (option bytes))
  : result OciExtractError (list string) :=
  key <- layer_err ("failed to parse pax extension for " +:+ quoted path) ext ;;
  Ok (match key with
      | Some k => if xattr_key k then warnings ++ [("skipping unsupported OCI layer xattr " +:+ quoted k +:+ " on " +:+ quoted path)%string] else warnings
      | None => warnings
      end).
Definition warn_unsupported_xattrs (entry : OciEntry) (warnings : list string) : result OciExtractError (list string) :=
  exts <- layer_err ("failed to read pax extensions for " +:+ quoted (oe_path entry)) (oe_pax entry) ;;
  match exts with
  | None => Ok warnings
  | Some l => try_fold (warn_extension (oe_path entry)) warnings l
  end.

(** The body of the loop of [extract_tar_stream]. *)
Definition extract_entry (acc : St * list string) (e : result string OciEntry) : result OciExtractError (St * list string) :=
  let '(st, warnings) := acc in
  entry <- layer_err "failed to read tar entry" e ;;
  found <- sanitize_tar_path_bytes (oe_path entry) "tar entry path" ;;
  match found with
  | None => Ok (st, warnings)
  | Some path =>
      whiteout <- handle_whiteout path st ;;
      match whiteout with
      | Some st => Ok (st, warnings)
      | None =>
          warnings <- warn_unsupported_xattrs entry warnings ;;
          match oe_type entry with
          | TRegular | TContinuous => st <- extract_file_entry path entry st ;; Ok (st, warnings)
          | TDirectory => st <- extract_directory_entry path entry st ;; Ok (st, warnings)
          | TSymlink => st <- extract_symlink_entry path entry st ;; Ok (st, warnings)
          | TLink => st <- extract_hardlink_entry path entry st ;; Ok (st, warnings)
          | ty => Ok (st, warnings ++ [((if is_special_entry_type ty then "skipping unsupported OCI layer special file "
                                         else "skipping unsupported OCI layer entry ") +:+ quoted path)%string])
          end
      end
  end.
Definition extract_tar_stream (acc : St * list string) (entries : result string (list (result string OciEntry)))
  : result OciExtractError (St * list string) :=
  entries <- layer_err "failed to read tar" entries ;;
  try_fold extract_entry acc entries.

(** ** Layers *)

Record OciDescriptor := mkOciDescriptor { od_media_type : bytes; od_digest : bytes }.
Definition MEDIA_TYPE_OCI_LAYER : bytes := lit "application/vnd.oci.image.layer.v1.tar+gzip".
Definition MEDIA_TYPE_DOCKER_LAYER_GZIP : bytes := lit "application/vnd.docker.image.rootfs.diff.tar.gzip".
Definition MEDIA_TYPE_OCI_LAYER_TAR : bytes := lit "application/vnd.oci.image.layer.v1.tar".

(** Opening a blob, and the entries of the archive in it, decompressed or not. *)
Context (blob : bytes -> result string bytes) (tar_entries : bool -> bytes -> result string (list (result string OciEntry))).

Definition extract_layer (acc : St * list string) (layer : OciDescriptor) : result OciExtractError (St * list string) :=
  b <- map_err (fun e => IoFailed ("failed to open OCI layer blob " +:+ quoted (od_digest layer) +:+ ": " +:+ e)) (blob (od_digest layer)) ;;
  if bytes_eqb (od_media_type layer) MEDIA_TYPE_OCI_LAYER || bytes_eqb (od_media_type layer) MEDIA_TYPE_DOCKER_LAYER_GZIP then
    extract_tar_stream acc (tar_entries true b)
  else if bytes_eqb (od_media_type layer) MEDIA_TYPE_OCI_LAYER_TAR then extract_tar_stream acc (tar_entries false b)
  else Err (InvalidLayer ("unsupported OCI layer media type " +:+ quoted (od_media_type layer) +:+ " for " +:+ show (od_digest layer))).
Definition extract_oci_image_layers (layers : list OciDescriptor) : result OciExtractError (St * list string) :=
  try_fold extract_layer (({[ [] := mkENode EDir uid gid mkdir_mode ]}, ∅), []) layers.

(** ** Metadata *)

Definition chown_if_needed (t : ETree) (p : list bytes) (follow : bool) (u g : u32) : result OciExtractError ETree :=
  n <- oci_io "inspect before chown" (lstat t p) ;;
  if (e_uid n =? u)%Z && (e_gid n =? g)%Z then Ok t else oci_io "chown" (set_owner t p follow u g).
Definition chmod (t : ETree) (p : list bytes) (mode : u32) : result OciExtractError ETree := oci_io "chmod" (set_mode t p mode).
Definition apply_leaf (t : ETree) (r : TarEntryRecord) : result OciExtractError ETree :=
  match r_kind r with
  | RFile => t <- chown_if_needed t (at_root (r_path r)) true (r_uid r) (r_gid r) ;; chmod t (at_root (r_path r)) (r_mode r)
  | RSymlink => chown_if_needed t (at_root (r_path r)) false (r_uid r) (r_gid r)
  | RDirectory => Ok t
  end.
Definition apply_directory (t : ETree) (r : TarEntryRecord) : result OciExtractError ETree :=
  t <- chown_if_needed t (at_root (r_path r)) true (r_uid r) (r_gid r) ;; chmod t (at_root (r_path r)) (r_mode r).

(** [sort_by_key] with the reversed depth: stable, the deepest first. *)
Fixpoint insert_record (r : TarEntryRecord) (l : list TarEntryRecord) : list TarEntryRecord :=
  match l with
  | [] => [r]
  | r' :: l' => if (path_depth (r_path r') <=? path_depth (r_path r))%nat then r :: l else r' :: insert_record r l'
  end.
Definition sort_records (l : list TarEntryRecord) : list TarEntryRecord := foldr insert_record [] l.

Definition apply_extracted_metadata (t : ETree) (records : list TarEntryRecord) : result OciExtractError ETree :=
  t <- try_fold apply_leaf t records ;;
  t <- try_fold apply_directory t (sort_records (List.filter (fun r => bool_decide (r_kind r = RDirectory)) records)) ;;
  chmod t [] MODE_755.

(** [records.into_values()], in key order. *)
Definition record_values (rs : Records) : list TarEntryRecord := map snd (sort_by fst (map_to_list rs)).
(** The part of [extract_oci_image_to_fs_tree_inner] that makes the tree. *)
Definition extracted_tree (layers : list OciDescriptor) : result OciExtractError (ETree * list string) :=
  let* (st, warnings) := extract_oci_image_layers layers in
  t <- apply_extracted_metadata st.1 (record_values st.2) ;;
  Ok (t, warnings).
End Calls.
