(* ===== verification/OciOverlay.v ===== *)
(** * Layers as overlays

    What the extraction of an image is to produce, as a fold over one map from
    paths to nodes, without records, deferred metadata or calls. *)

From S2P Require Import Prelude Errors Hash TarProfile OciExtract.

(** ** The overlay *)

(** A layer is refused, or asks for a removal at a path that means another place. *)
Inductive Refusal := Refused | Redirected (p : list bytes).
Abbreviation View := ETree.

Definition hide (f : list bytes -> bool) (v : View) : View := filter (fun e => f e.1 = false) v.
Definition at_or_below (p q : list bytes) : bool := bool_decide (p `prefix_of` q).
Definition strictly_below (p q : list bytes) : bool := at_or_below p q && negb (bool_decide (q = p)).
Definition implied : ENode := mkENode EDir 0 0 MODE_755.

(** The directories on the way to [pre ++ rest], those that are missing made. *)
Fixpoint through (v : View) (pre rest : list bytes) : result Refusal View :=
  match rest with
  | [] | [_] => Ok v
  | c :: rest' =>
      let q := pre ++ [c] in
      match v !! q with
      | Some n => if e_is_dir n then through v q rest' else Err Refused
      | None => through (<[q := implied]> v) q rest'
      end
  end.
(** Whether they are all there. *)
Fixpoint reach (v : View) (pre rest : list bytes) : result Refusal bool :=
  match rest with
  | [] => Ok true
  | c :: rest' =>
      match v !! pre with
      | None => Ok false
      | Some n => match e_kind n with
                  | EDir => reach v (pre ++ [c]) rest'
                  | EReg _ => Err Refused
                  | ELnk _ => Err (Redirected pre)
                  end
      end
  end.

Definition refuse {E A} (r : result E A) : result Refusal A := map_err (fun _ => Refused) r.
Definition owner_and_mode (e : OciEntry) : result Refusal (u32 * u32 * u32) :=
  u <- refuse (oe_uid e) ;; g <- refuse (oe_gid e) ;; m <- refuse (oe_entry_mode e) ;;
  if (u <? 2 ^ 32)%Z && (g <? 2 ^ 32)%Z then Ok (u, g, Z.land m 0xfff) else Err Refused.

(** A node takes the place of whatever is there. *)
Definition replace (v : View) (p : list bytes) (n : ENode) : View := <[p := n]> (hide (at_or_below p) v).
Definition whiteout (v : View) (p : list bytes) : option (result Refusal View) :=
  let dir := removelast p in
  let name := default [] (last p) in
  if bytes_eqb name OPAQUE then Some (reach v [] p ;;; Ok (hide (strictly_below dir) v))
  else if starts_with WHITEOUT name then
    let victim := dir ++ [drop (length WHITEOUT) name] in
    Some (if bytes_eqb name WHITEOUT then Err Refused
          else
            there <- reach v [] p ;;
            if there && dotted victim then Err (Redirected victim) else Ok (hide (at_or_below victim) v))
  else None.

Definition overlay_node (v : View) (p : list bytes) (e : OciEntry) : result Refusal View :=
  match oe_type e with
  | TRegular | TContinuous =>
      v <- through v [] p ;; data <- refuse (oe_data e) ;;
      let* (u, g, m) := owner_and_mode e in
      Ok (replace v p (mkENode (EReg data) u g m))
  | TDirectory =>
      v <- through v [] p ;;
      let* (u, g, m) := owner_and_mode e in
      let n := mkENode EDir u g m in
      Ok (match v !! p with
          | Some old => if e_is_dir old then <[p := n]> v else replace v p n
          | None => <[p := n]> v
          end)
  | TSymlink =>
      v <- through v [] p ;; target <- refuse (oe_link_name e) ;;
      target <- ok_or target Refused ;;
      if negb (is_utf8 target) || bytes_eqb target [] then Err Refused
      else let* (u, g, m) := owner_and_mode e in Ok (replace v p (mkENode (ELnk target) u g MODE_777))
  | TLink =>
      name <- ok_or (oe_link_bytes e) Refused ;;
      target <- refuse (sanitize_tar_path_bytes name "hardlink target") ;;
      target <- ok_or target Refused ;;
      n <- ok_or (v !! components_of target) Refused ;;
      match e_kind n with
      | EReg _ =>
          let* (u, g, m) := owner_and_mode e in
          let m := if (m =? 0)%Z then e_mode n else m in
          if (u =? e_uid n)%Z && (g =? e_gid n)%Z && (m =? e_mode n)%Z then
            v <- through v [] p ;;
            if at_or_below p (components_of target) then Err Refused else Ok (replace v p n)
          else Err Refused
      | _ => Err Refused
      end
  | _ => Ok v
  end.
Definition overlay_entry (v : View) (e : result string OciEntry) : result Refusal View :=
  e <- refuse e ;;
  path <- refuse (sanitize_tar_path_bytes (oe_path e) "tar entry path") ;;
  match path with
  | None => Ok v
  | Some path =>
      let p := components_of path in
      match whiteout v p with
      | Some r => r
      | None => refuse (warn_unsupported_xattrs e []) ;;; overlay_node v p e
      end
  end.

Section Layers.
Context (uid gid : Z).
Context (blob : bytes -> result string bytes) (tar_entries : bool -> bytes -> result string (list (result string OciEntry))).

Definition compressed_layer (layer : OciDescriptor) : option bool :=
  if bytes_eqb (od_media_type layer) MEDIA_TYPE_OCI_LAYER || bytes_eqb (od_media_type layer) MEDIA_TYPE_DOCKER_LAYER_GZIP then Some true
  else if bytes_eqb (od_media_type layer) MEDIA_TYPE_OCI_LAYER_TAR then Some false else None.
Definition overlay_layer (v : View) (layer : OciDescriptor) : result Refusal View :=
  b <- refuse (blob (od_digest layer)) ;; gz <- ok_or (compressed_layer layer) Refused ;;
  entries <- refuse (tar_entries gz b) ;; try_fold overlay_entry v entries.

(** The owner of the process stays where the metadata name none. *)
Definition settled (n : ENode) : ENode := mkENode (e_kind n) (owner uid (e_uid n)) (owner gid (e_gid n)) (e_mode n).
Definition overlay (layers : list OciDescriptor) : result Refusal View :=
  v <- try_fold overlay_layer {[ [] := mkENode EDir uid gid MODE_755 ]} layers ;; Ok (settled <$> v).
End Layers.
