(* ===== verification/OciFacts.v ===== *)
(** * The extraction of an image is an overlay

    Tree and records together always show the overlay of the entries so far, and
    the metadata that are applied in the end turn the tree into it.  At the end, the
    calls that a whiteout makes on a whole file system, and where they may lead. *)

From S2P Require Import Prelude Text Errors Hash TarProfile TarExtract OciExtract OciOverlay.

Abbreviation Records := (gmap bytes TarEntryRecord).
Abbreviation St := (ETree * Records)%type.

Section Overlay.
Context (mkdir_mode open_mode uid gid : Z).

(** ** The same outcome *)

Definition sim {A B : Type} (R : A -> B -> Prop) (r : result OciExtractError A) (s : result Refusal B) : Prop :=
  match r, s with
  | Ok a, Ok b => R a b
  | Err (Escapes p), Err (Redirected q) => p = q
  | Err (Escapes _), _ => False
  | Err _, Err Refused => True
  | _, _ => False
  end.

(** What the tree and the records say of a path together. *)
Definition view_at (rs : Records) (p : list bytes) (n : ENode) : option ENode :=
  match p with
  | [] => Some (mkENode (e_kind n) (e_uid n) (e_gid n) MODE_755)
  | _ => r ← rs !! key p;
         Some (mkENode (e_kind n) (r_uid r) (r_gid r) (match e_kind n with ELnk _ => MODE_777 | _ => r_mode r end))
  end.
Definition view (st : St) : View := map_imap (view_at st.2) st.1.

Definition record_kind (k : EKind) : TarRecordKind :=
  match k with EDir => RDirectory | EReg _ => RFile | ELnk _ => RSymlink end.
Definition tree_path (p : list bytes) : Prop := p <> [] /\ Forall valid_name p.
Definition fits (p : list bytes) (n : ENode) (r : TarEntryRecord) : Prop := r_path r = key p /\ r_kind r = record_kind (e_kind n).
Definition fresh (n : ENode) : Prop :=
  e_uid n = uid /\ e_gid n = gid /\ match e_kind n with ELnk _ => e_mode n = MODE_777 | _ => True end.

(** The tree is closed and what has been made is fresh; the records are keyed by
    its paths and agree on the kinds. *)
Record agree (st : St) : Prop := {
  ag_root : exists n, st.1 !! [] = Some n /\ e_kind n = EDir;
  ag_node : forall p n, st.1 !! p = Some n -> Forall valid_name p /\ fresh n;
  ag_closed : forall p c n, st.1 !! (p ++ [c]) = Some n -> exists d, st.1 !! p = Some d /\ e_kind d = EDir;
  ag_record : forall p, tree_path p -> option_Forall2 (fits p) (st.1 !! p) (st.2 !! key p);
  ag_key : forall k r, st.2 !! k = Some r -> exists p, k = key p /\ tree_path p;
}.
Definition shows (st : St) (v : View) : Prop := agree st /\ view st = v.

Lemma sim_bind {A B C D : Type} (R : A -> B -> Prop) (Q : C -> D -> Prop) r s k l :
  sim R r s -> (forall a b, R a b -> sim Q (k a) (l b)) ->
  sim Q (match r with Ok a => k a | Err e => Err e end) (match s with Ok b => l b | Err e => Err e end).
Proof. destruct r as [|[]], s as [|[]]; cbn; intros Hr Hk; try destruct Hr; auto. Qed.

(** What is only refused. *)
Definition plain {A : Type} (r : result OciExtractError A) : Prop := match r with Err (Escapes _) => False | _ => True end.
Lemma sim_refuse {A : Type} (r : result OciExtractError A) : plain r -> sim eq r (refuse r).
Proof. by destruct r as [|[]]. Qed.
Lemma sim_err {E A : Type} (f : E -> OciExtractError) (r : result E A) :
  (forall e, plain (A := A) (Err (f e))) -> sim eq (map_err f r) (refuse r).
Proof. destruct r; cbn; [done|]. intros H. specialize (H e). by destruct (f e). Qed.

(** ** Paths *)

Lemma key_app p q : p <> [] -> q <> [] -> key (p ++ q) = key p ++ 47%Z :: key q.
Proof.
  intros Hp Hq. unfold key. induction p as [|c p IH]; [done|]. destruct p as [|c' p].
  - by destruct q.
  - change (join_with [47]%Z ((c :: c' :: p) ++ q)) with (c ++ [47]%Z ++ join_with [47]%Z ((c' :: p) ++ q)).
    rewrite IH by done. cbn. by rewrite <- app_assoc.
Qed.
Definition slashless (p : list bytes) : Prop := p <> [] /\ Forall (fun c => 47%Z ∉ c) p.
Lemma tree_slashless p : tree_path p -> slashless p.
Proof. intros [? ?]. split; [done|by apply valid_no_slash]. Qed.
Lemma split_join_app p l : slashless p -> split_on 47 (key p ++ 47%Z :: l) = p ++ split_on 47 l.
Proof.
  intros [Hp Hv]. rewrite <- (join_split_on 47 l) at 1. destruct (split_on_cons 47 l) as (x & xs & E). rewrite E.
  change (join_with [47]%Z (x :: xs)) with (key (x :: xs)). rewrite <- key_app by done. apply split_on_join; [by destruct p|].
  apply Forall_app. split; [done|]. rewrite <- E. apply split_on_pieces.
Qed.

Lemma strictly_below_app p q : strictly_below p q = true <-> exists s, s <> [] /\ q = p ++ s.
Proof.
  unfold strictly_below, at_or_below. split.
  - intros H. bools. destruct H as [s ->]. exists s. split; [|done]. intros ->. by rewrite app_nil_r in *.
  - intros (s & Hs & ->). rewrite bool_decide_true by (by apply prefix_app_r). rewrite bool_decide_false; [done|].
    intros E. by rewrite <- (app_nil_r p) in E at 2; apply app_inv_head in E.
Qed.
Lemma below_key p q : slashless p -> tree_path q -> below (key p) (key q) = strictly_below p q.
Proof.
  intros Sp [Hq Vq]. destruct (Sp) as [Hp Vp]. unfold below, starts_with. apply eq_iff_eq_true. rewrite strictly_below_app. split.
  - destruct (strip_prefix _ _) as [l|] eqn:E; [|done]. intros _. apply strip_prefix_some in E. rewrite <- app_assoc in E.
    exists (split_on 47 l). split; [by destruct (split_on_cons 47 l) as (? & ? & ->)|].
    rewrite <- split_join_app by done. cbn in E. by rewrite <- E, split_key.
  - intros (s & Hs & ->). rewrite key_app by done. change (key p ++ 47%Z :: key s) with (key p ++ [47]%Z ++ key s).
    by rewrite app_assoc, strip_prefix_app.
Qed.
Lemma slashless_inj p q : slashless p -> slashless q -> key p = key q -> p = q.
Proof. intros [] [] E. unfold key in E. apply (f_equal (split_on 47)) in E. by rewrite !split_on_join in E. Qed.
Lemma record_below p q : slashless p -> tree_path q ->
  bool_decide (key q <> key p /\ below (key p) (key q) = false) = negb (at_or_below p q).
Proof.
  intros Hp Hq. rewrite below_key by done. apply eq_iff_eq_true. rewrite bool_decide_eq_true, negb_true_iff.
  unfold strictly_below. split.
  - intros [Hn Hb]. apply andb_false_iff in Hb as [?|Hb]; [done|]. bools. by subst.
  - intros Hb. rewrite Hb. split; [|done]. intros E. apply slashless_inj in E; [|by apply tree_slashless|done]. subst.
    unfold at_or_below in Hb. bools. by apply Hb.
Qed.

(** Sanitized paths. *)
Lemma sanitized b label path : sanitize_tar_path_bytes b label = Ok (Some path) -> tree_path (components_of path) /\ path = key (components_of path).
Proof.
  unfold sanitize_tar_path_bytes. cbv zeta. set (l := trim_slashes _ _). unfold components_of. intros E.
  destruct (negb _) in E; [done|]. destruct (starts_with _ _) in E; [done|]. destruct (bytes_eqb l [] || _) in E; [done|].
  inv_res. unfold key. rewrite !join_split_on. split; [|done]. split.
  - by destruct (split_on_cons 47 l) as (? & ? & ->).
  - apply Forall_forall. intros c Hc. pose proof (split_on_pieces 47 l) as Hs. rewrite Forall_forall in Hs. specialize (Hs c Hc).
    assert (unsafe_component c = false) as Hu.
    { apply not_true_is_false. intros Hu. assert (existsb unsafe_component (split_on 47 l) = true) as Hx; [|congruence].
      apply existsb_exists. exists c. split; [by apply list_elem_of_In|done]. }
    unfold unsafe_component in Hu. bools. by split_and!.
Qed.
Lemma sanitize_plain b label : plain (sanitize_tar_path_bytes b label).
Proof. unfold sanitize_tar_path_bytes. cbv zeta. by repeat case_match. Qed.
Lemma at_root_slashless p : slashless p -> key p <> [] -> at_root (key p) = p.
Proof.
  intros [Hp Hv] Hk. unfold at_root, components_of. unfold bytes_eqb. rewrite bool_decide_false by done. by apply split_on_join.
Qed.
Lemma key_nonempty p : tree_path p -> key p <> [].
Proof. intros [Hp Hv] E. apply join_nonempty in E; [done|by apply valid_nonempty]. Qed.
Lemma at_root_key p : tree_path p -> at_root (key p) = p.
Proof. intros Hp. apply at_root_slashless; [by apply tree_slashless|by apply key_nonempty]. Qed.
Lemma rsplit_none c : 47%Z ∉ c -> rsplit_once 47 c = None.
Proof.
  induction c as [|x c IH]; [done|]. intros [Hx Hc]%not_elem_of_cons. cbn. rewrite IH by done.
  destruct (x =? 47)%Z eqn:E; bools; [by subst|done].
Qed.
Lemma rsplit_last a c : 47%Z ∉ c -> rsplit_once 47 (a ++ 47%Z :: c) = Some (a, c).
Proof. intros Hc. induction a as [|x a IH]; cbn; [by rewrite rsplit_none|by rewrite IH]. Qed.
Lemma split_last q c : slashless (q ++ [c]) -> split_parent_name (key (q ++ [c])) = (key q, c).
Proof.
  intros [_ Hs]. apply Forall_app in Hs as [_ Hc]. rewrite Forall_singleton in Hc. unfold split_parent_name.
  destruct q as [|d q]; [change (key ([] ++ [c])) with c; by rewrite rsplit_none|]. rewrite key_app by done. by rewrite rsplit_last.
Qed.

(** ** Tree and records together *)

Lemma lookup_hide (f : list bytes -> bool) (v : View) q : hide f v !! q = if f q then None else v !! q.
Proof.
  unfold hide. rewrite map_lookup_filter. destruct (v !! q) as [n|]; cbn; [|by destruct (f q)].
  destruct (f q) eqn:E; [by rewrite option_guard_False by (cbn; congruence)|by rewrite option_guard_True].
Qed.
Lemma without_hide p t : without p t = hide (at_or_below p) t.
Proof.
  apply map_filter_ext. intros q n _. cbn. unfold at_or_below. by rewrite bool_decide_eq_false.
Qed.
Lemma lookup_view st p : view st !! p = st.1 !! p ≫= view_at st.2 p.
Proof. apply map_lookup_imap. Qed.

Lemma tree_path_dec p : Forall valid_name p -> p = [] \/ tree_path p.
Proof. destruct p; [by left|by right]. Qed.
Lemma agree_path st p n : agree st -> st.1 !! p = Some n -> p = [] \/ tree_path p.
Proof. intros Ha E. by apply tree_path_dec, (ag_node _ Ha _ n). Qed.

Lemma view_some st p n : agree st -> tree_path p -> st.1 !! p = Some n ->
  exists r, st.2 !! key p = Some r /\ fits p n r /\
    view st !! p = Some (mkENode (e_kind n) (r_uid r) (r_gid r) (match e_kind n with ELnk _ => MODE_777 | _ => r_mode r end)).
Proof.
  intros Ha Hp E. pose proof (ag_record _ Ha p Hp) as Hr. rewrite E in Hr. inversion Hr as [? r Hf H1 H2|]; subst.
  exists r. split; [done|]. split; [done|]. rewrite lookup_view, E. cbn. unfold view_at. rewrite <- H2. by destruct Hp, p.
Qed.
Lemma view_kind st p : agree st -> e_kind <$> view st !! p = e_kind <$> st.1 !! p.
Proof.
  intros Ha. rewrite lookup_view. destruct (st.1 !! p) as [n|] eqn:E; [|done]. cbn.
  destruct (agree_path _ _ _ Ha E) as [->|Hp]; [done|].
  destruct (view_some _ _ _ Ha Hp E) as (r & H1 & _ & H2). rewrite lookup_view, E in H2. cbn in H2. by rewrite H2.
Qed.
Lemma view_kind_some st p n : agree st -> view st !! p = Some n -> exists m, st.1 !! p = Some m /\ e_kind m = e_kind n.
Proof.
  intros Ha E. pose proof (view_kind st p Ha) as H. rewrite E in H. destruct (st.1 !! p) as [m|]; [|done]. exists m. split; [done|]. by injection H.
Qed.
Lemma view_none st p : agree st -> view st !! p = None -> st.1 !! p = None.
Proof. intros Ha E. pose proof (view_kind st p Ha) as H. rewrite E in H. by destruct (st.1 !! p). Qed.
Lemma record_none st p : agree st -> tree_path p -> st.1 !! p = None -> st.2 !! key p = None.
Proof. intros Ha Hp E. pose proof (ag_record _ Ha p Hp) as H. rewrite E in H. by inversion H. Qed.

Lemma shows_hide (st : St) (rs : Records) (f : list bytes -> bool) : agree st -> f [] = false -> (forall p c, f p = true -> f (p ++ [c]) = true) ->
  (forall p, tree_path p -> rs !! key p = if f p then None else st.2 !! key p) ->
  (forall k r, rs !! k = Some r -> st.2 !! k = Some r) ->
  shows (hide f st.1, rs) (hide f (view st)).
Proof.
  intros Ha Hroot Hup Hrs Hsub. split.
  - constructor; cbn [fst snd].
    + rewrite lookup_hide, Hroot. apply (ag_root _ Ha).
    + intros p n. rewrite lookup_hide. destruct (f p); [done|]. apply (ag_node _ Ha).
    + intros p c n. rewrite !lookup_hide. destruct (f (p ++ [c])) eqn:E; [done|]. intros Hn. apply (ag_closed _ Ha) in Hn.
      destruct (f p) eqn:Ep; [|done]. apply (Hup p c) in Ep. congruence.
    + intros p Hp. rewrite lookup_hide, (Hrs p Hp). destruct (f p); [constructor|by apply (ag_record _ Ha)].
    + intros k r Hk. apply Hsub in Hk. by eapply (ag_key _ Ha).
  - apply map_eq. intros p. rewrite lookup_view. cbn [fst snd]. rewrite !lookup_hide, lookup_view. destruct (f p) eqn:E; [done|].
    destruct (st.1 !! p) as [n|] eqn:En; [|done]. cbn. unfold view_at.
    destruct (agree_path _ _ _ Ha En) as [->|Hp]; [done|]. rewrite (Hrs p Hp), E. by destruct p.
Qed.

Definition recorded (n : ENode) (r : TarEntryRecord) : ENode :=
  mkENode (e_kind n) (r_uid r) (r_gid r) (match e_kind n with ELnk _ => MODE_777 | _ => r_mode r end).
Lemma shows_insert st p n r d : agree st -> tree_path p -> fresh n -> fits p n r ->
  st.1 !! removelast p = Some d -> e_kind d = EDir -> (e_kind n = EDir \/ forall c, st.1 !! (p ++ [c]) = None) ->
  shows (<[p := n]> st.1, <[key p := r]> st.2) (<[p := recorded n r]> (view st)).
Proof.
  intros Ha Hp Hn Hf Hd Hdk Hc. assert (forall q, tree_path q -> q <> p -> key q <> key p) as Hk.
  { intros q Hq Hne E. destruct Hp, Hq. by apply key_inj in E. } split.
  - constructor; cbn [fst snd].
    + rewrite lookup_insert_ne by apply Hp. apply (ag_root _ Ha).
    + intros q m Hq. apply lookup_insert_Some in Hq as [[<- <-]|[_ Hq]]; [split; [apply Hp|done]|by apply (ag_node _ Ha)].
    + intros q c m Hq. apply lookup_insert_Some in Hq as [[-> <-]|[Hne Hq]].
      * rewrite removelast_last in Hd. rewrite lookup_insert_ne; [by exists d|].
        intros E. apply (f_equal length) in E. rewrite length_app in E. cbn in E. lia.
      * destruct (decide (q = p)) as [->|Hqp].
        -- rewrite lookup_insert_eq. destruct Hc as [Hc|Hc]; [by exists n|]. by rewrite Hc in Hq.
        -- rewrite lookup_insert_ne by done. by eapply (ag_closed _ Ha).
    + intros q Hq. destruct (decide (q = p)) as [->|Hne]; [rewrite !lookup_insert_eq; by constructor|].
      rewrite !lookup_insert_ne; [by apply (ag_record _ Ha)| |done]. by apply not_eq_sym, Hk.
    + intros k r' Hr. apply lookup_insert_Some in Hr as [[<- _]|[_ Hr]]; [by exists p|by eapply (ag_key _ Ha)].
  - apply map_eq. intros q. rewrite lookup_view. cbn [fst snd]. destruct (decide (q = p)) as [->|Hne].
    + rewrite !lookup_insert_eq. cbn. destruct Hp as [Hp _]. destruct p as [|c p]; [done|]. unfold view_at. by rewrite lookup_insert_eq.
    + rewrite !lookup_insert_ne by done. rewrite lookup_view. destruct (st.1 !! q) as [m|] eqn:Eq; [|done]. cbn.
      destruct (agree_path _ _ _ Ha Eq) as [->|Hq]; [done|]. unfold view_at. rewrite lookup_insert_ne by (by apply not_eq_sym, Hk). by destruct q.
Qed.

(** ** Calls *)

(** The walk to the parent of a path, in the tree and in the overlay. *)
Definition walks (r : result FsErr unit) (s : result Refusal bool) : Prop :=
  match r, s with
  | Ok _, Ok b => b = true
  | Err NoEntry, Ok b => b = false
  | Err (OtherErr _), Err Refused => True
  | Err (Follows p), Err (Redirected q) => p = q
  | _, _ => False
  end.
Lemma walk_from st rest : agree st -> forall pre,
  walks (try_fold (fun _ depth => enter st.1 (take depth (pre ++ rest))) tt (seq (length pre) (length rest))) (reach (view st) pre rest).
Proof.
  intros Ha. induction rest as [|c rest IH]; intros pre; [done|]. cbn [length seq try_fold reach].
  rewrite take_app_length. unfold enter at 1. pose proof (view_kind st pre Ha) as Hk.
  destruct (view st !! pre) as [m|], (st.1 !! pre) as [n|]; [|done|done|done].
  injection Hk as ->. destruct (e_kind n); [|done|done]. specialize (IH (pre ++ [c])).
  rewrite <- app_assoc, length_app, Nat.add_1_r in IH. exact IH.
Qed.
Lemma walk_spec st p : agree st -> walks (enter_parents st.1 p) (reach (view st) [] p).
Proof. intros Ha. exact (walk_from st p Ha []). Qed.
Lemma reach_last (v : View) dir c c' : forall pre, reach v pre (dir ++ [c]) = reach v pre (dir ++ [c']).
Proof. induction dir as [|d dir IH]; intros pre; [done|]. cbn [app reach]. by rewrite IH. Qed.

Definition is_dir_at (t : ETree) (p : list bytes) : Prop := exists d, t !! p = Some d /\ e_kind d = EDir.
Lemma ancestors st p k n : agree st -> st.1 !! p = Some n -> (k < length p)%nat -> is_dir_at st.1 (take k p).
Proof.
  intros Ha. revert n. induction p as [|c p IH] using rev_ind; intros n E Hk; [cbn in Hk; lia|].
  rewrite length_app in Hk. cbn in Hk. apply (ag_closed _ Ha) in E as (d & E & Hd).
  destruct (decide (k = length p)) as [->|]; [rewrite take_app_length; by exists d|].
  rewrite take_app_le by lia. eapply IH; [exact E|lia].
Qed.
Lemma dirs_to st p k : agree st -> p <> [] -> is_dir_at st.1 (removelast p) -> (k < length p)%nat -> is_dir_at st.1 (take k p).
Proof.
  intros Ha Hp (d & E & Hd) Hk. destruct p as [|c p _] using rev_ind; [done|]. rewrite removelast_last in E.
  rewrite length_app in Hk. cbn in Hk. destruct (decide (k = length p)) as [->|]; [rewrite take_app_length; by exists d|].
  rewrite take_app_le by lia. eapply ancestors; [done|exact E|lia].
Qed.
Lemma entered t p : (forall k, (k < length p)%nat -> is_dir_at t (take k p)) -> enter_parents t p = Ok tt.
Proof.
  intros H. unfold enter_parents. assert (forall k, k ∈ seq 0 (length p) -> (k < length p)%nat) as Hs by (intros k Hk%elem_of_seq; lia).
  induction (seq 0 (length p)) as [|k l IH]; [done|]. cbn [try_fold]. unfold enter at 1.
  destruct (H k) as (d & -> & ->); [apply Hs; left|]. apply IH. intros j Hj. apply Hs. by right.
Qed.
Lemma entered_parent st p : agree st -> p <> [] -> is_dir_at st.1 (removelast p) -> enter_parents st.1 p = Ok tt.
Proof. intros Ha Hp Hd. apply entered. intros k Hk. by apply dirs_to. Qed.
Lemma not_dotted p : Forall valid_name p -> dotted p = false.
Proof.
  intros Hv. unfold dotted. destruct (last p) as [c|] eqn:E; [|done]. apply last_Some in E as [q ->].
  apply Forall_app in Hv as [_ Hc]. apply Forall_singleton in Hc as (_ & _ & H1 & H2).
  unfold bytes_eqb. by rewrite !bool_decide_false.
Qed.
Lemma lstat_there st p n : agree st -> st.1 !! p = Some n -> lstat st.1 p = Ok n.
Proof.
  intros Ha E. unfold lstat. rewrite entered by (intros k Hk; by eapply ancestors).
  rewrite not_dotted by (by apply (ag_node _ Ha _ _ E)). cbn. by rewrite E.
Qed.
Lemma lstat_absent st p : agree st -> tree_path p -> is_dir_at st.1 (removelast p) -> st.1 !! p = None -> lstat st.1 p = Err NoEntry.
Proof. intros Ha [Hp Hv] Hd E. unfold lstat. rewrite entered_parent by done. rewrite not_dotted by done. cbn. by rewrite E. Qed.

Lemma hide_absent st p : agree st -> st.1 !! p = None -> hide (at_or_below p) st.1 = st.1.
Proof.
  intros Ha E. apply map_eq. intros q. rewrite lookup_hide. unfold at_or_below. destruct (bool_decide _) eqn:B; bools; [|done].
  destruct B as [s ->]. destruct (st.1 !! (p ++ s)) as [n|] eqn:En; [|done]. exfalso. destruct s as [|c s]; [rewrite app_nil_r in En; congruence|].
  destruct (ancestors st _ (length p) n Ha En) as (d & Hd & _); [rewrite length_app; cbn; lia|]. rewrite take_app_length in Hd. congruence.
Qed.
Lemma removed st p n : agree st -> st.1 !! p = Some n -> remove_fs_path st.1 p = Ok (hide (at_or_below p) st.1).
Proof.
  intros Ha E. unfold remove_fs_path. rewrite (lstat_there st p n) by done. cbn. unfold remove_node.
  rewrite entered by (intros k Hk; by eapply ancestors). cbn. by rewrite without_hide.
Qed.

Lemma shows_remove st p : agree st -> slashless p ->
  shows (hide (at_or_below p) st.1, remove_record_tree (key p) st.2) (hide (at_or_below p) (view st)).
Proof.
  intros Ha Hp. apply shows_hide; [done| | | |].
  - unfold at_or_below. apply bool_decide_eq_false. intros E%prefix_nil_inv. by destruct Hp.
  - intros q c. unfold at_or_below. intros H. bools. apply bool_decide_eq_true. by apply prefix_app_r.
  - intros q Hq. unfold remove_record_tree. rewrite map_lookup_filter. pose proof (record_below p q Hp Hq) as Hb.
    destruct (st.2 !! key q) as [r|]; cbn; [|by destruct (at_or_below p q)].
    destruct (at_or_below p q); cbn [negb] in Hb; bools; [by rewrite option_guard_False|by rewrite option_guard_True].
  - intros k r. unfold remove_record_tree. by intros [? _]%map_lookup_filter_Some.
Qed.

(** ** Parents *)

Lemma removelast_not_below p q : p <> [] -> at_or_below p (removelast p ++ q) = true -> q <> [].
Proof.
  intros Hp H ->. rewrite app_nil_r in H. unfold at_or_below in H. bools. apply prefix_length in H.
  destruct p as [|c p _] using rev_ind; [done|]. rewrite removelast_last, length_app in H. cbn in H. lia.
Qed.
Lemma remove_there st p what : agree st -> tree_path p -> is_dir_at st.1 (removelast p) ->
  remove_if_there what st.1 p = Ok (hide (at_or_below p) st.1).
Proof.
  intros Ha Hp Hd. unfold remove_if_there. destruct (st.1 !! p) as [n|] eqn:E.
  - by rewrite (lstat_there st p n), (removed st p n).
  - rewrite lstat_absent by done. by rewrite hide_absent.
Qed.

Lemma make_dirs_there t p n : (forall k, (0 < k <= n)%nat -> is_dir_at t (take k p)) ->
  try_fold (make_level mkdir_mode uid gid p) t (seq 1 n) = Ok t.
Proof.
  induction n as [|n IH]; intros H; [done|]. rewrite seq_S, try_fold_app, IH by (intros k Hk; apply H; lia). cbn [try_fold].
  unfold make_level. change (1 + n)%nat with (S n). destruct (H (S n)) as (d & -> & ->); [lia|done].
Qed.
Lemma make_dirs_present st p n : agree st -> st.1 !! p = Some n -> e_kind n = EDir -> make_dirs mkdir_mode uid gid st.1 p = Ok st.1.
Proof.
  intros Ha E Hn. apply make_dirs_there. intros k Hk. destruct (decide (k = length p)) as [->|]; [rewrite firstn_all; by exists n|].
  eapply ancestors; [done..|lia].
Qed.
Lemma make_dirs_new st p : agree st -> p <> [] -> is_dir_at st.1 (removelast p) -> st.1 !! p = None ->
  make_dirs mkdir_mode uid gid st.1 p = Ok (<[p := mkENode EDir uid gid mkdir_mode]> st.1).
Proof.
  intros Ha Hp Hd E. unfold make_dirs. destruct (length p) as [|n] eqn:El; [by destruct p|].
  rewrite seq_S, try_fold_app, make_dirs_there by (intros k Hk; apply dirs_to; [done..|lia]). cbn [try_fold]. unfold make_level.
  change (1 + n)%nat with (S n). rewrite <- El, firstn_all. by rewrite E.
Qed.

Lemma join_rel_key p c : Forall valid_name p -> join_rel (key p) c = key (p ++ [c]).
Proof. intros Hp. rewrite key_snoc by done. unfold join_rel. destruct (bytes_eqb _ _) eqn:E; bools; [by rewrite E|by rewrite <- app_assoc]. Qed.
Lemma absent_below st p c : agree st -> st.1 !! p = None -> st.1 !! (p ++ [c]) = None.
Proof. intros Ha E. destruct (st.1 !! (p ++ [c])) as [n|] eqn:En; [|done]. apply (ag_closed _ Ha) in En as (? & ? & _). congruence. Qed.
Lemma shows_put st v p n r : shows st v -> tree_path p -> is_dir_at st.1 (removelast p) -> st.1 !! p = None -> fresh n -> fits p n r ->
  shows (<[p := n]> st.1, <[key p := r]> st.2) (<[p := recorded n r]> v).
Proof.
  intros [Ha <-] Hp (d & Hd & Hdk) E Hn Hf. eapply shows_insert; try done. right. intros c. by apply absent_below.
Qed.
Lemma fresh_dir mode : fresh (mkENode EDir uid gid mode). Proof. done. Qed.
Lemma fresh_file content mode : fresh (mkENode (EReg content) uid gid mode). Proof. done. Qed.
Lemma fresh_link target : fresh (mkENode (ELnk target) uid gid MODE_777). Proof. done. Qed.

Lemma parents_sim path rest : forall pre st v, shows st v -> rest <> [] -> Forall valid_name (pre ++ rest) -> is_dir_at st.1 pre ->
  sim (fun r v' => shows r.2 v' /\ is_dir_at r.2.1 (removelast (pre ++ rest)))
    (try_fold (ensure_parent mkdir_mode uid gid path) (key pre, st) (removelast rest)) (through v pre rest).
Proof.
  induction rest as [|c rest IH]; intros pre st v Hs Hr Hv Hd; [done|]. destruct rest as [|c' rest].
  { cbn. split; [done|]. by rewrite removelast_last. }
  change (removelast (c :: c' :: rest)) with (c :: removelast (c' :: rest)). cbn [try_fold].
  change (through v pre (c :: c' :: rest)) with (match v !! (pre ++ [c]) with
    | Some n => if e_is_dir n then through v (pre ++ [c]) (c' :: rest) else Err Refused
    | None => through (<[pre ++ [c] := implied]> v) (pre ++ [c]) (c' :: rest) end).
  rewrite (app_assoc pre [c] (c' :: rest) : pre ++ c :: c' :: rest = _) in Hv |- *.
  pose proof (proj1 (proj1 (Forall_app _ _ _) Hv)) as Hv1. pose proof (proj1 (proj1 (Forall_app _ _ _) Hv1)) as Hv0.
  assert (tree_path (pre ++ [c])) as Hp by (split; [by destruct pre|done]).
  destruct st as [t rs]. unfold ensure_parent at 1. rewrite join_rel_key by done. destruct Hs as [Ha Hview].
  pose proof (ag_record _ Ha _ Hp) as Hrec. pose proof (view_kind _ (pre ++ [c]) Ha) as Hk. rewrite Hview in Hk. cbn [fst snd] in *.
  destruct (t !! (pre ++ [c])) as [n|] eqn:En.
  - inversion Hrec as [? r [_ Hf] H1 H2|]; subst. rewrite Hf. destruct (view (t, rs) !! (pre ++ [c])) as [m|]; [|done].
    injection Hk as Hk. unfold e_is_dir. rewrite Hk. destruct (e_kind n) eqn:Ek; cbn [record_kind]; [|done|done].
    apply IH; [by split|done|done|by exists n].
  - inversion Hrec. destruct (v !! (pre ++ [c])); [done|]. rewrite at_root_key by done.
    rewrite (make_dirs_new (t, rs)) by (rewrite ?removelast_last; done || apply Hp). cbn [oci_io map_err fst].
    apply IH; [|done|done|eexists; split; [apply lookup_insert_eq|done]].
    apply (shows_put (t, rs) v (pre ++ [c]) (mkENode EDir uid gid mkdir_mode) (implicit_record (key (pre ++ [c]))));
      [by split|done|by rewrite removelast_last|done|done|done].
Qed.
Lemma ensure_sim st v p : shows st v -> tree_path p ->
  sim (fun st' v' => shows st' v' /\ is_dir_at st'.1 (removelast p)) (ensure_parent_directories mkdir_mode uid gid (key p) st) (through v [] p).
Proof.
  intros Hs [Hp Hv]. unfold ensure_parent_directories, components_of. rewrite split_key by done.
  pose proof (parents_sim (key p) p [] st v Hs Hp Hv (ag_root _ (proj1 Hs))) as H. cbn [key join_with] in H. change (key []) with (@nil Z) in H.
  destruct (try_fold _ _ _) as [[cur st']|e]; destruct (through _ _ _); cbn in *; done.
Qed.

Lemma removed_existing st v p : shows st v -> tree_path p -> is_dir_at st.1 (removelast p) ->
  exists st', remove_existing_path (key p) st = Ok st' /\ shows st' (hide (at_or_below p) v) /\
    is_dir_at st'.1 (removelast p) /\ st'.1 !! p = None.
Proof.
  intros [Ha <-] Hp Hd. unfold remove_existing_path. rewrite at_root_key, remove_there by done. eexists. split; [done|].
  split; [by apply shows_remove; [|apply tree_slashless]|]. cbn [fst]. split.
  - destruct Hd as (d & Hd & Hk). exists d. split; [|done]. rewrite lookup_hide.
    destruct (at_or_below p (removelast p)) eqn:E; [|done]. rewrite <- (app_nil_r (removelast p)) in E.
    apply removelast_not_below in E; [done|apply Hp].
  - rewrite lookup_hide. unfold at_or_below. by rewrite bool_decide_true.
Qed.
Lemma cleared_sim st v p : shows st v -> tree_path p ->
  sim (fun st' v' => shows st' (hide (at_or_below p) v') /\ is_dir_at st'.1 (removelast p)) (cleared mkdir_mode uid gid (key p) st) (through v [] p).
Proof.
  intros Hs Hp. unfold cleared. pose proof (ensure_sim st v p Hs Hp) as H.
  destruct (ensure_parent_directories _ _ _ _ _) as [st1|[]], (through v [] p) as [v1|]; try done. destruct H as [[Ha Hv] Hd].
  destruct (removed_existing st1 v1 p) as (st2 & -> & ? & ? & _); done.
Qed.
Lemma shows_replace st v p n r : shows st (hide (at_or_below p) v) -> tree_path p -> is_dir_at st.1 (removelast p) -> fresh n -> fits p n r ->
  st.1 !! p = None /\ shows (<[p := n]> st.1, <[key p := r]> st.2) (replace v p (recorded n r)).
Proof.
  intros Hs Hp Hd Hn Hf. assert (st.1 !! p = None) as E; [|split; [done|by apply shows_put]].
  apply view_none; [apply Hs|]. rewrite (proj2 Hs), lookup_hide. unfold at_or_below. by rewrite bool_decide_true.
Qed.

(** ** Entries *)

Lemma record_sim path kind e target :
  sim (fun r '(u, g, m) => r = mkRecord path kind u g m target) (record_from_entry path kind e target) (owner_and_mode e).
Proof.
  unfold record_from_entry, owner_and_mode, checked_u32, layer_err, refuse.
  destruct (oe_uid e) as [u|]; [|done]. cbn [map_err]. destruct (u <? 2 ^ 32)%Z; cbn [andb].
  - destruct (oe_gid e) as [g|]; [|done]. cbn [map_err]. destruct (g <? 2 ^ 32)%Z; by destruct (oe_entry_mode e).
  - by destruct (oe_gid e), (oe_entry_mode e).
Qed.
Lemma create_there t p kind mode : enter_parents t p = Ok tt -> t !! p = None -> create_node uid gid t p kind mode = Ok (<[p := mkENode kind uid gid mode]> t).
Proof. intros E1 E2. unfold create_node. by rewrite E1, E2. Qed.

Ltac sim_step H := eapply sim_bind; [exact H|cbn beta].
Lemma file_entry_sim st v p e : shows st v -> tree_path p ->
  sim shows (extract_file_entry mkdir_mode open_mode uid gid (key p) e st)
    (v <- through v [] p ;; data <- refuse (oe_data e) ;;
     let* (u, g, m) := owner_and_mode e in Ok (replace v p (mkENode (EReg data) u g m))).
Proof.
  intros Hs Hp. unfold extract_file_entry. sim_step (cleared_sim st v p Hs Hp). intros [t rs] v1 [Hc Hd]. rewrite at_root_key by done.
  assert (t !! p = None) as E.
  { by apply (shows_replace (t, rs) v1 p (mkENode (EReg []) uid gid 0) (mkRecord (key p) RFile 0 0 0 None)). }
  rewrite create_there; [|by apply (entered_parent (t, rs)); [apply Hc|apply Hp|]|done]. cbn [oci_io map_err].
  eapply (sim_bind eq); [by apply sim_err|]. intros data ? <-.
  sim_step (record_sim (key p) RFile e None). intros r [[u g] m] ->. rewrite insert_insert_eq.
  by apply (shows_replace (t, rs) v1 p (mkENode (EReg data) uid gid open_mode) (mkRecord (key p) RFile u g m None)).
Qed.

Lemma symlink_sim st v p e : shows st v -> tree_path p ->
  sim shows (extract_symlink_entry mkdir_mode uid gid (key p) e st)
    (v <- through v [] p ;; target <- refuse (oe_link_name e) ;; target <- ok_or target Refused ;;
     if negb (is_utf8 target) || bytes_eqb target [] then Err Refused
     else let* (u, g, m) := owner_and_mode e in Ok (replace v p (mkENode (ELnk target) u g MODE_777))).
Proof.
  intros Hs Hp. unfold extract_symlink_entry. sim_step (cleared_sim st v p Hs Hp). intros [t rs] v1 [Hc Hd]. rewrite at_root_key by done.
  eapply (sim_bind eq); [by apply sim_err|]. intros target ? <-. destruct target as [target|]; [|done]. cbn [ok_or].
  destruct (is_utf8 target); [|done]. cbn [negb orb]. unfold make_link. destruct (bytes_eqb target []); [done|].
  destruct (shows_replace (t, rs) v1 p (mkENode (ELnk target) uid gid MODE_777) (mkRecord (key p) RSymlink 0 0 0 None)) as [E _]; try done.
  rewrite create_there; [|by apply (entered_parent (t, rs)); [apply Hc|apply Hp|]|done]. cbn [oci_io map_err].
  sim_step (record_sim (key p) RSymlink e (Some target)). intros r [[u g] m] ->.
  by apply (shows_replace (t, rs) v1 p (mkENode (ELnk target) uid gid MODE_777) (mkRecord (key p) RSymlink u g m (Some target))).
Qed.

Lemma directory_sim st v p e : shows st v -> tree_path p ->
  sim shows (extract_directory_entry mkdir_mode uid gid (key p) e st)
    (v <- through v [] p ;;
     let* (u, g, m) := owner_and_mode e in
     let n := mkENode EDir u g m in
     Ok (match v !! p with
         | Some old => if e_is_dir old then <[p := n]> v else replace v p n
         | None => <[p := n]> v
         end)).
Proof.
  intros Hs Hp. unfold extract_directory_entry. sim_step (ensure_sim st v p Hs Hp). intros [t rs] v1 [Hv Hd]. cbn [fst snd] in *.
  destruct (Hv) as [Ha Hview]. pose proof (ag_record _ Ha _ Hp) as Hrec. pose proof (view_kind _ p Ha) as Hk. rewrite Hview in Hk. cbn [fst snd] in *.
  set (made := match rs !! key p with Some _ => _ | None => _ end).
  assert (exists st2 v2, made = Ok st2 /\ (forall n, (match v1 !! p with Some old => if e_is_dir old then <[p := n]> v1 else replace v1 p n | None => <[p := n]> v1 end) = <[p := n]> v2) /\
    shows st2 v2 /\ is_dir_at st2.1 (removelast p) /\ (st2.1 !! p = None \/ is_dir_at st2.1 p)) as (st2 & v2 & -> & Hn & Hs2 & Hd2 & Hp2).
  { subst made. destruct (t !! p) as [n|] eqn:En; inversion Hrec as [? r [_ Hf] H1 H2|]; subst; destruct (view (t, rs) !! p) as [m|]; try done.
    - injection Hk as Hk. rewrite Hf. unfold e_is_dir. rewrite Hk. destruct (e_kind n) eqn:Ek; cbn [record_kind].
      + rewrite bool_decide_true by done. eexists _, _. split_and!; [done|done|done|done|]. right. by exists n.
      + rewrite bool_decide_false by done. destruct (removed_existing (t, rs) _ p (conj Ha eq_refl) Hp Hd) as (st2 & -> & ? & ? & ?).
        eexists _, _. split_and!; [done|done|done|done|by left].
      + rewrite bool_decide_false by done. destruct (removed_existing (t, rs) _ p (conj Ha eq_refl) Hp Hd) as (st2 & -> & ? & ? & ?).
        eexists _, _. split_and!; [done|done|done|done|by left].
    - eexists _, _. split_and!; [done|done|done|done|]. by left. }
  destruct st2 as [t2 rs2]. destruct Hs2 as [Ha2 <-]. rewrite at_root_key by done. destruct Hp2 as [E|(n & E & Hnk)]; cbn [fst] in *.
  - pose proof (make_dirs_new (t2, rs2) p Ha2 (proj1 Hp) Hd2 E) as Hm. cbn [fst] in Hm. rewrite Hm. cbn [oci_io map_err fst].
    sim_step (record_sim (key p) RDirectory e None). intros r [[u g] m] ->. cbn [sim]. rewrite Hn.
    by apply (shows_put (t2, rs2) _ p (mkENode EDir uid gid mkdir_mode) (mkRecord (key p) RDirectory u g m None)).
  - pose proof (make_dirs_present (t2, rs2) p n Ha2 E Hnk) as Hm. cbn [fst] in Hm. rewrite Hm. cbn [oci_io map_err fst].
    sim_step (record_sim (key p) RDirectory e None). intros r [[u g] m] ->. cbn [sim]. rewrite Hn. rewrite <- (insert_id t2 p n) by done.
    destruct Hd2 as (d & Hd2 & Hdk). pose proof (ag_node _ Ha2 p n E) as [_ Hfr].
    replace (mkENode EDir u g m) with (recorded n (mkRecord (key p) RDirectory u g m None)) by (unfold recorded; by rewrite Hnk).
    rewrite (insert_id t2 p n) at 2 by done. eapply (shows_insert (t2, rs2)); try done; [|by left]. split; [done|]. by rewrite Hnk.
Qed.

Lemma through_extends rest : forall pre (v v1 : View) q n, through v pre rest = Ok v1 -> v !! q = Some n -> v1 !! q = Some n.
Proof.
  induction rest as [|c [|c' rest] IH]; intros pre v v1 q n; [by intros [= ->]..|].
  change (through v pre (c :: c' :: rest)) with (match v !! (pre ++ [c]) with
    | Some n => if e_is_dir n then through v (pre ++ [c]) (c' :: rest) else Err Refused
    | None => through (<[pre ++ [c] := implied]> v) (pre ++ [c]) (c' :: rest) end).
  destruct (v !! (pre ++ [c])) as [m|] eqn:E.
  - destruct (e_is_dir m); [|done]. apply IH.
  - intros Ht Hq. apply (IH _ _ _ q n Ht). rewrite lookup_insert_ne; [done|]. intros <-. congruence.
Qed.
Lemma lstat_gone t p : (forall k n, (k < length p)%nat -> t !! take k p = Some n -> e_kind n = EDir) -> dotted p = false ->
  t !! p = None -> lstat t p = Err NoEntry.
Proof.
  intros H Hd E. unfold lstat. assert (enter_parents t p = Ok tt \/ enter_parents t p = Err NoEntry) as [->| ->]; [|by rewrite Hd, E|done].
  unfold enter_parents. assert (forall k, k ∈ seq 0 (length p) -> (k < length p)%nat) as Hs by (intros k Hk%elem_of_seq; lia).
  induction (seq 0 (length p)) as [|k l IH]; [by left|]. cbn [try_fold]. unfold enter at 1 3.
  destruct (t !! take k p) as [n|] eqn:En; [|by right]. rewrite (H k n); [|apply Hs; left|done]. apply IH. intros j Hj. apply Hs. by right.
Qed.

Lemma hardlink_sim st v p e : shows st v -> tree_path p ->
  sim shows (extract_hardlink_entry mkdir_mode uid gid (key p) e st)
    (name <- ok_or (oe_link_bytes e) Refused ;;
     target <- refuse (sanitize_tar_path_bytes name "hardlink target") ;; target <- ok_or target Refused ;;
     n <- ok_or (v !! components_of target) Refused ;;
     match e_kind n with
     | EReg _ =>
         let* (u, g, m) := owner_and_mode e in
         let m := if (m =? 0)%Z then e_mode n else m in
         if (u =? e_uid n)%Z && (g =? e_gid n)%Z && (m =? e_mode n)%Z then
           v <- through v [] p ;;
           if at_or_below p (components_of target) then Err Refused else Ok (replace v p n)
         else Err Refused
     | _ => Err Refused
     end).
Proof.
  intros Hs Hp. unfold extract_hardlink_entry. destruct (oe_link_bytes e) as [name|]; [|done]. cbn [ok_or].
  destruct (sanitize_tar_path_bytes name _) as [[target|]|[]] eqn:Et; try done.
  2:{ pose proof (sanitize_plain name "hardlink target") as Hpl. by rewrite Et in Hpl. }
  cbn [refuse map_err ok_or]. apply sanitized in Et as [Htp Htk]. set (tgt := components_of target) in *. rewrite Htk.
  pose proof (proj1 Hs) as Ha. pose proof (ag_record _ Ha tgt Htp) as Hrec. pose proof (view_kind _ tgt Ha) as Hk. rewrite (proj2 Hs) in Hk.
  destruct (st.1 !! tgt) as [n0|] eqn:E0; inversion Hrec as [? r [_ Hf] H1 H2|H1 H2]; cbn [ok_or]; [|destruct (v !! tgt); done].
  destruct (view_some st tgt n0 Ha Htp E0) as (r' & Hr' & _ & Hv). rewrite (proj2 Hs) in Hv. replace r' with r in * by congruence.
  rewrite Hv. cbn [ok_or e_kind e_uid e_gid e_mode]. rewrite Hf. destruct (e_kind n0) as [|content|] eqn:Ek; [done| |done].
  cbn [record_kind negb bool_decide]. sim_step (record_sim (key p) RFile e None). intros r0 [[u g] m] ->. cbn [r_mode r_uid r_gid r_path r_kind r_target].
  destruct (_ && _ && _) eqn:Etest; [|done]. cbn [negb]. bools.
  pose proof (cleared_sim st v p Hs Hp) as Hcl.
  destruct (cleared _ _ _ _ _) as [[t rs]|[]], (through v [] p) as [v1|] eqn:Ev; try done. destruct Hcl as [Hc Hd].
  assert (forall q k, v !! q = Some k -> v1 !! q = Some k) as Hext by (intros; by eapply through_extends).
  rewrite !at_root_key by done. unfold hard_link. cbn [fst] in *.
  destruct (at_or_below p tgt) eqn:Eb.
  - rewrite lstat_gone; [done| |by apply not_dotted, Htp|].
    + intros k k' Hk' Hq. destruct (ancestors st tgt k n0 Ha E0 Hk') as (d & Hd1 & Hd2).
      pose proof (view_kind st (take k tgt) Ha) as Hkk. rewrite Hd1, (proj2 Hs) in Hkk. destruct (v !! take k tgt) as [w|] eqn:Ew; [|done].
      apply Hext in Ew. injection Hkk as Hkk. pose proof (view_kind (t, rs) (take k tgt) (proj1 Hc)) as Hk2.
      rewrite (proj2 Hc), lookup_hide in Hk2. cbn [fst] in Hk2. rewrite Hq in Hk2. destruct (at_or_below p (take k tgt)); [done|].
      rewrite Ew in Hk2. injection Hk2 as Hk2. congruence.
    + apply (view_none (t, rs)); [apply Hc|]. by rewrite (proj2 Hc), lookup_hide, Eb.
  - pose proof (proj2 Hc) as Hv2. apply Hext in Hv.
    destruct (view_kind_some (t, rs) tgt _ (proj1 Hc) ltac:(rewrite Hv2, lookup_hide, Eb; exact Hv)) as (n' & En' & Hk').
    pose proof (lstat_there (t, rs) tgt n' (proj1 Hc) En') as Hl. cbn [fst] in Hl, En'. rewrite Hl.
    pose proof (entered_parent (t, rs) p (proj1 Hc) (proj1 Hp) Hd) as Hen. cbn [fst] in Hen. rewrite Hen.
    set (r0 := mkRecord _ _ _ _ _ _). destruct (shows_replace (t, rs) v1 p n' r0 Hc Hp Hd) as [E Hsr];
      [by apply (ag_node _ (proj1 Hc) tgt)|split; [done|by rewrite Hk']|]. cbn [fst snd] in *. rewrite E. cbn [oci_io map_err sim].
    replace (mkENode _ _ _ _) with (recorded n' r0); [exact Hsr|]. unfold recorded, r0. rewrite Hk'. cbn. by f_equal.
Qed.

(** ** Whiteouts *)

Lemma reach_false_absent st p : agree st -> reach (view st) [] p = Ok false -> st.1 !! p = None.
Proof.
  intros Ha H. destruct (st.1 !! p) as [n|] eqn:E; [|done]. pose proof (walk_spec st p Ha) as Hw.
  rewrite H, entered in Hw by (intros k Hk; by eapply ancestors). done.
Qed.
Lemma remove_walk st p what : agree st ->
  sim (fun t v => t = hide (at_or_below p) st.1 /\ v = hide (at_or_below p) (view st)) (remove_if_there what st.1 p)
    (there <- reach (view st) [] p ;; if there && dotted p then Err (Redirected p) else Ok (hide (at_or_below p) (view st))).
Proof.
  intros Ha. pose proof (walk_spec st p Ha) as Hw. unfold remove_if_there.
  destruct (reach (view st) [] p) as [[]|[]] eqn:Er, (enter_parents st.1 p) as [[]|[]] eqn:Ee; try done; cbn [andb].
  - destruct (st.1 !! p) as [n|] eqn:En.
    + rewrite (lstat_there st p n) by done. rewrite not_dotted by (by apply (ag_node _ Ha p n)). by rewrite (removed st p n).
    + unfold lstat. rewrite Ee, En. destruct (dotted p); cbn; [done|]. by rewrite hide_absent.
  - unfold lstat. rewrite Ee. cbn. rewrite hide_absent; [done..|by apply reach_false_absent].
  - unfold lstat. by rewrite Ee.
  - unfold lstat. rewrite Ee. cbn in *. by rewrite Hw.
Qed.

(** The removal of the entries of a directory, one by one. *)
Lemma remove_names dir names : forall st, agree st -> NoDup names -> Forall (fun n => is_Some (st.1 !! (dir ++ [n]))) names ->
  try_fold (fun t n => remove_fs_path t (dir ++ [n])) st.1 names =
  Ok (hide (fun q => existsb (fun n => at_or_below (dir ++ [n]) q) names) st.1).
Proof.
  induction names as [|n names IH]; intros st Ha Hnd Hall.
  - cbn. f_equal. apply map_eq. intros q. by rewrite lookup_hide.
  - apply NoDup_cons in Hnd as [Hn Hnd]. apply Forall_cons in Hall as [[k Hk] Hall]. cbn [try_fold]. rewrite (removed st _ k) by done.
    assert (tree_path (dir ++ [n])) as Hp by (split; [by destruct dir|by apply (ag_node _ Ha _ k)]).
    destruct (shows_remove st _ Ha (tree_slashless _ Hp)) as [Ha' _].
    specialize (IH _ Ha' Hnd). cbn [fst] in IH. rewrite IH.
    + f_equal. apply map_eq. intros q. rewrite !lookup_hide. cbn [existsb]. by destruct (at_or_below (dir ++ [n]) q), (existsb _ _).
    + eapply Forall_impl; [apply Forall_and; split; [exact Hall|apply Forall_forall; intros m Hm; exact Hm]|]. intros m [Hm Hin]. cbn beta in *.
      rewrite lookup_hide. destruct (at_or_below (dir ++ [n]) (dir ++ [m])) eqn:E; [|done]. unfold at_or_below in E. bools.
      apply prefix_app_inv in E. apply prefix_cons_inv_1 in E. by subst.
Qed.

Lemma names_spec (t : ETree) dir n :
  n ∈ omap (fun q => if bool_decide (removelast q = dir) then last q else None) (map fst (map_to_list t)) <-> is_Some (t !! (dir ++ [n])).
Proof.
  rewrite list_elem_of_omap. split.
  - intros (q & Hq & Hl). case_bool_decide; [|done]. apply last_Some in Hl as [l ->]. rewrite removelast_last in *. subst.
    apply list_elem_of_In, in_map_iff in Hq as ([q k] & <- & Hin). exists k. by apply elem_of_map_to_list, list_elem_of_In.
  - intros [k Hk]. exists (dir ++ [n]). rewrite removelast_last, bool_decide_true, last_snoc by done. split; [|done].
    apply list_elem_of_In, in_map_iff. exists (dir ++ [n], k). split; [done|]. by apply list_elem_of_In, elem_of_map_to_list.
Qed.
Lemma names_distinct dir (l : list (list bytes)) : NoDup l -> NoDup (omap (fun q => if bool_decide (removelast q = dir) then last q else None) l).
Proof.
  induction 1 as [|q l Hq Hl IH]; [constructor|]. cbn [omap list_omap]. destruct (if bool_decide _ then _ else _) as [n|] eqn:E; [|done].
  constructor; [|done]. rewrite list_elem_of_omap. intros (q' & Hq' & E'). case_bool_decide; [|done]. case_bool_decide; [|done].
  apply last_Some in E as [x ->], E' as [y ->]. rewrite !removelast_last in *. by subst.
Qed.
Lemma clear_names st dir : agree st ->
  hide (fun q => existsb (fun n => at_or_below (dir ++ [n]) q)
    (omap (fun q => if bool_decide (removelast q = dir) then last q else None) (map fst (map_to_list st.1)))) st.1 = hide (strictly_below dir) st.1.
Proof.
  intros Ha. apply map_eq. intros q. rewrite !lookup_hide. destruct (st.1 !! q) as [n|] eqn:E; [|by destruct (existsb _ _), (strictly_below _ _)].
  replace (existsb _ _) with (strictly_below dir q); [done|]. apply eq_iff_eq_true. rewrite strictly_below_app, existsb_exists. split.
  - intros (s & Hs & ->). destruct s as [|c s]; [done|]. exists c. split.
    + apply list_elem_of_In, names_spec. destruct s as [|d s]; [by exists n|].
      destruct (ancestors st _ (length dir + 1) n Ha E) as (k & Hk & _); [rewrite length_app; cbn; lia|].
      rewrite take_app_ge in Hk by lia. replace (length dir + 1 - length dir)%nat with 1%nat in Hk by lia. by exists k.
    + unfold at_or_below. apply bool_decide_eq_true. exists s. by rewrite <- app_assoc.
  - intros (c & _ & H). unfold at_or_below in H. bools. destruct H as [s ->]. exists (c :: s). split; [done|]. by rewrite <- app_assoc.
Qed.

Lemma shows_clear st dir : agree st -> Forall valid_name dir ->
  shows (hide (strictly_below dir) st.1, remove_record_children (key dir) st.2) (hide (strictly_below dir) (view st)).
Proof.
  intros Ha Hd. apply shows_hide; [done| | | |].
  - apply not_true_is_false. rewrite strictly_below_app. intros (s & Hs & E). by destruct dir, s.
  - intros p c. rewrite !strictly_below_app. intros (s & Hs & ->). exists (s ++ [c]). split; [by destruct s|by rewrite app_assoc].
  - intros p Hp. unfold remove_record_children. destruct (bytes_eqb (key dir) []) eqn:E; bools.
    + apply join_nonempty in E as ->; [|by apply valid_nonempty]. rewrite lookup_empty.
      replace (strictly_below [] p) with true; [done|]. symmetry. apply strictly_below_app. exists p. split; [apply Hp|done].
    + assert (tree_path dir) as Htd by (split; [by intros ->|done]). rewrite map_lookup_filter.
      destruct (st.2 !! key p) as [r|]; cbn; [|by destruct (strictly_below dir p)].
      rewrite below_key by (done || by apply tree_slashless).
      destruct (strictly_below dir p) eqn:Es.
      * rewrite option_guard_False; [done|]. intros [Hk|Hk]; [|done]. apply slashless_inj in Hk; [|by apply tree_slashless..]. subst.
        apply strictly_below_app in Es as (s & Hs & Es). rewrite <- (app_nil_r dir) in Es at 1. by apply app_inv_head in Es.
      * rewrite option_guard_True by (by right). done.
  - intros k r. unfold remove_record_children. destruct (bytes_eqb _ _); [by rewrite lookup_empty|]. by intros [? _]%map_lookup_filter_Some.
Qed.

Definition done_with (o : option St) (v : View) : Prop := exists st, o = Some st /\ shows st v.
Lemma hide_absent_below st dir name : agree st -> reach (view st) [] (dir ++ [name]) = Ok false -> hide (strictly_below dir) st.1 = st.1.
Proof.
  intros Ha Hr. apply map_eq. intros q. rewrite lookup_hide. destruct (strictly_below dir q) eqn:E; [|done].
  destruct (st.1 !! q) as [n|] eqn:En; [|done]. exfalso. apply strictly_below_app in E as (s & Hs & ->).
  pose proof (walk_spec st (dir ++ [name]) Ha) as Hw. rewrite Hr, entered in Hw; [done|]. intros k Hk. rewrite length_app in Hk. cbn in Hk.
  rewrite take_app_le by lia. destruct s as [|c s]; [done|].
  destruct (ancestors st _ k n Ha En) as (d & Hd & Hdk); [rewrite length_app; cbn; lia|]. rewrite take_app_le in Hd by lia. by exists d.
Qed.
Lemma opaque_sim st dir name : agree st -> Forall valid_name (dir ++ [name]) ->
  sim done_with
    (t <- match list_dir st.1 dir with
          | Ok names => try_fold (fun t n => remove_fs_path t (dir ++ [n])) st.1 names
          | Err NoEntry => Ok st.1
          | Err e => oci_io "read opaque whiteout directory" (Err e)
          end ;;
     Ok (Some (t, remove_record_children (key dir) st.2)))
    (reach (view st) [] (dir ++ [name]) ;;; Ok (hide (strictly_below dir) (view st))).
Proof.
  intros Ha Hv. apply Forall_app in Hv as [Hv _]. pose proof (walk_spec st (dir ++ [name]) Ha) as Hw.
  assert (enter_parents st.1 (dir ++ [name]) = match enter_parents st.1 dir with Ok _ => enter st.1 dir | Err e => Err e end) as Hen.
  { unfold enter_parents. rewrite length_app, seq_app, try_fold_app. cbn [length seq Nat.add try_fold]. rewrite take_app_length.
    replace (try_fold (fun _ depth => enter st.1 (take depth (dir ++ [name]))) tt (seq 0 (length dir)))
      with (try_fold (fun _ depth => enter st.1 (take depth dir)) tt (seq 0 (length dir))).
    - destruct (try_fold _ _ _) as [[]|]; [|done]. by destruct (enter st.1 dir) as [[]|].
    - assert (forall k, k ∈ seq 0 (length dir) -> (k < length dir)%nat) as Hk by (intros k Hk%elem_of_seq; lia).
      induction (seq 0 (length dir)) as [|k l IH]; [done|]. cbn [try_fold]. rewrite (take_app_le dir) by (apply Nat.lt_le_incl, Hk; left).
      destruct (enter st.1 (take k dir)) as [[]|]; [|done]. apply IH. intros j Hj. apply Hk. by right. }
  rewrite Hen in Hw. unfold list_dir. pose proof (shows_clear st dir Ha Hv) as Hcl.
  destruct (enter_parents st.1 dir) as [[]|[]], (reach _ _ _) as [[]|[]] eqn:Er; try done.
  - destruct (enter st.1 dir) as [[]|[]]; try done. rewrite remove_names; [|done| |].
    + rewrite clear_names by done. cbn. by eexists.
    + apply names_distinct, NoDup_fst_map_to_list.
    + apply Forall_forall. intros n. apply names_spec.
  - destruct (enter st.1 dir) as [[]|[]]; try done. cbn. eexists. split; [done|]. by rewrite (hide_absent_below st dir name) in Hcl.
  - destruct (enter st.1 dir) as [[]|[]]; done.
  - destruct (enter st.1 dir) as [[]|[]]; done.
  - cbn. eexists. split; [done|]. by rewrite (hide_absent_below st dir name) in Hcl.
Qed.

Lemma whiteout_sim st p : agree st -> tree_path p ->
  match whiteout (view st) p with
  | None => handle_whiteout (key p) st = Ok None
  | Some r => sim done_with (handle_whiteout (key p) st) r
  end.
Proof.
  intros Ha Hp. destruct (Hp) as [Hne Hv]. destruct p as [|c p _] using rev_ind; [done|]. clear Hne.
  unfold handle_whiteout, whiteout. rewrite split_last by (by apply tree_slashless). rewrite removelast_last, last_snoc. cbn [default from_option id].
  assert (Forall valid_name p /\ valid_name c) as [Hvp Hvc] by (apply Forall_app in Hv as [? Hc]; by rewrite Forall_singleton in Hc).
  assert (at_root (key p) = p) as Hroot by (destruct (tree_path_dec p Hvp) as [->|?]; [done|by apply at_root_key]).
  destruct (bytes_eqb c OPAQUE); [rewrite Hroot; by apply opaque_sim|].
  destruct (starts_with WHITEOUT c) eqn:Ew; [|done]. unfold starts_with in Ew. destruct (strip_prefix WHITEOUT c) as [rest|] eqn:Es; [|done].
  apply strip_prefix_some in Es. subst c. rewrite drop_app_length.
  destruct (bytes_eqb rest []) eqn:Er; bools.
  { subst rest. rewrite app_nil_r. unfold bytes_eqb. by rewrite bool_decide_true. }
  unfold bytes_eqb at 1. rewrite bool_decide_false by (intros E; rewrite <- (app_nil_r WHITEOUT) in E at 2; by apply app_inv_head in E).
  rewrite join_rel_key by done. assert (slashless (p ++ [rest])) as Hs.
  { split; [by destruct p|]. apply Forall_app. split; [by apply valid_no_slash|]. rewrite Forall_singleton.
    destruct Hvc as (_ & Hvc & _). intros Hin. apply Hvc, elem_of_app. by right. }
  rewrite at_root_slashless; [|done|].
  2:{ intros E. rewrite key_snoc in E by done. apply app_eq_nil in E as [_ E]. done. }
  rewrite (reach_last (view st) p _ rest). pose proof (remove_walk st (p ++ [rest]) "inspect whiteout target" Ha) as Hr.
  pose proof (shows_remove st (p ++ [rest]) Ha Hs) as Hsh.
  destruct (remove_if_there _ _ _) as [t|[]], (reach _ _ _) as [there|[]]; cbn [andb sim] in *; try done.
  all: destruct (there && dotted (p ++ [rest])); cbn in *; try done.
  destruct Hr as [-> _]. by eexists.
Qed.

(** ** Layers *)

Lemma warnings_sim e w : sim (fun _ _ => True) (warn_unsupported_xattrs e w) (refuse (warn_unsupported_xattrs e [])).
Proof.
  unfold warn_unsupported_xattrs, layer_err. destruct (oe_pax e) as [[exts|]|]; [|done|done]. cbn [map_err].
  generalize (@nil string). revert w. induction exts as [|x exts IH]; intros w w'; [done|]. cbn [try_fold]. unfold warn_extension at 1 3, layer_err.
  destruct x as [key|]; [|done]. cbn [map_err]. apply IH.
Qed.
Lemma node_sim st v p e warnings : shows st v -> tree_path p ->
  sim (fun acc v' => shows acc.1 v')
    (match oe_type e with
     | TRegular | TContinuous => st <- extract_file_entry mkdir_mode open_mode uid gid (key p) e st ;; Ok (st, warnings)
     | TDirectory => st <- extract_directory_entry mkdir_mode uid gid (key p) e st ;; Ok (st, warnings)
     | TSymlink => st <- extract_symlink_entry mkdir_mode uid gid (key p) e st ;; Ok (st, warnings)
     | TLink => st <- extract_hardlink_entry mkdir_mode uid gid (key p) e st ;; Ok (st, warnings)
     | ty => Ok (st, warnings ++ [((if is_special_entry_type ty then "skipping unsupported OCI layer special file "
                                    else "skipping unsupported OCI layer entry ") +:+ quoted (key p))%string])
     end) (overlay_node v p e).
Proof.
  intros Hs Hp. unfold overlay_node. pose proof (file_entry_sim st v p e Hs Hp) as H1. pose proof (symlink_sim st v p e Hs Hp) as H2.
  pose proof (directory_sim st v p e Hs Hp) as H3. pose proof (hardlink_sim st v p e Hs Hp) as H4.
  destruct (oe_type e); cbn [sim fst]; try done.
  - by destruct (extract_file_entry _ _ _ _ _ _ _) as [|[]].
  - by destruct (extract_file_entry _ _ _ _ _ _ _) as [|[]].
  - by destruct (extract_directory_entry _ _ _ _ _ _) as [|[]].
  - by destruct (extract_symlink_entry _ _ _ _ _ _) as [|[]].
  - by destruct (extract_hardlink_entry _ _ _ _ _ _) as [|[]].
Qed.
Lemma entry_sim acc v e : shows acc.1 v ->
  sim (fun acc v' => shows acc.1 v') (extract_entry mkdir_mode open_mode uid gid acc e) (overlay_entry v e).
Proof.
  destruct acc as [st warnings]. cbn [fst]. intros Hs. unfold extract_entry, overlay_entry.
  eapply (sim_bind eq); [by apply sim_err|]. intros entry ? <-.
  destruct (sanitize_tar_path_bytes _ _) as [[path|]|err] eqn:E; [|done|].
  2:{ pose proof (sanitize_plain (oe_path entry) "tar entry path") as Hpl. rewrite E in Hpl. by destruct err. }
  apply sanitized in E as [Hp Hk]. cbv zeta. cbn [refuse map_err]. revert Hp Hk. generalize (components_of path). intros p Hp ->.
  destruct (Hs) as [Ha <-]. pose proof (whiteout_sim st p Ha Hp) as Hw. destruct (whiteout (view st) p) as [r|].
  - destruct (handle_whiteout _ _) as [o|[]], r as [v'|[]]; try exact Hw; try done.
    destruct Hw as (st' & -> & Hst'). exact Hst'.
  - rewrite Hw. eapply sim_bind; [apply warnings_sim|]. intros w _ _. by apply node_sim.
Qed.
Lemma entries_sim entries : forall acc v, shows acc.1 v ->
  sim (fun acc v' => shows acc.1 v') (try_fold (extract_entry mkdir_mode open_mode uid gid) acc entries) (try_fold overlay_entry v entries).
Proof.
  induction entries as [|e entries IH]; intros acc v Hs; [done|]. cbn [try_fold].
  eapply sim_bind; [by apply entry_sim|]. intros acc' v' Hs'. by apply IH.
Qed.

Lemma layers_sim blob tar_entries layers : forall acc v, shows acc.1 v ->
  sim (fun acc v' => shows acc.1 v')
    (try_fold (extract_layer mkdir_mode open_mode uid gid blob tar_entries) acc layers) (try_fold (overlay_layer blob tar_entries) v layers).
Proof.
  induction layers as [|l layers IH]; intros acc v Hs; [done|]. cbn [try_fold].
  eapply (sim_bind (fun acc v' => shows acc.1 v')); [|intros acc' v' Hs'; by apply IH]. unfold extract_layer, overlay_layer.
  eapply (sim_bind eq); [by apply sim_err|]. intros b ? <-. unfold compressed_layer.
  destruct (bytes_eqb _ _ || bytes_eqb _ _); [|destruct (bytes_eqb _ _); [|done]]; cbn [ok_or]; unfold extract_tar_stream.
  all: eapply (sim_bind eq); [by apply sim_err|]; intros es ? <-; by apply entries_sim.
Qed.

(** ** Metadata *)

Section Metadata.
Context (st : St) (Hst : agree st).
Let V : View := settled uid gid <$> view st.

(** On the way to [V]: every path is as extracted, or as it is to be. *)
Definition between (t : ETree) : Prop := forall p, t !! p = st.1 !! p \/ t !! p = V !! p.
Definition progress (t t' : ETree) : Prop := between t' /\ forall p, t !! p = V !! p -> t' !! p = V !! p.

Lemma target_kind p : e_kind <$> V !! p = e_kind <$> st.1 !! p.
Proof. unfold V. rewrite lookup_fmap, <- (view_kind st p Hst). by destruct (view st !! p). Qed.
Definition alike (t : ETree) : Prop := forall p, e_kind <$> t !! p = e_kind <$> st.1 !! p.
Lemma between_alike t : between t -> alike t.
Proof. intros Ht p. destruct (Ht p) as [->| ->]; [done|apply target_kind]. Qed.
Lemma alike_insert t p n m : alike t -> t !! p = Some n -> e_kind m = e_kind n -> alike (<[p := m]> t).
Proof.
  intros Ht E Hm q. destruct (decide (q = p)) as [->|]; [|by rewrite lookup_insert_ne].
  rewrite lookup_insert_eq, <- (Ht p), E. cbn. by rewrite Hm.
Qed.
Lemma alike_lstat t p n : alike t -> t !! p = Some n -> lstat t p = Ok n.
Proof.
  intros Ht E. pose proof (Ht p) as Hk. rewrite E in Hk. destruct (st.1 !! p) as [m|] eqn:Em; [|done].
  unfold lstat. rewrite entered.
  - rewrite not_dotted by (by apply (ag_node _ Hst p m)). cbn. by rewrite E.
  - intros k Hlt. destruct (ancestors st p k m Hst Em Hlt) as (d & Hd & Hdk). pose proof (Ht (take k p)) as Hk2.
    rewrite Hd in Hk2. destruct (t !! take k p) as [d'|] eqn:Ed; [|discriminate Hk2]. injection Hk2 as Hk2. exists d'. split; [done|congruence].
Qed.
Lemma settle_at t p x : between t -> V !! p = Some x -> progress t (<[p := x]> t).
Proof.
  intros Ht Hx. split.
  - intros q. destruct (decide (q = p)) as [->|]; [rewrite lookup_insert_eq; by right|rewrite lookup_insert_ne by done; apply Ht].
  - intros q Hq. destruct (decide (q = p)) as [->|]; [by rewrite lookup_insert_eq|by rewrite lookup_insert_ne].
Qed.

Lemma chowned t p n follow u g : alike t -> t !! p = Some n -> (follow = true -> forall target, e_kind n <> ELnk target) ->
  chown_if_needed t p follow u g = Ok (<[p := mkENode (e_kind n) (owner (e_uid n) u) (owner (e_gid n) g) (e_mode n)]> t).
Proof.
  intros Ht E Hf. unfold chown_if_needed, set_owner. rewrite (alike_lstat t p n) by done. cbn [oci_io map_err].
  destruct (_ && _) eqn:Eq; bools.
  - subst. unfold owner. rewrite insert_id; [done|]. rewrite E. destruct n. cbn. by repeat case_match.
  - destruct follow, (e_kind n) eqn:Ek; try done. by destruct (Hf eq_refl target).
Qed.
Lemma chmodded t p n mode : alike t -> t !! p = Some n -> (forall target, e_kind n <> ELnk target) ->
  chmod t p mode = Ok (<[p := mkENode (e_kind n) (e_uid n) (e_gid n) mode]> t).
Proof.
  intros Ht E Hf. unfold chmod, set_mode. rewrite (alike_lstat t p n) by done. destruct (e_kind n) eqn:Ek; try done. by destruct (Hf target).
Qed.

Lemma owner_twice a b : owner (owner a b) b = owner a b.
Proof. unfold owner. by repeat case_match. Qed.
Lemma record_target p r : tree_path p -> st.2 !! key p = Some r ->
  exists n, st.1 !! p = Some n /\ fits p n r /\ fresh n /\
    V !! p = Some (mkENode (e_kind n) (owner uid (r_uid r)) (owner gid (r_gid r)) (match e_kind n with ELnk _ => MODE_777 | _ => r_mode r end)).
Proof.
  intros Hp Hr. pose proof (ag_record _ Hst p Hp) as Hrec. destruct (st.1 !! p) as [n|] eqn:E; [|rewrite Hr in Hrec; inversion Hrec].
  destruct (view_some st p n Hst Hp E) as (r' & Hr' & Hf & Hv). replace r' with r in * by congruence.
  exists n. split; [done|]. split; [done|]. split; [by apply (ag_node _ Hst p)|]. unfold V. by rewrite lookup_fmap, Hv.
Qed.

(** What one record settles. *)
Lemma current t p r : between t -> tree_path p -> st.2 !! key p = Some r ->
  exists n x, t !! p = Some n /\ V !! p = Some x /\ r_kind r = record_kind (e_kind n) /\ at_root (r_path r) = p /\ e_kind x = e_kind n /\
    owner (e_uid n) (r_uid r) = e_uid x /\ owner (e_gid n) (r_gid r) = e_gid x /\
    match e_kind n with ELnk _ => e_mode n = e_mode x | _ => r_mode r = e_mode x end.
Proof.
  intros Ht Hp Hr. destruct (record_target p r Hp Hr) as (n0 & En & [Hf1 Hf2] & (Hu & Hg & Hm) & Hx).
  assert (at_root (r_path r) = p) as Hat by (rewrite Hf1; by apply at_root_key).
  destruct (Ht p) as [E|E]; rewrite ?En, ?Hx in E.
  - eexists _, _. split; [exact E|]. split; [exact Hx|]. cbn. rewrite Hu, Hg. split_and!; try done. by destruct (e_kind n0).
  - eexists _, _. split; [exact E|]. split; [exact Hx|]. cbn. rewrite !owner_twice. split_and!; try done. by destruct (e_kind n0).
Qed.
Lemma settle_mode t p r : between t -> tree_path p -> st.2 !! key p = Some r -> r_kind r <> RSymlink ->
  exists t', (t <- chown_if_needed t (at_root (r_path r)) true (r_uid r) (r_gid r) ;; chmod t (at_root (r_path r)) (r_mode r)) = Ok t' /\
    progress t t' /\ t' !! p = V !! p.
Proof.
  intros Ht Hp Hr Hk. destruct (current t p r Ht Hp Hr) as (n & x & En & Ex & Hrk & -> & Hkx & Hu & Hg & Hm).
  assert (forall target, e_kind n <> ELnk target) as Hl by (intros target E; rewrite E in Hrk; done).
  rewrite (chowned t p n) by (done || by apply between_alike).
  rewrite (chmodded _ p (mkENode (e_kind n) (owner (e_uid n) (r_uid r)) (owner (e_gid n) (r_gid r)) (e_mode n)));
    [|eapply alike_insert; [by apply between_alike|exact En|done]|by rewrite lookup_insert_eq|exact Hl].
  rewrite insert_insert_eq. cbn. eexists. split; [done|]. replace (mkENode _ _ _ _) with x.
  - split; [by apply settle_at|by rewrite lookup_insert_eq].
  - destruct x as [k1 u1 g1 m1]. cbn in *. rewrite Hu, Hg. destruct (e_kind n) eqn:Ek; [by subst..|by destruct (Hl target)].
Qed.
Lemma settle_leaf t p r : between t -> tree_path p -> st.2 !! key p = Some r ->
  exists t', apply_leaf t r = Ok t' /\ progress t t' /\ (r_kind r <> RDirectory -> t' !! p = V !! p).
Proof.
  intros Ht Hp Hr. unfold apply_leaf. destruct (r_kind r) eqn:Ek.
  - destruct (settle_mode t p r Ht Hp Hr) as (t' & -> & ? & ?); [by rewrite Ek|]. by exists t'.
  - exists t. split; [done|]. split; [by split|done].
  - destruct (current t p r Ht Hp Hr) as (n & x & En & Ex & Hrk & -> & Hkx & Hu & Hg & Hm).
    rewrite (chowned t p n) by (done || by apply between_alike). eexists. split; [done|]. replace (mkENode _ _ _ _) with x.
    + split; [by apply settle_at|intros _; by rewrite lookup_insert_eq].
    + destruct x as [k1 u1 g1 m1]. cbn in *. rewrite Hu, Hg. destruct (e_kind n) eqn:Ek2; [by rewrite Ek in Hrk..|by subst].
Qed.

Lemma settle_all (f : ETree -> TarEntryRecord -> result OciExtractError ETree) (want : TarEntryRecord -> Prop) l :
  (forall r, r ∈ l -> exists p, tree_path p /\ r_path r = key p /\
    forall t, between t -> exists t', f t r = Ok t' /\ progress t t' /\ (want r -> t' !! p = V !! p)) ->
  forall t, between t -> exists t', try_fold f t l = Ok t' /\ progress t t' /\
    forall r, r ∈ l -> want r -> t' !! at_root (r_path r) = V !! at_root (r_path r).
Proof.
  induction l as [|r l IH]; intros Hf t Ht.
  - exists t. split; [done|]. split; [by split|]. by intros r Hr%not_elem_of_nil.
  - destruct (Hf r) as (p & Hp & Hrp & Hs); [left|]. destruct (Hs t Ht) as (t1 & E1 & [Hb1 Hk1] & Hw).
    destruct (IH (fun r' Hr' => Hf r' (list_elem_of_further _ _ _ Hr')) t1 Hb1) as (t2 & E2 & [Hb2 Hk2] & Hall).
    exists t2. cbn [try_fold]. rewrite E1. split; [done|]. split; [split; [done|]; intros q Hq; by apply Hk2, Hk1|].
    intros r' [->|Hr']%elem_of_cons Hw'; [|by apply Hall]. rewrite Hrp, at_root_key by done. apply Hk2. by apply Hw.
Qed.

Lemma insert_record_in r x l : x ∈ insert_record r l <-> x = r \/ x ∈ l.
Proof.
  induction l as [|y l IH]; cbn [insert_record]; [by rewrite list_elem_of_singleton, elem_of_nil; intuition|].
  destruct (_ <=? _)%nat; rewrite !elem_of_cons; [done|]. rewrite IH. tauto.
Qed.
Lemma sort_records_in x l : x ∈ sort_records l <-> x ∈ l.
Proof. induction l as [|r l IH]; [done|]. cbn. rewrite insert_record_in, elem_of_cons. by rewrite <- IH. Qed.
Lemma record_values_in (rs : Records) r : r ∈ record_values rs <-> exists k, rs !! k = Some r.
Proof.
  unfold record_values. rewrite list_elem_of_In, in_map_iff. split.
  - intros ([k r'] & <- & Hin). exists k. apply list_elem_of_In in Hin. rewrite sort_by_perm in Hin. by apply elem_of_map_to_list.
  - intros [k Hk]. exists (k, r). split; [done|]. apply list_elem_of_In. rewrite sort_by_perm. by apply elem_of_map_to_list.
Qed.

Lemma metadata_applied : apply_extracted_metadata st.1 (record_values st.2) = Ok V.
Proof.
  assert (forall r, r ∈ record_values st.2 -> exists p, tree_path p /\ r_path r = key p /\ st.2 !! key p = Some r) as Hrec.
  { intros r [k Hk]%record_values_in. destruct (ag_key _ Hst k r Hk) as (p & -> & Hp). exists p.
    by destruct (record_target p r Hp Hk) as (n & _ & [? _] & _). }
  unfold apply_extracted_metadata.
  destruct (settle_all apply_leaf (fun r => r_kind r <> RDirectory) (record_values st.2)) with (t := st.1) as (t1 & -> & [Hb1 _] & Hw1).
  { intros r Hr. destruct (Hrec r Hr) as (p & Hp & Hrp & Hk). exists p. split; [done|]. split; [done|]. intros t Ht. by apply settle_leaf. }
  { intros p. by left. }
  set (dirs := sort_records _). assert (forall r, r ∈ dirs <-> r ∈ record_values st.2 /\ r_kind r = RDirectory) as Hdirs.
  { intros r. unfold dirs. rewrite sort_records_in, !list_elem_of_In, filter_In. by rewrite bool_decide_eq_true. }
  destruct (settle_all apply_directory (fun _ => True) dirs) with (t := t1) as (t2 & -> & [Hb2 Hk2] & Hw2); [|done|].
  { intros r [Hr Hd]%Hdirs. destruct (Hrec r Hr) as (p & Hp & Hrp & Hk). exists p. split; [done|]. split; [done|]. intros t Ht.
    destruct (settle_mode t p r Ht Hp Hk) as (t' & ? & ? & ?); [by rewrite Hd|]. by exists t'. }
  destruct (ag_root _ Hst) as (n & En & Hnk). destruct (ag_node _ Hst _ _ En) as [_ (Hu & Hg & _)].
  assert (V !! [] = Some (mkENode EDir uid gid MODE_755)) as HV.
  { unfold V. rewrite lookup_fmap, lookup_view, En. cbn. unfold settled. cbn. rewrite Hnk, Hu, Hg. unfold owner. by repeat case_match. }
  assert (exists m, t2 !! [] = Some (mkENode EDir uid gid m)) as [m Em].
  { destruct (Hb2 []) as [->| ->]; [|by eexists]. exists (e_mode n). rewrite En. destruct n. cbn in *. by subst. }
  rewrite (chmodded t2 [] (mkENode EDir uid gid m)) by (done || by apply between_alike). f_equal. apply map_eq. intros p.
  destruct (decide (p = [])) as [->|Hp]; [by rewrite lookup_insert_eq|]. rewrite lookup_insert_ne by done.
  destruct (st.1 !! p) as [k|] eqn:Ek.
  - destruct (agree_path _ _ _ Hst Ek) as [|Htp]; [done|]. destruct (view_some st p k Hst Htp Ek) as (r & Hr & [Hf _] & _).
    assert (r ∈ record_values st.2) as Hin by (apply record_values_in; by eexists).
    assert (at_root (r_path r) = p) as Hat by (rewrite Hf; by apply at_root_key).
    destruct (decide (r_kind r = RDirectory)) as [Hd|Hd].
    + rewrite <- Hat. apply Hw2; [by apply Hdirs|done].
    + apply Hk2. rewrite <- Hat. by apply Hw1.
  - destruct (Hb2 p) as [->|]; [|done]. pose proof (target_kind p) as Hk. rewrite Ek in Hk |- *. by destruct (V !! p).
Qed.
End Metadata.

Lemma shows_start : shows ({[ [] := mkENode EDir uid gid mkdir_mode ]}, ∅) {[ [] := mkENode EDir uid gid MODE_755 ]}.
Proof.
  split.
  - constructor; cbn [fst snd].
    + eexists. by rewrite lookup_singleton_eq.
    + intros p n [<- <-]%lookup_singleton_Some. by split.
    + intros p c n [E _]%lookup_singleton_Some. by destruct p.
    + intros p [Hp _]. rewrite lookup_singleton_ne by done. rewrite lookup_empty. constructor.
    + intros k r. by rewrite lookup_empty.
  - apply map_eq. intros p. rewrite lookup_view. cbn [fst snd]. destruct (decide (p = [])) as [->|].
    + by rewrite !lookup_singleton_eq.
    + by rewrite !lookup_singleton_ne.
Qed.
End Overlay.

(** C19. Extraction of an image computes its overlay.  For any layers, openers of
    blobs and readers of archives, and whatever the entries are: the extraction ends,
    and it succeeds with a tree exactly when the fold of the entries over one map
    from paths to nodes succeeds with that tree: replaced paths take what is below
    them along, missing parents are directories of root, whiteouts hide what is
    there, hard links repeat the content, owners and modes are those of the last
    entry of each path.  It fails when the fold does; and it makes a call at a path
    that means another place exactly when the fold comes to a whiteout whose parent
    runs through a link or whose name is a dot or two. *)
Theorem oci_layers_overlay mkdir_mode open_mode uid gid blob tar_entries layers :
  match extracted_tree mkdir_mode open_mode uid gid blob tar_entries layers with
  | Ok (t, _) => overlay uid gid blob tar_entries layers = Ok t
  | Err (Escapes p) => overlay uid gid blob tar_entries layers = Err (Redirected p)
  | Err _ => overlay uid gid blob tar_entries layers = Err Refused
  end.
Proof.
  unfold extracted_tree, extract_oci_image_layers, overlay.
  pose proof (layers_sim mkdir_mode open_mode uid gid blob tar_entries layers (_, _, []) _ (shows_start mkdir_mode uid gid)) as H.
  destruct (try_fold _ _ _) as [[st warnings]|[]], (try_fold (overlay_layer _ _) _ _) as [v|[]]; try done; [|by rewrite H].
  destruct H as [Ha <-]. by rewrite (metadata_applied uid gid st Ha).
Qed.

(** ** Whiteouts that leave the root

    The extraction model marks a call whose path runs through a link, since the tree it
    knows is the extraction root.  Here are the calls of [handle_whiteout] on a whole
    file system, where such a path is resolved. *)
From S2P Require Import Posix.
Local Open Scope prog_scope.

Definition io_failed {A : Type} (what : string) (p : Posix.path) (m : prog (result IoError A)) : prog (result OciExtractError A) :=
  mapping_err (fun e => IoFailed ("failed to " +:+ what +:+ " '" +:+ display_path p +:+ "': " +:+ io_text e)) m.
Definition remove_fs_path_calls (p : Posix.path) : prog (result OciExtractError unit) :=
  let? md := io_failed "inspect path" p (symlink_metadata p) in
  if bool_decide (file_type md = TDir) then io_failed "remove directory" p (remove_dir_all p)
  else io_failed "remove file" p (remove_file p).
Definition whiteout_calls (target_root : Posix.path) (path : bytes) : prog (result OciExtractError bool) :=
  let '(parent, name) := split_parent_name path in
  if bytes_eqb name OPAQUE then
    let dir := target_root ++ at_root parent in
    do entries := read_dir dir in
    match entries with
    | Ok names => try_each (fun name => remove_fs_path_calls (dir ++ [name])) names ?; Ret (Ok true)
    | Err e =>
        if bool_decide (io_kind e = NotFound) then Ret (Ok true)
        else Ret (Err (IoFailed ("failed to read opaque whiteout directory '" +:+ display_path dir +:+ "': " +:+ io_text e)))
    end
  else if starts_with WHITEOUT name then
    let rest := drop (length WHITEOUT) name in
    if bytes_eqb rest [] then Ret (Err (InvalidLayer ("invalid empty whiteout entry " +:+ quoted path)))
    else
      let victim := target_root ++ at_root (join_rel parent rest) in
      do found := symlink_metadata victim in
      match found with
      | Ok _ => remove_fs_path_calls victim ?; Ret (Ok true)
      | Err e =>
          if bool_decide (io_kind e = NotFound) then Ret (Ok true)
          else Ret (Err (IoFailed ("failed to inspect whiteout target '" +:+ display_path victim +:+ "': " +:+ io_text e)))
      end
  else Ret (Ok false).

(** A name in the directory that a path leads to, through whatever links. *)
Lemma resolve_into f b t D m cs : valid_name f -> Posix.get t D = Some (Dir m cs) -> forall rest base,
  resolve b t base rest true = Ok D -> resolve b t base (rest ++ [f]) false = Ok (D ++ [f]).
Proof.
  intros Hf HD. induction b as [|b IHb].
  all: induction rest as [|c rest IH]; intros base; cbn [app].
  1,3: intros [= ->]; rewrite resolve_cons by done; repeat case_match; try done; by rewrite bool_decide_eq_true_2.
  all: cbn [resolve]; destruct (bytes_eqb c [] || bytes_eqb c [46]%Z); [exact (IH base)|];
    destruct (bytes_eqb c [46; 46]%Z); [exact (IH (removelast base))|];
    destruct (Posix.get t (base ++ [c])) as [[mode content|mode children|target mtime]|] eqn:Ec; [|exact (IH (base ++ [c]))| |].
  1,3,4,6: intros H; exfalso; destruct (bool_decide (rest = [])); [|done]; injection H as <-; congruence.
  - by rewrite andb_false_r.
  - rewrite andb_false_r, (bool_decide_eq_false_2 (rest ++ [f] = [])) by (by destruct rest). cbn [andb].
    rewrite app_assoc. apply IHb.
Qed.
Lemma lookup_into f t p D m cs : valid_name f -> lookup_node t p true = Ok (D, Dir m cs) ->
  lookup_node t (p ++ [f]) false = match Posix.get t (D ++ [f]) with Some n => Ok (D ++ [f], n) | None => Err not_found end.
Proof.
  intros Hf. unfold lookup_node, locate. destruct (resolve MAX_LINKS t [] p true) as [q|] eqn:E; [|done].
  destruct (Posix.get t q) as [d|] eqn:Eg; [|done]. intros [= -> ->].
  by rewrite (resolve_into f MAX_LINKS t D m cs Hf Eg _ _ E).
Qed.

Lemma run_bind_calm {A B} (m : prog A) (f : A -> prog B) who w :
  run who [] (bind m f) w = let '(a, w') := run who [] m w in run who [] (f a) w'.
Proof.
  revert w. induction m as [a|o k IH]; intros w; [done|]. cbn [bind run hd tl]. destruct (exec who calm o w) as [r w']. apply IH.
Qed.

(** The removal of what a path leads to. *)
Lemma remove_calls_run who w p q n : q <> [] -> lookup_node (tree w) p false = Ok (q, n) ->
  run who [] (remove_fs_path_calls p) w = (Ok tt, set_tree w (place (tree w) q None)).
Proof.
  intros Hq Hl. unfold remove_fs_path_calls, io_failed, mapping_err, try_bind.
  cbn -[lookup_node]. rewrite Hl. cbn -[lookup_node].
  destruct n; cbn -[lookup_node]; case_bool_decide; try done;
    cbn -[lookup_node]; rewrite Hl; cbn; [done| |done]. by rewrite bool_decide_eq_false_2.
Qed.

(** The path of a whiteout below a name of the root. *)
Definition whiteout_path (c f : bytes) : bytes := c ++ 47%Z :: WHITEOUT ++ f.
Lemma whiteout_valid f : valid_name f -> valid_name (WHITEOUT ++ f).
Proof.
  intros (_ & Hf & _). split_and!; try done. rewrite elem_of_app. intros [H|H]; [|done].
  by apply (bool_decide_unpack (47%Z ∉ WHITEOUT)) in H.
Qed.
Lemma whiteout_key c f : valid_name c -> valid_name f ->
  tree_path [c; WHITEOUT ++ f] /\ whiteout_path c f = key [c; WHITEOUT ++ f].
Proof. intros Hc Hf. split; [|done]. split; [done|]. constructor; [done|]. constructor; [by apply whiteout_valid|constructor]. Qed.
Lemma whiteout_split c f : valid_name c -> valid_name f -> split_parent_name (whiteout_path c f) = (c, WHITEOUT ++ f).
Proof.
  intros Hc Hf. destruct (whiteout_key c f Hc Hf) as [Hp ->]. apply (split_last [c]). by apply tree_slashless.
Qed.
Lemma whiteout_sanitized c f : valid_name c -> valid_name f -> is_utf8 (whiteout_path c f) = true -> 92%Z ∉ c -> 92%Z ∉ f ->
  sanitize_tar_path_bytes (whiteout_path c f) "tar entry path" = Ok (Some (whiteout_path c f)).
Proof.
  intros Hc Hf Hu Hbc Hbf. destruct (whiteout_key c f Hc Hf) as [[_ Hp] Ek]. unfold sanitize_tar_path_bytes. rewrite Hu. cbn [negb].
  assert (map (fun x => if (x =? 92)%Z then 47%Z else x) (whiteout_path c f) = whiteout_path c f) as ->.
  { rewrite <- (map_id (whiteout_path c f)) at 2. apply map_ext_in. intros x Hx%list_elem_of_In.
    destruct (Z.eqb_spec x 92) as [->|]; [|done]. exfalso. revert Hx. unfold whiteout_path.
    rewrite !elem_of_app, elem_of_cons, elem_of_app. intros [?|[?|[H|?]]]; try done.
    by apply (bool_decide_unpack (92%Z ∉ WHITEOUT)) in H. }
  assert (starts_with [47]%Z (whiteout_path c f) = false) as ->.
  { destruct Hc as (Hne & Hns & _). destruct c as [|x c]; [done|]. unfold starts_with, whiteout_path. cbn [strip_prefix app].
    destruct (Z.eqb_spec 47 x) as [<-|]; [exfalso; apply Hns; left|done]. }
  assert (trim_slashes (length (whiteout_path c f)) (whiteout_path c f) = whiteout_path c f) as ->.
  { destruct (length (whiteout_path c f)); [done|]. cbn [trim_slashes]. rewrite bool_decide_eq_false_2; [done|].
    destruct Hf as (Hne & Hns & _). destruct f as [|x f _] using rev_ind; [done|]. unfold whiteout_path.
    rewrite app_assoc, app_comm_cons, app_assoc, last_snoc. intros [= ->]. apply Hns. set_solver. }
  assert (components_of (whiteout_path c f) = [c; WHITEOUT ++ f]) as Ec.
  { rewrite Ek. unfold components_of, key. apply split_on_join; [done|]. eapply Forall_impl; [exact Hp|]. by intros x (_ & ? & _). }
  assert (Hunsafe : forall x, valid_name x -> unsafe_component x = false).
  { intros x (H1 & _ & H2 & H3). unfold unsafe_component, bytes_eqb. by rewrite !bool_decide_eq_false_2. }
  assert (Hempty : forall x, valid_name x -> bytes_eqb x [] = false) by (intros x (H1 & _); by apply bool_decide_eq_false_2).
  assert (Hw := whiteout_valid f Hf). rewrite Ec. cbn zeta. cbn [existsb].
  rewrite (Hunsafe c), (Hunsafe (WHITEOUT ++ f)), (Hempty c), (Hempty (WHITEOUT ++ f)) by done. cbn [orb].
  assert (whiteout_path c f <> [] /\ whiteout_path c f <> lit ".") as [H1 H2].
  { unfold whiteout_path. destruct c as [|x [|y c]]; by split. }
  by rewrite (bool_decide_eq_false_2 _ H1 : bytes_eqb _ [] = false), (bool_decide_eq_false_2 _ H2 : bytes_eqb _ (lit ".") = false).
Qed.

#[local] Instance valid_name_dec name : Decision (valid_name name).
Proof. unfold valid_name. apply _. Defined.

(** C40. A layer can have files outside the extraction root removed.  Let a name of the
    extraction root be a symbolic link, whose target no entry is checked for, and let it
    lead to any directory at all, inside or outside the root.  Then the whiteout of a
    name below it, whose path passes the check of [sanitize_tar_path_bytes] (it has no
    dots and does not start at the root of the file system), succeeds, and removes what
    has that name in that directory, a whole tree if it is a directory; and nothing else. *)
Theorem whiteout_escapes who w target_root c target mtime D m cs f n :
  valid_name c -> valid_name f -> is_utf8 (whiteout_path c f) = true -> 92%Z ∉ c -> 92%Z ∉ f ->
  WHITEOUT ++ f <> OPAQUE ->
  Posix.get (tree w) (target_root ++ [c]) = Some (Lnk target mtime) ->
  lookup_node (tree w) (target_root ++ [c]) true = Ok (D, Dir m cs) -> Posix.get (tree w) (D ++ [f]) = Some n ->
  sanitize_tar_path_bytes (whiteout_path c f) "tar entry path" = Ok (Some (whiteout_path c f)) /\
  let '(r, w') := run who [] (whiteout_calls target_root (whiteout_path c f)) w in
  r = Ok true /\ Posix.get (tree w') (D ++ [f]) = None /\
  forall q, apart (D ++ [f]) q -> Posix.get (tree w') q = Posix.get (tree w) q.
Proof.
  intros Hc Hf Hu Hbc Hbf Hopq Hlnk HD Hn. split; [by apply whiteout_sanitized|].
  unfold whiteout_calls. rewrite whiteout_split by done.
  rewrite (bool_decide_eq_false_2 _ Hopq : bytes_eqb (WHITEOUT ++ f) OPAQUE = false).
  unfold starts_with. rewrite strip_prefix_app. change (drop (length WHITEOUT) (WHITEOUT ++ f)) with f.
  rewrite (bool_decide_eq_false_2 _ (proj1 Hf) : bytes_eqb f [] = false).
  assert (Hv : target_root ++ at_root (join_rel c f) = (target_root ++ [c]) ++ [f]).
  { rewrite <- app_assoc. f_equal. change (join_rel c f) with (join_rel (key [c]) f).
    rewrite (join_rel_key [c] f) by (constructor; [done|by constructor]). apply at_root_key. split; [done|].
    constructor; [done|]. by constructor. }
  rewrite Hv. set (victim := (target_root ++ [c]) ++ [f]).
  assert (Hl : lookup_node (tree w) victim false = Ok (D ++ [f], n)) by (unfold victim; by rewrite (lookup_into f _ _ D m cs Hf HD), Hn).
  assert (Hne : D ++ [f] <> []) by (by destruct D).
  assert (HDd : Posix.get (tree w) D = Some (Dir m cs)).
  { revert HD. unfold lookup_node. destruct (locate _ _ true) as [q|]; [|done]. cbn. destruct (Posix.get _ q) eqn:Eq; [|done]. by intros [= -> ->]. }
  assert (Hrun : run who [] (remove_fs_path_calls victim ?; Ret (Ok true)) w = (Ok true, set_tree w (place (tree w) (D ++ [f]) None))).
  { unfold try_bind. rewrite run_bind_calm. by rewrite (remove_calls_run who w victim _ n Hne Hl). }
  cbn -[lookup_node remove_fs_path_calls try_bind]. rewrite Hl. cbn -[lookup_node remove_fs_path_calls try_bind].
  rewrite Hrun. split; [done|]. cbn. split; [by eapply get_place_at|]. intros q Hq. by apply get_place_apart.
Qed.

(** The link [a] of an extraction root leads to [/x], outside of it. *)
Definition escaping : World :=
  mkWorld (Dir 0x1ed [(lit "root", Dir 0x1ed [(lit "a", Lnk (lit "/x") 0)]);
                      (lit "x", Dir 0x1ed [(lit "f", Reg 0x1a4 [1]%Z); (lit "g", Reg 0x1a4 [2]%Z)])]) ∅ ∅.

Lemma whiteout_escapes_witness :
  let '(r, w') := run (mkActor 0 0) [] (whiteout_calls [lit "root"] (lit "a/.wh.f")) escaping in
  r = Ok true /\ Posix.get (tree w') [lit "x"; lit "f"] = None /\
  forall q, apart [lit "x"; lit "f"] q -> Posix.get (tree w') q = Posix.get (tree escaping) q.
Proof.
  refine (proj2 (whiteout_escapes (mkActor 0 0) escaping [lit "root"] (lit "a") (lit "/x") 0%Z [lit "x"] 0x1ed%Z
    [(lit "f", Reg 0x1a4%Z [1]%Z); (lit "g", Reg 0x1a4%Z [2]%Z)] (lit "f") (Reg 0x1a4%Z [1]%Z) _ _ _ _ _ _ _ _ _)).
  - apply (bool_decide_unpack _). vm_compute. exact I.
  - apply (bool_decide_unpack _). vm_compute. exact I.
  - vm_compute. reflexivity.
  - apply (bool_decide_unpack _). vm_compute. exact I.
  - apply (bool_decide_unpack _). vm_compute. exact I.
  - discriminate.
  - vm_compute. reflexivity.
  - vm_compute. reflexivity.
  - vm_compute. reflexivity.
Defined.
