(* ===== verification/HostBundle.v ===== *)
(** * The declaration of a host bundle

    [bobr-builder/src/host_bundle.rs], up to the file system: the build-time
    declaration of a bundle and [lower_runtime_config], which turns it into the
    configuration the launcher reads; and what that configuration is ([lowered]). *)

From S2P Require Import Prelude Errors Text Posix Elf BundleConfig BundleLaunch.

Definition PAYLOAD_ROOT : bytes := lit "root".
Definition OVERRIDES_ROOT : bytes := lit "overrides".
Definition WRAPPED_BIN_PATH : bytes := lit "libexec/wrapped-bin".
Definition PATH_VARIABLE : bytes := lit "PATH".

(** ** Declarations *)

Inductive HostBundlePath :=
| PayloadPath (path : bytes)
| OverridesPath (path : bytes).

Inductive HostBundleArgument :=
| DeclaredLiteral (value : bytes)
| DeclaredPath (path : HostBundlePath).

Record HostBundleEnvironmentRule := mkHostBundleEnvironmentRule {
  hr_operation : EnvironmentOperation;
  hr_paths : list HostBundlePath;
  hr_values : list bytes;
  hr_inherit : bool;
  hr_host_default : list bytes;
}.

Record HostBundleToolConfig := mkHostBundleToolConfig {
  ht_path : bytes;
  ht_argv0 : option bytes;
  ht_argument_prefix : list HostBundleArgument;
  ht_environment : gmap bytes HostBundleEnvironmentRule;
}.

Record HostBundleConfig := mkHostBundleConfig {
  hc_arch : PlatformArch;
  hc_policy : HostPolicy;
  hc_min_kernel : bytes;
  hc_library_dirs : list bytes;
  public_tools : gmap bytes HostBundleToolConfig;
  internal_tools : gmap bytes HostBundleToolConfig;
  hc_environment : gmap bytes HostBundleEnvironmentRule;
}.

Inductive HostBundleConfigError :=
| NoPublicTools
| DuplicateTool (tool : bytes)
| PathRuleForbidden (scope : string)
| InvalidPath (source : ToolResolutionError)
| MissingOverridesInput (field : string) (path : bytes)
| InvalidArgv0 (tool : bytes)
| InvalidEnvironmentRule (scope : string) (source : EnvironmentRuleValidationError)
| InvalidRuntimeConfig (e : BundleConfigError).

Definition rule_error_text (e : EnvironmentRuleValidationError) : string :=
  match e with
  | RuleInvalidVariableName name => "invalid environment variable name '" +:+ show name +:+ "'"
  | RuleInvalidRule variable reason => "invalid environment rule for " +:+ show variable +:+ ": " +:+ reason
  end.
Definition host_bundle_error_text (e : HostBundleConfigError) : string :=
  match e with
  | NoPublicTools => "HostBundle must define at least one public tool"
  | DuplicateTool tool => "HostBundle tool '" +:+ show tool +:+ "' is declared as both public and internal"
  | PathRuleForbidden scope => scope +:+ ".PATH is reserved for the mandatory wrapped-bin policy"
  | InvalidPath source => tool_error_text source
  | MissingOverridesInput field path =>
      field +:+ " references overrides path '" +:+ show path +:+ "' but input 'overrides' is absent"
  | InvalidArgv0 tool => "HostBundle tool '" +:+ show tool +:+ "' has an invalid argv0"
  | InvalidEnvironmentRule scope source => "invalid rule in " +:+ scope +:+ ": " +:+ rule_error_text source
  | InvalidRuntimeConfig e => "invalid generated bundle.toml: " +:+ config_error_text e
  end.

(** ** Lowering *)

(** [format!("{root}/{path}")]. *)
Definition below_root (root path : bytes) : bytes := root ++ 47%Z :: path.

(** [iter().enumerate().map(f).collect::<Result<Vec<_>, _>>()]. *)
Fixpoint try_map_indexed {E A B : Type} (f : nat -> A -> result E B) (index : nat) (l : list A) : result E (list B) :=
  match l with
  | [] => Ok []
  | x :: l' => y <- f index x ;; ys <- try_map_indexed f (S index) l' ;; Ok (y :: ys)
  end.

Definition lower_path (field : string) (declaration : HostBundlePath) (has_overrides : bool) : result HostBundleConfigError bytes :=
  let* (root, path) :=
    match declaration with
    | PayloadPath path => Ok (PAYLOAD_ROOT, path)
    | OverridesPath path => if has_overrides then Ok (OVERRIDES_ROOT, path) else Err (MissingOverridesInput field path)
    end in
  map_err InvalidPath (validate_relative_path field path) ;;; Ok (below_root root path).

Definition lower_rule (scope : string) (has_overrides : bool) (entry : bytes * HostBundleEnvironmentRule)
  : result HostBundleConfigError (bytes * EnvironmentRule) :=
  let '(variable, declaration) := entry in
  paths <- try_map_indexed (fun index path => lower_path (scope +:+ "." +:+ show variable +:+ ".paths[" +:+ show_nat index +:+ "]") path has_overrides)
             0 (hr_paths declaration) ;;
  let rule := mkEnvironmentRule (hr_operation declaration) paths (hr_values declaration) (hr_inherit declaration) (hr_host_default declaration) in
  map_err (InvalidEnvironmentRule (scope +:+ "." +:+ show variable)) (rule_validate rule variable) ;;;
  Ok (variable, rule).
Definition lower_environment (scope : string) (declarations : gmap bytes HostBundleEnvironmentRule) (has_overrides : bool)
  : result HostBundleConfigError (gmap bytes EnvironmentRule) :=
  rules <- try_map (lower_rule scope has_overrides) (btree_entries declarations) ;;
  Ok (list_to_map rules).

Definition lower_argument (scope : string) (name : bytes) (has_overrides : bool) (index : nat) (argument : HostBundleArgument)
  : result HostBundleConfigError ToolArgument :=
  match argument with
  | DeclaredLiteral value => Ok (LiteralArgument value)
  | DeclaredPath path =>
      path <- lower_path (scope +:+ "." +:+ show name +:+ ".argument_prefix[" +:+ show_nat index +:+ "]") path has_overrides ;;
      Ok (PathArgument path)
  end.

(** The body of the loop over the declarations. *)
Definition lower_tool (scope : string) (tool_visibility : ToolVisibility) (has_overrides : bool) (output : gmap bytes ToolConfig)
  (entry : bytes * HostBundleToolConfig) : result HostBundleConfigError (gmap bytes ToolConfig) :=
  let '(name, tool) := entry in
  map_err InvalidPath (validate_relative_path (scope +:+ "." +:+ show name +:+ ".path") (ht_path tool)) ;;;
  let argv0 := default name (ht_argv0 tool) in
  if bytes_eqb argv0 [] || bool_decide (0%Z ∈ argv0) then Err (InvalidArgv0 name)
  else
    let environment_scope := scope +:+ "." +:+ show name +:+ ".environment" in
    if bool_decide (is_Some (ht_environment tool !! PATH_VARIABLE)) then Err (PathRuleForbidden environment_scope)
    else
      environment <- lower_environment environment_scope (ht_environment tool) has_overrides ;;
      argument_prefix <- try_map_indexed (lower_argument scope name has_overrides) 0 (ht_argument_prefix tool) ;;
      Ok (<[name := mkToolConfig (below_root PAYLOAD_ROOT (ht_path tool)) argv0 tool_visibility argument_prefix environment]> output).
Definition lower_tools (scope : string) (declarations : gmap bytes HostBundleToolConfig) (tool_visibility : ToolVisibility)
  (has_overrides : bool) (output : gmap bytes ToolConfig) : result HostBundleConfigError (gmap bytes ToolConfig) :=
  try_fold (lower_tool scope tool_visibility has_overrides) output (btree_entries declarations).

Definition lower_library_dir (index : nat) (path : bytes) : result HostBundleConfigError bytes :=
  map_err InvalidPath (validate_relative_path ("library_dirs[" +:+ show_nat index +:+ "]") path) ;;; Ok (below_root PAYLOAD_ROOT path).

Definition wrapped_path_rule : EnvironmentRule := mkEnvironmentRule Prepend [WRAPPED_BIN_PATH] [] true [].

Definition lower_runtime_config (config : HostBundleConfig) (has_overrides : bool) : result HostBundleConfigError BundleConfig :=
  if bool_decide (public_tools config = ∅) then Err NoPublicTools
  else
    match List.find (fun '(name, _) => bool_decide (is_Some (internal_tools config !! name))) (btree_entries (public_tools config)) with
    | Some (name, _) => Err (DuplicateTool name)
    | None =>
        if bool_decide (is_Some (hc_environment config !! PATH_VARIABLE)) then Err (PathRuleForbidden "environment")
        else
          library_dirs <- try_map_indexed lower_library_dir 0 (hc_library_dirs config) ;;
          environment <- lower_environment "environment" (hc_environment config) has_overrides ;;
          tools <- lower_tools "public_tools" (public_tools config) Public has_overrides ∅ ;;
          tools <- lower_tools "internal_tools" (internal_tools config) Internal has_overrides tools ;;
          map_err InvalidRuntimeConfig
            (new_v2 PAYLOAD_ROOT (hc_policy config) (mkPlatformConfig Linux (hc_arch config) (hc_min_kernel config))
               (mkLoaderConfig Glibc library_dirs true) (<[PATH_VARIABLE := wrapped_path_rule]> environment) tools)
    end.

(** [default_policy] and [default_min_kernel]. *)
Definition default_policy : HostPolicy := Strict.
Definition default_min_kernel : bytes := lit "4.19".

(** ** What lowering produces *)

Definition lowered_path (declaration : HostBundlePath) : bytes :=
  match declaration with PayloadPath path => below_root PAYLOAD_ROOT path | OverridesPath path => below_root OVERRIDES_ROOT path end.
Definition path_allowed (has_overrides : bool) (declaration : HostBundlePath) : Prop :=
  match declaration with
  | PayloadPath path => is_safe_relative_path path = true
  | OverridesPath path => has_overrides = true /\ is_safe_relative_path path = true
  end.
Definition lowered_rule (r : HostBundleEnvironmentRule) : EnvironmentRule :=
  mkEnvironmentRule (hr_operation r) (map lowered_path (hr_paths r)) (hr_values r) (hr_inherit r) (hr_host_default r).
Definition lowered_argument (a : HostBundleArgument) : ToolArgument :=
  match a with DeclaredLiteral value => LiteralArgument value | DeclaredPath path => PathArgument (lowered_path path) end.
Definition argument_allowed (has_overrides : bool) (a : HostBundleArgument) : Prop :=
  match a with DeclaredLiteral _ => True | DeclaredPath path => path_allowed has_overrides path end.
Definition lowered_tool (tool_visibility : ToolVisibility) (name : bytes) (t : HostBundleToolConfig) : ToolConfig :=
  mkToolConfig (below_root PAYLOAD_ROOT (ht_path t)) (default name (ht_argv0 t)) tool_visibility
    (map lowered_argument (ht_argument_prefix t)) (lowered_rule <$> ht_environment t).
Definition lowered_config (c : HostBundleConfig) : BundleConfig :=
  mkBundleConfig BUNDLE_FORMAT_V2 PAYLOAD_ROOT (hc_policy c) (mkPlatformConfig Linux (hc_arch c) (hc_min_kernel c))
    (mkLoaderConfig Glibc (map (below_root PAYLOAD_ROOT) (hc_library_dirs c)) true)
    (<[PATH_VARIABLE := wrapped_path_rule]> (lowered_rule <$> hc_environment c))
    (map_imap (fun name t => Some (lowered_tool Internal name t)) (internal_tools c) ∪
     map_imap (fun name t => Some (lowered_tool Public name t)) (public_tools c)).

(** What a declaration must obey. *)
Definition rules_allowed (has_overrides : bool) (rules : gmap bytes HostBundleEnvironmentRule) : Prop :=
  rules !! PATH_VARIABLE = None /\
  map_Forall (fun name r => Forall (path_allowed has_overrides) (hr_paths r) /\ rule_validate (lowered_rule r) name = Ok tt) rules.
Definition tool_allowed (has_overrides : bool) (name : bytes) (t : HostBundleToolConfig) : Prop :=
  is_safe_relative_path (ht_path t) = true /\ default name (ht_argv0 t) <> [] /\ 0%Z ∉ default name (ht_argv0 t) /\
  Forall (argument_allowed has_overrides) (ht_argument_prefix t) /\ rules_allowed has_overrides (ht_environment t).
Record declaration_allowed (has_overrides : bool) (c : HostBundleConfig) : Prop := {
  da_public : public_tools c <> ∅;
  da_apart : public_tools c ##ₘ internal_tools c;
  da_libraries : Forall (fun path => is_safe_relative_path path = true) (hc_library_dirs c);
  da_environment : rules_allowed has_overrides (hc_environment c);
  da_tools : map_Forall (tool_allowed has_overrides) (public_tools c) /\ map_Forall (tool_allowed has_overrides) (internal_tools c);
  da_runtime : validate (lowered_config c) = Ok tt;
}.

Lemma validate_relative_spec field path : validate_relative_path field path = Ok tt <-> is_safe_relative_path path = true.
Proof.
  unfold validate_relative_path, is_safe_relative_path.
  destruct (bytes_eqb path []), (starts_with [47]%Z path), (bool_decide (0%Z ∈ path)), (forallb plain_part (split_on 47 path)); done.
Qed.
Lemma try_map_indexed_spec {E A B} (f : nat -> A -> result E B) (g : A -> B) (P : A -> Prop) l :
  (forall i x y, f i x = Ok y <-> P x /\ y = g x) -> forall i ys, try_map_indexed f i l = Ok ys <-> Forall P l /\ ys = map g l.
Proof.
  intros Hf. induction l as [|x l IH]; intros i ys; cbn [try_map_indexed map].
  - split; [intros [= <-]; by split|by intros [_ ->]].
  - rewrite Forall_cons. split.
    + destruct (f i x) as [y|] eqn:E1; [|done]. destruct (try_map_indexed f (S i) l) as [zs|] eqn:E2; [|done]. intros [= <-].
      apply Hf in E1 as [? ->]. by apply IH in E2 as [? ->].
    + intros [[Hx Hl] ->]. rewrite (proj2 (Hf i x (g x)) (conj Hx eq_refl)). by rewrite (proj2 (IH (S i) (map g l)) (conj Hl eq_refl)).
Qed.
Lemma lower_path_spec field p has_overrides b : lower_path field p has_overrides = Ok b <-> path_allowed has_overrides p /\ b = lowered_path p.
Proof.
  assert (forall root path, (map_err InvalidPath (validate_relative_path field path) ;;; Ok (below_root root path)) = Ok b <->
    is_safe_relative_path path = true /\ b = below_root root path) as H.
  { intros root path. rewrite <- (validate_relative_spec field path). destruct (validate_relative_path field path) as [[]|e]; cbn [map_err].
    - split; [by intros [= <-]|by intros [_ ->]].
    - split; [done|by intros [? _]]. }
  unfold lower_path, path_allowed. destruct p as [path|path]; [apply H|]. destruct has_overrides.
  - rewrite H. cbn [lowered_path]. naive_solver.
  - split; [done|by intros [[? _] _]].
Qed.
Lemma lower_rule_spec scope has_overrides variable r v rule :
  lower_rule scope has_overrides (variable, r) = Ok (v, rule) <->
  (Forall (path_allowed has_overrides) (hr_paths r) /\ rule_validate (lowered_rule r) variable = Ok tt) /\ v = variable /\ rule = lowered_rule r.
Proof.
  unfold lower_rule. set (f := fun index path => lower_path _ path has_overrides).
  assert (forall i ys, try_map_indexed f i (hr_paths r) = Ok ys <-> Forall (path_allowed has_overrides) (hr_paths r) /\ ys = map lowered_path (hr_paths r)) as Hp
    by (apply try_map_indexed_spec; intros; apply lower_path_spec).
  split.
  - destruct (try_map_indexed f 0 _) as [ys|] eqn:E; [|done]. apply Hp in E as [Hall ->]. fold (lowered_rule r).
    destruct (rule_validate _ _) as [[]|] eqn:Ev; [|done]. by intros [= <- <-].
  - intros [[Hall Hv] [-> ->]]. rewrite (proj2 (Hp _ _) (conj Hall eq_refl)). fold (lowered_rule r). by rewrite Hv.
Qed.
Lemma btree_entries_elem {A} (m : gmap bytes A) name a : (name, a) ∈ btree_entries m <-> m !! name = Some a.
Proof. unfold btree_entries. rewrite sort_by_perm. apply elem_of_map_to_list. Qed.
Lemma btree_entries_NoDup {A} (m : gmap bytes A) : NoDup (map fst (btree_entries m)).
Proof. unfold btree_entries. change (map fst) with (fmap (M := list) (@fst bytes A)). rewrite sort_by_perm. apply NoDup_fst_map_to_list. Qed.
Lemma list_to_map_entries {A B} (g : bytes -> A -> B) (m : gmap bytes A) :
  list_to_map (map (fun '(name, a) => (name, g name a)) (btree_entries m)) = map_imap (fun name a => Some (g name a)) m.
Proof.
  apply map_eq. intros name. rewrite map_lookup_imap. destruct (m !! name) as [a|] eqn:E; cbn.
  - apply elem_of_list_to_map_1.
    + rewrite <- list_fmap_compose. erewrite list_fmap_ext; [apply btree_entries_NoDup|]. by intros _ [? ?] _.
    + apply list_elem_of_fmap. exists (name, a). split; [done|]. by apply btree_entries_elem.
  - apply not_elem_of_list_to_map_1. rewrite <- list_fmap_compose. intros ([n a] & -> & Hin)%list_elem_of_fmap. cbn in E.
    apply btree_entries_elem in Hin. congruence.
Qed.
Lemma imap_fmap {A B} (g : A -> B) (m : gmap bytes A) : map_imap (fun _ a => Some (g a)) m = g <$> m.
Proof. apply map_eq. intros name. rewrite map_lookup_imap, lookup_fmap. by destruct (m !! name). Qed.
Lemma entries_Forall {A} (P : bytes -> A -> Prop) (m : gmap bytes A) :
  Forall (fun '(name, a) => P name a) (btree_entries m) <-> map_Forall P m.
Proof.
  rewrite Forall_forall. split.
  - intros H name a E. apply btree_entries_elem in E. exact (H _ E).
  - intros H [name a] E. apply btree_entries_elem in E. by apply H.
Qed.
Lemma try_map_spec {E A B} (f : A -> result E B) (g : A -> B) (P : A -> Prop) l :
  (forall x y, f x = Ok y <-> P x /\ y = g x) -> forall ys, try_map f l = Ok ys <-> Forall P l /\ ys = map g l.
Proof.
  intros Hf. induction l as [|x l IH]; intros ys; cbn [try_map map].
  - split; [intros [= <-]; by split|by intros [_ ->]].
  - rewrite Forall_cons. split.
    + destruct (f x) as [y|] eqn:E1; [|done]. destruct (try_map f l) as [zs|]; [|done]. intros [= <-].
      apply Hf in E1 as [? ->]. by destruct (proj1 (IH zs) eq_refl) as [? ->].
    + intros [[Hx Hl] ->]. rewrite (proj2 (Hf x (g x)) (conj Hx eq_refl)). by rewrite (proj2 (IH (map g l)) (conj Hl eq_refl)).
Qed.

Lemma lower_environment_spec scope has_overrides rules m : lower_environment scope rules has_overrides = Ok m <->
  map_Forall (fun name r => Forall (path_allowed has_overrides) (hr_paths r) /\ rule_validate (lowered_rule r) name = Ok tt) rules /\
  m = lowered_rule <$> rules.
Proof.
  unfold lower_environment. rewrite <- entries_Forall, <- imap_fmap, <- list_to_map_entries.
  pose proof (try_map_spec (lower_rule scope has_overrides) (fun '(name, r) => (name, lowered_rule r))
    (fun '(name, r) => Forall (path_allowed has_overrides) (hr_paths r) /\ rule_validate (lowered_rule r) name = Ok tt) (btree_entries rules)) as H.
  assert (forall ys, try_map (lower_rule scope has_overrides) (btree_entries rules) = Ok ys <->
    Forall (fun '(name, r) => Forall (path_allowed has_overrides) (hr_paths r) /\ rule_validate (lowered_rule r) name = Ok tt) (btree_entries rules) /\
    ys = map (fun '(name, r) => (name, lowered_rule r)) (btree_entries rules)) as H'.
  { apply H. intros [name r] [v rule]. rewrite lower_rule_spec. naive_solver. }
  split.
  - destruct (try_map _ _) as [ys|]; [|done]. destruct (proj1 (H' ys) eq_refl) as [Hall ->]. by intros [= <-].
  - intros [Hall ->]. by rewrite (proj2 (H' _) (conj Hall eq_refl)).
Qed.

Lemma lower_argument_spec scope name has_overrides i a x :
  lower_argument scope name has_overrides i a = Ok x <-> argument_allowed has_overrides a /\ x = lowered_argument a.
Proof.
  destruct a as [value|p]; cbn [lower_argument argument_allowed lowered_argument]; [split; [intros [= <-]; by split|by intros [_ ->]]|].
  set (field := _ +:+ _). pose proof (lower_path_spec field p has_overrides) as H. split.
  - destruct (lower_path field p has_overrides) as [b|]; [|done]. destruct (proj1 (H b) eq_refl) as [? ->]. by intros [= <-].
  - intros [Hp ->]. by rewrite (proj2 (H _) (conj Hp eq_refl)).
Qed.
Lemma lower_tool_spec scope vis has_overrides output name t m : lower_tool scope vis has_overrides output (name, t) = Ok m <->
  tool_allowed has_overrides name t /\ m = <[name := lowered_tool vis name t]> output.
Proof.
  unfold lower_tool, tool_allowed, rules_allowed. set (field := scope +:+ "." +:+ show name +:+ ".path").
  rewrite <- (validate_relative_spec field). destruct (validate_relative_path field (ht_path t)) as [[]|]; cbn [map_err];
    [|split; [done|by intros [(? & _) _]]].
  destruct (bytes_eqb _ []) eqn:E1; cbn [orb]; [bools; split; [done|by intros [(_ & ? & _) _]]|].
  case_bool_decide as E2; [split; [done|by intros [(_ & _ & ? & _) _]]|].
  case_bool_decide as E3; [split; [done|intros [(_ & _ & _ & _ & H & _) _]; rewrite H in E3; by destruct E3]|].
  set (escope := scope +:+ "." +:+ show name +:+ ".environment"). pose proof (lower_environment_spec escope has_overrides (ht_environment t)) as He.
  assert (forall i ys, try_map_indexed (lower_argument scope name has_overrides) i (ht_argument_prefix t) = Ok ys <->
    Forall (argument_allowed has_overrides) (ht_argument_prefix t) /\ ys = map lowered_argument (ht_argument_prefix t)) as Ha
    by (apply try_map_indexed_spec; intros; apply lower_argument_spec).
  apply eq_None_not_Some in E3. bools. split.
  - destruct (lower_environment _ _ _) as [env|]; [|done]. destruct (proj1 (He env) eq_refl) as [Henv ->].
    destruct (try_map_indexed _ _ _) as [args|] eqn:E; [|done]. apply Ha in E as [Hargs ->]. intros [= <-]. by split_and!.
  - intros [(_ & _ & _ & Hargs & _ & Henv) ->]. rewrite (proj2 (He _) (conj Henv eq_refl)).
    by rewrite (proj2 (Ha 0%nat _) (conj Hargs eq_refl)).
Qed.

Lemma lower_tools_spec scope vis has_overrides declarations output m :
  lower_tools scope declarations vis has_overrides output = Ok m <->
  map_Forall (tool_allowed has_overrides) declarations /\
  m = map_imap (fun name t => Some (lowered_tool vis name t)) declarations ∪ output.
Proof.
  unfold lower_tools. rewrite <- entries_Forall, <- list_to_map_entries. pose proof (btree_entries_NoDup declarations) as Hnd. revert output m.
  induction (btree_entries declarations) as [|[name t] l IH]; intros output m; cbn [try_fold map list_to_map].
  { replace (list_to_map [] ∪ output) with output by (symmetry; apply map_empty_union). split; [intros [= <-]; by split|by intros [_ ->]]. }
  apply NoDup_cons in Hnd as [Hn Hnd]. rewrite Forall_cons. cbn [list_to_map foldr uncurry fst snd].
  assert ((list_to_map (map (fun '(n, a) => (n, lowered_tool vis n a)) l) : gmap bytes ToolConfig) !! name = None) as Hnone.
  { apply not_elem_of_list_to_map_1. rewrite <- list_fmap_compose. intros ([n a] & -> & Hin)%list_elem_of_fmap. apply Hn.
    apply list_elem_of_fmap. by exists (n, a). }
  pose proof (lower_tool_spec scope vis has_overrides output name t) as H. split.
  - destruct (lower_tool _ _ _ _ _) as [out|]; [|done]. destruct (proj1 (H out) eq_refl) as [Ht ->].
    intros [Hl ->]%IH; [|done]. split; [done|]. rewrite <- insert_union_l, insert_union_r by done. done.
  - intros [[Ht Hl] ->]. rewrite (proj2 (H _) (conj Ht eq_refl)). apply IH; [done|]. split; [done|].
    rewrite <- insert_union_l, insert_union_r by done. done.
Qed.

Lemma lower_library_dirs_spec dirs i ys : try_map_indexed lower_library_dir i dirs = Ok ys <->
  Forall (fun path => is_safe_relative_path path = true) dirs /\ ys = map (below_root PAYLOAD_ROOT) dirs.
Proof.
  apply try_map_indexed_spec. intros j x y. unfold lower_library_dir. set (field := "library_dirs[" +:+ _).
  rewrite <- (validate_relative_spec field). destruct (validate_relative_path field x) as [[]|]; cbn [map_err].
  - split; [by intros [= <-]|by intros [_ ->]].
  - split; [done|by intros [? _]].
Qed.
Lemma lowered_runtime_spec c out :
  map_err InvalidRuntimeConfig (new_v2 PAYLOAD_ROOT (hc_policy c) (mkPlatformConfig Linux (hc_arch c) (hc_min_kernel c))
    (mkLoaderConfig Glibc (map (below_root PAYLOAD_ROOT) (hc_library_dirs c)) true)
    (<[PATH_VARIABLE := wrapped_path_rule]> (lowered_rule <$> hc_environment c))
    (map_imap (fun name t => Some (lowered_tool Internal name t)) (internal_tools c) ∪
     map_imap (fun name t => Some (lowered_tool Public name t)) (public_tools c))) = Ok out <->
  validate (lowered_config c) = Ok tt /\ out = lowered_config c.
Proof.
  unfold new_v2. fold (lowered_config c). destruct (validate (lowered_config c)) as [[]|]; cbn [map_err].
  - split; [by intros [= <-]|by intros [_ ->]].
  - split; [done|by intros [? _]].
Qed.

(** ** The type of a runtime configuration *)

(** What the launcher relies on: paths are safe and relative, rules are valid,
    process names can be passed on. *)
Definition rule_typed (name : bytes) (r : EnvironmentRule) : Prop :=
  rule_validate r name = Ok tt /\ Forall (fun path => is_safe_relative_path path = true) (er_paths r).
Definition argument_typed (a : ToolArgument) : Prop :=
  match a with LiteralArgument value => 0%Z ∉ value | PathArgument path => is_safe_relative_path path = true end.
Definition tool_typed (root name : bytes) (t : ToolConfig) : Prop :=
  validate_tool_name name = Ok tt /\ (exists path, tc_path t = below_root root path) /\ is_safe_relative_path (tc_path t) = true /\
  tc_argv0 t <> [] /\ 0%Z ∉ tc_argv0 t /\ Forall argument_typed (tc_argument_prefix t) /\ map_Forall rule_typed (tc_environment t).
Record runtime_typed (config : BundleConfig) : Prop := {
  ty_valid : validate config = Ok tt;
  ty_payload : is_safe_relative_path (bc_payload_root config) = true;
  ty_libraries : Forall (fun path => is_safe_relative_path path = true /\ exists rest, path = below_root (bc_payload_root config) rest)
    (library_dirs (loader config));
  ty_environment : map_Forall rule_typed (bc_environment config);
  ty_tools : map_Forall (tool_typed (bc_payload_root config)) (tools config);
}.

Lemma safe_below root path : plain_part root = true -> 47%Z ∉ root -> 0%Z ∉ root -> is_safe_relative_path path = true ->
  is_safe_relative_path (below_root root path) = true.
Proof.
  intros Hr Hs H0 H. unfold is_safe_relative_path in *. apply andb_prop in H as [H H4]. apply andb_prop in H as [_ H3].
  unfold below_root. rewrite split_on_app by done. cbn [forallb]. rewrite Hr, H4.
  destruct root as [|b root]; [done|]. apply not_elem_of_cons in Hs as [Hb _]. cbn [app].
  unfold starts_with. cbn [strip_prefix]. rewrite (proj2 (Z.eqb_neq 47 b)) by done.
  assert (bytes_eqb (b :: root ++ 47%Z :: path) [] = false) as -> by (by apply bool_decide_eq_false_2).
  apply negb_true_iff, bool_decide_eq_false_1 in H3. rewrite bool_decide_eq_false_2; [done|].
  rewrite app_comm_cons, elem_of_app. by intros [?|[?|?]%elem_of_cons].
Qed.
Lemma safe_lowered has_overrides p : path_allowed has_overrides p -> is_safe_relative_path (lowered_path p) = true.
Proof.
  assert (forall root, root = PAYLOAD_ROOT \/ root = OVERRIDES_ROOT -> plain_part root = true /\ 47%Z ∉ root /\ 0%Z ∉ root) as Hr.
  { intros root [->| ->]; split_and!; try done; by apply (bool_decide_eq_true_1 _). }
  destruct p as [path|path]; unfold path_allowed, lowered_path; [intros H|intros [_ H]]; apply safe_below; try apply Hr; auto.
Qed.
Lemma rules_typed has_overrides rules : rules_allowed has_overrides rules -> map_Forall rule_typed (lowered_rule <$> rules).
Proof.
  intros [_ H] name r. rewrite lookup_fmap. intros (d & Hd & ->)%fmap_Some. destruct (H _ _ Hd) as [Hp Hv]. split; [done|].
  cbn. apply Forall_map. eapply Forall_impl; [exact Hp|]. intros p. apply safe_lowered.
Qed.
(** Lowering accepts the allowed declarations and produces [lowered_config]. *)
Lemma lowering_iff c has_overrides config :
  lower_runtime_config c has_overrides = Ok config <-> declaration_allowed has_overrides c /\ config = lowered_config c.
Proof.
  unfold lower_runtime_config. case_bool_decide as E1; [split; [done|by intros [[] _]]|].
  destruct (List.find _ _) as [[name t]|] eqn:E2.
  { split; [done|]. intros [[_ Hd _ _ _ _] _]. apply find_some in E2 as [Hin Hs]. bools. destruct Hs as [u Hu].
    apply list_elem_of_In, btree_entries_elem in Hin. exfalso.
    by eapply (proj1 (map_disjoint_spec _ _) Hd). }
  case_bool_decide as E3; [split; [done|intros [[_ _ _ [H _] _ _] _]; rewrite H in E3; by destruct E3]|].
  apply eq_None_not_Some in E3.
  assert (public_tools c ##ₘ internal_tools c) as Hd.
  { apply map_disjoint_spec. intros name x y Hx Hy. apply btree_entries_elem, list_elem_of_In in Hx.
    apply (find_none _ _ E2) in Hx. bools. apply Hx. by exists y. }
  pose proof (lower_library_dirs_spec (hc_library_dirs c)) as Hl.
  pose proof (lower_environment_spec "environment" has_overrides (hc_environment c)) as He.
  pose proof (lower_tools_spec "public_tools" Public has_overrides (public_tools c) ∅) as Hp.
  pose proof (fun out => lower_tools_spec "internal_tools" Internal has_overrides (internal_tools c) out) as Hi.
  assert (map_imap (fun name t => Some (lowered_tool Public name t)) (public_tools c) ∪ ∅ =
    map_imap (fun name t => Some (lowered_tool Public name t)) (public_tools c)) as Hu by (apply map_union_empty). rewrite Hu in Hp.
  pose proof (lowered_runtime_spec c) as Hv.
  split.
  - destruct (try_map_indexed _ _ _) as [dirs|] eqn:Edirs; [|done]. apply Hl in Edirs as [Hdirs ->].
    destruct (lower_environment _ _ _) as [env|]; [|done]. destruct (proj1 (He env) eq_refl) as [Henv ->].
    destruct (lower_tools "public_tools" _ _ _ _) as [out|]; [|done]. destruct (proj1 (Hp out) eq_refl) as [Hpub ->].
    destruct (lower_tools "internal_tools" _ _ _ _) as [out|] eqn:Eint; [|done]. apply Hi in Eint as [Hint ->].
    intros [Hval ->]%Hv. split; [|done]. by constructor.
  - intros [[_ _ Hdirs [_ Henv] [Hpub Hint] Hval] ->]. rewrite (proj2 (Hl 0%nat _) (conj Hdirs eq_refl)), (proj2 (He _) (conj Henv eq_refl)),
      (proj2 (Hp _) (conj Hpub eq_refl)), (proj2 (Hi _ _) (conj Hint eq_refl)). by apply Hv.
Qed.

Lemma validate_parts config : validate config = Ok tt ->
  map_Forall (fun name t => validate_tool_name name = Ok tt /\ Forall argument_typed (tc_argument_prefix t)) (tools config).
Proof.
  unfold validate. destruct (negb _); [done|]. case_bool_decide; [done|]. destruct (map_err _ _) as [version|]; [|done].
  pose proof (try_fold_unit (fun '(name, _) => validate_tool_name name) (btree_entries (tools config))) as H1.
  pose proof (try_fold_unit (fun '(name, tool) => try_enumerate (validate_argument name) 0 (tc_argument_prefix tool)) (btree_entries (tools config))) as H2.
  destruct (try_fold (fun _ '(name, _) => validate_tool_name name) tt _) as [[]|] eqn:E1; [|done]. intros E2.
  assert (map_Forall (fun name _ => validate_tool_name name = Ok tt) (tools config)) as Hn.
  { apply entries_Forall. eapply Forall_impl; [by apply H1|]. by intros [name t]. }
  assert (map_Forall (fun name t => try_enumerate (validate_argument name) 0 (tc_argument_prefix t) = Ok tt) (tools config)) as Ha.
  { apply entries_Forall. eapply Forall_impl; [by apply H2|]. by intros [name t]. }
  intros name t Ht. split; [by eapply Hn|]. specialize (Ha name t Ht). revert Ha. generalize 0%nat. cbv beta.
  induction (tc_argument_prefix t) as [|a l IH]; intros i; cbn [try_enumerate]; [constructor|].
  destruct (validate_argument name i a) as [[]|] eqn:E; [|done]. intros H3. constructor; [|by eapply IH].
  destruct a as [value|path]; cbn in *; [case_bool_decide; done|]. by destruct (is_safe_relative_path path).
Qed.

Lemma lowered_typed has_overrides c : declaration_allowed has_overrides c -> runtime_typed (lowered_config c).
Proof.
  intros [_ _ Hd He [Hp Hi] Hv].
  assert (forall path, is_safe_relative_path path = true -> is_safe_relative_path (below_root PAYLOAD_ROOT path) = true) as Hb.
  { intros path. apply (safe_lowered has_overrides (PayloadPath path)). }
  assert (forall vis m, map_Forall (tool_allowed has_overrides) m -> forall name t, map_imap (fun n x => Some (lowered_tool vis n x)) m !! name = Some t ->
    validate_tool_name name = Ok tt /\ Forall argument_typed (tc_argument_prefix t) -> tool_typed PAYLOAD_ROOT name t) as Ht.
  { intros vis m Hm name t. rewrite map_lookup_imap. destruct (m !! name) as [d|] eqn:E; [|done]. intros [= <-] [Hn Ha].
    destruct (Hm _ _ E) as (Hpath & H1 & H2 & _ & Hr). unfold tool_typed. cbn. split_and!; try done; [by eexists|by apply Hb|by eapply rules_typed]. }
  constructor; [done| | | |].
  - by vm_compute.
  - cbn. apply Forall_map. eapply Forall_impl; [exact Hd|]. intros path Hs. split; [by apply Hb|]. by eexists.
  - cbn. intros name r. destruct (decide (name = PATH_VARIABLE)) as [->|Hne].
    + rewrite lookup_insert_eq. intros [= <-]. split; [by vm_compute|]. by repeat constructor.
    + rewrite lookup_insert_ne by done. by apply (rules_typed has_overrides).
  - intros name t Hl. pose proof (validate_parts _ Hv name t Hl) as Hn. unfold lowered_config in Hl. cbn [tools] in Hl.
    apply lookup_union_Some_raw in Hl as [Hl|[_ Hl]]; [exact (Ht Internal _ Hi name t Hl Hn)|exact (Ht Public _ Hp name t Hl Hn)].
Qed.

(** C26. What lowering produces is well-typed for the launcher, and exactly what was
    declared: [lower_runtime_config] succeeds if and only if the declaration is allowed
    (a public tool, no tool both public and internal, nobody sets [PATH], safe relative
    paths, overrides only with the input, valid rules and process names, and the
    launcher's own validation); the result is [lowered_config], in which every library
    directory and tool path lies below the payload root, every path is safe, every rule
    passes the launcher's validation, fixed arguments have no NUL and process and tool
    names can be used as such. *)
Theorem lowered_config_typed c has_overrides :
  match lower_runtime_config c has_overrides with
  | Ok config => declaration_allowed has_overrides c /\ config = lowered_config c /\ runtime_typed config
  | Err _ => ~ declaration_allowed has_overrides c
  end.
Proof.
  pose proof (lowering_iff c has_overrides) as H. destruct (lower_runtime_config c has_overrides) as [config|e].
  - destruct (proj1 (H config) eq_refl) as [Ha ->]. split; [done|]. split; [done|]. by eapply lowered_typed.
  - intros Ha. by pose proof (proj2 (H _) (conj Ha eq_refl)).
Qed.
