(* ===== verification/BundleVerify.v ===== *)
(** * Verification of a staged bundle

    [bobr-builder/src/host_bundle_verify.rs]: before a bundle becomes an object, the
    builder checks its generated layout ([verify_structure]) and audits what starting
    a configured tool needs ([verify_startup_closure]): scripts and interpreters, the
    loader, and the libraries in the order in which the loader would search them.

    The program is one over the calls of [Posix], and calls the launcher's own
    resolution and inspection.  The [goblin] parser is an argument.  The audit
    recurses on the bundle's files; its fuel is one more than the number of states
    the code allows. *)

From S2P Require Import Prelude Errors Text Posix Elf BundleConfig BundleLaunch.

Local Open Scope prog_scope.

#[export] Instance PlatformArch_eq_dec : EqDecision PlatformArch.
Proof. solve_decision. Defined.
#[export] Instance ToolVisibility_eq_dec : EqDecision ToolVisibility.
Proof. solve_decision. Defined.
#[export] Instance EnvironmentRule_eq_dec : EqDecision EnvironmentRule.
Proof. solve_decision. Defined.
#[export] Instance ToolArgument_eq_dec : EqDecision ToolArgument.
Proof. solve_decision. Defined.
#[export] Instance ToolConfig_eq_dec : EqDecision ToolConfig.
Proof. solve_decision. Defined.
#[export] Instance PlatformOs_eq_dec : EqDecision PlatformOs.
Proof. solve_decision. Defined.
#[export] Instance LoaderKind_eq_dec : EqDecision LoaderKind.
Proof. solve_decision. Defined.
#[export] Instance PlatformConfig_eq_dec : EqDecision PlatformConfig.
Proof. solve_decision. Defined.
#[export] Instance LoaderConfig_eq_dec : EqDecision LoaderConfig.
Proof. solve_decision. Defined.
#[export] Instance HostPolicy_eq_dec : EqDecision HostPolicy.
Proof. solve_decision. Defined.
#[export] Instance BundleConfig_eq_dec : EqDecision BundleConfig.
Proof. solve_decision. Defined.

(** ** ELF files as [goblin] reads them *)

(** A name that is [None] is one the string table does not have. *)
Record GoblinElf := mkGoblinElf {
  ge_is_64 : bool;
  ge_little_endian : bool;
  ge_machine : Z;
  ge_verneed : option (list (option bytes * list (option bytes)));
  ge_verdef : option (list (list (option bytes)));
  ge_interpreter : option bytes;
  ge_libraries : list bytes;
  ge_rpaths : list bytes;
  ge_runpaths : list bytes;
  ge_soname : option bytes;
}.

Record ElfInfo := mkElfInfo {
  ei_interpreter : option bytes;
  ei_needed : list bytes;
  ei_rpaths : list bytes;
  ei_runpaths : list bytes;
  ei_soname : option bytes;
  ei_required_versions : gmap bytes (gset bytes);
  ei_provided_versions : gset bytes;
}.

Definition add_version (message : string) (versions : gset bytes) (name : option bytes) : result string (gset bytes) :=
  version <- ok_or name message ;; Ok ({[version]} ∪ versions).
Definition add_need (p : path) (required : gmap bytes (gset bytes)) (need : option bytes * list (option bytes))
  : result string (gmap bytes (gset bytes)) :=
  library <- ok_or need.1 ("ELF '" +:+ display_path p +:+ "' has an invalid GNU version-needed library name") ;;
  versions <- try_fold (add_version ("ELF '" +:+ display_path p +:+ "' has an invalid GNU version-needed name"))
                (default ∅ (required !! library)) need.2 ;;
  Ok (<[library := versions]> required).

(** [parse_elf], once the file has been read and parsed. *)
Definition elf_info (p : path) (expected_arch : PlatformArch) (elf : GoblinElf) : result string ElfInfo :=
  if negb (ge_is_64 elf) || negb (ge_little_endian elf) || negb (ge_machine elf =? elf_machine expected_arch)%Z then
    Err ("ELF '" +:+ display_path p +:+ "' does not match HostBundle architecture " +:+ arch_as_str expected_arch)
  else
    required <- try_fold (add_need p) ∅ (default [] (ge_verneed elf)) ;;
    provided <- try_fold (try_fold (add_version ("ELF '" +:+ display_path p +:+ "' has an invalid GNU version-definition name")))
                  ∅ (default [] (ge_verdef elf)) ;;
    Ok (mkElfInfo (ge_interpreter elf) (ge_libraries elf) (ge_rpaths elf) (ge_runpaths elf) (ge_soname elf) required provided).

Definition verify_symbol_versions (object : path) (needed : bytes) (dependency : path) (required : option (gset bytes))
  (provided : gset bytes) : result string unit :=
  match required with
  | None => Ok tt
  | Some required =>
      let missing := sort_by id (elements (required ∖ provided)) in
      if bool_decide (missing = []) then Ok tt
      else Err ("DT_NEEDED '" +:+ show needed +:+ "' from '" +:+ display_path object +:+ "' resolves to '" +:+ display_path dependency
                +:+ "' without required symbol version(s): " +:+ show (join_with (lit ", ") missing))
  end.

(** ** The layout *)

Definition LAUNCHER_RELATIVE_PATH : path := [lit "libexec"; lit "bobr-bundle-launcher"].
Definition WRAPPED_BIN : path := [lit "libexec"; lit "wrapped-bin"].
Definition ENV_INTERPRETER : bytes := lit "/usr/bin/env".
Definition MAX_STARTUP_NODES : nat := 4096.

(** [map_err] with a text. *)
Definition reporting {A : Type} (text : IoError -> string) (m : prog (result IoError A)) : prog (result string A) := mapping_err text m.

Definition verify_wrapper (p : path) (expected_target : bytes) (kind : string) (tool : bytes) : prog (result string unit) :=
  let? md := reporting (fun e => "missing " +:+ kind +:+ " wrapper for HostBundle tool '" +:+ show tool +:+ "' at '"
                                 +:+ display_path p +:+ "': " +:+ io_text e) (symlink_metadata p) in
  if negb (bool_decide (file_type md = TSymlink)) then
    Ret (Err (kind +:+ " wrapper for HostBundle tool '" +:+ show tool +:+ "' is not a symlink"))
  else
    let? actual := reporting (fun e => "failed to read wrapper '" +:+ display_path p +:+ "': " +:+ io_text e) (read_link p) in
    if negb (bool_decide (components actual = components expected_target)) then
      Ret (Err (kind +:+ " wrapper for HostBundle tool '" +:+ show tool +:+ "' points to '" +:+ show actual +:+ "' instead of '"
                +:+ show expected_target +:+ "'"))
    else Ret (Ok tt).

Definition resolve_inside_bundle (bundle_root : path) (relative : bytes) (field : string) : prog (result string path) :=
  let? canonical_root := reporting (fun e => "failed to resolve HostBundle root: " +:+ io_text e) (canonicalize bundle_root) in
  let candidate := join_path canonical_root relative in
  let? resolved := reporting (fun e => "failed to resolve " +:+ field +:+ " '" +:+ display_path candidate +:+ "': " +:+ io_text e)
                     (canonicalize candidate) in
  if negb (path_starts_with resolved canonical_root) then
    Ret (Err (field +:+ " resolves to '" +:+ display_path resolved +:+ "' outside HostBundle root '" +:+ display_path canonical_root +:+ "'"))
  else Ret (Ok resolved).

(** A loop over [iter().enumerate()] whose body may return early. *)
Fixpoint each_indexed {A : Type} (f : nat -> A -> prog (result string unit)) (index : nat) (l : list A) : prog (result string unit) :=
  match l with
  | [] => Ret (Ok tt)
  | x :: l' => f index x ?; each_indexed f (S index) l'
  end.

Definition verify_environment_paths (bundle_root : path) (scope : string) (rules : gmap bytes EnvironmentRule)
  : prog (result string unit) :=
  try_each (fun '(variable, rule) =>
    each_indexed (fun index p =>
      let? _ := resolve_inside_bundle bundle_root p (scope +:+ "." +:+ show variable +:+ ".paths[" +:+ show_nat index +:+ "]") in
      Ret (Ok tt)) 0 (er_paths rule)) (btree_entries rules).

Definition library_field (index : nat) : string := "loader.library_dirs[" +:+ show_nat index +:+ "]".
Definition verify_library_dir (bundle_root : path) (index : nat) (directory : bytes) : prog (result string unit) :=
  let? p := resolve_inside_bundle bundle_root directory (library_field index) in
  do is_directory := is_dir_path p in
  if is_directory : bool then Ret (Ok tt)
  else Ret (Err (library_field index +:+ " '" +:+ display_path p +:+ "' is not a directory")).

(** The body of the loop over the tools. *)
Definition verify_tool (bundle_root : path) (location : BundleLocation) (expected : BundleConfig) (name : bytes) (config : ToolConfig)
  : prog (result string ResolvedTool) :=
  let invalid reason := "invalid HostBundle tool '" +:+ show name +:+ "': " +:+ reason in
  let? resolved := mapping_err (fun e => invalid (tool_error_text e)) (resolve_tool location expected name) in
  mapping_err (fun e => invalid (inspection_error_text e))
    (inspect_executable_for_arch (rt_target resolved) (pc_arch (bc_platform expected))) ?;
  verify_wrapper (bundle_root ++ WRAPPED_BIN ++ [name]) (lit "../bobr-bundle-launcher") "internal" name ?;
  let public_wrapper := bundle_root ++ [lit "bin"; name] in
  match visibility config with
  | Public => verify_wrapper public_wrapper (lit "../libexec/bobr-bundle-launcher") "public" name ?; Ret (Ok resolved)
  | Internal =>
      do md := symlink_metadata public_wrapper in
      if is_ok md then Ret (Err ("internal HostBundle tool '" +:+ show name +:+ "' unexpectedly has a public wrapper"))
      else Ret (Ok resolved)
  end.
Fixpoint verify_tools (bundle_root : path) (location : BundleLocation) (expected : BundleConfig) (l : list (bytes * ToolConfig))
  : prog (result string (list ResolvedTool)) :=
  match l with
  | [] => Ret (Ok [])
  | (name, config) :: l' =>
      let? tool := verify_tool bundle_root location expected name config in
      let? rest := verify_tools bundle_root location expected l' in
      Ret (Ok (tool :: rest))
  end.

Definition verify_launcher (launcher : path) (arch : PlatformArch) : prog (result string unit) :=
  let? md := reporting (fun e => "failed to inspect launcher '" +:+ display_path launcher +:+ "': " +:+ io_text e)
               (symlink_metadata launcher) in
  if negb (is_executable_file md) then
    Ret (Err ("HostBundle launcher '" +:+ display_path launcher +:+ "' must be an executable regular file"))
  else
    do opened := read launcher in
    let? elf := Ret (map_err (fun e => "invalid HostBundle launcher '" +:+ display_path launcher +:+ "': " +:+ elf_error_text e)
                       (inspect_elf_for_arch launcher (b <- opened ;; Ok (stable b)) arch)) in
    match linkage elf with
    | StaticElf => Ret (Ok tt)
    | DynamicElf _ => Ret (Err ("HostBundle launcher '" +:+ display_path launcher +:+ "' must not contain PT_INTERP"))
    end.

(** [verify_structure]; the result is [VerifiedStructure], the tools. *)
Definition verify_structure (toml : bytes -> result string BundleConfig) (bundle_root : path) (expected : BundleConfig)
  : prog (result string (list ResolvedTool)) :=
  let launcher := bundle_root ++ LAUNCHER_RELATIVE_PATH in
  verify_launcher launcher (pc_arch (bc_platform expected)) ?;
  let? text := reporting (fun e => "failed to read generated bundle.toml: " +:+ io_text e) (read (bundle_root ++ [BUNDLE_CONFIG_NAME])) in
  if negb (is_utf8 text) then Ret (Err "failed to read generated bundle.toml: stream did not contain valid UTF-8")
  else
    let? on_disk := Ret (map_err (fun e => "invalid generated bundle.toml: " +:+ config_error_text e) (parse_config toml text)) in
    if negb (bool_decide (on_disk = expected)) then Ret (Err "generated bundle.toml differs from the validated runtime config")
    else
      let? location := Ret (map_err (fun e => "invalid HostBundle launcher layout: " +:+ location_error_text e)
                              (locate_bundle_from_launcher (path_text launcher))) in
      let? resolved := verify_tools bundle_root location expected (btree_entries (tools expected)) in
      each_indexed (verify_library_dir bundle_root) 0 (library_dirs (loader expected)) ?;
      verify_environment_paths bundle_root "environment" (bc_environment expected) ?;
      try_each (fun '(name, tool) => verify_environment_paths bundle_root ("tools." +:+ show name +:+ ".environment") (tc_environment tool))
        (btree_entries (tools expected)) ?;
      Ret (Ok resolved).

(** ** The audit *)

(** [OutOfFuel] is not an outcome of the code. *)
Inductive AuditError := Refused (message : string) | OutOfFuel.
Definition refusing {A : Type} (m : prog (result string A)) : prog (result AuditError A) := mapping_err Refused m.
Definition refused {A : Type} (message : string) : prog (result AuditError A) := Ret (Err (Refused message)).

Record StartupVerifier := mkStartupVerifier {
  active_executables : gset path;
  active_libraries : gset path;
  verified_executables : gset (path * list path * nat);
  verified_libraries : gset (path * list path);
  visited_states : nat;
}.

(** [deduplicate_paths]: the first occurrences. *)
Fixpoint dedup_from (seen : list path) (l : list path) : list path :=
  match l with
  | [] => []
  | p :: l' => if bool_decide (p ∈ seen) then dedup_from seen l' else p :: dedup_from (p :: seen) l'
  end.
Definition deduplicate_paths (l : list path) : list path := dedup_from [] l.

Fixpoint trim_start_slashes (b : bytes) : bytes :=
  match b with
  | c :: b' => if (c =? 47)%Z then trim_start_slashes b' else b
  | [] => []
  end.
(** A path as comparisons see it: without empty and single-dot components. *)
Definition plain_components (parts : path) : path := List.filter (fun c => negb (bytes_eqb c [] || bytes_eqb c [46]%Z)) parts.

Definition origin_suffix (entry : bytes) : option bytes :=
  match strip_prefix (lit "$ORIGIN") entry with
  | Some suffix => Some suffix
  | None => strip_prefix (lit "${ORIGIN}") entry
  end.
Definition expand_entry (origin payload_root : path) (tag : string) (object : path) (entry : bytes) : prog (result string path) :=
  match origin_suffix entry with
  | None =>
      Ret (Err ("ELF '" +:+ display_path object +:+ "' has unsupported " +:+ tag +:+ " entry '" +:+ show entry
                +:+ "'; HostBundle v1 accepts only $ORIGIN-relative entries"))
  | Some suffix =>
      if negb (bytes_eqb suffix [] || starts_with [47]%Z suffix) || bool_decide (36%Z ∈ suffix) then
        Ret (Err ("ELF '" +:+ display_path object +:+ "' has unsupported " +:+ tag +:+ " entry '" +:+ show entry +:+ "'"))
      else
        let directory := origin ++ split_on 47 (trim_start_slashes suffix) in
        do found := canonicalize directory in
        match found with
        | Ok canonical =>
            if negb (path_starts_with canonical payload_root) then
              Ret (Err ("ELF '" +:+ display_path object +:+ "' " +:+ tag +:+ " entry '" +:+ show entry
                        +:+ "' resolves outside payload to '" +:+ display_path canonical +:+ "'"))
            else Ret (Ok canonical)
        | Err _ => Ret (Ok (plain_components directory))
        end
  end.
Fixpoint expand_entries (origin payload_root : path) (tag : string) (object : path) (entries : list bytes) : prog (result string (list path)) :=
  match entries with
  | [] => Ret (Ok [])
  | entry :: entries' =>
      let? p := expand_entry origin payload_root tag object entry in
      let? rest := expand_entries origin payload_root tag object entries' in
      Ret (Ok (p :: rest))
  end.
Definition expand_dynamic_paths (values : list bytes) (origin payload_root : path) (tag : string) (object : path)
  : prog (result string (list path)) :=
  expand_entries origin payload_root tag object (flat_map (split_on 58) values).

Definition bump_state (p : path) (v : StartupVerifier) : result AuditError StartupVerifier :=
  let visited := S (visited_states v) in
  if (MAX_STARTUP_NODES <? visited)%nat then
    Err (Refused ("HostBundle startup graph exceeds 4096 unique states near '" +:+ display_path p +:+ "'"))
  else Ok (mkStartupVerifier (active_executables v) (active_libraries v) (verified_executables v) (verified_libraries v) visited).

Section Audit.
Context (goblin : bytes -> result string GoblinElf).
Context (payload_root : path) (search_dirs : list path) (managed_tools : gmap bytes path) (arch : PlatformArch).

Definition parse_elf (p : path) : prog (result string ElfInfo) :=
  let? content := reporting (fun e => "failed to read ELF '" +:+ display_path p +:+ "': " +:+ io_text e) (read p) in
  let? elf := Ret (map_err (fun e => "failed to parse ELF '" +:+ display_path p +:+ "': " +:+ e) (goblin content)) in
  Ret (elf_info p arch elf).

Definition resolve_existing_file (p : path) (field : string) : prog (result string path) :=
  let? resolved := reporting (fun e => "failed to resolve " +:+ field +:+ " '" +:+ display_path p +:+ "': " +:+ io_text e) (canonicalize p) in
  if negb (path_starts_with resolved payload_root) then
    Ret (Err (field +:+ " resolves to '" +:+ display_path resolved +:+ "' outside payload root '" +:+ display_path payload_root +:+ "'"))
  else
    do is_file := is_file_path resolved in
    if is_file : bool then Ret (Ok resolved)
    else Ret (Err (field +:+ " '" +:+ display_path resolved +:+ "' is not a regular file")).
Definition resolve_existing_executable (p : path) (field : string) : prog (result string path) :=
  let? resolved := resolve_existing_file p field in
  let? md := reporting (fun e => "failed to inspect " +:+ field +:+ " '" +:+ display_path resolved +:+ "': " +:+ io_text e) (metadata resolved) in
  if (Z.land (md_mode md) 0x49 =? 0)%Z then Ret (Err (field +:+ " '" +:+ display_path resolved +:+ "' is not executable"))
  else Ret (Ok resolved).

(** The components below the root of an absolute path without dots. *)
Definition logical_components (logical : bytes) : option path :=
  if negb (is_absolute logical) || existsb (fun c => match c with ParentDir | CurDir => true | _ => false end) (components logical)
  then None else Some (walk_of (tail (components logical))).
Definition resolve_logical_payload_path (logical : bytes) (field : string) : prog (result string path) :=
  match logical_components logical with
  | None => Ret (Err (field +:+ " '" +:+ show logical +:+ "' is not a safe absolute payload path"))
  | Some relative => resolve_existing_executable (payload_root ++ relative) field
  end.

(** The loop over the search path. *)
Fixpoint resolve_needed (object : path) (needed : bytes) (search : list path) : prog (result string path) :=
  match search with
  | [] => Ret (Err ("ELF '" +:+ display_path object +:+ "' cannot resolve DT_NEEDED '" +:+ show needed +:+ "' inside HostBundle"))
  | directory :: search' =>
      let candidate := directory ++ [needed] in
      do found := symlink_metadata candidate in
      match found with
      | Ok _ =>
          let? resolved := reporting (fun e => "failed to resolve DT_NEEDED '" +:+ show needed +:+ "' candidate '"
                                        +:+ display_path candidate +:+ "': " +:+ io_text e) (canonicalize candidate) in
          if negb (path_starts_with resolved payload_root) then
            Ret (Err ("DT_NEEDED '" +:+ show needed +:+ "' from '" +:+ display_path object +:+ "' resolves outside payload to '"
                      +:+ display_path resolved +:+ "'"))
          else
            do is_file := is_file_path resolved in
            if is_file : bool then Ret (Ok resolved)
            else Ret (Err ("DT_NEEDED '" +:+ show needed +:+ "' from '" +:+ display_path object +:+ "' resolves to non-file '"
                           +:+ display_path resolved +:+ "'"))
      | Err e =>
          if bool_decide (io_kind e = NotFound) then resolve_needed object needed search'
          else Ret (Err ("failed to inspect DT_NEEDED '" +:+ show needed +:+ "' candidate '" +:+ display_path candidate +:+ "': "
                         +:+ io_text e))
      end
  end.

(** The search path of an object, and what its dependencies inherit. *)
Definition search_path (rpaths runpaths inherited : list path) : list path :=
  deduplicate_paths (deduplicate_paths (rpaths ++ inherited) ++ search_dirs ++ runpaths).
Definition child_paths (rpaths inherited : list path) : list path := deduplicate_paths (rpaths ++ inherited).

Section Dependencies.
Context (audit_library : path -> list path -> StartupVerifier -> prog (result AuditError StartupVerifier)).

Definition audit_needed (object : path) (info : ElfInfo) (search inherited : list path) (needed : bytes) (v : StartupVerifier)
  : prog (result AuditError StartupVerifier) :=
  if bytes_eqb needed [] || bool_decide (47%Z ∈ needed) then
    refused ("ELF '" +:+ display_path object +:+ "' contains forbidden DT_NEEDED '" +:+ show needed +:+ "'")
  else
    let? dependency := refusing (resolve_needed object needed search) in
    let? dependency_info := refusing (parse_elf dependency) in
    if match ei_soname dependency_info with Some soname => negb (bytes_eqb soname needed) | None => false end then
      refused ("DT_NEEDED '" +:+ show needed +:+ "' from '" +:+ display_path object +:+ "' resolves to '" +:+ display_path dependency
               +:+ "' with SONAME '" +:+ show (default [] (ei_soname dependency_info)) +:+ "'")
    else
      refusing (Ret (verify_symbol_versions object needed dependency (ei_required_versions info !! needed)
                       (ei_provided_versions dependency_info))) ?;
      audit_library dependency inherited v.
Fixpoint audit_all (object : path) (info : ElfInfo) (search inherited : list path) (l : list bytes) (v : StartupVerifier)
  : prog (result AuditError StartupVerifier) :=
  match l with
  | [] => Ret (Ok v)
  | needed :: l' =>
      let? v := audit_needed object info search inherited needed v in
      audit_all object info search inherited l' v
  end.
Definition audit_dependencies (object : path) (info : ElfInfo) (inherited : list path) (v : StartupVerifier)
  : prog (result AuditError StartupVerifier) :=
  match object with
  | [] => refused ("ELF path '" +:+ display_path object +:+ "' has no parent")
  | _ =>
      let origin := removelast object in
      let? declared_rpaths := refusing (expand_dynamic_paths (ei_rpaths info) origin payload_root "DT_RPATH" object) in
      let? local_runpaths := refusing (expand_dynamic_paths (ei_runpaths info) origin payload_root "DT_RUNPATH" object) in
      let local_rpaths := match ei_runpaths info with [] => declared_rpaths | _ => [] end in
      audit_all object info (search_path local_rpaths local_runpaths inherited) (child_paths local_rpaths inherited) (ei_needed info) v
  end.

Definition audit_elf_entry (p : path) (inherited : list path) (context : string) (v : StartupVerifier)
  : prog (result AuditError StartupVerifier) :=
  let? info := refusing (parse_elf p) in
  match ei_interpreter info with
  | Some interpreter =>
      let? loader := refusing (resolve_logical_payload_path interpreter ("PT_INTERP of '" +:+ display_path p +:+ "'")) in
      let? loader_info := refusing (parse_elf loader) in
      if negb (bool_decide (ei_interpreter loader_info = None)) || negb (bool_decide (ei_needed loader_info = [])) then
        refused ("bundled loader '" +:+ display_path loader +:+ "' must have neither PT_INTERP nor DT_NEEDED")
      else if bool_decide (search_dirs = []) then
        refused (context +:+ " '" +:+ display_path p +:+ "' is dynamically linked, but loader.library_dirs is empty")
      else audit_dependencies p info inherited v
  | None =>
      if negb (bool_decide (ei_needed info = [])) then
        refused (context +:+ " '" +:+ display_path p +:+ "' has DT_NEEDED but no PT_INTERP")
      else Ret (Ok v)
  end.
End Dependencies.

Fixpoint audit_library (fuel : nat) (p : path) (inherited : list path) (v : StartupVerifier)
  : prog (result AuditError StartupVerifier) :=
  match fuel with
  | O => Ret (Err OutOfFuel)
  | S fuel' =>
      let? canonical := refusing (resolve_existing_file p "DT_NEEDED library") in
      let state := (canonical, inherited) in
      if bool_decide (state ∈ verified_libraries v) then Ret (Ok v)
      else if bool_decide (canonical ∈ active_libraries v) then Ret (Ok v)
      else
        let v := mkStartupVerifier (active_executables v) ({[canonical]} ∪ active_libraries v) (verified_executables v)
                   (verified_libraries v) (visited_states v) in
        let? v := Ret (bump_state canonical v) in
        let? info := refusing (parse_elf canonical) in
        let? v := audit_dependencies (audit_library fuel') canonical info inherited v in
        Ret (Ok (mkStartupVerifier (active_executables v) (active_libraries v ∖ {[canonical]}) (verified_executables v)
                   ({[state]} ∪ verified_libraries v) (visited_states v)))
  end.

(** What the code takes for a managed command behind [env]. *)
Definition is_ascii_whitespace (b : Z) : bool := ((b =? 32) || (b =? 9) || (b =? 10) || (b =? 12) || (b =? 13))%Z.
Definition env_command (script : path) (argument : option bytes) : result string (bytes * path) :=
  argument <- ok_or argument ("script '" +:+ display_path script +:+ "' uses /usr/bin/env without a managed command") ;;
  if bytes_eqb argument [] || starts_with [45]%Z argument || bool_decide (47%Z ∈ argument) || existsb is_ascii_whitespace argument then
    Err ("script '" +:+ display_path script +:+ "' uses unsupported /usr/bin/env argument '" +:+ show argument
         +:+ "'; HostBundle v1 accepts exactly one managed command name")
  else if negb (is_utf8 argument) then Err ("script '" +:+ display_path script +:+ "' uses a non-UTF-8 /usr/bin/env command")
  else
    command_path <- ok_or (managed_tools !! argument)
      ("script '" +:+ display_path script +:+ "' asks /usr/bin/env for undeclared command '" +:+ show argument +:+ "'") ;;
    Ok (argument, command_path).

Definition audit_script (audit_executable : path -> list path -> string -> nat -> StartupVerifier -> prog (result AuditError StartupVerifier))
  (script : path) (shebang : Shebang) (inherited : list path) (context : string) (script_depth : nat) (v : StartupVerifier)
  : prog (result AuditError StartupVerifier) :=
  let? interpreter := refusing (resolve_logical_payload_path (sb_interpreter shebang)
                                  ("shebang interpreter of '" +:+ display_path script +:+ "'")) in
  if bool_decide (components (sb_interpreter shebang) = components ENV_INTERPRETER) then
    let? found := refusing (Ret (env_command script (sb_argument shebang))) in
    let? v := audit_executable interpreter inherited (context +:+ " shebang env") (S script_depth) v in
    audit_executable found.2 [] (context +:+ " env command '" +:+ show found.1 +:+ "'") 0 v
  else audit_executable interpreter inherited (context +:+ " shebang interpreter") (S script_depth) v.

Fixpoint audit_executable (fuel : nat) (p : path) (inherited : list path) (context : string) (script_depth : nat) (v : StartupVerifier)
  : prog (result AuditError StartupVerifier) :=
  match fuel with
  | O => Ret (Err OutOfFuel)
  | S fuel' =>
      let? canonical := refusing (resolve_existing_executable p context) in
      let state := (canonical, inherited, script_depth) in
      if bool_decide (state ∈ verified_executables v) then Ret (Ok v)
      else if bool_decide (canonical ∈ active_executables v) then
        refused ("script/interpreter startup cycle reaches '" +:+ display_path canonical +:+ "'")
      else
        let v := mkStartupVerifier ({[canonical]} ∪ active_executables v) (active_libraries v) (verified_executables v)
                   (verified_libraries v) (visited_states v) in
        let? v := Ret (bump_state canonical v) in
        let? format := refusing (mapping_err (fun e => "invalid executable '" +:+ display_path canonical +:+ "': " +:+ inspection_error_text e)
                                   (inspect_executable_for_arch canonical arch)) in
        let? v := match format with
                  | ElfFormat _ => audit_elf_entry (audit_library fuel') canonical inherited ("executable '" +:+ context +:+ "'") v
                  | ScriptFormat shebang =>
                      if (MAX_SCRIPT_DEPTH <=? script_depth)%nat then
                        refused ("shebang recursion limit (4) exceeded at '" +:+ display_path canonical +:+ "'")
                      else audit_script (audit_executable fuel') canonical shebang inherited context script_depth v
                  end in
        Ret (Ok (mkStartupVerifier (active_executables v ∖ {[canonical]}) (active_libraries v)
                   ({[state]} ∪ verified_executables v) (verified_libraries v) (visited_states v)))
  end.

Fixpoint audit_tools (fuel : nat) (l : list ResolvedTool) (v : StartupVerifier) : prog (result AuditError StartupVerifier) :=
  match l with
  | [] => Ret (Ok v)
  | tool :: l' =>
      let? v := audit_executable fuel (rt_target tool) [] (show (rt_name tool)) 0 v in
      audit_tools fuel l' v
  end.
End Audit.

(** The library directories of the configuration, below the payload root. *)
Fixpoint startup_library_dirs (bundle_root payload_root : path) (index : nat) (dirs : list bytes) : prog (result string (list path)) :=
  match dirs with
  | [] => Ret (Ok [])
  | relative :: dirs' =>
      let? directory := resolve_inside_bundle bundle_root relative (library_field index) in
      if negb (path_starts_with directory payload_root) then Ret (Err (library_field index +:+ " resolves outside payload root"))
      else
        let? rest := startup_library_dirs bundle_root payload_root (S index) dirs' in
        Ret (Ok (directory :: rest))
  end.

Definition no_state : StartupVerifier := mkStartupVerifier ∅ ∅ ∅ ∅ 0.
Definition verify_startup_closure (goblin : bytes -> result string GoblinElf) (bundle_root : path) (config : BundleConfig)
  (structure : list ResolvedTool) : prog (result AuditError unit) :=
  let? payload_root := refusing (reporting (fun e => "failed to resolve payload root: " +:+ io_text e)
                                   (canonicalize (join_path bundle_root (bc_payload_root config)))) in
  let? dirs := refusing (startup_library_dirs bundle_root payload_root 0 (library_dirs (loader config))) in
  let launcher := bundle_root ++ LAUNCHER_RELATIVE_PATH in
  let arch := pc_arch (bc_platform config) in
  let? launcher_info := refusing (parse_elf goblin arch launcher) in
  if negb (bool_decide (ei_interpreter launcher_info = None)) || negb (bool_decide (ei_needed launcher_info = [])) then
    refused ("HostBundle launcher '" +:+ display_path launcher +:+ "' must have neither PT_INTERP nor DT_NEEDED")
  else
    let managed_tools := list_to_map (rev (map (fun tool => (rt_name tool, rt_target tool)) structure)) in
    let? _ := audit_tools goblin payload_root dirs managed_tools arch (S MAX_STARTUP_NODES) structure no_state in
    Ret (Ok tt).
