(* ===== verification/BundleVerifyFacts.v ===== *)
(** * What a verified bundle is

    A staged bundle that passes [verify_startup_closure] contains everything that
    starting its tools needs, in the order in which the loader looks for it, with the
    run paths that libraries inherit; and the audit ends on every tree. *)

From S2P Require Import Prelude Errors Text Posix Elf BundleConfig BundleLaunch Reading BundleSafety BundleVerify.

Abbreviation ExecState := (path * list path * nat)%type.
Abbreviation LibState := (path * list path)%type.

(** ** The audit ends *)

(** On any tree, whatever calls fail: a program of the audit does not run out of
    fuel, and the count of states only grows, within the limit. *)
Definition counted (v : StartupVerifier) (r : result AuditError StartupVerifier) : Prop :=
  match r with
  | Ok v' => (visited_states v <= visited_states v' <= MAX_STARTUP_NODES)%nat
  | Err e => e <> OutOfFuel
  end.
Definition refusal {A : Type} (r : result AuditError A) : Prop := match r with Ok _ => True | Err e => e <> OutOfFuel end.

Section Any.
Context (t : node).

Lemma reads_any_canonicalize p : reads t (canonicalize p) (fun _ => True).
Proof. split; [done|]. by intros. Qed.

Lemma reads_try_any {E A B} (m : prog (result E A)) (f : A -> prog (result E B)) (Q : result E B -> Prop) :
  reads t m (fun _ => True) -> (forall e, Q (Err e)) -> (forall a, reads t (f a) Q) -> reads t (try_bind m f) Q.
Proof. intros Hm He Hf. eapply reads_seq; [exact Hm|]. intros [a|e] _; [apply Hf|apply He]. Qed.
Lemma reads_err_any {E F A} (g : E -> F) (m : prog (result E A)) : reads t m (fun _ => True) -> reads t (mapping_err g m) (fun _ => True).
Proof. intros Hm. eapply reads_seq; [exact Hm|done]. Qed.
Lemma reads_call_any o : read_only o = true -> reads t (call o) (fun _ => True).
Proof. by split. Qed.
Lemma reads_is_file p : reads t (is_file_path p) (fun _ => True).
Proof. eapply reads_seq; [by apply reads_call_any|done]. Qed.

End Any.

(** Whatever a program of reading calls answers. *)
Ltac any_step :=
  match goal with
  | |- reads _ (Ret _) _ => done
  | |- reads _ (try_bind _ _) _ => apply reads_try_any; [|done|intros ?]
  | |- reads _ (mapping_err _ _) _ => apply reads_err_any
  | |- reads _ (reporting _ _) _ => apply reads_err_any
  | |- reads _ (bind _ _) _ => eapply (reads_seq _ _ _ (fun _ => True)); [|intros ? _]
  | |- reads _ (is_file_path _) _ => apply reads_is_file
  | |- reads _ (call _) _ => by apply reads_call_any
  | |- reads _ (canonicalize _) _ => by apply reads_call_any
  | |- reads _ (metadata _) _ => by apply reads_call_any
  | |- reads _ (symlink_metadata _) _ => by apply reads_call_any
  | |- reads _ (read _) _ => by apply reads_call_any
  | |- reads _ (match ?x with _ => _ end) _ => destruct x
  end.
Ltac any := repeat any_step.

Section Ends.
Context (t : node).
Context (goblin : bytes -> result string GoblinElf).
Context (payload_root : path) (search_dirs : list path) (managed_tools : gmap bytes path) (arch : PlatformArch).

Lemma any_file p field : reads t (resolve_existing_file payload_root p field) (fun _ => True).
Proof. unfold resolve_existing_file. any. Qed.
Lemma any_executable p field : reads t (resolve_existing_executable payload_root p field) (fun _ => True).
Proof. unfold resolve_existing_executable. any. apply any_file. Qed.
Lemma any_logical p field : reads t (resolve_logical_payload_path payload_root p field) (fun _ => True).
Proof. unfold resolve_logical_payload_path. any. apply any_executable. Qed.
Lemma any_elf p : reads t (parse_elf goblin arch p) (fun _ => True).
Proof. unfold parse_elf. any. Qed.
Lemma any_inspect p : reads t (inspect_executable_for_arch p arch) (fun _ => True).
Proof. unfold inspect_executable_for_arch. any. Qed.
Lemma any_needed object needed search : reads t (resolve_needed payload_root object needed search) (fun _ => True).
Proof. induction search as [|d search IH]; cbn [resolve_needed]; any; exact IH. Qed.
Lemma any_expand values origin tag object : reads t (expand_dynamic_paths values origin payload_root tag object) (fun _ => True).
Proof.
  unfold expand_dynamic_paths. induction (flat_map _ _) as [|e l IH]; cbn [expand_entries]; any; [|exact IH].
  unfold expand_entry. any.
Qed.
Lemma reads_refusing {A} (m : prog (result string A)) : reads t m (fun _ => True) -> reads t (refusing m) refusal.
Proof. intros Hm. eapply reads_seq; [exact Hm|]. by intros [a|e] _. Qed.
Lemma counted_try {A} v (m : prog (result AuditError A)) f :
  reads t m refusal -> (forall a, reads t (f a) (counted v)) -> reads t (try_bind m f) (counted v).
Proof. intros Hm Hf. eapply reads_seq; [exact Hm|]. intros [a|e] Ha; [apply Hf|exact Ha]. Qed.
Lemma counted_step v m f : reads t m (counted v) ->
  (forall v', (visited_states v <= visited_states v' <= MAX_STARTUP_NODES)%nat -> reads t (f v') (counted v')) ->
  reads t (try_bind m f) (counted v).
Proof.
  intros Hm Hf. eapply reads_seq; [exact Hm|]. intros [v'|e] Hv; [|exact Hv].
  eapply reads_weaken; [by apply Hf|]. intros [v2|e] H2; [|exact H2]. cbn in *. lia.
Qed.
Lemma counted_bump p v f : (forall v', visited_states v' = S (visited_states v) -> (S (visited_states v) <= MAX_STARTUP_NODES)%nat -> reads t (f v') (counted v')) ->
  reads t (try_bind (Ret (bump_state p v)) f) (counted v).
Proof.
  intros Hf. unfold bump_state. destruct (_ <? _)%nat eqn:E; [done|]. apply Nat.ltb_ge in E. cbn [try_bind bind].
  eapply reads_weaken; [by apply Hf|]. intros [v2|e] H2; [|exact H2]. cbn in *. lia.
Qed.

Lemma dependencies_end audit object info inherited v :
  (visited_states v <= MAX_STARTUP_NODES)%nat ->
  (forall p inh v', (visited_states v <= visited_states v' <= MAX_STARTUP_NODES)%nat -> reads t (audit p inh v') (counted v')) ->
  reads t (audit_dependencies goblin payload_root search_dirs arch audit object info inherited v) (counted v).
Proof.
  intros Hv Haudit. unfold audit_dependencies. destruct object as [|c object]; [done|].
  apply counted_try; [apply reads_refusing, any_expand|]. intros rpaths. apply counted_try; [apply reads_refusing, any_expand|]. intros runpaths.
  generalize (search_path search_dirs (match ei_runpaths info with [] => rpaths | _ => [] end) runpaths inherited).
  generalize (child_paths (match ei_runpaths info with [] => rpaths | _ => [] end) inherited). intros children search.
  assert (forall v', (visited_states v <= visited_states v' <= MAX_STARTUP_NODES)%nat ->
    reads t (audit_all goblin payload_root arch audit (c :: object) info search children (ei_needed info) v') (counted v')) as H; [|by apply H].
  induction (ei_needed info) as [|needed l IH]; intros v' Hv'; cbn [audit_all]; [cbn; lia|].
  apply counted_step; [|intros v2 Hv2; apply IH; lia]. unfold audit_needed. destruct (_ || _); [done|].
  apply counted_try; [apply reads_refusing, any_needed|]. intros dependency. apply counted_try; [apply reads_refusing, any_elf|]. intros dinfo.
  destruct (match ei_soname dinfo with Some _ => _ | None => _ end); [done|]. apply counted_try; [by apply reads_refusing|]. intros _. by apply Haudit.
Qed.
Lemma library_ends fuel : forall p inherited v, (visited_states v <= MAX_STARTUP_NODES)%nat -> (MAX_STARTUP_NODES < fuel + visited_states v)%nat ->
  reads t (audit_library goblin payload_root search_dirs arch fuel p inherited v) (counted v).
Proof.
  induction fuel as [|fuel IH]; intros p inherited v Hv Hf; [lia|]. cbn [audit_library].
  apply counted_try; [apply reads_refusing, any_file|]. intros q. case_bool_decide; [cbn; lia|]. case_bool_decide; [cbn; lia|].
  eapply reads_weaken; [apply counted_bump|done]. cbn [visited_states]. intros v' Hv' Hm.
  apply counted_try; [apply reads_refusing, any_elf|]. intros info. apply counted_step; [|intros v2 Hv2; cbn; lia].
  apply dependencies_end; [lia|]. intros p' inh v2 Hv2. apply IH; lia.
Qed.
Lemma elf_entry_ends fuel p inherited context v : (visited_states v <= MAX_STARTUP_NODES)%nat -> (MAX_STARTUP_NODES < fuel + visited_states v)%nat ->
  reads t (audit_elf_entry goblin payload_root search_dirs arch (audit_library goblin payload_root search_dirs arch fuel) p inherited context v) (counted v).
Proof.
  intros Hv Hf. unfold audit_elf_entry. apply counted_try; [apply reads_refusing, any_elf|]. intros info.
  destruct (ei_interpreter info); [|destruct (negb _); cbn; [done|lia]].
  apply counted_try; [apply reads_refusing, any_logical|]. intros q. apply counted_try; [apply reads_refusing, any_elf|]. intros linfo.
  destruct (_ || _); [done|]. case_bool_decide; [done|]. apply dependencies_end; [done|]. intros p' inh v2 Hv2. apply library_ends; lia.
Qed.
Lemma executable_ends fuel : forall p inherited context depth v, (visited_states v <= MAX_STARTUP_NODES)%nat -> (MAX_STARTUP_NODES < fuel + visited_states v)%nat ->
  reads t (audit_executable goblin payload_root search_dirs managed_tools arch fuel p inherited context depth v) (counted v).
Proof.
  induction fuel as [|fuel IH]; intros p inherited context depth v Hv Hf; [lia|]. cbn [audit_executable].
  apply counted_try; [apply reads_refusing, any_executable|]. intros q. case_bool_decide; [cbn; lia|]. case_bool_decide; [done|].
  eapply reads_weaken; [apply counted_bump|done]. cbn [visited_states]. intros v' Hv' Hm.
  apply counted_try; [apply reads_refusing, reads_err_any, any_inspect|]. intros format. apply counted_step; [|intros v2 Hv2; cbn; lia].
  destruct format as [elf|shebang]; [apply elf_entry_ends; lia|]. destruct (_ <=? _)%nat; [done|]. unfold audit_script.
  apply counted_try; [apply reads_refusing, any_logical|]. intros interpreter. case_bool_decide; [|apply IH; lia].
  apply counted_try; [by apply reads_refusing|]. intros found. apply counted_step; [apply IH; lia|]. intros v2 Hv2. apply IH; lia.
Qed.
End Ends.

Lemma reads_startup t goblin bundle_root config structure : reads t (verify_startup_closure goblin bundle_root config structure) refusal.
Proof.
  assert (forall {A B} (m : prog (result AuditError A)) (f : A -> prog (result AuditError B)),
    reads t m refusal -> (forall a, reads t (f a) refusal) -> reads t (try_bind m f) refusal) as Htry.
  { intros A B m f Hm Hf. eapply reads_seq; [exact Hm|]. intros [a|e] Ha; [apply Hf|exact Ha]. }
  unfold verify_startup_closure. apply Htry; [by apply reads_refusing, reads_err_any, reads_call_any|]. intros payload_root.
  apply Htry.
  { apply reads_refusing. generalize 0%nat. induction (library_dirs (loader config)) as [|d l IH]; intros i; cbn [startup_library_dirs]; [done|].
    apply reads_try_any; [|done|intros q; destruct (negb _); [done|]; apply reads_try_any; [apply IH|done|done]].
    unfold resolve_inside_bundle. apply reads_try_any; [by apply reads_err_any, reads_call_any|done|]. intros root.
    apply reads_try_any; [by apply reads_err_any, reads_call_any|done|]. intros q. by destruct (negb _). }
  intros dirs. apply Htry; [apply reads_refusing, any_elf|]. intros info. destruct (_ || _); [done|].
  apply Htry; [|done]. eapply (reads_weaken _ _ (counted no_state)); [|intros [v|e] Hv; [done|exact Hv]].
  assert (forall v, (visited_states v <= MAX_STARTUP_NODES)%nat -> reads t (audit_tools goblin payload_root dirs
    (list_to_map (rev (map (fun tool => (rt_name tool, rt_target tool)) structure))) (pc_arch (bc_platform config)) (S MAX_STARTUP_NODES) structure v) (counted v)) as H;
    [|apply H; cbn; lia].
  generalize (list_to_map (M := gmap bytes path) (rev (map (fun tool => (rt_name tool, rt_target tool)) structure))). intros managed.
  induction structure as [|tool l IH]; intros v Hv; [cbn; lia|].
  change (audit_tools goblin payload_root dirs managed (pc_arch (bc_platform config)) (S MAX_STARTUP_NODES) (tool :: l) v) with
    (try_bind (audit_executable goblin payload_root dirs managed (pc_arch (bc_platform config)) (S MAX_STARTUP_NODES) (rt_target tool) [] (show (rt_name tool)) 0 v)
       (audit_tools goblin payload_root dirs managed (pc_arch (bc_platform config)) (S MAX_STARTUP_NODES) l)).
  apply counted_step; [apply executable_ends; lia|]. intros v' Hv'. apply IH. lia.
Qed.

(** C28. The audit of a bundle ends within its limits: on any tree, whatever calls
    fail and whatever the ELF parser says of files, cyclic scripts and libraries
    included, the recursion of [verify_startup_closure] needs no more levels than
    the states it allows, and nothing is changed. *)
Theorem startup_audit_ends goblin bundle_root config structure who es w :
  let '(r, w') := run who es (verify_startup_closure goblin bundle_root config structure) w in
  w' = w /\ r <> Err OutOfFuel.
Proof.
  destruct (reads_run (tree w) _ _ who es w (reads_startup (tree w) goblin bundle_root config structure) eq_refl) as [H1 H2].
  destruct (run who es _ w) as [r w']. split; [exact H2|]. intros ->. by apply H1.
Qed.

(** ** What a program sees of a tree *)

(** The answers of the calls that read, when none fails. *)
Definition answer (t : node) (o : Op) : Resp o := (exec (mkActor 0 0) calm o (mkWorld t ∅ ∅)).1.
Fixpoint value {A : Type} (t : node) (m : prog A) : A :=
  match m with
  | Ret a => a
  | Do o k => value t (k (answer t o))
  end.

Lemma value_bind {A B} t (m : prog A) (f : A -> prog B) : value t (bind m f) = value t (f (value t m)).
Proof. induction m as [a|o k IH]; cbn [bind value]; [done|]. apply IH. Qed.
Lemma value_try {E A B} t (m : prog (result E A)) (f : A -> prog (result E B)) :
  value t (try_bind m f) = match value t m with Ok a => value t (f a) | Err e => Err e end.
Proof. unfold try_bind. rewrite value_bind. by destruct (value t m). Qed.
Lemma value_mapping {E F A} t (g : E -> F) (m : prog (result E A)) : value t (mapping_err g m) = map_err g (value t m).
Proof. unfold mapping_err. by rewrite value_bind. Qed.
Lemma value_refusing {A} t (m : prog (result string A)) a : value t (refusing m) = Ok a -> value t m = Ok a.
Proof. unfold refusing. rewrite value_mapping. apply map_err_ok. Qed.
Lemma exec_answer who o w : read_only o = true -> (exec who calm o w).1 = answer (tree w) o.
Proof. by destruct o. Qed.
Lemma run_value {A} t (m : prog A) Q who w : reads t m Q -> tree w = t -> run who [] m w = (value t m, w).
Proof.
  revert w. induction m as [a|o k IH]; intros w H Hw; [done|]. destruct H as [Hr H]. cbn [run hd tl value].
  pose proof (exec_read_only who calm o w Hr) as E1. pose proof (exec_answer who o w Hr) as E2. specialize (H who calm w Hw).
  destruct (exec who calm o w) as [r w']. cbn [fst snd] in *. subst w' r t. by apply IH.
Qed.

(** Inversion of a value that is [Ok]. *)
Lemma value_try_ok {E A B} t (m : prog (result E A)) (f : A -> prog (result E B)) b :
  value t (try_bind m f) = Ok b -> exists a, value t m = Ok a /\ value t (f a) = Ok b.
Proof. rewrite value_try. destruct (value t m) as [a|]; [|done]. by exists a. Qed.
Lemma value_reporting_ok {A} t text (m : prog (result IoError A)) a : value t (reporting text m) = Ok a -> value t m = Ok a.
Proof. unfold reporting. rewrite value_mapping. apply map_err_ok. Qed.

Section Seen.
Context (t : node) (names : wf_node t) (root_dir : real_dir t []).

Lemma seen_canonicalize p q : value t (canonicalize p) = Ok q -> exists n, lookup_node t p true = Ok (q, n) /\ get t q = Some n.
Proof.
  cbn. destruct (lookup_node t p true) as [[q' n]|] eqn:E; cbn; [|done]. intros [= ->]. exists n. split; [done|].
  by destruct (lookup_canonical t p q n names root_dir E).
Qed.
Lemma looked_up p q n : lookup_node t p true = Ok (q, n) -> forall follow, lookup_node t q follow = Ok (q, n).
Proof. intros E. by destruct (lookup_canonical t p q n names root_dir E) as (_ & _ & H). Qed.
Lemma seen_is_file p : value t (is_file_path p) = true -> exists q mode content, lookup_node t p true = Ok (q, Reg mode content).
Proof.
  cbn. destruct (lookup_node t p true) as [[q n]|] eqn:E; cbn; [|done]. intros H. bools. destruct n as [mode content| |]; try done. by exists q, mode, content.
Qed.
Lemma seen_read p b : value t (read p) = Ok b -> exists q mode, lookup_node t p true = Ok (q, Reg mode b).
Proof.
  cbn. destruct (lookup_node t p true) as [[q [mode c| |]]|] eqn:E; cbn; try done. intros [= ->]. by exists q, mode.
Qed.

Context (goblin : bytes -> result string GoblinElf).
Context (payload_root : path) (search_dirs : list path) (managed_tools : gmap bytes path) (arch : PlatformArch).

(** A path that leads to a regular file below the payload root. *)
Definition leads (p q : path) : Prop := payload_root `prefix_of` q /\ exists mode content, lookup_node t p true = Ok (q, Reg mode content).
Definition leads_executable (p q : path) : Prop :=
  payload_root `prefix_of` q /\ exists mode content, lookup_node t p true = Ok (q, Reg mode content) /\ Z.land mode 0x49 <> 0%Z.
(** What the parser says of the file there. *)
Definition file_info (p : path) (info : ElfInfo) : Prop :=
  exists mode content elf, lookup_node t p true = Ok (p, Reg mode content) /\ goblin content = Ok elf /\ elf_info p arch elf = Ok info.

Lemma seen_existing p field q : value t (resolve_existing_file payload_root p field) = Ok q -> leads p q.
Proof.
  unfold resolve_existing_file. intros (q' & Hq & H)%value_try_ok. apply value_reporting_ok, seen_canonicalize in Hq as (n & El & Eg).
  unfold path_starts_with in H. case_bool_decide as Hp; [|done]. cbn [negb] in H. rewrite value_bind in H.
  destruct (value t (is_file_path q')) eqn:Ef; [|done]. injection H as ->. apply seen_is_file in Ef as (q2 & mode & content & E2).
  rewrite (looked_up _ _ _ El) in E2. simplify_eq. split; [done|]. by exists mode, content.
Qed.
Lemma seen_executable p field q : value t (resolve_existing_executable payload_root p field) = Ok q -> leads_executable p q.
Proof.
  unfold resolve_existing_executable. intros (q' & Hq & H)%value_try_ok. apply seen_existing in Hq as (Hp & mode & content & El).
  apply value_try_ok in H as (md & Hmd & H). apply value_reporting_ok in Hmd. cbn in Hmd. rewrite (looked_up _ _ _ El) in Hmd.
  injection Hmd as <-. cbn [metadata_of md_mode] in H. destruct (_ =? 0)%Z eqn:E; [done|]. injection H as ->. bools.
  split; [done|]. by exists mode, content.
Qed.
Lemma seen_logical logical field q : value t (resolve_logical_payload_path payload_root logical field) = Ok q ->
  exists relative, logical_components logical = Some relative /\ leads_executable (payload_root ++ relative) q.
Proof.
  unfold resolve_logical_payload_path. destruct (logical_components logical) as [relative|]; [|done]. intros H%seen_executable. by exists relative.
Qed.
Lemma leads_self p q : leads_executable p q -> forall q', leads_executable q q' -> q' = q.
Proof. intros (_ & m & c & E & _) q' (_ & m' & c' & E' & _). rewrite (looked_up _ _ _ E) in E'. by simplify_eq. Qed.
Lemma seen_elf p q mode content info : lookup_node t p true = Ok (q, Reg mode content) -> value t (parse_elf goblin arch q) = Ok info -> file_info q info.
Proof.
  intros El. unfold parse_elf. intros (b & Hb & H)%value_try_ok. apply value_reporting_ok, seen_read in Hb as (q2 & mode' & E2).
  rewrite (looked_up _ _ _ El) in E2. simplify_eq. apply value_try_ok in H as (elf & He & H). apply map_err_ok in He.
  exists mode', b, elf. split; [by eapply looked_up|]. by split.
Qed.

(** The directories of [DT_RPATH] and [DT_RUNPATH] entries. *)
Definition expands (origin : path) (entry : bytes) (d : path) : Prop :=
  exists suffix, origin_suffix entry = Some suffix /\ (suffix = [] \/ starts_with [47]%Z suffix = true) /\ 36%Z ∉ suffix /\
    match lookup_node t (origin ++ split_on 47 (trim_start_slashes suffix)) true with
    | Ok (q, _) => d = q /\ payload_root `prefix_of` q
    | Err _ => d = plain_components (origin ++ split_on 47 (trim_start_slashes suffix))
    end.
Lemma seen_expand values origin tag object ds : value t (expand_dynamic_paths values origin payload_root tag object) = Ok ds ->
  Forall2 (expands origin) (flat_map (split_on 58) values) ds.
Proof.
  unfold expand_dynamic_paths. revert ds. induction (flat_map _ _) as [|e l IH]; intros ds; cbn [expand_entries]; [intros [= <-]; constructor|].
  intros (d & Hd & H)%value_try_ok. apply value_try_ok in H as (rest & Hr & H). injection H as <-. constructor; [|by apply IH].
  unfold expand_entry in Hd. destruct (origin_suffix e) as [suffix|] eqn:Es; [|done]. destruct (_ || _) eqn:Eb in Hd; [done|].
  apply orb_false_elim in Eb as [Eb Edollar]. bools. rewrite value_bind in Hd. exists suffix. split; [done|]. split.
  { apply orb_prop in Eb as [Eb|Eb]; bools; [|by right]. by left. }
  split; [done|]. cbn in Hd. destruct (lookup_node t _ true) as [[q n]|]; cbn in Hd.
  - unfold path_starts_with in Hd. case_bool_decide; [|done]. by injection Hd as <-.
  - by injection Hd as <-.
Qed.

(** The first entry of the search path that has the name. *)
Definition absent (needed : bytes) (d : path) : Prop :=
  exists e, lookup_node t (d ++ [needed]) false = Err e /\ io_kind e = NotFound.
Definition finds (needed : bytes) (search : list path) (q : path) : Prop :=
  exists before d after, search = before ++ d :: after /\ Forall (absent needed) before /\
    is_ok (lookup_node t (d ++ [needed]) false) = true /\ leads (d ++ [needed]) q.

Lemma finds_cons needed d l q :
  finds needed (d :: l) q <->
  is_ok (lookup_node t (d ++ [needed]) false) = true /\ leads (d ++ [needed]) q \/ absent needed d /\ finds needed l q.
Proof.
  split.
  - intros ([|d' before] & d0 & after & E & Hb & Hd); simplify_eq/=; [by left|]. right. inversion_clear Hb. split; [done|].
    by exists before, d0, after.
  - intros [Hd|[Ha (before & d0 & after & -> & Hb & Hd)]]; [by exists [], d, l|]. exists (d :: before), d0, after.
    split; [done|]. split; [by constructor|done].
Qed.
(** Names that were looked for in vain need not be looked for again. *)
Lemma finds_dedup needed q l : forall seen, Forall (absent needed) seen -> finds needed (dedup_from seen l) q -> finds needed l q.
Proof.
  induction l as [|d l IH]; intros seen Hs; cbn [dedup_from]; [done|]. case_bool_decide as Hin.
  - intros Hf. apply finds_cons. right. rewrite Forall_forall in Hs. split; [by apply Hs|]. eapply IH; [|done]. by apply Forall_forall.
  - intros [Hd|[Ha Hf]]%finds_cons; apply finds_cons; [by left|right]. split; [done|]. eapply IH; [|done]. by constructor.
Qed.
Lemma finds_search needed own inherited runpaths q :
  finds needed (search_path search_dirs own runpaths inherited) q -> finds needed (own ++ inherited ++ search_dirs ++ runpaths) q.
Proof.
  unfold search_path, deduplicate_paths. rewrite (app_assoc own). generalize (own ++ inherited). intros l.
  intros Hf. apply (finds_dedup _ _ _ [] (Forall_nil_2 _)) in Hf. revert Hf.
  generalize (search_dirs ++ runpaths). intros rest.
  assert (forall seen, Forall (absent needed) seen -> finds needed (dedup_from seen l ++ rest) q -> finds needed (l ++ rest) q) as H; [|by apply H].
  induction l as [|d l IH]; intros seen Hs; cbn [dedup_from app]; [done|]. case_bool_decide as Hin; cbn [app].
  - intros Hf. apply finds_cons. right. rewrite Forall_forall in Hs. split; [by apply Hs|]. eapply IH; [|done]. by apply Forall_forall.
  - intros [Hd|[Ha Hf]]%finds_cons; apply finds_cons; [by left|right]. split; [done|]. eapply IH; [|done]. by constructor.
Qed.

Lemma seen_needed object needed search q : value t (resolve_needed payload_root object needed search) = Ok q -> finds needed search q.
Proof.
  induction search as [|d search IH]; cbn [resolve_needed]; [done|]. rewrite value_bind. cbn [symlink_metadata call value].
  change (answer t (OSymlinkMetadata (d ++ [needed]))) with (let* (_, n) := lookup_node t (d ++ [needed]) false in Ok (metadata_of n)).
  destruct (lookup_node t (d ++ [needed]) false) as [[q0 n0]|e] eqn:E0; cbn iota.
  - intros (q' & Hq & H)%value_try_ok. apply value_reporting_ok, seen_canonicalize in Hq as (n & El & Eg).
    unfold path_starts_with in H. case_bool_decide as Hp; [|done]. cbn [negb] in H. rewrite value_bind in H.
    destruct (value t (is_file_path q')) eqn:Ef; [|done]. injection H as ->. apply seen_is_file in Ef as (q2 & mode & content & E2).
    rewrite (looked_up _ _ _ El) in E2. simplify_eq. exists [], d, search. split; [done|]. split; [constructor|]. rewrite E0. split; [done|].
    split; [done|]. by exists mode, content.
  - case_bool_decide; [|done]. intros (before & d' & after & -> & Hb & Hd)%IH. exists (d :: before), d', after. split; [done|]. split; [|done].
    constructor; [by exists e|done].
Qed.

(** ** The startup closure *)

(** The first occurrences in a list, by the library's [remove_dups], which keeps the last. *)
Definition first_occurrences (l : list path) : list path := reverse (remove_dups (reverse l)).
Lemma first_occurrences_snoc l x :
  first_occurrences (l ++ [x]) = first_occurrences l ++ (if bool_decide (x ∈ l) then [] else [x]).
Proof.
  unfold first_occurrences. rewrite reverse_snoc. cbn [remove_dups].
  case_bool_decide as Hin; case_decide as Hd; rewrite elem_of_reverse in Hd; try done.
  - by rewrite app_nil_r.
  - by rewrite reverse_cons.
Qed.
Lemma dedup_snoc x l : forall seen,
  dedup_from seen (l ++ [x]) = dedup_from seen l ++ (if bool_decide (x ∈ seen \/ x ∈ l) then [] else [x]).
Proof.
  induction l as [|y l IH]; intros seen; cbn [dedup_from app].
  - rewrite (bool_decide_ext (x ∈ seen \/ x ∈ []) (x ∈ seen)) by set_solver. by case_bool_decide.
  - case_bool_decide as Hy; rewrite IH.
    + by rewrite (bool_decide_ext (x ∈ seen \/ x ∈ y :: l) (x ∈ seen \/ x ∈ l)) by set_solver.
    + by rewrite (bool_decide_ext (x ∈ seen \/ x ∈ y :: l) (x ∈ y :: seen \/ x ∈ l)) by set_solver.
Qed.
Lemma deduplicated l : deduplicate_paths l = first_occurrences l.
Proof.
  unfold deduplicate_paths. induction l as [|x l IH] using rev_ind; [done|]. rewrite dedup_snoc, first_occurrences_snoc, IH.
  by rewrite (bool_decide_ext (x ∈ [] \/ x ∈ l) (x ∈ l)) by set_solver.
Qed.

(** A needed library is the first of its name in search order, carries that name
    and the versions asked for, and is itself dealt with. *)
Definition needs (info : ElfInfo) (search : list path) (next : path -> Prop) (needed : bytes) : Prop :=
  needed <> [] /\ 47%Z ∉ needed /\
  exists q qinfo, finds needed search q /\ file_info q qinfo /\ (forall soname, ei_soname qinfo = Some soname -> soname = needed) /\
    (forall versions, ei_required_versions info !! needed = Some versions -> versions ⊆ ei_provided_versions qinfo) /\ next q.

(** The directories that an object names itself: those of its [DT_RPATH], which counts
    only without a [DT_RUNPATH], and those of that. *)
Definition own_paths (p : path) (info : ElfInfo) (rpaths runpaths : list path) : Prop :=
  exists declared,
    Forall2 (expands (removelast p)) (flat_map (split_on 58) (ei_rpaths info)) declared /\
    Forall2 (expands (removelast p)) (flat_map (split_on 58) (ei_runpaths info)) runpaths /\
    rpaths = if bool_decide (ei_runpaths info = []) then declared else [].
(** The order of [docs/HOST_BUNDLE.md]: the run paths of the object, those it inherits,
    the library directories, [DT_RUNPATH]; a library inherits the first two. *)
Definition dependencies (p : path) (info : ElfInfo) (inherited : list path) (next : LibState -> Prop) : Prop :=
  exists rpaths runpaths, own_paths p info rpaths runpaths /\
    Forall (needs info (rpaths ++ inherited ++ search_dirs ++ runpaths) (fun q => next (q, first_occurrences (rpaths ++ inherited))))
      (ei_needed info).
Definition library_ok (s : LibState) (next : LibState -> Prop) : Prop :=
  payload_root `prefix_of` s.1 /\ exists info, file_info s.1 info /\ dependencies s.1 info s.2 next.

(** [loads s s']: the object of [s] needs that of [s'], found in its search order,
    which then inherits its run paths. *)
Definition loads (s s' : LibState) : Prop :=
  exists info rpaths runpaths needed, file_info s.1 info /\ own_paths s.1 info rpaths runpaths /\ needed ∈ ei_needed info /\
    finds needed (rpaths ++ s.2 ++ search_dirs ++ runpaths) s'.1 /\ s'.2 = first_occurrences (rpaths ++ s.2).
(** A library that [s] needs is among those dealt with, with the run paths that it
    inherits from [s]; or it had been reached on the way to [s], on a cycle, and is
    dealt with as it was reached then. *)
Definition settled (libraries : LibState -> Prop) (s s' : LibState) : Prop :=
  libraries s' \/ exists inherited, libraries (s'.1, inherited) /\ rtc loads (s'.1, inherited) s.

(** An executable is ELF, static or with a loader and all libraries, or a script
    whose interpreter, and command behind [env], is dealt with. *)
Definition entry_ok (p : path) (inherited : list path) (next : LibState -> Prop) : Prop :=
  exists info, file_info p info /\
    match ei_interpreter info with
    | None => ei_needed info = []
    | Some interpreter =>
        exists relative l linfo, logical_components interpreter = Some relative /\ leads_executable (payload_root ++ relative) l /\
          file_info l linfo /\ ei_interpreter linfo = None /\ ei_needed linfo = [] /\ search_dirs <> [] /\
          dependencies p info inherited next
    end.
Definition script_ok (inherited : list path) (depth : nat) (shebang : Shebang) (next : ExecState -> Prop) : Prop :=
  (depth < MAX_SCRIPT_DEPTH)%nat /\
  exists relative q, logical_components (sb_interpreter shebang) = Some relative /\ leads_executable (payload_root ++ relative) q /\
    next (q, inherited, S depth) /\
    (components (sb_interpreter shebang) = components ENV_INTERPRETER ->
     exists command p q', sb_argument shebang = Some command /\ managed_tools !! command = Some p /\ leads_executable p q' /\ next (q', [], 0%nat)).
Definition executable_ok (s : ExecState) (next_executable : ExecState -> Prop) (next_library : LibState -> Prop) : Prop :=
  let '(p, inherited, depth) := s in
  leads_executable p p /\ exists format, value t (inspect_executable_for_arch p arch) = Ok format /\
    match format with
    | ElfFormat _ => entry_ok p inherited next_library
    | ScriptFormat shebang => script_ok inherited depth shebang next_executable
    end.

Lemma needs_weaken info search (P Q : path -> Prop) needed : (forall q, P q -> Q q) -> needs info search P needed -> needs info search Q needed.
Proof. intros H (? & ? & q & qinfo & ? & ? & ? & ? & ?). split; [done|]. split; [done|]. exists q, qinfo. split_and!; auto. Qed.
Lemma dependencies_weaken p info inherited (P Q : LibState -> Prop) : (forall q, P q -> Q q) ->
  dependencies p info inherited P -> dependencies p info inherited Q.
Proof.
  intros H (rpaths & runpaths & Ho & Hn). exists rpaths, runpaths. split; [done|].
  eapply Forall_impl; [exact Hn|]. intros needed. apply needs_weaken. intros q. apply H.
Qed.
Lemma library_weaken s (P Q : LibState -> Prop) : (forall q, P q -> Q q) -> library_ok s P -> library_ok s Q.
Proof. intros H (? & info & ? & ?). split; [done|]. exists info. split; [done|]. by eapply dependencies_weaken. Qed.
Lemma entry_weaken p inherited (P Q : LibState -> Prop) : (forall q, P q -> Q q) -> entry_ok p inherited P -> entry_ok p inherited Q.
Proof.
  intros H (info & ? & Hi). exists info. split; [done|]. destruct (ei_interpreter info) as [i|]; [|done].
  destruct Hi as (relative & l & linfo & ? & ? & ? & ? & ? & ? & ?). exists relative, l, linfo. split_and!; try done. by eapply dependencies_weaken.
Qed.
Lemma script_weaken inherited depth shebang (P Q : ExecState -> Prop) : (forall s, P s -> Q s) ->
  script_ok inherited depth shebang P -> script_ok inherited depth shebang Q.
Proof.
  intros H (? & relative & q & ? & ? & ? & He). split; [done|]. exists relative, q. split_and!; try done; [by apply H|].
  intros E. destruct (He E) as (command & p & q' & ? & ? & ? & ?). exists command, p, q'. split_and!; auto.
Qed.
Lemma executable_weaken s (P P' : ExecState -> Prop) (Q Q' : LibState -> Prop) : (forall x, P x -> P' x) -> (forall q, Q q -> Q' q) ->
  executable_ok s P Q -> executable_ok s P' Q'.
Proof.
  intros HP HQ. destruct s as [[p inherited] depth]. intros (? & format & ? & Hf). split; [done|]. exists format. split; [done|].
  destruct format; [by eapply entry_weaken|by eapply script_weaken].
Qed.

(** *** What the audit has established *)

(** The libraries under audit, innermost first, with what they inherit: each leads to the
    first; and the ones that were audited need only each other and these. *)
Abbreviation Stack := (list LibState).
Definition known (v : StartupVerifier) (stack : Stack) (s : LibState) : Prop := s ∈ verified_libraries v \/ s ∈ stack.
Definition dealt (v : StartupVerifier) (stack : Stack) (s s' : LibState) : Prop :=
  s' ∈ verified_libraries v \/ exists inherited, known v stack (s'.1, inherited) /\ rtc loads (s'.1, inherited) s.
Definition libraries_hold (v : StartupVerifier) (stack : Stack) : Prop :=
  forall s, s ∈ verified_libraries v -> library_ok s (dealt v stack s).
Definition library_step (stack : Stack) (v v' : StartupVerifier) : Prop :=
  libraries_hold v' stack /\ verified_libraries v ⊆ verified_libraries v' /\ active_libraries v' = active_libraries v /\
  verified_executables v' = verified_executables v /\ active_executables v' = active_executables v.

Lemma step_refl stack v : libraries_hold v stack -> library_step stack v v.
Proof. intros Hv. unfold library_step. by split_and!. Qed.
Lemma step_trans stack v1 v2 v3 : library_step stack v1 v2 -> library_step stack v2 v3 -> library_step stack v1 v3.
Proof. intros (? & ? & ? & ? & ?) (? & ? & ? & ? & ?). unfold library_step. split_and!; try done; [by etrans|congruence..]. Qed.

(** What the audit of a library has found: it is audited as it was reached, or under audit. *)
Definition reached (v : StartupVerifier) (stack : Stack) (s : LibState) : Prop :=
  s ∈ verified_libraries v \/ exists inherited, (s.1, inherited) ∈ stack.
Lemma reached_step stack v v' s : library_step stack v v' -> reached v stack s -> reached v' stack s.
Proof. intros (_ & Hs & _) [H|H]; [left; by apply Hs|by right]. Qed.

Lemma seen_versions object needed dependency required provided u :
  verify_symbol_versions object needed dependency required provided = Ok u -> forall versions, required = Some versions -> versions ⊆ provided.
Proof.
  intros H versions ->. cbn in H. case_bool_decide as E; [|done]. intros x Hx. destruct (decide (x ∈ provided)) as [|Hn]; [done|].
  assert (x ∈ sort_by id (elements (versions ∖ provided))) as Hin; [|rewrite E in Hin; by apply not_elem_of_nil in Hin].
  rewrite sort_by_perm. apply elem_of_elements. set_solver.
Qed.

Definition library_audit (stack : Stack)
    (audit : path -> list path -> StartupVerifier -> prog (result AuditError StartupVerifier)) : Prop :=
  forall p inherited v v', value t (audit p inherited v) = Ok v' -> libraries_hold v stack ->
    active_libraries v = list_to_set (map fst stack) ->
    (forall q s, leads p q -> s ∈ stack -> rtc loads s (q, inherited)) ->
    library_step stack v v' /\ exists q, leads p q /\ reached v' stack (q, inherited).

Lemma all_seen stack audit object info search child l : library_audit stack audit ->
  (forall needed q s, needed ∈ l -> finds needed search q -> s ∈ stack -> rtc loads s (q, child)) ->
  forall v v', value t (audit_all goblin payload_root arch audit object info search child l v) = Ok v' -> libraries_hold v stack ->
  active_libraries v = list_to_set (map fst stack) ->
  library_step stack v v' /\ Forall (needs info search (fun q => reached v' stack (q, child))) l.
Proof.
  intros Haudit. induction l as [|needed l IH]; intros Hway v v'; cbn [audit_all].
  { intros [= <-] Hv Ha. split; [by apply step_refl|constructor]. }
  intros (v1 & H1 & H2)%value_try_ok Hv Ha. unfold audit_needed in H1. destruct (bytes_eqb needed [] || _) eqn:Eb; [done|].
  apply orb_false_elim in Eb as [Eb Eslash]. bools.
  apply value_try_ok in H1 as (dependency & Hd & H1). apply value_refusing, seen_needed in Hd.
  assert (exists mode content, lookup_node t dependency true = Ok (dependency, Reg mode content)) as (mode & content & Hself).
  { destruct Hd as (before & d & after & _ & _ & _ & _ & mode & content & E). exists mode, content. by eapply looked_up. }
  assert (forall q, leads dependency q -> q = dependency) as Hdep.
  { intros q (_ & m & c & E). rewrite Hself in E. by simplify_eq. }
  apply value_try_ok in H1 as (dinfo & Hi & H1). apply value_refusing in Hi. apply (seen_elf _ _ _ _ _ Hself) in Hi.
  destruct (match ei_soname dinfo with Some _ => _ | None => _ end) eqn:Eso; [done|].
  apply value_try_ok in H1 as (u & Hver & H1). apply value_refusing in Hver. cbn [value] in Hver.
  destruct (Haudit _ _ _ _ H1 Hv Ha) as [Hstep (q & Hq & Hreached)].
  { intros q s ->%Hdep Hs. apply (Hway needed); [by left|done|done]. }
  apply Hdep in Hq as ->.
  destruct (IH (fun needed q s Hin => Hway needed q s (list_elem_of_further _ _ _ Hin)) v1 v' H2 (proj1 Hstep)) as [Hstep2 Hall].
  { destruct Hstep as (_ & _ & -> & _). exact Ha. }
  split; [by eapply step_trans|]. constructor; [|done].
  split; [done|]. split; [done|]. exists dependency, dinfo. split; [done|]. split; [done|]. split.
  - intros soname E. rewrite E in Eso. bools. done.
  - split; [by eapply seen_versions|]. by eapply reached_step.
Qed.

(** What is found in the search order of the code is found in the documented one. *)
Lemma dependencies_seen stack audit object info inherited v v' : library_audit stack audit ->
  value t (audit_dependencies goblin payload_root search_dirs arch audit object info inherited v) = Ok v' -> libraries_hold v stack ->
  active_libraries v = list_to_set (map fst stack) ->
  (forall rpaths runpaths needed q s, own_paths object info rpaths runpaths -> needed ∈ ei_needed info ->
     finds needed (rpaths ++ inherited ++ search_dirs ++ runpaths) q -> s ∈ stack ->
     rtc loads s (q, first_occurrences (rpaths ++ inherited))) ->
  library_step stack v v' /\ dependencies object info inherited (reached v' stack).
Proof.
  intros Haudit. unfold audit_dependencies. destruct object as [|c object]; [done|].
  intros (declared & H1 & H)%value_try_ok. apply value_refusing, seen_expand in H1.
  apply value_try_ok in H as (runpaths & H2 & H). apply value_refusing, seen_expand in H2. intros Hv Ha Hway.
  assert (Hown : own_paths (c :: object) info (match ei_runpaths info with [] => declared | _ => [] end) runpaths).
  { exists declared. split_and!; [done|done|]. by destruct (ei_runpaths info). }
  revert H Hown. generalize (match ei_runpaths info with [] => declared | _ => [] end). intros rpaths H Hown.
  unfold child_paths in H. rewrite deduplicated in H.
  destruct (all_seen _ _ _ _ _ _ _ Haudit (fun needed q s Hin Hf => Hway _ _ needed q s Hown Hin (finds_search _ _ _ _ _ Hf)) _ _ H Hv Ha) as [Hs Hall].
  split; [done|]. exists rpaths, runpaths. split; [done|]. eapply Forall_impl; [exact Hall|].
  intros needed (? & ? & q & qinfo & Hf & Hrest). split; [done|]. split; [done|]. exists q, qinfo. split; [by apply finds_search|done].
Qed.
Lemma library_seen fuel : forall stack, library_audit stack (audit_library goblin payload_root search_dirs arch fuel).
Proof.
  induction fuel as [|fuel IH]; intros stack p inherited v v'; cbn [audit_library]; [done|].
  intros (q & Hq & H)%value_try_ok Hv Hact Hway. apply value_refusing, seen_existing in Hq. case_bool_decide as Hver.
  { injection H as <-. split; [by apply step_refl|]. exists q. split; [done|]. by left. }
  rewrite Hact in H. case_bool_decide as Hon.
  { injection H as <-. split; [by apply step_refl|]. exists q. split; [done|]. right.
    apply elem_of_list_to_set, list_elem_of_In, in_map_iff in Hon as ([q' inh] & <- & Hin). exists inh. by apply list_elem_of_In. }
  apply value_try_ok in H as (v1 & Hb & H). cbn [value] in Hb. unfold bump_state in Hb. destruct (_ <? _)%nat; [done|]. injection Hb as <-.
  apply value_try_ok in H as (info & Hi & H). apply value_refusing in Hi. pose proof Hq as (Hin & mode & content & El).
  apply (seen_elf _ _ _ _ _ El) in Hi. apply value_try_ok in H as (v2 & Hd & H). injection H as <-.
  assert (Hchain : forall s, s ∈ (q, inherited) :: stack -> rtc loads s (q, inherited)).
  { intros s [->|Hs]%elem_of_cons; [done|]. by apply Hway. }
  apply (dependencies_seen ((q, inherited) :: stack) _ _ _ _ _ _ (IH _)) in Hd as [(Hh & Hsub & Ha & He1 & He2) Hdeps];
    cbn [active_executables active_libraries verified_executables verified_libraries] in *.
  2: { intros s Hs. eapply library_weaken; [|by apply Hv]. intros x [Hx|(inh & [Hx|Hx] & Hr)]; [by left|right; exists inh..];
       (split; [|done]); [by left|right; by right]. }
  2: { done. }
  2: { intros rpaths runpaths needed q' s Hown Hneed Hf Hs. eapply rtc_r; [by apply Hchain|]. by exists info, rpaths, runpaths, needed. }
  set (v3 := mkStartupVerifier _ _ _ ({[(q, inherited)]} ∪ verified_libraries v2) _).
  assert (forall s x, dealt v2 ((q, inherited) :: stack) s x -> dealt v3 stack s x) as Hdealt.
  { intros s x [Hx|(inh & [Hx|[Hx|Hx]%elem_of_cons] & Hr)]; [left; cbn; set_solver|right; exists inh; split; [|done]..];
      [left; cbn; set_solver|left; rewrite Hx; cbn; set_solver|by right]. }
  split; [|exists q; split; [done|]; left; cbn; set_solver].
  unfold library_step. split_and!; cbn; [|set_solver|rewrite Ha, Hact; cbn; set_solver|done|done].
  intros s [->%elem_of_singleton|Hs]%elem_of_union.
  - split; [done|]. exists info. split; [done|]. eapply dependencies_weaken; [|exact Hdeps].
    intros x [Hx|[inh Hx]]; apply Hdealt; [by left|]. right. exists inh. split; [by right|by apply Hchain].
  - eapply library_weaken; [apply Hdealt|]. by apply Hh.
Qed.

(** Executables are audited while no library is. *)
Abbreviation audited v := (fun s : LibState => s ∈ verified_libraries v).
Definition executables_hold (v : StartupVerifier) : Prop :=
  libraries_hold v [] /\ active_libraries v = ∅ /\
  forall s, s ∈ verified_executables v -> executable_ok s (fun x => x ∈ verified_executables v) (audited v).
Definition executable_step (v v' : StartupVerifier) : Prop :=
  executables_hold v' /\ verified_executables v ⊆ verified_executables v' /\
  verified_libraries v ⊆ verified_libraries v'.
Lemma executable_step_refl v : executables_hold v -> executable_step v v.
Proof. intros Hv. unfold executable_step. by split_and!. Qed.
Lemma executable_step_trans v1 v2 v3 : executable_step v1 v2 -> executable_step v2 v3 -> executable_step v1 v3.
Proof. intros (? & ? & ?) (? & ? & ?). unfold executable_step. split; [done|]. by split; etrans. Qed.
Lemma library_executable_step v v' : executables_hold v -> library_step [] v v' -> executable_step v v'.
Proof.
  intros (Hl & Hact & He) (Hl' & Hsub & Ha & Hve & _). unfold executable_step, executables_hold. rewrite Hve, Ha.
  split_and!; try done. intros s Hin. apply (executable_weaken _ (fun x => x ∈ verified_executables v) _ (audited v)); [done| |by apply He].
  intros q. apply Hsub.
Qed.

Lemma elf_entry_seen audit p inherited context v v' mode content : library_audit [] audit -> lookup_node t p true = Ok (p, Reg mode content) ->
  value t (audit_elf_entry goblin payload_root search_dirs arch audit p inherited context v) = Ok v' -> libraries_hold v [] ->
  active_libraries v = ∅ -> library_step [] v v' /\ entry_ok p inherited (audited v').
Proof.
  intros Haudit El. unfold audit_elf_entry. intros (info & Hi & H)%value_try_ok Hv Hact. apply value_refusing in Hi. apply (seen_elf _ _ _ _ _ El) in Hi.
  destruct (ei_interpreter info) as [interpreter|] eqn:Ei.
  - apply value_try_ok in H as (l & Hl & H). apply value_refusing, seen_logical in Hl as (relative & Hrel & Hl).
    apply value_try_ok in H as (linfo & Hli & H). apply value_refusing in Hli. pose proof Hl as (_ & m & c & Ell & _).
    apply (seen_elf _ _ _ _ _ Ell) in Hli. destruct (_ || _) eqn:Eb in H; [done|]. apply orb_false_elim in Eb as [E1 E2]. bools.
    case_bool_decide as E3; [done|].
    destruct (dependencies_seen _ _ _ _ _ _ _ Haudit H Hv Hact) as [Hs Hd]; [by intros ????? _ _ _ ?%not_elem_of_nil|]. split; [done|].
    exists info. split; [done|]. rewrite Ei. exists relative, l, linfo. split_and!; try done.
    eapply dependencies_weaken; [|exact Hd]. intros x [Hx|[inh Hx]]; [done|by apply not_elem_of_nil in Hx].
  - destruct (negb _) eqn:Eb in H; [done|]. bools. injection H as <-. split; [by apply step_refl|]. exists info. by rewrite Ei.
Qed.

Definition executable_audit (audit : path -> list path -> string -> nat -> StartupVerifier -> prog (result AuditError StartupVerifier)) : Prop :=
  forall p inherited context depth v v', value t (audit p inherited context depth v) = Ok v' -> executables_hold v ->
    executable_step v v' /\ exists q, leads_executable p q /\ (q, inherited, depth) ∈ verified_executables v'.

Lemma script_seen audit script shebang inherited context depth v v' : executable_audit audit -> (depth < MAX_SCRIPT_DEPTH)%nat ->
  value t (audit_script payload_root managed_tools audit script shebang inherited context depth v) = Ok v' -> executables_hold v ->
  executable_step v v' /\ script_ok inherited depth shebang (fun s => s ∈ verified_executables v').
Proof.
  intros Haudit Hd. unfold audit_script. intros (q & Hq & H)%value_try_ok Hv. apply value_refusing, seen_logical in Hq as (relative & Hrel & Hq).
  case_bool_decide as Henv.
  - apply value_try_ok in H as ([command p] & Hc & H). apply value_refusing in Hc. cbn [value] in Hc. cbn [fst snd] in H.
    apply value_try_ok in H as (v1 & H1 & H2). destruct (Haudit _ _ _ _ _ _ H1 Hv) as [Hs1 (q1 & Hq1 & Hin1)].
    rewrite (leads_self _ _ Hq _ Hq1) in Hin1. destruct (Haudit _ _ _ _ _ _ H2 (proj1 Hs1)) as [Hs2 (q2 & Hq2 & Hin2)].
    split; [by eapply executable_step_trans|]. split; [done|]. exists relative, q. split; [done|]. split; [done|].
    split; [by apply (proj1 (proj2 Hs2))|]. intros _. unfold env_command in Hc. inv_res. exists command, p, q2. done.
  - destruct (Haudit _ _ _ _ _ _ H Hv) as [Hs (q1 & Hq1 & Hin1)]. rewrite (leads_self _ _ Hq _ Hq1) in Hin1.
    split; [done|]. split; [done|]. exists relative, q. by split_and!.
Qed.
Lemma executable_seen fuel : executable_audit (audit_executable goblin payload_root search_dirs managed_tools arch fuel).
Proof.
  induction fuel as [|fuel IH]; intros p inherited context depth v v'; cbn [audit_executable]; [done|].
  intros (q & Hq & H)%value_try_ok Hv. apply value_refusing, seen_executable in Hq. case_bool_decide as Hver.
  { injection H as <-. split; [by apply executable_step_refl|]. by exists q. }
  case_bool_decide; [done|]. apply value_try_ok in H as (v1 & Hb & H). cbn [value] in Hb. unfold bump_state in Hb.
  destruct (_ <? _)%nat in Hb; [done|]. injection Hb as <-.
  apply value_try_ok in H as (format & Hf & H). apply value_refusing in Hf. rewrite value_mapping in Hf. apply map_err_ok in Hf.
  apply value_try_ok in H as (v2 & H2 & H). injection H as <-. pose proof Hq as (Hin & mode & content & El & Hx).
  pose proof (looked_up _ _ _ El true) as Eself. assert (leads_executable q q) as Hqq by (split; [done|by exists mode, content]).
  match type of H2 with context [mkStartupVerifier ?a ?b ?c ?d ?e] => set (v1 := mkStartupVerifier a b c d e) in H2 end.
  assert (executables_hold v1) as Hv1 by exact Hv.
  assert (executable_step v1 v2 /\ match format with
    | ElfFormat _ => entry_ok q inherited (audited v2)
    | ScriptFormat shebang => script_ok inherited depth shebang (fun s => s ∈ verified_executables v2)
    end) as [Hs Hok].
  { destruct format as [elf|shebang].
    - destruct (elf_entry_seen _ _ _ _ _ _ _ _ (library_seen fuel []) Eself H2 (proj1 Hv1) (proj1 (proj2 Hv1))) as [Hs Hok].
      split; [by apply library_executable_step|done].
    - destruct (_ <=? _)%nat eqn:Edepth in H2; [done|]. apply Nat.leb_gt in Edepth. by apply (script_seen _ _ _ _ _ _ _ _ IH Edepth H2). }
  destruct Hs as ((Hl2 & Ha2 & He2) & Hsub & Hsubl). subst v1. cbn [active_libraries verified_libraries verified_executables] in *.
  split; [|exists q; split; [done|]; cbn; set_solver]. unfold executable_step, executables_hold. cbn.
  split_and!; [exact Hl2|done| |set_solver|done].
  intros s [->%elem_of_singleton|Hs]%elem_of_union.
  - split; [done|]. exists format. split; [done|]. destruct format; [done|]. eapply script_weaken; [|exact Hok]. intros x Hx2. set_solver.
  - eapply executable_weaken; [| |by apply He2]; [intros x Hx2; set_solver|done].
Qed.
End Seen.

(** ** The verified bundle *)

Definition managed (structure : list ResolvedTool) : gmap bytes path :=
  list_to_map (rev (map (fun tool => (rt_name tool, rt_target tool)) structure)).

(** The startup closure of the tools: a set of executables and a set of libraries,
    each with the directories it inherits, that contain what their members need, each
    needed library with the directories it inherits from the member. *)
Record startup_closed (t : node) (goblin : bytes -> result string GoblinElf) (bundle_root : path) (config : BundleConfig)
  (structure : list ResolvedTool) (payload_root : path) (dirs : list path) (executables : gset ExecState) (libraries : gset LibState) : Prop := {
  sc_payload : exists n, lookup_node t (join_path bundle_root (bc_payload_root config)) true = Ok (payload_root, n);
  sc_dirs : Forall2 (fun relative d => payload_root `prefix_of` d /\ exists root n n',
    lookup_node t bundle_root true = Ok (root, n) /\ root `prefix_of` d /\ lookup_node t (join_path root relative) true = Ok (d, n'))
    (library_dirs (loader config)) dirs;
  sc_launcher : exists q mode content elf info, lookup_node t (bundle_root ++ LAUNCHER_RELATIVE_PATH) true = Ok (q, Reg mode content) /\
    goblin content = Ok elf /\ elf_info (bundle_root ++ LAUNCHER_RELATIVE_PATH) (pc_arch (bc_platform config)) elf = Ok info /\
    ei_interpreter info = None /\ ei_needed info = [];
  sc_executables : forall s, s ∈ executables ->
    executable_ok t goblin payload_root dirs (managed structure) (pc_arch (bc_platform config)) s
      (fun x => x ∈ executables) (fun x => x ∈ libraries);
  sc_libraries : forall s, s ∈ libraries ->
    library_ok t goblin payload_root dirs (pc_arch (bc_platform config)) s
      (settled t goblin payload_root dirs (pc_arch (bc_platform config)) (fun x => x ∈ libraries) s);
  sc_tools : forall tool, tool ∈ structure -> exists q, leads_executable t payload_root (rt_target tool) q /\ (q, [], 0%nat) ∈ executables;
}.

Section Closed.
Context (t : node) (names : wf_node t) (root_dir : real_dir t []).

Lemma seen_inside bundle_root relative field d : value t (resolve_inside_bundle bundle_root relative field) = Ok d ->
  exists root n n', lookup_node t bundle_root true = Ok (root, n) /\ root `prefix_of` d /\ lookup_node t (join_path root relative) true = Ok (d, n').
Proof.
  unfold resolve_inside_bundle. intros (root & Hr & H)%value_try_ok. apply value_reporting_ok, seen_canonicalize in Hr as (n & Er & _); [|done..].
  apply value_try_ok in H as (d' & Hd & H). apply value_reporting_ok, seen_canonicalize in Hd as (n' & Ed & _); [|done..].
  unfold path_starts_with in H. case_bool_decide; [|done]. injection H as ->. by exists root, n, n'.
Qed.
Lemma seen_dirs bundle_root payload_root dirs : forall index l, value t (startup_library_dirs bundle_root payload_root index dirs) = Ok l ->
  Forall2 (fun relative d => payload_root `prefix_of` d /\ exists root n n',
    lookup_node t bundle_root true = Ok (root, n) /\ root `prefix_of` d /\ lookup_node t (join_path root relative) true = Ok (d, n')) dirs l.
Proof.
  induction dirs as [|relative dirs IH]; intros index l; cbn [startup_library_dirs]; [intros [= <-]; constructor|].
  intros (d & Hd & H)%value_try_ok. unfold path_starts_with in H. case_bool_decide; [|done]. cbn [negb] in H.
  apply value_try_ok in H as (rest & Hr & H). injection H as <-. constructor; [|by eapply IH]. split; [done|]. by eapply seen_inside.
Qed.

Context (goblin : bytes -> result string GoblinElf) (payload_root : path) (dirs : list path) (managed_tools : gmap bytes path) (arch : PlatformArch).
Lemma seen_tools fuel l : forall v v', value t (audit_tools goblin payload_root dirs managed_tools arch fuel l v) = Ok v' ->
  executables_hold t goblin payload_root dirs managed_tools arch v ->
  executable_step t goblin payload_root dirs managed_tools arch v v' /\
  forall tool, tool ∈ l -> exists q, leads_executable t payload_root (rt_target tool) q /\ (q, [], 0%nat) ∈ verified_executables v'.
Proof.
  induction l as [|tool l IH]; intros v v'; cbn [audit_tools].
  - intros [= <-] Hv. split; [by apply executable_step_refl|]. by intros tool ?%not_elem_of_nil.
  - intros (v1 & H1 & H2)%value_try_ok Hv.
    destruct (executable_seen t names root_dir _ _ _ _ _ _ _ _ _ _ _ _ H1 Hv) as [Hs1 (q & Hq & Hin)].
    destruct (IH _ _ H2 (proj1 Hs1)) as [Hs2 Hall]. split; [by eapply executable_step_trans|].
    intros tool' [->|Hin']%elem_of_cons; [|by apply Hall]. exists q. split; [done|]. by apply (proj1 (proj2 Hs2)).
Qed.
End Closed.

Lemma startup_closure_seen t goblin bundle_root config structure : wf_node t -> real_dir t [] ->
  value t (verify_startup_closure goblin bundle_root config structure) = Ok tt ->
  exists payload_root dirs executables libraries, startup_closed t goblin bundle_root config structure payload_root dirs executables libraries.
Proof.
  intros names root_dir. unfold verify_startup_closure. intros (payload_root & Hp & H)%value_try_ok.
  apply value_refusing, value_reporting_ok, seen_canonicalize in Hp as (n & Ep & _); [|done..].
  apply value_try_ok in H as (dirs & Hd & H). apply value_refusing, seen_dirs in Hd; [|done..].
  apply value_try_ok in H as (info & Hi & H). apply value_refusing in Hi. unfold parse_elf in Hi.
  apply value_try_ok in Hi as (content & Hc & Hi). apply value_reporting_ok, seen_read in Hc as (q & mode & Ec).
  apply value_try_ok in Hi as (elf & He & Hi). cbn [value] in He, Hi. apply map_err_ok in He.
  destruct (_ || _) eqn:Eb in H; [done|]. apply orb_false_elim in Eb as [E1 E2]. bools.
  apply value_try_ok in H as (v & Hv & _). fold (managed structure) in Hv.
  destruct (seen_tools t names root_dir _ _ _ _ _ _ _ _ _ Hv) as [((Hl & _ & He') & _ & _) Htools].
  { split; [by intros s ?%not_elem_of_empty|]. split; [done|]. by intros s ?%not_elem_of_empty. }
  exists payload_root, dirs, (verified_executables v), (verified_libraries v). constructor; [by exists n|done| |exact He'| |done].
  - exists q, mode, content, elf, info. by split_and!.
  - intros s Hs. eapply library_weaken; [|by apply Hl]. intros x [Hx|(inh & [Hx|Hx%not_elem_of_nil] & Hr)]; [by left| |done].
    right. by exists inh.
Qed.

(** C16. A verified bundle is closed under what starting its tools needs.  When
    [verify_startup_closure] succeeds, on a tree on which no call fails, whatever the
    ELF parser says: there is a set of executables with the tools, and one of
    libraries with the run paths they inherit, all regular files below the payload root,
    such that every script's interpreter (and the command behind [env]) is in the set
    within the depth the launcher allows, every dynamic program has a static loader, and
    for every needed library the first file of that name in the documented search order
    (the object's run paths, those it inherits, the library directories, [DT_RUNPATH])
    is in the set, inheriting just the first two of these without repetitions, with that
    name as its own and all versions asked for.  Only a library that needs, through
    others, the one it is needed by may be there as it was reached first. *)
Theorem startup_closure_sound goblin bundle_root config structure who w :
  wf_node (tree w) -> real_dir (tree w) [] ->
  (run who [] (verify_startup_closure goblin bundle_root config structure) w).1 = Ok tt ->
  exists payload_root dirs executables libraries,
    startup_closed (tree w) goblin bundle_root config structure payload_root dirs executables libraries.
Proof.
  intros Hwf Hroot H. rewrite (run_value (tree w) _ _ who w (reads_startup (tree w) goblin bundle_root config structure) eq_refl) in H.
  by apply startup_closure_seen.
Qed.
