(* ===== verification/BundleLaunches.v ===== *)
(** * A verified bundle launches

    The composition of the builder's verification with the launcher: what the audit
    of [BundleVerify] has accepted, [BundleLaunch] prepares. *)

From S2P Require Import Prelude Errors Text Posix Elf BundleConfig BundleLaunch Reading BundleSafety HostBundle BundleVerify BundleVerifyFacts.

(** ** Paths and locations *)

Lemma plain_component c : plain_part c = true -> component_of c = [Normal c].
Proof.
  unfold plain_part, component_of. intros H. apply negb_true_iff, orb_false_elim in H as [H1 ->]. by rewrite H1.
Qed.
Lemma valid_plain c : valid_name c -> plain_part c = true.
Proof.
  unfold plain_part. intros (H1 & _ & H3 & H4). apply negb_true_iff. repeat apply orb_false_intro; apply not_true_iff_false; intros E; bools; done.
Qed.
Lemma plain_components_of l : Forall (fun c => plain_part c = true) l -> flat_map component_of l = map Normal l.
Proof. induction 1 as [|c l Hc _ IH]; [done|]. cbn [flat_map map]. rewrite plain_component by done. cbn [app]. by rewrite IH. Qed.
Lemma components_path_text p : Forall valid_name p -> p <> [] -> components (path_text p) = RootDir :: map Normal p.
Proof.
  intros Hp Hne. unfold components, path_text. change (is_absolute (47%Z :: join_with [47]%Z p)) with true. cbn iota.
  cbn [app]. f_equal. cbn [split_on]. rewrite Z.eqb_refl. rewrite split_on_join; [|done|eapply Forall_impl; [exact Hp|by intros c (_ & ? & _)]].
  cbn [flat_map]. change (component_of []) with (@nil Component). cbn [app]. apply plain_components_of.
  eapply Forall_impl; [exact Hp|apply valid_plain].
Qed.
Lemma walk_normal p : walk_of (map Normal p) = p.
Proof. unfold walk_of. induction p as [|c p IH]; [done|]. cbn. by rewrite IH. Qed.
Lemma components_valid raw relative : validate_absolute_payload_path raw = Some relative -> logical_components raw = Some (split_on 47 relative).
Proof.
  unfold validate_absolute_payload_path, logical_components. destruct (strip_prefix [47]%Z raw) as [r|] eqn:Es; [|done].
  destruct raw as [|b raw]; [done|]. cbn [strip_prefix] in Es. destruct (47 =? b)%Z eqn:E; [|done]. bools. subst b. injection Es as ->.
  destruct (_ || _) eqn:Eb; [done|]. intros [= ->]. apply orb_false_elim in Eb as [_ E2]. apply negb_false_iff, Is_true_true, forallb_True in E2.
  assert (components (47%Z :: relative) = RootDir :: map Normal (split_on 47 relative)) as Hc.
  { unfold components. change (is_absolute (47%Z :: relative)) with true. cbn [split_on]. rewrite Z.eqb_refl. cbn [flat_map app]. f_equal.
    rewrite plain_components_of; [done|]. eapply Forall_impl; [exact E2|]. by intros c ?%Is_true_true. }
  rewrite Hc. change (is_absolute (47%Z :: relative)) with true. cbn [negb orb existsb tail]. rewrite walk_normal.
  assert (forall l, existsb (fun c => match c with ParentDir | CurDir => true | _ => false end) (map Normal l) = false) as -> by (by intros l; induction l).
  done.
Qed.

Lemma located bundle_root : Forall valid_name bundle_root ->
  exists location, locate_bundle_from_launcher (path_text (bundle_root ++ LAUNCHER_RELATIVE_PATH)) = Ok location /\ location_root location = bundle_root.
Proof.
  intros Hp. unfold locate_bundle_from_launcher.
  assert (Forall valid_name LAUNCHER_RELATIVE_PATH) as Hl.
  { unfold valid_name. apply (bool_decide_eq_true_1 _). by vm_compute. }
  assert (components (path_text (bundle_root ++ LAUNCHER_RELATIVE_PATH)) = (RootDir :: map Normal bundle_root) ++ [Normal (lit "libexec")] ++ [Normal (lit "bobr-bundle-launcher")]) as Hc.
  { rewrite components_path_text; [|by apply Forall_app|by destruct bundle_root]. by rewrite map_app. }
  change (is_absolute (path_text (bundle_root ++ LAUNCHER_RELATIVE_PATH))) with true. cbn [negb]. rewrite Hc, app_assoc.
  unfold last_name, parent_components. rewrite !last_snoc, !removelast_last, bool_decide_eq_true_2 by done. cbn [negb ok_or].
  cbn beta iota. rewrite last_snoc, removelast_last, bool_decide_eq_true_2 by done. cbn [negb].
  eexists. split; [reflexivity|]. unfold location_root. cbn [bl_root]. apply walk_normal.
Qed.

Lemma join_validated base raw relative : validate_absolute_payload_path raw = Some relative -> join_path base relative = base ++ split_on 47 relative.
Proof.
  unfold validate_absolute_payload_path, join_path. destruct (strip_prefix [47]%Z raw) as [r|]; [|done]. destruct (_ || _) eqn:Eb; [done|].
  intros [= ->]. apply orb_false_elim in Eb as [_ E]. apply negb_false_iff in E. destruct relative as [|b relative]; [done|].
  cbn [strip_prefix]. destruct (47 =? b)%Z eqn:Eb; [|done]. bools. subst b. exfalso. cbn [split_on] in E. by rewrite Z.eqb_refl in E.
Qed.
(** ** Launching *)

(** The paths of a configuration that become parts of lists. *)
Inductive list_element (config : BundleConfig) : bytes -> Prop :=
| library_element relative : relative ∈ library_dirs (loader config) -> list_element config relative
| common_element variable rule relative : bc_environment config !! variable = Some rule -> relative ∈ er_paths rule ->
    list_element config relative
| tool_element name tool variable rule relative : tools config !! name = Some tool -> tc_environment tool !! variable = Some rule ->
    relative ∈ er_paths rule -> list_element config relative.

(** What the launcher asks of a bundle beyond what the builder verifies: the bundle
    is where it was verified, the launcher's own inspection and the parser agree on
    ELF files, interpreters are plain paths, and the elements of path lists have no
    separator in their names. *)
Record launchable (t : node) (goblin : bytes -> result string GoblinElf) (bundle_root : path) (config : BundleConfig) : Prop := {
  la_root : real_dir t bundle_root;
  la_agree : forall q mode content elf info, get t q = Some (Reg mode content) -> goblin content = Ok elf ->
    elf_info q (pc_arch (bc_platform config)) elf = Ok info ->
    exists pie, inspect_elf_for_arch q (Ok (stable content)) (pc_arch (bc_platform config)) =
      Ok (mkElfExecutable (match ei_interpreter info with Some i => DynamicElf i | None => StaticElf end) pie);
  la_interpreter : forall q mode content elf info i, get t q = Some (Reg mode content) -> goblin content = Ok elf ->
    elf_info q (pc_arch (bc_platform config)) elf = Ok info -> ei_interpreter info = Some i -> is_Some (validate_absolute_payload_path i);
  la_separator : forall relative d n, list_element config relative ->
    lookup_node t (join_path bundle_root relative) true = Ok (d, n) -> 58%Z ∉ path_text d;
}.

Lemma lookup_real_dir t p : wf_node t -> real_dir t p -> exists n, lookup_node t p true = Ok (p, n).
Proof.
  intros Hwf (m & cs & Eg). exists (Dir m cs). destruct (decide (p = [])) as [->|Hne].
  { unfold lookup_node, locate. cbn in *. by simplify_eq. }
  pose proof (wf_names _ _ _ Hwf Eg) as Hv. destruct (exists_last Hne) as (k & x & ->). apply Forall_app in Hv as [Hk Hx].
  apply Forall_cons in Hx as [Hx _]. rewrite lookup_real; [by rewrite Eg|done|done| |by rewrite Eg].
  rewrite get_app in Eg. destruct (get t k) as [[| m' cs' |]|] eqn:Ek; try done. by exists m', cs'.
Qed.

Section Launch.
Context (t : node) (names : wf_node t) (root_dir : real_dir t []).
Context (goblin : bytes -> result string GoblinElf) (bundle_root : path) (config : BundleConfig) (La : launchable t goblin bundle_root config)
  (Ty : runtime_typed config).
Context (location : BundleLocation) (at_root : location_root location = bundle_root).

Lemma value_canonicalize p q n : lookup_node t p true = Ok (q, n) -> value t (canonicalize p) = Ok q.
Proof. intros E. cbn. by rewrite E. Qed.
Lemma value_metadata p q n : lookup_node t p true = Ok (q, n) -> value t (metadata p) = Ok (metadata_of n).
Proof. intros E. cbn. by rewrite E. Qed.
Lemma value_read p q mode content : lookup_node t p true = Ok (q, Reg mode content) -> value t (read p) = Ok content.
Proof. intros E. cbn. by rewrite E. Qed.
Lemma value_read_link p q target mtime : lookup_node t p false = Ok (q, Lnk target mtime) -> value t (read_link p) = Ok target.
Proof. intros E. cbn. by rewrite E. Qed.
Lemma root_itself : exists n, lookup_node t bundle_root true = Ok (bundle_root, n).
Proof. apply lookup_real_dir; [done|]. apply La. Qed.

(** The library directories are directories inside the payload. *)
Definition dirs_ok (payload_root : path) : Prop :=
  Forall (fun relative => exists d m cs, lookup_node t (join_path bundle_root relative) true = Ok (d, Dir m cs) /\ payload_root `prefix_of` d)
    (library_dirs (loader config)).
Lemma launch_dirs payload_root : dirs_ok payload_root -> forall index l, l ⊆ library_dirs (loader config) ->
  exists ds, value t (resolve_library_dirs bundle_root payload_root index l) = Ok ds.
Proof.
  intros Hdirs index l. unfold dirs_ok in Hdirs. rewrite Forall_forall in Hdirs. revert index.
  induction l as [|relative l IH]; intros index Hl; cbn [resolve_library_dirs]; [by eexists|].
  assert (relative ∈ library_dirs (loader config)) as Hin by (apply Hl; by left).
  pose proof (ty_libraries _ Ty) as Hs. rewrite Forall_forall in Hs. destruct (Hs _ Hin) as [Hsafe _].
  rewrite (proj2 (validate_relative_spec _ _) Hsafe).
  destruct (Hdirs _ Hin) as (d & m & cs & El & Hp). pose proof (looked_up t names root_dir _ _ _ El true) as Eself.
  rewrite value_try. cbn [value map_err]. rewrite value_try. unfold resolve_inside_payload at 1. rewrite value_try, value_mapping.
  rewrite (value_canonicalize _ _ _ El). cbn [map_err]. unfold path_starts_with. rewrite bool_decide_eq_true_2 by done. cbn [negb value].
  rewrite value_bind. assert (value t (is_dir_path d) = true) as ->.
  { unfold is_dir_path. rewrite value_bind, (value_metadata _ _ _ Eself). done. }
  cbn [negb]. rewrite bool_decide_eq_false_2 by (eapply (la_separator _ _ _ _ La); [by apply library_element|exact El]). rewrite value_try.
  destruct (IH (S index)) as [rest ->]; [intros x Hx; apply Hl; by right|]. by eexists.
Qed.

Context (structure : list ResolvedTool) (payload_root : path) (dirs : list path) (executables : gset ExecState) (libraries : gset LibState).
Context (Cl : startup_closed t goblin bundle_root config structure payload_root dirs executables libraries) (Hdirs : dirs_ok payload_root).

(** A file of the payload that a validated path names. *)
Lemma value_inside field raw relative q : validate_absolute_payload_path raw = Some relative ->
  leads_executable t payload_root (payload_root ++ split_on 47 relative) q ->
  value t (resolve_inside_payload field (join_path payload_root relative) payload_root) = Ok q.
Proof.
  intros Hv (Hin & m & c & El & _). rewrite (join_validated _ _ _ Hv). unfold resolve_inside_payload. rewrite value_try, value_mapping.
  rewrite (value_canonicalize _ _ _ El). cbn [map_err]. unfold path_starts_with. by rewrite bool_decide_eq_true_2.
Qed.
Lemma executable_metadata_of mode content : Z.land mode 0x49 <> 0%Z -> is_executable_file (metadata_of (Reg mode content)) = true.
Proof. intros H. unfold is_executable_file. cbn. destruct (_ =? 0)%Z eqn:E; [by bools|done]. Qed.

Lemma launch_dynamic target argv0 raw relative l linfo arguments : validate_absolute_payload_path raw = Some relative ->
  leads_executable t payload_root (payload_root ++ split_on 47 relative) l -> file_info t goblin (pc_arch (bc_platform config)) l linfo ->
  ei_interpreter linfo = None -> dirs <> [] ->
  exists plan, value t (prepare_dynamic_program location config payload_root target argv0 raw arguments) = Ok plan.
Proof.
  intros Hv Hl (mode & content & elf & El & Hg & Hi) Hn Hne. unfold prepare_dynamic_program. rewrite Hv, value_try, (value_inside _ _ _ _ Hv Hl).
  rewrite value_try, value_mapping, (value_metadata _ _ _ El). cbn [map_err].
  destruct Hl as (Hin & m & c & E & Hx). pose proof (looked_up t names root_dir _ _ _ E true) as E2. rewrite El in E2. simplify_eq.
  rewrite executable_metadata_of by done. cbn [negb]. rewrite value_bind, (value_read _ _ _ _ El).
  destruct (lookup_canonical t _ _ _ names root_dir El) as (Eg & _). destruct (la_agree _ _ _ _ La _ _ _ _ _ Eg Hg Hi) as [pie Hp].
  rewrite value_try. cbn [value]. cbn beta iota. rewrite Hp, Hn. cbn [map_err linkage].
  rewrite bool_decide_eq_false_2.
  2: { intros Hnil. pose proof (sc_dirs _ _ _ _ _ _ _ _ _ Cl) as Hd. rewrite Hnil in Hd. by inversion Hd. }
  rewrite value_try, value_mapping, at_root. destruct root_itself as [n Er]. rewrite (value_canonicalize _ _ _ Er). cbn [map_err].
  rewrite value_try. destruct (launch_dirs payload_root Hdirs 0 (library_dirs (loader config))) as [ds ->]; [done|]. by eexists.
Qed.

Lemma inspected_format p mode content arch format : lookup_node t p true = Ok (p, Reg mode content) ->
  value t (inspect_executable_for_arch p arch) = Ok format ->
  match format with
  | ElfFormat e => inspect_elf_for_arch p (Ok (stable content)) arch = Ok e
  | ScriptFormat s => is_Some (validate_absolute_payload_path (sb_interpreter s))
  end.
Proof.
  intros El. unfold inspect_executable_for_arch. rewrite value_try, value_mapping, (value_read _ _ _ _ El). cbn [map_err].
  destruct (starts_with (127%Z :: lit "ELF") _).
  - rewrite value_bind, (value_read _ _ _ _ El). cbn [value]. intros H. by inv_res.
  - destruct (starts_with (lit "#!") _); [|done]. cbn [value]. intros H. inv_res. by eapply parse_shebang_interpreter.
Qed.

Lemma launch_script shebang q : is_Some (validate_absolute_payload_path (sb_interpreter shebang)) ->
  (exists relative, logical_components (sb_interpreter shebang) = Some relative /\ leads_executable t payload_root (payload_root ++ relative) q) ->
  value t (resolve_script_interpreter payload_root (sb_interpreter shebang)) = Ok q.
Proof.
  intros [raw Hv] (relative & Hr & Hl). rewrite (components_valid _ _ Hv) in Hr. injection Hr as <-. destruct Hl as (Hin & m & c & El & Hx).
  unfold resolve_script_interpreter. rewrite Hv, (join_validated _ _ _ Hv), value_try, value_mapping, (value_canonicalize _ _ _ El). cbn [map_err].
  unfold path_starts_with. rewrite bool_decide_eq_true_2 by done. cbn [negb].
  rewrite value_try, value_mapping, (value_metadata _ _ _ (looked_up t names root_dir _ _ _ El true)). cbn [map_err].
  by rewrite executable_metadata_of.
Qed.

Lemma launch_elf remaining target inherited mode content e argv0 arguments : lookup_node t target true = Ok (target, Reg mode content) ->
  inspect_elf_for_arch target (Ok (stable content)) (pc_arch (bc_platform config)) = Ok e ->
  entry_ok t goblin payload_root dirs (pc_arch (bc_platform config)) target inherited (fun s => s ∈ libraries) ->
  exists plan, value t (prepare_inspected remaining location config payload_root target argv0 arguments (ElfFormat e)) = Ok plan.
Proof.
  intros El He (info & (m & c & elf & El' & Hg & Hi) & Hok). rewrite El in El'. simplify_eq.
  destruct (lookup_canonical t _ _ _ names root_dir El) as (Eg & _). destruct (la_agree _ _ _ _ La _ _ _ _ _ Eg Hg Hi) as [pie Hp].
  rewrite He in Hp. injection Hp as ->.
  assert (forall l, value t (prepare_inspected remaining location config payload_root target argv0 arguments (ElfFormat (mkElfExecutable l pie))) =
    value t match l with
            | StaticElf => Ret (Ok (DirectPlan target argv0 arguments))
            | DynamicElf i => (let? plan := mapping_err DispatchDynamic (prepare_dynamic_program location config payload_root target argv0 i arguments) in
                               Ret (Ok (DynamicPlan plan)))%prog
            end) as -> by (by destruct remaining).
  destruct (ei_interpreter info) as [raw|] eqn:Ei; [|by eexists].
  destruct Hok as (relative & l & linfo & Hr & Hl & Hli & Hn & _ & Hne & _).
  destruct (la_interpreter _ _ _ _ La _ _ _ _ _ _ Eg Hg Hi Ei) as [r Hv]. rewrite (components_valid _ _ Hv) in Hr. injection Hr as <-.
  destruct (launch_dynamic target argv0 _ _ _ _ arguments Hv Hl Hli Hn Hne) as [plan Hplan].
  rewrite value_try, value_mapping, Hplan. by eexists.
Qed.
Lemma launch_inspected remaining : forall depth target inherited format argv0 arguments, (remaining + depth = MAX_SCRIPT_DEPTH)%nat ->
  (target, inherited, depth) ∈ executables -> value t (inspect_executable_for_arch target (pc_arch (bc_platform config))) = Ok format ->
  exists plan, value t (prepare_inspected remaining location config payload_root target argv0 arguments format) = Ok plan.
Proof.
  induction remaining as [|remaining IH]; intros depth target inherited format argv0 arguments Hdepth Hin Hf;
    pose proof (sc_executables _ _ _ _ _ _ _ _ _ Cl _ Hin) as ((_ & mode & content & El & _) & format' & Hf' & Hok);
    rewrite Hf in Hf'; injection Hf' as <-; pose proof (inspected_format _ _ _ _ _ El Hf) as Hformat; destruct format as [e|shebang].
  1,3: by eapply launch_elf.
  - destruct Hok as [Hd _]. lia.
  - destruct Hok as (_ & relative & q & Hr & Hl & Hq & _). cbn [prepare_inspected].
    rewrite value_try, (launch_script shebang q); [|done|by exists relative].
    pose proof (sc_executables _ _ _ _ _ _ _ _ _ Cl _ Hq) as (_ & format & Hfq & _).
    unfold inspect. rewrite value_try, value_mapping, Hfq. cbn [map_err]. apply (IH (S depth) _ inherited); [lia|done|done].
Qed.
End Launch.

(** ** What the layout check has seen *)

Lemma tools_verified t bundle_root location expected l structure :
  value t (verify_tools bundle_root location expected l) = Ok structure ->
  Forall2 (fun '(name, _) tool => value t (resolve_tool location expected name) = Ok tool) l structure.
Proof.
  revert structure. induction l as [|[name config] l IH]; intros structure; cbn [verify_tools]; [intros [= <-]; constructor|].
  intros (tool & Ht & H)%value_try_ok. apply value_try_ok in H as (rest & Hr & H). injection H as <-. constructor; [|by apply IH].
  unfold verify_tool in Ht. apply value_try_ok in Ht as (resolved & Hres & Ht). rewrite value_mapping in Hres. apply map_err_ok in Hres.
  apply value_try_ok in Ht as (format & _ & Ht). apply value_try_ok in Ht as (u & _ & Ht). destruct (visibility config).
  - apply value_try_ok in Ht as (u' & _ & Ht). by injection Ht as <-.
  - rewrite value_bind in Ht. destruct (is_ok _) in Ht; [done|]. by injection Ht as <-.
Qed.
Lemma dirs_verified t bundle_root index l : wf_node t -> real_dir t [] -> value t (each_indexed (verify_library_dir bundle_root) index l) = Ok tt ->
  Forall (fun relative => exists root n d m cs, lookup_node t bundle_root true = Ok (root, n) /\
    lookup_node t (join_path root relative) true = Ok (d, Dir m cs)) l.
Proof.
  intros names root_dir. revert index. induction l as [|relative l IH]; intros index; cbn [each_indexed]; [constructor|].
  intros (u & Hd & H)%value_try_ok. constructor; [|by eapply IH]. unfold verify_library_dir in Hd.
  apply value_try_ok in Hd as (d & Hi & Hd). apply seen_inside in Hi as (root & n & n' & Er & _ & El); [|done..].
  rewrite value_bind in Hd. destruct (value t (is_dir_path d)) eqn:Edir; [|done]. unfold is_dir_path in Edir. rewrite value_bind in Edir.
  rewrite (value_metadata _ _ _ _ (looked_up t names root_dir _ _ _ El true)) in Edir. cbn [value] in Edir. bools.
  destruct n' as [| m cs |]; try done. by exists root, n, d, m, cs.
Qed.
(** The paths of environment rules lead inside the bundle. *)
Definition paths_inside (t : node) (bundle_root : path) (rules : gmap bytes EnvironmentRule) : Prop :=
  map_Forall (fun _ r => Forall (fun relative => exists root n d n', lookup_node t bundle_root true = Ok (root, n) /\
    root `prefix_of` d /\ lookup_node t (join_path root relative) true = Ok (d, n')) (er_paths r)) rules.
Lemma value_each {A} t (f : nat -> A -> prog (result string unit)) l : forall index, value t (each_indexed f index l) = Ok tt ->
  Forall (fun x => exists i, value t (f i x) = Ok tt) l.
Proof.
  induction l as [|x l IH]; intros index; cbn [each_indexed]; [constructor|].
  intros ([] & Hx & H)%value_try_ok. constructor; [by exists index|by eapply IH].
Qed.
Lemma value_try_each {E A} t (f : A -> prog (result E unit)) l : value t (try_each f l) = Ok tt -> Forall (fun x => value t (f x) = Ok tt) l.
Proof. induction l as [|x l IH]; cbn [try_each]; [constructor|]. intros ([] & Hx & H)%value_try_ok. constructor; [done|by apply IH]. Qed.
Lemma paths_verified t bundle_root scope rules : wf_node t -> real_dir t [] ->
  value t (verify_environment_paths bundle_root scope rules) = Ok tt -> paths_inside t bundle_root rules.
Proof.
  intros names root_dir H%value_try_each. apply (entries_Forall (fun _ r => Forall _ (er_paths r))). eapply Forall_impl; [exact H|].
  intros [variable r] Hr%value_each. eapply Forall_impl; [exact Hr|]. intros relative [i Hi]. apply value_try_ok in Hi as (d & Hd & _).
  apply seen_inside in Hd as (root & n & n' & Er & Hp & El); [|done..]. by exists root, n, d, n'.
Qed.

(** What the launcher finds in a bundle whose layout was verified. *)
Record structure_holds (t : node) (toml : bytes -> result string BundleConfig) (bundle_root : path) (config : BundleConfig)
  (structure : list ResolvedTool) (location : BundleLocation) : Prop := {
  sh_config : exists q mode text, lookup_node t (bundle_root ++ [BUNDLE_CONFIG_NAME]) true = Ok (q, Reg mode text) /\
    is_utf8 text = true /\ parse_config toml text = Ok config;
  sh_location : locate_bundle_from_launcher (path_text (bundle_root ++ LAUNCHER_RELATIVE_PATH)) = Ok location;
  sh_tools : Forall2 (fun '(name, _) tool => value t (resolve_tool location config name) = Ok tool) (btree_entries (tools config)) structure;
  sh_dirs : Forall (fun relative => exists root n d m cs, lookup_node t bundle_root true = Ok (root, n) /\
    lookup_node t (join_path root relative) true = Ok (d, Dir m cs)) (library_dirs (loader config));
  sh_environment : paths_inside t bundle_root (bc_environment config);
  sh_tool_environments : map_Forall (fun _ tool => paths_inside t bundle_root (tc_environment tool)) (tools config);
}.
Lemma structure_verified t toml bundle_root config structure : wf_node t -> real_dir t [] ->
  value t (verify_structure toml bundle_root config) = Ok structure -> exists location, structure_holds t toml bundle_root config structure location.
Proof.
  intros names root_dir. unfold verify_structure. intros (u & _ & H)%value_try_ok. apply value_try_ok in H as (text & Htext & H).
  apply value_reporting_ok, seen_read in Htext as (q & mode & Etext).
  destruct (is_utf8 text) eqn:Eutf; [|done]. cbn [negb] in H. apply value_try_ok in H as (on_disk & Hparse & H).
  cbn [value] in Hparse. apply map_err_ok in Hparse. case_bool_decide as Hsame; [|done]. subst on_disk. cbn [negb] in H.
  apply value_try_ok in H as (location & Hl & H). cbn [value] in Hl. apply map_err_ok in Hl.
  apply value_try_ok in H as (resolved & Ht & H). apply value_try_ok in H as ([] & Hd & H).
  apply value_try_ok in H as ([] & He & H). apply value_try_ok in H as ([] & Hte & H). injection H as ->.
  exists location. constructor; [by exists q, mode, text|done|by eapply tools_verified|by eapply dirs_verified|by eapply paths_verified|].
  apply entries_Forall. apply value_try_each in Hte. eapply Forall_impl; [exact Hte|]. intros [name tool] H. by eapply paths_verified.
Qed.

(** ** The environment *)

Section Environment.
Context (t : node) (names : wf_node t) (root_dir : real_dir t []) (bundle_root : path) (n0 : node)
  (at_root : lookup_node t bundle_root true = Ok (bundle_root, n0)).

Definition elements_plain (rules : gmap bytes EnvironmentRule) : Prop :=
  map_Forall (fun _ r => Forall (fun relative => forall d n, lookup_node t (join_path bundle_root relative) true = Ok (d, n) -> 58%Z ∉ path_text d)
    (er_paths r)) rules.

Lemma values_resolved variable paths :
  Forall (fun relative => is_safe_relative_path relative = true) paths ->
  Forall (fun relative => exists root n d n', lookup_node t bundle_root true = Ok (root, n) /\ root `prefix_of` d /\
    lookup_node t (join_path root relative) true = Ok (d, n')) paths ->
  Forall (fun relative => forall d n, lookup_node t (join_path bundle_root relative) true = Ok (d, n) -> 58%Z ∉ path_text d) paths ->
  exists values, value t (resolve_bundle_values bundle_root variable paths) = Ok values.
Proof.
  intros Hs Hi Hp. induction paths as [|relative paths IH]; cbn [resolve_bundle_values]; [by eexists|].
  inversion_clear Hs as [|? ? Hs1 Hs2]. inversion_clear Hi as [|? ? Hi1 Hi2]. inversion_clear Hp as [|? ? Hp1 Hp2].
  destruct Hi1 as (root & n & d & n' & Er & Hin & El). rewrite at_root in Er. simplify_eq.
  rewrite value_try. cbn [value]. rewrite (proj2 (validate_relative_spec _ _) Hs1). cbn [map_err].
  rewrite value_try, value_mapping, (value_canonicalize _ _ _ _ El). cbn [map_err]. unfold path_starts_with.
  rewrite bool_decide_eq_true_2 by done. cbn [negb]. rewrite bool_decide_eq_false_2 by (by eapply Hp1).
  rewrite value_try. destruct (IH Hs2 Hi2 Hp2) as [values ->]. by eexists.
Qed.
Lemma rules_applied scope rules e : map_Forall rule_typed rules -> paths_inside t bundle_root rules -> elements_plain rules ->
  exists e', value t (apply_rules bundle_root scope (btree_entries rules) e) = Ok e'.
Proof.
  unfold paths_inside, elements_plain. rewrite <- !entries_Forall. intros Hty Hin Hp. revert e.
  induction (btree_entries rules) as [|[variable r] l IH]; intros e; cbn [apply_rules]; [by eexists|].
  apply Forall_cons in Hty as [[Hv Hs] Hty], Hin as [Hin1 Hin], Hp as [Hp1 Hp].
  rewrite value_try. cbn [value]. rewrite Hv. cbn [map_err]. rewrite value_try. unfold configured_values.
  destruct (er_paths r) as [|p ps] eqn:Ep; [by apply IH|].
  destruct (values_resolved variable (p :: ps) Hs Hin1 Hp1) as [values ->]. by apply IH.
Qed.
End Environment.

(** ** The composition *)

Lemma reads_value {A} t (m : prog A) (Q : A -> Prop) : reads t m Q -> Q (value t m).
Proof.
  intros H. destruct (reads_run t m Q (mkActor 0 0) [] (mkWorld t ∅ ∅) H eq_refl) as [HQ _].
  by rewrite (run_value t m Q (mkActor 0 0) (mkWorld t ∅ ∅) H eq_refl) in HQ.
Qed.

Section Prepared.
Context (t : node).
Lemma any_dynamic location bundle payload_root target argv0 interpreter arguments :
  reads t (prepare_dynamic_program location bundle payload_root target argv0 interpreter arguments) (fun _ => True).
Proof.
  unfold prepare_dynamic_program, resolve_inside_payload. any.
  generalize 0%nat. induction (library_dirs (loader bundle)) as [|relative ds IH]; intros index; cbn [resolve_library_dirs]; [done|].
  unfold resolve_inside_payload, is_dir_path. any. apply IH.
Qed.
Lemma any_prepare location bundle tool arguments : reads t (prepare_tool_launch location bundle tool arguments) (fun _ => True).
Proof.
  unfold prepare_tool_launch, inspect. any; [apply any_inspect|].
  generalize (rt_target tool), (tc_argv0 (rt_config tool)), (rt_argument_prefix tool ++ arguments).
  revert a. induction MAX_SCRIPT_DEPTH as [|remaining IH]; intros [e|s] target argv0 args; cbn [prepare_inspected].
  1,3: any; apply any_dynamic.
  - done.
  - unfold resolve_script_interpreter, inspect. any; [apply any_inspect|apply IH].
Qed.
Lemma any_arguments name root index l : reads t (resolve_arguments name root index l) (fun _ => True).
Proof.
  revert index. induction l as [|[value|p] l IH]; intros index; cbn [resolve_arguments]; [done| |]; unfold tool_canonicalize; any; apply IH.
Qed.
Lemma any_resolve location bundle name : reads t (resolve_tool location bundle name) (fun _ => True).
Proof. unfold resolve_tool, tool_canonicalize. any. apply any_arguments. Qed.
Lemma any_inside bundle_root relative field : reads t (resolve_inside_bundle bundle_root relative field) (fun _ => True).
Proof. unfold resolve_inside_bundle. any. Qed.
Lemma any_wrapper p target kind tool : reads t (verify_wrapper p target kind tool) (fun _ => True).
Proof. unfold verify_wrapper, read_link. any. Qed.
Lemma any_each {A} (f : nat -> A -> prog (result string unit)) l : (forall i x, reads t (f i x) (fun _ => True)) ->
  forall index, reads t (each_indexed f index l) (fun _ => True).
Proof. intros Hf. induction l as [|x l IH]; intros index; cbn [each_indexed]; any; [apply Hf|apply IH]. Qed.
Lemma any_try_each {E A} (f : A -> prog (result E unit)) l : (forall x, reads t (f x) (fun _ => True)) -> reads t (try_each f l) (fun _ => True).
Proof. intros Hf. induction l as [|x l IH]; cbn [try_each]; any; [apply Hf|apply IH]. Qed.
Lemma any_environment bundle_root scope rules : reads t (verify_environment_paths bundle_root scope rules) (fun _ => True).
Proof. apply any_try_each. intros [variable rule]. apply any_each. intros i p. any. apply any_inside. Qed.
Lemma any_structure toml bundle_root config : reads t (verify_structure toml bundle_root config) (fun _ => True).
Proof.
  unfold verify_structure, verify_launcher. any.
  - induction (btree_entries (tools config)) as [|[name c] tools IH]; cbn [verify_tools]; any; [|apply IH].
    unfold verify_tool. any; first [apply any_resolve|apply any_inspect|apply any_wrapper].
  - apply any_each. intros i d. unfold verify_library_dir, is_dir_path. any. apply any_inside.
  - apply any_environment.
  - apply any_try_each. intros [name c]. apply any_environment.
Qed.
End Prepared.

Lemma dirs_inside t goblin bundle_root config structure payload_root dirs executables libraries :
  wf_node t -> launchable t goblin bundle_root config ->
  startup_closed t goblin bundle_root config structure payload_root dirs executables libraries ->
  Forall (fun relative => exists root n d m cs, lookup_node t bundle_root true = Ok (root, n) /\
    lookup_node t (join_path root relative) true = Ok (d, Dir m cs)) (library_dirs (loader config)) ->
  dirs_ok t bundle_root config payload_root.
Proof.
  intros names La Cl Hd. unfold dirs_ok. rewrite Forall_forall in *. intros relative Hin.
  destruct (Hd _ Hin) as (root & n & d & m & cs & Er & El). destruct (lookup_real_dir t bundle_root names (la_root _ _ _ _ La)) as [n0 E0].
  rewrite E0 in Er. simplify_eq. exists d, m, cs. split; [done|]. apply list_elem_of_lookup in Hin as [i Hi].
  destruct (Forall2_lookup_l _ _ _ _ _ (sc_dirs _ _ _ _ _ _ _ _ _ Cl) Hi) as (d' & _ & Hp & root' & n' & n'' & Er' & _ & El').
  rewrite E0 in Er'. simplify_eq. by rewrite El in El'; simplify_eq.
Qed.

Lemma tool_launches t goblin bundle_root config structure payload_root dirs executables libraries location name tool arguments :
  wf_node t -> real_dir t [] -> launchable t goblin bundle_root config -> runtime_typed config ->
  startup_closed t goblin bundle_root config structure payload_root dirs executables libraries ->
  dirs_ok t bundle_root config payload_root -> location_root location = bundle_root ->
  value t (resolve_tool location config name) = Ok tool -> tool ∈ structure ->
  exists launch, value t (prepare_tool_launch location config tool arguments) = Ok launch.
Proof.
  intros names root_dir La Ty Cl Hdirs at_root Hr Hin.
  pose proof (reads_value t _ _ (reads_resolve_tool t names root_dir location config name)) as Ht. rewrite Hr in Ht.
  destruct Ht as [_ (root & [n Er] & [n' Ep] & _) [p Hp] _ _]. destruct (root_itself t names goblin bundle_root config La) as [n0 E0].
  rewrite at_root, E0 in Er. simplify_eq. destruct (sc_payload _ _ _ _ _ _ _ _ _ Cl) as [n1 Ep']. rewrite Ep in Ep'. simplify_eq.
  destruct (sc_tools _ _ _ _ _ _ _ _ _ Cl _ Hin) as (q & (Hpre & mode & content & El & _) & Hq).
  apply (canonical_get t names root_dir) in Hp as (nt & _ & Hself). rewrite Hself in El. simplify_eq.
  pose proof (sc_executables _ _ _ _ _ _ _ _ _ Cl _ Hq) as (_ & format & Hf & _).
  unfold prepare_tool_launch, inspect. rewrite value_try, value_mapping, Hf. cbn [map_err]. rewrite value_try.
  assert (exists plan, value t (prepare_inspected MAX_SCRIPT_DEPTH location config (rt_payload_root tool) (rt_target tool)
    (tc_argv0 (rt_config tool)) (rt_argument_prefix tool ++ arguments) format) = Ok plan) as [plan Hplan].
  { eapply launch_inspected; [exact names|exact root_dir|exact La|exact Ty|done|exact Cl|exact Hdirs| |exact Hq|exact Hf]. by rewrite Nat.add_0_r. }
  rewrite Hplan. by eexists.
Qed.

Lemma environment_built t goblin toml bundle_root config structure location name tool host :
  wf_node t -> real_dir t [] -> launchable t goblin bundle_root config -> runtime_typed config ->
  structure_holds t toml bundle_root config structure location -> location_root location = bundle_root ->
  tools config !! name = Some (rt_config tool) ->
  exists e, value t (build_environment location config tool host) = Ok e.
Proof.
  intros names root_dir La Ty Sh at_root Hn. destruct (lookup_real_dir t bundle_root names (la_root _ _ _ _ La)) as [n0 E0].
  unfold build_environment. rewrite value_try, value_mapping, at_root, (value_canonicalize _ _ _ _ E0). cbn [map_err]. rewrite value_try.
  edestruct (rules_applied t bundle_root n0 E0 CommonOrigin (bc_environment config) (host_environment host)) as [common ->].
  { apply Ty. } { apply Sh. }
  { intros variable r Hr. apply Forall_forall. intros relative Hin d n El. eapply (la_separator _ _ _ _ La); [|exact El]. by eapply common_element. }
  destruct (ty_tools _ Ty _ _ Hn) as (_ & _ & _ & _ & _ & _ & Hrules).
  apply (rules_applied t bundle_root n0 E0); [done|by eapply (sh_tool_environments _ _ _ _ _ _ Sh)|].
  intros variable r Hr. apply Forall_forall. intros relative Hin d n El. eapply (la_separator _ _ _ _ La); [|exact El]. by eapply tool_element.
Qed.

Lemma any_rules t root scope rules e : reads t (apply_rules root scope rules e) (fun _ => True).
Proof.
  revert e. induction rules as [|[variable r] rules IH]; intros e; cbn [apply_rules]; any; [|apply IH]. unfold configured_values. any.
  match goal with |- context [resolve_bundle_values _ _ ?l] => induction l as [|relative paths IHp] end; cbn [resolve_bundle_values]; any; apply IHp.
Qed.
Lemma any_launcher t toml current uname args host : reads t (launcher_main toml current uname args host) (fun _ => True).
Proof.
  unfold launcher_main, or_exit, read_bundle_config, read_link, build_environment. any;
    first [apply any_resolve|apply any_prepare|apply any_rules].
Qed.

(** What the launcher comes to, on a bundle that was verified. *)
Lemma launcher_value t toml goblin bundle_root config structure payload_root dirs executables libraries location current uname check args invocation host :
  wf_node t -> real_dir t [] -> launchable t goblin bundle_root config -> runtime_typed config ->
  startup_closed t goblin bundle_root config structure payload_root dirs executables libraries ->
  structure_holds t toml bundle_root config structure location ->
  (exists q mtime, lookup_node t PROC_SELF_EXE false = Ok (q, Lnk (path_text (bundle_root ++ LAUNCHER_RELATIVE_PATH)) mtime)) ->
  check_host_platform current uname (bc_platform config) = Some (Ok check) -> is_compatible check = true ->
  parse_invocation args = Ok invocation -> is_diagnose invocation = false -> is_Some (tools config !! invocation_tool invocation) ->
  exists request, value t (launcher_main toml current uname args host) = Executed request.
Proof.
  intros names root_dir La Ty Cl Sh (q & mtime & Eexe) Hcheck Hcompatible Hargs Hrun [c Hn].
  assert (location_root location = bundle_root) as at_root.
  { destruct (la_root _ _ _ _ La) as (m & cs & Eg). destruct (located bundle_root (wf_names _ _ _ names Eg)) as (location' & Hl' & <-).
    rewrite (sh_location _ _ _ _ _ _ Sh) in Hl'. by simplify_eq. }
  pose proof (dirs_inside _ _ _ _ _ _ _ _ _ names La Cl (sh_dirs _ _ _ _ _ _ Sh)) as Hdirs.
  pose proof Hn as [i Hi]%btree_entries_elem%list_elem_of_lookup.
  destruct (Forall2_lookup_l _ _ _ _ _ (sh_tools _ _ _ _ _ _ Sh) Hi) as (tool & Hi' & Hr). apply list_elem_of_lookup_2 in Hi'.
  destruct (tool_launches _ _ _ _ _ _ _ _ _ _ _ _ (invocation_args invocation) names root_dir La Ty Cl Hdirs at_root Hr Hi') as [launch Hlaunch].
  pose proof (reads_value t _ _ (reads_resolve_tool t names root_dir location config (invocation_tool invocation))) as Htool.
  rewrite Hr in Htool. destruct (environment_built t goblin toml bundle_root config structure location _ tool host names root_dir La Ty Sh at_root
    (to_config _ _ _ _ _ Htool)) as [environment He].
  destruct (sh_config _ _ _ _ _ _ Sh) as (qc & mode & text & Etext & Hutf & Hparse).
  unfold launcher_main, or_exit. rewrite value_bind. cbn [value]. rewrite Hargs. rewrite value_bind.
  assert (value t (mapping_err ReadCurrentExecutable (read_link PROC_SELF_EXE)) = Ok (path_text (bundle_root ++ LAUNCHER_RELATIVE_PATH))) as Hexe.
  { by rewrite value_mapping, (value_read_link _ _ _ _ _ Eexe). }
  unfold PROC_SELF_EXE in Hexe. rewrite Hexe. rewrite value_bind. cbn [value]. rewrite (sh_location _ _ _ _ _ _ Sh). rewrite value_bind.
  unfold location_config. rewrite at_root. unfold read_bundle_config. rewrite value_try, value_mapping, (value_read _ _ _ _ _ Etext). cbn [map_err value].
  rewrite Hutf, Hparse, Hcheck. rewrite value_bind. cbn [value]. rewrite Hrun, Hcompatible. cbn [negb andb].
  rewrite value_bind, Hr, value_bind, He, value_bind, Hlaunch.
  assert (diagnostic_output invocation = None) as -> by (by destruct invocation). by eexists.
Qed.

(** C15. A verified bundle runs.  Let a bundle be configured by a declaration that
    lowers, and let both checks of the builder succeed on it.  On a tree on which no
    call fails, and a host that satisfies the bundle's requirements, the launcher
    started from that bundle, asked to run any of its tools with any arguments in any
    environment, comes to executing a program: it finds the bundle and its
    configuration, resolves the tool, builds the environment and prepares the launch
    through scripts, loader and library directories.  Asked of the bundle besides: that
    the launcher's inspection and the builder's parser agree on its ELF files, and that
    interpreters and the elements of path lists are plain ([launchable]). *)
Theorem verified_bundle_runs toml goblin bundle_root declaration has_overrides config structure current uname check args invocation host who w :
  wf_node (tree w) -> real_dir (tree w) [] -> launchable (tree w) goblin bundle_root config ->
  lower_runtime_config declaration has_overrides = Ok config ->
  (run who [] (verify_structure toml bundle_root config) w).1 = Ok structure ->
  (run who [] (verify_startup_closure goblin bundle_root config structure) w).1 = Ok tt ->
  (exists q mtime, lookup_node (tree w) PROC_SELF_EXE false = Ok (q, Lnk (path_text (bundle_root ++ LAUNCHER_RELATIVE_PATH)) mtime)) ->
  check_host_platform current uname (bc_platform config) = Some (Ok check) -> is_compatible check = true ->
  parse_invocation args = Ok invocation -> is_diagnose invocation = false -> is_Some (tools config !! invocation_tool invocation) ->
  exists request, run who [] (launcher_main toml current uname args host) w = (Executed request, w).
Proof.
  intros names root_dir La Hlow Hs Hc (q & mtime & Eexe) Hcheck Hcompatible Hargs Hrun [c Hn].
  rewrite (run_value _ _ _ who w (any_structure _ toml bundle_root config) eq_refl) in Hs.
  rewrite (run_value _ _ _ who w (reads_startup _ goblin bundle_root config structure) eq_refl) in Hc.
  rewrite (run_value _ _ _ who w (any_launcher _ toml current uname args host) eq_refl).
  cbn [fst] in Hs, Hc. enough (exists request, value (tree w) (launcher_main toml current uname args host) = Executed request) as [request ->] by (by eexists).
  apply lowering_iff in Hlow as [Ha ->]. apply lowered_typed in Ha as Ty.
  destruct (startup_closure_seen _ _ _ _ _ names root_dir Hc) as (payload_root & dirs & executables & libraries & Cl).
  destruct (structure_verified _ _ _ _ _ names root_dir Hs) as [location Sh].
  eapply launcher_value; [done|done|exact La|exact Ty|exact Cl|exact Sh|by exists q, mtime|done..|by exists c].
Qed.
