(* ===== verification/BundleToy.v ===== *)
(** * A small bundle

    [BundleExamples]: a bundle with a script whose interpreter is a dynamically linked
    program, and the run of the launcher on it: the setting of the witnesses of the
    launcher's properties.  [BundleVerifyExamples]: the same bundle as it is staged,
    with a static launcher and a C library that its interpreter needs, and its audit. *)

From S2P Require Import Prelude Errors Text Posix Elf BundleConfig BundleLaunch Reading BundleSafety HostBundle BundleVerify BundleVerifyFacts.
From S2P Require Import BundleLaunches.

Module BundleExamples.

Definition static_elf : bytes :=
  [127; 69; 76; 70; 2; 1; 1]%Z ++ repeat 0%Z 9 ++ ElfExamples.le 2 2 ++ ElfExamples.le 2 62 ++ ElfExamples.le 4 1
  ++ repeat 0%Z 8 ++ ElfExamples.le 8 64 ++ repeat 0%Z 12 ++ ElfExamples.le 2 64 ++ ElfExamples.le 2 56
  ++ ElfExamples.le 2 0 ++ repeat 0%Z 6.

Definition dir (l : list (string * node)) : node := Dir 0x1ed (map (fun '(c, n) => (lit c, n)) l).
Definition exe (content : bytes) : node := Reg 0x1ed content.

(** The payload: a script, its interpreter behind a link, the loader and its
    libraries. *)
Definition payload : node :=
  dir [("usr", dir [("bin", dir [("hello", exe (lit "#!/bin/sh -e" ++ [10]%Z)); ("dash", exe ElfExamples.sample)])]);
       ("bin", dir [("sh", Lnk (lit "../usr/bin/dash") 0)]);
       ("lib", dir [("ld.so", exe static_elf)])].

Definition files : node :=
  dir [("proc", dir [("self", dir [("exe", Lnk (lit "/opt/demo/libexec/bobr-bundle-launcher") 0)])]);
       ("opt", dir [("demo", Lnk (lit "demo-1") 0);
                    ("demo-1", dir [("bundle.toml", Reg 0x1a4 (lit "demo"));
                                    ("libexec", dir [("bobr-bundle-launcher", exe [])]);
                                    ("root", payload)])])].

Definition config : BundleConfig :=
  mkBundleConfig BUNDLE_FORMAT_V2 (lit "root") Strict (mkPlatformConfig Linux X86_64 (lit "4.19"))
    (mkLoaderConfig Glibc [lit "root/lib"] true)
    {[ lit "PATH" := mkEnvironmentRule Prepend [lit "root/usr/bin"] [] true [] ]}
    {[ lit "hello" := mkToolConfig (lit "root/usr/bin/hello") (lit "hello") Public [LiteralArgument (lit "-q")] ∅ ]}.

Definition toml (text : bytes) : result string BundleConfig :=
  if bytes_eqb text (lit "demo") then Ok config else Err "not the demo".

Definition host : list (bytes * bytes) :=
  [(lit "PATH", lit "/bin"); (lit "LD_PRELOAD", lit "/tmp/evil.so"); (lit "HOME", lit "/home/me")].
Definition args : list bytes := [lit "/usr/local/bin/hello"; lit "world"].
Definition world : World := mkWorld files ∅ ∅.
Definition me : Actor := mkActor 0 1.

Definition request : ExecRequest :=
  mkExecRequest [lit "opt"; lit "demo-1"; lit "root"; lit "lib"; lit "ld.so"]
    [lit "/opt/demo-1/root/lib/ld.so"; lit "--inhibit-cache"; lit "--argv0"; lit "/bin/sh"; lit "--library-path";
     lit "/opt/demo-1/root/lib"; lit "/opt/demo-1/root/usr/bin/dash"; lit "-e"; lit "/opt/demo-1/root/usr/bin/hello";
     lit "-q"; lit "world"]
    [(lit "HOME", lit "/home/me"); (lit "PATH", lit "/opt/demo-1/root/usr/bin:/bin")].

Example demo_runs :
  run me [] (launcher_main toml (Some X86_64) (Ok (lit "6.1.0-18-amd64")) args host) world = (Executed request, world).
Proof. by vm_compute. Qed.

Fixpoint wf_nodeb (n : node) : bool :=
  match n with
  | Dir _ cs =>
      (fix all (l : list (bytes * node)) : bool :=
         match l with
         | [] => true
         | (c, m) :: l' => plain_part c && negb (bool_decide (47%Z ∈ c)) && wf_nodeb m && all l'
         end) cs
  | _ => true
  end.
Fixpoint sizedb (n : node) : bool :=
  match n with
  | Dir _ cs => forallb (fun e => sizedb e.2) cs
  | Reg _ content => wf_bytesb content && (len content <=? U64_MAX)%Z
  | _ => true
  end.

Lemma wf_nodeb_ok n : wf_nodeb n = true -> wf_node n.
Proof.
  induction n as [|m cs IH|] using node_nested_ind; intros H; [done| |done]. apply wf_dir. cbn [wf_nodeb] in H.
  induction IH as [|[c x] cs Hx IHcs IH]; [constructor|]. bools. constructor; [|by apply IH].
  split; [|by apply Hx]. cbn. unfold plain_part in *. bools. by repeat split.
Qed.

Lemma sizedb_ok n : sizedb n = true -> files_sized n.
Proof.
  induction n as [m c|m cs IH|] using node_nested_ind; intros H p mode content Hg.
  - destruct p; [|done]. cbn in Hg. simplify_eq. cbn [sizedb] in H. bools. split; [by apply wf_bytesb_spec|done].
  - destruct p as [|d p]; [done|]. cbn [get] in Hg. destruct (assoc d cs) as [x|] eqn:E; [|done].
    apply assoc_elem in E. cbn [sizedb] in H. rewrite forallb_forall in H. rewrite Forall_forall in IH.
    apply (IH _ E (H _ (proj1 (list_elem_of_In _ _) E)) p mode content Hg).
  - by destruct p.
Qed.

Lemma launch_confined_witness : launch_ok files toml (Some X86_64) (Ok (lit "6.1.0-18-amd64")) args host request.
Proof.
  pose proof (launch_confined toml (Some X86_64) (Ok (lit "6.1.0-18-amd64")) args host me [] world
    (wf_nodeb_ok files ltac:(by vm_compute)) ltac:(by exists 0x1ed%Z; eexists) (sizedb_ok files ltac:(by vm_compute))) as H.
  rewrite demo_runs in H. apply H.
Defined.

Definition demo_tool : ResolvedTool :=
  mkResolvedTool (lit "hello") [] [] [] (mkToolConfig [] [] Public [] {[ lit "HOME" := mkEnvironmentRule Append [] [lit "x"] true [] ]}).
Definition demo_location : BundleLocation := mkBundleLocation [RootDir; Normal (lit "opt"); Normal (lit "demo")] [].
Definition demo_environment : ProcessEnvironment :=
  mkProcessEnvironment
    {[ lit "PATH" := lit "/opt/demo-1/root/usr/bin:/bin"; lit "HOME" := lit "/home/me:x" ]}
    {[ lit "PATH" := [HostOrigin; CommonOrigin Prepend]; lit "HOME" := [HostOrigin; ToolOrigin Append] ]}.

Lemma environment_accounted_witness :
  (run me [] (build_environment demo_location config demo_tool host) world).1 = Ok demo_environment /\
  accounted host demo_environment.
Proof.
  assert (E : (run me [] (build_environment demo_location config demo_tool host) world).1 = Ok demo_environment)
    by (by vm_compute).
  exact (conj E (environment_accounted _ _ _ _ _ _ _ _ E)).
Defined.
End BundleExamples.

Module BundleVerifyExamples.
Import BundleExamples.

(** An executable with an interpreter. *)
Definition dynamic_elf (interpreter : bytes) : bytes :=
  [127; 69; 76; 70; 2; 1; 1]%Z ++ repeat 0%Z 9 ++ ElfExamples.le 2 3 ++ ElfExamples.le 2 62 ++ ElfExamples.le 4 1
  ++ repeat 0%Z 8 ++ ElfExamples.le 8 64 ++ repeat 0%Z 12 ++ ElfExamples.le 2 64 ++ ElfExamples.le 2 56 ++ ElfExamples.le 2 1
  ++ repeat 0%Z 6 ++ ElfExamples.le 4 3 ++ repeat 0%Z 4 ++ ElfExamples.le 8 120 ++ repeat 0%Z 16
  ++ ElfExamples.le 8 (len interpreter + 1) ++ repeat 0%Z 16 ++ interpreter ++ [0]%Z.
Definition libc_elf : bytes := static_elf ++ lit "libc".

(** The [goblin] of the example knows the files of the example. *)
Definition goblin_of (interpreter : bytes) (b : bytes) : result string GoblinElf :=
  if bytes_eqb b (dynamic_elf interpreter) then
    Ok (mkGoblinElf true true 62 (Some [(Some (lit "libc.so.6"), [Some (lit "GLIBC_2.34")])]) None (Some interpreter)
          [lit "libc.so.6"] [] [lit "$ORIGIN/../lib"] None)
  else if bytes_eqb b static_elf then Ok (mkGoblinElf true true 62 None None None [] [] [] None)
  else if bytes_eqb b libc_elf then
    Ok (mkGoblinElf true true 62 None (Some [[Some (lit "libc.so.6")]; [Some (lit "GLIBC_2.34"); Some (lit "GLIBC_2.2.5")]]) None
          [] [] [] (Some (lit "libc.so.6")))
  else Err "bad magic number".

Definition goblin : bytes -> result string GoblinElf := goblin_of (lit "/lib/ld.so").

Definition bundle (interpreter : bytes) (libraries : list (string * node)) : node :=
  dir [("proc", dir [("self", dir [("exe", Lnk (lit "/opt/demo/libexec/bobr-bundle-launcher") 0)])]);
       ("opt", dir [("demo", dir [("bundle.toml", Reg 0x1a4 (lit "demo"));
         ("libexec", dir [("bobr-bundle-launcher", exe static_elf); ("wrapped-bin", dir [("hello", Lnk (lit "../bobr-bundle-launcher") 0)])]);
         ("bin", dir [("hello", Lnk (lit "../libexec/bobr-bundle-launcher") 0)]);
         ("root", dir [("usr", dir [("bin", dir [("hello", exe (lit "#!/bin/sh -e" ++ [10]%Z)); ("dash", exe (dynamic_elf interpreter))])]);
                       ("bin", dir [("sh", Lnk (lit "../usr/bin/dash") 0)]);
                       ("lib", dir (("ld.so", exe static_elf) :: libraries))])])])].
Definition bundle_root : path := [lit "opt"; lit "demo"].
Definition declaration : HostBundleConfig :=
  mkHostBundleConfig X86_64 Strict (lit "4.19") [lit "lib"]
    {[ lit "hello" := mkHostBundleToolConfig (lit "usr/bin/hello") None [DeclaredLiteral (lit "-q")] ∅ ]} ∅ ∅.
Definition hello : ToolConfig := mkToolConfig (lit "root/usr/bin/hello") (lit "hello") Public [LiteralArgument (lit "-q")] ∅.
Definition config : BundleConfig :=
  mkBundleConfig BUNDLE_FORMAT_V2 (lit "root") Strict (mkPlatformConfig Linux X86_64 (lit "4.19"))
    (mkLoaderConfig Glibc [lit "root/lib"] true) {[ PATH_VARIABLE := wrapped_path_rule ]} {[ lit "hello" := hello ]}.
Definition toml (text : bytes) : result string BundleConfig := if bytes_eqb text (lit "demo") then Ok config else Err "not the demo".

Example declaration_lowered : lower_runtime_config declaration false = Ok config.
Proof. by vm_compute. Qed.
(** Paths of an input that is not there. *)
Example missing_overrides : lower_path "p" (OverridesPath (lit "etc")) false = Err (MissingOverridesInput "p" (lit "etc")).
Proof. done. Qed.

Definition staged : World := mkWorld (bundle (lit "/lib/ld.so") [("libc.so.6", exe libc_elf)]) ∅ ∅.
Definition structure : list ResolvedTool :=
  [mkResolvedTool (lit "hello") (bundle_root ++ [lit "root"; lit "usr"; lit "bin"; lit "hello"]) (bundle_root ++ [lit "root"])
     [lit "-q"] hello].

Example staged_structure : (run me [] (verify_structure toml bundle_root config) staged).1 = Ok structure.
Proof. by vm_compute. Qed.
Example closure_verified : (run me [] (verify_startup_closure goblin bundle_root config structure) staged).1 = Ok tt.
Proof. by vm_compute. Qed.

(** A library that is not there. *)
Example missing_library : exists message,
  (run me [] (verify_startup_closure goblin bundle_root config structure) (mkWorld (bundle (lit "/lib/ld.so") []) ∅ ∅)).1 = Err (Refused message).
Proof. eexists. by vm_compute. Qed.

Definition location : BundleLocation :=
  mkBundleLocation [RootDir; Normal (lit "opt"); Normal (lit "demo")] (lit "/opt/demo/libexec/bobr-bundle-launcher").

(** An interpreter that both checks of the builder accept and the launcher does not:
    one with an empty component. *)
Definition odd : World := mkWorld (bundle (lit "/lib//ld.so") [("libc.so.6", exe libc_elf)]) ∅ ∅.
Example odd_interpreter_verified :
  (run me [] (verify_structure toml bundle_root config) odd).1 = Ok structure /\
  (run me [] (verify_startup_closure (goblin_of (lit "/lib//ld.so")) bundle_root config structure) odd).1 = Ok tt /\
  (run me [] (let? tool := mapping_err (fun _ => DispatchPanic) (resolve_tool location config (lit "hello")) in
              prepare_tool_launch location config tool [])%prog odd).1 = Err (DispatchDynamic (InvalidElfInterpreter (lit "/lib//ld.so"))).
Proof. split; [by vm_compute|]. split; by vm_compute. Qed.

Lemma wf_staged : wf_node (tree staged).
Proof. apply wf_nodeb_ok. by vm_compute. Qed.
Lemma root_staged : real_dir (tree staged) [].
Proof. by exists 0x1ed%Z; eexists. Qed.

Lemma startup_closure_sound_witness : exists payload_root dirs executables libraries,
  startup_closed (tree staged) goblin bundle_root config structure payload_root dirs executables libraries.
Proof.
  apply (startup_closure_sound goblin bundle_root config structure me staged); [apply wf_staged|apply root_staged|].
  exact closure_verified.
Defined.
Lemma staged_launchable : launchable (tree staged) goblin bundle_root config.
Proof.
  assert (forall content elf, goblin content = Ok elf -> content = dynamic_elf (lit "/lib/ld.so") \/ content = static_elf \/ content = libc_elf) as Hg.
  { intros content elf. unfold goblin, goblin_of. intros H.
    repeat (destruct (bytes_eqb content _) eqn:E in H; [bools; by auto|clear E]). done. }
  constructor.
  - eexists _, _. by vm_compute.
  - intros q mode content elf info _ H Hi. destruct (Hg _ _ H) as [->|[->| ->]]; vm_compute in H; injection H as <-; vm_compute in Hi;
      injection Hi as <-; eexists; by vm_compute.
  - intros q mode content elf info i _ H Hi Hn. destruct (Hg _ _ H) as [->|[->| ->]]; vm_compute in H; injection H as <-; vm_compute in Hi;
      injection Hi as <-; [injection Hn as <-|discriminate Hn..]; eexists; by vm_compute.
  - assert (forall relative, list_element config relative -> relative = lit "root/lib" \/ relative = WRAPPED_BIN_PATH) as Hl.
    { intros relative [? Hin|? ? ? Hr Hin|? ? ? ? ? Ht Hr Hin]; cbn in *.
      - left. by apply list_elem_of_singleton in Hin.
      - apply lookup_singleton_Some in Hr as [_ <-]. right. by apply list_elem_of_singleton in Hin.
      - apply lookup_singleton_Some in Ht as [_ <-]. done. }
    intros relative d n [->| ->]%Hl H; vm_compute in H; injection H as <- _; apply (bool_decide_eq_true_1 _); by vm_compute.
Qed.
Definition uname : result IoError bytes := Ok (lit "6.1.0-18-amd64").
Lemma verified_bundle_runs_witness : exists request, run me [] (launcher_main toml (Some X86_64) uname args host) staged = (Executed request, staged).
Proof.
  apply (verified_bundle_runs toml goblin bundle_root declaration false config structure (Some X86_64) uname
    (mkHostPlatformCheck (lit "6.1.0-18-amd64") true true true) args (MultiCall (lit "hello") [lit "world"]) host me staged);
    [apply wf_staged|apply root_staged|apply staged_launchable|exact declaration_lowered|exact staged_structure|exact closure_verified
    |by eexists _, _; vm_compute|by vm_compute|done|by vm_compute|done|by eexists].
Defined.
End BundleVerifyExamples.
