(* ===== verification/Http.v ===== *)
(** * Downloads over HTTP

    [bobr-source/src/http.rs] and the transport of
    [bobr-source/src/acquisition/engine.rs]: errors and whether they are worth
    another attempt, the retry policy and its delays, the record of a URL across
    the passes of a mirror walk, one download from the response to the file, the
    declaration of an [Http] origin, and unpacking of what was downloaded.

    A [Duration] is its number of nanoseconds.  The hasher of the Standard Library
    (whose algorithm is unspecified), the product of a duration and a float, the
    texts of errors of the transport, and the [zip] crate are parameters. *)

From S2P Require Import Prelude Errors Posix Json Subjects Elf.
From Stdlib Require Import QArith Lqa.
Local Open Scope Z_scope.

(** ** Durations *)

Abbreviation Duration := Z (only parsing).
Definition NANOS_PER_SEC : Z := 1000000000.
Definition DURATION_MAX : Duration := 2 ^ 64 * NANOS_PER_SEC - 1.
Definition from_secs (secs : u64) : Duration := secs * NANOS_PER_SEC.
Definition from_millis (millis : u64) : Duration := millis * 1000000.
Definition duration_saturating_mul (d : Duration) (n : u32) : Duration := Z.min (d * n) DURATION_MAX.
Definition duration_saturating_add (d e : Duration) : Duration := Z.min (d + e) DURATION_MAX.

Definition REDIRECT_LIMIT : usize := 10.
Definition HTTP_CONNECT_TIMEOUT : Duration := from_secs 30.
Definition HTTP_OPERATION_TIMEOUT : Duration := from_secs 60.
Definition HTTP_RETRY_ATTEMPTS : u32 := 4.
Definition HTTP_RETRY_BASE_DELAY : Duration := from_secs 1.
Definition HTTP_RETRY_MAX_DELAY : Duration := from_secs 30.
Definition HTTP_RETRY_JITTER : Q := 1 # 2.

(** ** Errors *)

Inductive Retry := Never | After (after : option Duration).

Inductive HttpOriginError :=
| InvalidConfig (message : string)
| NetworkFailed (message : string) (retry : Retry)
| ExtractFailed (message : string)
| FsFailed (message : string)
| HttpCancelled (message : string).

Definition fatal_network (message : string) : HttpOriginError := NetworkFailed message Never.
Definition transient_network (message : string) (after : option Duration) : HttpOriginError :=
  NetworkFailed message (After after).
Definition http_cancelled (message : string) : HttpOriginError := HttpCancelled message.
Definition http_is_cancelled (e : HttpOriginError) : bool :=
  match e with HttpCancelled _ => true | _ => false end.
Definition http_retry (e : HttpOriginError) : Retry :=
  match e with NetworkFailed _ retry => retry | _ => Never end.
Definition http_message (e : HttpOriginError) : string :=
  match e with
  | InvalidConfig message | NetworkFailed message _ | ExtractFailed message | FsFailed message
  | HttpCancelled message => message
  end.

#[export] Instance Retry_eq_dec : EqDecision Retry.
Proof. solve_decision. Defined.
#[export] Instance HttpOriginError_eq_dec : EqDecision HttpOriginError.
Proof. solve_decision. Defined.

(** ** The retry policy *)

Record HttpTimeouts := mkHttpTimeouts { connect : Duration; operation_timeout : Duration }.
Definition production_timeouts : HttpTimeouts :=
  mkHttpTimeouts HTTP_CONNECT_TIMEOUT HTTP_OPERATION_TIMEOUT.

(** A float is the rational it stands for. *)
Record HttpRetryPolicy := mkHttpRetryPolicy {
  attempts : u32;
  base_delay : Duration;
  max_delay : Duration;
  jitter : Q;
}.
Definition production_policy : HttpRetryPolicy :=
  mkHttpRetryPolicy HTTP_RETRY_ATTEMPTS HTTP_RETRY_BASE_DELAY HTTP_RETRY_MAX_DELAY HTTP_RETRY_JITTER.

(** [DefaultHasher] fed with a URL and the number of an attempt, and
    [Duration::mul_f64]: the product, rounded to a nanosecond.  The law is stated
    for the products that are taken: up to a minute, stretched by less than one. *)
Class JitterApi := {
  default_hash : bytes -> u32 -> u64;
  mul_f64 : Duration -> Q -> Duration;
  default_hash_range : forall url attempt, 0 <= default_hash url attempt < 2 ^ 64;
  mul_f64_rounds : forall d r, 0 <= d <= from_secs 60 -> (0 <= r <= 1)%Q ->
    0 <= mul_f64 d r /\ (inject_Z (mul_f64 d r) <= inject_Z d * r + 1)%Q;
}.

Section Policy.
Context `{JitterApi}.

Definition jitter_for (self : HttpRetryPolicy) (delay : Duration) (attempt : u32) (url : bytes) : Duration :=
  if Qle_bool (jitter self) 0 || (delay =? 0) then 0
  else
    let fraction := (inject_Z (Z.shiftr (default_hash url attempt) 11) / inject_Z (2 ^ 53))%Q in
    mul_f64 delay (jitter self * fraction)%Q.

Definition backoff_before (self : HttpRetryPolicy) (attempt : u32) : Duration :=
  Z.min (duration_saturating_mul (base_delay self) (Z.shiftl 1 (Z.min (Z.max 0 (attempt - 2)) 16)))
        (max_delay self).
Definition delay_before (self : HttpRetryPolicy) (attempt : u32) (retry_after : option Duration) (url : bytes)
  : Duration :=
  let backoff := backoff_before self attempt in
  let delay :=
    match retry_after with
    | Some server => if backoff <? server then Z.min server (max_delay self) else backoff
    | None => backoff
    end in
  duration_saturating_add delay (jitter_for self delay attempt url).
End Policy.

(** [str::parse::<u64>]: decimal digits, with an optional plus sign. *)
Definition parse_digits (digits : bytes) : option u64 :=
  if bytes_eqb digits [] then None
  else fold_left (fun acc c =>
         match acc with
         | Some value =>
             if (48 <=? c) && (c <=? 57) then
               match checked_mul value 10 with Some v => checked_add v (c - 48) | None => None end
             else None
         | None => None
         end) digits (Some 0).
Definition parse_u64_str (text : bytes) : option u64 :=
  match text with
  | 43 :: digits => parse_digits digits
  | _ => parse_digits text
  end.
Definition parse_retry_after (value : bytes) : option Duration :=
  match parse_u64_str (trim value) with Some secs => Some (from_secs secs) | None => None end.

(** ** URLs and reasons *)

Definition url_host (url : bytes) : bytes :=
  let rest :=
    match strip_prefix (lit "https://") url with
    | Some rest => rest
    | None => match strip_prefix (lit "http://") url with Some rest => rest | None => url end
    end in
  let host := hd rest (split_on 47 rest) in
  let host := default host (last (split_on 64 host)) in
  hd host (split_on 58 host).

Definition to_ascii_lowercase (text : bytes) : bytes :=
  map (fun c => if (65 <=? c) && (c <=? 90) then c + 32 else c) text.
Fixpoint text_contains (pattern text : bytes) : bool :=
  starts_with pattern text || match text with [] => false | _ :: rest => text_contains pattern rest end.

Definition retry_reason (error : string) : string :=
  let text := to_ascii_lowercase (lit error) in
  let has pattern := text_contains (lit pattern) text in
  if has "dns error" || has "failed to lookup address" then "dns"
  else if has "http 429" then "http 429"
  else if has "http 5" then "http 5xx"
  else if has "timed out" || has "timeout" then "timeout"
  else if has "connection reset" || has "connection closed" || has "connection refused" || has "broken pipe"
  then "connection"
  else if has "incomplete message" || has "unexpected end of file" || has "error decoding response body"
  then "truncated body"
  else "other".

(** ** The record of one URL *)

Record UrlAttemptState := mkUrlAttemptState {
  spent : u32;
  retry_after : option Duration;
  last_error : option string;
  worth_retrying : bool;
}.
Definition untried : UrlAttemptState := mkUrlAttemptState 0 None None false.

Definition record (self : UrlAttemptState) (error : HttpOriginError) (made : u32) : UrlAttemptState :=
  {| spent := spent self + made;
     worth_retrying := match http_retry error with After _ => true | Never => false end;
     retry_after := match http_retry error with After after => after | Never => None end;
     last_error := Some (http_message error) |}.

Definition describe (self : UrlAttemptState) (url : bytes) : string :=
  let attempted :=
    if spent self <=? 1 then EmptyString else " (after " +:+ show_z (spent self) +:+ " attempts)" in
  match last_error self with
  | Some error => show url +:+ attempted +:+ ": " +:+ error
  | None => show url +:+ ": not attempted"
  end.

(** ** One download

    What the server and the file answer to one attempt: a failure to get a response
    (its text, and whether it is a timeout), or a status, the [Retry-After] header,
    the advertised length and the chunks of the body, which may break off. *)

Inductive Reply :=
| NoReply (timeout : bool) (error : string)
| Response (status : Z) (reason : string) (retry_after_header : option bytes) (content_length : option u64)
    (chunks : list bytes) (broken : option string).
Record FileCalls := mkFileCalls {
  f_create : option string;
  f_write : nat -> option string;
  f_flush : option string;
}.

Definition is_success (status : Z) : bool := (200 <=? status) && (status <? 300).
Definition is_server_error (status : Z) : bool := (500 <=? status) && (status <? 600).

Definition write_failed (destination : path) (error : string) : HttpOriginError :=
  FsFailed ("failed to write temporary download file '" +:+ display_path destination +:+ "': " +:+ error).

(** The loop over the body: the bytes in the file, the calls of
    [progress.transferred], and how it ended. *)
Fixpoint receive (url : bytes) (destination : path) (total : option u64) (file : FileCalls) (broken : option string)
  (chunks : list bytes) (index : nat) (written : bytes) (ticks : list (u64 * option u64))
  : bytes * list (u64 * option u64) * result HttpOriginError unit :=
  match chunks with
  | [] =>
      (written, ticks,
       match broken with
       | Some error =>
           Err (transient_network
                  ("failed to read HTTP response body from '" +:+ show url +:+ "': " +:+ error) None)
       | None => Ok tt
       end)
  | chunk :: chunks' =>
      match f_write file index with
      | Some error => (written, ticks, Err (write_failed destination error))
      | None =>
          let written := written ++ chunk in
          receive url destination total file broken chunks' (S index) written (ticks ++ [(len written, total)])
      end
  end.

Definition status_error (url : bytes) (status : Z) (reason : string) (retry_after_header : option bytes)
  : HttpOriginError :=
  let message := "failed to download '" +:+ show url +:+ "': HTTP " +:+ reason in
  if is_server_error status || (status =? 429) then
    transient_network message (and_then retry_after_header parse_retry_after)
  else fatal_network message.

Definition no_reply_error (url : bytes) (timeout : bool) (error : string) : HttpOriginError :=
  if timeout then
    transient_network ("download timed out while requesting '" +:+ show url +:+ "': " +:+ error) None
  else transient_network ("failed to download '" +:+ show url +:+ "': " +:+ error) None.

(** The answer, what the destination holds if it was created, and the calls of
    [progress.transferred]. *)
Definition download_once (url : bytes) (destination : path) (reply : Reply) (file : FileCalls)
  : result HttpOriginError unit * option bytes * list (u64 * option u64) :=
  match reply with
  | NoReply timeout error => (Err (no_reply_error url timeout error), None, [])
  | Response status reason header total chunks broken =>
      if negb (is_success status) then (Err (status_error url status reason header), None, [])
      else
        match f_create file with
        | Some error =>
            (Err (FsFailed ("failed to create temporary download file '" +:+ display_path destination
                            +:+ "': " +:+ error)), None, [])
        | None =>
            let '(written, ticks, ended) := receive url destination total file broken chunks 0 [] [] in
            match ended with
            | Err e => (Err e, Some written, ticks)
            | Ok _ =>
                match f_flush file with
                | Some error => (Err (write_failed destination error), Some written, ticks)
                | None => (Ok tt, Some written, ticks)
                end
            end
        end
  end.

(** ** The declaration of an origin *)

Inductive ArchiveFormat := TarGz | TarXz | TarBz2 | Zip.
#[export] Instance ArchiveFormat_eq_dec : EqDecision ArchiveFormat.
Proof. solve_decision. Defined.

Inductive UrlField := One (url : bytes) | Many (urls : list bytes).
Definition into_list (self : UrlField) : list bytes :=
  match self with One url => [url] | Many urls => urls end.

Record HttpOrigin := mkHttpOrigin {
  urls : list bytes;
  unpack : bool;
  archive_format : option ArchiveFormat;
}.

Section Origin.
Context {Number : Type}.
Abbreviation Members := (list (bytes * JValue Number)).

Definition take_string (object : Members) (p field : string) : result string (bytes * Members) :=
  let (value, object) := jremove object (lit field) in
  value <- ok_or value (p +:+ ": missing required field '" +:+ field +:+ "'") ;;
  text <- ok_or (jas_str value) (p +:+ "." +:+ field +:+ ": expected string") ;;
  Ok (text, object).

Definition take_url_field (object : Members) (p field : string) : result string (UrlField * Members) :=
  let (value, object) := jremove object (lit field) in
  value <- ok_or value (p +:+ ": missing required field '" +:+ field +:+ "'") ;;
  let expected := p +:+ "." +:+ field +:+ ": expected string or array of strings" in
  match value with
  | JString url => Ok (One url, object)
  | JArray items => texts <- try_map (fun item => ok_or (jas_str item) expected) items ;; Ok (Many texts, object)
  | _ => Err expected
  end.

Definition take_optional_bool (object : Members) (p field : string) : result string (option bool * Members) :=
  let (value, object) := jremove object (lit field) in
  match value with
  | None => Ok (None, object)
  | Some (JBool b) => Ok (Some b, object)
  | Some _ => Err (p +:+ "." +:+ field +:+ ": expected boolean")
  end.

Definition archive_format_of (value : bytes) : option ArchiveFormat :=
  if bytes_eqb value (lit "tar-gz") then Some TarGz
  else if bytes_eqb value (lit "tar-xz") then Some TarXz
  else if bytes_eqb value (lit "tar-bz2") then Some TarBz2
  else if bytes_eqb value (lit "zip") then Some Zip
  else None.
Definition take_optional_archive_format (object : Members) (p field : string)
  : result string (option ArchiveFormat * Members) :=
  let (value, object) := jremove object (lit field) in
  match value with
  | None => Ok (None, object)
  | Some value =>
      value <- ok_or (jas_str value) (p +:+ "." +:+ field +:+ ": expected string") ;;
      match archive_format_of value with
      | Some format => Ok (Some format, object)
      | None => Err (p +:+ "." +:+ field +:+ ": unsupported archive format '" +:+ show value +:+ "'")
      end
  end.

Definition is_http (url : bytes) : bool := starts_with (lit "http://") url || starts_with (lit "https://") url.

(** [debug_assert_eq!] on the tag has no effect in a release build. *)
Definition parse_http_origin (object : Members) (field_path : string) : result string HttpOrigin :=
  let* (_, object) := take_string object field_path "tag" in
  let* (url_field, object) := take_url_field object field_path "url" in
  let urls := into_list url_field in
  guard (negb (bool_decide (urls = []))) (field_path +:+ ".url: url list must not be empty") ;;;
  try_fold (fun _ url =>
    guard (is_http url)
      (field_path +:+ ".url: url '" +:+ show url +:+ "' must start with http:// or https://")) tt urls ;;;
  let* (unpack, object) := take_optional_bool object field_path "unpack" in
  let* (archive_format, object) := take_optional_archive_format object field_path "archive_format" in
  guard (bool_decide (object = []))
    (field_path +:+ ": unexpected fields: " +:+ show_names (jkeys object)) ;;;
  Ok (mkHttpOrigin urls (default false unpack) archive_format).
End Origin.

(** ** What was downloaded *)

(** The first eight bytes of the file. *)
Definition format_from_magic (header : bytes) : option ArchiveFormat :=
  match take 8 header with
  | 0x1f :: 0x8b :: _ => Some TarGz
  | 0xfd :: 0x37 :: 0x7a :: 0x58 :: 0x5a :: 0x00 :: _ => Some TarXz
  | 0x42 :: 0x5a :: 0x68 :: _ => Some TarBz2
  | 0x50 :: 0x4b :: c :: d :: _ =>
      if bool_decide (c ∈ [0x03; 0x05; 0x07]) && bool_decide (d ∈ [0x04; 0x06; 0x08]) then Some Zip else None
  | _ => None
  end.

Definition format_from_url (url : bytes) : option ArchiveFormat :=
  let url_lower := to_ascii_lowercase url in
  let ends suffix := ends_with (lit suffix) url_lower in
  if ends ".tar.gz" || ends ".tgz" then Some TarGz
  else if ends ".tar.xz" then Some TarXz
  else if ends ".tar.bz2" || ends ".tbz2" || ends ".tbz" then Some TarBz2
  else if ends ".zip" then Some Zip
  else None.

Fixpoint first_format (urls : list bytes) : option ArchiveFormat :=
  match urls with
  | [] => None
  | url :: urls' => match format_from_url url with Some format => Some format | None => first_format urls' end
  end.

Definition detect_archive_format_from_magic (blob : path) : prog (result HttpOriginError (option ArchiveFormat)) :=
  bind (read blob) (fun r => Ret
    match r with
    | Ok content => Ok (format_from_magic content)
    | Err error =>
        Err (FsFailed ("failed to open cached blob for archive detection '" +:+ display_path blob +:+ "': "
                       +:+ io_text error))
    end).

Definition select_archive_format (explicit_format : option ArchiveFormat) (blob : path) (urls : list bytes)
  : prog (result HttpOriginError ArchiveFormat) :=
  match explicit_format with
  | Some format => Ret (Ok format)
  | None =>
      try_bind (detect_archive_format_from_magic blob) (fun detected => Ret
        match detected with
        | Some format => Ok format
        | None =>
            match first_format urls with
            | Some format => Ok format
            | None =>
                Err (InvalidConfig ("unable to detect archive format for URLs "
                       +:+ show (join_with (lit ", ") urls)
                       +:+ "; set archive_format explicitly or use unpack = false"))
            end
        end)
  end.

(** An entry of a zip archive: its name, the path [enclosed_name] finds in it, and
    what reading it gives. *)
Record ZipEntry := mkZipEntry {
  z_name : bytes;
  z_enclosed : option bytes;
  z_is_dir : bool;
  z_content : result string bytes;
  z_mode : option u32;
}.

(** [Path::join], on paths as text. *)
Definition join_text (base relative : bytes) : bytes :=
  if is_absolute relative then relative
  else if ends_with [47] base || bytes_eqb base [] then base ++ relative
  else base ++ [47] ++ relative.

(** The components below the root. *)
Definition as_path (text : bytes) : path :=
  flat_map (fun component => match component with Normal name => [name] | _ => [] end) (components text).

Definition plain_components (text : bytes) : bool :=
  forallb (fun component => match component with ParentDir | RootDir => false | _ => true end) (components text).

Definition extract_failed (action subject : string) (error : string) : HttpOriginError :=
  ExtractFailed ("failed to " +:+ action +:+ " '" +:+ subject +:+ "': " +:+ error).

Definition extract_zip_entry (destination : bytes) (entry : ZipEntry) : prog (result HttpOriginError unit) :=
  match z_enclosed entry with
  | None =>
      Ret (Err (ExtractFailed ("zip entry '" +:+ show (z_name entry) +:+ "' has invalid or unsafe path")))
  | Some enclosed =>
      let target := join_text destination enclosed in
      if negb (plain_components target) then
        Ret (Err (ExtractFailed ("zip entry '" +:+ show (z_name entry) +:+ "' resolves to unsafe path")))
      else
        let target_path := as_path target in
        if z_is_dir entry then
          mapping_err (fun e => extract_failed "create directory" (show target) (io_text e))
            (create_dir_all target_path)
        else
          try_bind (mapping_err (fun e => extract_failed "create parent directory"
                                   (display_path (removelast target_path)) (io_text e))
                      (create_dir_all (removelast target_path))) (fun _ =>
          try_bind (mapping_err (fun e => extract_failed "create file" (show target) (io_text e))
                      (write target_path [])) (fun _ =>
          let copy_failed error :=
            ExtractFailed ("failed to extract zip entry '" +:+ show (z_name entry) +:+ "' to '"
                           +:+ show target +:+ "': " +:+ error) in
          match z_content entry with
          | Err error => Ret (Err (copy_failed error))
          | Ok content =>
              try_bind (mapping_err (fun e => copy_failed (io_text e)) (write target_path content)) (fun _ =>
              match z_mode entry with
              | None => Ret (Ok tt)
              | Some mode =>
                  mapping_err (fun e => extract_failed "set permissions on" (show target) (io_text e))
                    (set_permissions target_path (Z.land mode 0xfff))
              end)
          end))
  end.

Definition extract_zip (destination : bytes) (entries : list (result string ZipEntry))
  : prog (result HttpOriginError unit) :=
  try_each (fun entry =>
    match entry with
    | Err error => Ret (Err (ExtractFailed error))
    | Ok entry => extract_zip_entry destination entry
    end) entries.

(** ** Facts *)

Lemma components_absolute text : is_absolute text = true -> exists rest, components text = RootDir :: rest.
Proof. intros Ha. unfold components. rewrite Ha. by eexists. Qed.

Lemma join_absolute base relative :
  is_absolute base = true -> is_absolute (join_text base relative) = true.
Proof.
  intros Hb. unfold join_text. destruct (is_absolute relative) eqn:Hr; [done|].
  assert (Hstart : forall rest, is_absolute (base ++ rest) = true); [|by destruct (_ || _); apply Hstart].
  intros rest. revert Hb. unfold is_absolute, starts_with. destruct base as [|c base]; [done|].
  cbn -[Z.eqb]. by destruct (Z.eqb 47 c).
Qed.

(** Every archive that has an entry is refused: the check on the target path meets
    the root directory of the destination itself. *)
Lemma zip_entry_refused destination entry :
  is_absolute destination = true -> exists message, extract_zip_entry destination entry = Ret (Err (ExtractFailed message)).
Proof.
  intros Ha. unfold extract_zip_entry. destruct (z_enclosed entry) as [enclosed|]; [|by eexists].
  destruct (components_absolute (join_text destination enclosed)) as (rest & Hc); [by apply join_absolute|].
  unfold plain_components. rewrite Hc. by eexists.
Qed.

(** *** Delays *)

Lemma production_backoff attempt :
  is_u32 attempt -> from_secs 1 <= backoff_before production_policy attempt <= from_secs 30.
Proof.
  intros Ha. unfold backoff_before, duration_saturating_mul, DURATION_MAX, production_policy. cbn [base_delay max_delay].
  unfold HTTP_RETRY_BASE_DELAY, HTTP_RETRY_MAX_DELAY, from_secs, NANOS_PER_SEC.
  assert (Hs : 1 <= Z.shiftl 1 (Z.min (Z.max 0 (attempt - 2)) 16)).
  { rewrite Z.shiftl_mul_pow2 by lia.
    assert (0 < 2 ^ Z.min (Z.max 0 (attempt - 2)) 16) by (apply Z.pow_pos_nonneg; lia). lia. }
  lia.
Qed.

Section Delays.
Context `{JitterApi}.

Lemma fraction_bounds url attempt :
  (0 <= inject_Z (Z.shiftr (default_hash url attempt) 11) / inject_Z (2 ^ 53) <= 1)%Q.
Proof.
  pose proof (default_hash_range url attempt) as Hh.
  assert (Hb : 0 <= Z.shiftr (default_hash url attempt) 11 <= 2 ^ 53).
  { rewrite Z.shiftr_div_pow2 by lia. split; [by apply Z.div_pos; lia|].
    apply Z.lt_le_incl, Z.div_lt_upper_bound; lia. }
  split.
  - apply Qle_shift_div_l; [done|]. rewrite Qmult_0_l. change 0%Q with (inject_Z 0). rewrite <-Zle_Qle. lia.
  - apply Qle_shift_div_r; [done|]. rewrite Qmult_1_l, <-Zle_Qle. lia.
Qed.

Lemma production_jitter delay attempt url :
  0 <= delay <= from_secs 30 ->
  0 <= jitter_for production_policy delay attempt url /\
  2 * jitter_for production_policy delay attempt url <= delay + 2.
Proof.
  intros Hd. unfold jitter_for. destruct (_ || _); [lia|].
  pose proof (fraction_bounds url attempt) as Hf.
  set (f := (inject_Z (Z.shiftr (default_hash url attempt) 11) / inject_Z (2 ^ 53))%Q) in *.
  cbn [jitter production_policy]. unfold HTTP_RETRY_JITTER.
  assert (Hr : (0 <= (1 # 2) * f <= 1 # 2)%Q) by (split; lra).
  destruct (mul_f64_rounds delay ((1 # 2) * f)) as [H0 H1];
    [unfold from_secs, NANOS_PER_SEC in *; lia|split; lra|].
  split; [done|]. set (m := mul_f64 delay ((1 # 2) * f)) in *.
  assert (Hm : (inject_Z (2 * m) <= inject_Z (delay + 2))%Q); [|by rewrite Zle_Qle].
  rewrite inject_Z_mult, inject_Z_plus.
  assert (Hd' : (0 <= inject_Z delay)%Q) by (change 0%Q with (inject_Z 0); rewrite <-Zle_Qle; lia).
  change (inject_Z 2) with (2 # 1)%Q. nra.
Qed.

(** The doubling that the policy stands for: one second before the second attempt,
    twice as long before each one after it, never more than thirty seconds. *)
Lemma production_backoff_doubles attempt :
  is_u32 attempt -> backoff_before production_policy attempt = from_secs (Z.min 30 (2 ^ Z.max 0 (attempt - 2))).
Proof.
  intros Ha. unfold backoff_before, duration_saturating_mul, DURATION_MAX, production_policy.
  cbn [base_delay max_delay].
  unfold HTTP_RETRY_BASE_DELAY, HTTP_RETRY_MAX_DELAY, from_secs, NANOS_PER_SEC.
  rewrite Z.shiftl_mul_pow2, Z.mul_1_l by lia. set (n := Z.max 0 (attempt - 2)).
  assert (H0 : 0 <= n) by lia. clearbody n.
  assert (Hp : forall k, 0 <= k -> 0 < 2 ^ k) by (intros; apply Z.pow_pos_nonneg; lia).
  destruct (Z.le_ge_cases n 16) as [Hn|Hn].
  - rewrite (Z.min_l n) by done. specialize (Hp n H0).
    assert (2 ^ n <= 2 ^ 16) by (apply Z.pow_le_mono_r; lia). change (2 ^ 16) with 65536 in *. lia.
  - rewrite (Z.min_r n) by done. assert (2 ^ 16 <= 2 ^ n) by (apply Z.pow_le_mono_r; lia).
    change (2 ^ 16) with 65536 in *. lia.
Qed.

End Delays.

(** C29. The wait before an attempt, under the production policy: it is never shorter
    than the doubling backoff (1, 2, 4, 8, 16 seconds and then thirty, spelled out here),
    nor than what the server asked for up to thirty seconds, and it is longer than the
    larger of these by at most half of it (and a nanosecond of rounding).  So no wait
    exceeds forty-five seconds, whatever a server asks. *)
Theorem retry_delay_bounds `{JitterApi} attempt after url :
  is_u32 attempt -> match after with Some server => 0 <= server | None => True end ->
  let delay := delay_before production_policy attempt after url in
  let doubled := from_secs (Z.min 30 (2 ^ Z.max 0 (attempt - 2))) in
  let asked := match after with Some server => Z.max doubled (Z.min server (from_secs 30)) | None => doubled end in
  backoff_before production_policy attempt = doubled /\
  asked <= delay /\ 2 * delay <= 3 * asked + 2 /\ delay <= from_secs 45 + 1.
Proof.
  intros Ha Hs delay doubled asked. pose proof (production_backoff attempt Ha) as Hb.
  pose proof (production_backoff_doubles attempt Ha) as Hd. fold doubled in Hd.
  split; [exact Hd|]. rewrite Hd in Hb.
  assert (Hasked : from_secs 1 <= asked <= from_secs 30) by (unfold asked; destruct after; lia).
  assert (He : delay = duration_saturating_add asked (jitter_for production_policy asked attempt url)).
  { unfold delay, delay_before, asked. rewrite Hd. change (max_delay production_policy) with (from_secs 30).
    destruct after as [server|]; [|done]. destruct (Z.ltb_spec doubled server).
    - by replace (Z.max _ _) with (Z.min server (from_secs 30)) by lia.
    - by replace (Z.max _ _) with doubled by lia. }
  clearbody asked delay. pose proof (production_jitter asked attempt url ltac:(unfold from_secs, NANOS_PER_SEC in *; lia)).
  unfold duration_saturating_add, DURATION_MAX in He. unfold from_secs, NANOS_PER_SEC in *.
  rewrite Z.min_l in He by lia. lia.
Qed.

(** A hasher and a product for which waits are as long as they get. *)
Definition longest_jitter : JitterApi.
Proof.
  refine {| default_hash _ _ := 2 ^ 64 - 1; mul_f64 d r := d * Qnum r / Zpos (Qden r) |}.
  - lia.
  - intros d [n m] Hd [H0 H1]. unfold Qle in *. cbn in *. unfold from_secs, NANOS_PER_SEC in Hd. split.
    + apply Z.div_pos; nia.
    + rewrite Pos.mul_1_r. pose proof (Z.mul_div_le (d * n) (Zpos m) ltac:(lia)). nia.
Defined.

Lemma retry_delay_bounds_witness :
  let delay := delay_before (H := longest_jitter) production_policy 2 (Some (from_secs 3600)) (lit "http://a/b") in
  from_secs 30 <= delay <= from_secs 45 + 1.
Proof.
  destruct (retry_delay_bounds (H := longest_jitter) 2 (Some (from_secs 3600)) (lit "http://a/b")) as (_ & H1 & _ & H2);
    [split; [lia|reflexivity]|cbv; discriminate|].
  split; [exact H1|exact H2].
Defined.

(** The three waits for one URL, no server asking for more, may take more than ten seconds. *)
Example waits_of_one_url :
  let wait attempt := delay_before (H := longest_jitter) production_policy attempt None (lit "http://a/b") in
  from_secs 10 <? wait 2 + wait 3 + wait 4 = true.
Proof. vm_compute. reflexivity. Qed.

(** *** One download *)

Definition writes_pass (file : FileCalls) (index : nat) (chunks : list bytes) : Prop :=
  forall i, (i < length chunks)%nat -> f_write file (index + i)%nat = None.

Lemma receive_spec url destination total file broken chunks index written ticks w ts r :
  receive url destination total file broken chunks index written ticks = (w, ts, r) ->
  writes_pass file index chunks /\ w = written ++ concat chunks /\
    r = match broken with
        | Some error =>
            Err (transient_network
                   ("failed to read HTTP response body from '" +:+ show url +:+ "': " +:+ error) None)
        | None => Ok tt
        end \/
  ~ writes_pass file index chunks /\ exists error, r = Err (write_failed destination error).
Proof.
  revert index written ticks. induction chunks as [|chunk chunks IH]; intros index written ticks Hr; cbn in Hr.
  - simplify_eq. left. rewrite app_nil_r. split; [|done]. intros i Hi. cbn in Hi. lia.
  - destruct (f_write file index) eqn:Hw.
    + simplify_eq. right. split; [|by eexists]. intros Hp. specialize (Hp 0%nat ltac:(cbn; lia)).
      rewrite Nat.add_0_r in Hp. congruence.
    + apply IH in Hr. rewrite <-app_assoc in Hr. destruct Hr as [(Hp & ? & ?)|(Hp & ?)]; [left|right].
      * split; [|done]. intros [|i] Hi; [by rewrite Nat.add_0_r|]. rewrite <-Nat.add_succ_comm. apply Hp.
        cbn in Hi. lia.
      * split; [|done]. contradict Hp. intros i Hi. rewrite Nat.add_succ_comm. apply Hp. cbn. lia.
Qed.

(** C30. One download succeeds exactly when the server answers with success, the whole
    body arrives and the file takes all of it, and then the destination holds that body.
    It reports a failure as worth another attempt exactly when the server gave no answer
    or asked to come back (a 5xx or 429 status), or broke off the body: a file that
    cannot be written and any other status are final. *)
Theorem download_outcome url destination reply file :
  let '(r, content, _) := download_once url destination reply file in
  match reply with
  | NoReply _ _ => (exists e, r = Err e /\ http_retry e = After None) /\ content = None
  | Response status _ header _ chunks broken =>
      let writable := f_create file = None /\ writes_pass file 0 chunks in
      (r = Ok tt <->
         is_success status = true /\ broken = None /\ writable /\ f_flush file = None) /\
      (r = Ok tt -> content = Some (concat chunks)) /\
      (forall e, r = Err e ->
         (http_retry e <> Never <->
            is_success status = false /\ (is_server_error status = true \/ status = 429) \/
            is_success status = true /\ broken <> None /\ writable) /\
         (is_success status = false -> content = None /\
            forall wait, http_retry e = After (Some wait) -> and_then header parse_retry_after = Some wait))
  end.
Proof.
  destruct reply as [timeout error|status reason header total chunks broken]; cbn [download_once].
  { split; [|done]. by destruct timeout; eexists. }
  destruct (is_success status) eqn:Hok; cbn [negb].
  - destruct (f_create file) eqn:Hc.
    { split_and!; [naive_solver|done|]. intros e [= <-]. split; [|done]. cbn. naive_solver. }
    destruct (receive _ _ _ _ _ _ _ _ _) as [[written ticks] ended] eqn:Hr.
    destruct (receive_spec _ _ _ _ _ _ _ _ _ _ _ _ Hr) as [(Hp & -> & ->)|(Hp & error & ->)].
    + destruct broken as [error|]; [|destruct (f_flush file)].
      * split_and!; [naive_solver|done|]. intros e [= <-]. split; [|done]. cbn. naive_solver.
      * split_and!; [naive_solver|done|]. intros e [= <-]. split; [|done]. cbn. naive_solver.
      * split_and!; [naive_solver|done|done].
    + split_and!; [naive_solver|done|]. intros e [= <-]. split; [|done]. cbn. naive_solver.
  - split_and!; [naive_solver|done|]. intros e [= <-]. unfold status_error.
    destruct (is_server_error status); cbn [orb]; [|destruct (Z.eqb_spec status 429)];
      cbn; (split; [naive_solver|]); intros _; (split; [done|]); intros wait Hw; congruence.
Qed.

(** No zip archive that has an entry is ever unpacked below an absolute directory, and
    nothing is written. *)
Theorem zip_extraction_refused destination entries :
  is_absolute destination = true -> entries <> [] ->
  exists message, extract_zip destination entries = Ret (Err (ExtractFailed message)).
Proof.
  intros Ha Hne. destruct entries as [|[entry|error] entries]; [done| |by eexists].
  destruct (zip_entry_refused destination entry Ha) as (message & He). exists message.
  unfold extract_zip. cbn [try_each]. by rewrite He.
Qed.

Lemma try_fold_guard {A} (test : A -> bool) (text : A -> string) l u :
  try_fold (fun _ x => guard (test x) (text x)) tt l = Ok u -> Forall (fun x => test x = true) l.
Proof.
  induction l as [|x l IH]; [constructor|]. cbn. unfold guard. destruct (test x) eqn:Ht; [|done].
  intros Hl. constructor; [done|by apply IH].
Qed.

(** A declared origin has a URL, and all its URLs are of HTTP. *)
Lemma parsed_origin_urls {Number} (object : list (bytes * JValue Number)) field_path origin :
  parse_http_origin object field_path = Ok origin ->
  urls origin <> [] /\ Forall (fun url => is_http url = true) (urls origin).
Proof.
  unfold parse_http_origin. intros Hp. inv_res. bools. split; [done|].
  match goal with Hf : try_fold _ _ _ = Ok _ |- _ => exact (try_fold_guard is_http _ _ _ Hf) end.
Qed.
