(* ===== verification/Network.v ===== *)
(** * The network scheduler

    [bobr-source/src/network.rs] and [acquisition/limits.rs], and the programs of
    [acquisition/engine.rs] that use them: the limits, taking the permits of a host
    and of the run, the attempts at one URL, waiting for a retry, the walk over the
    mirrors of a source, the scheduled repository transport, and the pull of an image.

    A program is a tree of the operations at which a task may be suspended or meets
    the world: permits, transfers, waits, reports, files.  [until_cancelled] in a
    [select!] is the answer [None] or [false] of the operation it races with.  The
    machine that runs many such programs on shared semaphores is in [NetworkPool]. *)

From S2P Require Import Prelude Errors Posix Http Reader.
Local Open Scope Z_scope.

(** ** Limits *)

Definition DEFAULT_PER_HOST : u32 := 6.
Definition MAX_CONNECTIONS_CAP : u32 := 64.
Definition DEFAULT_MAX_LOCAL_JOBS : u32 := 4.

Record NetworkLimits := mkNetworkLimits {
  per_host_default : u32;
  per_host : gmap bytes u32;
  max_connections : u32;
}.
Definition for_host (self : NetworkLimits) (host : bytes) : u32 :=
  Z.max (default (per_host_default self) (per_host self !! host)) 1.

(** The limits as a request states them. *)
Record Limits := mkLimits {
  l_per_host_default : option u32;
  l_per_host : gmap bytes u32;
  l_max_connections : option u32;
  l_max_local_jobs : option u32;
}.
Definition default_max_connections (nofile : option u64) : u32 :=
  let quarter := match nofile with Some n => n / 4 | None => MAX_CONNECTIONS_CAP end in
  Z.min (Z.max quarter 1) MAX_CONNECTIONS_CAP.
Definition resolved_max_local_jobs (self : Limits) : usize :=
  Z.max (default DEFAULT_MAX_LOCAL_JOBS (l_max_local_jobs self)) 1.
Definition resolved_network_limits (nofile_limit : option u64) (self : Limits) : NetworkLimits :=
  {| per_host_default := Z.max (default DEFAULT_PER_HOST (l_per_host_default self)) 1;
     per_host := l_per_host self;
     max_connections := Z.max (default (default_max_connections nofile_limit) (l_max_connections self)) 1 |}.

(** ** Operations and events *)

Inductive NetworkOperation :=
| SourceOperation (name : bytes)
| RepositoryMetadata (repository : bytes) (purpose : FetchPurpose)
| RepositoryContent (repository : bytes) (purpose : FetchPurpose).

Definition repository_operation (repository : bytes) (purpose : FetchPurpose) : NetworkOperation :=
  match purpose with
  | PMaster | PBuildIndex _ | PReuseIndex _ | PObjectList _ | PFsFileList _ =>
      RepositoryMetadata repository purpose
  | PObject _ | PFsFile _ => RepositoryContent repository purpose
  end.

Inductive NetworkEventKind :=
| Started (attempt : u32)
| Progress (attempt : u32) (bytes_ : u64) (total_bytes : option u64)
| RetryEvent (attempt attempts : u32) (delay : Duration) (error : string)
| Finished (attempt : u32) (bytes_ : u64) (total_bytes : option u64) (duration : Duration)
| Failed (attempt : u32) (error : string)
| CancelledEvent.

Record NetworkEvent := mkNetworkEvent {
  ev_operation : NetworkOperation;
  ev_host : bytes;
  ev_url : bytes;
  ev_kind : NetworkEventKind;
}.

(** [ScheduledNetworkError]. *)
Class ScheduledNetworkError (E : Type) := {
  retry : E -> Retry;
  cancelled : E;
  is_cancelled : E -> bool;
  error_text : E -> string;
  cancelled_is_cancelled : is_cancelled cancelled = true;
}.
#[export] Instance http_scheduled : ScheduledNetworkError HttpOriginError := {|
  retry := http_retry;
  cancelled := http_cancelled "download cancelled";
  is_cancelled := http_is_cancelled;
  error_text := http_message;
  cancelled_is_cancelled := eq_refl;
|}.
#[export] Instance repository_scheduled : ScheduledNetworkError RepositoryError := {|
  retry e := if is_retryable e then After (option_map from_millis (re_retry_after e)) else Never;
  cancelled := repo_cancelled "repository transfer cancelled";
  is_cancelled e := match re_kind e with Cancelled => true | _ => false end;
  error_text := re_message;
  cancelled_is_cancelled := eq_refl;
|}.

(** ** Programs

    What a task asks: whether the run is cancelled; a permit of a host's semaphore and
    of the one of the run, or cancellation; to give a permit back; one transfer, or
    cancellation; a wait, [false] when it was cut short; to report an event; about
    files; and a panic. *)

Record Transferred (E T : Type) := mkTransferred {
  t_result : result E T;
  t_bytes : u64;
  t_total : option u64;
  t_elapsed : Duration;
}.
Arguments mkTransferred {E T} _ _ _ _.
Arguments t_result {E T} _.
Arguments t_bytes {E T} _.
Arguments t_total {E T} _.
Arguments t_elapsed {E T} _.

Inductive NetOp :=
| NIsCancelled
| NHostPermit (host : bytes)
| NGlobalPermit
| NDropHost (host : bytes)
| NDropGlobal
| NTransfer (host url : bytes) (attempt : u32)
| NSleep (delay : Duration)
| NEmit (event : NetworkEvent)
| NExists (p : path)
| NRemoveFile (p : path)
| NDiscard (p : path)
| NUnreachable (message : string).

Definition Answer (E T : Type) (o : NetOp) : Type :=
  match o with
  | NIsCancelled | NHostPermit _ | NGlobalPermit | NSleep _ | NExists _ => bool
  | NDropHost _ | NDropGlobal | NEmit _ | NDiscard _ => unit
  | NTransfer _ _ _ => option (Transferred E T)
  | NRemoveFile _ => result IoError unit
  | NUnreachable _ => Empty_set
  end.

Inductive net (E T A : Type) : Type :=
| NRet (a : A)
| NDo (o : NetOp) (k : Answer E T o -> net E T A).
Arguments NRet {E T A} a.
Arguments NDo {E T A} o k.

Fixpoint nbind {E T A B : Type} (m : net E T A) (f : A -> net E T B) : net E T B :=
  match m with
  | NRet a => f a
  | NDo o k => NDo o (fun r => nbind (k r) f)
  end.
Definition ask {E T : Type} (o : NetOp) : net E T (Answer E T o) := NDo o NRet.

Declare Scope net_scope.
Delimit Scope net_scope with net.
Notation "'await' x ':=' m 'in' k" := (nbind m (fun x => k))
  (at level 200, x name, m at level 100, k at level 200, right associativity) : net_scope.
Notation "'perform' m 'in' k" := (nbind m (fun _ => k))
  (at level 200, m at level 100, k at level 200, right associativity) : net_scope.
Open Scope net_scope.

(** A closed alternative of a [match] on the answer of an operation that panics. *)
Definition unreachable {E T A : Type} (message : string) : net E T A :=
  NDo (NUnreachable message) (fun r => match r with end).

Definition run_is_cancelled {E T : Type} : net E T bool := ask NIsCancelled.

(** ** The scheduler *)

(** [NetworkScheduler::acquire]: [false] is [NetworkCancelled].  A permit taken before
    an early return is dropped by it, the last one taken first. *)
Definition acquire {E T : Type} (host : bytes) : net E T bool :=
  await stop := run_is_cancelled in
  if stop then NRet false
  else
    await host_permit := ask (NHostPermit host) in
    if negb host_permit then NRet false
    else
      await global_permit := ask NGlobalPermit in
      if negb global_permit then perform ask (NDropHost host) in NRet false
      else
        await stop := run_is_cancelled in
        if stop then perform ask NDropGlobal in perform ask (NDropHost host) in NRet false
        else NRet true.

(** [drop(permits)]: the fields of the pair in their order. *)
Definition drop_permits {E T : Type} (host : bytes) : net E T unit :=
  perform ask (NDropHost host) in ask NDropGlobal.

Definition emit {E T : Type} (operation : NetworkOperation) (host url : bytes) (kind : NetworkEventKind)
  : net E T unit := ask (NEmit (mkNetworkEvent operation host url kind)).

Definition wait_before_retry {E T : Type} (operation : NetworkOperation) (host url : bytes) (attempt attempts : u32)
    (delay : Duration) (error : string) : net E T bool :=
  perform emit operation host url (RetryEvent attempt attempts delay error) in
  await waited := ask (NSleep delay) in
  if waited then NRet true
  else perform emit operation host url CancelledEvent in NRet false.

Record ScheduledAttempts := mkScheduledAttempts {
  sa_operation : NetworkOperation;
  sa_url : bytes;
  sa_policy : HttpRetryPolicy;
  sa_attempts_here : u32;
  sa_spent_before : u32;
}.

Section Scheduler.
Context `{JitterApi} {E T : Type} `{!ScheduledNetworkError E}.

(** The loop over [attempt_index], of which [remaining] are left. *)
Fixpoint attempt_loop (scheduled : ScheduledAttempts) (remaining : nat) (attempt_index : u32)
  : net E T (result (E * u32) T) :=
  match remaining with
  | O => unreachable "at least one network attempt is required"
  | S remaining' =>
      let operation := sa_operation scheduled in
      let url := sa_url scheduled in
      let host := url_host url in
      let attempt_number := sa_spent_before scheduled + attempt_index in
      await permits := acquire host in
      if negb permits then
        perform emit operation host url CancelledEvent in
        NRet (Err (cancelled, Z.max 0 (attempt_index - 1)))
      else
        perform emit operation host url (Started attempt_number) in
        await answer := ask (NTransfer host url attempt_number) in
        perform drop_permits host in
        let final_failure error :=
          perform emit operation host url (Failed attempt_number (error_text error)) in
          NRet (Err (error, attempt_index)) in
        let outcome := match answer with Some transferred => t_result transferred | None => Err cancelled end in
        match outcome with
        | Ok value =>
            let '(bytes_, total, elapsed) :=
              match answer with
              | Some transferred => (t_bytes transferred, t_total transferred, t_elapsed transferred)
              | None => (0, None, 0)
              end in
            perform emit operation host url (Finished attempt_number bytes_ total elapsed) in
            NRet (Ok value)
        | Err error =>
            await stop := (if is_cancelled error then NRet true else run_is_cancelled) in
            if stop then
              perform emit operation host url CancelledEvent in
              NRet (Err (cancelled, attempt_index))
            else
              match retry error with
              | Never => final_failure error
              | After retry_after =>
                  if attempt_index =? sa_attempts_here scheduled then final_failure error
                  else
                    let delay := delay_before (sa_policy scheduled) (attempt_number + 1) retry_after url in
                    await waited := wait_before_retry operation host url (attempt_number + 1)
                                      (attempts (sa_policy scheduled)) delay (error_text error) in
                    if waited then attempt_loop scheduled remaining' (attempt_index + 1)
                    else NRet (Err (cancelled, attempt_index))
              end
        end
  end.

Definition run_attempts (scheduled : ScheduledAttempts) : net E T (result (E * u32) T) :=
  attempt_loop scheduled (Z.to_nat (sa_attempts_here scheduled)) 1.
End Scheduler.

(** ** The walk over the mirrors of a source *)

Section Walk.
Context `{JitterApi}.
Abbreviation download := (net HttpOriginError unit).

Definition cancelled_error : HttpOriginError := http_cancelled "download cancelled".

(** [let _ = fs::remove_file(&download_path)]. *)
Definition remove_quietly (p : path) : download unit := perform ask (NRemoveFile p) in NRet tt.

(** The first pass: the result of the walk if it ends here, or the records so far. *)
Fixpoint first_pass (operation : NetworkOperation) (policy : HttpRetryPolicy) (download_path : path)
    (urls : list bytes) : download (result (result HttpOriginError path) (list UrlAttemptState)) :=
  match urls with
  | [] => NRet (Ok [])
  | url :: urls' =>
      await stop := run_is_cancelled in
      if stop then NRet (Err (Err cancelled_error))
      else
        await answer := run_attempts (mkScheduledAttempts operation url policy 1 0) in
        match answer with
        | Ok _ => NRet (Err (Ok download_path))
        | Err (error, made) =>
            perform remove_quietly download_path in
            await rest := first_pass operation policy download_path urls' in
            NRet (states <- rest ;; Ok (record untried error made :: states))
        end
  end.

(** The second pass, over the URLs with their records. *)
Fixpoint second_pass (operation : NetworkOperation) (policy : HttpRetryPolicy) (download_path : path)
    (remaining : u32) (tried : list (bytes * UrlAttemptState))
  : download (result (result HttpOriginError path) (list UrlAttemptState)) :=
  match tried with
  | [] => NRet (Ok [])
  | (url, state) :: tried' =>
      let continue state :=
        await rest := second_pass operation policy download_path remaining tried' in
        NRet (states <- rest ;; Ok (state :: states)) in
      if negb (worth_retrying state) then continue state
      else
        await stop := run_is_cancelled in
        if stop then NRet (Err (Err cancelled_error))
        else
          let spent := spent state in
          let delay := delay_before policy (spent + 1) (retry_after state) url in
          await waited := wait_before_retry operation (url_host url) url (spent + 1) (attempts policy) delay
                            (default "previous attempt failed" (last_error state)) in
          if negb waited then NRet (Err (Err cancelled_error))
          else
            await answer := run_attempts (mkScheduledAttempts operation url policy remaining spent) in
            match answer with
            | Ok _ => NRet (Err (Ok download_path))
            | Err (error, made) =>
                perform remove_quietly download_path in
                continue (record state error made)
            end
  end.

Definition all_failed (urls : list bytes) (states : list UrlAttemptState) : HttpOriginError :=
  let failures := map (fun '(url, state) => lit (describe state url)) (combine urls states) in
  fatal_network ("all download URLs failed:" +:+ show (10%Z :: lit "  - ")
                 +:+ show (join_with (10%Z :: lit "  - ") failures)).

Definition download_first_success (source_name : bytes) (urls : list bytes) (temp_dir : path)
  : download (result HttpOriginError path) :=
  let download_path := temp_dir ++ [lit "download.blob"] in
  let operation := SourceOperation source_name in
  let policy := production_policy in
  let walk :=
    await first := first_pass operation policy download_path urls in
    match first with
    | Err ended => NRet ended
    | Ok states =>
        let remaining := Z.max 0 (attempts policy - 1) in
        await second := (if 0 <? remaining
                         then second_pass operation policy download_path remaining (combine urls states)
                         else NRet (Ok states)) in
        match second with
        | Err ended => NRet ended
        | Ok states => NRet (Err (all_failed urls states))
        end
    end in
  await stale := ask (NExists download_path) in
  if stale then
    await removed := ask (NRemoveFile download_path) in
    match removed with
    | Err error =>
        NRet (Err (FsFailed ("failed to remove stale download '" +:+ display_path download_path +:+ "': "
                             +:+ io_text error)))
    | Ok _ => walk
    end
  else walk.
End Walk.

(** ** The scheduled repository transport *)

Section Transport.
Context `{JitterApi}.

Definition remove_partial (p : path) : net RepositoryError FetchResult (result RepositoryError unit) :=
  await removed := ask (NRemoveFile p) in
  NRet match removed with
       | Ok _ => Ok tt
       | Err error =>
           if bool_decide (io_kind error = NotFound) then Ok tt
           else Err (repo_local_io ("failed to remove partial repository response '" +:+ display_path p +:+ "': "
                               +:+ io_text error))
       end.

(** [ScheduledRepositoryTransport::fetch]. *)
Definition scheduled_fetch (repository : bytes) (policy : HttpRetryPolicy) (purpose : FetchPurpose) (url : bytes)
    (destination : path) : net RepositoryError FetchResult (result RepositoryError FetchResult) :=
  await answer := run_attempts (mkScheduledAttempts (repository_operation repository purpose) url policy
                                  (attempts policy) 0) in
  match answer with
  | Ok fetched => NRet (Ok fetched)
  | Err (error, _) =>
      await removed := remove_partial destination in
      NRet (removed ;;; Err error)
  end.
End Transport.

(** ** The pull of an image

    [fetch_oci_source] after parsing its origin: the permits of the registry are held
    for the whole pull, and dropped at the end, behind the discarded layers. *)
Definition fetch_oci_source (host image : bytes) (temp_dir : path)
  : net string path (result string path) :=
  await permits := acquire host in
  if negb permits then NRet (Err "cancelled")
  else
    await answer := ask (NTransfer host image 1) in
    let staged := match answer with Some transferred => t_result transferred | None => Err "cancelled" end in
    perform (if is_ok staged then NRet tt else ask (NDiscard temp_dir)) in
    perform drop_permits host in
    NRet staged.
