(* ===== verification/NetworkPool.v ===== *)
(** * Tasks on shared semaphores

    Any number of sources, repository fetches and image pulls run their programs of
    [Network] on the semaphores of one scheduler, interleaved in any order, while the
    run may be cancelled at any time.  The file has the machine, a typing of programs by
    the permits they hold, and what follows: the limits on connections hold, and every
    schedule comes to an end. *)

From S2P Require Import Prelude Errors Posix Http Reader Network.

(** ** The machine

    [token] is the cancellation token of the run, [watch] the channel behind
    [until_cancelled]; a semaphore is the number of its free permits, and that of a host
    is made on demand. *)

Record Shared := mkShared { token : bool; watch : bool; hosts : gmap bytes nat; global : nat }.
Definition set_hosts (st : Shared) (h : gmap bytes nat) : Shared := mkShared (token st) (watch st) h (global st).
Definition set_global (st : Shared) (n : nat) : Shared := mkShared (token st) (watch st) (hosts st) n.
Definition stopping (st : Shared) : bool := token st || watch st.

(** A spawned task. *)
Record Task := mkTask {
  t_error : Type;
  t_value : Type;
  t_outcome : Type;
  t_some_error : t_error;
  t_program : net t_error t_value t_outcome;
}.

Inductive Job :=
| SourceJob (name : bytes) (urls : list bytes) (temp_dir : path)
| RepositoryJob (repository : bytes) (purpose : FetchPurpose) (url : bytes) (destination : path)
| ImageJob (host image : bytes) (temp_dir : path).

Section Pool.
Context `{JitterApi} (limits : NetworkLimits).

Definition host_limit (host : bytes) : nat := Z.to_nat (for_host limits host).
Definition run_limit : nat := Z.to_nat (Z.max (max_connections limits) 1).
Definition available (st : Shared) (host : bytes) : nat := default (host_limit host) (hosts st !! host).

(** The answers an operation may get in a state. *)
Definition answers {E T : Type} (st : Shared) (o : NetOp) : Answer E T o -> Shared -> Prop :=
  match o with
  | NIsCancelled => fun r st' => r = token st /\ st' = st
  | NHostPermit host => fun r st' =>
      if r then exists n, available st host = S n /\ st' = set_hosts st (<[host := n]> (hosts st))
      else stopping st = true /\ st' = st
  | NGlobalPermit => fun r st' =>
      if r then exists n, global st = S n /\ st' = set_global st n else stopping st = true /\ st' = st
  | NDropHost host => fun _ st' => st' = set_hosts st (<[host := S (available st host)]> (hosts st))
  | NDropGlobal => fun _ st' => st' = set_global st (S (global st))
  | NTransfer _ _ _ => fun r st' => (r = None -> stopping st = true) /\ st' = st
  | NSleep _ => fun r st' => (r = false -> stopping st = true) /\ st' = st
  | NEmit _ | NDiscard _ => fun _ st' => st' = st
  | NExists _ => fun _ st' => st' = st
  | NRemoveFile _ => fun _ st' => st' = st
  | NUnreachable _ => fun _ _ => False
  end.

(** One task moves by one operation. *)
Definition moves (st : Shared) (t : Task) (st' : Shared) (t' : Task) : Prop :=
  match t with
  | mkTask E T A e (NDo o k) => exists r : Answer E T o, answers st o r st' /\ t' = mkTask E T A e (k r)
  | mkTask _ _ _ _ (NRet _) => False
  end.
Definition finished (t : Task) : Prop := match t_program t with NRet _ => True | NDo _ _ => False end.

Definition task_step (c c' : Shared * list Task) : Prop :=
  exists i t t', c.2 !! i = Some t /\ moves c.1 t c'.1 t' /\ c'.2 = <[i := t']> c.2.

(** [NetworkScheduler::cancel] cancels the token and then signals the channel; a signal
    to the process only cancels the token. *)
Inductive cancel_step : Shared * list Task -> Shared * list Task -> Prop :=
| cancel_token st ts : token st = false ->
    cancel_step (st, ts) (mkShared true (watch st) (hosts st) (global st), ts)
| cancel_watch st ts : token st = true -> watch st = false ->
    cancel_step (st, ts) (mkShared true true (hosts st) (global st), ts).

Definition step (c c' : Shared * list Task) : Prop := task_step c c' \/ cancel_step c c'.

Definition start_job (j : Job) : Task :=
  match j with
  | SourceJob name urls temp_dir =>
      mkTask HttpOriginError unit _ cancelled_error (download_first_success name urls temp_dir)
  | RepositoryJob repository purpose url destination =>
      mkTask RepositoryError FetchResult _ cancelled
        (scheduled_fetch repository production_policy purpose url destination)
  | ImageJob host image temp_dir => mkTask string path _ EmptyString (fetch_oci_source host image temp_dir)
  end.

(** [NetworkScheduler::new]. *)
Definition new_scheduler (is_cancelled : bool) : Shared := mkShared is_cancelled is_cancelled ∅ run_limit.
Definition start (is_cancelled : bool) (jobs : list Job) : Shared * list Task :=
  (new_scheduler is_cancelled, map start_job jobs).

(** What a task is doing. *)
Definition transfers_on (host : bytes) (t : Task) : bool :=
  match t_program t with NDo (NTransfer h _ _) _ => bytes_eqb h host | _ => false end.
Definition transfers (t : Task) : bool :=
  match t_program t with NDo (NTransfer _ _ _) _ => true | _ => false end.
Definition pauses (t : Task) : bool :=
  match t_program t with NRet _ | NDo (NSleep _) _ => true | _ => false end.

(** ** The permits a program holds *)

Abbreviation slot := (option bytes * bool)%type.
Definition idle : slot := (None, false).

Definition needs (o : NetOp) (s : slot) : Prop :=
  match o with
  | NHostPermit _ | NSleep _ => s = idle
  | NGlobalPermit => exists host, s = (Some host, false)
  | NDropHost host => s.1 = Some host
  | NDropGlobal => s.2 = true
  | NTransfer host _ _ => s = (Some host, true)
  | NUnreachable _ => False
  | _ => True
  end.
Definition after {E T : Type} (o : NetOp) (s : slot) : Answer E T o -> slot :=
  match o with
  | NHostPermit host => fun r => if r then (Some host, s.2) else s
  | NGlobalPermit => fun r => if r then (s.1, true) else s
  | NDropHost _ => fun _ => (None, s.2)
  | NDropGlobal => fun _ => (s.1, false)
  | _ => fun _ => s
  end.

Fixpoint typed {E T A : Type} (s : slot) (m : net E T A) (Q : A -> slot -> Prop) : Prop :=
  match m with
  | NRet a => Q a s
  | NDo o k => needs o s /\ forall r, typed (after o s r) (k r) Q
  end.

Lemma typed_weaken {E T A} s (m : net E T A) (Q R : A -> slot -> Prop) :
  (forall a s', Q a s' -> R a s') -> typed s m Q -> typed s m R.
Proof.
  intros HQ. revert s. induction m as [a|o k IH]; intros s; cbn; [apply HQ|].
  intros [Hn Hk]. split; [done|]. intros r. by apply IH.
Qed.
Lemma typed_bind {E T A B} s (m : net E T A) (f : A -> net E T B) Q :
  typed s m (fun a s' => typed s' (f a) Q) -> typed s (nbind m f) Q.
Proof.
  revert s. induction m as [a|o k IH]; intros s; cbn; [done|].
  intros [Hn Hk]. split; [done|]. intros r. by apply IH.
Qed.
Lemma typed_seq {E T A B} s (m : net E T A) (f : A -> net E T B) P Q :
  typed s m P -> (forall a s', P a s' -> typed s' (f a) Q) -> typed s (nbind m f) Q.
Proof. intros Hm Hf. apply typed_bind. by eapply typed_weaken. Qed.

(** The usual contract: from no permits to no permits. *)
Definition returns {E T A : Type} (m : net E T A) : Prop := typed idle m (fun _ s => s = idle).
Lemma returns_bind {E T A B} (m : net E T A) (f : A -> net E T B) :
  returns m -> (forall a, returns (f a)) -> returns (nbind m f).
Proof. intros Hm Hf. eapply typed_seq; [exact Hm|]. intros a s ->. apply Hf. Qed.
Lemma returns_ret {E T A} (a : A) : returns (E := E) (T := T) (NRet a).
Proof. done. Qed.
Lemma returns_ask {E T} o :
  needs o idle -> (forall r, after (E := E) (T := T) o idle r = idle) -> returns (E := E) (T := T) (ask o).
Proof. intros Hn Ha. split; [done|]. intros r. apply Ha. Qed.
Lemma returns_emit {E T} operation host url kind : returns (E := E) (T := T) (emit operation host url kind).
Proof. by apply returns_ask. Qed.

Lemma acquire_typed {E T} host :
  typed (E := E) (T := T) idle (acquire host) (fun b s => s = if b then (Some host, true) else idle).
Proof.
  unfold acquire, run_is_cancelled. cbn. split; [done|]. intros [|]; [done|]. cbn. split; [done|].
  intros [|]; cbn; [|done]. split; [by eexists|]. intros [|]; cbn; [|split; [done|by intros r]].
  split; [done|]. intros [|]; cbn; [|done]. split; [done|]. intros _r. split; [done|]. by intros r.
Qed.
Lemma drop_typed {E T} host :
  typed (E := E) (T := T) (Some host, true) (drop_permits host) (fun _ s => s = idle).
Proof. cbn. split; [done|]. intros _r. split; [done|]. by intros r. Qed.
Lemma wait_returns {E T} operation host url attempt attempts delay error :
  returns (E := E) (T := T) (wait_before_retry operation host url attempt attempts delay error).
Proof.
  apply returns_bind; [apply returns_emit|]. intros _r. apply returns_bind; [by apply returns_ask|].
  intros [|]; [done|]. apply returns_bind; [apply returns_emit|]. done.
Qed.

Lemma attempt_loop_returns {E T} `{!ScheduledNetworkError E} scheduled remaining index :
  (sa_attempts_here scheduled = index + Z.of_nat remaining)%Z ->
  returns (attempt_loop (E := E) (T := T) scheduled (S remaining) index).
Proof.
  revert index. induction remaining as [|remaining IH]; intros index Hn.
  all: cbn [attempt_loop]; eapply typed_seq; [apply acquire_typed|]; intros [|] s ->; cbn [negb];
    [|apply returns_bind; [apply returns_emit|done]].
  all: split; [done|]; intros _r; split; [done|]; intros answer.
  all: cbn [nbind]; eapply typed_seq; [apply drop_typed|]; intros _ s ->.
  all: destruct (match answer with Some _ => _ | None => _ end) as [value|error].
  all: try (destruct (match answer with Some _ => _ | None => _ end) as [[? ?] ?];
            apply returns_bind; [apply returns_emit|done]).
  all: apply returns_bind; [destruct (is_cancelled error); [done|by apply returns_ask]|]; intros [|];
    [apply returns_bind; [apply returns_emit|done]|].
  all: destruct (retry error); [apply returns_bind; [apply returns_emit|done]|].
  all: destruct (Z.eqb_spec index (sa_attempts_here scheduled));
    [apply returns_bind; [apply returns_emit|done]|]; try lia.
  apply returns_bind; [apply wait_returns|]. intros [|]; [|done]. apply IH. lia.
Qed.
Lemma run_attempts_returns {E T} `{!ScheduledNetworkError E} scheduled :
  (1 <= sa_attempts_here scheduled)%Z -> returns (run_attempts (E := E) (T := T) scheduled).
Proof.
  intros Hn. unfold run_attempts.
  replace (Z.to_nat (sa_attempts_here scheduled)) with (S (Z.to_nat (sa_attempts_here scheduled - 1))) by lia.
  apply attempt_loop_returns. lia.
Qed.

Lemma first_pass_returns operation policy download_path urls :
  returns (first_pass operation policy download_path urls).
Proof.
  induction urls as [|url urls IH]; [done|]. cbn [first_pass]. apply returns_bind; [by apply returns_ask|].
  intros [|]; [done|]. apply returns_bind; [apply run_attempts_returns; cbn; lia|]. intros [v|[e made]]; [done|].
  apply returns_bind; [apply returns_bind; [by apply returns_ask|done]|]. intros _.
  apply returns_bind; [exact IH|done].
Qed.
Lemma second_pass_returns operation policy download_path remaining tried :
  (1 <= remaining)%Z -> returns (second_pass operation policy download_path remaining tried).
Proof.
  intros Hr. induction tried as [|[url state] tried IH]; [done|]. cbn [second_pass].
  destruct (worth_retrying state); cbn [negb]; [|by apply returns_bind; [exact IH|]].
  apply returns_bind; [by apply returns_ask|]. intros [|]; [done|].
  apply returns_bind; [apply wait_returns|]. intros [|]; cbn [negb]; [|done].
  apply returns_bind; [by apply run_attempts_returns|]. intros [v|[e made]]; [done|].
  apply returns_bind; [apply returns_bind; [by apply returns_ask|done]|]. intros _.
  by apply returns_bind; [exact IH|].
Qed.
Lemma download_returns name urls temp_dir : returns (download_first_success name urls temp_dir).
Proof.
  unfold download_first_success. apply returns_bind; [by apply returns_ask|].
  assert (Hwalk : returns (
    await first := first_pass (SourceOperation name) production_policy (temp_dir ++ [lit "download.blob"]) urls in
    match first with
    | Err ended => NRet ended
    | Ok states =>
        let remaining := Z.max 0 (attempts production_policy - 1) in
        await second := (if (0 <? remaining)%Z
                         then second_pass (SourceOperation name) production_policy
                                (temp_dir ++ [lit "download.blob"]) remaining (combine urls states)
                         else NRet (Ok states)) in
        match second with
        | Err ended => NRet ended
        | Ok states => NRet (Err (all_failed urls states))
        end
    end)).
  { apply returns_bind; [apply first_pass_returns|]. intros [states|ended]; [|done].
    apply returns_bind; [by apply second_pass_returns|]. by intros []. }
  intros [|]; [|exact Hwalk]. apply returns_bind; [by apply returns_ask|]. intros [|]; [exact Hwalk|done].
Qed.
Lemma scheduled_fetch_returns repository purpose url destination :
  returns (scheduled_fetch repository production_policy purpose url destination).
Proof.
  apply returns_bind; [by apply run_attempts_returns|]. intros [fetched|[e made]]; [done|].
  apply returns_bind; [apply returns_bind; [by apply returns_ask|done]|done].
Qed.
Lemma fetch_oci_returns host image temp_dir : returns (fetch_oci_source host image temp_dir).
Proof.
  eapply typed_seq; [apply acquire_typed|]. intros [|] s ->; [|done]. cbn [negb].
  split; [done|]. intros answer. cbn [nbind].
  destruct (is_ok _); [|split; [done|]; intros _r]; cbn [nbind];
    (eapply typed_seq; [apply drop_typed|]; by intros _ s ->).
Qed.

Definition well_typed (s : slot) (t : Task) : Prop := typed s (t_program t) (fun _ s' => s' = idle).
Lemma start_job_typed j : well_typed idle (start_job j).
Proof.
  destruct j; [apply download_returns|apply scheduled_fetch_returns|apply fetch_oci_returns].
Qed.

(** ** The invariant *)

Definition holds (host : bytes) (s : slot) : nat := if bool_decide (s.1 = Some host) then 1 else 0.
Lemma holds_eq host s : holds host s = (if bool_decide (s.1 = Some host) then 1 else 0)%nat.
Proof. done. Qed.
Definition holds_run (s : slot) : nat := if s.2 then 1 else 0.
Lemma holds_run_eq s : holds_run s = (if s.2 then 1 else 0)%nat.
Proof. done. Qed.
Definition count (f : slot -> nat) (slots : list slot) : nat := sum_list_with f slots.

Lemma count_insert f slots i s s' :
  slots !! i = Some s -> (count f (<[i := s']> slots) + f s = count f slots + f s')%nat.
Proof.
  unfold count. revert i. induction slots as [|s0 slots IH]; intros [|i] Hi; cbn in Hi; simplify_eq; [cbn; lia|].
  specialize (IH i Hi). change (<[S i := s']> (s0 :: slots)) with (s0 :: <[i := s']> slots). cbn. lia.
Qed.

Definition balanced (st : Shared) (slots : list slot) : Prop :=
  (forall host, available st host + count (holds host) slots = host_limit host)%nat /\
  (global st + count holds_run slots = run_limit)%nat.
Definition pool_ok (c : Shared * list Task) : Prop :=
  exists slots, Forall2 well_typed slots c.2 /\ balanced c.1 slots.

Lemma available_insert st h n h' :
  available (set_hosts st (<[h := n]> (hosts st))) h' = if bool_decide (h = h') then n else available st h'.
Proof.
  unfold available, set_hosts. cbn. case_bool_decide; [subst; by rewrite lookup_insert_eq|by rewrite lookup_insert_ne].
Qed.

(** What an answer does to the permits of the task that gets it. *)
Lemma answer_balances {E T} st o (r : Answer E T o) st' s slots i :
  answers st o r st' -> needs o s -> slots !! i = Some s -> balanced st slots ->
  balanced st' (<[i := after o s r]> slots).
Proof.
  intros Ha Hn Hi [Hh Hg].
  assert (Hkeep : forall s', s' = s -> st' = st -> balanced st' (<[i := s']> slots))
    by (intros ? -> ->; rewrite list_insert_id; done).
  pose proof (fun f s' => count_insert f slots i s s' Hi) as Hc.
  destruct o; cbn in Ha, Hn, r |- *; try (apply Hkeep; [done|by destruct Ha]); try (by apply Hkeep).
  - destruct r; [|by apply Hkeep; [|apply Ha]]. destruct Ha as (n & Hn' & ->). subst s. split; [|].
    + intros host'. specialize (Hc (holds host') (Some host, false)). specialize (Hh host').
      rewrite available_insert. rewrite !holds_eq in Hc. cbn in Hc. unfold idle in *. cbn in *.
      repeat case_bool_decide; simplify_eq; lia.
    + specialize (Hc holds_run (Some host, false)). rewrite !holds_run_eq in Hc. cbn in *. lia.
  - destruct r; [|by apply Hkeep; [|apply Ha]]. destruct Ha as (n & Hn' & ->). destruct Hn as [host ->]. split.
    + intros host'. specialize (Hc (holds host') (Some host, true)). specialize (Hh host').
      unfold available, set_global in *. rewrite !holds_eq in Hc. cbn in *. lia.
    + specialize (Hc holds_run (Some host, true)). rewrite !holds_run_eq in Hc. cbn in *. lia.
  - subst st'. destruct s as [h g]. cbn in *. subst h. split.
    + intros host'. specialize (Hc (holds host') (None, g)). specialize (Hh host').
      rewrite available_insert. rewrite !holds_eq in Hc. cbn in Hc. repeat case_bool_decide; simplify_eq; lia.
    + specialize (Hc holds_run (None, g)). rewrite !holds_run_eq in Hc. cbn in *. lia.
  - subst st'. destruct s as [h g]. cbn in *. subst g. split.
    + intros host'. specialize (Hc (holds host') (h, false)). specialize (Hh host').
      unfold available, set_global in *. rewrite !holds_eq in Hc. cbn in *. lia.
    + specialize (Hc holds_run (h, false)). rewrite !holds_run_eq in Hc. cbn in *. lia.
Qed.

Lemma start_ok c jobs : pool_ok (start c jobs).
Proof.
  exists (map (fun _ => idle) jobs). split; [|split].
  - cbn. induction jobs as [|j jobs IH]; constructor; [apply start_job_typed|done].
  - intros host. unfold available. cbn. rewrite lookup_empty. cbn.
    induction jobs as [|j jobs IH]; [by cbn; rewrite Nat.add_0_r|exact IH].
  - cbn. induction jobs as [|j jobs IH]; [by cbn; rewrite Nat.add_0_r|exact IH].
Qed.

Lemma moves_typed st t st' t' s slots i :
  moves st t st' t' -> well_typed s t -> slots !! i = Some s -> balanced st slots ->
  exists s', well_typed s' t' /\ balanced st' (<[i := s']> slots).
Proof.
  intros Hm Ht Hi Hb. destruct t as [E T A e [a|o k]]; [done|]. destruct Hm as (r & Ha & ->).
  destruct Ht as [Hn Hk]. exists (after o s r). split; [apply Hk|by eapply answer_balances].
Qed.

Lemma step_ok c c' : pool_ok c -> step c c' -> pool_ok c'.
Proof.
  intros (slots & Hts & Hb) [(i & t & t' & Hi & Hm & Hc)|Hs].
  - destruct (Forall2_lookup_r _ _ _ _ _ Hts Hi) as (s & Hs & Ht).
    destruct (moves_typed _ _ _ _ _ _ _ Hm Ht Hs Hb) as (s' & Ht' & Hb').
    exists (<[i := s']> slots). split; [|done]. rewrite Hc. by apply Forall2_insert.
  - exists slots. by destruct Hs.
Qed.
Lemma reachable_ok c jobs st : rtc step (start c jobs) st -> pool_ok st.
Proof.
  intros Hr. remember (start c jobs) as st0 eqn:He.
  assert (H0 : pool_ok st0) by (subst; apply start_ok). clear He.
  induction Hr; [done|]. by eapply IHHr, step_ok.
Qed.

Lemma counted (p : Task -> bool) f slots ts :
  (forall s t, well_typed s t -> p t = true -> f s = 1%nat) -> Forall2 well_typed slots ts ->
  (length (filter (fun t => p t = true) ts) <= count f slots)%nat.
Proof.
  intros Hp. induction 1 as [|s t slots ts Ht Hts IH]; [done|]. rewrite filter_cons. unfold count in *. cbn.
  case_decide as Hd; cbn; [rewrite (Hp s t) by done|]; lia.
Qed.
Lemma counted_none f slots ts :
  (forall s t, well_typed s t -> t ∈ ts -> f s = 0%nat) -> Forall2 well_typed slots ts -> count f slots = 0%nat.
Proof.
  intros Hp Hts. induction Hts as [|s t slots ts Ht Hts IH]; [done|]. unfold count in *. cbn.
  rewrite (Hp s t) by (done || apply list_elem_of_here). rewrite IH; [done|].
  intros s' t' Ht' Hin. apply (Hp s' t'); [done|by apply list_elem_of_further].
Qed.

Lemma transfer_slot s t host : well_typed s t -> transfers_on host t = true -> s = (Some host, true).
Proof.
  destruct t as [E T A e [a|[] k]]; cbn; try done. intros [-> _] Hh. by apply bool_decide_eq_true_1 in Hh as ->.
Qed.
Lemma pause_slot s t : well_typed s t -> pauses t = true -> s = idle.
Proof. destruct t as [E T A e [a|[] k]]; cbn; try done. by intros [-> _]. Qed.

(** C20. However many sources, repository fetches and image pulls run at once, in whatever
    order their operations interleave and whenever the run is cancelled: at most
    [for_host] transfers are under way to a host and at most [max_connections] in all.
    And a task that waits for a retry, or has ended, holds no slot: when every task does,
    all permits are free. *)
Theorem connection_limits_hold is_cancelled jobs st ts :
  rtc step (start is_cancelled jobs) (st, ts) ->
  (forall host, length (filter (fun t => transfers_on host t = true) ts) <= host_limit host)%nat /\
  (length (filter (fun t => transfers t = true) ts) <= run_limit)%nat /\
  (Forall (fun t => pauses t = true) ts -> (forall host, available st host = host_limit host) /\ global st = run_limit).
Proof.
  intros Hr. apply reachable_ok in Hr as (slots & Hts & Hh & Hg). cbn in Hts, Hh, Hg. split_and!.
  - intros host. specialize (Hh host). pose proof (counted (transfers_on host) (holds host) slots ts) as Hc.
    assert (H1 : forall s t, well_typed s t -> transfers_on host t = true -> holds host s = 1%nat).
    { intros s t Ht Hp. rewrite (transfer_slot s t host Ht Hp), holds_eq. by rewrite bool_decide_true. }
    specialize (Hc H1 Hts). lia.
  - pose proof (counted transfers holds_run slots ts) as Hc.
    assert (H1 : forall s t, well_typed s t -> transfers t = true -> holds_run s = 1%nat).
    { intros s t Ht Hp. destruct t as [E T A e [a|[] k]]; try done. by destruct Ht as [-> _]. }
    specialize (Hc H1 Hts). lia.
  - intros Hp. rewrite Forall_forall in Hp.
    assert (H0 : forall f, f idle = 0%nat -> count f slots = 0%nat).
    { intros f Hf. eapply counted_none; [|exact Hts]. intros s t Ht Hin. by rewrite (pause_slot s t Ht (Hp t Hin)). }
    split; [intros host; specialize (Hh host); specialize (H0 (holds host)); rewrite holds_eq in H0|];
      [|specialize (H0 holds_run)]; cbn in H0; specialize (H0 eq_refl); lia.
Qed.

(** ** Every schedule ends *)

(** A task that is not finished can take its next operation, unless it waits for a permit
    that is not free. *)
Lemma unfinished_moves st s t :
  well_typed s t ->
  finished t \/ (exists st' t', moves st t st' t') \/
  (exists host, s = idle /\ available st host = 0%nat) \/
  (exists host, s = (Some host, false) /\ global st = 0%nat).
Proof.
  intros Ht. destruct t as [E T A e [a|o k]]; [by left|]. right. destruct Ht as [Hn _].
  assert (Hmove : forall (r : Answer E T o) st', answers st o r st' -> exists st' t', moves st (mkTask E T A e (NDo o k)) st' t')
    by (intros r st' Ha; exists st', (mkTask E T A e (k r)); by exists r).
  destruct o; cbn in Hn; try done.
  - left. by eapply (Hmove (token st) st).
  - destruct (available st host) as [|n] eqn:Hav; [right; left; by exists host|].
    left. eapply (Hmove true). by exists n.
  - destruct (global st) as [|n] eqn:Hav; [right; right; destruct Hn as [host ->]; by exists host|].
    left. eapply (Hmove true). by exists n.
  - left. by eapply (Hmove tt).
  - left. by eapply (Hmove tt).
  - left. by eapply (Hmove (Some (mkTransferred (Err e) 0%Z None 0%Z)) st).
  - left. by eapply (Hmove true st).
  - left. by eapply (Hmove tt st).
  - left. by eapply (Hmove true st).
  - left. by eapply (Hmove (Ok tt) st).
  - left. by eapply (Hmove tt st).
Qed.

Lemma limits_positive host : (1 <= host_limit host /\ 1 <= run_limit)%nat.
Proof. unfold host_limit, run_limit, for_host. lia. Qed.

#[local] Instance finished_dec t : Decision (finished t).
Proof. destruct t as [E T A e [a|o k]]; [left; exact I|right; intros []]. Defined.
Lemma finished_slot s t : well_typed s t -> finished t -> s = idle.
Proof. by destruct t as [E T A e [a|o k]]. Qed.
Lemma count_positive f slots :
  (0 < count f slots)%nat -> exists i s, slots !! i = Some s /\ f s <> 0%nat.
Proof.
  unfold count. induction slots as [|s slots IH]; cbn; [lia|]. destruct (decide (f s = 0%nat)) as [H0|H0].
  - intros Hc. destruct IH as (i & s' & Hi & Hf); [lia|]. by exists (S i), s'.
  - intros _. by exists 0%nat, s.
Qed.

(** No deadlock: a task waiting for the permit of a host holds none, and one waiting for
    that of the run holds only that of a host. *)
Lemma pool_progress c : pool_ok c -> Forall finished c.2 \/ exists c', task_step c c'.
Proof.
  intros (slots & Hts & Hh & Hg). destruct c as [st ts]. cbn in *.
  assert (Hcan : forall i s, slots !! i = Some s -> s <> idle -> (s.2 = false -> global st <> 0%nat) ->
                 exists c', task_step (st, ts) c').
  { intros i s Hs Hne Hfree. destruct (Forall2_lookup_l _ _ _ _ _ Hts Hs) as (t & Hi & Ht).
    destruct (unfinished_moves st s t Ht) as [Hf|[(st' & t' & Hm)|[(h & -> & _)|(h & -> & H0)]]]; [|by exists (st', <[i := t']> ts), i, t, t'|done|].
    - by apply (finished_slot s t Ht) in Hf.
    - by apply Hfree in H0. }
  destruct (decide (global st = 0%nat)) as [H0|H0].
  - right. destruct (count_positive holds_run slots) as (i & s & Hs & Hf); [pose proof (limits_positive []); lia|].
    rewrite holds_run_eq in Hf. destruct s as [h [|]]; [|done]. eapply Hcan; [exact Hs|by intros [=]|done].
  - destruct (decide (Forall finished ts)) as [Hall|Hnot]; [by left|right].
    apply not_Forall_Exists in Hnot; [|apply _]. apply Exists_exists in Hnot as (t & Hin & Hf).
    apply list_elem_of_lookup in Hin as [i Hi]. destruct (Forall2_lookup_r _ _ _ _ _ Hts Hi) as (s & Hs & Ht).
    destruct (unfinished_moves st s t Ht) as [Hf'|[(st' & t' & Hm)|[(h & -> & Hz)|(h & -> & Hz)]]];
      [done|by exists (st', <[i := t']> ts), i, t, t'| |done].
    destruct (count_positive (holds h) slots) as (j & s & Hj & Hne);
      [specialize (Hh h); pose proof (limits_positive h); lia|].
    rewrite holds_eq in Hne. case_bool_decide; [|done]. eapply Hcan; [exact Hj| |done]. by intros ->.
Qed.

(** *** Termination *)

(** What a task may become by one operation. *)
Definition later (t' t : Task) : Prop :=
  match t with
  | mkTask E T A e (NDo o k) => exists r, t' = mkTask E T A e (k r)
  | mkTask _ _ _ _ (NRet _) => False
  end.
Lemma later_wf t : Acc later t.
Proof.
  destruct t as [E T A e m]. induction m as [a|o k IH]; constructor; intros t'; [done|]. intros [r ->]. apply IH.
Qed.

(** One task of a list moves. *)
Inductive one_later : list Task -> list Task -> Prop :=
| one_here t' t ts : later t' t -> one_later (t' :: ts) (t :: ts)
| one_there t ts' ts : one_later ts' ts -> one_later (t :: ts') (t :: ts).
Lemma one_later_insert ts i t t' : ts !! i = Some t -> later t' t -> one_later (<[i := t']> ts) ts.
Proof.
  revert i. induction ts as [|t0 ts IH]; intros [|i] Hi Hl; try done; cbn in Hi; simplify_eq.
  - by apply one_here.
  - apply one_there. by apply IH.
Qed.
Lemma one_later_wf ts : Acc one_later ts.
Proof.
  induction ts as [|t ts IH]; [constructor; by inversion 1|].
  revert t. induction IH as [ts Hts IHts]. intros t. induction (later_wf t) as [t Ht IHt].
  constructor. intros ts' Hs. inversion Hs; subst; [by apply IHt|by apply IHts].
Qed.

(** Whatever the tasks and the cancellation do, the state is reached. *)
Inductive inevitable (P : Shared * list Task -> Prop) : Shared * list Task -> Prop :=
| reached c : P c -> inevitable P c
| ahead c : (exists c', task_step c c') -> (forall c', step c c' -> inevitable P c') -> inevitable P c.

(** The cancellations still to come. *)
Definition to_cancel (st : Shared) : nat := (if token st then 0 else 1) + (if watch st then 0 else 1).

Lemma moves_later st t st' t' : moves st t st' t' -> later t' t.
Proof. destruct t as [E T A e [a|o k]]; [done|]. intros (r & _ & ->). by exists r. Qed.

(** C21. Nothing blocks for ever: from every state that sources, fetches and pulls on one
    scheduler can reach, some task can go on as long as one is unfinished, and whatever
    order the tasks take and whenever the run is cancelled, all of them end. *)
Theorem scheduled_tasks_end is_cancelled jobs c :
  rtc step (start is_cancelled jobs) c -> inevitable (fun c => Forall finished c.2) c.
Proof.
  intros Hr. apply reachable_ok in Hr. destruct c as [st ts]. revert st Hr.
  induction (one_later_wf ts) as [ts _ IHts]. intros st. remember (to_cancel st) as n eqn:Hn. revert st Hn.
  induction n as [n IHn] using lt_wf_ind. intros st -> Hok.
  destruct (pool_progress _ Hok) as [Hf|Hp]; [by apply reached|]. apply ahead; [done|].
  intros [st' ts'] Hs. pose proof (step_ok _ _ Hok Hs) as Hok'. destruct Hs as [(i & t & t' & Hi & Hm & Hts)|Hs].
  - cbn in *. subst ts'. apply IHts; [|done]. eapply one_later_insert; [done|]. by eapply moves_later.
  - inversion Hs as [? ? Ht|? ? Ht Hw]; subst; eapply IHn; try done; unfold to_cancel; cbn.
    + rewrite Ht. destruct (watch st); lia.
    + rewrite Ht, Hw. cbn. lia.
Qed.
End Pool.
