(* ===== verification/NetworkWalk.v ===== *)
(** * The walk over mirrors

    What [download_first_success] does as its environment sees it: the transfers it
    makes and the waits between them, against a description of the schedule that does
    without the records the program keeps per URL; and what a cancellation stops.  The environment answers each operation as it likes, but a
    cancelled run stays cancelled. *)

From S2P Require Import Prelude Errors Posix Elf Http Network NetworkPool.
Local Open Scope Z_scope.

(** What is seen of an answer: a transfer and its result, a completed wait, and that the
    task learned of the cancellation. *)
Inductive Seen (E T : Type) :=
| STransfer (url : bytes) (attempt : u32) (r : result E T)
| SWait (delay : Duration)
| SCancelled.
Arguments STransfer {E T} url attempt r.
Arguments SWait {E T} delay.
Arguments SCancelled {E T}.

Section Runs.
Context {E T : Type} `{!ScheduledNetworkError E}.
Abbreviation seen := (list (Seen E T)).

Definition told_if (b : bool) : seen := if b then [SCancelled] else [].
Definition sees (o : NetOp) : Answer E T o -> seen :=
  match o with
  | NIsCancelled => fun r => told_if r
  | NHostPermit _ | NGlobalPermit => fun r => told_if (negb r)
  | NTransfer _ url attempt => fun r =>
      match r with Some transferred => [STransfer url attempt (t_result transferred)] | None => [SCancelled] end
  | NSleep delay => fun r => if r then [SWait delay] else [SCancelled]
  | _ => fun _ => []
  end.

(** An answer the environment may give after [before]: a run does not become uncancelled,
    and a transfer does not call itself cancelled. *)
Definition consistent (before : seen) (o : NetOp) : Answer E T o -> Prop :=
  match o with
  | NIsCancelled => fun r => SCancelled ∈ before -> r = true
  | NTransfer _ _ _ => fun r =>
      match r with
      | Some transferred => match t_result transferred with Ok _ => True | Err e => is_cancelled e = false end
      | None => True
      end
  | _ => fun _ => True
  end.

(** [runs before m tr a]: after [before], the program may be seen to do [tr] and return [a]. *)
Inductive runs {A : Type} : seen -> net E T A -> seen -> A -> Prop :=
| runs_ret before a : runs before (NRet a) [] a
| runs_do before o k r tr a :
    consistent before o r -> runs (before ++ sees o r) (k r) tr a ->
    runs before (NDo o k) (sees o r ++ tr) a.

(** The weakest condition under which every run ends in [Q]. *)
Fixpoint always {A : Type} (before : seen) (m : net E T A) (Q : A -> seen -> Prop) : Prop :=
  match m with
  | NRet a => Q a []
  | NDo o k =>
      forall r, consistent before o r -> always (before ++ sees o r) (k r) (fun a tr => Q a (sees o r ++ tr))
  end.

Lemma always_runs {A} before (m : net E T A) Q :
  always before m Q -> forall tr a, runs before m tr a -> Q a tr.
Proof.
  intros Ha tr a Hr. revert Q Ha. induction Hr as [before a|before o k r tr a Hc Hr IH]; intros Q Ha; [done|].
  cbn in Ha. exact (IH _ (Ha r Hc)).
Qed.
Lemma always_weaken {A} before (m : net E T A) (Q R : A -> seen -> Prop) :
  (forall a tr, Q a tr -> R a tr) -> always before m Q -> always before m R.
Proof.
  revert before Q R. induction m as [a|o k IH]; intros before Q R HQ; cbn; [apply HQ|].
  intros Ha r Hc. eapply IH; [|by apply Ha]. intros a tr. apply HQ.
Qed.
Lemma always_bind {A B} before (m : net E T A) (f : A -> net E T B) Q :
  always before m (fun a tr => always (before ++ tr) (f a) (fun b tr' => Q b (tr ++ tr'))) ->
  always before (nbind m f) Q.
Proof.
  revert before Q. induction m as [a|o k IH]; intros before Q; cbn; [by rewrite app_nil_r|].
  intros Ha r Hc. apply IH. eapply always_weaken; [|by apply Ha].
  intros a tr. cbn. rewrite app_assoc. apply always_weaken. intros b tr'. by rewrite app_assoc.
Qed.
Lemma always_seq {A B} before (m : net E T A) (f : A -> net E T B) P Q :
  always before m P -> (forall a tr, P a tr -> always (before ++ tr) (f a) (fun b tr' => Q b (tr ++ tr'))) ->
  always before (nbind m f) Q.
Proof. intros Hm Hf. apply always_bind. by eapply always_weaken. Qed.
End Runs.

(** *** The scheduler *)

Section Scheduler.
Context `{JitterApi} {E T : Type} `{!ScheduledNetworkError E}.
Abbreviation seen := (list (Seen E T)).

(** The task was told of a cancellation, and did nothing after it. *)
Definition quiet (tr : seen) : Prop := Forall (fun s => s = SCancelled) tr.
Definition stops (tr : seen) : Prop :=
  exists before after, tr = before ++ SCancelled :: after /\ SCancelled ∉ before /\ quiet after.

Lemma stops_here after : quiet after -> stops (SCancelled :: after).
Proof. intros Hq. exists [], after. split; [done|]. split; [by apply not_elem_of_nil|done]. Qed.
Lemma stops_later tr tr' : SCancelled ∉ tr -> stops tr' -> stops (tr ++ tr').
Proof.
  intros Hn (b & a & -> & Hb & Ha). exists (tr ++ b), a. rewrite app_assoc. split; [done|]. set_solver.
Qed.
Lemma stops_quiet tr tr' : stops tr -> quiet tr' -> stops (tr ++ tr').
Proof.
  intros (b & a & -> & Hb & Ha) Hq. exists b, (a ++ tr'). rewrite <-app_assoc. split; [done|].
  split; [done|]. by apply Forall_app.
Qed.
Lemma stops_told tr : stops tr -> SCancelled ∈ tr.
Proof. intros (b & a & -> & _). set_solver. Qed.

(** How a part of the walk ends: as described, or stopped. *)
Definition done_or_stopped {A : Type} (P : A -> seen -> Prop) (stopped : A -> Prop) (a : A) (tr : seen) : Prop :=
  SCancelled ∉ tr /\ P a tr \/ stops tr /\ stopped a.

Lemma acquire_seen before host :
  always before (acquire (E := E) (T := T) host)
    (fun b tr => b = true /\ tr = [] \/ b = false /\ tr = [SCancelled]).
Proof.
  unfold acquire, run_is_cancelled. intros [|] _; cbn; [by right|]. intros [|] _; cbn; [|by right].
  intros [|] _; cbn; [|intros _r _; by right]. intros [|] _; cbn; [|by left].
  intros _r _. cbn. intros _r' _. by right.
Qed.
Lemma drop_seen before host : always before (drop_permits (E := E) (T := T) host) (fun _ tr => tr = []).
Proof. intros _r _ _r' _. done. Qed.
Lemma wait_seen before operation host url attempt attempts delay error :
  always before (wait_before_retry (E := E) (T := T) operation host url attempt attempts delay error)
    (fun b tr => b = true /\ tr = [SWait delay] \/ b = false /\ tr = [SCancelled]).
Proof. intros _r _. cbn. intros [|] _; cbn; [by left|]. intros _r' _. by right. Qed.

(** The attempts at one URL, of which [left] are left: one after another while the
    failures ask for it, each behind its wait, until one succeeds or is final.  When a
    failure asks for another attempt is an argument of the description. *)
Inductive Burst (again : E -> option Duration -> Prop) (policy : HttpRetryPolicy) (url : bytes) (spent : u32)
  : u32 -> nat -> seen -> result (E * u32) T -> Prop :=
| burst_ok index left v :
    Burst again policy url spent index (S left) [STransfer url (spent + index) (Ok v)] (Ok v)
| burst_final index left e : (forall after, ~ again e after) \/ left = 0%nat ->
    Burst again policy url spent index (S left) [STransfer url (spent + index) (Err e)] (Err (e, index))
| burst_again index left e after tr r :
    again e after -> Burst again policy url spent (index + 1) (S left) tr r ->
    Burst again policy url spent index (S (S left))
      (STransfer url (spent + index) (Err e)
       :: SWait (delay_before policy (spent + index + 1) after url) :: tr) r.

Lemma burst_same (P Q : E -> option Duration -> Prop) policy url spent index left tr r :
  (forall e after, P e after <-> Q e after) ->
  Burst P policy url spent index left tr r -> Burst Q policy url spent index left tr r.
Proof.
  intros HPQ. induction 1 as [| index left e Hn|]; [apply burst_ok|apply burst_final|eapply burst_again; [by apply HPQ|done]].
  destruct Hn as [Hn|Hn]; [left|by right]. intros after. by rewrite <-HPQ.
Qed.

(** As the scheduler asks the error. *)
Definition asks (e : E) (after : option Duration) : Prop := retry e = After after.

Lemma attempt_loop_seen before scheduled left index :
  sa_attempts_here scheduled = index + Z.of_nat left ->
  always before (attempt_loop (E := E) (T := T) scheduled (S left) index)
    (done_or_stopped
       (fun r tr => Burst asks (sa_policy scheduled) (sa_url scheduled) (sa_spent_before scheduled) index (S left) tr r)
       (fun r => exists made, r = Err (cancelled, made))).
Proof.
  revert before index. induction left as [|left IH]; intros before index Hn.
  all: cbn [attempt_loop]; eapply always_seq; [apply acquire_seen|]; intros permits tr [[-> ->]|[-> ->]]; cbn [negb];
    [|intros _r _; cbn; right; split; [apply stops_here; constructor|by eexists]].
  all: intros _r _ answer Hans; cbn [nbind]; eapply always_seq; [apply drop_seen|]; intros _ tr ->.
  all: cbn in answer, Hans; destruct answer as [transferred|];
    [|rewrite cancelled_is_cancelled; intros _r' _; cbn; right; split; [apply stops_here; constructor|by eexists]].
  all: destruct (t_result transferred) as [value|error] eqn:Hr;
    [intros _r' _; cbn; rewrite Hr; left; split; [set_solver|apply burst_ok]|].
  all: rewrite Hans; intros [|] _; cbn; rewrite Hr;
    [intros _r' _; right; split; [|by eexists]; cbn;
     apply (stops_later [_]); [set_solver|apply stops_here; constructor]|].
  all: destruct (retry error) as [|after] eqn:Hre;
    [intros _r' _; left; split; [set_solver|apply burst_final; left; unfold asks; congruence]|].
  all: destruct (Z.eqb_spec index (sa_attempts_here scheduled));
    [intros _r' _; left; split; [set_solver|apply burst_final; right; lia]|try lia].
  intros _r' _ [|] _.
  - eapply always_weaken; [|apply (IH _ (index + 1)); lia]. intros r tr [[Hs Hb]|[Hs Hm]]; [left|right].
    + split; [cbn; set_solver|]. by eapply burst_again.
    + split; [|done]. apply (stops_later [_; _]); [set_solver|done].
  - intros _r'' _. right. split; [|by eexists]. apply (stops_later [_]); [set_solver|]. apply stops_here. constructor.
Qed.

Lemma run_attempts_seen before scheduled left :
  sa_attempts_here scheduled = Z.of_nat (S left) ->
  always before (run_attempts (E := E) (T := T) scheduled)
    (done_or_stopped
       (fun r tr => Burst asks (sa_policy scheduled) (sa_url scheduled) (sa_spent_before scheduled) 1 (S left) tr r)
       (fun r => exists made, r = Err (cancelled, made))).
Proof. intros Hn. unfold run_attempts. rewrite Hn, Nat2Z.id. apply attempt_loop_seen. lia. Qed.

(** A burst for a run that was cancelled before. *)
Lemma run_attempts_told before scheduled left :
  SCancelled ∈ before -> sa_attempts_here scheduled = Z.of_nat (S left) ->
  always before (run_attempts (E := E) (T := T) scheduled) (fun r tr => quiet tr /\ is_ok r = false).
Proof.
  intros Hb Hn. unfold run_attempts. rewrite Hn, Nat2Z.id. intros [|] Hc; [|by specialize (Hc Hb)].
  intros _r _. cbn. split; [by repeat constructor|done].
Qed.
End Scheduler.

(** *** The walk *)

Section Walk.
Context `{JitterApi} (policy : HttpRetryPolicy) (download_path : path).
Abbreviation seen := (list (Seen HttpOriginError unit)).

(** First attempts that fail. *)
Definition failures (urls : list bytes) (errors : list HttpOriginError) : seen :=
  zip_with (fun url e => STransfer url 1 (Err e)) urls errors.
Definition tried_once (errors : list HttpOriginError) : list UrlAttemptState :=
  map (fun e => record untried e 1) errors.

(** The first pass: one attempt for each URL in order, until one succeeds. *)
Inductive FirstPass (urls : list bytes) : seen -> result (result HttpOriginError path) (list UrlAttemptState) -> Prop :=
| first_found before url after errors :
    urls = before ++ url :: after -> length errors = length before ->
    FirstPass urls (failures before errors ++ [STransfer url 1 (Ok tt)]) (Err (Ok download_path))
| first_failed errors :
    length errors = length urls -> FirstPass urls (failures urls errors) (Ok (tried_once errors)).

(** The second pass: for each URL whose failure is worth it, in order, a wait and a burst
    of the remaining attempts. *)
Inductive SecondPass (left : nat)
  : list (bytes * UrlAttemptState) -> seen -> result (result HttpOriginError path) (list UrlAttemptState) -> Prop :=
| second_end : SecondPass left [] [] (Ok [])
| second_skipped url state rest tr out :
    worth_retrying state = false -> SecondPass left rest tr out ->
    SecondPass left ((url, state) :: rest) tr (states <- out ;; Ok (state :: states))
| second_found url state rest tr :
    worth_retrying state = true -> Burst asks policy url (spent state) 1 left tr (Ok tt) ->
    SecondPass left ((url, state) :: rest)
      (SWait (delay_before policy (spent state + 1) (retry_after state) url) :: tr) (Err (Ok download_path))
| second_failed url state rest tr e made tr' out :
    worth_retrying state = true -> Burst asks policy url (spent state) 1 left tr (Err (e, made)) ->
    SecondPass left rest tr' out ->
    SecondPass left ((url, state) :: rest)
      (SWait (delay_before policy (spent state + 1) (retry_after state) url) :: tr ++ tr')
      (states <- out ;; Ok (record state e made :: states)).

(** A walk without a cancellation. *)
Inductive Walk (urls : list bytes) : seen -> result HttpOriginError path -> Prop :=
| walk_stale message : Walk urls [] (Err (FsFailed message))
| walk_first tr ended : FirstPass urls tr (Err ended) -> Walk urls tr ended
| walk_second tr states tr' ended :
    FirstPass urls tr (Ok states) -> SecondPass (Z.to_nat (attempts policy - 1)) (combine urls states) tr' (Err ended) ->
    Walk urls (tr ++ tr') ended
| walk_failed tr states tr' states' :
    FirstPass urls tr (Ok states) -> SecondPass (Z.to_nat (attempts policy - 1)) (combine urls states) tr' (Ok states') ->
    Walk urls (tr ++ tr') (Err (all_failed urls states')).

Definition no_download (out : result (result HttpOriginError path) (list UrlAttemptState)) : Prop :=
  match out with Err (Ok _) => False | _ => True end.

(** What is left to do of a pass, once the run is known to be cancelled. *)
Lemma first_pass_told before operation urls :
  SCancelled ∈ before ->
  always before (first_pass operation policy download_path urls) (fun out tr => quiet tr /\ no_download out).
Proof.
  intros Hb. destruct urls as [|url urls]; [split; [constructor|done]|]. intros [|] Hc; [split; [by repeat constructor|done]|].
  by specialize (Hc Hb).
Qed.
Lemma second_pass_told before operation left tried :
  SCancelled ∈ before ->
  always before (second_pass operation policy download_path left tried) (fun out tr => quiet tr /\ no_download out).
Proof.
  induction tried as [|[url state] tried IH]; intros Hb; [split; [constructor|done]|]. cbn [second_pass].
  destruct (worth_retrying state); cbn [negb].
  - intros [|] Hc; [split; [by repeat constructor|done]|]. by specialize (Hc Hb).
  - eapply always_seq; [by apply IH|]. intros out tr [Hq Hn]. cbn. rewrite app_nil_r. split; [done|].
    by destruct out as [|[]].
Qed.

Lemma first_pass_seen before operation urls :
  always before (first_pass operation policy download_path urls)
    (done_or_stopped (fun out tr => FirstPass urls tr out) no_download).
Proof.
  revert before. induction urls as [|url urls IH]; intros before.
  { left. split; [apply not_elem_of_nil|]. by apply (first_failed [] []). }
  cbn [first_pass]. intros [|] _; cbn; [right; split; [apply stops_here; constructor|done]|].
  eapply always_seq; [by apply (run_attempts_seen _ _ 0)|].
  intros answer tr [[Hs Hb]|[Hs [made ->]]].
  - inversion Hb as [? ? []|? ? e _|]; subst; cbn.
    + left. split; [set_solver|]. by apply (first_found _ [] url urls []).
    + intros _r _. cbn. eapply always_seq; [apply IH|]. intros out tr [[Hs' Hf]|[Hs' Hn]]; cbn; rewrite app_nil_r.
      * left. split; [set_solver|]. inversion Hf as [before' url' after errors -> Hl|errors Hl]; subst; cbn.
        -- refine (first_found _ (url :: before') url' after (e :: errors) _ _); cbn; [done|by rewrite Hl].
        -- refine (first_failed (url :: urls) (e :: errors) _). cbn. by rewrite Hl.
      * right. split; [apply (stops_later [_]); [set_solver|done]|]. by destruct out as [|[]].
  - intros _r _. cbn.
    eapply always_seq; [apply first_pass_told; pose proof (stops_told _ Hs); set_solver|].
    intros out tr' [Hq Hn]. cbn. rewrite app_nil_r. right. split; [by apply stops_quiet|]. by destruct out as [|[]].
Qed.

Lemma second_pass_seen before operation left tried :
  always before (second_pass operation policy download_path (Z.of_nat (S left)) tried)
    (done_or_stopped (fun out tr => SecondPass (S left) tried tr out) no_download).
Proof.
  revert before. induction tried as [|[url state] tried IH]; intros before.
  { left. split; [apply not_elem_of_nil|constructor]. }
  cbn [second_pass]. destruct (worth_retrying state) eqn:Hw; cbn [negb].
  - intros [|] _; cbn [nbind]; [right; split; [apply stops_here; constructor|done]|].
    eapply always_seq; [apply wait_seen|]. intros waited tr [[-> ->]|[-> ->]]; cbn [negb];
      [|right; split; [apply stops_here; constructor|done]].
    eapply always_seq; [by apply (run_attempts_seen _ _ left)|]. cbn [sa_policy sa_url sa_spent_before].
    intros answer tr [[Hs Hb]|[Hs [made ->]]].
    + destruct answer as [[]|[e made]].
      * left. split; [cbn; rewrite app_nil_r; set_solver|]. cbn. rewrite app_nil_r. by apply second_found.
      * intros _r _. cbn.
        eapply always_seq; [apply IH|]. intros out tr' [[Hs' Hf]|[Hs' Hn]]; cbn; rewrite app_nil_r.
        -- left. split; [set_solver|]. by apply second_failed.
        -- right. split; [|by destruct out as [|[]]].
           apply (stops_later (_ :: tr)); [set_solver|done].
    + intros _r _. cbn.
      eapply always_seq; [apply second_pass_told; pose proof (stops_told _ Hs); set_solver|].
      intros out tr' [Hq Hn]. cbn. rewrite app_nil_r. right. split; [|by destruct out as [|[]]].
      apply (stops_later [_]); [set_solver|]. by apply stops_quiet.
  - eapply always_seq; [apply IH|]. intros out tr [[Hs Hf]|[Hs Hn]]; cbn; rewrite app_nil_r.
    + left. split; [done|]. by apply second_skipped.
    + right. split; [done|]. by destruct out as [|[]].
Qed.
End Walk.

(** *** What the schedule amounts to *)

Section Schedule.
Context `{JitterApi}.
Abbreviation seen := (list (Seen HttpOriginError unit)).

Definition is_transfer (s : Seen HttpOriginError unit) : bool := match s with STransfer _ _ _ => true | _ => false end.
Definition transfer_count (tr : seen) : nat := length (filter (fun s => is_transfer s = true) tr).
Definition succeeded (tr : seen) : Prop := exists url attempt, STransfer url attempt (Ok tt) ∈ tr.

Lemma transfer_count_app tr tr' : transfer_count (tr ++ tr') = (transfer_count tr + transfer_count tr')%nat.
Proof. unfold transfer_count. by rewrite filter_app, length_app. Qed.
Lemma transfer_count_cons s tr :
  transfer_count (s :: tr) = ((if is_transfer s then 1 else 0) + transfer_count tr)%nat.
Proof. unfold transfer_count. rewrite filter_cons. by destruct (is_transfer s). Qed.
Lemma succeeded_app tr tr' : succeeded (tr ++ tr') <-> succeeded tr \/ succeeded tr'.
Proof. unfold succeeded. setoid_rewrite elem_of_app. naive_solver. Qed.
Lemma succeeded_cons s tr : succeeded (s :: tr) <-> (exists url attempt, s = STransfer url attempt (Ok tt)) \/ succeeded tr.
Proof. unfold succeeded. setoid_rewrite elem_of_cons. naive_solver. Qed.
Lemma succeeded_nil : ~ succeeded [].
Proof. intros (? & ? & Hin). by apply not_elem_of_nil in Hin. Qed.

Lemma burst_counts policy url spent index left tr r :
  Burst asks policy url spent index left tr r ->
  (transfer_count tr <= left)%nat /\ (is_ok r = true <-> succeeded tr).
Proof.
  induction 1 as [index left []|index left e _|index left e after tr r _ _ [IHc IHs]];
    rewrite !transfer_count_cons, !succeeded_cons; cbn.
  - split; [lia|]. split; [by left; eauto|done].
  - split; [lia|]. split; [done|]. intros [(? & ? & [=])|Hs]. by apply succeeded_nil in Hs.
  - split; [lia|]. rewrite IHs. naive_solver.
Qed.
Lemma failures_counts urls errors :
  length errors = length urls -> transfer_count (failures urls errors) = length urls /\ ~ succeeded (failures urls errors).
Proof.
  revert errors. induction urls as [|url urls IH]; intros [|e errors] Hl; try done.
  - split; [done|apply succeeded_nil].
  - destruct (IH errors) as [Hc Hs]; [by injection Hl|].
    change (failures (url :: urls) (e :: errors)) with (STransfer (T := unit) url 1 (Err e) :: failures urls errors).
    rewrite transfer_count_cons, succeeded_cons, Hc. split; [done|]. intros [(? & ? & [=])|?]. done.
Qed.

(** Whether a pass ends with a file. *)
Definition found {A : Type} (out : result (result HttpOriginError path) A) : bool :=
  match out with Err (Ok _) => true | _ => false end.

Lemma first_pass_counts download_path urls tr out :
  FirstPass download_path urls tr out -> (transfer_count tr <= length urls)%nat /\ (found out = true <-> succeeded tr).
Proof.
  intros [before url after errors -> Hl|errors Hl].
  - destruct (failures_counts before errors Hl) as [Hc Hs]. rewrite transfer_count_app, succeeded_app, transfer_count_cons.
    rewrite Hc, length_app. split; [cbn; lia|]. split; [|done]. intros _. right. apply succeeded_cons. left. eauto.
  - destruct (failures_counts urls errors Hl) as [Hc Hs]. split; [lia|]. by split.
Qed.
Lemma second_pass_counts policy download_path left tried tr out :
  SecondPass policy download_path left tried tr out ->
  (transfer_count tr <= left * length tried)%nat /\ (found out = true <-> succeeded tr).
Proof.
  assert (Hkeep : forall (out : result (result HttpOriginError path) (list UrlAttemptState)) state,
    found (states <- out ;; Ok (state :: states)) = found out) by (by intros [|[]] ?).
  induction 1 as [|url state rest tr out _ _ [IHc IHs]|url state rest tr _ Hb|url state rest tr e made tr' out _ Hb _ [IHc IHs]].
  - split; [cbn; lia|]. split; [done|]. intros Hs. by apply succeeded_nil in Hs.
  - rewrite Hkeep. cbn [length]. split; [lia|done].
  - destruct (burst_counts _ _ _ _ _ _ _ Hb) as [Hc Hs]. rewrite transfer_count_cons, succeeded_cons. cbn.
    split; [nia|]. split; [|done]. intros _. right. by apply Hs.
  - destruct (burst_counts _ _ _ _ _ _ _ Hb) as [Hc Hs]. rewrite transfer_count_cons, transfer_count_app, succeeded_cons, succeeded_app.
    rewrite Hkeep, IHs. cbn in *. split; [nia|]. naive_solver.
Qed.
Lemma first_pass_states download_path urls tr states :
  FirstPass download_path urls tr (Ok states) -> length states = length urls.
Proof. inversion 1 as [|errors Hl]. unfold tried_once. by rewrite length_map. Qed.

Lemma walk_counts policy download_path urls tr r :
  1 <= attempts policy -> Walk policy download_path urls tr r ->
  (transfer_count tr <= Z.to_nat (attempts policy) * length urls)%nat /\ (is_ok r = true <-> succeeded tr).
Proof.
  intros Hp. assert (Hleft : Z.to_nat (attempts policy) = S (Z.to_nat (attempts policy - 1))) by lia.
  assert (Hend : forall ended : result HttpOriginError path,
    is_ok ended = found (A := list UrlAttemptState) (Err ended)) by (by intros []).
  assert (Htwo : forall states tr tr' out, FirstPass download_path urls tr (Ok states) ->
    SecondPass policy download_path (Z.to_nat (attempts policy - 1)) (combine urls states) tr' out ->
    (transfer_count (tr ++ tr') <= Z.to_nat (attempts policy) * length urls)%nat /\ (found out = true <-> succeeded (tr ++ tr'))).
  { intros states tr1 tr' out Hf Hs. pose proof (first_pass_states _ _ _ _ Hf) as Hl.
    destruct (first_pass_counts _ _ _ _ Hf) as [Hc1 Hs1]. destruct (second_pass_counts _ _ _ _ _ _ Hs) as [Hc2 Hs2].
    rewrite length_combine, Hl, Nat.min_id in Hc2. rewrite transfer_count_app, succeeded_app, Hleft, Hs2.
    split; [lia|]. split; [by right|]. intros [Hs'|Hs']; [|done]. by apply Hs1 in Hs'. }
  intros [message|tr1 ended Hf|tr1 states tr' ended Hf Hs|tr1 states tr' states' Hf Hs].
  - split; [cbn; lia|]. split; [done|]. intros Hs. by apply succeeded_nil in Hs.
  - rewrite Hend. destruct (first_pass_counts _ _ _ _ Hf) as [Hc Hs]. split; [nia|done].
  - rewrite Hend. by eapply Htwo.
  - destruct (Htwo _ _ _ _ Hf Hs) as [Hc Hs']. split; [done|]. by rewrite <-Hs'.
Qed.

(** *** The schedule, from the failures themselves

    The relations above follow the program's records of its URLs.  The schedule below
    knows no records: it speaks of the errors of the transfers, of which one asks for
    another attempt exactly if it is a network failure that says so, perhaps with the
    delay that the server wants. *)
Definition asks_again (e : HttpOriginError) (after : option Duration) : Prop :=
  exists message, e = NetworkFailed message (After after).

(** What is told of a URL that failed: the attempts made and the last error. *)
Record Tale := mkTale { tale_url : bytes; tale_attempts : Z; tale_error : HttpOriginError }.
Definition tale_line (t : Tale) : string :=
  show (tale_url t)
  +:+ (if tale_attempts t <=? 1 then EmptyString else " (after " +:+ show_z (tale_attempts t) +:+ " attempts)")
  +:+ ": " +:+ http_message (tale_error t).
Definition complaint (tales : list Tale) : string :=
  "all download URLs failed:" +:+ show (10%Z :: lit "  - ")
  +:+ String.concat (show (10%Z :: lit "  - ")) (map tale_line tales).

(** The URLs that failed once, in order: one whose error asks for it gets, behind the wait
    before a second attempt, a burst of [left] more; the others are left alone.  [None]
    stands for a transfer that succeeded. *)
Inductive Retried (policy : HttpRetryPolicy) (left : nat)
  : list (bytes * HttpOriginError) -> seen -> option (list Tale) -> Prop :=
| retried_end : Retried policy left [] [] (Some [])
| retried_not url e rest tr out :
    (forall after, ~ asks_again e after) -> Retried policy left rest tr out ->
    Retried policy left ((url, e) :: rest) tr (option_map (cons (mkTale url 1 e)) out)
| retried_found url e after rest tr :
    asks_again e after -> Burst asks_again policy url 1 1 left tr (Ok tt) ->
    Retried policy left ((url, e) :: rest) (SWait (delay_before policy 2 after url) :: tr) None
| retried_failed url e after rest tr e' made tr' out :
    asks_again e after -> Burst asks_again policy url 1 1 left tr (Err (e', made)) ->
    Retried policy left rest tr' out ->
    Retried policy left ((url, e) :: rest) (SWait (delay_before policy 2 after url) :: tr ++ tr')
      (option_map (cons (mkTale url (1 + made) e')) out).

(** The walk: a stale file that cannot be removed; a URL that answers at its first attempt;
    all URLs failed once, and one answers when it is tried again; and all failed. *)
Inductive Schedule (download_path : path) (urls : list bytes) : seen -> result HttpOriginError path -> Prop :=
| schedule_stale message : Schedule download_path urls [] (Err (FsFailed message))
| schedule_first before url after errors :
    urls = before ++ url :: after -> length errors = length before ->
    Schedule download_path urls (failures before errors ++ [STransfer url 1 (Ok tt)]) (Ok download_path)
| schedule_again errors tr :
    length errors = length urls -> Retried production_policy 3 (combine urls errors) tr None ->
    Schedule download_path urls (failures urls errors ++ tr) (Ok download_path)
| schedule_failed errors tr tales :
    length errors = length urls -> Retried production_policy 3 (combine urls errors) tr (Some tales) ->
    Schedule download_path urls (failures urls errors ++ tr) (Err (NetworkFailed (complaint tales) Never)).

Lemma asks_asks_again e after : asks e after <-> asks_again e after.
Proof.
  unfold asks, asks_again. cbn. destruct e; cbn; split; try done; try (by intros [? ?]).
  - intros ->. by eexists.
  - by intros (? & [= _ ->]).
Qed.
Lemma record_worth state e made :
  (worth_retrying (record state e made) = false -> forall after, ~ asks_again e after) /\
  (worth_retrying (record state e made) = true -> asks_again e (retry_after (record state e made))).
Proof.
  split; cbn.
  - intros Hw after [message ->]. done.
  - destruct e as [|? [|after]| | |]; try done. cbn. by eexists.
Qed.

Lemma retried_as_recorded policy download_path left urls errors tr out :
  SecondPass policy download_path left (combine urls (tried_once errors)) tr out -> length errors = length urls ->
  match out with
  | Err ended => ended = Ok download_path /\ Retried policy left (combine urls errors) tr None
  | Ok states =>
      exists tales, Retried policy left (combine urls errors) tr (Some tales) /\
        map (fun '(url, state) => describe state url) (combine urls states) = map tale_line tales
  end.
Proof.
  revert errors tr out. induction urls as [|url urls IH]; intros [|e errors] tr out Hs Hl; try done; cbn in Hs, Hl.
  { inversion Hs; subst. exists []. by split; [constructor|]. }
  set (state := record untried e 1) in Hs. destruct (record_worth untried e 1) as [Hnot Hasks]. fold state in Hnot, Hasks.
  assert (Hline : describe state url = tale_line (mkTale url 1 e)) by done.
  inversion Hs as [|? ? ? ? out' Hw Hrest|? ? ? tr' Hw Hb|? ? ? tr1 e' made tr2 out' Hw Hb Hrest]; subst; clear Hs; cbn [combine].
  - specialize (IH errors tr out' Hrest ltac:(lia)). destruct out' as [states|ended]; cbn.
    + destruct IH as (tales & Hr & Hd). exists (mkTale url 1 e :: tales). split.
      * exact (retried_not _ _ _ _ _ _ (Some tales) (Hnot Hw) Hr).
      * exact (f_equal2 cons Hline Hd).
    + destruct IH as [-> Hr]. split; [done|]. exact (retried_not _ _ _ _ _ _ None (Hnot Hw) Hr).
  - split; [done|]. apply (retried_found _ _ _ _ _ _ _ (Hasks Hw)).
    by apply (burst_same asks); [apply asks_asks_again|].
  - specialize (IH errors tr2 out' Hrest ltac:(lia)).
    apply (burst_same asks asks_again) in Hb; [|apply asks_asks_again].
    destruct out' as [states|ended]; cbn.
    + destruct IH as (tales & Hr & Hd). exists (mkTale url (1 + made) e' :: tales). split.
      * exact (retried_failed _ _ _ _ _ _ _ _ _ _ (Some tales) (Hasks Hw) Hb Hr).
      * exact (f_equal2 cons eq_refl Hd).
    + destruct IH as [-> Hr]. split; [done|]. exact (retried_failed _ _ _ _ _ _ _ _ _ _ None (Hasks Hw) Hb Hr).
Qed.

Lemma show_app a b : show (a ++ b) = show a +:+ show b.
Proof. unfold show. rewrite map_app. induction (map _ a) as [|c l IH]; cbn; [done|by rewrite IH]. Qed.
Lemma show_lit s : show (lit s) = s.
Proof.
  unfold show, lit. rewrite map_map. rewrite (map_ext _ (fun c => c)).
  - by rewrite map_id, String.string_of_list_ascii_of_string.
  - intros c. by rewrite Nat2Z.id, Ascii.ascii_nat_embedding.
Qed.
Lemma show_join sep lines : show (join_with sep (map lit lines)) = String.concat (show sep) lines.
Proof.
  induction lines as [|line [|next lines] IH]; [done|cbn; apply show_lit|].
  change (map lit (line :: next :: lines)) with (lit line :: map lit (next :: lines)).
  cbn [map join_with] in *. rewrite !show_app, show_lit, IH. done.
Qed.

Lemma walk_schedule download_path urls tr r :
  Walk production_policy download_path urls tr r -> Schedule download_path urls tr r.
Proof.
  assert (Hfirst : forall tr out, FirstPass download_path urls tr out ->
    match out with
    | Err ended => Schedule download_path urls tr ended
    | Ok states => exists errors, length errors = length urls /\ tr = failures urls errors /\ states = tried_once errors
    end).
  { intros tr' out [before url after errors Hu Hl|errors Hl]; [by eapply schedule_first|by exists errors]. }
  intros [message|tr1 ended Hf|tr1 states tr' ended Hf Hs|tr1 states tr' states' Hf Hs]; [constructor|by apply Hfirst in Hf| |].
  all: apply Hfirst in Hf; destruct Hf as (errors & Hl & -> & ->); pose proof (retried_as_recorded _ _ _ _ _ _ _ Hs Hl) as Hr.
  - destruct Hr as [-> Hr]. by apply schedule_again.
  - destruct Hr as (tales & Hr & Hd). replace (all_failed urls states') with (NetworkFailed (complaint tales) Never);
      [by apply schedule_failed|].
    unfold all_failed, fatal_network, complaint. do 3 f_equal. rewrite <-Hd, <-show_join, map_map.
    do 2 f_equal. apply map_ext. by intros [].
Qed.

Lemma stops_after (tr before after : seen) :
  stops tr -> tr = before ++ SCancelled :: after -> quiet after.
Proof.
  intros (b & a & -> & Hb & Ha) Ht. revert before Ht. induction b as [|s b IH]; intros before Ht.
  - destruct before as [|s' before]; cbn in Ht; simplify_eq; [done|]. by apply Forall_app in Ha as [_ Ha%Forall_inv_tail].
  - destruct before as [|s' before]; cbn in Ht; injection Ht as ? Ht; [set_solver|].
    apply (IH ltac:(set_solver) before Ht).
Qed.

Lemma download_seen name urls temp_dir :
  always [] (download_first_success name urls temp_dir)
    (done_or_stopped (fun r tr => Walk production_policy (temp_dir ++ [lit "download.blob"]) urls tr r)
       (fun r => is_ok r = false)).
Proof.
  unfold download_first_success. cbn zeta. set (download_path := temp_dir ++ [lit "download.blob"]).
  match goal with |- context [nbind (first_pass _ _ _ _) ?f] => set (rest := f) end.
  assert (Hwalk : forall before,
    always before (nbind (first_pass (SourceOperation name) production_policy download_path urls) rest)
      (done_or_stopped (fun r tr => Walk production_policy download_path urls tr r) (fun r => is_ok r = false))).
  { intros before. eapply always_seq; [apply first_pass_seen|]. unfold rest.
    intros out tr [[Hs Hf]|[Hs Hn]]; destruct out as [states|ended].
    - eapply always_seq; [apply (second_pass_seen _ _ _ _ 2)|]. intros out tr' [[Hs' Hf']|[Hs' Hn]]; destruct out as [states'|ended].
      + left. rewrite app_nil_r. split; [set_solver|]. by eapply walk_failed.
      + left. rewrite app_nil_r. split; [set_solver|]. by eapply walk_second.
      + right. rewrite app_nil_r. split; [by apply stops_later|done].
      + right. rewrite app_nil_r. split; [by apply stops_later|by destruct ended].
    - left. rewrite app_nil_r. split; [done|]. by apply walk_first.
    - eapply always_seq; [apply second_pass_told; pose proof (stops_told _ Hs); set_solver|].
      intros out tr' [Hq Hn']. destruct out as [states'|ended]; right; rewrite app_nil_r;
        (split; [by apply stops_quiet|]); [done|by destruct ended].
    - right. rewrite app_nil_r. split; [done|by destruct ended]. }
  intros [|] _; [|apply Hwalk]. intros [[]|error] _; [apply Hwalk|]. left. split; [set_solver|constructor].
Qed.

(** C22. A source's mirrors are walked as the program means to, unless the run is cancelled:
    every URL gets one attempt in order before any gets a second; then each URL whose
    failure was a network failure that asks for another attempt gets, in order, a wait
    and up to three more, one after another behind a wait of the policy (with the delay
    the server asked for), until one succeeds or fails for good; a URL whose failure does
    not ask for it gets none.  At most four transfers are made per URL, and the walk
    succeeds exactly when a transfer does, which is then its last; the failure names each
    URL in order, how often it was tried and its last error. *)
Theorem mirror_walk_schedule name urls temp_dir tr r :
  runs [] (download_first_success name urls temp_dir) tr r -> SCancelled ∉ tr ->
  Schedule (temp_dir ++ [lit "download.blob"]) urls tr r /\
  (transfer_count tr <= 4 * length urls)%nat /\ (is_ok r = true <-> succeeded tr).
Proof.
  intros Hr Hs. destruct (always_runs _ _ _ (download_seen name urls temp_dir) _ _ Hr) as [[_ Hw]|[Hs' _]].
  - split; [by apply walk_schedule|]. by apply (walk_counts production_policy) in Hw.
  - by apply stops_told in Hs'.
Qed.

(** C23. Cancellation stops the walk: once the task was told that the run is cancelled, at
    a check, while it waited for a permit or for a retry, or during a transfer, it makes
    no further transfer and no further wait, and it does not report success. *)
Theorem cancelled_walk_stops name urls temp_dir before after r :
  runs [] (download_first_success name urls temp_dir) (before ++ SCancelled :: after) r ->
  quiet after /\ is_ok r = false.
Proof.
  intros Hr. destruct (always_runs _ _ _ (download_seen name urls temp_dir) _ _ Hr) as [[Hs _]|[Hs Hn]].
  - set_solver.
  - split; [by eapply stops_after|done].
Qed.
End Schedule.
