(* ===== verification/NetworkToy.v ===== *)
(** * Downloads on concrete inputs

    A server as a function answers every transfer, nothing is cancelled, and the
    programs are evaluated; and the theorems of [NetworkPool] and [NetworkWalk] are
    applied to such runs. *)

From S2P Require Import Prelude Errors Posix Http Reader Network NetworkPool NetworkWalk.
Local Open Scope Z_scope.

Section Play.
Context {E T : Type} `{!ScheduledNetworkError E} (serve : bytes -> u32 -> result E T).

(** A run in which the server answers, every permit is free, every wait completes, no
    file is left over and the run is not cancelled. *)
Definition calmly (o : NetOp) : option (Answer E T o) :=
  match o with
  | NIsCancelled | NExists _ => Some false
  | NHostPermit _ | NGlobalPermit | NSleep _ => Some true
  | NDropHost _ | NDropGlobal | NEmit _ | NDiscard _ => Some tt
  | NTransfer _ url attempt => Some (Some (mkTransferred (serve url attempt) 0 None 0))
  | NRemoveFile _ => Some (Ok tt)
  | NUnreachable _ => None
  end.
Fixpoint play {A : Type} (m : net E T A) : option (list (Seen E T) * A) :=
  match m with
  | NRet a => Some ([], a)
  | NDo o k =>
      match calmly o with
      | Some r => match play (k r) with Some (tr, a) => Some (sees o r ++ tr, a) | None => None end
      | None => None
      end
  end.

Hypothesis serve_cancels : forall url attempt e, serve url attempt = Err e -> is_cancelled e = false.

Lemma play_runs {A} before (m : net E T A) tr a :
  SCancelled ∉ before -> play m = Some (tr, a) -> runs before m tr a.
Proof.
  revert before tr. induction m as [a'|o k IH]; intros before tr Hb Hp; [cbn in Hp; simplify_eq; constructor|].
  cbn in Hp. destruct (calmly o) as [r|] eqn:Hr; [|done]. destruct (play (k r)) as [[tr' a']|] eqn:Hk; [|done].
  injection Hp as <- ->. assert (Hc : consistent before o r /\ SCancelled ∉ sees o r).
  { destruct o; cbn in Hr; simplify_eq; cbn; (split; [try done|try by apply not_elem_of_nil]).
    - by destruct (serve url attempt) eqn:Hs; [|eapply serve_cancels].
    - set_solver.
    - set_solver. }
  destruct Hc as [Hc Hs]. constructor; [done|]. apply IH; [set_solver|done].
Qed.
End Play.

(** A mirror that is busy twice, one that is gone, and one that serves. *)
Definition busy : bytes := lit "https://user@busy.example:443/a.tar.gz".
Definition gone : bytes := lit "http://gone.example/a.tar.gz".
Definition good : bytes := lit "https://good.example/a.tar.gz".
Definition server (busy_for : u32) (url : bytes) (attempt : u32) : result HttpOriginError unit :=
  if bytes_eqb url busy then
    if attempt <=? busy_for then Err (status_error url 503 "503 Service Unavailable" (Some (lit " 7 "))) else Ok tt
  else if bytes_eqb url gone then Err (status_error url 404 "404 Not Found" None)
  else Ok tt.
Lemma server_cancels busy_for url attempt e : server busy_for url attempt = Err e -> is_cancelled e = false.
Proof. unfold server. repeat case_match; intros [= <-]; done. Qed.

Definition temp_dir : path := [lit "work"; lit "tmp"].
Definition blob : path := temp_dir ++ [lit "download.blob"].
Definition walk_of (busy_for : u32) (urls : list bytes) :=
  play (server busy_for) (download_first_success (H := longest_jitter) (lit "a") urls temp_dir).

(** The next mirror is tried before the first gets another attempt. *)
Example next_mirror_first :
  walk_of 2 [busy; gone; good] =
  Some ([STransfer busy 1 (server 2 busy 1); STransfer gone 1 (server 2 gone 1); STransfer good 1 (Ok tt)], Ok blob).
Proof. vm_compute. reflexivity. Qed.

(** Only the busy mirror is worth coming back to, after what it asked for and the jitter;
    its attempts are counted across the passes. *)
Example busy_mirror_again :
  match walk_of 2 [gone; busy] with
  | Some ([STransfer u1 1 (Err _); STransfer u2 1 (Err _); SWait d2; STransfer u3 2 (Err _); SWait d3; STransfer u4 3 (Ok _)], Ok p) =>
      [u1; u2; u3; u4] = [gone; busy; busy; busy] /\ from_secs 10 < d2 < from_secs 11 /\ d2 = d3 /\ p = blob
  | _ => False
  end.
Proof. vm_compute. repeat split; discriminate || reflexivity. Qed.

(** The failure names what became of each mirror. *)
Example all_mirrors_fail :
  match walk_of 9 [gone; busy] with
  | Some (tr, Err e) =>
      transfer_count tr = 5%nat /\
      lit (http_message e) =
        lit "all download URLs failed:" ++ 10 :: lit "  - http://gone.example/a.tar.gz: failed to download 'http://gone.example/a.tar.gz': HTTP 404 Not Found"
        ++ 10 :: lit "  - https://user@busy.example:443/a.tar.gz (after 4 attempts): failed to download 'https://user@busy.example:443/a.tar.gz': HTTP 503 Service Unavailable"
  | _ => False
  end.
Proof. vm_compute. done. Qed.

Example host_of_url : url_host busy = lit "busy.example".
Proof. reflexivity. Qed.
Example reason_of_error : retry_reason "failed to download 'x': HTTP 503 Service Unavailable" = "http 5xx"%string.
Proof. reflexivity. Qed.

Lemma mirror_walk_schedule_witness :
  match walk_of 2 [gone; busy] with
  | Some (tr, r) => (transfer_count tr <= 8)%nat /\ (is_ok r = true <-> succeeded tr)
  | None => False
  end.
Proof.
  destruct (walk_of 2 [gone; busy]) as [[tr r]|] eqn:Hw; [|vm_compute in Hw; discriminate].
  assert (Hs : SCancelled ∉ tr) by (vm_compute in Hw; injection Hw as <- _; set_solver).
  refine (proj2 (mirror_walk_schedule (H := longest_jitter) (lit "a") [gone; busy] temp_dir tr r _ Hs)).
  apply (play_runs (server 2)); [apply server_cancels|apply not_elem_of_nil|exact Hw].
Defined.

(** Cancelled while the first transfer is under way. *)
Lemma cancelled_walk_stops_witness :
  exists after r, quiet (E := HttpOriginError) (T := unit) after /\ is_ok (E := HttpOriginError) (A := path) r = false.
Proof.
  pose (m := download_first_success (H := longest_jitter) (lit "a") [busy; good] temp_dir).
  assert (Hr : runs [] m ([] ++ SCancelled :: [SCancelled]) (Err cancelled_error)).
  { unfold m, download_first_success. cbn.
    eapply (runs_do _ (NExists _) _ false); [exact I|]. cbn.
    eapply (runs_do _ NIsCancelled _ false); [set_solver|]. cbn.
    eapply (runs_do _ NIsCancelled _ false); [set_solver|]. cbn.
    eapply (runs_do _ (NHostPermit _) _ true); [exact I|]. cbn.
    eapply (runs_do _ NGlobalPermit _ true); [exact I|]. cbn.
    eapply (runs_do _ NIsCancelled _ false); [set_solver|]. cbn.
    eapply (runs_do _ (NEmit _) _ tt); [exact I|]. cbn.
    eapply (runs_do _ (NTransfer _ _ _) _ None); [exact I|]. cbn.
    eapply (runs_do _ (NDropHost _) _ tt); [exact I|]. cbn.
    eapply (runs_do _ NDropGlobal _ tt); [exact I|]. cbn.
    eapply (runs_do _ (NEmit _) _ tt); [exact I|]. cbn.
    eapply (runs_do _ (NRemoveFile _) _ (Ok tt)); [exact I|]. cbn.
    eapply (runs_do _ NIsCancelled _ true); [done|]. cbn. constructor. }
  exists [SCancelled], (Err cancelled_error).
  exact (cancelled_walk_stops (H := longest_jitter) (lit "a") [busy; good] temp_dir [] [SCancelled] _ Hr).
Defined.

(** ** A pool driven by hand

    The task whose turn it is takes its next operation if it gets it: a permit that is
    free; its transfers fail for good. *)

Section Drive.
Context `{JitterApi} (limits : NetworkLimits).

Definition grant {E T : Type} (error : E) (st : Shared) (o : NetOp) : option (Answer E T o * Shared) :=
  match o with
  | NIsCancelled => Some (token st, st)
  | NHostPermit host =>
      match available limits st host with
      | S n => Some (true, set_hosts st (<[host := n]> (hosts st)))
      | O => None
      end
  | NGlobalPermit => match global st with S n => Some (true, set_global st n) | O => None end
  | NDropHost host => Some (tt, set_hosts st (<[host := S (available limits st host)]> (hosts st)))
  | NDropGlobal => Some (tt, set_global st (S (global st)))
  | NTransfer _ _ _ => Some (Some (mkTransferred (Err error) 0 None 0), st)
  | NSleep _ => Some (true, st)
  | NExists _ => Some (false, st)
  | NEmit _ | NDiscard _ => Some (tt, st)
  | NRemoveFile _ => Some (Ok tt, st)
  | NUnreachable _ => None
  end.
Lemma grant_answers {E T} error st o r st' : grant (E := E) (T := T) error st o = Some (r, st') -> answers limits st o r st'.
Proof. destruct o; cbn; intros Hg; repeat case_match; simplify_eq; try done; by eexists. Qed.

Definition advance (st : Shared) (t : Task) : option (Shared * Task) :=
  match t with
  | mkTask _ _ _ _ (NRet _) => None
  | mkTask E T A e (NDo o k) =>
      match grant e st o with Some (r, st') => Some (st', mkTask E T A e (k r)) | None => None end
  end.
Lemma advance_moves st t st' t' : advance st t = Some (st', t') -> moves limits st t st' t'.
Proof.
  destruct t as [E T A e [a|o k]]; cbn; [done|]. destruct (grant e st o) as [[r st0]|] eqn:Hg; [|done].
  intros [= <- <-]. exists r. split; [by eapply grant_answers|done].
Qed.

(** The tasks in the order of their turns. *)
Fixpoint drive (turns : list nat) (c : Shared * list Task) : option (Shared * list Task) :=
  match turns with
  | [] => Some c
  | i :: turns' =>
      match c.2 !! i with
      | Some t => match advance c.1 t with Some (st, t') => drive turns' (st, <[i := t']> c.2) | None => None end
      | None => None
      end
  end.
Lemma drive_steps turns c c' : drive turns c = Some c' -> rtc (step limits) c c'.
Proof.
  revert c. induction turns as [|i turns IH]; intros [st ts] Hd; cbn in Hd; [by simplify_eq|].
  destruct (ts !! i) as [t|] eqn:Hi; [|done]. destruct (advance st t) as [[st' t']|] eqn:Ha; [|done].
  eapply rtc_l; [|by apply IH]. left. exists i, t, t'. split_and!; [done|by apply advance_moves|done].
Qed.
End Drive.

(** Two pulls from one registry, with a single connection: one transfers, and the other
    gets no permit until it is done. *)
Definition tight : NetworkLimits := mkNetworkLimits 1 ∅ 1.
Definition registry : bytes := lit "registry.example".
Definition pulls : list Job := [ImageJob registry (lit "a:1") temp_dir; ImageJob registry (lit "b:1") temp_dir].
Definition pool : Shared * list Task := start (H := longest_jitter) tight false pulls.
Definition transferring (turns : list nat) : option (list bool) :=
  option_map (fun c => map (transfers_on registry) c.2) (drive tight turns pool).

Example one_pull_transfers : transferring [0; 0; 0; 0; 1]%nat = Some [true; false].
Proof. vm_compute. reflexivity. Qed.
Example other_pull_waits : transferring [0; 0; 0; 0; 1; 1]%nat = None.
Proof. vm_compute. reflexivity. Qed.
Example other_pull_follows : transferring [0; 0; 0; 0; 1; 0; 0; 0; 0; 1; 1; 1]%nat = Some [false; true].
Proof. vm_compute. reflexivity. Qed.

Lemma connection_limits_hold_witness :
  match drive tight [0; 0; 0; 0; 1]%nat pool with
  | Some (st, ts) => (length (filter (fun t => transfers_on registry t = true) ts) <= 1)%nat
  | None => False
  end.
Proof.
  destruct (drive tight [0; 0; 0; 0; 1]%nat pool) as [[st ts]|] eqn:Hd; [|vm_compute in Hd; discriminate].
  exact (proj1 (connection_limits_hold (H := longest_jitter) tight false pulls st ts (drive_steps _ _ _ _ Hd)) registry).
Defined.

Lemma scheduled_tasks_end_witness :
  match drive tight [0; 0; 0; 0; 1]%nat pool with
  | Some c => inevitable tight (fun c => Forall finished c.2) c
  | None => False
  end.
Proof.
  destruct (drive tight [0; 0; 0; 0; 1]%nat pool) as [c|] eqn:Hd; [|vm_compute in Hd; discriminate].
  exact (scheduled_tasks_end (H := longest_jitter) tight false pulls c (drive_steps _ _ _ _ Hd)).
Defined.
